(* ===== verification/_CoqProject ===== *)
-Q . S2P
Prelude.v
Tlv.v
Encoder.v
Block.v
Codec.v
ValHeader.v
Ndn.v
NameTlv.v
Signature.v
Exclude.v
Selectors.v
Data.v
Interest.v
ValPacket.v
LpPacket.v
LpFragmenter.v
ValTables.v
Scheduler.v
LpReassembler.v
Pft.v
FaceTable.v
Double.v
ValLinkService.v
LinkSafety.v
ValStrategy.v
ValForwarder.v
ValMachine.v
ValGeo.v
Hashtable.v
NameTree.v
NfdTables.v
Fib.v
Pit.v
Cleanup.v
DeadNonceList.v
NameTreeWalk.v
NameSuccessor.v
Cs.v
Algorithm.v
RetxSuppression.v
Measurements.v
StrategyChoice.v
Forwarder.v
Strategies.v
TablesInv.v
StrategyChoiceProps.v
ForwarderInv.v
ForwarderSafety.v
StrategySafety.v
CsStore.v
ForwarderProps.v
StrategyProps.v
Node.v
NodeVal.v
NodeProps.v
Rib.v
RibInv.v
FibUpdater.v
FibUpdaterInv.v
RibQueue.v
RibQueueInv.v
RibInherit.v
RibFib.v
RibProps.v
