(* ===== verification/Prelude.v ===== *)
(** * A verification library for VAL, the Vehicle Adaptation Layer of ndnSIM

    The repository is ndnSIM (an NDN simulator on ns-3, with its copies of ndn-cxx and
    NFD) extended by VAL, a geographical forwarding layer for vehicular networks that
    sits between the NDN forwarder (NFD) and the network devices.  This library models
    VAL and the parts of ndn-cxx and NFD it rests on, and proves what makes them
    correct.

    ** The program

    A vehicle runs two forwarders.  NFD sees _geofaces_, one for each geographical area
    the node has heard of; the VAL forwarder (model/val/fw/val-forwarder.cpp) sees the
    network faces.  An Interest or Data that arrives from the radio is unpacked by the
    link service (model/val/face/val-link-service.cpp) into a VAL packet
    (model/val/val-packet.cpp): the network packet and a VAL header
    (model/val/val-header.cpp) with source area, destination area, position of the
    previous hop, root name and remaining hops.  The VAL forwarder first looks for the
    packet among those it is about to forward or has forwarded, the Pending Forwarding
    Table (model/val/table/val-pft.cpp): hearing a copy is an implicit acknowledgement
    or tells the node that another one was faster.  A new packet is remembered in the
    table of Interests or Data from the network (val-ifnt.cpp, val-dfnt.cpp) and handed
    to NFD through the geoface of its source area.  What NFD sends through a geoface
    comes back to the VAL forwarder, which asks its strategy
    (model/val/fw/val-distances-strategy.cpp) whether and after which delay to send;
    timers of ndn-cxx's scheduler then send and retransmit.  The link service encodes
    header and packet as fields of an NDNLPv2 packet, cut into fragments if necessary.

    NFD itself (NFD/daemon/fw/forwarder.cpp) keeps its tables on one name tree and runs
    packets through pipelines, which call the strategy chosen for the name; on vehicles
    that is the broadcast strategy (broadcast-strategy.cpp), which sends to an application
    or through one geoface.  The pipelines have hooks for VAL: they learn routes from what
    geofaces deliver, and tell VAL which pending Interests an answer concerns.

    ** Files, in dependency order

    - [Prelude]: results and faults, machine-width integers, octets, tactics, the hint
      database, lemmas on lists and options shared by all files.
    - [Tlv]: numbers of the TLV format (ndn-cxx/encoding/tlv.hpp).
    - [Encoder]: the growing buffer and the estimator as instances of one class
      [EncodingImpl] (encoder.cpp, estimator.cpp, block-helpers.cpp).
    - [Block]: TLV elements: construction, [parse], [get], [find], [remove], [encode]
      (block.cpp, block-helpers.cpp).
    - [Codec]: TLV numbers, blocks without wire encoding, nested encoding of elements by
      both encoders, and what it means that a decoder fails only with [tlv::Error].
    - [ValHeader]: the VAL header, its setters, encoder with cache and decoder.
    - [Ndn]: components, names and their order, URI escaping, tags; [NameTlv]: their
      codec, markers and numbers.
    - [Signature], [Exclude], [Selectors], [Data], [Interest]: the network packets of
      ndn-cxx, each with codec, setters and what is computed from it (exclude.cpp as an
      ordered map and as a set of components, matching of Interests and Data).
    - [ValPacket]: the VAL packet.
    - [LpPacket]: NDNLPv2 packets: field declarations, codecs, field access, encoding
      and decoding (ndn-cxx/lp).
    - [LpFragmenter], [LpReassembler]: NFD/daemon/face/lp-fragmenter.cpp and
      lp-reassembler.cpp.
    - [ValTables]: IFNT, DFNT and F2A (model/val/table).
    - [Scheduler]: the event queue and the scheduler over ns-3 (ndn-cxx/util/scheduler.cpp).
    - [Pft]: entries of the Pending Forwarding Table in a store, and the table.
    - [FaceTable]: faces, their VAL marks, and NFD's face table with its signals.
    - [Double]: the binary64 arithmetic and conversions the code uses.
    - [ValLinkService]: the link service, both directions; [LinkSafety]: its receive path
      on arbitrary octets.
    - [ValStrategy]: the strategy interface as a class with laws, and the distances
      strategy.
    - [ValForwarder]: every handler and timer callback of the VAL forwarder, the machine
      they form, and its invariant with the lemmas that each operation preserves it.
    - [ValMachine]: properties of reachable states and of runs.
    - [ValGeo]: properties of geofaces and of packets crossing to and from NFD.
    - [Hashtable], [NameTree]: NFD's name tree (NFD/daemon/table/name-tree*.cpp): the hash
      table of linked nodes, and the tree of entries with lookup, erasure, matching and
      iterators.
    - [NfdTables]: the entries that FIB, PIT, measurements and strategy choice attach to
      the name tree, the state they share, and the frame lemmas between them.
    - [Fib], [Pit]: NFD/daemon/table/fib*.cpp and pit*.cpp; [Cleanup]: cleanup.cpp, the
      removal of a face from both.
    - [DeadNonceList], [Measurements]: dead-nonce-list.cpp and measurements.cpp, with
      their timers.
    - [NameTreeWalk]: the partial enumeration of the name tree (name-tree-iterator.cpp)
      and the recursive walk it equals; [NameSuccessor]: successors of names (name.cpp,
      name-component.cpp).
    - [Cs]: the content store with its LRU policy (cs*.cpp).
    - [Algorithm]: scope control, duplicate nonces, producer regions (algorithm.cpp,
      network-region-table.cpp).
    - [StrategyChoice], [StrategyChoiceProps]: strategy-choice.cpp and the registry of
      strategy.cpp, and what the table promises.
    - [Forwarder]: the pipelines of forwarder.cpp, the actions and triggers of strategies
      (strategy.cpp, broadcast-strategy.cpp), the event loop.  The content store and the
      strategies are interfaces ([ContentStore], [Strategy]).
    - [RetxSuppression]: the two retransmission suppressions (retx-suppression*.cpp);
      [Strategies]: best-route, the older best-route and multicast
      (best-route-strategy2.cpp, best-route-strategy.cpp, multicast-strategy.cpp,
      process-nack-traits.cpp).
    - [TablesInv]: the invariant of all tables together and of their timers;
      [ForwarderInv]: that of the forwarder, and the laws of the interfaces
      ([ContentStoreLaws], [StrategyLaws]); [ForwarderSafety]: every pipeline keeps it, and
      the broadcast strategy its laws; [StrategySafety]: so do the other strategies;
      [CsStore]: the content store keeps its laws; [ForwarderProps], [StrategyProps]: what
      follows for runs of the forwarder, and what the strategies choose.
    - [Node]: NFD and VAL over one face table, as ndn-l3-protocol.cpp puts them together,
      with the calls through geofaces in both directions; [NodeVal]: what the composition
      needs of VAL and of its strategy ([ScopedStrategy]); [NodeProps]: runs of a node.
    - [Rib]: the routing information base (NFD/rib/route.hpp, rib-entry.cpp, rib.cpp);
      [RibInv]: its tree of entries and its other tables stay in order.
    - [FibUpdater]: the changes of the FIB for a change of the RIB (fib-updater.cpp);
      [FibUpdaterInv]: computing them ends well; [RibInherit], [RibFib]: what they are.
    - [RibQueue]: the queue of updates of the RIB (rib.cpp) and the commands to the FIB with
      their answers (fib-updater.cpp), as a state machine; [RibQueueInv]: its invariant;
      [RibProps]: what follows.

    ** How the code is represented

    Objects are records with the fields of the class; member functions are functions
    that return the changed record.  Objects that are shared and mutated through
    pointers (PFT entries, known to the table and to the callbacks of their timers) live
    in a store and are referred to by location.  Functions that can throw, violate an
    assertion or have undefined behaviour return a [result], and the [fault] says which
    of these happened; a function whose changes survive an exception returns its state
    beside the result.  Integers are [Z] with the wrap-around of their width written out
    ([u8], [u32], [u64]); octet strings are lists of bytes; [double] is [SpecFloat] with
    53 bits.  Calls into NFD, transmissions and signals are outputs, in the order of the
    calls.

    Code outside the modelled sources enters as classes and arguments: the ns-3
    simulator ([Ns3Simulator] with [Ns3Laws]), its mobility model and random variables
    ([Ns3Geometry] and arguments), the transport of a face ([transport]), random words and
    the parser of ISO times ([NetworkPackets]), SHA-256 (an argument), the hash functions
    of the name tree and the dead nonce list ([HashFunction], [SeededHash]), [std::sort]
    ([StdSort]) and the addresses of faces ([FaceAddresses]).  Each
    hypothesis on them has a concrete instance in a witness; nothing is assumed of the
    random words and the parser of ISO times.

    ** What the theorems show

    - Pending packets ([ValMachine]): the timers and the PFT stay consistent in every
      reachable state; a packet is transmitted at most four times; retransmissions end;
      a copy of a pending packet is dropped and cancels it exactly when it should.
    - Crossing to NFD ([ValGeo]): a new Interest enters NFD once, through the right
      geofaces; Data removes what waits for it; areas and geofaces correspond.
    - Transmission ([ValLinkService], [LinkSafety], [LpFragmenter], [LpReassembler],
      [LpPacket]): nothing over the MTU is sent and no assertion is violated while
      sending, with or without congestion marks; what was sent is received once, whatever
      the order of its fragments, if they keep the reassembly timeout; partial packets and
      drop timers belong to each other; octets from the network cause no failure that is
      not caught, but for one assertion and for what the parser of dates throws, and exactly
      the malformed packets are counted.
    - Network packets ([Data], [Interest], [Exclude]): what is encoded is decoded to the
      same packet, decoders fail only with the error their callers catch, an Exclude
      filter is the set its operations describe, matching is by the full name.
    - NFD tables ([Hashtable], [NameTree], [Fib], [Pit], [Cleanup]): the hash table is a
      finite map whatever its hash function and its resizing; the tree of prefixes stays
      consistent, and what one table does is invisible to the others; FIB and PIT are
      maps with longest prefix match and matching by Data; the removal of a face leaves
      nothing of it behind.
    - The other tables ([DeadNonceList], [Cs], [NameTreeWalk], [StrategyChoiceProps]): a
      dead nonce is remembered as long as the capacity allows; the content store is an LRU
      cache and finds the packet that the selectors ask for; the strategy choice is a map
      whose changes clear what the former strategy stored, and nothing else.
    - The forwarder ([ForwarderProps]): no admissible run makes it fail, for any strategies
      and content store that keep their laws; an Interest whose entry has expired is not
      forwarded again; Data reaches the faces that wait for it.
    - The strategies of NFD ([StrategyProps]): which next hop best-route takes for a new
      Interest and for a retransmission, which upstreams multicast reaches, and when a Nack
      is passed on.
    - The node ([NodeProps]): NFD and VAL together fail only where the strategy of VAL has
      no defined behaviour, and VAL's bound on transmissions holds of the node; a sample run
      shows overheard Data that is cached but not served to the network.
    - The RIB ([RibProps]): its entries form the forest of their names, whatever is inserted
      and erased; updates are settled one at a time and in order, none waits forever, and
      events fail in two known ways only, in runs without an answer that the face of an
      update does not exist while other commands of the update are out ([clean]), and what
      such answers do; where names have one origin of routes with the child-inherit flag
      alone and lose only their last route ([plain_update]), the FIB holds what the RIB says
      ([wanted]), and how it departs from it when a name keeps another route.
    - Strategy of VAL ([ValStrategy]): relaying towards an area makes progress and ends; the
      delays are ordered by distance within range; behaviour on the edges of the ranges.
    - Tables, packets and encodings: round trips, exact effect of each operation,
      equivalence of optimised and plain routines, errors of the decoders.

    Some theorems state what the code does where this is not what it means to do (an empty
    name tree entry left over by the FIB, a lookup in the content store for the rightmost
    child of a full name, a nonce shared by two faces, a stale cached header, timers beyond
    the signal range, hop count zero, removals from the F2A table, the cap of the area
    rows, FIB updates for inherited routes, a rejected route that is registered, an exception
    for a bad date that nothing catches); the manifest lists them as findings.  Others are hypotheses of the safety of the
    forwarder ([admissible]): names no longer than the name tree takes, with valid
    components, and freshness periods that fit.

    ** Fuel

    Loops that are not structural take a fuel argument: [parse_loop] and [populate] the
    number of octets (each iteration consumes at least one); the removal loop of the PFT
    [remove_fuel], the square of the length plus one, because it starts over after every
    erasure; the scheduler's loop any number of callbacks at least that of the due events
    (for the drop timers of reassembly the number of timers, [run_timers_done]);
    loops along the links of the name tree the number of its nodes, and loops up the tree
    its maximal depth plus one; the walk of the partial enumeration twice the number of
    nodes, and the searches of the content store the number of its entries; the loop up the
    tree of the RIB the length of the name plus one, and the walk down the number of entries
    plus one.  The number of buckets of a hash table stays in a list that is closed under its resizing ([counts_ok], evaluated for the initial 1024).
    The theorems show that the fuel is enough: [OutOfFuel] is not the result.

    ** Not modelled

    The strategies access, ASF, NCC, self-learning and client control, which no vehicle
    runs and whose estimators and probing are a subject of their own; the priority FIFO
    cache policy, which is not the default; NFD's generic link service with its reliability,
    which VAL replaces; the counters and log output of link services; the transports over
    ns-3 devices, since packets, queues and nodes are the simulator's; certificates,
    validation and key storage of ndn-cxx; the management protocol, which changes FIB and
    RIB through the operations modelled here, and readvertising; tools, helpers, applications,
    tracers and topology readers, which do not take part in forwarding.  The scheduler that
    the two forwarders of a node share is split into the events of each, which [Node] may
    execute in any order. *)

From stdpp Require Import base gmap strings list numbers.
From Stdlib Require Import Strings.Byte ZArith Lia.

Local Open Scope Z_scope.

(** ** Faults and results

    Every operation of the code that can fail returns a [result].  A fault says
    which way the C++ program leaves the normal path: a thrown exception, a
    failed [BOOST_ASSERT], or undefined behaviour of the language. *)
Inductive fault : Type :=
  | TlvError (what : string)
  | OutOfRange (what : string)
  | LengthError (what : string)
  | InvalidArgument (what : string)
  | BadCast (what : string)
  | RuntimeError (what : string)
  | AssertFailed (what : string)
  | UndefinedBehaviour (what : string)
  | OutOfFuel.

#[export] Instance fault_eq_dec : EqDecision fault.
Proof. solve_decision. Defined.

Inductive result (A : Type) : Type :=
  | Ok (a : A)
  | Err (e : fault).
Arguments Ok {A} _.
Arguments Err {A} _.

#[export] Instance result_eq_dec `{EqDecision A} : EqDecision (result A).
Proof. solve_decision. Defined.

#[export] Instance Ok_inj {A} : Inj (=) (=) (@Ok A).
Proof. by intros a b [= ->]. Qed.

#[export] Instance result_ret : MRet result := fun _ a => Ok a.
#[export] Instance result_bind : MBind result := fun _ _ f m =>
  match m with Ok a => f a | Err e => Err e end.
#[export] Instance result_fmap : FMap result := fun _ _ f m =>
  match m with Ok a => Ok (f a) | Err e => Err e end.

Declare Scope val_scope.
Delimit Scope val_scope with val.
Notation "'let*' x := m 'in' k" := (mbind (M:=result) (fun x => k) m)
  (at level 10, x pattern, m at level 100, k at level 200,
   format "'[v' 'let*'  x  :=  m  'in' '//' k ']'") : val_scope.
Notation "'assert!' c 'orelse' w ; k" :=
  (if c then k else Err (AssertFailed w))
  (at level 10, c at level 100, w at level 100, k at level 200) : val_scope.
Open Scope val_scope.

Lemma result_bind_Ok {A B} (m : result A) (f : A -> result B) b :
  mbind (M:=result) f m = Ok b <-> exists a, m = Ok a /\ f a = Ok b.
Proof.
  destruct m as [a|e]; cbn; split.
  - intros H. by exists a.
  - by intros (a' & [= <-] & H).
  - done.
  - by intros (a' & H & _).
Qed.

Definition is_ok {A} (r : result A) : bool :=
  match r with Ok _ => true | Err _ => false end.

(** ** Machine integers

    A w-bit unsigned integer is a [Z]; the conversions the code performs are
    written out as reductions modulo [2^w]. *)
Definition u8 (z : Z) : Z := z mod 2 ^ 8.
Definition u16 (z : Z) : Z := z mod 2 ^ 16.
Definition u32 (z : Z) : Z := z mod 2 ^ 32.
Definition u64 (z : Z) : Z := z mod 2 ^ 64.

Definition is_u8 (z : Z) : Prop := 0 <= z < 2 ^ 8.
Definition is_u32 (z : Z) : Prop := 0 <= z < 2 ^ 32.
Definition is_u64 (z : Z) : Prop := 0 <= z < 2 ^ 64.

Lemma u8_range z : is_u8 (u8 z).
Proof. apply Z.mod_pos_bound. lia. Qed.
Lemma u32_range z : is_u32 (u32 z).
Proof. apply Z.mod_pos_bound. lia. Qed.
Lemma u64_range z : is_u64 (u64 z).
Proof. apply Z.mod_pos_bound. lia. Qed.
Lemma u8_id z : is_u8 z -> u8 z = z.
Proof. apply Z.mod_small. Qed.
Lemma u32_id z : is_u32 z -> u32 z = z.
Proof. apply Z.mod_small. Qed.
Lemma u64_id z : is_u64 z -> u64 z = z.
Proof. apply Z.mod_small. Qed.

Create HintDb valdb.
#[export] Hint Resolve u8_range u32_range u64_range : valdb.

(** ** Octets and octet strings

    [std::string] and [ndn::Buffer] are both lists of octets here. *)
Abbreviation octets := (list byte).

Definition b2z (b : byte) : Z := Z.of_N (Byte.to_N b).
Definition z2b (z : Z) : byte :=
  match Byte.of_N (Z.to_N (u8 z)) with Some b => b | None => x00 end.
(** [str "A1"] is the octet string of a literal of the source. *)
Definition str (s : string) : octets := String.list_byte_of_string s.
(** [std::string::size] and [Buffer::size] as integers. *)
Definition zlen {A} (l : list A) : Z := Z.of_nat (length l).

#[export] Instance byte_eq_dec : EqDecision byte := Byte.byte_eq_dec.

Lemma b2z_range b : is_u8 (b2z b).
Proof.
  unfold b2z, is_u8. pose proof (Byte.to_N_bounded b). lia.
Qed.
#[export] Hint Resolve b2z_range : valdb.

Lemma z2b_b2z b : z2b (b2z b) = b.
Proof.
  unfold z2b. rewrite u8_id by apply b2z_range. unfold b2z.
  by rewrite N2Z.id, Byte.of_to_N.
Qed.

Lemma b2z_z2b z : b2z (z2b z) = u8 z.
Proof.
  unfold z2b. pose proof (u8_range z) as Hr. unfold is_u8 in Hr.
  destruct (Byte.of_N (Z.to_N (u8 z))) as [b|] eqn:E.
  - unfold b2z. apply Byte.to_of_N in E. rewrite E. lia.
  - exfalso. apply Byte.of_N_None_iff in E. lia.
Qed.

Lemma b2z_inj b1 b2 : b2z b1 = b2z b2 -> b1 = b2.
Proof. intros H. by rewrite <- (z2b_b2z b1), H, z2b_b2z. Qed.

Lemma zlen_nil {A} : zlen (@nil A) = 0.
Proof. done. Qed.
Lemma zlen_cons {A} (x : A) l : zlen (x :: l) = 1 + zlen l.
Proof. unfold zlen. cbn [length]. lia. Qed.
Lemma zlen_app {A} (l1 l2 : list A) : zlen (l1 ++ l2) = zlen l1 + zlen l2.
Proof. unfold zlen. rewrite length_app. lia. Qed.
Lemma zlen_nonneg {A} (l : list A) : 0 <= zlen l.
Proof. unfold zlen. lia. Qed.
Create Rewrite HintDb zlen.
#[export] Hint Rewrite @zlen_nil @zlen_cons @zlen_app : zlen.
#[export] Hint Resolve zlen_nonneg : valdb.

(** ** Tactics of the development *)

(** Case analysis on the conditionals and matches of the goal, closing the
    branches that computation or congruence settles. *)
Ltac val_cases :=
  repeat (case_match || case_decide || case_bool_decide);
  try done; try congruence.

(** Normalise list lengths and close with linear arithmetic. *)
Ltac zlen_lia := autorewrite with zlen in *; lia.

(** Turn boolean integer tests of the context into propositions. *)
Ltac zbool :=
  repeat match goal with
  | H : (_ && _)%bool = true |- _ => apply andb_true_iff in H as [? ?]
  | H : (_ =? _) = true |- _ => apply Z.eqb_eq in H
  | H : (_ =? _) = false |- _ => apply Z.eqb_neq in H
  | H : (_ <? _) = true |- _ => apply Z.ltb_lt in H
  | H : (_ <? _) = false |- _ => apply Z.ltb_ge in H
  | H : (_ <=? _) = true |- _ => apply Z.leb_le in H
  | H : (_ <=? _) = false |- _ => apply Z.leb_gt in H
  | H : (_ >? _) = true |- _ => apply Z.gtb_lt in H
  end.

(** ** Lists *)

(** [std::list::erase] of the first element that satisfies a test. *)
Fixpoint erase_first {A} (p : A -> bool) (l : list A) : list A :=
  match l with
  | [] => []
  | x :: l' => if p x then l' else x :: erase_first p l'
  end.

(** [std::find_if]: the first element that satisfies a test. *)
Fixpoint find_first {A} (p : A -> bool) (l : list A) : option A :=
  match l with
  | [] => None
  | x :: l' => if p x then Some x else find_first p l'
  end.

Section find_erase.
Context {A : Type} (p : A -> bool).
Implicit Types (l : list A) (x : A).

Lemma find_first_Some l x :
  find_first p l = Some x -> x ∈ l /\ p x = true.
Proof.
  induction l as [|y l IH]; cbn; [done|]. destruct (p y) eqn:E.
  - intros [= ->]. split; [left|done].
  - intros H. destruct (IH H). split; [by right|done].
Qed.

Lemma find_first_None l :
  find_first p l = None <-> forall x, x ∈ l -> p x = false.
Proof.
  induction l as [|y l IH]; cbn.
  - split; [intros _ x Hx; by apply elem_of_nil in Hx|done].
  - destruct (p y) eqn:E; split.
    + done.
    + intros H. rewrite (H y) in E; [done|left].
    + intros H x Hx. apply elem_of_cons in Hx as [->|Hx]; [done|].
      by apply IH.
    + intros H. apply IH. intros x Hx. apply H. by right.
Qed.

Lemma find_first_app l1 l2 :
  find_first p (l1 ++ l2) =
  match find_first p l1 with Some x => Some x | None => find_first p l2 end.
Proof. induction l1 as [|y l IH]; cbn; [done|]. by destruct (p y). Qed.

Lemma find_first_filter l : find_first p l = head (List.filter p l).
Proof. induction l as [|y l IH]; cbn; [done|]. by destruct (p y). Qed.

Lemma existsb_find_first l :
  existsb p l = match find_first p l with Some _ => true | None => false end.
Proof. induction l as [|y l IH]; cbn; [done|]. by destruct (p y). Qed.

Lemma erase_first_not_found l :
  find_first p l = None -> erase_first p l = l.
Proof.
  induction l as [|y l IH]; cbn; [done|]. destruct (p y); [done|].
  intros H. by rewrite IH.
Qed.

Lemma erase_first_length l :
  is_Some (find_first p l) -> length l = S (length (erase_first p l)).
Proof.
  induction l as [|y l IH]; cbn; [by intros [? ?]|].
  destruct (p y); [done|]. intros H. cbn. by rewrite <- IH.
Qed.

Lemma erase_first_sublist l : erase_first p l `sublist_of` l.
Proof.
  induction l as [|y l IH]; cbn; [constructor|].
  destruct (p y); [by constructor|by constructor].
Qed.

Lemma elem_of_erase_first l x : x ∈ erase_first p l -> x ∈ l.
Proof.
  induction l as [|y l IH]; cbn; [done|]. destruct (p y).
  - intros H. by right.
  - rewrite !elem_of_cons. intros [->|H]; [by left|right; auto].
Qed.

Lemma elem_of_erase_first_ne l x :
  x ∈ l -> p x = false -> x ∈ erase_first p l.
Proof.
  induction l as [|y l IH]; cbn; [done|]. rewrite elem_of_cons.
  intros [->|H] Hp.
  - rewrite Hp. left.
  - destruct (p y); [done|right; auto].
Qed.

Lemma NoDup_erase_first l : NoDup l -> NoDup (erase_first p l).
Proof. intros H. by eapply sublist_NoDup, erase_first_sublist. Qed.
End find_erase.

Lemma erase_first_perm {A} (p : A -> bool) l x :
  find_first p l = Some x -> l ≡ₚ x :: erase_first p l.
Proof.
  induction l as [|y l IH]; cbn; [done|]. destruct (p y).
  - by intros [= ->].
  - intros H. rewrite (IH H) at 1. constructor.
Qed.
