(* ===== verification/Tlv.v ===== *)
(** * NDN-TLV numbers (ndn-cxx/encoding/tlv.hpp)

    The variable-size numbers of the NDN-TLV format: the two implementations of
    [detail::ReadNumber], the readers built on them, the writers, and the round
    trips between them.  An iterator range [begin, end) is the list of its
    octets; a reader returns the octets after the ones it consumed. *)

From stdpp Require Import base list strings.
From Stdlib Require Import Strings.Byte ZArith Lia.
From S2P Require Import Prelude.

Local Open Scope Z_scope.

(** ** Big-endian integers *)

(** The [n] octets of [boost::endian::native_to_big] of an [8n]-bit integer. *)
Fixpoint be_bytes (n : nat) (z : Z) : octets :=
  match n with
  | O => []
  | S m => z2b (Z.shiftr z (8 * Z.of_nat m)) :: be_bytes m z
  end.

(** [boost::endian::big_to_native] of the octets copied by [std::memcpy]. *)
Definition be_value (bs : octets) : Z :=
  foldl (fun acc b => Z.lor (Z.shiftl acc 8) (b2z b)) 0 bs.

Definition be_value_from (acc : Z) (bs : octets) : Z :=
  foldl (fun acc b => Z.lor (Z.shiftl acc 8) (b2z b)) acc bs.

Lemma length_be_bytes n z : length (be_bytes n z) = n.
Proof. induction n as [|n IH]; cbn; [done|by rewrite IH]. Qed.

Lemma lor_shiftl_add acc b : Z.lor (Z.shiftl acc 8) (b2z b) = acc * 256 + b2z b.
Proof.
  rewrite Z.shiftl_mul_pow2 by lia. change (2 ^ 8) with 256.
  pose proof (b2z_range b) as Hb. unfold is_u8 in Hb.
  rewrite Z.lor_comm. pose proof (Z.add_lor_land (b2z b) (acc * 256)) as E.
  replace (Z.land (b2z b) (acc * 256)) with 0 in E; [lia|].
  symmetry. apply Z.bits_inj'. intros i Hi. rewrite Z.bits_0, Z.land_spec.
  destruct (decide (i < 8)).
  - replace (acc * 256) with (acc * 2 ^ 8) by lia.
    rewrite Z.mul_pow2_bits_low by lia. apply andb_false_r.
  - rewrite (Z.bits_above_log2 (b2z b) i); [done|lia|].
    destruct (decide (b2z b = 0)) as [->|]; [cbn; lia|].
    apply Z.log2_lt_pow2; [lia|]. apply Z.lt_le_trans with (2 ^ 8); [lia|].
    apply Z.pow_le_mono_r; lia.
Qed.

Lemma be_value_from_bytes n z acc :
  be_value_from acc (be_bytes n z) = acc * 2 ^ (8 * Z.of_nat n) + z mod 2 ^ (8 * Z.of_nat n).
Proof.
  revert acc. induction n as [|n IH]; intros acc.
  - cbn. rewrite Z.mod_1_r. lia.
  - change (be_value_from acc (be_bytes (S n) z)) with
      (be_value_from (Z.lor (Z.shiftl acc 8) (b2z (z2b (Z.shiftr z (8 * Z.of_nat n)))))
         (be_bytes n z)).
    rewrite IH, lor_shiftl_add, b2z_z2b. unfold u8.
    replace (8 * Z.of_nat (S n)) with (8 * Z.of_nat n + 8) by lia.
    rewrite Z.shiftr_div_pow2 by lia.
    assert (0 < 2 ^ (8 * Z.of_nat n)) by (apply Z.pow_pos_nonneg; lia).
    rewrite Z.pow_add_r by lia. rewrite (Z.rem_mul_r z) by lia. lia.
Qed.

Lemma be_value_bytes n z :
  0 <= z < 2 ^ (8 * Z.of_nat n) -> be_value (be_bytes n z) = z.
Proof.
  intros H. change (be_value_from 0 (be_bytes n z) = z).
  rewrite be_value_from_bytes, Z.mod_small by done. lia.
Qed.

Lemma be_value_from_range bs acc :
  0 <= acc -> acc * 2 ^ (8 * zlen bs) <= be_value_from acc bs < (acc + 1) * 2 ^ (8 * zlen bs).
Proof.
  revert acc. induction bs as [|b bs IH]; intros acc Hacc.
  - change (acc * 1 <= acc < (acc + 1) * 1). lia.
  - change (be_value_from acc (b :: bs)) with
      (be_value_from (Z.lor (Z.shiftl acc 8) (b2z b)) bs).
    rewrite lor_shiftl_add. pose proof (b2z_range b) as Hb. unfold is_u8 in Hb.
    specialize (IH (acc * 256 + b2z b) ltac:(lia)).
    rewrite zlen_cons. replace (8 * (1 + zlen bs)) with (8 * zlen bs + 8) by lia.
    pose proof (zlen_nonneg bs).
    assert (0 < 2 ^ (8 * zlen bs)) by (apply Z.pow_pos_nonneg; lia).
    rewrite Z.pow_add_r by lia. change (2 ^ 8) with 256 in *. nia.
Qed.

Lemma be_value_range bs : 0 <= be_value bs < 2 ^ (8 * zlen bs).
Proof. pose proof (be_value_from_range bs 0 ltac:(lia)) as H. rewrite Z.mul_0_l, Z.mul_1_l in H. exact H. Qed.

(** ** [detail::ReadNumber] *)

(** [ReadNumberSlow]: the loop over an input iterator, one octet at a time. *)
Fixpoint readNumberSlow_loop (remaining : nat) (count number : Z) (bs : octets)
  : Z * Z * octets :=
  match remaining, bs with
  | S remaining', b :: bs' =>
    readNumberSlow_loop remaining' (count + 1) (Z.lor (Z.shiftl number 8) (b2z b)) bs'
  | _, _ => (count, number, bs)
  end.

Definition readNumberSlow (size : nat) (bs : octets) : option (Z * octets) :=
  let '(count, number, rest) := readNumberSlow_loop size 0 0 bs in
  if count =? Z.of_nat size then Some (number, rest) else None.

(** [ReadNumberFast]: a bounds test, then one copy per supported size; any other
    size fails an assertion. *)
Definition readNumberFast (size : nat) (bs : octets) : result (option (Z * octets)) :=
  if decide (length bs < size)%nat then Ok None
  else match size with
       | 1%nat | 2%nat | 4%nat | 8%nat => Ok (Some (be_value (take size bs), drop size bs))
       | _ => Err (AssertFailed "ReadNumberFast: size")
       end.

Definition number_size (n : nat) : Prop := (n = 1 \/ n = 2 \/ n = 4 \/ n = 8)%nat.

Lemma readNumberSlow_loop_spec rem count number bs :
  readNumberSlow_loop rem count number bs =
  (count + zlen (take rem bs), be_value_from number (take rem bs), drop rem bs).
Proof.
  revert count number bs. induction rem as [|rem IH]; intros count number bs.
  - cbn [readNumberSlow_loop firstn skipn]. unfold zlen; cbn; by rewrite Z.add_0_r.
  - destruct bs as [|b bs]; cbn [readNumberSlow_loop firstn skipn].
    + unfold zlen; cbn; by rewrite Z.add_0_r.
    + by rewrite IH, zlen_cons, Z.add_assoc.
Qed.

Lemma readNumberSlow_eq size bs :
  readNumberSlow size bs =
  if decide (length bs < size)%nat then None else Some (be_value (take size bs), drop size bs).
Proof.
  unfold readNumberSlow. rewrite readNumberSlow_loop_spec. unfold zlen.
  rewrite length_take. case_decide.
  - rewrite (proj2 (Z.eqb_neq _ _)); [done|lia].
  - rewrite (proj2 (Z.eqb_eq _ _)); [done|lia].
Qed.

(** ** Reading (tlv.hpp) *)

Section readers.
(** The reader a caller's iterator type selects; both agree on the sizes the
    format uses, so one parameter stands for the choice of
    [shouldSelectContiguousReadNumber]. *)
Definition readNumber (size : nat) (bs : octets) : option (Z * octets) :=
  match readNumberFast size bs with Ok o => o | Err _ => None end.

(** [bool readVarNumber(Iterator&, Iterator, uint64_t&) noexcept] *)
Definition readVarNumber (bs : octets) : option (Z * octets) :=
  match bs with
  | [] => None
  | first :: rest =>
    let firstOctet := b2z first in
    if firstOctet <? 253 then Some (firstOctet, rest)
    else readNumber (if firstOctet =? 253 then 2%nat
                     else if firstOctet =? 254 then 4%nat else 8%nat) rest
  end.

(** [bool readType(Iterator&, Iterator, uint32_t&) noexcept] *)
Definition readType (bs : octets) : option (Z * octets) :=
  match readVarNumber bs with
  | Some (number, rest) => if number >? 2 ^ 32 - 1 then None else Some (number, rest)
  | None => None
  end.

(** [uint64_t readVarNumber(Iterator&, Iterator)], which throws. *)
Definition readVarNumber_throw (bs : octets) : result (Z * octets) :=
  match bs with
  | [] => Err (TlvError "Empty buffer during TLV parsing")
  | _ =>
    match readVarNumber bs with
    | Some r => Ok r
    | None => Err (TlvError "Insufficient data during TLV parsing")
    end
  end.

(** [uint32_t readType(Iterator&, Iterator)], which throws. *)
Definition readType_throw (bs : octets) : result (Z * octets) :=
  let* (type, rest) := readVarNumber_throw bs in
  if type >? 2 ^ 32 - 1 then Err (TlvError "TLV-TYPE number exceeds allowed maximum")
  else Ok (type, rest).

(** [uint64_t readNonNegativeInteger(size_t, Iterator&, Iterator)] *)
Definition readNonNegativeInteger (size : nat) (bs : octets) : result (Z * octets) :=
  if negb ((size =? 1) || (size =? 2) || (size =? 4) || (size =? 8))%nat
  then Err (TlvError "Invalid length for nonNegativeInteger")
  else match readNumber size bs with
       | Some r => Ok r
       | None => Err (TlvError "Insufficient data during TLV parsing")
       end.
End readers.

(** ** Writing (tlv.hpp) *)

Definition sizeOfVarNumber (number : Z) : Z :=
  if number <? 253 then 1
  else if number <=? 2 ^ 16 - 1 then 3
  else if number <=? 2 ^ 32 - 1 then 5 else 9.

(** The octets [writeVarNumber] puts on the stream, and its return value. *)
Definition writeVarNumber (number : Z) : octets * Z :=
  if number <? 253 then ([z2b number], 1)
  else if number <=? 2 ^ 16 - 1 then (z2b 253 :: be_bytes 2 (u16 number), 3)
  else if number <=? 2 ^ 32 - 1 then (z2b 254 :: be_bytes 4 (u32 number), 5)
  else (z2b 255 :: be_bytes 8 number, 9).

Definition sizeOfNonNegativeInteger (integer : Z) : Z :=
  if integer <=? 2 ^ 8 - 1 then 1
  else if integer <=? 2 ^ 16 - 1 then 2
  else if integer <=? 2 ^ 32 - 1 then 4 else 8.

Definition writeNonNegativeInteger (integer : Z) : octets * Z :=
  if integer <=? 2 ^ 8 - 1 then ([z2b integer], 1)
  else if integer <=? 2 ^ 16 - 1 then (be_bytes 2 (u16 integer), 2)
  else if integer <=? 2 ^ 32 - 1 then (be_bytes 4 (u32 integer), 4)
  else (be_bytes 8 integer, 8).

(** The octets of a VAR-NUMBER and of a nonNegativeInteger. *)
Definition var_number (n : Z) : octets := (writeVarNumber n).1.
Definition nonneg_integer (n : Z) : octets := (writeNonNegativeInteger n).1.

(** ** Lemmas shared by the encoders and decoders *)

Lemma readNumber_app size bs rest :
  number_size size -> length bs = size ->
  readNumber size (bs ++ rest) = Some (be_value bs, rest).
Proof.
  intros Hs Hl. unfold readNumber, readNumberFast.
  rewrite length_app, decide_False by lia.
  rewrite <- Hl, take_app_length, drop_app_length, Hl.
  by destruct Hs as [-> | [-> | [-> | ->]]].
Qed.

Ltac number_size := first [left; reflexivity | right; number_size | reflexivity].

Lemma readNumber_be n size rest :
  number_size size -> 0 <= n < 2 ^ (8 * Z.of_nat size) ->
  readNumber size (be_bytes size n ++ rest) = Some (n, rest).
Proof.
  intros Hs Hn. rewrite readNumber_app by (try done; by rewrite length_be_bytes).
  by rewrite be_value_bytes.
Qed.

Lemma readVarNumber_var n rest :
  is_u64 n -> readVarNumber (var_number n ++ rest) = Some (n, rest).
Proof.
  unfold is_u64, var_number, writeVarNumber. intros Hn.
  repeat case_match; zbool; cbn [fst app]; unfold readVarNumber; rewrite b2z_z2b.
  - rewrite u8_id by (unfold is_u8; lia). by rewrite (proj2 (Z.ltb_lt _ _)).
  - unfold u16. rewrite Z.mod_small by lia. apply (readNumber_be _ 2); [number_size|lia].
  - unfold u32. rewrite Z.mod_small by lia. apply (readNumber_be _ 4); [number_size|lia].
  - apply (readNumber_be _ 8); [number_size|lia].
Qed.

Lemma zlen_be_bytes n z : zlen (be_bytes n z) = Z.of_nat n.
Proof. unfold zlen. by rewrite length_be_bytes. Qed.

Lemma writeVarNumber_length n : zlen (var_number n) = sizeOfVarNumber n.
Proof.
  unfold var_number, writeVarNumber, sizeOfVarNumber.
  repeat case_match; cbn [fst]; rewrite ?zlen_cons, ?zlen_be_bytes; reflexivity.
Qed.

Lemma writeVarNumber_ret n : (writeVarNumber n).2 = sizeOfVarNumber n.
Proof. unfold writeVarNumber, sizeOfVarNumber. by repeat case_match. Qed.

Lemma var_number_nonempty n : 0 < zlen (var_number n).
Proof.
  rewrite writeVarNumber_length. unfold sizeOfVarNumber. by repeat case_match.
Qed.

Lemma readVarNumber_throw_var n rest :
  is_u64 n -> readVarNumber_throw (var_number n ++ rest) = Ok (n, rest).
Proof.
  intros Hn. unfold readVarNumber_throw. rewrite readVarNumber_var by done.
  pose proof (var_number_nonempty n). by destruct (var_number n).
Qed.

Lemma readType_throw_var n rest :
  is_u32 n -> readType_throw (var_number n ++ rest) = Ok (n, rest).
Proof.
  unfold is_u32. intros Hn. unfold readType_throw.
  rewrite readVarNumber_throw_var by (unfold is_u64; lia). cbn.
  rewrite Z.gtb_ltb. case_match; zbool; [lia|done].
Qed.

Lemma readNonNegativeInteger_write n rest :
  is_u64 n ->
  readNonNegativeInteger (length (nonneg_integer n)) (nonneg_integer n ++ rest) = Ok (n, rest).
Proof.
  unfold is_u64, nonneg_integer, writeNonNegativeInteger. intros Hn.
  repeat case_match; zbool; cbn [fst]; unfold readNonNegativeInteger;
    rewrite ?length_be_bytes; cbn [length Nat.eqb orb negb].
  - replace [z2b n] with (be_bytes 1 n).
    + rewrite (readNumber_be _ 1); [done|number_size|lia].
    + cbn. by rewrite Z.shiftr_0_r.
  - unfold u16. rewrite Z.mod_small by lia.
    rewrite (readNumber_be _ 2); [done|number_size|lia].
  - unfold u32. rewrite Z.mod_small by lia.
    rewrite (readNumber_be _ 4); [done|number_size|lia].
  - rewrite (readNumber_be _ 8); [done|number_size|lia].
Qed.

(** A reader never returns more octets than it was given, and consumes at
    least one: the loops over [Block::parse] terminate because of this. *)
Lemma readVarNumber_consumes bs n rest :
  readVarNumber bs = Some (n, rest) -> (length rest < length bs)%nat.
Proof.
  unfold readVarNumber, readNumber, readNumberFast.
  destruct bs as [|b bs]; [done|]. intros H.
  repeat (case_match; simplify_eq); cbn [length]; rewrite ?length_drop; lia.
Qed.

Lemma readNumber_inv size bs n rest :
  readNumber size bs = Some (n, rest) ->
  (size <= 8)%nat /\ length bs = (size + length rest)%nat /\ 0 <= n < 2 ^ 64.
Proof.
  unfold readNumber, readNumberFast. case_decide; [done|]. intros Hn.
  pose proof (be_value_range (take size bs)) as Hr.
  unfold zlen in Hr. rewrite length_take in Hr.
  assert (Hs : (size <= 8)%nat /\ be_value (take size bs) = n /\ drop size bs = rest).
  { repeat (case_match; simplify_eq); split_and!; lia || done. }
  destruct Hs as (Hs & <- & <-). rewrite length_drop. split; [done|]. split; [lia|].
  split; [lia|]. eapply Z.lt_le_trans; [apply Hr|]. apply Z.pow_le_mono_r; lia.
Qed.

Lemma readVarNumber_range bs n rest : readVarNumber bs = Some (n, rest) -> is_u64 n.
Proof.
  unfold readVarNumber, is_u64.
  destruct bs as [|b bs]; [done|]. pose proof (b2z_range b) as Hb. unfold is_u8 in Hb.
  case_match; [intros; simplify_eq; lia|].
  intros Hn. by apply readNumber_inv in Hn as (_ & _ & ?).
Qed.

Lemma readVarNumber_throw_consumes bs n rest :
  readVarNumber_throw bs = Ok (n, rest) -> (length rest < length bs)%nat.
Proof.
  unfold readVarNumber_throw. destruct bs; [done|].
  destruct (readVarNumber _) as [[m r]|] eqn:E; [|done].
  intros [= -> ->]. by eapply readVarNumber_consumes.
Qed.

Lemma readType_throw_consumes bs n rest :
  readType_throw bs = Ok (n, rest) -> (length rest < length bs)%nat.
Proof.
  unfold readType_throw. intros ([m r] & E & H)%result_bind_Ok.
  apply readVarNumber_throw_consumes in E. by case_match; simplify_eq.
Qed.

Lemma readNonNegativeInteger_nonneg size bs n rest :
  readNonNegativeInteger size bs = Ok (n, rest) -> 0 <= n < 2 ^ 64.
Proof.
  unfold readNonNegativeInteger. case_match; [done|].
  destruct (readNumber size bs) as [[m r]|] eqn:E; [|done].
  intros [= <- <-]. apply readNumber_inv in E. tauto.
Qed.

(** ** Properties *)

(** The two number readers of [detail::ReadNumber] agree on every size the
    format uses: the unrolled reader for contiguous iterators returns exactly
    what the octet-by-octet loop returns, success and failure alike. *)
Theorem readNumberFast_readNumberSlow (size : nat) (bs : octets) (Hs : number_size size) :
  readNumberFast size bs = Ok (readNumberSlow size bs).
Proof.
  rewrite readNumberSlow_eq. unfold readNumberFast. case_decide; [done|].
  by destruct Hs as [-> | [-> | [-> | ->]]].
Qed.

Lemma readNumberFast_readNumberSlow_witness :
  readNumberFast 2 [x01; x02; x03] = Ok (Some (258, [x03])).
Proof.
  rewrite (readNumberFast_readNumberSlow 2 [x01; x02; x03]); [reflexivity|].
  right; left; reflexivity.
Defined.

(** A VAR-NUMBER written by [writeVarNumber] is read back by
    [readVarNumber], which leaves exactly the octets that followed, and its
    length is the one [sizeOfVarNumber] predicts. *)
Theorem varNumber_roundtrip (n : Z) (rest : octets) (Hn : is_u64 n) :
  readVarNumber_throw ((writeVarNumber n).1 ++ rest) = Ok (n, rest) /\
  zlen (writeVarNumber n).1 = sizeOfVarNumber n /\
  (writeVarNumber n).2 = sizeOfVarNumber n.
Proof.
  split; [by apply readVarNumber_throw_var|].
  split; [apply writeVarNumber_length|apply writeVarNumber_ret].
Qed.

Lemma varNumber_roundtrip_witness :
  readVarNumber_throw ((writeVarNumber 850).1 ++ [x07]) = Ok (850, [x07]).
Proof. apply (varNumber_roundtrip 850 [x07]). unfold is_u64. lia. Defined.
