(* ===== verification/Encoder.v ===== *)
(** * Encoders (ndn-cxx/encoding/encoder.cpp, estimator.cpp, block-helpers.cpp)

    [EncodingImpl<TAG>] is a class with two instances: [Encoder], a buffer that
    grows at the front and whose octets between [m_begin] and [m_end] are the
    encoding so far, and [Estimator], which only counts octets.  The functions
    templated over the tag are polymorphic in the instance.  The theorems show
    that the buffer's growth never loses or reorders octets, so that every
    prepend adds exactly its octets in front of the encoding, and that the
    estimator returns the length the encoder produces. *)

From stdpp Require Import base list strings.
From Stdlib Require Import Strings.Byte ZArith Lia.
From S2P Require Import Prelude Tlv.

Local Open Scope Z_scope.

(** ** The interface of [EncodingImpl<TAG>] *)
Class EncodingImpl (E : Type) := {
  prependByte : Z -> E -> Z * E;
  prependByteArray : octets -> E -> Z * E;
  prependVarNumber : Z -> E -> Z * E;
  prependNonNegativeInteger : Z -> E -> Z * E;
}.

(** [prependByteArrayBlock]: value, then TLV-LENGTH, then TLV-TYPE. *)
Definition prependByteArrayBlock `{EncodingImpl E} (type : Z) (array : octets) (e : E) : Z * E :=
  let '(n0, e) := prependByteArray array e in
  let '(n1, e) := prependVarNumber (zlen array) e in
  let '(n2, e) := prependVarNumber type e in
  (n0 + n1 + n2, e).

(** ** block-helpers.cpp *)

Definition prependNonNegativeIntegerBlock `{EncodingImpl E} (type value : Z) (e : E) : Z * E :=
  let '(valueLength, e) := prependNonNegativeInteger value e in
  let '(n1, e) := prependVarNumber valueLength e in
  let '(n2, e) := prependVarNumber type e in
  (valueLength + n1 + n2, e).

Definition prependEmptyBlock `{EncodingImpl E} (type : Z) (e : E) : Z * E :=
  let '(n1, e) := prependVarNumber 0 e in
  let '(n2, e) := prependVarNumber type e in
  (n1 + n2, e).

Definition prependStringBlock `{EncodingImpl E} (type : Z) (value : octets) (e : E) : Z * E :=
  prependByteArrayBlock type value e.

(** ** Encoder: the growing buffer *)

(** [m_buffer], [m_begin] and [m_end]; the iterators are offsets in the buffer. *)
Record Encoder := mkEncoder {
  m_buffer : octets;
  m_begin : nat;
  m_end : nat;
}.

(** [Encoder(size_t totalReserve, size_t reserveFromBack)] *)
Definition Encoder_new (totalReserve reserveFromBack : nat) : Encoder :=
  let pos := (totalReserve -
              (if decide (reserveFromBack < totalReserve) then reserveFromBack else 0))%nat in
  mkEncoder (replicate totalReserve x00) pos pos.

(** [Encoder::reserve]: reallocate, keeping the content at the back or at the
    front of the new buffer. *)
Definition reserve (size : nat) (addInFront : bool) (e : Encoder) : Encoder :=
  let old := length (m_buffer e) in
  let size := if decide (size < old)%nat then old else size in
  if addInFront then
    let diffEnd := (old - m_end e)%nat in
    let diffBegin := (old - m_begin e)%nat in
    mkEncoder (replicate (size - old) x00 ++ m_buffer e) (size - diffBegin) (size - diffEnd)
  else
    mkEncoder (m_buffer e ++ replicate (size - old) x00) (m_begin e) (m_end e).

Definition reserveBack (size : nat) (e : Encoder) : Encoder :=
  if decide (length (m_buffer e) < m_end e + size)%nat
  then reserve (length (m_buffer e) * 2 + size) false e else e.

Definition reserveFront (size : nat) (e : Encoder) : Encoder :=
  if decide (m_begin e < size)%nat
  then reserve (length (m_buffer e) * 2 + size) true e else e.

(** [std::copy] of [bs] over the buffer from offset [pos]. *)
Definition write_at (pos : nat) (bs buf : octets) : octets :=
  take pos buf ++ bs ++ drop (pos + length bs) buf.

Definition Encoder_prependByteArray (array : octets) (e : Encoder) : Z * Encoder :=
  let e := reserveFront (length array) e in
  let b := (m_begin e - length array)%nat in
  (zlen array, mkEncoder (write_at b array (m_buffer e)) b (m_end e)).

Definition Encoder_prependByte (value : Z) (e : Encoder) : Z * Encoder :=
  let e := reserveFront 1 e in
  let b := (m_begin e - 1)%nat in
  (1, mkEncoder (write_at b [z2b value] (m_buffer e)) b (m_end e)).

Definition Encoder_appendByteArray (array : octets) (e : Encoder) : Z * Encoder :=
  let e := reserveBack (length array) e in
  (zlen array, mkEncoder (write_at (m_end e) array (m_buffer e)) (m_begin e) (m_end e + length array)).

Definition Encoder_appendByte (value : Z) (e : Encoder) : Z * Encoder :=
  let e := reserveBack 1 e in
  (1, mkEncoder (write_at (m_end e) [z2b value] (m_buffer e)) (m_begin e) (m_end e + 1)).

Definition Encoder_prependVarNumber (varNumber : Z) (e : Encoder) : Z * Encoder :=
  if varNumber <? 253 then
    (1, (Encoder_prependByte varNumber e).2)
  else if varNumber <=? 2 ^ 16 - 1 then
    (3, (Encoder_prependByte 253 (Encoder_prependByteArray (be_bytes 2 (u16 varNumber)) e).2).2)
  else if varNumber <=? 2 ^ 32 - 1 then
    (5, (Encoder_prependByte 254 (Encoder_prependByteArray (be_bytes 4 (u32 varNumber)) e).2).2)
  else
    (9, (Encoder_prependByte 255 (Encoder_prependByteArray (be_bytes 8 varNumber) e).2).2).

Definition Encoder_appendVarNumber (varNumber : Z) (e : Encoder) : Z * Encoder :=
  if varNumber <? 253 then
    (1, (Encoder_appendByte varNumber e).2)
  else if varNumber <=? 2 ^ 16 - 1 then
    (3, (Encoder_appendByteArray (be_bytes 2 (u16 varNumber)) (Encoder_appendByte 253 e).2).2)
  else if varNumber <=? 2 ^ 32 - 1 then
    (5, (Encoder_appendByteArray (be_bytes 4 (u32 varNumber)) (Encoder_appendByte 254 e).2).2)
  else
    (9, (Encoder_appendByteArray (be_bytes 8 varNumber) (Encoder_appendByte 255 e).2).2).

Definition Encoder_prependNonNegativeInteger (varNumber : Z) (e : Encoder) : Z * Encoder :=
  if varNumber <=? 2 ^ 8 - 1 then Encoder_prependByte varNumber e
  else if varNumber <=? 2 ^ 16 - 1 then Encoder_prependByteArray (be_bytes 2 (u16 varNumber)) e
  else if varNumber <=? 2 ^ 32 - 1 then Encoder_prependByteArray (be_bytes 4 (u32 varNumber)) e
  else Encoder_prependByteArray (be_bytes 8 varNumber) e.

Definition Encoder_appendNonNegativeInteger (varNumber : Z) (e : Encoder) : Z * Encoder :=
  if varNumber <=? 2 ^ 8 - 1 then Encoder_appendByte varNumber e
  else if varNumber <=? 2 ^ 16 - 1 then Encoder_appendByteArray (be_bytes 2 (u16 varNumber)) e
  else if varNumber <=? 2 ^ 32 - 1 then Encoder_appendByteArray (be_bytes 4 (u32 varNumber)) e
  else Encoder_appendByteArray (be_bytes 8 varNumber) e.

Definition Encoder_appendByteArrayBlock (type : Z) (array : octets) (e : Encoder) : Z * Encoder :=
  let '(n0, e) := Encoder_appendVarNumber type e in
  let '(n1, e) := Encoder_appendVarNumber (zlen array) e in
  let '(n2, e) := Encoder_appendByteArray array e in
  (n0 + n1 + n2, e).

#[export] Instance EncoderTag : EncodingImpl Encoder := {
  prependByte := Encoder_prependByte;
  prependByteArray := Encoder_prependByteArray;
  prependVarNumber := Encoder_prependVarNumber;
  prependNonNegativeInteger := Encoder_prependNonNegativeInteger;
}.

(** ** Estimator: no state *)
Record Estimator := mkEstimator {}.

Definition Estimator_prependVarNumber (varNumber : Z) : Z :=
  if varNumber <? 253 then 1
  else if varNumber <=? 2 ^ 16 - 1 then 3
  else if varNumber <=? 2 ^ 32 - 1 then 5 else 9.

Definition Estimator_prependNonNegativeInteger (varNumber : Z) : Z :=
  if varNumber <=? 2 ^ 8 - 1 then 1
  else if varNumber <=? 2 ^ 16 - 1 then 2
  else if varNumber <=? 2 ^ 32 - 1 then 4 else 8.

#[export] Instance EstimatorTag : EncodingImpl Estimator := {
  prependByte _ e := (1, e);
  prependByteArray a e := (zlen a, e);
  prependVarNumber n e := (Estimator_prependVarNumber n, e);
  prependNonNegativeInteger n e := (Estimator_prependNonNegativeInteger n, e);
}.

(** ** What an encoder promises

    [enc_rel bs e e'] says that [e'] is [e] with [bs] added in front of its
    output.  An operation [f] [emits] the octets [bs] when, from a well-formed
    encoder, it returns their number and prepends them. *)
Class EncodingOk (E : Type) `{EncodingImpl E} := {
  enc_inv : E -> Prop;
  enc_rel : octets -> E -> E -> Prop;
  enc_rel_nil e : enc_rel [] e e;
  enc_rel_app b1 b2 e e1 e2 : enc_rel b1 e e1 -> enc_rel b2 e1 e2 -> enc_rel (b2 ++ b1) e e2;
  prependByte_ok v e : enc_inv e ->
    (prependByte v e).1 = 1 /\ enc_inv (prependByte v e).2 /\ enc_rel [z2b v] e (prependByte v e).2;
  prependByteArray_ok a e : enc_inv e ->
    (prependByteArray a e).1 = zlen a /\ enc_inv (prependByteArray a e).2 /\
    enc_rel a e (prependByteArray a e).2;
  prependVarNumber_ok n e : enc_inv e ->
    (prependVarNumber n e).1 = zlen (var_number n) /\ enc_inv (prependVarNumber n e).2 /\
    enc_rel (var_number n) e (prependVarNumber n e).2;
  prependNonNegativeInteger_ok n e : enc_inv e ->
    (prependNonNegativeInteger n e).1 = zlen (nonneg_integer n) /\
    enc_inv (prependNonNegativeInteger n e).2 /\
    enc_rel (nonneg_integer n) e (prependNonNegativeInteger n e).2;
}.

Definition emits `{EncodingOk E} (f : E -> Z * E) (bs : octets) : Prop :=
  forall e, enc_inv e -> (f e).1 = zlen bs /\ enc_inv (f e).2 /\ enc_rel bs e (f e).2.

(** The octets of a TLV element. *)
Definition tlv (type : Z) (value : octets) : octets :=
  var_number type ++ var_number (zlen value) ++ value.

Section clients.
Context `{EncodingOk E}.

Lemma emits_seq (f : E -> Z * E) (g : Z -> E -> Z * E) b1 b2 :
  emits f b1 -> emits (g (zlen b1)) b2 ->
  emits (fun e => let '(n0, e) := f e in let '(n1, e) := g n0 e in (n0 + n1, e)) (b2 ++ b1).
Proof.
  intros Hf Hg e He. destruct (Hf e He) as (H1 & H2 & H3).
  destruct (f e) as [n0 e1]. cbn in *. subst n0.
  destruct (Hg e1 H2) as (H4 & H5 & H6).
  destruct (g (zlen b1) e1) as [n1 e2]. cbn in *. subst n1.
  rewrite zlen_app. split; [lia|]. split; [done|]. by eapply enc_rel_app.
Qed.

Lemma emits_ext (f g : E -> Z * E) bs : (forall e, f e = g e) -> emits f bs -> emits g bs.
Proof. intros Hfg Hf e He. rewrite <- Hfg. by apply Hf. Qed.

Lemma emits_prependVarNumber n : emits (prependVarNumber n) (var_number n).
Proof. intros e. apply prependVarNumber_ok. Qed.
Lemma emits_prependByteArray a : emits (prependByteArray a) a.
Proof. intros e. apply prependByteArray_ok. Qed.
Lemma emits_prependNonNegativeInteger n :
  emits (prependNonNegativeInteger n) (nonneg_integer n).
Proof. intros e. apply prependNonNegativeInteger_ok. Qed.

(** [f], then [g] applied to the length of [f]'s octets: how the source
    writes a TLV element back to front. *)
Definition seq2 (f : E -> Z * E) (g : Z -> E -> Z * E) (e : E) : Z * E :=
  let '(n0, e) := f e in let '(n1, e) := g n0 e in (n0 + n1, e).

Lemma emits_element (f : E -> Z * E) type value :
  emits f value ->
  emits (seq2 (seq2 f prependVarNumber) (fun _ => prependVarNumber type)) (tlv type value).
Proof.
  intros Hf. apply emits_seq; [apply emits_seq; [done|]|]; apply emits_prependVarNumber.
Qed.

Lemma emits_prependByteArrayBlock type a : emits (prependByteArrayBlock type a) (tlv type a).
Proof.
  intros e He. destruct (emits_element _ type a (emits_prependByteArray a) e He) as (H1 & H2 & H3).
  unfold seq2 in *. unfold prependByteArrayBlock.
  destruct (prependByteArray_ok a e He) as (Hn & _ & _).
  destruct (prependByteArray a e) as [n0 e1]. cbn in Hn. subst n0.
  destruct (prependVarNumber (zlen a) e1) as [n1 e2].
  by destruct (prependVarNumber type e2).
Qed.

Lemma emits_prependStringBlock type a : emits (prependStringBlock type a) (tlv type a).
Proof. apply emits_prependByteArrayBlock. Qed.

Lemma emits_prependEmptyBlock type : emits (prependEmptyBlock type) (tlv type []).
Proof.
  unfold tlv. rewrite app_nil_r. change (zlen []) with 0.
  apply (emits_seq _ (fun _ => prependVarNumber type)); apply emits_prependVarNumber.
Qed.

Lemma emits_prependNonNegativeIntegerBlock type n :
  emits (prependNonNegativeIntegerBlock type n) (tlv type (nonneg_integer n)).
Proof.
  eapply emits_ext; [|apply (emits_element _ type _ (emits_prependNonNegativeInteger n))].
  intros e. unfold seq2, prependNonNegativeIntegerBlock.
  destruct (prependNonNegativeInteger n e) as [n0 e1].
  destruct (prependVarNumber n0 e1) as [n1 e2]. by destruct (prependVarNumber type e2).
Qed.
End clients.
#[export] Hint Resolve emits_prependVarNumber emits_prependByteArray
  emits_prependNonNegativeInteger emits_prependByteArrayBlock emits_prependStringBlock
  emits_prependEmptyBlock emits_prependNonNegativeIntegerBlock : valdb.

(** ** The buffer refines the list of octets *)

Definition wf_encoder (e : Encoder) : Prop :=
  (m_begin e <= m_end e <= length (m_buffer e))%nat.
(** The encoding so far: the octets of [\[m_begin, m_end)]. *)
Definition window (e : Encoder) : octets := take (m_end e - m_begin e) (drop (m_begin e) (m_buffer e)).

Lemma length_write_at pos bs buf :
  (pos + length bs <= length buf)%nat -> length (write_at pos bs buf) = length buf.
Proof. intros H. unfold write_at. rewrite !length_app, length_take, length_drop. lia. Qed.

Lemma reserve_window size front e :
  wf_encoder e -> wf_encoder (reserve size front e) /\ window (reserve size front e) = window e.
Proof.
  unfold wf_encoder, window, reserve. intros He. destruct front; case_decide; cbn;
    rewrite ?length_app, ?length_replicate.
  - split; [lia|]. rewrite Nat.sub_diag. cbn. f_equal; [lia|f_equal; lia].
  - split; [lia|]. f_equal; [lia|].
    rewrite drop_app_ge; rewrite length_replicate; [|lia]. f_equal. lia.
  - split; [lia|]. rewrite Nat.sub_diag. cbn. by rewrite app_nil_r.
  - split; [lia|]. rewrite drop_app_le by lia. rewrite take_app_le; [done|].
    rewrite length_drop. lia.
Qed.

Lemma reserveFront_ok n e :
  wf_encoder e -> wf_encoder (reserveFront n e) /\ window (reserveFront n e) = window e /\
  (n <= m_begin (reserveFront n e))%nat.
Proof.
  intros He. unfold reserveFront. case_decide as Hd.
  - destruct (reserve_window (length (m_buffer e) * 2 + n) true e He) as [H1 H2].
    split; [done|]. split; [done|]. unfold wf_encoder in He. unfold reserve.
    rewrite decide_False by lia. cbn. lia.
  - split; [done|]. split; [done|lia].
Qed.

Lemma reserveBack_ok n e :
  wf_encoder e -> wf_encoder (reserveBack n e) /\ window (reserveBack n e) = window e /\
  (m_end (reserveBack n e) + n <= length (m_buffer (reserveBack n e)))%nat.
Proof.
  intros He. unfold reserveBack. case_decide as Hd.
  - destruct (reserve_window (length (m_buffer e) * 2 + n) false e He) as [H1 H2].
    split; [done|]. split; [done|]. unfold wf_encoder in He. unfold reserve.
    rewrite decide_False by lia. cbn. rewrite length_app, length_replicate. lia.
  - split; [done|]. split; [done|lia].
Qed.

Lemma prepend_at e a :
  wf_encoder e -> (length a <= m_begin e)%nat ->
  let b := (m_begin e - length a)%nat in
  let e' := mkEncoder (write_at b a (m_buffer e)) b (m_end e) in
  wf_encoder e' /\ window e' = a ++ window e.
Proof.
  unfold wf_encoder, window. intros He Ha. cbn zeta. cbn [m_buffer m_begin m_end].
  rewrite length_write_at by lia. split; [lia|]. unfold write_at.
  rewrite drop_app_ge; rewrite length_take; [|lia].
  replace (_ - _ `min` _)%nat with 0%nat by lia. rewrite drop_0.
  replace (m_end e - (m_begin e - length a))%nat with (length a + (m_end e - m_begin e))%nat by lia.
  rewrite take_app_add. f_equal. f_equal. f_equal. lia.
Qed.

Lemma append_at e a :
  wf_encoder e -> (m_end e + length a <= length (m_buffer e))%nat ->
  let e' := mkEncoder (write_at (m_end e) a (m_buffer e)) (m_begin e) (m_end e + length a) in
  wf_encoder e' /\ window e' = window e ++ a.
Proof.
  unfold wf_encoder, window. intros He Ha. cbn zeta. cbn [m_buffer m_begin m_end].
  rewrite length_write_at by lia. split; [lia|]. unfold write_at.
  rewrite drop_app_le by (rewrite length_take; lia).
  rewrite <- skipn_firstn_comm.
  replace (m_begin e + (m_end e - m_begin e))%nat with (m_end e) by lia.
  rewrite app_assoc, take_app_le.
  - rewrite take_ge; [done|]. rewrite length_app, length_drop, length_take. lia.
  - rewrite length_app, length_drop, length_take. lia.
Qed.

Lemma Encoder_prependByteArray_ok a e :
  wf_encoder e ->
  wf_encoder (Encoder_prependByteArray a e).2 /\
  window (Encoder_prependByteArray a e).2 = a ++ window e.
Proof.
  intros He. destruct (reserveFront_ok (length a) e He) as (H1 & H2 & H3).
  unfold Encoder_prependByteArray. cbn [snd]. rewrite <- H2. by apply prepend_at.
Qed.

Lemma Encoder_prependByte_array v e :
  Encoder_prependByte v e = Encoder_prependByteArray [z2b v] e.
Proof. done. Qed.

Lemma Encoder_appendByteArray_ok a e :
  wf_encoder e ->
  wf_encoder (Encoder_appendByteArray a e).2 /\
  window (Encoder_appendByteArray a e).2 = window e ++ a.
Proof.
  intros He. destruct (reserveBack_ok (length a) e He) as (H1 & H2 & H3).
  unfold Encoder_appendByteArray. cbn [snd]. rewrite <- H2. by apply append_at.
Qed.

Ltac encoder_step :=
  repeat match goal with
  | |- context [Encoder_prependByte ?v ?e] => rewrite (Encoder_prependByte_array v e)
  | H : wf_encoder ?e |- context [(Encoder_prependByteArray ?a ?e).2] =>
    let H1 := fresh "Hwf" in let H2 := fresh "Hwin" in
    destruct (Encoder_prependByteArray_ok a e H) as [H1 H2];
    generalize dependent (Encoder_prependByteArray a e).2; intros
  end.

#[export] Instance Encoder_ok : EncodingOk Encoder.
Proof.
  refine {| enc_inv := wf_encoder; enc_rel bs e e' := window e' = bs ++ window e |}.
  - done.
  - intros b1 b2 e e1 e2 H1 H2. by rewrite H2, H1, app_assoc.
  - intros v e He. cbn [prependByte EncoderTag]. split; [done|].
    rewrite Encoder_prependByte_array. by apply Encoder_prependByteArray_ok.
  - intros a e He. cbn [prependByteArray EncoderTag]. split; [done|].
    by apply Encoder_prependByteArray_ok.
  - intros n e He. cbn [prependVarNumber EncoderTag].
    unfold Encoder_prependVarNumber, var_number, writeVarNumber.
    repeat case_match; cbn [fst snd]; encoder_step;
      (split; [by rewrite ?zlen_cons, ?zlen_be_bytes|]); split; try done.
    all: by rewrite Hwin0, Hwin.
  - intros n e He. cbn [prependNonNegativeInteger EncoderTag].
    unfold Encoder_prependNonNegativeInteger, nonneg_integer, writeNonNegativeInteger.
    repeat case_match; cbn [fst];
      (split; [done|]); rewrite ?Encoder_prependByte_array; by apply Encoder_prependByteArray_ok.
Defined.

#[export] Instance Estimator_ok : EncodingOk Estimator.
Proof.
  refine {| enc_inv _ := True; enc_rel _ _ _ := True |}; try done.
  - intros n e _. cbn. by rewrite writeVarNumber_length.
  - intros n e _. cbn. split; [|done].
    unfold Estimator_prependNonNegativeInteger, nonneg_integer, writeNonNegativeInteger.
    by repeat case_match.
Defined.

Lemma Encoder_new_wf total back : wf_encoder (Encoder_new total back).
Proof. unfold wf_encoder, Encoder_new. cbn. rewrite length_replicate. case_decide; lia. Qed.

Lemma Encoder_new_window total back : window (Encoder_new total back) = [].
Proof. unfold window, Encoder_new. cbn. by rewrite Nat.sub_diag. Qed.
#[export] Hint Resolve Encoder_new_wf : valdb.

(** The octets an encoding function leaves in a fresh buffer of any size. *)
Lemma emits_fresh (f : Encoder -> Z * Encoder) bs total back :
  emits f bs -> window (f (Encoder_new total back)).2 = bs.
Proof.
  intros Hf. destruct (Hf (Encoder_new total back) (Encoder_new_wf _ _)) as (_ & _ & H).
  change (window (f (Encoder_new total back)).2 = bs ++ window (Encoder_new total back)) in H.
  by rewrite H, Encoder_new_window, app_nil_r.
Qed.

(** ** Exact estimates: no reallocation

    [writes f bs]: [f] emits [bs], and when the buffer has room for [bs] in front of the
    encoding it neither reallocates the buffer nor moves the end of the encoding, so the
    iterators taken before remain valid. *)
Definition writes (f : Encoder -> Z * Encoder) (bs : octets) : Prop :=
  emits f bs /\
  forall e, wf_encoder e -> (length bs <= m_begin e)%nat ->
    length (m_buffer (f e).2) = length (m_buffer e) /\
    m_begin (f e).2 = (m_begin e - length bs)%nat /\ m_end (f e).2 = m_end e.

Lemma writes_prependByteArray a : writes (prependByteArray a) a.
Proof.
  split; [apply emits_prependByteArray|]. intros e He Ha. unfold wf_encoder in He.
  cbn [prependByteArray EncoderTag]. unfold Encoder_prependByteArray, reserveFront.
  rewrite decide_False by lia. cbn [snd m_buffer m_begin m_end].
  rewrite length_write_at by lia. done.
Qed.

Lemma writes_seq f (g : Z -> Encoder -> Z * Encoder) b1 b2 :
  writes f b1 -> writes (g (zlen b1)) b2 -> writes (seq2 f g) (b2 ++ b1).
Proof.
  intros [Hf Ff] [Hg Fg]. split; [by apply emits_seq|]. intros e He Hl.
  rewrite length_app in Hl. destruct (Hf e He) as (H1 & H2 & _).
  destruct (Ff e He ltac:(lia)) as (F1 & F2 & F3). unfold seq2.
  destruct (f e) as [n0 e1]. cbn [fst snd] in *. subst n0.
  destruct (Fg e1 H2 ltac:(lia)) as (F4 & F5 & F6).
  destruct (g (zlen b1) e1) as [n1 e2]. cbn [snd] in *. rewrite length_app. lia.
Qed.

Lemma writes_prependVarNumber n : writes (prependVarNumber n) (var_number n).
Proof.
  split; [apply emits_prependVarNumber|]. intros e He Hl.
  assert (H2 : forall a b, (length (a :: b) <= m_begin e)%nat ->
    let e' := (Encoder_prependByteArray [a] (Encoder_prependByteArray b e).2).2 in
    length (m_buffer e') = length (m_buffer e) /\
    m_begin e' = (m_begin e - length (a :: b))%nat /\ m_end e' = m_end e).
  { intros a b Hab. pose proof (writes_seq _ (fun _ => prependByteArray [a]) _ _
      (writes_prependByteArray b) (writes_prependByteArray [a])) as [_ Hw].
    exact (Hw e He Hab). }
  cbn [prependVarNumber EncoderTag] in *. revert Hl.
  unfold Encoder_prependVarNumber, var_number, writeVarNumber.
  repeat case_match; intros Hl; cbn [fst snd] in *; rewrite ?Encoder_prependByte_array;
    try (by apply H2). by apply writes_prependByteArray.
Qed.

Lemma writes_ext f g bs : (forall e, f e = g e) -> writes f bs -> writes g bs.
Proof.
  intros Hfg [H1 H2]. split; [by eapply emits_ext|]. intros e. rewrite <- Hfg. apply H2.
Qed.

Lemma writes_element f type value :
  writes f value ->
  writes (seq2 (seq2 f prependVarNumber) (fun _ => prependVarNumber type)) (tlv type value).
Proof.
  intros Hf. apply writes_seq; [apply writes_seq; [done|]|]; apply writes_prependVarNumber.
Qed.

Lemma prependByteArrayBlock_seq type a (e : Encoder) :
  prependByteArrayBlock type a e =
  seq2 (seq2 (prependByteArray a) prependVarNumber) (fun _ => prependVarNumber type) e.
Proof.
  unfold seq2, prependByteArrayBlock. cbn [prependByteArray EncoderTag].
  change (Encoder_prependByteArray a e) with (zlen a, (Encoder_prependByteArray a e).2).
  cbn beta iota. destruct (prependVarNumber (zlen a) _) as [n1 e2].
  by destruct (prependVarNumber type e2).
Qed.

Lemma writes_prependByteArrayBlock type a : writes (prependByteArrayBlock type a) (tlv type a).
Proof.
  eapply writes_ext; [|apply writes_element, writes_prependByteArray].
  intros e. by rewrite prependByteArrayBlock_seq.
Qed.
#[export] Hint Resolve writes_prependByteArray writes_prependVarNumber
  writes_prependByteArrayBlock : valdb.

(** ** Properties *)

(** Whatever the size of the buffer and however often it is reallocated,
    prepending an octet array to a well-formed [Encoder] leaves the array
    followed by the previous encoding between [m_begin] and [m_end], and
    appending one leaves the previous encoding followed by the array: the
    resizing of [reserveFront] and [reserveBack] preserves the content. *)
Theorem Encoder_refines_octets (a : octets) (e : Encoder) (He : wf_encoder e) :
  (wf_encoder (Encoder_prependByteArray a e).2 /\
   window (Encoder_prependByteArray a e).2 = a ++ window e) /\
  (wf_encoder (Encoder_appendByteArray a e).2 /\
   window (Encoder_appendByteArray a e).2 = window e ++ a).
Proof.
  split; [by apply Encoder_prependByteArray_ok|by apply Encoder_appendByteArray_ok].
Qed.

Lemma Encoder_refines_octets_witness :
  window (Encoder_prependByteArray [x01; x02] (mkEncoder [x05; x09] 1 2)).2 = [x01; x02; x09].
Proof.
  apply (Encoder_refines_octets [x01; x02] (mkEncoder [x05; x09] 1 2)).
  unfold wf_encoder; cbn; lia.
Defined.
