(* ===== verification/Block.v ===== *)
(** * TLV elements (ndn-cxx/encoding/block.cpp, block-helpers.cpp)

    A [Block] that has wire encoding: the octets of the element, its TLV-TYPE and
    its TLV-VALUE.  The buffer a block shares with others and its four iterators
    are represented by the octets they delimit; [m_elements] is what [parse]
    computes from the value. *)

From stdpp Require Import base list strings.
From Stdlib Require Import Strings.Byte ZArith Lia.
From S2P Require Import Prelude Tlv Encoder.

Local Open Scope Z_scope.

Record Block := mkBlock {
  block_wire : octets;   (* [m_begin, m_end) *)
  block_type : Z;        (* m_type *)
  block_value : octets;  (* [m_valueBegin, m_valueEnd) *)
}.

#[export] Instance Block_eq_dec : EqDecision Block.
Proof. solve_decision. Defined.

(** [m_size] of a block with wire encoding. *)
Definition block_size (b : Block) : Z := zlen (block_wire b).
Definition block_value_size (b : Block) : Z := zlen (block_value b).

(** [Block(ConstBufferPtr, begin, end, verifyLength)] *)
Definition Block_ofWire (wire : octets) (verifyLength : bool) : result Block :=
  match wire with
  | [] => Err (LengthError "buffer is empty")
  | _ =>
    let* (type, r1) := readType_throw wire in
    let* (length, value) := readVarNumber_throw r1 in
    if verifyLength && negb (length =? zlen value)
    then Err (TlvError "TLV-LENGTH doesn't match buffer size")
    else Ok (mkBlock wire type value)
  end.

(** [Block(const uint8_t*, size_t)]: octets after the element are ignored. *)
Definition Block_ofBuffer (buf : octets) : result Block :=
  let* (type, r1) := readType_throw buf in
  let* (length, pos) := readVarNumber_throw r1 in
  if length >? zlen pos
  then Err (TlvError "Not enough bytes in the buffer to fully parse TLV")
  else
    let typeLengthSize := (List.length buf - List.length pos)%nat in
    let wire := take (typeLengthSize + Z.to_nat length) buf in
    Ok (mkBlock wire type (drop typeLengthSize wire)).

(** [static std::tuple<bool, Block> fromBuffer(const uint8_t*, size_t)] *)
Definition Block_fromBuffer (buf : octets) : option Block :=
  match readType buf with
  | None => None
  | Some (type, r1) =>
    match readVarNumber r1 with
    | None => None
    | Some (length, pos) =>
      if length >? zlen pos then None
      else
        let typeLengthSize := (List.length buf - List.length pos)%nat in
        let wire := take (typeLengthSize + Z.to_nat length) buf in
        Some (mkBlock wire type (drop typeLengthSize wire))
    end
  end.

(** [Block::parse]: the loop over the TLV-VALUE; the fuel is the number of
    octets left, and every iteration consumes at least two of them. *)
Fixpoint parse_loop (fuel : nat) (begin : octets) : result (list Block) :=
  match begin with
  | [] => Ok []
  | _ =>
    match fuel with
    | O => Err OutOfFuel
    | S fuel' =>
      let* (type, r1) := readType_throw begin in
      let* (length, pos) := readVarNumber_throw r1 in
      if length >? zlen pos
      then Err (TlvError "TLV-LENGTH of sub-element exceeds TLV-VALUE boundary of parent block")
      else
        let n := Z.to_nat length in
        let wire := take (List.length begin - List.length pos + n)%nat begin in
        let* elements := parse_loop fuel' (drop n pos) in
        Ok (mkBlock wire type (take n pos) :: elements)
    end
  end.

Definition parse (b : Block) : result (list Block) :=
  parse_loop (length (block_value b)) (block_value b).

(** [operator==(const Block&, const Block&)]: type and value. *)
Definition Block_eqb (lhs rhs : Block) : bool :=
  (block_type lhs =? block_type rhs) &&
  (block_value_size lhs =? block_value_size rhs) &&
  ((block_value_size lhs =? 0) || bool_decide (block_value lhs = block_value rhs)).

(** ** Sub-elements *)

(** [Block::find]: the first sub-element of a type. *)
Definition block_find (type : Z) (elements : list Block) : option Block :=
  find_first (fun b => block_type b =? type) elements.

(** [Block::get] *)
Definition block_get (type : Z) (elements : list Block) : result Block :=
  match block_find type elements with
  | Some b => Ok b
  | None => Err (TlvError "No sub-element of the type is found")
  end.

(** [Block::remove]: every sub-element of a type. *)
Definition block_remove (type : Z) (elements : list Block) : list Block :=
  List.filter (fun b => negb (block_type b =? type)) elements.

(** [Block::encode(EncodingEstimator&)] of a block built from sub-elements; an
    element that has a value answers its [m_size]. *)
Definition encode_estimate (type : Z) (elements : list Block) : Z :=
  let len := foldr (fun el len => len + block_size el) 0 elements in
  let len := len + Estimator_prependVarNumber len in
  len + Estimator_prependVarNumber type.

(** [Block::encode(EncodingBuffer&)] of an element that has a value: the value, its
    length and the type, whatever octets the element was parsed from. *)
Definition encode_element (el : Block) (e : Encoder) : Z * Encoder :=
  let '(len, e) := prependByteArray (block_value el) e in
  let '(n1, e) := prependVarNumber len e in
  let '(n2, e) := prependVarNumber (block_type el) e in
  (len + n1 + n2, e).

(** The loop over the sub-elements, back to front. *)
Definition encode_elements (elements : list Block) (e : Encoder) : Z * Encoder :=
  foldr (fun el '(len, e) => let '(n, e) := encode_element el e in (len + n, e)) (0, e) elements.

(** What [encode] leaves in an element: iterators into the encoder's buffer. *)
Definition reencoded (el : Block) : Block :=
  mkBlock (tlv (block_type el) (block_value el)) (block_type el) (block_value el).

(** [Block::encode()] of a block without wire: estimate, encode, and keep iterators to
    the buffer ([m_end] from before the elements, [m_valueBegin] from after them); a
    reallocation in between would leave them pointing into different buffers. *)
Definition Block_encode (type : Z) (elements : list Block) : result (Block * list Block) :=
  let e0 := Encoder_new (Z.to_nat (encode_estimate type elements)) 0 in
  let '(len, e1) := encode_elements elements e0 in
  let '(_, e2) := prependVarNumber len e1 in
  let '(_, e3) := prependVarNumber type e2 in
  if decide (length (m_buffer e3) = length (m_buffer e0))
  then Ok (mkBlock (window e3) type (window e1), map reencoded elements)
  else Err (UndefinedBehaviour "iterators into a reallocated buffer").

(** ** block-helpers.cpp *)

(** [Encoder::block()] *)
Definition Encoder_block (e : Encoder) : result Block := Block_ofWire (window e) true.

(** The pattern of every [make...Block]: estimate, allocate that many octets,
    encode, take the block. *)
Definition encodeBlock (estimate : Estimator -> Z * Estimator) (encode : Encoder -> Z * Encoder)
  : result Block :=
  let totalLength := (estimate (mkEstimator)).1 in
  Encoder_block (encode (Encoder_new (Z.to_nat totalLength) 0)).2.

Definition makeNonNegativeIntegerBlock (type value : Z) : result Block :=
  encodeBlock (prependNonNegativeIntegerBlock type value) (prependNonNegativeIntegerBlock type value).

Definition makeEmptyBlock (type : Z) : result Block :=
  encodeBlock (prependEmptyBlock type) (prependEmptyBlock type).

Definition makeBinaryBlock (type : Z) (value : octets) : result Block :=
  encodeBlock (prependByteArrayBlock type value) (prependByteArrayBlock type value).

Definition makeStringBlock (type : Z) (value : octets) : result Block := makeBinaryBlock type value.

(** [encoding::readNonNegativeInteger(const Block&)] *)
Definition block_readNonNegativeInteger (b : Block) : result Z :=
  let* (n, _) := readNonNegativeInteger (length (block_value b)) (block_value b) in Ok n.

(** [encoding::readString(const Block&)] *)
Definition readString (b : Block) : octets := block_value b.

(** ** Lemmas *)

(** The canonical block of a type and a value. *)
Definition element (type : Z) (value : octets) : Block := mkBlock (tlv type value) type value.

Definition encodable (type : Z) (value : octets) : Prop := is_u32 type /\ is_u64 (zlen value).

Lemma tlv_nonempty type value rest : tlv type value ++ rest <> [].
Proof.
  unfold tlv. pose proof (var_number_nonempty type). by destruct (var_number type).
Qed.

Lemma zlen_to_nat {A} (l : list A) : Z.to_nat (zlen l) = length l.
Proof. unfold zlen. lia. Qed.

Lemma gtb_zlen_app {A} (l r : list A) : (zlen l >? zlen (l ++ r)) = false.
Proof. rewrite zlen_app, Z.gtb_ltb. apply Z.ltb_ge. pose proof (zlen_nonneg r). lia. Qed.

(** Reading the type and the length of an element back. *)
Lemma read_tl type value rest :
  encodable type value ->
  readType_throw (tlv type value ++ rest) = Ok (type, var_number (zlen value) ++ value ++ rest) /\
  readVarNumber_throw (var_number (zlen value) ++ value ++ rest) = Ok (zlen value, value ++ rest).
Proof.
  intros [Ht Hv]. unfold tlv. rewrite <- !app_assoc.
  by rewrite readType_throw_var, readVarNumber_throw_var.
Qed.

Lemma Block_ofWire_step wire verifyLength :
  wire <> [] ->
  Block_ofWire wire verifyLength =
  (let* (type, r1) := readType_throw wire in
   let* (length, value) := readVarNumber_throw r1 in
   if verifyLength && negb (length =? zlen value)
   then Err (TlvError "TLV-LENGTH doesn't match buffer size")
   else Ok (mkBlock wire type value)).
Proof. by destruct wire. Qed.

Lemma Block_ofWire_tlv type value :
  encodable type value -> Block_ofWire (tlv type value) true = Ok (element type value).
Proof.
  intros He. destruct (read_tl type value [] He) as [H1 H2]. rewrite !app_nil_r in *.
  pose proof (tlv_nonempty type value []) as Hne. rewrite app_nil_r in Hne.
  rewrite Block_ofWire_step by done. rewrite H1. cbn [mbind result_bind]. rewrite H2. cbn [mbind result_bind].
  by rewrite Z.eqb_refl.
Qed.

Lemma tlv_prefix_length type value rest :
  take (length (tlv type value ++ rest) - length (value ++ rest) + length value)
       (tlv type value ++ rest) = tlv type value.
Proof.
  rewrite take_app_le; [|unfold tlv; rewrite !length_app; lia].
  apply take_ge. unfold tlv. rewrite !length_app. lia.
Qed.

Lemma Block_ofBuffer_tlv type value rest :
  encodable type value -> Block_ofBuffer (tlv type value ++ rest) = Ok (element type value).
Proof.
  intros He. destruct (read_tl type value rest He) as [H1 H2].
  unfold Block_ofBuffer. rewrite H1. cbn [mbind result_bind]. rewrite H2. cbn [mbind result_bind].
  rewrite gtb_zlen_app, zlen_to_nat, tlv_prefix_length. unfold element. do 2 f_equal.
  unfold tlv. rewrite !length_app.
  replace (_ - _)%nat with (length (var_number type) + length (var_number (zlen value)))%nat by lia.
  by rewrite <- drop_drop, !drop_app_length.
Qed.

Lemma parse_loop_step fuel begin :
  begin <> [] ->
  parse_loop (S fuel) begin =
  (let* (type, r1) := readType_throw begin in
   let* (length, pos) := readVarNumber_throw r1 in
   if length >? zlen pos
   then Err (TlvError "TLV-LENGTH of sub-element exceeds TLV-VALUE boundary of parent block")
   else
     let n := Z.to_nat length in
     let* elements := parse_loop fuel (drop n pos) in
     Ok (mkBlock (take (List.length begin - List.length pos + n)%nat begin) type (take n pos)
         :: elements)).
Proof. by destruct begin. Qed.

Lemma parse_loop_element fuel type value rest :
  encodable type value ->
  parse_loop (S fuel) (tlv type value ++ rest) =
  (let* els := parse_loop fuel rest in Ok (element type value :: els)).
Proof.
  intros He. destruct (read_tl type value rest He) as [H1 H2].
  rewrite parse_loop_step by apply tlv_nonempty.
  rewrite H1. cbn [mbind result_bind]. rewrite H2. cbn [mbind result_bind].
  by rewrite gtb_zlen_app, zlen_to_nat, drop_app_length, take_app_length, tlv_prefix_length.
Qed.

(** The octets of a sequence of elements. *)
Definition tlvs (els : list (Z * octets)) : octets := els ≫= (fun '(t, v) => tlv t v).

Lemma length_tlv type value : (0 < length (tlv type value))%nat.
Proof.
  pose proof (tlv_nonempty type value []) as H. rewrite app_nil_r in H.
  destruct (tlv type value); [done|cbn; lia].
Qed.

Lemma parse_loop_tlvs els fuel :
  Forall (fun '(t, v) => encodable t v) els -> (length (tlvs els) <= fuel)%nat ->
  parse_loop fuel (tlvs els) = Ok (map (fun '(t, v) => element t v) els).
Proof.
  revert fuel. induction els as [|[t v] els IH]; intros fuel Hall Hf; [by destruct fuel|].
  apply Forall_cons in Hall as [He Hall]. change (tlvs ((t, v) :: els)) with (tlv t v ++ tlvs els) in *.
  rewrite length_app in Hf. pose proof (length_tlv t v). destruct fuel as [|fuel]; [lia|].
  rewrite parse_loop_element by done. rewrite IH by (done || lia). done.
Qed.

(** The fuel suffices: with as many units as octets the loop never stops early. *)
Lemma parse_loop_fuel fuel bs :
  (length bs <= fuel)%nat -> parse_loop fuel bs <> Err OutOfFuel.
Proof.
  revert bs. induction fuel as [|fuel IH]; intros bs Hf.
  - by destruct bs; [|cbn in Hf; lia].
  - destruct bs as [|b bs]; [done|]. rewrite parse_loop_step by done.
    destruct (readType_throw (b :: bs)) as [[t r1]|e] eqn:E1; cbn [mbind result_bind].
    2: { unfold readType_throw, readVarNumber_throw in E1. cbn [mbind result_bind] in E1.
         repeat (case_match; simplify_eq/=); congruence. }
    destruct (readVarNumber_throw r1) as [[n pos]|e] eqn:E2; cbn [mbind result_bind].
    2: { unfold readVarNumber_throw in E2. repeat (case_match; simplify_eq/=); congruence. }
    case_match; [done|]. apply readType_throw_consumes in E1.
    apply readVarNumber_throw_consumes in E2. cbn zeta.
    pose proof (IH (drop (Z.to_nat n) pos)) as Hr. rewrite length_drop in Hr.
    specialize (Hr ltac:(cbn in *; lia)). by destruct (parse_loop fuel _); cbn; congruence.
Qed.

Lemma parse_tlvs wire type els :
  Forall (fun '(t, v) => encodable t v) els ->
  parse (mkBlock wire type (tlvs els)) = Ok (map (fun '(t, v) => element t v) els).
Proof. intros H. unfold parse. cbn. by apply parse_loop_tlvs. Qed.

Lemma parse_element type els :
  Forall (fun '(t, v) => encodable t v) els ->
  parse (element type (tlvs els)) = Ok (map (fun '(t, v) => element t v) els).
Proof. apply parse_tlvs. Qed.

Lemma encodeBlock_emits est enc type value :
  encodable type value -> emits enc (tlv type value) ->
  encodeBlock est enc = Ok (element type value).
Proof.
  intros He Hem. unfold encodeBlock, Encoder_block. rewrite (emits_fresh _ _ _ _ Hem).
  by apply Block_ofWire_tlv.
Qed.

Lemma block_readNonNegativeInteger_element type n :
  is_u64 n -> block_readNonNegativeInteger (element type (nonneg_integer n)) = Ok n.
Proof.
  intros Hn. unfold block_readNonNegativeInteger. cbn [block_value element].
  pose proof (readNonNegativeInteger_write n [] Hn) as H. rewrite app_nil_r in H.
  by rewrite H.
Qed.

Lemma nonneg_integer_small n : zlen (nonneg_integer n) <= 8.
Proof.
  unfold nonneg_integer, writeNonNegativeInteger.
  repeat case_match; cbn [fst]; rewrite ?zlen_be_bytes, ?zlen_cons, ?zlen_nil; lia.
Qed.

Lemma Block_eqb_spec (b1 b2 : Block) :
  Block_eqb b1 b2 = true <-> block_type b1 = block_type b2 /\ block_value b1 = block_value b2.
Proof.
  unfold Block_eqb. rewrite !andb_true_iff, orb_true_iff, !Z.eqb_eq, bool_decide_eq_true.
  unfold block_value_size. split.
  - intros [[Ht Hl] [H0|Hv]]; [|done]. split; [done|]. unfold zlen in *.
    destruct (block_value b1), (block_value b2); cbn in *; lia || done.
  - intros [-> ->]. auto.
Qed.

(** Encoding a block from its sub-elements. *)

Definition type_value (b : Block) : Z * octets := (block_type b, block_value b).

(** The wire of a block holds its type, a length and its value; the two numbers need
    not have the shortest encoding. *)
Definition wf_block (b : Block) : Prop :=
  zlen (tlv (block_type b) (block_value b)) <= block_size b.

Lemma writes_element_block el :
  writes (encode_element el) (tlv (block_type el) (block_value el)).
Proof.
  eapply writes_ext; [|apply writes_element, writes_prependByteArray].
  intros e. unfold encode_element, seq2.
  destruct (prependByteArray _ e) as [n0 e1]. destruct (prependVarNumber n0 e1) as [n1 e2].
  by destruct (prependVarNumber _ e2).
Qed.

Lemma writes_elements els : writes (encode_elements els) (tlvs (map type_value els)).
Proof.
  induction els as [|el els IH].
  - split; [|intros e He _; cbn; lia]. intros e He. done.
  - eapply writes_ext; [|apply (writes_seq _ (fun _ => encode_element el) _ _ IH),
      writes_element_block].
    intros e. unfold seq2, encode_elements. done.
Qed.

Lemma estimate_enough type els :
  Forall wf_block els ->
  zlen (tlv type (tlvs (map type_value els))) <= encode_estimate type els.
Proof.
  intros Hw. unfold encode_estimate, tlv at 1. rewrite !zlen_app, !writeVarNumber_length.
  set (len := foldr _ 0 els).
  assert (Hl : zlen (tlvs (map type_value els)) <= len).
  { unfold len. clear len. induction Hw as [|el els Hel _ IH]; [done|].
    change (zlen (tlv (block_type el) (block_value el) ++ tlvs (map type_value els)) <=
      foldr (fun el len => len + block_size el) 0 els + block_size el).
    rewrite zlen_app. unfold wf_block in Hel. lia. }
  clearbody len. unfold Estimator_prependVarNumber, sizeOfVarNumber.
  repeat case_match; zbool; lia.
Qed.

Lemma writes_encode type els :
  writes (seq2 (seq2 (encode_elements els) prependVarNumber) (fun _ => prependVarNumber type))
    (tlv type (tlvs (map type_value els))).
Proof. apply writes_element, writes_elements. Qed.

(** The buffer that [encode] allocates is large enough, and the block it leaves is the
    canonical encoding of the sub-elements. *)
Lemma Block_encode_ok type els :
  Forall wf_block els ->
  Block_encode type els =
  Ok (element type (tlvs (map type_value els)), map reencoded els).
Proof.
  intros Hw. pose proof (estimate_enough type els Hw) as Hest.
  unfold Block_encode. set (e0 := Encoder_new _ 0).
  assert (H0 : wf_encoder e0) by apply Encoder_new_wf.
  assert (Hb : m_begin e0 = Z.to_nat (encode_estimate type els))
    by (unfold e0, Encoder_new; cbn; case_decide; lia).
  pose proof (emits_fresh _ _ (Z.to_nat (encode_estimate type els)) 0
    (proj1 (writes_elements els))) as Hval.
  pose proof (emits_fresh _ _ (Z.to_nat (encode_estimate type els)) 0
    (proj1 (writes_encode type els))) as Hall.
  destruct (proj2 (writes_encode type els) e0 H0) as (Hlen & _); [unfold zlen in Hest; lia|].
  fold e0 in Hval, Hall. unfold seq2 in Hall, Hlen.
  destruct (encode_elements els e0) as [len e1]. destruct (prependVarNumber len e1) as [n1 e2].
  destruct (prependVarNumber type e2) as [n2 e3]. cbn [snd] in *.
  rewrite decide_True by done. by rewrite Hval, Hall.
Qed.

(** ** Properties *)

(** Parsing the value of a block that concatenates encoded elements
    returns exactly those elements in order (types, values and wire octets), and
    on any value whatsoever the loop ends within one iteration per octet. *)
Theorem Block_parse_encode (wire : octets) (type : Z) (els : list (Z * octets))
    (Hels : Forall (fun '(t, v) => encodable t v) els) :
  parse (mkBlock wire type (tlvs els)) = Ok (map (fun '(t, v) => element t v) els) /\
  forall value, parse (mkBlock wire type value) <> Err OutOfFuel.
Proof.
  split; [by apply parse_tlvs|]. intros value. by apply parse_loop_fuel.
Qed.

Lemma Block_parse_encode_witness :
  parse (mkBlock [] 850 (tlvs [(859, [x09]); (851, str "A1")])) =
  Ok [element 859 [x09]; element 851 (str "A1")].
Proof.
  refine (proj1 (Block_parse_encode [] 850 [(859, [x09]); (851, str "A1")] _)).
  apply Forall_forall. unfold encodable, is_u32, is_u64.
  intros [t v] Hin. rewrite !elem_of_cons in Hin.
  destruct Hin as [[= -> ->]|[[= -> ->]|Hin]]; [repeat split; by vm_compute|repeat split; by vm_compute|by apply elem_of_nil in Hin].
Defined.
