(* ===== verification/Codec.v ===== *)
(** * Encoding and decoding combinators (ndn-cxx/encoding/tlv.hpp, block-helpers.hpp, encoder.cpp)

    What the codecs of the network-layer packets share: the TLV-TYPE numbers, the
    back-to-front accumulation of [totalLength] that every [wireEncode] template
    performs, blocks that may lack wire encoding, reading integers of a given width, and
    the class of results a [catch (const tlv::Error&)] clause handles. *)

From stdpp Require Import base list strings.
From Stdlib Require Import Strings.Byte ZArith Lia.
From S2P Require Import Prelude Tlv Encoder Block.

Local Open Scope Z_scope.

(** ** TLV-TYPE numbers of the packet formats 0.2 and 0.3 *)

Definition tlv_Interest : Z := 5.
Definition tlv_Data : Z := 6.
Definition tlv_Name : Z := 7.
Definition tlv_Selectors : Z := 9.
Definition tlv_Nonce : Z := 10.
Definition tlv_InterestLifetime : Z := 12.
Definition tlv_MinSuffixComponents : Z := 13.
Definition tlv_MaxSuffixComponents : Z := 14.
Definition tlv_Exclude : Z := 16.
Definition tlv_ChildSelector : Z := 17.
Definition tlv_MustBeFresh : Z := 18.
Definition tlv_Any : Z := 19.
Definition tlv_MetaInfo : Z := 20.
Definition tlv_Content : Z := 21.
Definition tlv_SignatureInfo : Z := 22.
Definition tlv_SignatureValue : Z := 23.
Definition tlv_ContentType : Z := 24.
Definition tlv_FreshnessPeriod : Z := 25.
Definition tlv_FinalBlockId : Z := 26.
Definition tlv_SignatureType : Z := 27.
Definition tlv_KeyLocator : Z := 28.
Definition tlv_KeyDigest : Z := 29.
Definition tlv_ForwardingHint : Z := 30.
Definition tlv_LinkPreference : Z := 30.
Definition tlv_LinkDelegation : Z := 31.
Definition tlv_CanBePrefix : Z := 33.
Definition tlv_HopLimit : Z := 34.
Definition tlv_Parameters : Z := 35.
Definition tlv_ValidityPeriod : Z := 253.
Definition tlv_NotBefore : Z := 254.
Definition tlv_NotAfter : Z := 255.
Definition tlv_nfd_ExpirationPeriod : Z := 109.
Definition NameComponentMin : Z := 1.
Definition NameComponentMax : Z := 65535.
Definition ContentType_Blob : Z := 0.
Definition ContentType_PrefixAnn : Z := 5.

(** [tlv::isCriticalType] *)
Definition isCriticalType (type : Z) : bool := (type <=? 31) || negb (Z.land type 1 =? 0).

(** ** Blocks without wire encoding

    A block built from a type and a value, [Block(uint32_t, ConstBufferPtr)], has
    [m_begin == m_end]: its wire is empty here.  [Block()] has the greatest type. *)
Definition Block_default : Block := mkBlock [] (2 ^ 32 - 1) [].
Definition Block_ofType (type : Z) : Block := mkBlock [] type [].
Definition Block_ofValue (type : Z) (value : octets) : Block := mkBlock [] type value.

Definition hasWire (b : Block) : bool := negb (bool_decide (block_wire b = [])).
Definition block_empty (b : Block) : bool := block_type b =? 2 ^ 32 - 1.

(** [Block::blockFromValue] of a block that has a value. *)
Definition blockFromValue (b : Block) : result Block :=
  let* (type, r1) := readType_throw (block_value b) in
  let* (length, value) := readVarNumber_throw r1 in
  if negb (length =? zlen value)
  then Err (TlvError "TLV-LENGTH doesn't match buffer size")
  else Ok (mkBlock (block_value b) type value).

(** [readNonNegativeIntegerAs<R>]; [max] is the greatest value of [R]. *)
Definition readNonNegativeIntegerAs (max : Z) (b : Block) : result Z :=
  let* value := block_readNonNegativeInteger b in
  if value >? max then Err (TlvError "Value in TLV element is too large") else Ok value.
Definition int_max : Z := 2 ^ 31 - 1.
Definition uint16_max : Z := 2 ^ 16 - 1.
Definition uint32_max : Z := 2 ^ 32 - 1.

(** [time::milliseconds(uint64_t)]: the count is a signed 64-bit integer. *)
Definition i64 (z : Z) : Z := (z + 2 ^ 63) mod 2 ^ 64 - 2 ^ 63.

(** ** The accumulation of [totalLength] *)

Section encoding.
Context `{EncodingImpl E}.

(** The statements [totalLength += f(encoder)] of a template, in the order of the code:
    the first one prepends the last octets of the value. *)
Definition prependAll (fs : list (E -> Z * E)) (e : E) : Z * E :=
  foldl (fun '(totalLength, e) f => let '(n, e) := f e in (totalLength + n, e)) (0, e) fs.

Definition prependNothing (e : E) : Z * E := (0, e).
Definition prependIf (c : bool) (f : E -> Z * E) : E -> Z * E := if c then f else prependNothing.

(** ... and the last two of them: the TLV-LENGTH and the TLV-TYPE. *)
Definition prependElement (type : Z) (f : E -> Z * E) (e : E) : Z * E :=
  let '(totalLength, e) := f e in
  let '(n1, e) := prependVarNumber totalLength e in
  let '(n2, e) := prependVarNumber type e in
  (totalLength + n1 + n2, e).

(** [Encoder::prependBlock], [Estimator::prependBlock] *)
Definition prependBlock (b : Block) (e : E) : Z * E :=
  if hasWire b then prependByteArray (block_wire b) e
  else prependByteArrayBlock (block_type b) (block_value b) e.

(** [encoding::prependNestedBlock] *)
Definition prependNestedBlock (type : Z) (value : E -> Z * E) (e : E) : Z * E :=
  prependElement type value e.
End encoding.

(** [Encoder::appendBlock] *)
Definition appendBlock (b : Block) (e : Encoder) : Z * Encoder :=
  if hasWire b then Encoder_appendByteArray (block_wire b) e
  else Encoder_appendByteArrayBlock (block_type b) (block_value b) e.

(** A template that may throw before it prepends anything, at both of its
    instantiations, as every [wireEncode() const] calls it: estimate, allocate, encode. *)
Definition Template : Type := forall E, EncodingImpl E -> result (E -> Z * E).
Definition encodeWire (t : Template) : result Block :=
  let* estimate := t Estimator _ in
  let* encode := t Encoder _ in
  encodeBlock estimate encode.

(** ** Results that [catch (const tlv::Error&)] handles *)

Definition caught {A} (r : result A) : Prop :=
  match r with
  | Ok _ | Err (TlvError _) => True
  | Err _ => False
  end.

Lemma caught_bind {A B} (m : result A) (f : A -> result B) :
  caught m -> (forall a, m = Ok a -> caught (f a)) -> caught (let* a := m in f a).
Proof. destruct m as [a|e]; cbn; [|done]. intros _ H. by apply H. Qed.

(** For continuations that do not depend on where the value came from. *)
Lemma caught_bind_all {A B} (m : result A) (f : A -> result B) :
  caught m -> (forall a, caught (f a)) -> caught (let* a := m in f a).
Proof. intros Hm Hf. by apply caught_bind. Qed.

Lemma caught_readVarNumber bs : caught (readVarNumber_throw bs).
Proof. unfold readVarNumber_throw. destruct bs; [done|]. by case_match. Qed.
Lemma caught_readType bs : caught (readType_throw bs).
Proof. apply caught_bind; [apply caught_readVarNumber|]. intros [t r] _. by case_match. Qed.
Lemma caught_readNonNegativeInteger b : caught (block_readNonNegativeInteger b).
Proof.
  apply caught_bind; [|by intros []]. unfold readNonNegativeInteger. case_match; [done|]. by case_match.
Qed.
Lemma caught_readNonNegativeIntegerAs max b : caught (readNonNegativeIntegerAs max b).
Proof. apply caught_bind_all; [apply caught_readNonNegativeInteger|]. intros v. by case_match. Qed.

Lemma caught_Block_ofBuffer buf : caught (Block_ofBuffer buf).
Proof.
  apply caught_bind; [apply caught_readType|]. intros [t r] _.
  apply caught_bind; [apply caught_readVarNumber|]. intros [l p] _. by case_match.
Qed.
Lemma caught_blockFromValue b : caught (blockFromValue b).
Proof.
  apply caught_bind; [apply caught_readType|]. intros [t r] _.
  apply caught_bind; [apply caught_readVarNumber|]. intros [l p] _. by case_match.
Qed.

Lemma caught_parse_loop fuel bs : (length bs <= fuel)%nat -> caught (parse_loop fuel bs).
Proof.
  revert bs. induction fuel as [|fuel IH]; intros bs Hl.
  - destruct bs; [done|cbn in Hl; lia].
  - destruct bs as [|b bs]; [done|]. rewrite parse_loop_step by done.
    apply caught_bind; [apply caught_readType|]. intros [t r] Hr.
    apply caught_bind; [apply caught_readVarNumber|]. intros [l p] Hp. case_match; [done|].
    apply readType_throw_consumes in Hr. apply readVarNumber_throw_consumes in Hp.
    apply caught_bind; [|done]. apply IH. rewrite length_drop. cbn [length] in *. lia.
Qed.
Lemma caught_parse b : caught (parse b).
Proof. by apply caught_parse_loop. Qed.

#[export] Hint Resolve caught_readType caught_readVarNumber caught_readNonNegativeInteger
  caught_readNonNegativeIntegerAs caught_parse caught_blockFromValue : valdb.

(** Discharges [caught] of a decoder written with binds, tests and known decoders. *)
Ltac caught_solve :=
  repeat (done || (apply caught_bind_all; [solve [auto with valdb]|]; intros) ||
          solve [auto with valdb] || case_match).

(** ** What the combinators emit *)

Section emission.
Context `{EncodingOk E}.

Lemma emits_nothing : emits prependNothing [].
Proof. intros e He. split; [done|]. split; [done|]. apply enc_rel_nil. Qed.

Lemma emits_if c (f : E -> Z * E) bs :
  (c = true -> emits f bs) -> emits (prependIf c f) (if c then bs else []).
Proof. destruct c; cbn; [by auto|]. intros _. apply emits_nothing. Qed.

Lemma emits_prependElement type (f : E -> Z * E) value :
  emits f value -> emits (prependElement type f) (tlv type value).
Proof.
  intros Hf. eapply emits_ext; [|apply (emits_element _ type _ Hf)].
  intros e. unfold seq2, prependElement. destruct (f e) as [n0 e1].
  destruct (prependVarNumber n0 e1) as [n1 e2]. by destruct (prependVarNumber type e2).
Qed.

Lemma prependAll_snoc (fs : list (E -> Z * E)) f e :
  prependAll (fs ++ [f]) e =
  (let '(n0, e) := prependAll fs e in let '(n1, e) := f e in (n0 + n1, e)).
Proof. unfold prependAll. rewrite foldl_app. cbn. by destruct (foldl _ _ _). Qed.

(** The octets of the statements, the last statement's first. *)
Lemma emits_prependAll (fs : list (E -> Z * E)) bss :
  Forall2 emits fs bss -> emits (prependAll fs) (concat (reverse bss)).
Proof.
  revert bss. induction fs as [|f fs IH] using rev_ind; intros bss Hf.
  - apply Forall2_nil_inv_l in Hf as ->. apply emits_nothing.
  - apply Forall2_app_inv_l in Hf as (b1 & b2 & H1 & H2 & ->).
    apply Forall2_cons_inv_l in H2 as (b & bs & Hb & Hn & ->).
    apply Forall2_nil_inv_l in Hn as ->.
    rewrite reverse_snoc. cbn [concat].
    eapply emits_ext; [|apply (emits_seq _ (fun _ => f) _ _ (IH _ H1) Hb)].
    intros e. cbn beta. by rewrite prependAll_snoc.
Qed.

Lemma emits_prependAll_eq (fs : list (E -> Z * E)) bss bs :
  Forall2 emits fs bss -> concat (reverse bss) = bs -> emits (prependAll fs) bs.
Proof. intros Hf <-. by apply emits_prependAll. Qed.

(** Statements in a loop from the last to the first item of a list. *)
Lemma emits_prependAll_reverse {A} (f : A -> E -> Z * E) (g : A -> octets) l :
  (forall x, x ∈ l -> emits (f x) (g x)) -> emits (prependAll (f <$> reverse l)) (l ≫= g).
Proof.
  intros Hf. rewrite fmap_reverse.
  replace (l ≫= g) with (concat (reverse (reverse (g <$> l)))).
  - apply emits_prependAll, Forall2_reverse, Forall2_fmap_2, Forall_Forall2_diag.
    by apply Forall_forall.
  - rewrite reverse_involutive. clear Hf. induction l as [|x l IH]; [done|]. csimpl. by rewrite IH.
Qed.

(** The octets [prependBlock] writes. *)
Definition block_octets (b : Block) : octets :=
  if hasWire b then block_wire b else tlv (block_type b) (block_value b).

Lemma emits_prependBlock b : emits (prependBlock b) (block_octets b).
Proof.
  unfold block_octets. eapply emits_ext; [intros e; unfold prependBlock; done|].
  destruct (hasWire b); [apply emits_prependByteArray|apply emits_prependByteArrayBlock].
Qed.
End emission.
#[export] Hint Resolve emits_nothing emits_if emits_prependElement emits_prependBlock : valdb.

(** ** Blocks *)

(** The wire of a block is the canonical encoding of its type and value, or missing. *)
Definition canonical (b : Block) : Prop :=
  block_wire b = [] \/ block_wire b = tlv (block_type b) (block_value b).

Lemma canonical_element type value : canonical (element type value).
Proof. by right. Qed.

Lemma block_octets_canonical b :
  canonical b -> block_octets b = tlv (block_type b) (block_value b).
Proof.
  unfold canonical, block_octets, hasWire. intros [->| ->]; [by rewrite bool_decide_true|].
  rewrite bool_decide_false; [done|]. intros H.
  pose proof (length_tlv (block_type b) (block_value b)). rewrite H in *. cbn in *. lia.
Qed.

(** ** Sequences of elements *)

Lemma tlvs_app l1 l2 : tlvs (l1 ++ l2) = tlvs l1 ++ tlvs l2.
Proof. apply bind_app. Qed.
Lemma tlvs_cons t v l : tlvs ((t, v) :: l) = tlv t v ++ tlvs l.
Proof. done. Qed.
Lemma tlvs_singleton t v : tlvs [(t, v)] = tlv t v.
Proof. rewrite tlvs_cons. apply app_nil_r. Qed.

Lemma zlen_tlv_value t v : zlen v <= zlen (tlv t v).
Proof.
  unfold tlv. rewrite !zlen_app. pose proof (zlen_nonneg (var_number t)).
  pose proof (zlen_nonneg (var_number (zlen v))). lia.
Qed.

(** The elements of a value that is not too long are not too long. *)
Lemma tlvs_encodable els :
  Forall (fun el => is_u32 el.1) els -> is_u64 (zlen (tlvs els)) ->
  Forall (fun '(t, v) => encodable t v) els.
Proof.
  unfold is_u64. induction 1 as [|[t v] els Ht _ IH]; intros Hl; [constructor|].
  rewrite tlvs_cons, zlen_app in Hl. pose proof (zlen_tlv_value t v).
  pose proof (zlen_nonneg (tlvs els)). pose proof (zlen_nonneg v).
  constructor; [split; [done|unfold is_u64; lia]|apply IH; lia].
Qed.

Lemma parse_element_tlvs type els :
  Forall (fun el => is_u32 el.1) els -> is_u64 (zlen (tlvs els)) ->
  parse (element type (tlvs els)) = Ok (map (fun '(t, v) => element t v) els).
Proof. intros Ht Hl. apply parse_element. by apply tlvs_encodable. Qed.

Lemma tlvs_length_elem els t v :
  (t, v) ∈ els -> zlen (tlv t v) <= zlen (tlvs els).
Proof.
  induction els as [|[t' v'] els IH]; [by intros ?%elem_of_nil|].
  rewrite tlvs_cons, zlen_app, elem_of_cons. pose proof (zlen_nonneg (tlvs els)).
  pose proof (zlen_nonneg (tlv t' v')). intros [[= -> ->]|Hin]; [lia|]. specialize (IH Hin). lia.
Qed.

(** The value of an element of a short value is short. *)
Lemma tlvs_elem_u64 els t v :
  (t, v) ∈ els -> is_u64 (zlen (tlvs els)) -> is_u64 (zlen v).
Proof.
  intros Hin Hl. apply tlvs_length_elem in Hin. pose proof (zlen_tlv_value t v).
  pose proof (zlen_nonneg v). unfold is_u64 in *. lia.
Qed.

(** ** Templates *)

(** A template that does not throw and emits one element. *)
Definition template_emits (t : Template) (bs : octets) : Prop :=
  (exists f, t Estimator _ = Ok f /\ emits f bs) /\ (exists f, t Encoder _ = Ok f /\ emits f bs).

Lemma encodeWire_emits t type value :
  encodable type value -> template_emits t (tlv type value) ->
  encodeWire t = Ok (element type value).
Proof.
  intros He [(f & Hf & _) (g & Hg & Hem)]. unfold encodeWire. rewrite Hf, Hg.
  cbn [mbind result_bind]. by apply encodeBlock_emits.
Qed.

Lemma i64_small z : 0 <= z < 2 ^ 63 -> i64 z = z.
Proof. intros Hz. unfold i64. rewrite Z.mod_small; lia. Qed.
Lemma i64_range z : - 2 ^ 63 <= i64 z < 2 ^ 63.
Proof. unfold i64. pose proof (Z.mod_pos_bound (z + 2 ^ 63) (2 ^ 64)). lia. Qed.

Lemma readNonNegativeIntegerAs_element max type n :
  is_u64 n -> n <= max -> readNonNegativeIntegerAs max (element type (nonneg_integer n)) = Ok n.
Proof.
  intros Hn Hm. unfold readNonNegativeIntegerAs.
  rewrite block_readNonNegativeInteger_element by done. cbn [mbind result_bind].
  rewrite Z.gtb_ltb. by rewrite (proj2 (Z.ltb_ge _ _)).
Qed.
