(* ===== verification/ValHeader.v ===== *)
(** * The VAL header (model/val/val-header.hpp, val-header.cpp)

    The geographical information that travels with every packet: source area,
    destination area, position of the previous hop, root name and remaining hops,
    with its TLV encoding. *)

From stdpp Require Import base list strings.
From Stdlib Require Import Strings.Byte ZArith Lia.
From S2P Require Import Prelude Tlv Encoder Block.

Local Open Scope Z_scope.

(** ** TLV-TYPE numbers of NDNLPv2 (ndn-cxx/lp/tlv.hpp) *)
Inductive lp_tlv : Type :=
  | LpPacket | Fragment | Sequence | FragIndex | FragCount | HopCountTag
  | Nack | NackReason | NextHopFaceId | IncomingFaceId | CachePolicy | CachePolicyType
  | CongestionMark | Ack | TxSequence | NonDiscovery | PrefixAnnouncement
  | TlvValHeader | ValHeaderSA | ValHeaderDA | ValHeaderPhPos | ValHeaderRN | ValHeaderHopC.

Definition lp_num (t : lp_tlv) : Z :=
  match t with
  | LpPacket => 100 | Fragment => 80 | Sequence => 81 | FragIndex => 82 | FragCount => 83
  | HopCountTag => 84 | Nack => 800 | NackReason => 801 | NextHopFaceId => 816
  | IncomingFaceId => 817 | CachePolicy => 820 | CachePolicyType => 821
  | CongestionMark => 832 | Ack => 836 | TxSequence => 840 | NonDiscovery => 844
  | PrefixAnnouncement => 848 | TlvValHeader => 850 | ValHeaderSA => 851
  | ValHeaderDA => 853 | ValHeaderPhPos => 855 | ValHeaderRN => 857 | ValHeaderHopC => 859
  end.

(** ** The header *)

Definition MAXHOPS : Z := 9.

Record ValHeader := mkValHeader {
  m_wire : option Block;  (* the cached encoding; [None] has no wire *)
  m_SA : octets;
  m_DA : octets;
  m_phPos : octets;
  m_RN : octets;
  m_hopC : Z;
}.

(** [ValHeader()] and [ValHeader(SA, DA, phPos, RN, hopC)] *)
Definition ValHeader_default : ValHeader :=
  mkValHeader None (str "TEST") (str "TEST") (str "TEST") (str "TEST") 0.
Definition ValHeader_new (SA DA phPos RN : octets) (hopC : Z) : ValHeader :=
  mkValHeader None SA DA phPos RN (u8 hopC).

Definition getSA := m_SA.
Definition getDA := m_DA.
Definition getPhPos := m_phPos.
Definition getRN := m_RN.
Definition getHopC := m_hopC.

Definition setSA (SA : octets) (h : ValHeader) : ValHeader :=
  mkValHeader (m_wire h) SA (m_DA h) (m_phPos h) (m_RN h) (m_hopC h).
Definition setDA (DA : octets) (h : ValHeader) : ValHeader :=
  mkValHeader (m_wire h) (m_SA h) DA (m_phPos h) (m_RN h) (m_hopC h).
Definition setPhPos (phPos : octets) (h : ValHeader) : ValHeader :=
  mkValHeader (m_wire h) (m_SA h) (m_DA h) phPos (m_RN h) (m_hopC h).
Definition setRN (RN : octets) (h : ValHeader) : ValHeader :=
  mkValHeader (m_wire h) (m_SA h) (m_DA h) (m_phPos h) RN (m_hopC h).
(** A hop count over the limit is silently ignored. *)
Definition setHopC (hopC : Z) (h : ValHeader) : ValHeader :=
  if hopC <=? MAXHOPS
  then mkValHeader (m_wire h) (m_SA h) (m_DA h) (m_phPos h) (m_RN h) hopC
  else h.

(** [operator==]: the five fields, not the cached wire. *)
Definition ValHeader_eqb (lhs rhs : ValHeader) : bool :=
  bool_decide (getDA lhs = getDA rhs) && (getHopC lhs =? getHopC rhs) &&
  bool_decide (getPhPos lhs = getPhPos rhs) && bool_decide (getRN lhs = getRN rhs) &&
  bool_decide (getSA lhs = getSA rhs).

(** [template<Tag TAG> size_t wireEncode(EncodingImpl<TAG>&) const] *)
Definition wireEncode `{EncodingImpl E} (h : ValHeader) (e : E) : Z * E :=
  let '(n1, e) := prependStringBlock (lp_num ValHeaderSA) (m_SA h) e in
  let '(n2, e) := prependStringBlock (lp_num ValHeaderDA) (m_DA h) e in
  let '(n3, e) := prependStringBlock (lp_num ValHeaderPhPos) (m_phPos h) e in
  let '(n4, e) := prependStringBlock (lp_num ValHeaderRN) (m_RN h) e in
  let '(n5, e) := prependNonNegativeIntegerBlock (lp_num ValHeaderHopC) (m_hopC h) e in
  let length := n1 + n2 + n3 + n4 + n5 in
  let '(n6, e) := prependVarNumber length e in
  let '(n7, e) := prependVarNumber (lp_num TlvValHeader) e in
  (length + n6 + n7, e).

(** [const Block& wireEncode() const]: answers from the cache when there is one. *)
Definition wireEncode_cached (h : ValHeader) : result (Block * ValHeader) :=
  match m_wire h with
  | Some w => Ok (w, h)
  | None =>
    let* b := encodeBlock (wireEncode h) (wireEncode h) in
    Ok (b, mkValHeader (Some b) (m_SA h) (m_DA h) (m_phPos h) (m_RN h) (m_hopC h))
  end.

(** The body of the [switch] of [wireDecode], for one sub-element. *)
Definition decode_element (h : ValHeader) (el : Block) : result ValHeader :=
  if block_type el =? lp_num ValHeaderSA then Ok (setSA (readString el) h)
  else if block_type el =? lp_num ValHeaderDA then Ok (setDA (readString el) h)
  else if block_type el =? lp_num ValHeaderPhPos then Ok (setPhPos (readString el) h)
  else if block_type el =? lp_num ValHeaderRN then Ok (setRN (readString el) h)
  else if block_type el =? lp_num ValHeaderHopC then
    let* n := block_readNonNegativeInteger el in
    Ok (mkValHeader (m_wire h) (m_SA h) (m_DA h) (m_phPos h) (m_RN h) (u8 n))
  else Err (TlvError "expecting ValHeader subblocks").

Fixpoint decode_elements (h : ValHeader) (els : list Block) : result ValHeader :=
  match els with
  | [] => Ok h
  | el :: els => let* h := decode_element h el in decode_elements h els
  end.

(** [void wireDecode(const Block& wire)] *)
Definition wireDecode (h : ValHeader) (wire : Block) : result ValHeader :=
  if negb (block_type wire =? lp_num TlvValHeader)
  then Err (TlvError "expecting ValHeader block")
  else
    let h := mkValHeader (Some wire) (m_SA h) (m_DA h) (m_phPos h) (m_RN h) (m_hopC h) in
    let* els := parse wire in
    decode_elements h els.

(** [explicit ValHeader(const Block&)]: the strings start empty; [m_hopC] has no
    initialiser, so its value before the decoding is the argument [hopC0]. *)
Definition ValHeader_ofBlock (hopC0 : Z) (wire : Block) : result ValHeader :=
  wireDecode (mkValHeader None [] [] [] [] hopC0) wire.

(** ** Lemmas *)

(** The sub-elements in the order of the wire: prepending reverses the source. *)
Definition header_elements (h : ValHeader) : list (Z * octets) :=
  [(lp_num ValHeaderHopC, nonneg_integer (m_hopC h)); (lp_num ValHeaderRN, m_RN h);
   (lp_num ValHeaderPhPos, m_phPos h); (lp_num ValHeaderDA, m_DA h);
   (lp_num ValHeaderSA, m_SA h)].

(** The octets of a header. *)
Definition header_octets (h : ValHeader) : octets :=
  tlv (lp_num TlvValHeader) (tlvs (header_elements h)).

(** The headers the format can carry: an octet for the hops, strings a 32-bit
    length can describe. *)
Definition header_ok (h : ValHeader) : Prop :=
  is_u8 (m_hopC h) /\ zlen (m_SA h) < 2 ^ 32 /\ zlen (m_DA h) < 2 ^ 32 /\
  zlen (m_phPos h) < 2 ^ 32 /\ zlen (m_RN h) < 2 ^ 32.

Lemma emits_wireEncode `{EncodingOk E} (h : ValHeader) : emits (wireEncode h) (header_octets h).
Proof.
  assert (Hb : emits
    (seq2 (seq2 (seq2 (seq2 (prependStringBlock (lp_num ValHeaderSA) (m_SA h))
                            (fun _ => prependStringBlock (lp_num ValHeaderDA) (m_DA h)))
                      (fun _ => prependStringBlock (lp_num ValHeaderPhPos) (m_phPos h)))
                (fun _ => prependStringBlock (lp_num ValHeaderRN) (m_RN h)))
          (fun _ => prependNonNegativeIntegerBlock (lp_num ValHeaderHopC) (m_hopC h)))
    (tlvs (header_elements h))).
  { unfold tlvs, header_elements. cbn [mbind list_bind]. rewrite app_nil_r.
    unfold seq2. repeat apply emits_seq; auto with valdb. }
  eapply emits_ext; [|apply (emits_element _ (lp_num TlvValHeader) _ Hb)].
  intros e. unfold wireEncode, seq2.
  repeat (cbn beta iota; match goal with
    | |- context [prependStringBlock ?t ?v ?e] => is_var e; destruct (prependStringBlock t v e)
    | |- context [prependNonNegativeIntegerBlock ?t ?v ?e] =>
      is_var e; destruct (prependNonNegativeIntegerBlock t v e)
    | |- context [prependVarNumber ?n ?e] => is_var e; destruct (prependVarNumber n e)
    end).
  done.
Qed.

Lemma zlen_tlv_bound type value :
  zlen (tlv type value) <= 18 + zlen value.
Proof.
  unfold tlv. rewrite !zlen_app, !writeVarNumber_length. unfold sizeOfVarNumber.
  repeat case_match; lia.
Qed.

Lemma header_elements_encodable h :
  header_ok h -> Forall (fun '(t, v) => encodable t v) (header_elements h).
Proof.
  intros (Hh & H1 & H2 & H3 & H4). pose proof (nonneg_integer_small (m_hopC h)).
  apply Forall_forall. intros [t v] Hin. unfold header_elements in Hin.
  unfold encodable, is_u32, is_u64. pose proof (zlen_nonneg v).
  repeat (apply elem_of_cons in Hin as [[= -> ->]|Hin]; [cbn [lp_num]; lia|]).
  by apply elem_of_nil in Hin.
Qed.

Lemma header_value_encodable h :
  header_ok h -> encodable (lp_num TlvValHeader) (tlvs (header_elements h)).
Proof.
  intros (Hh & H1 & H2 & H3 & H4). split; [by split|].
  unfold is_u64. split; [auto with valdb|]. unfold tlvs, header_elements.
  cbn [mbind list_bind]. rewrite !zlen_app, zlen_nil.
  pose proof (nonneg_integer_small (m_hopC h)).
  repeat match goal with |- context [zlen (tlv ?t ?v)] =>
    pose proof (zlen_tlv_bound t v); generalize dependent (zlen (tlv t v)); intros end.
  lia.
Qed.

Lemma encodeBlock_header h :
  header_ok h ->
  encodeBlock (wireEncode h) (wireEncode h) =
  Ok (element (lp_num TlvValHeader) (tlvs (header_elements h))).
Proof.
  intros Hh. apply encodeBlock_emits; [by apply header_value_encodable|apply emits_wireEncode].
Qed.

Lemma decode_element_hopC h n :
  is_u64 n ->
  decode_element h (element (lp_num ValHeaderHopC) (nonneg_integer n)) =
  Ok (mkValHeader (m_wire h) (m_SA h) (m_DA h) (m_phPos h) (m_RN h) (u8 n)).
Proof.
  intros Hn. unfold decode_element. cbn [block_type element lp_num Z.eqb Pos.eqb].
  by rewrite block_readNonNegativeInteger_element.
Qed.

(** All five fields are present in an encoded header, so nothing of the object that is
    decoded into is left. *)
Lemma wireDecode_header h0 h :
  header_ok h ->
  wireDecode h0 (element (lp_num TlvValHeader) (tlvs (header_elements h))) =
  Ok (mkValHeader (Some (element (lp_num TlvValHeader) (tlvs (header_elements h))))
        (m_SA h) (m_DA h) (m_phPos h) (m_RN h) (m_hopC h)).
Proof.
  intros Hh. unfold wireDecode. cbn [block_type element].
  rewrite Z.eqb_refl. cbn [negb].
  unfold element at 2. rewrite parse_tlvs by (by apply header_elements_encodable).
  cbn [mbind result_bind]. unfold header_elements at 2. cbn [map decode_elements].
  destruct Hh as [Hh _]. rewrite decode_element_hopC by (unfold is_u8, is_u64 in *; lia).
  rewrite u8_id by done. done.
Qed.

Lemma decode_header hopC0 h :
  header_ok h ->
  ValHeader_ofBlock hopC0 (element (lp_num TlvValHeader) (tlvs (header_elements h))) =
  Ok (mkValHeader (Some (element (lp_num TlvValHeader) (tlvs (header_elements h))))
        (m_SA h) (m_DA h) (m_phPos h) (m_RN h) (m_hopC h)).
Proof. apply wireDecode_header. Qed.

Lemma ValHeader_eqb_spec lhs rhs :
  ValHeader_eqb lhs rhs = true <->
  m_SA lhs = m_SA rhs /\ m_DA lhs = m_DA rhs /\ m_phPos lhs = m_phPos rhs /\
  m_RN lhs = m_RN rhs /\ m_hopC lhs = m_hopC rhs.
Proof.
  unfold ValHeader_eqb, getDA, getSA, getPhPos, getRN, getHopC.
  rewrite !andb_true_iff, !bool_decide_eq_true, Z.eqb_eq. tauto.
Qed.

Lemma decode_elements_unknown h els el :
  el ∈ els -> block_type el ∉ [851; 853; 855; 857; 859] ->
  forall h', decode_elements h els <> Ok h'.
Proof.
  intros Hin Hty. revert h. induction els as [|x els IH]; [by apply elem_of_nil in Hin|].
  intros h h'. cbn [decode_elements]. apply elem_of_cons in Hin as [<-|Hin].
  - unfold decode_element. cbn [lp_num]. rewrite !elem_of_cons in Hty.
    repeat rewrite (proj2 (Z.eqb_neq _ _)) by tauto. done.
  - destruct (decode_element h x); cbn; [by apply IH|done].
Qed.

Lemma decode_elements_hopC h els h' :
  is_u8 (m_hopC h) -> decode_elements h els = Ok h' -> is_u8 (m_hopC h').
Proof.
  revert h. induction els as [|x els IH]; intros h Hh; cbn [decode_elements].
  - by intros [= <-].
  - intros (h1 & E & H1)%result_bind_Ok. apply (IH h1); [|done].
    unfold decode_element in E. repeat case_match; simplify_eq/=; try done.
    apply result_bind_Ok in E as (n & _ & [= <-]). apply u8_range.
Qed.

(** ** Properties *)

(** Every header the format can carry survives encoding and decoding: the
    block that [wireEncode] builds decodes, whatever the uninitialised hop count
    held before, to a header equal to the original in all five fields, and the
    length announced by the estimating pass is the length of the encoding. *)
Theorem ValHeader_roundtrip (h : ValHeader) (hopC0 : Z) (Hh : header_ok h) :
  exists b h', encodeBlock (wireEncode h) (wireEncode h) = Ok b /\
    ValHeader_ofBlock hopC0 b = Ok h' /\ ValHeader_eqb h' h = true /\
    (wireEncode h mkEstimator).1 = block_size b.
Proof.
  eexists _, _. split; [by apply encodeBlock_header|].
  split; [by apply decode_header|]. split; [by apply ValHeader_eqb_spec|].
  destruct (emits_wireEncode (E:=Estimator) h mkEstimator ltac:(exact I)) as [-> _]. done.
Qed.

Lemma ValHeader_roundtrip_witness :
  let h := ValHeader_new (str "A1") (str "C2") (str "10:20:0") (str "/video") 9 in
  exists b h', encodeBlock (wireEncode h) (wireEncode h) = Ok b /\
    ValHeader_ofBlock 77 b = Ok h' /\ ValHeader_eqb h' h = true /\
    (wireEncode h mkEstimator).1 = block_size b.
Proof.
  refine (ValHeader_roundtrip
    (ValHeader_new (str "A1") (str "C2") (str "10:20:0") (str "/video") 9) 77 _).
  repeat split; by vm_compute.
Defined.

(** A block of another type is rejected, a sub-element of a type the
    header does not define is rejected wherever it stands among the elements, and
    whatever is accepted has a hop count of one octet. *)
Theorem ValHeader_decode_errors (hopC0 : Z) (b : Block) :
  (block_type b <> 850 ->
   ValHeader_ofBlock hopC0 b = Err (TlvError "expecting ValHeader block")) /\
  (forall els el, parse b = Ok els -> el ∈ els -> block_type el ∉ [851; 853; 855; 857; 859] ->
   forall h, ValHeader_ofBlock hopC0 b <> Ok h) /\
  (forall h, is_u8 hopC0 -> ValHeader_ofBlock hopC0 b = Ok h -> is_u8 (m_hopC h)).
Proof.
  unfold ValHeader_ofBlock, wireDecode. cbn [lp_num]. split_and!.
  - intros Ht. by rewrite (proj2 (Z.eqb_neq _ _) Ht).
  - intros els el Hp Hin Hty h. case_match; [done|]. rewrite Hp. cbn [mbind result_bind].
    by eapply decode_elements_unknown.
  - intros h H0. case_match; [done|]. intros (els & _ & Hd)%result_bind_Ok.
    eapply decode_elements_hopC; [|exact Hd]. exact H0.
Qed.

Lemma ValHeader_decode_errors_witness :
  let b := element 850 (tlvs [(859, [x05]); (852, [])]) in
  (forall h, ValHeader_ofBlock 0 b <> Ok h) /\
  ValHeader_ofBlock 0 (element 851 []) = Err (TlvError "expecting ValHeader block").
Proof.
  cbn zeta. split.
  - destruct (ValHeader_decode_errors 0 (element 850 (tlvs [(859, [x05]); (852, [])])))
      as (_ & H & _).
    refine (H [element 859 [x05]; element 852 []] (element 852 []) _ _ _).
    + reflexivity.
    + right. left.
    + rewrite !elem_of_cons. cbn. intros Hin.
      repeat (destruct Hin as [Hin|Hin]; [discriminate|]). by apply elem_of_nil in Hin.
  - apply (ValHeader_decode_errors 0 (element 851 [])). discriminate.
Defined.

(** The setters keep the cached wire, so a header that has been encoded
    (or decoded) once goes on answering [wireEncode()] with the old octets: after
    a change of the hop count the encoding still decodes to the old one. *)
Theorem ValHeader_stale_cache (h : ValHeader) (w : Block) (hopC : Z)
    (Hw : m_wire h = Some w) :
  wireEncode_cached (setHopC hopC h) = Ok (w, setHopC hopC h).
Proof. unfold setHopC. destruct (hopC <=? MAXHOPS); unfold wireEncode_cached; cbn [m_wire]; by rewrite Hw. Qed.

Lemma ValHeader_stale_cache_witness :
  let b := element 850 (tlvs (header_elements ValHeader_default)) in
  exists h, ValHeader_ofBlock 0 b = Ok h /\
    wireEncode_cached (setHopC 5 h) = Ok (b, setHopC 5 h) /\ m_hopC (setHopC 5 h) = 5 /\
    exists h', ValHeader_ofBlock 0 b = Ok h' /\ m_hopC h' = 0.
Proof.
  cbn zeta. eexists. split; [vm_compute; reflexivity|].
  split; [apply ValHeader_stale_cache; vm_compute; reflexivity|].
  split; [reflexivity|]. eexists. split; vm_compute; reflexivity.
Defined.
