(* ===== verification/Ndn.v ===== *)
(** * Names and tags (ndn-cxx/name.cpp, name-component.cpp, impl/name-component-types.hpp,
    util/string-helper.cpp, detail/packet-base.cpp, lp/tags.hpp)

    Names, their order, their prefixes and their URI form, and the tags that travel beside
    a network-layer packet. *)

From stdpp Require Import base list strings.
From Stdlib Require Import Strings.Byte ZArith Lia.
From S2P Require Import Prelude Tlv Encoder Block.

Local Open Scope Z_scope.

(** ** Name components *)

Record Component := mkComponent {
  nc_type : Z;
  nc_value : octets;
}.

#[export] Instance Component_eq_dec : EqDecision Component.
Proof. solve_decision. Defined.

Definition GenericNameComponent : Z := 8.
Definition ImplicitSha256DigestComponent : Z := 1.
Definition ParametersSha256DigestComponent : Z := 2.
Definition DIGEST_SIZE : Z := 32.

(** [Sha256ComponentType::match] for the implicit digest. *)
Definition isImplicitSha256Digest (c : Component) : bool :=
  (nc_type c =? ImplicitSha256DigestComponent) && (zlen (nc_value c) =? DIGEST_SIZE).

(** The encoding of a component, without and with its cached wire. *)
Definition Component_wireEncode (c : Component) : octets := tlv (nc_type c) (nc_value c).

Definition Component_equals (c other : Component) : bool :=
  (nc_type c =? nc_type other) &&
  (zlen (nc_value c) =? zlen (nc_value other)) &&
  ((zlen (nc_value c) =? 0) || bool_decide (nc_value c = nc_value other)).

(** [std::memcmp] of the first [n] octets: its sign. *)
Fixpoint memcmp (n : nat) (l r : octets) : Z :=
  match n, l, r with
  | S n', x :: l', y :: r' =>
    if b2z x <? b2z y then -1 else if b2z y <? b2z x then 1 else memcmp n' l' r'
  | _, _, _ => 0
  end.

(** The order on components that have wire encoding: the optimised branch of
    [Component::compare], on the octets of both wires. *)
Definition compare_wire (w other : octets) : Z :=
  memcmp (length w `min` length other) w other.

(** The branch for components without wire encoding: type, length, value. *)
Definition compare_fields (c other : Component) : Z :=
  let cmpType := nc_type c - nc_type other in
  if negb (cmpType =? 0) then cmpType else
  let cmpSize := zlen (nc_value c) - zlen (nc_value other) in
  if negb (cmpSize =? 0) then cmpSize else
  if zlen (nc_value c) =? 0 then 0 else
  memcmp (length (nc_value c)) (nc_value c) (nc_value other).

(** [Component::compare] of components with the wires [w] and [ow] they hold. *)
Definition Component_compare (c : Component) (w : option octets)
    (other : Component) (ow : option octets) : Z :=
  match w, ow with
  | Some w, Some ow => compare_wire w ow
  | _, _ => compare_fields c other
  end.

(** ** URI representation *)

Definition in_range (lo hi : string) (c : byte) : bool :=
  match str lo, str hi with
  | [l], [h] => (b2z l <=? b2z c) && (b2z c <=? b2z h)
  | _, _ => false
  end.

Definition is_unreserved (c : byte) : bool :=
  in_range "a" "z" c || in_range "A" "Z" c || in_range "0" "9" c ||
  in_range "-" "-" c || in_range "." "." c || in_range "_" "_" c || in_range "~" "~" c.

Definition toHexChar (n : Z) (wantUpperCase : bool) : byte :=
  nth (Z.to_nat (Z.land n 15))
      (if wantUpperCase then str "0123456789ABCDEF" else str "0123456789abcdef") x00.

Definition fromHexChar (c : byte) : Z :=
  if in_range "0" "9" c then b2z c - 48
  else if in_range "A" "F" c then b2z c - 65 + 10
  else if in_range "a" "f" c then b2z c - 97 + 10
  else -1.

(** [escape(std::ostream&, const char*, size_t)] *)
Fixpoint escape (s : octets) : octets :=
  match s with
  | [] => []
  | c :: s' =>
    (if is_unreserved c then [c]
     else str "%" ++ [toHexChar (Z.shiftr (Z.land (b2z c) 240) 4) true;
                      toHexChar (Z.land (b2z c) 15) true]) ++ escape s'
  end.

(** [unescape]: a percent sign followed by two hexadecimal digits is the octet
    they denote; anything else is copied. *)
Fixpoint unescape (s : octets) : octets :=
  match s with
  | [] => []
  | c :: s' =>
    match s' with
    | h :: l :: s'' =>
      if bool_decide ([c] = str "%") then
        let hi := fromHexChar h in
        let lo := fromHexChar l in
        (if (hi <? 0) || (lo <? 0) then [c; h; l]
         else [z2b (Z.lor (Z.shiftl hi 4) lo)]) ++ unescape s''
      else c :: unescape s'
    | _ => c :: unescape s'
    end
  end.

Definition writeUriEscapedValue (c : Component) : octets :=
  (if forallb (fun x => bool_decide ([x] = str ".")) (nc_value c) then str "..." else []) ++
  escape (nc_value c).

(** [printHex(os, buffer, length, false)] *)
Definition printHex (s : octets) : octets :=
  s ≫= (fun c => [toHexChar (Z.shiftr (b2z c) 4) false; toHexChar (Z.land (b2z c) 15) false]).

(** A decimal number, as [os << uint32_t] prints it. *)
Fixpoint decimal_loop (fuel : nat) (n : Z) (acc : octets) : octets :=
  match fuel with
  | O => acc
  | S fuel' =>
    let acc := z2b (48 + n mod 10) :: acc in
    if n <? 10 then acc else decimal_loop fuel' (n / 10) acc
  end.
(** Ten digits are enough for 32 bits. *)
Definition decimal (n : Z) : octets := decimal_loop 10 n [].

(** [ComponentTypeTable::get(type()).writeUri], [Component::toUri] *)
Definition Component_toUri (c : Component) : octets :=
  if nc_type c =? GenericNameComponent then writeUriEscapedValue c
  else if nc_type c =? ImplicitSha256DigestComponent then
    str "sha256digest=" ++ printHex (nc_value c)
  else if nc_type c =? ParametersSha256DigestComponent then
    str "params-sha256=" ++ printHex (nc_value c)
  else decimal (nc_type c) ++ str "=" ++ writeUriEscapedValue c.

(** ** Names *)

Abbreviation Name := (list Component).

Definition name_size (n : Name) : Z := zlen n.

(** [Name::at], [Name::get]: a negative index counts from the end. *)
Definition name_at (i : Z) (n : Name) : result Component :=
  let i := if i <? 0 then name_size n + i else i in
  if (i <? 0) || (name_size n <=? i)
  then Err (TlvError "Requested component does not exist (out of bounds)")
  else match n !! Z.to_nat i with
       | Some c => Ok c
       | None => Err (TlvError "Requested component does not exist (out of bounds)")
       end.

(** [npos] is the greatest [size_t]. *)
Definition npos : Z := 2 ^ 64 - 1.

(** [Name::getSubName]; the sums are of [size_t]. *)
Definition getSubName (iStartComponent nComponents : Z) (n : Name) : Name :=
  let iStart := if iStartComponent <? 0 then name_size n + iStartComponent else iStartComponent in
  let iStart := Z.max iStart 0 in
  let iEnd := if nComponents =? npos then name_size n
              else Z.min (name_size n) (u64 (iStart + nComponents)) in
  take (Z.to_nat (iEnd - iStart)) (drop (Z.to_nat iStart) n).

(** [Name::getPrefix]; [size() + nComponents] is converted to [size_t]. *)
Definition getPrefix (nComponents : Z) (n : Name) : Name :=
  if nComponents <? 0 then getSubName 0 (u64 (name_size n + nComponents)) n
  else getSubName 0 nComponents n.

Fixpoint isPrefixOf_loop (n other : Name) : bool :=
  match n, other with
  | [], _ => true
  | c :: n', o :: other' => Component_equals c o && isPrefixOf_loop n' other'
  | _ :: _, [] => false
  end.
Definition isPrefixOf (n other : Name) : bool :=
  if name_size other <? name_size n then false else isPrefixOf_loop n other.

Definition name_equals (n other : Name) : bool :=
  if negb (name_size n =? name_size other) then false else isPrefixOf_loop n other.

(** [operator<<], [Name::toUri] *)
Definition name_toUri (n : Name) : octets :=
  match n with
  | [] => str "/"
  | _ => n ≫= (fun c => str "/" ++ Component_toUri c)
  end.

(** ** Tags *)

Record Tags := mkTags {
  tag_incomingFaceId : option Z;
  tag_nextHopFaceId : option Z;
  tag_cachePolicy : option Z;
  tag_congestionMark : option Z;
  tag_nonDiscovery : bool;
  tag_prefixAnnouncement : option octets;
  tag_hopCount : option Z;
}.
Definition no_tags : Tags := mkTags None None None None false None None.

Definition set_nextHopFaceId (v : option Z) (t : Tags) : Tags :=
  mkTags (tag_incomingFaceId t) v (tag_cachePolicy t) (tag_congestionMark t)
         (tag_nonDiscovery t) (tag_prefixAnnouncement t) (tag_hopCount t).
Definition set_congestionMark (v : option Z) (t : Tags) : Tags :=
  mkTags (tag_incomingFaceId t) (tag_nextHopFaceId t) (tag_cachePolicy t) v
         (tag_nonDiscovery t) (tag_prefixAnnouncement t) (tag_hopCount t).

Definition set_cachePolicy (v : option Z) (t : Tags) : Tags :=
  mkTags (tag_incomingFaceId t) (tag_nextHopFaceId t) v (tag_congestionMark t)
         (tag_nonDiscovery t) (tag_prefixAnnouncement t) (tag_hopCount t).
Definition set_nonDiscovery (t : Tags) : Tags :=
  mkTags (tag_incomingFaceId t) (tag_nextHopFaceId t) (tag_cachePolicy t) (tag_congestionMark t)
         true (tag_prefixAnnouncement t) (tag_hopCount t).
Definition set_prefixAnnouncement (v : option octets) (t : Tags) : Tags :=
  mkTags (tag_incomingFaceId t) (tag_nextHopFaceId t) (tag_cachePolicy t) (tag_congestionMark t)
         (tag_nonDiscovery t) v (tag_hopCount t).
Definition set_hopCount (v : option Z) (t : Tags) : Tags :=
  mkTags (tag_incomingFaceId t) (tag_nextHopFaceId t) (tag_cachePolicy t) (tag_congestionMark t)
         (tag_nonDiscovery t) (tag_prefixAnnouncement t) v.

(** [PacketBase::getCongestionMark], [PacketBase::setCongestionMark]: zero is
    the absence of the mark. *)
Definition getCongestionMark (t : Tags) : Z :=
  match tag_congestionMark t with None => 0 | Some m => m end.
Definition setCongestionMark (mark : Z) (t : Tags) : Tags :=
  if negb (mark =? 0) then set_congestionMark (Some mark) t else set_congestionMark None t.

(** ** The order of components *)

(** Lexicographic comparison, where a proper prefix compares equal. *)
Fixpoint lexcmp (l r : octets) : Z :=
  match l, r with
  | x :: l', y :: r' =>
    if b2z x <? b2z y then -1 else if b2z y <? b2z x then 1 else lexcmp l' r'
  | _, _ => 0
  end.

Lemma memcmp_lexcmp n l r :
  (length l `min` length r <= n)%nat -> memcmp n l r = lexcmp l r.
Proof.
  revert l r. induction n as [|n IH]; intros [|x l] [|y r] Hn; cbn in *; try done; try lia.
  by rewrite IH by lia.
Qed.

Lemma compare_wire_lexcmp l r : compare_wire l r = lexcmp l r.
Proof. apply memcmp_lexcmp. lia. Qed.

(** Three-way comparison of integers, continued by [k] on equality. *)
Definition cmp_then (a b k : Z) : Z := if a <? b then -1 else if b <? a then 1 else k.

Lemma lexcmp_be_bytes m a b x y :
  lexcmp (be_bytes m a ++ x) (be_bytes m b ++ y) =
  cmp_then (a mod 2 ^ (8 * Z.of_nat m)) (b mod 2 ^ (8 * Z.of_nat m)) (lexcmp x y).
Proof.
  induction m as [|m IH]; cbn [be_bytes app lexcmp].
  - change (2 ^ (8 * Z.of_nat 0)) with 1. by rewrite !Z.mod_1_r.
  - rewrite IH, !b2z_z2b, !Z.shiftr_div_pow2 by lia. unfold u8, cmp_then.
    replace (8 * Z.of_nat (S m)) with (8 * Z.of_nat m + 8) by lia.
    rewrite Z.pow_add_r by lia. set (p := 2 ^ (8 * Z.of_nat m)).
    assert (0 < p) by (apply Z.pow_pos_nonneg; lia).
    rewrite !(Z.rem_mul_r _ p (2 ^ 8)) by lia.
    pose proof (Z.mod_pos_bound a p ltac:(lia)).
    pose proof (Z.mod_pos_bound b p ltac:(lia)).
    generalize ((a / p) mod 2 ^ 8), ((b / p) mod 2 ^ 8). intros u v.
    repeat case_match; zbool; nia.
Qed.

Lemma lexcmp_var_number a b x y :
  is_u64 a -> is_u64 b ->
  lexcmp (var_number a ++ x) (var_number b ++ y) = cmp_then a b (lexcmp x y).
Proof.
  intros Ha Hb. unfold var_number, writeVarNumber, is_u64 in *.
  repeat case_match; simplify_eq; zbool; cbn [fst app lexcmp];
    rewrite ?lexcmp_be_bytes, ?b2z_z2b; unfold cmp_then, u8, u16, u32;
    change (253 mod 2 ^ 8) with 253; change (254 mod 2 ^ 8) with 254;
    change (255 mod 2 ^ 8) with 255;
    change (2 ^ (8 * Z.of_nat 2)) with (2 ^ 16);
    change (2 ^ (8 * Z.of_nat 4)) with (2 ^ 32);
    change (2 ^ (8 * Z.of_nat 8)) with (2 ^ 64);
    rewrite ?(Z.mod_small a), ?(Z.mod_small b) by lia; repeat case_match; zbool; try done; lia.
Qed.

Lemma lexcmp_tlv t1 v1 t2 v2 :
  encodable t1 v1 -> encodable t2 v2 ->
  lexcmp (tlv t1 v1) (tlv t2 v2) = cmp_then t1 t2 (cmp_then (zlen v1) (zlen v2) (lexcmp v1 v2)).
Proof.
  intros [Ht1 Hl1] [Ht2 Hl2]. unfold tlv. unfold is_u32 in *.
  by rewrite !lexcmp_var_number by (unfold is_u64 in *; lia).
Qed.

Lemma compare_fields_sgn c o :
  Z.sgn (compare_fields c o) =
  cmp_then (nc_type c) (nc_type o)
    (cmp_then (zlen (nc_value c)) (zlen (nc_value o)) (Z.sgn (lexcmp (nc_value c) (nc_value o)))).
Proof.
  unfold compare_fields, cmp_then.
  destruct (nc_type c - nc_type o =? 0) eqn:E1; cbn [negb]; zbool.
  2: { repeat case_match; zbool; lia. }
  rewrite (proj2 (Z.ltb_ge _ _)), (proj2 (Z.ltb_ge (nc_type o) _)) by lia.
  destruct (zlen (nc_value c) - zlen (nc_value o) =? 0) eqn:E2; cbn [negb]; zbool.
  2: { repeat case_match; zbool; lia. }
  rewrite (proj2 (Z.ltb_ge _ _)), (proj2 (Z.ltb_ge (zlen (nc_value o)) _)) by lia.
  destruct (zlen (nc_value c) =? 0) eqn:E3; zbool.
  - unfold zlen in *. destruct (nc_value c), (nc_value o); cbn in *; done || lia.
  - rewrite memcmp_lexcmp; [done|]. unfold zlen in *. lia.
Qed.

Lemma lexcmp_sgn l r : Z.sgn (lexcmp l r) = lexcmp l r.
Proof.
  revert r. induction l as [|x l IH]; intros [|y r]; cbn; try done.
  repeat case_match; done.
Qed.

Lemma lexcmp_refl l : lexcmp l l = 0.
Proof. induction l as [|x l IH]; cbn; [done|]. by rewrite Z.ltb_irrefl. Qed.

Lemma lexcmp_eq l r : length l = length r -> lexcmp l r = 0 -> l = r.
Proof.
  revert r. induction l as [|x l IH]; intros [|y r]; cbn; try done.
  intros [= Hl]. repeat case_match; try done. zbool. intros H'. f_equal.
  - apply b2z_inj. lia.
  - by apply IH.
Qed.

(** ** Escaping *)

Lemma hex_pair c :
  let hi := toHexChar (Z.shiftr (Z.land (b2z c) 240) 4) true in
  let lo := toHexChar (Z.land (b2z c) 15) true in
  (fromHexChar hi <? 0) || (fromHexChar lo <? 0) = false /\
  z2b (Z.lor (Z.shiftl (fromHexChar hi) 4) (fromHexChar lo)) = c.
Proof. by destruct c. Qed.

Lemma unescape_step c s :
  bool_decide ([c] = str "%") = false -> unescape (c :: s) = c :: unescape s.
Proof. intros H. cbn [unescape]. rewrite H. by destruct s as [|? [|? ?]]. Qed.

Lemma unescape_escape s : unescape (escape s) = s.
Proof.
  induction s as [|c s IH]; [done|]. cbn [escape]. destruct (is_unreserved c) eqn:E.
  - cbn [app]. rewrite unescape_step, IH; [done|].
    apply bool_decide_eq_false. intros [= ->]. by vm_compute in E.
  - change (str "%") with [x25]. cbn [app unescape]. rewrite bool_decide_true by done.
    destruct (hex_pair c) as [-> ->]. cbn [app]. by rewrite IH.
Qed.

(** ** Names *)

Lemma Component_equals_spec c o : Component_equals c o = true <-> c = o.
Proof.
  unfold Component_equals. rewrite !andb_true_iff, orb_true_iff, !Z.eqb_eq, bool_decide_eq_true.
  destruct c as [t v], o as [t' v']; cbn. split.
  - intros [[-> Hl] [H0|Hv]]; [|by subst].
    unfold zlen in *. destruct v, v'; cbn in *; done || lia.
  - intros [= -> ->]. auto.
Qed.

Lemma isPrefixOf_loop_spec n other : isPrefixOf_loop n other = true <-> n `prefix_of` other.
Proof.
  revert other. induction n as [|c n IH]; intros [|o other]; cbn.
  - split; [intros _; apply prefix_nil|done].
  - split; [intros _; apply prefix_nil|done].
  - split; [done|]. by intros [k Hk].
  - rewrite andb_true_iff, Component_equals_spec, IH. split.
    + intros [-> [k ->]]. by exists k.
    + intros [k [= -> ->]]. split; [done|by exists k].
Qed.

Lemma isPrefixOf_spec n other : isPrefixOf n other = true <-> n `prefix_of` other.
Proof.
  unfold isPrefixOf. rewrite <- isPrefixOf_loop_spec.
  destruct (name_size other <? name_size n) eqn:E; [|done]. zbool. split; [done|].
  intros H%isPrefixOf_loop_spec%prefix_length. unfold name_size, zlen in E. lia.
Qed.

Lemma name_equals_spec n other : name_equals n other = true <-> n = other.
Proof.
  unfold name_equals, name_size.
  destruct (zlen n =? zlen other) eqn:E; cbn [negb]; zbool; unfold zlen in E.
  - rewrite isPrefixOf_loop_spec. split; [|by intros ->].
    intros H. apply prefix_length_eq; [done|lia].
  - split; [done|]. intros ->. lia.
Qed.

(** The prefix the strategy puts into the root name: all but the last component,
    and the empty name for the empty name. *)
Lemma getPrefix_minus1 n : zlen n < 2 ^ 64 - 1 -> getPrefix (-1) n = take (length n - 1) n.
Proof.
  intros Hl. unfold getPrefix, getSubName. change (-1 <? 0) with true. cbv iota.
  change (0 <? 0) with false. cbv iota. change (Z.max 0 0) with 0. cbn [Z.to_nat drop].
  rewrite Z.add_0_l, Z.sub_0_r. unfold name_size, u64, npos, zlen in *. destruct n as [|c n].
  - by rewrite !take_nil.
  - cbn [length] in *. rewrite (Z.mod_small _ (2 ^ 64)) by lia.
    destruct (_ =? _) eqn:E; zbool; [lia|].
    rewrite Z.mod_small by lia. f_equal. lia.
Qed.

(** ** Properties *)

(** The optimised order of name components is the canonical one: comparing
    the wire encodings as octet strings up to the length of the shorter has the
    sign of comparing type, then length, then value, and it is zero exactly for
    equal components. *)
Theorem Component_compare_wire_canonical (c o : Component)
    (Hc : encodable (nc_type c) (nc_value c)) (Ho : encodable (nc_type o) (nc_value o)) :
  Component_compare c (Some (Component_wireEncode c)) o (Some (Component_wireEncode o)) =
    Z.sgn (Component_compare c None o None) /\
  (Component_compare c None o None = 0 <-> Component_equals c o = true).
Proof.
  cbn [Component_compare]. rewrite compare_wire_lexcmp. unfold Component_wireEncode.
  rewrite lexcmp_tlv, compare_fields_sgn, lexcmp_sgn by done. split; [done|].
  rewrite <- Z.sgn_null_iff, compare_fields_sgn, lexcmp_sgn, Component_equals_spec.
  unfold cmp_then. destruct c as [t v], o as [t' v']; cbn [nc_type nc_value].
  split.
  - repeat case_match; zbool; try done. intros Hz. assert (t = t') as -> by lia. f_equal.
    apply lexcmp_eq; [unfold zlen in *; lia|done].
  - intros [= -> ->]. by rewrite !Z.ltb_irrefl, lexcmp_refl.
Qed.

Lemma Component_compare_wire_canonical_witness :
  Component_compare (mkComponent 8 (str "b")) (Some (Component_wireEncode (mkComponent 8 (str "b"))))
                    (mkComponent 8 (str "aa")) (Some (Component_wireEncode (mkComponent 8 (str "aa"))))
    = -1.
Proof.
  destruct (Component_compare_wire_canonical (mkComponent 8 (str "b")) (mkComponent 8 (str "aa")))
    as [-> _]; [repeat split; by vm_compute..|]. by vm_compute.
Defined.
