(* ===== verification/NameTlv.v ===== *)
(** * Names on the wire (ndn-cxx/name.cpp, name-component.cpp, impl/name-component-types.hpp)

    Encoding and decoding of names and components, the validity of components, their
    order, and the numeric components of the naming conventions. *)

From stdpp Require Import base list strings.
From Stdlib Require Import Strings.Byte ZArith Lia.
From S2P Require Import Prelude Tlv Encoder Block Codec Ndn.

Local Open Scope Z_scope.

(** ** Components *)

Definition isGeneric (c : Component) : bool := nc_type c =? GenericNameComponent.
Definition isParametersSha256Digest (c : Component) : bool :=
  (nc_type c =? ParametersSha256DigestComponent) && (zlen (nc_value c) =? DIGEST_SIZE).

(** [ComponentTypeTable::get(type).check]: only the two digest types have a rule. *)
Definition ComponentType_check (c : Component) : result unit :=
  if nc_type c =? ImplicitSha256DigestComponent then
    if isImplicitSha256Digest c then Ok tt
    else Err (TlvError "ImplicitSha256DigestComponent TLV-LENGTH must be 32")
  else if nc_type c =? ParametersSha256DigestComponent then
    if isParametersSha256Digest c then Ok tt
    else Err (TlvError "ParametersSha256DigestComponent TLV-LENGTH must be 32")
  else Ok tt.

(** [Component::ensureValid] *)
Definition ensureValid (c : Component) : result unit :=
  if (nc_type c <? NameComponentMin) || (nc_type c >? NameComponentMax)
  then Err (TlvError "TLV-TYPE is not a valid NameComponent")
  else ComponentType_check c.

(** [Component(const Block&)] *)
Definition Component_ofBlock (wire : Block) : result Component :=
  let c := mkComponent (block_type wire) (block_value wire) in
  let* _ := ensureValid c in Ok c.

(** [Component(uint32_t, const uint8_t*, size_t)] *)
Definition Component_new (type : Z) (value : octets) : result Component :=
  let* b := makeBinaryBlock type value in Component_ofBlock b.

(** [Component::wireEncode(EncodingImpl<TAG>&)] *)
Definition Component_encode `{EncodingImpl E} (c : Component) (e : E) : Z * E :=
  let '(totalLength, e) :=
    if zlen (nc_value c) >? 0 then prependByteArray (nc_value c) e else (0, e) in
  let '(n1, e) := prependVarNumber (zlen (nc_value c)) e in
  let '(n2, e) := prependVarNumber (nc_type c) e in
  (totalLength + n1 + n2, e).

(** *** Numbers *)

Definition SEGMENT_MARKER : Z := 0.
Definition SEGMENT_OFFSET_MARKER : Z := 251.
Definition VERSION_MARKER : Z := 253.
Definition TIMESTAMP_MARKER : Z := 252.
Definition SEQUENCE_NUMBER_MARKER : Z := 254.

Definition isNumber (c : Component) : bool :=
  let n := zlen (nc_value c) in (n =? 1) || (n =? 2) || (n =? 4) || (n =? 8).

Definition isNumberWithMarker (marker : Z) (c : Component) : bool :=
  let n := zlen (nc_value c) in
  match nc_value c with
  | [] => false
  | b :: _ => (b2z b =? marker) && ((n =? 2) || (n =? 3) || (n =? 5) || (n =? 9))
  end.

Definition isVersion : Component -> bool := isNumberWithMarker VERSION_MARKER.
Definition isSegment : Component -> bool := isNumberWithMarker SEGMENT_MARKER.

Definition toNumber (c : Component) : result Z :=
  if negb (isNumber c) then Err (TlvError "Name component does not have nonNegativeInteger value")
  else let* (n, _) := readNonNegativeInteger (length (nc_value c)) (nc_value c) in Ok n.

Definition toNumberWithMarker (marker : Z) (c : Component) : result Z :=
  if negb (isNumberWithMarker marker c)
  then Err (TlvError "Name component does not have the requested marker")
  else let* (n, _) := readNonNegativeInteger (length (nc_value c) - 1) (drop 1 (nc_value c)) in Ok n.

Definition toVersion : Component -> result Z := toNumberWithMarker VERSION_MARKER.
Definition toSegment : Component -> result Z := toNumberWithMarker SEGMENT_MARKER.

(** The statements of [fromNumberWithMarker] on the encoder. *)
Definition numberWithMarker `{EncodingImpl E} (marker number : Z) : E -> Z * E :=
  prependElement GenericNameComponent
    (prependAll [prependNonNegativeInteger number; prependByteArray [z2b marker]]).

Definition fromNumber (number : Z) : result Component :=
  let* b := makeNonNegativeIntegerBlock GenericNameComponent number in Component_ofBlock b.
Definition fromNumberWithMarker (marker number : Z) : result Component :=
  let* b := encodeBlock (numberWithMarker marker number) (numberWithMarker marker number) in
  Component_ofBlock b.

(** ** Names *)

(** [Name::wireEncode(EncodingImpl<TAG>&)]: the components from the last to the first. *)
Definition Name_encode `{EncodingImpl E} (n : Name) : E -> Z * E :=
  prependElement tlv_Name (prependAll (Component_encode <$> reverse n)).

(** [Name::wireEncode() const] of a name without wire encoding. *)
Definition Name_wireEncode (n : Name) : result Block :=
  encodeBlock (Name_encode n) (Name_encode n).

(** [Name::wireDecode]: the sub-elements become components as they are. *)
Definition Name_wireDecode (wire : Block) : result Name :=
  if negb (block_type wire =? tlv_Name) then Err (TlvError "Unexpected TLV type when decoding Name")
  else
    let* els := parse wire in
    Ok ((fun b => mkComponent (block_type b) (block_value b)) <$> els).

(** [Name::compare(pos1, count1, other, pos2, count2)] at its defaults: both names whole. *)
Fixpoint name_compare_loop (n other : Name) : Z :=
  match n, other with
  | c :: n', o :: other' =>
    let comp := compare_fields c o in
    if negb (comp =? 0) then comp else name_compare_loop n' other'
  | _, _ => 0
  end.
Definition name_compare (n other : Name) : Z :=
  let comp := name_compare_loop n other in
  if negb (comp =? 0) then comp else name_size n - name_size other.

(** ** Encoding *)

Section emission.
Context `{EncodingOk E}.

Lemma emits_Component c : emits (Component_encode c) (tlv (nc_type c) (nc_value c)).
Proof.
  destruct c as [t v]. unfold Component_encode. cbn [nc_type nc_value].
  destruct (zlen v >? 0) eqn:El.
  - apply emits_prependByteArrayBlock.
  - assert (v = []) as ->.
    { destruct v; [done|]. rewrite zlen_cons, Z.gtb_ltb in El. zbool.
      pose proof (zlen_nonneg v). lia. }
    eapply emits_ext; [|apply emits_prependEmptyBlock]. intros e. unfold prependEmptyBlock.
    change (zlen []) with 0. destruct (prependVarNumber 0 e) as [n1 e1].
    by destruct (prependVarNumber t e1).
Qed.
End emission.

(** The elements of a name. *)
Definition name_elements (n : Name) : list (Z * octets) := (fun c => (nc_type c, nc_value c)) <$> n.

Lemma tlvs_name_elements n : tlvs (name_elements n) = n ≫= (fun c => tlv (nc_type c) (nc_value c)).
Proof. unfold tlvs, name_elements. by induction n as [|c n IH]; csimpl; [|rewrite IH]. Qed.

Lemma emits_Name `{EncodingOk E} n : emits (Name_encode n) (tlv tlv_Name (tlvs (name_elements n))).
Proof.
  apply emits_prependElement. rewrite tlvs_name_elements.
  apply emits_prependAll_reverse. intros c _. apply emits_Component.
Qed.
#[export] Hint Resolve emits_Component emits_Name : valdb.

(** A name whose components have a TLV-TYPE of 32 bits. *)
Definition wf_name (n : Name) : Prop := Forall (fun c => is_u32 (nc_type c)) n.

Lemma wf_name_elements n : wf_name n -> Forall (fun el => is_u32 el.1) (name_elements n).
Proof. intros Hn. by apply Forall_fmap. Qed.

Definition element_of (el : Z * octets) : Block := element el.1 el.2.

Lemma Name_wireDecode_element n :
  wf_name n -> is_u64 (zlen (tlvs (name_elements n))) ->
  Name_wireDecode (element tlv_Name (tlvs (name_elements n))) = Ok n.
Proof.
  intros Hn Hl. unfold Name_wireDecode. cbn [block_type element].
  change (negb (tlv_Name =? tlv_Name)) with false. cbv iota. fold (element tlv_Name (tlvs (name_elements n))).
  rewrite parse_element_tlvs by (done || by apply wf_name_elements). cbn [mbind result_bind]. f_equal.
  clear. unfold name_elements. induction n as [|[t v] n IH]; [done|]. csimpl. by rewrite IH.
Qed.

Lemma Name_wireEncode_ok n :
  is_u64 (zlen (tlvs (name_elements n))) ->
  Name_wireEncode n = Ok (element tlv_Name (tlvs (name_elements n))).
Proof.
  intros Hl. apply encodeBlock_emits; [|apply emits_Name]. split; [|done]. unfold is_u32, tlv_Name. lia.
Qed.

Lemma caught_ensureValid c : caught (ensureValid c).
Proof. unfold ensureValid, ComponentType_check. caught_solve. Qed.
Lemma caught_Component_ofBlock b : caught (Component_ofBlock b).
Proof. apply caught_bind_all; [apply caught_ensureValid|done]. Qed.
Lemma caught_Name_wireDecode b : caught (Name_wireDecode b).
Proof. unfold Name_wireDecode. caught_solve. Qed.
#[export] Hint Resolve caught_ensureValid caught_Component_ofBlock caught_Name_wireDecode : valdb.

(** ** The canonical order of components and names *)

Lemma lexcmp_antisym l r : lexcmp r l = - lexcmp l r.
Proof.
  revert r. induction l as [|x l IH]; intros [|y r]; cbn; try done.
  rewrite IH. repeat case_match; zbool; lia.
Qed.

Lemma lexcmp_trans l1 l2 l3 :
  length l1 = length l2 -> length l2 = length l3 ->
  lexcmp l1 l2 < 0 -> lexcmp l2 l3 <= 0 -> lexcmp l1 l3 < 0.
Proof.
  revert l2 l3. induction l1 as [|x l1 IH]; intros [|y l2] [|z l3]; cbn; try done.
  intros [= H12] [= H23]. repeat case_match; zbool; try lia. by apply IH.
Qed.

Lemma compare_fields_lt c o :
  compare_fields c o < 0 <->
  nc_type c < nc_type o \/ nc_type c = nc_type o /\
    (zlen (nc_value c) < zlen (nc_value o) \/
     zlen (nc_value c) = zlen (nc_value o) /\ lexcmp (nc_value c) (nc_value o) < 0).
Proof.
  rewrite <- Z.sgn_neg_iff, compare_fields_sgn, lexcmp_sgn. unfold cmp_then.
  pose proof (lexcmp_sgn (nc_value c) (nc_value o)).
  repeat case_match; zbool; try lia.
Qed.

Lemma compare_fields_eq c o : compare_fields c o = 0 <-> c = o.
Proof.
  rewrite <- Z.sgn_null_iff, compare_fields_sgn, lexcmp_sgn. unfold cmp_then.
  destruct c as [t v], o as [t' v']; cbn [nc_type nc_value]. split.
  - repeat case_match; zbool; try done. intros Hz. assert (t = t') as -> by lia. f_equal.
    apply lexcmp_eq; [unfold zlen in *; lia|done].
  - intros [= -> ->]. by rewrite !Z.ltb_irrefl, lexcmp_refl.
Qed.

Lemma compare_fields_antisym c o : compare_fields o c < 0 <-> 0 < compare_fields c o.
Proof.
  rewrite <- (Z.sgn_pos_iff (compare_fields c o)), compare_fields_sgn, lexcmp_sgn, compare_fields_lt.
  rewrite lexcmp_antisym. unfold cmp_then. pose proof (lexcmp_sgn (nc_value c) (nc_value o)).
  repeat case_match; zbool; lia.
Qed.

Lemma compare_fields_trans a b c :
  compare_fields a b < 0 -> compare_fields b c < 0 -> compare_fields a c < 0.
Proof.
  rewrite !compare_fields_lt. unfold zlen in *. intros H1 H2.
  destruct H1 as [H1|[H1 [H1'|[H1' H1'']]]]; [lia|lia|].
  destruct H2 as [H2|[H2 [H2'|[H2' H2'']]]]; [lia|lia|].
  right. split; [lia|]. right. split; [lia|]. eapply lexcmp_trans; [| |done|]; lia.
Qed.

(** [operator<] on components. *)
Definition component_ltb (a b : Component) : bool := compare_fields a b <? 0.

Lemma component_ltb_irrefl a : component_ltb a a = false.
Proof. apply Z.ltb_ge. by rewrite (proj2 (compare_fields_eq a a)). Qed.
Lemma component_ltb_trans a b c :
  component_ltb a b = true -> component_ltb b c = true -> component_ltb a c = true.
Proof. unfold component_ltb. rewrite !Z.ltb_lt. apply compare_fields_trans. Qed.
Lemma component_ltb_total a b : component_ltb a b = false -> component_ltb b a = false -> a = b.
Proof.
  unfold component_ltb. rewrite !Z.ltb_ge. intros H1 H2. apply compare_fields_eq.
  pose proof (compare_fields_antisym a b). lia.
Qed.

(** [operator<] on names. *)
Definition name_ltb (n o : Name) : bool := name_compare n o <? 0.

Lemma name_compare_cons c n o m :
  name_compare (c :: n) (o :: m) =
  if compare_fields c o =? 0 then name_compare n m else compare_fields c o.
Proof.
  unfold name_compare. cbn [name_compare_loop]. cbv zeta.
  destruct (compare_fields c o =? 0) eqn:E; cbn [negb].
  - unfold name_size. rewrite !zlen_cons. destruct (name_compare_loop n m =? 0); cbn [negb]; [lia|done].
  - by rewrite E.
Qed.

Lemma name_compare_nil_cons o m : name_compare [] (o :: m) < 0.
Proof. change (zlen (@nil Component) - zlen (o :: m) < 0). rewrite zlen_cons. pose proof (zlen_nonneg m). zlen_lia. Qed.
Lemma name_compare_cons_nil c n : 0 < name_compare (c :: n) [].
Proof. change (0 < zlen (c :: n) - zlen (@nil Component)). rewrite zlen_cons. pose proof (zlen_nonneg n). zlen_lia. Qed.

Lemma name_compare_eq n o : name_compare n o = 0 <-> n = o.
Proof.
  revert o. induction n as [|c n IH]; intros [|o m].
  - done.
  - split; [|done]. pose proof (name_compare_nil_cons o m). lia.
  - split; [|done]. pose proof (name_compare_cons_nil c n). lia.
  - rewrite name_compare_cons. destruct (compare_fields c o =? 0) eqn:E; zbool.
    + apply compare_fields_eq in E as ->. rewrite IH. split; [by intros ->|by intros [= ->]].
    + split; [lia|]. intros [= -> ->]. by destruct E; apply compare_fields_eq.
Qed.

Lemma name_compare_antisym n o : name_compare o n < 0 <-> 0 < name_compare n o.
Proof.
  revert o. induction n as [|c n IH]; intros [|o m].
  - done.
  - pose proof (name_compare_nil_cons o m). pose proof (name_compare_cons_nil o m). lia.
  - pose proof (name_compare_nil_cons c n). pose proof (name_compare_cons_nil c n). lia.
  - rewrite !name_compare_cons. pose proof (compare_fields_antisym c o) as H1.
    pose proof (compare_fields_antisym o c) as H2.
    repeat case_match; zbool; try lia. apply IH.
Qed.

Lemma name_ltb_trans a b c : name_ltb a b = true -> name_ltb b c = true -> name_ltb a c = true.
Proof.
  unfold name_ltb. rewrite !Z.ltb_lt. revert b c. induction a as [|x a IH]; intros b c.
  - destruct c as [|z c]; [|intros _ _; apply name_compare_nil_cons].
    destruct b as [|y b]; [done|]. pose proof (name_compare_cons_nil y b). lia.
  - destruct b as [|y b]; [pose proof (name_compare_cons_nil x a); lia|].
    destruct c as [|z c]; [pose proof (name_compare_cons_nil y b); lia|].
    rewrite !name_compare_cons.
    destruct (compare_fields x y =? 0) eqn:E1, (compare_fields y z =? 0) eqn:E2; zbool.
    + apply compare_fields_eq in E1 as ->. apply compare_fields_eq in E2 as ->.
      rewrite (proj2 (compare_fields_eq z z) eq_refl). apply IH.
    + apply compare_fields_eq in E1 as ->. by rewrite (proj2 (Z.eqb_neq _ _) E2).
    + apply compare_fields_eq in E2 as ->. by rewrite (proj2 (Z.eqb_neq _ _) E1).
    + intros H1 H2. pose proof (compare_fields_trans _ _ _ H1 H2).
      by rewrite (proj2 (Z.eqb_neq _ 0)) by lia.
Qed.
Lemma name_ltb_irrefl a : name_ltb a a = false.
Proof. apply Z.ltb_ge. by rewrite (proj2 (name_compare_eq a a)). Qed.
Lemma name_ltb_total a b : name_ltb a b = false -> name_ltb b a = false -> a = b.
Proof.
  unfold name_ltb. rewrite !Z.ltb_ge. intros H1 H2. apply name_compare_eq.
  pose proof (name_compare_antisym a b). lia.
Qed.
