(* ===== verification/Signature.v ===== *)
(** * Signatures (ndn-cxx/key-locator.cpp, signature-info.cpp, signature.cpp)

    KeyLocator, SignatureInfo and Signature with their encodings.  Each keeps the block it
    was decoded from in [m_wire]; a setter resets it.  [operator==] of key locators
    compares encodings, so [sig_key] collects what the equality of signatures looks at. *)

From stdpp Require Import base list strings.
From Stdlib Require Import Strings.Byte ZArith Lia.
From S2P Require Import Prelude Tlv Encoder Block Codec Ndn NameTlv.

Local Open Scope Z_scope.

(** ** KeyLocator *)

Inductive KeyLocatorType :=
  | KeyLocator_Name
  | KeyLocator_KeyDigest
  | KeyLocator_None
  | KeyLocator_Unknown.

#[export] Instance KeyLocatorType_eq_dec : EqDecision KeyLocatorType.
Proof. solve_decision. Defined.

Record KeyLocator := mkKeyLocator {
  kl_type : KeyLocatorType;
  kl_name : Name;
  kl_keyDigest : Block;
  kl_wire : option Block;
}.
Definition KeyLocator_new : KeyLocator := mkKeyLocator KeyLocator_None [] Block_default None.

Definition KeyLocator_empty (k : KeyLocator) : bool := bool_decide (kl_type k = KeyLocator_None).

Definition KeyLocator_encode (k : KeyLocator) : Template := fun E _ =>
  let* content :=
    match kl_type k with
    | KeyLocator_None => Ok prependNothing
    | KeyLocator_Name => Ok (Name_encode (kl_name k))
    | KeyLocator_KeyDigest => Ok (prependBlock (kl_keyDigest k))
    | KeyLocator_Unknown => Err (TlvError "Unsupported KeyLocator type")
    end in
  Ok (prependElement tlv_KeyLocator content).

(** [KeyLocator::wireEncode() const]; storing the result in [m_wire] changes no later
    answer, since every change of the fields resets [m_wire]. *)
Definition KeyLocator_wireEncode (k : KeyLocator) : result Block :=
  match kl_wire k with
  | Some wire => Ok wire
  | None => encodeWire (KeyLocator_encode k)
  end.

Definition KeyLocator_wireDecode (wire : Block) (k : KeyLocator) : result KeyLocator :=
  if negb (block_type wire =? tlv_KeyLocator)
  then Err (TlvError "Unexpected TLV type during KeyLocator decoding")
  else
    let* els := parse wire in
    match els with
    | [] => Ok (mkKeyLocator KeyLocator_None (kl_name k) (kl_keyDigest k) (Some wire))
    | el :: _ =>
      if block_type el =? tlv_Name then
        let* name := Name_wireDecode el in
        Ok (mkKeyLocator KeyLocator_Name name (kl_keyDigest k) (Some wire))
      else if block_type el =? tlv_KeyDigest then
        Ok (mkKeyLocator KeyLocator_KeyDigest (kl_name k) el (Some wire))
      else Ok (mkKeyLocator KeyLocator_Unknown (kl_name k) (kl_keyDigest k) (Some wire))
    end.
Definition KeyLocator_ofBlock (wire : Block) : result KeyLocator :=
  KeyLocator_wireDecode wire KeyLocator_new.

Definition KeyLocator_setName (name : Name) (k : KeyLocator) : KeyLocator :=
  mkKeyLocator KeyLocator_Name name Block_default None.
Definition KeyLocator_setKeyDigest (keyDigest : Block) (k : KeyLocator) : result KeyLocator :=
  if negb (block_type keyDigest =? tlv_KeyDigest) then Err (TlvError "expecting KeyDigest block")
  else Ok (mkKeyLocator KeyLocator_KeyDigest [] keyDigest None).
Definition KeyLocator_getName (k : KeyLocator) : result Name :=
  if negb (bool_decide (kl_type k = KeyLocator_Name)) then Err (TlvError "KeyLocator type is not Name")
  else Ok (kl_name k).

(** [KeyLocator::operator==]: the encodings are equal.  A locator of unknown type was
    decoded and has its wire, so neither side throws. *)
Definition KeyLocator_eqb (l r : KeyLocator) : bool :=
  bool_decide (type_value <$> KeyLocator_wireEncode l = type_value <$> KeyLocator_wireEncode r).

(** ** SignatureInfo *)

(** [m_type] is -1 in an invalid SignatureInfo, and 16 bits wide otherwise. *)
Record SignatureInfo := mkSignatureInfo {
  si_type : Z;
  si_hasKeyLocator : bool;
  si_keyLocator : KeyLocator;
  si_otherTlvs : list Block;
  si_wire : option Block;
}.
Definition SignatureInfo_new : SignatureInfo := mkSignatureInfo (-1) false KeyLocator_new [] None.
Definition SignatureInfo_ofType (type : Z) : SignatureInfo :=
  mkSignatureInfo type false KeyLocator_new [] None.
Definition SignatureInfo_ofTypeLocator (type : Z) (keyLocator : KeyLocator) : SignatureInfo :=
  mkSignatureInfo type true keyLocator [] None.

Definition SignatureInfo_encode (s : SignatureInfo) : Template := fun E _ =>
  if si_type s =? -1 then Err (TlvError "Cannot encode invalid SignatureInfo")
  else
    let* keyLocator :=
      if si_hasKeyLocator s then KeyLocator_encode (si_keyLocator s) E _ else Ok prependNothing in
    Ok (prependElement tlv_SignatureInfo (prependAll [
      prependAll (prependBlock <$> reverse (si_otherTlvs s));
      keyLocator;
      prependNonNegativeIntegerBlock tlv_SignatureType (si_type s)])).

Definition SignatureInfo_wireEncode (s : SignatureInfo) : result Block :=
  match si_wire s with
  | Some wire => Ok wire
  | None => encodeWire (SignatureInfo_encode s)
  end.

Definition SignatureInfo_wireDecode (wire : Block) (s : SignatureInfo) : result SignatureInfo :=
  let* els := parse wire in
  if negb (block_type wire =? tlv_SignatureInfo) then Err (TlvError "Decoding SignatureInfo")
  else
    match els with
    | it :: els =>
      if negb (block_type it =? tlv_SignatureType)
      then Err (TlvError "Missing SignatureType in SignatureInfo")
      else
        let* type := readNonNegativeIntegerAs uint16_max it in
        match els with
        | k :: others =>
          if block_type k =? tlv_KeyLocator then
            let* keyLocator := KeyLocator_wireDecode k (si_keyLocator s) in
            Ok (mkSignatureInfo type true keyLocator others (Some wire))
          else Ok (mkSignatureInfo type false (si_keyLocator s) els (Some wire))
        | [] => Ok (mkSignatureInfo type false (si_keyLocator s) [] (Some wire))
        end
    | [] => Err (TlvError "Missing SignatureType in SignatureInfo")
    end.
Definition SignatureInfo_ofBlock (wire : Block) : result SignatureInfo :=
  SignatureInfo_wireDecode wire SignatureInfo_new.

Definition SignatureInfo_setSignatureType (type : Z) (s : SignatureInfo) : SignatureInfo :=
  mkSignatureInfo type (si_hasKeyLocator s) (si_keyLocator s) (si_otherTlvs s) None.
Definition SignatureInfo_getKeyLocator (s : SignatureInfo) : result KeyLocator :=
  if si_hasKeyLocator s then Ok (si_keyLocator s)
  else Err (TlvError "KeyLocator does not exist in SignatureInfo").
Definition SignatureInfo_setKeyLocator (k : KeyLocator) (s : SignatureInfo) : SignatureInfo :=
  mkSignatureInfo (si_type s) true k (si_otherTlvs s) None.
Definition SignatureInfo_unsetKeyLocator (s : SignatureInfo) : SignatureInfo :=
  mkSignatureInfo (si_type s) false KeyLocator_new (si_otherTlvs s) None.
Definition SignatureInfo_appendTypeSpecificTlv (b : Block) (s : SignatureInfo) : SignatureInfo :=
  mkSignatureInfo (si_type s) (si_hasKeyLocator s) (si_keyLocator s) (si_otherTlvs s ++ [b]) None.

(** ** Signature *)

Record Signature := mkSignature {
  sig_info : SignatureInfo;
  sig_value : Block;
}.
Definition Signature_new : Signature := mkSignature SignatureInfo_new Block_default.

(** [explicit operator bool] *)
Definition Signature_valid (s : Signature) : bool := negb (si_type (sig_info s) =? -1).
Definition Signature_getInfo (s : Signature) : result Block := SignatureInfo_wireEncode (sig_info s).
Definition Signature_setInfo (info : Block) (s : Signature) : result Signature :=
  let* i := SignatureInfo_ofBlock info in Ok (mkSignature i (sig_value s)).
Definition Signature_setValue (value : Block) (s : Signature) : result Signature :=
  if negb (block_type value =? tlv_SignatureValue) then Err (TlvError "Expecting SignatureValue")
  else Ok (mkSignature (sig_info s) value).

(** *** Equality *)

Fixpoint blocks_eqb (l r : list Block) : bool :=
  match l, r with
  | [], [] => true
  | x :: l', y :: r' => Block_eqb x y && blocks_eqb l' r'
  | _, _ => false
  end.

Definition SignatureInfo_eqb (lhs rhs : SignatureInfo) : bool :=
  (si_type lhs =? si_type rhs) &&
  Bool.eqb (si_hasKeyLocator lhs) (si_hasKeyLocator rhs) &&
  KeyLocator_eqb (si_keyLocator lhs) (si_keyLocator rhs) &&
  blocks_eqb (si_otherTlvs lhs) (si_otherTlvs rhs).

Definition Signature_eqb (lhs rhs : Signature) : bool :=
  SignatureInfo_eqb (sig_info lhs) (sig_info rhs) && Block_eqb (sig_value lhs) (sig_value rhs).

(** What [operator==] of signatures compares. *)
Definition sig_key (s : Signature)
  : Z * bool * result (Z * octets) * list (Z * octets) * (Z * octets) :=
  (si_type (sig_info s), si_hasKeyLocator (sig_info s),
   type_value <$> KeyLocator_wireEncode (si_keyLocator (sig_info s)),
   type_value <$> si_otherTlvs (sig_info s), type_value (sig_value s)).

Lemma Block_eqb_type_value b1 b2 : Block_eqb b1 b2 = true <-> type_value b1 = type_value b2.
Proof. rewrite Block_eqb_spec. unfold type_value. split; [by intros [-> ->]|by intros [= -> ->]]. Qed.

Lemma blocks_eqb_spec l r : blocks_eqb l r = true <-> type_value <$> l = type_value <$> r.
Proof.
  revert r. induction l as [|x l IH]; intros [|y r]; csimpl; try done.
  rewrite andb_true_iff, Block_eqb_type_value, IH. split; [by intros [-> ->]|].
  by intros [? ?]%(inj2 cons).
Qed.

(** [operator==] of signatures is the equality of what it compares, hence an
    equivalence. *)
Lemma Signature_eqb_spec s1 s2 : Signature_eqb s1 s2 = true <-> sig_key s1 = sig_key s2.
Proof.
  unfold Signature_eqb, SignatureInfo_eqb, KeyLocator_eqb, sig_key.
  rewrite !andb_true_iff, bool_decide_eq_true, blocks_eqb_spec, Block_eqb_type_value, Z.eqb_eq,
    Bool.eqb_true_iff. by rewrite !pair_equal_spec.
Qed.

Lemma Signature_eqb_refl s : Signature_eqb s s = true.
Proof. by apply Signature_eqb_spec. Qed.
Lemma Signature_eqb_sym s1 s2 : Signature_eqb s1 s2 = Signature_eqb s2 s1.
Proof. apply Bool.eq_true_iff_eq. rewrite !Signature_eqb_spec. naive_solver. Qed.
Lemma Signature_eqb_trans s1 s2 s3 :
  Signature_eqb s1 s2 = true -> Signature_eqb s2 s3 = true -> Signature_eqb s1 s3 = true.
Proof. rewrite !Signature_eqb_spec. congruence. Qed.

(** ** Round trips *)

Definition KeyLocator_elements (k : KeyLocator) : list (Z * octets) :=
  match kl_type k with
  | KeyLocator_Name => [(tlv_Name, tlvs (name_elements (kl_name k)))]
  | KeyLocator_KeyDigest => [(tlv_KeyDigest, block_value (kl_keyDigest k))]
  | _ => []
  end.
Definition KeyLocator_element (k : KeyLocator) : Z * octets :=
  (tlv_KeyLocator, tlvs (KeyLocator_elements k)).

(** A locator the setters make. *)
Definition wf_KeyLocator (k : KeyLocator) : Prop :=
  match kl_type k with
  | KeyLocator_None => True
  | KeyLocator_Name => wf_name (kl_name k)
  | KeyLocator_KeyDigest => canonical (kl_keyDigest k) /\ block_type (kl_keyDigest k) = tlv_KeyDigest
  | KeyLocator_Unknown => False
  end.

Lemma KeyLocator_encode_ok `{EncodingOk E} k :
  wf_KeyLocator k ->
  exists f, KeyLocator_encode k E _ = Ok f /\
    emits f (tlv tlv_KeyLocator (tlvs (KeyLocator_elements k))).
Proof.
  unfold wf_KeyLocator, KeyLocator_encode, KeyLocator_elements.
  destruct (kl_type k) eqn:Et; [| | |done]; cbn [mbind result_bind].
  - intros _. eexists. split; [done|]. apply emits_prependElement. rewrite tlvs_singleton. apply emits_Name.
  - intros [Hc Ht]. eexists. split; [done|]. apply emits_prependElement.
    rewrite tlvs_singleton, <- Ht, <- block_octets_canonical by done. apply emits_prependBlock.
  - intros _. eexists. split; [done|]. apply emits_prependElement, emits_nothing.
Qed.

(** What decoding the encoding of a locator leaves in an object. *)
Definition KeyLocator_decoded (k k0 : KeyLocator) : KeyLocator :=
  mkKeyLocator (kl_type k)
    (if bool_decide (kl_type k = KeyLocator_Name) then kl_name k else kl_name k0)
    (if bool_decide (kl_type k = KeyLocator_KeyDigest)
     then element tlv_KeyDigest (block_value (kl_keyDigest k)) else kl_keyDigest k0)
    (Some (element_of (KeyLocator_element k))).

Lemma KeyLocator_elements_u32 k : Forall (fun el => is_u32 el.1) (KeyLocator_elements k).
Proof. unfold KeyLocator_elements. case_match; repeat constructor; cbn; done. Qed.

Lemma KeyLocator_wireDecode_element k k0 :
  wf_KeyLocator k -> is_u64 (zlen (tlvs (KeyLocator_elements k))) ->
  KeyLocator_wireDecode (element_of (KeyLocator_element k)) k0 = Ok (KeyLocator_decoded k k0).
Proof.
  intros Hw Hl. unfold KeyLocator_wireDecode, KeyLocator_decoded, element_of, KeyLocator_element.
  cbn [fst snd]. rewrite parse_element_tlvs by (done || apply KeyLocator_elements_u32).
  unfold wf_KeyLocator, KeyLocator_elements in *.
  destruct (kl_type k) eqn:Et; cbn [mbind result_bind map block_type element]; [| |done|done].
  - change (negb (tlv_KeyLocator =? tlv_KeyLocator)) with false. change (tlv_Name =? tlv_Name) with true.
    cbv iota. fold (element tlv_Name (tlvs (name_elements (kl_name k)))).
    rewrite Name_wireDecode_element; [done|done|]. eapply tlvs_elem_u64; [|exact Hl]. left.
  - done.
Qed.

(** *** SignatureInfo *)

Definition SignatureInfo_elements (s : SignatureInfo) : list (Z * octets) :=
  (tlv_SignatureType, nonneg_integer (si_type s)) ::
  (if si_hasKeyLocator s then [KeyLocator_element (si_keyLocator s)] else []) ++
  (type_value <$> si_otherTlvs s).
Definition SignatureInfo_element (s : SignatureInfo) : Z * octets :=
  (tlv_SignatureInfo, tlvs (SignatureInfo_elements s)).

(** A valid SignatureInfo; without key locator its first other element is not mistaken for one. *)
Record wf_SignatureInfo (s : SignatureInfo) : Prop := {
  wsi_type : 0 <= si_type s < 2 ^ 16;
  wsi_locator : si_hasKeyLocator s = true -> wf_KeyLocator (si_keyLocator s);
  wsi_others : Forall (fun b => canonical b /\ is_u32 (block_type b)) (si_otherTlvs s);
  wsi_first : si_hasKeyLocator s = false ->
    forall b, head (si_otherTlvs s) = Some b -> block_type b <> tlv_KeyLocator;
}.

(** A list of canonical blocks is prepended as the sequence of their encodings. *)
Lemma emits_blocks `{EncodingOk E} (l : list Block) :
  Forall (fun b => canonical b /\ is_u32 (block_type b)) l ->
  emits (prependAll (prependBlock <$> reverse l)) (tlvs (type_value <$> l)).
Proof.
  intros Hl. replace (tlvs (type_value <$> l)) with (l ≫= block_octets).
  - apply emits_prependAll_reverse. intros b _. apply emits_prependBlock.
  - induction Hl as [|b l [Hb _] _ IH]; [done|].
    change (block_octets b ++ (l ≫= block_octets) =
            tlv (block_type b) (block_value b) ++ tlvs (type_value <$> l)).
    by rewrite IH, block_octets_canonical.
Qed.

Lemma SignatureInfo_encode_ok `{EncodingOk E} s :
  wf_SignatureInfo s ->
  exists f, SignatureInfo_encode s E _ = Ok f /\
    emits f (tlv tlv_SignatureInfo (tlvs (SignatureInfo_elements s))).
Proof.
  intros [Ht Hk Ho _]. unfold SignatureInfo_encode. rewrite (proj2 (Z.eqb_neq _ _)) by lia.
  assert (exists f, (if si_hasKeyLocator s then KeyLocator_encode (si_keyLocator s) E _
                     else Ok prependNothing) = Ok f /\
    emits f (tlvs (if si_hasKeyLocator s then [KeyLocator_element (si_keyLocator s)] else [])))
    as (f & -> & Hf).
  { destruct (si_hasKeyLocator s); [|eexists; split; [done|apply emits_nothing]].
    unfold KeyLocator_element. rewrite tlvs_singleton. apply KeyLocator_encode_ok. auto. }
  cbn [mbind result_bind]. eexists. split; [done|]. apply emits_prependElement.
  unfold SignatureInfo_elements. rewrite tlvs_cons, tlvs_app.
  eapply emits_prependAll_eq.
  - repeat (apply Forall2_cons; split); [by apply emits_blocks|exact Hf| |constructor].
    apply emits_prependNonNegativeIntegerBlock.
  - cbn. by rewrite app_nil_r.
Qed.

Definition SignatureInfo_decoded (s s0 : SignatureInfo) : SignatureInfo :=
  mkSignatureInfo (si_type s) (si_hasKeyLocator s)
    (if si_hasKeyLocator s then KeyLocator_decoded (si_keyLocator s) (si_keyLocator s0)
     else si_keyLocator s0)
    (element_of ∘ type_value <$> si_otherTlvs s) (Some (element_of (SignatureInfo_element s))).

Lemma SignatureInfo_elements_u32 s :
  wf_SignatureInfo s -> Forall (fun el => is_u32 el.1) (SignatureInfo_elements s).
Proof.
  intros [_ _ Ho _]. constructor; [done|]. apply Forall_app. split.
  - case_match; repeat constructor; done.
  - apply Forall_fmap. eapply Forall_impl; [exact Ho|]. by intros b [_ ?].
Qed.

Lemma map_element_type_value l :
  map (fun '(t, v) => element t v) (type_value <$> l) = (element_of ∘ type_value <$> l).
Proof. induction l; csimpl; by f_equal. Qed.

Lemma SignatureInfo_wireDecode_element s s0 :
  wf_SignatureInfo s -> is_u64 (zlen (tlvs (SignatureInfo_elements s))) ->
  SignatureInfo_wireDecode (element_of (SignatureInfo_element s)) s0 = Ok (SignatureInfo_decoded s s0).
Proof.
  intros Hw Hl. unfold SignatureInfo_wireDecode, SignatureInfo_decoded.
  assert (Hp : parse (element_of (SignatureInfo_element s)) =
               Ok (map (fun '(t, v) => element t v) (SignatureInfo_elements s))).
  { apply parse_element_tlvs; [by apply SignatureInfo_elements_u32|done]. }
  assert (Hty : block_type (element_of (SignatureInfo_element s)) = tlv_SignatureInfo) by done.
  rewrite Hp, Hty. clear Hp Hty. generalize (element_of (SignatureInfo_element s)). intros w.
  pose proof (tlvs_elem_u64 (SignatureInfo_elements s) tlv_KeyLocator
    (tlvs (KeyLocator_elements (si_keyLocator s)))) as Hk.
  destruct Hw as [Ht Hkl _ Hf]. unfold SignatureInfo_elements in *.
  cbn [mbind result_bind map block_type element].
  change (negb (tlv_SignatureInfo =? tlv_SignatureInfo)) with false.
  change (negb (tlv_SignatureType =? tlv_SignatureType)) with false. cbv iota.
  rewrite readNonNegativeIntegerAs_element by (unfold is_u64, uint16_max; lia).
  cbn [mbind result_bind].
  destruct (si_hasKeyLocator s) eqn:Eh; cbn [app map KeyLocator_element block_type element];
    rewrite map_element_type_value.
  - change (tlv_KeyLocator =? tlv_KeyLocator) with true. cbv iota.
    change (element tlv_KeyLocator (tlvs (KeyLocator_elements (si_keyLocator s)))) with
      (element_of (KeyLocator_element (si_keyLocator s))).
    rewrite KeyLocator_wireDecode_element; [done|by apply Hkl|].
    eapply Hk; [|exact Hl]. right. left.
  - destruct (si_otherTlvs s) as [|b others]; [done|].
    specialize (Hf eq_refl b eq_refl). csimpl. by rewrite (proj2 (Z.eqb_neq _ _)).
Qed.

(** *** Malformed input *)

Lemma caught_KeyLocator_wireDecode wire k : caught (KeyLocator_wireDecode wire k).
Proof. unfold KeyLocator_wireDecode. caught_solve. Qed.
#[export] Hint Resolve caught_KeyLocator_wireDecode : valdb.
Lemma caught_SignatureInfo_ofBlock wire : caught (SignatureInfo_ofBlock wire).
Proof. unfold SignatureInfo_ofBlock, SignatureInfo_wireDecode. caught_solve. Qed.
#[export] Hint Resolve caught_SignatureInfo_ofBlock : valdb.
Lemma caught_Signature_setInfo info s : caught (Signature_setInfo info s).
Proof. unfold Signature_setInfo. caught_solve. Qed.
Lemma caught_Signature_setValue v s : caught (Signature_setValue v s).
Proof. unfold Signature_setValue. caught_solve. Qed.
#[export] Hint Resolve caught_Signature_setInfo caught_Signature_setValue : valdb.
