(* ===== verification/Exclude.v ===== *)
(** * The Exclude selector (ndn-cxx/exclude.cpp, exclude.hpp)

    [m_entries] is a [std::map] ordered by [std::greater]: a list of entries with
    descending keys.  An iterator into it is the list from the entry it points to.  An
    entry with the ANY flag excludes everything from its key up to the entry in front of
    it.  The theorems relate the operations to the set of excluded components. *)

From stdpp Require Import base list strings.
From Stdlib Require Import Strings.Byte ZArith Lia.
From S2P Require Import Prelude Tlv Encoder Block Codec Ndn NameTlv.

Local Open Scope Z_scope.

(** [ExcludeComponent]: negative infinity or a component. *)
Inductive ExcludeComponent :=
  | EC_NegInf
  | EC (component : Component).

#[export] Instance ExcludeComponent_eq_dec : EqDecision ExcludeComponent.
Proof. solve_decision. Defined.

(** [operator>(const ExcludeComponent&, const ExcludeComponent&)]; two negative
    infinities have equal components. *)
Definition ec_gtb (a b : ExcludeComponent) : bool :=
  match a, b with
  | EC_NegInf, _ => false
  | EC _, EC_NegInf => true
  | EC a, EC b => component_ltb b a
  end.

Abbreviation Entry := (ExcludeComponent * bool)%type.

Record Exclude := mkExclude {
  ex_entries : list Entry;
  ex_wire : option Block;
}.
Definition Exclude_new : Exclude := mkExclude [] None.
Definition Exclude_empty (x : Exclude) : bool :=
  match ex_entries x with [] => true | _ => false end.

(** ** The map *)

(** The entries in front of [lower_bound(k)], and [lower_bound(k)]: the first entry
    whose key is not greater than [k]. *)
Fixpoint above (k : ExcludeComponent) (l : list Entry) : list Entry :=
  match l with
  | e :: l' => if ec_gtb e.1 k then e :: above k l' else []
  | [] => []
  end.
Fixpoint lower_bound (k : ExcludeComponent) (l : list Entry) : list Entry :=
  match l with
  | e :: l' => if ec_gtb e.1 k then lower_bound k l' else l
  | [] => []
  end.

(** [emplace], [emplace_hint]: nothing changes when the key is there. *)
Definition emplace (k : ExcludeComponent) (v : bool) (l : list Entry) : list Entry :=
  above k l ++
  match lower_bound k l with
  | (k', v') :: lb => if decide (k' = k) then (k', v') :: lb else (k, v) :: (k', v') :: lb
  | [] => [(k, v)]
  end.

(** ** Operations *)

Definition entries_excluded (l : list Entry) (comp : Component) : bool :=
  match lower_bound (EC comp) l with
  | [] => false
  | (k, any) :: _ =>
    any || match k with EC_NegInf => false | EC c => Component_equals c comp end
  end.
Definition isExcluded (x : Exclude) (comp : Component) : bool :=
  entries_excluded (ex_entries x) comp.

Definition excludeOne (comp : Component) (x : Exclude) : Exclude :=
  if negb (isExcluded x comp) then mkExclude (emplace (EC comp) false (ex_entries x)) None else x.

(** The start of [excludeRange] and [excludeAfter]: the iterator [newFrom] to the entry
    at which the range starts, made or flagged if it was not there. *)
Definition newFrom_of (from : ExcludeComponent) (l : list Entry) : list Entry :=
  match lower_bound from l with
  | (k, any) :: rest =>
    if any then (k, any) :: rest
    else if decide (k = from) then (k, true) :: rest
    else (from, true) :: (k, any) :: rest
  | [] => [(from, true)]
  end.

Definition range_invalid (from : ExcludeComponent) (to : Component) : bool :=
  match from with
  | EC_NegInf => false
  | EC c => negb (component_ltb c to)
  end.

(** [excludeRange(const ExcludeComponent&, const Component&)] *)
Definition excludeRange_impl (from : ExcludeComponent) (to : Component) (x : Exclude)
  : result Exclude :=
  if range_invalid from to then Err (TlvError "Invalid exclude range")
  else
    let newFrom := newFrom_of from (ex_entries x) in
    let entries := above from (ex_entries x) ++ newFrom in
    let newTo := lower_bound (EC to) entries in
    match newTo with
    | [] => Err (AssertFailed "newTo != m_entries.end()")
    | (k, any) :: _ =>
      let entries :=
        if bool_decide (length newTo = length newFrom) || negb any
        then (* emplace_hint(newTo, to, false), ++newTo, erase(newTo, newFrom) *)
          above (EC to) entries ++ (if decide (k = EC to) then (k, any) else (EC to, false)) :: newFrom
        else (* erase(newTo, newFrom) *)
          above (EC to) entries ++ newFrom in
      Ok (mkExclude entries None)
    end.

Definition excludeBefore (to : Component) : Exclude -> result Exclude :=
  excludeRange_impl EC_NegInf to.
Definition excludeRange (from to : Component) : Exclude -> result Exclude :=
  excludeRange_impl (EC from) to.

Definition excludeAfter (from : Component) (x : Exclude) : Exclude :=
  mkExclude (newFrom_of (EC from) (ex_entries x)) None.

(** ** Encoding *)

(** The loop over [m_entries]: the greatest entry is prepended first. *)
Definition Exclude_encode (x : Exclude) : Template := fun E _ =>
  if Exclude_empty x then Err (TlvError "cannot encode empty Exclude selector")
  else Ok (prependElement tlv_Exclude (prependAll ((fun entry =>
    prependAll [
      prependIf entry.2 (prependEmptyBlock tlv_Any);
      match entry.1 with EC_NegInf => prependNothing | EC c => Component_encode c end])
    <$> ex_entries x))).

Definition Exclude_wireEncode (x : Exclude) : result Block :=
  match ex_wire x with
  | Some wire => Ok wire
  | None => encodeWire (Exclude_encode x)
  end.

(** The [while] loop of [wireDecode] over the elements left. *)
Fixpoint exclude_decode_loop (els : list Block) (entries : list Entry) : result (list Entry) :=
  match els with
  | [] => Ok entries
  | i :: els =>
    let* component :=
      match Component_ofBlock i with
      | Ok c => Ok c
      | Err _ => Err (TlvError "Incorrect format of Exclude filter")
      end in
    if negb (isGeneric component) && negb (isImplicitSha256Digest component)
    then Err (TlvError "Excluded component must be generic or ImplicitSha256Digest")
    else
      match els with
      | a :: els' =>
        if block_type a =? tlv_Any
        then exclude_decode_loop els' (emplace (EC component) true entries)
        else exclude_decode_loop els (emplace (EC component) false entries)
      | [] => exclude_decode_loop els (emplace (EC component) false entries)
      end
  end.

Definition Exclude_wireDecode (wire : Block) : result Exclude :=
  if negb (block_type wire =? tlv_Exclude)
  then Err (TlvError "Unexpected TLV type when decoding Exclude")
  else
    let* els := parse wire in
    match els with
    | [] => Err (TlvError "Exclude element cannot be empty")
    | i :: els' =>
      let* entries :=
        if block_type i =? tlv_Any
        then exclude_decode_loop els' (emplace EC_NegInf true [])
        else exclude_decode_loop els [] in
      Ok (mkExclude entries (Some wire))
    end.

(** ** Enumeration *)

Record Range := mkRange {
  r_fromInfinity : bool;
  r_from : Component;
  r_toInfinity : bool;
  r_to : Component;
}.
Definition component_default : Component := mkComponent GenericNameComponent [].

(** [const_iterator::update] at the entry [(k, any)], with the entry after it in
    ascending order.  The fields of an infinite bound keep older values, which nobody
    reads; here they are the default component. *)
Definition iterator_update (k : ExcludeComponent) (any : bool) (next : option Entry) : result Range :=
  if any then
    let '(fi, f) := match k with EC_NegInf => (true, component_default) | EC c => (false, c) end in
    let '(ti, t) :=
      match next with
      | None => (true, component_default)
      | Some (EC c, _) => (false, c)
      | Some (EC_NegInf, _) => (false, component_default)
      end in
    Ok (mkRange fi f ti t)
  else
    match k with
    | EC_NegInf => Err (AssertFailed "!m_it->first.isNegInf")
    | EC c => Ok (mkRange false c false c)
    end.

(** [begin()] to [end()]: the entries in ascending order; the upper end of a range is
    skipped by [operator++]. *)
Fixpoint ranges_loop (l : list Entry) : result (list Range) :=
  match l with
  | [] => Ok []
  | (k, any) :: l' =>
    let* r := iterator_update k any (head l') in
    let* rs :=
      if any then
        match l' with
        | [] => Ok []
        | (_, any') :: l'' =>
          if any' then Err (AssertFailed "m_it->second == false") else ranges_loop l''
        end
      else ranges_loop l' in
    Ok (r :: rs)
  end.
Definition ranges (x : Exclude) : result (list Range) := ranges_loop (reverse (ex_entries x)).

(** ** The order of keys *)

Lemma ec_gtb_irrefl a : ec_gtb a a = false.
Proof. destruct a; [done|]. apply component_ltb_irrefl. Qed.
Lemma ec_gtb_trans a b c : ec_gtb a b = true -> ec_gtb b c = true -> ec_gtb a c = true.
Proof.
  destruct a, b, c; cbn; try done. intros H1 H2. by eapply component_ltb_trans.
Qed.
Lemma ec_gtb_total a b : ec_gtb a b = false -> ec_gtb b a = false -> a = b.
Proof. destruct a, b; cbn; try done. intros H1 H2. f_equal. by apply component_ltb_total. Qed.
Lemma ec_gtb_asym a b : ec_gtb a b = true -> ec_gtb b a = false.
Proof.
  intros H1. destruct (ec_gtb b a) eqn:H2; [|done].
  pose proof (ec_gtb_trans _ _ _ H1 H2) as H. by rewrite ec_gtb_irrefl in H.
Qed.
(** From [a > b >= c]. *)
Lemma ec_gtb_ge_trans a b c : ec_gtb a b = true -> ec_gtb c b = false -> ec_gtb a c = true.
Proof.
  intros H1 H2. destruct (ec_gtb a c) eqn:H3; [done|].
  destruct (ec_gtb c a) eqn:H4.
  - by rewrite (ec_gtb_trans _ _ _ H4 H1) in H2.
  - by rewrite (ec_gtb_total _ _ H3 H4), H2 in H1.
Qed.
(** From [a >= b > c]. *)
Lemma ec_ge_gtb_trans a b c : ec_gtb b a = false -> ec_gtb b c = true -> ec_gtb a c = true.
Proof.
  intros H1 H2. destruct (ec_gtb a c) eqn:H3; [done|].
  destruct (ec_gtb c a) eqn:H4.
  - by rewrite (ec_gtb_trans _ _ _ H2 H4) in H1.
  - by rewrite (ec_gtb_total _ _ H3 H4), H2 in H1.
Qed.

(** Keys strictly descend. *)
Fixpoint descending (l : list Entry) : Prop :=
  match l with
  | [] => True
  | e :: l' => Forall (fun e' => ec_gtb e.1 e'.1 = true) l' /\ descending l'
  end.

Lemma descending_app l1 l2 :
  descending (l1 ++ l2) <->
  descending l1 /\ descending l2 /\
  Forall (fun e => Forall (fun e' => ec_gtb e.1 e'.1 = true) l2) l1.
Proof.
  induction l1 as [|e l1 IH]; cbn.
  - split; [intros H; repeat split; [done|constructor]|by intros (_ & H & _)].
  - rewrite IH, Forall_app, Forall_cons. tauto.
Qed.

Lemma above_lower_bound k l : above k l ++ lower_bound k l = l.
Proof. induction l as [|e l IH]; cbn; [done|]. case_match; [|done]. cbn. by rewrite IH. Qed.

Lemma above_gt k l : Forall (fun e => ec_gtb e.1 k = true) (above k l).
Proof. induction l as [|e l IH]; cbn; [constructor|]. case_match; by constructor. Qed.

Lemma lower_bound_head k l e l' : lower_bound k l = e :: l' -> ec_gtb e.1 k = false.
Proof.
  induction l as [|e0 l IH]; cbn; [done|]. case_match; [done|]. by intros [= -> ->].
Qed.

Lemma lower_bound_le k l :
  descending l -> Forall (fun e => ec_gtb e.1 k = false) (lower_bound k l).
Proof.
  intros Hd. rewrite <- (above_lower_bound k l) in Hd. apply descending_app in Hd as (_ & Hd & _).
  destruct (lower_bound k l) as [|e lb] eqn:E; [constructor|].
  pose proof (lower_bound_head _ _ _ _ E) as He. constructor; [done|].
  destruct Hd as [Hd _]. eapply Forall_impl; [exact Hd|]. intros e' H.
  destruct (ec_gtb e'.1 k) eqn:H'; [|done]. by rewrite (ec_gtb_trans _ _ _ H H') in He.
Qed.

(** Entries all above a key are skipped. *)
Lemma lower_bound_app k h t :
  Forall (fun e => ec_gtb e.1 k = true) h -> lower_bound k (h ++ t) = lower_bound k t.
Proof. induction 1 as [|e h He _ IH]; cbn; [done|]. by rewrite He. Qed.
Lemma above_app k h t :
  Forall (fun e => ec_gtb e.1 k = true) h -> above k (h ++ t) = h ++ above k t.
Proof. induction 1 as [|e h He _ IH]; cbn; [done|]. by rewrite He, IH. Qed.

(** A list with an entry that is not above the key answers for whatever follows it. *)
Lemma entries_excluded_app h t c :
  entries_excluded (h ++ t) c =
  if forallb (fun e => ec_gtb e.1 (EC c)) h then entries_excluded t c else entries_excluded h c.
Proof.
  induction h as [|e h IH]; [done|]. unfold entries_excluded in *. cbn [app lower_bound forallb].
  destruct (ec_gtb e.1 (EC c)) eqn:E; cbn [andb]; [exact IH|done].
Qed.

Lemma entries_excluded_skip h t c :
  Forall (fun e => ec_gtb e.1 (EC c) = true) h -> entries_excluded (h ++ t) c = entries_excluded t c.
Proof. intros H. unfold entries_excluded. by rewrite lower_bound_app. Qed.

Lemma entries_excluded_here k any t c :
  ec_gtb k (EC c) = false ->
  entries_excluded ((k, any) :: t) c = any || bool_decide (k = EC c).
Proof.
  intros H. unfold entries_excluded. cbn [lower_bound fst]. rewrite H. f_equal.
  destruct k as [|k]; [by rewrite bool_decide_false|].
  apply Bool.eq_true_iff_eq. rewrite Component_equals_spec, bool_decide_eq_true. naive_solver.
Qed.

Lemma entries_excluded_above k any t c :
  ec_gtb k (EC c) = true -> entries_excluded ((k, any) :: t) c = entries_excluded t c.
Proof. intros H. unfold entries_excluded. cbn [lower_bound fst]. by rewrite H. Qed.

(** An ANY entry excludes everything from its key on, up to the entry in front of it. *)
Lemma entries_excluded_any k t c :
  ec_gtb k (EC c) = false -> entries_excluded ((k, true) :: t) c = true.
Proof. intros H. by rewrite entries_excluded_here. Qed.

(** ** Adding entries *)

Lemma emplace_descending k v l : descending l -> descending (emplace k v l).
Proof.
  intros Hd. unfold emplace. pose proof (lower_bound_le k l Hd) as Hle.
  pose proof (above_gt k l) as Hgt. rewrite <- (above_lower_bound k l) in Hd.
  apply descending_app in Hd as (H1 & H2 & H3).
  destruct (lower_bound k l) as [|[k' v'] lb].
  - apply descending_app. split; [done|]. split; [by repeat constructor|].
    eapply Forall_impl; [exact Hgt|]. by repeat constructor.
  - case_decide as Hk; [by apply descending_app|]. apply descending_app. split; [done|].
    assert (Hkk : ec_gtb k k' = true).
    { apply Forall_cons in Hle as [Hle _]. destruct (ec_gtb k k') eqn:E; [done|].
      by destruct Hk; apply ec_gtb_total. }
    split; [split; [|done]|].
    + constructor; [done|]. eapply Forall_impl; [exact (proj1 H2)|]. intros e He.
      by eapply ec_gtb_trans.
    + rewrite Forall_forall in Hgt, H3 |- *. intros e He. constructor; [by apply Hgt|by apply H3].
Qed.

(** Adding a component that is not excluded excludes it and nothing else. *)
Lemma emplace_one_excluded comp l c :
  descending l -> entries_excluded l comp = false ->
  entries_excluded (emplace (EC comp) false l) c =
  entries_excluded l c || bool_decide (c = comp).
Proof.
  intros Hd He. rewrite <- (above_lower_bound (EC comp) l) in He |- * at 2.
  unfold emplace. pose proof (above_gt (EC comp) l) as Hgt. pose proof (lower_bound_le (EC comp) l Hd) as Hle.
  rewrite entries_excluded_skip in He by done.
  set (h := above _ l) in *. set (lb := lower_bound _ l) in *. clearbody h lb.
  assert (E : match lb with
    | (k', v') :: lb => if decide (k' = EC comp) then (k', v') :: lb else (EC comp, false) :: (k', v') :: lb
    | [] => [(EC comp, false)] end = (EC comp, false) :: lb).
  { destruct lb as [|[k' v'] lb]; [done|]. apply Forall_cons in Hle as [Hle _].
    rewrite entries_excluded_here in He by done. case_decide as Hk; [|done].
    by rewrite bool_decide_true, orb_true_r in He. }
  rewrite E, !entries_excluded_app. clear E.
  destruct (forallb _ h) eqn:Eh.
  - destruct (ec_gtb (EC comp) (EC c)) eqn:Ec.
    + rewrite entries_excluded_above by done.
      rewrite bool_decide_false, orb_false_r; [done|]. intros ->. by rewrite ec_gtb_irrefl in Ec.
    + rewrite entries_excluded_here by done. cbn [orb].
      assert (entries_excluded lb c = false) as ->.
      { destruct lb as [|[k v] lb]; [done|]. apply Forall_cons in Hle as [Hle _]. cbn [fst] in Hle.
        rewrite entries_excluded_here in He by done. apply orb_false_iff in He as [-> He].
        apply bool_decide_eq_false in He.
        assert (Hkc : ec_gtb (EC comp) k = true).
        { destruct (ec_gtb (EC comp) k) eqn:E; [done|]. by destruct He; apply ec_gtb_total. }
        pose proof (ec_ge_gtb_trans (EC c) _ _ Ec Hkc) as Hck.
        rewrite entries_excluded_here by (by apply ec_gtb_asym). cbn [orb].
        apply bool_decide_eq_false. intros ->. by rewrite ec_gtb_irrefl in Hck. }
      cbn [orb]. apply bool_decide_ext. naive_solver.
  - rewrite (bool_decide_false (c = comp)), orb_false_r; [done|]. intros ->.
    apply not_true_iff_false in Eh. apply Eh, forallb_forall. intros e He'.
    rewrite Forall_forall in Hgt. by apply Hgt, list_elem_of_In.
Qed.

(** ** Ranges *)

(** The entry at which the new range starts is flagged, and not above its bound. *)
Lemma newFrom_head from l :
  exists k rest, newFrom_of from l = (k, true) :: rest /\ ec_gtb k from = false /\
    (k = from \/ exists t, lower_bound from l = (k, true) :: t).
Proof.
  unfold newFrom_of. destruct (lower_bound from l) as [|[k any] rest] eqn:E.
  - exists from, []. split; [done|]. split; [apply ec_gtb_irrefl|by left].
  - pose proof (lower_bound_head _ _ _ _ E) as Hk. cbn in Hk. destruct any; [naive_solver|].
    case_decide as Hd; [subst; naive_solver|].
    exists from, ((k, false) :: rest). split; [done|]. split; [apply ec_gtb_irrefl|by left].
Qed.

Lemma newFrom_descending from l : descending l -> descending (above from l ++ newFrom_of from l).
Proof.
  intros Hd. pose proof (emplace_descending from true l Hd) as He. unfold emplace, newFrom_of in *.
  rewrite <- (above_lower_bound from l) in Hd.
  destruct (lower_bound from l) as [|[k any] rest] eqn:E; [done|]. destruct any; [done|].
  case_decide; [|done]. subst k. apply descending_app in Hd as (H1 & [H2 H2'] & H3).
  apply descending_app. split; [done|]. split; [done|].
  eapply Forall_impl; [exact H3|]. intros e [He1 He2]%Forall_cons. by constructor.
Qed.

(** Below the bound nothing changes. *)
Lemma newFrom_below from l c :
  ec_gtb from (EC c) = true ->
  entries_excluded (newFrom_of from l) c = entries_excluded (lower_bound from l) c.
Proof.
  intros Hc. unfold newFrom_of. destruct (lower_bound from l) as [|[k any] rest] eqn:E.
  - by rewrite entries_excluded_above.
  - destruct any; [done|]. case_decide as Hk.
    + subst. by rewrite !entries_excluded_above.
    + by rewrite entries_excluded_above.
Qed.

Lemma bounds_split k h e t :
  ec_gtb e.1 k = false ->
  lower_bound k (h ++ e :: t) = lower_bound k h ++ e :: t /\ above k (h ++ e :: t) = above k h.
Proof.
  intros He. induction h as [|e0 h [IH1 IH2]]; cbn; [by rewrite He|].
  rewrite IH1, IH2. by destruct (ec_gtb e0.1 k).
Qed.

(** The range lies inside an existing range: no entry between the start of that range
    and [to]. *)
Definition inside_range (from : ExcludeComponent) (to : Component) (l : list Entry) : bool :=
  match lower_bound from l, lower_bound (EC to) (above from l) with
  | (_, true) :: _, [] => true
  | _, _ => false
  end.

(** What [excludeRange] leaves, in terms of the entries above [to], those between the
    bounds and the start of the range. *)
Lemma excludeRange_eq from to x :
  range_invalid from to = false ->
  let l := ex_entries x in
  let h1 := above (EC to) (above from l) in
  excludeRange_impl from to x =
  Ok (mkExclude (h1 ++ match lower_bound (EC to) (above from l) with
                       | [] => (EC to, false) :: newFrom_of from l
                       | (k, any) :: _ =>
                         if any then newFrom_of from l
                         else (EC to, false) :: newFrom_of from l
                       end) None).
Proof.
  intros Hv l h1. unfold excludeRange_impl. rewrite Hv. cbv zeta.
  destruct (newFrom_head from l) as (k & rest & Hn & Hk & _).
  assert (Hkt : ec_gtb k (EC to) = false).
  { apply ec_gtb_asym, (ec_gtb_ge_trans _ from); [|done]. clear -Hv. destruct from; [done|]. cbn in *.
    by destruct (component_ltb _ _). }
  fold l. rewrite Hn. destruct (bounds_split (EC to) (above from l) (k, true) rest Hkt) as [-> ->].
  fold h1. destruct (lower_bound (EC to) (above from l)) as [|[k2 any2] h2] eqn:E; cbn [app].
  - rewrite bool_decide_true by done. cbn [orb]. rewrite decide_False; [done|].
    intros ->. cbn in Hkt. destruct from as [|f]; cbn in Hk, Hv; [done|].
    by rewrite Hk in Hv.
  - rewrite bool_decide_false by (cbn; rewrite length_app; cbn; lia). cbn [orb].
    destruct any2; cbn [negb]; [done|]. case_decide; [by subst|done].
Qed.

Definition in_range (from : ExcludeComponent) (to c : Component) : bool :=
  negb (ec_gtb from (EC c)) && negb (component_ltb to c).

Lemma range_valid_lt from to : range_invalid from to = false -> ec_gtb (EC to) from = true.
Proof. destruct from; [done|]. cbn. by destruct (component_ltb _ _). Qed.

Section range_semantics.
Variables (from : ExcludeComponent) (to : Component) (l : list Entry).
Hypothesis (Hv : range_invalid from to = false) (Hd : descending l).

Let h1 := above (EC to) (above from l).
Let h2 := lower_bound (EC to) (above from l).
Let lb := lower_bound from l.
Let nf := newFrom_of from l.

Lemma range_parts : l = h1 ++ h2 ++ lb.
Proof. unfold h1, h2, lb. by rewrite app_assoc, !above_lower_bound. Qed.

Lemma range_h1_gt c : component_ltb to c = false -> Forall (fun e => ec_gtb e.1 (EC c) = true) h1.
Proof.
  intros Hc. eapply Forall_impl; [apply above_gt|]. intros e He.
  by apply (ec_gtb_ge_trans _ (EC to)).
Qed.

(** The new range is excluded. *)
Lemma newFrom_range c : ec_gtb from (EC c) = false -> entries_excluded nf c = true.
Proof.
  intros Hc. destruct (newFrom_head from l) as (k & rest & Hn & Hk & _). unfold nf. rewrite Hn.
  apply entries_excluded_any. destruct (ec_gtb k (EC c)) eqn:E; [|done].
  by rewrite (ec_gtb_ge_trans _ _ _ E Hc) in Hk.
Qed.

(** Below the range nothing changes. *)
Lemma range_below c tail :
  ec_gtb from (EC c) = true -> (tail = nf \/ tail = (EC to, false) :: nf) ->
  entries_excluded (h1 ++ tail) c = entries_excluded l c.
Proof.
  intros Hc Ht. pose proof (range_valid_lt _ _ Hv) as Hto.
  assert (Htc : ec_gtb (EC to) (EC c) = true) by (by eapply ec_gtb_trans).
  assert (Ha : Forall (fun e => ec_gtb e.1 (EC c) = true) (above from l)).
  { eapply Forall_impl; [apply above_gt|]. intros e He. by apply (ec_gtb_trans _ from). }
  transitivity (entries_excluded (above from l ++ lower_bound from l) c);
    [|by rewrite above_lower_bound].
  rewrite (entries_excluded_skip (above from l)) by done. rewrite <- newFrom_below by done.
  rewrite <- (above_lower_bound (EC to) (above from l)) in Ha. apply Forall_app in Ha as [Ha _].
  rewrite entries_excluded_skip by exact Ha.
  destruct Ht as [->| ->]; [done|]. by rewrite entries_excluded_above.
Qed.

(** Inside the range everything is excluded. *)
Lemma range_inside c tail :
  ec_gtb from (EC c) = false -> component_ltb to c = false ->
  (tail = nf \/ tail = (EC to, false) :: nf) -> entries_excluded (h1 ++ tail) c = true.
Proof.
  intros Hc Hto Ht. rewrite entries_excluded_skip by (by apply range_h1_gt).
  destruct Ht as [->| ->]; [by apply newFrom_range|].
  destruct (ec_gtb (EC to) (EC c)) eqn:E.
  - rewrite entries_excluded_above by done. by apply newFrom_range.
  - rewrite entries_excluded_here by done. apply bool_decide_eq_true. by apply ec_gtb_total.
Qed.

(** Above the range the first entry that is not above [c] decides. *)
Lemma range_above_nf c : component_ltb to c = true -> entries_excluded ((EC to, false) :: nf) c = false.
Proof.
  intros Hc. rewrite entries_excluded_here by (by apply (ec_gtb_asym (EC c))). cbn [orb].
  apply bool_decide_eq_false. intros [= ->]. by rewrite component_ltb_irrefl in Hc.
Qed.

(** An entry that is not above [to] excludes something above [to] only by its flag. *)
Lemma range_above_old k any t c :
  component_ltb to c = true -> ec_gtb k (EC to) = false -> entries_excluded ((k, any) :: t) c = any.
Proof.
  intros Hc Hk. pose proof (ec_gtb_ge_trans (EC c) (EC to) k Hc Hk) as Hck.
  rewrite entries_excluded_here by (by apply ec_gtb_asym).
  rewrite bool_decide_false, orb_false_r; [done|]. intros ->. by rewrite ec_gtb_irrefl in Hck.
Qed.

Lemma range_h2_le k any t : h2 = (k, any) :: t -> ec_gtb k (EC to) = false.
Proof. apply lower_bound_head. Qed.
Lemma range_lb_le k any t : lb = (k, any) :: t -> ec_gtb k (EC to) = false.
Proof.
  intros E. apply lower_bound_head in E. cbn in E. pose proof (range_valid_lt _ _ Hv) as H.
  apply ec_gtb_asym. by apply (ec_gtb_ge_trans _ from).
Qed.

Lemma range_union c :
  inside_range from to l = false ->
  entries_excluded
    (h1 ++ match h2 with
           | [] => (EC to, false) :: nf
           | (k, any) :: _ => if any then nf else (EC to, false) :: nf
           end) c = entries_excluded l c || in_range from to c.
Proof.
  intros Hi. unfold in_range.
  set (tail := match h2 with [] => _ | _ => _ end).
  assert (Ht : tail = nf \/ tail = (EC to, false) :: nf)
    by (unfold tail; destruct h2 as [|[? []] ?]; auto).
  destruct (ec_gtb from (EC c)) eqn:Ef; cbn [negb andb].
  { rewrite orb_false_r. by apply range_below. }
  destruct (component_ltb to c) eqn:Et; cbn [negb].
  2: { rewrite orb_true_r. by apply range_inside. }
  rewrite orb_false_r, range_parts at 1. rewrite !entries_excluded_app.
  case_match eqn:E1; [|done]. unfold tail. unfold inside_range in Hi. fold lb h2 in Hi.
  destruct h2 as [|[k2 any2] t2] eqn:E2.
  - rewrite range_above_nf by done. cbn [forallb]. destruct lb as [|[k any] t] eqn:E3; [done|].
    destruct any; [done|]. symmetry. apply range_above_old; [done|by eapply range_lb_le].
  - pose proof (range_h2_le _ _ _ E2) as Hk2. cbn [forallb fst].
    assert (ec_gtb k2 (EC c) = false) as ->.
    { apply ec_gtb_asym. by apply (ec_gtb_ge_trans _ (EC to)). }
    cbn [andb]. rewrite (range_above_old k2 any2 t2 c Et Hk2).
    destruct any2; [by apply newFrom_range|by apply range_above_nf].
Qed.

(** The defect: a range inside an existing one cuts that one off at [to]. *)
Lemma range_cut c :
  inside_range from to l = true ->
  entries_excluded (h1 ++ (EC to, false) :: nf) c =
  entries_excluded l c &&
  (negb (component_ltb to c) || existsb (fun e => negb (ec_gtb e.1 (EC c))) h1).
Proof.
  intros Hi. unfold inside_range in Hi. fold lb h2 in Hi.
  destruct lb as [|[k any] t] eqn:E3; [done|]. destruct any; [|done]. destruct h2 eqn:E2; [|done].
  rewrite range_parts at 1. fold h2. rewrite E2, E3. cbn [app].
  assert (Hx : existsb (fun e => negb (ec_gtb e.1 (EC c))) h1 =
               negb (forallb (fun e => ec_gtb e.1 (EC c)) h1)).
  { clear. induction h1 as [|e l' IH]; cbn; [done|]. rewrite IH. by destruct (ec_gtb _ _). }
  destruct (component_ltb to c) eqn:Et; cbn [negb orb].
  - rewrite Hx, !entries_excluded_app. destruct (forallb _ _); [|by rewrite andb_true_r].
    by rewrite range_above_nf, andb_false_r.
  - rewrite andb_true_r. rewrite !entries_excluded_skip by (by apply range_h1_gt).
    destruct (ec_gtb from (EC c)) eqn:Ef.
    + rewrite <- E3. unfold lb. rewrite <- newFrom_below by done.
      apply entries_excluded_above. apply (ec_gtb_trans _ from); [|done]. by apply range_valid_lt.
    + rewrite entries_excluded_any.
      * pose proof (range_inside c ((EC to, false) :: nf) Ef Et (or_intror eq_refl)) as H.
        by rewrite entries_excluded_skip in H by (by apply range_h1_gt).
      * apply lower_bound_head in E3. cbn in E3. destruct (ec_gtb k (EC c)) eqn:E; [|done].
        by rewrite (ec_gtb_ge_trans _ _ _ E Ef) in E3.
Qed.
End range_semantics.

(** ** The invariant *)

(** Keys descend, and negative infinity is always the start of a range. *)
Record wf_entries (l : list Entry) : Prop := {
  we_descending : descending l;
  we_neginf : Forall (fun e => e.1 = EC_NegInf -> e.2 = true) l;
}.

Lemma wf_entries_suffix l1 l2 : wf_entries (l1 ++ l2) -> wf_entries l2.
Proof. intros [Hd Hn]. apply descending_app in Hd as (_ & ? & _). apply Forall_app in Hn as [_ ?]. done. Qed.

Lemma emplace_wf k v l : wf_entries l -> (k = EC_NegInf -> v = true) -> wf_entries (emplace k v l).
Proof.
  intros [Hd Hn] Hv. split; [by apply emplace_descending|]. unfold emplace.
  rewrite <- (above_lower_bound k l) in Hn. apply Forall_app in Hn as [H1 H2].
  apply Forall_app. split; [done|]. destruct (lower_bound k l) as [|[k' v'] lb]; [by repeat constructor|].
  case_decide; [done|]. by constructor.
Qed.

Lemma newFrom_wf from l : wf_entries l -> wf_entries (above from l ++ newFrom_of from l).
Proof.
  intros [Hd Hn]. split; [by apply newFrom_descending|].
  rewrite <- (above_lower_bound from l) in Hn. apply Forall_app in Hn as [H1 H2].
  apply Forall_app. split; [done|]. unfold newFrom_of. destruct (lower_bound from l) as [|[k any] rest].
  { by repeat constructor. }
  destruct any; [done|]. apply Forall_cons in H2 as [H2 H2']. case_decide; by repeat constructor.
Qed.

Lemma range_wf from to l tail :
  wf_entries l -> range_invalid from to = false ->
  (tail = newFrom_of from l \/ tail = (EC to, false) :: newFrom_of from l) ->
  wf_entries (above (EC to) (above from l) ++ tail).
Proof.
  intros Hw Hv Ht. pose proof (newFrom_wf from l Hw) as [Hd Hn].
  rewrite <- (above_lower_bound (EC to) (above from l)), <- app_assoc in Hd, Hn.
  apply descending_app in Hd as (D1 & D2 & D3). apply descending_app in D2 as (_ & D2 & _).
  apply Forall_app in Hn as [N1 N2]. apply Forall_app in N2 as [_ N2].
  assert (D4 : Forall (fun e => Forall (fun e' => ec_gtb e.1 e'.1 = true) (newFrom_of from l))
                 (above (EC to) (above from l))).
  { eapply Forall_impl; [exact D3|]. by intros e [_ He]%Forall_app. }
  pose proof (above_gt (EC to) (above from l)) as Hgt.
  destruct Ht as [->| ->].
  - split; [by apply descending_app|by apply Forall_app].
  - split; [|apply Forall_app; split; [done|]; by constructor].
    apply descending_app. split; [done|]. split.
    + split; [|done]. destruct (newFrom_head from l) as (k & rest & E & Hk & _). rewrite E in *.
      assert (Hto : ec_gtb (EC to) k = true).
      { apply (ec_gtb_ge_trans _ from); [by apply range_valid_lt|done]. }
      constructor; [done|]. destruct D2 as [D2 _]. eapply Forall_impl; [exact D2|].
      intros e He. by apply (ec_gtb_trans _ k).
    + rewrite Forall_forall in Hgt, D4 |- *. intros e He. constructor; [by apply Hgt|by apply D4].
Qed.

(** [Exclude] objects that the operations make. *)
Inductive exclude_made : Exclude -> Prop :=
  | made_new : exclude_made Exclude_new
  | made_one c x : exclude_made x -> exclude_made (excludeOne c x)
  | made_range from to x x' :
      exclude_made x -> excludeRange_impl from to x = Ok x' -> exclude_made x'
  | made_after c x : exclude_made x -> exclude_made (excludeAfter c x).

Lemma exclude_made_wf x : exclude_made x -> wf_entries (ex_entries x).
Proof.
  induction 1 as [|c x _ IH|from to x x' _ IH He|c x _ IH].
  - split; constructor.
  - unfold excludeOne. case_match; [|done]. cbn. by apply emplace_wf.
  - destruct (range_invalid from to) eqn:Hv; [by unfold excludeRange_impl in He; rewrite Hv in He|].
    rewrite excludeRange_eq in He by done. injection He as <-. cbn [ex_entries].
    apply range_wf; [done|done|]. repeat case_match; auto.
  - cbn. by eapply wf_entries_suffix, newFrom_wf.
Qed.

(** ** Enumeration *)

(** No range reaches up to the start of another. *)
Fixpoint combined (l : list Entry) : Prop :=
  match l with
  | e :: l' =>
    match l' with e' :: _ => e.2 && e'.2 = false | [] => True end /\ combined l'
  | [] => True
  end.

Definition range_has (c : Component) (r : Range) : bool :=
  (r_fromInfinity r || negb (component_ltb c (r_from r))) &&
  (r_toInfinity r || negb (component_ltb (r_to r) c)).

Lemma range_has_single c k : range_has c (mkRange false k false k) = bool_decide (c = k).
Proof.
  unfold range_has. cbn. apply Bool.eq_true_iff_eq.
  rewrite andb_true_iff, !negb_true_iff, bool_decide_eq_true. split.
  - intros [H1 H2]. by apply component_ltb_total.
  - intros ->. by rewrite component_ltb_irrefl.
Qed.

(** The range that [update] computes at an entry with the ANY flag. *)
Lemma range_has_any c k next r :
  iterator_update k true next = Ok r -> (forall e, next = Some e -> e.1 <> EC_NegInf) ->
  range_has c r =
  negb (ec_gtb k (EC c)) && match next with Some (k', _) => negb (ec_gtb (EC c) k') | None => true end.
Proof.
  unfold iterator_update, range_has. destruct k as [|k], next as [[[|k'] v']|]; cbn; intros [= <-] Hn; cbn.
  all: try (by destruct (Hn _ eq_refl)); done.
Qed.

Lemma entries_excluded_snoc_forall h e c :
  entries_excluded (reverse h ++ [e]) c =
  if forallb (fun e => ec_gtb e.1 (EC c)) h then entries_excluded [e] c
  else entries_excluded (reverse h) c.
Proof.
  rewrite entries_excluded_app.
  enough (forallb (fun e => ec_gtb e.1 (EC c)) (reverse h) = forallb (fun e => ec_gtb e.1 (EC c)) h)
    as -> by done.
  apply Bool.eq_true_iff_eq.
  rewrite !forallb_forall. setoid_rewrite <- list_elem_of_In. by setoid_rewrite elem_of_reverse.
Qed.

(** Every range starts at its first entry, so nothing is excluded below all entries. *)
Lemma entries_excluded_all_above l c :
  forallb (fun e => ec_gtb e.1 (EC c)) l = true -> entries_excluded (reverse l) c = false.
Proof.
  intros H. rewrite <- (app_nil_r (reverse l)), entries_excluded_skip; [done|].
  apply Forall_forall. intros e He. rewrite elem_of_reverse in He.
  rewrite forallb_forall in H. by apply H, list_elem_of_In.
Qed.

(** The entries after one, in ascending order, are above it. *)
Definition ascending (l : list Entry) : Prop := descending (reverse l).
Lemma ascending_cons e l :
  ascending (e :: l) <-> ascending l /\ Forall (fun e' => ec_gtb e'.1 e.1 = true) l.
Proof.
  unfold ascending. rewrite reverse_cons, descending_app. cbn [descending].
  assert (Forall (fun e0 : Entry => Forall (fun e' : Entry => ec_gtb e0.1 e'.1 = true) [e]) (reverse l) <->
    Forall (fun e' : Entry => ec_gtb e'.1 e.1 = true) l) as ->; [|rewrite Forall_nil; tauto].
  rewrite !Forall_forall. setoid_rewrite elem_of_reverse. setoid_rewrite Forall_singleton. done.
Qed.

(** An entry below [c] among the later ones: [c] is above the first one. *)
Lemma ascending_not_all_above e l c :
  ascending (e :: l) -> forallb (fun e => ec_gtb e.1 (EC c)) l = false -> ec_gtb (EC c) e.1 = true.
Proof.
  intros [_ Ha]%ascending_cons Hf. destruct (ec_gtb (EC c) e.1) eqn:E; [done|].
  apply not_true_iff_false in Hf. destruct Hf. apply forallb_forall. intros e' He'.
  rewrite Forall_forall in Ha. apply (ec_gtb_ge_trans _ e.1); [|done].
  by apply Ha, list_elem_of_In.
Qed.

(** The entries of [l] in ascending order: no two neighbours both have the flag. *)
Fixpoint combined_asc (l : list Entry) : Prop :=
  match l with
  | e :: l' =>
    match l' with e' :: _ => e.2 && e'.2 = false | [] => True end /\ combined_asc l'
  | [] => True
  end.

(** What one step of the enumeration accounts for. *)
Lemma excluded_single k l c :
  ascending ((EC k, false) :: l) ->
  entries_excluded (reverse ((EC k, false) :: l)) c = bool_decide (c = k) || entries_excluded (reverse l) c.
Proof.
  intros Ha. rewrite reverse_cons, entries_excluded_snoc_forall. case_match eqn:E.
  - rewrite (entries_excluded_all_above _ _ E), orb_false_r. destruct (ec_gtb (EC k) (EC c)) eqn:Ek.
    + rewrite entries_excluded_above by done. symmetry. apply bool_decide_eq_false.
      intros ->. by rewrite ec_gtb_irrefl in Ek.
    + rewrite entries_excluded_here by done. apply bool_decide_ext. naive_solver.
  - rewrite bool_decide_false; [done|]. intros ->.
    pose proof (ascending_not_all_above _ _ _ Ha E) as H. by rewrite ec_gtb_irrefl in H.
Qed.

Lemma excluded_last k c : entries_excluded [(k, true)] c = negb (ec_gtb k (EC c)).
Proof.
  destruct (ec_gtb k (EC c)) eqn:E; [by rewrite entries_excluded_above|by rewrite entries_excluded_any].
Qed.

Lemma excluded_range k k2 l c :
  ascending ((k, true) :: (EC k2, false) :: l) ->
  entries_excluded (reverse ((k, true) :: (EC k2, false) :: l)) c =
  negb (ec_gtb k (EC c)) && negb (component_ltb k2 c) || entries_excluded (reverse l) c.
Proof.
  intros Ha. pose proof Ha as [Ha2 [Hk _]%Forall_cons]%ascending_cons. cbn [fst] in Hk.
  rewrite reverse_cons, entries_excluded_snoc_forall. cbn [forallb fst].
  destruct (ec_gtb (EC k2) (EC c)) eqn:E2; cbn [andb].
  - assert (component_ltb k2 c = false) as -> by (by apply (ec_gtb_asym (EC k2) (EC c))).
    cbn [negb]. rewrite andb_true_r. case_match eqn:E.
    + by rewrite (entries_excluded_all_above _ _ E), orb_false_r, excluded_last.
    + pose proof (ascending_not_all_above _ _ _ Ha2 E) as H. cbn [fst] in H.
      by rewrite (ec_gtb_asym _ _ H) in E2.
  - rewrite excluded_single by done. f_equal.
    assert (ec_gtb k (EC c) = false) as ->.
    { apply ec_gtb_asym. apply (ec_ge_gtb_trans _ (EC k2)); done. }
    apply Bool.eq_true_iff_eq. cbn [negb andb].
    rewrite bool_decide_eq_true, negb_true_iff. split.
    + intros ->. apply component_ltb_irrefl.
    + intros H. by apply component_ltb_total.
Qed.

Lemma ranges_loop_ok n l :
  (length l <= n)%nat -> ascending l -> combined l ->
  Forall (fun e => e.1 = EC_NegInf -> e.2 = true) l ->
  exists rs, ranges_loop l = Ok rs /\
    forall c, entries_excluded (reverse l) c = existsb (range_has c) rs.
Proof.
  revert l. induction n as [|n IH]; intros l Hlen Ha Hc Hn.
  { destruct l; [by exists []|cbn in Hlen; lia]. }
  destruct l as [|[k any] l]; [by exists []|]. pose proof (proj1 (ascending_cons _ _) Ha) as [Ha' Hk].
  destruct Hc as [Hc1 Hc2]. pose proof (Forall_cons_1 _ _ _ Hn) as [Hn1 Hn2]. cbn [fst snd length] in *.
  destruct any; cbn [ranges_loop].
  - destruct (iterator_update k true (head l)) as [r|] eqn:Er;
      [|unfold iterator_update in Er; repeat case_match; discriminate].
    cbn [mbind result_bind]. destruct l as [|[[|k2] any2] l2].
    + exists [r]. split; [done|]. intros c. cbn [existsb].
      change (reverse [(k, true)]) with [(k, true)].
      by rewrite (range_has_any c k None r Er), andb_true_r, orb_false_r, excluded_last.
    + apply Forall_cons in Hk as [Hk _]. done.
    + cbn [fst snd andb] in Hc1. subst any2.
      destruct (IH l2) as (rs & Hrs & Hsem).
      { cbn in Hlen. lia. }
      { by apply ascending_cons in Ha' as [Ha' _]. }
      { by destruct Hc2. }
      { by apply Forall_cons in Hn2 as [_ Hn2]. }
      rewrite Hrs. exists (r :: rs). split; [done|]. intros c. rewrite excluded_range by done.
      cbn [existsb]. rewrite (range_has_any c k (Some (EC k2, false)) r Er) by (by intros e [= <-]).
      by rewrite Hsem.
  - destruct k as [|k]; [by specialize (Hn1 eq_refl)|]. cbn [iterator_update mbind result_bind].
    destruct (IH l) as (rs & Hrs & Hsem); [lia|done|done|done|].
    rewrite Hrs. cbn [mbind result_bind]. eexists. split; [done|]. intros c.
    rewrite excluded_single, Hsem by done. cbn [existsb]. by rewrite range_has_single.
Qed.

Lemma combined_snoc l e :
  combined (l ++ [e]) <->
  combined l /\ match last l with Some e' => e'.2 && e.2 = false | None => True end.
Proof.
  induction l as [|e0 l IH]; [cbn; tauto|]. cbn [app combined]. rewrite IH.
  destruct l as [|e1 l]; cbn [app combined last]; [tauto|].
  change (last (e0 :: e1 :: l)) with (last (e1 :: l)). tauto.
Qed.

Lemma combined_reverse l : combined l -> combined (reverse l).
Proof.
  induction l as [|e l IH]; [done|]. intros [H1 H2]. rewrite reverse_cons, combined_snoc.
  split; [by apply IH|]. rewrite last_reverse. destruct l; [done|]. cbn in *. by rewrite andb_comm.
Qed.

(** ** Round trip *)

Definition entry_elements (e : Entry) : list (Z * octets) :=
  match e.1 with EC_NegInf => [] | EC c => [(nc_type c, nc_value c)] end ++
  if e.2 then [(tlv_Any, [])] else [].
Definition Exclude_elements (x : Exclude) : list (Z * octets) := reverse (ex_entries x) ≫= entry_elements.
Definition Exclude_element (x : Exclude) : Z * octets := (tlv_Exclude, tlvs (Exclude_elements x)).

(** Components the decoder accepts. *)
Definition excludable (k : ExcludeComponent) : bool :=
  match k with EC_NegInf => true | EC c => isGeneric c || isImplicitSha256Digest c end.

Record wf_Exclude (x : Exclude) : Prop := {
  wx_entries : wf_entries (ex_entries x);
  wx_excludable : Forall (fun e => excludable e.1 = true) (ex_entries x);
}.

Lemma Component_ofBlock_excludable c :
  isGeneric c || isImplicitSha256Digest c = true ->
  Component_ofBlock (element (nc_type c) (nc_value c)) = Ok c.
Proof.
  intros Hc. unfold Component_ofBlock, ensureValid, ComponentType_check, isGeneric in *.
  destruct c as [t v]. cbn [nc_type nc_value block_type block_value element] in *.
  apply orb_true_iff in Hc as [Hc|Hc].
  - apply Z.eqb_eq in Hc as ->. done.
  - rewrite Hc. unfold isImplicitSha256Digest in Hc. cbn in Hc.
    apply andb_true_iff in Hc as [->%Z.eqb_eq _]. done.
Qed.

Lemma emplace_greatest k v l :
  Forall (fun e => ec_gtb k e.1 = true) l -> emplace k v l = (k, v) :: l.
Proof.
  unfold emplace. destruct l as [|[k' v'] l]; [done|]. intros [H _]%Forall_cons. cbn [fst] in H.
  cbn [above lower_bound fst]. rewrite (ec_gtb_asym _ _ H). cbn. rewrite decide_False; [done|].
  intros ->. by rewrite ec_gtb_irrefl in H.
Qed.

Lemma exclude_decode_loop_ok l acc :
  ascending l -> Forall (fun e => e.1 <> EC_NegInf /\ excludable e.1 = true) l ->
  Forall (fun e => Forall (fun a => ec_gtb e.1 a.1 = true) acc) l ->
  exclude_decode_loop (map (fun '(t, v) => element t v) (l ≫= entry_elements)) acc = Ok (reverse l ++ acc).
Proof.
  revert acc. induction l as [|[k any] l IH]; intros acc Ha He Hacc; [done|].
  apply ascending_cons in Ha as [Ha Hk]. apply Forall_cons in He as [[Hne Hex] He].
  apply Forall_cons in Hacc as [Hka Hacc]. cbn [fst] in *. destruct k as [|c]; [done|].
  assert (IH' : exclude_decode_loop (map (fun '(t, v) => element t v) (l ≫= entry_elements))
                  ((EC c, any) :: acc) = Ok (reverse ((EC c, any) :: l) ++ acc)).
  { rewrite IH; [|done|done|].
    - by rewrite reverse_cons, <- app_assoc.
    - rewrite Forall_forall in Hk, Hacc |- *. intros e Hin. constructor; [by apply Hk|by apply Hacc]. }
  rewrite <- (emplace_greatest (EC c) any acc) in IH' by done.
  rewrite bind_cons. unfold entry_elements at 1. cbn [fst snd]. rewrite <- IH'. clear IH'.
  cbn [app map exclude_decode_loop]. cbn in Hex.
  rewrite Component_ofBlock_excludable by done. cbn [mbind result_bind].
  assert (negb (isGeneric c) && negb (isImplicitSha256Digest c) = false) as ->.
  { by rewrite <- negb_orb, Hex. }
  destruct any; cbn [app map]; [done|].
  destruct l as [|[[|c2] any2] l]; cbn [map]; [done| |].
  { apply Forall_cons in He as [[? _] _]. done. }
  rewrite bind_cons. unfold entry_elements at 1 3. cbn [fst snd app map block_type element].
  rewrite (proj2 (Z.eqb_neq _ _)); [done|].
  apply Forall_cons in He as [[_ He] _]. cbn in He. unfold isGeneric, isImplicitSha256Digest in He.
  apply orb_true_iff in He as [He|He]; zbool; unfold GenericNameComponent, ImplicitSha256DigestComponent, tlv_Any in *; lia.
Qed.

Lemma Exclude_encode_ok `{EncodingOk E} x :
  Exclude_empty x = false ->
  exists f, Exclude_encode x E _ = Ok f /\ emits f (tlv tlv_Exclude (tlvs (Exclude_elements x))).
Proof.
  intros He. unfold Exclude_encode. rewrite He. eexists. split; [done|]. apply emits_prependElement.
  apply (emits_prependAll_eq _ ((fun e => tlvs (entry_elements e)) <$> ex_entries x)).
  - apply Forall2_fmap_2, Forall_Forall2_diag, Forall_forall. intros [k any] _.
    unfold entry_elements. cbn [fst snd]. rewrite tlvs_app.
    apply (emits_prependAll_eq _ [tlvs (if any then [(tlv_Any, [])] else []);
      tlvs (match k with EC_NegInf => [] | EC c => [(nc_type c, nc_value c)] end)]).
    + constructor; [|constructor; [|constructor]].
      * destruct any; cbn [prependIf]; [rewrite tlvs_singleton; apply emits_prependEmptyBlock|apply emits_nothing].
      * destruct k; [apply emits_nothing|rewrite tlvs_singleton; apply emits_Component].
    + cbn. by rewrite app_nil_r.
  - unfold Exclude_elements. rewrite <- fmap_reverse. generalize (reverse (ex_entries x)). clear.
    intros l. induction l as [|e l IH]; [done|]. rewrite bind_cons, tlvs_app, <- IH. done.
Qed.

Lemma Exclude_elements_u32 x : wf_Exclude x -> Forall (fun el => is_u32 el.1) (Exclude_elements x).
Proof.
  intros [_ He]. unfold Exclude_elements. apply Forall_bind.
  apply Forall_reverse in He. eapply Forall_impl; [exact He|]. intros [k any] Hk.
  apply Forall_app. split; [|case_match; repeat constructor; done].
  cbn in *. destruct k as [|c]; constructor; [|constructor]. cbn in *.
  unfold isGeneric, isImplicitSha256Digest in Hk. unfold is_u32.
  apply orb_true_iff in Hk as [Hk|Hk]; zbool; unfold GenericNameComponent, ImplicitSha256DigestComponent in *; lia.
Qed.

Lemma ascending_tail_neginf e l :
  ascending (e :: l) -> Forall (fun e => e.1 <> EC_NegInf) l.
Proof.
  intros [_ H]%ascending_cons. eapply Forall_impl; [exact H|]. intros [k v]; cbn. by intros H' ->.
Qed.

Lemma Exclude_wireDecode_element x :
  wf_Exclude x -> Exclude_empty x = false -> is_u64 (zlen (tlvs (Exclude_elements x))) ->
  Exclude_wireDecode (element_of (Exclude_element x)) =
  Ok (mkExclude (ex_entries x) (Some (element_of (Exclude_element x)))).
Proof.
  intros Hw Hne Hl. unfold Exclude_wireDecode.
  assert (Hp : parse (element_of (Exclude_element x)) =
               Ok (map (fun '(t, v) => element t v) (Exclude_elements x))).
  { apply parse_element_tlvs; [by apply Exclude_elements_u32|done]. }
  assert (Hty : block_type (element_of (Exclude_element x)) = tlv_Exclude) by done.
  rewrite Hp, Hty. clear Hp Hty. generalize (element_of (Exclude_element x)). intros w.
  change (negb (tlv_Exclude =? tlv_Exclude)) with false. cbn [mbind result_bind].
  unfold Exclude_elements. destruct Hw as [[Hd Hn] He].
  assert (Ha : ascending (reverse (ex_entries x))) by (unfold ascending; by rewrite reverse_involutive).
  apply Forall_reverse in Hn, He.
  rewrite <- (reverse_involutive (ex_entries x)). rewrite reverse_involutive.
  destruct (reverse (ex_entries x)) as [|[k any] l] eqn:E.
  { apply (f_equal reverse) in E. rewrite reverse_involutive in E. unfold Exclude_empty in Hne.
    by rewrite E in Hne. }
  pose proof (ascending_tail_neginf _ _ Ha) as Hni.
  apply Forall_cons in Hn as [Hn _]. pose proof (Forall_cons_1 _ _ _ He) as [Hek Hel]. cbn [fst snd] in *.
  destruct k as [|c].
  - rewrite (Hn eq_refl), bind_cons. cbn [entry_elements fst snd app map block_type element].
    change (tlv_Any =? tlv_Any) with true. cbv iota.
    apply ascending_cons in Ha as [Ha Hk].
    rewrite exclude_decode_loop_ok; [by rewrite reverse_cons|done| |].
    + by apply Forall_and.
    + cbn. eapply Forall_impl; [exact Hk|]. intros e' He'. by repeat constructor.
  - assert (Hloop : exclude_decode_loop (map (fun '(t, v) => element t v)
                      (((EC c, any) :: l) ≫= entry_elements)) [] = Ok (reverse ((EC c, any) :: l) ++ [])).
    { apply exclude_decode_loop_ok; [done| |by apply Forall_forall].
      constructor; [done|]. by apply Forall_and. }
    assert (exists rest, map (fun '(t, v) => element t v) (((EC c, any) :: l) ≫= entry_elements) =
                         element (nc_type c) (nc_value c) :: rest) as [rest Hr].
    { rewrite bind_cons. by eexists. }
    rewrite Hr in *. cbn [block_type element]. rewrite (proj2 (Z.eqb_neq (nc_type c) tlv_Any)).
    + by rewrite Hloop, app_nil_r.
    + cbn in Hek. unfold isGeneric, isImplicitSha256Digest in Hek.
      apply orb_true_iff in Hek as [H|H]; zbool;
        unfold GenericNameComponent, ImplicitSha256DigestComponent, tlv_Any in *; lia.
Qed.

Lemma caught_exclude_decode_loop n els entries :
  (length els <= n)%nat -> caught (exclude_decode_loop els entries).
Proof.
  revert els entries. induction n as [|n IH]; intros els entries Hl;
    destruct els as [|i els]; cbn [length exclude_decode_loop] in *; try done; [lia|].
  apply caught_bind_all; [by case_match|]. intros c. case_match; [done|]. destruct els as [|a els]; [done|].
  cbn [length] in *. case_match; apply IH; cbn [length]; lia.
Qed.
Lemma caught_Exclude_wireDecode wire : caught (Exclude_wireDecode wire).
Proof.
  unfold Exclude_wireDecode. case_match; [done|]. apply caught_bind_all; [auto with valdb|].
  intros [|i els]; [done|]. apply caught_bind_all; [|done].
  case_match; by eapply caught_exclude_decode_loop.
Qed.
#[export] Hint Resolve caught_Exclude_wireDecode : valdb.

(** ** Properties *)

(** An Exclude object implements a set of components.  After any sequence of
    operations on a new object, [isExcluded] answers for the union: [excludeOne] adds its
    component, [excludeAfter] everything from its bound on, and [excludeBefore] and
    [excludeRange] their closed range, an empty or inverted range being refused; the one
    exception is a range that lies inside an existing range, which cuts that range off at
    its own upper bound. *)
Theorem exclude_set (x : Exclude) (Hx : exclude_made x) :
  (forall comp c, isExcluded (excludeOne comp x) c = isExcluded x c || bool_decide (c = comp)) /\
  (forall from c, isExcluded (excludeAfter from x) c = isExcluded x c || negb (component_ltb c from)) /\
  (forall from to, range_invalid from to = true ->
     excludeRange_impl from to x = Err (TlvError "Invalid exclude range")) /\
  (forall from to, range_invalid from to = false -> exists x',
     excludeRange_impl from to x = Ok x' /\
     forall c, isExcluded x' c =
       if inside_range from to (ex_entries x)
       then isExcluded x c &&
            (negb (component_ltb to c) ||
             existsb (fun e => negb (ec_gtb e.1 (EC c))) (above (EC to) (above from (ex_entries x))))
       else isExcluded x c || in_range from to c).
Proof.
  pose proof (exclude_made_wf x Hx) as [Hd Hn]. split; [|split; [|split]].
  - intros comp c. unfold excludeOne. destruct (isExcluded x comp) eqn:E; cbn [negb].
    + destruct (decide (c = comp)) as [->|Hc]; [by rewrite E|].
      by rewrite bool_decide_false, orb_false_r.
    + by apply emplace_one_excluded.
  - intros from c. unfold isExcluded, excludeAfter. cbn [ex_entries].
    destruct (component_ltb c from) eqn:Ec; cbn [negb].
    + rewrite newFrom_below, orb_false_r by done.
      rewrite <- (above_lower_bound (EC from) (ex_entries x)) at 2. symmetry.
      apply entries_excluded_skip. eapply Forall_impl; [apply above_gt|]. intros e He.
      by apply (ec_gtb_trans _ (EC from)).
    + rewrite orb_true_r. by apply newFrom_range.
  - intros from to Hv. unfold excludeRange_impl. by rewrite Hv.
  - intros from to Hv. rewrite excludeRange_eq by done. eexists. split; [done|]. intros c.
    unfold isExcluded. cbn [ex_entries]. destruct (inside_range from to (ex_entries x)) eqn:Hi.
    + rewrite <- range_cut by done. unfold inside_range in Hi.
      by destruct (lower_bound from _) as [|[? []] ?], (lower_bound (EC to) _).
    + by apply range_union.
Qed.

Definition generic (s : string) : Component := mkComponent GenericNameComponent (str s).
Definition sample_exclude : Exclude :=
  match excludeRange (generic "a") (generic "z") Exclude_new with Ok x => x | Err _ => Exclude_new end.

Lemma sample_exclude_made : exclude_made sample_exclude.
Proof. eapply (made_range (EC (generic "a")) (generic "z")); [apply made_new|by vm_compute]. Qed.

(** Excluding [b, c] after [a, z] leaves "m" not excluded. *)
Lemma exclude_set_witness : exists x',
  excludeRange (generic "b") (generic "c") sample_exclude = Ok x' /\
  isExcluded sample_exclude (generic "m") = true /\ isExcluded x' (generic "m") = false.
Proof.
  destruct (exclude_set sample_exclude sample_exclude_made) as (_ & _ & _ & H).
  destruct (H (EC (generic "b")) (generic "c")) as (x' & Hx & Hc); [by vm_compute|].
  exists x'. split; [exact Hx|]. split; [by vm_compute|]. rewrite Hc. by vm_compute.
Defined.

(** When no range reaches up to the start of another, enumerating an Exclude
    object violates no assertion and the enumerated ranges hold exactly the excluded
    components; the operations do not keep adjacent ranges apart, though: after
    [excludeRange] up to a component and [excludeAfter] from it, the enumeration fails its
    assertion that consecutive ranges were combined. *)
Theorem exclude_enumeration (x : Exclude) (Hw : wf_entries (ex_entries x))
    (Hc : combined (ex_entries x)) :
  (exists rs, ranges x = Ok rs /\ forall c, isExcluded x c = existsb (range_has c) rs) /\
  exists y, exclude_made y /\ ranges y = Err (AssertFailed "m_it->second == false").
Proof.
  split.
  - destruct Hw as [Hd Hn].
    destruct (ranges_loop_ok (length (reverse (ex_entries x))) (reverse (ex_entries x)))
      as (rs & Hrs & Hsem); [done| |by apply combined_reverse|by apply Forall_reverse|].
    + unfold ascending. by rewrite reverse_involutive.
    + exists rs. split; [done|]. intros c. by rewrite <- Hsem, reverse_involutive.
  - exists (excludeAfter (generic "z") sample_exclude).
    split; [apply made_after, sample_exclude_made|by vm_compute].
Qed.

Lemma exclude_enumeration_witness :
  exists rs, ranges sample_exclude = Ok rs /\ existsb (range_has (generic "m")) rs = true.
Proof.
  destruct (exclude_enumeration sample_exclude (exclude_made_wf _ sample_exclude_made)) as [(rs & Hr & Hc) _];
    [by vm_compute|].
  exists rs. split; [done|]. rewrite <- Hc. by vm_compute.
Defined.
