(* ===== verification/Selectors.v ===== *)
(** * Selectors and delegation lists (ndn-cxx/selectors.cpp, delegation.cpp, delegation-list.cpp)

    The Selectors element of an Interest of format 0.2 and the list of delegations of its
    ForwardingHint, with their encodings. *)

From stdpp Require Import base list strings sets.
From Stdlib Require Import Strings.Byte ZArith Lia.
From S2P Require Import Prelude Tlv Encoder Block Codec Ndn NameTlv Signature Exclude.

Local Open Scope Z_scope.

(** ** Selectors *)

Record Selectors := mkSelectors {
  sel_minSuffixComponents : Z;
  sel_maxSuffixComponents : Z;
  sel_publisherPublicKeyLocator : KeyLocator;
  sel_exclude : Exclude;
  sel_childSelector : Z;
  sel_mustBeFresh : bool;
  sel_wire : option Block;
}.
Definition DEFAULT_CHILD_SELECTOR : Z := 0.
Definition Selectors_new : Selectors :=
  mkSelectors (-1) (-1) KeyLocator_new Exclude_new DEFAULT_CHILD_SELECTOR false None.

Definition Selectors_empty (s : Selectors) : bool :=
  (sel_minSuffixComponents s <? 0) && (sel_maxSuffixComponents s <? 0) &&
  KeyLocator_empty (sel_publisherPublicKeyLocator s) && Exclude_empty (sel_exclude s) &&
  (sel_childSelector s =? DEFAULT_CHILD_SELECTOR) && negb (sel_mustBeFresh s).

Definition Selectors_encode (s : Selectors) : Template := fun E _ =>
  let* exclude :=
    if negb (Exclude_empty (sel_exclude s)) then Exclude_encode (sel_exclude s) E _
    else Ok prependNothing in
  let* keyLocator :=
    if negb (KeyLocator_empty (sel_publisherPublicKeyLocator s))
    then KeyLocator_encode (sel_publisherPublicKeyLocator s) E _ else Ok prependNothing in
  Ok (prependElement tlv_Selectors (prependAll [
    prependIf (sel_mustBeFresh s) (prependEmptyBlock tlv_MustBeFresh);
    prependIf (negb (sel_childSelector s =? DEFAULT_CHILD_SELECTOR))
      (prependNonNegativeIntegerBlock tlv_ChildSelector (sel_childSelector s));
    exclude;
    keyLocator;
    prependIf (sel_maxSuffixComponents s >=? 0)
      (prependNonNegativeIntegerBlock tlv_MaxSuffixComponents (sel_maxSuffixComponents s));
    prependIf (sel_minSuffixComponents s >=? 0)
      (prependNonNegativeIntegerBlock tlv_MinSuffixComponents (sel_minSuffixComponents s))])).

Definition Selectors_wireEncode (s : Selectors) : result Block :=
  match sel_wire s with
  | Some wire => Ok wire
  | None => encodeWire (Selectors_encode s)
  end.

(** A sub-element that may be missing. *)
Definition find_decode {A} (type : Z) (els : list Block) (d : A) (decode : Block -> result A)
  : result A :=
  match block_find type els with Some b => decode b | None => Ok d end.

Definition Selectors_wireDecode (wire : Block) : result Selectors :=
  if negb (block_type wire =? tlv_Selectors)
  then Err (TlvError "Unexpected TLV type when decoding Selectors")
  else
    let* els := parse wire in
    let* minSuffix := find_decode tlv_MinSuffixComponents els (-1) (readNonNegativeIntegerAs int_max) in
    let* maxSuffix := find_decode tlv_MaxSuffixComponents els (-1) (readNonNegativeIntegerAs int_max) in
    let* keyLocator := find_decode tlv_KeyLocator els KeyLocator_new
                         (fun b => KeyLocator_wireDecode b KeyLocator_new) in
    let* exclude := find_decode tlv_Exclude els Exclude_new Exclude_wireDecode in
    let* childSelector := find_decode tlv_ChildSelector els DEFAULT_CHILD_SELECTOR
                            (readNonNegativeIntegerAs 1) in
    let* mustBeFresh := find_decode tlv_MustBeFresh els false (fun _ => Ok true) in
    Ok (mkSelectors minSuffix maxSuffix keyLocator exclude childSelector mustBeFresh (Some wire)).

Definition setMinSuffixComponents (v : Z) (s : Selectors) : Selectors :=
  mkSelectors v (sel_maxSuffixComponents s) (sel_publisherPublicKeyLocator s) (sel_exclude s)
    (sel_childSelector s) (sel_mustBeFresh s) None.
Definition setMaxSuffixComponents (v : Z) (s : Selectors) : Selectors :=
  mkSelectors (sel_minSuffixComponents s) v (sel_publisherPublicKeyLocator s) (sel_exclude s)
    (sel_childSelector s) (sel_mustBeFresh s) None.
Definition setPublisherPublicKeyLocator (k : KeyLocator) (s : Selectors) : Selectors :=
  mkSelectors (sel_minSuffixComponents s) (sel_maxSuffixComponents s) k (sel_exclude s)
    (sel_childSelector s) (sel_mustBeFresh s) None.
Definition setExclude (x : Exclude) (s : Selectors) : Selectors :=
  mkSelectors (sel_minSuffixComponents s) (sel_maxSuffixComponents s)
    (sel_publisherPublicKeyLocator s) x (sel_childSelector s) (sel_mustBeFresh s) None.
Definition setChildSelector (v : Z) (s : Selectors) : result Selectors :=
  if negb (v =? 0) && negb (v =? 1) then Err (InvalidArgument "ChildSelector must be 0 or 1")
  else Ok (mkSelectors (sel_minSuffixComponents s) (sel_maxSuffixComponents s)
             (sel_publisherPublicKeyLocator s) (sel_exclude s) v (sel_mustBeFresh s) None).
Definition setMustBeFresh (v : bool) (s : Selectors) : Selectors :=
  mkSelectors (sel_minSuffixComponents s) (sel_maxSuffixComponents s)
    (sel_publisherPublicKeyLocator s) (sel_exclude s) (sel_childSelector s) v None.

(** [Selectors::operator==]: the encodings are equal; encoding may throw. *)
Definition Selectors_eqb (l r : Selectors) : result bool :=
  let* wl := Selectors_wireEncode l in
  let* wr := Selectors_wireEncode r in
  Ok (Block_eqb wl wr).

(** ** Delegations *)

Record Delegation := mkDelegation {
  del_preference : Z;
  del_name : Name;
}.

(** [operator<]: lexicographic by preference and name. *)
Definition delegation_ltb (l r : Delegation) : bool :=
  (del_preference l <? del_preference r) ||
  negb (del_preference r <? del_preference l) && (name_compare (del_name l) (del_name r) <? 0).

Record DelegationList := mkDelegationList {
  dl_isSorted : bool;
  dl_dels : list Delegation;
}.
Definition DelegationList_new : DelegationList := mkDelegationList true [].

Inductive InsertConflictResolution := INS_REPLACE | INS_APPEND | INS_SKIP.

(** [std::upper_bound] on a sorted list and [insert] there: in front of the first
    delegation that is greater. *)
Fixpoint insert_upper_bound (d : Delegation) (l : list Delegation) : list Delegation :=
  match l with
  | [] => [d]
  | x :: l' => if delegation_ltb d x then d :: l else x :: insert_upper_bound d l'
  end.

Definition insertImpl (preference : Z) (name : Name) (dl : DelegationList) : DelegationList :=
  let d := mkDelegation preference name in
  if negb (dl_isSorted dl) then mkDelegationList (dl_isSorted dl) (dl_dels dl ++ [d])
  else mkDelegationList (dl_isSorted dl) (insert_upper_bound d (dl_dels dl)).

Definition eraseImpl (preference : option Z) (name : Name) (dl : DelegationList)
  : Z * DelegationList :=
  let hit d :=
    match preference with None => true | Some p => del_preference d =? p end &&
    name_equals (del_name d) name in
  (zlen (List.filter hit (dl_dels dl)),
   mkDelegationList (dl_isSorted dl) (List.filter (fun d => negb (hit d)) (dl_dels dl))).

Definition dl_insert (preference : Z) (name : Name) (onConflict : InsertConflictResolution)
    (dl : DelegationList) : bool * DelegationList :=
  match onConflict with
  | INS_REPLACE => (true, insertImpl preference name (eraseImpl None name dl).2)
  | INS_APPEND => (true, insertImpl preference name dl)
  | INS_SKIP =>
    if negb (existsb (fun d => name_equals (del_name d) name) (dl_dels dl))
    then (true, insertImpl preference name dl)
    else (false, dl)
  end.

Definition dl_sort (dl : DelegationList) : DelegationList :=
  if dl_isSorted dl then dl
  else foldl (fun dl d => insertImpl (del_preference d) (del_name d) dl)
         (mkDelegationList true []) (dl_dels dl).

Definition isValidTlvType (type : Z) : bool := (type =? tlv_Content) || (type =? tlv_ForwardingHint).

Definition Delegation_encode `{EncodingImpl E} (d : Delegation) : E -> Z * E :=
  prependElement tlv_LinkDelegation (prependAll [
    Name_encode (del_name d);
    prependNonNegativeIntegerBlock tlv_LinkPreference (del_preference d)]).

Definition DelegationList_encode (type : Z) (dl : DelegationList) : Template := fun E _ =>
  if negb (isValidTlvType type)
  then Err (InvalidArgument "Invalid TLV-TYPE when encoding DelegationList")
  else if zlen (dl_dels dl) =? 0 then Err (TlvError "Empty DelegationList")
  else Ok (prependElement type (prependAll (Delegation_encode <$> reverse (dl_dels dl)))).

(** The body of the decoding loop. *)
Definition delegation_decode (del : Block) : result Delegation :=
  if negb (block_type del =? tlv_LinkDelegation)
  then Err (TlvError "Unexpected TLV-TYPE when decoding Delegation")
  else
    let* els := parse del in
    match els with
    | val :: els =>
      if negb (block_type val =? tlv_LinkPreference)
      then Err (TlvError "Missing Preference field in Delegation")
      else
        let* preference := block_readNonNegativeInteger val in
        match els with
        | val :: _ =>
          if negb (block_type val =? tlv_Name)
          then Err (TlvError "Missing Name field in Delegation")
          else
            let* name := Name_wireDecode val in
            Ok (mkDelegation preference name)
        | [] => Err (TlvError "Missing Name field in Delegation")
        end
    | [] => Err (TlvError "Missing Preference field in Delegation")
    end.

Fixpoint delegations_decode (els : list Block) (dl : DelegationList) : result DelegationList :=
  match els with
  | [] => Ok dl
  | del :: els =>
    let* d := delegation_decode del in
    delegations_decode els (insertImpl (del_preference d) (del_name d) dl)
  end.

Definition DelegationList_wireDecode (block : Block) (wantSort : bool) : result DelegationList :=
  if negb (isValidTlvType (block_type block))
  then Err (TlvError "Unexpected TLV-TYPE when decoding DelegationList")
  else
    let* els := parse block in
    let* dl := delegations_decode els (mkDelegationList wantSort []) in
    if zlen (dl_dels dl) =? 0 then Err (TlvError "Empty DelegationList") else Ok dl.

(** [operator==] *)
Fixpoint delegations_eqb (l r : list Delegation) : bool :=
  match l, r with
  | [], [] => true
  | x :: l', y :: r' =>
    (del_preference x =? del_preference y) && name_equals (del_name x) (del_name y) &&
    delegations_eqb l' r'
  | _, _ => false
  end.
Definition DelegationList_eqb (l r : DelegationList) : bool := delegations_eqb (dl_dels l) (dl_dels r).

(** ** Round trip of selectors *)

Definition opt_element (c : bool) (el : Z * octets) : list (Z * octets) := if c then [el] else [].

Lemma tlvs_opt c t v : tlvs (opt_element c (t, v)) = if c then tlv t v else [].
Proof. destruct c; [apply tlvs_singleton|done]. Qed.

Definition Selectors_elements (s : Selectors) : list (Z * octets) :=
  opt_element (sel_minSuffixComponents s >=? 0)
    (tlv_MinSuffixComponents, nonneg_integer (sel_minSuffixComponents s)) ++
  opt_element (sel_maxSuffixComponents s >=? 0)
    (tlv_MaxSuffixComponents, nonneg_integer (sel_maxSuffixComponents s)) ++
  opt_element (negb (KeyLocator_empty (sel_publisherPublicKeyLocator s)))
    (KeyLocator_element (sel_publisherPublicKeyLocator s)) ++
  opt_element (negb (Exclude_empty (sel_exclude s))) (Exclude_element (sel_exclude s)) ++
  opt_element (negb (sel_childSelector s =? DEFAULT_CHILD_SELECTOR))
    (tlv_ChildSelector, nonneg_integer (sel_childSelector s)) ++
  opt_element (sel_mustBeFresh s) (tlv_MustBeFresh, []).
Definition Selectors_element (s : Selectors) : Z * octets := (tlv_Selectors, tlvs (Selectors_elements s)).

Record wf_Selectors (s : Selectors) : Prop := {
  ws_min : sel_minSuffixComponents s <= int_max;
  ws_max : sel_maxSuffixComponents s <= int_max;
  ws_locator : wf_KeyLocator (sel_publisherPublicKeyLocator s);
  ws_exclude : wf_Exclude (sel_exclude s);
  ws_child : sel_childSelector s = 0 \/ sel_childSelector s = 1;
}.

Lemma Selectors_encode_ok `{EncodingOk E} s :
  wf_Selectors s ->
  exists f, Selectors_encode s E _ = Ok f /\ emits f (tlv tlv_Selectors (tlvs (Selectors_elements s))).
Proof.
  intros [_ _ Hk _ _]. unfold Selectors_encode.
  assert (exists f, (if negb (Exclude_empty (sel_exclude s)) then Exclude_encode (sel_exclude s) E _
                     else Ok prependNothing) = Ok f /\
    emits f (tlvs (opt_element (negb (Exclude_empty (sel_exclude s))) (Exclude_element (sel_exclude s)))))
    as (fx & -> & Hfx).
  { unfold Exclude_element. rewrite tlvs_opt. destruct (Exclude_empty _) eqn:Ex; cbn [negb].
    - eexists. split; [done|apply emits_nothing].
    - by apply Exclude_encode_ok. }
  assert (exists f, (if negb (KeyLocator_empty (sel_publisherPublicKeyLocator s))
                     then KeyLocator_encode (sel_publisherPublicKeyLocator s) E _
                     else Ok prependNothing) = Ok f /\
    emits f (tlvs (opt_element (negb (KeyLocator_empty (sel_publisherPublicKeyLocator s)))
      (KeyLocator_element (sel_publisherPublicKeyLocator s))))) as (fk & -> & Hfk).
  { unfold KeyLocator_element. rewrite tlvs_opt. destruct (KeyLocator_empty _); cbn [negb].
    - eexists. split; [done|apply emits_nothing].
    - by apply KeyLocator_encode_ok. }
  cbn [mbind result_bind]. eexists. split; [done|]. apply emits_prependElement.
  eapply emits_prependAll_eq.
  - repeat (apply Forall2_cons; split); [| |exact Hfx|exact Hfk| | |constructor];
      apply emits_if; intros _;
      first [apply emits_prependEmptyBlock|apply emits_prependNonNegativeIntegerBlock].
  - unfold Selectors_elements. rewrite !tlvs_app, !(tlvs_opt _ tlv_MinSuffixComponents),
      !(tlvs_opt _ tlv_MaxSuffixComponents), !(tlvs_opt _ tlv_ChildSelector), !(tlvs_opt _ tlv_MustBeFresh).
    cbn. by rewrite app_nil_r.
Qed.

Definition Selectors_decoded (s : Selectors) : Selectors :=
  mkSelectors (if sel_minSuffixComponents s >=? 0 then sel_minSuffixComponents s else -1)
    (if sel_maxSuffixComponents s >=? 0 then sel_maxSuffixComponents s else -1)
    (if KeyLocator_empty (sel_publisherPublicKeyLocator s) then KeyLocator_new
     else KeyLocator_decoded (sel_publisherPublicKeyLocator s) KeyLocator_new)
    (if Exclude_empty (sel_exclude s) then Exclude_new
     else mkExclude (ex_entries (sel_exclude s)) (Some (element_of (Exclude_element (sel_exclude s)))))
    (sel_childSelector s) (sel_mustBeFresh s) (Some (element_of (Selectors_element s))).

Lemma Selectors_elements_u32 s : Forall (fun el => is_u32 el.1) (Selectors_elements s).
Proof.
  unfold Selectors_elements, opt_element.
  repeat (apply Forall_app; split); case_match; repeat constructor; done.
Qed.

(** Finding an element among optional ones. *)
Lemma block_find_app t l1 l2 :
  block_find t (l1 ++ l2) = match block_find t l1 with Some b => Some b | None => block_find t l2 end.
Proof. apply find_first_app. Qed.
Lemma block_find_opt t c el :
  block_find t (element_of <$> opt_element c el) =
  if c && (el.1 =? t) then Some (element_of el) else None.
Proof. by destruct c; cbn; [destruct (el.1 =? t)|]. Qed.
Lemma map_element_of l : map (fun '(t, v) => element t v) l = (element_of <$> l).
Proof. induction l as [|[t v] l IH]; csimpl; by f_equal. Qed.

Lemma find_decode_if {A} t els (d : A) decode (c : bool) b v :
  block_find t els = (if c then Some b else None) -> (c = true -> decode b = Ok v) ->
  find_decode t els d decode = Ok (if c then v else d).
Proof. unfold find_decode. intros ->. destruct c; [by auto|done]. Qed.

Lemma Selectors_find s :
  let find t := block_find t (element_of <$> Selectors_elements s) in
  find tlv_MinSuffixComponents =
    (if sel_minSuffixComponents s >=? 0
     then Some (element tlv_MinSuffixComponents (nonneg_integer (sel_minSuffixComponents s))) else None) /\
  find tlv_MaxSuffixComponents =
    (if sel_maxSuffixComponents s >=? 0
     then Some (element tlv_MaxSuffixComponents (nonneg_integer (sel_maxSuffixComponents s))) else None) /\
  find tlv_KeyLocator =
    (if negb (KeyLocator_empty (sel_publisherPublicKeyLocator s))
     then Some (element_of (KeyLocator_element (sel_publisherPublicKeyLocator s))) else None) /\
  find tlv_Exclude =
    (if negb (Exclude_empty (sel_exclude s))
     then Some (element_of (Exclude_element (sel_exclude s))) else None) /\
  find tlv_ChildSelector =
    (if negb (sel_childSelector s =? DEFAULT_CHILD_SELECTOR)
     then Some (element tlv_ChildSelector (nonneg_integer (sel_childSelector s))) else None) /\
  find tlv_MustBeFresh = (if sel_mustBeFresh s then Some (element tlv_MustBeFresh []) else None).
Proof.
  cbv zeta. unfold Selectors_elements. rewrite !fmap_app.
  repeat split; rewrite !block_find_app, !block_find_opt; cbn [fst KeyLocator_element Exclude_element];
    repeat match goal with |- context [?a =? ?b] =>
      progress (let v := eval vm_compute in (a =? b) in change (a =? b) with v) end;
    rewrite ?andb_false_r, ?andb_true_r; by case_match.
Qed.

Lemma Selectors_wireDecode_element s :
  wf_Selectors s -> is_u64 (zlen (tlvs (Selectors_elements s))) ->
  Selectors_wireDecode (element_of (Selectors_element s)) = Ok (Selectors_decoded s).
Proof.
  intros Hw Hl. unfold Selectors_wireDecode, Selectors_decoded.
  assert (Hp : parse (element_of (Selectors_element s)) = Ok (element_of <$> Selectors_elements s)).
  { rewrite <- map_element_of. apply parse_element_tlvs; [apply Selectors_elements_u32|done]. }
  rewrite Hp. change (negb (block_type _ =? tlv_Selectors)) with false. cbn [mbind result_bind].
  destruct (Selectors_find s) as (F1 & F2 & F3 & F4 & F5 & F6). destruct Hw as [Hmin Hmax Hk Hx Hc].
  assert (Hint : forall n, (n >=? 0) = true -> n <= int_max -> is_u64 n).
  { intros n Hn Hi. unfold is_u64, int_max in *. apply Z.geb_le in Hn. lia. }
  rewrite (find_decode_if _ _ _ _ _ _ (sel_minSuffixComponents s) F1)
    by (intros Hn; apply readNonNegativeIntegerAs_element; auto).
  rewrite (find_decode_if _ _ _ _ _ _ (sel_maxSuffixComponents s) F2)
    by (intros Hn; apply readNonNegativeIntegerAs_element; auto).
  assert (Hin : forall c el, c = true -> opt_element c el ⊆ Selectors_elements s -> is_u64 (zlen el.2)).
  { intros c [t v] -> Hsub. eapply tlvs_elem_u64; [|exact Hl]. apply Hsub. left. }
  erewrite (find_decode_if _ _ _ _ _ _ _ F3).
  2: { intros Hn. apply KeyLocator_wireDecode_element; [done|]. apply (Hin _ (KeyLocator_element _) Hn).
       unfold Selectors_elements. clear. set_solver. }
  erewrite (find_decode_if _ _ _ _ _ _ _ F4).
  2: { intros Hn. apply Exclude_wireDecode_element; [done|by apply negb_true_iff|].
       apply (Hin _ (Exclude_element _) Hn). unfold Selectors_elements. clear. set_solver. }
  rewrite (find_decode_if _ _ _ _ _ _ (sel_childSelector s) F5)
    by (intros _; apply readNonNegativeIntegerAs_element; unfold is_u64; lia).
  rewrite (find_decode_if _ _ _ _ _ _ true F6) by done.
  cbn [mbind result_bind]. do 2 f_equal.
  - by destruct (KeyLocator_empty _).
  - by destruct (Exclude_empty _).
  - destruct Hc as [-> | ->]; done.
  - by destruct (sel_mustBeFresh s).
Qed.

Lemma caught_find_decode {A} t els (d : A) decode :
  (forall b, caught (decode b)) -> caught (find_decode t els d decode).
Proof. intros H. unfold find_decode. by case_match. Qed.

Lemma caught_Selectors_wireDecode wire : caught (Selectors_wireDecode wire).
Proof.
  unfold Selectors_wireDecode. case_match; [done|]. apply caught_bind_all; [auto with valdb|]. intros els.
  repeat (apply caught_bind_all; [apply caught_find_decode; intros b; by auto with valdb|intros]). done.
Qed.
#[export] Hint Resolve caught_Selectors_wireDecode : valdb.

(** ** Delegation lists *)

Lemma delegation_ltb_irrefl d : delegation_ltb d d = false.
Proof.
  unfold delegation_ltb. rewrite Z.ltb_irrefl. cbn. apply name_ltb_irrefl.
Qed.
Lemma delegation_ltb_trans a b c :
  delegation_ltb a b = true -> delegation_ltb b c = true -> delegation_ltb a c = true.
Proof.
  unfold delegation_ltb. rewrite !orb_true_iff, !andb_true_iff, !negb_true_iff, !Z.ltb_ge, !Z.ltb_lt.
  rewrite <- !Z.ltb_lt. intros [H1|[H1 H1']] [H2|[H2 H2']]; rewrite ?Z.ltb_lt in *; try (left; lia).
  right. split; [lia|]. rewrite <- Z.ltb_lt in *. by eapply (name_ltb_trans _ (del_name b)).
Qed.
Lemma delegation_ltb_total a b :
  delegation_ltb a b = false -> delegation_ltb b a = false -> a = b.
Proof.
  unfold delegation_ltb. rewrite !orb_false_iff, !andb_false_iff, !negb_false_iff, !Z.ltb_ge, !Z.ltb_lt.
  destruct a as [p n], b as [q m]; cbn. intros [H1 [H2|H2]] [H3 [H4|H4]]; try lia.
  f_equal; [lia|]. apply name_ltb_total; unfold name_ltb; by apply Z.ltb_ge.
Qed.

(** In ascending order of preference and name. *)
Fixpoint ordered (l : list Delegation) : Prop :=
  match l with
  | [] => True
  | x :: l' => Forall (fun y => delegation_ltb y x = false) l' /\ ordered l'
  end.

Lemma insert_upper_bound_perm d l : insert_upper_bound d l ≡ₚ d :: l.
Proof.
  induction l as [|x l IH]; cbn; [done|]. case_match; [done|]. rewrite IH. constructor.
Qed.

Lemma insert_upper_bound_ordered d l : ordered l -> ordered (insert_upper_bound d l).
Proof.
  induction l as [|x l IH]; cbn; [done|]. intros [H1 H2]. destruct (delegation_ltb d x) eqn:E; cbn.
  - split; [|done]. constructor.
    + destruct (delegation_ltb x d) eqn:E'; [|done].
      pose proof (delegation_ltb_trans _ _ _ E E') as H. by rewrite delegation_ltb_irrefl in H.
    + eapply Forall_impl; [exact H1|]. intros y Hy. destruct (delegation_ltb y d) eqn:E'; [|done].
      cbn in Hy. by rewrite (delegation_ltb_trans _ _ _ E' E) in Hy.
  - split; [|by apply IH]. rewrite insert_upper_bound_perm. by constructor.
Qed.

(** Appending in order. *)
Lemma insert_upper_bound_greatest d l :
  Forall (fun x => delegation_ltb d x = false) l -> insert_upper_bound d l = l ++ [d].
Proof. induction 1 as [|x l Hx _ IH]; cbn; [done|]. by rewrite Hx, IH. Qed.

(** A delegation list the operations make is in order when it says so. *)
Definition wf_dl (dl : DelegationList) : Prop := dl_isSorted dl = true -> ordered (dl_dels dl).

Lemma insertImpl_wf p n dl : wf_dl dl -> wf_dl (insertImpl p n dl).
Proof.
  unfold wf_dl, insertImpl. destruct (dl_isSorted dl) eqn:E; cbn; [|done].
  intros H _. by apply insert_upper_bound_ordered, H.
Qed.

Lemma ordered_filter p l : ordered l -> ordered (List.filter p l).
Proof.
  induction l as [|x l IH]; cbn; [done|]. intros [H1 H2]. case_match; [|by apply IH]. cbn.
  split; [|by apply IH]. rewrite Forall_forall in H1 |- *. intros y Hy. apply H1.
  apply list_elem_of_In in Hy. apply filter_In in Hy as [Hy _]. by apply list_elem_of_In.
Qed.

Lemma dl_insert_wf p n c dl : wf_dl dl -> wf_dl (dl_insert p n c dl).2.
Proof.
  intros Hw. destruct c; cbn.
  - apply insertImpl_wf. intros Hs. by apply ordered_filter, Hw.
  - by apply insertImpl_wf.
  - case_match; [by apply insertImpl_wf|done].
Qed.

(** *** Round trip *)

Definition Delegation_elements (d : Delegation) : list (Z * octets) :=
  [(tlv_LinkPreference, nonneg_integer (del_preference d)); (tlv_Name, tlvs (name_elements (del_name d)))].
Definition Delegation_element (d : Delegation) : Z * octets :=
  (tlv_LinkDelegation, tlvs (Delegation_elements d)).
Definition DelegationList_elements (dl : DelegationList) : list (Z * octets) :=
  Delegation_element <$> dl_dels dl.

Definition wf_Delegation (d : Delegation) : Prop := is_u64 (del_preference d) /\ wf_name (del_name d).

Lemma emits_Delegation `{EncodingOk E} d :
  emits (Delegation_encode d) (tlv tlv_LinkDelegation (tlvs (Delegation_elements d))).
Proof.
  apply emits_prependElement. eapply emits_prependAll_eq.
  - repeat (apply Forall2_cons; split); [apply emits_Name|apply emits_prependNonNegativeIntegerBlock|constructor].
  - unfold Delegation_elements. rewrite tlvs_cons, tlvs_singleton. cbn. by rewrite app_nil_r.
Qed.

Lemma DelegationList_encode_ok `{EncodingOk E} dl :
  dl_dels dl <> [] ->
  exists f, DelegationList_encode tlv_ForwardingHint dl E _ = Ok f /\
    emits f (tlv tlv_ForwardingHint (tlvs (DelegationList_elements dl))).
Proof.
  intros Hne. unfold DelegationList_encode. change (negb (isValidTlvType tlv_ForwardingHint)) with false.
  cbv iota. rewrite (proj2 (Z.eqb_neq _ _)).
  2: { destruct (dl_dels dl); [done|]. rewrite zlen_cons. pose proof (zlen_nonneg l). lia. }
  eexists. split; [done|]. apply emits_prependElement.
  replace (tlvs (DelegationList_elements dl))
    with (dl_dels dl ≫= (fun d => tlv tlv_LinkDelegation (tlvs (Delegation_elements d)))).
  - apply emits_prependAll_reverse. intros d _. apply emits_Delegation.
  - unfold DelegationList_elements. generalize (dl_dels dl). clear. intros l.
    induction l as [|d l IH]; [done|]. rewrite bind_cons, IH. done.
Qed.

Lemma delegation_decode_element d :
  wf_Delegation d -> is_u64 (zlen (tlvs (Delegation_elements d))) ->
  delegation_decode (element_of (Delegation_element d)) = Ok d.
Proof.
  intros [Hp Hn] Hl. unfold delegation_decode.
  assert (E : parse (element_of (Delegation_element d)) =
              Ok (map (fun '(t, v) => element t v) (Delegation_elements d))).
  { apply parse_element_tlvs; [by repeat constructor|done]. }
  rewrite E. change (negb (block_type _ =? tlv_LinkDelegation)) with false.
  unfold Delegation_elements at 1. cbn [mbind result_bind map].
  change (negb (block_type (element tlv_LinkPreference _) =? tlv_LinkPreference)) with false. cbv iota.
  rewrite block_readNonNegativeInteger_element by done. cbn [mbind result_bind].
  change (negb (block_type (element tlv_Name _) =? tlv_Name)) with false. cbv iota.
  rewrite Name_wireDecode_element; [by destruct d|done|].
  eapply tlvs_elem_u64; [|exact Hl]. right. left.
Qed.

(** The list that decoding builds, sorted or as it comes. *)
Definition dl_decoded (wantSort : bool) (dels : list Delegation) : DelegationList :=
  foldl (fun dl d => insertImpl (del_preference d) (del_name d) dl) (mkDelegationList wantSort []) dels.

Lemma delegations_decode_elements dels dl :
  Forall wf_Delegation dels -> is_u64 (zlen (tlvs (Delegation_element <$> dels))) ->
  delegations_decode (element_of ∘ Delegation_element <$> dels) dl =
  Ok (foldl (fun dl d => insertImpl (del_preference d) (del_name d) dl) dl dels).
Proof.
  revert dl. induction dels as [|d dels IH]; intros dl Hw Hl; [done|].
  apply Forall_cons in Hw as [Hd Hw]. cbn [delegations_decode fmap list_fmap foldl].
  rewrite fmap_cons in Hl. unfold Delegation_element at 1 in Hl. rewrite tlvs_cons, zlen_app in Hl.
  pose proof (zlen_nonneg (tlvs (Delegation_element <$> dels))).
  pose proof (zlen_tlv_value tlv_LinkDelegation (tlvs (Delegation_elements d))).
  pose proof (zlen_nonneg (tlvs (Delegation_elements d))).
  change ((element_of ∘ Delegation_element) d) with (element_of (Delegation_element d)).
  rewrite delegation_decode_element by (done || (unfold is_u64 in *; lia)).
  cbn [mbind result_bind]. apply IH; [done|]. unfold is_u64 in *. lia.
Qed.

Lemma foldl_insertImpl_length dels dl :
  length (dl_dels (foldl (fun dl d => insertImpl (del_preference d) (del_name d) dl) dl dels)) =
  (length (dl_dels dl) + length dels)%nat.
Proof.
  revert dl. induction dels as [|d dels IH]; intros dl; cbn; [lia|]. rewrite IH. unfold insertImpl.
  destruct (dl_isSorted dl); cbn; [rewrite insert_upper_bound_perm; cbn; lia|rewrite length_app; cbn; lia].
Qed.

Lemma DelegationList_wireDecode_element wantSort dl :
  dl_dels dl <> [] -> Forall wf_Delegation (dl_dels dl) -> is_u64 (zlen (tlvs (DelegationList_elements dl))) ->
  DelegationList_wireDecode (element tlv_ForwardingHint (tlvs (DelegationList_elements dl))) wantSort =
  Ok (dl_decoded wantSort (dl_dels dl)).
Proof.
  intros Hne Hw Hl. unfold DelegationList_wireDecode.
  change (negb (isValidTlvType (block_type (element tlv_ForwardingHint _)))) with false. cbv iota.
  rewrite parse_element_tlvs; [|unfold DelegationList_elements; by apply Forall_fmap, Forall_forall|done].
  cbn [mbind result_bind]. rewrite map_element_of. unfold DelegationList_elements.
  rewrite <- list_fmap_compose, delegations_decode_elements by done. cbn [mbind result_bind].
  rewrite (proj2 (Z.eqb_neq _ _)); [done|]. unfold zlen. rewrite foldl_insertImpl_length.
  destruct (dl_dels dl); [done|]. cbn. lia.
Qed.

(** Without sorting, or when the delegations are in order, decoding gives them back. *)
Lemma dl_decoded_same wantSort dels :
  (wantSort = true -> ordered dels) -> dl_decoded wantSort dels = mkDelegationList wantSort dels.
Proof.
  unfold dl_decoded. intros Ho.
  assert (H : forall acc, (wantSort = true -> ordered dels /\
      Forall (fun d => Forall (fun x => delegation_ltb d x = false) acc) dels) ->
    foldl (fun dl d => insertImpl (del_preference d) (del_name d) dl) (mkDelegationList wantSort acc) dels =
    mkDelegationList wantSort (acc ++ dels)).
  { clear Ho. induction dels as [|[p n] dels IH]; intros acc Ha; cbn [foldl]; [by rewrite app_nil_r|].
    replace (insertImpl _ _ _) with (mkDelegationList wantSort (acc ++ [mkDelegation p n])).
    - rewrite IH; [by rewrite <- app_assoc|]. intros Hs. destruct (Ha Hs) as [[Ho1 Ho2] Hf].
      apply Forall_cons in Hf as [_ Hf]. split; [done|]. rewrite Forall_forall in Ho1, Hf |- *.
      intros d Hd. apply Forall_app. split; [by apply Hf|]. constructor; [by apply Ho1|constructor].
    - unfold insertImpl. cbn. destruct wantSort; cbn; [|done].
      destruct (Ha eq_refl) as [_ [Hf _]%Forall_cons]. by rewrite insert_upper_bound_greatest. }
  apply (H []). intros Hs. split; [by apply Ho|]. apply Forall_forall. constructor.
Qed.

Lemma caught_delegation_decode b : caught (delegation_decode b).
Proof. unfold delegation_decode. caught_solve. Qed.
#[export] Hint Resolve caught_delegation_decode : valdb.
Lemma caught_delegations_decode els dl : caught (delegations_decode els dl).
Proof. revert dl. induction els as [|b els IH]; intros dl; cbn; caught_solve. Qed.
#[export] Hint Resolve caught_delegations_decode : valdb.
Lemma caught_DelegationList_wireDecode b w : caught (DelegationList_wireDecode b w).
Proof. unfold DelegationList_wireDecode. caught_solve. Qed.
#[export] Hint Resolve caught_DelegationList_wireDecode : valdb.
