(* ===== verification/Data.v ===== *)
(** * Data packets (ndn-cxx/meta-info.cpp, data.cpp, prefix-announcement.cpp,
      security/validity-period.cpp)

    MetaInfo and Data with their encodings, the full name, and the prefix announcement
    that a Data packet may carry.  SHA-256 and the parser of ISO dates are not part of the
    repository; they are arguments of the definitions that use them. *)

From stdpp Require Import base list strings sets.
From Stdlib Require Import Strings.Byte ZArith Lia.
From S2P Require Import Prelude Tlv Encoder Block Codec Ndn NameTlv Signature Exclude Selectors.

Local Open Scope Z_scope.

(** ** MetaInfo *)

Record MetaInfo := mkMetaInfo {
  mi_type : Z;
  mi_freshnessPeriod : Z;
  mi_finalBlockId : option Component;
  mi_appMetaInfo : list Block;
  mi_wire : option Block;
}.
Definition DEFAULT_FRESHNESS_PERIOD : Z := 0.
Definition MetaInfo_new : MetaInfo := mkMetaInfo ContentType_Blob DEFAULT_FRESHNESS_PERIOD None [] None.

Definition setType (type : Z) (m : MetaInfo) : MetaInfo :=
  mkMetaInfo type (mi_freshnessPeriod m) (mi_finalBlockId m) (mi_appMetaInfo m) None.
Definition setFreshnessPeriod (period : Z) (m : MetaInfo) : result MetaInfo :=
  if period <? 0 then Err (InvalidArgument "FreshnessPeriod must be >= 0")
  else Ok (mkMetaInfo (mi_type m) period (mi_finalBlockId m) (mi_appMetaInfo m) None).
Definition setFinalBlock (id : option Component) (m : MetaInfo) : MetaInfo :=
  mkMetaInfo (mi_type m) (mi_freshnessPeriod m) id (mi_appMetaInfo m) None.
Definition app_type (b : Block) : bool := (128 <=? block_type b) && (block_type b <=? 252).
Definition setAppMetaInfo (info : list Block) (m : MetaInfo) : result MetaInfo :=
  if negb (forallb app_type info)
  then Err (TlvError "AppMetaInfo block has type outside the application range [128, 252]")
  else Ok (mkMetaInfo (mi_type m) (mi_freshnessPeriod m) (mi_finalBlockId m) info None).
Definition addAppMetaInfo (block : Block) (m : MetaInfo) : result MetaInfo :=
  if negb (app_type block)
  then Err (TlvError "AppMetaInfo block has type outside the application range [128, 252]")
  else Ok (mkMetaInfo (mi_type m) (mi_freshnessPeriod m) (mi_finalBlockId m)
             (mi_appMetaInfo m ++ [block]) None).
Definition removeAppMetaInfo (tlvType : Z) (m : MetaInfo) : bool * MetaInfo :=
  let hit b := block_type b =? tlvType in
  match find_first hit (mi_appMetaInfo m) with
  | Some _ => (true, mkMetaInfo (mi_type m) (mi_freshnessPeriod m) (mi_finalBlockId m)
                       (erase_first hit (mi_appMetaInfo m)) None)
  | None => (false, m)
  end.
Definition findAppMetaInfo (tlvType : Z) (m : MetaInfo) : option Block :=
  find_first (fun b => block_type b =? tlvType) (mi_appMetaInfo m).

Definition MetaInfo_encode `{EncodingImpl E} (m : MetaInfo) : E -> Z * E :=
  prependElement tlv_MetaInfo (prependAll [
    prependAll (prependBlock <$> reverse (mi_appMetaInfo m));
    match mi_finalBlockId m with
    | Some c => prependNestedBlock tlv_FinalBlockId (Component_encode c)
    | None => prependNothing
    end;
    prependIf (negb (mi_freshnessPeriod m =? DEFAULT_FRESHNESS_PERIOD))
      (prependNonNegativeIntegerBlock tlv_FreshnessPeriod (u64 (mi_freshnessPeriod m)));
    prependIf (negb (mi_type m =? ContentType_Blob))
      (prependNonNegativeIntegerBlock tlv_ContentType (mi_type m))]).

Definition MetaInfo_wireEncode (m : MetaInfo) : result Block :=
  match mi_wire m with
  | Some wire => Ok wire
  | None => encodeBlock (MetaInfo_encode m) (MetaInfo_encode m)
  end.

(** An element at the front that may be missing: its value and the elements after it. *)
Definition take_element {A} (type : Z) (els : list Block) (d : A) (decode : Block -> result A)
  : result (A * list Block) :=
  match els with
  | val :: rest =>
    if block_type val =? type then let* v := decode val in Ok (v, rest) else Ok (d, els)
  | [] => Ok (d, els)
  end.

(** [MetaInfo::wireDecode]: the application elements are added to those the object has. *)
Definition MetaInfo_wireDecode (wire : Block) (m : MetaInfo) : result MetaInfo :=
  let* els := parse wire in
  let* (type, els) := take_element tlv_ContentType els ContentType_Blob
                        (readNonNegativeIntegerAs uint32_max) in
  let* (freshness, els) := take_element tlv_FreshnessPeriod els DEFAULT_FRESHNESS_PERIOD
    (fun b => let* n := block_readNonNegativeInteger b in Ok (i64 n)) in
  let* (finalBlockId, els) := take_element tlv_FinalBlockId els None
    (fun b => let* inner := blockFromValue b in let* c := Component_ofBlock inner in Ok (Some c)) in
  Ok (mkMetaInfo type freshness finalBlockId (mi_appMetaInfo m ++ els) (Some wire)).

(** ** Data *)

(** [m_fullName] is not kept: [getFullName] computes the same name again as long as the
    wire encoding is there, and every reset of the one clears the other. *)
Record Data := mkData {
  d_name : Name;
  d_metaInfo : MetaInfo;
  d_content : Block;
  d_signature : Signature;
  d_wire : option Block;
  d_tags : Tags;
}.
Definition Data_new (name : Name) : Data :=
  mkData name MetaInfo_new (Block_ofType tlv_Content) Signature_new None no_tags.

(** [Data::getContent]: encoded on demand. *)
Definition getContent (d : Data) : Block :=
  if hasWire (d_content d) then d_content d else reencoded (d_content d).

Definition Data_encode (d : Data) (wantUnsignedPortionOnly : bool) : Template := fun E _ =>
  let* signatureValue :=
    if negb wantUnsignedPortionOnly then
      if negb (Signature_valid (d_signature d))
      then Err (TlvError "Requested wire format, but Data has not been signed")
      else Ok (prependBlock (sig_value (d_signature d)))
    else Ok prependNothing in
  let* info := Signature_getInfo (d_signature d) in
  let body := prependAll [
    signatureValue;
    prependBlock info;
    prependBlock (getContent d);
    MetaInfo_encode (d_metaInfo d);
    Name_encode (d_name d)] in
  Ok (if negb wantUnsignedPortionOnly then prependElement tlv_Data body else body).

(** The state of the loop of [wireDecode]: [lastElement] and the fields. *)
Definition data_decode_element (element : Block) (st : Z * (MetaInfo * Block * Signature))
  : result (Z * (MetaInfo * Block * Signature)) :=
  let '(lastElement, (metaInfo, content, signature)) := st in
  let type := block_type element in
  if type =? tlv_MetaInfo then
    if lastElement >=? 2 then Err (TlvError "MetaInfo element is out of order")
    else let* m := MetaInfo_wireDecode element metaInfo in Ok (2, (m, content, signature))
  else if type =? tlv_Content then
    if lastElement >=? 3 then Err (TlvError "Content element is out of order")
    else Ok (3, (metaInfo, element, signature))
  else if type =? tlv_SignatureInfo then
    if lastElement >=? 4 then Err (TlvError "SignatureInfo element is out of order")
    else let* s := Signature_setInfo element signature in Ok (4, (metaInfo, content, s))
  else if type =? tlv_SignatureValue then
    if lastElement >=? 5 then Err (TlvError "SignatureValue element is out of order")
    else let* s := Signature_setValue element signature in Ok (5, (metaInfo, content, s))
  else if isCriticalType type then Err (TlvError "unrecognized element of critical type")
  else Ok st.

Fixpoint data_decode_loop (els : list Block) (st : Z * (MetaInfo * Block * Signature))
  : result (Z * (MetaInfo * Block * Signature)) :=
  match els with
  | [] => Ok st
  | element :: els => let* st := data_decode_element element st in data_decode_loop els st
  end.

(** [Data::wireDecode]; note that the type of the outer element is not checked. *)
Definition Data_wireDecode (wire : Block) (d : Data) : result Data :=
  let* els := parse wire in
  match els with
  | element :: els =>
    if negb (block_type element =? tlv_Name)
    then Err (TlvError "Name element is missing or out of order")
    else
      let* name := Name_wireDecode element in
      let* (_, (metaInfo, content, signature)) :=
        data_decode_loop els (1, (MetaInfo_new, Block_ofType tlv_Content, Signature_new)) in
      if negb (Signature_valid signature) then Err (TlvError "SignatureInfo element is missing")
      else Ok (mkData name metaInfo content signature (Some wire) (d_tags d))
  | [] => Err (TlvError "Name element is missing or out of order")
  end.
Definition Data_ofWire (wire : Block) : result Data := Data_wireDecode wire (Data_new []).

(** [Data::wireEncode() const]: the object is decoded from what was encoded. *)
Definition Data_wireEncode (d : Data) : result (Block * Data) :=
  match d_wire d with
  | Some wire => Ok (wire, d)
  | None =>
    let* wire := encodeWire (Data_encode d false) in
    let* d' := Data_wireDecode wire d in
    Ok (wire, d')
  end.

(** [Data::getFullName]; [computeDigest] is [util::Sha256::computeDigest]. *)
Definition getFullName (computeDigest : octets -> octets) (d : Data) : result Name :=
  match d_wire d with
  | None => Err (TlvError "Cannot compute full name because Data has no wire encoding (not signed)")
  | Some wire =>
    let* digest :=
      Component_ofBlock (Block_ofValue ImplicitSha256DigestComponent (computeDigest (block_wire wire))) in
    Ok (d_name d ++ [digest])
  end.

(** *** Setters: each resets the wire encoding *)

Definition data_setName (name : Name) (d : Data) : Data :=
  mkData name (d_metaInfo d) (d_content d) (d_signature d) None (d_tags d).
Definition setMetaInfo (m : MetaInfo) (d : Data) : Data :=
  mkData (d_name d) m (d_content d) (d_signature d) None (d_tags d).
(** A block of another type becomes the value of the content; it must have wire. *)
Definition setContent (block : Block) (d : Data) : result Data :=
  if block_type block =? tlv_Content
  then Ok (mkData (d_name d) (d_metaInfo d) block (d_signature d) None (d_tags d))
  else if hasWire block
  then Ok (mkData (d_name d) (d_metaInfo d) (Block_ofValue tlv_Content (block_wire block))
             (d_signature d) None (d_tags d))
  else Err (TlvError "Underlying wire buffer is empty").
Definition setContent_buffer (value : octets) (d : Data) : result Data :=
  let* b := makeBinaryBlock tlv_Content value in
  Ok (mkData (d_name d) (d_metaInfo d) b (d_signature d) None (d_tags d)).
Definition setSignature (s : Signature) (d : Data) : Data :=
  mkData (d_name d) (d_metaInfo d) (d_content d) s None (d_tags d).
Definition setSignatureValue (value : Block) (d : Data) : result Data :=
  let* s := Signature_setValue value (d_signature d) in Ok (setSignature s d).
Definition setContentType (type : Z) (d : Data) : Data := setMetaInfo (setType type (d_metaInfo d)) d.
Definition data_setFreshnessPeriod (period : Z) (d : Data) : result Data :=
  let* m := setFreshnessPeriod period (d_metaInfo d) in Ok (setMetaInfo m d).

Definition getSignature : Data -> Signature := d_signature.
Definition data_setTag (f : Tags -> Tags) (d : Data) : Data :=
  mkData (d_name d) (d_metaInfo d) (d_content d) (d_signature d) (d_wire d) (f (d_tags d)).

(** ** Prefix announcements *)

Definition ISO_DATETIME_SIZE : Z := 15.
Definition KEYWORD_PA_COMP : Component := mkComponent 32 [x50; x41].

Section announcements.
(** [time::fromIsoString], which parses with Boost. *)
Variable fromIsoString : octets -> result Z.

Definition ValidityPeriod_wireDecode (wire : Block) : result (Z * Z) :=
  if negb (hasWire wire) then Err (TlvError "The supplied block does not contain wire format")
  else
    let* els := parse wire in
    if negb (block_type wire =? tlv_ValidityPeriod)
    then Err (TlvError "Unexpected TLV type when decoding ValidityPeriod")
    else
      match els with
      | [notBefore; notAfter] =>
        if negb (block_type notBefore =? tlv_NotBefore) ||
           negb (block_value_size notBefore =? ISO_DATETIME_SIZE) ||
           negb (block_type notAfter =? tlv_NotAfter) ||
           negb (block_value_size notAfter =? ISO_DATETIME_SIZE)
        then Err (TlvError "Invalid NotBefore or NotAfter field")
        else
          match let* b := fromIsoString (readString notBefore) in
                let* a := fromIsoString (readString notAfter) in Ok (b, a) with
          | Err (BadCast _) => Err (TlvError "Invalid date format in NOT-BEFORE or NOT-AFTER field")
          | r => r
          end
      | _ => Err (TlvError "Does not have two sub-TLVs")
      end.

Record PrefixAnnouncement := mkPrefixAnnouncement {
  pa_data : Data;
  pa_announcedName : Name;
  pa_expiration : Z;
  pa_validity : option (Z * Z);
}.

(** The structure of the name: keyword, version and segment at the end. *)
Definition announcement_name (n : Name) : bool :=
  negb (name_size n <? 3) &&
  match name_at (-3) n, name_at (-2) n, name_at (-1) n with
  | Ok kw, Ok version, Ok segment =>
    Component_equals kw KEYWORD_PA_COMP && isVersion version && isSegment segment
  | _, _, _ => false
  end.

Definition unrecognized (element : Block) : bool :=
  negb (block_type element =? tlv_nfd_ExpirationPeriod) &&
  negb (block_type element =? tlv_ValidityPeriod) && isCriticalType (block_type element).

(** [PrefixAnnouncement(Data)] *)
Definition PrefixAnnouncement_new (data : Data) : result PrefixAnnouncement :=
  if negb (mi_type (d_metaInfo data) =? ContentType_PrefixAnn)
  then Err (TlvError "Data is not a prefix announcement: ContentType")
  else if negb (announcement_name (d_name data))
  then Err (TlvError "Data is not a prefix announcement: wrong name structure")
  else
    let* els := parse (getContent data) in
    let* e := block_get tlv_nfd_ExpirationPeriod els in
    let* expiration := block_readNonNegativeInteger e in
    let* validity :=
      match block_find tlv_ValidityPeriod els with
      | Some b => let* v := ValidityPeriod_wireDecode b in Ok (Some v)
      | None => Ok None
      end in
    if existsb unrecognized els then Err (TlvError "unrecognized element of critical type")
    else Ok (mkPrefixAnnouncement data (getPrefix (-3) (d_name data)) (i64 expiration) validity).
End announcements.

(** ** Round trip *)

Definition MetaInfo_elements (m : MetaInfo) : list (Z * octets) :=
  opt_element (negb (mi_type m =? ContentType_Blob)) (tlv_ContentType, nonneg_integer (mi_type m)) ++
  opt_element (negb (mi_freshnessPeriod m =? DEFAULT_FRESHNESS_PERIOD))
    (tlv_FreshnessPeriod, nonneg_integer (mi_freshnessPeriod m)) ++
  match mi_finalBlockId m with
  | Some c => [(tlv_FinalBlockId, tlv (nc_type c) (nc_value c))]
  | None => []
  end ++ (type_value <$> mi_appMetaInfo m).

(** A MetaInfo of the setters: its numbers have their widths, the final block is a valid
    component, and the application elements have application types. *)
Record wf_MetaInfo (m : MetaInfo) : Prop := {
  wm_type : is_u32 (mi_type m);
  wm_freshness : 0 <= mi_freshnessPeriod m < 2 ^ 63;
  wm_final : forall c, mi_finalBlockId m = Some c -> ensureValid c = Ok tt;
  wm_app : Forall (fun b => canonical b /\ app_type b = true) (mi_appMetaInfo m);
}.

Lemma emits_MetaInfo `{EncodingOk E} m :
  wf_MetaInfo m -> emits (MetaInfo_encode m) (tlv tlv_MetaInfo (tlvs (MetaInfo_elements m))).
Proof.
  intros [Ht Hf Hc Ha]. apply emits_prependElement. eapply emits_prependAll_eq.
  - repeat (apply Forall2_cons; split); [| | | |constructor].
    + apply emits_blocks. eapply Forall_impl; [exact Ha|]. intros b [Hb Hat]. split; [done|].
      unfold app_type in Hat. zbool. unfold is_u32. lia.
    + instantiate (1 := tlvs match mi_finalBlockId m with
        | Some c => [(tlv_FinalBlockId, tlv (nc_type c) (nc_value c))] | None => [] end).
      destruct (mi_finalBlockId m) as [c|]; [|apply emits_nothing].
      rewrite tlvs_singleton. apply emits_prependElement, emits_Component.
    + apply emits_if. intros _. apply emits_prependNonNegativeIntegerBlock.
    + apply emits_if. intros _. apply emits_prependNonNegativeIntegerBlock.
  - unfold MetaInfo_elements. rewrite !tlvs_app, !(tlvs_opt _ tlv_ContentType),
      !(tlvs_opt _ tlv_FreshnessPeriod). cbn. rewrite app_nil_r, u64_id; [done|]. unfold is_u64. lia.
Qed.

(** Whatever it holds, a MetaInfo is encoded to some element. *)
Lemma emits_MetaInfo_any `{EncodingOk E} m : exists bs, emits (MetaInfo_encode m) (tlv tlv_MetaInfo bs).
Proof.
  eexists. apply emits_prependElement, emits_prependAll. repeat (apply Forall2_cons; split); [| | | |constructor].
  - apply (emits_prependAll_reverse prependBlock block_octets). intros b _. apply emits_prependBlock.
  - instantiate (1 := match mi_finalBlockId m with
      | Some c => tlv tlv_FinalBlockId (tlv (nc_type c) (nc_value c)) | None => [] end).
    destruct (mi_finalBlockId m); [apply emits_prependElement, emits_Component|apply emits_nothing].
  - apply emits_if. intros _. apply emits_prependNonNegativeIntegerBlock.
  - apply emits_if. intros _. apply emits_prependNonNegativeIntegerBlock.
Qed.

(** What decoding leaves, in an object that had no application elements. *)
Definition MetaInfo_decoded (m : MetaInfo) : MetaInfo :=
  mkMetaInfo (mi_type m) (mi_freshnessPeriod m) (mi_finalBlockId m)
    (element_of ∘ type_value <$> mi_appMetaInfo m)
    (Some (element tlv_MetaInfo (tlvs (MetaInfo_elements m)))).

Lemma take_element_opt {A} type c el rest (d v : A) decode :
  el.1 = type -> (c = true -> decode (element_of el) = Ok v) ->
  Forall (fun b => block_type b <> type) rest ->
  take_element type ((element_of <$> opt_element c el) ++ rest) d decode =
  Ok (if c then v else d, rest).
Proof.
  intros Ht Hd Hr. destruct c; csimpl.
  - rewrite Ht, Z.eqb_refl, Hd by done. done.
  - destruct Hr as [|b rest Hb _]; [done|]. cbn. by rewrite (proj2 (Z.eqb_neq _ _)).
Qed.

Lemma ensureValid_u32 c : ensureValid c = Ok tt -> is_u32 (nc_type c).
Proof.
  unfold ensureValid. destruct (_ || _) eqn:E; [done|]. apply orb_false_iff in E as [E1 E2].
  rewrite Z.gtb_ltb in E2. zbool. unfold is_u32, NameComponentMin, NameComponentMax in *. lia.
Qed.

Lemma blockFromValue_tlv type t v :
  encodable t v -> blockFromValue (element type (tlv t v)) = Ok (element t v).
Proof.
  intros He. destruct (read_tl t v [] He) as [H1 H2]. rewrite !app_nil_r in *.
  unfold blockFromValue. cbn [block_value element]. rewrite H1. cbn [mbind result_bind]. rewrite H2.
  cbn [mbind result_bind]. by rewrite Z.eqb_refl.
Qed.

Lemma MetaInfo_elements_types m :
  wf_MetaInfo m -> Forall (fun el => is_u32 el.1) (MetaInfo_elements m).
Proof.
  intros [_ _ _ Ha]. unfold MetaInfo_elements, opt_element.
  repeat (apply Forall_app; split); [case_match; repeat constructor; done..|].
  apply Forall_fmap. eapply Forall_impl; [exact Ha|]. intros b [_ Hb]. unfold app_type in Hb. zbool.
  cbn. unfold is_u32. lia.
Qed.

(** The FinalBlockId element is read back. *)
Lemma take_final final rest :
  (forall c, final = Some c -> ensureValid c = Ok tt) ->
  (forall c, final = Some c -> is_u64 (zlen (tlv (nc_type c) (nc_value c)))) ->
  Forall (fun b => block_type b <> tlv_FinalBlockId) rest ->
  take_element tlv_FinalBlockId
    ((element_of <$> match final with
       | Some c => [(tlv_FinalBlockId, tlv (nc_type c) (nc_value c))] | None => [] end) ++ rest) None
    (fun b => let* inner := blockFromValue b in let* c := Component_ofBlock inner in Ok (Some c)) =
  Ok (final, rest).
Proof.
  intros Hv Hl Hr. destruct final as [c|]; csimpl.
  - specialize (Hv c eq_refl). specialize (Hl c eq_refl). unfold element_of at 1. cbn [fst snd].
    rewrite blockFromValue_tlv.
    + cbn [mbind result_bind]. unfold Component_ofBlock. cbn [block_type block_value element].
      destruct c as [t v]. cbn [nc_type nc_value]. by rewrite Hv.
    + split; [by apply ensureValid_u32|]. pose proof (zlen_tlv_value (nc_type c) (nc_value c)).
      pose proof (zlen_nonneg (nc_value c)). unfold is_u64 in *. lia.
  - destruct Hr as [|b rest Hb _]; [done|]. cbn. by rewrite (proj2 (Z.eqb_neq _ _)).
Qed.

Lemma MetaInfo_wireDecode_element m m0 :
  wf_MetaInfo m -> mi_appMetaInfo m0 = [] -> is_u64 (zlen (tlvs (MetaInfo_elements m))) ->
  MetaInfo_wireDecode (element tlv_MetaInfo (tlvs (MetaInfo_elements m))) m0 = Ok (MetaInfo_decoded m).
Proof.
  intros Hw Hm0 Hl. unfold MetaInfo_wireDecode, MetaInfo_decoded.
  rewrite parse_element_tlvs; [|by apply MetaInfo_elements_types|done].
  rewrite map_element_of. cbn [mbind result_bind].
  assert (Hfin : forall c, mi_finalBlockId m = Some c -> is_u64 (zlen (tlv (nc_type c) (nc_value c)))).
  { intros c Hc. apply (tlvs_elem_u64 (MetaInfo_elements m) tlv_FinalBlockId); [|exact Hl].
    unfold MetaInfo_elements. rewrite Hc. clear. set_solver. }
  generalize (element tlv_MetaInfo (tlvs (MetaInfo_elements m))). intros w.
  destruct Hw as [Ht Hf Hc Ha]. unfold MetaInfo_elements. rewrite !fmap_app.
  set (app := element_of <$> (type_value <$> mi_appMetaInfo m)).
  assert (Happ : forall t, t < 128 -> Forall (fun b => block_type b <> t) app).
  { intros t Htt. unfold app. rewrite !Forall_fmap. eapply Forall_impl; [exact Ha|]. intros b [_ Hb].
    unfold app_type in Hb. zbool. cbn. lia. }
  assert (Hrest : forall t, t <> tlv_FinalBlockId -> t < 128 -> Forall (fun b => block_type b <> t)
     ((element_of <$> match mi_finalBlockId m with
       | Some c => [(tlv_FinalBlockId, tlv (nc_type c) (nc_value c))] | None => [] end) ++ app)).
  { intros t Htf Htt. apply Forall_app. split; [|by apply Happ]. case_match; repeat constructor. cbn. lia. }
  rewrite (take_element_opt _ _ _ _ _ (mi_type m)); [|done| |].
  2: { intros _. apply readNonNegativeIntegerAs_element; unfold is_u64, is_u32, uint32_max in *; lia. }
  2: { apply Forall_app. split; [|by apply Hrest]. destruct (negb (mi_freshnessPeriod m =? _)); [|constructor].
       constructor; [|constructor]. cbn. unfold tlv_FreshnessPeriod, tlv_ContentType. lia. }
  cbn [mbind result_bind]. rewrite (take_element_opt _ _ _ _ _ (mi_freshnessPeriod m)); [|done| |by apply Hrest].
  2: { intros _. change (element_of (?t, ?v)) with (element t v).
       rewrite block_readNonNegativeInteger_element by (unfold is_u64; lia).
       cbn [mbind result_bind]. by rewrite i64_small. }
  cbn [mbind result_bind]. rewrite take_final by (done || by apply Happ). cbn [mbind result_bind].
  rewrite Hm0. do 2 f_equal.
  - destruct (mi_type m =? ContentType_Blob) eqn:E; zbool; [by rewrite E|done].
  - destruct (mi_freshnessPeriod m =? DEFAULT_FRESHNESS_PERIOD) eqn:E; zbool; [by rewrite E|done].
  - unfold app. by rewrite <- list_fmap_compose.
Qed.

(** *** Data *)

Definition Data_elements (d : Data) : list (Z * octets) :=
  [(tlv_Name, tlvs (name_elements (d_name d)));
   (tlv_MetaInfo, tlvs (MetaInfo_elements (d_metaInfo d)));
   (tlv_Content, block_value (d_content d));
   SignatureInfo_element (sig_info (d_signature d));
   (tlv_SignatureValue, block_value (sig_value (d_signature d)))].

(** A signed Data that the setters make, of an encodable size. *)
Record wf_Data (d : Data) : Prop := {
  wd_name : wf_name (d_name d);
  wd_metaInfo : wf_MetaInfo (d_metaInfo d);
  wd_content : canonical (d_content d) /\ block_type (d_content d) = tlv_Content;
  wd_info : wf_SignatureInfo (sig_info (d_signature d));
  wd_info_wire : si_wire (sig_info (d_signature d)) = None;
  wd_locator : if si_hasKeyLocator (sig_info (d_signature d))
               then kl_wire (si_keyLocator (sig_info (d_signature d))) = None
               else si_keyLocator (sig_info (d_signature d)) = KeyLocator_new;
  wd_value : canonical (sig_value (d_signature d)) /\
             block_type (sig_value (d_signature d)) = tlv_SignatureValue;
  wd_size : is_u64 (zlen (tlvs (Data_elements d)));
}.

(** The fields after decoding: the same, with the blocks they came from. *)
Definition Data_decoded (d : Data) (tags : Tags) : Data :=
  mkData (d_name d) (MetaInfo_decoded (d_metaInfo d)) (element tlv_Content (block_value (d_content d)))
    (mkSignature (SignatureInfo_decoded (sig_info (d_signature d)) SignatureInfo_new)
       (element tlv_SignatureValue (block_value (sig_value (d_signature d)))))
    (Some (element tlv_Data (tlvs (Data_elements d)))) tags.

Lemma SignatureInfo_wireEncode_ok s :
  wf_SignatureInfo s -> si_wire s = None -> is_u64 (zlen (tlvs (SignatureInfo_elements s))) ->
  SignatureInfo_wireEncode s = Ok (element_of (SignatureInfo_element s)).
Proof.
  intros Hw Hn Hl. unfold SignatureInfo_wireEncode. rewrite Hn.
  apply encodeWire_emits; [split; [done|exact Hl]|].
  split; by apply SignatureInfo_encode_ok.
Qed.

Lemma Data_elements_sizes d t v : wf_Data d -> (t, v) ∈ Data_elements d -> is_u64 (zlen v).
Proof. intros Hw Hin. eapply tlvs_elem_u64; [exact Hin|apply Hw]. Qed.

Lemma Data_sizes d :
  wf_Data d ->
  is_u64 (zlen (tlvs (name_elements (d_name d)))) /\
  is_u64 (zlen (tlvs (MetaInfo_elements (d_metaInfo d)))) /\
  is_u64 (zlen (tlvs (SignatureInfo_elements (sig_info (d_signature d))))).
Proof.
  intros Hw. split; [|split].
  - eapply (Data_elements_sizes d tlv_Name); [done|]. left.
  - eapply (Data_elements_sizes d tlv_MetaInfo); [done|]. right. left.
  - eapply (Data_elements_sizes d tlv_SignatureInfo); [done|]. do 3 right. left.
Qed.

Lemma getContent_octets d :
  canonical (d_content d) ->
  block_octets (getContent d) = tlv (block_type (d_content d)) (block_value (d_content d)).
Proof.
  intros Hc. unfold getContent. destruct (hasWire (d_content d)); [by apply block_octets_canonical|].
  by apply (block_octets_canonical (reencoded (d_content d))); right.
Qed.

Lemma Data_encode_ok `{EncodingOk E} d :
  wf_Data d ->
  exists f, Data_encode d false E _ = Ok f /\ emits f (tlv tlv_Data (tlvs (Data_elements d))).
Proof.
  intros Hw. pose proof (Data_sizes d Hw) as (_ & _ & Hs). destruct Hw as [Hn Hm [Hc Hct] Hi Hiw _ [Hv Hvt] _].
  unfold Data_encode. cbn [negb]. unfold Signature_valid.
  rewrite (proj2 (Z.eqb_neq _ _)) by (destruct Hi; lia). cbn [negb mbind result_bind].
  unfold Signature_getInfo. rewrite SignatureInfo_wireEncode_ok by done. cbn [mbind result_bind].
  eexists. split; [done|]. apply emits_prependElement. eapply emits_prependAll_eq.
  - repeat (apply Forall2_cons; split); [| | | | |constructor].
    + apply emits_prependBlock.
    + apply emits_prependBlock.
    + apply emits_prependBlock.
    + by apply emits_MetaInfo.
    + apply emits_Name.
  - rewrite getContent_octets, !block_octets_canonical by (done || apply canonical_element).
    rewrite Hct, Hvt. unfold Data_elements, SignatureInfo_element. rewrite !tlvs_cons. cbn.
    by rewrite !app_nil_r.
Qed.

(** The loop over the elements after the name, one at a time. *)
Lemma data_decode_loop_elements d :
  wf_Data d ->
  data_decode_loop
    [element tlv_MetaInfo (tlvs (MetaInfo_elements (d_metaInfo d)));
     element tlv_Content (block_value (d_content d));
     element_of (SignatureInfo_element (sig_info (d_signature d)));
     element tlv_SignatureValue (block_value (sig_value (d_signature d)))]
    (1, (MetaInfo_new, Block_ofType tlv_Content, Signature_new)) =
  Ok (5, (MetaInfo_decoded (d_metaInfo d), element tlv_Content (block_value (d_content d)),
          mkSignature (SignatureInfo_decoded (sig_info (d_signature d)) SignatureInfo_new)
            (element tlv_SignatureValue (block_value (sig_value (d_signature d)))))).
Proof.
  intros Hw. destruct (Data_sizes d Hw) as (_ & Hs2 & Hs3).
  assert (E1 : data_decode_element (element tlv_MetaInfo (tlvs (MetaInfo_elements (d_metaInfo d))))
      (1, (MetaInfo_new, Block_ofType tlv_Content, Signature_new)) =
      Ok (2, (MetaInfo_decoded (d_metaInfo d), Block_ofType tlv_Content, Signature_new))).
  { unfold data_decode_element. change (block_type (element tlv_MetaInfo _) =? tlv_MetaInfo) with true.
    change (1 >=? 2) with false. cbv iota.
    by rewrite MetaInfo_wireDecode_element by (done || apply Hw). }
  assert (E3 : forall m c, data_decode_element (element_of (SignatureInfo_element (sig_info (d_signature d))))
      (3, (m, c, Signature_new)) =
      Ok (4, (m, c, mkSignature (SignatureInfo_decoded (sig_info (d_signature d)) SignatureInfo_new)
                      Block_default))).
  { intros m c. unfold data_decode_element.
    change (block_type (element_of (SignatureInfo_element _))) with tlv_SignatureInfo.
    change (tlv_SignatureInfo =? tlv_MetaInfo) with false. change (tlv_SignatureInfo =? tlv_Content) with false.
    change (tlv_SignatureInfo =? tlv_SignatureInfo) with true. change (3 >=? 4) with false. cbv iota.
    unfold Signature_setInfo, SignatureInfo_ofBlock.
    by rewrite SignatureInfo_wireDecode_element by (done || apply Hw). }
  cbn [data_decode_loop]. rewrite E1. cbn [mbind result_bind].
  change (data_decode_element (element tlv_Content _) (2, (?m, _, ?s))) with
    (@Ok (Z * (MetaInfo * Block * Signature)) (3, (m, element tlv_Content (block_value (d_content d)), s))).
  cbn [mbind result_bind]. rewrite E3. done.
Qed.

Lemma Data_wireDecode_element d d0 :
  wf_Data d ->
  Data_wireDecode (element tlv_Data (tlvs (Data_elements d))) d0 = Ok (Data_decoded d (d_tags d0)).
Proof.
  intros Hw. unfold Data_wireDecode, Data_decoded. destruct (Data_sizes d Hw) as (Hs1 & _ & _).
  rewrite parse_element_tlvs; [|by repeat constructor|apply Hw]. rewrite map_element_of.
  generalize (element tlv_Data (tlvs (Data_elements d))). intros w.
  unfold Data_elements. cbn [fmap list_fmap mbind result_bind].
  repeat change (element_of (?t, ?v)) with (element t v).
  change (negb (block_type (element tlv_Name _) =? tlv_Name)) with false. cbv iota.
  rewrite Name_wireDecode_element by (done || apply Hw). cbn [mbind result_bind].
  rewrite data_decode_loop_elements by done. cbn [mbind result_bind].
  unfold Signature_valid. cbn [sig_info si_type SignatureInfo_decoded].
  rewrite (proj2 (Z.eqb_neq _ _)) by (destruct (wd_info d Hw); lia). done.
Qed.

Lemma KeyLocator_wireEncode_ok k :
  wf_KeyLocator k -> kl_wire k = None -> is_u64 (zlen (tlvs (KeyLocator_elements k))) ->
  KeyLocator_wireEncode k = Ok (element_of (KeyLocator_element k)).
Proof.
  intros Hw Hn Hl. unfold KeyLocator_wireEncode. rewrite Hn.
  apply encodeWire_emits; [by split|]. split; by apply KeyLocator_encode_ok.
Qed.

(** Decoding yields an equal signature. *)
Lemma Signature_eqb_decoded d :
  wf_Data d -> Signature_eqb (d_signature (Data_decoded d (d_tags d))) (d_signature d) = true.
Proof.
  intros Hw. apply Signature_eqb_spec. unfold sig_key, Data_decoded.
  cbn [d_signature sig_info sig_value SignatureInfo_decoded si_type si_hasKeyLocator si_keyLocator si_otherTlvs].
  destruct (Data_sizes d Hw) as (_ & _ & Hs). destruct Hw as [_ _ _ Hi _ Hk [_ Hv] _].
  rewrite !pair_equal_spec. repeat split.
  - destruct (si_hasKeyLocator _) eqn:E; [|by rewrite Hk].
    rewrite (KeyLocator_wireEncode_ok (si_keyLocator (sig_info (d_signature d))));
      [done|by apply Hi|done|].
    apply (tlvs_elem_u64 (SignatureInfo_elements (sig_info (d_signature d))) tlv_KeyLocator);
      [|exact Hs].
    unfold SignatureInfo_elements. rewrite E. right. left.
  - rewrite <- list_fmap_compose. by apply list_fmap_ext.
  - unfold type_value. cbn. by rewrite Hv.
Qed.

(** *** Malformed input *)

Lemma caught_take_element {A} type els (d : A) decode :
  (forall b, caught (decode b)) -> caught (take_element type els d decode).
Proof. intros H. unfold take_element. destruct els; [done|]. case_match; [|done]. by apply caught_bind_all. Qed.

Lemma caught_MetaInfo_wireDecode wire m : caught (MetaInfo_wireDecode wire m).
Proof.
  unfold MetaInfo_wireDecode. apply caught_bind_all; [auto with valdb|]. intros els.
  apply caught_bind_all; [apply caught_take_element; auto with valdb|]. intros [t els1].
  apply caught_bind_all; [apply caught_take_element; intros b; caught_solve|]. intros [f els2].
  apply caught_bind_all; [apply caught_take_element; intros b; caught_solve|]. by intros [c els3].
Qed.
#[export] Hint Resolve caught_MetaInfo_wireDecode : valdb.

Lemma caught_data_decode_element el st : caught (data_decode_element el st).
Proof. unfold data_decode_element. destruct st as [l [[m c] s]]. caught_solve. Qed.
#[export] Hint Resolve caught_data_decode_element : valdb.
Lemma caught_data_decode_loop els st : caught (data_decode_loop els st).
Proof. revert st. induction els as [|el els IH]; intros st; cbn; caught_solve. Qed.
#[export] Hint Resolve caught_data_decode_loop : valdb.
Lemma caught_Data_wireDecode wire d : caught (Data_wireDecode wire d).
Proof. unfold Data_wireDecode. caught_solve. Qed.
#[export] Hint Resolve caught_Data_wireDecode : valdb.

(** ** Properties *)

(** Encoding a signed Data made by its setters succeeds and yields one canonical
    element; decoding that element gives a Data with the same name, content type,
    freshness period, final block, application elements, content and signature, and the
    encoded object itself becomes that Data, keeping its tags. *)
Theorem Data_roundtrip (d : Data) (Hw : wf_Data d) (Hn : d_wire d = None) :
  exists wire d',
    Data_wireEncode d = Ok (wire, d') /\
    wire = element tlv_Data (tlvs (Data_elements d)) /\
    Data_ofWire wire = Ok (data_setTag (fun _ => no_tags) d') /\
    d_wire d' = Some wire /\ d_tags d' = d_tags d /\ d_name d' = d_name d /\
    mi_type (d_metaInfo d') = mi_type (d_metaInfo d) /\
    mi_freshnessPeriod (d_metaInfo d') = mi_freshnessPeriod (d_metaInfo d) /\
    mi_finalBlockId (d_metaInfo d') = mi_finalBlockId (d_metaInfo d) /\
    blocks_eqb (mi_appMetaInfo (d_metaInfo d')) (mi_appMetaInfo (d_metaInfo d)) = true /\
    Block_eqb (getContent d') (getContent d) = true /\
    Signature_eqb (d_signature d') (d_signature d) = true.
Proof.
  eexists _, (Data_decoded d (d_tags d)). split.
  { unfold Data_wireEncode. rewrite Hn.
    rewrite (encodeWire_emits _ tlv_Data (tlvs (Data_elements d))).
    - cbn [mbind result_bind]. by rewrite Data_wireDecode_element.
    - split; [done|apply Hw].
    - split; by apply Data_encode_ok. }
  split; [done|]. split; [by apply Data_wireDecode_element|]. repeat (split; [done|]).
  split; [|split; [|by apply Signature_eqb_decoded]].
  - apply blocks_eqb_spec. cbn. rewrite <- list_fmap_compose. by apply list_fmap_ext.
  - apply Block_eqb_type_value. destruct Hw as [_ _ [Hc Ht] _ _ _ _ _]. unfold getContent, type_value.
    destruct (hasWire (d_content d)) eqn:E; cbn [Data_decoded d_content].
    + case_match; cbn; by rewrite Ht.
    + case_match; cbn; by rewrite Ht.
Qed.

Definition sample_data : Data :=
  mkData [mkComponent 8 (str "a"); mkComponent 8 (str "b")]
    (mkMetaInfo 0 4000 (Some (mkComponent 8 (str "z"))) [] None)
    (Block_ofValue tlv_Content (str "hello"))
    (mkSignature (SignatureInfo_ofTypeLocator 1 (KeyLocator_setName [mkComponent 8 (str "K")] KeyLocator_new))
       (Block_ofValue tlv_SignatureValue [x01; x02])) None no_tags.

Lemma sample_data_wf : wf_Data sample_data.
Proof.
  split.
  - repeat constructor; by vm_compute.
  - split; [by vm_compute|by vm_compute|by intros c [= <-]|constructor].
  - split; [by left|done].
  - split; [by vm_compute| |constructor|done]. intros _. repeat constructor; by vm_compute.
  - done.
  - done.
  - split; [by left|done].
  - by vm_compute.
Qed.

Lemma Data_roundtrip_witness :
  exists wire d', Data_wireEncode sample_data = Ok (wire, d') /\ d_name d' = d_name sample_data /\
    Signature_eqb (d_signature d') (d_signature sample_data) = true.
Proof.
  destruct (Data_roundtrip sample_data sample_data_wf eq_refl)
    as (w & d' & H1 & _ & _ & _ & _ & H2 & _ & _ & _ & _ & _ & H3).
  exists w, d'. split; [exact H1|]. split; [exact H2|exact H3].
Defined.
