(* ===== verification/Interest.v ===== *)
(** * Interest packets (ndn-cxx/interest.cpp, interest.hpp)

    The Interest with both packet formats: [encode02] and [decode02] for format 0.2 with
    Selectors, [encode03] and [decode03] for format 0.3, which is used as soon as the
    Interest has parameters and is tried when format 0.2 does not fit.  Matching against
    names, Data and other Interests. *)

From stdpp Require Import base list strings sets.
From Stdlib Require Import Strings.Byte ZArith Lia.
From S2P Require Import Prelude Tlv Encoder Block Codec Ndn NameTlv Signature Exclude Selectors Data.

Local Open Scope Z_scope.

(** [m_nonce] is optional: while [i_hasNonce] is false, [i_nonce] is the word that
    [random::generateWord32] will return to the first [getNonce], which stores it.
    [m_isCanBePrefixSet] only controls a warning and is left out. *)
Record Interest := mkInterest {
  i_name : Name;
  i_selectors : Selectors;
  i_hasNonce : bool;
  i_nonce : Z;
  i_interestLifetime : Z;          (* milliseconds, a signed 64-bit count *)
  i_forwardingHint : DelegationList;
  i_parameters : Block;
  i_wire : option Block;
  i_tags : Tags;
}.
Definition DEFAULT_INTEREST_LIFETIME : Z := 4000.

(** [Interest(const Name&, time::milliseconds)] with CanBePrefix left undecided; [word] is
    what the random generator will return. *)
Definition Interest_new (word : Z) (name : Name) (lifetime : Z) : result Interest :=
  if lifetime <? 0 then Err (InvalidArgument "InterestLifetime must be >= 0")
  else Ok (mkInterest name Selectors_new false word lifetime DelegationList_new Block_default
             None no_tags).

(** ** Field access *)

Definition getNonce : Interest -> Z := i_nonce.
Definition getCanBePrefix (i : Interest) : bool := negb (sel_maxSuffixComponents (i_selectors i) =? 1).
Definition getMustBeFresh (i : Interest) : bool := sel_mustBeFresh (i_selectors i).
Definition hasParameters (i : Interest) : bool := negb (block_empty (i_parameters i)).

Definition setSelectors (s : Selectors) (i : Interest) : Interest :=
  mkInterest (i_name i) s (i_hasNonce i) (i_nonce i) (i_interestLifetime i)
    (i_forwardingHint i) (i_parameters i) None (i_tags i).
Definition setName (name : Name) (i : Interest) : Interest :=
  mkInterest name (i_selectors i) (i_hasNonce i) (i_nonce i) (i_interestLifetime i)
    (i_forwardingHint i) (i_parameters i) None (i_tags i).
Definition setCanBePrefix (canBePrefix : bool) (i : Interest) : Interest :=
  setSelectors (setMaxSuffixComponents (if canBePrefix then -1 else 1) (i_selectors i)) i.
Definition interest_setMustBeFresh (v : bool) (i : Interest) : Interest :=
  setSelectors (setMustBeFresh v (i_selectors i)) i.
Definition setNonce (nonce : Z) (i : Interest) : Interest :=
  mkInterest (i_name i) (i_selectors i) true nonce (i_interestLifetime i)
    (i_forwardingHint i) (i_parameters i) None (i_tags i).
Definition setInterestLifetime (lifetime : Z) (i : Interest) : result Interest :=
  if lifetime <? 0 then Err (InvalidArgument "InterestLifetime must be >= 0")
  else Ok (mkInterest (i_name i) (i_selectors i) (i_hasNonce i) (i_nonce i) lifetime
             (i_forwardingHint i) (i_parameters i) None (i_tags i)).
Definition setForwardingHint (value : DelegationList) (i : Interest) : Interest :=
  mkInterest (i_name i) (i_selectors i) (i_hasNonce i) (i_nonce i) (i_interestLifetime i)
    value (i_parameters i) None (i_tags i).
Definition with_parameters (parameters : Block) (i : Interest) : Interest :=
  mkInterest (i_name i) (i_selectors i) (i_hasNonce i) (i_nonce i) (i_interestLifetime i)
    (i_forwardingHint i) parameters None (i_tags i).
(** A block of another type becomes the value of the parameters; it must have wire. *)
Definition setParameters (parameters : Block) (i : Interest) : result Interest :=
  if block_type parameters =? tlv_Parameters then Ok (with_parameters parameters i)
  else if hasWire parameters
  then Ok (with_parameters (Block_ofValue tlv_Parameters (block_wire parameters)) i)
  else Err (TlvError "Underlying wire buffer is empty").
Definition setParameters_buffer (buffer : octets) (i : Interest) : result Interest :=
  let* b := makeBinaryBlock tlv_Parameters buffer in Ok (with_parameters b i).
Definition unsetParameters (i : Interest) : Interest := with_parameters Block_default i.

(** [refreshNonce]: words from the generator until one differs from the nonce. *)
Fixpoint fresh_nonce (oldNonce : Z) (words : list Z) : result Z :=
  match words with
  | [] => Err OutOfFuel
  | w :: words => if w =? oldNonce then fresh_nonce oldNonce words else Ok w
  end.
Definition refreshNonce (words : list Z) (i : Interest) : result Interest :=
  if negb (i_hasNonce i) then Ok i
  else let* n := fresh_nonce (getNonce i) words in Ok (setNonce n i).

Definition interest_setTag (f : Tags -> Tags) (i : Interest) : Interest :=
  mkInterest (i_name i) (i_selectors i) (i_hasNonce i) (i_nonce i) (i_interestLifetime i)
    (i_forwardingHint i) (i_parameters i) (i_wire i) (f (i_tags i)).

(** ** Encoding *)

(** The nonce is copied as it lies in memory, on a little-endian host. *)
Definition nonce_octets (nonce : Z) : octets := reverse (be_bytes 4 nonce).
Definition nonce_of_octets (bs : octets) : Z := be_value (reverse bs).

Definition prependLifetime `{EncodingImpl E} (i : Interest) : E -> Z * E :=
  prependIf (negb (i_interestLifetime i =? DEFAULT_INTEREST_LIFETIME))
    (prependNonNegativeIntegerBlock tlv_InterestLifetime (u64 (i_interestLifetime i))).
Definition encodeForwardingHint (i : Interest) : Template := fun E _ =>
  if zlen (dl_dels (i_forwardingHint i)) >? 0
  then DelegationList_encode tlv_ForwardingHint (i_forwardingHint i) E _ else Ok prependNothing.

Definition encode02 (i : Interest) : Template := fun E _ =>
  let* forwardingHint := encodeForwardingHint i E _ in
  let* selectors :=
    if negb (Selectors_empty (i_selectors i)) then Selectors_encode (i_selectors i) E _
    else Ok prependNothing in
  Ok (prependElement tlv_Interest (prependAll [
    forwardingHint;
    prependLifetime i;
    prependByteArrayBlock tlv_Nonce (nonce_octets (getNonce i));
    selectors;
    Name_encode (i_name i)])).

Definition encode03 (i : Interest) : Template := fun E _ =>
  let* forwardingHint := encodeForwardingHint i E _ in
  Ok (prependElement tlv_Interest (prependAll [
    prependIf (hasParameters i) (prependBlock (i_parameters i));
    prependLifetime i;
    prependByteArrayBlock tlv_Nonce (nonce_octets (getNonce i));
    forwardingHint;
    prependIf (getMustBeFresh i) (prependEmptyBlock tlv_MustBeFresh);
    prependIf (getCanBePrefix i) (prependEmptyBlock tlv_CanBePrefix);
    Name_encode (i_name i)])).

(** [Interest::wireEncode(EncodingImpl<TAG>&)] *)
Definition Interest_encode (i : Interest) : Template :=
  if hasParameters i then encode03 i else encode02 i.

(** ** Decoding *)

(** An element at the front of the rest, as [decode02] reads optional elements. *)
Definition decode_nonce (element : Block) : result Z :=
  if negb (block_value_size element =? 4) then Err (TlvError "Nonce element is malformed")
  else Ok (nonce_of_octets (block_value element)).
Definition decode_lifetime (element : Block) : result Z :=
  let* n := block_readNonNegativeInteger element in Ok (i64 n).

(** [decode02]: [None] is the answer [false]; what was stored on the way is overwritten
    by [decode03]. *)
Definition decode02 (wire : Block) (els : list Block) (i : Interest) : result (option Interest) :=
  match els with
  | element :: els =>
    if negb (block_type element =? tlv_Name) then Ok None
    else
      let* name := Name_wireDecode element in
      let* (selectors, els) := take_element tlv_Selectors els Selectors_new Selectors_wireDecode in
      match els with
      | element :: els =>
        if negb (block_type element =? tlv_Nonce) then Ok None
        else
          let* nonce := decode_nonce element in
          let* (lifetime, els) := take_element tlv_InterestLifetime els DEFAULT_INTEREST_LIFETIME
                                    decode_lifetime in
          let* (hint, els) := take_element tlv_ForwardingHint els DelegationList_new
                                (fun b => DelegationList_wireDecode b false) in
          match els with
          | [] => Ok (Some (mkInterest name selectors true nonce lifetime hint (i_parameters i)
                              (Some wire) (i_tags i)))
          | _ => Ok None
          end
      | [] => Ok None
      end
  | [] => Ok None
  end.

(** One element of the loop of [decode03], with [lastElement] and the Interest so far. *)
Definition decode03_element (element : Block) (st : Z * Interest) : result (Z * Interest) :=
  let '(lastElement, i) := st in
  let type := block_type element in
  if type =? tlv_CanBePrefix then
    if lastElement >=? 2 then Err (TlvError "CanBePrefix element is out of order")
    else if negb (block_value_size element =? 0)
    then Err (TlvError "CanBePrefix element has non-zero TLV-LENGTH")
    else Ok (2, mkInterest (i_name i) (setMaxSuffixComponents (-1) (i_selectors i)) (i_hasNonce i)
                  (i_nonce i) (i_interestLifetime i) (i_forwardingHint i) (i_parameters i)
                  (i_wire i) (i_tags i))
  else if type =? tlv_MustBeFresh then
    if lastElement >=? 3 then Err (TlvError "MustBeFresh element is out of order")
    else if negb (block_value_size element =? 0)
    then Err (TlvError "MustBeFresh element has non-zero TLV-LENGTH")
    else Ok (3, mkInterest (i_name i) (setMustBeFresh true (i_selectors i)) (i_hasNonce i)
                  (i_nonce i) (i_interestLifetime i) (i_forwardingHint i) (i_parameters i)
                  (i_wire i) (i_tags i))
  else if type =? tlv_ForwardingHint then
    if lastElement >=? 4 then Err (TlvError "ForwardingHint element is out of order")
    else
      let* hint := DelegationList_wireDecode element true in
      Ok (4, mkInterest (i_name i) (i_selectors i) (i_hasNonce i) (i_nonce i)
               (i_interestLifetime i) hint (i_parameters i) (i_wire i) (i_tags i))
  else if type =? tlv_Nonce then
    if lastElement >=? 5 then Err (TlvError "Nonce element is out of order")
    else
      let* nonce := decode_nonce element in
      Ok (5, mkInterest (i_name i) (i_selectors i) true nonce (i_interestLifetime i)
               (i_forwardingHint i) (i_parameters i) (i_wire i) (i_tags i))
  else if type =? tlv_InterestLifetime then
    if lastElement >=? 6 then Err (TlvError "InterestLifetime element is out of order")
    else
      let* lifetime := decode_lifetime element in
      Ok (6, mkInterest (i_name i) (i_selectors i) (i_hasNonce i) (i_nonce i) lifetime
               (i_forwardingHint i) (i_parameters i) (i_wire i) (i_tags i))
  else if type =? tlv_HopLimit then
    if lastElement >=? 7 then Ok st (* non-critical, ignored out of order *)
    else if negb (block_value_size element =? 1) then Err (TlvError "HopLimit element is malformed")
    else Ok (7, i)
  else if type =? tlv_Parameters then
    if lastElement >=? 8 then Err (TlvError "Parameters element is out of order")
    else Ok (8, mkInterest (i_name i) (i_selectors i) (i_hasNonce i) (i_nonce i)
                  (i_interestLifetime i) (i_forwardingHint i) element (i_wire i) (i_tags i))
  else if isCriticalType type then Err (TlvError "unrecognized element of critical type")
  else Ok st.

Fixpoint decode03_loop (els : list Block) (st : Z * Interest) : result (Z * Interest) :=
  match els with
  | [] => Ok st
  | element :: els => let* st := decode03_element element st in decode03_loop els st
  end.

(** [decode03]; [word] is what the random generator will return. *)
Definition decode03 (word : Z) (wire : Block) (els : list Block) (i : Interest) : result Interest :=
  match els with
  | element :: els =>
    if negb (block_type element =? tlv_Name)
    then Err (TlvError "Name element is missing or out of order")
    else
      let* name := Name_wireDecode element in
      match name with
      | [] => Err (TlvError "Name has zero name components")
      | _ =>
        let* (_, i) := decode03_loop els
          (1, mkInterest name (setMaxSuffixComponents 1 Selectors_new) false word
                DEFAULT_INTEREST_LIFETIME DelegationList_new Block_default (Some wire) (i_tags i)) in
        Ok i
      end
  | [] => Err (TlvError "Name element is missing or out of order")
  end.

Definition Interest_wireDecode (word : Z) (wire : Block) (i : Interest) : result Interest :=
  let* els := parse wire in
  if negb (block_type wire =? tlv_Interest) then Err (TlvError "expecting Interest element")
  else
    let* r := decode02 wire els i in
    match r with
    | Some i => Ok i
    | None =>
      let* i := decode03 word wire els i in
      Ok (if negb (i_hasNonce i) then setNonce (getNonce i) i else i)
    end.

(** [Interest(const Block&)] *)
Definition Interest_ofWire (word : Z) (wire : Block) : result Interest :=
  Interest_wireDecode word wire
    (mkInterest [] Selectors_new false word 0 DelegationList_new Block_default None no_tags).

(** [Interest::wireEncode() const]: the object is decoded from what was encoded. *)
Definition Interest_wireEncode (i : Interest) : result (Block * Interest) :=
  match i_wire i with
  | Some wire => Ok (wire, i)
  | None =>
    let* wire := encodeWire (Interest_encode i) in
    let* i := Interest_wireDecode (i_nonce i) wire i in
    Ok (wire, i)
  end.

(** ** Matching *)

Definition matchesName (i : Interest) (name : Name) : result bool :=
  let s := i_selectors i in
  let n := name_size (i_name i) in
  if name_size name <? n then Ok false
  else if negb (isPrefixOf (i_name i) name) then Ok false
  else if (sel_minSuffixComponents s >=? 0) &&
          negb (name_size name - n >=? sel_minSuffixComponents s) then Ok false
  else if (sel_maxSuffixComponents s >=? 0) &&
          negb (name_size name - n <=? sel_maxSuffixComponents s) then Ok false
  else if negb (Exclude_empty (sel_exclude s)) && (name_size name >? n) then
    let* c := name_at n name in Ok (negb (isExcluded (sel_exclude s) c))
  else Ok true.

(** [matchesData]: the first check that fails decides; only the exact name and an
    Exclude that concerns the digest need the full name. *)
Section matchesData.
Variable computeDigest : octets -> octets.

Definition matches_prefix (i : Interest) (data : Data) : result bool :=
  let n := name_size (i_name i) in
  let fullNameLength := name_size (d_name data) + 1 in
  if n =? fullNameLength then
    let* last := name_at (-1) (i_name i) in
    if isImplicitSha256Digest last then
      let* fullName := getFullName computeDigest data in Ok (name_equals (i_name i) fullName)
    else Ok false
  else Ok (isPrefixOf (i_name i) (d_name data)).

Definition matches_exclude (i : Interest) (data : Data) : result bool :=
  let n := name_size (i_name i) in
  let fullNameLength := name_size (d_name data) + 1 in
  let exclude := sel_exclude (i_selectors i) in
  if negb (Exclude_empty exclude) && (fullNameLength >? n) then
    let* c :=
      if n =? fullNameLength - 1 then
        let* fullName := getFullName computeDigest data in name_at n fullName
      else name_at n (d_name data) in
    Ok (negb (isExcluded exclude c))
  else Ok true.

(** Only a SignatureInfo that was decoded has its sub-elements parsed; in one that
    [wireEncode() const] has just encoded, [find] finds nothing. *)
Definition matches_locator (i : Interest) (data : Data) : result bool :=
  let locator := sel_publisherPublicKeyLocator (i_selectors i) in
  if negb (KeyLocator_empty locator) then
    let* info := Signature_getInfo (d_signature data) in
    let* els := match si_wire (sig_info (d_signature data)) with
                | Some _ => parse info
                | None => Ok []
                end in
    match block_find tlv_KeyLocator els with
    | None => Ok false
    | Some it => let* w := KeyLocator_wireEncode locator in Ok (Block_eqb w it)
    end
  else Ok true.

Definition matchesData (i : Interest) (data : Data) : result bool :=
  let n := name_size (i_name i) in
  let fullNameLength := name_size (d_name data) + 1 in
  let s := i_selectors i in
  let minSuffix := if sel_minSuffixComponents s >=? 0 then sel_minSuffixComponents s else 0 in
  if negb (n + minSuffix <=? fullNameLength) then Ok false
  else if (sel_maxSuffixComponents s >=? 0) &&
          negb (n + sel_maxSuffixComponents s >=? fullNameLength) then Ok false
  else
    let* p := matches_prefix i data in
    if negb p then Ok false
    else
      let* e := matches_exclude i data in
      if negb e then Ok false else matches_locator i data.
End matchesData.

Definition matchesInterest (i other : Interest) : result bool :=
  if name_equals (i_name i) (i_name other) then Selectors_eqb (i_selectors i) (i_selectors other)
  else Ok false.

(** ** Round trip *)

Lemma length_nonce_octets n : length (nonce_octets n) = 4%nat.
Proof. unfold nonce_octets. rewrite length_reverse. apply length_be_bytes. Qed.

Lemma decode_nonce_element n :
  is_u32 n -> decode_nonce (element tlv_Nonce (nonce_octets n)) = Ok n.
Proof.
  intros Hn. unfold decode_nonce. change (block_value_size (element tlv_Nonce (nonce_octets n)))
    with (zlen (nonce_octets n)).
  unfold zlen. rewrite length_nonce_octets. change (Z.of_nat 4) with 4. cbn [Z.eqb Pos.eqb negb].
  unfold nonce_of_octets, nonce_octets. cbn [block_value element]. rewrite reverse_involutive, be_value_bytes; [done|].
  exact Hn.
Qed.

Lemma decode_lifetime_element n :
  0 <= n < 2 ^ 63 -> decode_lifetime (element tlv_InterestLifetime (nonneg_integer n)) = Ok n.
Proof.
  intros Hn. unfold decode_lifetime. rewrite block_readNonNegativeInteger_element by (unfold is_u64; lia).
  cbn [mbind result_bind]. by rewrite i64_small.
Qed.

Definition hint_element (i : Interest) : Z * octets :=
  (tlv_ForwardingHint, tlvs (DelegationList_elements (i_forwardingHint i))).
Definition hasHint (i : Interest) : bool := zlen (dl_dels (i_forwardingHint i)) >? 0.
Definition lifetime_elements (i : Interest) : list (Z * octets) :=
  opt_element (negb (i_interestLifetime i =? DEFAULT_INTEREST_LIFETIME))
    (tlv_InterestLifetime, nonneg_integer (i_interestLifetime i)).

Definition elements02 (i : Interest) : list (Z * octets) :=
  (tlv_Name, tlvs (name_elements (i_name i))) ::
  opt_element (negb (Selectors_empty (i_selectors i))) (Selectors_element (i_selectors i)) ++
  (tlv_Nonce, nonce_octets (i_nonce i)) :: lifetime_elements i ++ opt_element (hasHint i) (hint_element i).
Definition elements03 (i : Interest) : list (Z * octets) :=
  (tlv_Name, tlvs (name_elements (i_name i))) ::
  opt_element (getCanBePrefix i) (tlv_CanBePrefix, []) ++
  opt_element (getMustBeFresh i) (tlv_MustBeFresh, []) ++
  opt_element (hasHint i) (hint_element i) ++
  (tlv_Nonce, nonce_octets (i_nonce i)) :: lifetime_elements i ++
  [(tlv_Parameters, block_value (i_parameters i))].
Definition Interest_elements (i : Interest) : list (Z * octets) :=
  if hasParameters i then elements03 i else elements02 i.

(** An Interest that the setters make, of an encodable size; a name without components
    cannot carry parameters. *)
Record wf_Interest (i : Interest) : Prop := {
  wi_name : wf_name (i_name i);
  wi_selectors : wf_Selectors (i_selectors i);
  wi_nonce : is_u32 (i_nonce i);
  wi_lifetime : 0 <= i_interestLifetime i < 2 ^ 63;
  wi_hint : Forall wf_Delegation (dl_dels (i_forwardingHint i));
  wi_parameters : hasParameters i = true ->
    canonical (i_parameters i) /\ block_type (i_parameters i) = tlv_Parameters /\ i_name i <> [];
  wi_size : is_u64 (zlen (tlvs (Interest_elements i)));
}.

Lemma hasHint_nonempty i : hasHint i = true -> dl_dels (i_forwardingHint i) <> [].
Proof. unfold hasHint. by destruct (dl_dels _). Qed.

Lemma encodeForwardingHint_ok `{EncodingOk E} i :
  exists f, encodeForwardingHint i E _ = Ok f /\ emits f (tlvs (opt_element (hasHint i) (hint_element i))).
Proof.
  unfold encodeForwardingHint, hint_element. rewrite tlvs_opt. fold (hasHint i).
  destruct (hasHint i) eqn:Eh; [|eexists; split; [done|apply emits_nothing]].
  by apply DelegationList_encode_ok, hasHint_nonempty.
Qed.

Lemma emits_prependLifetime `{EncodingOk E} i :
  0 <= i_interestLifetime i < 2 ^ 63 -> emits (prependLifetime i) (tlvs (lifetime_elements i)).
Proof.
  intros Hl. unfold prependLifetime, lifetime_elements. rewrite tlvs_opt, u64_id by (unfold is_u64; lia).
  apply emits_if. intros _. apply emits_prependNonNegativeIntegerBlock.
Qed.

Lemma Interest_encode_ok `{EncodingOk E} i :
  wf_Interest i ->
  exists f, Interest_encode i E _ = Ok f /\ emits f (tlv tlv_Interest (tlvs (Interest_elements i))).
Proof.
  intros Hw. destruct (encodeForwardingHint_ok i) as (fh & Eh & Hh).
  pose proof (emits_prependLifetime i (wi_lifetime i Hw)) as Hlt.
  unfold Interest_encode, Interest_elements. destruct (hasParameters i) eqn:Ep.
  - unfold encode03. rewrite Eh, Ep. cbn [mbind result_bind]. eexists. split; [done|].
    destruct (wi_parameters i Hw Ep) as (Hc & Ht & _).
    apply emits_prependElement. eapply emits_prependAll_eq.
    + repeat (apply Forall2_cons; split);
        [apply emits_prependBlock|exact Hlt|apply emits_prependByteArrayBlock|exact Hh| | |apply emits_Name|constructor];
        apply emits_if; intros _; apply emits_prependEmptyBlock.
    + rewrite block_octets_canonical, Ht by done. unfold elements03.
      rewrite tlvs_cons, !tlvs_app, tlvs_cons, tlvs_app, tlvs_singleton, (tlvs_opt _ tlv_CanBePrefix),
        (tlvs_opt _ tlv_MustBeFresh). unfold reverse. cbn [rev_append concat]. by rewrite app_nil_r.
  - unfold encode02. rewrite Eh. cbn [mbind result_bind].
    assert (exists f, (if negb (Selectors_empty (i_selectors i)) then Selectors_encode (i_selectors i) E _
                       else Ok prependNothing) = Ok f /\
      emits f (tlvs (opt_element (negb (Selectors_empty (i_selectors i))) (Selectors_element (i_selectors i)))))
      as (fs & -> & Hs).
    { unfold Selectors_element. rewrite tlvs_opt. destruct (Selectors_empty _); cbn [negb].
      - eexists. split; [done|apply emits_nothing].
      - apply Selectors_encode_ok, Hw. }
    cbn [mbind result_bind]. eexists. split; [done|]. apply emits_prependElement. eapply emits_prependAll_eq.
    + repeat (apply Forall2_cons; split);
        [exact Hh|exact Hlt|apply emits_prependByteArrayBlock|exact Hs|apply emits_Name|constructor].
    + unfold elements02. rewrite tlvs_cons, tlvs_app, tlvs_cons, tlvs_app. unfold reverse. cbn [rev_append concat].
      by rewrite app_nil_r.
Qed.

(** *** Decoding format 0.2 *)

(** The fields after encoding and decoding in format 0.2. *)
Definition decoded02 (i : Interest) (parameters : Block) (wire : Block) (tags : Tags) : Interest :=
  mkInterest (i_name i)
    (if Selectors_empty (i_selectors i) then Selectors_new else Selectors_decoded (i_selectors i))
    true (i_nonce i) (i_interestLifetime i)
    (if hasHint i then mkDelegationList false (dl_dels (i_forwardingHint i)) else DelegationList_new)
    parameters (Some wire) tags.

Lemma elements_size i el : wf_Interest i -> el ∈ Interest_elements i -> is_u64 (zlen el.2).
Proof. intros Hw Hin. destruct el as [t v]. eapply tlvs_elem_u64; [exact Hin|apply Hw]. Qed.

Lemma take_hint i wantSort :
  wf_Interest i -> (hasHint i = true -> hint_element i ∈ Interest_elements i) ->
  take_element tlv_ForwardingHint (element_of <$> opt_element (hasHint i) (hint_element i))
    DelegationList_new (fun b => DelegationList_wireDecode b wantSort) =
  Ok (if hasHint i then dl_decoded wantSort (dl_dels (i_forwardingHint i)) else DelegationList_new, []).
Proof.
  intros Hw Hin. rewrite <- (app_nil_r (_ <$> _)). apply take_element_opt; [done| |constructor].
  intros Hh. apply DelegationList_wireDecode_element; [by apply hasHint_nonempty|apply Hw|].
  apply (elements_size i (hint_element i)); auto.
Qed.

Lemma decode02_elements i wire i0 :
  wf_Interest i -> hasParameters i = false ->
  decode02 wire (element_of <$> elements02 i) i0 =
  Ok (Some (decoded02 i (i_parameters i0) wire (i_tags i0))).
Proof.
  intros Hw Hp. unfold decode02, decoded02.
  assert (Hin : forall el, el ∈ elements02 i -> is_u64 (zlen el.2)).
  { intros el Hel. apply (elements_size i); [done|]. unfold Interest_elements. by rewrite Hp. }
  unfold elements02. rewrite fmap_cons.
  change (negb (block_type (element_of (tlv_Name, _)) =? tlv_Name)) with false. cbv iota.
  change (element_of (tlv_Name, ?v)) with (element tlv_Name v).
  rewrite Name_wireDecode_element; [|apply Hw|apply (Hin (tlv_Name, _)); left]. cbn [mbind result_bind].
  rewrite fmap_app, (take_element_opt _ _ _ _ _ (Selectors_decoded (i_selectors i))).
  2: done.
  2: { intros Hs. apply Selectors_wireDecode_element; [apply Hw|]. apply (Hin (Selectors_element _)).
       unfold elements02. rewrite Hs. right. left. }
  2: { rewrite fmap_cons. constructor; [done|]. rewrite fmap_app. apply Forall_app.
       unfold lifetime_elements, opt_element. split; case_match; repeat constructor; done. }
  cbn [mbind result_bind]. rewrite fmap_cons.
  change (negb (block_type (element_of (tlv_Nonce, _)) =? tlv_Nonce)) with false. cbv iota.
  change (element_of (tlv_Nonce, ?v)) with (element tlv_Nonce v).
  rewrite decode_nonce_element by apply Hw. cbn [mbind result_bind].
  rewrite fmap_app. unfold lifetime_elements.
  rewrite (take_element_opt _ _ _ _ _ (i_interestLifetime i)).
  2: done.
  2: { intros _. apply decode_lifetime_element, Hw. }
  2: { unfold opt_element. case_match; repeat constructor; done. }
  cbn [mbind result_bind]. rewrite take_hint by (done || (intros Hh; unfold Interest_elements; rewrite Hp;
    unfold elements02; rewrite Hh; clear; set_solver)).
  cbn [mbind result_bind]. rewrite dl_decoded_same by done. do 3 f_equal.
  - by destruct (Selectors_empty _).
  - destruct (i_interestLifetime i =? DEFAULT_INTEREST_LIFETIME) eqn:E; zbool; [by rewrite E|done].
Qed.

(** *** Decoding format 0.3 *)

Definition decoded03 (i : Interest) (wire : Block) (tags : Tags) : Interest :=
  mkInterest (i_name i)
    (mkSelectors (-1) (if getCanBePrefix i then -1 else 1) KeyLocator_new Exclude_new
       DEFAULT_CHILD_SELECTOR (getMustBeFresh i) None)
    true (i_nonce i) (i_interestLifetime i)
    (if hasHint i then dl_decoded true (dl_dels (i_forwardingHint i)) else DelegationList_new)
    (element tlv_Parameters (block_value (i_parameters i))) (Some wire) tags.

(** An optional element takes the loop from [st false] to [st true] and [lastElement] to [n]. *)
Lemma decode03_opt n (st : bool -> Interest) c el els last r :
  last < n ->
  (c = true -> forall l, l < n -> decode03_element (element_of el) (l, st false) = Ok (n, st true)) ->
  (forall last', last' <= n -> exists l, decode03_loop els (last', st c) = Ok (l, r)) ->
  exists l, decode03_loop ((element_of <$> opt_element c el) ++ els) (last, st false) = Ok (l, r).
Proof.
  intros Hlast Hstep Hk. destruct c; [|apply Hk; lia].
  cbn [opt_element fmap list_fmap app decode03_loop]. rewrite Hstep by done. apply Hk. lia.
Qed.

(** The test of [lastElement] passes. *)
Lemma geb_false l n : l < n -> (l >=? n) = false.
Proof. intros H. rewrite Z.geb_leb. apply Z.leb_gt. lia. Qed.

(** Format 0.2 does not fit an Interest with parameters. *)
Lemma decode02_elements03 i wire i0 :
  wf_Interest i -> hasParameters i = true -> decode02 wire (element_of <$> elements03 i) i0 = Ok None.
Proof.
  intros Hw Hp. unfold decode02, elements03. rewrite fmap_cons.
  change (negb (block_type (element_of (tlv_Name, _)) =? tlv_Name)) with false. cbv iota.
  change (element_of (tlv_Name, ?v)) with (element tlv_Name v).
  rewrite Name_wireDecode_element.
  2: apply Hw.
  2: { apply (elements_size i (tlv_Name, _) Hw). unfold Interest_elements. rewrite Hp. left. }
  cbn [mbind result_bind].
  destruct (getCanBePrefix i); [done|]. destruct (getMustBeFresh i); [done|].
  destruct (hasHint i); [done|]. cbn [opt_element app fmap list_fmap take_element].
  change (block_type (element_of (tlv_Nonce, _)) =? tlv_Selectors) with false. cbn [mbind result_bind].
  change (negb (block_type (element_of (tlv_Nonce, _)) =? tlv_Nonce)) with false. cbv iota.
  change (element_of (tlv_Nonce, ?v)) with (element tlv_Nonce v).
  rewrite decode_nonce_element by apply Hw. cbn [mbind result_bind].
  rewrite fmap_app. unfold lifetime_elements. rewrite (take_element_opt _ _ _ _ _ (i_interestLifetime i)).
  2: done.
  2: { intros _. apply decode_lifetime_element, Hw. }
  2: { repeat constructor. done. }
  done.
Qed.

Section decode03_steps.
Variables (i : Interest) (wire : Block) (tags : Tags) (word : Z).
Hypothesis (Hw : wf_Interest i) (Hp : hasParameters i = true).

(** The Interest on the way through the loop. *)
Let at_state (cbp fresh hint nonce lifetime : bool) (parameters : Block) : Interest :=
  mkInterest (i_name i)
    (mkSelectors (-1) (if cbp then -1 else 1) KeyLocator_new Exclude_new DEFAULT_CHILD_SELECTOR fresh None)
    nonce (if nonce then i_nonce i else word)
    (if lifetime then i_interestLifetime i else DEFAULT_INTEREST_LIFETIME)
    (if hint then dl_decoded true (dl_dels (i_forwardingHint i)) else DelegationList_new)
    parameters (Some wire) tags.

Lemma step_hint l cbp fresh :
  hasHint i = true -> l < 4 ->
  decode03_element (element_of (hint_element i)) (l, at_state cbp fresh false false false Block_default) =
  Ok (4, at_state cbp fresh true false false Block_default).
Proof.
  intros Hh Hl. unfold decode03_element.
  change (block_type (element_of (hint_element i))) with tlv_ForwardingHint.
  change (tlv_ForwardingHint =? tlv_CanBePrefix) with false.
  change (tlv_ForwardingHint =? tlv_MustBeFresh) with false.
  change (tlv_ForwardingHint =? tlv_ForwardingHint) with true. cbv iota. rewrite geb_false by done.
  change (element_of (hint_element i)) with
    (element tlv_ForwardingHint (tlvs (DelegationList_elements (i_forwardingHint i)))).
  rewrite DelegationList_wireDecode_element; [done|by apply hasHint_nonempty|apply Hw|].
  apply (elements_size i (hint_element i) Hw). unfold Interest_elements, elements03. rewrite Hp, Hh.
  clear. set_solver.
Qed.

Lemma step_nonce l cbp fresh hint :
  l < 5 ->
  decode03_element (element tlv_Nonce (nonce_octets (i_nonce i)))
    (l, at_state cbp fresh hint false false Block_default) =
  Ok (5, at_state cbp fresh hint true false Block_default).
Proof.
  intros Hl. unfold decode03_element. cbn [block_type element].
  change (tlv_Nonce =? tlv_CanBePrefix) with false. change (tlv_Nonce =? tlv_MustBeFresh) with false.
  change (tlv_Nonce =? tlv_ForwardingHint) with false. change (tlv_Nonce =? tlv_Nonce) with true. cbv iota.
  rewrite geb_false by done. by rewrite decode_nonce_element by apply Hw.
Qed.

Lemma step_lifetime l cbp fresh hint :
  l < 6 ->
  decode03_element (element_of (tlv_InterestLifetime, nonneg_integer (i_interestLifetime i)))
    (l, at_state cbp fresh hint true false Block_default) =
  Ok (6, at_state cbp fresh hint true true Block_default).
Proof.
  intros Hl. unfold decode03_element. cbn [block_type element element_of fst snd].
  change (tlv_InterestLifetime =? tlv_CanBePrefix) with false.
  change (tlv_InterestLifetime =? tlv_MustBeFresh) with false.
  change (tlv_InterestLifetime =? tlv_ForwardingHint) with false.
  change (tlv_InterestLifetime =? tlv_Nonce) with false.
  change (tlv_InterestLifetime =? tlv_InterestLifetime) with true. cbv iota.
  rewrite geb_false by done. fold (element tlv_InterestLifetime (nonneg_integer (i_interestLifetime i))).
  change (element_of (tlv_InterestLifetime, ?v)) with (element tlv_InterestLifetime v).
  by rewrite decode_lifetime_element by apply Hw.
Qed.

Lemma step_parameters l cbp fresh hint lifetime v :
  l < 8 ->
  decode03_element (element_of (tlv_Parameters, v)) (l, at_state cbp fresh hint true lifetime Block_default) =
  Ok (8, at_state cbp fresh hint true lifetime (element tlv_Parameters v)).
Proof.
  intros Hl. unfold decode03_element. cbn [block_type element element_of fst snd].
  change (tlv_Parameters =? tlv_CanBePrefix) with false. change (tlv_Parameters =? tlv_MustBeFresh) with false.
  change (tlv_Parameters =? tlv_ForwardingHint) with false. change (tlv_Parameters =? tlv_Nonce) with false.
  change (tlv_Parameters =? tlv_InterestLifetime) with false. change (tlv_Parameters =? tlv_HopLimit) with false.
  change (tlv_Parameters =? tlv_Parameters) with true. cbv iota. by rewrite geb_false.
Qed.

Lemma decode03_loop_elements :
  exists last, decode03_loop (element_of <$> tail (elements03 i))
    (1, at_state false false false false false Block_default) = Ok (last, decoded03 i wire tags).
Proof.
  unfold elements03. cbn [tail]. rewrite !fmap_app.
  apply (decode03_opt 2 (fun b => at_state b false false false false Block_default));
    [lia|intros _ l Hl; unfold decode03_element; cbn; by rewrite geb_false|]. intros l1 Hl1.
  apply (decode03_opt 3 (fun b => at_state (getCanBePrefix i) b false false false Block_default));
    [lia|intros _ l Hl; unfold decode03_element; cbn; by rewrite geb_false|]. intros l2 Hl2.
  apply (decode03_opt 4 (fun b => at_state (getCanBePrefix i) (getMustBeFresh i) b false false Block_default));
    [lia|intros Hh l Hl; by apply step_hint|]. intros l3 Hl3.
  rewrite fmap_cons. cbn [decode03_loop]. change (element_of (tlv_Nonce, ?v)) with (element tlv_Nonce v).
  rewrite step_nonce by lia. cbn [mbind result_bind]. rewrite fmap_app.
  apply (decode03_opt 6 (fun b => at_state (getCanBePrefix i) (getMustBeFresh i) (hasHint i) true b Block_default));
    [lia|intros _ l Hl; by apply step_lifetime|]. intros l4 Hl4.
  cbn [fmap list_fmap decode03_loop]. rewrite step_parameters by lia. cbn [mbind result_bind].
  exists 8. unfold at_state, decoded03. do 3 f_equal.
  destruct (i_interestLifetime i =? DEFAULT_INTEREST_LIFETIME) eqn:E; zbool; [by rewrite E|done].
Qed.
End decode03_steps.

(** Encoding, then decoding into the object [i0]. *)
Definition Interest_decoded (i i0 : Interest) : Interest :=
  let wire := element tlv_Interest (tlvs (Interest_elements i)) in
  if hasParameters i then decoded03 i wire (i_tags i0)
  else decoded02 i (i_parameters i0) wire (i_tags i0).

Lemma Interest_elements_u32 i : Forall (fun el => is_u32 el.1) (Interest_elements i).
Proof.
  unfold Interest_elements, elements02, elements03, lifetime_elements, opt_element.
  case_match; (constructor; [done|]); repeat (apply Forall_app; split);
    repeat (case_match || constructor); done.
Qed.

Lemma Interest_wireDecode_element word i i0 :
  wf_Interest i ->
  Interest_wireDecode word (element tlv_Interest (tlvs (Interest_elements i))) i0 =
  Ok (Interest_decoded i i0).
Proof.
  intros Hw. unfold Interest_wireDecode, Interest_decoded.
  rewrite parse_element_tlvs; [|apply Interest_elements_u32|apply Hw]. rewrite map_element_of.
  change (negb (block_type (element tlv_Interest _) =? tlv_Interest)) with false. cbn [mbind result_bind].
  generalize (element tlv_Interest (tlvs (Interest_elements i))). intros w.
  unfold Interest_elements. destruct (hasParameters i) eqn:Hp.
  - rewrite decode02_elements03 by done. cbn [mbind result_bind]. unfold decode03.
    destruct (decode03_loop_elements i w (i_tags i0) word Hw Hp) as [last Hloop].
    unfold elements03 in Hloop |- *. cbn [tail] in Hloop. rewrite fmap_cons.
    change (negb (block_type (element_of (tlv_Name, _)) =? tlv_Name)) with false. cbv iota.
    change (element_of (tlv_Name, ?v)) with (element tlv_Name v).
    rewrite Name_wireDecode_element.
    2: apply Hw.
    2: { apply (elements_size i (tlv_Name, _) Hw). unfold Interest_elements. rewrite Hp. left. }
    cbn [mbind result_bind]. destruct (wi_parameters i Hw Hp) as (_ & _ & Hne).
    destruct (i_name i) as [|c n] eqn:En; [done|].
    change (setMaxSuffixComponents 1 Selectors_new) with
      (mkSelectors (-1) 1 KeyLocator_new Exclude_new DEFAULT_CHILD_SELECTOR false None).
    by rewrite Hloop.
  - by rewrite decode02_elements.
Qed.

(** *** Malformed input *)

Lemma caught_decode_nonce b : caught (decode_nonce b).
Proof. unfold decode_nonce. caught_solve. Qed.
Lemma caught_decode_lifetime b : caught (decode_lifetime b).
Proof. unfold decode_lifetime. caught_solve. Qed.
#[export] Hint Resolve caught_decode_nonce caught_decode_lifetime : valdb.

Lemma caught_decode02 wire els i : caught (decode02 wire els i).
Proof.
  unfold decode02. destruct els as [|el els]; [done|]. case_match; [done|].
  apply caught_bind_all; [auto with valdb|]. intros name.
  apply caught_bind_all; [apply caught_take_element; auto with valdb|]. intros [s [|el2 els2]]; [done|].
  case_match; [done|]. apply caught_bind_all; [auto with valdb|]. intros nonce.
  apply caught_bind_all; [apply caught_take_element; auto with valdb|]. intros [lt els3].
  apply caught_bind_all; [apply caught_take_element; auto with valdb|]. by intros [h [|? ?]].
Qed.
Lemma caught_decode03_element el st : caught (decode03_element el st).
Proof. unfold decode03_element. destruct st as [l i]. caught_solve. Qed.
#[export] Hint Resolve caught_decode02 caught_decode03_element : valdb.
Lemma caught_decode03_loop els st : caught (decode03_loop els st).
Proof. revert st. induction els as [|el els IH]; intros st; cbn; caught_solve. Qed.
#[export] Hint Resolve caught_decode03_loop : valdb.
Lemma caught_decode03 word wire els i : caught (decode03 word wire els i).
Proof. unfold decode03. caught_solve. Qed.
#[export] Hint Resolve caught_decode03 : valdb.
Lemma caught_Interest_wireDecode word wire i : caught (Interest_wireDecode word wire i).
Proof. unfold Interest_wireDecode. caught_solve. Qed.
#[export] Hint Resolve caught_Interest_wireDecode : valdb.

(** ** Matching Data by its full name *)

Lemma name_at_nonneg k n : 0 <= k < name_size n -> exists c, name_at k n = Ok c /\ n !! Z.to_nat k = Some c.
Proof.
  intros Hk. unfold name_at. cbv zeta. rewrite (proj2 (Z.ltb_ge k 0)) by lia. cbv iota.
  rewrite (proj2 (Z.ltb_ge k 0)), (proj2 (Z.leb_gt _ _)) by lia. cbn [orb].
  destruct (n !! Z.to_nat k) as [c|] eqn:E; [by exists c|].
  apply lookup_ge_None in E. unfold name_size, zlen in Hk. lia.
Qed.

Lemma name_at_app_l k n m : 0 <= k < name_size n -> name_at k (n ++ m) = name_at k n.
Proof.
  intros Hk. destruct (name_at_nonneg k n Hk) as (c & -> & Hc).
  destruct (name_at_nonneg k (n ++ m)) as (c' & -> & Hc').
  { unfold name_size in *. rewrite zlen_app. pose proof (zlen_nonneg m). lia. }
  rewrite lookup_app_l in Hc'; [congruence|]. unfold name_size, zlen in Hk. lia.
Qed.

Lemma isPrefixOf_snoc n m c : name_size n <= name_size m -> isPrefixOf n (m ++ [c]) = isPrefixOf n m.
Proof.
  intros Hl. apply Bool.eq_true_iff_eq. rewrite !isPrefixOf_spec. split.
  - intros [k Hk]. unfold name_size, zlen in Hl.
    destruct k as [|c' k _] using rev_ind.
    + apply (f_equal length) in Hk. rewrite length_app in Hk. rewrite app_nil_r in Hk. cbn in Hk. lia.
    + rewrite app_assoc in Hk. apply app_inj_tail in Hk as [-> _]. by exists k.
  - intros [k ->]. exists (k ++ [c]). by rewrite app_assoc.
Qed.

Lemma isPrefixOf_same_size n m : name_size n = name_size m -> isPrefixOf n m = name_equals n m.
Proof.
  intros Hl. apply Bool.eq_true_iff_eq. rewrite isPrefixOf_spec, name_equals_spec. split; [|by intros ->].
  intros Hp. apply prefix_length_eq; [done|]. unfold name_size, zlen in Hl. lia.
Qed.

Lemma getFullName_digest computeDigest d full :
  getFullName computeDigest d = Ok full ->
  exists c, full = d_name d ++ [c] /\ isImplicitSha256Digest c = true.
Proof.
  unfold getFullName. destruct (d_wire d); [|done]. intros (c & Hc & [= <-])%result_bind_Ok.
  exists c. split; [done|]. unfold Component_ofBlock in Hc. apply result_bind_Ok in Hc as ([] & Hv & [= <-]).
  unfold ensureValid, ComponentType_check in Hv.
  change (nc_type (mkComponent (block_type (Block_ofValue ImplicitSha256DigestComponent ?v)) _))
    with ImplicitSha256DigestComponent in Hv.
  change ((ImplicitSha256DigestComponent <? NameComponentMin) || (ImplicitSha256DigestComponent >? NameComponentMax))
    with false in Hv.
  change (ImplicitSha256DigestComponent =? ImplicitSha256DigestComponent) with true in Hv.
  cbv iota in Hv. by case_match.
Qed.

(** The prefix check decides like the prefix check on the full name. *)
Lemma matches_prefix_full computeDigest i d full :
  getFullName computeDigest d = Ok full -> name_size (i_name i) <= name_size full ->
  matches_prefix computeDigest i d = Ok (isPrefixOf (i_name i) full).
Proof.
  intros Hf Hl. pose proof (getFullName_digest _ _ _ Hf) as (c & -> & Hc). unfold matches_prefix.
  unfold name_size in Hl |- *. rewrite zlen_app in Hl. change (zlen [c]) with 1 in Hl.
  destruct (_ =? _) eqn:E; zbool; [|by rewrite isPrefixOf_snoc by (unfold name_size; lia)].
  rewrite isPrefixOf_same_size by (unfold name_size; rewrite zlen_app; exact E).
  destruct (i_name i) as [|x n' _] eqn:En using rev_ind.
  { rewrite zlen_nil in E. pose proof (zlen_nonneg (d_name d)). lia. }
  assert (Hlast : name_at (-1) (n' ++ [x]) = Ok x).
  { unfold name_at, name_size. cbv zeta. change (-1 <? 0) with true. cbv iota. rewrite zlen_app. change (zlen [x]) with 1.
    pose proof (zlen_nonneg n'). rewrite (proj2 (Z.ltb_ge _ 0)), (proj2 (Z.leb_gt _ _)) by lia. cbn [orb].
    rewrite lookup_app_r; unfold zlen; [|lia].
    by replace (Z.to_nat (Z.of_nat (length n') + 1 + -1) - length n')%nat with 0%nat by lia. }
  rewrite Hlast. cbn [mbind result_bind]. destruct (isImplicitSha256Digest x) eqn:Ex.
  - rewrite Hf. done.
  - f_equal. symmetry. apply not_true_iff_false. rewrite name_equals_spec.
    intros [_ ->]%app_inj_tail. congruence.
Qed.

Lemma matches_exclude_full computeDigest i d full :
  getFullName computeDigest d = Ok full -> name_size (i_name i) <= name_size full ->
  matches_exclude computeDigest i d =
  (if negb (Exclude_empty (sel_exclude (i_selectors i))) && (name_size full >? name_size (i_name i))
   then let* c := name_at (name_size (i_name i)) full in Ok (negb (isExcluded (sel_exclude (i_selectors i)) c))
   else Ok true).
Proof.
  intros Hf Hl. pose proof (getFullName_digest _ _ _ Hf) as (c & -> & _). unfold matches_exclude.
  assert (Hs : name_size (d_name d ++ [c]) = name_size (d_name d) + 1).
  { unfold name_size. by rewrite zlen_app. }
  rewrite Hs in *. case_match eqn:E; [|done]. apply andb_true_iff in E as [_ E]. zbool.
  rewrite Hf. cbn [mbind result_bind]. destruct (_ =? _) eqn:E'; zbool; [done|].
  rewrite name_at_app_l; [done|]. unfold name_size in *. pose proof (zlen_nonneg (i_name i)). lia.
Qed.

Lemma hasHint_false i : hasHint i = false -> dl_dels (i_forwardingHint i) = [].
Proof.
  unfold hasHint. destruct (dl_dels _) as [|d l]; [done|]. rewrite zlen_cons, Z.gtb_ltb. intros E.
  zbool. pose proof (zlen_nonneg l). lia.
Qed.

Lemma foldl_insertImpl_perm dels dl :
  dl_dels (foldl (fun dl d => insertImpl (del_preference d) (del_name d) dl) dl dels) ≡ₚ dels ++ dl_dels dl.
Proof.
  revert dl. induction dels as [|[p n] dels IH]; intros dl; cbn [foldl app]; [done|]. rewrite IH.
  unfold insertImpl. destruct (dl_isSorted dl); cbn.
  - rewrite insert_upper_bound_perm. by rewrite Permutation_middle.
  - rewrite (Permutation_app_comm (dl_dels dl)). cbn. by rewrite Permutation_middle.
Qed.

(** Decoding keeps the delegations, in order of preference. *)
Lemma decoded_hint i :
  dl_dels (if hasHint i then dl_decoded true (dl_dels (i_forwardingHint i)) else DelegationList_new) ≡ₚ
  dl_dels (i_forwardingHint i).
Proof.
  destruct (hasHint i) eqn:E; [|by rewrite (hasHint_false i E)].
  unfold dl_decoded. rewrite foldl_insertImpl_perm. cbn. by rewrite app_nil_r.
Qed.

(** The selectors that format 0.2 keeps: negative suffix limits all mean none. *)
Definition keeps_selectors (s s' : Selectors) : Prop :=
  sel_minSuffixComponents s' = Z.max (-1) (sel_minSuffixComponents s) /\
  sel_maxSuffixComponents s' = Z.max (-1) (sel_maxSuffixComponents s) /\
  sel_childSelector s' = sel_childSelector s /\
  kl_type (sel_publisherPublicKeyLocator s') = kl_type (sel_publisherPublicKeyLocator s) /\
  forall c, isExcluded (sel_exclude s') c = isExcluded (sel_exclude s) c.

Lemma decoded_selectors s :
  keeps_selectors s (if Selectors_empty s then Selectors_new else Selectors_decoded s) /\
  sel_mustBeFresh (if Selectors_empty s then Selectors_new else Selectors_decoded s) = sel_mustBeFresh s.
Proof.
  assert (Hm : forall z, (if z >=? 0 then z else -1) = Z.max (-1) z).
  { intros z. rewrite Z.geb_leb. case_match; zbool; lia. }
  destruct (Selectors_empty s) eqn:E.
  - unfold Selectors_empty, KeyLocator_empty in E.
    repeat (apply andb_true_iff in E as [E ?]). zbool.
    match goal with H : negb _ = true |- _ => apply negb_true_iff in H; rewrite H end.
    match goal with H : bool_decide _ = true |- _ => apply bool_decide_eq_true in H; rename H into Hk end.
    unfold keeps_selectors, Selectors_new. cbn. rewrite Hk. split; [|done]. repeat split; try lia.
    intros c. destruct (sel_exclude s) as [[|? ?] ?]; done.
  - unfold keeps_selectors, Selectors_decoded. cbn. rewrite !Hm. split; [|done]. repeat split.
    + destruct (KeyLocator_empty _) eqn:Ek; [|done]. unfold KeyLocator_empty in Ek.
      apply bool_decide_eq_true in Ek. by rewrite Ek.
    + intros c. destruct (sel_exclude s) as [[|? ?] ?]; done.
Qed.

(** Encoding a well-formed Interest, and decoding what was encoded elsewhere. *)
Lemma Interest_wireEncode_wf i :
  wf_Interest i -> i_wire i = None ->
  Interest_wireEncode i = Ok (element tlv_Interest (tlvs (Interest_elements i)), Interest_decoded i i) /\
  forall word, exists j, Interest_ofWire word (element tlv_Interest (tlvs (Interest_elements i))) = Ok j /\
    i_name j = i_name i /\ getNonce j = getNonce i /\ i_hasNonce j = true /\
    i_interestLifetime j = i_interestLifetime i /\ getMustBeFresh j = getMustBeFresh i /\
    dl_dels (i_forwardingHint j) ≡ₚ dl_dels (i_forwardingHint i) /\
    (hasParameters i = true \/ sel_maxSuffixComponents (i_selectors i) = -1 \/
       sel_maxSuffixComponents (i_selectors i) = 1 -> getCanBePrefix j = getCanBePrefix i).
Proof.
  intros Hw Hn. split.
  { unfold Interest_wireEncode. rewrite Hn.
    rewrite (encodeWire_emits _ tlv_Interest (tlvs (Interest_elements i))).
    - cbn [mbind result_bind]. by rewrite Interest_wireDecode_element.
    - split; [done|apply Hw].
    - split; by apply Interest_encode_ok. }
  intros word. eexists. split; [by apply Interest_wireDecode_element|].
  destruct (decoded_selectors (i_selectors i)) as [(_ & Hmax & _) Hf].
  unfold Interest_decoded. destruct (hasParameters i) eqn:Hp; repeat (split; [done|]).
  - split; [apply decoded_hint|]. intros _.
    change (negb ((if getCanBePrefix i then -1 else 1) =? 1) = getCanBePrefix i). by destruct (getCanBePrefix i).
  - split; [cbn; by destruct (hasHint i) eqn:Eh; [|apply hasHint_false in Eh as ->]|].
    intros Hm. unfold getCanBePrefix. cbn [decoded02 i_selectors]. rewrite Hmax. f_equal. f_equal. lia.
Qed.

(** ** Properties *)

(** C25: encoding an Interest made by its setters succeeds and yields one canonical
    element; decoding that element gives an Interest with the same name, nonce, lifetime,
    CanBePrefix (if no other suffix limit is set), MustBeFresh, delegations and
    parameters, and the encoded object itself becomes that Interest.  Without parameters
    all selectors survive; with parameters the Interest loses every other selector, in
    the encoding and in the object that was encoded. *)
Theorem Interest_roundtrip (i : Interest) (Hw : wf_Interest i) (Hn : i_wire i = None) :
  exists wire i',
    Interest_wireEncode i = Ok (wire, i') /\
    wire = element tlv_Interest (tlvs (Interest_elements i)) /\
    (forall word, exists j, Interest_ofWire word wire = Ok j /\
       i_name j = i_name i /\ i_nonce j = i_nonce i /\ i_selectors j = i_selectors i' /\
       i_forwardingHint j = i_forwardingHint i' /\ i_interestLifetime j = i_interestLifetime i) /\
    i_wire i' = Some wire /\ i_tags i' = i_tags i /\ i_name i' = i_name i /\
    i_hasNonce i' = true /\ getNonce i' = getNonce i /\
    i_interestLifetime i' = i_interestLifetime i /\
    dl_dels (i_forwardingHint i') ≡ₚ dl_dels (i_forwardingHint i) /\
    type_value (i_parameters i') = type_value (i_parameters i) /\
    getMustBeFresh i' = getMustBeFresh i /\
    (if hasParameters i
     then getCanBePrefix i' = getCanBePrefix i /\
          keeps_selectors (setMaxSuffixComponents (if getCanBePrefix i then -1 else 1) Selectors_new)
            (i_selectors i')
     else keeps_selectors (i_selectors i) (i_selectors i')).
Proof.
  eexists _, (Interest_decoded i i). split; [by apply Interest_wireEncode_wf|].
  split; [done|]. split.
  { intros word. unfold Interest_ofWire. eexists. split; [by apply Interest_wireDecode_element|].
    unfold Interest_decoded. by destruct (hasParameters i). }
  destruct (decoded_selectors (i_selectors i)) as [Hs Hf].
  unfold Interest_decoded. destruct (hasParameters i) eqn:Hp; cbn; repeat (split; [done|]).
  - destruct (wi_parameters i Hw Hp) as (_ & Ht & _).
    split; [by apply decoded_hint|]. split; [unfold type_value; cbn; by rewrite Ht|].
    split; [done|]. split.
    + change (negb ((if getCanBePrefix i then -1 else 1) =? 1) = getCanBePrefix i).
      by destruct (getCanBePrefix i).
    + unfold keeps_selectors. cbn. by destruct (getCanBePrefix i).
  - split; [by destruct (hasHint i) eqn:Eh; [|apply hasHint_false in Eh as ->]|].
    split; [done|]. split; [exact Hf|exact Hs].
Qed.

Definition sample_interest02 : Interest :=
  mkInterest [mkComponent 8 (str "a")]
    (mkSelectors 1 3 KeyLocator_new sample_exclude 1 true None) false 7 2000
    (mkDelegationList true [mkDelegation 10 [mkComponent 8 (str "r")]]) Block_default None no_tags.

Lemma sample_interest02_wf : wf_Interest sample_interest02.
Proof.
  split.
  - repeat constructor; by vm_compute.
  - split; [by vm_compute|by vm_compute|done| |by right].
    split; [apply exclude_made_wf, sample_exclude_made|]. repeat constructor.
  - by vm_compute.
  - by vm_compute.
  - repeat constructor; by vm_compute.
  - by vm_compute.
  - by vm_compute.
Qed.

Lemma Interest_roundtrip_witness :
  exists wire i', Interest_wireEncode sample_interest02 = Ok (wire, i') /\
    i_name i' = i_name sample_interest02 /\ getNonce i' = 7 /\
    keeps_selectors (i_selectors sample_interest02) (i_selectors i').
Proof.
  destruct (Interest_roundtrip sample_interest02 sample_interest02_wf eq_refl)
    as (w & i' & H1 & _ & _ & _ & _ & H2 & _ & H3 & _ & _ & _ & _ & H4).
  exists w, i'. split; [exact H1|]. split; [exact H2|]. split; [exact H3|exact H4].
Defined.

(** [matchesData], which avoids computing the implicit digest where it can,
    decides like the plain definition: the full name of the Data, digest included, matches
    by [matchesName], and the key locator selector, if any, is that of the signature. *)
Theorem matchesData_matchesName (computeDigest : octets -> octets) (i : Interest) (d : Data)
    (full : Name) (Hf : getFullName computeDigest d = Ok full) :
  matchesData computeDigest i d =
  let* m := matchesName i full in if (m : bool) then matches_locator i d else Ok false.
Proof.
  assert (Hs : name_size full = name_size (d_name d) + 1).
  { destruct (getFullName_digest _ _ _ Hf) as (c & -> & _). unfold name_size. by rewrite zlen_app. }
  unfold matchesData, matchesName. cbv zeta. rewrite <- Hs. set (n := name_size (i_name i)).
  destruct (name_size full <? n) eqn:E1; zbool.
  { rewrite (proj2 (Z.leb_gt _ _)); [done|]. case_match eqn:E; rewrite ?Z.geb_leb in E; zbool; lia. }
  rewrite (matches_prefix_full computeDigest i d full Hf), (matches_exclude_full computeDigest i d full Hf) by done.
  fold n. set (mi := sel_minSuffixComponents (i_selectors i)). set (ma := sel_maxSuffixComponents (i_selectors i)).
  assert (Hmin : negb (n + (if mi >=? 0 then mi else 0) <=? name_size full) =
                 (mi >=? 0) && negb (name_size full - n >=? mi)).
  { rewrite !Z.geb_leb. destruct (0 <=? mi) eqn:E; cbn [andb].
    - f_equal. apply Bool.eq_true_iff_eq. rewrite !Z.leb_le. lia.
    - apply negb_false_iff, Z.leb_le. lia. }
  assert (Hmax : (ma >=? 0) && negb (n + ma >=? name_size full) =
                 (ma >=? 0) && negb (name_size full - n <=? ma)).
  { f_equal. f_equal. apply Bool.eq_true_iff_eq. rewrite Z.geb_leb, !Z.leb_le. lia. }
  rewrite Hmin, Hmax.
  clearbody mi ma n.
  destruct ((mi >=? 0) && negb (name_size full - n >=? mi)); [by destruct (isPrefixOf _ _)|].
  destruct ((ma >=? 0) && negb (name_size full - n <=? ma)); [by destruct (isPrefixOf _ _)|].
  cbn [mbind result_bind]. destruct (isPrefixOf _ _); cbn [negb]; [|done].
  destruct (negb (Exclude_empty (sel_exclude (i_selectors i))) && (name_size full >? n)); [|done].
  destruct (name_at n full) as [c|]; cbn [mbind result_bind]; [|done].
  by destruct (isExcluded _ c).
Qed.

Lemma matchesData_matchesName_witness :
  matchesData (fun _ => replicate 32 x00)
    (mkInterest [mkComponent 8 (str "a")] Selectors_new true 7 4000 DelegationList_new Block_default None no_tags)
    (mkData (d_name sample_data) (d_metaInfo sample_data) (d_content sample_data) (d_signature sample_data)
       (Some (element tlv_Data (tlvs (Data_elements sample_data)))) no_tags) = Ok true.
Proof.
  erewrite matchesData_matchesName; [|by vm_compute]. by vm_compute.
Defined.

(** Whatever octets are decoded as Interest or Data, the decoder ends with a
    packet or with a [tlv::Error], which the link services catch; an accepted Interest has
    a nonce. *)
Theorem packet_decoders_errors (word : Z) (wire : Block) :
  caught (Data_ofWire wire) /\ caught (Interest_ofWire word wire) /\
  forall i, Interest_ofWire word wire = Ok i -> i_hasNonce i = true.
Proof.
  split; [apply caught_Data_wireDecode|]. split; [apply caught_Interest_wireDecode|].
  intros i. unfold Interest_ofWire, Interest_wireDecode.
  intros (els & _ & H)%result_bind_Ok. case_match; [done|].
  apply result_bind_Ok in H as ([i2|] & H2 & H).
  - injection H as <-. unfold decode02 in H2. destruct els as [|el els]; [done|]. case_match; [done|].
    apply result_bind_Ok in H2 as (nm & _ & H2). apply result_bind_Ok in H2 as ([s els2] & _ & H2).
    destruct els2 as [|el2 els2]; [done|]. case_match; [done|].
    apply result_bind_Ok in H2 as (nc & _ & H2). apply result_bind_Ok in H2 as ([lt els3] & _ & H2).
    apply result_bind_Ok in H2 as ([h [|? ?]] & _ & H2); [|done]. by injection H2 as <-.
  - apply result_bind_Ok in H as (i3 & _ & H). injection H as <-.
    by destruct (i_hasNonce i3) eqn:E; cbn.
Qed.

Lemma packet_decoders_errors_witness : exists i,
  Interest_ofWire 9 (element tlv_Interest (tlvs (Interest_elements sample_interest02))) = Ok i /\
  i_hasNonce i = true.
Proof.
  destruct (packet_decoders_errors 9 (element tlv_Interest (tlvs (Interest_elements sample_interest02))))
    as (_ & _ & H).
  eexists. split; [by vm_compute|]. apply H. by vm_compute.
Defined.
