(* ===== verification/ValPacket.v ===== *)
(** * VAL packets (model/val/val-packet.hpp, val-packet.cpp)

    A VAL header and at most one network-layer packet.  The packets are held by
    [shared_ptr]; a null pointer is [None], and dereferencing it is undefined. *)

From stdpp Require Import base list strings.
From Stdlib Require Import ZArith Lia.
From S2P Require Import Prelude Tlv Encoder Block Codec ValHeader Ndn Signature Selectors Data Interest.

Local Open Scope Z_scope.

Definition NOT_SET : Z := 0.
Definition DATA_SET : Z := 1.
Definition INTEREST_SET : Z := 2.

Record ValPacket := mkValPacket {
  m_isSet : Z;
  m_valH : ValHeader;
  m_interest : option Interest;
  m_data : option Data;
}.

Definition ValPacket_new (valH : ValHeader) : ValPacket := mkValPacket NOT_SET valH None None.

(** Only the first non-null packet is kept; later ones are logged and dropped. *)
Definition setInterest (interest : option Interest) (p : ValPacket) : ValPacket :=
  if (m_isSet p =? NOT_SET) && bool_decide (is_Some interest)
  then mkValPacket INTEREST_SET (m_valH p) interest (m_data p)
  else p.
Definition setData (data : option Data) (p : ValPacket) : ValPacket :=
  if (m_isSet p =? NOT_SET) && bool_decide (is_Some data)
  then mkValPacket DATA_SET (m_valH p) (m_interest p) data
  else p.

Definition getInterest (p : ValPacket) : result Interest :=
  match m_interest p with Some i => Ok i | None => Err (UndefinedBehaviour "null Interest") end.
Definition getData (p : ValPacket) : result Data :=
  match m_data p with Some d => Ok d | None => Err (UndefinedBehaviour "null Data") end.
Definition getValHeader : ValPacket -> ValHeader := m_valH.
Definition isSet : ValPacket -> Z := m_isSet.

(** [operator==]: the headers, and the nonce or the signature. *)
Definition ValPacket_eqb (lhs rhs : ValPacket) : result bool :=
  if negb (isSet lhs =? isSet rhs) then Ok false
  else if (isSet lhs =? isSet rhs) && (isSet lhs =? INTEREST_SET) then
    if negb (ValHeader_eqb (getValHeader lhs) (getValHeader rhs)) then Ok false else
    let* l := getInterest lhs in
    let* r := getInterest rhs in
    Ok (getNonce l =? getNonce r)
  else if (isSet lhs =? isSet rhs) && (isSet lhs =? DATA_SET) then
    if negb (ValHeader_eqb (getValHeader lhs) (getValHeader rhs)) then Ok false else
    let* l := getData lhs in
    let* r := getData rhs in
    Ok (Signature_eqb (getSignature l) (getSignature r))
  else Ok (isSet lhs =? isSet rhs).

(** ** The type invariant: the state says which pointer is set *)

Inductive wf_packet : ValPacket -> Prop :=
  | wf_not_set h : wf_packet (mkValPacket NOT_SET h None None)
  | wf_interest h i : wf_packet (mkValPacket INTEREST_SET h (Some i) None)
  | wf_data h d : wf_packet (mkValPacket DATA_SET h None (Some d)).

Definition interest_packet (h : ValHeader) (i : Interest) : ValPacket :=
  setInterest (Some i) (ValPacket_new h).
Definition data_packet (h : ValHeader) (d : Data) : ValPacket :=
  setData (Some d) (ValPacket_new h).

Lemma interest_packet_eq h i :
  interest_packet h i = mkValPacket INTEREST_SET h (Some i) None.
Proof. done. Qed.
Lemma data_packet_eq h d : data_packet h d = mkValPacket DATA_SET h None (Some d).
Proof. done. Qed.

Lemma wf_interest_packet h i : wf_packet (interest_packet h i).
Proof. rewrite interest_packet_eq. constructor. Qed.
Lemma wf_data_packet h d : wf_packet (data_packet h d).
Proof. rewrite data_packet_eq. constructor. Qed.
#[export] Hint Resolve wf_interest_packet wf_data_packet wf_not_set wf_interest wf_data : valdb.

Lemma wf_setInterest i p : wf_packet p -> wf_packet (setInterest i p).
Proof.
  intros [h|h i'|h d]; unfold setInterest; cbn; [|constructor..].
  destruct i; constructor.
Qed.
Lemma wf_setData d p : wf_packet p -> wf_packet (setData d p).
Proof.
  intros [h|h i'|h d']; unfold setData; cbn; [|constructor..].
  destruct d; constructor.
Qed.
#[export] Hint Resolve wf_setInterest wf_setData : valdb.

(** A sequence of calls of the two setters. *)
Inductive packet_op : Type :=
  | OpSetInterest (i : option Interest)
  | OpSetData (d : option Data).
Definition packet_step (p : ValPacket) (o : packet_op) : ValPacket :=
  match o with OpSetInterest i => setInterest i p | OpSetData d => setData d p end.

Lemma packet_step_set p o : isSet p <> NOT_SET -> packet_step p o = p.
Proof.
  intros H. destruct o; cbn; unfold setInterest, setData, isSet in *;
    by rewrite (proj2 (Z.eqb_neq _ _) H).
Qed.

Lemma packet_steps_set p ops : isSet p <> NOT_SET -> foldl packet_step p ops = p.
Proof.
  intros H. induction ops as [|o ops IH]; cbn; [done|]. by rewrite packet_step_set.
Qed.

(** Every VAL packet that can be built keeps the state and the pointers
    consistent, so the accessor its state announces never dereferences null; and
    the state changes at most once: after the first effective setter no sequence of
    calls changes the packet. *)
Theorem ValPacket_set_once (h : ValHeader) (ops ops' : list packet_op) :
  let p := foldl packet_step (ValPacket_new h) ops in
  wf_packet p /\
  getValHeader p = h /\
  (isSet p = INTEREST_SET -> is_ok (getInterest p) = true) /\
  (isSet p = DATA_SET -> is_ok (getData p) = true) /\
  (isSet p <> NOT_SET -> foldl packet_step p ops' = p).
Proof.
  intros p.
  assert (Hp : wf_packet p /\ getValHeader p = h).
  { subst p. induction ops as [|o ops IH] using rev_ind; [split; [constructor|done]|].
    rewrite foldl_snoc. destruct IH as [IHw IHh]. split.
    - destruct o; cbn; auto with valdb.
    - destruct o; cbn; unfold setInterest, setData; case_match; done. }
  destruct Hp as [Hw Hh]. split; [done|]. split; [done|].
  split; [by destruct Hw|]. split; [by destruct Hw|]. apply packet_steps_set.
Qed.

Lemma ValPacket_set_once_witness :
  let i := mkInterest [] Selectors_new true 7 4000 DelegationList_new Block_default (Some (element 5 [])) no_tags in
  let p := foldl packet_step (ValPacket_new ValHeader_default)
             [OpSetInterest None; OpSetInterest (Some i)] in
  foldl packet_step p [OpSetData None; OpSetInterest None] = p /\ isSet p = INTEREST_SET.
Proof.
  intros i p. split; [|by vm_compute].
  apply (ValPacket_set_once ValHeader_default
           [OpSetInterest None; OpSetInterest (Some i)] [OpSetData None; OpSetInterest None]).
  by vm_compute.
Defined.
