(* ===== verification/LpPacket.v ===== *)
(** * NDNLPv2 packets (ndn-cxx/lp/packet.hpp, packet.cpp, field-decl.hpp, fields.hpp,
    cache-policy.cpp, nack-header.cpp, prefix-announcement-header.cpp)

    The link-layer packet that carries a network-layer packet, or a fragment of one, with
    header fields beside it; the VAL header is one of these fields.  The packet keeps the
    encoded fields in the order of the protocol; the theorems show that adding a field
    keeps that order, so that what [wireEncode] builds is accepted by [wireDecode] and
    gives the same fields back. *)

From stdpp Require Import base list strings sorting.
From Stdlib Require Import Strings.Byte ZArith Lia.
From S2P Require Import Prelude Tlv Encoder Block Codec Ndn NameTlv Signature Data Interest ValHeader.

Local Open Scope Z_scope.

(** ** Field declarations (field-decl.hpp, fields.hpp) *)

Inductive field_location := Header | FragmentLocation.

Record FieldDecl := mkFieldDecl {
  FieldLocation : field_location;
  TlvType : Z;
  IsRepeatable : bool;
}.

Definition SequenceField := mkFieldDecl Header (lp_num Sequence) false.
Definition FragIndexField := mkFieldDecl Header (lp_num FragIndex) false.
Definition FragCountField := mkFieldDecl Header (lp_num FragCount) false.
Definition NackField := mkFieldDecl Header (lp_num Nack) false.
Definition NextHopFaceIdField := mkFieldDecl Header (lp_num NextHopFaceId) false.
Definition CachePolicyField := mkFieldDecl Header (lp_num CachePolicy) false.
Definition IncomingFaceIdField := mkFieldDecl Header (lp_num IncomingFaceId) false.
Definition CongestionMarkField := mkFieldDecl Header (lp_num CongestionMark) false.
Definition AckField := mkFieldDecl Header (lp_num Ack) true.
Definition TxSequenceField := mkFieldDecl Header (lp_num TxSequence) false.
Definition NonDiscoveryField := mkFieldDecl Header (lp_num NonDiscovery) false.
Definition PrefixAnnouncementField := mkFieldDecl Header (lp_num PrefixAnnouncement) false.
Definition HopCountTagField := mkFieldDecl Header (lp_num HopCountTag) false.
Definition FragmentField := mkFieldDecl FragmentLocation (lp_num Fragment) false.
Definition ValHeaderField := mkFieldDecl Header (lp_num TlvValHeader) false.

Definition FieldSet : list FieldDecl :=
  [FragmentField; SequenceField; FragIndexField; FragCountField; NackField;
   NextHopFaceIdField; CachePolicyField; IncomingFaceIdField; CongestionMarkField; AckField;
   TxSequenceField; NonDiscoveryField; PrefixAnnouncementField; HopCountTagField;
   ValHeaderField].

(** [DecodeHelper] and [EncodeHelper] of a field with values in [V].  An encoder that
    throws does so before it writes anything: [field_throws]. *)
Class FieldCodec (f : FieldDecl) (V : Type) := {
  DecodeHelper : Block -> result V;
  field_throws : V -> option fault;
  EncodeHelper : forall E (I : EncodingImpl E), V -> E -> Z * E;
}.
Arguments DecodeHelper f {_ _} _.
Arguments field_throws f {_ _} _.
Arguments EncodeHelper f {_ _ _ _} _ _.

(** The specialisations of the helpers. *)

(** [EmptyValue] *)
Definition decode_empty (wire : Block) : result unit :=
  if negb (block_value_size wire =? 0)
  then Err (TlvError "NDNLP field must be empty") else Ok tt.

(** [NonNegativeIntegerTag] *)
Definition decode_nni (wire : Block) : result Z := block_readNonNegativeInteger wire.

(** [uint64_t]: eight octets, big endian *)
Definition decode_u64 (wire : Block) : result Z :=
  if negb (block_value_size wire =? 8)
  then Err (TlvError "NDNLP field should contain a 64-bit integer")
  else Ok (be_value (block_value wire)).
Definition encode_u64 `{EncodingImpl E} (type value : Z) (e : E) : Z * E :=
  prependByteArrayBlock type (be_bytes 8 value) e.

(** A range of octets *)
Definition decode_range (wire : Block) : result octets :=
  if block_value_size wire =? 0
  then Err (TlvError "NDNLP field cannot be empty") else Ok (block_value wire).
Definition encode_range `{EncodingImpl E} (type : Z) (value : octets) (e : E) : Z * E :=
  let '(length, e) := prependByteArray value e in
  let '(n1, e) := prependVarNumber length e in
  let '(n2, e) := prependVarNumber type e in
  (length + n1 + n2, e).

(** [static_cast] of an integer to an enumeration whose underlying type is [int]. *)
Definition i32 (z : Z) : Z := (z + 2 ^ 31) mod 2 ^ 32 - 2 ^ 31.

(** ** Cache policies (cache-policy.cpp) *)

Definition CachePolicyType_NONE : Z := 0.
Definition CachePolicyType_NO_CACHE : Z := 1.

Definition CachePolicy_throws (policy : Z) : option fault :=
  if policy =? CachePolicyType_NONE then Some (TlvError "CachePolicyType must be set") else None.

Definition CachePolicy_wireEncode `{EncodingImpl E} (policy : Z) (e : E) : Z * E :=
  let '(length, e) := prependNonNegativeIntegerBlock (lp_num CachePolicyType) (u32 policy) e in
  let '(n1, e) := prependVarNumber length e in
  let '(n2, e) := prependVarNumber (lp_num CachePolicy) e in
  (length + n1 + n2, e).

Definition CachePolicy_getPolicy (policy : Z) : Z :=
  if policy =? CachePolicyType_NO_CACHE then policy else CachePolicyType_NONE.

Definition CachePolicy_wireDecode (wire : Block) : result Z :=
  if negb (block_type wire =? lp_num CachePolicy) then Err (TlvError "expecting CachePolicy block")
  else
    let* els := parse wire in
    match els with
    | it :: _ =>
      if block_type it =? lp_num CachePolicyType then
        let* n := block_readNonNegativeInteger it in
        let m_policy := i32 n in
        if CachePolicy_getPolicy m_policy =? CachePolicyType_NONE
        then Err (TlvError "unknown CachePolicyType") else Ok m_policy
      else Err (TlvError "expecting CachePolicyType block")
    | [] => Err (TlvError "expecting CachePolicyType block")
    end.

(** ** Nack headers (nack-header.cpp) *)

Definition NackReason_NONE : Z := 0.
Definition NackReason_CONGESTION : Z := 50.
Definition NackReason_DUPLICATE : Z := 100.
Definition NackReason_NO_ROUTE : Z := 150.

Definition isLessSevere (x y : Z) : bool :=
  if x =? NackReason_NONE then false
  else if y =? NackReason_NONE then true else x <? y.

Definition NackHeader_wireEncode `{EncodingImpl E} (reason : Z) (e : E) : Z * E :=
  let '(length, e) := prependNonNegativeIntegerBlock (lp_num NackReason) (u32 reason) e in
  let '(n1, e) := prependVarNumber length e in
  let '(n2, e) := prependVarNumber (lp_num Nack) e in
  (length + n1 + n2, e).

Definition NackHeader_wireDecode (wire : Block) : result Z :=
  if negb (block_type wire =? lp_num Nack) then Err (TlvError "expecting Nack block")
  else
    let* els := parse wire in
    match els with
    | [] => Ok NackReason_NONE
    | it :: _ =>
      if block_type it =? lp_num NackReason
      then let* n := block_readNonNegativeInteger it in Ok (i32 n)
      else Err (TlvError "expecting NackReason block")
    end.

Definition NackHeader_getReason (reason : Z) : Z :=
  if (reason =? NackReason_CONGESTION) || (reason =? NackReason_DUPLICATE) ||
     (reason =? NackReason_NO_ROUTE)
  then reason else NackReason_NONE.

(** ** The decoders of network-layer packets

    [Interest(const Block&)] and [Data(const Block&)], and [PrefixAnnouncement(Data)],
    represented by the octets its Data is encoded to.  From outside they take the random
    word an Interest without nonce gets, and the parser of ISO dates. *)
Class NetworkPackets := {
  generateWord32 : Block -> Z;
  fromIsoString : octets -> result Z;
}.

Section decoders.
Context `{NetworkPackets}.
Definition Interest_ofBlock (wire : Block) : result Interest := Interest_ofWire (generateWord32 wire) wire.
Definition Data_ofBlock (wire : Block) : result Data := Data_ofWire wire.
Definition PrefixAnnouncement_ofData (data : Data) : result octets :=
  let* pa := PrefixAnnouncement_new fromIsoString data in
  let* wire := encodeWire (Data_encode (pa_data pa) false) in
  Ok (block_wire wire).
End decoders.

(** prefix-announcement-header.cpp *)
Definition PrefixAnnouncementHeader_wireEncode `{EncodingImpl E} (data : octets) (e : E) : Z * E :=
  let '(length, e) := prependByteArray data e in
  let '(n1, e) := prependVarNumber length e in
  let '(n2, e) := prependVarNumber (lp_num PrefixAnnouncement) e in
  (length + n1 + n2, e).

Definition PrefixAnnouncementHeader_wireDecode `{NetworkPackets} (wire : Block) : result octets :=
  if negb (block_type wire =? lp_num PrefixAnnouncement) then Err (TlvError "Unexpected TLV-TYPE")
  else
    let* els := parse wire in
    let* b := block_get tlv_Data els in
    let* d := Data_ofBlock b in
    PrefixAnnouncement_ofData d.

(** ** The codecs of the declared fields *)

Definition nni_codec (f : FieldDecl) : FieldCodec f Z :=
  {| DecodeHelper := decode_nni; field_throws _ := None;
     EncodeHelper E I v := prependNonNegativeIntegerBlock (TlvType f) v |}.
Definition u64_codec (f : FieldDecl) : FieldCodec f Z :=
  {| DecodeHelper := decode_u64; field_throws _ := None;
     EncodeHelper E I v := encode_u64 (TlvType f) v |}.

#[export] Instance Sequence_codec : FieldCodec SequenceField Z := u64_codec _.
#[export] Instance Ack_codec : FieldCodec AckField Z := u64_codec _.
#[export] Instance TxSequence_codec : FieldCodec TxSequenceField Z := u64_codec _.
#[export] Instance HopCountTag_codec : FieldCodec HopCountTagField Z := u64_codec _.
#[export] Instance FragIndex_codec : FieldCodec FragIndexField Z := nni_codec _.
#[export] Instance FragCount_codec : FieldCodec FragCountField Z := nni_codec _.
#[export] Instance NextHopFaceId_codec : FieldCodec NextHopFaceIdField Z := nni_codec _.
#[export] Instance IncomingFaceId_codec : FieldCodec IncomingFaceIdField Z := nni_codec _.
#[export] Instance CongestionMark_codec : FieldCodec CongestionMarkField Z := nni_codec _.
#[export] Instance NonDiscovery_codec : FieldCodec NonDiscoveryField unit :=
  {| DecodeHelper := decode_empty; field_throws _ := None;
     EncodeHelper E I _ := prependEmptyBlock (TlvType NonDiscoveryField) |}.
#[export] Instance Fragment_codec : FieldCodec FragmentField octets :=
  {| DecodeHelper := decode_range; field_throws _ := None;
     EncodeHelper E I v := encode_range (TlvType FragmentField) v |}.
#[export] Instance CachePolicy_codec : FieldCodec CachePolicyField Z :=
  {| DecodeHelper := CachePolicy_wireDecode; field_throws := CachePolicy_throws;
     EncodeHelper E I v := CachePolicy_wireEncode v |}.
#[export] Instance Nack_codec : FieldCodec NackField Z :=
  {| DecodeHelper := NackHeader_wireDecode; field_throws _ := None;
     EncodeHelper E I v := NackHeader_wireEncode v |}.
#[export] Instance PrefixAnnouncement_codec `{NetworkPackets} :
  FieldCodec PrefixAnnouncementField octets :=
  {| DecodeHelper := PrefixAnnouncementHeader_wireDecode; field_throws _ := None;
     EncodeHelper E I v := PrefixAnnouncementHeader_wireEncode v |}.
#[export] Instance ValHeader_codec : FieldCodec ValHeaderField ValHeader :=
  {| DecodeHelper := wireDecode ValHeader_default; field_throws _ := None;
     EncodeHelper E I v := wireEncode v |}.

(** [FieldDecl::decode] *)
Definition field_decode (f : FieldDecl) `{FieldCodec f V} (wire : Block) : result V :=
  if negb (block_type wire =? TlvType f) then Err (TlvError "Unexpected TLV-TYPE")
  else DecodeHelper f wire.

(** ** The order of fields (packet.cpp) *)

Record FieldInfo := mkFieldInfo {
  tlvType : Z;
  isRecognized : bool;
  canIgnore : bool;
  isRepeatable : bool;
  locationSortOrder : Z;
}.

Definition getLocationSortOrder (l : field_location) : Z :=
  match l with Header => 1 | FragmentLocation => 2 end.

Definition ExtractFieldInfo (info : FieldInfo) (f : FieldDecl) : FieldInfo :=
  if negb (TlvType f =? tlvType info) then info
  else mkFieldInfo (tlvType info) true false (IsRepeatable f)
         (getLocationSortOrder (FieldLocation f)).

Definition HEADER3_MIN : Z := 800.
Definition HEADER3_MAX : Z := 959.

(** [FieldInfo(uint64_t)]: the loop over the declarations, then the test of the types
    that may be ignored. *)
Definition extract_all (info : FieldInfo) : FieldInfo := foldl ExtractFieldInfo info FieldSet.
Definition with_canIgnore (info : FieldInfo) : FieldInfo :=
  if negb (isRecognized info) then
    mkFieldInfo (tlvType info) (isRecognized info)
      ((HEADER3_MIN <=? tlvType info) && (tlvType info <=? HEADER3_MAX) &&
       (Z.land (tlvType info) 3 =? 0))
      (isRepeatable info) (locationSortOrder info)
  else info.
Definition FieldInfo_new (tlv : Z) : FieldInfo :=
  with_canIgnore (extract_all (mkFieldInfo tlv false false false (getLocationSortOrder Header))).

Definition compareFieldSortOrder (first second : FieldInfo) : bool :=
  (locationSortOrder first <? locationSortOrder second) ||
  ((locationSortOrder first =? locationSortOrder second) && (tlvType first <? tlvType second)).

(** ** The packet *)

(** [m_wire]: its wire encoding, if any, and its sub-elements. *)
Record Packet := mkPacket {
  pk_wire : option Block;
  pk_elements : list Block;
}.

Definition Packet_new : Packet := mkPacket None [].

Definition comparePos (first : Z) (second : Block) : bool :=
  compareFieldSortOrder (FieldInfo_new first) (FieldInfo_new (block_type second)).

Definition is_field (f : FieldDecl) (b : Block) : bool := block_type b =? TlvType f.

Definition pkt_empty (p : Packet) : bool := Nat.eqb (length (pk_elements p)) 0.
Definition pkt_count (f : FieldDecl) (p : Packet) : nat :=
  length (List.filter (is_field f) (pk_elements p)).
Definition pkt_has (f : FieldDecl) (p : Packet) : bool := Nat.ltb 0 (pkt_count f p).

Fixpoint get_loop (f : FieldDecl) `{FieldCodec f V} (count index : nat) (els : list Block) : result V :=
  match els with
  | [] => Err (OutOfRange "Index out of range")
  | el :: els' =>
    if negb (is_field f el) then get_loop f count index els'
    else if Nat.eqb count index then field_decode f el
    else get_loop f (S count) index els'
  end.
Definition pkt_get (f : FieldDecl) `{FieldCodec f V} (index : nat) (p : Packet) : result V :=
  get_loop f 0 index (pk_elements p).

Fixpoint list_loop (f : FieldDecl) `{FieldCodec f V} (els : list Block) : result (list V) :=
  match els with
  | [] => Ok []
  | el :: els' =>
    if negb (is_field f el) then list_loop f els'
    else let* v := field_decode f el in let* vs := list_loop f els' in Ok (v :: vs)
  end.
Definition pkt_list (f : FieldDecl) `{FieldCodec f V} (p : Packet) : result (list V) :=
  list_loop f (pk_elements p).

(** [clear]: [Block::remove], which drops the wire. *)
Definition pkt_clear (f : FieldDecl) (p : Packet) : Packet :=
  mkPacket None (block_remove (TlvType f) (pk_elements p)).

(** [std::upper_bound] with [comparePos], then [Block::insert]: in front of the first
    element that sorts after the field (the elements are partitioned by that test). *)
Fixpoint insert_field (f : FieldDecl) (b : Block) (els : list Block) : list Block :=
  match els with
  | [] => [b]
  | x :: els' => if comparePos (TlvType f) x then b :: els else x :: insert_field f b els'
  end.

Definition field_block (f : FieldDecl) `{FieldCodec f V} (value : V) : result Block :=
  match field_throws f value with
  | Some e => Err e
  | None => encodeBlock (EncodeHelper f value) (EncodeHelper f value)
  end.

Definition pkt_add (f : FieldDecl) `{FieldCodec f V} (value : V) (p : Packet) : result Packet :=
  if negb (IsRepeatable f) && pkt_has f p then Err (LengthError "Field cannot be repeated")
  else
    let* block := field_block f value in
    Ok (mkPacket None (insert_field f block (pk_elements p))).

Definition pkt_set (f : FieldDecl) `{FieldCodec f V} (value : V) (p : Packet) : result Packet :=
  pkt_add f value (pkt_clear f p).

Fixpoint remove_loop (f : FieldDecl) (count index : nat) (els : list Block) : result (list Block) :=
  match els with
  | [] => Err (OutOfRange "Index out of range")
  | el :: els' =>
    if is_field f el then
      if Nat.eqb count index then Ok els'
      else let* r := remove_loop f (S count) index els' in Ok (el :: r)
    else let* r := remove_loop f count index els' in Ok (el :: r)
  end.
Definition pkt_remove (f : FieldDecl) (index : nat) (p : Packet) : result Packet :=
  let* els := remove_loop f 0 index (pk_elements p) in Ok (mkPacket None els).

(** [wireEncode]: a packet with only the Fragment field is encoded as the bare network
    packet.  The result is the block with its sub-elements, and the packet, whose wire
    and elements [Block::encode] may have replaced. *)
Definition pkt_wireEncode (p : Packet) : result (Block * list Block * Packet) :=
  match pk_elements p with
  | [front] =>
    if is_field FragmentField front then
      let* els := parse front in
      match els with
      | b :: _ => Ok (b, [], p)
      | [] => Err (UndefinedBehaviour "front() of an empty vector")
      end
    else match pk_wire p with
         | Some w => Ok (w, pk_elements p, p)
         | None => let* (w, els) := Block_encode (lp_num LpPacket) (pk_elements p) in
                   Ok (w, els, mkPacket (Some w) els)
         end
  | _ =>
    match pk_wire p with
    | Some w => Ok (w, pk_elements p, p)
    | None => let* (w, els) := Block_encode (lp_num LpPacket) (pk_elements p) in
              Ok (w, els, mkPacket (Some w) els)
    end
  end.

(** The loop of [wireDecode] over the elements, with the information of the previous one. *)
Fixpoint check_fields (prev : option FieldInfo) (els : list Block) : result unit :=
  match els with
  | [] => Ok tt
  | element :: els' =>
    let info := FieldInfo_new (block_type element) in
    if negb (isRecognized info) && negb (canIgnore info)
    then Err (TlvError "unrecognized field cannot be ignored")
    else match prev with
         | Some prev =>
           if (tlvType info =? tlvType prev) && negb (isRepeatable info)
           then Err (TlvError "non-repeatable field cannot be repeated")
           else if negb (tlvType info =? tlvType prev) && negb (compareFieldSortOrder prev info)
           then Err (TlvError "fields are not in correct sort order")
           else check_fields (Some info) els'
         | None => check_fields (Some info) els'
         end
  end.

Definition pkt_wireDecode (wire : Block) : result Packet :=
  if (block_type wire =? tlv_Interest) || (block_type wire =? tlv_Data) then
    pkt_add FragmentField (block_wire wire) Packet_new
  else if negb (block_type wire =? lp_num LpPacket) then Err (TlvError "unrecognized TLV-TYPE")
  else
    let* els := parse wire in
    let* _ := check_fields None els in
    Ok (mkPacket (Some wire) els).

(** ** The order of fields is a total order on TLV-TYPEs *)

(** Location, then TLV-TYPE, as one integer. *)
Definition field_key (t : Z) : Z := locationSortOrder (FieldInfo_new t) * 2 ^ 32 + t.

Lemma extract_tlvType fs i : tlvType (foldl ExtractFieldInfo i fs) = tlvType i.
Proof.
  revert i. induction fs as [|f fs IH]; intros i; [done|]. cbn [foldl]. rewrite IH.
  unfold ExtractFieldInfo. by case_match.
Qed.

Lemma with_canIgnore_tlvType i : tlvType (with_canIgnore i) = tlvType i.
Proof. unfold with_canIgnore. by case_match. Qed.
Lemma with_canIgnore_location i : locationSortOrder (with_canIgnore i) = locationSortOrder i.
Proof. unfold with_canIgnore. by case_match. Qed.
Lemma with_canIgnore_known i :
  (isRecognized (with_canIgnore i), isRepeatable (with_canIgnore i)) = (isRecognized i, isRepeatable i).
Proof. unfold with_canIgnore. by case_match. Qed.

Lemma FieldInfo_tlvType t : tlvType (FieldInfo_new t) = t.
Proof. unfold FieldInfo_new. rewrite with_canIgnore_tlvType. apply extract_tlvType. Qed.

(** Folding over declarations that give the type [t] the properties [g] keeps them. *)
Lemma extract_invariant {A} (g : FieldInfo -> A) fs i a :
  g i = a ->
  (forall f, f ∈ fs -> TlvType f = tlvType i ->
     g (mkFieldInfo (tlvType i) true false (IsRepeatable f) (getLocationSortOrder (FieldLocation f))) = a) ->
  g (foldl ExtractFieldInfo i fs) = a.
Proof.
  revert i. induction fs as [|f fs IH]; intros i Hi Hf; [done|]. cbn [foldl]. apply IH.
  - unfold ExtractFieldInfo. case_match eqn:E; [done|]. apply negb_false_iff, Z.eqb_eq in E.
    apply Hf; [left|done].
  - intros f' Hf' Ht. unfold ExtractFieldInfo in *. case_match; cbn [tlvType] in *; apply Hf; by try right.
Qed.

Definition lp_location (t : Z) : Z := if t =? lp_num Fragment then 2 else 1.

Lemma FieldInfo_location t : locationSortOrder (FieldInfo_new t) = lp_location t.
Proof.
  unfold lp_location. destruct (Z.eqb_spec t (lp_num Fragment)) as [->|Hn]; [done|].
  unfold FieldInfo_new. rewrite with_canIgnore_location. unfold extract_all.
  apply (extract_invariant locationSortOrder); [done|]. intros f Hf. cbn [tlvType].
  intros <-. cbn [locationSortOrder].
  assert (Hall : Forall (fun f => TlvType f = lp_num Fragment \/
    getLocationSortOrder (FieldLocation f) = 1) FieldSet).
  { repeat (constructor; [first [by left|by right]|]). constructor. }
  rewrite Forall_forall in Hall. by destruct (Hall f Hf).
Qed.

Lemma compareFieldSortOrder_key t1 t2 :
  is_u32 t1 -> is_u32 t2 ->
  compareFieldSortOrder (FieldInfo_new t1) (FieldInfo_new t2) = (field_key t1 <? field_key t2).
Proof.
  unfold is_u32, compareFieldSortOrder, field_key. intros H1 H2.
  rewrite !FieldInfo_tlvType, !FieldInfo_location.
  generalize (lp_location t1), (lp_location t2). intros l1 l2.
  destruct (Z.ltb_spec l1 l2), (Z.eqb_spec l1 l2), (Z.ltb_spec t1 t2); cbn;
    symmetry; rewrite ?Z.ltb_lt, ?Z.ltb_ge; nia.
Qed.

Lemma field_key_inj t1 t2 :
  is_u32 t1 -> is_u32 t2 -> field_key t1 = field_key t2 -> t1 = t2.
Proof.
  unfold is_u32, field_key. rewrite !FieldInfo_location. unfold lp_location. cbn [lp_num].
  repeat case_match; zbool; lia.
Qed.

(** ** Well-formed packets *)

Definition known_field (b : Block) : Prop :=
  isRecognized (FieldInfo_new (block_type b)) = true \/ canIgnore (FieldInfo_new (block_type b)) = true.

(** An element may follow another one: a later place, or a repetition. *)
Definition may_follow (a b : Block) : Prop :=
  field_key (block_type a) < field_key (block_type b) \/
  block_type a = block_type b /\ isRepeatable (FieldInfo_new (block_type b)) = true.

Definition fields_ok (els : list Block) : Prop :=
  Forall (fun b => is_u32 (block_type b) /\ known_field b) els /\ StronglySorted may_follow els.

Lemma may_follow_trans a b c : may_follow a b -> may_follow b c -> may_follow a c.
Proof.
  unfold may_follow. intros [H1|[E1 R1]] [H2|[E2 R2]]; rewrite ?E1, ?E2 in *.
  - left; lia.
  - left; lia.
  - left; lia.
  - right; split; [congruence|done].
Qed.

Lemma check_fields_step prev b els :
  is_u32 (block_type prev) -> is_u32 (block_type b) ->
  check_fields (Some (FieldInfo_new (block_type prev))) (b :: els) = Ok tt <->
  known_field b /\ may_follow prev b /\
  check_fields (Some (FieldInfo_new (block_type b))) els = Ok tt.
Proof.
  intros Hp Hb. cbn [check_fields]. rewrite !FieldInfo_tlvType.
  rewrite (compareFieldSortOrder_key _ _ Hp Hb). unfold known_field, may_follow.
  pose proof (field_key_inj _ _ Hp Hb) as Hinj.
  assert (Hk : negb (isRecognized (FieldInfo_new (block_type b))) &&
    negb (canIgnore (FieldInfo_new (block_type b))) = false <->
    isRecognized (FieldInfo_new (block_type b)) = true \/
    canIgnore (FieldInfo_new (block_type b)) = true)
    by (destruct (isRecognized _), (canIgnore _); cbn; intuition congruence).
  rewrite <- Hk. destruct (negb _ && negb _) eqn:Ek; [by split; [|intros [? _]]|].
  clear Hk Ek. destruct (isRepeatable _), (Z.eqb_spec (block_type b) (block_type prev)) as [E|E],
    (Z.ltb_spec (field_key (block_type prev)) (field_key (block_type b))) as [Hl|Hl];
    cbn [negb andb]; try rewrite E in *; intuition (congruence || lia).
Qed.

Lemma check_fields_sorted prev els :
  is_u32 (block_type prev) -> Forall (fun b => is_u32 (block_type b)) els ->
  check_fields (Some (FieldInfo_new (block_type prev))) els = Ok tt <->
  Forall known_field els /\ Forall (may_follow prev) els /\ StronglySorted may_follow els.
Proof.
  revert prev. induction els as [|b els IH]; intros prev Hp Hall.
  - split; [intros _; repeat split; constructor|done].
  - apply Forall_cons in Hall as [Hb Hall]. rewrite check_fields_step by done.
    rewrite (IH b Hb Hall), !Forall_cons. split.
    + intros (Hk & Hf & Hks & Hfs & Hss). split; [done|]. split.
      * split; [done|]. eapply Forall_impl; [exact Hfs|]. intros c. by apply may_follow_trans.
      * by constructor.
    + intros ([Hk Hks] & [Hf Hfs] & Hss). inversion Hss; subst. done.
Qed.

Lemma check_fields_ok els :
  Forall (fun b => is_u32 (block_type b)) els ->
  check_fields None els = Ok tt <-> fields_ok els.
Proof.
  intros Hall. destruct els as [|b els].
  - split; [intros _; split; constructor|done].
  - apply Forall_cons in Hall as [Hb Hall].
    assert (E : check_fields None (b :: els) = Ok tt <->
      known_field b /\ check_fields (Some (FieldInfo_new (block_type b))) els = Ok tt).
    { cbn [check_fields]. unfold known_field.
      destruct (isRecognized _), (canIgnore _); cbn [negb andb]; split; auto.
      - by intros [_ ?].
      - by intros [_ ?].
      - by intros [_ ?].
      - done.
      - by intros [[?|?] _]. }
    rewrite E, (check_fields_sorted b els Hb Hall). unfold fields_ok. rewrite Forall_cons, Forall_and.
    split.
    + intros (Hk & Hks & Hf & Hs). split; [done|by constructor].
    + intros [[[_ Hk] [_ Hks]] Hs]. inversion Hs; subst. done.
Qed.

(** ** Adding a field *)

Definition field_declared (f : FieldDecl) : Prop :=
  is_u32 (TlvType f) /\ isRecognized (FieldInfo_new (TlvType f)) = true /\
  isRepeatable (FieldInfo_new (TlvType f)) = IsRepeatable f.

Lemma FieldSet_declared : Forall field_declared FieldSet.
Proof.
  assert (Hb : forallb (fun f => (0 <=? TlvType f) && (TlvType f <? 2 ^ 32) &&
    isRecognized (FieldInfo_new (TlvType f)) &&
    Bool.eqb (isRepeatable (FieldInfo_new (TlvType f))) (IsRepeatable f)) FieldSet = true)
    by (vm_compute; reflexivity).
  rewrite forallb_forall in Hb. apply Forall_forall. intros f Hf%list_elem_of_In.
  specialize (Hb f Hf). apply andb_true_iff in Hb as [Hb Hr%Bool.eqb_prop].
  apply andb_true_iff in Hb as [Hb Hrec]. zbool. by split.
Qed.

Lemma insert_field_perm f b els : insert_field f b els ≡ₚ b :: els.
Proof.
  induction els as [|x els IH]; cbn [insert_field]; [done|]. case_match; [done|].
  rewrite IH. apply Permutation_swap.
Qed.

Lemma comparePos_key f b :
  is_u32 (TlvType f) -> is_u32 (block_type b) ->
  comparePos (TlvType f) b = (field_key (TlvType f) <? field_key (block_type b)).
Proof. apply compareFieldSortOrder_key. Qed.

Lemma insert_field_ok f b els :
  field_declared f -> block_type b = TlvType f ->
  IsRepeatable f = true \/ Forall (fun x => block_type x <> TlvType f) els ->
  fields_ok els -> fields_ok (insert_field f b els).
Proof.
  intros (Hu & Hrec & Hrep) Hb Hx [Hall Hs]. split.
  - rewrite insert_field_perm. constructor; [|done]. rewrite Hb. split; [done|].
    left. by rewrite Hb.
  - revert Hx Hall. induction Hs as [|x els Hs IH Hf]; intros Hx Hall; cbn [insert_field].
    { repeat constructor. }
    apply Forall_cons in Hall as [[Hxu Hxk] Hall]. rewrite comparePos_key by done.
    destruct (Z.ltb_spec (field_key (TlvType f)) (field_key (block_type x))) as [Hl|Hl].
    + constructor; [by constructor|]. constructor; [left; by rewrite Hb|].
      eapply Forall_impl; [exact Hf|]. intros y Hy. left. rewrite Hb.
      destruct Hy as [Hy|[Hy _]]; [lia|by rewrite <- Hy].
    + constructor.
      * apply IH; [|done]. destruct Hx as [Hx|Hx]; [by left|right]. by apply Forall_cons in Hx as [_ Hx].
      * rewrite insert_field_perm. constructor; [|done]. unfold may_follow. rewrite Hb, Hrep.
        destruct (decide (block_type x = TlvType f)) as [E|E].
        -- right. split; [done|]. destruct Hx as [Hx|Hx]; [done|].
           apply Forall_cons in Hx. tauto.
        -- left. pose proof (field_key_inj _ _ Hxu Hu). lia.
Qed.

Lemma filter_insert_field f g b els :
  field_declared f -> block_type b = TlvType f -> fields_ok els ->
  List.filter (is_field g) (insert_field f b els) =
  List.filter (is_field g) els ++ (if TlvType f =? TlvType g then [b] else []).
Proof.
  intros (Hu & _) Hb [Hall Hs]. revert Hall.
  induction Hs as [|x els Hs IH Hf]; intros Hall; cbn [insert_field].
  - cbn [List.filter app]. unfold is_field. rewrite Hb. by case_match.
  - apply Forall_cons in Hall as [[Hxu Hxk] Hall]. rewrite comparePos_key by done.
    destruct (Z.ltb_spec (field_key (TlvType f)) (field_key (block_type x))) as [Hl|Hl].
    + cbn [List.filter]. unfold is_field at 1. rewrite Hb.
      destruct (Z.eqb_spec (TlvType f) (TlvType g)) as [E|E]; [|by rewrite app_nil_r].
      assert (Hnone : List.filter (is_field g) (x :: els) = []).
      { assert (Hlt : Forall (fun y => field_key (TlvType f) < field_key (block_type y)) (x :: els)).
        { constructor; [done|]. eapply Forall_impl; [exact Hf|]. intros y [Hy|[Hy _]]; [lia|].
          by rewrite <- Hy. }
        clear -Hlt E. induction Hlt as [|y ys Hy _ IHl]; [done|]. cbn [List.filter].
        unfold is_field at 1. destruct (Z.eqb_spec (block_type y) (TlvType g)) as [E'|E']; [|done].
        rewrite E', <- E in Hy. lia. }
      cbn [List.filter] in Hnone. by rewrite Hnone.
    + cbn [List.filter]. rewrite (IH Hall). by destruct (is_field g x).
Qed.

Lemma get_loop_filter f `{FieldCodec f V} c i els :
  (c <= i)%nat ->
  get_loop f c i els =
  match List.filter (is_field f) els !! (i - c)%nat with
  | Some el => DecodeHelper f el
  | None => Err (OutOfRange "Index out of range")
  end.
Proof.
  revert c. induction els as [|el els IH]; intros c Hc; cbn [get_loop List.filter]; [done|].
  destruct (is_field f el) eqn:E; cbn [negb]; [|by apply IH].
  destruct (Nat.eqb_spec c i) as [->|Hn].
  - rewrite Nat.sub_diag. cbn. unfold field_decode. unfold is_field in E. by rewrite E.
  - rewrite IH by lia. replace (i - c)%nat with (S (i - S c)) by lia. done.
Qed.

Lemma pkt_get_filter f `{FieldCodec f V} i p :
  pkt_get f i p =
  match List.filter (is_field f) (pk_elements p) !! i with
  | Some el => DecodeHelper f el
  | None => Err (OutOfRange "Index out of range")
  end.
Proof. unfold pkt_get. rewrite get_loop_filter by lia. by rewrite Nat.sub_0_r. Qed.

Lemma pkt_has_Exists f p :
  pkt_has f p = false <-> Forall (fun x => block_type x <> TlvType f) (pk_elements p).
Proof.
  unfold pkt_has, pkt_count. rewrite Nat.ltb_ge.
  induction (pk_elements p) as [|x els IH]; cbn; [split; [constructor|lia]|].
  unfold is_field at 1. rewrite Forall_cons.
  destruct (Z.eqb_spec (block_type x) (TlvType f)); cbn; [split; [lia|tauto]|]. rewrite IH. tauto.
Qed.

(** ** What a codec promises

    For the values it can carry, the encoder writes the element of the field's type and
    the decoder reads it back, up to [field_norm] (a decoded VAL header remembers its
    wire). *)
Class FieldLaws (f : FieldDecl) (V : Type) `{FieldCodec f V} := {
  field_valid : V -> Prop;
  field_value : V -> octets;
  field_norm : V -> V;
  law_declared : field_declared f;
  law_encodes : forall v, field_valid v ->
    field_throws f v = None /\ encodable (TlvType f) (field_value v) /\
    emits (E:=Encoder) (EncodeHelper f v) (tlv (TlvType f) (field_value v));
  law_decodes : forall v, field_valid v ->
    DecodeHelper f (element (TlvType f) (field_value v)) = Ok (field_norm v);
}.
Arguments field_valid f {_ _ _} _.
Arguments field_value f {_ _ _} _.
Arguments field_norm f {_ _ _} _.

Lemma small_encodable t v : is_u32 t -> zlen v < 2 ^ 32 -> encodable t v.
Proof. intros Ht Hv. split; [done|]. pose proof (zlen_nonneg v). unfold is_u64. lia. Qed.

Lemma emits_encode_range type v : emits (E:=Encoder) (encode_range type v) (tlv type v).
Proof.
  eapply emits_ext; [|apply (emits_element _ type _ (emits_prependByteArray v))].
  intros e. unfold encode_range, seq2. destruct (prependByteArray v e) as [n0 e1].
  destruct (prependVarNumber n0 e1) as [n1 e2]. by destruct (prependVarNumber type e2).
Qed.

Lemma nni_laws (f : FieldDecl) : f ∈ FieldSet -> @FieldLaws f Z (nni_codec f).
Proof.
  intros Hf. pose proof (proj1 (Forall_forall _ _) FieldSet_declared f Hf) as Hd.
  refine {| field_valid := is_u64; field_value := nonneg_integer; field_norm v := v |}; [done|..].
  - intros v Hv. split; [done|]. split; [|apply emits_prependNonNegativeIntegerBlock].
    apply small_encodable; [apply Hd|]. pose proof (nonneg_integer_small v). lia.
  - intros v Hv. by apply block_readNonNegativeInteger_element.
Defined.

Lemma u64_laws (f : FieldDecl) : f ∈ FieldSet -> @FieldLaws f Z (u64_codec f).
Proof.
  intros Hf. pose proof (proj1 (Forall_forall _ _) FieldSet_declared f Hf) as Hd.
  refine {| field_valid := is_u64; field_value := be_bytes 8; field_norm v := v |}; [done|..].
  - intros v Hv. split; [done|]. split; [|apply emits_prependByteArrayBlock].
    apply small_encodable; [apply Hd|]. rewrite zlen_be_bytes. lia.
  - intros v Hv. cbn [DecodeHelper u64_codec]. unfold decode_u64, block_value_size.
    cbn [block_value element]. rewrite zlen_be_bytes.
    change (negb (Z.of_nat 8 =? 8)) with false. by rewrite be_value_bytes.
Defined.

Ltac in_FieldSet := apply list_elem_of_In; cbn; tauto.

#[export] Instance FragIndex_laws : FieldLaws FragIndexField Z := nni_laws FragIndexField ltac:(in_FieldSet).
#[export] Instance FragCount_laws : FieldLaws FragCountField Z := nni_laws FragCountField ltac:(in_FieldSet).
#[export] Instance NextHopFaceId_laws : FieldLaws NextHopFaceIdField Z := nni_laws NextHopFaceIdField ltac:(in_FieldSet).
#[export] Instance IncomingFaceId_laws : FieldLaws IncomingFaceIdField Z := nni_laws IncomingFaceIdField ltac:(in_FieldSet).
#[export] Instance CongestionMark_laws : FieldLaws CongestionMarkField Z := nni_laws CongestionMarkField ltac:(in_FieldSet).
#[export] Instance Sequence_laws : FieldLaws SequenceField Z := u64_laws SequenceField ltac:(in_FieldSet).
#[export] Instance Ack_laws : FieldLaws AckField Z := u64_laws AckField ltac:(in_FieldSet).
#[export] Instance TxSequence_laws : FieldLaws TxSequenceField Z := u64_laws TxSequenceField ltac:(in_FieldSet).
#[export] Instance HopCountTag_laws : FieldLaws HopCountTagField Z := u64_laws HopCountTagField ltac:(in_FieldSet).

Lemma declared_in f : f ∈ FieldSet -> field_declared f.
Proof. apply Forall_forall, FieldSet_declared. Qed.

#[export] Instance NonDiscovery_laws : FieldLaws NonDiscoveryField unit.
Proof.
  refine {| field_valid _ := True; field_value _ := []; field_norm v := v |}.
  - apply declared_in. in_FieldSet.
  - intros [] _. split; [done|]. split; [by apply small_encodable|apply emits_prependEmptyBlock].
  - by intros [] _.
Defined.

(** A fragment is not empty. *)
#[export] Instance Fragment_laws : FieldLaws FragmentField octets.
Proof.
  refine {| field_valid v := v <> [] /\ zlen v < 2 ^ 32; field_value v := v; field_norm v := v |}.
  - apply declared_in. in_FieldSet.
  - intros v [_ Hv]. split; [done|]. split; [by apply small_encodable|apply emits_encode_range].
  - intros v [Hv _]. cbn [DecodeHelper Fragment_codec]. unfold decode_range, block_value_size.
    cbn [block_value element]. by destruct v.
Defined.

(** The octets of a header that has one sub-element with an integer. *)
Lemma emits_wrapped (outer inner n : Z) :
  emits (E:=Encoder) (fun e =>
    let '(length, e) := prependNonNegativeIntegerBlock inner n e in
    let '(n1, e) := prependVarNumber length e in
    let '(n2, e) := prependVarNumber outer e in (length + n1 + n2, e))
    (tlv outer (tlvs [(inner, nonneg_integer n)])).
Proof.
  change (tlvs [(inner, nonneg_integer n)]) with (tlv inner (nonneg_integer n) ++ []).
  rewrite app_nil_r.
  eapply emits_ext; [|apply (emits_element _ outer _ (emits_prependNonNegativeIntegerBlock inner n))].
  intros e. unfold seq2. destruct (prependNonNegativeIntegerBlock inner n e) as [n0 e1].
  destruct (prependVarNumber n0 e1) as [n1 e2]. by destruct (prependVarNumber outer e2).
Qed.

Lemma wrapped_encodable outer inner n :
  is_u32 outer -> encodable outer (tlvs [(inner, nonneg_integer n)]).
Proof.
  intros Ho. apply small_encodable; [done|].
  change (tlvs [(inner, nonneg_integer n)]) with (tlv inner (nonneg_integer n) ++ []).
  rewrite app_nil_r. pose proof (zlen_tlv_bound inner (nonneg_integer n)).
  pose proof (nonneg_integer_small n). lia.
Qed.

Lemma parse_wrapped outer inner n :
  is_u32 inner ->
  parse (element outer (tlvs [(inner, nonneg_integer n)])) = Ok [element inner (nonneg_integer n)].
Proof.
  intros Hi. unfold element at 1. rewrite parse_tlvs; [done|]. constructor; [|constructor].
  apply small_encodable; [done|]. pose proof (nonneg_integer_small n). lia.
Qed.

(** Reason codes are non-negative integers of 31 bits. *)
Lemma i32_id z : 0 <= z < 2 ^ 31 -> i32 z = z /\ u32 z = z.
Proof.
  intros H. split; [|apply u32_id; unfold is_u32; lia].
  unfold i32. rewrite Z.mod_small; lia.
Qed.

#[export] Instance CachePolicy_laws : FieldLaws CachePolicyField Z.
Proof.
  refine {| field_valid v := v = CachePolicyType_NO_CACHE;
            field_value v := tlvs [(lp_num CachePolicyType, nonneg_integer (u32 v))];
            field_norm v := v |}.
  - apply declared_in. in_FieldSet.
  - intros v ->. split; [done|]. split; [by apply wrapped_encodable|apply emits_wrapped].
  - intros v ->. reflexivity.
Defined.

#[export] Instance Nack_laws : FieldLaws NackField Z.
Proof.
  refine {| field_valid v := 0 <= v < 2 ^ 31;
            field_value v := tlvs [(lp_num NackReason, nonneg_integer (u32 v))];
            field_norm v := v |}.
  - apply declared_in. in_FieldSet.
  - intros v Hv. split; [done|]. split; [by apply wrapped_encodable|apply emits_wrapped].
  - intros v Hv. destruct (i32_id v Hv) as [Hi Hu]. cbn [DecodeHelper Nack_codec].
    unfold NackHeader_wireDecode. cbn [block_type element]. rewrite Z.eqb_refl. cbn [negb].
    rewrite parse_wrapped by done. cbn [mbind result_bind block_type element].
    rewrite Z.eqb_refl, block_readNonNegativeInteger_element by (rewrite Hu; unfold is_u64; lia).
    cbn [mbind result_bind]. by rewrite Hu, Hi.
Defined.

(** A decoded VAL header keeps the block it came from. *)
#[export] Instance ValHeader_laws : FieldLaws ValHeaderField ValHeader.
Proof.
  refine {| field_valid := header_ok; field_value h := tlvs (header_elements h);
            field_norm h := mkValHeader (Some (element (lp_num TlvValHeader) (tlvs (header_elements h))))
                              (m_SA h) (m_DA h) (m_phPos h) (m_RN h) (m_hopC h) |}.
  - apply declared_in. in_FieldSet.
  - intros h Hh. split; [done|]. split; [by apply header_value_encodable|apply emits_wireEncode].
  - intros h Hh. cbn [DecodeHelper ValHeader_codec]. apply (wireDecode_header ValHeader_default h Hh).
Defined.

(** ** Packets built by [add] *)

(** An element in its shortest encoding. *)
Definition canonical (b : Block) : Prop :=
  b = element (block_type b) (block_value b) /\ encodable (block_type b) (block_value b).

(** The type invariant of a packet: fields in order, and a cached wire that encodes
    them. *)
Record pkt_wf (p : Packet) : Prop := {
  pw_fields : fields_ok (pk_elements p);
  pw_canonical : Forall canonical (pk_elements p);
  pw_wire : forall w, pk_wire p = Some w ->
    w = element (lp_num LpPacket) (tlvs (map type_value (pk_elements p)));
}.

Lemma lp_canonical_element type value : encodable type value -> canonical (element type value).
Proof. by split. Qed.

Lemma canonical_reencoded els : Forall canonical els -> map reencoded els = els.
Proof.
  induction 1 as [|b els [Hb _] _ IH]; [done|]. cbn. rewrite IH. f_equal. by rewrite Hb.
Qed.

Lemma canonical_wf els : Forall canonical els -> Forall wf_block els.
Proof.
  intros Hc. eapply Forall_impl; [exact Hc|]. intros b [Hb _]. unfold wf_block, block_size.
  rewrite Hb at 3. done.
Qed.

Lemma pkt_wf_new : pkt_wf Packet_new.
Proof. split; [split; constructor|constructor|done]. Qed.

Section add.
Context {f : FieldDecl} {V : Type} `{FieldLaws f V}.

Lemma field_block_ok v :
  field_valid f v -> field_block f v = Ok (element (TlvType f) (field_value f v)).
Proof.
  intros Hv. destruct (law_encodes v Hv) as (Ht & He & Hem). unfold field_block. rewrite Ht.
  by apply encodeBlock_emits.
Qed.

Lemma pkt_add_ok v p :
  field_valid f v -> IsRepeatable f = true \/ pkt_has f p = false ->
  pkt_add f v p =
  Ok (mkPacket None (insert_field f (element (TlvType f) (field_value f v)) (pk_elements p))).
Proof.
  intros Hv Hr. unfold pkt_add. rewrite (field_block_ok v Hv).
  by destruct Hr as [-> | ->]; cbn [negb andb]; rewrite ?andb_false_r.
Qed.

Lemma pkt_wf_insert v p :
  field_valid f v -> IsRepeatable f = true \/ pkt_has f p = false -> pkt_wf p ->
  pkt_wf (mkPacket None (insert_field f (element (TlvType f) (field_value f v)) (pk_elements p))).
Proof.
  intros Hv Hr [Hf Hc _]. destruct (law_encodes v Hv) as (_ & He & _). split; [..|done].
  - apply insert_field_ok; [apply law_declared|done| |done].
    destruct Hr as [?|Hr]; [by left|right]. by apply pkt_has_Exists.
  - cbn [pk_elements]. rewrite insert_field_perm. constructor; [by apply lp_canonical_element|done].
Qed.

(** The occurrences of each field after [add]. *)
Lemma filter_added v p g :
  pkt_wf p ->
  List.filter (is_field g) (insert_field f (element (TlvType f) (field_value f v)) (pk_elements p)) =
  List.filter (is_field g) (pk_elements p) ++
  (if TlvType f =? TlvType g then [element (TlvType f) (field_value f v)] else []).
Proof. intros Hp. apply filter_insert_field; [apply law_declared|done|apply Hp]. Qed.
End add.

Lemma filter_remove g t els :
  List.filter (is_field g) (block_remove t els) =
  if t =? TlvType g then [] else List.filter (is_field g) els.
Proof.
  unfold block_remove, is_field. induction els as [|x els IH]; cbn [List.filter]; [by case_match|].
  destruct (Z.eqb_spec (block_type x) t) as [E|E]; cbn [negb]; [|cbn [List.filter]]; rewrite IH;
    destruct (Z.eqb_spec t (TlvType g)), (Z.eqb_spec (block_type x) (TlvType g)); try done; congruence.
Qed.

Lemma remove_Forall (P : Block -> Prop) t els : Forall P els -> Forall P (block_remove t els).
Proof.
  unfold block_remove. induction 1 as [|x els Hx _ IH]; cbn [List.filter]; [constructor|].
  case_match; [by constructor|done].
Qed.

Lemma remove_sorted t els :
  StronglySorted may_follow els -> StronglySorted may_follow (block_remove t els).
Proof.
  unfold block_remove. induction 1 as [|x els Hs IH Hx]; cbn [List.filter]; [constructor|].
  case_match; [constructor; [done|by apply remove_Forall]|done].
Qed.

Lemma pkt_wf_clear f p : pkt_wf p -> pkt_wf (pkt_clear f p).
Proof.
  intros [[Hk Hs] Hc _]. split; [split|..|done]; cbn [pkt_clear pk_elements].
  - by apply remove_Forall.
  - by apply remove_sorted.
  - by apply remove_Forall.
Qed.

Lemma pkt_has_clear f p : pkt_has f (pkt_clear f p) = false.
Proof.
  unfold pkt_has, pkt_count. cbn [pkt_clear pk_elements]. by rewrite filter_remove, Z.eqb_refl.
Qed.

(** ** Encoding and decoding *)

Definition pkt_octets (p : Packet) : octets := tlvs (map type_value (pk_elements p)).

(** [wireEncode] has two outcomes: the bare network packet, or the LpPacket. *)
Definition is_bare (p : Packet) : bool :=
  match pk_elements p with [front] => is_field FragmentField front | _ => false end.

(** A packet without header fields carries a whole network packet. *)
Definition bare_ok (p : Packet) : Prop :=
  is_bare p = true -> exists type value,
    (type = tlv_Interest \/ type = tlv_Data) /\ encodable type value /\
    pk_elements p = [element (lp_num Fragment) (tlv type value)] /\
    zlen (tlv type value) < 2 ^ 32.

Lemma pkt_wireEncode_full p :
  pkt_wf p -> is_bare p = false ->
  exists p', pkt_wireEncode p = Ok (element (lp_num LpPacket) (pkt_octets p), pk_elements p, p') /\
    pkt_wf p' /\ pk_elements p' = pk_elements p.
Proof.
  intros Hp Hb.
  assert (E : pkt_wireEncode p =
    match pk_wire p with
    | Some w => Ok (w, pk_elements p, p)
    | None => let* (w, els) := Block_encode (lp_num LpPacket) (pk_elements p) in
              Ok (w, els, mkPacket (Some w) els)
    end).
  { unfold pkt_wireEncode, is_bare in *. destruct (pk_elements p) as [|x [|y l]]; try done.
    by rewrite Hb. }
  rewrite E. destruct (pk_wire p) as [w|] eqn:Ew.
  - exists p. split; [|done]. rewrite (pw_wire p Hp w Ew) at 1. done.
  - rewrite Block_encode_ok by (apply canonical_wf, Hp). cbn [mbind result_bind].
    rewrite canonical_reencoded by apply Hp. eexists. split; [done|]. split; [|done].
    split; cbn [pk_elements pk_wire]; [apply Hp|apply Hp|]. by intros w [= <-].
Qed.

Lemma pkt_wireEncode_bare p type value :
  encodable type value -> pk_elements p = [element (lp_num Fragment) (tlv type value)] ->
  pkt_wireEncode p = Ok (element type value, [], p).
Proof.
  intros He Hp. unfold pkt_wireEncode. rewrite Hp. unfold is_field. cbn [block_type element].
  cbn [TlvType FragmentField]. rewrite Z.eqb_refl.
  replace (tlv type value) with (tlvs [(type, value)])
    by (unfold tlvs; cbn [mbind list_bind]; apply app_nil_r).
  unfold element at 1. rewrite parse_tlvs; [done|]. constructor; [done|constructor].
Qed.

Lemma type_values_parse els :
  Forall canonical els ->
  map (fun '(t, v) => element t v) (map type_value els) = els.
Proof.
  induction 1 as [|b els [Hb _] _ IH]; [done|]. cbn. rewrite IH. f_equal. by rewrite <- Hb.
Qed.

Lemma type_values_encodable els :
  Forall canonical els -> Forall (fun '(t, v) => encodable t v) (map type_value els).
Proof. induction 1 as [|b els [_ Hb] _ IH]; cbn; by constructor. Qed.

Lemma pkt_wireDecode_full p :
  pkt_wf p ->
  pkt_wireDecode (element (lp_num LpPacket) (pkt_octets p)) =
  Ok (mkPacket (Some (element (lp_num LpPacket) (pkt_octets p))) (pk_elements p)).
Proof.
  intros Hp. unfold pkt_wireDecode. cbn [block_type element]. cbn [lp_num].
  change ((100 =? tlv_Interest) || (100 =? tlv_Data)) with false.
  change (negb (100 =? 100)) with false. cbn iota.
  unfold pkt_octets. rewrite (parse_element 100 (map type_value (pk_elements p))) by apply type_values_encodable, Hp.
  cbn [mbind result_bind]. rewrite type_values_parse by apply Hp.
  assert (Hu : Forall (fun b => is_u32 (block_type b)) (pk_elements p)).
  { eapply Forall_impl; [apply (proj1 (pw_fields p Hp))|]. by intros b [? _]. }
  by rewrite (proj2 (check_fields_ok _ Hu) (pw_fields p Hp)).
Qed.

Lemma pkt_wireDecode_bare type value :
  type = tlv_Interest \/ type = tlv_Data -> zlen (tlv type value) < 2 ^ 32 ->
  pkt_wireDecode (element type value) =
  Ok (mkPacket None [element (lp_num Fragment) (tlv type value)]).
Proof.
  intros Ht Hl. unfold pkt_wireDecode. cbn [block_type element block_wire].
  assert ((type =? tlv_Interest) || (type =? tlv_Data) = true) as ->
    by (rewrite orb_true_iff, !Z.eqb_eq; done).
  rewrite pkt_add_ok; [done| |by right]. split; [|done].
  pose proof (tlv_nonempty type value []) as Hn. by rewrite app_nil_r in Hn.
Qed.

(** ** Properties *)

(** A well-formed packet accepts a value its field can carry exactly when the
    field is repeatable or absent, and stays well formed: the value is then the last
    occurrence of its field, and the occurrences of every other field are unchanged.  A
    second value of a field that is not repeatable is refused. *)
Theorem LpPacket_add (f : FieldDecl) (V : Type) (C : FieldCodec f V) (L : FieldLaws f V)
    (v : V) (p : Packet) (Hp : pkt_wf p) (Hv : field_valid f v) :
  (IsRepeatable f = true \/ pkt_has f p = false ->
   exists p', pkt_add f v p = Ok p' /\ pkt_wf p' /\
     pkt_get f (pkt_count f p) p' = Ok (field_norm f v) /\
     pkt_count f p' = S (pkt_count f p) /\
     forall g W (D : FieldCodec g W), TlvType g <> TlvType f ->
       forall i, pkt_get g i p' = pkt_get g i p) /\
  (IsRepeatable f = false -> pkt_has f p = true ->
   pkt_add f v p = Err (LengthError "Field cannot be repeated")).
Proof.
  split.
  - intros Hr. eexists. split; [by apply pkt_add_ok|]. split; [by apply pkt_wf_insert|].
    split; [|split].
    + rewrite pkt_get_filter. cbn [pk_elements]. rewrite filter_added, Z.eqb_refl by done.
      unfold pkt_count. rewrite lookup_app_r, Nat.sub_diag by lia. by apply law_decodes.
    + unfold pkt_count. cbn [pk_elements]. rewrite filter_added, Z.eqb_refl by done.
      rewrite length_app. cbn. lia.
    + intros g W D Hg i. rewrite !pkt_get_filter. cbn [pk_elements]. rewrite filter_added by done.
      rewrite (proj2 (Z.eqb_neq _ _)) by congruence. by rewrite app_nil_r.
  - intros Hr Hh. unfold pkt_add. by rewrite Hr, Hh.
Qed.

Definition sample_fragment : Packet :=
  mkPacket None [element (lp_num Fragment) (tlv tlv_Interest (str "abc"))].
Lemma sample_fragment_wf : pkt_wf sample_fragment.
Proof.
  split; [split|..|done].
  - repeat constructor; by vm_compute.
  - repeat constructor.
  - repeat constructor; by vm_compute.
Qed.

Lemma LpPacket_add_witness :
  exists p', pkt_add HopCountTagField 3 sample_fragment = Ok p' /\
    pkt_get HopCountTagField 0 p' = Ok 3 /\
    pkt_get FragmentField 0 p' = pkt_get FragmentField 0 sample_fragment.
Proof.
  destruct (LpPacket_add HopCountTagField Z _ _ 3 sample_fragment sample_fragment_wf) as [Ha _];
    [by split|].
  destruct (Ha (or_intror eq_refl)) as (p' & H1 & _ & H2 & _ & H3).
  exists p'. split; [exact H1|]. split; [exact H2|].
  apply H3. discriminate.
Defined.

(** What a well-formed packet encodes is accepted by the decoder and gives the
    same fields back, in the same order; a packet without header fields travels as the
    bare network packet it carries. *)
Theorem LpPacket_roundtrip (p : Packet) (Hp : pkt_wf p) (Hb : bare_ok p) :
  exists w els p' q, pkt_wireEncode p = Ok (w, els, p') /\ pkt_wf p' /\
    pk_elements p' = pk_elements p /\
    pkt_wireDecode w = Ok q /\ pk_elements q = pk_elements p /\
    forall f V (C : FieldCodec f V) i, pkt_get f i q = pkt_get f i p.
Proof.
  assert (Hget : forall q, pk_elements q = pk_elements p ->
    forall f V (C : FieldCodec f V) i, pkt_get f i q = pkt_get f i p).
  { intros q Hq f V C i. by rewrite !pkt_get_filter, Hq. }
  destruct (is_bare p) eqn:E.
  - destruct (Hb E) as (type & value & Ht & He & Hpe & Hl).
    eexists _, _, _, _. split; [by apply pkt_wireEncode_bare|]. split; [done|]. split; [done|].
    split; [by apply pkt_wireDecode_bare|]. split; [done|]. by apply Hget.
  - destruct (pkt_wireEncode_full p Hp E) as (p' & H1 & H2 & H3).
    eexists _, _, _, _. split; [exact H1|]. split; [done|]. split; [done|].
    split; [by apply pkt_wireDecode_full|]. split; [done|]. by apply Hget.
Qed.

Lemma LpPacket_roundtrip_witness :
  exists w els p' q, pkt_wireEncode sample_fragment = Ok (w, els, p') /\
    pkt_wireDecode w = Ok q /\ pk_elements q = pk_elements sample_fragment.
Proof.
  destruct (LpPacket_roundtrip sample_fragment sample_fragment_wf)
    as (w & els & p' & q & H1 & _ & _ & H2 & H3 & _).
  - intros _. exists tlv_Interest, (str "abc"). repeat split; by (left + vm_compute).
  - exists w, els, p', q. split; [exact H1|]. split; [exact H2|exact H3].
Defined.
