(* ===== verification/LpFragmenter.v ===== *)
(** * Fragmentation (NFD/daemon/face/lp-fragmenter.cpp)

    [LpFragmenter::fragmentPacket]: a packet that does not fit in the MTU is cut into
    fragments that carry their index and number; the first one keeps the other header
    fields.  The theorem shows that the computed sizes are right: the function does not
    fail, its assertions hold, every fragment fits in the MTU with a sequence number
    added, and the payloads concatenate to the network packet. *)

From stdpp Require Import base list strings sorting.
From Stdlib Require Import Strings.Byte ZArith Lia.
From S2P Require Import Prelude Tlv Encoder Block Codec ValHeader LpPacket.

Local Open Scope Z_scope.

Definition MAX_SINGLE_FRAG_OVERHEAD : Z :=
  1 + 9 +      (* LpPacket TLV-TYPE and TLV-LENGTH *)
  1 + 1 + 8 +  (* Sequence TLV *)
  1 + 9.       (* Fragment TLV-TYPE and TLV-LENGTH *)

Definition MAX_FRAG_OVERHEAD : Z :=
  1 + 9 +      (* LpPacket TLV-TYPE and TLV-LENGTH *)
  1 + 1 + 8 +  (* Sequence TLV *)
  1 + 1 + 8 +  (* FragIndex TLV *)
  1 + 1 + 8 +  (* FragCount TLV *)
  1 + 9.       (* Fragment TLV-TYPE and TLV-LENGTH *)

(** The size of the elements beside the Fragment field. *)
Definition header_size (elements : list Block) : Z :=
  foldl (fun size element =>
    if negb (block_type element =? lp_num Fragment) then size + block_size element else size)
    0 elements.

(** The loop that populates the fragments.  The iterators are offsets in the network
    packet; one unit of fuel per octet suffices, as no fragment is empty. *)
Fixpoint populate (fuel : nat) (netPkt : octets) (fragCount mtu : Z) (payloadSize : nat)
    (fragIndex fragBegin fragEnd : nat) (frags : list Packet) : result (nat * list Packet) :=
  if decide (fragBegin < length netPkt)%nat then
    match fuel with
    | O => Err OutOfFuel
    | S fuel' =>
      match frags !! fragIndex with
      | None => Err (UndefinedBehaviour "frags[fragIndex]")
      | Some frag =>
        let* frag := pkt_add FragIndexField (Z.of_nat fragIndex) frag in
        let* frag := pkt_add FragCountField fragCount frag in
        let* frag := pkt_set FragmentField (take (fragEnd - fragBegin) (drop fragBegin netPkt)) frag in
        let* (wire, _, frag) := pkt_wireEncode frag in
        assert! block_size wire <=? mtu orelse "frag.wireEncode().size() <= mtu";
        populate fuel' netPkt fragCount mtu payloadSize (S fragIndex) fragEnd
          (length netPkt `min` (fragEnd + payloadSize)) (<[fragIndex := frag]> frags)
      end
    end
  else Ok (fragIndex, frags).

(** [nMaxFragments] is the option of the fragmenter. *)
Definition fragmentPacket (nMaxFragments : Z) (packet : Packet) (mtu : Z)
  : result (bool * list Packet) :=
  assert! pkt_has FragmentField packet orelse "packet.has<lp::FragmentField>()";
  assert! negb (pkt_has FragIndexField packet) orelse "!packet.has<lp::FragIndexField>()";
  assert! negb (pkt_has FragCountField packet) orelse "!packet.has<lp::FragCountField>()";
  let* (wire, _, packet) := pkt_wireEncode packet in
  if MAX_SINGLE_FRAG_OVERHEAD + block_size wire <=? mtu then Ok (true, [packet])
  else
    let* netPkt := pkt_get FragmentField 0 packet in
    let netPktSize := zlen netPkt in
    let* (packetWire, elements, packet) := pkt_wireEncode packet in
    let firstHeaderSize :=
      if block_type packetWire =? lp_num LpPacket then header_size elements else 0 in
    if MAX_FRAG_OVERHEAD + firstHeaderSize + 1 >? mtu then Ok (false, [])
    else
      let firstPayloadSize := Z.min netPktSize (mtu - firstHeaderSize - MAX_FRAG_OVERHEAD) in
      let payloadSize := mtu - MAX_FRAG_OVERHEAD in
      let fragCount := 1 + (netPktSize - firstPayloadSize) / payloadSize +
        (if negb ((netPktSize - firstPayloadSize) mod payloadSize =? 0) then 1 else 0) in
      if fragCount >? nMaxFragments then Ok (false, [])
      else
        let frags := packet :: replicate (Z.to_nat fragCount - 1) Packet_new in
        let* (fragIndex, frags) :=
          populate (length netPkt) netPkt fragCount mtu (Z.to_nat payloadSize) 0 0
            (Z.to_nat firstPayloadSize) frags in
        assert! Z.of_nat fragIndex =? fragCount orelse "fragIndex == fragCount";
        Ok (true, frags).

(** ** Sizes *)

(** The octets of the elements of a packet. *)
Definition els_size (els : list Block) : Z := zlen (tlvs (map type_value els)).

Lemma els_size_cons b els :
  els_size (b :: els) = zlen (tlv (block_type b) (block_value b)) + els_size els.
Proof. apply zlen_app. Qed.

Lemma els_size_perm els els' : els ≡ₚ els' -> els_size els = els_size els'.
Proof. induction 1; rewrite ?els_size_cons; lia. Qed.

Lemma els_size_insert f b els :
  els_size (insert_field f b els) = zlen (tlv (block_type b) (block_value b)) + els_size els.
Proof. by rewrite (els_size_perm _ _ (insert_field_perm f b els)), els_size_cons. Qed.

Lemma zlen_tlv type value :
  zlen (tlv type value) = sizeOfVarNumber type + sizeOfVarNumber (zlen value) + zlen value.
Proof. unfold tlv. rewrite !zlen_app, !writeVarNumber_length. lia. Qed.

Lemma sizeOfVarNumber_le n : 1 <= sizeOfVarNumber n <= 9.
Proof. unfold sizeOfVarNumber. repeat case_match; lia. Qed.

(** The overheads the constants of the source allow for. *)
Lemma packet_overhead value : zlen (tlv (lp_num LpPacket) value) <= 10 + zlen value.
Proof. rewrite zlen_tlv. pose proof (sizeOfVarNumber_le (zlen value)). cbn in *. lia. Qed.
Lemma fragment_overhead value : zlen (tlv (lp_num Fragment) value) <= 10 + zlen value.
Proof. rewrite zlen_tlv. pose proof (sizeOfVarNumber_le (zlen value)). cbn in *. lia. Qed.

Lemma small_field_size (type : Z) value :
  0 <= type < 253 -> zlen value <= 8 -> zlen (tlv type value) <= 10.
Proof.
  intros Ht Hv. rewrite zlen_tlv. unfold sizeOfVarNumber.
  rewrite (proj2 (Z.ltb_lt type 253)) by lia. rewrite (proj2 (Z.ltb_lt (zlen value) 253)) by lia. lia.
Qed.

(** ** One fragment *)

(** A packet that can become a fragment: no index and no count yet. *)
Definition slot_ok (p : Packet) : Prop :=
  pkt_wf p /\ pkt_has FragIndexField p = false /\ pkt_has FragCountField p = false.

(** The octets of its fields beside the Fragment field. *)
Definition others_size (p : Packet) : Z := els_size (block_remove (lp_num Fragment) (pk_elements p)).

(** [fr] is [p] with its payload replaced and an index and a count added. *)
Record fragment_of (p : Packet) (index count : Z) (payload : octets) (fr : Packet) : Prop := {
  fo_wf : pkt_wf fr;
  fo_index : pkt_get FragIndexField 0 fr = Ok index;
  fo_count : pkt_get FragCountField 0 fr = Ok count;
  fo_payload : pkt_get FragmentField 0 fr = Ok payload;
  fo_others : forall g, TlvType g ∉ [lp_num Fragment; lp_num FragIndex; lp_num FragCount] ->
    List.filter (is_field g) (pk_elements fr) = List.filter (is_field g) (pk_elements p);
  fo_has : pkt_has FragmentField fr = true /\ pkt_has FragIndexField fr = true /\
    pkt_has FragCountField fr = true;
  fo_size : els_size (pk_elements fr) <= others_size p + 30 + zlen payload;
}.

Lemma get_has_single f `{FieldLaws f V} v p :
  field_valid f v ->
  List.filter (is_field f) (pk_elements p) = [element (TlvType f) (field_value f v)] ->
  pkt_get f 0 p = Ok (field_norm f v) /\ pkt_has f p = true.
Proof.
  intros Hv Hf. rewrite pkt_get_filter. unfold pkt_has, pkt_count. rewrite Hf. split; [|done].
  by apply law_decodes.
Qed.

Lemma no_field_filter f p :
  pkt_has f p = false -> List.filter (is_field f) (pk_elements p) = [].
Proof.
  unfold pkt_has, pkt_count. rewrite Nat.ltb_ge. destruct (List.filter _ _); [done|cbn; lia].
Qed.

Lemma remove_insert_field t f b els :
  block_type b = TlvType f ->
  els_size (block_remove t (insert_field f b els)) =
  els_size (block_remove t els) +
  (if TlvType f =? t then 0 else zlen (tlv (block_type b) (block_value b))).
Proof.
  intros Hb. unfold block_remove. induction els as [|x els IH]; cbn [insert_field].
  - cbn [List.filter]. rewrite Hb. destruct (TlvType f =? t); cbn [negb]; [done|].
    rewrite els_size_cons. cbn. rewrite Hb. lia.
  - destruct (comparePos (TlvType f) x); cbn [List.filter] in *.
    + rewrite Hb. destruct (TlvType f =? t); cbn [negb]; [lia|]. rewrite els_size_cons, Hb. lia.
    + destruct (negb (block_type x =? t)); [|done]. rewrite !els_size_cons, IH. lia.
Qed.

(** The three steps that make a fragment: index, count, payload. *)
Definition indexed (p : Packet) (index : Z) : Packet :=
  mkPacket None (insert_field FragIndexField
    (element (TlvType FragIndexField) (field_value FragIndexField index)) (pk_elements p)).
Definition counted (p : Packet) (index count : Z) : Packet :=
  mkPacket None (insert_field FragCountField
    (element (TlvType FragCountField) (field_value FragCountField count)) (pk_elements (indexed p index))).
Definition made_fragment (p : Packet) (index count : Z) (payload : octets) : Packet :=
  mkPacket None (insert_field FragmentField
    (element (TlvType FragmentField) (field_value FragmentField payload))
    (pk_elements (pkt_clear FragmentField (counted p index count)))).

Lemma indexed_ok p index :
  slot_ok p -> is_u64 index ->
  pkt_add FragIndexField index p = Ok (indexed p index) /\ pkt_wf (indexed p index) /\
  pkt_has FragCountField (indexed p index) = false.
Proof.
  intros (Hp & Hi & Hc) Hix. assert (Vi : field_valid FragIndexField index) by done.
  split; [apply pkt_add_ok; auto|]. split; [apply pkt_wf_insert; auto|].
  unfold pkt_has, pkt_count, indexed in *. cbn [pk_elements].
  rewrite (filter_added (f:=FragIndexField) index p FragCountField Hp).
  change (TlvType FragIndexField =? TlvType FragCountField) with false. by rewrite app_nil_r.
Qed.

Lemma counted_ok p index count :
  slot_ok p -> is_u64 index -> is_u64 count ->
  pkt_add FragCountField count (indexed p index) = Ok (counted p index count) /\
  pkt_wf (counted p index count).
Proof.
  intros Hp Hix Hct. destruct (indexed_ok p index Hp Hix) as (_ & W1 & Hc1).
  assert (Vc : field_valid FragCountField count) by done.
  split; [apply pkt_add_ok; auto|apply pkt_wf_insert; auto].
Qed.

(** Its occurrences of each field. *)
Lemma made_fragment_filter p index count payload g :
  slot_ok p -> is_u64 index -> is_u64 count ->
  List.filter (is_field g) (pk_elements (made_fragment p index count payload)) =
    (if TlvType FragmentField =? TlvType g then [] else
     (List.filter (is_field g) (pk_elements p) ++
      (if TlvType FragIndexField =? TlvType g
       then [element (TlvType FragIndexField) (field_value FragIndexField index)] else [])) ++
      (if TlvType FragCountField =? TlvType g
       then [element (TlvType FragCountField) (field_value FragCountField count)] else [])) ++
    (if TlvType FragmentField =? TlvType g
     then [element (TlvType FragmentField) (field_value FragmentField payload)] else []).
Proof.
  intros Hp Hix Hct. destruct (indexed_ok p index Hp Hix) as (_ & W1 & _).
  destruct (counted_ok p index count Hp Hix Hct) as (_ & W2).
  unfold made_fragment. cbn [pk_elements].
  rewrite (filter_added (f:=FragmentField) payload _ g (pkt_wf_clear FragmentField _ W2)).
  cbn [pkt_clear pk_elements]. rewrite filter_remove. f_equal. case_match; [done|].
  unfold counted. cbn [pk_elements]. rewrite (filter_added (f:=FragCountField) count _ g W1). f_equal.
  unfold indexed. cbn [pk_elements]. by rewrite (filter_added (f:=FragIndexField) index p g (proj1 Hp)).
Qed.

Lemma made_fragment_size p index count payload :
  els_size (pk_elements (made_fragment p index count payload)) <= others_size p + 30 + zlen payload.
Proof.
  unfold made_fragment. cbn [pk_elements]. rewrite els_size_insert. cbn [block_type block_value element].
  cbn [pkt_clear pk_elements]. unfold counted, indexed. cbn [pk_elements].
  rewrite !remove_insert_field by done.
  change (TlvType FragCountField =? TlvType FragmentField) with false.
  change (TlvType FragIndexField =? TlvType FragmentField) with false. cbn iota.
  cbn [block_type block_value element].
  assert (zlen (tlv (TlvType FragIndexField) (field_value FragIndexField index)) <= 10)
    by (apply small_field_size; [by split|apply nonneg_integer_small]).
  assert (zlen (tlv (TlvType FragCountField) (field_value FragCountField count)) <= 10)
    by (apply small_field_size; [by split|apply nonneg_integer_small]).
  assert (zlen (tlv (TlvType FragmentField) (field_value FragmentField payload)) <= 10 + zlen payload)
    by apply fragment_overhead.
  unfold others_size. change (TlvType FragmentField) with (lp_num Fragment) in *. lia.
Qed.

Lemma made_fragment_of p index count payload :
  slot_ok p -> is_u64 index -> is_u64 count -> payload <> [] -> zlen payload < 2 ^ 32 ->
  pkt_wf (made_fragment p index count payload) ->
  fragment_of p index count payload (made_fragment p index count payload).
Proof.
  intros Hp Hix Hct Hn Hl W. pose proof Hp as (_ & Hi & Hc).
  pose proof (fun g => made_fragment_filter p index count payload g Hp Hix Hct) as Hfil.
  destruct (get_has_single FragIndexField index (made_fragment p index count payload)) as [G1 H1];
    [done|by rewrite Hfil, (no_field_filter _ _ Hi)|].
  destruct (get_has_single FragCountField count (made_fragment p index count payload)) as [G2 H2];
    [done|by rewrite Hfil, (no_field_filter _ _ Hc)|].
  destruct (get_has_single FragmentField payload (made_fragment p index count payload)) as [G3 H3];
    [done|by rewrite Hfil|].
  split; try done; [|apply made_fragment_size].
  intros g Hg. rewrite Hfil. rewrite !elem_of_cons in Hg.
  rewrite !(proj2 (Z.eqb_neq _ _)) by (cbn [TlvType FragmentField FragIndexField FragCountField];
    intros E; apply Hg; rewrite <- E; tauto).
  by rewrite !app_nil_r.
Qed.

Lemma make_fragment p index count payload :
  slot_ok p -> is_u64 index -> is_u64 count -> payload <> [] -> zlen payload < 2 ^ 32 ->
  exists p1 p2 fr, pkt_add FragIndexField index p = Ok p1 /\ pkt_add FragCountField count p1 = Ok p2 /\
    pkt_set FragmentField payload p2 = Ok fr /\ fragment_of p index count payload fr.
Proof.
  intros Hp Hix Hct Hn Hl. assert (Vp : field_valid FragmentField payload) by done.
  destruct (indexed_ok p index Hp Hix) as (E1 & _). destruct (counted_ok p index count Hp Hix Hct) as (E2 & W2).
  exists (indexed p index), (counted p index count), (made_fragment p index count payload).
  split; [done|]. split; [done|].
  split; [unfold pkt_set; apply pkt_add_ok; [done|right; apply pkt_has_clear]|].
  apply made_fragment_of; try done.
  apply pkt_wf_insert; [done|right; apply pkt_has_clear|by apply pkt_wf_clear].
Qed.

(** ** The loop *)

Lemma fragment_not_bare p i c v fr : fragment_of p i c v fr -> is_bare fr = false.
Proof.
  intros H. unfold is_bare. destruct (pk_elements fr) as [|x [|y l]] eqn:E; [done| |done].
  destruct H as [_ _ _ _ _ (H1 & H2 & _) _]. unfold pkt_has, pkt_count in *. rewrite E in *.
  cbn [List.filter] in *. destruct (is_field FragmentField x) eqn:E1; [|done].
  unfold is_field in *. cbn [TlvType FragmentField FragIndexField lp_num] in *. zbool.
  by rewrite E1 in H2.
Qed.

(** The facts about a fragment depend on its elements only. *)
Lemma fragment_of_cached p i c v fr fr' :
  fragment_of p i c v fr -> pkt_wf fr' -> pk_elements fr' = pk_elements fr -> fragment_of p i c v fr'.
Proof.
  intros [H1 H2 H3 H4 H5 H6 H7] Hw He.
  split; unfold pkt_get, pkt_has, pkt_count in *; rewrite ?He; done.
Qed.

(** One iteration of the loop: the fragment is made, and it fits with a sequence number
    beside it. *)
Lemma populate_step fuel netPkt fragCount mtu ps done p rest fragBegin fragEnd :
  slot_ok p -> is_u64 (zlen done) -> is_u64 fragCount -> zlen netPkt < 2 ^ 32 ->
  (fragBegin < fragEnd <= length netPkt)%nat ->
  others_size p + MAX_FRAG_OVERHEAD + Z.of_nat (fragEnd - fragBegin) <= mtu ->
  exists fr,
    populate (S fuel) netPkt fragCount mtu ps (length done) fragBegin fragEnd (done ++ p :: rest) =
    populate fuel netPkt fragCount mtu ps (length (done ++ [fr])) fragEnd
      (length netPkt `min` (fragEnd + ps)) ((done ++ [fr]) ++ rest) /\
    fragment_of p (zlen done) fragCount (take (fragEnd - fragBegin) (drop fragBegin netPkt)) fr.
Proof.
  intros Hp Hi Hc Hn Hbe Hsz. set (payload := take _ _).
  assert (Hpl : length payload = (fragEnd - fragBegin)%nat)
    by (unfold payload; rewrite length_take, length_drop; lia).
  destruct (make_fragment p (zlen done) fragCount payload Hp Hi Hc) as (p1 & p2 & fr & E1 & E2 & E3 & Hf).
  { intros E. rewrite E in Hpl. cbn in Hpl. lia. }
  { unfold zlen in *. lia. }
  destruct (pkt_wireEncode_full fr (fo_wf _ _ _ _ _ Hf) (fragment_not_bare _ _ _ _ _ Hf))
    as (fr' & E4 & Hw & Hel).
  exists fr'. split; [|by apply (fragment_of_cached _ _ _ _ fr)].
  cbn [populate]. rewrite decide_True by lia. rewrite list_lookup_middle by done.
  fold payload. change (Z.of_nat (length done)) with (zlen done).
  rewrite E1. cbn [mbind result_bind]. rewrite E2. cbn [mbind result_bind]. rewrite E3.
  cbn [mbind result_bind]. rewrite E4. cbn [mbind result_bind].
  pose proof (fo_size _ _ _ _ _ Hf) as Hs. pose proof (packet_overhead (pkt_octets fr)) as Ho.
  unfold pkt_octets in *. fold (els_size (pk_elements fr)) in Ho.
  assert (Hle : block_size (element (lp_num LpPacket) (tlvs (map type_value (pk_elements fr)))) <= mtu).
  { unfold block_size. cbn [block_wire element]. unfold MAX_FRAG_OVERHEAD in Hsz.
    unfold zlen in Hs at 1. rewrite Hpl in Hs. lia. }
  rewrite (proj2 (Z.leb_le _ _) Hle). rewrite insert_app_r_alt, Nat.sub_diag by done.
  cbn [insert list_insert]. rewrite length_app, Nat.add_1_r, <- app_assoc. done.
Qed.

(** The [i]-th piece of [ps] octets. *)
Definition chunk (ps : nat) (l : octets) (i : nat) : octets := take ps (drop (i * ps) l).

Lemma slot_ok_new : slot_ok Packet_new.
Proof. split; [apply pkt_wf_new|done]. Qed.

(** The remaining iterations, on fragments that have no field yet. *)
Lemma populate_rest n fuel netPkt fragCount mtu ps done fragBegin :
  is_u64 (zlen done + Z.of_nat n) -> is_u64 fragCount -> zlen netPkt < 2 ^ 32 ->
  (0 < ps)%nat -> MAX_FRAG_OVERHEAD + Z.of_nat ps <= mtu ->
  (length netPkt - fragBegin <= n * ps)%nat ->
  (n = 0 \/ (n - 1) * ps < length netPkt - fragBegin)%nat ->
  (length netPkt - fragBegin <= fuel)%nat ->
  exists news, populate fuel netPkt fragCount mtu ps (length done) fragBegin
      (length netPkt `min` (fragBegin + ps)) (done ++ replicate n Packet_new) =
    Ok ((length done + n)%nat, done ++ news) /\ length news = n /\
    forall i fr, news !! i = Some fr ->
      fragment_of Packet_new (zlen done + Z.of_nat i) fragCount (chunk ps (drop fragBegin netPkt) i) fr.
Proof.
  revert fuel done fragBegin. induction n as [|n IH]; intros fuel done fragBegin Hi Hc Hn Hps Hm Hle Hlt Hf.
  - exists []. split; [|done]. rewrite Nat.add_0_r. cbn [replicate].
    destruct fuel; cbn [populate]; by rewrite decide_False by lia.
  - destruct Hlt as [|Hlt]; [done|]. unfold is_u64, zlen in *.
    destruct fuel as [|fuel]; [lia|]. cbn [replicate].
    destruct (populate_step fuel netPkt fragCount mtu ps done Packet_new (replicate n Packet_new)
      fragBegin (length netPkt `min` (fragBegin + ps))) as (fr & E & Hfr);
      try (unfold is_u64, zlen; lia); [apply slot_ok_new| |].
    { change (others_size Packet_new) with 0. lia. }
    destruct (IH fuel (done ++ [fr]) (length netPkt `min` (fragBegin + ps))%nat)
      as (news & E' & Hlen & Hnews); unfold is_u64, zlen; rewrite ?length_app; cbn [length]; try lia.
    { destruct n; [by left|right]. cbn in *. lia. }
    exists (fr :: news). split; [|split; [by cbn; rewrite Hlen|]].
    + rewrite E. rewrite length_app in E'. cbn [length] in E'. rewrite length_app. cbn [length].
      rewrite E'. rewrite <- app_assoc. do 2 f_equal. lia.
    + intros [|i] fr' Hl; cbn in Hl.
      * injection Hl as <-. unfold chunk. cbn [Nat.mul]. rewrite drop_0, Z.add_0_r.
        replace (take ps (drop fragBegin netPkt))
          with (take (length netPkt `min` (fragBegin + ps) - fragBegin) (drop fragBegin netPkt)); [done|].
        destruct (decide (fragBegin + ps <= length netPkt)%nat).
        { f_equal. lia. }
        { rewrite !take_ge; [done|rewrite length_drop; lia..]. }
      * specialize (Hnews i fr' Hl). rewrite length_app in Hnews. cbn [length] in Hnews.
        replace (Z.of_nat (length done) + Z.of_nat (S i))
          with (Z.of_nat (length done + 1) + Z.of_nat i) by lia.
        replace (chunk ps (drop fragBegin netPkt) (S i))
          with (chunk ps (drop (length netPkt `min` (fragBegin + ps)) netPkt) i); [done|].
        unfold chunk. rewrite !drop_drop. f_equal.
        destruct (decide (fragBegin + ps <= length netPkt)%nat).
        { f_equal. lia. }
        { rewrite !drop_ge; [done|lia..]. }
Qed.

(** ** The sizes of a packet *)

Lemma els_size_split t els :
  els_size els = els_size (block_remove t els) + els_size (List.filter (fun b => block_type b =? t) els).
Proof.
  unfold block_remove. induction els as [|b els IH]; [done|]. cbn [List.filter].
  destruct (block_type b =? t); cbn [negb]; rewrite !els_size_cons; lia.
Qed.

Lemma header_size_others els :
  Forall canonical els -> header_size els = els_size (block_remove (lp_num Fragment) els).
Proof.
  unfold header_size. intros Hc.
  enough (H : forall acc, foldl (fun size element =>
    if negb (block_type element =? lp_num Fragment) then size + block_size element else size) acc els =
    acc + els_size (block_remove (lp_num Fragment) els)) by (by rewrite H).
  induction Hc as [|b els [Hb _] _ IH]; intros acc; [symmetry; apply Z.add_0_r|].
  cbn [foldl]. rewrite IH. unfold block_remove. cbn [List.filter].
  destruct (negb _); [|done]. rewrite els_size_cons. unfold block_size. rewrite Hb at 1.
  cbn [block_wire element]. lia.
Qed.

(** A field that is not repeatable occurs at most once. *)
Lemma single_field f els :
  field_declared f -> IsRepeatable f = false -> fields_ok els ->
  (length (List.filter (is_field f) els) <= 1)%nat.
Proof.
  intros (_ & _ & Hrep) Hr [_ Hs]. induction Hs as [|b els Hs IH Hb]; cbn [List.filter]; [cbn; lia|].
  unfold is_field at 1. destruct (Z.eqb_spec (block_type b) (TlvType f)) as [E|E]; [|done].
  assert (Hn : List.filter (is_field f) els = []).
  { clear IH Hs. induction Hb as [|x els Hx _ IH]; [done|]. cbn [List.filter]. unfold is_field at 1.
    destruct (Z.eqb_spec (block_type x) (TlvType f)) as [E'|E']; [|done].
    destruct Hx as [Hx|[_ Hx]]; [rewrite E, E' in Hx; lia|]. rewrite E', Hrep in Hx. congruence. }
  rewrite Hn. done.
Qed.

Lemma fragment_filter p netPkt :
  pkt_wf p -> pkt_get FragmentField 0 p = Ok netPkt ->
  List.filter (is_field FragmentField) (pk_elements p) = [element (lp_num Fragment) netPkt].
Proof.
  intros Hp. rewrite pkt_get_filter.
  pose proof (single_field FragmentField (pk_elements p) law_declared eq_refl (pw_fields p Hp)) as Hl.
  destruct (List.filter (is_field FragmentField) (pk_elements p)) as [|b [|b' l]] eqn:E;
    cbn [lookup list_lookup length] in *; [done| |lia].
  intros Hd. assert (Hb : b ∈ pk_elements p).
  { apply list_elem_of_In. apply (filter_In (is_field FragmentField)). rewrite E. by left. }
  destruct (proj1 (Forall_forall _ _) (pw_canonical p Hp) b Hb) as [Hc _].
  assert (Ht : block_type b = lp_num Fragment).
  { assert (Hin : In b (List.filter (is_field FragmentField) (pk_elements p))) by (rewrite E; by left).
    apply filter_In in Hin as [_ Hin]. unfold is_field in Hin. by zbool. }
  cbn [DecodeHelper Fragment_codec] in Hd. unfold decode_range in Hd.
  case_match; [done|]. injection Hd as <-. by rewrite Hc, Ht at 1.
Qed.

(** What [wireEncode] announces about the sizes of a packet. *)
Lemma packet_sizes p netPkt :
  pkt_wf p -> bare_ok p -> pkt_get FragmentField 0 p = Ok netPkt ->
  exists w els p', pkt_wireEncode p = Ok (w, els, p') /\ pkt_wf p' /\
    pk_elements p' = pk_elements p /\
    block_size w <= 20 + others_size p + zlen netPkt /\
    (if block_type w =? lp_num LpPacket then header_size els else 0) = others_size p.
Proof.
  intros Hp Hb Hg. pose proof (fragment_filter p netPkt Hp Hg) as Hf.
  assert (Hsz : els_size (pk_elements p) <= 10 + others_size p + zlen netPkt).
  { rewrite (els_size_split (lp_num Fragment)). unfold is_field in Hf. cbn [TlvType FragmentField] in Hf.
    rewrite Hf, els_size_cons. cbn [block_type block_value element]. change (els_size []) with 0.
    pose proof (fragment_overhead netPkt). unfold others_size. lia. }
  destruct (is_bare p) eqn:E.
  - destruct (Hb E) as (type & value & Ht & He & Hpe & Hl).
    eexists _, _, _. split; [by apply pkt_wireEncode_bare|]. split; [done|]. split; [done|].
    rewrite pkt_get_filter, Hpe in Hg. unfold is_field in Hg. cbn in Hg. unfold decode_range in Hg.
    cbn [block_value element] in Hg. case_match; [done|]. injection Hg as <-.
    unfold others_size. rewrite Hpe. unfold block_size. cbn [block_wire element block_type].
    split; [change (els_size _) with 0; lia|]. by destruct Ht as [-> | ->].
  - destruct (pkt_wireEncode_full p Hp E) as (p' & H1 & H2 & H3).
    eexists _, _, _. split; [exact H1|]. split; [done|]. split; [done|].
    unfold block_size. cbn [block_wire element block_type]. rewrite Z.eqb_refl. split.
    + pose proof (packet_overhead (pkt_octets p)). unfold pkt_octets in *.
      fold (els_size (pk_elements p)) in *. lia.
    + apply header_size_others, Hp.
Qed.

(** ** The pieces *)

Lemma concat_chunks ps n l : concat (map (chunk ps l) (seq 0 n)) = take (n * ps) l.
Proof.
  revert l. induction n as [|n IH]; intros l; [done|]. cbn [seq map concat].
  rewrite <- (fmap_S_seq 0 n). rewrite map_map.
  assert (E : map (fun x => chunk ps l (S x)) (seq 0 n) = map (chunk ps (drop ps l)) (seq 0 n)).
  { apply map_ext. intros x. unfold chunk. rewrite drop_drop. done. }
  rewrite E, IH. unfold chunk. cbn [Nat.mul]. rewrite drop_0.
  rewrite take_take_drop. done.
Qed.

(** Rounding up, as the source does it. *)
Lemma pieces a b :
  0 < a -> 0 < b ->
  let n := a / b + (if negb (a mod b =? 0) then 1 else 0) in
  1 <= n /\ (n - 1) * b < a <= n * b.
Proof.
  intros Ha Hb. cbn zeta. pose proof (Z.div_mod a b ltac:(lia)). pose proof (Z.mod_pos_bound a b Hb).
  destruct (Z.eqb_spec (a mod b) 0); cbn [negb]; nia.
Qed.

(** ** The result of [fragmentPacket] *)

(** The fragments of a packet [p] with network packet [netPkt]: at least two, numbered in
    order, the first one with the other fields of [p], with payloads that concatenate to
    [netPkt], and small enough for a sequence number to fit beside them. *)
Record fragments_of (p : Packet) (netPkt : octets) (mtu : Z) (frags : list Packet) : Prop := {
  fs_count : (2 <= length frags)%nat;
  fs_payloads : exists payloads, length payloads = length frags /\ concat payloads = netPkt /\
    forall i fr pl, frags !! i = Some fr -> payloads !! i = Some pl ->
      fragment_of (if Nat.eqb i 0 then p else Packet_new) (Z.of_nat i) (zlen frags) pl fr /\
      els_size (pk_elements fr) + 20 <= mtu;
}.

(** How many octets [n] fragments can carry. *)
Definition capacity (p : Packet) (mtu n : Z) : Z :=
  (mtu - others_size p - MAX_FRAG_OVERHEAD) + (n - 1) * (mtu - MAX_FRAG_OVERHEAD).

Lemma others_size_elements p p' :
  pk_elements p' = pk_elements p -> others_size p' = others_size p.
Proof. unfold others_size. by intros ->. Qed.

Lemma fragment_of_elements p p' i c v fr :
  pk_elements p' = pk_elements p -> fragment_of p' i c v fr -> fragment_of p i c v fr.
Proof.
  intros He [H1 H2 H3 H4 H5 H6 H7]. rewrite (others_size_elements _ _ He) in H7.
  split; try done. intros g Hg. by rewrite <- He, H5.
Qed.

(** The slow path: [f] octets in the first fragment, [ps] in the others. *)
Lemma populate_all p netPkt mtu (f ps n : nat) :
  slot_ok p -> zlen netPkt < 2 ^ 32 -> (0 < f < length netPkt)%nat -> (0 < ps)%nat -> (0 < n)%nat ->
  others_size p + MAX_FRAG_OVERHEAD + Z.of_nat f <= mtu -> MAX_FRAG_OVERHEAD + Z.of_nat ps <= mtu ->
  ((n - 1) * ps < length netPkt - f <= n * ps)%nat ->
  exists frags, populate (length netPkt) netPkt (Z.of_nat (S n)) mtu ps 0 0 f
      (p :: replicate n Packet_new) = Ok (S n, frags) /\
    length frags = S n /\ fragments_of p netPkt mtu frags.
Proof.
  intros Hp Hl Hf Hps Hn Hm1 Hm2 Hc. unfold zlen in Hl.
  assert (Hnl : (n <= length netPkt)%nat) by nia.
  destruct (length netPkt) as [|fuel] eqn:El; [lia|].
  destruct (populate_step fuel netPkt (Z.of_nat (S n)) mtu ps [] p (replicate n Packet_new) 0 f)
    as (fr & E & Hfr); try (unfold is_u64, zlen; cbn [length]; lia); [done|].
  rewrite El in E. cbn [length app] in E.
  destruct (populate_rest n fuel netPkt (Z.of_nat (S n)) mtu ps [fr] f) as (news & E' & Hlen & Hnews);
    try (unfold is_u64, zlen; cbn [length]; lia).
  rewrite El in E'. cbn [length app] in E'. rewrite E, E'.
  exists (fr :: news). split; [by replace (1 + n)%nat with (S n) by lia|].
  split; [cbn; lia|]. split; [cbn; lia|].
  exists (take f netPkt :: map (chunk ps (drop f netPkt)) (seq 0 n)).
  split; [cbn; rewrite length_map, length_seq; lia|]. split.
  { cbn [concat]. rewrite concat_chunks, (take_ge (drop f netPkt)) by (rewrite length_drop; lia).
    apply take_drop. }
  assert (Hz : zlen (fr :: news) = Z.of_nat (S n)) by (unfold zlen; cbn; lia).
  rewrite Hz. intros [|i] x pl Hx Hpl; cbn [lookup list_lookup] in Hx, Hpl; cbn [Nat.eqb].
  - injection Hx as <-. injection Hpl as <-. rewrite Nat.sub_0_r, drop_0 in Hfr.
    split; [done|]. pose proof (fo_size _ _ _ _ _ Hfr) as Hs. unfold zlen in Hs.
    rewrite length_take in Hs. unfold MAX_FRAG_OVERHEAD in *. lia.
  - change ((chunk ps (drop f netPkt) <$> seq 0 n) !! i = Some pl) in Hpl.
    rewrite list_lookup_fmap in Hpl.
    destruct (seq 0 n !! i) as [j|] eqn:Ej; [|done]. apply lookup_seq in Ej as [-> Hj].
    injection Hpl as <-. specialize (Hnews i x Hx).
    replace (Z.of_nat (S i)) with (zlen [fr] + Z.of_nat i) by (unfold zlen; cbn; lia).
    split; [done|]. pose proof (fo_size _ _ _ _ _ Hnews) as Hs.
    change (others_size Packet_new) with 0 in Hs. unfold zlen, chunk in Hs.
    rewrite length_take in Hs. unfold MAX_FRAG_OVERHEAD in *. lia.
Qed.

(** The slow path of [fragmentPacket]: the header fields leave room for [F] octets. *)
Definition slow_path (nMaxFragments mtu : Z) (p2 : Packet) (netPkt : octets) (others : Z)
  : result (bool * list Packet) :=
  let F := mtu - others - MAX_FRAG_OVERHEAD in
  let ps := mtu - MAX_FRAG_OVERHEAD in
  let fragCount := 1 + ((zlen netPkt - F) / ps + (if negb ((zlen netPkt - F) mod ps =? 0) then 1 else 0)) in
  if fragCount >? nMaxFragments then Ok (false, [])
  else
    let* (fragIndex, frags) := populate (length netPkt) netPkt fragCount mtu (Z.to_nat ps) 0 0 (Z.to_nat F)
      (p2 :: replicate (Z.to_nat fragCount - 1) Packet_new) in
    assert! Z.of_nat fragIndex =? fragCount orelse "fragIndex == fragCount";
    Ok (true, frags).

Lemma slow_path_ok nMaxFragments mtu p netPkt :
  slot_ok p -> zlen netPkt < 2 ^ 32 -> 0 <= others_size p ->
  0 < mtu - others_size p - MAX_FRAG_OVERHEAD < zlen netPkt ->
  (slow_path nMaxFragments mtu p netPkt (others_size p) = Ok (false, []) /\
     capacity p mtu nMaxFragments < zlen netPkt) \/
  (exists frags, slow_path nMaxFragments mtu p netPkt (others_size p) = Ok (true, frags) /\
     zlen frags <= nMaxFragments /\ fragments_of p netPkt mtu frags).
Proof.
  intros Hp Hl Ho HF. unfold slow_path. cbv zeta.
  set (F := mtu - others_size p - MAX_FRAG_OVERHEAD) in *. set (ps := mtu - MAX_FRAG_OVERHEAD).
  assert (Hps : F <= ps) by (unfold ps, F; lia).
  destruct (pieces (zlen netPkt - F) ps) as [Hn1 Hn2]; [lia|lia|].
  set (n := (zlen netPkt - F) / ps + _) in *.
  destruct (1 + n >? nMaxFragments) eqn:Hg2.
  { left. split; [done|]. apply Z.gtb_lt in Hg2. unfold capacity. fold F ps. nia. }
  rewrite Z.gtb_ltb in Hg2. zbool. right.
  destruct (populate_all p netPkt mtu (Z.to_nat F) (Z.to_nat ps) (Z.to_nat n))
    as (frags & Ep & Hlen & Hfs); [done|done|..].
  { unfold zlen in *. lia. }
  { lia. }
  { lia. }
  { unfold F in *. lia. }
  { unfold ps in *. lia. }
  { unfold zlen in *. nia. }
  exists frags. replace (Z.to_nat (1 + n) - 1)%nat with (Z.to_nat n) by lia.
  replace (1 + n) with (Z.of_nat (S (Z.to_nat n))) by lia. rewrite Ep. cbn [mbind result_bind].
  rewrite Z.eqb_refl. split; [done|]. split; [unfold zlen; lia|done].
Qed.

(** The fragments and the capacity depend on the elements of the packet only. *)
Lemma fragments_of_elements p p' netPkt mtu frags :
  pk_elements p' = pk_elements p -> fragments_of p' netPkt mtu frags -> fragments_of p netPkt mtu frags.
Proof.
  intros He [H1 (pls & H2 & H3 & H4)]. split; [done|]. exists pls. split; [done|]. split; [done|].
  intros i fr pl Hfr Hpl. destruct (H4 i fr pl Hfr Hpl) as [H5 H6]. split; [|done].
  destruct (Nat.eqb i 0); [|done]. by apply (fragment_of_elements p p').
Qed.

(** Every outcome of [fragmentPacket]. *)
Lemma fragmentPacket_total (nMaxFragments mtu : Z) (p : Packet) (netPkt : octets)
    (Hp : pkt_wf p) (Hb : bare_ok p) (Hg : pkt_get FragmentField 0 p = Ok netPkt)
    (Hi : pkt_has FragIndexField p = false) (Hc : pkt_has FragCountField p = false)
    (Hl : zlen netPkt < 2 ^ 32) (Hm : 0 < nMaxFragments) :
  (exists p' w els, fragmentPacket nMaxFragments p mtu = Ok (true, [p']) /\ pkt_wf p' /\
     pk_elements p' = pk_elements p /\ pkt_wireEncode p = Ok (w, els, p') /\
     MAX_SINGLE_FRAG_OVERHEAD + block_size w <= mtu) \/
  (fragmentPacket nMaxFragments p mtu = Ok (false, []) /\
     (mtu <= others_size p + MAX_FRAG_OVERHEAD \/ capacity p mtu nMaxFragments < zlen netPkt)) \/
  (exists frags, fragmentPacket nMaxFragments p mtu = Ok (true, frags) /\
     zlen frags <= nMaxFragments /\ fragments_of p netPkt mtu frags).
Proof.
  destruct (packet_sizes p netPkt Hp Hb Hg) as (w & els & p' & E & Hp' & He & Hsz & Hh).
  assert (Hf : pkt_has FragmentField p = true).
  { unfold pkt_has, pkt_count. by rewrite (fragment_filter p netPkt Hp Hg). }
  assert (Hg' : pkt_get FragmentField 0 p' = Ok netPkt) by (unfold pkt_get in *; by rewrite He).
  assert (Hb' : bare_ok p') by (unfold bare_ok, is_bare in *; by rewrite He).
  destruct (packet_sizes p' netPkt Hp' Hb' Hg') as (w2 & els2 & p2 & E2 & Hp2 & He2 & _ & Hh2).
  rewrite He in He2. rewrite (others_size_elements p p' He), <- (others_size_elements p p2 He2) in Hh2.
  unfold fragmentPacket. rewrite Hf, Hi, Hc. cbn [negb]. rewrite E. cbn [mbind result_bind].
  destruct (Z.leb_spec (MAX_SINGLE_FRAG_OVERHEAD + block_size w) mtu) as [Hle|Hgt].
  { left. by exists p', w, els. }
  right. rewrite Hg'. cbn [mbind result_bind]. rewrite E2. cbn [mbind result_bind]. rewrite Hh2.
  assert (Hpos : 0 <= others_size p2) by apply zlen_nonneg.
  rewrite <- (others_size_elements p p2 He2) in Hsz |- *.
  destruct (Z.gtb_spec (MAX_FRAG_OVERHEAD + others_size p2 + 1) mtu); [left; split; [done|left; lia]|].
  rewrite Z.min_r by (unfold MAX_FRAG_OVERHEAD, MAX_SINGLE_FRAG_OVERHEAD in *; lia).
  rewrite <- Z.add_assoc. change (let fragCount := _ in _) with (slow_path nMaxFragments mtu p2 netPkt (others_size p2)).
  destruct (slow_path_ok nMaxFragments mtu p2 netPkt) as [[Es Hcap]|(frags & Es & Hn & Hfs)].
  { split; [done|]. unfold pkt_has, pkt_count in *. by rewrite He2. }
  { done. }
  { done. }
  { unfold MAX_FRAG_OVERHEAD, MAX_SINGLE_FRAG_OVERHEAD in *; lia. }
  - left. split; [done|right]. unfold capacity in *. by rewrite (others_size_elements p p2 He2) in Hcap.
  - right. exists frags. split; [done|]. split; [done|]. by apply (fragments_of_elements p p2).
Qed.

(** C18: fragmenting a packet with a network packet and without fragmentation fields
    never fails and its assertions hold.  The packet is returned unchanged if it fits; it
    is refused only if the MTU has no room for one octet beside the header fields, or the
    allowed number of fragments cannot carry the network packet; otherwise the result
    consists of at most [nMaxFragments] fragments with the properties of
    [fragments_of]. *)
Theorem fragmentPacket_correct (nMaxFragments mtu : Z) (p : Packet) (netPkt : octets)
    (Hp : pkt_wf p) (Hb : bare_ok p) (Hg : pkt_get FragmentField 0 p = Ok netPkt)
    (Hi : pkt_has FragIndexField p = false) (Hc : pkt_has FragCountField p = false)
    (Hl : zlen netPkt < 2 ^ 32) (Hm : 0 < nMaxFragments) :
  (exists p' w els, fragmentPacket nMaxFragments p mtu = Ok (true, [p']) /\ pkt_wf p' /\
     pk_elements p' = pk_elements p /\ pkt_wireEncode p = Ok (w, els, p') /\
     MAX_SINGLE_FRAG_OVERHEAD + block_size w <= mtu) \/
  (fragmentPacket nMaxFragments p mtu = Ok (false, []) /\
     (mtu <= others_size p + MAX_FRAG_OVERHEAD \/ capacity p mtu nMaxFragments < zlen netPkt)) \/
  (exists frags, fragmentPacket nMaxFragments p mtu = Ok (true, frags) /\
     zlen frags <= nMaxFragments /\ fragments_of p netPkt mtu frags).
Proof. by apply fragmentPacket_total. Qed.

(** A packet of 102 octets beside its hop count, for an MTU of 100. *)
Definition sample_net : octets := tlv tlv_Interest (replicate 100 x41).
Definition sample_large : Packet :=
  mkPacket None [element (lp_num HopCountTag) (be_bytes 8 0); element (lp_num Fragment) sample_net].

Lemma sample_large_wf : pkt_wf sample_large.
Proof.
  split; [|repeat (constructor; [by (repeat split; vm_compute)|]); constructor|done].
  apply check_fields_ok; [|by vm_compute]. repeat (constructor; [by split|]). constructor.
Qed.

Lemma fragmentPacket_correct_witness :
  exists frags, fragmentPacket 400 sample_large 100 = Ok (true, frags) /\ length frags = 3%nat /\
    fragments_of sample_large sample_net 100 frags.
Proof.
  assert (Hc : match fragmentPacket 400 sample_large 100 with
               | Ok (true, l) => length l = 3%nat | _ => False end) by (vm_compute; reflexivity).
  destruct (fragmentPacket_correct 400 100 sample_large sample_net sample_large_wf)
    as [(p' & w & els & E & _)|[[E _]|(frags & E & _ & Hf)]];
    [discriminate|reflexivity|reflexivity|reflexivity|by vm_compute|lia|rewrite E in Hc..].
  - discriminate Hc.
  - destruct Hc.
  - exists frags. split; [exact E|]. split; [exact Hc|exact Hf].
Defined.
