(* ===== verification/ValTables.v ===== *)
(** * The soft-state tables (model/val/table: val-ifnt, val-dfnt, val-f2a)

    Interests from the network (IFNT), Data from the network (DFNT) and the map
    from geofaces to geographical areas (F2A).  The tables are [std::list]s of
    [shared_ptr]s to entries that are never modified after construction, so an
    entry is its value here. *)

From stdpp Require Import base list strings.
From Stdlib Require Import Strings.Byte ZArith Lia.
From S2P Require Import Prelude Tlv Encoder Block Codec ValHeader Ndn Signature Data Interest ValPacket.

Local Open Scope Z_scope.

(** [size_t] counters. *)
Definition incr (n : Z) : Z := u64 (n + 1).
Definition decr (n : Z) : Z := u64 (n - 1).

(** ** IFNT: Interests From Network Table *)

Record ifnt_Entry := mkIfntEntry {
  ie_da : octets;
  ie_sa : octets;
  ie_nonce : Z;
  ie_phPos : octets;
  ie_hopC : Z;
  ie_rn : octets;
  ie_faceId : Z;
}.

#[export] Instance ifnt_Entry_eq_dec : EqDecision ifnt_Entry.
Proof. solve_decision. Defined.

(** One hop less than the header of the packet, as [uint8_t]. *)
Definition ifnt_Entry_new (valHeader : ValHeader) (interest : Interest) (faceId : Z) : ifnt_Entry :=
  mkIfntEntry (getDA valHeader) (getSA valHeader) (getNonce interest) (getPhPos valHeader)
              (u8 (getHopC valHeader - 1)) (getRN valHeader) faceId.

Definition ifnt_Entry_eqb (l r : ifnt_Entry) : bool :=
  bool_decide (ie_da l = ie_da r) && bool_decide (ie_sa l = ie_sa r) &&
  (ie_nonce l =? ie_nonce r) && bool_decide (ie_phPos l = ie_phPos r) &&
  (ie_hopC l =? ie_hopC r) && bool_decide (ie_rn l = ie_rn r) && (ie_faceId l =? ie_faceId r).

Record Ifnt := mkIfnt {
  ifnt_table : list ifnt_Entry;
  ifnt_nItens : Z;
}.
Definition Ifnt_new : Ifnt := mkIfnt [] 0.

Definition ifnt_findMatch (entry : ifnt_Entry) (t : Ifnt) : option ifnt_Entry :=
  find_first (fun e => ifnt_Entry_eqb e entry) (ifnt_table t).

Definition ifnt_findMatchByNonce (nonce : Z) (t : Ifnt) : option ifnt_Entry :=
  find_first (fun e => ie_nonce e =? nonce) (ifnt_table t).

(** One result per nonce of the list that has an entry, in the order of the list. *)
Definition ifnt_findMatchByNonceList (nonceList : list Z) (t : Ifnt) : list ifnt_Entry :=
  omap (fun nonce => ifnt_findMatchByNonce nonce t) nonceList.

Definition ifnt_addEntry (entry : ifnt_Entry) (t : Ifnt) : bool * Ifnt :=
  match ifnt_findMatch entry t with
  | None => (true, mkIfnt (ifnt_table t ++ [entry]) (incr (ifnt_nItens t)))
  | Some _ => (false, t)
  end.

Definition ifnt_removeEntry (entry : ifnt_Entry) (t : Ifnt) : bool * Ifnt :=
  let p e := ifnt_Entry_eqb e entry in
  match find_first p (ifnt_table t) with
  | Some _ => (true, mkIfnt (erase_first p (ifnt_table t)) (decr (ifnt_nItens t)))
  | None => (false, t)
  end.

Definition ifnt_removeEntryByNonce (nonce : Z) (t : Ifnt) : bool * Ifnt :=
  match ifnt_findMatchByNonce nonce t with
  | Some e => ifnt_removeEntry e t
  | None => (false, t)
  end.

Definition ifnt_removeEntriesByNonceList (nonceList : list Z) (t : Ifnt) : Ifnt :=
  foldl (fun t nonce => (ifnt_removeEntryByNonce nonce t).2) t nonceList.

Definition getIfntSize : Ifnt -> Z := ifnt_nItens.

(** ** DFNT: Data From Network Table *)

Record dfnt_Entry := mkDfntEntry {
  de_sa : octets;
  de_da : octets;
  de_sig : Signature;
  de_phPos : octets;
  de_hopC : Z;
  de_rn : octets;
  de_faceId : Z;
}.

Definition dfnt_Entry_new (valHeader : ValHeader) (data : Data) (faceId : Z) : dfnt_Entry :=
  mkDfntEntry (getSA valHeader) (getDA valHeader) (getSignature data) (getPhPos valHeader)
              (u8 (getHopC valHeader - 1)) (getRN valHeader) faceId.

Definition dfnt_Entry_eqb (l r : dfnt_Entry) : bool :=
  bool_decide (de_sa l = de_sa r) && bool_decide (de_da l = de_da r) &&
  Signature_eqb (de_sig l) (de_sig r) && bool_decide (de_phPos l = de_phPos r) &&
  (de_hopC l =? de_hopC r) && bool_decide (de_rn l = de_rn r) && (de_faceId l =? de_faceId r).

Record Dfnt := mkDfnt {
  dfnt_table : list dfnt_Entry;
  dfnt_nItens : Z;
}.
Definition Dfnt_new : Dfnt := mkDfnt [] 0.

(** The newest entry comes first; duplicates are kept. *)
Definition dfnt_addEntry (entry : dfnt_Entry) (t : Dfnt) : Dfnt :=
  mkDfnt (entry :: dfnt_table t) (incr (dfnt_nItens t)).

Definition dfnt_erase (p : dfnt_Entry -> bool) (t : Dfnt) : bool * Dfnt :=
  match find_first p (dfnt_table t) with
  | Some _ => (true, mkDfnt (erase_first p (dfnt_table t)) (decr (dfnt_nItens t)))
  | None => (false, t)
  end.
Definition dfnt_removeEntry (entry : dfnt_Entry) : Dfnt -> bool * Dfnt :=
  dfnt_erase (fun e => dfnt_Entry_eqb e entry).
Definition dfnt_removeEntryBySignature (sig : Signature) : Dfnt -> bool * Dfnt :=
  dfnt_erase (fun e => Signature_eqb (de_sig e) sig).

Definition dfnt_findMatch (sig : Signature) (t : Dfnt) : option dfnt_Entry :=
  find_first (fun e => Signature_eqb (de_sig e) sig) (dfnt_table t).

Definition getDfntSize : Dfnt -> Z := dfnt_nItens.

(** ** F2A: geofaces to areas *)

Record f2a_Entry := mkF2aEntry {
  fe_faceId : Z;
  fe_geoArea : octets;
}.
Definition f2a_Entry_eqb (l r : f2a_Entry) : bool :=
  (fe_faceId l =? fe_faceId r) && bool_decide (fe_geoArea l = fe_geoArea r).

Record F2A := mkF2A {
  f2a_table : list f2a_Entry;
  f2a_size : Z;
}.
Definition F2A_new : F2A := mkF2A [] 0.

Definition f2a_findEntry (entry : f2a_Entry) (t : F2A) : bool :=
  existsb (fun e => f2a_Entry_eqb e entry) (f2a_table t).
Definition f2a_findByFaceId (faceId : Z) (t : F2A) : option f2a_Entry :=
  find_first (fun e => fe_faceId e =? faceId) (f2a_table t).
Definition f2a_findByGeoArea (geoArea : octets) (t : F2A) : option f2a_Entry :=
  find_first (fun e => bool_decide (fe_geoArea e = geoArea)) (f2a_table t).

Definition f2a_addEntry (entry : f2a_Entry) (t : F2A) : F2A :=
  if negb (f2a_findEntry entry t)
  then mkF2A (f2a_table t ++ [entry]) (incr (f2a_size t))
  else t.

(** The removal loops erase the element at [it] and then increment [it], an
    iterator to the destroyed node: undefined as soon as one element matches. *)
Fixpoint f2a_remove_loop (p : f2a_Entry -> bool) (it : list f2a_Entry) (t : F2A) : result F2A :=
  match it with
  | [] => Ok t
  | e :: it' =>
    if p e then Err (UndefinedBehaviour "increment of an erased iterator")
    else f2a_remove_loop p it' t
  end.
Definition f2a_removeEntry (entry : f2a_Entry) (t : F2A) : result F2A :=
  f2a_remove_loop (fun e => f2a_Entry_eqb e entry) (f2a_table t) t.
Definition f2a_removeByFaceId (faceId : Z) (t : F2A) : result F2A :=
  f2a_remove_loop (fun e => fe_faceId e =? faceId) (f2a_table t) t.
Definition f2a_removeByGeoArea (geoArea : octets) (t : F2A) : result F2A :=
  f2a_remove_loop (fun e => bool_decide (fe_geoArea e = geoArea)) (f2a_table t) t.

Definition f2a_getSize : F2A -> Z := f2a_size.

(** ** Lemmas on the IFNT *)

Lemma ifnt_Entry_eqb_spec l r : ifnt_Entry_eqb l r = true <-> l = r.
Proof.
  unfold ifnt_Entry_eqb. rewrite !andb_true_iff, !bool_decide_eq_true, !Z.eqb_eq.
  destruct l, r; cbn. split; [by intros [[[[[[-> ->] ->] ->] ->] ->] ->]|by intros [=]].
Qed.

(** No entry twice, and the counter is the length. *)
Definition ifnt_inv (t : Ifnt) : Prop :=
  NoDup (ifnt_table t) /\ ifnt_nItens t = u64 (zlen (ifnt_table t)).

Lemma incr_zlen {A} (l : list A) n x : n = u64 (zlen l) -> incr n = u64 (zlen (l ++ [x])).
Proof.
  intros ->. unfold incr, u64. rewrite zlen_app, zlen_cons, zlen_nil.
  rewrite Z.add_mod_idemp_l by done. f_equal; lia.
Qed.
Lemma incr_zlen_cons {A} (l : list A) n x : n = u64 (zlen l) -> incr n = u64 (zlen (x :: l)).
Proof.
  intros ->. unfold incr, u64. rewrite zlen_cons.
  rewrite Z.add_mod_idemp_l by done. f_equal; lia.
Qed.
Lemma decr_zlen {A} (p : A -> bool) l n :
  is_Some (find_first p l) -> n = u64 (zlen l) -> decr n = u64 (zlen (erase_first p l)).
Proof.
  intros Hf ->. unfold decr, u64. rewrite Zminus_mod_idemp_l.
  unfold zlen. rewrite (erase_first_length p l Hf). f_equal; lia.
Qed.

Lemma ifnt_inv_new : ifnt_inv Ifnt_new.
Proof. split; [constructor|done]. Qed.

Lemma ifnt_findMatch_spec e t :
  ifnt_findMatch e t = if bool_decide (e ∈ ifnt_table t) then Some e else None.
Proof.
  unfold ifnt_findMatch. destruct (find_first _ _) as [e'|] eqn:E.
  - apply find_first_Some in E as [Hin ->%ifnt_Entry_eqb_spec]. by rewrite bool_decide_true.
  - rewrite bool_decide_false; [done|]. intros Hin.
    pose proof (proj1 (find_first_None _ _) E e Hin) as H. cbn in H.
    by rewrite (proj2 (ifnt_Entry_eqb_spec e e) eq_refl) in H.
Qed.

Lemma ifnt_inv_addEntry e t : ifnt_inv t -> ifnt_inv (ifnt_addEntry e t).2.
Proof.
  intros [Hd Hn]. unfold ifnt_addEntry. rewrite ifnt_findMatch_spec.
  case_bool_decide as Hin; [done|]. split; cbn.
  - apply NoDup_app. split; [done|]. split; [|apply NoDup_singleton].
    by intros x Hx ->%list_elem_of_singleton.
  - by apply incr_zlen.
Qed.

Lemma ifnt_inv_removeEntry e t : ifnt_inv t -> ifnt_inv (ifnt_removeEntry e t).2.
Proof.
  intros [Hd Hn]. unfold ifnt_removeEntry. destruct (find_first _ _) eqn:E; [|done]. split; cbn.
  - by apply NoDup_erase_first.
  - by apply decr_zlen; [eexists|].
Qed.

(** Removing by nonce erases the entry that the search by nonce returns. *)
Lemma ifnt_removeEntryByNonce_erase nonce t :
  ifnt_table (ifnt_removeEntryByNonce nonce t).2 =
  erase_first (fun e => ie_nonce e =? nonce) (ifnt_table t).
Proof.
  unfold ifnt_removeEntryByNonce, ifnt_findMatchByNonce, ifnt_removeEntry.
  destruct t as [l n]; cbn [ifnt_table].
  destruct (find_first _ l) as [e|] eqn:E; [|by rewrite erase_first_not_found].
  assert (Heq : forall e', ifnt_Entry_eqb e' e = true <-> e' = e) by (intros; apply ifnt_Entry_eqb_spec).
  cut (find_first (fun e' => ifnt_Entry_eqb e' e) l = Some e /\
       erase_first (fun e' => ifnt_Entry_eqb e' e) l = erase_first (fun e' => ie_nonce e' =? nonce) l).
  { by intros [-> ->]. }
  induction l as [|x l IH]; cbn in *; [done|]. destruct (ie_nonce x =? nonce) eqn:Ex.
  - injection E as ->. by rewrite (proj2 (Heq e) eq_refl).
  - destruct (ifnt_Entry_eqb x e) eqn:Exe.
    + apply Heq in Exe as ->. apply find_first_Some in E as [_ E]. congruence.
    + destruct (IH E) as [-> ->]. done.
Qed.

Lemma ifnt_inv_removeEntryByNonce nonce t : ifnt_inv t -> ifnt_inv (ifnt_removeEntryByNonce nonce t).2.
Proof.
  intros H. unfold ifnt_removeEntryByNonce. case_match; [by apply ifnt_inv_removeEntry|done].
Qed.

Lemma ifnt_inv_removeEntriesByNonceList ns t :
  ifnt_inv t -> ifnt_inv (ifnt_removeEntriesByNonceList ns t).
Proof.
  revert t. induction ns as [|n ns IH]; intros t H; cbn; [done|].
  by apply IH, ifnt_inv_removeEntryByNonce.
Qed.

#[export] Hint Resolve ifnt_inv_new ifnt_inv_addEntry ifnt_inv_removeEntry
  ifnt_inv_removeEntryByNonce ifnt_inv_removeEntriesByNonceList : valdb.

(** Erasing one entry per nonce of the list, in the order of the list. *)
Lemma ifnt_removeEntriesByNonceList_table ns t :
  ifnt_table (ifnt_removeEntriesByNonceList ns t) =
  foldl (fun l n => erase_first (fun e => ie_nonce e =? n) l) (ifnt_table t) ns.
Proof.
  unfold ifnt_removeEntriesByNonceList.
  revert t. induction ns as [|n ns IH]; intros t; cbn [foldl]; [done|].
  by rewrite IH, ifnt_removeEntryByNonce_erase.
Qed.

(** The number of entries with a nonce. *)
Definition nonce_count (n : Z) (l : list ifnt_Entry) : nat :=
  length (filter (fun e => ie_nonce e = n) l).

Lemma nonce_count_erase n m l :
  nonce_count n (erase_first (fun e => ie_nonce e =? m) l) =
  (nonce_count n l - if bool_decide (n = m) then 1 else 0)%nat.
Proof.
  induction l as [|e l IH]; cbn [erase_first]; [by cbn|].
  destruct (ie_nonce e =? m) eqn:E; zbool.
  - unfold nonce_count. rewrite filter_cons. case_bool_decide; case_decide as Hd;
      cbn [length]; lia.
  - unfold nonce_count in *. rewrite !filter_cons. case_bool_decide;
      case_decide as Hd; cbn [length]; lia.
Qed.

Lemma nonce_count_removeList n ns l :
  nonce_count n (foldl (fun l n => erase_first (fun e => ie_nonce e =? n) l) l ns) =
  (nonce_count n l - length (filter (eq n) ns))%nat.
Proof.
  revert l. induction ns as [|m ns IH]; intros l; cbn [foldl]; [cbn; lia|].
  rewrite IH, nonce_count_erase, filter_cons. case_bool_decide; case_decide; cbn [length]; done || lia.
Qed.

Lemma nonce_count_find n l :
  is_Some (find_first (fun e => ie_nonce e =? n) l) <-> (0 < nonce_count n l)%nat.
Proof.
  induction l as [|e l IH]; cbn [find_first].
  - unfold nonce_count. cbn. split; [by intros [? ?]|lia].
  - unfold nonce_count in *. rewrite filter_cons. destruct (ie_nonce e =? n) eqn:E; zbool.
    + rewrite decide_True by done. cbn. split; [lia|by eexists].
    + by rewrite decide_False.
Qed.

(** ** Lemmas on the DFNT *)

Lemma dfnt_Entry_eqb_sig l r : dfnt_Entry_eqb l r = true -> Signature_eqb (de_sig l) (de_sig r) = true.
Proof. unfold dfnt_Entry_eqb. rewrite !andb_true_iff. by intros [[[[[[_ _] H] _] _] _] _]. Qed.

Lemma dfnt_Entry_eqb_refl e : dfnt_Entry_eqb e e = true.
Proof.
  unfold dfnt_Entry_eqb. rewrite !bool_decide_true, !Z.eqb_refl, Signature_eqb_refl by done. done.
Qed.

Definition dfnt_inv (t : Dfnt) : Prop := dfnt_nItens t = u64 (zlen (dfnt_table t)).

Lemma dfnt_inv_new : dfnt_inv Dfnt_new.
Proof. done. Qed.
Lemma dfnt_inv_addEntry e t : dfnt_inv t -> dfnt_inv (dfnt_addEntry e t).
Proof. apply incr_zlen_cons. Qed.
Lemma dfnt_inv_erase p t : dfnt_inv t -> dfnt_inv (dfnt_erase p t).2.
Proof.
  intros H. unfold dfnt_erase. destruct (find_first _ _) eqn:E; [|done].
  by apply decr_zlen; [eexists|].
Qed.
#[export] Hint Resolve dfnt_inv_new dfnt_inv_addEntry dfnt_inv_erase : valdb.

(** Removing the entry that the search by signature returned is removing by
    signature: an entry equal to it has its signature, so none comes before it. *)
Lemma dfnt_remove_found sig t e :
  dfnt_findMatch sig t = Some e ->
  dfnt_removeEntry e t = dfnt_removeEntryBySignature sig t.
Proof.
  unfold dfnt_findMatch, dfnt_removeEntry, dfnt_removeEntryBySignature, dfnt_erase.
  destruct t as [l n]; cbn [dfnt_table dfnt_nItens]. intros E.
  cut (find_first (fun e' => dfnt_Entry_eqb e' e) l = Some e /\
       erase_first (fun e' => dfnt_Entry_eqb e' e) l =
       erase_first (fun e' => Signature_eqb (de_sig e') sig) l).
  { intros [-> ->]. by rewrite E. }
  induction l as [|x l IH]; cbn in *; [done|].
  destruct (Signature_eqb (de_sig x) sig) eqn:Ex.
  - injection E as ->. by rewrite dfnt_Entry_eqb_refl.
  - destruct (dfnt_Entry_eqb x e) eqn:Exe.
    + apply dfnt_Entry_eqb_sig in Exe. apply find_first_Some in E as [_ E].
      by rewrite (Signature_eqb_trans _ _ _ Exe E) in Ex.
    + destruct (IH E) as [-> ->]. done.
Qed.

(** ** Lemmas on the F2A *)

(** Every face has one area and every area one face. *)
Definition f2a_inv (t : F2A) : Prop :=
  NoDup (fe_faceId <$> f2a_table t) /\ NoDup (fe_geoArea <$> f2a_table t) /\
  f2a_size t = u64 (zlen (f2a_table t)).

Lemma f2a_findByFaceId_None id t :
  f2a_findByFaceId id t = None <-> id ∉ (fe_faceId <$> f2a_table t).
Proof.
  unfold f2a_findByFaceId. rewrite find_first_None, list_elem_of_fmap. split.
  - intros H (e & -> & He). specialize (H e He). by rewrite Z.eqb_refl in H.
  - intros H e He. apply Z.eqb_neq. intros <-. apply H. by exists e.
Qed.
Lemma f2a_findByGeoArea_None a t :
  f2a_findByGeoArea a t = None <-> a ∉ (fe_geoArea <$> f2a_table t).
Proof.
  unfold f2a_findByGeoArea. rewrite find_first_None, list_elem_of_fmap. split.
  - intros H (e & -> & He). specialize (H e He). by rewrite bool_decide_true in H.
  - intros H e He. apply bool_decide_eq_false. intros <-. apply H. by exists e.
Qed.

Lemma f2a_findEntry_false e t :
  fe_faceId e ∉ (fe_faceId <$> f2a_table t) -> f2a_findEntry e t = false.
Proof.
  intros H. unfold f2a_findEntry. rewrite existsb_find_first.
  destruct (find_first _ _) as [e'|] eqn:E; [|done].
  apply find_first_Some in E as [Hin Heq]. exfalso. apply H, list_elem_of_fmap.
  unfold f2a_Entry_eqb in Heq. zbool. by exists e'.
Qed.

Lemma f2a_inv_new : f2a_inv F2A_new.
Proof. repeat split; constructor. Qed.

Lemma f2a_addEntry_fresh e t :
  fe_faceId e ∉ (fe_faceId <$> f2a_table t) ->
  f2a_addEntry e t = mkF2A (f2a_table t ++ [e]) (incr (f2a_size t)).
Proof. intros H. unfold f2a_addEntry. by rewrite f2a_findEntry_false. Qed.

Lemma f2a_inv_addEntry e t :
  f2a_inv t -> fe_faceId e ∉ (fe_faceId <$> f2a_table t) ->
  fe_geoArea e ∉ (fe_geoArea <$> f2a_table t) -> f2a_inv (f2a_addEntry e t).
Proof.
  intros (Hf & Ha & Hn) Hef Hea. rewrite f2a_addEntry_fresh by done.
  repeat split; cbn; rewrite ?fmap_app.
  - apply NoDup_app. split; [done|]. split; [|apply NoDup_singleton].
    by intros x Hx ->%list_elem_of_singleton.
  - apply NoDup_app. split; [done|]. split; [|apply NoDup_singleton].
    by intros x Hx ->%list_elem_of_singleton.
  - by apply incr_zlen.
Qed.

Lemma NoDup_fmap_eq {A B} (f : A -> B) l x y :
  NoDup (f <$> l) -> x ∈ l -> y ∈ l -> f x = f y -> x = y.
Proof.
  induction l as [|z l IH]; csimpl; intros Hd; [by intros ?%elem_of_nil|].
  inversion Hd as [|? ? Hz Hd']; subst.
  rewrite !elem_of_cons. intros [->|Hx] [->|Hy] Hf; try done; [exfalso..|by apply IH].
  - apply Hz. rewrite Hf. by apply list_elem_of_fmap_2.
  - apply Hz. rewrite <- Hf. by apply list_elem_of_fmap_2.
Qed.

(** The two searches invert each other. *)
Lemma f2a_find_inverse id a t :
  f2a_inv t ->
  (f2a_findByGeoArea a t = Some (mkF2aEntry id a) <-> f2a_findByFaceId id t = Some (mkF2aEntry id a)).
Proof.
  intros (Hf & Ha & _). unfold f2a_findByGeoArea, f2a_findByFaceId. split; intros H;
    apply find_first_Some in H as [Hin _];
    destruct (find_first _ (f2a_table t)) as [e|] eqn:E.
  - apply find_first_Some in E as [He Heq]. zbool. f_equal.
    by apply (NoDup_fmap_eq fe_faceId (f2a_table t)).
  - pose proof (proj1 (find_first_None _ _) E _ Hin) as H. cbn in H. by rewrite Z.eqb_refl in H.
  - apply find_first_Some in E as [He Heq%bool_decide_eq_true]. f_equal.
    by apply (NoDup_fmap_eq fe_geoArea (f2a_table t)).
  - pose proof (proj1 (find_first_None _ _) E _ Hin) as H. cbn in H.
    by rewrite bool_decide_true in H.
Qed.

Lemma f2a_remove_loop_spec p it t :
  f2a_remove_loop p it t =
  if existsb p it then Err (UndefinedBehaviour "increment of an erased iterator") else Ok t.
Proof. induction it as [|e it IH]; cbn; [done|]. by destruct (p e). Qed.

(** ** Properties *)

Inductive ifnt_op : Type :=
  | IfntAdd (e : ifnt_Entry)
  | IfntRemove (e : ifnt_Entry)
  | IfntRemoveByNonce (n : Z)
  | IfntRemoveByNonceList (ns : list Z).
Definition ifnt_step (t : Ifnt) (o : ifnt_op) : Ifnt :=
  match o with
  | IfntAdd e => (ifnt_addEntry e t).2
  | IfntRemove e => (ifnt_removeEntry e t).2
  | IfntRemoveByNonce n => (ifnt_removeEntryByNonce n t).2
  | IfntRemoveByNonceList ns => ifnt_removeEntriesByNonceList ns t
  end.

Lemma ifnt_inv_run ops t : ifnt_inv t -> ifnt_inv (foldl ifnt_step t ops).
Proof.
  revert t. induction ops as [|o ops IH]; intros t H; cbn; [done|].
  apply IH. destruct o; cbn; auto with valdb.
Qed.

(** Whatever operations are applied to the IFNT, it never holds an entry
    twice and its size counter is its length; adding succeeds exactly when the
    entry is absent and makes it the one found; and removing a list of nonces
    erases, for each nonce, exactly one entry per occurrence in the list as long as
    there are any, and no entry of another nonce. *)
Theorem ifnt_table_spec (ops : list ifnt_op) (e : ifnt_Entry) (ns : list Z) (n : Z) :
  let t := foldl ifnt_step Ifnt_new ops in
  NoDup (ifnt_table t) /\
  getIfntSize t = u64 (zlen (ifnt_table t)) /\
  ((ifnt_addEntry e t).1 = true <-> e ∉ ifnt_table t) /\
  ifnt_findMatch e (ifnt_addEntry e t).2 = Some e /\
  nonce_count n (ifnt_table (ifnt_removeEntriesByNonceList ns t)) =
    (nonce_count n (ifnt_table t) - length (filter (eq n) ns))%nat.
Proof.
  intros t. destruct (ifnt_inv_run ops Ifnt_new ifnt_inv_new) as [Hd Hn].
  split; [done|]. split; [done|]. unfold ifnt_addEntry. rewrite (ifnt_findMatch_spec e t).
  split; [|split].
  - by case_bool_decide.
  - case_bool_decide as He; cbn [snd]; rewrite ifnt_findMatch_spec, bool_decide_true; try done.
    cbn. apply elem_of_app. right. by apply list_elem_of_singleton.
  - by rewrite ifnt_removeEntriesByNonceList_table, nonce_count_removeList.
Qed.

(** The DFNT is a stack per signature.  An added entry is the one the next
    search by its signature returns, whatever older entries there are, and removing
    the found entry restores the table as it was. *)
Theorem dfnt_add_find_remove (e : dfnt_Entry) (t : Dfnt)
    (Hinv : dfnt_inv t) :
  dfnt_findMatch (de_sig e) (dfnt_addEntry e t) = Some e /\
  dfnt_removeEntry e (dfnt_addEntry e t) = (true, t).
Proof.
  assert (Hf : dfnt_findMatch (de_sig e) (dfnt_addEntry e t) = Some e).
  { unfold dfnt_findMatch. cbn. by rewrite Signature_eqb_refl. }
  split; [done|]. rewrite (dfnt_remove_found _ _ _ Hf).
  unfold dfnt_removeEntryBySignature, dfnt_erase. cbn. rewrite Signature_eqb_refl.
  unfold dfnt_inv in Hinv. destruct t as [l n]; cbn in *. subst n.
  unfold incr, decr, u64. rewrite Zminus_mod_idemp_l, <- Z.add_sub_assoc, Z.add_0_r.
  by rewrite Z.mod_mod.
Qed.

Lemma dfnt_add_find_remove_witness :
  let sig := mkSignature (SignatureInfo_ofType 0) (element 23 [Byte.x01]) in
  let e := mkDfntEntry (str "A1") (str "B2") sig (str "0:0:0") 3 (str "/a") 257 in
  let e' := mkDfntEntry (str "A1") (str "C2") sig (str "9:0:0") 2 (str "/a") 257 in
  dfnt_removeEntry e (dfnt_addEntry e (mkDfnt [e'] 1)) = (true, mkDfnt [e'] 1).
Proof. intros sig e e'. by apply (dfnt_add_find_remove e (mkDfnt [e'] 1)). Defined.

(** None of the three removal functions of the F2A removes an entry: each
    leaves the table as it is when nothing matches and has undefined behaviour as
    soon as one entry does. *)
Theorem f2a_removals_undefined (e : f2a_Entry) (id : Z) (a : octets) (t : F2A) :
  let ub := Err (UndefinedBehaviour "increment of an erased iterator") in
  f2a_removeEntry e t = (if f2a_findEntry e t then ub else Ok t) /\
  f2a_removeByFaceId id t =
    (match f2a_findByFaceId id t with Some _ => ub | None => Ok t end) /\
  f2a_removeByGeoArea a t =
    (match f2a_findByGeoArea a t with Some _ => ub | None => Ok t end).
Proof.
  intros ub. unfold f2a_removeEntry, f2a_removeByFaceId, f2a_removeByGeoArea.
  rewrite !f2a_remove_loop_spec. split; [done|].
  unfold f2a_findByFaceId, f2a_findByGeoArea. rewrite !existsb_find_first.
  split; by destruct (find_first _ _).
Qed.
