(* ===== verification/Scheduler.v ===== *)
(** * The event scheduler (ndn-cxx/util/scheduler.cpp, NFD/core/scheduler.cpp)

    Timers of the forwarder and the link service.  The queue is a [std::multiset]
    ordered by expiry time: a new event goes behind the events of the same time.
    An [EventId] holds a [weak_ptr]; an identifier whose event has run or was
    cancelled names nothing any more.  The scheduler is woken up by ns-3 events;
    the ns-3 simulator is an interface with its documented laws. *)

From stdpp Require Import base list strings.
From Stdlib Require Import ZArith Lia Sorting.Sorted.
From S2P Require Import Prelude.

Local Open Scope Z_scope.

Section queue.
Context {K : Type}.

(** [EventInfo]: expiry time in nanoseconds and callback, with its identity. *)
Record Event := mkEvent {
  ev_id : nat;
  ev_time : Z;
  ev_callback : K;
}.

Record EventQueue := mkEventQueue {
  m_queue : list Event;
  next_id : nat;
}.
Definition EventQueue_new : EventQueue := mkEventQueue [] 0.

(** [std::multiset::insert]: at the upper bound of its key. *)
Fixpoint queue_insert (e : Event) (q : list Event) : list Event :=
  match q with
  | [] => [e]
  | x :: q' => if ev_time e <? ev_time x then e :: x :: q' else x :: queue_insert e q'
  end.

(** [nfd::scheduler::schedule(after, callback)]: the identifier and the queue. *)
Definition schedule (now after : Z) (callback : K) (q : EventQueue) : nat * EventQueue :=
  let e := mkEvent (next_id q) (now + after) callback in
  (next_id q, mkEventQueue (queue_insert e (m_queue q)) (S (next_id q))).

(** [nfd::scheduler::cancel]; the default identifier ([None]) and those of events
    that are not in the queue are ignored. *)
Definition cancel (id : option nat) (q : EventQueue) : EventQueue :=
  match id with
  | None => q
  | Some id => mkEventQueue (erase_first (fun e => bool_decide (ev_id e = id)) (m_queue q)) (next_id q)
  end.

(** One iteration of the loop of [executeEvent]: the head if it is due. *)
Definition pop_due (now : Z) (q : EventQueue) : option (Event * EventQueue) :=
  match m_queue q with
  | [] => None
  | e :: q' => if now <? ev_time e then None else Some (e, mkEventQueue q' (next_id q))
  end.

(** Sorted by time, with distinct identifiers below the next one. *)
Definition queue_inv (q : EventQueue) : Prop :=
  StronglySorted (fun a b => ev_time a <= ev_time b) (m_queue q) /\
  NoDup (ev_id <$> m_queue q) /\
  Forall (fun e => (ev_id e < next_id q)%nat) (m_queue q).

Lemma queue_insert_perm e q : queue_insert e q ≡ₚ e :: q.
Proof.
  induction q as [|x q IH]; cbn; [done|]. case_match; [done|].
  rewrite IH. constructor.
Qed.

Lemma queue_insert_sorted e q :
  StronglySorted (fun a b => ev_time a <= ev_time b) q ->
  StronglySorted (fun a b => ev_time a <= ev_time b) (queue_insert e q).
Proof.
  induction 1 as [|x q Hs IH Hx]; cbn; [repeat constructor|].
  case_match; zbool; constructor.
  - by constructor.
  - constructor; [lia|]. eapply Forall_impl; [done|]. cbn. lia.
  - done.
  - rewrite queue_insert_perm. constructor; [lia|done].
Qed.

Lemma queue_inv_new : queue_inv EventQueue_new.
Proof. repeat split; constructor. Qed.

Lemma queue_inv_schedule now after k q : queue_inv q -> queue_inv (schedule now after k q).2.
Proof.
  intros (Hs & Hd & Hn). unfold schedule, queue_inv. cbn [snd m_queue next_id].
  split; [by apply queue_insert_sorted|]. split.
  - rewrite queue_insert_perm. csimpl. constructor; [|done].
    rewrite list_elem_of_fmap. intros (e & He & Hin). rewrite Forall_forall in Hn.
    specialize (Hn e Hin). lia.
  - rewrite queue_insert_perm. constructor; [cbn; lia|].
    eapply Forall_impl; [done|]. cbn. lia.
Qed.

Lemma erase_first_sorted p q :
  StronglySorted (fun a b => ev_time a <= ev_time b) q ->
  StronglySorted (fun a b => ev_time a <= ev_time b) (erase_first p q).
Proof.
  induction 1 as [|x q Hs IH Hx]; cbn; [constructor|]. case_match; [done|]. constructor; [done|].
  rewrite Forall_forall in *. intros y Hy%elem_of_erase_first. by apply Hx.
Qed.

Lemma erase_first_fmap_sublist {B} (f : Event -> B) p q : (f <$> erase_first p q) `sublist_of` (f <$> q).
Proof.
  induction (erase_first_sublist p q); csimpl; by constructor.
Qed.

Lemma queue_inv_cancel id q : queue_inv q -> queue_inv (cancel id q).
Proof.
  intros (Hs & Hd & Hn). destruct id as [id|]; [|done]. cbn. split; [by apply erase_first_sorted|].
  split; cbn.
  - eapply sublist_NoDup; [apply Hd|]. apply erase_first_fmap_sublist.
  - rewrite Forall_forall in *. intros e He%elem_of_erase_first. by apply Hn.
Qed.

Lemma queue_inv_pop now q e q' : queue_inv q -> pop_due now q = Some (e, q') -> queue_inv q'.
Proof.
  intros (Hs & Hd & Hn). unfold pop_due. destruct (m_queue q) as [|x l]; [done|].
  case_match; [done|]. intros [= -> <-]. inversion Hs. inversion Hd. inversion Hn. done.
Qed.

(** What is left after a cancellation. *)
Lemma elem_of_cancel id q e :
  queue_inv q -> (e ∈ m_queue (cancel (Some id) q) <-> e ∈ m_queue q /\ ev_id e <> id).
Proof.
  intros (_ & Hd & _). cbn. induction (m_queue q) as [|x l IH]; cbn [erase_first].
  - split; [by intros ?%elem_of_nil|by intros [?%elem_of_nil _]].
  - csimpl in Hd. inversion Hd as [|? ? Hx Hd']; subst. rewrite elem_of_cons.
    case_bool_decide as Hid.
    + split.
      * intros He. split; [by right|]. intros Hee. apply Hx.
        rewrite Hid, <- Hee. by apply list_elem_of_fmap_2.
      * by intros [[->|He] Hne].
    + rewrite elem_of_cons, (IH Hd'). split.
      * intros [->|[He Hne]]; auto.
      * intros [[->|He] Hne]; auto.
Qed.

Lemma elem_of_schedule now after k q e :
  e ∈ m_queue (schedule now after k q).2 <->
  e = mkEvent (next_id q) (now + after) k \/ e ∈ m_queue q.
Proof. cbn. by rewrite queue_insert_perm, elem_of_cons. Qed.

Lemma elem_of_pop now q e q' x :
  pop_due now q = Some (e, q') -> (x ∈ m_queue q <-> x = e \/ x ∈ m_queue q').
Proof.
  unfold pop_due. destruct (m_queue q) as [|y l]; [done|]. case_match; [done|].
  intros [= -> <-]. apply elem_of_cons.
Qed.

Lemma pop_due_None now q :
  queue_inv q -> pop_due now q = None -> length (filter (fun e => ev_time e <= now) (m_queue q)) = 0%nat.
Proof.
  intros (Hs & _ & _). unfold pop_due. destruct (m_queue q) as [|x l]; [done|].
  case_match; [|done]. zbool. intros _. inversion Hs as [|? ? _ Hx]; subst.
  rewrite filter_cons, decide_False by lia.
  clear Hs. induction Hx as [|y l Hy _ IH]; [done|].
  rewrite filter_cons, decide_False by lia. done.
Qed.
End queue.

Arguments Event : clear implicits.
Arguments EventQueue : clear implicits.
#[export] Hint Resolve queue_inv_new queue_inv_schedule queue_inv_cancel : valdb.

(** ** Timers of objects

    Every pending event of one kind belongs to an object, which stores its identifier. *)
Section timed.
Context {K : Type}.
Implicit Types (q : EventQueue K) (mk : nat -> K) (f g : nat -> option nat).

Definition timed q mk f : Prop := forall x id,
  f x = Some id <-> exists ev, ev ∈ m_queue q /\ ev_callback ev = mk x /\ ev_id ev = id.

Lemma timed_ext q mk f g : (forall x, g x = f x) -> timed q mk f -> timed q mk g.
Proof. intros E Ht x id. by rewrite E. Qed.

Lemma queue_id_inj q ev ev' : queue_inv q -> ev ∈ m_queue q -> ev' ∈ m_queue q -> ev_id ev = ev_id ev' -> ev = ev'.
Proof.
  intros (_ & Hd & _) [i Hi]%list_elem_of_lookup [j Hj]%list_elem_of_lookup E.
  assert (i = j) as ->; [|congruence]. apply (NoDup_lookup (ev_id <$> m_queue q) i j (ev_id ev)); [done| |].
  - by rewrite list_lookup_fmap, Hi.
  - by rewrite list_lookup_fmap, Hj, E.
Qed.

(** Cancelling the timer of an object removes its event and no other. *)
Lemma elem_of_cancel_timed q mk f x ev : queue_inv q -> timed q mk f -> (forall y z, mk y = mk z -> y = z) ->
  ev ∈ m_queue (cancel (f x) q) <-> ev ∈ m_queue q /\ ev_callback ev <> mk x.
Proof.
  intros Hq Ht Hinj. destruct (f x) as [id|] eqn:Ef.
  - rewrite elem_of_cancel by done. apply Ht in Ef as (e0 & H0 & C0 & <-). split; intros [Hev Hne]; (split; [done|]).
    + intros Hc. apply Hne. assert (f x = Some (ev_id ev)) as E by (apply Ht; by exists ev).
      assert (f x = Some (ev_id e0)) as E0 by (apply Ht; by exists e0). congruence.
    + intros E. apply Hne. by rewrite (queue_id_inj q ev e0 Hq Hev H0 E).
  - cbn. split; [|by intros [? _]]. intros Hev. split; [done|]. intros Hc.
    assert (f x = Some (ev_id ev)) by (apply Ht; by exists ev). congruence.
Qed.

Lemma timed_cancel q mk f g x : queue_inv q -> timed q mk f -> (forall y z, mk y = mk z -> y = z) ->
  g x = None -> (forall y, y <> x -> g y = f y) -> timed (cancel (f x) q) mk g.
Proof.
  intros Hq Ht Hinj Hx Hy y id. destruct (decide (y = x)) as [->|Hne].
  - rewrite Hx. split; [done|]. intros (ev & Hev & Hc & _). apply (elem_of_cancel_timed q mk f) in Hev as [_ ?]; done.
  - rewrite (Hy y Hne), (Ht y id). split; intros (ev & Hev & Hc & E); exists ev; (split; [|done]).
    + apply (elem_of_cancel_timed q mk f); [done..|]. split; [done|]. rewrite Hc. by intros ?%Hinj.
    + by apply (elem_of_cancel_timed q mk f) in Hev as [? _].
Qed.
Lemma timed_cancel_other q mk f mk' g x : queue_inv q -> timed q mk f -> (forall y z, mk y = mk z -> y = z) ->
  (forall y, mk' y <> mk x) -> timed q mk' g -> timed (cancel (f x) q) mk' g.
Proof.
  intros Hq Ht Hinj Hne Hg y id. rewrite (Hg y id). split; intros (ev & Hev & Hc & E); exists ev; (split; [|done]).
  - apply (elem_of_cancel_timed q mk f); [done..|]. split; [done|]. by rewrite Hc.
  - by apply (elem_of_cancel_timed q mk f) in Hev as [? _].
Qed.

(** Scheduling an event for an object without a pending one. *)
Lemma timed_schedule now after q mk f g x : (forall y z, mk y = mk z -> y = z) -> timed q mk f -> f x = None ->
  g x = Some (next_id q) -> (forall y, y <> x -> g y = f y) -> timed (schedule now after (mk x) q).2 mk g.
Proof.
  intros Hinj Ht Hf Hx Hy y id. setoid_rewrite elem_of_schedule. destruct (decide (y = x)) as [->|Hne].
  - rewrite Hx. split.
    + intros [= <-]. eexists. split; [by left|done].
    + intros (ev & [->|Hev] & Hc & <-); [done|]. exfalso. assert (f x = Some (ev_id ev)) by (apply Ht; by exists ev). congruence.
  - rewrite (Hy y Hne), (Ht y id). split.
    + intros (ev & Hev & Hc). exists ev. split; [by right|done].
    + intros (ev & [->|Hev] & Hc & E); [by apply Hinj in Hc as ->|by exists ev].
Qed.
Lemma timed_schedule_other now after q k mk' g : (forall y, mk' y <> k) -> timed q mk' g -> timed (schedule now after k q).2 mk' g.
Proof.
  intros Hne Hg y id. rewrite (Hg y id). setoid_rewrite elem_of_schedule. split.
  - intros (ev & Hev & Hc). exists ev. split; [by right|done].
  - intros (ev & [->|Hev] & Hc & E); [by destruct (Hne y)|by exists ev].
Qed.

(** The event of an object runs. *)
Lemma timed_pop now q e q' mk f g x : queue_inv q -> timed q mk f -> (forall y z, mk y = mk z -> y = z) ->
  pop_due now q = Some (e, q') -> ev_callback e = mk x -> g x = None -> (forall y, y <> x -> g y = f y) -> timed q' mk g.
Proof.
  intros Hq Ht Hinj Hp Hc Hx Hy y id. pose proof (elem_of_pop now q e q') as Hel.
  assert (He : e ∈ m_queue q) by (apply (Hel e); [done|by left]).
  assert (He' : e ∉ m_queue q').
  { intros Hin. destruct Hq as (_ & Hd & _). unfold pop_due in Hp. destruct (m_queue q) as [|z l]; [done|]. case_match; [done|].
    injection Hp as -> <-. csimpl in Hd. apply NoDup_cons in Hd as [Hd _]. apply Hd. by apply list_elem_of_fmap_2. }
  destruct (decide (y = x)) as [->|Hne].
  - rewrite Hx. split; [done|]. intros (ev & Hev & Hce & _). exfalso. apply He'.
    assert (Hevq : ev ∈ m_queue q) by (apply (Hel ev); [done|by right]).
    assert (f x = Some (ev_id ev)) by (apply Ht; by exists ev). assert (f x = Some (ev_id e)) by (apply Ht; by exists e).
    by rewrite <- (queue_id_inj q ev e) by (done || congruence).
  - rewrite (Hy y Hne), (Ht y id). split; intros (ev & Hev & Hce & E); exists ev; (split; [|done]).
    + apply (Hel ev) in Hev as [->|]; [|done|done]. rewrite Hc in Hce. by apply Hinj in Hce.
    + apply (Hel ev); [done|by right].
Qed.
Lemma timed_pop_other now q e q' mk' g : pop_due now q = Some (e, q') -> (forall y, mk' y <> ev_callback e) -> timed q mk' g -> timed q' mk' g.
Proof.
  intros Hp Hne Hg y id. rewrite (Hg y id). split; intros (ev & Hev & Hc & E); exists ev; (split; [|done]).
  - apply (elem_of_pop now q e q' ev Hp) in Hev as [->|]; [by destruct (Hne y)|done].
  - apply (elem_of_pop now q e q' ev Hp). by right.
Qed.
End timed.

(** ** Wake-ups

    What the scheduler relies on of [ns3::Simulator]: an event scheduled after a
    delay is pending for the time it is due until it is removed or runs, and
    removing or scheduling one event does not disturb the others. *)
Class Ns3Simulator (Sim : Type) := {
  sim_now : Sim -> Z;
  sim_pending : Sim -> list (nat * Z);   (* identifier and time *)
  Schedule : Z -> Sim -> nat * Sim;
  Remove : nat -> Sim -> Sim;
  IsExpired : nat -> Sim -> bool;
}.

Class Ns3Laws (Sim : Type) `{Ns3Simulator Sim} := {
  Schedule_now d s : sim_now (Schedule d s).2 = sim_now s;
  Schedule_pending d s x :
    x ∈ sim_pending (Schedule d s).2 <-> x = ((Schedule d s).1, sim_now s + d) \/ x ∈ sim_pending s;
  Remove_now i s : sim_now (Remove i s) = sim_now s;
  Remove_pending i s x : x ∈ sim_pending (Remove i s) <-> x ∈ sim_pending s /\ x.1 <> i;
}.

Section scheduler.
Context {K Sim : Type} `{Ns3Simulator Sim}.

Record Scheduler := mkScheduler {
  s_queue : EventQueue K;
  m_isEventExecuting : bool;
  m_timerEvent : option nat;
  s_sim : Sim;
}.

Definition expiresFromNow (e : Event K) (sim : Sim) : Z := Z.max (ev_time e - sim_now sim) 0.

Definition scheduleNext (s : Scheduler) : Scheduler :=
  match m_queue (s_queue s) with
  | [] => s
  | e :: _ =>
    let '(i, sim) := Schedule (expiresFromNow e (s_sim s)) (s_sim s) in
    mkScheduler (s_queue s) (m_isEventExecuting s) (Some i) sim
  end.

(** The new event is at the beginning of the queue. *)
Definition is_begin (id : nat) (q : EventQueue K) : bool :=
  match m_queue q with [] => false | e :: _ => bool_decide (ev_id e = id) end.

Definition scheduleEvent (after : Z) (callback : K) (s : Scheduler) : nat * Scheduler :=
  let '(id, q) := schedule (sim_now (s_sim s)) after callback (s_queue s) in
  let s := mkScheduler q (m_isEventExecuting s) (m_timerEvent s) (s_sim s) in
  (id, if negb (m_isEventExecuting s) && is_begin id q then scheduleNext s else s).

Definition cancelImpl (id : nat) (s : Scheduler) : Scheduler :=
  if negb (existsb (fun e => bool_decide (ev_id e = id)) (m_queue (s_queue s))) then s else
  let s :=
    if is_begin id (s_queue s) then
      match m_timerEvent s with
      | Some t =>
        let sim := if negb (IsExpired t (s_sim s)) then Remove t (s_sim s) else s_sim s in
        mkScheduler (s_queue s) (m_isEventExecuting s) None sim
      | None => s
      end
    else s in
  let s := mkScheduler (cancel (Some id) (s_queue s)) (m_isEventExecuting s) (m_timerEvent s) (s_sim s) in
  if negb (m_isEventExecuting s) then scheduleNext s else s.

(** [executeEvent], where [run] is what calling a callback does; the fuel bounds the
    number of callbacks, which may schedule further events that are due. *)
Fixpoint execute_loop (fuel : nat) (run : K -> Scheduler -> Scheduler) (s : Scheduler)
  : result Scheduler :=
  match pop_due (sim_now (s_sim s)) (s_queue s) with
  | None => Ok s
  | Some (e, q) =>
    match fuel with
    | O => Err OutOfFuel
    | S fuel' =>
      execute_loop fuel' run
        (run (ev_callback e) (mkScheduler q (m_isEventExecuting s) (m_timerEvent s) (s_sim s)))
    end
  end.

Definition executeEvent (fuel : nat) (run : K -> Scheduler -> Scheduler) (s : Scheduler)
  : result Scheduler :=
  let s := mkScheduler (s_queue s) true None (s_sim s) in
  let* s := execute_loop fuel run s in
  Ok (scheduleNext (mkScheduler (s_queue s) false (m_timerEvent s) (s_sim s))).

(** A non-empty queue has a wake-up no later than its first event is due. *)
Definition armed (s : Scheduler) : Prop :=
  match m_queue (s_queue s) with
  | [] => True
  | e :: _ =>
    exists w, w ∈ sim_pending (s_sim s) /\ w.2 <= Z.max (sim_now (s_sim s)) (ev_time e)
  end.

(** What a scheduler promises between two calls. *)
Definition sched_inv (s : Scheduler) : Prop :=
  queue_inv (s_queue s) /\ (m_isEventExecuting s = false -> armed s).

Context `{!Ns3Laws Sim}.

Lemma scheduleNext_queue s : s_queue (scheduleNext s) = s_queue s.
Proof.
  unfold scheduleNext. destruct (m_queue (s_queue s)); [done|]. by destruct (Schedule _ _).
Qed.

Lemma scheduleNext_executing s : m_isEventExecuting (scheduleNext s) = m_isEventExecuting s.
Proof.
  unfold scheduleNext. destruct (m_queue (s_queue s)); [done|]. by destruct (Schedule _ _).
Qed.

Lemma scheduleEvent_elem_of after k s id s' :
  scheduleEvent after k s = (id, s') ->
  mkEvent id (sim_now (s_sim s) + after) k ∈ m_queue (s_queue s').
Proof.
  unfold scheduleEvent. destruct (schedule _ _ _ _) as [i q] eqn:E. intros [= <- <-].
  pose proof (elem_of_schedule (sim_now (s_sim s)) after k (s_queue s)
                (mkEvent i (sim_now (s_sim s) + after) k)) as He.
  rewrite E in He. cbn in He. unfold schedule in E. injection E as <- <-.
  case_match; rewrite ?scheduleNext_queue; apply He; by left.
Qed.

Lemma cancelImpl_elem_of id s e :
  queue_inv (s_queue s) ->
  (e ∈ m_queue (s_queue (cancelImpl id s)) <-> e ∈ m_queue (s_queue s) /\ ev_id e <> id).
Proof.
  intros Hq. rewrite <- elem_of_cancel by done. unfold cancelImpl.
  destruct (existsb _ _) eqn:Hex; cbn [negb].
  - set (s1 := if is_begin id (s_queue s) then _ else _).
    assert (H1 : s_queue s1 = s_queue s).
    { subst s1. destruct (is_begin _ _); [|done]. by destruct (m_timerEvent s). }
    case_match; rewrite ?scheduleNext_queue; cbn [s_queue]; by rewrite H1.
  - cbn. rewrite erase_first_not_found; [done|]. rewrite existsb_find_first in Hex.
    by destruct (find_first _ _).
Qed.

Lemma armed_scheduleNext s : armed (scheduleNext s).
Proof.
  unfold armed. rewrite scheduleNext_queue. unfold scheduleNext.
  destruct (m_queue (s_queue s)) as [|e q]; [done|].
  pose proof (Schedule_now (expiresFromNow e (s_sim s)) (s_sim s)) as Hn.
  pose proof (Schedule_pending (expiresFromNow e (s_sim s)) (s_sim s)) as Hp.
  destruct (Schedule _ _) as [i sim] eqn:E. cbn in *.
  exists (i, sim_now (s_sim s) + expiresFromNow e (s_sim s)). split; [apply Hp; by left|].
  cbn. rewrite Hn. unfold expiresFromNow. lia.
Qed.

Lemma is_begin_head id q : is_begin id q = true <-> exists e l, m_queue q = e :: l /\ ev_id e = id.
Proof.
  unfold is_begin. destruct (m_queue q) as [|e l]; [by split; [|intros (? & ? & ? & _)]|].
  rewrite bool_decide_eq_true. split; [by exists e, l|by intros (? & ? & [= -> ->] & ?)].
Qed.

Lemma sched_inv_scheduleEvent after k s : sched_inv s -> sched_inv (scheduleEvent after k s).2.
Proof.
  intros [Hq Ha]. unfold scheduleEvent.
  pose proof (queue_inv_schedule (sim_now (s_sim s)) after k _ Hq) as Hq'.
  destruct (schedule _ _ _ _) as [id q] eqn:E. cbn [snd] in *.
  case_match eqn:Hc; split; rewrite ?scheduleNext_queue; try done.
  { intros _. apply armed_scheduleNext. }
  cbn. intros Hx. rewrite Hx in Hc. cbn in Hc. specialize (Ha Hx). unfold armed in *. cbn.
  unfold schedule in E. injection E as <- <-.
  destruct (m_queue (s_queue s)) as [|x l] eqn:El; cbn [m_queue] in *.
  - unfold is_begin in Hc. cbn in Hc. by rewrite bool_decide_true in Hc.
  - unfold is_begin in Hc. cbn in *. destruct (_ <? _); [|done]. cbn in Hc.
    by rewrite bool_decide_true in Hc.
Qed.

Lemma sched_inv_cancelImpl id s : sched_inv s -> sched_inv (cancelImpl id s).
Proof.
  intros [Hq Ha]. unfold cancelImpl.
  destruct (existsb _ _) eqn:Hex; cbn [negb]; [|done].
  set (s1 := if is_begin id (s_queue s) then _ else _).
  assert (H1 : s_queue s1 = s_queue s /\ m_isEventExecuting s1 = m_isEventExecuting s).
  { subst s1. destruct (is_begin _ _); [|done]. by destruct (m_timerEvent s). }
  destruct H1 as [H1 H2]. cbn [m_isEventExecuting]. rewrite H2.
  destruct (m_isEventExecuting s) eqn:Hx; cbn [negb].
  - split; [|done]. cbn [s_queue]. rewrite H1. by apply queue_inv_cancel.
  - split; [|intros _; apply armed_scheduleNext].
    rewrite scheduleNext_queue. cbn [s_queue]. rewrite H1. by apply queue_inv_cancel.
Qed.

(** The events that are due. *)
Definition due_count (s : Scheduler) : nat :=
  length (filter (fun e => ev_time e <= sim_now (s_sim s)) (m_queue (s_queue s))).

(** Callbacks that keep the queue well formed and schedule only for the future. *)
Definition future_only (run : K -> Scheduler -> Scheduler) : Prop :=
  forall k s, queue_inv (s_queue s) ->
    queue_inv (s_queue (run k s)) /\ sim_now (s_sim (run k s)) = sim_now (s_sim s) /\
    (due_count (run k s) <= due_count s)%nat.

Lemma execute_loop_spec fuel run s s' :
  future_only run -> queue_inv (s_queue s) -> execute_loop fuel run s = Ok s' ->
  queue_inv (s_queue s') /\ sim_now (s_sim s') = sim_now (s_sim s) /\
  pop_due (sim_now (s_sim s)) (s_queue s') = None.
Proof.
  intros Hrun. revert s. induction fuel as [|fuel IH]; intros s Hq Hl; cbn in Hl;
    destruct (pop_due (sim_now (s_sim s)) _) as [[e q]|] eqn:E; try done;
    try by (injection Hl as <-).
  set (s1 := mkScheduler q (m_isEventExecuting s) (m_timerEvent s) (s_sim s)) in Hl.
  assert (Hq' : queue_inv q) by by eapply queue_inv_pop.
  destruct (Hrun (ev_callback e) s1 Hq') as (Hq1 & Hn & _).
  specialize (IH _ Hq1 Hl). by rewrite Hn in IH.
Qed.

Lemma scheduleNext_now s : sim_now (s_sim (scheduleNext s)) = sim_now (s_sim s).
Proof.
  unfold scheduleNext. destruct (m_queue (s_queue s)) as [|e q]; [done|].
  pose proof (Schedule_now (expiresFromNow e (s_sim s)) (s_sim s)) as Hn.
  by destruct (Schedule _ _).
Qed.

Lemma execute_loop_terminates fuel run s :
  future_only run -> queue_inv (s_queue s) -> (due_count s <= fuel)%nat ->
  exists s', execute_loop fuel run s = Ok s'.
Proof.
  intros Hrun. revert s. induction fuel as [|fuel IH]; intros s Hq Hf; cbn;
    destruct (pop_due _ _) as [[e q]|] eqn:E; try by eexists.
  - exfalso. unfold pop_due, due_count in *. destruct (m_queue (s_queue s)) as [|x l]; [done|].
    case_match; [done|]. zbool. rewrite filter_cons, decide_True in Hf by lia. cbn in Hf. lia.
  - assert (Hq' : queue_inv q) by by eapply queue_inv_pop.
    set (s1 := mkScheduler q (m_isEventExecuting s) (m_timerEvent s) (s_sim s)).
    destruct (Hrun (ev_callback e) s1 Hq') as (Hq1 & _ & Hd). apply IH; [done|].
    enough (due_count s = S (due_count s1)) by lia. subst s1. unfold pop_due, due_count in *.
    destruct (m_queue (s_queue s)) as [|x l]; [done|]. case_match; [done|].
    injection E as -> <-. zbool. cbn [s_queue s_sim m_queue].
    by rewrite filter_cons, decide_True by lia.
Qed.
End scheduler.

Arguments Scheduler K Sim : clear implicits.

(** ** Properties *)

(** No timer is lost.  Between calls the scheduler always has an ns-3
    wake-up pending no later than its first event is due: scheduling an event, and
    cancelling one (the head with its wake-up included), preserve this; and when a
    wake-up runs [executeEvent] with callbacks that schedule for the future only, it
    returns after as many callbacks as events are due, leaves no due event in the
    queue and is armed again. *)
Theorem scheduler_loses_no_timer {K Sim : Type} `{Ns3Laws Sim} (s : Scheduler K Sim)
    (after : Z) (k : K) (id : nat) (run : K -> Scheduler K Sim -> Scheduler K Sim)
    (Hs : sched_inv s) (Hrun : future_only run) :
  (let '(id', s') := scheduleEvent after k s in
   sched_inv s' /\ mkEvent id' (sim_now (s_sim s) + after) k ∈ m_queue (s_queue s')) /\
  (sched_inv (cancelImpl id s) /\
   forall e, e ∈ m_queue (s_queue (cancelImpl id s)) <-> e ∈ m_queue (s_queue s) /\ ev_id e <> id) /\
  exists s', executeEvent (due_count s) run s = Ok s' /\
    m_isEventExecuting s' = false /\ sched_inv s' /\
    sim_now (s_sim s') = sim_now (s_sim s) /\ due_count s' = 0%nat.
Proof.
  split; [|split; [split|]].
  - destruct (scheduleEvent after k s) as [id' s'] eqn:E. split.
    + change s' with ((id', s').2). rewrite <- E. by apply sched_inv_scheduleEvent.
    + by apply (scheduleEvent_elem_of _ _ _ _ _ E).
  - by apply sched_inv_cancelImpl.
  - intros e. apply cancelImpl_elem_of. apply Hs.
  - destruct (execute_loop_terminates (due_count s) run
                (mkScheduler (s_queue s) true None (s_sim s)) Hrun) as [s' Hl];
      [apply Hs|done|].
    destruct (execute_loop_spec _ _ (mkScheduler (s_queue s) true None (s_sim s)) _ Hrun
                (proj1 Hs) Hl) as (Hq & Hn & Hp).
    unfold executeEvent. rewrite Hl. eexists. split; [done|].
    split; [by rewrite scheduleNext_executing|]. split; [split|split].
    + by rewrite scheduleNext_queue.
    + intros _. apply armed_scheduleNext.
    + by rewrite scheduleNext_now.
    + unfold due_count. rewrite scheduleNext_now, scheduleNext_queue. cbn [s_queue s_sim].
      rewrite Hn. by apply pop_due_None.
Qed.

(** A simulator as a list of pending events. *)
Record ListSim := mkListSim {
  ls_now : Z;
  ls_next : nat;
  ls_pending : list (nat * Z);
}.
#[export] Instance ListSim_ops : Ns3Simulator ListSim := {
  sim_now := ls_now;
  sim_pending := ls_pending;
  Schedule d s :=
    (ls_next s, mkListSim (ls_now s) (S (ls_next s)) ((ls_next s, ls_now s + d) :: ls_pending s));
  Remove i s :=
    mkListSim (ls_now s) (ls_next s) (filter (fun x => x.1 <> i) (ls_pending s));
  IsExpired i s := negb (existsb (fun x => bool_decide (x.1 = i)) (ls_pending s));
}.
#[export] Instance ListSim_laws : Ns3Laws ListSim.
Proof.
  split; cbn; try done.
  - intros d s x. apply elem_of_cons.
  - intros i s x. rewrite list_elem_of_filter. tauto.
Qed.

Lemma scheduler_loses_no_timer_witness :
  let s := mkScheduler (mkEventQueue [mkEvent 3 50 true] 4) false (Some 0%nat)
             (mkListSim 40 1 [(0%nat, 50)]) in
  sched_inv (cancelImpl 3 s) /\
  mkEvent 4 42 false ∈ m_queue (s_queue (scheduleEvent 2 false s).2).
Proof.
  intros s.
  destruct (scheduler_loses_no_timer s 2 false 3 (fun _ s => s)) as (Hsch & [Hc _] & _).
  - split; [split; [|split]; repeat constructor; lia || by intros ?%elem_of_nil|]. intros _.
    exists (0%nat, 50). split; [left|]. cbn. lia.
  - by intros k s' Hs'.
  - split; [done|]. by destruct Hsch.
Defined.
