(* ===== verification/LpReassembler.v ===== *)
(** * Reassembly (NFD/daemon/face/lp-reassembler.cpp, lp-reassembler.hpp)

    [LpReassembler] collects the fragments of a network packet, whatever their order, in
    a partial packet with a timer that drops it.  The operations return the new state
    beside the result, because a state that was changed before an exception is thrown
    stays changed. *)

From stdpp Require Import base list strings sorting gmap.
From Stdlib Require Import Strings.Byte ZArith Lia.
From S2P Require Import Prelude Tlv Encoder Block Codec ValHeader LpPacket Scheduler.

Local Open Scope Z_scope.

(** [std::tuple<Transport::EndpointId, lp::Sequence>] *)
Abbreviation Key := (Z * Z)%type.

Record PartialPacket := mkPartialPacket {
  pp_fragments : list Packet;
  pp_fragCount : Z;
  pp_nReceivedFragments : Z;
  pp_dropTimer : option nat;
}.

(** A value-initialised entry of the map. *)
Definition PartialPacket_new : PartialPacket := mkPartialPacket [] 0 0 None.

(** The options, the map, and the events of the scheduler that call
    [timeoutPartialPacket]. *)
Record LpReassembler := mkLpReassembler {
  re_nMaxFragments : Z;
  re_reassemblyTimeout : Z;
  m_partialPackets : gmap Key PartialPacket;
  re_timers : EventQueue Key;
}.

Definition LpReassembler_new (nMaxFragments reassemblyTimeout : Z) : LpReassembler :=
  mkLpReassembler nMaxFragments reassemblyTimeout ∅ EventQueue_new.
Definition re_setOptions (nMaxFragments reassemblyTimeout : Z) (r : LpReassembler) : LpReassembler :=
  mkLpReassembler nMaxFragments reassemblyTimeout (m_partialPackets r) (re_timers r).
Definition re_size (r : LpReassembler) : nat := size (m_partialPackets r).

Definition with_partials (m : gmap Key PartialPacket) (q : EventQueue Key) (r : LpReassembler)
  : LpReassembler := mkLpReassembler (re_nMaxFragments r) (re_reassemblyTimeout r) m q.

(** The payloads of the fragments, read with [get<lp::FragmentField>]. *)
Fixpoint payloads (frags : list Packet) : result (list octets) :=
  match frags with
  | [] => Ok []
  | fr :: frags' =>
    let* v := pkt_get FragmentField 0 fr in let* vs := payloads frags' in Ok (v :: vs)
  end.

(** [doReassembly].  The sizes are summed in an [unsigned int], as the initial value of
    [std::accumulate] is [0U]; copying more octets than the buffer has is undefined. *)
Definition doReassembly (pp : PartialPacket) : result Block :=
  let* vs := payloads (pp_fragments pp) in
  let payloadSize := foldl (fun sum v => u32 (sum + zlen v)) 0 vs in
  let fragBuffer := concat vs in
  if zlen fragBuffer =? payloadSize then Block_ofBuffer fragBuffer
  else Err (UndefinedBehaviour "std::copy past the end of the buffer").

(** A field with a default value. *)
Definition get_or (f : FieldDecl) `{FieldCodec f Z} (d : Z) (p : Packet) : result Z :=
  if pkt_has f p then pkt_get f 0 p else Ok d.

(** The end of [receiveFragment], once the partial packet of the key is known and the
    counts agree: the fragment is stored, and the packet is complete or the timer is
    started again; assigning to the [ScopedEventId] cancels the previous timer, and so
    does erasing the entry. *)
Definition storeFragment (now : Z) (key : Key) (fragIndex : Z) (packet : Packet)
    (pp : PartialPacket) (r : LpReassembler) : LpReassembler * result (option (Block * Packet)) :=
  match pp_fragments pp !! Z.to_nat fragIndex with
  | None => (r, Err (UndefinedBehaviour "pp.fragments[fragIndex]"))
  | Some slot =>
    if pkt_has SequenceField slot
    then (with_partials (<[key := pp]> (m_partialPackets r)) (re_timers r) r, Ok None)
    else
      let pp := mkPartialPacket (<[Z.to_nat fragIndex := packet]> (pp_fragments pp)) (pp_fragCount pp)
                  (pp_nReceivedFragments pp + 1) (pp_dropTimer pp) in
      if pp_nReceivedFragments pp =? pp_fragCount pp then
        match doReassembly pp, pp_fragments pp !! 0%nat with
        | Ok reassembled, Some firstFrag =>
          (with_partials (delete key (m_partialPackets r)) (cancel (pp_dropTimer pp) (re_timers r)) r,
           Ok (Some (reassembled, firstFrag)))
        | Ok _, None => (r, Err (UndefinedBehaviour "pp.fragments[0]"))
        | Err e, _ => (with_partials (<[key := pp]> (m_partialPackets r)) (re_timers r) r, Err e)
        end
      else
        let '(id, q) := schedule now (re_reassemblyTimeout r) key (re_timers r) in
        let pp' := mkPartialPacket (pp_fragments pp) (pp_fragCount pp) (pp_nReceivedFragments pp) (Some id) in
        (with_partials (<[key := pp']> (m_partialPackets r)) (cancel (pp_dropTimer pp) q) r, Ok None)
  end.

(** Adding a fragment with a sequence number to the partial packet of its key. *)
Definition addFragment (now : Z) (key : Key) (fragIndex fragCount : Z) (packet : Packet)
    (r : LpReassembler) : LpReassembler * result (option (Block * Packet)) :=
  let pp := default PartialPacket_new (m_partialPackets r !! key) in
  if pp_fragCount pp =? 0 then
    storeFragment now key fragIndex packet
      (mkPartialPacket (resize (Z.to_nat fragCount) Packet_new (pp_fragments pp)) fragCount 0
         (pp_dropTimer pp)) r
  else if negb (fragCount =? pp_fragCount pp)
  then (with_partials (<[key := pp]> (m_partialPackets r)) (re_timers r) r, Ok None)
  else storeFragment now key fragIndex packet pp r.

(** [receiveFragment]: [Some] network packet and first fragment when the packet is
    complete, [None] otherwise. *)
Definition receiveFragment (now remoteEndpoint : Z) (packet : Packet) (r : LpReassembler)
  : LpReassembler * result (option (Block * Packet)) :=
  if negb (pkt_has FragmentField packet)
  then (r, Err (AssertFailed "packet.has<lp::FragmentField>()")) else
  match get_or FragIndexField 0 packet, get_or FragCountField 1 packet with
  | Err e, _ | _, Err e => (r, Err e)
  | Ok fragIndex, Ok fragCount =>
    if fragCount <=? fragIndex then (r, Ok None)
    else if fragCount >? re_nMaxFragments r then (r, Ok None)
    else if (fragIndex =? 0) && (fragCount =? 1) then
      (r, let* frag := pkt_get FragmentField 0 packet in
          let* netPkt := Block_ofBuffer frag in
          Ok (Some (netPkt, packet)))
    else if negb (pkt_has SequenceField packet) then (r, Ok None)
    else
      match pkt_get SequenceField 0 packet with
      | Err e => (r, Err e)
      | Ok sequence =>
        let messageIdentifier := u64 (sequence - fragIndex) in
        addFragment now (remoteEndpoint, messageIdentifier) fragIndex fragCount packet r
      end
  end.

(** [timeoutPartialPacket], with the arguments of the signal [beforeTimeout]. *)
Definition timeoutPartialPacket (key : Key) (r : LpReassembler) : LpReassembler * option (Z * Z) :=
  match m_partialPackets r !! key with
  | None => (r, None)
  | Some pp =>
    (with_partials (delete key (m_partialPackets r)) (cancel (pp_dropTimer pp) (re_timers r)) r,
     Some (key.1, pp_nReceivedFragments pp))
  end.

(** The scheduler runs the first due timer. *)
Definition fireDropTimer (now : Z) (r : LpReassembler) : option (LpReassembler * option (Z * Z)) :=
  match pop_due now (re_timers r) with
  | None => None
  | Some (e, q) => Some (timeoutPartialPacket (ev_callback e) (with_partials (m_partialPackets r) q r))
  end.

(** ** Partial packets own their timers *)

(** Every partial packet has one pending timer, which is its own, and there are no other
    timers. *)
Definition owned (m : gmap Key PartialPacket) (q : EventQueue Key) : Prop :=
  queue_inv q /\
  (forall key pp, m !! key = Some pp ->
     exists id t, pp_dropTimer pp = Some id /\ mkEvent id t key ∈ m_queue q) /\
  (forall e, e ∈ m_queue q ->
     exists pp, m !! ev_callback e = Some pp /\ pp_dropTimer pp = Some (ev_id e)).

Lemma owned_new : owned ∅ EventQueue_new.
Proof.
  split; [apply queue_inv_new|]. split; [by intros key pp H|].
  intros e He. by apply elem_of_nil in He.
Qed.

Lemma owned_update m q key pp pp' :
  m !! key = Some pp -> pp_dropTimer pp' = pp_dropTimer pp -> owned m q ->
  owned (<[key := pp']> m) q.
Proof.
  intros Hk Ht (Hq & H1 & H2). split; [done|]. split.
  - intros k p Hp. destruct (decide (k = key)) as [->|Hn].
    + rewrite lookup_insert_eq in Hp. injection Hp as <-. rewrite Ht. by apply H1.
    + rewrite lookup_insert_ne in Hp by done. by apply H1.
  - intros e He. destruct (H2 e He) as (p & Hp & Hid).
    destruct (decide (ev_callback e = key)) as [E|Hn].
    + rewrite E, lookup_insert_eq. exists pp'. split; [done|]. rewrite Ht. congruence.
    + rewrite lookup_insert_ne by done. by exists p.
Qed.

(** The events left after the timer of [key] is cancelled are the timers of the others. *)
Lemma owned_cancelled m q key pp e :
  m !! key = Some pp -> owned m q ->
  e ∈ m_queue (cancel (pp_dropTimer pp) q) <-> e ∈ m_queue q /\ ev_callback e <> key.
Proof.
  intros Hk (Hq & H1 & H2). destruct (H1 key pp Hk) as (id & t & Hid & Hin).
  rewrite Hid, elem_of_cancel by done. split; intros [He Hne]; (split; [done|]).
  - intros E. apply Hne. destruct (H2 e He) as (p & Hp & Hi). rewrite E, Hk in Hp.
    injection Hp as <-. congruence.
  - intros E. apply Hne. by rewrite (queue_id_inj q e (mkEvent id t key) Hq He Hin E).
Qed.

Lemma owned_delete m q key pp :
  m !! key = Some pp -> owned m q -> owned (delete key m) (cancel (pp_dropTimer pp) q).
Proof.
  intros Hk Ho. pose proof (owned_cancelled m q key pp) as Hc. destruct Ho as (Hq & H1 & H2).
  split; [by apply queue_inv_cancel|]. split.
  - intros k p Hp. destruct (decide (k = key)) as [->|Hn]; [by rewrite lookup_delete_eq in Hp|].
    rewrite lookup_delete_ne in Hp by done. destruct (H1 k p Hp) as (id & t & Hid & Hin).
    exists id, t. split; [done|]. apply Hc; [done|done|]. by split.
  - intros e He. apply Hc in He as [He Hn]; [|done|done]. destruct (H2 e He) as (p & Hp & Hi).
    exists p. split; [|done]. by rewrite lookup_delete_ne.
Qed.

(** The timers after the one of a new or an existing partial packet is started. *)
Lemma owned_rearmed m q key pp now after id q1 e :
  default PartialPacket_new (m !! key) = pp -> owned m q -> schedule now after key q = (id, q1) ->
  e ∈ m_queue (cancel (pp_dropTimer pp) q1) <->
    e = mkEvent id (now + after) key \/ e ∈ m_queue q /\ ev_callback e <> key.
Proof.
  intros Hk Ho Hs. pose proof Ho as (Hq & H1 & H2).
  pose proof (queue_inv_schedule now after key q Hq) as Hq1. rewrite Hs in Hq1. cbn [snd] in Hq1.
  assert (Hin : forall e, e ∈ m_queue q1 <-> e = mkEvent id (now + after) key \/ e ∈ m_queue q).
  { intros x. unfold schedule in Hs. injection Hs as <- <-.
    apply (elem_of_schedule now after key q x). }
  assert (Hfresh : forall e, e ∈ m_queue q -> ev_id e <> id).
  { intros x He. unfold schedule in Hs. injection Hs as <- _.
    destruct Hq as (_ & _ & Hlt). rewrite Forall_forall in Hlt. specialize (Hlt x He). lia. }
  destruct (m !! key) as [p|] eqn:Em; cbn in Hk; subst pp.
  - destruct (H1 key p Em) as (i & t & Hi & Hold). rewrite Hi, elem_of_cancel, Hin by done. split.
    + intros [[->|He] Hne]; [by left|right]. apply (owned_cancelled m q key p e Em Ho).
      rewrite Hi, elem_of_cancel by done. done.
    + intros [->|He].
      * split; [by left|]. cbn. intros ->. by apply (Hfresh _ Hold).
      * apply (owned_cancelled m q key p e Em Ho) in He. rewrite Hi, elem_of_cancel in He by done.
        destruct He. split; [by right|done].
  - cbn [pp_dropTimer PartialPacket_new cancel]. rewrite Hin. split.
    + intros [->|He]; [by left|right]. split; [done|]. intros E.
      destruct (H2 e He) as (p & Hp & _). rewrite E, Em in Hp. done.
    + intros [->|[He _]]; auto.
Qed.

Lemma owned_rearm m q key pp pp' now after id q1 :
  default PartialPacket_new (m !! key) = pp -> owned m q ->
  schedule now after key q = (id, q1) -> pp_dropTimer pp' = Some id ->
  owned (<[key := pp']> m) (cancel (pp_dropTimer pp) q1).
Proof.
  intros Hk Ho Hs Ht. pose proof (fun e => owned_rearmed m q key pp now after id q1 e Hk Ho Hs) as Hc.
  pose proof Ho as (Hq & H1 & H2).
  pose proof (queue_inv_schedule now after key q Hq) as Hq1. rewrite Hs in Hq1. cbn [snd] in Hq1.
  split; [by apply queue_inv_cancel|]. split.
  - intros k p Hp. destruct (decide (k = key)) as [->|Hn].
    + rewrite lookup_insert_eq in Hp. injection Hp as <-. exists id, (now + after).
      split; [done|]. apply Hc. by left.
    + rewrite lookup_insert_ne in Hp by done. destruct (H1 k p Hp) as (i & t & Hi & Hold).
      exists i, t. split; [done|]. apply Hc. right. by split.
  - intros e He. apply Hc in He as [->|[He Hn]].
    + exists pp'. cbn [ev_callback ev_id]. by rewrite lookup_insert_eq.
    + destruct (H2 e He) as (p & Hp & Hi). exists p. by rewrite lookup_insert_ne.
Qed.

Lemma owned_pop m q now e q' :
  owned m q -> pop_due now q = Some (e, q') ->
  exists pp, m !! ev_callback e = Some pp /\ cancel (pp_dropTimer pp) q' = q' /\
    owned (delete (ev_callback e) m) q'.
Proof.
  intros Ho Hp. pose proof Ho as (Hq & H1 & H2).
  pose proof (fun x => elem_of_pop now q e q' x Hp) as Hin.
  pose proof (queue_inv_pop now q e q' Hq Hp) as Hq'.
  destruct (H2 e (proj2 (Hin e) (or_introl eq_refl))) as (pp & Hpp & Hid).
  assert (Hne : forall x, x ∈ m_queue q' -> ev_id x <> ev_id e).
  { unfold pop_due in Hp. destruct (m_queue q) as [|y l] eqn:Eq; [done|]. case_match; [done|].
    injection Hp as <- <-. intros x Hx E. destruct Hq as (_ & Hd & _). rewrite Eq in Hd.
    csimpl in Hd. apply NoDup_cons in Hd as [Hd _]. apply Hd. rewrite <- E.
    by apply list_elem_of_fmap_2. }
  exists pp. split; [done|]. split.
  - rewrite Hid. cbn [cancel]. rewrite erase_first_not_found; [by destruct q'|].
    apply find_first_None. intros x Hx. rewrite bool_decide_eq_false. by apply Hne.
  - split; [done|]. split.
    + intros k p Hk. destruct (decide (k = ev_callback e)) as [->|Hn]; [by rewrite lookup_delete_eq in Hk|].
      rewrite lookup_delete_ne in Hk by done. destruct (H1 k p Hk) as (i & t & Hi & Hold).
      exists i, t. split; [done|]. apply Hin in Hold as [<-|]; done.
    + intros x Hx. destruct (H2 x (proj2 (Hin x) (or_intror Hx))) as (p & Hpx & Hi).
      exists p. split; [|done]. rewrite lookup_delete_ne; [done|]. intros E.
      rewrite <- E, Hpp in Hpx. injection Hpx as <-. apply (Hne x Hx). congruence.
Qed.

(** ** The invariant of the reassembler *)

(** The number of slots that hold a received fragment. *)
Definition received (frags : list Packet) : Z :=
  Z.of_nat (length (List.filter (pkt_has SequenceField) frags)).

Record partial_ok (pp : PartialPacket) : Prop := {
  po_count : 2 <= pp_fragCount pp;
  po_slots : zlen (pp_fragments pp) = pp_fragCount pp;
  po_received : pp_nReceivedFragments pp = received (pp_fragments pp);
}.

Definition re_inv (r : LpReassembler) : Prop :=
  owned (m_partialPackets r) (re_timers r) /\
  forall key pp, m_partialPackets r !! key = Some pp ->
    partial_ok pp /\ 1 <= pp_nReceivedFragments pp.

Lemma received_insert frags i slot packet :
  frags !! i = Some slot -> pkt_has SequenceField slot = false ->
  pkt_has SequenceField packet = true ->
  received (<[i := packet]> frags) = received frags + 1.
Proof.
  intros Hi Hs Hp. unfold received. revert i Hi.
  induction frags as [|x l IH]; intros [|i] Hi; cbn in Hi; [done|done| |].
  - injection Hi as ->. cbn [insert list_insert List.filter]. rewrite Hp, Hs. cbn [length]. lia.
  - specialize (IH i Hi). cbn [insert list_insert List.filter].
    destruct (pkt_has SequenceField x); cbn [length]; unfold insert in *; lia.
Qed.

Lemma received_new n : received (replicate n Packet_new) = 0.
Proof. unfold received. by induction n. Qed.

Lemma re_inv_insert r key pp pp' :
  m_partialPackets r !! key = Some pp -> pp_dropTimer pp' = pp_dropTimer pp ->
  partial_ok pp' -> 1 <= pp_nReceivedFragments pp' -> re_inv r ->
  re_inv (with_partials (<[key := pp']> (m_partialPackets r)) (re_timers r) r).
Proof.
  intros Hk Ht Hok H1 [Ho He]. split; cbn [m_partialPackets re_timers with_partials].
  - by eapply owned_update.
  - intros k p. destruct (decide (k = key)) as [->|Hn]; [rewrite lookup_insert_eq; by intros [= <-]|].
    rewrite lookup_insert_ne by done. apply He.
Qed.

Lemma re_inv_delete r key pp :
  m_partialPackets r !! key = Some pp -> re_inv r ->
  re_inv (with_partials (delete key (m_partialPackets r)) (cancel (pp_dropTimer pp) (re_timers r)) r).
Proof.
  intros Hk [Ho He]. split; cbn [m_partialPackets re_timers with_partials].
  - by apply owned_delete.
  - intros k p Hp. apply (He k p). by apply lookup_delete_Some in Hp as [_ Hp].
Qed.

Lemma storeFragment_inv now key i packet pp r :
  re_inv r -> partial_ok pp -> 0 <= i < pp_fragCount pp -> pkt_has SequenceField packet = true ->
  m_partialPackets r !! key = Some pp \/
  m_partialPackets r !! key = None /\ pp_dropTimer pp = None /\ received (pp_fragments pp) = 0 ->
  re_inv (storeFragment now key i packet pp r).1.
Proof.
  intros Hr [Hc Hl Hn] Hi Hp Hk. unfold storeFragment.
  destruct (pp_fragments pp !! Z.to_nat i) as [slot|] eqn:Es; [|done].
  assert (Hlen : received (pp_fragments pp) = 0 -> pkt_has SequenceField slot = false).
  { unfold received. intros H0. destruct (pkt_has SequenceField slot) eqn:E; [|done].
    assert (Hin : In slot (List.filter (pkt_has SequenceField) (pp_fragments pp))).
    { apply filter_In. split; [|done]. by apply list_elem_of_In, (list_elem_of_lookup_2 _ (Z.to_nat i)). }
    destruct (List.filter _ _); [done|cbn in H0; lia]. }
  destruct (pkt_has SequenceField slot) eqn:Eh; cbn [fst].
  { destruct Hk as [Hk|(_ & _ & H0)]; [|by specialize (Hlen H0)].
    destruct Hr as [Ho He]. eapply re_inv_insert; [done|done|done|by eapply He|done]. }
  set (pp' := mkPartialPacket _ _ _ _). pose proof (received_insert _ _ _ _ Es Eh Hp) as Hrec.
  assert (Hok : partial_ok pp').
  { split; cbn [pp' pp_fragCount pp_fragments pp_nReceivedFragments]; [done| |lia].
    unfold zlen in *. by rewrite length_insert. }
  assert (H1 : 1 <= pp_nReceivedFragments pp') by (cbn; unfold received in *; lia).
  change (pp_nReceivedFragments pp + 1) with (pp_nReceivedFragments pp').
  change (pp_fragCount pp) with (pp_fragCount pp').
  destruct (Z.eqb_spec (pp_nReceivedFragments pp') (pp_fragCount pp')) as [E|E].
  - destruct Hk as [Hk|(_ & _ & H0)]; [|cbn in E; lia].
    change (<[Z.to_nat i:=packet]> (pp_fragments pp)) with (pp_fragments pp').
    destruct (doReassembly pp') as [b|e].
    + destruct (pp_fragments pp' !! 0%nat); cbn [fst]; [|done].
      change (pp_dropTimer pp') with (pp_dropTimer pp). by apply re_inv_delete.
    + cbn [fst]. by eapply re_inv_insert.
  - destruct (schedule now (re_reassemblyTimeout r) key (re_timers r)) as [id q1] eqn:Eq. cbn [fst].
    destruct Hr as [Ho He]. split; cbn [m_partialPackets re_timers with_partials].
    + assert (Hd : pp_dropTimer pp' = pp_dropTimer (default PartialPacket_new (m_partialPackets r !! key)))
        by (change (pp_dropTimer pp') with (pp_dropTimer pp); destruct Hk as [->|(-> & -> & _)]; done).
      rewrite Hd. by eapply owned_rearm.
    + intros k p. destruct (decide (k = key)) as [->|Hne].
      * rewrite lookup_insert_eq. intros [= <-]. split; [|done]. by destruct Hok.
      * rewrite lookup_insert_ne by done. apply He.
Qed.

Lemma receiveFragment_inv now ep packet r : re_inv r -> re_inv (receiveFragment now ep packet r).1.
Proof.
  intros Hr. unfold receiveFragment. case_match; [done|].
  destruct (get_or FragIndexField 0 packet) as [i|e] eqn:Ei; [|by destruct (get_or FragCountField 1 packet)].
  destruct (get_or FragCountField 1 packet) as [c|e] eqn:Ec; [|done].
  destruct (Z.leb_spec c i); [done|]. case_match; [done|].
  destruct ((i =? 0) && (c =? 1)) eqn:E1; [done|].
  destruct (pkt_has SequenceField packet) eqn:Hs; [|done]. cbn [negb].
  destruct (pkt_get SequenceField 0 packet) as [s|]; [|done].
  assert (Hi : 0 <= i).
  { unfold get_or in Ei. case_match; [|injection Ei; lia].
    rewrite pkt_get_filter in Ei. case_match; [|done].
    cbn in Ei. unfold decode_nni, block_readNonNegativeInteger in Ei.
    apply result_bind_Ok in Ei as ([n rest] & Hn & [= <-]).
    apply readNonNegativeInteger_nonneg in Hn. lia. }
  unfold addFragment. set (key := (ep, _)).
  destruct (m_partialPackets r !! key) as [pp|] eqn:Ek; cbn [default from_option id].
  - destruct (proj2 Hr key pp Ek) as [Hok Hrc]. pose proof (po_count _ Hok).
    destruct (Z.eqb_spec (pp_fragCount pp) 0); [lia|]. case_match eqn:E2.
    + cbn [fst]. by eapply re_inv_insert.
    + apply negb_false_iff, Z.eqb_eq in E2. apply storeFragment_inv; [done|done|lia|done|by left].
  - cbn [pp_fragCount PartialPacket_new Z.eqb pp_fragments pp_dropTimer].
    assert (Hrs : resize (Z.to_nat c) Packet_new [] = replicate (Z.to_nat c) Packet_new) by apply resize_nil.
    rewrite Hrs. assert (2 <= c).
    { destruct (Z.eqb_spec i 0), (Z.eqb_spec c 1); cbn in E1; try done; lia. }
    apply storeFragment_inv; cbn; [done| |lia|done|].
    + split; cbn; [done|unfold zlen; rewrite length_replicate; lia|by rewrite received_new].
    + right. split; [done|]. split; [done|apply received_new].
Qed.

(** The timer that is due first drops its partial packet. *)
Lemma fireDropTimer_pop now r e q :
  re_inv r -> pop_due now (re_timers r) = Some (e, q) ->
  exists pp, m_partialPackets r !! ev_callback e = Some pp /\
    fireDropTimer now r = Some (with_partials (delete (ev_callback e) (m_partialPackets r)) q r,
      Some ((ev_callback e).1, pp_nReceivedFragments pp)) /\
    re_inv (with_partials (delete (ev_callback e) (m_partialPackets r)) q r).
Proof.
  intros [Ho He] Ep. destruct (owned_pop _ _ _ _ _ Ho Ep) as (pp & Hpp & Hc & Hd).
  exists pp. split; [done|]. split.
  - unfold fireDropTimer, timeoutPartialPacket. rewrite Ep.
    cbn [m_partialPackets with_partials re_timers]. by rewrite Hpp, Hc.
  - split; cbn [m_partialPackets with_partials re_timers]; [done|].
    intros k p Hp. apply (He k p). by apply lookup_delete_Some in Hp as [_ Hp].
Qed.

Lemma fireDropTimer_inv now r r' o : re_inv r -> fireDropTimer now r = Some (r', o) -> re_inv r'.
Proof.
  intros Hr Hf. pose proof Hf as Hf'. unfold fireDropTimer in Hf'.
  destruct (pop_due now (re_timers r)) as [[e q]|] eqn:Ep; [|done].
  destruct (fireDropTimer_pop now r e q Hr Ep) as (pp & _ & E & Hi). rewrite E in Hf. by injection Hf as <- _.
Qed.

(** ** Reassembling a whole packet *)

(** The fragments of one packet, as they are received: numbered from the sequence number
    [s] on, with the payloads [pls]. *)
Record fragments_ready (s : Z) (frags : list Packet) (pls : list octets) : Prop := {
  fr_count : (2 <= length frags)%nat;
  fr_payloads : payloads frags = Ok pls;
  fr_fields : forall i fr, frags !! i = Some fr ->
    pkt_has FragmentField fr = true /\ get_or FragIndexField 0 fr = Ok (Z.of_nat i) /\
    get_or FragCountField 1 fr = Ok (zlen frags) /\ pkt_has SequenceField fr = true /\
    pkt_get SequenceField 0 fr = Ok (u64 (s + Z.of_nat i));
}.

(** The fragments with the given indices arrive, at the given times. *)
Fixpoint receive_all (ep : Z) (frags : list Packet) (arrivals : list (Z * nat)) (r : LpReassembler)
  : LpReassembler * list (result (option (Block * Packet))) :=
  match arrivals with
  | [] => (r, [])
  | (now, i) :: arrivals' =>
    let '(r, o) := receiveFragment now ep (nth i frags Packet_new) r in
    let '(r, os) := receive_all ep frags arrivals' r in (r, o :: os)
  end.

(** The slots of the partial packet when the fragments [got] have arrived. *)
Definition slots (frags : list Packet) (got : list nat) : list Packet :=
  map (fun i => if decide (i ∈ got) then nth i frags Packet_new else Packet_new)
      (seq 0 (length frags)).

Lemma slots_lookup frags got i :
  (i < length frags)%nat ->
  slots frags got !! i = Some (if decide (i ∈ got) then nth i frags Packet_new else Packet_new).
Proof.
  intros Hi. unfold slots. change (map ?g ?l) with (g <$> l).
  rewrite list_lookup_fmap, lookup_seq_lt by done. done.
Qed.

Lemma length_slots frags got : length (slots frags got) = length frags.
Proof. unfold slots. by rewrite length_map, length_seq. Qed.

Lemma slots_nil frags : slots frags [] = replicate (length frags) Packet_new.
Proof.
  apply list_eq_same_length with (length frags); [by rewrite length_replicate|by rewrite length_slots|].
  intros i x y Hi. rewrite slots_lookup, decide_False by (done || apply not_elem_of_nil).
  rewrite lookup_replicate_2 by done. congruence.
Qed.

Lemma slots_insert frags got i :
  (i < length frags)%nat -> <[i := nth i frags Packet_new]> (slots frags got) = slots frags (i :: got).
Proof.
  intros Hi. apply list_eq_same_length with (length frags);
    [by rewrite length_slots|by rewrite length_insert, length_slots|].
  intros j x y Hj. rewrite (slots_lookup frags (i :: got)) by done. intros Hx [= <-].
  destruct (decide (i = j)) as [->|Hn].
  - rewrite list_lookup_insert_eq in Hx by (by rewrite length_slots). injection Hx as <-.
    by rewrite decide_True by left.
  - rewrite list_lookup_insert_ne, slots_lookup in Hx by done. injection Hx as <-.
    destruct (decide (j ∈ got)) as [Hg|Hg].
    + by rewrite decide_True by (by right).
    + rewrite decide_False; [done|]. rewrite elem_of_cons. intros [|]; congruence.
Qed.

Lemma slots_all frags got : got ≡ₚ seq 0 (length frags) -> slots frags got = frags.
Proof.
  intros Hg. apply list_eq_same_length with (length frags); [done|by rewrite length_slots|].
  intros i x y Hi. rewrite slots_lookup by done.
  rewrite decide_True by (rewrite Hg; apply elem_of_seq; lia). intros [= <-] Hy.
  by apply nth_lookup_Some.
Qed.

Lemma sum_sizes (vs : list octets) acc :
  0 <= acc -> acc + zlen (concat vs) < 2 ^ 32 ->
  foldl (fun sum v => u32 (sum + zlen v)) acc vs = acc + zlen (concat vs).
Proof.
  revert acc. induction vs as [|v vs IH]; intros acc H0 Hl; cbn [foldl concat] in *.
  - rewrite zlen_nil. lia.
  - rewrite zlen_app in *. pose proof (zlen_nonneg v). pose proof (zlen_nonneg (concat vs)).
    rewrite u32_id by (unfold is_u32; lia). rewrite IH; lia.
Qed.

Section collect.
Context (ep s : Z) (frags : list Packet) (pls : list octets).
Hypothesis Hs : is_u64 s.
Hypothesis Hready : fragments_ready s frags pls.

(** [r] has received the fragments [got], beside the partial packets [m0]. *)
Definition collecting (m0 : gmap Key PartialPacket) (got : list nat) (r : LpReassembler) : Prop :=
  match got with
  | [] => m_partialPackets r = m0
  | _ => exists timer, m_partialPackets r =
      <[(ep, s) := mkPartialPacket (slots frags got) (zlen frags) (zlen got) timer]> m0
  end.

(** A fragment of the packet reaches the partial packet with its key. *)
Lemma receive_one now i r :
  (i < length frags)%nat -> zlen frags <= re_nMaxFragments r ->
  receiveFragment now ep (nth i frags Packet_new) r =
  addFragment now (ep, s) (Z.of_nat i) (zlen frags) (nth i frags Packet_new) r.
Proof.
  intros Hi Hm. destruct (lookup_lt_is_Some_2 frags i Hi) as [fr Hfr].
  rewrite (nth_lookup_Some frags i Packet_new fr Hfr).
  destruct (fr_fields _ _ _ Hready i fr Hfr) as (H1 & H2 & H3 & H4 & H5).
  pose proof (fr_count _ _ _ Hready). unfold receiveFragment. rewrite H1, H2, H3, H4, H5. cbn [negb].
  unfold zlen in *. destruct (Z.leb_spec (Z.of_nat (length frags)) (Z.of_nat i)); [lia|].
  rewrite Z.gtb_ltb. destruct (Z.ltb_spec (re_nMaxFragments r) (Z.of_nat (length frags))); [lia|].
  destruct (Z.eqb_spec (Z.of_nat (length frags)) 1); [lia|]. rewrite andb_false_r.
  do 2 f_equal. unfold u64. rewrite Zminus_mod_idemp_l.
  replace (s + Z.of_nat i - Z.of_nat i) with s by lia. by apply Z.mod_small.
Qed.

(** Its partial packet before the fragment is stored. *)
Lemma add_collecting now i m0 got r :
  m0 !! (ep, s) = None -> collecting m0 got r ->
  exists timer, addFragment now (ep, s) (Z.of_nat i) (zlen frags) (nth i frags Packet_new) r =
    storeFragment now (ep, s) (Z.of_nat i) (nth i frags Packet_new)
      (mkPartialPacket (slots frags got) (zlen frags) (zlen got) timer) r /\
    (got <> [] -> m_partialPackets r !! (ep, s) =
       Some (mkPartialPacket (slots frags got) (zlen frags) (zlen got) timer)) /\
    pp_dropTimer (default PartialPacket_new (m_partialPackets r !! (ep, s))) = timer.
Proof.
  intros Hm Hc. pose proof (fr_count _ _ _ Hready) as Hn. unfold addFragment.
  destruct got as [|g got]; cbn [collecting] in Hc.
  - exists None. split; [|split; [done|by rewrite Hc, Hm]]. rewrite Hc, Hm. cbn [default from_option].
    cbn [pp_fragCount PartialPacket_new Z.eqb pp_fragments pp_dropTimer].
    rewrite slots_nil, resize_nil. unfold zlen at 1. by rewrite Nat2Z.id.
  - destruct Hc as [timer Hc]. exists timer. rewrite Hc, lookup_insert_eq. split; [|by split].
    cbn [default from_option pp_fragCount]. unfold id. cbn [pp_fragCount].
    destruct (Z.eqb_spec (zlen frags) 0); [unfold zlen in *; lia|]. by rewrite Z.eqb_refl.
Qed.

Lemma sequence_of_slot i : (i < length frags)%nat -> pkt_has SequenceField (nth i frags Packet_new) = true.
Proof.
  intros Hi. destruct (lookup_lt_is_Some_2 frags i Hi) as [fr Hfr].
  rewrite (nth_lookup_Some frags i Packet_new fr Hfr).
  by destruct (fr_fields _ _ _ Hready i fr Hfr) as (_ & _ & _ & H4 & _).
Qed.

(** A fragment that has already arrived changes nothing. *)
Lemma collect_duplicate now i m0 got r :
  m0 !! (ep, s) = None -> collecting m0 got r -> zlen frags <= re_nMaxFragments r ->
  i ∈ got -> (i < length frags)%nat ->
  receiveFragment now ep (nth i frags Packet_new) r = (r, Ok None).
Proof.
  intros Hm Hc Hx Hg Hi. rewrite receive_one by done.
  destruct (add_collecting now i m0 got r Hm Hc) as (timer & -> & Hk & Htm).
  unfold storeFragment. cbn [pp_fragments]. rewrite Nat2Z.id, slots_lookup, decide_True by done.
  rewrite sequence_of_slot by done. f_equal. unfold with_partials.
  rewrite insert_id; [by destruct r|]. apply Hk. by intros ->; apply elem_of_nil in Hg.
Qed.

(** A new fragment that does not complete the packet. *)
Lemma collect_next now i m0 got r :
  m0 !! (ep, s) = None -> collecting m0 got r -> zlen frags <= re_nMaxFragments r ->
  i ∉ got -> (i < length frags)%nat -> zlen got + 1 <> zlen frags ->
  exists r', receiveFragment now ep (nth i frags Packet_new) r = (r', Ok None) /\
    collecting m0 (i :: got) r' /\ re_nMaxFragments r' = re_nMaxFragments r /\
    re_reassemblyTimeout r' = re_reassemblyTimeout r /\
    (re_inv r -> exists id, forall e, e ∈ m_queue (re_timers r') <->
       e = mkEvent id (now + re_reassemblyTimeout r) (ep, s) \/
       e ∈ m_queue (re_timers r) /\ ev_callback e <> (ep, s)).
Proof.
  intros Hm Hc Hx Hg Hi Hn. rewrite receive_one by done.
  destruct (add_collecting now i m0 got r Hm Hc) as (timer & -> & Hk & Htm).
  unfold storeFragment. cbn [pp_fragments pp_fragCount pp_nReceivedFragments pp_dropTimer].
  rewrite Nat2Z.id, slots_lookup, decide_False by done.
  change (pkt_has SequenceField Packet_new) with false. cbn iota.
  rewrite (proj2 (Z.eqb_neq _ _) Hn).
  destruct (schedule now (re_reassemblyTimeout r) (ep, s) (re_timers r)) as [id q] eqn:Eq.
  eexists. split; [done|]. split; [|split; [done|split; [done|]]].
  2: { intros [Ho _]. exists id. intros e. cbn [re_timers with_partials]. rewrite <- Htm. by eapply owned_rearmed. }
  exists (Some id). cbn [m_partialPackets with_partials].
  rewrite slots_insert by done. rewrite zlen_cons, Z.add_comm.
  destruct got as [|g got]; cbn [collecting] in Hc; [by rewrite Hc|].
  destruct Hc as [t Hc]. by rewrite Hc, insert_insert_eq.
Qed.

(** The fragment that completes the packet. *)
Lemma collect_last now i m0 got r type value :
  m0 !! (ep, s) = None -> collecting m0 got r -> zlen frags <= re_nMaxFragments r ->
  i ∉ got -> i :: got ≡ₚ seq 0 (length frags) ->
  concat pls = tlv type value -> encodable type value -> zlen (concat pls) < 2 ^ 32 ->
  exists r' first, receiveFragment now ep (nth i frags Packet_new) r =
      (r', Ok (Some (element type value, first))) /\
    frags !! 0%nat = Some first /\ m_partialPackets r' = m0 /\
    (re_inv r -> forall e, e ∈ m_queue (re_timers r') <->
       e ∈ m_queue (re_timers r) /\ ev_callback e <> (ep, s)).
Proof.
  intros Hm Hc Hx Hg Hp Htlv He Hl. pose proof (fr_count _ _ _ Hready) as H2.
  assert (Hi : (i < length frags)%nat).
  { assert (Hin : i ∈ seq 0 (length frags)) by (rewrite <- Hp; left). apply elem_of_seq in Hin. lia. }
  assert (Hn : zlen got + 1 = zlen frags).
  { apply Permutation_length in Hp. rewrite length_seq in Hp. unfold zlen. cbn in Hp. lia. }
  destruct (lookup_lt_is_Some_2 frags 0 ltac:(lia)) as [first H0].
  rewrite receive_one by done.
  destruct (add_collecting now i m0 got r Hm Hc) as (timer & -> & Hk & Htm).
  unfold storeFragment. cbn [pp_fragments pp_fragCount pp_nReceivedFragments pp_dropTimer].
  rewrite Nat2Z.id, slots_lookup, decide_False by done.
  change (pkt_has SequenceField Packet_new) with false. cbn iota.
  rewrite Hn, Z.eqb_refl, slots_insert, slots_all by done.
  unfold doReassembly. cbn [pp_fragments]. rewrite (fr_payloads _ _ _ Hready). cbn [mbind result_bind].
  rewrite sum_sizes, Z.eqb_refl by lia.
  assert (Hb : Block_ofBuffer (concat pls) = Ok (element type value)).
  { rewrite Htlv, <- (app_nil_r (tlv type value)). by apply Block_ofBuffer_tlv. }
  assert (Hgot : got <> []) by (intros ->; unfold zlen in *; cbn in *; lia).
  rewrite Hb, H0. eexists _, first. split; [done|]. split; [done|].
  cbn [m_partialPackets re_timers with_partials]. split.
  - destruct got as [|g got]; cbn [collecting] in Hc; [done|].
    destruct Hc as [t Hc]. by rewrite Hc, delete_insert_id.
  - intros [Ho _] e. exact (owned_cancelled _ _ _ _ e (Hk Hgot) Ho).
Qed.
End collect.

Lemma collect_all ep s frags pls type value m0 arrivals got r :
  is_u64 s -> fragments_ready s frags pls -> zlen frags <= re_nMaxFragments r ->
  concat pls = tlv type value -> encodable type value -> zlen (concat pls) < 2 ^ 32 ->
  m0 !! (ep, s) = None -> collecting ep s frags m0 got r ->
  arrivals <> [] -> map snd arrivals ++ got ≡ₚ seq 0 (length frags) ->
  exists r' first, frags !! 0%nat = Some first /\
    receive_all ep frags arrivals r =
      (r', replicate (length arrivals - 1) (Ok None) ++ [Ok (Some (element type value, first))]) /\
    m_partialPackets r' = m0.
Proof.
  intros Hs Hr Hx Hc He Hl Hm. revert got r Hx.
  induction arrivals as [|[now i] arrivals IH]; intros got r Hx Hcol Hne Hp; [done|].
  assert (Hg : (i ∉ got) /\ NoDup (map snd arrivals ++ got)).
  { assert (Hd : NoDup (i :: map snd arrivals ++ got)) by (cbn in Hp; rewrite Hp; apply NoDup_seq).
    apply NoDup_cons in Hd as [Hd1 Hd2]. split; [|done]. intros Hin. apply Hd1.
    apply elem_of_app. by right. }
  assert (Hi : (i < length frags)%nat).
  { assert (Hin : i ∈ seq 0 (length frags)) by (rewrite <- Hp; left). apply elem_of_seq in Hin. lia. }
  destruct arrivals as [|a arrivals].
  - destruct (collect_last ep s frags pls Hs Hr now i m0 got r type value) as (r' & first & E & H0 & Hm' & _);
      try done; [apply Hg|]. exists r', first. split; [done|]. cbn [receive_all]. rewrite E. done.
  - assert (Hn : zlen got + 1 <> zlen frags).
    { apply Permutation_length in Hp. rewrite length_app, length_seq in Hp. unfold zlen.
      cbn in Hp. lia. }
    destruct (collect_next ep s frags pls Hs Hr now i m0 got r) as (r1 & E & Hcol1 & Hx1 & _);
      try done; [apply Hg|].
    destruct (IH (i :: got) r1) as (r' & first & H0 & E' & Hm'); [by rewrite Hx1|done|done| |].
    { rewrite <- Hp. symmetry. apply (Permutation_middle (map snd (a :: arrivals)) got i). }
    exists r', first. split; [done|]. split; [|done]. cbn [receive_all] in *. rewrite E.
    rewrite E'. cbn [length]. replace (S (S (length arrivals)) - 1)%nat
      with (S (S (length arrivals) - 1)) by lia. done.
Qed.

Lemma collect_prefix ep s frags pls m0 arrivals got r :
  is_u64 s -> fragments_ready s frags pls -> zlen frags <= re_nMaxFragments r ->
  m0 !! (ep, s) = None -> collecting ep s frags m0 got r ->
  NoDup (map snd arrivals ++ got) -> Forall (fun i => (i < length frags)%nat) (map snd arrivals) ->
  zlen (map snd arrivals ++ got) < zlen frags ->
  collecting ep s frags m0 (rev (map snd arrivals) ++ got) (receive_all ep frags arrivals r).1 /\
  re_nMaxFragments (receive_all ep frags arrivals r).1 = re_nMaxFragments r.
Proof.
  intros Hs Hr Hx Hm. revert got r Hx.
  induction arrivals as [|[now i] arrivals IH]; intros got r Hx Hcol Hd Hf Hl; [done|].
  cbn [map snd app] in Hd, Hf, Hl. apply NoDup_cons in Hd as [Hd1 Hd2].
  apply Forall_cons in Hf as [Hi Hf]. rewrite zlen_cons, zlen_app in Hl.
  pose proof (zlen_nonneg (map snd arrivals)).
  destruct (collect_next ep s frags pls Hs Hr now i m0 got r) as (r1 & E & Hcol1 & Hx1 & _);
    [done|done|done| |done|lia|].
  { intros Hin. apply Hd1, elem_of_app. by right. }
  destruct (IH (i :: got) r1) as [H1 H2]; [by rewrite Hx1|done| |done| |].
  { rewrite <- Permutation_middle. by apply NoDup_cons. }
  { rewrite zlen_app, zlen_cons. lia. }
  cbn [receive_all]. rewrite E. destruct (receive_all ep frags arrivals r1) as [r2 os].
  cbn [fst map snd rev] in *. rewrite <- app_assoc. by rewrite <- Hx1.
Qed.

(** ** Properties *)

(** Whatever the order and the times in which the fragments of a packet arrive,
    the first ones give no result and the last one gives the network packet with the
    first fragment, which holds the other header fields; the partial packets of other
    keys are not touched, and a fragment that arrives again before the end changes
    nothing. *)
Theorem reassembly_any_order (ep s : Z) (frags : list Packet) (pls : list octets)
    (type : Z) (value : octets) (arrivals : list (Z * nat)) (r : LpReassembler)
    (Hs : is_u64 s) (Hr : fragments_ready s frags pls) (Hx : zlen frags <= re_nMaxFragments r)
    (Hc : concat pls = tlv type value) (He : encodable type value)
    (Hl : zlen (concat pls) < 2 ^ 32) (Hm : m_partialPackets r !! (ep, s) = None)
    (Hp : map snd arrivals ≡ₚ seq 0 (length frags)) :
  (exists r' first, frags !! 0%nat = Some first /\
     receive_all ep frags arrivals r =
       (r', replicate (length frags - 1) (Ok None) ++ [Ok (Some (element type value, first))]) /\
     m_partialPackets r' = m_partialPackets r) /\
  (forall before after now i, arrivals = before ++ after -> after <> [] -> i ∈ map snd before ->
     let r1 := (receive_all ep frags before r).1 in
     receiveFragment now ep (nth i frags Packet_new) r1 = (r1, Ok None)).
Proof.
  split.
  - assert (Hlen : length arrivals = length frags)
      by (rewrite <- (length_map snd), Hp; apply length_seq).
    pose proof (fr_count _ _ _ Hr). rewrite <- Hlen.
    apply (collect_all ep s frags pls type value (m_partialPackets r) arrivals [] r); try done.
    + intros ->. cbn in Hlen. lia.
    + by rewrite app_nil_r.
  - intros before after now i -> Hne Hi r1.
    assert (Hall : forall j, j ∈ map snd before -> (j < length frags)%nat).
    { intros j Hj. assert (Hin : j ∈ seq 0 (length frags)); [|apply elem_of_seq in Hin; lia].
      rewrite <- Hp, map_app. apply elem_of_app. by left. }
    assert (Hd : NoDup (map snd (before ++ after))) by (rewrite Hp; apply NoDup_seq).
    rewrite map_app in Hd. apply NoDup_app in Hd as (Hd & _ & _).
    assert (Hlen : length (map snd (before ++ after)) = length frags) by (rewrite Hp; apply length_seq).
    rewrite length_map, length_app in Hlen.
    destruct (collect_prefix ep s frags pls (m_partialPackets r) before [] r) as [H1 H2]; try done.
    + by rewrite app_nil_r.
    + by apply Forall_forall.
    + rewrite app_nil_r. unfold zlen. rewrite length_map. destruct after; [done|cbn in Hlen; lia].
    + eapply (collect_duplicate ep s frags pls Hs Hr now i _ _ r1 Hm H1);
        [by unfold r1; rewrite H2| |by apply Hall].
      rewrite app_nil_r. apply list_elem_of_In, in_rev. rewrite rev_involutive. by apply list_elem_of_In.
Qed.

(** Three fragments of an Interest of eight octets, numbered from 2^64 - 1 on, so that the
    sequence numbers wrap around. *)
Definition sample_piece (i : Z) (payload : octets) : Packet :=
  mkPacket None [element (lp_num Sequence) (be_bytes 8 (u64 (2 ^ 64 - 1 + i)));
    element (lp_num FragIndex) (nonneg_integer i); element (lp_num FragCount) (nonneg_integer 3);
    element (lp_num Fragment) payload].
Definition sample_pieces : list Packet :=
  [sample_piece 0 (take 3 (tlv tlv_Interest (str "abcdef")));
   sample_piece 1 (take 3 (drop 3 (tlv tlv_Interest (str "abcdef"))));
   sample_piece 2 (drop 6 (tlv tlv_Interest (str "abcdef")))].

Lemma sample_pieces_ready :
  fragments_ready (2 ^ 64 - 1) sample_pieces
    [take 3 (tlv tlv_Interest (str "abcdef")); take 3 (drop 3 (tlv tlv_Interest (str "abcdef")));
     drop 6 (tlv tlv_Interest (str "abcdef"))].
Proof.
  split; [cbn; lia|vm_compute; reflexivity|].
  intros [|[|[|i]]] fr [= <-]; split_and!; vm_compute; reflexivity.
Qed.

Lemma reassembly_any_order_witness :
  exists r' first, receive_all 7 sample_pieces [(10, 2%nat); (20, 0%nat); (30, 1%nat)]
      (LpReassembler_new 400 500000000) =
    (r', [Ok None; Ok None; Ok (Some (element tlv_Interest (str "abcdef"), first))]).
Proof.
  destruct (reassembly_any_order 7 (2 ^ 64 - 1) sample_pieces _ tlv_Interest (str "abcdef")
    [(10, 2%nat); (20, 0%nat); (30, 1%nat)] (LpReassembler_new 400 500000000)
    ltac:(by split) sample_pieces_ready) as [(r' & first & _ & E & _) _].
  - by vm_compute.
  - vm_compute. reflexivity.
  - by split; [split|split; vm_compute].
  - by vm_compute.
  - reflexivity.
  - apply (Permutation_middle [0; 1]%nat [] 2%nat).
  - exists r', first. exact E.
Defined.

(** The states of a reassembler: packets are received, timers fire, options are set. *)
Inductive re_reaches : LpReassembler -> Prop :=
  | re_reaches_new n t : re_reaches (LpReassembler_new n t)
  | re_reaches_receive now ep packet r : re_reaches r -> re_reaches (receiveFragment now ep packet r).1
  | re_reaches_timeout now r r' o : re_reaches r -> fireDropTimer now r = Some (r', o) -> re_reaches r'
  | re_reaches_options n t r : re_reaches r -> re_reaches (re_setOptions n t r).

Lemma re_inv_new n t : re_inv (LpReassembler_new n t).
Proof. split; [apply owned_new|]. by intros key pp H. Qed.

Lemma re_reaches_inv r : re_reaches r -> re_inv r.
Proof.
  induction 1 as [n t|now ep packet r _ IH|now r r' o _ IH Hf|n t r _ IH];
    [apply re_inv_new|by apply receiveFragment_inv|by eapply fireDropTimer_inv|exact IH].
Qed.

(** C37: Whatever packets are received, well formed or not, and whatever timers fire, every
    partial packet has exactly one pending timer, its own, and every pending timer belongs to
    a partial packet; each partial packet has as many slots as announced fragments, and
    counts the slots that are filled, of which there is at least one.  A timer that is due
    removes its partial packet, and no other, and reports its endpoint and number of
    fragments: nothing is kept without a timer that will drop it. *)
Theorem reassembler_timers (r : LpReassembler) (Hr : re_reaches r) :
  (forall key pp, m_partialPackets r !! key = Some pp ->
     (exists id t, pp_dropTimer pp = Some id /\
        forall e, e ∈ m_queue (re_timers r) /\ ev_callback e = key <-> e = mkEvent id t key) /\
     2 <= pp_fragCount pp /\ zlen (pp_fragments pp) = pp_fragCount pp /\
     pp_nReceivedFragments pp = received (pp_fragments pp) /\ 1 <= pp_nReceivedFragments pp) /\
  (forall e, e ∈ m_queue (re_timers r) ->
     exists pp, m_partialPackets r !! ev_callback e = Some pp /\ pp_dropTimer pp = Some (ev_id e)) /\
  (forall now e q, pop_due now (re_timers r) = Some (e, q) ->
     exists pp r', m_partialPackets r !! ev_callback e = Some pp /\
       fireDropTimer now r = Some (r', Some ((ev_callback e).1, pp_nReceivedFragments pp)) /\
       m_partialPackets r' = delete (ev_callback e) (m_partialPackets r)).
Proof.
  pose proof (re_reaches_inv r Hr) as Hi. pose proof Hi as [(Hq & H1 & H2) He]. split; [|split; [exact H2|]].
  - intros key pp Hp. destruct (He key pp Hp) as [[C1 C2 C3] C4]. split; [|done].
    destruct (H1 key pp Hp) as (id & t & Hid & Hin). exists id, t. split; [done|]. intros e. split; [|by intros ->].
    intros [Hein Hk]. apply (queue_id_inj _ e _ Hq Hein Hin). destruct (H2 e Hein) as (pp' & Hp' & Hid').
    rewrite Hk, Hp in Hp'. injection Hp' as <-. cbn. congruence.
  - intros now e q Hp. destruct (fireDropTimer_pop now r e q Hi Hp) as (pp & Hpp & Hf & _).
    eexists pp, _. split; [done|]. by split.
Qed.

Lemma reassembler_timers_witness :
  let r := (receiveFragment 10 7 (sample_piece 1 (str "abc")) (LpReassembler_new 400 500000000)).1 in
  exists r', fireDropTimer 500000010 r = Some (r', Some (7, 1)) /\ m_partialPackets r' = ∅.
Proof.
  cbn zeta. set (r := (receiveFragment 10 7 _ _).1).
  destruct (reassembler_timers r) as (_ & _ & Ht).
  { apply re_reaches_receive, re_reaches_new. }
  destruct (pop_due 500000010 (re_timers r)) as [[e q]|] eqn:E; [|discriminate].
  destruct (Ht 500000010 e q E) as (pp & r' & Hpp & Hf & Hd). exists r'.
  vm_compute in E. injection E as <- <-. vm_compute in Hpp. injection Hpp as <-.
  split; [exact Hf|]. rewrite Hd. vm_compute. reflexivity.
Defined.
