(* ===== verification/Pft.v ===== *)
(** * The Pending Forwarding Table (model/val/table: val-pft-entry, val-pft)

    An entry is an object shared between the table and the callbacks of its timers,
    and it changes state; the table is therefore a list of locations into a store of
    entries.  [PFT::removeEntry] assigns [end()] to its iterator and then increments
    it; the model follows libstdc++, whose lists are rings, so that the increment
    leads to the first element.  The loop is proved to terminate. *)

From stdpp Require Import base gmap list strings.
From Stdlib Require Import ZArith Lia.
From S2P Require Import Prelude Tlv Encoder Block Codec ValHeader Ndn Signature Selectors Data Interest ValPacket ValTables.

Local Open Scope Z_scope.

(** ** Entries *)

Definition WAITING_FORWARDING : Z := 0.
Definition WAITING_IMPLICIT_ACK : Z := 1.
Definition FORWARDING_TRIES : Z := -1.
Definition MAX_IMPLICIT_ACK_TRIES : Z := 3.

Record pft_Entry := mkPftEntry {
  pe_valPkt : ValPacket;
  pe_state : Z;
  pe_tries : Z;
  pe_faceId : Z;
  pe_timerId : option nat;   (* [None] is the default [EventId] *)
}.

Definition pft_Entry_new (valPkt : ValPacket) (faceId : Z) : pft_Entry :=
  mkPftEntry valPkt WAITING_FORWARDING FORWARDING_TRIES faceId None.

(** Milliseconds as nanoseconds. *)
Definition milliseconds (n : Z) : Z := n * 1000000.
Definition IMPLICIT_ACK_TIME_INTEREST : Z := milliseconds 70.
Definition IMPLICIT_ACK_TIME_DATA : Z := milliseconds 40.

Definition getDefaultImpAckTimerDuration (e : pft_Entry) : Z :=
  if isSet (pe_valPkt e) =? DATA_SET then IMPLICIT_ACK_TIME_DATA else IMPLICIT_ACK_TIME_INTEREST.

Definition changeStateToWaintingImpAck (e : pft_Entry) : bool * pft_Entry :=
  if pe_state e =? WAITING_FORWARDING
  then (true, mkPftEntry (pe_valPkt e) WAITING_IMPLICIT_ACK MAX_IMPLICIT_ACK_TRIES
                         (pe_faceId e) (pe_timerId e))
  else (false, e).

Definition oneLessTry (e : pft_Entry) : bool * pft_Entry :=
  if pe_tries e >? 0
  then (true, mkPftEntry (pe_valPkt e) (pe_state e) (pe_tries e - 1) (pe_faceId e) (pe_timerId e))
  else (false, e).

Definition setTimer (timerId : option nat) (e : pft_Entry) : pft_Entry :=
  mkPftEntry (pe_valPkt e) (pe_state e) (pe_tries e) (pe_faceId e) timerId.

(** ** The table *)

Record PFT := mkPFT {
  pft_store : gmap nat pft_Entry;   (* the entries allocated by make_shared *)
  pft_next : nat;                   (* the next free location *)
  m_pft : list nat;                 (* std::list<std::shared_ptr<Entry>> *)
  pft_nItens : Z;
}.
Definition PFT_new : PFT := mkPFT ∅ 0 [] 0.

(** Dereferencing a pointer to an entry. *)
Definition pft_deref (l : nat) (t : PFT) : result pft_Entry :=
  match pft_store t !! l with Some e => Ok e | None => Err (UndefinedBehaviour "null pft entry") end.
Definition pft_assign (l : nat) (e : pft_Entry) (t : PFT) : PFT :=
  mkPFT (<[l := e]> (pft_store t)) (pft_next t) (m_pft t) (pft_nItens t).

(** The test of [findMatch] and [removeEntry]: the same kind of packet, with the same
    nonce or the same signature. *)
Definition pft_matches (valPkt other : ValPacket) : result bool :=
  if isSet valPkt =? isSet other then
    if isSet valPkt =? INTEREST_SET then
      let* i := getInterest valPkt in
      let* j := getInterest other in
      Ok (getNonce i =? getNonce j)
    else if isSet valPkt =? DATA_SET then
      let* d := getData valPkt in
      let* c := getData other in
      Ok (Signature_eqb (getSignature d) (getSignature c))
    else Ok false
  else Ok false.

Definition pft_matches_at (valPkt : ValPacket) (t : PFT) (l : nat) : result bool :=
  let* e := pft_deref l t in pft_matches valPkt (pe_valPkt e).

Fixpoint pft_find_loop (test : nat -> result bool) (it : list nat) : result (option nat) :=
  match it with
  | [] => Ok None
  | l :: it' =>
    let* found := test l in
    if (found : bool) then Ok (Some l) else pft_find_loop test it'
  end.
Definition pft_findMatch (valPkt : ValPacket) (t : PFT) : result (option nat) :=
  pft_find_loop (pft_matches_at valPkt t) (m_pft t).

Definition pft_addEntry (entry : pft_Entry) (t : PFT) : result ((bool * nat) * PFT) :=
  let* found := pft_findMatch (pe_valPkt entry) t in
  match found with
  | None =>
    let l := pft_next t in
    Ok ((true, l),
        mkPFT (<[l := entry]> (pft_store t)) (S l) (m_pft t ++ [l]) (incr (pft_nItens t)))
  | Some l => Ok ((false, l), t)
  end.

(** [findMatchByNonceList]: an entry is pushed once per occurrence of its nonce, and
    the search stops once as many entries as nonces are found. *)
Fixpoint pft_nonces_loop (nonceList : list Z) (t : PFT) (it res : list nat) : result (list nat) :=
  match it with
  | [] => Ok res
  | l :: it' =>
    let* e := pft_deref l t in
    let* res :=
      if isSet (pe_valPkt e) =? INTEREST_SET then
        let* i := getInterest (pe_valPkt e) in
        Ok (res ++ ((fun _ => l) <$> filter (fun nonce => getNonce i = nonce) nonceList))
      else Ok res in
    if zlen res =? zlen nonceList then Ok res else pft_nonces_loop nonceList t it' res
  end.
Definition pft_findMatchByNonceList (nonceList : list Z) (t : PFT) : result (list nat) :=
  pft_nonces_loop nonceList t (m_pft t) [].

(** The loop of [removeEntry], on the list and the position of the iterator: after an
    erasure the iterator is [end()] and its increment the first element. *)
Fixpoint pft_remove_loop (fuel : nat) (test : nat -> result bool) (pos : nat) (l : list nat)
    (n : Z) (state : bool) : result (bool * list nat * Z) :=
  match l !! pos with
  | None => Ok (state, l, n)
  | Some x =>
    match fuel with
    | O => Err OutOfFuel
    | S fuel' =>
      let* found := test x in
      if (found : bool)
      then pft_remove_loop fuel' test 0 (delete pos l) (decr n) true
      else pft_remove_loop fuel' test (S pos) l n state
    end
  end.

(** Every pass over the list that erases something shortens it. *)
Definition remove_fuel (l : list nat) : nat := S (length l) * S (length l).

Definition pft_removeEntry (valPkt : ValPacket) (t : PFT) : result (bool * PFT) :=
  let* (state, l, n) :=
    pft_remove_loop (remove_fuel (m_pft t)) (pft_matches_at valPkt t) 0 (m_pft t) (pft_nItens t) false in
  Ok (state, mkPFT (pft_store t) (pft_next t) l n).

(** [removeEntriesByMatchList] *)
Fixpoint pft_removeEntriesByMatchList (entries : list nat) (t : PFT) : result PFT :=
  match entries with
  | [] => Ok t
  | l :: entries' =>
    let* e := pft_deref l t in
    let* (_, t) := pft_removeEntry (pe_valPkt e) t in
    pft_removeEntriesByMatchList entries' t
  end.

Definition pft_getSize : PFT -> Z := pft_nItens.

(** ** Packets that match *)

(** What identifies a pending packet: the nonce of an Interest, the signature of a
    Data. *)
Inductive packet_key : Type :=
  | KeyNone
  | KeyInterest (nonce : Z)
  | KeyData (sig : Z * bool * result (Z * octets) * list (Z * octets) * (Z * octets)).

#[export] Instance packet_key_eq_dec : EqDecision packet_key.
Proof. solve_decision. Defined.

Definition key_of (p : ValPacket) : packet_key :=
  match m_interest p, m_data p with
  | Some i, _ => KeyInterest (getNonce i)
  | None, Some d => KeyData (sig_key (getSignature d))
  | None, None => KeyNone
  end.

Definition key_matches (k k' : packet_key) : bool :=
  match k with KeyNone => false | _ => bool_decide (k = k') end.

Lemma pft_matches_key p q :
  wf_packet p -> wf_packet q -> pft_matches p q = Ok (key_matches (key_of p) (key_of q)).
Proof.
  intros [h|h i|h d] [h'|h' i'|h' d']; unfold pft_matches; cbn; try done; f_equal.
  - destruct (getNonce i =? getNonce i') eqn:E; zbool.
    + by rewrite E, bool_decide_true.
    + rewrite bool_decide_false; [done|congruence].
  - destruct (Signature_eqb _ _) eqn:E.
    + apply Signature_eqb_spec in E. by rewrite E, bool_decide_true.
    + symmetry. apply bool_decide_eq_false. intros H.
      assert (H' : sig_key (getSignature d) = sig_key (getSignature d')) by congruence.
      by rewrite (proj2 (Signature_eqb_spec _ _) H') in E.
Qed.

Lemma key_matches_spec k k' : key_matches k k' = true <-> k = k' /\ k <> KeyNone.
Proof.
  unfold key_matches. destruct k; rewrite ?bool_decide_eq_true.
  - split; [done|]. by intros [_ ?].
  - split; [by intros <-|by intros [? _]].
  - split; [by intros <-|by intros [? _]].
Qed.

(** ** The loops *)

Lemma pft_find_loop_spec (b : nat -> bool) test it :
  (forall l, l ∈ it -> test l = Ok (b l)) -> pft_find_loop test it = Ok (find_first b it).
Proof.
  induction it as [|l it IH]; intros H; cbn; [done|].
  rewrite (H l) by left. cbn. destruct (b l); [done|]. apply IH. intros l' Hl'. apply H. by right.
Qed.

(** [n] decreased once per element that is erased. *)
Definition decr_by (k : nat) (n : Z) : Z := Nat.iter k decr n.

Lemma decr_by_S k n : decr_by (S k) n = decr_by k (decr n).
Proof. unfold decr_by. by rewrite Nat.iter_succ_r. Qed.

Lemma filter_delete_match (b : nat -> bool) (l : list nat) pos x :
  l !! pos = Some x -> b x = true ->
  filter (fun y => b y = false) (delete pos l) = filter (fun y => b y = false) l /\
  length (filter (fun y => b y = true) l) = S (length (filter (fun y => b y = true) (delete pos l))).
Proof.
  revert pos. induction l as [|y l IH]; intros [|pos] Hl Hb; try done.
  - change (delete 0%nat (y :: l)) with l. injection Hl as ->. rewrite !filter_cons, decide_False, decide_True by congruence. done.
  - change (delete (S pos) (y :: l)) with (y :: delete pos l).
    destruct (IH pos Hl Hb) as [H1 H2]. rewrite !filter_cons, H1. split; [done|].
    case_decide; cbn [length]; lia.
Qed.

Lemma no_match_filters (b : nat -> bool) (l : list nat) :
  (forall x, x ∈ l -> b x = false) ->
  existsb b l = false /\ filter (fun x => b x = false) l = l /\ filter (fun x => b x = true) l = [].
Proof.
  induction l as [|x l IH]; intros H; [done|].
  assert (Hx : b x = false) by (apply H; left).
  destruct IH as (H1 & H2 & H3); [intros y Hy; apply H; by right|].
  cbn [existsb]. rewrite Hx, H1, !filter_cons, decide_True, decide_False, H2, H3 by congruence. done.
Qed.

(** With enough fuel the loop erases every element that matches: it returns whether
    there was one, the others in their order, and the counter. *)
Lemma pft_remove_loop_spec (b : nat -> bool) test fuel pos l n state :
  (forall x, x ∈ l -> test x = Ok (b x)) ->
  (forall k x, (k < pos)%nat -> l !! k = Some x -> b x = false) ->
  (length (filter (fun x => b x = true) l) * S (length l) + (length l - pos) <= fuel)%nat ->
  pft_remove_loop fuel test pos l n state =
  Ok (state || existsb b l, filter (fun x => b x = false) l,
      decr_by (length (filter (fun x => b x = true) l)) n).
Proof.
  revert pos l n state. induction fuel as [|fuel IH]; intros pos l n state Ht Hp Hf;
    destruct (l !! pos) as [x|] eqn:E; cbn [pft_remove_loop]; rewrite E.
  1: { apply lookup_lt_Some in E. lia. }
  1, 3: destruct (no_match_filters b l) as (H1 & H2 & H3);
    [intros x [k Hk]%list_elem_of_lookup; apply (Hp k); [|done];
     apply lookup_lt_Some in Hk; apply lookup_ge_None in E; lia|];
    by rewrite H1, H2, H3, orb_false_r.
  rewrite (Ht x) by by eapply list_elem_of_lookup_2. cbn.
  pose proof (lookup_lt_Some _ _ _ E) as Hlt. destruct (b x) eqn:Hb.
  - destruct (filter_delete_match b l pos x E Hb) as [H1 H2].
    assert (Hl : length (delete pos l) = (length l - 1)%nat) by (rewrite length_delete; [lia|by eexists]).
    rewrite IH.
    + rewrite H1, H2, decr_by_S. cbn [orb]. f_equal. f_equal. f_equal.
      symmetry. apply orb_true_iff. right. apply existsb_exists. exists x. split; [|done].
      apply list_elem_of_In. by eapply list_elem_of_lookup_2.
    + intros y Hy. apply Ht. eapply elem_of_submseteq; [done|].
      apply sublist_submseteq, sublist_delete.
    + intros k y Hk. lia.
    + rewrite H2 in Hf. rewrite Hl. nia.
  - rewrite IH; [done|done| |].
    + intros k y Hk Hy. destruct (decide (k = pos)) as [->|]; [congruence|]. apply (Hp k); [lia|done].
    + lia.
Qed.

Lemma length_filter_le {A} (P : A -> Prop) `{!forall x, Decision (P x)} (l : list A) :
  (length (filter P l) <= length l)%nat.
Proof. induction l as [|x l IH]; [done|]. rewrite filter_cons. case_decide; cbn; lia. Qed.

Lemma remove_fuel_enough (b : nat -> bool) l :
  (length (filter (fun x => b x = true) l) * S (length l) + (length l - 0) <= remove_fuel l)%nat.
Proof.
  unfold remove_fuel. pose proof (length_filter_le (fun x => b x = true) l). nia.
Qed.

(** ** The invariant of the table *)

Definition key_at (t : PFT) (l : nat) : packet_key :=
  match pft_store t !! l with Some e => key_of (pe_valPkt e) | None => KeyNone end.

(** A pending packet is well formed and is an Interest or a Data. *)
Definition pending (p : ValPacket) : Prop := wf_packet p /\ key_of p <> KeyNone.

(** Every listed location holds an entry, no two listed entries have the same nonce
    or signature, and the counter is the length. *)
Record pft_inv (t : PFT) : Prop := {
  pi_dom l : l ∈ m_pft t -> is_Some (pft_store t !! l);
  pi_next l : is_Some (pft_store t !! l) -> (l < pft_next t)%nat;
  pi_pending l e : pft_store t !! l = Some e -> pending (pe_valPkt e);
  pi_keys : NoDup (key_at t <$> m_pft t);
  pi_size : pft_nItens t = u64 (zlen (m_pft t));
}.

Lemma pft_inv_new : pft_inv PFT_new.
Proof.
  split; cbn.
  - by intros l ?%elem_of_nil.
  - intros l [e H]. by rewrite lookup_empty in H.
  - intros l e H. by rewrite lookup_empty in H.
  - constructor.
  - done.
Qed.
#[export] Hint Resolve pft_inv_new : valdb.

Lemma pft_inv_NoDup t : pft_inv t -> NoDup (m_pft t).
Proof. intros [_ _ _ H _]. by eapply NoDup_fmap_1. Qed.

Lemma pft_inv_listed t l :
  pft_inv t -> l ∈ m_pft t -> exists e, pft_store t !! l = Some e /\ pending (pe_valPkt e).
Proof. intros H Hl. destruct (pi_dom t H l Hl) as [e He]. exists e. split; [done|]. by eapply pi_pending. Qed.

(** The test of the loops, on the invariant. *)
Definition at_key (k : packet_key) (t : PFT) (l : nat) : bool := key_matches k (key_at t l).

Lemma pft_matches_at_spec p t l :
  pft_inv t -> wf_packet p -> l ∈ m_pft t -> pft_matches_at p t l = Ok (at_key (key_of p) t l).
Proof.
  intros Ht Hp Hl. destruct (pft_inv_listed t l Ht Hl) as (e & He & Hw & _).
  unfold pft_matches_at, pft_deref, at_key, key_at. rewrite He. cbn. by rewrite pft_matches_key.
Qed.

Lemma pft_findMatch_spec p t :
  pft_inv t -> wf_packet p ->
  pft_findMatch p t = Ok (find_first (at_key (key_of p) t) (m_pft t)).
Proof. intros Ht Hp. apply pft_find_loop_spec. intros l Hl. by apply pft_matches_at_spec. Qed.

Lemma at_key_unique k t l l' :
  pft_inv t -> l ∈ m_pft t -> l' ∈ m_pft t -> at_key k t l = true -> at_key k t l' = true -> l = l'.
Proof.
  intros Ht Hl Hl' [H1 _]%key_matches_spec [H2 _]%key_matches_spec.
  eapply (NoDup_fmap_eq (key_at t)); [apply Ht|done..|congruence].
Qed.

(** A found entry is the only listed one with the key of the packet. *)
Lemma pft_findMatch_Some p t l :
  pft_inv t -> wf_packet p -> pft_findMatch p t = Ok (Some l) ->
  l ∈ m_pft t /\ exists e, pft_store t !! l = Some e /\ pending (pe_valPkt e) /\
    key_of (pe_valPkt e) = key_of p.
Proof.
  intros Ht Hp. rewrite pft_findMatch_spec by done. intros [= H].
  apply find_first_Some in H as [Hl [Hk _]%key_matches_spec]. split; [done|].
  destruct (pft_inv_listed t l Ht Hl) as (e & He & Hw). exists e. unfold key_at in Hk.
  by rewrite He in Hk.
Qed.

Lemma pft_findMatch_None p t :
  pft_inv t -> pending p -> pft_findMatch p t = Ok None -> key_of p ∉ (key_at t <$> m_pft t).
Proof.
  intros Ht [Hp Hk]. rewrite pft_findMatch_spec by done. intros [= H].
  rewrite list_elem_of_fmap. intros (l & Hl & Hin).
  pose proof (proj1 (find_first_None _ _) H l Hin) as Hf. unfold at_key in Hf.
  by rewrite (proj2 (key_matches_spec _ _) (conj Hl Hk)) in Hf.
Qed.

(** *** Adding *)

Definition pft_insert (e : pft_Entry) (t : PFT) : PFT :=
  mkPFT (<[pft_next t := e]> (pft_store t)) (S (pft_next t)) (m_pft t ++ [pft_next t]) (incr (pft_nItens t)).

Lemma pft_addEntry_cases e t :
  pft_inv t -> pending (pe_valPkt e) ->
  (exists l, pft_findMatch (pe_valPkt e) t = Ok (Some l) /\ pft_addEntry e t = Ok ((false, l), t)) \/
  (pft_findMatch (pe_valPkt e) t = Ok None /\
   pft_addEntry e t = Ok ((true, pft_next t), pft_insert e t)).
Proof.
  intros Ht Hp. unfold pft_addEntry. rewrite pft_findMatch_spec by (done || apply Hp). cbn.
  destruct (find_first _ _) as [l|]; [left; by exists l|by right].
Qed.

Lemma pft_store_fresh t : pft_inv t -> pft_store t !! pft_next t = None.
Proof.
  intros Ht. destruct (pft_store t !! pft_next t) eqn:E; [|done].
  assert (pft_next t < pft_next t)%nat by (eapply pi_next; [done|by eexists]). lia.
Qed.

Lemma key_at_insert_ne e t l :
  pft_inv t -> l ∈ m_pft t -> key_at (pft_insert e t) l = key_at t l.
Proof.
  intros Ht Hl. unfold key_at. cbn. rewrite lookup_insert_ne; [done|].
  intros <-. destruct (pi_dom t Ht _ Hl) as [e' He]. by rewrite pft_store_fresh in He.
Qed.

Lemma pft_inv_insert e t :
  pft_inv t -> pending (pe_valPkt e) -> pft_findMatch (pe_valPkt e) t = Ok None ->
  pft_inv (pft_insert e t).
Proof.
  intros Ht Hp Hf. split; cbn.
  - intros l [Hl| ->%list_elem_of_singleton]%elem_of_app.
    + destruct (pi_dom t Ht l Hl) as [x Hx]. rewrite lookup_insert_ne; [by eexists|].
      intros <-. by rewrite pft_store_fresh in Hx.
    + rewrite lookup_insert. by rewrite decide_True.
  - intros l [x Hx]. destruct (decide (l = pft_next t)) as [->|Hne]; [lia|].
    rewrite lookup_insert_ne in Hx by done.
    assert (l < pft_next t)%nat by (eapply pi_next; [done|by eexists]). lia.
  - intros l x Hx. destruct (decide (l = pft_next t)) as [->|Hne].
    + rewrite lookup_insert, decide_True in Hx by done. by injection Hx as <-.
    + rewrite lookup_insert_ne in Hx by done. by eapply pi_pending.
  - rewrite fmap_app. csimpl. apply NoDup_app. split; [|split; [|apply NoDup_singleton]].
    + erewrite list_fmap_ext; [apply (pi_keys t Ht)|].
      intros i l Hi. apply key_at_insert_ne; [done|]. by eapply list_elem_of_lookup_2.
    + intros k Hk ->%list_elem_of_singleton. apply (pft_findMatch_None _ _ Ht Hp Hf).
      revert Hk. unfold key_at at 1. cbn. rewrite lookup_insert, decide_True by done.
      erewrite list_fmap_ext; [done|].
      intros i l Hi. apply key_at_insert_ne; [done|]. by eapply list_elem_of_lookup_2.
  - apply incr_zlen, Ht.
Qed.

(** *** Modifying an entry *)

Lemma key_at_assign l e' t e l' :
  pft_store t !! l = Some e -> pe_valPkt e' = pe_valPkt e ->
  key_at (pft_assign l e' t) l' = key_at t l'.
Proof.
  intros He Hp. unfold key_at. cbn. destruct (decide (l = l')) as [->|].
  - rewrite lookup_insert, decide_True, He by done. by rewrite Hp.
  - by rewrite lookup_insert_ne.
Qed.

Lemma pft_inv_assign l e e' t :
  pft_inv t -> pft_store t !! l = Some e -> pe_valPkt e' = pe_valPkt e -> pft_inv (pft_assign l e' t).
Proof.
  intros Ht He Hp. split; cbn.
  - intros x Hx. rewrite lookup_insert. case_decide; [done|]. by apply (pi_dom t Ht).
  - intros x. rewrite lookup_insert. case_decide as Hd.
    + subst x. intros _. eapply pi_next; [done|by eexists].
    + apply (pi_next t Ht).
  - intros x y. rewrite lookup_insert. case_decide as Hd.
    + subst x. intros [= <-]. rewrite Hp. by eapply pi_pending.
    + apply (pi_pending t Ht).
  - erewrite list_fmap_ext; [apply (pi_keys t Ht)|]. intros i x _. by eapply key_at_assign.
  - apply (pi_size t Ht).
Qed.

(** *** Removing *)

Definition pft_erase (k : packet_key) (t : PFT) : PFT :=
  mkPFT (pft_store t) (pft_next t) (filter (fun l => at_key k t l = false) (m_pft t))
        (decr_by (length (filter (fun l => at_key k t l = true) (m_pft t))) (pft_nItens t)).

Lemma pft_removeEntry_spec p t :
  pft_inv t -> wf_packet p ->
  pft_removeEntry p t = Ok (existsb (at_key (key_of p) t) (m_pft t), pft_erase (key_of p) t).
Proof.
  intros Ht Hp. unfold pft_removeEntry.
  rewrite (pft_remove_loop_spec (at_key (key_of p) t)); [done| | |].
  - intros l Hl. by apply pft_matches_at_spec.
  - lia.
  - apply remove_fuel_enough.
Qed.

Lemma decr_by_u64 k a : decr_by k (u64 a) = u64 (a - Z.of_nat k).
Proof.
  revert a. induction k as [|k IH]; intros a; [cbn; f_equal; lia|].
  rewrite decr_by_S. unfold decr, u64 at 1 2. rewrite Zminus_mod_idemp_l.
  change ((a - 1) mod 2 ^ 64) with (u64 (a - 1)). rewrite IH. f_equal. lia.
Qed.

Lemma filter_complement (b : nat -> bool) (l : list nat) :
  (length (filter (fun x => b x = true) l) + length (filter (fun x => b x = false) l) = length l)%nat.
Proof.
  induction l as [|x l IH]; [done|]. rewrite !filter_cons. destruct (b x); cbn [decide_rel length] in *;
    repeat case_decide; try done; cbn [length]; lia.
Qed.

Lemma elem_of_erase k t l :
  k <> KeyNone -> (l ∈ m_pft (pft_erase k t) <-> l ∈ m_pft t /\ key_at t l <> k).
Proof.
  intros Hk. cbn. rewrite list_elem_of_filter, <- not_true_iff_false. unfold at_key.
  rewrite key_matches_spec. split.
  - intros [H Hl]. split; [done|]. intros <-. by apply H.
  - intros [Hl H]. split; [|done]. intros [-> _]. by apply H.
Qed.

Lemma pft_inv_erase k t : pft_inv t -> pft_inv (pft_erase k t).
Proof.
  intros Ht. split; cbn.
  - intros l [_ Hl]%list_elem_of_filter. by apply (pi_dom t Ht).
  - apply (pi_next t Ht).
  - apply (pi_pending t Ht).
  - eapply sublist_NoDup; [apply (pi_keys t Ht)|].
    change (key_at (pft_erase k t)) with (key_at t). apply fmap_sublist, sublist_filter.
  - rewrite (pi_size t Ht), decr_by_u64. f_equal. unfold zlen.
    pose proof (filter_complement (at_key k t) (m_pft t)). lia.
Qed.
#[export] Hint Resolve pft_inv_insert pft_inv_erase pft_inv_assign : valdb.

(** *** Searching by nonces *)

(** The occurrences in [ns] of the nonce of the entry at [l]. *)
Definition nonces_at (ns : list Z) (t : PFT) (l : nat) : list Z :=
  match key_at t l with KeyInterest n => filter (eq n) ns | _ => [] end.

Lemma pft_nonces_loop_step ns t l it res :
  pft_inv t -> l ∈ m_pft t ->
  pft_nonces_loop ns t (l :: it) res =
  let res := res ++ ((fun _ => l) <$> nonces_at ns t l) in
  if zlen res =? zlen ns then Ok res else pft_nonces_loop ns t it res.
Proof.
  intros Ht Hl. destruct (pft_inv_listed t l Ht Hl) as (e & He & Hw & Hk).
  cbn [pft_nonces_loop]. unfold pft_deref, nonces_at, key_at. rewrite He. cbn.
  by destruct Hw; cbn; rewrite ?app_nil_r.
Qed.

Lemma filter_ne_nil (n m : Z) (ns : list Z) :
  n <> m -> filter (eq n) (filter (fun x => x <> m) ns) = filter (eq n) ns.
Proof.
  intros Hne. induction ns as [|x ns IH]; [done|]. rewrite !filter_cons.
  repeat case_decide; rewrite ?filter_cons; repeat case_decide; try congruence; done.
Qed.

Lemma filter_split_length (n : Z) (ns : list Z) :
  (length (filter (eq n) ns) + length (filter (fun x => x <> n) ns) = length ns)%nat.
Proof.
  induction ns as [|x ns IH]; [done|]. rewrite !filter_cons.
  repeat case_decide; try congruence; cbn [length]; lia.
Qed.

(** [rest] are the nonces whose entries are still to be found: they are as many as
    the result lacks to stop the loop, and those of the remaining entries are among
    them, so nothing is missed when the loop stops. *)
Lemma pft_nonces_loop_spec ns t it res rest :
  pft_inv t -> (forall l, l ∈ it -> l ∈ m_pft t) -> NoDup (key_at t <$> it) ->
  (length res + length rest = length ns)%nat ->
  (forall l, l ∈ it -> nonces_at ns t l = nonces_at rest t l) ->
  exists res', pft_nonces_loop ns t it res = Ok res' /\
    forall l, l ∈ res' <-> l ∈ res \/ (l ∈ it /\ nonces_at ns t l <> []).
Proof.
  intros Ht. revert res rest. induction it as [|l it IH]; intros res rest Hin Hd Hlen Hrest.
  { exists res. split; [done|]. intros x. split; [by left|].
    intros [?|[?%elem_of_nil _]]; done. }
  rewrite pft_nonces_loop_step by (done || (apply Hin; left)). cbn zeta.
  set (res1 := res ++ ((fun _ => l) <$> nonces_at ns t l)).
  assert (Hres1 : forall x, x ∈ res1 <-> x ∈ res \/ (x = l /\ nonces_at ns t l <> [])).
  { intros x. subst res1. rewrite elem_of_app, list_elem_of_fmap. split.
    - intros [?|(y & -> & Hy)]; [by left|right]. split; [done|]. intros H0. rewrite H0 in Hy.
      by apply elem_of_nil in Hy.
    - intros [?|[-> Hne]]; [by left|right]. destruct (nonces_at ns t l) as [|y ys]; [done|].
      exists y. split; [done|left]. }
  csimpl in Hd. inversion Hd as [|? ? Hl Hd']; subst.
  pose (rest1 := match key_at t l with KeyInterest n => filter (fun x => x <> n) rest | _ => rest end).
  assert (Hlen1 : (length res1 + length rest1 = length ns)%nat).
  { subst res1 rest1. rewrite length_app, length_fmap, (Hrest l) by left. unfold nonces_at.
    destruct (key_at t l) as [|n|]; cbn [length]; try lia.
    pose proof (filter_split_length n rest). lia. }
  assert (Hrest1 : forall x, x ∈ it -> nonces_at ns t x = nonces_at rest1 t x).
  { intros x Hx. rewrite (Hrest x) by by right. subst rest1. unfold nonces_at.
    destruct (key_at t x) as [|n|] eqn:Ex; [done| |done].
    destruct (key_at t l) as [|m|] eqn:El; [done| |done]. rewrite filter_ne_nil; [done|].
    intros ->. apply Hl. rewrite <- Ex. by apply list_elem_of_fmap_2. }
  destruct (_ =? _) eqn:E; zbool.
  - exists res1. split; [done|]. intros x. rewrite Hres1, elem_of_cons. split.
    + intros [?|[-> ?]]; auto.
    + intros [?|[[->|Hx] Hne]]; auto. exfalso. apply Hne. rewrite Hrest1 by done.
      assert (rest1 = []) as ->; [|by unfold nonces_at; destruct (key_at t x)].
      destruct rest1; [done|]. unfold zlen in E. cbn in Hlen1. lia.
  - destruct (IH res1 rest1) as (res' & -> & Hres'); [intros x Hx; apply Hin; by right|done..|].
    exists res'. split; [done|]. intros x. rewrite Hres', Hres1, elem_of_cons. split.
    + intros [[?|[-> ?]]|[? ?]]; auto.
    + intros [?|[[->|Hx] Hne]]; auto.
Qed.

Lemma pft_findMatchByNonceList_spec ns t :
  pft_inv t ->
  exists res, pft_findMatchByNonceList ns t = Ok res /\
    forall l, l ∈ res <-> l ∈ m_pft t /\ exists n, n ∈ ns /\ key_at t l = KeyInterest n.
Proof.
  intros Ht. destruct (pft_nonces_loop_spec ns t (m_pft t) [] ns Ht) as (res & Hr & Hres);
    [done|apply Ht|done|done|].
  exists res. split; [done|]. intros l. rewrite Hres. split.
  - intros [?%elem_of_nil|[Hl Hne]]; [done|]. split; [done|]. unfold nonces_at in Hne.
    destruct (key_at t l) as [|n|] eqn:E; [done| |done]. exists n. split; [|done].
    destruct (filter (eq n) ns) as [|x xs] eqn:Ef; [done|].
    assert (Hx : x ∈ filter (eq n) ns) by (rewrite Ef; left).
    by apply list_elem_of_filter in Hx as [-> ?].
  - intros [Hl (n & Hn & Hk)]. right. split; [done|]. unfold nonces_at. rewrite Hk. intros H0.
    assert (Hx : n ∈ filter (eq n) ns) by by apply list_elem_of_filter. rewrite H0 in Hx.
    by apply elem_of_nil in Hx.
Qed.

Lemma pft_removeEntriesByMatchList_spec ls t :
  pft_inv t -> (forall l, l ∈ ls -> is_Some (pft_store t !! l)) ->
  exists t', pft_removeEntriesByMatchList ls t = Ok t' /\ pft_inv t' /\
    pft_store t' = pft_store t /\ pft_next t' = pft_next t /\
    forall l, l ∈ m_pft t' <-> l ∈ m_pft t /\ forall l', l' ∈ ls -> key_at t l' <> key_at t l.
Proof.
  revert t. induction ls as [|x ls IH]; intros t Ht Hls.
  { exists t. do 4 (split; [done|]). intros l. split; [|by intros [? _]].
    intros Hl. split; [done|]. by intros l' ?%elem_of_nil. }
  destruct (Hls x) as [e He]; [left|].
  assert (Hp : pending (pe_valPkt e)) by by eapply pi_pending.
  cbn [pft_removeEntriesByMatchList]. unfold pft_deref. rewrite He.
  cbn [mbind result_bind]. rewrite pft_removeEntry_spec by (done || apply Hp).
  cbn [mbind result_bind].
  destruct (IH (pft_erase (key_of (pe_valPkt e)) t)) as (t' & -> & Ht' & Hs & Hn & Hl);
    [by apply pft_inv_erase|intros l Hl; apply Hls; by right|].
  exists t'. do 4 (split; [done|]). intros l. rewrite Hl, elem_of_erase by apply Hp.
  assert (Hx : key_at t x = key_of (pe_valPkt e)) by (unfold key_at; by rewrite He).
  split.
  - intros [[Hin Hk] Hls']. split; [done|]. intros l' [->|Hl']%elem_of_cons.
    + congruence.
    + by apply Hls'.
  - intros [Hin Hk]. split.
    + split; [done|]. rewrite <- Hx. intros Hkl. by apply (Hk x); [left|].
    + intros l' Hl'. apply Hk. by right.
Qed.

(** ** Properties *)

(** The PFT identifies pending packets by nonce or signature.  On a well-formed
    table, adding an entry succeeds exactly when no listed entry matches its packet,
    the returned pointer is the entry a search then finds, and the table stays well
    formed; a second registration of the same packet returns the first entry and
    changes nothing. *)
Theorem pft_add_find (t : PFT) (e e' : pft_Entry) (Ht : pft_inv t)
    (Hp : pending (pe_valPkt e)) (Hk : key_of (pe_valPkt e') = key_of (pe_valPkt e))
    (Hp' : pending (pe_valPkt e')) :
  exists added l t',
    pft_addEntry e t = Ok ((added, l), t') /\ pft_inv t' /\
    (added = true <-> pft_findMatch (pe_valPkt e) t = Ok None) /\
    pft_findMatch (pe_valPkt e) t' = Ok (Some l) /\
    pft_addEntry e' t' = Ok ((false, l), t').
Proof.
  assert (Hfind : forall t, pft_inv t -> pft_findMatch (pe_valPkt e') t = pft_findMatch (pe_valPkt e) t).
  { intros t0 H0. rewrite !pft_findMatch_spec by (done || apply Hp || apply Hp'). by rewrite Hk. }
  destruct (pft_addEntry_cases e t Ht Hp) as [(l & Hf & Ha)|[Hf Ha]].
  - exists false, l, t. do 2 (split; [done|]). split; [by rewrite Hf|]. split; [done|].
    unfold pft_addEntry. by rewrite Hfind, Hf.
  - pose proof (pft_inv_insert e t Ht Hp Hf) as Hi.
    assert (Hl : pft_findMatch (pe_valPkt e) (pft_insert e t) = Ok (Some (pft_next t))).
    { rewrite pft_findMatch_spec by (done || apply Hp). f_equal.
      destruct (find_first _ _) as [l|] eqn:E.
      - f_equal. apply find_first_Some in E as [Hl Hkl].
        eapply (at_key_unique _ _ _ _ Hi Hl); [|apply Hkl|].
        + cbn. apply elem_of_app. right. by apply list_elem_of_singleton.
        + apply key_matches_spec. split; [|apply Hp]. unfold key_at. cbn.
          by rewrite lookup_insert, decide_True.
      - exfalso. eapply (pft_findMatch_None _ _ Hi Hp).
        + rewrite pft_findMatch_spec by (done || apply Hp). by rewrite E.
        + cbn. rewrite fmap_app. apply elem_of_app. right. apply list_elem_of_singleton.
          unfold key_at. cbn. by rewrite lookup_insert, decide_True. }
    exists true, (pft_next t), (pft_insert e t). do 4 (split; [done|]).
    unfold pft_addEntry. by rewrite Hfind, Hl.
Qed.

(** An Interest entry for the witnesses. *)
Definition sample_interest (nonce : Z) : Interest := 
  mkInterest [] Selectors_new true nonce 4000 DelegationList_new Block_default (Some (element 5 [])) no_tags.
Definition sample_packet (nonce hopC : Z) : ValPacket :=
  interest_packet (ValHeader_new (str "A1") (str "C2") (str "0:0:0") (str "/a") hopC)
                  (sample_interest nonce).
Lemma sample_pending nonce hopC : pending (sample_packet nonce hopC).
Proof. split; [apply wf_interest_packet|done]. Qed.

Lemma pft_add_find_witness :
  exists added l t',
    pft_addEntry (pft_Entry_new (sample_packet 5 3) 257) PFT_new = Ok ((added, l), t') /\
    pft_addEntry (pft_Entry_new (sample_packet 5 2) 258) t' = Ok ((false, l), t').
Proof.
  destruct (pft_add_find PFT_new (pft_Entry_new (sample_packet 5 3) 257)
              (pft_Entry_new (sample_packet 5 2) 258) pft_inv_new
              (sample_pending 5 3) eq_refl (sample_pending 5 2))
    as (added & l & t' & H1 & _ & _ & _ & H2).
  by exists added, l, t'.
Defined.

(** Removal terminates and is exact.  Although its loop jumps back to the
    first element after every erasure, on a well-formed table [removeEntry] returns,
    reports whether an entry matched, removes that entry and no other (the remaining
    ones keep their order), keeps the counter equal to the length, and a search for
    the packet then finds nothing. *)
Theorem pft_remove_exact (t : PFT) (p : ValPacket) (Ht : pft_inv t) (Hp : pending p) :
  exists removed t',
    pft_removeEntry p t = Ok (removed, t') /\ pft_inv t' /\
    (removed = true <-> exists l, pft_findMatch p t = Ok (Some l)) /\
    m_pft t' = filter (fun l => key_at t l <> key_of p) (m_pft t) /\
    pft_store t' = pft_store t /\
    pft_getSize t' = u64 (zlen (m_pft t')) /\
    pft_findMatch p t' = Ok None.
Proof.
  exists (existsb (at_key (key_of p) t) (m_pft t)), (pft_erase (key_of p) t).
  pose proof (pft_inv_erase (key_of p) t Ht) as Hi.
  split; [apply pft_removeEntry_spec; [done|apply Hp]|]. split; [done|].
  split; [|split; [|split; [done|split; [apply Hi|]]]].
  - rewrite pft_findMatch_spec, existsb_find_first by (done || apply Hp).
    destruct (find_first _ _) as [l|].
    + split; [intros _; by exists l|done].
    + split; [done|]. intros [l Hl]. congruence.
  - cbn. apply list_filter_iff. intros l. rewrite <- not_true_iff_false. unfold at_key.
    rewrite key_matches_spec. split.
    + intros H Hl. apply H. split; [done|apply Hp].
    + intros H [Hl _]. by apply H.
  - rewrite pft_findMatch_spec by (done || apply Hp). f_equal. apply find_first_None.
    intros l [_ Hl]%elem_of_erase; [|apply Hp]. unfold at_key. rewrite <- not_true_iff_false.
    rewrite key_matches_spec. intros [Hkl _]. apply Hl. symmetry. exact Hkl.
Qed.

Lemma pft_remove_exact_witness :
  exists removed t',
    pft_removeEntry (sample_packet 5 2) (pft_insert (pft_Entry_new (sample_packet 5 3) 257) PFT_new)
      = Ok (removed, t') /\ pft_findMatch (sample_packet 5 2) t' = Ok None.
Proof.
  destruct (pft_remove_exact (pft_insert (pft_Entry_new (sample_packet 5 3) 257) PFT_new)
              (sample_packet 5 2)) as (r & t' & H & _ & _ & _ & _ & _ & Hf).
  - apply pft_inv_insert; [apply pft_inv_new|apply sample_pending|done].
  - apply sample_pending.
  - by exists r, t'.
Defined.
