(* ===== verification/FaceTable.v ===== *)
(** * Faces and the face table (NFD/daemon/face/face.hpp, face.cpp,
    NFD/daemon/fw/face-table.cpp, model/val/face/val-geoface-factory.cpp)

    What the adaptation layer adds to a face is two marks: network faces of VAL and
    geofaces.  The table assigns increasing identifiers and raises one of two pairs
    of signals, so that NFD never sees the network faces of VAL. *)

From stdpp Require Import base gmap list strings.
From Stdlib Require Import Strings.Byte ZArith Lia.
From S2P Require Import Prelude.

Local Open Scope Z_scope.

Definition INVALID_FACEID : Z := 0.
Definition FACEID_CONTENT_STORE : Z := 254.
Definition FACEID_RESERVED_MAX : Z := 255.

Inductive LinkType : Type :=
  | LINK_TYPE_NONE
  | LINK_TYPE_POINT_TO_POINT
  | LINK_TYPE_MULTI_ACCESS
  | LINK_TYPE_AD_HOC.

#[export] Instance LinkType_eq_dec : EqDecision LinkType.
Proof. solve_decision. Defined.

(** The local uri, scope and link type of the transport, the metric and the marks. *)
Record Face := mkFace {
  face_id : Z;
  face_uri : octets;
  face_local : bool;      (* FACE_SCOPE_LOCAL *)
  face_linkType : LinkType;
  face_metric : Z;
  m_isValNetFace : bool;
  m_isGeoFace : bool;
}.

#[export] Instance Face_eq_dec : EqDecision Face.
Proof. solve_decision. Defined.

(** [Face(service, transport)] *)
Definition Face_new (uri : octets) (local : bool) (linkType : LinkType) : Face :=
  mkFace INVALID_FACEID uri local linkType 0 false false.

Definition setId (id : Z) (f : Face) : Face :=
  mkFace id (face_uri f) (face_local f) (face_linkType f) (face_metric f) (m_isValNetFace f) (m_isGeoFace f).
Definition setMetric (metric : Z) (f : Face) : Face :=
  mkFace (face_id f) (face_uri f) (face_local f) (face_linkType f) metric (m_isValNetFace f) (m_isGeoFace f).
Definition setValNetFace (f : Face) : Face :=
  mkFace (face_id f) (face_uri f) (face_local f) (face_linkType f) (face_metric f) true (m_isGeoFace f).
Definition setGeoFace (f : Face) : Face :=
  mkFace (face_id f) (face_uri f) (face_local f) (face_linkType f) (face_metric f) (m_isValNetFace f) true.
Definition isValNetFace : Face -> bool := m_isValNetFace.
Definition isGeoFace : Face -> bool := m_isGeoFace.

(** [GeofaceFactory::makeGeoface] *)
Definition makeGeoface : Face :=
  setMetric 1 (setGeoFace (Face_new (str "geoFace://") false LINK_TYPE_POINT_TO_POINT)).

(** ** The table *)

Record FaceTable := mkFaceTable {
  m_lastFaceId : Z;
  m_faces : gmap Z Face;
}.
Definition FaceTable_new : FaceTable := mkFaceTable FACEID_RESERVED_MAX ∅.

(** The signals, with the identifier of the face. *)
Inductive face_signal : Type :=
  | AfterAdd (id : Z)
  | AfterValFaceAdd (id : Z)
  | BeforeRemove (id : Z)
  | BeforeValFaceRemove (id : Z).

#[export] Instance face_signal_eq_dec : EqDecision face_signal.
Proof. solve_decision. Defined.

Definition ft_get (id : Z) (t : FaceTable) : option Face := m_faces t !! id.
Definition ft_size (t : FaceTable) : Z := Z.of_nat (size (m_faces t)).

Definition addImpl (face : Face) (faceId : Z) (t : FaceTable) : result (face_signal * FaceTable) :=
  let face := setId faceId face in
  assert! bool_decide (m_faces t !! faceId = None) orelse "ret.second" ;
  Ok (if isValNetFace face then AfterValFaceAdd faceId else AfterAdd faceId,
      mkFaceTable (m_lastFaceId t) (<[faceId := face]> (m_faces t))).

(** [add]: [None] when the face is in the table already. *)
Definition ft_add (face : Face) (t : FaceTable) : result (option face_signal * FaceTable) :=
  if negb (face_id face =? INVALID_FACEID) && bool_decide (is_Some (m_faces t !! face_id face))
  then Ok (None, t)
  else
    let faceId := u64 (m_lastFaceId t + 1) in
    let t := mkFaceTable faceId (m_faces t) in
    assert! faceId >? FACEID_RESERVED_MAX orelse "faceId > face::FACEID_RESERVED_MAX" ;
    let* (sig, t) := addImpl face faceId t in
    Ok (Some sig, t).

Definition ft_addReserved (face : Face) (faceId : Z) (t : FaceTable)
  : result (face_signal * FaceTable) :=
  assert! face_id face =? INVALID_FACEID orelse "face->getId() == face::INVALID_FACEID" ;
  assert! faceId <=? FACEID_RESERVED_MAX orelse "faceId <= face::FACEID_RESERVED_MAX" ;
  addImpl face faceId t.

Definition ft_remove (faceId : Z) (t : FaceTable) : result (face_signal * FaceTable) :=
  match m_faces t !! faceId with
  | None => Err (AssertFailed "i != m_faces.end()")
  | Some face =>
    Ok (if isValNetFace face then BeforeValFaceRemove faceId else BeforeRemove faceId,
        mkFaceTable (m_lastFaceId t) (delete faceId (m_faces t)))
  end.

(** ** The invariant *)

(** Every face is stored under its identifier, and the next identifier is free. *)
Record ft_inv (t : FaceTable) : Prop := {
  fi_id id f : m_faces t !! id = Some f -> face_id f = id;
  fi_last id : is_Some (m_faces t !! id) -> id <= m_lastFaceId t;
  fi_reserved : FACEID_RESERVED_MAX <= m_lastFaceId t;
}.

Lemma ft_inv_new : ft_inv FaceTable_new.
Proof.
  split; cbn.
  - intros id f H. by rewrite lookup_empty in H.
  - intros id [f H]. by rewrite lookup_empty in H.
  - done.
Qed.
#[export] Hint Resolve ft_inv_new : valdb.

(** The table after a face with an unused identifier was added. *)
Definition ft_insert (face : Face) (t : FaceTable) : FaceTable :=
  let id := m_lastFaceId t + 1 in mkFaceTable id (<[id := setId id face]> (m_faces t)).

Lemma ft_fresh t : ft_inv t -> m_faces t !! (m_lastFaceId t + 1) = None.
Proof.
  intros Ht. destruct (m_faces t !! _) eqn:E; [|done].
  assert (m_lastFaceId t + 1 <= m_lastFaceId t) by (apply (fi_last t Ht); by eexists). lia.
Qed.

Lemma ft_add_new face t :
  ft_inv t -> face_id face = INVALID_FACEID -> m_lastFaceId t < 2 ^ 64 - 1 ->
  ft_add face t =
  Ok (Some (if isValNetFace face then AfterValFaceAdd (m_lastFaceId t + 1)
            else AfterAdd (m_lastFaceId t + 1)), ft_insert face t).
Proof.
  intros Ht Hid Hl. unfold ft_add, addImpl. rewrite Hid, Z.eqb_refl. cbn [negb andb].
  pose proof (fi_reserved t Ht) as Hr. unfold FACEID_RESERVED_MAX in *.
  rewrite u64_id by (unfold is_u64; lia).
  rewrite (proj2 (Z.gtb_lt _ _)) by lia.
  cbn [m_faces m_lastFaceId]. rewrite bool_decide_true by by apply ft_fresh. done.
Qed.

Lemma ft_inv_insert face t : ft_inv t -> ft_inv (ft_insert face t).
Proof.
  intros Ht. split; cbn.
  - intros id f. rewrite lookup_insert. case_decide as Hd; [by intros [= <-]|]. apply (fi_id t Ht).
  - intros id. rewrite lookup_insert. case_decide as Hd; [lia|].
    intros H. pose proof (fi_last t Ht id H). lia.
  - pose proof (fi_reserved t Ht). lia.
Qed.

Lemma ft_inv_remove id t sig t' : ft_inv t -> ft_remove id t = Ok (sig, t') -> ft_inv t'.
Proof.
  intros Ht. unfold ft_remove. destruct (m_faces t !! id) as [fc|]; [|done]. intros [= _ <-].
  split; cbn.
  - intros i f [_ H]%lookup_delete_Some. by eapply fi_id.
  - intros i [f [_ H]%lookup_delete_Some]. apply (fi_last t Ht). by eexists.
  - apply (fi_reserved t Ht).
Qed.
#[export] Hint Resolve ft_inv_insert : valdb.

(** Adding a new face to the table never fails: it gets an identifier that no
    face has or had, is found under it with the marks it was made with, raises the
    signal of its kind, and leaves every other face alone; removing it raises the
    matching signal and restores the faces. *)
Theorem ft_add_remove (t : FaceTable) (face : Face) (Ht : ft_inv t)
    (Hid : face_id face = INVALID_FACEID) (Hmax : m_lastFaceId t < 2 ^ 64 - 1) :
  let id := m_lastFaceId t + 1 in
  exists t',
    ft_add face t = Ok (Some (if isValNetFace face then AfterValFaceAdd id else AfterAdd id), t') /\
    ft_inv t' /\ FACEID_RESERVED_MAX < id /\ ft_get id t = None /\
    ft_get id t' = Some (setId id face) /\
    (forall id', id' <> id -> ft_get id' t' = ft_get id' t) /\
    ft_remove id t' =
      Ok (if isValNetFace face then BeforeValFaceRemove id else BeforeRemove id,
          mkFaceTable id (m_faces t)).
Proof.
  intros id. exists (ft_insert face t). pose proof (fi_reserved t Ht) as Hr.
  split; [by apply ft_add_new|]. split; [auto with valdb|]. split; [lia|].
  split; [by apply ft_fresh|]. unfold ft_get, ft_remove. cbn. fold id.
  split; [by rewrite lookup_insert, decide_True|]. split.
  - intros id' Hne. by rewrite lookup_insert_ne.
  - rewrite lookup_insert, decide_True by done. cbn. do 3 f_equal.
    apply delete_insert_id. by apply ft_fresh.
Qed.

Lemma ft_add_remove_witness :
  exists t', ft_add makeGeoface FaceTable_new = Ok (Some (AfterAdd 256), t') /\
             ft_get 256 t' = Some (setId 256 makeGeoface).
Proof.
  destruct (ft_add_remove FaceTable_new makeGeoface ft_inv_new eq_refl) as (t' & H1 & _ & _ & _ & H2 & _).
  - by vm_compute.
  - by exists t'.
Defined.
