(* ===== verification/Double.v ===== *)
(** * The [double] arithmetic the strategy uses

    IEEE 754 binary64 as [SpecFloat] with 53 bits of precision, and the conversions
    between [double] and the integer types as C++ defines them: truncation towards
    zero, undefined when the truncated value does not fit. *)

From stdpp Require Import base list strings.
From Stdlib Require Import ZArith Lia Floats.SpecFloat.
From S2P Require Import Prelude.

Local Open Scope Z_scope.

Abbreviation double := spec_float.

Definition prec : Z := 53.
Definition emax : Z := 1024.

(** [double(z)] of an integer. *)
Definition of_int (z : Z) : double := binary_normalize prec emax z 0 false.

Definition d_add : double -> double -> double := SFadd prec emax.
Definition d_sub : double -> double -> double := SFsub prec emax.
Definition d_mul : double -> double -> double := SFmul prec emax.
Definition d_div : double -> double -> double := SFdiv prec emax.
Definition d_sqrt : double -> double := SFsqrt prec emax.
Definition d_ltb : double -> double -> bool := SFltb.
Definition d_leb : double -> double -> bool := SFleb.

(** Truncation towards zero; infinities and NaN have none. *)
Definition truncate (d : double) : option Z :=
  match d with
  | S754_zero _ => Some 0
  | S754_finite s m e =>
    let a := if 0 <=? e then Z.pos m * 2 ^ e else Z.pos m / 2 ^ (- e) in
    Some (if s then - a else a)
  | _ => None
  end.

(** Conversion to an integer type with the given range. *)
Definition to_int (lo hi : Z) (d : double) : result Z :=
  match truncate d with
  | Some z =>
    if (lo <=? z) && (z <=? hi) then Ok z
    else Err (UndefinedBehaviour "floating-point value out of range of the integer type")
  | None => Err (UndefinedBehaviour "conversion of NaN or infinity to an integer type")
  end.
Definition to_uint32 : double -> result Z := to_int 0 (2 ^ 32 - 1).
Definition to_int32 : double -> result Z := to_int (- 2 ^ 31) (2 ^ 31 - 1).
Definition to_int64 : double -> result Z := to_int (- 2 ^ 63) (2 ^ 63 - 1).

Lemma to_int_range lo hi d z : to_int lo hi d = Ok z -> lo <= z <= hi.
Proof.
  unfold to_int. destruct (truncate d) as [a|]; [|done].
  destruct (_ && _) eqn:E; [|done]. intros [= <-]. zbool. lia.
Qed.
Definition to_uint64 : double -> result Z := to_int 0 (2 ^ 64 - 1).

(** ** Rounding

    How far the product of two positive numbers is rounded up, and that small integers
    are represented exactly. *)

Lemma digits2_pos_bounds p : 2 ^ (Z.pos (digits2_pos p) - 1) <= Z.pos p < 2 ^ Z.pos (digits2_pos p).
Proof.
  induction p as [p IH|p IH|]; cbn [digits2_pos]; [| |by vm_compute].
  all: rewrite Pos2Z.inj_succ; set (d := Z.pos (digits2_pos p)) in *; assert (1 <= d) by lia.
  all: replace (Z.succ d - 1) with (Z.succ (d - 1)) by lia; rewrite !Z.pow_succ_r by lia; lia.
Qed.

(** [digits2_pos] is determined by these bounds. *)
Lemma digits2_pos_le p k : 0 <= k -> Z.pos p < 2 ^ k -> Z.pos (digits2_pos p) <= k.
Proof.
  intros Hk Hp. destruct (digits2_pos_bounds p) as [Hl _].
  destruct (Z.le_gt_cases (Z.pos (digits2_pos p)) k) as [|Hgt]; [done|].
  assert (2 ^ k <= 2 ^ (Z.pos (digits2_pos p) - 1)) by (apply Z.pow_le_mono_r; lia). lia.
Qed.
Lemma digits2_pos_ge p k : 0 <= k -> 2 ^ k <= Z.pos p -> k < Z.pos (digits2_pos p).
Proof.
  intros Hk Hp. destruct (digits2_pos_bounds p) as [_ Hu].
  destruct (Z.lt_ge_cases k (Z.pos (digits2_pos p))) as [|Hge]; [done|].
  assert (2 ^ Z.pos (digits2_pos p) <= 2 ^ k) by (apply Z.pow_le_mono_r; lia). lia.
Qed.

Lemma shr_1_m r : 0 <= shr_m r -> shr_m (shr_1 r) = shr_m r / 2.
Proof.
  destruct r as [[|[p|p|]|p] r s]; cbn [shr_m shr_1]; intros H; try done.
  - apply (Z.div_unique_pos _ 2 (Z.pos p) 1); lia.
  - apply (Z.div_unique_pos _ 2 (Z.pos p) 0); lia.
Qed.

Lemma iter_shr_m n : forall r, 0 <= shr_m r -> shr_m (iter_pos shr_1 n r) = shr_m r / 2 ^ Z.pos n.
Proof.
  assert (Hnn : forall m k, 0 <= m -> 0 <= m / 2 ^ Z.pos k) by (intros; apply Z.div_pos; [done|apply Z.pow_pos_nonneg; lia]).
  assert (Hdd : forall m j k, 0 <= m -> 0 <= j -> 0 <= k -> m / 2 ^ j / 2 ^ k = m / 2 ^ (j + k)).
  { intros m j k Hm Hj Hk. assert (0 < 2 ^ j /\ 0 < 2 ^ k) by (split; apply Z.pow_pos_nonneg; lia).
    rewrite Z.pow_add_r, Z.div_div by lia. done. }
  induction n as [n IH|n IH|]; intros r Hr; cbn [iter_pos].
  - assert (H1 : shr_m (shr_1 r) = shr_m r / 2 ^ Z.pos 1) by (by apply shr_1_m).
    assert (0 <= shr_m (shr_1 r)) by (rewrite H1; by apply Hnn).
    rewrite !IH by (rewrite ?IH by done; auto). rewrite H1, !Hdd by (done || lia). f_equal. f_equal. lia.
  - rewrite !IH by (rewrite ?IH by done; auto). rewrite Hdd by (done || lia). f_equal. f_equal. lia.
  - by apply shr_1_m.
Qed.

Lemma shr_fexp_eq m e l :
  0 <= m -> exists r, shr_fexp prec emax m e l = (r, Z.max e (fexp prec emax (Zdigits2 m + e))) /\
    shr_m r = m / 2 ^ (Z.max e (fexp prec emax (Zdigits2 m + e)) - e) /\
    (fexp prec emax (Zdigits2 m + e) <= e -> r = shr_record_of_loc m l).
Proof.
  intros Hm. unfold shr_fexp, shr. set (k := fexp prec emax (Zdigits2 m + e)).
  assert (Hl : shr_m (shr_record_of_loc m l) = m) by (by destruct l as [|[]]).
  assert (Hle : k <= e -> Z.max e k = e /\ m = m / 2 ^ (Z.max e k - e)).
  { intros Hke. rewrite Z.max_l, Z.sub_diag, Z.div_1_r by done. done. }
  destruct (k - e) as [|n|n] eqn:En.
  1, 3: destruct Hle as [E1 E2]; [lia|]; eexists; split; [f_equal; lia|]; by rewrite Hl.
  eexists. split; [f_equal; lia|]. split; [|lia]. rewrite iter_shr_m by (by rewrite Hl). rewrite Hl, Z.max_r by lia.
  by rewrite En.
Qed.

Lemma round_nearest_even_bounds m l : m <= round_nearest_even m l <= m + 1.
Proof. destruct l as [|[]]; cbn; try lia. destruct (Z.even m); lia. Qed.

Lemma Zdigits2_pos m : 0 < m -> 2 ^ (Zdigits2 m - 1) <= m < 2 ^ Zdigits2 m.
Proof. destruct m as [|p|p]; try lia. intros _. apply digits2_pos_bounds. Qed.
Lemma Zdigits2_le m k : 0 <= k -> 0 <= m < 2 ^ k -> Zdigits2 m <= k.
Proof. intros Hk Hm. destruct m as [|p|p]; cbn [Zdigits2]; [lia|apply digits2_pos_le; lia|lia]. Qed.
Lemma Zdigits2_ge m k : 0 <= k -> 2 ^ k <= m -> k < Zdigits2 m.
Proof.
  intros Hk Hm. assert (0 < 2 ^ k) by (by apply Z.pow_pos_nonneg). destruct m as [|p|p]; [lia|by apply digits2_pos_ge|lia].
Qed.

(** A rounded and truncated number is within two units of the last of 53 digits, and one, of
    the exact value. *)
Lemma round_bounds M E :
  0 < M < 2 ^ 106 -> - 1000 <= E <= - 60 ->
  exists z, truncate (binary_round_aux prec emax false M E loc_Exact) = Some z /\ 0 <= z /\
    z * 2 ^ (- E) <= M + 2 ^ 53 /\ M - 2 ^ 55 < (z + 1) * 2 ^ (- E).
Proof.
  intros HM HE. unfold binary_round_aux.
  assert (Hf : forall x, fexp prec emax x = Z.max (x - 53) (- 1074)) by (intros; reflexivity).
  destruct (shr_fexp_eq M E loc_Exact) as (r1 & -> & Hm1 & _); [lia|]. set (e1 := Z.max E _) in *.
  assert (Hd : 0 < Zdigits2 M <= 106) by (split; [destruct M; cbn; lia|apply Zdigits2_le; lia]).
  assert (He1 : E <= e1 <= E + 53) by (unfold e1; rewrite Hf; lia).
  assert (Hp1 : 0 < 2 ^ (e1 - E) <= 2 ^ 53) by (split; [apply Z.pow_pos_nonneg; lia|apply Z.pow_le_mono_r; lia]).
  assert (Hm1' : 0 <= shr_m r1 /\ shr_m r1 * 2 ^ (e1 - E) <= M < (shr_m r1 + 1) * 2 ^ (e1 - E)).
  { rewrite Hm1. split; [apply Z.div_pos; lia|].
    pose proof (Z.mul_div_le M (2 ^ (e1 - E)) ltac:(lia)). pose proof (Z.mul_succ_div_gt M (2 ^ (e1 - E)) ltac:(lia)). lia. }
  pose proof (round_nearest_even_bounds (shr_m r1) (loc_of_shr_record r1)) as Hm2. set (m2 := round_nearest_even _ _) in *.
  destruct (shr_fexp_eq m2 e1 loc_Exact) as (r2 & -> & Hm3 & _); [lia|]. set (e2 := Z.max e1 _) in *.
  assert (Hm1u : shr_m r1 < 2 ^ 53).
  { rewrite Hm1. destruct (Zdigits2_pos M) as [_ Hu]; [lia|].
    apply Z.div_lt_upper_bound; [lia|]. rewrite <- Z.pow_add_r by lia.
    eapply Z.lt_le_trans; [exact Hu|]. apply Z.pow_le_mono_r; [lia|]. unfold e1. rewrite Hf. lia. }
  assert (Hd2 : Zdigits2 m2 <= 54) by (apply Zdigits2_le; lia).
  assert (He2 : e1 <= e2 <= E + 54) by (unfold e2; rewrite Hf; lia).
  assert (Hp2 : 0 < 2 ^ (e2 - e1)) by (apply Z.pow_pos_nonneg; lia).
  assert (Hpp : 2 ^ (e2 - E) = 2 ^ (e2 - e1) * 2 ^ (e1 - E)) by (rewrite <- Z.pow_add_r by lia; f_equal; lia).
  assert (H54 : 2 ^ (e2 - E) <= 2 ^ 54) by (apply Z.pow_le_mono_r; lia).
  assert (H3 : 0 <= shr_m r2 /\ shr_m r2 * 2 ^ (e2 - E) <= M + 2 ^ 53 /\ M - 2 ^ 55 < shr_m r2 * 2 ^ (e2 - E)).
  { rewrite Hm3. split; [apply Z.div_pos; lia|]. rewrite Hpp in *.
    pose proof (Z.mul_div_le m2 (2 ^ (e2 - e1)) ltac:(lia)). pose proof (Z.mul_succ_div_gt m2 (2 ^ (e2 - e1)) ltac:(lia)).
    set (a := 2 ^ (e2 - e1)) in *. set (b := 2 ^ (e1 - E)) in *. set (q := m2 / a) in *. split; [nia|].
    assert (q * a * b + a * b >= m2 * b) by nia. assert (m2 * b + b > M) by nia. lia. }
  assert (HpE : 0 < 2 ^ (- E)) by (apply Z.pow_pos_nonneg; lia).
  destruct (shr_m r2) as [|p|p]; [exists 0; split; [done|]; split; [done|]; lia| |lia].
  rewrite (proj2 (Z.leb_le e2 _)) by (unfold emax, prec; lia). cbn [truncate].
  rewrite (proj2 (Z.leb_gt 0 e2)) by lia. assert (Hp : 0 < 2 ^ (- e2)) by (apply Z.pow_pos_nonneg; lia).
  eexists. split; [done|]. split; [apply Z.div_pos; lia|].
  replace (- E) with (- e2 + (e2 - E)) by lia. rewrite Z.pow_add_r, !Z.mul_assoc by lia.
  assert (0 < 2 ^ (e2 - E)) by (apply Z.pow_pos_nonneg; lia).
  pose proof (Z.mul_div_le (Z.pos p) (2 ^ (- e2)) ltac:(lia)). pose proof (Z.mul_succ_div_gt (Z.pos p) (2 ^ (- e2)) ltac:(lia)).
  split; nia.
Qed.

Lemma shl_align_ok p e : e <= 0 -> exists q, shl_align p 0 e = (q, e) /\ Z.pos q = Z.pos p * 2 ^ (- e).
Proof.
  intros He. unfold shl_align. destruct (e - 0) as [|n|n] eqn:En; [exists p|lia|eexists].
  - assert (e = 0) as -> by lia. split; [done|]. cbn. lia.
  - split; [f_equal; lia|]. replace (- e) with (Z.pos n) by lia. clear. rewrite Z.mul_comm.
    induction n as [|n IH] using Pos.peano_ind; [done|].
    rewrite Pos.iter_succ, Pos2Z.inj_succ, Z.pow_succ_r by lia.
    change (Z.pos (xO (Pos.iter xO p n))) with (2 * Z.pos (Pos.iter xO p n)). rewrite IH. lia.
Qed.

Lemma of_int_exact z : 0 < z < 2 ^ 53 ->
  exists m, of_int z = S754_finite false m (Zdigits2 z - 53) /\ Z.pos m = z * 2 ^ (53 - Zdigits2 z).
Proof.
  intros Hz. destruct z as [|p|p]; try lia. unfold of_int, binary_normalize, binary_round. cbn [Zdigits2].
  set (d := Z.pos (digits2_pos p)). assert (Hd : 1 <= d <= 53) by (split; [lia|apply digits2_pos_le; lia]).
  assert (Hf : forall x, fexp prec emax x = Z.max (x - 53) (- 1074)) by (intros; reflexivity).
  rewrite Hf. replace (Z.max (d + 0 - 53) (-1074)) with (d - 53) by lia.
  destruct (shl_align_ok p (d - 53)) as (q & -> & Hq); [lia|]. replace (- (d - 53)) with (53 - d) in Hq by lia.
  exists q. split; [|done]. assert (Hdq : Zdigits2 (Z.pos q) = 53).
  { destruct (digits2_pos_bounds p) as [Hl Hu]. fold d in Hl, Hu. assert (0 < 2 ^ (53 - d)) by (apply Z.pow_pos_nonneg; lia).
    assert (2 ^ 52 = 2 ^ (d - 1) * 2 ^ (53 - d)) by (rewrite <- Z.pow_add_r by lia; f_equal; lia).
    assert (2 ^ 53 = 2 ^ d * 2 ^ (53 - d)) by (rewrite <- Z.pow_add_r by lia; f_equal; lia).
    assert (52 < Zdigits2 (Z.pos q)) by (apply Zdigits2_ge; [lia|nia]).
    assert (Zdigits2 (Z.pos q) <= 53) by (apply Zdigits2_le; [lia|nia]). lia. }
  assert (He : fexp prec emax (Zdigits2 (Z.pos q) + (d - 53)) = d - 53) by (rewrite Hf, Hdq; lia).
  unfold binary_round_aux. destruct (shr_fexp_eq (Z.pos q) (d - 53) loc_Exact) as (r1 & -> & _ & H1); [lia|].
  rewrite He in *. rewrite H1, Z.max_id by done. cbn [shr_record_of_loc shr_m loc_of_shr_record round_nearest_even].
  destruct (shr_fexp_eq (Z.pos q) (d - 53) loc_Exact) as (r2 & -> & _ & H2); [lia|].
  rewrite He in *. rewrite H2, Z.max_id by done. cbn [shr_record_of_loc shr_m].
  by rewrite (proj2 (Z.leb_le _ _)) by (unfold emax, prec; lia).
Qed.

(** A small integer times a constant, truncated. *)
Lemma scale_bounds n m e :
  0 < n < 2 ^ 32 -> Z.pos m < 2 ^ 53 -> - 60 <= e <= - 40 ->
  exists z, truncate (d_mul (of_int n) (S754_finite false m e)) = Some z /\ 0 <= z /\ 
    z * 2 ^ (- e) <= n * Z.pos m + 2 ^ 32 /\ n * Z.pos m - 2 ^ 34 < (z + 1) * 2 ^ (- e).
Proof.
  intros Hn Hm He. destruct (of_int_exact n) as (k & -> & Hk); [lia|]. set (d := Zdigits2 n) in *.
  assert (Hd : 0 < d <= 32) by (split; [unfold d; destruct n; cbn; lia|apply Zdigits2_le; lia]).
  unfold d_mul, SFmul. cbn [xorb]. assert (0 < 2 ^ (53 - d)) by (apply Z.pow_pos_nonneg; lia).
  assert (Hk53 : Z.pos k < 2 ^ 53).
  { rewrite Hk. destruct (Zdigits2_pos n) as [_ Hu]; [lia|]. fold d in Hu.
    assert (2 ^ 53 = 2 ^ d * 2 ^ (53 - d)) by (rewrite <- Z.pow_add_r by lia; f_equal; lia). nia. }
  destruct (round_bounds (Z.pos (k * m)) (d - 53 + e)) as (z & -> & Hz & Hu & Hl); [rewrite Pos2Z.inj_mul; nia|lia|].
  exists z. split; [done|]. split; [done|]. rewrite Pos2Z.inj_mul, Hk in Hu, Hl.
  replace (- (d - 53 + e)) with (- e + (53 - d)) in Hu, Hl by lia. rewrite Z.pow_add_r in Hu, Hl by lia.
  assert (2 ^ 53 <= 2 ^ 32 * 2 ^ (53 - d)) by (rewrite <- Z.pow_add_r by lia; apply Z.pow_le_mono_r; lia).
  set (b := 2 ^ (53 - d)) in *. split; nia.
Qed.

(** ** Square roots and quotients *)

(** Dropping the last of 54 digits leaves 53. *)
Lemma normal_quotient M :
  2 ^ 52 <= M < 2 ^ 54 -> 52 < Zdigits2 M <= 54 /\ 2 ^ 52 <= M / 2 ^ (Zdigits2 M - 53) < 2 ^ 53.
Proof.
  intros HM. assert (Hd : 52 < Zdigits2 M <= 54) by (split; [apply Zdigits2_ge; lia|apply Zdigits2_le; lia]).
  split; [done|]. destruct (Zdigits2_pos M) as [Hl Hu]; [lia|].
  destruct (Z.eq_dec (Zdigits2 M) 53) as [E|E].
  - rewrite E in *. change (2 ^ (53 - 53)) with 1. rewrite Z.div_1_r. lia.
  - assert (E4 : Zdigits2 M = 54) by lia. rewrite E4 in *. change (2 ^ (54 - 53)) with 2.
    split; [apply Z.div_le_lower_bound; lia|apply Z.div_lt_upper_bound; lia].
Qed.

(** Rounding a mantissa of 53 or 54 digits gives one of 53. *)
Lemma round_finite M E l :
  2 ^ 52 <= M < 2 ^ 54 -> - 1000 <= E <= 900 ->
  exists m e, binary_round_aux prec emax false M E l = S754_finite false m e /\
    2 ^ 52 <= Z.pos m < 2 ^ 53 /\ E <= e <= E + 2.
Proof.
  intros HM HE. unfold binary_round_aux.
  assert (Hf : forall x, fexp prec emax x = Z.max (x - 53) (- 1074)) by (intros; reflexivity).
  destruct (normal_quotient M HM) as [Hd Hq].
  destruct (shr_fexp_eq M E l) as (r1 & -> & Hm1 & _); [lia|]. set (e1 := Z.max E _) in *.
  assert (He1 : e1 = E + (Zdigits2 M - 53)) by (unfold e1; rewrite Hf; lia).
  replace (e1 - E) with (Zdigits2 M - 53) in Hm1 by lia. rewrite <- Hm1 in Hq.
  pose proof (round_nearest_even_bounds (shr_m r1) (loc_of_shr_record r1)) as Hm2. set (m2 := round_nearest_even _ _) in *.
  destruct (normal_quotient m2 ltac:(lia)) as [Hd2 Hq2].
  destruct (shr_fexp_eq m2 e1 loc_Exact) as (r2 & -> & Hm3 & _); [lia|]. set (e2 := Z.max e1 _) in *.
  assert (He2 : e2 = e1 + (Zdigits2 m2 - 53)) by (unfold e2; rewrite Hf; lia).
  replace (e2 - e1) with (Zdigits2 m2 - 53) in Hm3 by lia. rewrite <- Hm3 in Hq2.
  destruct (shr_m r2) as [|p|p]; [lia| |lia].
  rewrite (proj2 (Z.leb_le e2 _)) by (unfold emax, prec; lia). eexists _, _. split; [done|]. lia.
Qed.

(** An integer as a number of 53 digits. *)
Lemma of_int_normal z : 0 < z < 2 ^ 53 ->
  exists m e, of_int z = S754_finite false m e /\ 2 ^ 52 <= Z.pos m < 2 ^ 53 /\ - 52 <= e <= 0.
Proof.
  intros Hz. destruct (of_int_exact z Hz) as (m & -> & Hm). destruct (Zdigits2_pos z) as [Hl Hu]; [lia|].
  set (d := Zdigits2 z) in *. assert (Hd : 0 < d <= 53) by (split; [unfold d; destruct z; cbn; lia|apply Zdigits2_le; lia]).
  assert (0 < 2 ^ (53 - d)) by (apply Z.pow_pos_nonneg; lia).
  assert (2 ^ 52 = 2 ^ (d - 1) * 2 ^ (53 - d)) by (rewrite <- Z.pow_add_r by lia; f_equal; lia).
  assert (2 ^ 53 = 2 ^ d * 2 ^ (53 - d)) by (rewrite <- Z.pow_add_r by lia; f_equal; lia).
  exists m, (d - 53). split; [done|]. split; [rewrite Hm; nia|lia].
Qed.

Lemma digits_53 m : 2 ^ 52 <= Z.pos m < 2 ^ 53 -> Zdigits2 (Z.pos m) = 53.
Proof.
  intros Hm. assert (52 < Zdigits2 (Z.pos m)) by (apply Zdigits2_ge; lia).
  assert (Zdigits2 (Z.pos m) <= 53) by (apply Zdigits2_le; lia). lia.
Qed.

(** The square root of a positive integer. *)
Lemma sqrt_normal z : 0 < z < 2 ^ 53 ->
  exists m e, d_sqrt (of_int z) = S754_finite false m e /\ 2 ^ 52 <= Z.pos m < 2 ^ 53 /\ - 52 <= e <= 0.
Proof.
  intros Hz. destruct (of_int_normal z Hz) as (m & e & -> & Hm & He).
  unfold d_sqrt, SFsqrt, SFsqrt_core_binary. rewrite digits_53 by done.
  assert (Hf : forall x, fexp prec emax x = Z.max (x - 53) (- 1074)) by (intros; reflexivity).
  rewrite Hf, !Z.div2_div. set (h := e / 2).
  assert (Hh : e = 2 * h \/ e = 2 * h + 1) by (unfold h; pose proof (Z.div_mod e 2); pose proof (Z.mod_pos_bound e 2); lia).
  assert (Hh1 : (53 + e + 1) / 2 = 27 + h)
    by (replace (53 + e + 1) with (e + 27 * 2) by lia; rewrite Z.div_add by lia; unfold h; lia).
  rewrite Hh1. replace (Z.min (Z.max (27 + h - 53) (-1074)) h) with (h - 26) by lia.
  set (s := e - 2 * (h - 26)). assert (Hs : 52 <= s <= 53) by (unfold s; lia).
  assert (Hm' : match s with 0 => Z.pos m | Z.pos _ => Z.shiftl (Z.pos m) s | Z.neg _ => 0 end = Z.pos m * 2 ^ s).
  { destruct s as [|p|p]; [lia| |lia]. apply Z.shiftl_mul_pow2. lia. }
  rewrite Hm'. assert (H52 : 2 ^ 52 <= 2 ^ s <= 2 ^ 53) by (split; apply Z.pow_le_mono_r; lia).
  pose proof (Z.sqrtrem_spec (Z.pos m * 2 ^ s) ltac:(nia)) as Hq. destruct (Z.sqrtrem _) as [q r].
  assert (Hq' : 2 ^ 52 <= q < 2 ^ 53) by nia.
  destruct (round_finite q (h - 26) (if r =? 0 then loc_Exact else loc_Inexact (if r <=? q then Lt else Gt)))
    as (m2 & e2 & -> & Hm2 & He2); [lia|lia|]. exists m2, e2. split; [done|]. lia.
Qed.

(** A quotient by such a number is finite, and below 2^56. *)
Lemma div_sqrt_truncates i z :
  0 <= i < 2 ^ 53 -> 0 < z < 2 ^ 53 -> exists n, to_int64 (d_div (of_int i) (d_sqrt (of_int z))) = Ok n /\ 0 <= n.
Proof.
  intros Hi Hz. destruct (sqrt_normal z Hz) as (m2 & e2 & -> & Hm2 & He2).
  destruct (Z.eq_dec i 0) as [->|Hi0]; [by exists 0|].
  destruct (of_int_normal i ltac:(lia)) as (m1 & e1 & -> & Hm1 & He1).
  unfold d_div, SFdiv, SFdiv_core_binary. rewrite !digits_53 by done.
  assert (Hf : forall x, fexp prec emax x = Z.max (x - 53) (- 1074)) by (intros; reflexivity).
  rewrite Hf. replace (Z.min (Z.max (53 + e1 - (53 + e2) - 53) (-1074)) (e1 - e2)) with (e1 - e2 - 53) by lia.
  replace (e1 - e2 - (e1 - e2 - 53)) with 53 by lia. cbn [xorb].
  rewrite Z.shiftl_mul_pow2 by lia. pose proof (Z.div_eucl_eq (Z.pos m1 * 2 ^ 53) (Z.pos m2)) as Hq.
  pose proof (Z.mod_pos_bound (Z.pos m1 * 2 ^ 53) (Z.pos m2) ltac:(lia)) as Hr.
  unfold Z.modulo in Hr. destruct (Z.div_eucl _ _) as [q r].
  destruct (round_finite q (e1 - e2 - 53) (new_location (Z.pos m2) r)) as (m & e & -> & Hm & He); [nia|lia|].
  unfold to_int64, to_int. cbn [truncate].
  assert (Ha : 0 <= (if 0 <=? e then Z.pos m * 2 ^ e else Z.pos m / 2 ^ (- e)) < 2 ^ 56).
  { destruct (Z.leb_spec 0 e).
    - assert (0 < 2 ^ e <= 2 ^ 1) by (split; [by apply Z.pow_pos_nonneg|apply Z.pow_le_mono_r; lia]). nia.
    - assert (0 < 2 ^ (- e)) by (apply Z.pow_pos_nonneg; lia). split; [apply Z.div_pos; lia|].
      apply Z.div_lt_upper_bound; nia. }
  rewrite (proj2 (Z.leb_le _ _)), (proj2 (Z.leb_le _ _)) by lia. eexists. split; [done|]. lia.
Qed.
