(* ===== verification/ValLinkService.v ===== *)
(** * The link service of VAL (model/val/face/val-link-service.cpp, val-link-service.hpp)

    [ValLinkService] sends VAL packets as NDNLPv2 packets, in fragments if they do not fit
    in the MTU, and turns what the transport receives into VAL packets.  Sending yields
    the blocks handed to the transport; receiving yields the VAL packet handed to the VAL
    forwarder.  The transport is described by what the code asks of it. *)

From stdpp Require Import base list strings sorting gmap.
From Stdlib Require Import Strings.Byte ZArith Lia.
From S2P Require Import Prelude Tlv Encoder Block Codec Ndn NameTlv Signature Exclude Selectors Data Interest ValHeader ValPacket LpPacket LpFragmenter.
From S2P Require Import Scheduler LpReassembler Double.

Local Open Scope Z_scope.

(** ** State *)

Record Options := mkOptions {
  allowLocalFields : bool;
  allowFragmentation : bool;
  nMaxFragments : Z;              (* fragmenterOptions *)
  allowReassembly : bool;
  reassembler_nMaxFragments : Z;  (* reassemblerOptions *)
  reassembler_timeout : Z;
  allowCongestionMarking : bool;
  baseCongestionMarkingInterval : Z;  (* nanoseconds *)
  defaultCongestionThreshold : Z;
  allowSelfLearning : bool;
}.
(** The defaults of the source, of lp-fragmenter.hpp and of lp-reassembler.hpp. *)
Definition Options_default : Options :=
  mkOptions false false 400 false 400 500000000 false 100000000 65536 true.

(** The counters the code changes.  [nAcknowledged], [nRetransmitted], [nRetxExhausted] and
    [nOutValPkt] are declared but never incremented; [nReassembling] is [re_size]. *)
Record Counters := mkCounters {
  nFragmentationErrors : Z;
  nOutOverMtu : Z;
  nInLpInvalid : Z;
  nReassemblyTimeouts : Z;
  nInNetInvalid : Z;
  nCongestionMarked : Z;
  nInValPkt : Z;
}.
Definition Counters_new : Counters := mkCounters 0 0 0 0 0 0 0.

Record ValLinkService := mkValLinkService {
  m_options : Options;
  m_reassembler : LpReassembler;
  m_lastSeqNo : Z;
  m_nextMarkTime : Z;
  m_lastMarkTime : Z;
  m_nMarkedSinceInMarkingState : Z;
  counters : Counters;
}.

(** [time::steady_clock::TimePoint::max()] and [min()], in nanoseconds of 64 bits. *)
Definition TimePoint_max : Z := 2 ^ 63 - 1.
Definition TimePoint_min : Z := - 2 ^ 63.

Definition ValLinkService_new (options : Options) : ValLinkService :=
  mkValLinkService options
    (LpReassembler_new (reassembler_nMaxFragments options) (reassembler_timeout options)) (u64 (-2))
    TimePoint_max TimePoint_min 0 Counters_new.

Definition setOptions (options : Options) (s : ValLinkService) : ValLinkService :=
  mkValLinkService options
    (re_setOptions (reassembler_nMaxFragments options) (reassembler_timeout options) (m_reassembler s))
    (m_lastSeqNo s) (m_nextMarkTime s) (m_lastMarkTime s) (m_nMarkedSinceInMarkingState s) (counters s).

Definition with_counters (f : Counters -> Counters) (s : ValLinkService) : ValLinkService :=
  mkValLinkService (m_options s) (m_reassembler s) (m_lastSeqNo s) (m_nextMarkTime s)
    (m_lastMarkTime s) (m_nMarkedSinceInMarkingState s) (f (counters s)).
Definition with_reassembler (r : LpReassembler) (s : ValLinkService) : ValLinkService :=
  mkValLinkService (m_options s) r (m_lastSeqNo s) (m_nextMarkTime s)
    (m_lastMarkTime s) (m_nMarkedSinceInMarkingState s) (counters s).
Definition with_marking (next last marked : Z) (s : ValLinkService) : ValLinkService :=
  mkValLinkService (m_options s) (m_reassembler s) (m_lastSeqNo s) next last marked (counters s).
Definition with_seqNo (n : Z) (s : ValLinkService) : ValLinkService :=
  mkValLinkService (m_options s) (m_reassembler s) n (m_nextMarkTime s)
    (m_lastMarkTime s) (m_nMarkedSinceInMarkingState s) (counters s).

(** The increments of the counters. *)
Definition incr_fragmentationErrors (c : Counters) : Counters :=
  mkCounters (nFragmentationErrors c + 1) (nOutOverMtu c) (nInLpInvalid c) (nReassemblyTimeouts c)
    (nInNetInvalid c) (nCongestionMarked c) (nInValPkt c).
Definition incr_outOverMtu (c : Counters) : Counters :=
  mkCounters (nFragmentationErrors c) (nOutOverMtu c + 1) (nInLpInvalid c) (nReassemblyTimeouts c)
    (nInNetInvalid c) (nCongestionMarked c) (nInValPkt c).
Definition incr_inLpInvalid (c : Counters) : Counters :=
  mkCounters (nFragmentationErrors c) (nOutOverMtu c) (nInLpInvalid c + 1) (nReassemblyTimeouts c)
    (nInNetInvalid c) (nCongestionMarked c) (nInValPkt c).
Definition incr_reassemblyTimeouts (c : Counters) : Counters :=
  mkCounters (nFragmentationErrors c) (nOutOverMtu c) (nInLpInvalid c) (nReassemblyTimeouts c + 1)
    (nInNetInvalid c) (nCongestionMarked c) (nInValPkt c).
Definition incr_inNetInvalid (c : Counters) : Counters :=
  mkCounters (nFragmentationErrors c) (nOutOverMtu c) (nInLpInvalid c) (nReassemblyTimeouts c)
    (nInNetInvalid c + 1) (nCongestionMarked c) (nInValPkt c).
Definition incr_congestionMarked (c : Counters) : Counters :=
  mkCounters (nFragmentationErrors c) (nOutOverMtu c) (nInLpInvalid c) (nReassemblyTimeouts c)
    (nInNetInvalid c) (nCongestionMarked c + 1) (nInValPkt c).
Definition incr_inValPkt (c : Counters) : Counters :=
  mkCounters (nFragmentationErrors c) (nOutOverMtu c) (nInLpInvalid c) (nReassemblyTimeouts c)
    (nInNetInvalid c) (nCongestionMarked c) (nInValPkt c + 1).

(** ** Sending *)

Definition MTU_UNLIMITED : Z := -1.
Definition CONGESTION_MARK_SIZE : Z := 3 + 1 + 8.
Definition DEFAULT_CONGESTION_THRESHOLD_DIVISOR : Z := 2.

(** What the code asks of the transport: the MTU, and the length and the capacity of the
    send queue, negative if the transport does not know them. *)
Record transport := mkTransport {
  getMtu : Z;
  getSendQueueLength : Z;
  getSendQueueCapacity : Z;
}.

(** [checkCongestionLevel]: CoDel marking. *)
Definition checkCongestionLevel (now : Z) (t : transport) (pkt : Packet) (s : ValLinkService)
  : result (Packet * ValLinkService) :=
  let sendQueueLength := getSendQueueLength t in
  if sendQueueLength <? 0 then Ok (pkt, s)
  else
    let threshold := defaultCongestionThreshold (m_options s) in
    let congestionThreshold :=
      if 0 <=? getSendQueueCapacity t
      then Z.min threshold (getSendQueueCapacity t / DEFAULT_CONGESTION_THRESHOLD_DIVISOR)
      else threshold in
    if sendQueueLength >? congestionThreshold then
      let interval := baseCongestionMarkingInterval (m_options s) in
      if (m_nextMarkTime s <=? now) || (m_lastMarkTime s + interval <=? now) then
        let next := if m_nMarkedSinceInMarkingState s =? 0 then now else m_nextMarkTime s in
        let* pkt := pkt_set CongestionMarkField 1 pkt in
        let marked := m_nMarkedSinceInMarkingState s + 1 in
        let* step := to_int64 (d_div (of_int interval) (d_sqrt (of_int marked))) in
        Ok (pkt, with_marking (next + step) now marked (with_counters incr_congestionMarked s))
      else Ok (pkt, s)
    else if negb (m_nextMarkTime s =? TimePoint_max)
    then Ok (pkt, with_marking TimePoint_max (m_lastMarkTime s) 0 s)
    else Ok (pkt, s).

(** [sendLpPacket]: the block handed to the transport, if it fits. *)
Definition sendLpPacket (now : Z) (t : transport) (pkt : Packet) (s : ValLinkService)
  : result (ValLinkService * list Block) :=
  let* (pkt, s) := if allowCongestionMarking (m_options s)
                   then checkCongestionLevel now t pkt s else Ok (pkt, s) in
  let* (tp, _, _) := pkt_wireEncode pkt in
  if negb (getMtu t =? MTU_UNLIMITED) && (block_size tp >? getMtu t)
  then Ok (with_counters incr_outOverMtu s, [])
  else Ok (s, [tp]).

(** The loop that sends the fragments; [ts] is the transport at each of them. *)
Fixpoint sendLpPackets (now : Z) (ts : nat -> transport) (k : nat) (frags : list Packet)
    (s : ValLinkService) : result (ValLinkService * list Block) :=
  match frags with
  | [] => Ok (s, [])
  | frag :: frags' =>
    let* (s, out) := sendLpPacket now (ts k) frag s in
    let* (s, outs) := sendLpPackets now ts (S k) frags' s in
    Ok (s, out ++ outs)
  end.

(** [encodeLpFields]: the fields of the tags; the hop count is always there. *)
Definition encodeLpFields `{NetworkPackets} (o : Options) (tags : Tags) (p : Packet) : result Packet :=
  let* p := match tag_incomingFaceId tags with
            | Some v => if allowLocalFields o then pkt_add IncomingFaceIdField v p else Ok p
            | None => Ok p
            end in
  let* p := match tag_congestionMark tags with
            | Some v => pkt_add CongestionMarkField v p
            | None => Ok p
            end in
  let* p := if allowSelfLearning o && tag_nonDiscovery tags
            then pkt_add NonDiscoveryField tt p else Ok p in
  let* p := match tag_prefixAnnouncement tags with
            | Some v => if allowSelfLearning o then pkt_add PrefixAnnouncementField v p else Ok p
            | None => Ok p
            end in
  match tag_hopCount tags with
  | Some v => pkt_add HopCountTagField v p
  | None => pkt_add HopCountTagField 0 p
  end.

(** [assignSequence], [assignSequences] *)
Definition assignSequence (pkt : Packet) (s : ValLinkService) : result (Packet * ValLinkService) :=
  let s := with_seqNo (u64 (m_lastSeqNo s + 1)) s in
  let* pkt := pkt_set SequenceField (m_lastSeqNo s) pkt in
  Ok (pkt, s).
Fixpoint assignSequences (pkts : list Packet) (s : ValLinkService)
  : result (list Packet * ValLinkService) :=
  match pkts with
  | [] => Ok ([], s)
  | pkt :: pkts' =>
    let* (pkt, s) := assignSequence pkt s in
    let* (pkts', s) := assignSequences pkts' s in
    Ok (pkt :: pkts', s)
  end.

(** [sendValPacket(lp::Packet&&)] *)
Definition link_sendValPacket (now : Z) (ts : nat -> transport) (pkt : Packet) (s : ValLinkService)
  : result (ValLinkService * list Block) :=
  let o := m_options s in
  let mtu := getMtu (ts 0%nat) in
  let mtu := if allowCongestionMarking o && negb (mtu =? MTU_UNLIMITED)
             then mtu - CONGESTION_MARK_SIZE else mtu in
  assert! (mtu =? MTU_UNLIMITED) || (0 <? mtu) orelse "mtu == MTU_UNLIMITED || mtu > 0";
  let* (isOk, frags) := if allowFragmentation o && negb (mtu =? MTU_UNLIMITED)
                        then fragmentPacket (nMaxFragments o) pkt mtu else Ok (true, [pkt]) in
  if negb isOk then Ok (with_counters incr_fragmentationErrors s, [])
  else
    assert! negb (Nat.eqb (length frags) 1) ||
      negb (existsb (fun f => pkt_has FragIndexField f || pkt_has FragCountField f) frags)
      orelse "a packet that is not fragmented has no fragmentation fields";
    let* (frags, s) := if Nat.ltb 1 (length frags) then assignSequences frags s else Ok (frags, s) in
    sendLpPackets now ts 0 frags s.

(** [doSendValPacket] *)
Definition doSendValPacket `{NetworkPackets} (now : Z) (ts : nat -> transport) (valPacket : ValPacket)
    (s : ValLinkService) : result (ValLinkService * list Block) :=
  if isSet valPacket =? INTEREST_SET then
    let* interest := getInterest valPacket in
    let* (wire, interest) := Interest_wireEncode interest in
    let* lpPacket := pkt_wireDecode wire in
    let* lpPacket := encodeLpFields (m_options s) (i_tags interest) lpPacket in
    let* lpPacket := pkt_add ValHeaderField (getValHeader valPacket) lpPacket in
    link_sendValPacket now ts lpPacket s
  else if isSet valPacket =? DATA_SET then
    let* data := getData valPacket in
    let* (wire, data) := Data_wireEncode data in
    let* lpPacket := pkt_wireDecode wire in
    let* lpPacket := encodeLpFields (m_options s) (d_tags data) lpPacket in
    let* lpPacket := pkt_add ValHeaderField (getValHeader valPacket) lpPacket in
    link_sendValPacket now ts lpPacket s
  else Ok (s, []).

(** ** Receiving *)

Section receive.
Context `{NetworkPackets}.

(** A packet decoded from its block, a null pointer when it is to be dropped, with the
    counters; an exception leaves the counters as they are. *)
Definition dropped {A} (count : bool) (c : Counters) : result (option A * Counters) :=
  Ok (None, if count then incr_inNetInvalid c else c).

(** [decodeInterest] *)
Definition decodeInterest (o : Options) (netPkt : Block) (firstPkt : Packet) (c : Counters)
  : result (option Interest * Counters) :=
  assert! block_type netPkt =? tlv_Interest orelse "netPkt.type() == tlv::Interest";
  assert! negb (pkt_has NackField firstPkt) orelse "!firstPkt.has<lp::NackField>()";
  let* i := Interest_ofBlock netPkt in
  let* i := if pkt_has HopCountTagField firstPkt
            then let* n := pkt_get HopCountTagField 0 firstPkt in
                 Ok (interest_setTag (set_hopCount (Some (u64 (n + 1)))) i)
            else Ok i in
  if pkt_has NextHopFaceIdField firstPkt && negb (allowLocalFields o) then dropped false c
  else
    let* i := if pkt_has NextHopFaceIdField firstPkt
              then let* v := pkt_get NextHopFaceIdField 0 firstPkt in
                   Ok (interest_setTag (set_nextHopFaceId (Some v)) i)
              else Ok i in
    if pkt_has CachePolicyField firstPkt then dropped true c
    else
      let* i := if pkt_has CongestionMarkField firstPkt
                then let* v := pkt_get CongestionMarkField 0 firstPkt in
                     Ok (interest_setTag (set_congestionMark (Some v)) i)
                else Ok i in
      let* i := if pkt_has NonDiscoveryField firstPkt && allowSelfLearning o
                then let* _ := pkt_get NonDiscoveryField 0 firstPkt in
                     Ok (interest_setTag set_nonDiscovery i)
                else Ok i in
      if pkt_has PrefixAnnouncementField firstPkt then dropped true c
      else Ok (Some i, c).

(** [decodeData] *)
Definition decodeData (o : Options) (netPkt : Block) (firstPkt : Packet) (c : Counters)
  : result (option Data * Counters) :=
  assert! block_type netPkt =? tlv_Data orelse "netPkt.type() == tlv::Data";
  let* d := Data_ofBlock netPkt in
  let* d := if pkt_has HopCountTagField firstPkt
            then let* n := pkt_get HopCountTagField 0 firstPkt in
                 Ok (data_setTag (set_hopCount (Some (u64 (n + 1)))) d)
            else Ok d in
  if pkt_has NackField firstPkt then dropped true c
  else if pkt_has NextHopFaceIdField firstPkt then dropped true c
  else
    let* d := if pkt_has CachePolicyField firstPkt
              then let* v := pkt_get CachePolicyField 0 firstPkt in
                   Ok (data_setTag (set_cachePolicy (Some v)) d)
              else Ok d in
    let* d := if pkt_has CongestionMarkField firstPkt
              then let* v := pkt_get CongestionMarkField 0 firstPkt in
                   Ok (data_setTag (set_congestionMark (Some v)) d)
              else Ok d in
    if pkt_has NonDiscoveryField firstPkt then dropped true c
    else
      let* d := if pkt_has PrefixAnnouncementField firstPkt && allowSelfLearning o
                then let* v := pkt_get PrefixAnnouncementField 0 firstPkt in
                     Ok (data_setTag (set_prefixAnnouncement (Some v)) d)
                else Ok d in
      Ok (Some d, c).

(** The part of [doReceivePacket] after reassembly: the first VAL header among the header
    fields makes the VAL packet; [hopC0] is the indeterminate hop count of the header
    object before it is decoded. *)
Definition makeValPacket (o : Options) (hopC0 : Z) (netPkt : Block) (firstPkt : Packet) (c : Counters)
  : result (option ValPacket * Counters) :=
  let* (_, elements, firstPkt) := pkt_wireEncode firstPkt in
  match find_first (fun b => block_type b =? lp_num TlvValHeader) elements with
  | None => Ok (None, c)
  | Some block =>
    let* valH := ValHeader_ofBlock hopC0 block in
    let valPkt := ValPacket_new valH in
    let* (valPkt, c) :=
      if block_type netPkt =? tlv_Interest then
        let* (i, c) := decodeInterest o netPkt firstPkt c in Ok (setInterest i valPkt, c)
      else if block_type netPkt =? tlv_Data then
        let* (d, c) := decodeData o netPkt firstPkt c in Ok (setData d valPkt, c)
      else Ok (valPkt, c) in
    Ok (Some valPkt, incr_inValPkt c)
  end.

(** The [catch] clause: [tlv::Error]s are counted, everything else is passed on. *)
Definition catch_tlv {A} (s : ValLinkService) (r : result (A * ValLinkService)) (none : A)
  : ValLinkService * result A :=
  match r with
  | Ok (a, s') => (s', Ok a)
  | Err (TlvError _) => (with_counters incr_inLpInvalid s, Ok none)
  | Err e => (s, Err e)
  end.

(** [doReceivePacket]: the VAL packet given to [receiveValPacket], if any; what the VAL
    forwarder does with it is the subject of its own file. *)
Definition doReceivePacket (now remoteEndpoint hopC0 : Z) (packet : Block) (s : ValLinkService)
  : ValLinkService * result (option ValPacket) :=
  let o := m_options s in
  match pkt_wireDecode packet with
  | Err e => catch_tlv s (Err e) None
  | Ok pkt =>
    if negb (pkt_has FragmentField pkt) then (s, Ok None)
    else if (pkt_has FragIndexField pkt || pkt_has FragCountField pkt) && negb (allowReassembly o)
    then (s, Ok None)
    else
      let '(re, r) := receiveFragment now remoteEndpoint pkt (m_reassembler s) in
      let s := with_reassembler re s in
      match r with
      | Err e => catch_tlv s (Err e) None
      | Ok None => (s, Ok None)
      | Ok (Some (netPkt, firstPkt)) =>
        catch_tlv s (let* (v, c) := makeValPacket o hopC0 netPkt firstPkt (counters s) in
                     Ok (v, with_counters (fun _ => c) s)) None
      end
  end.

(** A reassembly timer expires: [beforeTimeout] counts. *)
Definition reassemblyTimeout (now : Z) (s : ValLinkService) : ValLinkService :=
  match fireDropTimer now (m_reassembler s) with
  | None => s
  | Some (re, signal) =>
    let s := with_reassembler re s in
    match signal with Some _ => with_counters incr_reassemblyTimeouts s | None => s end
  end.
End receive.

(** ** The packet that is sent *)

(** [p] is well formed and its fields are those of [F], by TLV-TYPE. *)
Definition holds_fields (p : Packet) (F : Z -> list Block) : Prop :=
  pkt_wf p /\ forall g, List.filter (is_field g) (pk_elements p) = F (TlvType g).

Definition put (t : Z) (b : Block) (F : Z -> list Block) : Z -> list Block :=
  fun t' => if t' =? t then [b] else F t'.

Lemma holds_add f `{FieldLaws f V} v p F :
  holds_fields p F -> F (TlvType f) = [] -> field_valid f v ->
  exists p', pkt_add f v p = Ok p' /\
    holds_fields p' (put (TlvType f) (element (TlvType f) (field_value f v)) F).
Proof.
  intros [Hp HF] Hn Hv.
  assert (Hh : pkt_has f p = false) by (unfold pkt_has, pkt_count; by rewrite HF, Hn).
  eexists. split; [by apply pkt_add_ok; auto|]. split; [by apply pkt_wf_insert; auto|].
  intros g. cbn [pk_elements]. rewrite filter_added, HF by done. unfold put.
  rewrite (Z.eqb_sym (TlvType g)). destruct (Z.eqb_spec (TlvType f) (TlvType g)) as [<-|E];
    [by rewrite Hn|by rewrite app_nil_r].
Qed.

(** A field that is added if [ov] has a value. *)
Definition put_opt (t : Z) (ob : option Block) (F : Z -> list Block) : Z -> list Block :=
  match ob with Some b => put t b F | None => F end.

Lemma holds_add_opt f `{FieldLaws f V} (ov : option V) p F :
  holds_fields p F -> F (TlvType f) = [] -> (forall v, ov = Some v -> field_valid f v) ->
  exists p', match ov with Some v => pkt_add f v p | None => Ok p end = Ok p' /\
    holds_fields p' (put_opt (TlvType f)
      ((fun v => element (TlvType f) (field_value f v)) <$> ov) F).
Proof.
  intros Hp Hn Hv. destruct ov as [v|]; [|by exists p]. cbn. by apply holds_add; auto.
Qed.

(** The tags that fit in the fields, without a prefix announcement. *)
Definition tags_ok (t : Tags) : Prop :=
  (forall v, tag_incomingFaceId t = Some v -> is_u64 v) /\
  (forall v, tag_congestionMark t = Some v -> is_u64 v) /\
  (forall v, tag_hopCount t = Some v -> is_u64 v) /\
  tag_prefixAnnouncement t = None.

Definition nni_element (f : FieldDecl) (v : Z) : Block := element (TlvType f) (nonneg_integer v).
Definition hops (t : Tags) : Z := default 0 (tag_hopCount t).

(** The fields of the packet made from a network packet with its tags and a VAL header. *)
Definition sent_fields (o : Options) (t : Tags) (h : ValHeader) (netPkt : octets) : Z -> list Block :=
  put (lp_num TlvValHeader) (element (lp_num TlvValHeader) (tlvs (header_elements h))) $
  put (lp_num HopCountTag) (element (lp_num HopCountTag) (be_bytes 8 (hops t))) $
  put_opt (lp_num NonDiscovery)
    (if allowSelfLearning o && tag_nonDiscovery t
     then Some (element (lp_num NonDiscovery) []) else None) $
  put_opt (lp_num CongestionMark) (nni_element CongestionMarkField <$> tag_congestionMark t) $
  put_opt (lp_num IncomingFaceId)
    (if allowLocalFields o then nni_element IncomingFaceIdField <$> tag_incomingFaceId t else None) $
  put (lp_num Fragment) (element (lp_num Fragment) netPkt) (fun _ => []).

Lemma put_ne t b F t' : t' <> t -> put t b F t' = F t'.
Proof. intros Hn. unfold put. by rewrite (proj2 (Z.eqb_neq _ _) Hn). Qed.
Lemma put_opt_ne t b F t' : t' <> t -> put_opt t b F t' = F t'.
Proof. intros Hn. destruct b; [by apply put_ne|done]. Qed.

Ltac put_simpl := repeat first
  [rewrite put_ne by (cbn; discriminate)|rewrite put_opt_ne by (cbn; discriminate)]; try done.

Lemma build_packet `{NetworkPackets} o t h type value :
  tags_ok t -> header_ok h -> type = tlv_Interest \/ type = tlv_Data ->
  zlen (tlv type value) < 2 ^ 32 ->
  exists p0 p1 p, pkt_wireDecode (element type value) = Ok p0 /\ encodeLpFields o t p0 = Ok p1 /\
    pkt_add ValHeaderField h p1 = Ok p /\ holds_fields p (sent_fields o t h (tlv type value)).
Proof.
  intros (Ti & Tc & Th & Tp) Hh Ht Hl.
  set (p0 := mkPacket None [element (lp_num Fragment) (tlv type value)]).
  assert (Hn : tlv type value <> []) by (pose proof (tlv_nonempty type value []) as E; by rewrite app_nil_r in E).
  assert (H0 : holds_fields p0 (put (lp_num Fragment) (element (lp_num Fragment) (tlv type value)) (fun _ => []))).
  { destruct (holds_add FragmentField (tlv type value) Packet_new (fun _ => [])) as (p' & E & Hp');
      [split; [apply pkt_wf_new|done]|done|done|].
    rewrite pkt_add_ok in E by (done || by right). by injection E as <-. }
  destruct (holds_add_opt IncomingFaceIdField
    (if allowLocalFields o then tag_incomingFaceId t else None) p0 _ H0) as (pa & Ea & Ha); [done|
    intros v Hv; destruct (allowLocalFields o); [by apply Ti|done]|].
  destruct (holds_add_opt CongestionMarkField (tag_congestionMark t) pa _ Ha) as (pb & Eb & Hb);
    [put_simpl|done|].
  destruct (holds_add_opt NonDiscoveryField
    (if allowSelfLearning o && tag_nonDiscovery t then Some tt else None) pb _ Hb) as (pc & Ec & Hc);
    [put_simpl|done|].
  destruct (holds_add HopCountTagField (hops t) pc _ Hc) as (pd & Ed & Hd); [put_simpl| |].
  { unfold hops. destruct (tag_hopCount t) as [v|] eqn:E; [by apply Th|by split]. }
  destruct (holds_add ValHeaderField h pd _ Hd) as (p & Ep & Hp); [put_simpl|done|].
  exists p0, pd, p. split; [by apply pkt_wireDecode_bare|]. split.
  - unfold encodeLpFields. rewrite Tp.
    replace (match tag_incomingFaceId t with
             | Some v => if allowLocalFields o then pkt_add IncomingFaceIdField v p0 else Ok p0
             | None => Ok p0 end) with (Ok pa)
      by (rewrite <- Ea; destruct (allowLocalFields o), (tag_incomingFaceId t); done).
    cbn [mbind result_bind]. rewrite Eb. cbn [mbind result_bind].
    replace (if allowSelfLearning o && tag_nonDiscovery t then pkt_add NonDiscoveryField tt pb else Ok pb)
      with (Ok pc) by (rewrite <- Ec; by destruct (allowSelfLearning o && tag_nonDiscovery t)).
    cbn [mbind result_bind]. unfold hops in Ed. by destruct (tag_hopCount t).
  - split; [done|]. unfold sent_fields.
    destruct (allowLocalFields o), (allowSelfLearning o && tag_nonDiscovery t); exact Hp.
Qed.

(** ** What is handed to the transport *)

Lemma holds_not_bare p F t b : holds_fields p F -> t <> lp_num Fragment -> F t = [b] -> is_bare p = false.
Proof.
  intros [_ HF] Hn Hb. unfold is_bare. destruct (pk_elements p) as [|x [|y l]] eqn:E; [done| |done].
  specialize (HF (mkFieldDecl Header t false)). cbn [TlvType] in HF. rewrite Hb in HF.
  unfold is_field in *. cbn [List.filter TlvType FragmentField] in *.
  destruct (Z.eqb_spec (block_type x) t) as [E'|E']; [|done]. rewrite E'. by apply Z.eqb_neq.
Qed.

(** The packet with a sequence number. *)
Record sequenced (v : Z) (fr fr' : Packet) : Prop := {
  sq_wf : pkt_wf fr';
  sq_fields : forall g, List.filter (is_field g) (pk_elements fr') =
    if TlvType g =? lp_num Sequence then [element (lp_num Sequence) (be_bytes 8 v)]
    else List.filter (is_field g) (pk_elements fr);
  sq_size : els_size (pk_elements fr') <= els_size (pk_elements fr) + 10;
}.

(** Setting a field replaces the field, and adds at most its new size. *)
Lemma set_field f `{FieldLaws f V} v fr :
  pkt_wf fr -> field_valid f v ->
  exists fr', pkt_set f v fr = Ok fr' /\ pkt_wf fr' /\
    (forall g, List.filter (is_field g) (pk_elements fr') =
       if TlvType g =? TlvType f then [element (TlvType f) (field_value f v)]
       else List.filter (is_field g) (pk_elements fr)) /\
    els_size (pk_elements fr') <= els_size (pk_elements fr) + zlen (tlv (TlvType f) (field_value f v)).
Proof.
  intros Hw Hv. pose proof (pkt_wf_clear f fr Hw) as Hw'. eexists. split.
  { unfold pkt_set. apply pkt_add_ok; [done|right; apply pkt_has_clear]. }
  split; [apply pkt_wf_insert; [done|right; apply pkt_has_clear|done]|]. split.
  - intros g. cbn [pk_elements]. rewrite filter_added by done.
    cbn [pkt_clear pk_elements]. rewrite filter_remove.
    rewrite (Z.eqb_sym (TlvType g)). case_match; [done|apply app_nil_r].
  - cbn [pk_elements]. rewrite els_size_insert. cbn [block_type block_value element pkt_clear pk_elements].
    pose proof (els_size_split (TlvType f) (pk_elements fr)).
    pose proof (zlen_nonneg (tlvs (map type_value (List.filter (fun b => block_type b =? TlvType f)
      (pk_elements fr))))). unfold els_size in *. lia.
Qed.

Lemma set_sequence v fr :
  pkt_wf fr -> is_u64 v -> exists fr', pkt_set SequenceField v fr = Ok fr' /\ sequenced v fr fr'.
Proof.
  intros Hw Hv. destruct (set_field SequenceField v fr Hw) as (fr' & E & Hw' & Hf & Hs); [exact Hv|].
  exists fr'. split; [done|]. split; [done|done|].
  assert (zlen (tlv (TlvType SequenceField) (be_bytes 8 v)) <= 10)
    by (apply small_field_size; [by split|rewrite zlen_be_bytes; lia]).
  cbn [field_value Sequence_laws u64_laws] in Hs. lia.
Qed.

Lemma assignSequences_ok frags s :
  Forall pkt_wf frags -> is_u64 (m_lastSeqNo s) ->
  exists frags' last, assignSequences frags s = Ok (frags', with_seqNo last s) /\ is_u64 last /\
    length frags' = length frags /\
    forall i fr, frags !! i = Some fr -> exists fr', frags' !! i = Some fr' /\
      sequenced (u64 (m_lastSeqNo s + 1 + Z.of_nat i)) fr fr'.
Proof.
  intros Hw. revert s. induction Hw as [|fr frags Hfr _ IH]; intros s Hs.
  - exists [], (m_lastSeqNo s). split; [by destruct s|]. by split.
  - cbn [assignSequences]. unfold assignSequence at 1. cbn [m_lastSeqNo with_seqNo].
    destruct (set_sequence (u64 (m_lastSeqNo s + 1)) fr Hfr (u64_range _)) as (fr' & E & Hsq).
    rewrite E. cbn [mbind result_bind].
    destruct (IH (with_seqNo (u64 (m_lastSeqNo s + 1)) s) (u64_range _)) as (frags' & last & E' & Hl & Hn & Hf).
    rewrite E'. cbn [mbind result_bind]. exists (fr' :: frags'), last.
    split; [done|]. split; [done|]. split; [by cbn; rewrite Hn|].
    intros [|i] x Hx; cbn in Hx.
    + injection Hx as <-. exists fr'. by rewrite Z.add_0_r.
    + destruct (Hf i x Hx) as (y & Hy & Hsy). exists y. split; [done|].
      cbn [m_lastSeqNo with_seqNo] in Hsy.
      replace (u64 (m_lastSeqNo s + 1 + Z.of_nat (S i)))
        with (u64 (u64 (m_lastSeqNo s + 1) + 1 + Z.of_nat i)); [done|].
      unfold u64. rewrite <- (Z.add_assoc ((m_lastSeqNo s + 1) mod 2 ^ 64)), Zplus_mod_idemp_l.
      f_equal. lia.
Qed.

(** The block of a packet with header fields. *)
Definition lp_block (p : Packet) : Block := element (lp_num LpPacket) (pkt_octets p).

Definition fits (mtu : Z) (b : Block) : Prop := mtu = MTU_UNLIMITED \/ block_size b <= mtu.

(** *** Congestion marking *)

(** The send queue is longer than the threshold. *)
Definition congested (o : Options) (t : transport) : bool :=
  (0 <=? getSendQueueLength t) &&
  (getSendQueueLength t >?
     (if 0 <=? getSendQueueCapacity t
      then Z.min (defaultCongestionThreshold o) (getSendQueueCapacity t / DEFAULT_CONGESTION_THRESHOLD_DIVISOR)
      else defaultCongestionThreshold o)).

(** The packet sent next is marked: the queue is congested, and the time for the next mark
    has come or the last mark is an interval ago. *)
Definition marks_packet (now : Z) (t : transport) (s : ValLinkService) : bool :=
  allowCongestionMarking (m_options s) && congested (m_options s) t &&
  ((m_nextMarkTime s <=? now) || (m_lastMarkTime s + baseCongestionMarkingInterval (m_options s) <=? now)).

(** The marking interval and the number of marks are small enough for the [double]
    arithmetic to be exact to an integer. *)
Definition marking_ok (s : ValLinkService) (n : Z) : Prop :=
  0 <= baseCongestionMarkingInterval (m_options s) < 2 ^ 53 /\
  0 <= m_nMarkedSinceInMarkingState s /\ m_nMarkedSinceInMarkingState s + n < 2 ^ 53.

(** What is sent of [p]: with the mark 1 if it is marked. *)
Record marked_as (b : bool) (p p' : Packet) : Prop := {
  mk_wf : pkt_wf p';
  mk_fields : forall g, List.filter (is_field g) (pk_elements p') =
    if b && (TlvType g =? lp_num CongestionMark) then [nni_element CongestionMarkField 1]
    else List.filter (is_field g) (pk_elements p);
  mk_size : els_size (pk_elements p') <= els_size (pk_elements p) + 5;
  mk_plain : b = false -> p' = p;
}.

Definition count_marks (k : Z) (c : Counters) : Counters :=
  mkCounters (nFragmentationErrors c) (nOutOverMtu c) (nInLpInvalid c) (nReassemblyTimeouts c)
    (nInNetInvalid c) (nCongestionMarked c + k) (nInValPkt c).

(** [k] packets were marked: this is counted, and nothing but the state of marking changes. *)
Record marked_state (k : Z) (s s' : ValLinkService) : Prop := {
  ms_state : exists next last n, s' = with_marking next last n (with_counters (count_marks k) s);
  ms_bound : 0 <= m_nMarkedSinceInMarkingState s' <= m_nMarkedSinceInMarkingState s + k;
  ms_off : allowCongestionMarking (m_options s) = false -> s' = s;
}.

Lemma marked_state_same s : 0 <= m_nMarkedSinceInMarkingState s -> marked_state 0 s s.
Proof.
  intros Hs. split; [|lia|done].
  exists (m_nextMarkTime s), (m_lastMarkTime s), (m_nMarkedSinceInMarkingState s).
  destruct s as [? ? ? ? ? ? []].
  unfold with_marking, with_counters, count_marks. cbn. by rewrite Z.add_0_r.
Qed.

Lemma marked_state_trans k1 k2 s s1 s2 :
  marked_state k1 s s1 -> marked_state k2 s1 s2 -> marked_state (k1 + k2) s s2.
Proof.
  intros [(n1 & l1 & m1 & E1) B1 O1] [(n2 & l2 & m2 & E2) B2 O2]. split; [|lia|].
  - exists n2, l2, m2. rewrite E2, E1. unfold with_marking, with_counters, count_marks. cbn.
    by rewrite Z.add_assoc.
  - intros Ha. rewrite O2; [by apply O1|]. by rewrite O1.
Qed.

Lemma marked_state_options k s s' : marked_state k s s' -> m_options s' = m_options s.
Proof. by intros [(? & ? & ? & ->) _ _]. Qed.

Lemma check_marks now t p s :
  pkt_wf p -> marking_ok s 1 ->
  exists p' s', (if allowCongestionMarking (m_options s) then checkCongestionLevel now t p s else Ok (p, s)) =
      Ok (p', s') /\
    marked_as (marks_packet now t s) p p' /\ marked_state (Z.b2z (marks_packet now t s)) s s'.
Proof.
  intros Hw (Hi & Hm & Hm1). unfold marks_packet, congested.
  assert (Hsame : exists p' s', Ok (p, s) = Ok (p', s') /\ marked_as false p p' /\ marked_state (Z.b2z false) s s').
  { exists p, s. split; [done|]. split; [split; [done|done|lia|done]|by apply marked_state_same]. }
  destruct (allowCongestionMarking (m_options s)) eqn:Ea; [|done]. cbn [andb]. unfold checkCongestionLevel.
  rewrite (Z.leb_antisym (getSendQueueLength t) 0).
  destruct (getSendQueueLength t <? 0); cbn [negb andb]; [done|].
  set (thr := if 0 <=? getSendQueueCapacity t then _ else _).
  destruct (getSendQueueLength t >? thr); cbn [andb].
  - destruct (_ || _); [|done].
    destruct (set_field CongestionMarkField 1 p Hw) as (p' & -> & Hw' & Hf & Hs); [by split|].
    cbn [mbind result_bind].
    destruct (div_sqrt_truncates (baseCongestionMarkingInterval (m_options s)) (m_nMarkedSinceInMarkingState s + 1))
      as (n & -> & _); [lia|lia|]. cbn [mbind result_bind].
    eexists _, _. split; [done|]. split.
    + split; [done|intros g; by rewrite Hf| |done].
      change (zlen (tlv (TlvType CongestionMarkField) (field_value CongestionMarkField 1))) with 5 in Hs. lia.
    + split; [|cbn; lia|by rewrite Ea]. eexists _, _, _. done.
  - destruct (negb (m_nextMarkTime s =? TimePoint_max)); [|done].
    eexists p, _. split; [done|]. split; [split; [done|done|lia|done]|].
    split; [|cbn; lia|by rewrite Ea]. exists TimePoint_max, (m_lastMarkTime s), 0. destruct s as [? ? ? ? ? ? []].
    unfold with_marking, with_counters, count_marks. cbn. by rewrite Z.add_0_r.
Qed.

Lemma marked_not_bare b p p' : is_bare p = false -> marked_as b p p' -> is_bare p' = false.
Proof.
  intros Hb [Hw Hf _ Hp]. destruct b; [|by rewrite Hp]. cbn [andb] in Hf.
  eapply (holds_not_bare p' (fun t => if t =? lp_num CongestionMark then
    [nni_element CongestionMarkField 1] else
    List.filter (fun b => block_type b =? t) (pk_elements p)) (lp_num CongestionMark)); [|done|].
  - split; [done|]. exact Hf.
  - by rewrite Z.eqb_refl.
Qed.

(** [p] fits in the MTU, and there is room for a mark if packets are marked. *)
Definition fits_marked (s : ValLinkService) (mtu : Z) (p : Packet) : Prop :=
  fits mtu (lp_block p) /\
  (allowCongestionMarking (m_options s) = true -> mtu = MTU_UNLIMITED \/ els_size (pk_elements p) + 15 <= mtu).

Lemma lp_block_size p : els_size (pk_elements p) <= block_size (lp_block p) <= els_size (pk_elements p) + 10.
Proof.
  pose proof (packet_overhead (pkt_octets p)). pose proof (zlen_tlv_value (lp_num LpPacket) (pkt_octets p)).
  unfold block_size, lp_block. cbn [block_wire element]. unfold els_size, pkt_octets in *. lia.
Qed.

Lemma marked_fits now t s mtu p p' :
  fits_marked s mtu p -> marked_as (marks_packet now t s) p p' -> fits mtu (lp_block p').
Proof.
  intros [Hf Hr] Hm. destruct (marks_packet now t s) eqn:E; [|by rewrite (mk_plain _ _ _ Hm)].
  unfold marks_packet in E. apply andb_true_iff in E as [E _]. apply andb_true_iff in E as [E _].
  destruct (Hr E) as [?|Hs]; [by left|right]. pose proof (mk_size _ _ _ Hm). pose proof (lp_block_size p'). lia.
Qed.

Lemma sendLpPacket_ok now t p s :
  marking_ok s 1 -> pkt_wf p -> is_bare p = false -> fits_marked s (getMtu t) p ->
  exists p' s', sendLpPacket now t p s = Ok (s', [lp_block p']) /\ marked_as (marks_packet now t s) p p' /\
    marked_state (Z.b2z (marks_packet now t s)) s s' /\ fits (getMtu t) (lp_block p').
Proof.
  intros Hk Hp Hb Hr. destruct (check_marks now t p s Hp Hk) as (p' & s' & E & Hm & Hs).
  pose proof (marked_fits _ _ _ _ _ _ Hr Hm) as Hf.
  exists p', s'. split; [|by split; [|split]]. unfold sendLpPacket. rewrite E. cbn [mbind result_bind].
  destruct (pkt_wireEncode_full p' (mk_wf _ _ _ Hm) (marked_not_bare _ _ _ Hb Hm)) as (p2 & E2 & _). rewrite E2. cbn [mbind result_bind].
  fold (lp_block p'). destruct Hf as [-> | Hf]; [done|].
  rewrite Z.gtb_ltb, (proj2 (Z.ltb_ge _ _) Hf). by rewrite andb_false_r.
Qed.

(** The packets [ps] are sent as [ps'], each marked or not when its turn comes. *)
Inductive marked_list (now : Z) (ts : nat -> transport)
  : nat -> ValLinkService -> list Packet -> list Packet -> ValLinkService -> Prop :=
  | marked_nil k s : marked_list now ts k s [] [] s
  | marked_cons k s p p' s1 ps ps' s2 :
      marked_as (marks_packet now (ts k) s) p p' ->
      marked_state (Z.b2z (marks_packet now (ts k) s)) s s1 ->
      marked_list now ts (S k) s1 ps ps' s2 ->
      marked_list now ts k s (p :: ps) (p' :: ps') s2.

Lemma marked_list_state now ts k s ps ps' s' :
  marked_list now ts k s ps ps' s' -> 0 <= m_nMarkedSinceInMarkingState s ->
  exists n, 0 <= n <= zlen ps /\ marked_state n s s' /\ length ps' = length ps.
Proof.
  induction 1 as [k s|k s p p' s1 ps ps' s2 Hp Hs _ IH]; intros H0.
  - exists 0. split; [by vm_compute|]. by split; [apply marked_state_same|].
  - destruct IH as (n & Hn & Hs2 & Hl); [apply (ms_bound _ _ _ Hs)|]. exists (Z.b2z (marks_packet now (ts k) s) + n).
    rewrite zlen_cons. split; [destruct (marks_packet _ _ _); cbn; lia|].
    split; [by eapply marked_state_trans|]. cbn. by rewrite Hl.
Qed.

Lemma marked_list_lookup now ts k s ps ps' s' i p :
  marked_list now ts k s ps ps' s' -> ps !! i = Some p ->
  exists p' b, ps' !! i = Some p' /\ marked_as b p p' /\ (i = 0%nat -> b = marks_packet now (ts k) s).
Proof.
  intros Hm. revert i. induction Hm as [|k s q q' s1 ps ps' s2 Hq Hs _ IH]; intros [|i] Hi; cbn in Hi; try done.
  - injection Hi as ->. by exists q', (marks_packet now (ts k) s).
  - destruct (IH i Hi) as (p' & b & Hp' & Hb & _). by exists p', b.
Qed.

Lemma sendLpPackets_ok now ts k mtu frags s :
  marking_ok s (zlen frags) -> (forall n, getMtu (ts n) = mtu) ->
  Forall (fun p => pkt_wf p /\ is_bare p = false /\ fits_marked s mtu p) frags ->
  exists frags' s', sendLpPackets now ts k frags s = Ok (s', map lp_block frags') /\
    marked_list now ts k s frags frags' s' /\ Forall (fun p => fits mtu (lp_block p)) frags'.
Proof.
  intros Hk Hm Hf. revert k s Hk Hf. induction frags as [|p frags IH]; intros k s Hk Hf.
  { exists [], s. split; [done|]. split; constructor. }
  apply Forall_cons in Hf as [(Hp & Hb & Hs) Hf]. rewrite zlen_cons in Hk. destruct Hk as (K1 & K2 & K3).
  pose proof (zlen_nonneg frags).
  destruct (sendLpPacket_ok now (ts k) p s) as (p' & s1 & E & Hmk & Hms & Hft);
    [split; [done|lia]|done|done|by rewrite Hm|].
  pose proof (marked_state_options _ _ _ Hms) as Ho. pose proof (ms_bound _ _ _ Hms) as Hbd.
  destruct (IH (S k) s1) as (frags' & s2 & E2 & Hml & Hfs).
  - unfold marking_ok. rewrite Ho. destruct (marks_packet now (ts k) s); cbn in Hbd; lia.
  - unfold fits_marked in *. by rewrite Ho.
  - exists (p' :: frags'), s2. cbn [sendLpPackets]. rewrite E. cbn [mbind result_bind]. rewrite E2.
    split; [done|]. split; [by econstructor|]. constructor; [by rewrite <- (Hm k)|done].
Qed.

(** The fragments of [p] that [s] sends, with consecutive sequence numbers. *)
Record sent_fragments (s : ValLinkService) (p : Packet) (netPkt : octets) (mtu : Z)
    (frags : list Packet) : Prop := {
  sf_bound : zlen frags <= nMaxFragments (m_options s);
  sf_origin : exists frags0, fragments_of p netPkt mtu frags0 /\ length frags0 = length frags /\
    forall i fr0, frags0 !! i = Some fr0 -> exists fr, frags !! i = Some fr /\
      sequenced (u64 (m_lastSeqNo s + 1 + Z.of_nat i)) fr0 fr;
  sf_each : Forall (fun fr => pkt_wf fr /\ is_bare fr = false /\ els_size (pk_elements fr) + 10 <= mtu) frags;
}.

Lemma sequenced_not_bare v fr fr' :
  sequenced v fr fr' -> is_bare fr' = false.
Proof.
  intros [Hw Hf _]. eapply (holds_not_bare fr' (fun t => if t =? lp_num Sequence then
    [element (lp_num Sequence) (be_bytes 8 v)] else
    List.filter (fun b => block_type b =? t) (pk_elements fr)) (lp_num Sequence)); [|done|].
  - split; [done|]. exact Hf.
  - by rewrite Z.eqb_refl.
Qed.

Lemma fragments_sent s p netPkt mtu frags0 :
  is_u64 (m_lastSeqNo s) -> fragments_of p netPkt mtu frags0 ->
  zlen frags0 <= nMaxFragments (m_options s) ->
  exists frags last, assignSequences frags0 s = Ok (frags, with_seqNo last s) /\ is_u64 last /\
    length frags = length frags0 /\ sent_fragments s p netPkt mtu frags.
Proof.
  intros Hs Hf Hb. pose proof Hf as [Hn (pls & Hpl & Hcc & Hall)].
  assert (Hw : forall i fr, frags0 !! i = Some fr -> pkt_wf fr /\ els_size (pk_elements fr) + 20 <= mtu).
  { intros i fr Hi. destruct (lookup_lt_is_Some_2 pls i) as [pl Hp];
      [rewrite Hpl; by eapply lookup_lt_Some|]. destruct (Hall i fr pl Hi Hp) as [H1 H2]. split; [apply H1|done]. }
  destruct (assignSequences_ok frags0 s) as (frags & last & E & Hl & Hlen & Hsq); [|done|].
  { apply Forall_forall. intros fr [i Hi]%list_elem_of_lookup. by apply (Hw i fr). }
  exists frags, last. split; [done|]. split; [done|]. split; [done|]. split.
  - unfold zlen in *. by rewrite Hlen.
  - exists frags0. by split; [|split].
  - apply Forall_forall. intros fr [i Hi]%list_elem_of_lookup.
    destruct (lookup_lt_is_Some_2 frags0 i) as [fr0 H0];
      [rewrite <- Hlen; by eapply lookup_lt_Some|].
    destruct (Hsq i fr0 H0) as (fr' & Hi' & Hs'). rewrite Hi in Hi'. injection Hi' as <-.
    split; [apply Hs'|]. split; [by eapply sequenced_not_bare|].
    destruct (Hw i fr0 H0) as [_ Hz]. pose proof (sq_size _ _ _ Hs'). lia.
Qed.

(** The MTU that is left for a packet before it is marked. *)
Definition room (o : Options) (mtu : Z) : Z :=
  if allowCongestionMarking o && negb (mtu =? MTU_UNLIMITED) then mtu - CONGESTION_MARK_SIZE else mtu.

(** The four outcomes of sending. *)
Inductive sent_as (now : Z) (ts : nat -> transport) (s : ValLinkService) (p : Packet) (netPkt : octets)
    (mtu : Z) : ValLinkService -> list Block -> Prop :=
  | sent_refused :
      allowFragmentation (m_options s) = true ->
      room (m_options s) mtu <= others_size p + MAX_FRAG_OVERHEAD \/
        capacity p (room (m_options s) mtu) (nMaxFragments (m_options s)) < zlen netPkt ->
      sent_as now ts s p netPkt mtu (with_counters incr_fragmentationErrors s) []
  | sent_too_large p' s1 :
      allowFragmentation (m_options s) = false -> marked_as (marks_packet now (ts 0%nat) s) p p' ->
      marked_state (Z.b2z (marks_packet now (ts 0%nat) s)) s s1 -> mtu < block_size (lp_block p') ->
      sent_as now ts s p netPkt mtu (with_counters incr_outOverMtu s1) []
  | sent_whole p' s1 :
      marked_as (marks_packet now (ts 0%nat) s) p p' ->
      marked_state (Z.b2z (marks_packet now (ts 0%nat) s)) s s1 ->
      fits mtu (lp_block p') -> sent_as now ts s p netPkt mtu s1 [lp_block p']
  | sent_in_fragments last frags frags' s1 :
      is_u64 last -> sent_fragments s p netPkt (room (m_options s) mtu) frags -> (2 <= length frags)%nat ->
      marked_list now ts 0 (with_seqNo last s) frags frags' s1 ->
      Forall (fun fr => fits mtu (lp_block fr)) frags' ->
      sent_as now ts s p netPkt mtu s1 (map lp_block frags').

(** What leaves ten octets of the room fits, with its mark too. *)
Lemma room_fits s mtu p :
  mtu <> MTU_UNLIMITED -> els_size (pk_elements p) + 10 <= room (m_options s) mtu -> fits_marked s mtu p.
Proof.
  intros Hu Hr. unfold room in Hr. rewrite (proj2 (Z.eqb_neq _ _) Hu), andb_true_r in Hr.
  pose proof (lp_block_size p). unfold CONGESTION_MARK_SIZE in Hr. split.
  - right. destruct (allowCongestionMarking (m_options s)); lia.
  - intros Ha. rewrite Ha in Hr. right. lia.
Qed.

(** The fast path of the fragmenter: the packet is sent as it is. *)
Lemma send_unfragmented now ts p p' w els mtu s :
  marking_ok s 1 -> (forall n, getMtu (ts n) = mtu) -> mtu <> MTU_UNLIMITED ->
  pkt_wf p -> is_bare p = false -> pkt_wf p' -> pk_elements p' = pk_elements p ->
  pkt_wireEncode p = Ok (w, els, p') -> MAX_SINGLE_FRAG_OVERHEAD + block_size w <= room (m_options s) mtu ->
  exists p1 s1, sendLpPackets now ts 0 [p'] s = Ok (s1, [lp_block p1]) /\
    marked_as (marks_packet now (ts 0%nat) s) p' p1 /\
    marked_state (Z.b2z (marks_packet now (ts 0%nat) s)) s s1 /\ fits mtu (lp_block p1).
Proof.
  intros Hk Hm Hu Hp Hb Hp' He Ew Hsz.
  assert (Hft : fits_marked s mtu p').
  { apply room_fits; [done|]. rewrite He.
    destruct (pkt_wireEncode_full p Hp Hb) as (p2 & Ew2 & _). rewrite Ew2 in Ew.
    injection Ew as Ew _ _. rewrite <- Ew in Hsz.
    pose proof (lp_block_size p) as Hbs. change (lp_block p) with (element 100 (pkt_octets p)) in Hbs. unfold MAX_SINGLE_FRAG_OVERHEAD in Hsz. lia. }
  rewrite <- (Hm 0%nat) in Hft.
  destruct (sendLpPacket_ok now (ts 0%nat) p' s) as (p1 & s1 & E & H1 & H2 & H3);
    [done|done|unfold is_bare in *; by rewrite He|done|].
  exists p1, s1. cbn [sendLpPackets]. rewrite E. rewrite Hm in H3. done.
Qed.

(** Without fragmentation a packet is sent if it fits and counted otherwise. *)
Lemma send_single now t p mtu s :
  marking_ok s 1 -> getMtu t = mtu -> pkt_wf p -> is_bare p = false ->
  exists p' s1, marked_as (marks_packet now t s) p p' /\
    marked_state (Z.b2z (marks_packet now t s)) s s1 /\
    (sendLpPacket now t p s = Ok (s1, [lp_block p']) /\ fits mtu (lp_block p') \/
     sendLpPacket now t p s = Ok (with_counters incr_outOverMtu s1, []) /\
       mtu <> MTU_UNLIMITED /\ mtu < block_size (lp_block p')).
Proof.
  intros Hk Hm Hp Hb. destruct (check_marks now t p s Hp Hk) as (p' & s1 & E & Hmk & Hms).
  exists p', s1. split; [done|]. split; [done|]. unfold sendLpPacket. rewrite E. cbn [mbind result_bind].
  destruct (pkt_wireEncode_full p' (mk_wf _ _ _ Hmk) (marked_not_bare _ _ _ Hb Hmk)) as (p2 & E2 & _).
  rewrite E2. cbn [mbind result_bind]. fold (lp_block p'). rewrite Hm, Z.gtb_ltb.
  destruct (Z.eqb_spec mtu MTU_UNLIMITED) as [Hu|Hu]; [left; split; [done|by left]|]. cbn [negb andb].
  destruct (Z.ltb_spec mtu (block_size (lp_block p'))); [by right|left]. split; [done|by right].
Qed.

(** The conditions on the sender: the MTU does not change while the packet is sent; there
    is none, or it is positive and, if packets may be marked, more than the twelve octets
    reserved for the mark; and the integers are in the range of their types. *)
Record sender_ok (s : ValLinkService) (ts : nat -> transport) (mtu : Z) : Prop := {
  so_mtu : forall n, getMtu (ts n) = mtu;
  so_positive : mtu = MTU_UNLIMITED \/
    (if allowCongestionMarking (m_options s) then CONGESTION_MARK_SIZE else 0) < mtu;
  so_max : 0 < nMaxFragments (m_options s);
  so_seqNo : is_u64 (m_lastSeqNo s);
  so_marking : marking_ok s (nMaxFragments (m_options s));
}.

Lemma room_mtu s ts mtu :
  sender_ok s ts mtu ->
  (room (m_options s) mtu =? MTU_UNLIMITED) = (mtu =? MTU_UNLIMITED) /\
  (mtu <> MTU_UNLIMITED -> 0 < room (m_options s) mtu).
Proof.
  intros [_ Hp _ _ _]. unfold room. destruct (Z.eqb_spec mtu MTU_UNLIMITED) as [->|Hn].
  - by rewrite andb_false_r.
  - rewrite andb_true_r. destruct Hp as [|Hp]; [done|].
    destruct (allowCongestionMarking (m_options s)); unfold MTU_UNLIMITED; (split; [apply Z.eqb_neq|]); lia.
Qed.

Lemma marking_ok_le s n n' : marking_ok s n -> n' <= n -> marking_ok s n'.
Proof. unfold marking_ok. lia. Qed.

Lemma link_send_cases now ts p F netPkt mtu s :
  sender_ok s ts mtu ->
  holds_fields p F -> F (TlvType FragmentField) = [element (TlvType FragmentField) netPkt] ->
  F (TlvType FragIndexField) = [] -> F (TlvType FragCountField) = [] ->
  is_bare p = false -> netPkt <> [] -> zlen netPkt < 2 ^ 32 ->
  exists s' out p0, link_sendValPacket now ts p s = Ok (s', out) /\ pkt_wf p0 /\
    pk_elements p0 = pk_elements p /\ sent_as now ts s p0 netPkt mtu s' out.
Proof.
  intros Hso [Hp HF] Hfr Hi Hct Hb Hne Hl. destruct (room_mtu s ts mtu Hso) as [Hru Hrp].
  pose proof Hso as [Hm _ Hmax Hseq Hmk].
  destruct (get_has_single FragmentField netPkt p) as [Hg _]; [done|by rewrite HF|].
  assert (H1 : pkt_has FragIndexField p = false) by (unfold pkt_has, pkt_count; by rewrite HF, Hi).
  assert (H2 : pkt_has FragCountField p = false) by (unfold pkt_has, pkt_count; by rewrite HF, Hct).
  assert (Hk1 : marking_ok s 1) by (apply (marking_ok_le _ _ _ Hmk); lia).
  unfold link_sendValPacket. rewrite Hm. fold (room (m_options s) mtu).
  assert ((room (m_options s) mtu =? MTU_UNLIMITED) || (0 <? room (m_options s) mtu) = true) as ->.
  { rewrite Hru. destruct (Z.eqb_spec mtu MTU_UNLIMITED); [done|]. apply Z.ltb_lt; auto. }
  rewrite Hru.
  destruct (allowFragmentation (m_options s) && negb (mtu =? MTU_UNLIMITED)) eqn:Ef.
  - apply andb_true_iff in Ef as [Ef Eu]. apply negb_true_iff, Z.eqb_neq in Eu.
    assert (Hbo : bare_ok p) by (intros E; by rewrite Hb in E).
    destruct (fragmentPacket_total (nMaxFragments (m_options s)) (room (m_options s) mtu) p netPkt Hp Hbo Hg H1 H2 Hl Hmax)
      as [(p' & w & els & E & Hp' & He & Ew & Hsz)|[[E Hw]|(frags0 & E & Hbd & Hfs)]]; rewrite E; cbn [mbind result_bind negb].
    + destruct (send_unfragmented now ts p p' w els mtu s) as (p1 & s1 & Es & Hm1 & Hs1 & Hft); try done.
      cbn [length existsb Nat.eqb Nat.ltb Nat.leb]. unfold pkt_has, pkt_count in *. rewrite He, !HF, Hi, Hct.
      cbn [length orb negb mbind result_bind]. exists s1, [lp_block p1], p'. by split; [|split; [|split; [|econstructor]]].
    + eexists _, _, p. split; [done|]. split; [done|]. split; [done|]. by constructor.
    + pose proof (fs_count _ _ _ _ Hfs) as Hn2.
      destruct (fragments_sent s p netPkt _ frags0 Hseq Hfs Hbd) as (frags & last & Es & Hl' & Hlen & Hsf).
      destruct (Nat.eqb_spec (length frags0) 1); [lia|]. cbn [negb orb].
      destruct (Nat.ltb_spec 1 (length frags0)); [|lia]. rewrite Es. cbn [mbind result_bind].
      destruct (sendLpPackets_ok now ts 0 mtu frags (with_seqNo last s)) as (frags' & s1 & -> & Hml & Hfit).
      * apply (marking_ok_le s _ _ Hmk). apply Hsf.
      * done.
      * eapply Forall_impl; [apply Hsf|]. intros fr (F1 & F2 & F3). split; [done|]. split; [done|].
        by apply (room_fits (with_seqNo last s)).
      * exists s1, (map lp_block frags'), p. split; [done|]. split; [done|]. split; [done|].
        econstructor; [done|done|lia|done|done].
  - cbn [mbind result_bind negb length existsb Nat.eqb Nat.ltb Nat.leb]. rewrite H1, H2.
    cbn [orb negb mbind result_bind sendLpPackets].
    destruct (send_single now (ts 0%nat) p mtu s) as (p1 & s1 & Hm1 & Hs1 & [[E Hft]|(E & Hu & Hgt)]); try done;
      rewrite E; cbn [mbind result_bind app]; eexists _, _, p; (split; [done|]); (split; [done|]); (split; [done|]);
      [by econstructor|].
    econstructor; [|done|done|done].
    apply andb_false_iff in Ef as [Ef|Ef]; [done|]. by apply negb_false_iff, Z.eqb_eq in Ef.
Qed.

(** ** What is delivered *)

(** The tags that the fields of a packet stand for, once it is marked. *)
Definition mark_tags (b : bool) (t : Tags) : Tags := if b then set_congestionMark (Some 1) t else t.

Lemma mark_tags_ok b t : tags_ok t -> tags_ok (mark_tags b t).
Proof. destruct b; [|done]. intros (H1 & _ & H3 & H4). split; [done|]. split; [by intros v [= <-]|done]. Qed.

(** Marking changes the field of the congestion mark. *)
Lemma sent_fields_marked b o t h netPkt g :
  sent_fields o (mark_tags b t) h netPkt g =
  if b && (g =? lp_num CongestionMark) then [nni_element CongestionMarkField 1] else sent_fields o t h netPkt g.
Proof.
  destruct b; [|done]. cbn [andb mark_tags]. unfold sent_fields, hops.
  cbn [set_congestionMark tag_congestionMark tag_hopCount tag_nonDiscovery tag_incomingFaceId].
  destruct (Z.eqb_spec g (lp_num CongestionMark)) as [->|Hn].
  - unfold put, put_opt. by destruct (allowSelfLearning o && tag_nonDiscovery t), (allowLocalFields o).
  - assert (Hpo : forall ob F, put_opt (lp_num CongestionMark) ob F g = F g) by (intros; by apply put_opt_ne).
    unfold put at 1 2 4 5. do 2 (case_match; [done|]).
    destruct (allowSelfLearning o && tag_nonDiscovery t); cbn [put_opt]; [|by rewrite !Hpo].
    unfold put at 1 3. case_match; [done|]. by rewrite !Hpo.
Qed.

(** The header fields of [q] beside those of fragmentation are those that were sent. *)
Record received_first (o : Options) (t : Tags) (h : ValHeader) (netPkt : octets) (q : Packet) : Prop := {
  rf_wf : pkt_wf q;
  rf_bare : is_bare q = false;
  rf_fields : forall g, TlvType g ∉ [lp_num Fragment; lp_num Sequence; lp_num FragIndex; lp_num FragCount] ->
    List.filter (is_field g) (pk_elements q) = sent_fields o t h netPkt (TlvType g);
}.

Lemma no_field_has f p : List.filter (is_field f) (pk_elements p) = [] -> pkt_has f p = false.
Proof. unfold pkt_has, pkt_count. by intros ->. Qed.

(** The header as the receiver sees it: the same fields, and the block it came from. *)
Definition received_header (h : ValHeader) : ValHeader :=
  mkValHeader (Some (element (lp_num TlvValHeader) (tlvs (header_elements h))))
    (m_SA h) (m_DA h) (m_phPos h) (m_RN h) (m_hopC h).

(** The tags the receiver sets on an Interest and on a Data. *)
Definition received_interest (so ro : Options) (t : Tags) (i : Interest) : Interest :=
  let i := interest_setTag (set_hopCount (Some (u64 (hops t + 1)))) i in
  let i := match tag_congestionMark t with
           | Some v => interest_setTag (set_congestionMark (Some v)) i | None => i end in
  if allowSelfLearning so && tag_nonDiscovery t && allowSelfLearning ro
  then interest_setTag set_nonDiscovery i else i.
Definition received_data (t : Tags) (d : Data) : Data :=
  let d := data_setTag (set_hopCount (Some (u64 (hops t + 1)))) d in
  match tag_congestionMark t with
  | Some v => data_setTag (set_congestionMark (Some v)) d | None => d end.

Lemma received_first_elements o t h netPkt q q' :
  pk_elements q' = pk_elements q -> pkt_wf q' ->
  received_first o t h netPkt q -> received_first o t h netPkt q'.
Proof.
  intros He Hw [H1 H2 H3]. split; [done|unfold is_bare in *; by rewrite He|].
  intros g Hg. by rewrite He, H3.
Qed.

Section deliver.
Context `{NetworkPackets} (so ro : Options) (t : Tags) (h : ValHeader) (netPkt : octets) (q : Packet).
Hypothesis Ht : tags_ok t.
Hypothesis Hh : header_ok h.
Hypothesis Hq : received_first so t h netPkt q.

Ltac other_field := apply (bool_decide_unpack _); vm_compute; exact I.
Ltac absent f := apply (no_field_has f); rewrite (rf_fields _ _ _ _ _ Hq) by other_field;
  unfold sent_fields; put_simpl.

Lemma received_absent :
  pkt_has NackField q = false /\ pkt_has NextHopFaceIdField q = false /\
  pkt_has CachePolicyField q = false /\ pkt_has PrefixAnnouncementField q = false.
Proof. split; [absent NackField|]. split; [absent NextHopFaceIdField|].
  split; [absent CachePolicyField|absent PrefixAnnouncementField]. Qed.

Lemma received_hops : pkt_has HopCountTagField q = true /\ pkt_get HopCountTagField 0 q = Ok (hops t).
Proof.
  destruct (get_has_single HopCountTagField (hops t) q) as [H1 H2].
  - destruct Ht as (_ & _ & Th & _). unfold hops. destruct (tag_hopCount t) as [v|]; [by apply Th|by split].
  - rewrite (rf_fields _ _ _ _ _ Hq) by other_field. unfold sent_fields. put_simpl.
  - by split.
Qed.

Lemma received_mark :
  match tag_congestionMark t with
  | Some v => pkt_has CongestionMarkField q = true /\ pkt_get CongestionMarkField 0 q = Ok v
  | None => pkt_has CongestionMarkField q = false
  end.
Proof.
  pose proof (rf_fields _ _ _ _ _ Hq CongestionMarkField ltac:(other_field)) as Hf.
  unfold sent_fields in Hf. rewrite !put_ne, put_opt_ne in Hf by (cbn; discriminate).
  destruct Ht as (_ & Tc & _ & _). destruct (tag_congestionMark t) as [v|]; cbn in Hf.
  - destruct (get_has_single CongestionMarkField v q) as [H1 H2]; [by apply Tc|done|by split].
  - apply no_field_has. rewrite Hf. change (TlvType CongestionMarkField) with 832. put_simpl.
Qed.

Lemma received_nonDiscovery :
  pkt_has NonDiscoveryField q = allowSelfLearning so && tag_nonDiscovery t /\
  (pkt_has NonDiscoveryField q = true -> pkt_get NonDiscoveryField 0 q = Ok tt).
Proof.
  pose proof (rf_fields _ _ _ _ _ Hq NonDiscoveryField ltac:(other_field)) as Hf.
  unfold sent_fields in Hf. rewrite !put_ne in Hf by (cbn; discriminate).
  destruct (allowSelfLearning so && tag_nonDiscovery t).
  - destruct (get_has_single NonDiscoveryField tt q) as [H1 H2]; [done|exact Hf|]. by split.
  - rewrite no_field_has; [done|]. rewrite Hf. unfold put_opt at 1.
    change (TlvType NonDiscoveryField) with (lp_num NonDiscovery). put_simpl.
Qed.

(** The VAL header is found, and decodes to the one that was sent. *)
Lemma received_valHeader hopC0 :
  exists q', pkt_wireEncode q = Ok (lp_block q, pk_elements q, q') /\ received_first so t h netPkt q' /\
    find_first (fun b => block_type b =? lp_num TlvValHeader) (pk_elements q) =
      Some (element (lp_num TlvValHeader) (tlvs (header_elements h))) /\
    ValHeader_ofBlock hopC0 (element (lp_num TlvValHeader) (tlvs (header_elements h))) =
      Ok (received_header h).
Proof.
  destruct (pkt_wireEncode_full q (rf_wf _ _ _ _ _ Hq) (rf_bare _ _ _ _ _ Hq)) as (q' & E & Hw & He).
  exists q'. split; [exact E|]. split; [by apply (received_first_elements _ _ _ _ q)|]. split; [|by apply decode_header].
  pose proof (rf_fields _ _ _ _ _ Hq ValHeaderField ltac:(other_field)) as Hf.
  rewrite find_first_filter. unfold is_field in Hf. cbn [TlvType ValHeaderField] in Hf.
  by rewrite Hf.
Qed.
End deliver.

Section make.
Context `{NetworkPackets} (so ro : Options) (t : Tags) (h : ValHeader).
Hypothesis Ht : tags_ok t.
Hypothesis Hh : header_ok h.

Lemma decodeInterest_received q value i c :
  received_first so t h (tlv tlv_Interest value) q -> Interest_ofBlock (element tlv_Interest value) = Ok i ->
  decodeInterest ro (element tlv_Interest value) q c = Ok (Some (received_interest so ro t i), c).
Proof.
  intros Hq Hi. destruct (received_absent _ _ _ _ _ Hq) as (A1 & A2 & A3 & A4).
  destruct (received_hops _ _ _ _ _ Ht Hq) as [B1 B2].
  destruct (received_nonDiscovery _ _ _ _ _ Hq) as [C1 C2].
  pose proof (received_mark _ _ _ _ _ Ht Hq) as D.
  unfold decodeInterest, received_interest. cbn [block_type element]. rewrite A1, A2, A3, A4, B1, B2, Hi.
  cbn [negb andb mbind result_bind]. change (tlv_Interest =? tlv_Interest) with true. cbn iota.
  destruct (tag_congestionMark t) as [v|].
  - destruct D as [-> ->]. cbn [mbind result_bind]. rewrite C1 in *.
    destruct (allowSelfLearning so && tag_nonDiscovery t); [rewrite C2 by done|]; cbn [andb];
      by destruct (allowSelfLearning ro).
  - rewrite D. cbn [mbind result_bind]. rewrite C1 in *.
    destruct (allowSelfLearning so && tag_nonDiscovery t); [rewrite C2 by done|]; cbn [andb];
      by destruct (allowSelfLearning ro).
Qed.

Lemma decodeData_received q value d c :
  allowSelfLearning so && tag_nonDiscovery t = false ->
  received_first so t h (tlv tlv_Data value) q -> Data_ofBlock (element tlv_Data value) = Ok d ->
  decodeData ro (element tlv_Data value) q c = Ok (Some (received_data t d), c).
Proof.
  intros Hn Hq Hi. destruct (received_absent _ _ _ _ _ Hq) as (A1 & A2 & A3 & A4).
  destruct (received_hops _ _ _ _ _ Ht Hq) as [B1 B2].
  destruct (received_nonDiscovery _ _ _ _ _ Hq) as [C1 _]. rewrite Hn in C1.
  pose proof (received_mark _ _ _ _ _ Ht Hq) as D.
  unfold decodeData, received_data. cbn [block_type element]. rewrite A1, A2, A3, A4, B1, B2, C1, Hi.
  cbn [negb andb mbind result_bind]. change (tlv_Data =? tlv_Data) with true. cbn iota.
  destruct (tag_congestionMark t) as [v|]; [destruct D as [-> ->]|rewrite D]; done.
Qed.

(** The VAL packet that is handed to the forwarder. *)
Lemma makeValPacket_interest q hopC0 value i c :
  received_first so t h (tlv tlv_Interest value) q -> Interest_ofBlock (element tlv_Interest value) = Ok i ->
  makeValPacket ro hopC0 (element tlv_Interest value) q c =
  Ok (Some (interest_packet (received_header h) (received_interest so ro t i)), incr_inValPkt c).
Proof.
  intros Hq Hi. destruct (received_valHeader _ _ _ _ _ Hh Hq hopC0) as (q' & E1 & Hq' & E2 & E3).
  unfold makeValPacket. rewrite E1. cbn [mbind result_bind]. rewrite E2, E3. cbn [mbind result_bind].
  cbn [block_type element]. change (tlv_Interest =? tlv_Interest) with true. cbn iota.
  by rewrite (decodeInterest_received q' value i c Hq' Hi).
Qed.

Lemma makeValPacket_data q hopC0 value d c :
  allowSelfLearning so && tag_nonDiscovery t = false ->
  received_first so t h (tlv tlv_Data value) q -> Data_ofBlock (element tlv_Data value) = Ok d ->
  makeValPacket ro hopC0 (element tlv_Data value) q c =
  Ok (Some (data_packet (received_header h) (received_data t d)), incr_inValPkt c).
Proof.
  intros Hn Hq Hi. destruct (received_valHeader _ _ _ _ _ Hh Hq hopC0) as (q' & E1 & Hq' & E2 & E3).
  unfold makeValPacket. rewrite E1. cbn [mbind result_bind]. rewrite E2, E3. cbn [mbind result_bind].
  cbn [block_type element]. change (tlv_Data =? tlv_Interest) with false.
  change (tlv_Data =? tlv_Data) with true. cbn iota.
  by rewrite (decodeData_received q' value d c Hn Hq' Hi).
Qed.
End make.

(** ** A whole transmission *)

(** The scheduler runs the timers that are due, in the order of their times; every turn
    takes one off the queue, so that as many turns as there are timers are enough. *)
Fixpoint run_timers (n : nat) (now : Z) (s : ValLinkService) : ValLinkService :=
  match n with
  | O => s
  | S n => run_timers n now (reassemblyTimeout now s)
  end.
Definition due_timers (now : Z) (s : ValLinkService) : ValLinkService :=
  run_timers (length (m_queue (re_timers (m_reassembler s)))) now s.

(** The packets the sender handed to its transport arrive, by index and time; the timers
    that are due by then have run. *)
Fixpoint deliver_all `{NetworkPackets} (ep hopC0 : Z) (out : list Block) (arrivals : list (Z * nat))
    (s : ValLinkService) : ValLinkService * list (result (option ValPacket)) :=
  match arrivals with
  | [] => (s, [])
  | (now, i) :: arrivals' =>
    let '(s, o) := doReceivePacket now ep hopC0 (nth i out (element 0 [])) (due_timers now s) in
    let '(s, os) := deliver_all ep hopC0 out arrivals' s in (s, o :: os)
  end.

(** Timers that are not those of [key] run up to [now]: partial packets are dropped, and
    only those whose timer is due. *)
Record timers_ran (key : Key) (now : Z) (s s' : ValLinkService) : Prop := {
  tr_options : m_options s' = m_options s;
  tr_counted : nInValPkt (counters s') = nInValPkt (counters s);
  tr_max : re_nMaxFragments (m_reassembler s') = re_nMaxFragments (m_reassembler s);
  tr_timeout : re_reassemblyTimeout (m_reassembler s') = re_reassemblyTimeout (m_reassembler s);
  tr_inv : re_inv (m_reassembler s');
  tr_partials : m_partialPackets (m_reassembler s') ⊆ m_partialPackets (m_reassembler s);
  tr_key : m_partialPackets (m_reassembler s') !! key = m_partialPackets (m_reassembler s) !! key;
  tr_queue : forall e, e ∈ m_queue (re_timers (m_reassembler s')) -> e ∈ m_queue (re_timers (m_reassembler s));
  tr_kept : forall e, e ∈ m_queue (re_timers (m_reassembler s)) -> now < ev_time e ->
    e ∈ m_queue (re_timers (m_reassembler s'));
}.

Lemma timers_ran_refl key now s : re_inv (m_reassembler s) -> timers_ran key now s s.
Proof. by split. Qed.

Lemma timers_ran_trans key now s s1 s2 :
  timers_ran key now s s1 -> timers_ran key now s1 s2 -> timers_ran key now s s2.
Proof.
  intros A B. split; [rewrite (tr_options _ _ _ _ B); apply A|rewrite (tr_counted _ _ _ _ B); apply A
    |rewrite (tr_max _ _ _ _ B); apply A|rewrite (tr_timeout _ _ _ _ B); apply A|apply B| | | |].
  - etransitivity; [apply B|apply A].
  - rewrite (tr_key _ _ _ _ B). apply A.
  - intros e He. by apply A, B.
  - intros e He Ht. apply B; [|done]. by apply A.
Qed.

(** The timers of [key] are not due yet. *)
Definition not_due (key : Key) (now : Z) (s : ValLinkService) : Prop :=
  forall e, e ∈ m_queue (re_timers (m_reassembler s)) -> ev_callback e = key -> now < ev_time e.

Lemma reassemblyTimeout_ran key now s :
  re_inv (m_reassembler s) -> not_due key now s -> timers_ran key now s (reassemblyTimeout now s).
Proof.
  intros Hr Hd. unfold reassemblyTimeout.
  destruct (pop_due now (re_timers (m_reassembler s))) as [[e q]|] eqn:Ep;
    [|unfold fireDropTimer; rewrite Ep; by apply timers_ran_refl].
  destruct (fireDropTimer_pop now _ e q Hr Ep) as (pp & _ & -> & Hi).
  pose proof (fun x => elem_of_pop _ _ _ _ x Ep) as Hin.
  assert (Hnow : ev_time e <= now).
  { unfold pop_due in Ep. destruct (m_queue _) as [|x l]; [done|]. destruct (Z.ltb_spec now (ev_time x)); [done|].
    injection Ep as <- _. done. }
  assert (Hne : ev_callback e <> key).
  { intros Ek. specialize (Hd e (proj2 (Hin e) (or_introl eq_refl)) Ek). lia. }
  split; cbn; [done|done|done|done|exact Hi|apply delete_subseteq|by rewrite lookup_delete_ne
    |intros x Hx; apply Hin; by right|].
  intros x Hx Ht. apply Hin in Hx as [->|Hx]; [lia|done].
Qed.

Lemma run_timers_ran n key now s :
  re_inv (m_reassembler s) -> not_due key now s -> timers_ran key now s (run_timers n now s).
Proof.
  revert s. induction n as [|n IH]; intros s Hr Hd; cbn [run_timers]; [by apply timers_ran_refl|].
  pose proof (reassemblyTimeout_ran key now s Hr Hd) as Hran.
  eapply timers_ran_trans; [exact Hran|]. apply IH; [apply Hran|].
  intros e He. apply Hd. by apply (tr_queue _ _ _ _ Hran).
Qed.

(** All of them have run: what is left is later. *)
Lemma nothing_due_later {K} now (q : EventQueue K) :
  queue_inv q -> pop_due now q = None -> Forall (fun e => now < ev_time e) (m_queue q).
Proof.
  intros (Hs & _ & _). unfold pop_due. destruct (m_queue q) as [|x l]; [done|].
  destruct (Z.ltb_spec now (ev_time x)) as [Hx|]; [|done]. intros _.
  apply StronglySorted_inv in Hs as [_ Hs]. constructor; [done|].
  eapply Forall_impl; [exact Hs|]. cbn. lia.
Qed.

Lemma run_timers_done n now s :
  re_inv (m_reassembler s) -> (length (m_queue (re_timers (m_reassembler s))) <= n)%nat ->
  Forall (fun e => now < ev_time e) (m_queue (re_timers (m_reassembler (run_timers n now s)))).
Proof.
  revert s. induction n as [|n IH]; intros s Hr Hn; cbn [run_timers].
  { destruct (m_queue _); [constructor|cbn in Hn; lia]. }
  destruct (pop_due now (re_timers (m_reassembler s))) as [[e q]|] eqn:Ep.
  - destruct (fireDropTimer_pop now _ e q Hr Ep) as (pp & _ & Ef & Hi).
    assert (Hq : (length (m_queue q) <= n)%nat).
    { unfold pop_due in Ep. destruct (m_queue (re_timers (m_reassembler s))) as [|x l]; [done|].
      case_match; [done|]. injection Ep as <- <-. cbn in *. lia. }
    apply IH; unfold reassemblyTimeout; by rewrite Ef.
  - assert (Hsame : forall m, run_timers m now s = s).
    { intros m. induction m as [|m IHm]; [done|]. cbn [run_timers].
      unfold reassemblyTimeout, fireDropTimer. by rewrite Ep. }
    assert (Hrt : reassemblyTimeout now s = s) by (unfold reassemblyTimeout, fireDropTimer; by rewrite Ep).
    rewrite Hrt, Hsame. apply nothing_due_later; [apply Hr|done].
Qed.

(** The packet decoded from the block of a well-formed packet. *)
Definition decoded (p : Packet) : Packet := mkPacket (Some (lp_block p)) (pk_elements p).

Lemma decoded_wf p : pkt_wf p -> pkt_wf (decoded p).
Proof. intros [H1 H2 _]. split; [done|done|]. by intros w [= <-]. Qed.

Lemma nth_map_lookup {A B} (f : A -> B) (l : list A) i x d :
  l !! i = Some x -> nth i (map f l) d = f x.
Proof.
  intros Hi. apply nth_lookup_Some. change (map f l) with (f <$> l). by rewrite list_lookup_fmap, Hi.
Qed.

Section transmission.
Context `{NetworkPackets} (ep hopC0 : Z).

(** Receiving a block made by a sender is receiving its packet. *)
Lemma doReceivePacket_fragment now fr s :
  pkt_wf fr -> pkt_has FragmentField fr = true -> allowReassembly (m_options s) = true ->
  doReceivePacket now ep hopC0 (lp_block fr) s =
  (let '(re, r) := receiveFragment now ep (decoded fr) (m_reassembler s) in
   let s := with_reassembler re s in
   match r with
   | Err e => catch_tlv s (Err e) None
   | Ok None => (s, Ok None)
   | Ok (Some (netPkt, firstPkt)) =>
     catch_tlv s (let* (v, c) := makeValPacket (m_options s) hopC0 netPkt firstPkt (counters s) in
                  Ok (v, with_counters (fun _ => c) s)) None
   end).
Proof.
  intros Hw Hf Ha. unfold doReceivePacket, lp_block. rewrite pkt_wireDecode_full by done.
  fold (lp_block fr). fold (decoded fr).
  change (pkt_has FragmentField (decoded fr)) with (pkt_has FragmentField fr). rewrite Hf, Ha.
  cbn [negb]. by rewrite andb_false_r.
Qed.

End transmission.

(** Every packet arrives after the one before it, and before the timer that one started
    is due. *)
Fixpoint in_time (timeout last : Z) (arrivals : list (Z * nat)) : Prop :=
  match arrivals with
  | [] => True
  | (now, _) :: arrivals' => last <= now < last + timeout /\ in_time timeout now arrivals'
  end.
Definition timely (timeout : Z) (arrivals : list (Z * nat)) : Prop :=
  match arrivals with
  | [] => True
  | (now, _) :: arrivals' => in_time timeout now arrivals'
  end.
Definition last_time (arrivals : list (Z * nat)) : Z := default 0 (fst <$> last arrivals).

Lemma last_time_ge timeout now i arrivals :
  in_time timeout now arrivals -> now <= last_time ((now, i) :: arrivals).
Proof.
  unfold last_time. revert now i. induction arrivals as [|[now' j] l IH]; intros now i; cbn [in_time]; [cbn; lia|].
  intros [H1 H2]. specialize (IH now' j H2). cbn in *. lia.
Qed.

(** Other timers do not disturb the fragments that were collected. *)
Lemma collecting_ran ep sq frags m0 got now s s1 :
  m0 !! (ep, sq) = None -> collecting ep sq frags m0 got (m_reassembler s) -> timers_ran (ep, sq) now s s1 ->
  exists m1, m1 ⊆ m0 /\ m1 !! (ep, sq) = None /\ collecting ep sq frags m1 got (m_reassembler s1).
Proof.
  intros Hm Hc Hr. pose proof (tr_partials _ _ _ _ Hr) as Hsub. pose proof (tr_key _ _ _ _ Hr) as Hk.
  destruct got as [|g got]; cbn [collecting] in *.
  - rewrite Hc in *. exists (m_partialPackets (m_reassembler s1)). by rewrite Hk.
  - destruct Hc as [timer Hc]. rewrite Hc in *. rewrite lookup_insert_eq in Hk.
    exists (delete (ep, sq) (m_partialPackets (m_reassembler s1))). split; [|split].
    + apply map_subseteq_spec. intros k x. rewrite lookup_delete_Some. intros [Hn Hx].
      pose proof (lookup_weaken _ _ _ _ Hx Hsub) as Hy. by rewrite lookup_insert_ne in Hy.
    + apply lookup_delete_eq.
    + exists timer. by rewrite insert_delete_id.
Qed.

(** The timers of the packet are set to [timeout] after its last fragment. *)
Definition timed (key : Key) (timeout last : Z) (got : list nat) (arrivals : list (Z * nat))
    (s : ValLinkService) : Prop :=
  match got with
  | [] => timely timeout arrivals
  | _ => in_time timeout last arrivals /\
    forall e, e ∈ m_queue (re_timers (m_reassembler s)) -> ev_callback e = key -> last + timeout <= ev_time e
  end.

Lemma timed_not_due ep sq frags m0 timeout last got now i arrivals s :
  re_inv (m_reassembler s) -> m0 !! (ep, sq) = None -> collecting ep sq frags m0 got (m_reassembler s) ->
  timed (ep, sq) timeout last got ((now, i) :: arrivals) s ->
  not_due (ep, sq) now s /\ in_time timeout now arrivals.
Proof.
  intros [(_ & _ & Hq) _] Hm Hc Ht. destruct got as [|g got]; cbn [timed timely in_time collecting] in *.
  - split; [|done]. intros e He Hk. destruct (Hq e He) as (pp & Hpp & _). by rewrite Hk, Hc, Hm in Hpp.
  - destruct Ht as [[H1 H2] H3]. split; [|done]. intros e He Hk. specialize (H3 e He Hk). lia.
Qed.

Section collect.
Context `{NetworkPackets} (ep hopC0 sq : Z) (frags : list Packet) (pls : list octets) (type : Z) (value : octets)
  (o : Options) (first : Packet) (vp : ValPacket).
Hypothesis Hsq : is_u64 sq.
Hypothesis Hready : fragments_ready sq (map decoded frags) pls.
Hypothesis Hcc : concat pls = tlv type value.
Hypothesis Henc : encodable type value.
Hypothesis Hsize : zlen (concat pls) < 2 ^ 32.
Hypothesis Hfr : Forall (fun fr => pkt_wf fr /\ pkt_has FragmentField fr = true) frags.
Hypothesis Hfirst : frags !! 0%nat = Some first.
Hypothesis Hmk : forall c, makeValPacket o hopC0 (element type value) (decoded first) c = Ok (Some vp, incr_inValPkt c).
Hypothesis Hre : allowReassembly o = true.

(** A fragment arrives after the timers due by then. *)
Lemma arrival_step now i s :
  (i < length frags)%nat -> m_options s = o ->
  doReceivePacket now ep hopC0 (nth i (map lp_block frags) (element 0 [])) s =
  (let '(re, r) := receiveFragment now ep (nth i (map decoded frags) Packet_new) (m_reassembler s) in
   let s := with_reassembler re s in
   match r with
   | Err e => catch_tlv s (Err e) None
   | Ok None => (s, Ok None)
   | Ok (Some (netPkt, firstPkt)) =>
     catch_tlv s (let* (v, c) := makeValPacket (m_options s) hopC0 netPkt firstPkt (counters s) in
                  Ok (v, with_counters (fun _ => c) s)) None
   end).
Proof.
  intros Hi Ho. destruct (lookup_lt_is_Some_2 frags i Hi) as [fr Hlk].
  destruct (proj1 (Forall_forall _ _) Hfr fr (list_elem_of_lookup_2 _ _ _ Hlk)) as [Hw Hf].
  rewrite (nth_map_lookup lp_block _ _ _ _ Hlk), (nth_map_lookup decoded _ _ _ _ Hlk).
  apply doReceivePacket_fragment; [done|done|by rewrite Ho].
Qed.

(** A fragment that is not the last one. *)
Lemma arrival_next now i got m1 s :
  m_options s = o -> zlen frags <= re_nMaxFragments (m_reassembler s) -> re_inv (m_reassembler s) ->
  m1 !! (ep, sq) = None -> collecting ep sq (map decoded frags) m1 got (m_reassembler s) ->
  i ∉ got -> (i < length frags)%nat -> zlen got + 1 <> zlen frags ->
  exists re id, doReceivePacket now ep hopC0 (nth i (map lp_block frags) (element 0 [])) s =
      (with_reassembler re s, Ok None) /\ re_inv re /\ collecting ep sq (map decoded frags) m1 (i :: got) re /\
    re_nMaxFragments re = re_nMaxFragments (m_reassembler s) /\
    re_reassemblyTimeout re = re_reassemblyTimeout (m_reassembler s) /\
    forall e, e ∈ m_queue (re_timers re) <->
      e = mkEvent id (now + re_reassemblyTimeout (m_reassembler s)) (ep, sq) \/
      e ∈ m_queue (re_timers (m_reassembler s)) /\ ev_callback e <> (ep, sq).
Proof.
  intros Ho Hx Hri Hm Hcol Hg Hi Hn. rewrite arrival_step by done.
  assert (Hlm : length (map decoded frags) = length frags) by apply length_map.
  assert (Hzm : zlen (map decoded frags) = zlen frags) by (unfold zlen; by rewrite Hlm).
  destruct (collect_next ep sq (map decoded frags) pls Hsq Hready now i m1 got (m_reassembler s))
    as (re & E & Hcol2 & Hx2 & Ht2 & Hq); try done; [by rewrite Hzm|by rewrite Hlm|by rewrite Hzm|].
  pose proof (receiveFragment_inv now ep (nth i (map decoded frags) Packet_new) _ Hri) as Hri'.
  rewrite E in *. destruct (Hq Hri) as [id Hq']. by exists re, id.
Qed.

(** The fragment that completes the packet. *)
Lemma arrival_last now i got m1 s :
  m_options s = o -> zlen frags <= re_nMaxFragments (m_reassembler s) -> re_inv (m_reassembler s) ->
  m1 !! (ep, sq) = None -> collecting ep sq (map decoded frags) m1 got (m_reassembler s) ->
  i ∉ got -> i :: got ≡ₚ seq 0 (length frags) -> (i < length frags)%nat ->
  exists s', doReceivePacket now ep hopC0 (nth i (map lp_block frags) (element 0 [])) s = (s', Ok (Some vp)) /\
    re_inv (m_reassembler s') /\ m_partialPackets (m_reassembler s') = m1 /\
    nInValPkt (counters s') = nInValPkt (counters s) + 1 /\
    forall e, e ∈ m_queue (re_timers (m_reassembler s')) <->
      e ∈ m_queue (re_timers (m_reassembler s)) /\ ev_callback e <> (ep, sq).
Proof.
  intros Ho Hx Hri Hm Hcol Hg Hp Hi. rewrite arrival_step by done.
  assert (Hlm : length (map decoded frags) = length frags) by apply length_map.
  destruct (collect_last ep sq (map decoded frags) pls Hsq Hready now i m1 got (m_reassembler s) type value)
    as (re & first' & E & H0 & Hm' & Hq); try done; [unfold zlen in *; by rewrite Hlm|by rewrite Hlm|].
  pose proof (receiveFragment_inv now ep (nth i (map decoded frags) Packet_new) _ Hri) as Hri'.
  rewrite E in *. change (map decoded frags) with (decoded <$> frags) in H0.
  rewrite list_lookup_fmap, Hfirst in H0. injection H0 as <-.
  cbn [m_options with_reassembler counters]. rewrite Ho, Hmk. cbn [mbind result_bind catch_tlv].
  eexists. split; [done|]. cbn [with_counters with_reassembler m_reassembler counters incr_inValPkt nInValPkt].
  split; [done|]. split; [done|]. split; [done|]. by apply Hq.
Qed.

Lemma deliver_collect arrivals got s m0 last :
  m_options s = o -> zlen frags <= re_nMaxFragments (m_reassembler s) -> re_inv (m_reassembler s) ->
  m0 !! (ep, sq) = None -> collecting ep sq (map decoded frags) m0 got (m_reassembler s) ->
  timed (ep, sq) (re_reassemblyTimeout (m_reassembler s)) last got arrivals s ->
  arrivals <> [] -> map snd arrivals ++ got ≡ₚ seq 0 (length frags) ->
  exists s', deliver_all ep hopC0 (map lp_block frags) arrivals s =
      (s', replicate (length arrivals - 1) (Ok None) ++ [Ok (Some vp)]) /\
    m_partialPackets (m_reassembler s') ⊆ m0 /\ re_inv (m_reassembler s') /\
    nInValPkt (counters s') = nInValPkt (counters s) + 1 /\
    forall e, e ∈ m_queue (re_timers (m_reassembler s)) -> ev_callback e <> (ep, sq) ->
      last_time arrivals < ev_time e -> e ∈ m_queue (re_timers (m_reassembler s')).
Proof.
  revert got s m0 last. induction arrivals as [|[now i] arrivals IH]; intros got s m0 last Ho Hx Hri Hm Hcol Htm Hne Hp; [done|].
  assert (Hg : i ∉ got).
  { assert (Hd : NoDup (i :: map snd arrivals ++ got)) by (cbn in Hp; rewrite Hp; apply NoDup_seq).
    apply NoDup_cons in Hd as [Hd1 Hd2]. intros Hin. apply Hd1. apply elem_of_app. by right. }
  assert (Hi : (i < length frags)%nat).
  { assert (Hin : i ∈ seq 0 (length frags)) by (rewrite <- Hp; left). apply elem_of_seq in Hin. lia. }
  destruct (timed_not_due _ _ _ _ _ _ _ _ _ _ _ Hri Hm Hcol Htm) as [Hnd Hin].
  pose proof (run_timers_ran (length (m_queue (re_timers (m_reassembler s)))) (ep, sq) now s Hri Hnd) as Hran.
  fold (due_timers now s) in Hran. cbn [deliver_all]. set (s1 := due_timers now s) in *.
  destruct (collecting_ran _ _ _ _ _ _ _ _ Hm Hcol Hran) as (m1 & Hsub & Hm1 & Hcol1).
  destruct Hran as [Ho1 Hc1 Hx1 Ht1 Hri1 _ _ _ Hkept]. rewrite Ho in Ho1. rewrite <- Hx1 in Hx.
  destruct arrivals as [|a arrivals].
  - destruct (arrival_last now i got m1 s1) as (s' & -> & Hri' & Hm' & Hc' & Hq); try done.
    exists s'. split; [done|]. split; [by rewrite Hm'|]. split; [done|]. split; [by rewrite Hc', Hc1|].
    intros e He Hk Hl. apply Hq. split; [|done]. by apply Hkept.
  - assert (Hn : zlen got + 1 <> zlen frags).
    { apply Permutation_length in Hp. rewrite length_app, length_seq in Hp. unfold zlen. cbn in Hp. lia. }
    destruct (arrival_next now i got m1 s1) as (re & id & -> & Hri' & Hcol2 & Hx2 & Ht2 & Hq); try done.
    destruct (IH (i :: got) (with_reassembler re s1) m1 now) as (s' & E' & Hs' & Hri2 & Hc' & Hk'); try done.
    + cbn. by rewrite Hx2.
    + cbn [timed with_reassembler m_reassembler]. rewrite Ht2, Ht1. split; [done|].
      intros e He Hk. apply Hq in He as [->|[_ Hne']]; [cbn; by rewrite Ht1|done].
    + rewrite <- Hp. symmetry. apply (Permutation_middle (map snd (a :: arrivals)) got i).
    + cbn [deliver_all] in *. rewrite E'. exists s'. split.
      { cbn [length]. by replace (S (S (length arrivals)) - 1)%nat with (S (S (length arrivals) - 1)) by lia. }
      split; [by etransitivity|]. split; [done|]. split; [rewrite Hc'; cbn; by rewrite Hc1|].
      intros e He Hk Hl. apply Hk'; [|done|done]. apply Hq. right. split; [|done].
      apply Hkept; [done|]. pose proof (last_time_ge _ _ i _ Hin). lia.
Qed.
End collect.

Lemma payloads_lookup frags pls :
  length pls = length frags ->
  (forall i fr pl, frags !! i = Some fr -> pls !! i = Some pl -> pkt_get FragmentField 0 fr = Ok pl) ->
  payloads frags = Ok pls.
Proof.
  revert pls. induction frags as [|fr frags IH]; intros [|pl pls] Hl Hg; cbn in Hl; try lia; [done|].
  cbn [payloads]. rewrite (Hg 0%nat fr pl) by done. cbn [mbind result_bind].
  rewrite (IH pls); [done|lia|]. intros i x y Hx Hy. by apply (Hg (S i)).
Qed.

(** The fields of a fragment with its sequence number, as the receiver reads them. *)
Lemma sequenced_fields q i n pl v b fr0 fr1 fr :
  fragment_of q i n pl fr0 -> sequenced v fr0 fr1 -> marked_as b fr1 fr -> is_u64 v ->
  pkt_has FragmentField (decoded fr) = true /\ pkt_get FragmentField 0 (decoded fr) = Ok pl /\
  get_or FragIndexField 0 (decoded fr) = Ok i /\ get_or FragCountField 1 (decoded fr) = Ok n /\
  pkt_has SequenceField (decoded fr) = true /\ pkt_get SequenceField 0 (decoded fr) = Ok v.
Proof.
  intros [_ G1 G2 G3 _ (A1 & A2 & A3) _] [_ Hf _] [_ Hm _ _] Hv.
  assert (Hsame : forall g, TlvType g <> lp_num Sequence -> TlvType g <> lp_num CongestionMark ->
    List.filter (is_field g) (pk_elements fr) = List.filter (is_field g) (pk_elements fr0)).
  { intros g Hg Hc. by rewrite Hm, (proj2 (Z.eqb_neq _ _) Hc), andb_false_r, Hf, (proj2 (Z.eqb_neq _ _) Hg). }
  rewrite pkt_get_filter in G1, G2, G3. unfold pkt_has, pkt_count in A1, A2, A3.
  destruct (get_has_single SequenceField v (decoded fr)) as [S1 S2];
    [done|by cbn [decoded pk_elements]; rewrite Hm, andb_false_r, Hf|].
  unfold get_or. rewrite !pkt_get_filter. unfold pkt_has, pkt_count in *. cbn [decoded pk_elements] in *.
  rewrite !(Hsame FragmentField), !(Hsame FragIndexField), !(Hsame FragCountField) by discriminate.
  rewrite A1, A2, A3. by rewrite pkt_get_filter in S1.
Qed.

(** The fragment sent at an index, its origin and its payload. *)
Definition sent_at (s : ValLinkService) (p : Packet) (n : Z) (i : nat) (pl : octets) (fr : Packet) : Prop :=
  exists fr0, fragment_of (if Nat.eqb i 0 then p else Packet_new) (Z.of_nat i) n pl fr0 /\
    sequenced (u64 (m_lastSeqNo s + 1 + Z.of_nat i)) fr0 fr.

Lemma sent_fragments_at s p netPkt mtu frags :
  sent_fragments s p netPkt mtu frags ->
  exists pls, length pls = length frags /\ concat pls = netPkt /\
    forall i fr, frags !! i = Some fr -> exists pl, pls !! i = Some pl /\ sent_at s p (zlen frags) i pl fr.
Proof.
  intros [_ (frags0 & [_ (pls & Hpl & Hcc & Hall)] & Hlen & Hsq) _].
  assert (Hz : zlen frags0 = zlen frags) by (unfold zlen; by rewrite Hlen).
  exists pls. split; [lia|]. split; [done|]. intros i fr Hi. pose proof (lookup_lt_Some _ _ _ Hi) as Hlt.
  destruct (lookup_lt_is_Some_2 frags0 i ltac:(lia)) as [fr0 H0].
  destruct (lookup_lt_is_Some_2 pls i ltac:(lia)) as [pl Hp].
  destruct (Hall i fr0 pl H0 Hp) as [Hf _]. destruct (Hsq i fr0 H0) as (fr' & Hi' & Hs).
  rewrite Hi in Hi'. injection Hi' as <-. exists pl. split; [done|]. exists fr0. by rewrite <- Hz.
Qed.

Lemma decoded_lookup frags i x :
  map decoded frags !! i = Some x -> exists fr, frags !! i = Some fr /\ x = decoded fr.
Proof.
  change (map decoded frags) with (decoded <$> frags). rewrite list_lookup_fmap.
  destruct (frags !! i) as [fr|]; [|done]. intros [= <-]. by exists fr.
Qed.

(** The sender's fragments, marked or not, are what the reassembler expects once decoded. *)
Lemma sent_fragments_ready now ts s s1 s2 p netPkt mtu frags1 frags :
  sent_fragments s p netPkt mtu frags1 -> (2 <= length frags1)%nat ->
  marked_list now ts 0 s1 frags1 frags s2 -> length frags = length frags1 ->
  exists pls, concat pls = netPkt /\
    fragments_ready (u64 (m_lastSeqNo s + 1)) (map decoded frags) pls /\
    Forall (fun fr => pkt_wf fr /\ pkt_has FragmentField fr = true) frags /\
    exists fr0 fr1 fr pl, frags !! 0%nat = Some fr /\ fragment_of p 0 (zlen frags) pl fr0 /\
      sequenced (u64 (m_lastSeqNo s + 1 + 0)) fr0 fr1 /\ marked_as (marks_packet now (ts 0%nat) s1) fr1 fr.
Proof.
  intros Hsf Hn Hml Hlen. destruct (sent_fragments_at _ _ _ _ _ Hsf) as (pls & Hpl & Hcc & Hat).
  assert (Hz : zlen frags1 = zlen frags) by (unfold zlen; by rewrite Hlen). rewrite Hz in Hat.
  assert (Hat' : forall i fr, frags !! i = Some fr -> exists pl fr0 fr1 b, pls !! i = Some pl /\
    fragment_of (if Nat.eqb i 0 then p else Packet_new) (Z.of_nat i) (zlen frags) pl fr0 /\
    sequenced (u64 (m_lastSeqNo s + 1 + Z.of_nat i)) fr0 fr1 /\ marked_as b fr1 fr /\
    (i = 0%nat -> b = marks_packet now (ts 0%nat) s1)).
  { intros i fr Hi. pose proof (lookup_lt_Some _ _ _ Hi) as Hlt. rewrite Hlen in Hlt.
    destruct (lookup_lt_is_Some_2 frags1 i Hlt) as [fr1 H1].
    destruct (marked_list_lookup _ _ _ _ _ _ _ _ _ Hml H1) as (fr' & b & Hi' & Hb & Hb0).
    rewrite Hi in Hi'. injection Hi' as <-.
    destruct (Hat i fr1 H1) as (pl & Hp & fr0 & Hf & Hs). by exists pl, fr0, fr1, b. }
  exists pls. split; [done|]. split; [split|split].
  - rewrite length_map. lia.
  - apply payloads_lookup; [rewrite length_map; lia|]. intros i x pl (fr & Hi & ->)%decoded_lookup Hp.
    destruct (Hat' i fr Hi) as (pl' & fr0 & fr1 & b & Hp' & Hf & Hs & Hm & _). rewrite Hp in Hp'. injection Hp' as <-.
    by destruct (sequenced_fields _ _ _ _ _ _ _ _ _ Hf Hs Hm (u64_range _)) as (_ & ? & _).
  - intros i x (fr & Hi & ->)%decoded_lookup.
    destruct (Hat' i fr Hi) as (pl & fr0 & fr1 & b & Hp' & Hf & Hs & Hm & _).
    destruct (sequenced_fields _ _ _ _ _ _ _ _ _ Hf Hs Hm (u64_range _)) as (B1 & _ & B2 & B3 & B4 & B5).
    assert (Hzl : zlen (map decoded frags) = zlen frags) by (unfold zlen; by rewrite length_map).
    rewrite Hzl. split; [done|]. split; [done|]. split; [done|]. split; [done|]. rewrite B5.
    unfold u64. by rewrite Zplus_mod_idemp_l.
  - apply Forall_forall. intros fr [i Hi]%list_elem_of_lookup.
    destruct (Hat' i fr Hi) as (pl & fr0 & fr1 & b & Hp' & Hf & Hs & Hm & _). split; [apply Hm|].
    by destruct (sequenced_fields _ _ _ _ _ _ _ _ _ Hf Hs Hm (u64_range _)) as (B1 & _).
  - destruct (lookup_lt_is_Some_2 frags 0 ltac:(lia)) as [fr H0].
    destruct (Hat' 0%nat fr H0) as (pl & fr0 & fr1 & b & Hp' & Hf & Hs & Hm & Hb). rewrite Hb in Hm by done.
    by exists fr0, fr1, fr, pl.
Qed.

(** ** Sending and receiving a VAL packet *)

(** The VAL packet carries the network packet [type], [value] with tags [t]. *)
Inductive carries : ValPacket -> ValHeader -> Z -> octets -> Tags -> Prop :=
  | carries_interest h i i' value :
      Interest_wireEncode i = Ok (element tlv_Interest value, i') ->
      carries (interest_packet h i) h tlv_Interest value (i_tags i')
  | carries_data h d d' value :
      Data_wireEncode d = Ok (element tlv_Data value, d') ->
      carries (data_packet h d) h tlv_Data value (d_tags d').

(** What the receiver makes of it. *)
Inductive arrives_as `{NetworkPackets} (so ro : Options) (h : ValHeader) (t : Tags) (value : octets)
  : Z -> ValPacket -> Prop :=
  | arrives_interest i :
      Interest_ofBlock (element tlv_Interest value) = Ok i ->
      arrives_as so ro h t value tlv_Interest
        (interest_packet (received_header h) (received_interest so ro t i))
  | arrives_data d :
      allowSelfLearning so && tag_nonDiscovery t = false ->
      Data_ofBlock (element tlv_Data value) = Ok d ->
      arrives_as so ro h t value tlv_Data (data_packet (received_header h) (received_data t d)).

(** The conditions on what is sent: the sizes and integers fit in the format. *)
Record sendable (h : ValHeader) (type : Z) (value : octets) (t : Tags) : Prop := {
  sn_tags : tags_ok t;
  sn_header : header_ok h;
  sn_size : zlen (tlv type value) < 2 ^ 32;
}.

Lemma carries_type vp h type value t : carries vp h type value t -> type = tlv_Interest \/ type = tlv_Data.
Proof. intros []; auto. Qed.

(** The packet that the fields of [sent_fields] describe is what is sent. *)
Lemma send_cases `{NetworkPackets} now ts vp h type value t s mtu :
  carries vp h type value t -> sendable h type value t -> sender_ok s ts mtu ->
  exists p s' out, holds_fields p (sent_fields (m_options s) t h (tlv type value)) /\
    is_bare p = false /\ doSendValPacket now ts vp s = Ok (s', out) /\
    sent_as now ts s p (tlv type value) mtu s' out.
Proof.
  intros Hc [Tt Th Tl] Hso.
  destruct (build_packet (m_options s) t h type value Tt Th (carries_type _ _ _ _ _ Hc) Tl)
    as (p0 & p1 & p & E0 & E1 & E2 & Hp).
  assert (Hb : is_bare p = false) by (eapply (holds_not_bare p _ (lp_num HopCountTag)); done).
  assert (Hne : tlv type value <> []) by (pose proof (tlv_nonempty type value []) as E; by rewrite app_nil_r in E).
  destruct (link_send_cases now ts p _ (tlv type value) mtu s Hso Hp) as (s' & out & p2 & E & Hw2 & He2 & Hs);
    [unfold sent_fields; put_simpl|unfold sent_fields; put_simpl|unfold sent_fields; put_simpl
    |done|done|done|].
  exists p2, s', out. split; [split; [done|]; rewrite He2; apply Hp|].
  split; [unfold is_bare in *; by rewrite He2|]. split; [|done].
  destruct Hc as [h i i' value Hw|h d d' value Hw]; unfold doSendValPacket;
    cbn [isSet interest_packet data_packet setInterest setData ValPacket_new m_isSet getValHeader m_valH].
  - change (isSet (interest_packet h i) =? INTEREST_SET) with true. cbn iota.
    change (getInterest (interest_packet h i)) with (@Ok Interest i). cbn [mbind result_bind].
    rewrite Hw. cbn [mbind result_bind]. rewrite E0. cbn [mbind result_bind]. rewrite E1. cbn [mbind result_bind].
    change (getValHeader (interest_packet h i)) with h. rewrite E2. done.
  - change (isSet (data_packet h d) =? INTEREST_SET) with false.
    change (isSet (data_packet h d) =? DATA_SET) with true. cbn iota.
    change (getData (data_packet h d)) with (@Ok Data d). cbn [mbind result_bind].
    rewrite Hw. cbn [mbind result_bind]. rewrite E0. cbn [mbind result_bind]. rewrite E1. cbn [mbind result_bind].
    change (getValHeader (data_packet h d)) with h. rewrite E2. done.
Qed.

(** A packet made of the fields that were sent, and marked or not. *)
Lemma marked_fields b o t h netPkt p p' :
  holds_fields p (sent_fields o t h netPkt) -> marked_as b p p' ->
  holds_fields p' (sent_fields o (mark_tags b t) h netPkt).
Proof.
  intros [Hw HF] Hm. split; [apply Hm|]. intros g. by rewrite (mk_fields _ _ _ Hm), sent_fields_marked, HF.
Qed.

Lemma received_whole o t h netPkt p :
  holds_fields p (sent_fields o t h netPkt) -> is_bare p = false ->
  received_first o t h netPkt (decoded p).
Proof. intros [Hw HF] Hb. split; [by apply decoded_wf|done|]. intros g _. apply HF. Qed.

Lemma received_fragment o t h netPkt p c pl v b fr0 fr1 fr :
  holds_fields p (sent_fields o t h netPkt) -> fragment_of p 0 c pl fr0 -> sequenced v fr0 fr1 ->
  marked_as b fr1 fr -> received_first o (mark_tags b t) h netPkt (decoded fr).
Proof.
  intros [Hw HF] Hf Hs Hm. split.
  - apply decoded_wf, Hm.
  - change (is_bare fr = false). by eapply marked_not_bare; [eapply sequenced_not_bare|].
  - intros g Hg. cbn [decoded pk_elements]. rewrite (mk_fields _ _ _ Hm), (sq_fields _ _ _ Hs), sent_fields_marked.
    destruct (b && (TlvType g =? lp_num CongestionMark)); [done|].
    rewrite !elem_of_cons in Hg. rewrite (proj2 (Z.eqb_neq _ _)) by tauto.
    rewrite (fo_others _ _ _ _ _ Hf) by (rewrite !elem_of_cons; tauto). apply HF.
Qed.

Lemma makeValPacket_arrives `{NetworkPackets} so ro h t value type vp q hopC0 c :
  tags_ok t -> header_ok h -> received_first so t h (tlv type value) q ->
  arrives_as so ro h t value type vp ->
  makeValPacket ro hopC0 (element type value) q c = Ok (Some vp, incr_inValPkt c).
Proof.
  intros Ht Hh Hq Ha. destruct Ha as [i Hi|d Hn Hd];
    [by eapply makeValPacket_interest|by eapply makeValPacket_data].
Qed.

(** A packet that was sent whole is delivered at once. *)
Lemma deliver_whole `{NetworkPackets} ep hopC0 now so h t type value p vp s :
  tags_ok t -> header_ok h -> encodable type value ->
  holds_fields p (sent_fields so t h (tlv type value)) -> is_bare p = false ->
  1 <= re_nMaxFragments (m_reassembler s) -> zlen (tlv type value) < 2 ^ 32 ->
  arrives_as so (m_options s) h t value type vp ->
  doReceivePacket now ep hopC0 (lp_block p) s = (with_counters incr_inValPkt s, Ok (Some vp)).
Proof.
  intros Ht Hh He Hp Hb Hm Hl Ha. pose proof Hp as [Hw HF].
  assert (Hne : tlv type value <> []) by (pose proof (tlv_nonempty type value []) as E; by rewrite app_nil_r in E).
  assert (Hfields : sent_fields so t h (tlv type value) (TlvType FragmentField) =
      [element (TlvType FragmentField) (tlv type value)] /\
    sent_fields so t h (tlv type value) (TlvType FragIndexField) = [] /\
    sent_fields so t h (tlv type value) (TlvType FragCountField) = []).
  { unfold sent_fields. split; [put_simpl|split; put_simpl]. }
  destruct Hfields as (F1 & F2 & F3).
  destruct (get_has_single FragmentField (tlv type value) (decoded p)) as [G1 G2]; [done|exact (eq_trans (HF _) F1)|].
  assert (N1 : pkt_has FragIndexField (decoded p) = false) by (apply no_field_has; exact (eq_trans (HF _) F2)).
  assert (N2 : pkt_has FragCountField (decoded p) = false) by (apply no_field_has; exact (eq_trans (HF _) F3)).
  unfold doReceivePacket, lp_block. rewrite pkt_wireDecode_full by done. fold (lp_block p).
  fold (decoded p). rewrite G2, N1, N2. cbn [negb orb andb].
  assert (Hrecv : receiveFragment now ep (decoded p) (m_reassembler s) =
    (m_reassembler s, Ok (Some (element type value, decoded p)))).
  { unfold receiveFragment, get_or. rewrite G2, N1, N2. cbn [negb].
    destruct (Z.gtb_spec 1 (re_nMaxFragments (m_reassembler s))); [lia|].
    change (1 <=? 0) with false. change ((0 =? 0) && (1 =? 1)) with true. cbn iota. rewrite G1. cbn [mbind result_bind].
    assert (Hbuf : Block_ofBuffer (tlv type value ++ []) = Ok (element type value))
      by (by apply Block_ofBuffer_tlv).
    rewrite app_nil_r in Hbuf. cbn [field_norm Fragment_laws] in *. rewrite Hbuf. done. }
  rewrite Hrecv. cbn [catch_tlv m_options with_reassembler]. rewrite (makeValPacket_arrives so (m_options s) h t value type vp (decoded p) hopC0 _ Ht Hh
    (received_whole _ _ _ _ _ Hp Hb) Ha).
  cbn [mbind result_bind catch_tlv]. by destruct s.
Qed.

(** The receiver that has dropped nothing but what its timers dropped still has the partial
    packets whose timers are later. *)
Lemma kept_partials (re re' : LpReassembler) e :
  re_inv re -> re_inv re' -> m_partialPackets re' ⊆ m_partialPackets re ->
  e ∈ m_queue (re_timers re) -> e ∈ m_queue (re_timers re') ->
  m_partialPackets re' !! ev_callback e = m_partialPackets re !! ev_callback e.
Proof.
  intros _ [(_ & _ & Hq) _] Hs _ He. destruct (Hq e He) as (pp & Hpp & _). rewrite Hpp. symmetry.
  by eapply lookup_weaken.
Qed.

Lemma other_key (re : LpReassembler) key e :
  re_inv re -> m_partialPackets re !! key = None -> e ∈ m_queue (re_timers re) -> ev_callback e <> key.
Proof. intros [(_ & _ & Hq) _] Hk He E. destruct (Hq e He) as (pp & Hpp & _). by rewrite E, Hk in Hpp. Qed.

(** A packet that was handed to the transport is delivered when its last piece arrives. *)
Lemma link_transfer `{NetworkPackets} (now : Z) (ts : nat -> transport) (vp vp' : ValPacket)
    (h : ValHeader) (type : Z) (value : octets) (t : Tags) (s s' r : ValLinkService) (mtu : Z)
    (out : list Block) (ep hopC0 : Z) (arrivals : list (Z * nat))
    (Hc : carries vp h type value t) (Hs : sendable h type value t) (Ho : sender_ok s ts mtu)
    (He : encodable type value)
    (Hsend : doSendValPacket now ts vp s = Ok (s', out)) (Hne : out <> [])
    (Hr : allowReassembly (m_options r) = true) (Hi : re_inv (m_reassembler r))
    (Hm : nMaxFragments (m_options s) <= re_nMaxFragments (m_reassembler r))
    (Hk : m_partialPackets (m_reassembler r) !! (ep, u64 (m_lastSeqNo s + 1)) = None)
    (Ha : arrives_as (m_options s) (m_options r) h (mark_tags (marks_packet now (ts 0%nat) s) t) value type vp')
    (Hp : map snd arrivals ≡ₚ seq 0 (length out))
    (Ht : timely (re_reassemblyTimeout (m_reassembler r)) arrivals) :
  exists r', deliver_all ep hopC0 out arrivals r =
      (r', replicate (length out - 1) (Ok None) ++ [Ok (Some vp')]) /\
    m_partialPackets (m_reassembler r') ⊆ m_partialPackets (m_reassembler r) /\
    (forall e, e ∈ m_queue (re_timers (m_reassembler r)) -> last_time arrivals < ev_time e ->
       m_partialPackets (m_reassembler r') !! ev_callback e = m_partialPackets (m_reassembler r) !! ev_callback e) /\
    nInValPkt (counters r') = nInValPkt (counters r) + 1.
Proof.
  destruct (send_cases now ts vp h type value t s mtu Hc Hs Ho) as (p & s1 & out1 & Hf & Hb & E & Hsa).
  rewrite Hsend in E. injection E as <- <-. destruct Hs as [Tt Th Tl]. pose proof (so_max _ _ _ Ho).
  pose proof (proj1 (proj2 (so_marking _ _ _ Ho))) as Hmk0.
  set (key := (ep, u64 (m_lastSeqNo s + 1))) in *.
  destruct Hsa as [| |p' s1 Hm1 Hs1 Hfit|last frags frags' s1 Hl Hfr Hn Hml Hfit]; [done|done| |].
  - cbn in Hp. apply Permutation_singleton_r in Hp. destruct arrivals as [|[now' i] [|]]; try done.
    injection Hp as ->. cbn [deliver_all nth]. 
    assert (Hran : timers_ran key now' r (due_timers now' r)).
    { apply run_timers_ran; [done|]. intros e Hin Hek. by destruct (other_key _ _ _ Hi Hk Hin). }
    pose proof Hran as [Ho1 Hc1 Hx1 _ Hri1 Hsub _ _ Hkept].
    rewrite (deliver_whole ep hopC0 now' (m_options s) h (mark_tags (marks_packet now (ts 0%nat) s) t) type value p' vp');
      [|by apply mark_tags_ok|done|done|by eapply marked_fields|by eapply marked_not_bare|rewrite Hx1; lia|done|by rewrite Ho1].
    eexists. split; [done|]. cbn [with_counters m_reassembler counters incr_inValPkt nInValPkt].
    split; [done|]. split; [|by rewrite Hc1].
    intros e Hin Hlt. apply kept_partials; [done|done|done|done|by apply Hkept].
  - destruct (marked_list_state _ _ _ _ _ _ _ Hml Hmk0) as (k & _ & _ & Hlen).
    destruct (sent_fragments_ready _ _ _ _ _ _ _ _ _ _ Hfr Hn Hml Hlen)
      as (pls & Hcc & Hready & Hok & fr0 & fr1 & fr & pl & Hfr0 & Hf0 & Hsq & Hmk).
    rewrite length_map in Hp.
    assert (Hal : length arrivals = length (map lp_block frags'))
      by (rewrite length_map, <- (length_map snd), Hp; apply length_seq).
    destruct (deliver_collect ep hopC0 (u64 (m_lastSeqNo s + 1)) frags' pls type value (m_options r) fr vp'
      (u64_range _) Hready Hcc He ltac:(by rewrite Hcc) Hok Hfr0) with (arrivals := arrivals) (got := @nil nat) (s := r)
      (m0 := m_partialPackets (m_reassembler r)) (last := 0) as (r' & Ed & Hsub & Hri & Hcn & Hkept); try done.
    + intros c. eapply makeValPacket_arrives; [by apply mark_tags_ok|done| |exact Ha].
      change (marks_packet now (ts 0%nat) s) with (marks_packet now (ts 0%nat) (with_seqNo last s)).
      by eapply received_fragment.
    + pose proof (sf_bound _ _ _ _ _ Hfr). unfold zlen in *. rewrite Hlen. lia.
    + intros ->. cbn in Hal. rewrite length_map in Hal. lia.
    + by rewrite app_nil_r.
    + rewrite <- Hal. exists r'. split; [done|]. split; [done|]. split; [|done].
      intros e Hin Hlt. apply kept_partials; [done|done|done|done|].
      apply Hkept; [done|exact (other_key _ _ _ Hi Hk Hin)|done].
Qed.

(** ** Properties *)

(** C16: sending a VAL packet whose tags carry no prefix announcement and whose sizes and
    integers fit in the format fails with no exception and violates no assertion, with and
    without congestion marking, as long as the transport has no MTU or a positive one, more
    than the twelve octets of a congestion mark if packets may be marked.  Everything handed
    to the transport fits in the MTU, marked or not.  Nothing is handed to it only when the
    packet cannot be fragmented within the limits, or is too large and fragmentation is off,
    and then exactly one counter says so; the other counters are unchanged except that of
    the marks, which grows by at most the number of packets handed over (by nothing if
    marking is off); the state of reassembly is never touched. *)
Theorem link_sends_within_mtu `{NetworkPackets} (now : Z) (ts : nat -> transport) (vp : ValPacket)
    (h : ValHeader) (type : Z) (value : octets) (t : Tags) (s : ValLinkService) (mtu : Z)
    (Hc : carries vp h type value t) (Hs : sendable h type value t) (Ho : sender_ok s ts mtu) :
  exists s' out, doSendValPacket now ts vp s = Ok (s', out) /\ Forall (fits mtu) out /\
    m_reassembler s' = m_reassembler s /\ m_options s' = m_options s /\
    (out = [] ->
       s' = with_counters incr_fragmentationErrors s /\ allowFragmentation (m_options s) = true \/
       allowFragmentation (m_options s) = false /\ exists s1,
         marked_state (Z.b2z (marks_packet now (ts 0%nat) s)) s s1 /\ s' = with_counters incr_outOverMtu s1) /\
    (out <> [] -> exists k, 0 <= k <= zlen out /\ counters s' = count_marks k (counters s) /\
       (allowCongestionMarking (m_options s) = false -> counters s' = counters s)).
Proof.
  destruct (send_cases now ts vp h type value t s mtu Hc Hs Ho) as (p & s' & out & _ & _ & E & Hsa).
  exists s', out. split; [done|]. pose proof (proj1 (proj2 (so_marking _ _ _ Ho))) as Hmk0.
  destruct Hsa as [Hf Hw|p' s1 Hf Hm Hms Hw|p' s1 Hm Hms Hf|last frags frags' s1 Hl Hf Hn Hml Hfit].
  - split; [constructor|]. split; [done|]. split; [done|]. split; [by left|done].
  - split; [constructor|]. pose proof Hms as [(? & ? & ? & ->) _ _]. split; [done|]. split; [done|]. split; [|done].
    intros _. right. split; [done|]. eexists. by split.
  - split; [by constructor|]. pose proof (ms_off _ _ _ Hms) as Hoff. destruct Hms as [(? & ? & ? & ->) _ _].
    split; [done|]. split; [done|]. split; [done|]. intros _. eexists. split; [|split; [done|]].
    + destruct (marks_packet now (ts 0%nat) s); by vm_compute.
    + intros Ha. by rewrite Hoff.
  - destruct (marked_list_state _ _ _ _ _ _ _ Hml Hmk0) as (k & Hk & Hms & Hlen).
    pose proof (ms_off _ _ _ Hms) as Hoff. destruct Hms as [(? & ? & ? & ->) _ _].
    split; [by apply Forall_map|]. split; [done|]. split; [done|]. split.
    + intros E0%(f_equal length). rewrite length_map in E0. cbn in E0. lia.
    + intros _. exists k. split; [unfold zlen in *; rewrite length_map; lia|]. split; [done|].
      intros Ha. by rewrite Hoff.
Qed.

(** C15: a VAL packet that was handed to the transport, whole or in fragments, marked for
    congestion or not, reaches the forwarder of the receiver exactly once, when the last of
    its packets has arrived, whatever their order, as long as each of them arrives before
    the reassembly timer started by the one before it: with the same header fields, the
    network packet decoded from the same octets, its hop count one higher, and the
    congestion mark of the sender's packet, or 1 if the sender marked the first packet
    because its queue was congested.  The receiver reassembles, allows as many fragments as
    the sender, and is not already collecting a packet with the same identifier.  Of its
    other partial packets only those are gone whose timer was due. *)
Theorem link_roundtrip `{NetworkPackets} (now : Z) (ts : nat -> transport) (vp vp' : ValPacket)
    (h : ValHeader) (type : Z) (value : octets) (t : Tags) (s s' r : ValLinkService) (mtu : Z)
    (out : list Block) (ep hopC0 : Z) (arrivals : list (Z * nat))
    (Hc : carries vp h type value t) (Hs : sendable h type value t) (Ho : sender_ok s ts mtu)
    (He : encodable type value)
    (Hsend : doSendValPacket now ts vp s = Ok (s', out)) (Hne : out <> [])
    (Hr : allowReassembly (m_options r) = true) (Hi : re_inv (m_reassembler r))
    (Hm : nMaxFragments (m_options s) <= re_nMaxFragments (m_reassembler r))
    (Hk : m_partialPackets (m_reassembler r) !! (ep, u64 (m_lastSeqNo s + 1)) = None)
    (Ha : arrives_as (m_options s) (m_options r) h (mark_tags (marks_packet now (ts 0%nat) s) t) value type vp')
    (Hp : map snd arrivals ≡ₚ seq 0 (length out))
    (Ht : timely (re_reassemblyTimeout (m_reassembler r)) arrivals) :
  exists r', deliver_all ep hopC0 out arrivals r =
      (r', replicate (length out - 1) (Ok None) ++ [Ok (Some vp')]) /\
    m_partialPackets (m_reassembler r') ⊆ m_partialPackets (m_reassembler r) /\
    (forall e, e ∈ m_queue (re_timers (m_reassembler r)) -> last_time arrivals < ev_time e ->
       m_partialPackets (m_reassembler r') !! ev_callback e = m_partialPackets (m_reassembler r) !! ev_callback e) /\
    nInValPkt (counters r') = nInValPkt (counters r) + 1.
Proof. by eapply link_transfer. Qed.

(** An Interest travels end to end.  An Interest made by its setters and not
    encoded yet is encoded, sent and, once all packets have arrived in whatever order,
    handed to the forwarder of the receiver once: with its name, nonce, lifetime,
    CanBePrefix, MustBeFresh and delegations, the header fields of the VAL packet, the hop
    count tag one higher and the congestion mark kept, or 1 if the sender marked it. *)
Theorem link_interest_end_to_end `{NetworkPackets} (now : Z) (ts : nat -> transport)
    (h : ValHeader) (i : Interest) (s s' r : ValLinkService) (mtu : Z) (out : list Block)
    (ep hopC0 : Z) (arrivals : list (Z * nat))
    (Hw : wf_Interest i) (Hnw : i_wire i = None)
    (Hs : sendable h tlv_Interest (tlvs (Interest_elements i)) (i_tags i)) (Ho : sender_ok s ts mtu)
    (Hsend : doSendValPacket now ts (interest_packet h i) s = Ok (s', out)) (Hne : out <> [])
    (Hr : allowReassembly (m_options r) = true) (Hi : re_inv (m_reassembler r))
    (Hm : nMaxFragments (m_options s) <= re_nMaxFragments (m_reassembler r))
    (Hk : m_partialPackets (m_reassembler r) !! (ep, u64 (m_lastSeqNo s + 1)) = None)
    (Hp : map snd arrivals ≡ₚ seq 0 (length out))
    (Ht : timely (re_reassemblyTimeout (m_reassembler r)) arrivals) :
  exists r' j, deliver_all ep hopC0 out arrivals r =
      (r', replicate (length out - 1) (Ok None) ++ [Ok (Some (interest_packet (received_header h)
        (received_interest (m_options s) (m_options r) (mark_tags (marks_packet now (ts 0%nat) s) (i_tags i)) j)))]) /\
    i_name j = i_name i /\ getNonce j = getNonce i /\ i_hasNonce j = true /\
    i_interestLifetime j = i_interestLifetime i /\ getMustBeFresh j = getMustBeFresh i /\
    dl_dels (i_forwardingHint j) ≡ₚ dl_dels (i_forwardingHint i) /\
    (hasParameters i = true \/ sel_maxSuffixComponents (i_selectors i) = -1 \/
       sel_maxSuffixComponents (i_selectors i) = 1 -> getCanBePrefix j = getCanBePrefix i).
Proof.
  destruct (Interest_wireEncode_wf i Hw Hnw) as (Hwe & Hdec).
  destruct (Hdec (generateWord32 (element tlv_Interest (tlvs (Interest_elements i))))) as (j & Hj & Hfields).
  assert (Hc : carries (interest_packet h i) h tlv_Interest (tlvs (Interest_elements i)) (i_tags i)).
  { pose proof (carries_interest h i _ _ Hwe) as Hc. unfold Interest_decoded in Hc.
    by destruct (hasParameters i). }
  destruct (link_transfer now ts (interest_packet h i) (interest_packet (received_header h)
      (received_interest (m_options s) (m_options r) (mark_tags (marks_packet now (ts 0%nat) s) (i_tags i)) j))
      h tlv_Interest (tlvs (Interest_elements i)) (i_tags i) s s' r mtu out ep hopC0 arrivals Hc Hs Ho)
    as (r' & Hd & _); try done.
  - split; [done|apply Hw].
  - by constructor.
  - by exists r', j.
Qed.

(** ** A transmission over an MTU of 160, with a congested queue and the options of
    [StackHelper] (helper/ndn-stack-helper.cpp) *)

#[local] Instance sample_env : NetworkPackets :=
  {| generateWord32 _ := 7; fromIsoString _ := Err (BadCast "not used") |}.

Definition sample_options : Options := mkOptions false true 400 true 400 500000000 true 100000000 65536 true.
Definition sample_service : ValLinkService := ValLinkService_new sample_options.
Definition sample_header : ValHeader := ValHeader_new (str "A1") (str "C2") (str "10:20:0") (str "/v") 9.
Definition sample_sent : Interest :=
  mkInterest [mkComponent 8 (replicate 140 x41)] Selectors_new true 7 4000 DelegationList_new Block_default
    None (mkTags None None None (Some 500) false None (Some 3)).
Definition sample_value : octets := tlvs (Interest_elements sample_sent).
Definition sample_transport : nat -> transport := fun _ => mkTransport 160 100000 150000.

Lemma sample_sent_wf : wf_Interest sample_sent.
Proof.
  split; [repeat constructor; by vm_compute| |by vm_compute|by vm_compute|constructor|done|by vm_compute].
  split; [by vm_compute|by vm_compute|done| |by left]. split; [split|]; constructor.
Qed.

Lemma sample_sendable : sendable sample_header tlv_Interest sample_value (i_tags sample_sent).
Proof.
  split; [|repeat split; by vm_compute|by vm_compute].
  split; [done|]. split; [by intros v [= <-]|]. split; [by intros v [= <-]|done].
Qed.
Lemma sample_sender_ok : sender_ok sample_service sample_transport 160.
Proof. split; [done|by right|done|by vm_compute|by vm_compute]. Qed.
Lemma sample_carries :
  carries (interest_packet sample_header sample_sent) sample_header tlv_Interest sample_value (i_tags sample_sent).
Proof.
  exact (carries_interest sample_header sample_sent _ _
    (proj1 (Interest_wireEncode_wf sample_sent sample_sent_wf eq_refl))).
Qed.

Lemma link_sends_within_mtu_witness :
  exists s' out, doSendValPacket 0 sample_transport (interest_packet sample_header sample_sent)
      sample_service = Ok (s', out) /\ Forall (fits 160) out.
Proof.
  destruct (link_sends_within_mtu 0 sample_transport (interest_packet sample_header sample_sent)
    sample_header tlv_Interest sample_value (i_tags sample_sent) sample_service 160
    sample_carries sample_sendable sample_sender_ok) as (s' & out & H1 & H2 & _).
  exists s', out. split; [exact H1|exact H2].
Defined.

(** The transmission takes three packets. *)
Lemma sample_transmission :
  exists s' out, doSendValPacket 0 sample_transport (interest_packet sample_header sample_sent)
    sample_service = Ok (s', out) /\ length out = 3%nat.
Proof.
  assert (Hc : match doSendValPacket 0 sample_transport (interest_packet sample_header sample_sent)
      sample_service with Ok (_, out) => length out = 3%nat | Err _ => False end) by (vm_compute; reflexivity).
  destruct (doSendValPacket 0 sample_transport (interest_packet sample_header sample_sent)
    sample_service) as [[s' out]|e] eqn:E; [|destruct Hc].
  exists s', out. split; [reflexivity|exact Hc].
Qed.

Lemma sample_reassembler : re_inv (m_reassembler sample_service).
Proof. split; [apply owned_new|by intros key pp Hk]. Qed.

Lemma sample_marked : marks_packet 0 (sample_transport 0%nat) sample_service = true.
Proof. vm_compute. reflexivity. Qed.

Lemma sample_timely :
  timely (re_reassemblyTimeout (m_reassembler sample_service)) [(10, 2%nat); (20, 0%nat); (499999999, 1%nat)].
Proof.
  change (re_reassemblyTimeout (m_reassembler sample_service)) with 500000000. cbn [timely in_time].
  split; [lia|]. split; [lia|exact I].
Qed.

Lemma link_roundtrip_witness :
  exists s' out r' vp', doSendValPacket 0 sample_transport (interest_packet sample_header sample_sent)
      sample_service = Ok (s', out) /\
    deliver_all 5 77 out [(10, 2%nat); (20, 0%nat); (499999999, 1%nat)] sample_service =
      (r', [Ok None; Ok None; Ok (Some vp')]).
Proof.
  destruct sample_transmission as (s' & out & E & Hc).
  destruct (proj2 (Interest_wireEncode_wf sample_sent sample_sent_wf eq_refl) 7) as (j & Hj & _).
  destruct (link_roundtrip 0 sample_transport (interest_packet sample_header sample_sent)
    (interest_packet (received_header sample_header)
      (received_interest sample_options sample_options (mark_tags true (i_tags sample_sent)) j))
    sample_header tlv_Interest sample_value (i_tags sample_sent) sample_service s' sample_service 160 out
    5 77 [(10, 2%nat); (20, 0%nat); (499999999, 1%nat)] sample_carries sample_sendable
    sample_sender_ok) as (r' & Hd & _).
  - repeat split; by vm_compute.
  - exact E.
  - intros ->. discriminate Hc.
  - reflexivity.
  - apply sample_reassembler.
  - by vm_compute.
  - reflexivity.
  - rewrite sample_marked. exact (arrives_interest _ _ _ _ _ j Hj).
  - rewrite Hc. apply (Permutation_middle [0; 1]%nat [] 2%nat).
  - exact sample_timely.
  - eexists s', out, r', _. split; [exact E|]. rewrite Hc in Hd. exact Hd.
Defined.

Lemma link_interest_end_to_end_witness :
  exists s' out r' j, doSendValPacket 0 sample_transport (interest_packet sample_header sample_sent)
      sample_service = Ok (s', out) /\
    deliver_all 5 77 out [(10, 2%nat); (20, 0%nat); (499999999, 1%nat)] sample_service =
      (r', [Ok None; Ok None; Ok (Some (interest_packet (received_header sample_header)
        (received_interest sample_options sample_options (mark_tags true (i_tags sample_sent)) j)))]) /\
    getNonce j = 7.
Proof.
  destruct sample_transmission as (s' & out & E & Hc).
  destruct (link_interest_end_to_end 0 sample_transport sample_header sample_sent sample_service s'
    sample_service 160 out 5 77 [(10, 2%nat); (20, 0%nat); (499999999, 1%nat)] sample_sent_wf eq_refl
    sample_sendable sample_sender_ok E) as (r' & j & Hd & _ & Hn & _).
  - intros ->. discriminate Hc.
  - reflexivity.
  - apply sample_reassembler.
  - by vm_compute.
  - reflexivity.
  - rewrite Hc. apply (Permutation_middle [0; 1]%nat [] 2%nat).
  - exact sample_timely.
  - exists s', out, r', j. split; [exact E|]. rewrite Hc, sample_marked in Hd. split; [exact Hd|exact Hn].
Defined.
