(* ===== verification/LinkSafety.v ===== *)
(** * Receiving anything (model/val/face/val-link-service.cpp, NFD/daemon/face/lp-reassembler.cpp)

    The octets a link service receives come from other nodes.  Whatever they are, the
    receive path raises nothing but [tlv::Error]s, which it catches and counts, with two
    exceptions: an assertion that a packet with a Nack field violates, and what the parser
    of ISO dates throws beside [std::bad_cast] for the dates of a prefix announcement. *)

From stdpp Require Import base list strings sorting gmap.
From Stdlib Require Import Strings.Byte ZArith Lia.
From S2P Require Import Prelude Tlv Encoder Block Codec Ndn NameTlv Signature Data Interest ValHeader ValPacket LpPacket.
From S2P Require Import Scheduler LpReassembler Double ValLinkService.

Local Open Scope Z_scope.

Lemma parse_nonempty b els : parse b = Ok els -> block_value b <> [] -> els <> [].
Proof.
  unfold parse. intros H Hv ->. destruct (block_value b) as [|x bs] eqn:E; [done|].
  cbn [length] in H. rewrite parse_loop_step in H by done.
  apply result_bind_Ok in H as ([t r] & _ & H). apply result_bind_Ok in H as ([l p] & _ & H).
  case_match; [done|]. by apply result_bind_Ok in H as (els & _ & [= ?]).
Qed.

(** *** Fields *)

Lemma caught_decode_element h el : caught (decode_element h el).
Proof.
  unfold decode_element. repeat (case_match; [done|]). case_match; [|done].
  apply caught_bind; [apply caught_readNonNegativeInteger|done].
Qed.
Lemma caught_decode_elements h els : caught (decode_elements h els).
Proof.
  revert h. induction els as [|el els IH]; intros h; [done|].
  apply caught_bind; [apply caught_decode_element|]. intros h' _. apply IH.
Qed.
Lemma caught_ValHeader hopC0 b : caught (ValHeader_ofBlock hopC0 b).
Proof.
  unfold ValHeader_ofBlock, wireDecode. case_match; [done|].
  apply caught_bind; [apply caught_parse|]. intros els _. apply caught_decode_elements.
Qed.

(** The fields whose decoder raises [tlv::Error]s only. *)
Class CaughtField (f : FieldDecl) {V} `{FieldCodec f V} :=
  caught_field : forall b, caught (DecodeHelper f b).

#[export] Instance caught_nni f : @CaughtField f Z (nni_codec f).
Proof. intros b. apply caught_readNonNegativeInteger. Qed.
#[export] Instance caught_u64 f : @CaughtField f Z (u64_codec f).
Proof. intros b. cbn. unfold decode_u64. by case_match. Qed.
#[export] Instance caught_FragIndex : CaughtField FragIndexField := caught_nni _.
#[export] Instance caught_FragCount : CaughtField FragCountField := caught_nni _.
#[export] Instance caught_NextHopFaceId : CaughtField NextHopFaceIdField := caught_nni _.
#[export] Instance caught_CongestionMark : CaughtField CongestionMarkField := caught_nni _.
#[export] Instance caught_Sequence : CaughtField SequenceField := caught_u64 _.
#[export] Instance caught_HopCountTag : CaughtField HopCountTagField := caught_u64 _.
#[export] Instance caught_NonDiscovery : CaughtField NonDiscoveryField.
Proof. intros b. cbn. unfold decode_empty. by case_match. Qed.
#[export] Instance caught_Fragment : CaughtField FragmentField.
Proof. intros b. cbn. unfold decode_range. by case_match. Qed.
#[export] Instance caught_CachePolicy : CaughtField CachePolicyField.
Proof.
  intros b. cbn. unfold CachePolicy_wireDecode. case_match; [done|].
  apply caught_bind; [apply caught_parse|]. intros [|it els] _; [done|]. case_match; [|done].
  apply caught_bind; [apply caught_readNonNegativeInteger|]. intros n _. by case_match.
Qed.

(** Nothing is assumed of the parser of ISO dates: what it throws, other than
    [std::bad_cast], passes through [ValidityPeriod::wireDecode]. *)
Definition date_fault `{NetworkPackets} (e : fault) : Prop :=
  (exists s, fromIsoString s = Err e) /\ forall w, e <> BadCast w.

(** A [tlv::Error] or such an exception. *)
Definition dated `{NetworkPackets} {A} (r : result A) : Prop :=
  caught r \/ exists e, r = Err e /\ date_fault e.

Lemma dated_caught `{NetworkPackets} {A} (r : result A) : caught r -> dated r.
Proof. by left. Qed.
Lemma dated_bind `{NetworkPackets} {A B} (m : result A) (f : A -> result B) :
  dated m -> (forall a, m = Ok a -> dated (f a)) -> dated (let* a := m in f a).
Proof.
  intros [Hm|(e & -> & He)] Hf; [|right; by exists e]. destruct m as [a|e]; [by apply Hf|by left].
Qed.

Lemma dated_ValidityPeriod `{NetworkPackets} b : dated (ValidityPeriod_wireDecode fromIsoString b).
Proof.
  unfold ValidityPeriod_wireDecode. case_match; [by left|].
  apply dated_bind; [apply dated_caught, caught_parse|].
  intros els _. case_match; [by left|]. destruct els as [|nb [|na [|? ?]]]; try by left. case_match; [by left|].
  assert (Hd : forall s e, fromIsoString s = Err e ->
    dated (match @Err (Z * Z) e with
           | Err (BadCast _) => Err (TlvError "Invalid date format in NOT-BEFORE or NOT-AFTER field")
           | r => r end)).
  { intros s e He. destruct e; try (right; eexists; split; [done|]; split; [by exists s|done]). by left. }
  destruct (fromIsoString (readString nb)) as [b'|e] eqn:E1; cbn [mbind result_bind]; [|by apply (Hd (readString nb))].
  destruct (fromIsoString (readString na)) as [a'|e] eqn:E2; cbn [mbind result_bind]; [by left|by apply (Hd (readString na))].
Qed.

(** A template that does not throw encodes to a block or to a [tlv::Error]. *)
Lemma caught_Data_encode d :
  Signature_valid (d_signature d) = true -> is_Some (si_wire (sig_info (d_signature d))) ->
  caught (encodeWire (Data_encode d false)).
Proof.
  intros Hv [w Hw]. unfold encodeWire, Data_encode. cbn [negb]. rewrite Hv.
  unfold Signature_getInfo, SignatureInfo_wireEncode. rewrite Hw. cbn [negb mbind result_bind].
  unfold encodeBlock, Encoder_block. destruct (emits_MetaInfo_any (E:=Encoder) (d_metaInfo d)) as [mb Hm].
  erewrite emits_fresh.
  2: { apply emits_prependElement, emits_prependAll. repeat (apply Forall2_cons; split);
         [apply emits_prependBlock|apply emits_prependBlock|apply emits_prependBlock|exact Hm|apply emits_Name|constructor]. }
  rewrite Block_ofWire_step.
  - apply caught_bind_all; [auto with valdb|]. intros [t rest]. apply caught_bind_all; [auto with valdb|].
    intros [l v]. by case_match.
  - match goal with |- tlv ?t ?v <> [] => pose proof (tlv_nonempty t v []) as Hne end.
    by rewrite app_nil_r in Hne.
Qed.

(** A Data from the wire has a valid signature with its block. *)
Definition decoded_signature (s : Signature) : Prop :=
  si_type (sig_info s) = -1 \/ is_Some (si_wire (sig_info s)).

Lemma SignatureInfo_ofBlock_wire b i : SignatureInfo_ofBlock b = Ok i -> si_wire i = Some b.
Proof.
  unfold SignatureInfo_ofBlock, SignatureInfo_wireDecode. intros (els & _ & H)%result_bind_Ok.
  case_match; [done|]. destruct els as [|it els]; [done|]. case_match; [done|].
  apply result_bind_Ok in H as (t & _ & H). destruct els as [|k others]; [by injection H as <-|].
  case_match; [|by injection H as <-]. apply result_bind_Ok in H as (kl & _ & H). by injection H as <-.
Qed.

Lemma data_decode_element_signature el st st' :
  data_decode_element el st = Ok st' -> decoded_signature st.2.2 -> decoded_signature st'.2.2.
Proof.
  destruct st as [last [[m c] sg]]. unfold data_decode_element. intros H Hs. cbn [snd] in *.
  repeat case_match; try discriminate; simplify_eq; try done.
  - apply result_bind_Ok in H as (m' & _ & H). by injection H as <-.
  - apply result_bind_Ok in H as (s' & Hi & H). injection H as <-. cbn.
    unfold Signature_setInfo in Hi. apply result_bind_Ok in Hi as (i & Hi & H). injection H as <-. right. cbn.
    by rewrite (SignatureInfo_ofBlock_wire _ _ Hi).
  - apply result_bind_Ok in H as (s' & Hi & H). injection H as <-. cbn. unfold Signature_setValue in Hi.
    case_match; [done|]. by injection Hi as <-.
Qed.

Lemma data_decode_loop_signature els st st' :
  data_decode_loop els st = Ok st' -> decoded_signature st.2.2 -> decoded_signature st'.2.2.
Proof.
  revert st. induction els as [|el els IH]; intros st; cbn [data_decode_loop]; [by intros [= ->]|].
  intros (st1 & H1 & H2)%result_bind_Ok Hs. eapply IH; [exact H2|]. by eapply data_decode_element_signature.
Qed.

Lemma Data_ofWire_signature b d :
  Data_ofWire b = Ok d ->
  Signature_valid (d_signature d) = true /\ is_Some (si_wire (sig_info (d_signature d))).
Proof.
  unfold Data_ofWire, Data_wireDecode. intros (els & _ & H)%result_bind_Ok.
  destruct els as [|el els]; [done|]. case_match; [done|]. apply result_bind_Ok in H as (n & _ & H).
  apply result_bind_Ok in H as ([last [[m c] sg]] & Hl & H).
  destruct (Signature_valid sg) eqn:Hv; [|done]. cbn [negb] in H. injection H as <-. cbn. split; [done|].
  destruct (data_decode_loop_signature _ _ _ Hl) as [Hs|Hs]; [by left| |exact Hs].
  unfold Signature_valid in Hv. cbn in Hs. by rewrite Hs in Hv.
Qed.

Lemma dated_PrefixAnnouncement_ofData `{NetworkPackets} b d :
  Data_ofBlock b = Ok d -> dated (PrefixAnnouncement_ofData d).
Proof.
  intros Hd. apply Data_ofWire_signature in Hd as [Hv Hw]. unfold PrefixAnnouncement_ofData.
  apply dated_bind.
  - unfold PrefixAnnouncement_new. case_match; [by left|]. case_match; [by left|].
    apply dated_bind; [apply dated_caught; auto with valdb|]. intros els _.
    apply dated_bind; [apply dated_caught; unfold block_get; by case_match|]. intros e _.
    apply dated_bind; [apply dated_caught; auto with valdb|]. intros n _.
    apply dated_bind; [|intros v _; left; by case_match].
    case_match; [|by left]. apply dated_bind; [apply dated_ValidityPeriod|by left].
  - intros pa Hpa. assert (pa_data pa = d) as ->.
    { unfold PrefixAnnouncement_new in Hpa. case_match; [done|]. case_match; [done|].
      apply result_bind_Ok in Hpa as (els & _ & Hpa). apply result_bind_Ok in Hpa as (e & _ & Hpa).
      apply result_bind_Ok in Hpa as (n & _ & Hpa). apply result_bind_Ok in Hpa as (v & _ & Hpa).
      case_match; [done|]. by injection Hpa as <-. }
    apply dated_bind; [by apply dated_caught, caught_Data_encode|by left].
Qed.

Lemma caught_Interest `{NetworkPackets} b : caught (Interest_ofBlock b).
Proof. apply caught_Interest_wireDecode. Qed.
Lemma caught_Data `{NetworkPackets} b : caught (Data_ofBlock b).
Proof. apply caught_Data_wireDecode. Qed.

Lemma dated_PrefixAnnouncement `{NetworkPackets} b : dated (DecodeHelper PrefixAnnouncementField b).
Proof.
  cbn. unfold PrefixAnnouncementHeader_wireDecode. case_match; [by left|].
  apply dated_bind; [apply dated_caught, caught_parse|]. intros els _.
  apply dated_bind; [apply dated_caught; unfold block_get; by case_match|]. intros d _.
  apply dated_bind; [apply dated_caught, caught_Data|]. intros d' Hd. by eapply dated_PrefixAnnouncement_ofData.
Qed.

Lemma caught_get f `{CaughtField f V} p : pkt_has f p = true -> caught (pkt_get f 0 p).
Proof.
  intros Hh. rewrite pkt_get_filter. unfold pkt_has, pkt_count in Hh.
  destruct (List.filter _ _) as [|b l]; [done|]. apply caught_field.
Qed.
Lemma caught_get_or f `{FieldCodec f Z} `{!CaughtField f} d p : caught (get_or f d p).
Proof. unfold get_or. case_match; [by apply caught_get|done]. Qed.

(** ** Packets from the wire *)

(** A decoded packet has its wire, or only the Fragment field of a bare network packet;
    no field is larger than what was received. *)
Record from_wire (limit : Z) (p : Packet) : Prop := {
  fw_wire : is_Some (pk_wire p) \/ exists b, pk_elements p = [b] /\ is_field FragmentField b = true;
  fw_small : Forall (fun b => zlen (block_value b) <= limit) (pk_elements p);
}.

Lemma Block_ofBuffer_sizes buf b :
  Block_ofBuffer buf = Ok b ->
  zlen (block_wire b) <= zlen buf /\ zlen (block_value b) <= zlen buf /\ block_wire b <> [].
Proof.
  unfold Block_ofBuffer. intros H. apply result_bind_Ok in H as ([t r] & Hr & H).
  apply result_bind_Ok in H as ([l p] & Hp & H). case_match; [done|]. injection H as <-.
  apply readType_throw_consumes in Hr. apply readVarNumber_throw_consumes in Hp.
  cbn [block_wire block_value]. unfold zlen. rewrite length_drop, length_take.
  split; [lia|]. split; [lia|]. intros E. apply (f_equal length) in E. rewrite length_take in E.
  cbn in E. lia.
Qed.

Lemma parse_loop_sizes fuel bs els :
  parse_loop fuel bs = Ok els -> Forall (fun b => zlen (block_value b) <= zlen bs) els.
Proof.
  revert bs els. induction fuel as [|fuel IH]; intros bs els.
  - destruct bs; [intros [= <-]; constructor|done].
  - destruct bs as [|b bs]; [intros [= <-]; constructor|]. rewrite parse_loop_step by done.
    intros H. apply result_bind_Ok in H as ([t r] & Hr & H).
    apply result_bind_Ok in H as ([l p] & Hp & H). case_match; [done|].
    apply result_bind_Ok in H as (els' & He & [= <-]).
    apply readType_throw_consumes in Hr. apply readVarNumber_throw_consumes in Hp.
    constructor; cbn [block_value].
    + unfold zlen. rewrite length_take. lia.
    + eapply Forall_impl; [by apply IH|]. cbn beta. intros x Hx.
      unfold zlen in *. rewrite length_drop in Hx. lia.
Qed.

Lemma caught_check_fields prev els : caught (check_fields prev els).
Proof.
  revert prev. induction els as [|el els IH]; intros prev; [done|]. cbn [check_fields].
  case_match; [done|]. destruct prev as [prev|]; [|apply IH]. do 2 (case_match; [done|]). apply IH.
Qed.

Lemma wireDecode_safe limit buf wire :
  Block_ofBuffer buf = Ok wire -> zlen buf <= limit -> limit < 2 ^ 32 ->
  caught (pkt_wireDecode wire) /\ forall p, pkt_wireDecode wire = Ok p -> from_wire limit p.
Proof.
  intros Hw Hl Hm. destruct (Block_ofBuffer_sizes _ _ Hw) as (H1 & H2 & H3).
  unfold pkt_wireDecode. destruct ((block_type wire =? tlv_Interest) || (block_type wire =? tlv_Data)).
  - assert (Hv : field_valid FragmentField (block_wire wire)) by (split; [done|lia]).
    rewrite (pkt_add_ok (f:=FragmentField) _ _ Hv) by (by right). split; [done|].
    intros p [= <-]. split; cbn [pk_wire pk_elements Packet_new insert_field].
    + right. eexists. split; [done|]. by cbn.
    + constructor; [|constructor]. cbn. lia.
  - case_match; [done|]. split.
    + apply caught_bind; [apply caught_parse|]. intros els _.
      apply caught_bind; [apply caught_check_fields|done].
    + intros p Hp. apply result_bind_Ok in Hp as (els & He & Hp).
      apply result_bind_Ok in Hp as (_ & _ & [= <-]). split; cbn [pk_wire pk_elements]; [by left; eexists|].
      eapply Forall_impl; [by apply parse_loop_sizes in He|]. cbn beta. intros x Hx. lia.
Qed.

(** The payload of a packet from the wire. *)
Lemma payload_small limit p v : from_wire limit p -> pkt_get FragmentField 0 p = Ok v -> zlen v <= limit.
Proof.
  intros [_ Hs] Hg. rewrite pkt_get_filter in Hg.
  destruct (List.filter _ _) as [|b l] eqn:E; [done|]. cbn [lookup list_lookup] in Hg.
  assert (Hin : b ∈ pk_elements p).
  { apply list_elem_of_In. apply (proj1 (filter_In (is_field FragmentField) b _)). rewrite E. by left. }
  rewrite Forall_forall in Hs. specialize (Hs b Hin).
  cbn [DecodeHelper Fragment_codec] in Hg. unfold decode_range in Hg. case_match; [done|].
  by injection Hg as <-.
Qed.

(** Encoding it again does not fail, once its payload was read. *)
Lemma wireEncode_safe limit p v :
  from_wire limit p -> pkt_get FragmentField 0 p = Ok v ->
  caught (pkt_wireEncode p) /\
  forall w els p', pkt_wireEncode p = Ok (w, els, p') -> p' = p.
Proof.
  intros [Hw _] Hg. unfold pkt_wireEncode.
  assert (Hgen : is_Some (pk_wire p) ->
    caught (match pk_wire p with
            | Some w => Ok (w, pk_elements p, p)
            | None => let* (w, els) := Block_encode (lp_num LpPacket) (pk_elements p) in
                      Ok (w, els, mkPacket (Some w) els) end) /\
    forall w els p', match pk_wire p with
            | Some w => Ok (w, pk_elements p, p)
            | None => let* (w, els) := Block_encode (lp_num LpPacket) (pk_elements p) in
                      Ok (w, els, mkPacket (Some w) els) end = Ok (w, els, p') -> p' = p).
  { intros [w ->]. split; [done|]. by intros w' els p' [= _ _ <-]. }
  destruct (pk_elements p) as [|b [|c l]] eqn:E.
  - destruct Hw as [Hw|(b & Hb & _)]; [by apply Hgen|done].
  - destruct (is_field FragmentField b) eqn:Ef.
    + assert (Hv : block_value b <> []).
      { intros Hv. unfold pkt_get in Hg. rewrite E in Hg. cbn [get_loop negb] in Hg. rewrite Ef in Hg.
        cbn in Hg. unfold field_decode in Hg. unfold is_field in Ef. rewrite Ef in Hg.
        cbn in Hg. unfold decode_range, block_value_size in Hg. by rewrite Hv in Hg. }
      split.
      * apply caught_bind; [apply caught_parse|]. intros [|x els] Hp; [|done].
        by destruct (parse_nonempty b [] Hp Hv).
      * intros w els p' H. apply result_bind_Ok in H as ([|x els'] & _ & H); [done|]. by injection H.
    + destruct Hw as [Hw|(b' & [= <-] & Hb')]; [by apply Hgen|congruence].
  - destruct Hw as [Hw|(b' & Hb & _)]; [by apply Hgen|done].
Qed.

(** ** Reassembly of anything *)

(** A slot is empty or holds a packet from the wire with a sequence number. *)
Definition received_ok (limit : Z) (p : Packet) : Prop :=
  pkt_has SequenceField p = true /\ pkt_has FragmentField p = true /\ from_wire limit p.
Definition slot_safe (limit : Z) (p : Packet) : Prop :=
  pkt_has SequenceField p = true -> received_ok limit p.

Definition partial_safe (limit : Z) (pp : PartialPacket) : Prop :=
  Forall (slot_safe limit) (pp_fragments pp) /\ pp_fragCount pp * limit < 2 ^ 32.

(** The invariant of the reassembler, and the sizes of what it holds. *)
Definition re_safe (limit : Z) (r : LpReassembler) : Prop :=
  re_inv r /\ forall key pp, m_partialPackets r !! key = Some pp -> partial_safe limit pp.

Lemma received_all frags : received frags = zlen frags -> Forall (fun p => pkt_has SequenceField p = true) frags.
Proof.
  unfold received, zlen. intros H. apply Forall_forall. intros p Hp%list_elem_of_In.
  induction frags as [|x l IH]; [done|]. cbn [List.filter length In] in *.
  pose proof (filter_length_le (pkt_has SequenceField) l).
  destruct (pkt_has SequenceField x) eqn:E; cbn [length] in H; [|lia].
  destruct Hp as [->|Hp]; [done|]. apply IH; [lia|done].
Qed.

Lemma payloads_safe limit frags :
  Forall (received_ok limit) frags ->
  caught (payloads frags) /\
  forall vs, payloads frags = Ok vs ->
    zlen (concat vs) <= zlen frags * limit /\
    forall p, p ∈ frags -> exists v, pkt_get FragmentField 0 p = Ok v.
Proof.
  induction 1 as [|p frags (_ & Hf & Hw) _ [IH1 IH2]]; cbn [payloads].
  { split; [done|]. intros vs [= <-]. split; [done|]. intros p Hp. by apply elem_of_nil in Hp. }
  split.
  - apply caught_bind; [by apply (caught_get FragmentField)|]. intros v _. apply caught_bind; [done|done].
  - intros vs H. apply result_bind_Ok in H as (v & Hv & H). apply result_bind_Ok in H as (vs' & Hvs & [= <-]).
    destruct (IH2 vs' Hvs) as [Hs Hg]. pose proof (payload_small _ _ _ Hw Hv). split.
    + cbn [concat]. rewrite zlen_app, zlen_cons. lia.
    + intros q [->|Hq]%elem_of_cons; [by exists v|by apply Hg].
Qed.

Lemma doReassembly_safe limit pp :
  Forall (received_ok limit) (pp_fragments pp) -> zlen (pp_fragments pp) * limit < 2 ^ 32 ->
  caught (doReassembly pp) /\
  forall b, doReassembly pp = Ok b ->
    forall p, p ∈ pp_fragments pp -> exists v, pkt_get FragmentField 0 p = Ok v.
Proof.
  intros Hf Hz. destruct (payloads_safe limit _ Hf) as [H1 H2]. unfold doReassembly. split.
  - apply caught_bind; [done|]. intros vs Hvs. destruct (H2 vs Hvs) as [Hs _].
    pose proof (zlen_nonneg (concat vs)).
    rewrite sum_sizes by lia. rewrite Z.add_0_l, Z.eqb_refl. apply caught_Block_ofBuffer.
  - intros b H. apply result_bind_Ok in H as (vs & Hvs & _). by apply H2 in Hvs as [_ Hg].
Qed.

(** The packets a reassembler holds are safe after a change at one key. *)
Definition partials_safe (limit : Z) (r : LpReassembler) : Prop :=
  forall key pp, m_partialPackets r !! key = Some pp -> partial_safe limit pp.

Lemma partials_safe_insert limit r key pp q :
  partials_safe limit r -> partial_safe limit pp ->
  partials_safe limit (with_partials (<[key := pp]> (m_partialPackets r)) q r).
Proof.
  intros Hr Hp k p. cbn [m_partialPackets with_partials].
  destruct (decide (k = key)) as [->|Hn]; [rewrite lookup_insert_eq; by intros [= <-]|].
  rewrite lookup_insert_ne by done. apply Hr.
Qed.

Lemma partial_safe_insert limit pp i packet n t :
  partial_safe limit pp -> received_ok limit packet ->
  partial_safe limit (mkPartialPacket (<[i := packet]> (pp_fragments pp)) (pp_fragCount pp) n t).
Proof. intros [H1 H2] Hp. split; [|done]. cbn [pp_fragments]. apply Forall_insert; [done|by intros _]. Qed.

(** What [receiveFragment] may return: a [tlv::Error], nothing, or a network packet and
    its first fragment, which is the packet just received or one of those held. *)
Definition outcome_safe (limit : Z) (held : list Packet) (packet : Packet)
    (o : result (option (Block * Packet))) : Prop :=
  caught o /\
  forall b first, o = Ok (Some (b, first)) ->
    from_wire limit first /\ (exists v, pkt_get FragmentField 0 first = Ok v) /\
    (first = packet \/ first ∈ held).

Lemma outcome_none limit held packet : outcome_safe limit held packet (Ok None).
Proof. by split. Qed.
Lemma outcome_err limit held packet e : caught (A:=unit) (Err e) -> outcome_safe limit held packet (Err e).
Proof. by split. Qed.

Lemma elem_of_insert_sub {A} (l : list A) i x y : y ∈ <[i := x]> l -> y = x \/ y ∈ l.
Proof.
  intros [j Hj]%list_elem_of_lookup. apply list_lookup_insert_Some in Hj as [(_ & -> & _)|[_ Hj]]; [by left|].
  right. by apply list_elem_of_lookup_2 in Hj.
Qed.

Lemma storeFragment_safe limit now key i packet pp r :
  partials_safe limit r -> partial_ok pp -> partial_safe limit pp -> 0 <= i < pp_fragCount pp ->
  received_ok limit packet ->
  partials_safe limit (storeFragment now key i packet pp r).1 /\
  outcome_safe limit (pp_fragments pp) packet (storeFragment now key i packet pp r).2.
Proof.
  intros Hr [Hc Hl Hn] Hp Hi Hk. unfold storeFragment. unfold zlen in Hl.
  destruct (lookup_lt_is_Some_2 (pp_fragments pp) (Z.to_nat i) ltac:(lia)) as [slot Es]. rewrite Es.
  destruct (pkt_has SequenceField slot) eqn:Eh; cbn [fst snd].
  { split; [by apply partials_safe_insert|apply outcome_none]. }
  set (pp' := mkPartialPacket _ _ _ _).
  assert (Hp' : partial_safe limit pp') by by apply partial_safe_insert.
  assert (Hz : zlen (pp_fragments pp') = pp_fragCount pp) by (unfold zlen; cbn; rewrite length_insert; lia).
  destruct (Z.eqb_spec (pp_nReceivedFragments pp') (pp_fragCount pp')) as [E|E].
  - assert (Hrec : received (pp_fragments pp') = zlen (pp_fragments pp')).
    { cbn [pp' pp_fragments] in *. rewrite (received_insert _ _ slot) by (done || apply Hk). cbn in E. lia. }
    apply received_all in Hrec.
    assert (Hall : Forall (received_ok limit) (pp_fragments pp')).
    { destruct Hp' as [Hs _]. apply Forall_forall. intros p Hin. rewrite Forall_forall in Hrec, Hs.
      by apply Hs, Hrec. }
    destruct (doReassembly_safe limit pp' Hall) as [D1 D2]; [rewrite Hz; apply Hp|].
    destruct (doReassembly pp') as [b|e] eqn:Ed; cbn [fst snd].
    + destruct (lookup_lt_is_Some_2 (pp_fragments pp') 0) as [fr H0]; [unfold zlen in Hz; lia|]. rewrite H0.
      cbn [fst snd]. apply list_elem_of_lookup_2 in H0. split.
      * intros k p Hkp. apply (Hr k p). cbn [m_partialPackets with_partials] in Hkp. by apply lookup_delete_Some in Hkp as [_ ?].
      * split; [done|]. intros b' first [= <- <-]. rewrite Forall_forall in Hall.
        split; [by apply Hall|]. split; [by apply (D2 b)|]. by apply elem_of_insert_sub in H0.
    + split; [by apply partials_safe_insert|]. by apply outcome_err.
  - destruct (schedule now (re_reassemblyTimeout r) key (re_timers r)) as [id q1]. cbn [fst snd].
    split; [|apply outcome_none]. apply partials_safe_insert; [done|]. exact Hp'.
Qed.

(** The packets held under a key. *)
Definition held (key : Key) (r : LpReassembler) : list Packet :=
  pp_fragments (default PartialPacket_new (m_partialPackets r !! key)).

Lemma fresh_slots_safe limit n : Forall (slot_safe limit) (replicate n Packet_new).
Proof. apply Forall_replicate. by unfold slot_safe, pkt_has. Qed.

Lemma addFragment_safe limit now key i c packet r :
  re_inv r -> partials_safe limit r -> 0 <= i < c -> 2 <= c -> c * limit < 2 ^ 32 -> received_ok limit packet ->
  partials_safe limit (addFragment now key i c packet r).1 /\
  outcome_safe limit (held key r) packet (addFragment now key i c packet r).2.
Proof.
  intros Hi Hr Hic Hc Hl Hp. unfold addFragment, held.
  destruct (m_partialPackets r !! key) as [pp|] eqn:Ek; cbn [default from_option id].
  - destruct (proj2 Hi key pp Ek) as [Hok _]. pose proof (po_count _ Hok). pose proof (Hr key pp Ek).
    destruct (Z.eqb_spec (pp_fragCount pp) 0); [lia|].
    destruct (Z.eqb_spec c (pp_fragCount pp)); cbn [negb].
    + apply storeFragment_safe; try done. lia.
    + split; [by apply partials_safe_insert|apply outcome_none].
  - cbn [pp_fragCount PartialPacket_new Z.eqb pp_fragments pp_dropTimer].
    assert (Hrs : resize (Z.to_nat c) Packet_new [] = replicate (Z.to_nat c) Packet_new) by apply resize_nil.
    rewrite Hrs. set (pp := mkPartialPacket _ _ _ _).
    assert (Hok : partial_ok pp).
    { split; cbn; [done|unfold zlen; rewrite length_replicate; lia|by rewrite received_new]. }
    assert (Hps : partial_safe limit pp) by (split; [apply fresh_slots_safe|done]).
    destruct (storeFragment_safe limit now key i packet pp r Hr Hok Hps Hic Hp) as [S1 [S2 S3]].
    split; [done|]. split; [done|]. intros b first E. destruct (S3 b first E) as (F1 & [v F2] & [F3|F3]);
      (split; [done|]); (split; [by exists v|]); [by left|].
    apply elem_of_replicate_inv in F3. by subst first.
Qed.

Lemma get_or_nonneg f `{FieldLaws f Z} d p n :
  DecodeHelper f = decode_nni -> 0 <= d -> get_or f d p = Ok n -> 0 <= n.
Proof.
  intros Hd Hd0 Hg. unfold get_or in Hg. case_match; [|injection Hg; lia].
  rewrite pkt_get_filter in Hg. case_match; [|done]. rewrite Hd in Hg.
  unfold decode_nni, block_readNonNegativeInteger in Hg.
  apply result_bind_Ok in Hg as ([m rest] & Hm & [= <-]). apply readNonNegativeInteger_nonneg in Hm. lia.
Qed.

Lemma receiveFragment_safe limit now ep packet r :
  re_safe limit r -> from_wire limit packet -> pkt_has FragmentField packet = true ->
  0 <= limit -> re_nMaxFragments r * limit < 2 ^ 32 ->
  re_safe limit (receiveFragment now ep packet r).1 /\
  exists key, outcome_safe limit (held key r) packet (receiveFragment now ep packet r).2.
Proof.
  intros [Hi Hs] Hw Hf H0 Hl. pose proof (receiveFragment_inv now ep packet r Hi) as Hinv.
  enough (Hgoal : partials_safe limit (receiveFragment now ep packet r).1 /\
    exists key, outcome_safe limit (held key r) packet (receiveFragment now ep packet r).2)
    by (destruct Hgoal; split; [by split|done]).
  clear Hinv. unfold receiveFragment. rewrite Hf. cbn [negb].
  pose proof (caught_get_or FragIndexField 0 packet) as Hci.
  pose proof (caught_get_or FragCountField 1 packet) as Hcc.
  destruct (get_or FragIndexField 0 packet) as [i|e] eqn:Ei;
    [|destruct (get_or FragCountField 1 packet); (split; [done|]); exists (0, 0); by apply outcome_err].
  destruct (get_or FragCountField 1 packet) as [c|e] eqn:Ec; [|split; [done|]; exists (0, 0); by apply outcome_err].
  destruct (Z.leb_spec c i); [split; [done|]; exists (0, 0); apply outcome_none|].
  destruct (Z.gtb_spec c (re_nMaxFragments r)); [split; [done|]; exists (0, 0); apply outcome_none|].
  destruct ((i =? 0) && (c =? 1)) eqn:E1; cbn [fst snd].
  { split; [done|]. exists (0, 0). split.
    - apply caught_bind; [by apply (caught_get FragmentField)|]. intros v _.
      apply caught_bind; [apply caught_Block_ofBuffer|done].
    - intros b first Hb. apply result_bind_Ok in Hb as (v & Hv & Hb).
      apply result_bind_Ok in Hb as (b' & _ & [= <- <-]). split; [done|]. split; [by exists v|by left]. }
  destruct (pkt_has SequenceField packet) eqn:Hq; cbn [negb];
    [|split; [done|]; exists (0, 0); apply outcome_none].
  pose proof (caught_get SequenceField packet Hq) as Hcs.
  destruct (pkt_get SequenceField 0 packet) as [sq|e]; [|split; [done|]; exists (0, 0); by apply outcome_err].
  assert (0 <= i) by (by apply (get_or_nonneg FragIndexField 0 packet)).
  assert (2 <= c).
  { destruct (Z.eqb_spec i 0), (Z.eqb_spec c 1); cbn in E1; try done; lia. }
  destruct (addFragment_safe limit now (ep, u64 (sq - i)) i c packet r) as [A1 A2]; try done; [nia|].
  split; [done|]. by eexists.
Qed.

(** ** From the network packet to the VAL packet *)

Section decoding.
Context `{NetworkPackets}.

(** A tag taken from a field that is there. *)
Lemma caught_tag f `{CaughtField f V} {A} p (present : bool) (g : V -> A) a :
  (present = true -> pkt_has f p = true) ->
  caught (if present then let* v := pkt_get f 0 p in Ok (g v) else Ok a).
Proof.
  intros Hp. destruct present; [|done]. apply caught_bind; [by apply caught_get, Hp|done].
Qed.

(** Decoding counts in [nInNetInvalid] only. *)
Definition counts_net (c c' : Counters) : Prop := c' = c \/ c' = incr_inNetInvalid c.

Lemma decodeInterest_safe o netPkt p c :
  block_type netPkt = tlv_Interest -> pkt_has NackField p = false ->
  caught (decodeInterest o netPkt p c) /\
  forall i c', decodeInterest o netPkt p c = Ok (i, c') -> counts_net c c'.
Proof.
  intros Ht Hn. unfold decodeInterest, dropped. rewrite Ht, Hn. change (tlv_Interest =? tlv_Interest) with true.
  cbn [negb]. split.
  - apply caught_bind; [apply caught_Interest|]. intros i0 _.
    apply caught_bind; [by apply (caught_tag HopCountTagField)|]. intros i1 _. case_match; [done|].
    apply caught_bind; [by apply (caught_tag NextHopFaceIdField)|]. intros i2 _. case_match; [done|].
    apply caught_bind; [by apply (caught_tag CongestionMarkField)|]. intros i3 _.
    apply caught_bind; [|intros i4 _; by case_match].
    apply (caught_tag NonDiscoveryField). intros [? _]%andb_true_iff. done.
  - intros i c' Hi. unfold counts_net.
    apply result_bind_Ok in Hi as (i0 & _ & Hi). apply result_bind_Ok in Hi as (i1 & _ & Hi).
    case_match; [injection Hi as _ <-; by left|].
    apply result_bind_Ok in Hi as (i2 & _ & Hi). case_match; [injection Hi as _ <-; by right|].
    apply result_bind_Ok in Hi as (i3 & _ & Hi). apply result_bind_Ok in Hi as (i4 & _ & Hi).
    case_match; injection Hi as _ <-; [by right|by left].
Qed.

(** A field that is read for its date. *)
Lemma dated_get p : pkt_has PrefixAnnouncementField p = true -> dated (pkt_get PrefixAnnouncementField 0 p).
Proof.
  intros Hh. rewrite pkt_get_filter. unfold pkt_has, pkt_count in Hh.
  destruct (List.filter _ _) as [|b l]; [done|]. apply dated_PrefixAnnouncement.
Qed.

(** Where a date is read: a prefix announcement, in self-learning. *)
Definition reads_date (o : Options) (p : Packet) : bool := pkt_has PrefixAnnouncementField p && allowSelfLearning o.

Lemma decodeData_safe o netPkt p c :
  block_type netPkt = tlv_Data ->
  dated (decodeData o netPkt p c) /\
  (reads_date o p = false -> caught (decodeData o netPkt p c)) /\
  forall d c', decodeData o netPkt p c = Ok (d, c') -> counts_net c c'.
Proof.
  intros Ht. unfold decodeData, dropped, reads_date. rewrite Ht. change (tlv_Data =? tlv_Data) with true. cbn iota.
  split; [|split].
  - apply dated_bind; [apply dated_caught, caught_Data|]. intros d0 _.
    apply dated_bind; [by apply dated_caught, (caught_tag HopCountTagField)|]. intros d1 _. do 2 (case_match; [by left|]).
    apply dated_bind; [by apply dated_caught, (caught_tag CachePolicyField)|]. intros d2 _.
    apply dated_bind; [by apply dated_caught, (caught_tag CongestionMarkField)|]. intros d3 _. case_match; [by left|].
    apply dated_bind; [|by left]. case_match eqn:E; [|by left]. apply andb_true_iff in E as [E _].
    apply dated_bind; [by apply dated_get|by left].
  - intros Hd. apply caught_bind; [apply caught_Data|]. intros d0 _.
    apply caught_bind; [by apply (caught_tag HopCountTagField)|]. intros d1 _. do 2 (case_match; [done|]).
    apply caught_bind; [by apply (caught_tag CachePolicyField)|]. intros d2 _.
    apply caught_bind; [by apply (caught_tag CongestionMarkField)|]. intros d3 _. case_match; [done|]. by rewrite Hd.
  - intros d c' Hd. unfold counts_net.
    apply result_bind_Ok in Hd as (d0 & _ & Hd). apply result_bind_Ok in Hd as (d1 & _ & Hd).
    do 2 (case_match; [injection Hd as _ <-; by right|]).
    apply result_bind_Ok in Hd as (d2 & _ & Hd). apply result_bind_Ok in Hd as (d3 & _ & Hd).
    case_match; [injection Hd as _ <-; by right|].
    apply result_bind_Ok in Hd as (d4 & _ & Hd). injection Hd as _ <-. by left.
Qed.

(** The assertion that a received packet can violate. *)
Definition nack_fault : fault := AssertFailed "!firstPkt.has<lp::NackField>()".

(** What can escape: the failed assertion, or an exception of the parser of dates. *)
Definition escapes (o : Options) (p : Packet) (e : fault) : Prop :=
  e = nack_fault /\ pkt_has NackField p = true \/ date_fault e /\ reads_date o p = true.

(** The network packet in its VAL packet: [None] if it is of neither type. *)
Lemma makeValPacket_safe limit o hopC0 netPkt p c v :
  from_wire limit p -> pkt_get FragmentField 0 p = Ok v ->
  (caught (makeValPacket o hopC0 netPkt p c) \/
   exists e, makeValPacket o hopC0 netPkt p c = Err e /\ escapes o p e) /\
  forall vp c', makeValPacket o hopC0 netPkt p c = Ok (vp, c') ->
    match vp with
    | Some _ => exists c1, counts_net c c1 /\ c' = incr_inValPkt c1
    | None => c' = c
    end.
Proof.
  intros Hw Hv. destruct (wireEncode_safe limit p v Hw Hv) as [E1 E2]. unfold makeValPacket.
  destruct (pkt_wireEncode p) as [[[w els] p']|e] eqn:E; [|split; [left; exact E1|done]].
  rewrite (E2 w els p' eq_refl). cbn [mbind result_bind].
  destruct (find_first _ els) as [block|]; [|split; [by left|by intros vp c' [= <- <-]]].
  pose proof (caught_ValHeader hopC0 block) as Hh.
  destruct (ValHeader_ofBlock hopC0 block) as [h|e]; [|split; [by left|done]]. cbn [mbind result_bind].
  destruct (Z.eqb_spec (block_type netPkt) tlv_Interest) as [Hi|Hi].
  - destruct (pkt_has NackField p) eqn:Hn.
    + unfold decodeInterest. rewrite Hi, Hn. split; [|done]. right. eexists. split; [done|by left].
    + destruct (decodeInterest_safe o netPkt p c Hi Hn) as [D1 D2].
      destruct (decodeInterest o netPkt p c) as [[i c1]|e]; [|split; [by left|done]].
      split; [by left|]. intros vp c' [= <- <-]. exists c1. by split; [apply (D2 i)|].
  - destruct (Z.eqb_spec (block_type netPkt) tlv_Data) as [Hd|Hd].
    + destruct (decodeData_safe o netPkt p c Hd) as (D1 & D2 & D3).
      destruct (decodeData o netPkt p c) as [[d c1]|e]; cbn [mbind result_bind].
      * split; [by left|]. intros vp c' [= <- <-]. exists c1. by split; [apply (D3 d)|].
      * split; [|done]. destruct (reads_date o p) eqn:Er; [|left; by apply D2].
        destruct D1 as [D1|(e' & [= <-] & De)]; [by left|right]. eexists. split; [done|by right].
    + split; [by left|]. intros vp c' [= <- <-]. exists c. by split; [left|].
Qed.
End decoding.

(** ** Properties *)

Lemma timeout_safe limit now s :
  re_safe limit (m_reassembler s) -> re_safe limit (m_reassembler (reassemblyTimeout now s)).
Proof.
  intros [Hi Hs]. unfold reassemblyTimeout.
  destruct (fireDropTimer now (m_reassembler s)) as [[re o]|] eqn:E; [|done].
  assert (Hr : re_safe limit re).
  { split; [by eapply fireDropTimer_inv|]. unfold fireDropTimer in E. case_match; [|done].
    case_match. injection E as E. unfold timeoutPartialPacket in E.
    cbn [m_partialPackets with_partials] in E. case_match; injection E as <- _; [|exact Hs].
    intros k pp Hp. apply (Hs k pp). cbn [m_partialPackets with_partials] in Hp.
    by apply lookup_delete_Some in Hp as [_ ?]. }
  by destruct o.
Qed.

(** A decoder refuses what was received: the link protocol packet, the reassembled
    network packet, or its VAL header, network packet and fields. *)
Definition refused {A} (r : result A) : bool := match r with Err (TlvError _) => true | _ => false end.
Definition malformed `{NetworkPackets} (now ep hopC0 : Z) (packet : Block) (s : ValLinkService) : bool :=
  match pkt_wireDecode packet with
  | Err e => refused (@Err unit e)
  | Ok p =>
    pkt_has FragmentField p &&
    (negb (pkt_has FragIndexField p || pkt_has FragCountField p) || allowReassembly (m_options s)) &&
    match (receiveFragment now ep p (m_reassembler s)).2 with
    | Err e => refused (@Err unit e)
    | Ok None => false
    | Ok (Some (netPkt, first)) => refused (makeValPacket (m_options s) hopC0 netPkt first (counters s))
    end
  end.

(** How the counters say what became of a packet: [bad] if a decoder refused it. *)
Definition accounted (bad : bool) (c c' : Counters) (r : result (option ValPacket)) : Prop :=
  nInLpInvalid c' = nInLpInvalid c + Z.b2z bad /\
  nInValPkt c' = nInValPkt c + match r with Ok (Some _) => 1 | _ => 0 end /\
  (bad = true -> r = Ok None) /\ ((exists e, r = Err e) -> c' = c).

Lemma accounted_none c : accounted false c c (Ok None).
Proof. unfold accounted. cbn. split; [lia|]. split; [lia|]. split; [done|by intros [? ?]]. Qed.
Lemma accounted_refused c : accounted true c (incr_inLpInvalid c) (Ok None).
Proof. unfold accounted. cbn. split; [lia|]. split; [lia|]. split; [done|by intros [? ?]]. Qed.

Lemma catch_error {A} s e (none : A) :
  caught (A:=unit) (Err e) ->
  catch_tlv s (Err e) none = (with_counters incr_inLpInvalid s, Ok none) /\ refused (@Err unit e) = true.
Proof. by destruct e. Qed.

Lemma escapes_not_caught `{NetworkPackets} o p e {A} s (none : A) :
  escapes o p e -> caught (A:=unit) (Err e) \/ catch_tlv s (Err e) none = (s, Err e) /\ refused (@Err unit e) = false.
Proof. intros _. destruct e; try by right. by left. Qed.

(** After the reassembly of a packet: the VAL packet or what is counted. *)
Lemma deliver_safe `{NetworkPackets} limit hopC0 netPkt p v s :
  from_wire limit p -> pkt_get FragmentField 0 p = Ok v ->
  exists s' r, catch_tlv s (let* (vp, c) := makeValPacket (m_options s) hopC0 netPkt p (counters s) in
                            Ok (vp, with_counters (fun _ => c) s)) None = (s', r) /\
    m_reassembler s' = m_reassembler s /\
    accounted (refused (makeValPacket (m_options s) hopC0 netPkt p (counters s))) (counters s) (counters s') r /\
    ((exists vp, r = Ok vp) \/ exists e, r = Err e /\ escapes (m_options s) p e).
Proof.
  intros Hw Hv. destruct (makeValPacket_safe limit (m_options s) hopC0 netPkt p (counters s) v Hw Hv) as [M1 M2].
  destruct (makeValPacket (m_options s) hopC0 netPkt p (counters s)) as [[vp c]|e]; cbn [mbind result_bind].
  - eexists _, _. split; [done|]. split; [done|]. split; [|by left; eexists].
    specialize (M2 vp c eq_refl). destruct vp as [vp|]; [|subst c; apply accounted_none].
    destruct M2 as (c1 & [-> | ->] & ->); (split; [cbn; lia|]); (split; [done|]); by split; [|intros [? ?]].
  - assert (Hcases : caught (A:=unit) (Err e) \/ escapes (m_options s) p e /\
      catch_tlv s (@Err (option ValPacket * ValLinkService) e) None = (s, Err e) /\ refused (@Err unit e) = false).
    { destruct M1 as [M1|(e' & [= <-] & Hx)]; [by left|].
      destruct (escapes_not_caught (m_options s) p e s (@None ValPacket) Hx); [by left|by right]. }
    destruct Hcases as [Hc|(Hx & Ec & Er)].
    + destruct (catch_error s e (@None ValPacket) Hc) as [-> Er]. eexists _, _. split; [done|]. split; [done|].
      change (refused (Err e)) with (refused (@Err unit e)). rewrite Er.
      split; [apply accounted_refused|by left; eexists].
    + rewrite Ec. eexists _, _. split; [done|]. split; [done|].
      change (refused (Err e)) with (refused (@Err unit e)). rewrite Er.
      split; [|right; by exists e]. split; [cbn; lia|]. split; [lia|]. by split.
Qed.

(** After the fragment was stored. *)
Lemma received_accounted `{NetworkPackets} limit now ep hopC0 p key s :
  re_safe limit (receiveFragment now ep p (m_reassembler s)).1 ->
  outcome_safe limit (held key (m_reassembler s)) p (receiveFragment now ep p (m_reassembler s)).2 ->
  exists s' r,
    (let '(re, r) := receiveFragment now ep p (m_reassembler s) in
     let s := with_reassembler re s in
     match r with
     | Err e => catch_tlv s (Err e) None
     | Ok None => (s, Ok None)
     | Ok (Some (netPkt, firstPkt)) =>
       catch_tlv s (let* (v, c) := makeValPacket (m_options s) hopC0 netPkt firstPkt (counters s) in
                    Ok (v, with_counters (fun _ => c) s)) None
     end) = (s', r) /\ re_safe limit (m_reassembler s') /\
    accounted match (receiveFragment now ep p (m_reassembler s)).2 with
      | Err e => refused (@Err unit e)
      | Ok None => false
      | Ok (Some (netPkt, first)) => refused (makeValPacket (m_options s) hopC0 netPkt first (counters s))
      end (counters s) (counters s') r /\
    ((exists vp, r = Ok vp) \/
     exists e q, r = Err e /\ escapes (m_options s) q e /\
       (@Ok Packet p = Ok q \/ exists key, q ∈ held key (m_reassembler s))).
Proof.
  intros R1 [R2 R3]. destruct (receiveFragment now ep p (m_reassembler s)) as [re o]. cbn [fst snd] in *.
  destruct o as [[[netPkt first]|]|e].
  - destruct (R3 netPkt first eq_refl) as (F1 & [v F2] & F3).
    destruct (deliver_safe limit hopC0 netPkt first v (with_reassembler re s) F1 F2) as (s' & r & E & Es & Ea & Ho).
    exists s', r. split; [exact E|]. split; [by rewrite Es|]. split; [exact Ea|].
    destruct Ho as [Ho|(e & -> & Hx)]; [by left|right]. exists e, first. split; [done|]. split; [done|].
    destruct F3 as [->|F3]; [by left|right; by exists key].
  - eexists _, _. split; [done|]. split; [done|]. split; [apply accounted_none|by left; eexists].
  - destruct (catch_error (with_reassembler re s) e (@None ValPacket) R2) as [-> ->].
    eexists _, _. split; [done|]. split; [done|]. split; [apply accounted_refused|by left; eexists].
Qed.

(** C17: whatever octets arrive (up to a size for which the largest number of fragments
    makes less than 2^32 octets), receiving them raises nothing that the link service does
    not catch and leaves its state consistent, as do the timeouts of partial packets.
    [nInLpInvalid] grows by one exactly when a decoder refuses the packet, which is then
    dropped, and [nInValPkt] by one exactly when a VAL packet is given to the forwarder.
    There are two exceptions: an Interest whose first fragment has a Nack field violates the
    assertion of [decodeInterest]; and with self-learning, whatever the parser of ISO dates
    throws beside [std::bad_cast] escapes from a Data with a prefix announcement, and then
    no counter changes. *)
Theorem link_receive_safe `{NetworkPackets} (now ep hopC0 limit : Z) (buf : octets) (packet : Block)
    (s : ValLinkService) (Hs : re_safe limit (m_reassembler s)) (Hb : Block_ofBuffer buf = Ok packet)
    (Hl : zlen buf <= limit < 2 ^ 32) (Hn : re_nMaxFragments (m_reassembler s) * limit < 2 ^ 32) :
  re_safe limit (m_reassembler (reassemblyTimeout now s)) /\
  exists s' r, doReceivePacket now ep hopC0 packet s = (s', r) /\ re_safe limit (m_reassembler s') /\
    accounted (malformed now ep hopC0 packet s) (counters s) (counters s') r /\
    ((exists vp, r = Ok vp) \/
     exists e p, r = Err e /\ escapes (m_options s) p e /\
       (pkt_wireDecode packet = Ok p \/ exists key, p ∈ held key (m_reassembler s))).
Proof.
  split; [by apply timeout_safe|]. unfold doReceivePacket, malformed.
  destruct (wireDecode_safe limit buf packet Hb) as [W1 W2]; [lia|lia|].
  destruct (pkt_wireDecode packet) as [p|e].
  2:{ destruct (catch_error s e (@None ValPacket) W1) as [-> ->]. eexists _, _. split; [done|]. split; [done|].
      split; [apply accounted_refused|by left; eexists]. }
  specialize (W2 p eq_refl). destruct (pkt_has FragmentField p) eqn:Hf; cbn [negb andb].
  2:{ eexists _, _. split; [done|]. split; [done|]. split; [apply accounted_none|by left; eexists]. }
  destruct (pkt_has FragIndexField p || pkt_has FragCountField p), (allowReassembly (m_options s)); cbn [negb andb orb].
  2:{ eexists _, _. split; [done|]. split; [done|]. split; [apply accounted_none|by left; eexists]. }
  all: pose proof (zlen_nonneg buf);
    destruct (receiveFragment_safe limit now ep p (m_reassembler s) Hs W2 Hf) as [R1 (key & R2 & R3)]; [lia|done|];
    exact (received_accounted limit now ep hopC0 p key s R1 (conj R2 R3)).
Qed.

(** An Interest with a VAL header and a Nack field. *)
#[local] Instance any_env : NetworkPackets :=
  {| generateWord32 _ := 7; fromIsoString _ := Err (BadCast "not used") |}.

Definition any_service : ValLinkService := ValLinkService_new Options_default.
Definition nacked_interest : octets :=
  tlv (lp_num LpPacket) (tlvs [(lp_num Nack, []); (lp_num TlvValHeader, []);
    (lp_num Fragment, tlv tlv_Interest (str "abc"))]).
Definition nacked_block : Block :=
  match Block_ofBuffer nacked_interest with Ok b => b | Err _ => element 0 [] end.

(** The assertion is violated by a packet of one octet string. *)
Lemma nack_violates_assertion :
  exists s', doReceivePacket 0 5 77 nacked_block any_service = (s', Err nack_fault).
Proof. eexists. vm_compute. reflexivity. Qed.

(** A Data with a prefix announcement that is valid from the thirteenth month on, for a
    parser that throws [std::out_of_range] for a bad month, as Boost documents. *)
Definition bad_month_env : NetworkPackets :=
  {| generateWord32 _ := 7; fromIsoString _ := Err (OutOfRange "Month number is out of range 1..12") |}.
Definition announcement_data (content : octets) : octets :=
  tlv tlv_Data (tlvs
    [(tlv_Name, tlvs [(8, str "p"); (32, str "PA"); (8, [xfd; x01]); (8, [x00; x00])]);
     (tlv_MetaInfo, tlv tlv_ContentType (nonneg_integer ContentType_PrefixAnn));
     (tlv_Content, content); (tlv_SignatureInfo, tlv tlv_SignatureType [x00]); (tlv_SignatureValue, [x00])]).
Definition announced_data : octets :=
  tlv (lp_num LpPacket) (tlvs
    [(lp_num PrefixAnnouncement, announcement_data (tlvs
        [(tlv_nfd_ExpirationPeriod, nonneg_integer 1000);
         (tlv_ValidityPeriod, tlvs [(tlv_NotBefore, str "20201301T000000"); (tlv_NotAfter, str "20211301T000000")])]));
     (lp_num TlvValHeader, []); (lp_num Fragment, announcement_data [])]).
Definition announced_block : Block :=
  match Block_ofBuffer announced_data with Ok b => b | Err _ => element 0 [] end.

Lemma bad_month_escapes :
  exists s' w, doReceivePacket (H:=bad_month_env) 0 5 77 announced_block any_service = (s', Err (OutOfRange w)).
Proof. eexists _, _. vm_compute. reflexivity. Qed.

Lemma any_service_safe limit : re_safe limit (m_reassembler any_service).
Proof. split; [apply re_inv_new|]. intros key pp H. cbn in H. by rewrite lookup_empty in H. Qed.

Lemma link_receive_safe_witness :
  exists s' r, doReceivePacket 0 5 77 nacked_block any_service = (s', r) /\
    re_safe 8800 (m_reassembler s') /\
    accounted (malformed 0 5 77 nacked_block any_service) (counters any_service) (counters s') r.
Proof.
  destruct (link_receive_safe 0 5 77 8800 nacked_interest nacked_block any_service
    (any_service_safe 8800)) as (_ & s' & r & H1 & H2 & H3 & _).
  - vm_compute. reflexivity.
  - split; [by vm_compute|lia].
  - cbn. lia.
  - exists s', r. split; [exact H1|]. split; [exact H2|exact H3].
Defined.
