(* ===== verification/ValStrategy.v ===== *)
(** * The distances strategy (model/val/fw: val-strategy.hpp, val-distances-strategy.cpp)

    Which packets are forwarded, with which header and after how long, from the
    distances between the previous hop, this node and the destination area.  The
    geometry of ns-3 (printing, reading and measuring vectors) is an interface; the
    position of the node and the random delay are inputs of every decision. *)

From stdpp Require Import base list strings relations.
From Stdlib Require Import Strings.Byte ZArith Lia Floats.SpecFloat.
From S2P Require Import Prelude Tlv Encoder Block Codec ValHeader Ndn Signature Data Interest ValPacket ValTables Pft Double.

Local Open Scope Z_scope.

(** ** Constants of [ValStrategy] *)

Definition MIN_INTEREST_WAIT : Z := 32.
Definition MAX_INTEREST_WAIT : Z := 62.
Definition MIN_DATA_WAIT : Z := 0.
Definition MAX_DATA_WAIT : Z := 30.
Definition ZERO_WAIT : Z := 0.
Definition DELAY_IN_NANOS : Z := 40000.
Definition SIGNAL_RANGE : Z := 110.
Definition AREA_SIZE : Z := 200.

(** ** ns-3 *)

(** [ns3::Vector3D]: its three public members. *)
Record Vector3D := mkVector3D { v_x : double; v_y : double; v_z : double }.

Class Ns3Geometry := {
  vector_print : Vector3D -> octets;                     (* operator<< *)
  vector_parse : octets -> Vector3D;                     (* operator>> *)
  CalculateDistance : Vector3D -> Vector3D -> double;
}.

(** What a strategy sees of its forwarder and of the simulation: the F2A table, the
    network faces, the position of the node ([None]: no mobility model was set), and
    the value [GetValue] draws from [10000, DELAY_IN_NANOS]. *)
Record strategy_view := mkView {
  sv_f2a : F2A;
  sv_networkFaces : list Z;
  sv_position : option Vector3D;
  sv_random : double;
}.

(** A call of [sendValPacket(outFaceId, valPkt, duration)]. *)
Record send_request := mkSend {
  sr_face : Z;
  sr_packet : ValPacket;
  sr_duration : Z;
}.

(** ** The interface of a strategy

    The four virtual methods of [ValStrategy].  Each makes at most one call of
    [sendValPacket], as its last action. *)
Class Strategy := {
  afterIfntHit : strategy_view -> Z -> ifnt_Entry -> Interest -> result (option send_request);
  afterIfntMiss : strategy_view -> Z -> Interest -> result (option send_request);
  afterDfntHit : strategy_view -> Z -> dfnt_Entry -> list ifnt_Entry -> Data -> result (option send_request);
  afterDfntMiss : strategy_view -> Z -> Data -> list ifnt_Entry -> bool -> result (option send_request);
}.

(** The protected members a strategy uses. *)
Definition getGeoArea (v : strategy_view) (faceId : Z) : octets :=
  match f2a_findByFaceId faceId (sv_f2a v) with Some e => fe_geoArea e | None => str "0" end.

Definition getValNetFaceId (v : strategy_view) : result Z :=
  match sv_networkFaces v with
  | id :: _ => Ok id
  | [] => Err (UndefinedBehaviour "begin() of an empty list dereferenced")
  end.

Definition getPosition (v : strategy_view) : result Vector3D :=
  match sv_position v with
  | Some p => Ok p
  | None => Err (UndefinedBehaviour "null mobility model")
  end.

(** ** Areas *)

(** The value of a [char], which is signed. *)
Definition char_value (b : byte) : Z := if b2z b <? 128 then b2z b else b2z b - 256.

(** [getAreaFromPosition(double _x, double _y)] *)
Definition getAreaFromPosition (x y : double) : result octets :=
  let temp_x := d_div x (of_int AREA_SIZE) in
  let temp_y := d_div y (of_int AREA_SIZE) in
  let* area_x_step := to_int32 temp_x in
  let* area_y_step := to_int32 temp_y in
  let origin_x := if area_x_step >? 25 then z2b 90 else z2b (65 + area_x_step) in
  let origin_y := if area_y_step >? 5 then z2b 53 else z2b (49 + area_y_step) in
  Ok [origin_x; origin_y].

(** [getPositionFromArea(std::string area)]: the middle of the area. *)
Definition getPositionFromArea (area : octets) : result Vector3D :=
  match area with
  | first :: second :: _ =>
    let step_x := char_value first - 65 in
    let step_y := char_value second - 49 in
    let dist_x := if step_x >=? 0
                  then of_int (AREA_SIZE * (step_x + 1) - AREA_SIZE / 2) else of_int 100 in
    let dist_y := if step_y >=? 0
                  then of_int (AREA_SIZE * (step_y + 1) - AREA_SIZE / 2) else of_int 100 in
    Ok (mkVector3D dist_x dist_y (of_int 0))
  | _ => Err (UndefinedBehaviour "iterator past the end of the area dereferenced")
  end.

(** ** Timers *)

(** [generateMicroSecondDelay]: nanoseconds. *)
Definition generateMicroSecondDelay (v : strategy_view) : result Z := to_int64 (sv_random v).

(** [calcFwdTimer(double dist, uint8_t hopC, bool toArea, bool isData)] *)
Definition calcFwdTimer (v : strategy_view) (dist : double) (hopC : Z) (toArea isData : bool) : result Z :=
  let max_dist := of_int SIGNAL_RANGE in
  let time_gap := if isData then of_int (MAX_DATA_WAIT - MIN_DATA_WAIT)
                  else of_int (MAX_INTEREST_WAIT - MIN_INTEREST_WAIT) in
  let min_time := if isData then MIN_DATA_WAIT * 1000000 else MIN_INTEREST_WAIT * 1000000 in
  let in_range max_dist :=
    let time := d_div dist (d_div max_dist time_gap) in
    let time := d_mul time (of_int 1000000) in
    let* long_time := to_int64 time in
    let* delay := generateMicroSecondDelay v in
    Ok (min_time + long_time + delay) in
  if toArea then
    assert! negb (hopC =? 0) orelse "hopC != 0" ;
    let max_dist := of_int (hopC * SIGNAL_RANGE) in
    if d_ltb max_dist dist then
      let* long_time_gap := to_int64 time_gap in
      let* delay := generateMicroSecondDelay v in
      Ok (min_time + long_time_gap + delay)
    else in_range max_dist
  else in_range max_dist.

(** [calcInvertedFwdTimer(double dist, uint8_t hopC, bool toArea, bool isData)] *)
Definition calcInvertedFwdTimer (v : strategy_view) (dist : double) (hopC : Z) (toArea isData : bool)
  : result Z :=
  let max_dist := of_int SIGNAL_RANGE in
  let time_gap := if isData then of_int (MAX_DATA_WAIT - MIN_DATA_WAIT)
                  else of_int (MAX_INTEREST_WAIT - MIN_INTEREST_WAIT) in
  let min_time := if isData then MIN_DATA_WAIT * 1000000 else MIN_INTEREST_WAIT * 1000000 in
  let in_range max_dist :=
    let time := if d_leb dist max_dist
                then d_sub time_gap (d_mul (d_div time_gap max_dist) dist)
                else of_int min_time in
    let time := d_mul time (of_int 1000000) in
    let* long_time := to_int64 time in
    let* delay := generateMicroSecondDelay v in
    Ok (min_time + long_time + delay) in
  if toArea then
    assert! negb (hopC =? 0) orelse "hopC != 0" ;
    let max_dist := of_int (hopC * SIGNAL_RANGE) in
    if d_ltb max_dist dist then
      let* delay := generateMicroSecondDelay v in
      Ok (min_time + min_time + delay)
    else in_range max_dist
  else in_range max_dist.

(** ** Distances *)

(** [getPositions], [getLongestJorney]: the first of the entries with the fewest
    hops left. *)
Definition getPositions (entries : list ifnt_Entry) : list octets := ie_phPos <$> entries.

Fixpoint longest_loop (min : Z) (srcArea : octets) (it : list ifnt_Entry) : Z * octets :=
  match it with
  | [] => (min, srcArea)
  | e :: it' =>
    if min >? ie_hopC e then longest_loop (ie_hopC e) (ie_sa e) it'
    else longest_loop min srcArea it'
  end.
Definition getLongestJorney (entries : list ifnt_Entry) : result (Z * octets) :=
  match entries with
  | [] => Err (UndefinedBehaviour "begin() of an empty vector dereferenced")
  | e :: it => Ok (longest_loop (ie_hopC e) (ie_sa e) it)
  end.

Section strategy.
Context `{Ns3Geometry}.

Definition getMyPos (v : strategy_view) : result octets :=
  let* myPosVector := getPosition v in Ok (vector_print myPosVector).

Definition getMyArea (v : strategy_view) : result octets :=
  let* myPosVector := getPosition v in getAreaFromPosition (v_x myPosVector) (v_y myPosVector).

Definition getMultiPointDist (pointA : octets) (pointsList : list octets) : double :=
  let nItens := zlen pointsList in
  let vectorA := vector_parse pointA in
  let dist := foldl (fun dist point => d_add dist (CalculateDistance vectorA (vector_parse point)))
                    (of_int 0) pointsList in
  d_div dist (of_int nItens).

Definition getDistanceToArea (pointA area : octets) : result double :=
  let* p := getPositionFromArea area in Ok (CalculateDistance (vector_parse pointA) p).

Definition getDistanceToPoint (pointA pointB : octets) : double :=
  CalculateDistance (vector_parse pointA) (vector_parse pointB).

(** ** The handlers *)

Definition doAfterIfntHit (v : strategy_view) (faceId : Z) (ifntEntry : ifnt_Entry) (interest : Interest)
  : result (option send_request) :=
  if ie_hopC ifntEntry =? 0 then Ok None else
  let* known :=
    if bool_decide (ie_da ifntEntry = str "0") then Ok false
    else let* myArea := getMyArea v in Ok (negb (bool_decide (ie_da ifntEntry = myArea))) in
  if (known : bool) then
    let* d := getDistanceToArea (ie_phPos ifntEntry) (ie_da ifntEntry) in
    let* preHopDist := to_uint32 d in
    let* myPos := getMyPos v in
    let* d := getDistanceToArea myPos (ie_da ifntEntry) in
    let* myDist := to_uint32 d in
    if myDist <? preHopDist then
      let valH := ValHeader_new (ie_sa ifntEntry) (ie_da ifntEntry) myPos (ie_rn ifntEntry)
                                (ie_hopC ifntEntry) in
      let valP := setInterest (Some interest) (ValPacket_new valH) in
      let* time := calcFwdTimer v (of_int myDist) (ie_hopC ifntEntry) true false in
      Ok (Some (mkSend (ie_faceId ifntEntry) valP time))
    else Ok None
  else
    let* myPos := getMyPos v in
    let* dist := to_uint32 (getDistanceToPoint (ie_phPos ifntEntry) myPos) in
    let* time := calcInvertedFwdTimer v (of_int dist) 0 false false in
    let destinationArea := getGeoArea v faceId in
    let valH := ValHeader_new (ie_sa ifntEntry) destinationArea myPos (ie_rn ifntEntry)
                              (ie_hopC ifntEntry) in
    let valP := setInterest (Some interest) (ValPacket_new valH) in
    Ok (Some (mkSend (ie_faceId ifntEntry) valP time)).

Definition doAfterIfntMiss (v : strategy_view) (faceId : Z) (interest : Interest)
  : result (option send_request) :=
  let destinationArea := getGeoArea v faceId in
  let hopC := MAXHOPS in
  let* myArea := getMyArea v in
  let* myPos := getMyPos v in
  let valH := ValHeader_new myArea destinationArea myPos (name_toUri (getPrefix (-1) (i_name interest))) hopC in
  let valP := setInterest (Some interest) (ValPacket_new valH) in
  let* out := getValNetFaceId v in
  Ok (Some (mkSend out valP (milliseconds ZERO_WAIT))).

Definition doAfterDfntHit (v : strategy_view) (faceId : Z) (dfntEntry : dfnt_Entry)
    (ifntEntries : list ifnt_Entry) (data : Data) : result (option send_request) :=
  if de_hopC dfntEntry =? 0 then Ok None else
  let nextHopsPosList := getPositions ifntEntries in
  let* prevHopDist := to_uint32 (getMultiPointDist (de_phPos dfntEntry) nextHopsPosList) in
  let* myPos := getMyPos v in
  let* myDist := to_uint32 (getMultiPointDist myPos nextHopsPosList) in
  if (prevHopDist >? SIGNAL_RANGE) && (myDist <? prevHopDist) then
    let* time := calcFwdTimer v (of_int myDist) 0 false true in
    let valH := ValHeader_new (de_sa dfntEntry) (de_da dfntEntry) myPos (de_rn dfntEntry)
                              (de_hopC dfntEntry) in
    let valP := setData (Some data) (ValPacket_new valH) in
    Ok (Some (mkSend (de_faceId dfntEntry) valP time))
  else Ok None.

Definition doAfterDfntMiss (v : strategy_view) (faceId : Z) (data : Data)
    (ifntEntries : list ifnt_Entry) (isProducer : bool) : result (option send_request) :=
  let* journey := getLongestJorney ifntEntries in
  let hopc := u8 (MAXHOPS - journey.1 + 1) in
  let* srcArea := if isProducer then getMyArea v else Ok (getGeoArea v faceId) in
  let* myPos := getMyPos v in
  let valH := ValHeader_new srcArea journey.2 myPos (name_toUri (getPrefix (-1) (d_name data))) hopc in
  let valP := setData (Some data) (ValPacket_new valH) in
  let* out := getValNetFaceId v in
  Ok (Some (mkSend out valP (milliseconds ZERO_WAIT))).

#[export] Instance ValDistancesStrategy : Strategy := {
  afterIfntHit := doAfterIfntHit;
  afterIfntMiss := doAfterIfntMiss;
  afterDfntHit := doAfterDfntHit;
  afterDfntMiss := doAfterDfntMiss;
}.
End strategy.

(** ** Timers, by evaluation *)

(** [f] is defined and strictly increasing from [d] on for [n] arguments, above
    [prev] and at most [hi]. *)
Fixpoint increasing (f : Z -> option Z) (n : nat) (d prev hi : Z) : bool :=
  match n with
  | O => prev <=? hi
  | S n' => match f d with Some t => (prev <? t) && increasing f n' (d + 1) t hi | None => false end
  end.

Lemma increasing_bound f n d prev hi :
  increasing f n d prev hi = true -> prev <= hi.
Proof.
  revert d prev. induction n as [|n IH]; intros d prev; cbn; [by intros; zbool|].
  destruct (f d) as [t|]; [|done]. intros H. zbool. specialize (IH _ _ ltac:(eassumption)). lia.
Qed.

Lemma increasing_at f n d prev hi i :
  increasing f n d prev hi = true -> d <= i < d + Z.of_nat n ->
  exists t, f i = Some t /\ prev < t <= hi.
Proof.
  revert d prev. induction n as [|n IH]; intros d prev H Hi; [lia|]. cbn in H.
  destruct (f d) as [t|] eqn:E; [|done]. zbool. destruct (decide (i = d)) as [->|Hne].
  - exists t. pose proof (increasing_bound f n _ _ _ ltac:(eassumption)). split; [done|lia].
  - destruct (IH (d + 1) t) as (u & Hu & Hb); [done|lia|]. exists u. split; [done|lia].
Qed.

Lemma increasing_lt f n d prev hi i j :
  increasing f n d prev hi = true -> d <= i < j -> j < d + Z.of_nat n ->
  exists t u, f i = Some t /\ f j = Some u /\ prev < t < u /\ u <= hi.
Proof.
  revert d prev. induction n as [|n IH]; intros d prev H Hi Hj; [lia|]. cbn in H.
  destruct (f d) as [t|] eqn:E; [|done]. zbool. destruct (decide (i = d)) as [->|Hne].
  - destruct (increasing_at f n (d + 1) t hi j) as (u & Hu & Hb); [done|lia|].
    exists t, u. repeat split; done || lia.
  - destruct (IH (d + 1) t) as (a & b & Ha & Hb & Hab & Hhi); [done|lia|lia|].
    exists a, b. repeat split; done || lia.
Qed.

(** The timers without the random delay, and as partial functions of the distance. *)
Definition zero_view : strategy_view := mkView F2A_new [] None (of_int 0).

Definition ok_value (r : result Z) : option Z := match r with Ok t => Some t | Err _ => None end.

Lemma ok_value_Some r t : ok_value r = Some t -> r = Ok t.
Proof. destruct r; cbn; congruence. Qed.

Lemma calcFwdTimer_delay v dist hopC toArea isData r t :
  generateMicroSecondDelay v = Ok r ->
  calcFwdTimer zero_view dist hopC toArea isData = Ok t ->
  calcFwdTimer v dist hopC toArea isData = Ok (t + r).
Proof.
  intros Hr. unfold calcFwdTimer. rewrite Hr.
  change (generateMicroSecondDelay zero_view) with (Ok 0 : result Z). cbn [mbind result_bind].
  destruct toArea; [destruct (negb _); [|done]; destruct (d_ltb _ _)|];
    (destruct (to_int64 _) as [a|]; [|done]); cbn [mbind result_bind];
    intros [= <-]; f_equal; lia.
Qed.

Lemma calcInvertedFwdTimer_delay v dist hopC toArea isData r t :
  generateMicroSecondDelay v = Ok r ->
  calcInvertedFwdTimer zero_view dist hopC toArea isData = Ok t ->
  calcInvertedFwdTimer v dist hopC toArea isData = Ok (t + r).
Proof.
  intros Hr. unfold calcInvertedFwdTimer. rewrite Hr.
  change (generateMicroSecondDelay zero_view) with (Ok 0 : result Z). cbn [mbind result_bind].
  destruct toArea; [destruct (negb _); [|done]; destruct (d_ltb _ _)|];
    [intros [= <-]; f_equal; lia| |];
    (destruct (to_int64 _) as [a|]; [|done]); cbn [mbind result_bind];
    intros [= <-]; f_equal; lia.
Qed.

(** To an area, for the hop counts an Interest can have on arrival. *)
Definition area_timer (hopC dist : Z) : option Z :=
  ok_value (calcFwdTimer zero_view (of_int dist) hopC true false).
Lemma area_timer_increasing :
  forallb (fun hopC => increasing (area_timer hopC) (Z.to_nat (hopC * SIGNAL_RANGE + 1)) 0 31999999 62000000)
          (seqZ 1 8) = true.
Proof. vm_compute. reflexivity. Qed.

Definition data_timer (dist : Z) : option Z :=
  ok_value (calcFwdTimer zero_view (of_int dist) 0 false true).
Lemma data_timer_increasing :
  increasing data_timer (Z.to_nat (SIGNAL_RANGE + 1)) 0 (-1) 30000000 = true.
Proof. vm_compute. reflexivity. Qed.

(** Negated, because it decreases. *)
Definition flood_timer (dist : Z) : option Z :=
  Z.opp <$> ok_value (calcInvertedFwdTimer zero_view (of_int dist) 0 false false).
Lemma flood_timer_increasing :
  increasing flood_timer (Z.to_nat (SIGNAL_RANGE + 1)) 0 (-62000001) (-32000000) = true.
Proof. vm_compute. reflexivity. Qed.

(** ** The longest journey *)

Lemma longest_loop_spec min sa it :
  let '(m, a) := longest_loop min sa it in
  m <= min /\ (forall e, e ∈ it -> m <= ie_hopC e) /\
  ((m = min /\ a = sa) \/ exists e, e ∈ it /\ ie_hopC e = m /\ ie_sa e = a).
Proof.
  revert min sa. induction it as [|e it IH]; intros min sa; cbn.
  { split; [lia|]. split; [by intros e ?%elem_of_nil|]. by left. }
  destruct (min >? ie_hopC e) eqn:E; zbool.
  - specialize (IH (ie_hopC e) (ie_sa e)). destruct (longest_loop _ _ _) as [m a].
    destruct IH as (H1 & H2 & H3). split; [lia|]. split.
    + intros x [->|Hx]%elem_of_cons; [done|by apply H2].
    + right. destruct H3 as [[-> ->]|(x & Hx & Hm)]; [exists e|exists x]; split; try done; [left|by right].
  - specialize (IH min sa). destruct (longest_loop _ _ _) as [m a].
    destruct IH as (H1 & H2 & H3). split; [done|]. split.
    + intros x [->|Hx]%elem_of_cons; [|by apply H2]. rewrite Z.gtb_ltb in E. zbool. lia.
    + destruct H3 as [H3|(x & Hx & Hm)]; [by left|right]. exists x. split; [by right|done].
Qed.

(** ** The contract of a strategy

    What the forwarder relies on: a strategy sends the packet it was given, in a
    header with the hop count of the table entry. *)
Class StrategyLaws `{Strategy} := {
  law_ifntHit v f e i s : afterIfntHit v f e i = Ok (Some s) ->
    exists h, sr_packet s = interest_packet h i /\ getHopC h = u8 (ie_hopC e) /\ ie_hopC e <> 0;
  law_ifntMiss v f i s : afterIfntMiss v f i = Ok (Some s) ->
    exists h, sr_packet s = interest_packet h i /\ getHopC h = MAXHOPS;
  law_dfntHit v f e es d s : afterDfntHit v f e es d = Ok (Some s) ->
    exists h, sr_packet s = data_packet h d /\ getHopC h = u8 (de_hopC e) /\ de_hopC e <> 0;
  law_dfntMiss v f d es b s : afterDfntMiss v f d es b = Ok (Some s) ->
    exists h, sr_packet s = data_packet h d;
}.

(** Peel the binds of a computation that returned. *)
Ltac ok_inv H :=
  repeat match type of H with
  | mbind _ _ = Ok _ => let x := fresh "x" in let E := fresh "E" in
      apply result_bind_Ok in H as (x & E & H)
  end.

Section laws.
Context `{Ns3Geometry}.

(** The two ways to forward an Interest. *)
Lemma doAfterIfntHit_inv v f e i s :
  doAfterIfntHit v f e i = Ok (Some s) ->
  ie_hopC e <> 0 /\ exists myPos da, getMyPos v = Ok myPos /\
    sr_face s = ie_faceId e /\
    sr_packet s = interest_packet (ValHeader_new (ie_sa e) da myPos (ie_rn e) (ie_hopC e)) i /\
    ((exists myArea d d' preHopDist myDist,
        ie_da e <> str "0" /\ getMyArea v = Ok myArea /\ ie_da e <> myArea /\ da = ie_da e /\
        getDistanceToArea (ie_phPos e) (ie_da e) = Ok d /\ to_uint32 d = Ok preHopDist /\
        getDistanceToArea myPos (ie_da e) = Ok d' /\ to_uint32 d' = Ok myDist /\
        myDist < preHopDist /\
        calcFwdTimer v (of_int myDist) (ie_hopC e) true false = Ok (sr_duration s)) \/
     (exists dist, (ie_da e = str "0" \/ getMyArea v = Ok (ie_da e)) /\ da = getGeoArea v f /\
        to_uint32 (getDistanceToPoint (ie_phPos e) myPos) = Ok dist /\
        calcInvertedFwdTimer v (of_int dist) 0 false false = Ok (sr_duration s))).
Proof.
  unfold doAfterIfntHit. destruct (ie_hopC e =? 0) eqn:E0; [done|]. zbool.
  intros Hh. apply result_bind_Ok in Hh as (known & Hk & Hh). split; [done|].
  destruct known; ok_inv Hh.
  - case_bool_decide as Hz; [done|]. ok_inv Hk. injection Hk as Hk.
    apply negb_true_iff, bool_decide_eq_false in Hk.
    destruct (_ <? _) eqn:Ed; [|done]. ok_inv Hh. injection Hh as <-. zbool.
    eexists _, _. do 3 (split; [done|]). left. by eexists _, _, _, _, _.
  - injection Hh as <-. eexists _, _. do 3 (split; [done|]). right. eexists. split; [|done].
    case_bool_decide as Hz; [by left|right]. ok_inv Hk. injection Hk as Hk.
    apply negb_false_iff, bool_decide_eq_true in Hk. by rewrite Hk.
Qed.

Lemma doAfterDfntHit_inv v f e es d s :
  doAfterDfntHit v f e es d = Ok (Some s) ->
  de_hopC e <> 0 /\ exists myPos prevHopDist myDist, getMyPos v = Ok myPos /\
    sr_face s = de_faceId e /\
    sr_packet s = data_packet (ValHeader_new (de_sa e) (de_da e) myPos (de_rn e) (de_hopC e)) d /\
    to_uint32 (getMultiPointDist (de_phPos e) (getPositions es)) = Ok prevHopDist /\
    to_uint32 (getMultiPointDist myPos (getPositions es)) = Ok myDist /\
    SIGNAL_RANGE < prevHopDist /\ myDist < prevHopDist /\
    calcFwdTimer v (of_int myDist) 0 false true = Ok (sr_duration s).
Proof.
  unfold doAfterDfntHit. destruct (de_hopC e =? 0) eqn:E0; [done|]. zbool.
  intros Hh. ok_inv Hh. destruct (_ && _) eqn:Ed; [|done]. ok_inv Hh. injection Hh as <-. zbool.
  split; [done|]. by eexists _, _, _.
Qed.

Lemma doAfterIfntMiss_inv v f i s :
  doAfterIfntMiss v f i = Ok (Some s) ->
  exists h, sr_packet s = interest_packet h i /\ getHopC h = MAXHOPS.
Proof. unfold doAfterIfntMiss. intros Hh. ok_inv Hh. injection Hh as <-. by eexists. Qed.

Lemma doAfterDfntMiss_inv v f d es b s :
  doAfterDfntMiss v f d es b = Ok (Some s) ->
  exists j myPos src, getLongestJorney es = Ok j /\ getMyPos v = Ok myPos /\
    (if b then getMyArea v = Ok src else src = getGeoArea v f) /\
    getValNetFaceId v = Ok (sr_face s) /\ sr_duration s = 0 /\
    sr_packet s = data_packet (ValHeader_new src j.2 myPos (name_toUri (getPrefix (-1) (d_name d)))
                                 (u8 (MAXHOPS - j.1 + 1))) d.
Proof.
  unfold doAfterDfntMiss. intros Hh. ok_inv Hh. injection Hh as <-.
  eexists _, _, _. do 2 (split; [done|]). split; [|done]. destruct b; [done|].
  congruence.
Qed.

#[export] Instance ValDistancesStrategy_laws : StrategyLaws.
Proof.
  split; cbn.
  - intros v f e i s (Hz & p & da & _ & _ & Hp & _)%doAfterIfntHit_inv.
    eexists. split; [exact Hp|done].
  - intros v f i s. apply doAfterIfntMiss_inv.
  - intros v f e es d s (Hz & p & ? & ? & _ & _ & Hp & _)%doAfterDfntHit_inv.
    eexists. split; [exact Hp|done].
  - intros v f d es b s (j & p & src & _ & _ & _ & _ & _ & Hp)%doAfterDfntMiss_inv.
    eexists. exact Hp.
Qed.

(** ** Relaying over several hops *)

(** A node that receives a packet with header [h] forwards it with header [h']. *)
Inductive relays (h : ValHeader) : ValHeader -> Prop :=
  | relay_interest v f face i s :
      doAfterIfntHit v f (ifnt_Entry_new h i face) i = Ok (Some s) ->
      relays h (getValHeader (sr_packet s))
  | relay_data v f face d es s :
      doAfterDfntHit v f (dfnt_Entry_new h d face) es d = Ok (Some s) ->
      relays h (getValHeader (sr_packet s)).

Lemma relays_hopC h h' :
  relays h h' -> 1 <= getHopC h <= 255 -> getHopC h' = getHopC h - 1 /\ 1 <= getHopC h'.
Proof.
  intros Hr Hh. assert (Hu : u8 (getHopC h - 1) = getHopC h - 1) by (apply u8_id; unfold is_u8; lia).
  destruct Hr as [v f face i s Hs|v f face d es s Hs].
  - apply doAfterIfntHit_inv in Hs as (Hz & p & da & _ & _ & -> & _).
    cbn in Hz |- *. rewrite Hu in *. rewrite u8_id by (unfold is_u8; lia). lia.
  - apply doAfterDfntHit_inv in Hs as (Hz & p & ? & ? & _ & _ & -> & _).
    cbn in Hz |- *. rewrite Hu in *. rewrite u8_id by (unfold is_u8; lia). lia.
Qed.

(** The distance the previous hop had to the destination area, as the code computes it. *)
Definition prevDist (h : ValHeader) : result Z :=
  let* d := getDistanceToArea (getPhPos h) (getDA h) in to_uint32 d.

(** An Interest forwarded towards a known area. *)
Inductive greedy (h : ValHeader) : ValHeader -> Prop :=
  | greedy_interest v f face i s :
      doAfterIfntHit v f (ifnt_Entry_new h i face) i = Ok (Some s) ->
      getDA h <> str "0" -> getMyArea v <> Ok (getDA h) ->
      greedy h (getValHeader (sr_packet s)).

Lemma greedy_step h h' :
  greedy h h' ->
  getDA h' = getDA h /\ getSA h' = getSA h /\ getRN h' = getRN h /\
  exists d d', prevDist h = Ok d /\ prevDist h' = Ok d' /\ 0 <= d' < d.
Proof.
  intros [v f face i s Hs Hz Ha].
  apply doAfterIfntHit_inv in Hs as (_ & p & da & _ & _ & -> & [Hk|Hk]).
  - destruct Hk as (myArea & d & d' & pre & my & _ & _ & _ & -> & Hd & Hp & Hd' & Hm & Hlt & _).
    do 3 (split; [done|]). exists pre, my. unfold prevDist. cbn in *.
    rewrite Hd, Hd'. cbn. do 2 (split; [done|]). apply to_int_range in Hm. lia.
  - destruct Hk as (dist & [Hda|Hda] & _); exfalso; auto.
Qed.
End laws.

(** ** Properties *)

(** A one-dimensional geometry for the witnesses: a position is one octet. *)
Definition line_geometry : Ns3Geometry := {|
  vector_print v := match truncate (v_x v) with Some z => [z2b z] | None => [] end;
  vector_parse s :=
    mkVector3D (match s with b :: _ => of_int (b2z b) | [] => of_int 0 end) (of_int 0) (of_int 0);
  CalculateDistance a b := SFabs (d_sub (v_x a) (v_x b));
|}.
Definition line_view (x : Z) : strategy_view :=
  mkView F2A_new [257] (Some (mkVector3D (of_int x) (of_int 0) (of_int 0))) (of_int 20000).
(** The header of a node at [x], in area A1, that sends to area C1, whose middle is 500 m away. *)
Definition line_header (x hopC : Z) : ValHeader :=
  ValHeader_new (str "A1") (str "C1") [z2b x] (str "/a") hopC.

(** Over any number of relaying nodes, Interest or Data, every hop decreases the
    hop count by one and it stays positive, so a packet that leaves with [c] hops is
    relayed fewer than [c] times. *)
Theorem relay_hop_bound `{Ns3Geometry} (n : nat) (h h' : ValHeader)
    (Hs : nsteps relays n h h') (Hh : 1 <= getHopC h <= 255) :
  getHopC h' = getHopC h - Z.of_nat n /\ 1 <= getHopC h' /\ Z.of_nat n < getHopC h.
Proof.
  induction Hs as [h|n h h1 h' Hr _ IH]; [lia|].
  destruct (relays_hopC h h1 Hr Hh) as [H1 H2].
  destruct IH as (H3 & H4 & H5); [lia|]. lia.
Qed.

(** A hop of the line: a node at 90 m takes over from one at 30 m. *)
Lemma line_hop :
  @doAfterIfntHit line_geometry (line_view 90) 300
    (ifnt_Entry_new (line_header 30 3) (sample_interest 5) 257) (sample_interest 5) =
  Ok (Some (mkSend 257 (interest_packet (line_header 90 2) (sample_interest 5)) 32020030)).
Proof. vm_compute. reflexivity. Qed.

Lemma relay_hop_bound_witness :
  getHopC (line_header 90 2) = getHopC (line_header 30 3) - 1.
Proof.
  apply (@relay_hop_bound line_geometry 1 (line_header 30 3) (line_header 90 2)).
  - apply nsteps_once. exact (@relay_interest line_geometry _ _ _ _ _ _ line_hop).
  - by vm_compute.
Defined.

(** C19: towards a known area every hop makes progress.  Along any sequence of
    nodes that forward an Interest to the same known destination area, the distance
    in metres of the sender to the middle of that area strictly decreases, so the
    sequence is no longer than the distance at its start, no node position repeats,
    and source area, destination area and root name reach the last node unchanged. *)
Theorem greedy_progress `{Ns3Geometry} (n : nat) (h h' : ValHeader) (d : Z)
    (Hs : nsteps greedy n h h') (Hd : prevDist h = Ok d) :
  getDA h' = getDA h /\ getSA h' = getSA h /\ getRN h' = getRN h /\
  exists d', prevDist h' = Ok d' /\ d' + Z.of_nat n <= d /\ (n <> 0%nat -> 0 <= d').
Proof.
  revert d Hd. induction Hs as [h|n h h1 h' Hr _ IH]; intros d Hd.
  { do 3 (split; [done|]). exists d. split; [done|]. split; [lia|done]. }
  destruct (greedy_step h h1 Hr) as (H1 & H2 & H3 & e & e' & He & He' & Hlt).
  rewrite He in Hd. injection Hd as <-.
  destruct (IH e' He') as (H4 & H5 & H6 & d' & Hd' & Hle & Hn).
  do 3 (split; [congruence|]). exists d'. split; [done|]. split; [lia|]. intros _.
  unfold prevDist in Hd'. apply result_bind_Ok in Hd' as (x & _ & Hx).
  apply to_int_range in Hx. lia.
Qed.

Lemma greedy_progress_witness :
  exists d', @prevDist line_geometry (line_header 90 2) = Ok d' /\ d' + 1 <= 470.
Proof.
  destruct (@greedy_progress line_geometry 1 (line_header 30 3) (line_header 90 2) 470)
    as (_ & _ & _ & d' & H1 & H2 & _).
  - apply nsteps_once.
    refine (@greedy_interest line_geometry _ _ _ _ _ _ line_hop _ _); by vm_compute.
  - vm_compute. reflexivity.
  - by exists d'.
Defined.

(** C20: within the ranges they are made for, the timers order the nodes: towards
    an area (up to the hop count times the signal range) and for Data (within signal
    range) the nearer node waits strictly less; when flooding (within signal range)
    the farther node waits strictly less; and the waiting times are between the
    minimum and the maximum of the packet's kind, plus the random delay. *)
Theorem timers_ordered (v : strategy_view) (r hopC dist dist' : Z)
    (Hr : generateMicroSecondDelay v = Ok r) (Hd : 0 <= dist < dist') :
  (1 <= hopC <= 8 -> dist' <= hopC * SIGNAL_RANGE ->
   exists t t', calcFwdTimer v (of_int dist) hopC true false = Ok (t + r) /\
     calcFwdTimer v (of_int dist') hopC true false = Ok (t' + r) /\
     milliseconds MIN_INTEREST_WAIT <= t < t' /\ t' <= milliseconds MAX_INTEREST_WAIT) /\
  (dist' <= SIGNAL_RANGE ->
   exists t t', calcFwdTimer v (of_int dist) 0 false true = Ok (t + r) /\
     calcFwdTimer v (of_int dist') 0 false true = Ok (t' + r) /\
     milliseconds MIN_DATA_WAIT <= t < t' /\ t' <= milliseconds MAX_DATA_WAIT) /\
  (dist' <= SIGNAL_RANGE ->
   exists t t', calcInvertedFwdTimer v (of_int dist) 0 false false = Ok (t + r) /\
     calcInvertedFwdTimer v (of_int dist') 0 false false = Ok (t' + r) /\
     milliseconds MIN_INTEREST_WAIT <= t' < t /\ t <= milliseconds MAX_INTEREST_WAIT).
Proof.
  split; [|split].
  - intros Hh Hd'. pose proof area_timer_increasing as Hi. rewrite forallb_forall in Hi.
    specialize (Hi hopC). rewrite <- list_elem_of_In in Hi.
    specialize (Hi ltac:(apply elem_of_seqZ; lia)).
    destruct (increasing_lt _ _ _ _ _ dist dist' Hi) as (t & t' & Ht & Ht' & Hb & Hb');
      [lia|unfold SIGNAL_RANGE in *; lia|].
    apply ok_value_Some in Ht, Ht'. exists t, t'.
    split; [by apply calcFwdTimer_delay|]. split; [by apply calcFwdTimer_delay|].
    unfold milliseconds, MIN_INTEREST_WAIT, MAX_INTEREST_WAIT. lia.
  - intros Hd'. destruct (increasing_lt _ _ _ _ _ dist dist' data_timer_increasing)
      as (t & t' & Ht & Ht' & Hb & Hb'); [lia|unfold SIGNAL_RANGE in *; lia|].
    apply ok_value_Some in Ht, Ht'. exists t, t'.
    split; [by apply calcFwdTimer_delay|]. split; [by apply calcFwdTimer_delay|].
    unfold milliseconds, MIN_DATA_WAIT, MAX_DATA_WAIT. lia.
  - intros Hd'. destruct (increasing_lt _ _ _ _ _ dist dist' flood_timer_increasing)
      as (t & t' & Ht & Ht' & Hb & Hb'); [lia|unfold SIGNAL_RANGE in *; lia|].
    apply fmap_Some in Ht as (u & Hu%ok_value_Some & ->), Ht' as (u' & Hu'%ok_value_Some & ->).
    exists u, u'. split; [by apply calcInvertedFwdTimer_delay|].
    split; [by apply calcInvertedFwdTimer_delay|].
    unfold milliseconds, MIN_INTEREST_WAIT, MAX_INTEREST_WAIT. lia.
Qed.

Lemma timers_ordered_witness :
  exists t t', calcFwdTimer (line_view 0) (of_int 40) 2 true false = Ok (t + 20000) /\
    calcFwdTimer (line_view 0) (of_int 200) 2 true false = Ok (t' + 20000) /\ t < t'.
Proof.
  destruct (timers_ordered (line_view 0) 20000 2 40 200) as [H _]; [by vm_compute|lia|].
  destruct H as (t & t' & H1 & H2 & H3 & _); [lia|unfold SIGNAL_RANGE; lia|].
  exists t, t'. split; [done|]. split; [done|lia].
Defined.

(** Outside those ranges the timers lose the order.  One metre beyond the
    range to an area a node waits 30 ns over the minimum, less than every node from
    1 m up that is in range; one metre beyond the signal range a flooding node waits
    more than 32000 s; and a Data timer exceeds its maximum. *)
Theorem timers_out_of_range (v : strategy_view) (r dist t : Z)
    (Hr : generateMicroSecondDelay v = Ok r) (Hd : 1 <= dist <= 8 * SIGNAL_RANGE)
    (Ht : calcFwdTimer v (of_int dist) 8 true false = Ok t) :
  (exists t', calcFwdTimer v (of_int (8 * SIGNAL_RANGE + 1)) 8 true false = Ok t' /\
     t' = milliseconds MIN_INTEREST_WAIT + 30 + r /\ t' < t) /\
  calcInvertedFwdTimer v (of_int (SIGNAL_RANGE + 1)) 0 false false = Ok (32000032000000 + r) /\
  (exists t', calcFwdTimer v (of_int (SIGNAL_RANGE + 1)) 0 false true = Ok t' /\
     milliseconds MAX_DATA_WAIT + r < t').
Proof.
  split; [|split].
  - exists (32000030 + r). split; [apply calcFwdTimer_delay; [done|by vm_compute]|].
    split; [done|].
    assert (Hi : increasing (area_timer 8) (Z.to_nat 880) 1 32000030 62000000 = true) by by vm_compute.
    destruct (increasing_at _ _ _ _ _ dist Hi) as (u & Hu%ok_value_Some & Hb).
    { unfold SIGNAL_RANGE in Hd. lia. }
    rewrite (calcFwdTimer_delay _ _ _ _ _ _ _ Hr Hu) in Ht. injection Ht as <-. lia.
  - apply calcInvertedFwdTimer_delay; [done|]. vm_compute. reflexivity.
  - exists (30272727 + r). split; [apply calcFwdTimer_delay; [done|by vm_compute]|].
    unfold milliseconds, MAX_DATA_WAIT. lia.
Qed.

Lemma timers_out_of_range_witness :
  calcInvertedFwdTimer (line_view 0) (of_int (SIGNAL_RANGE + 1)) 0 false false =
  Ok (32000032000000 + 20000).
Proof.
  apply (timers_out_of_range (line_view 0) 20000 880 62020000); by vm_compute.
Defined.

(** The names of the areas of the map: columns A to Z, rows 1 to 5. *)
Definition area_name (column row : Z) : octets := [z2b (65 + column); z2b (49 + row)].

(** Area names and positions agree: for each of the 26 columns and the rows 1 to
    5 the middle of an area lies in that area; and beyond the last row the cap is off
    by one, a position just past row 5 is put into a row 6, farther ones into row 5. *)
Theorem area_position_roundtrip (column row : Z) (Hc : 0 <= column < 26) (Hr : 0 <= row < 5) :
  (exists p, getPositionFromArea (area_name column row) = Ok p /\
     getAreaFromPosition (v_x p) (v_y p) = Ok (area_name column row)) /\
  getAreaFromPosition (of_int 0) (of_int (AREA_SIZE * 5)) = Ok (str "A6") /\
  getAreaFromPosition (of_int 0) (of_int (AREA_SIZE * 6)) = Ok (str "A5").
Proof.
  split; [|by vm_compute].
  assert (Hall : forallb (fun c => forallb (fun r =>
      match getPositionFromArea (area_name c r) with
      | Ok p => bool_decide (getAreaFromPosition (v_x p) (v_y p) = Ok (area_name c r))
      | Err _ => false
      end) (seqZ 0 5)) (seqZ 0 26) = true) by by vm_compute.
  rewrite forallb_forall in Hall. specialize (Hall column). rewrite <- list_elem_of_In in Hall.
  specialize (Hall ltac:(apply elem_of_seqZ; lia)).
  rewrite forallb_forall in Hall. specialize (Hall row). rewrite <- list_elem_of_In in Hall.
  specialize (Hall ltac:(apply elem_of_seqZ; lia)).
  destruct (getPositionFromArea _) as [p|]; [|done]. exists p. split; [done|].
  by apply bool_decide_eq_true in Hall.
Qed.

Lemma area_position_roundtrip_witness :
  exists p, getPositionFromArea (str "C2") = Ok p /\ getAreaFromPosition (v_x p) (v_y p) = Ok (str "C2").
Proof. apply (area_position_roundtrip 2 1); lia. Defined.

(** Data is relayed only by a node that helps: the strategy forwards it only if
    hops are left, the previous hop was out of signal range of the waiting nodes on
    average, and this node is strictly nearer to them; the packet keeps areas and root
    name and leaves through the face it came from.  Without any waiting node the mean
    distance is 0/0 and its conversion to an integer is undefined. *)
Theorem dfntHit_forwards_only_if_closer `{Ns3Geometry} (v : strategy_view) (f : Z) (e : dfnt_Entry)
    (es : list ifnt_Entry) (d : Data) (s : send_request)
    (Hs : doAfterDfntHit v f e es d = Ok (Some s)) :
  de_hopC e <> 0 /\ es <> [] /\
  (exists prev my myPos, getMyPos v = Ok myPos /\
     to_uint32 (getMultiPointDist (de_phPos e) (getPositions es)) = Ok prev /\
     to_uint32 (getMultiPointDist myPos (getPositions es)) = Ok my /\
     SIGNAL_RANGE < prev /\ my < prev /\
     sr_packet s = data_packet (ValHeader_new (de_sa e) (de_da e) myPos (de_rn e) (de_hopC e)) d) /\
  sr_face s = de_faceId e /\
  (forall e', de_hopC e' <> 0 ->
     exists w, doAfterDfntHit v f e' [] d = Err (UndefinedBehaviour w)).
Proof.
  apply doAfterDfntHit_inv in Hs as (Hz & myPos & prev & my & Hp & Hf & Hpk & H1 & H2 & H3 & H4 & _).
  split; [done|]. split; [|split; [by exists prev, my, myPos|split; [done|]]].
  - intros ->. by vm_compute in H1.
  - intros e' Hz'. exists "conversion of NaN or infinity to an integer type".
    unfold doAfterDfntHit. by rewrite (proj2 (Z.eqb_neq _ _) Hz').
Qed.

(** The Data entry of a node at 200 m and the Interest that waits at [x]. *)
Definition line_data : Data :=
  mkData [] MetaInfo_new (element 21 []) (mkSignature (SignatureInfo_ofType 0) (element 23 []))
    (Some (element 6 [])) no_tags.
Definition line_waiting (x : Z) : ifnt_Entry :=
  ifnt_Entry_new (line_header x 4) (sample_interest 5) 257.

Lemma dfntHit_forwards_only_if_closer_witness :
  let e := dfnt_Entry_new (line_header 200 4) line_data 257 in
  exists s, @doAfterDfntHit line_geometry (line_view 90) 300 e [line_waiting 10] line_data = Ok (Some s) /\
    sr_face s = 257.
Proof.
  intros e. eexists. split; [vm_compute; reflexivity|].
  apply (@dfntHit_forwards_only_if_closer line_geometry (line_view 90) 300 e [line_waiting 10] line_data).
  vm_compute. reflexivity.
Defined.

(** Data that leaves its producer (or its cache) is sent at once towards the
    waiting node that is farthest in hops: the destination is the area of the first
    entry with the fewest hops left, and the hop count is what that Interest used plus
    one, which is one over the limit of the header when its hops were used up; with no
    waiting entry the behaviour is undefined. *)
Theorem dfntMiss_targets_longest_journey `{Ns3Geometry} (v : strategy_view) (f : Z) (d : Data)
    (es : list ifnt_Entry) (isProducer : bool) (s : send_request)
    (Hs : doAfterDfntMiss v f d es isProducer = Ok (Some s))
    (Hes : forall e, e ∈ es -> 0 <= ie_hopC e <= MAXHOPS) :
  (exists e, e ∈ es /\ (forall e', e' ∈ es -> ie_hopC e <= ie_hopC e') /\
     getDA (getValHeader (sr_packet s)) = ie_sa e /\
     getHopC (getValHeader (sr_packet s)) = MAXHOPS - ie_hopC e + 1 /\
     (MAXHOPS < getHopC (getValHeader (sr_packet s)) <-> ie_hopC e = 0)) /\
  sr_duration s = 0 /\ getValNetFaceId v = Ok (sr_face s) /\
  exists w, doAfterDfntMiss v f d [] isProducer = Err (UndefinedBehaviour w).
Proof.
  apply doAfterDfntMiss_inv in Hs as (j & p & src & Hj & _ & _ & Hf & Ht & ->).
  split; [|split; [done|split; [done|by eexists]]].
  destruct es as [|e0 es]; [done|]. injection Hj as <-.
  pose proof (longest_loop_spec (ie_hopC e0) (ie_sa e0) es) as Hl.
  destruct (longest_loop _ _ _) as [m a]. destruct Hl as (H1 & H2 & H3).
  assert (exists e, e ∈ e0 :: es /\ ie_hopC e = m /\ ie_sa e = a) as (e & He & <- & <-).
  { destruct H3 as [[-> ->]|(e & He & Hm)]; [exists e0|exists e]; split; try done; [left|by right]. }
  specialize (Hes e He). exists e. split; [done|]. split.
  - intros e' [->|He']%elem_of_cons; [done|by apply H2].
  - cbn. unfold getHopC, MAXHOPS in *. cbn.
    rewrite (u8_id (9 - ie_hopC e + 1)), u8_id by (unfold is_u8; lia).
    split; [done|]. split; [done|]. lia.
Qed.

Lemma dfntMiss_targets_longest_journey_witness :
  exists s, @doAfterDfntMiss line_geometry (line_view 90) 300 line_data [line_waiting 10] true = Ok (Some s) /\
    sr_duration s = 0.
Proof.
  eexists. split; [vm_compute; reflexivity|].
  apply (@dfntMiss_targets_longest_journey line_geometry (line_view 90) 300 line_data [line_waiting 10] true).
  - vm_compute. reflexivity.
  - intros e ->%list_elem_of_singleton. by vm_compute.
Defined.
