(* ===== verification/ValForwarder.v ===== *)
(** * The VAL forwarder (model/val/fw/val-forwarder.hpp, val-forwarder.cpp)

    The second forwarding plane: it receives VAL packets from the network faces,
    passes their Interests and Data to NFD through geofaces, receives from NFD what is
    to be sent, asks the strategy, and keeps the packets that wait for their
    forwarding timer or for an implicit acknowledgement in the PFT.

    What the forwarder does outside its own state is a list of outputs in the order
    of the calls.  Handing a packet to NFD is the last action of its handler, so the
    reaction of NFD, which may call [reveiceInterest] or [reveiceData], comes after the
    handler's own effects, as it does in the code. *)

From stdpp Require Import base gmap list strings.
From Stdlib Require Import Strings.Byte ZArith Lia.
From S2P Require Import Prelude Tlv Encoder Block Codec ValHeader Ndn Signature Data Interest ValPacket ValTables.
From S2P Require Import Scheduler Pft FaceTable Double ValStrategy.

Local Open Scope Z_scope.

(** ** State *)

(** The callbacks of the scheduled events capture a pointer to the PFT entry and the
    identifier of the outgoing face. *)
Inductive val_timer : Type :=
  | ForwardingTimer (entry : nat) (outFaceId : Z)
  | ImpAckTimer (entry : nat) (outFaceId : Z).

Definition timer_entry (k : val_timer) : nat :=
  match k with ForwardingTimer l _ => l | ImpAckTimer l _ => l end.

Record ValForwarder := mkValForwarder {
  m_faceTable : FaceTable;
  m_ifnt : Ifnt;
  m_dfnt : Dfnt;
  vf_pft : PFT;
  m_f2a : F2A;
  m_networkFaces : list Z;
  m_mobility : bool;              (* the strategy has a mobility model *)
  m_invalidIN : Z;
  vf_timers : EventQueue val_timer;
}.

Definition with_faceTable (x : FaceTable) (s : ValForwarder) : ValForwarder :=
  mkValForwarder x (m_ifnt s) (m_dfnt s) (vf_pft s) (m_f2a s) (m_networkFaces s) (m_mobility s)
                 (m_invalidIN s) (vf_timers s).
Definition with_ifnt (x : Ifnt) (s : ValForwarder) : ValForwarder :=
  mkValForwarder (m_faceTable s) x (m_dfnt s) (vf_pft s) (m_f2a s) (m_networkFaces s) (m_mobility s)
                 (m_invalidIN s) (vf_timers s).
Definition with_dfnt (x : Dfnt) (s : ValForwarder) : ValForwarder :=
  mkValForwarder (m_faceTable s) (m_ifnt s) x (vf_pft s) (m_f2a s) (m_networkFaces s) (m_mobility s)
                 (m_invalidIN s) (vf_timers s).
Definition with_pft (x : PFT) (s : ValForwarder) : ValForwarder :=
  mkValForwarder (m_faceTable s) (m_ifnt s) (m_dfnt s) x (m_f2a s) (m_networkFaces s) (m_mobility s)
                 (m_invalidIN s) (vf_timers s).
Definition with_f2a (x : F2A) (s : ValForwarder) : ValForwarder :=
  mkValForwarder (m_faceTable s) (m_ifnt s) (m_dfnt s) (vf_pft s) x (m_networkFaces s) (m_mobility s)
                 (m_invalidIN s) (vf_timers s).
Definition with_networkFaces (x : list Z) (mobility : bool) (s : ValForwarder) : ValForwarder :=
  mkValForwarder (m_faceTable s) (m_ifnt s) (m_dfnt s) (vf_pft s) (m_f2a s) x mobility
                 (m_invalidIN s) (vf_timers s).
Definition with_invalidIN (x : Z) (s : ValForwarder) : ValForwarder :=
  mkValForwarder (m_faceTable s) (m_ifnt s) (m_dfnt s) (vf_pft s) (m_f2a s) (m_networkFaces s)
                 (m_mobility s) x (vf_timers s).
Definition with_timers (x : EventQueue val_timer) (s : ValForwarder) : ValForwarder :=
  mkValForwarder (m_faceTable s) (m_ifnt s) (m_dfnt s) (vf_pft s) (m_f2a s) (m_networkFaces s)
                 (m_mobility s) (m_invalidIN s) x.

(** What the handlers do outside the forwarder: transmit the packet of a PFT entry on a
    network face, or hand a packet to NFD through a geoface. *)
Inductive output : Type :=
  | SendValPacket (entry : nat) (faceId : Z) (valPkt : ValPacket)
  | InterestToNfd (geoface : Z) (interest : Interest)
  | DataToNfd (geoface : Z) (data : Data).

(** The clock, the position of the node and the value of the random variable. *)
Record env := mkEnv {
  e_now : Z;
  e_position : Vector3D;
  e_random : double;
}.

Definition view (e : env) (s : ValForwarder) : strategy_view :=
  mkView (m_f2a s) (m_networkFaces s) (if m_mobility s then Some (e_position e) else None) (e_random e).

(** ** Geofaces *)

(** The half of [makeGeoFaceFromValHeader] that is done for each area: find the face of
    the area or make one.  Face identifiers are kept in a [uint32_t]. *)
Definition geofaceOfArea (area : octets) (s : ValForwarder) : result (Z * ValForwarder) :=
  match f2a_findByGeoArea area (m_f2a s) with
  | Some e => Ok (u32 (fe_faceId e), s)
  | None =>
    let* (sig, ft) := ft_add makeGeoface (m_faceTable s) in
    let faceID := u32 (m_lastFaceId ft) in
    let f2a := f2a_addEntry (mkF2aEntry faceID area) (m_f2a s) in
    Ok (faceID, with_f2a f2a (with_faceTable ft s))
  end.

Definition makeGeoFaceFromValHeader (valH : ValHeader) (s : ValForwarder)
  : result ((Z * Z) * ValForwarder) :=
  let* (faceID_SA, s) := geofaceOfArea (getSA valH) s in
  let* (faceID_DA, s) := geofaceOfArea (getDA valH) s in
  Ok ((faceID_SA, faceID_DA), s).

(** The constructor: the flood face is the geoface of the area 0 (its default route in
    the FIB is NFD's). *)
Definition ValForwarder_new (ft : FaceTable) : result ValForwarder :=
  let* (sig, ft) := ft_add makeGeoface ft in
  let floodFaceEntry := mkF2aEntry (m_lastFaceId ft) (str "0") in
  Ok (mkValForwarder ft Ifnt_new Dfnt_new PFT_new (f2a_addEntry floodFaceEntry F2A_new) [] false 0
                     EventQueue_new).

(** ** Network faces *)

Definition addToNetworkFaceList (id : Z) (s : ValForwarder) : ValForwarder :=
  with_networkFaces (m_networkFaces s ++ [id]) (m_mobility s) s.
Definition removeFromNetworkFaceList (id : Z) (s : ValForwarder) : ValForwarder :=
  with_networkFaces (erase_first (Z.eqb id) (m_networkFaces s)) (m_mobility s) s.
Definition cleanupOnFaceRemoval (id : Z) (s : ValForwarder) : ValForwarder :=
  removeFromNetworkFaceList id s.

(** The handler of [afterValFaceAdd]: it also sets the mobility model.  The faces are those
    of [StackHelper], with a [NetDeviceTransport] on a node that has a mobility model; the
    code dereferences both without a test. *)
Definition onValFaceAdd (id : Z) (s : ValForwarder) : ValForwarder :=
  let s := addToNetworkFaceList id s in with_networkFaces (m_networkFaces s) true s.

(** [getNetworkFace], [getOtherNetworkFace] *)
Definition getNetworkFace (faceId : Z) (s : ValForwarder) : option Face :=
  match find_first (fun id => (id =? faceId) && bool_decide (is_Some (ft_get faceId (m_faceTable s))))
                   (m_networkFaces s) with
  | Some id => ft_get id (m_faceTable s)
  | None => None
  end.
Definition getOtherNetworkFace (faceId : Z) (s : ValForwarder) : option Face :=
  match find_first (fun id => negb (id =? faceId) && bool_decide (is_Some (ft_get id (m_faceTable s))))
                   (m_networkFaces s) with
  | Some id => ft_get id (m_faceTable s)
  | None => None
  end.

(** ** Outgoing packets and their timers *)

(** Replace the entry a shared pointer points to. *)
Definition update_entry (l : nat) (e : pft_Entry) (s : ValForwarder) : ValForwarder :=
  with_pft (pft_assign l e (vf_pft s)) s.

(** [::nfd::scheduler::schedule] and [setTimer] on the entry. *)
Definition arm (now after : Z) (k : val_timer) (l : nat) (e : pft_Entry) (s : ValForwarder) : ValForwarder :=
  let '(id, q) := schedule now after k (vf_timers s) in
  update_entry l (setTimer (Some id) e) (with_timers q s).

Definition registerOutgoingValPacket (now outFaceId : Z) (valPkt : ValPacket) (duration : Z)
    (s : ValForwarder) : result ValForwarder :=
  let pftEntry := pft_Entry_new valPkt outFaceId in
  let* ((created, l), pft) := pft_addEntry pftEntry (vf_pft s) in
  if (created : bool)
  then Ok (arm now duration (ForwardingTimer l outFaceId) l pftEntry (with_pft pft s))
  else Ok s.

(** The tail call of a strategy handler. *)
Definition sendValPacket (now : Z) (r : option send_request) (s : ValForwarder) : result ValForwarder :=
  match r with
  | None => Ok s
  | Some r => registerOutgoingValPacket now (sr_face r) (sr_packet r) (sr_duration r) s
  end.

Definition getOutFace (id : Z) (s : ValForwarder) : result Face :=
  match ft_get id (m_faceTable s) with
  | Some f => Ok f
  | None => Err (UndefinedBehaviour "null outgoing face")
  end.

Definition removePft (p : ValPacket) (s : ValForwarder) : result ValForwarder :=
  let* (_, pft) := pft_removeEntry p (vf_pft s) in Ok (with_pft pft s).
Definition cancelTimer (e : pft_Entry) (s : ValForwarder) : ValForwarder :=
  with_timers (cancel (pe_timerId e) (vf_timers s)) s.

Definition forwardingTimerCallback (now : Z) (l : nat) (outFaceId : Z) (s : ValForwarder)
  : result (list output * ValForwarder) :=
  let* e := pft_deref l (vf_pft s) in
  if pe_state e =? WAITING_FORWARDING then
    let* outFace := getOutFace outFaceId s in
    if isValNetFace outFace then
      let p := pe_valPkt e in
      let e := (changeStateToWaintingImpAck e).2 in
      let s := arm now (getDefaultImpAckTimerDuration e) (ImpAckTimer l outFaceId) l e s in
      let* s :=
        if (isSet p =? DATA_SET) && (getHopC (getValHeader p) <=? 2) then
          let* e := pft_deref l (vf_pft s) in
          removePft p (cancelTimer e s)
        else Ok s in
      Ok ([SendValPacket l outFaceId p], s)
    else Ok ([], s)
  else Ok ([], s).

Definition impAckTimerCallback (now : Z) (l : nat) (outFaceId : Z) (s : ValForwarder)
  : result (list output * ValForwarder) :=
  let* e := pft_deref l (vf_pft s) in
  if pe_state e =? WAITING_IMPLICIT_ACK then
    let* outFace := getOutFace outFaceId s in
    if isValNetFace outFace then
      let p := pe_valPkt e in
      let e := (oneLessTry e).2 in
      let* s :=
        if pe_tries e >? 0
        then Ok (arm now (getDefaultImpAckTimerDuration e) (ImpAckTimer l outFaceId) l e s)
        else removePft p (update_entry l e s) in
      Ok ([SendValPacket l outFaceId p], s)
    else Ok ([], s)
  else Ok ([], s).

Definition runTimer (now : Z) (k : val_timer) (s : ValForwarder) : result (list output * ValForwarder) :=
  match k with
  | ForwardingTimer l outFaceId => forwardingTimerCallback now l outFaceId s
  | ImpAckTimer l outFaceId => impAckTimerCallback now l outFaceId s
  end.

(** ** Packets from the network *)

(** [preProcessingValPacket]: [true] if no pending packet matches. *)
Definition preProcessingValPacket (valP : ValPacket) (s : ValForwarder) : result (bool * ValForwarder) :=
  let* found := pft_findMatch valP (vf_pft s) in
  match found with
  | None => Ok (true, s)
  | Some l =>
    let* e := pft_deref l (vf_pft s) in
    let hopC := getHopC (getValHeader (pe_valPkt e)) in
    let rcvd := getHopC (getValHeader valP) in
    let isData := isSet (pe_valPkt e) =? DATA_SET in
    let* s :=
      if pe_state e =? WAITING_FORWARDING then
        if hopC =? rcvd then
          let s := cancelTimer e s in
          let s := update_entry l (changeStateToWaintingImpAck e).2 s in
          if isData then removePft valP s else Ok s
        else Ok s
      else if pe_state e =? WAITING_IMPLICIT_ACK then
        if (hopC - 1 =? rcvd) || (isData && (hopC =? rcvd)) then
          let s := cancelTimer e s in
          if isData then removePft valP s else Ok s
        else Ok s
      else Ok s in
    Ok (false, s)
  end.

Definition isEscapedPacket (valH : ValHeader) : bool := false.

Definition processInterestFromNetwork (faceId : Z) (valH : ValHeader) (interest : Interest)
    (s : ValForwarder) : result (list output * ValForwarder) :=
  if isEscapedPacket valH then Ok ([], s) else
  let entry := ifnt_Entry_new valH interest faceId in
  let '(added, ifnt) := ifnt_addEntry entry (m_ifnt s) in
  let s := with_ifnt ifnt s in
  if (added : bool) then
    let* ((sa, da), s) := makeGeoFaceFromValHeader valH s in
    let interest := if negb (bool_decide (getDA valH = str "0"))
                    then interest_setTag (set_nextHopFaceId (Some da)) interest else interest in
    match ft_get sa (m_faceTable s) with
    | Some geoface_SA =>
      Ok (if isGeoFace geoface_SA then [InterestToNfd sa interest] else [], s)
    | None => Ok ([], s)
    end
  else Ok ([], s).

Definition processDataFromNetwork (faceId : Z) (valH : ValHeader) (data : Data)
    (s : ValForwarder) : result (list output * ValForwarder) :=
  let entry := dfnt_Entry_new valH data faceId in
  let s := with_dfnt (dfnt_addEntry entry (m_dfnt s)) s in
  let* ((sa, da), s) := makeGeoFaceFromValHeader valH s in
  match ft_get sa (m_faceTable s) with
  | Some geoface_SA => Ok (if isGeoFace geoface_SA then [DataToNfd sa data] else [], s)
  | None => Ok ([], s)
  end.

(** [onReceivedValPacket]; nothing the forwarder itself does throws [tlv::Error]. *)
Definition onReceivedValPacket (faceId : Z) (valP : ValPacket) (s : ValForwarder)
  : result (list output * ValForwarder) :=
  let* (fresh, s) := preProcessingValPacket valP s in
  if negb fresh then Ok ([], s) else
  if isSet valP =? INTEREST_SET then
    let* interest := getInterest valP in
    processInterestFromNetwork faceId (getValHeader valP) interest s
  else if isSet valP =? DATA_SET then
    let* data := getData valP in
    processDataFromNetwork faceId (getValHeader valP) data s
  else Ok ([], with_invalidIN (u32 (m_invalidIN s + 1)) s).

(** ** Packets from NFD *)

Section from_nfd.
Context `{Strategy}.

Definition reveiceInterest (e : env) (inGeoface : Z) (interest : Interest) (s : ValForwarder)
  : result ValForwarder :=
  match ifnt_findMatchByNonce (getNonce interest) (m_ifnt s) with
  | Some entry =>
    let* r := afterIfntHit (view e s) inGeoface entry interest in sendValPacket (e_now e) r s
  | None =>
    let* r := afterIfntMiss (view e s) inGeoface interest in sendValPacket (e_now e) r s
  end.

(** Cancel the timers of the pending Interests. *)
Fixpoint cancelTimers (ls : list nat) (s : ValForwarder) : result ValForwarder :=
  match ls with
  | [] => Ok s
  | l :: ls' => let* e := pft_deref l (vf_pft s) in cancelTimers ls' (cancelTimer e s)
  end.

Definition reveiceData (e : env) (inGeoface : Z) (data : Data) (nonceList : list Z) (isProducer : bool)
    (s : ValForwarder) : result ValForwarder :=
  if getCongestionMark (d_tags data) =? 501 then
    match dfnt_findMatch (getSignature data) (m_dfnt s) with
    | Some entry => Ok (with_dfnt (dfnt_removeEntry entry (m_dfnt s)).2 s)
    | None => Ok s
    end
  else
    let ifntEntriesList := ifnt_findMatchByNonceList nonceList (m_ifnt s) in
    let s := with_ifnt (ifnt_removeEntriesByNonceList nonceList (m_ifnt s)) s in
    let found := dfnt_findMatch (getSignature data) (m_dfnt s) in
    match found, isProducer with
    | Some entry, false =>
      let* pendingInterests := pft_findMatchByNonceList nonceList (vf_pft s) in
      let* s := cancelTimers pendingInterests s in
      let* pft := pft_removeEntriesByMatchList pendingInterests (vf_pft s) in
      let s := with_pft pft s in
      let s := with_dfnt (dfnt_removeEntry entry (m_dfnt s)).2 s in
      if negb (getCongestionMark (d_tags data) =? 500) then
        let* r := afterDfntHit (view e s) inGeoface entry ifntEntriesList data in
        sendValPacket (e_now e) r s
      else Ok s
    | _, _ =>
      let* r := afterDfntMiss (view e s) inGeoface data ifntEntriesList isProducer in
      let* s := sendValPacket (e_now e) r s in
      match found with
      | Some entry => Ok (with_dfnt (dfnt_removeEntry entry (m_dfnt s)).2 s)
      | None => Ok s
      end
    end.

(** ** The forwarder as a state machine *)

(** What can happen to the forwarder of a node. *)
Inductive val_event : Type :=
  | EvValPacket (faceId : Z) (valP : ValPacket)
  | EvInterest (inGeoface : Z) (interest : Interest)
  | EvData (inGeoface : Z) (data : Data) (nonceList : list Z) (isProducer : bool)
  | EvTimer
  | EvAddFace (face : Face)
  | EvRemoveFace (id : Z).

(** A face that is added or removed: the face table and the handlers of its signals. *)
Definition addFace (face : Face) (s : ValForwarder) : result ValForwarder :=
  let* (sig, ft) := ft_add face (m_faceTable s) in
  let s := with_faceTable ft s in
  match sig with Some (AfterValFaceAdd id) => Ok (onValFaceAdd id s) | _ => Ok s end.
Definition removeFace (id : Z) (s : ValForwarder) : result ValForwarder :=
  let* (sig, ft) := ft_remove id (m_faceTable s) in
  let s := match sig with BeforeValFaceRemove id => cleanupOnFaceRemoval id s | _ => s end in
  Ok (with_faceTable ft s).

(** The first event of the queue runs at its time. *)
Definition fireTimer (now : Z) (s : ValForwarder) : result (list output * ValForwarder) :=
  match pop_due now (vf_timers s) with
  | None => Ok ([], s)
  | Some (ev, q) => runTimer now (ev_callback ev) (with_timers q s)
  end.

Definition val_step (e : env) (ev : val_event) (s : ValForwarder) : result (list output * ValForwarder) :=
  match ev with
  | EvValPacket faceId valP => onReceivedValPacket faceId valP s
  | EvInterest g i => let* s := reveiceInterest e g i s in Ok ([], s)
  | EvData g d ns b => let* s := reveiceData e g d ns b s in Ok ([], s)
  | EvTimer => fireTimer (e_now e) s
  | EvAddFace face => let* s := addFace face s in Ok ([], s)
  | EvRemoveFace id => let* s := removeFace id s in Ok ([], s)
  end.

Fixpoint val_run (evs : list (env * val_event)) (s : ValForwarder) : result (list output * ValForwarder) :=
  match evs with
  | [] => Ok ([], s)
  | (e, ev) :: evs' =>
    let* (o, s) := val_step e ev s in
    let* (o', s) := val_run evs' s in
    Ok (o ++ o', s)
  end.
End from_nfd.

(** ** Timers and pending packets *)

Abbreviation Timers := (EventQueue val_timer).

Definition no_timer (l : nat) (q : Timers) : Prop :=
  forall ev, ev ∈ m_queue q -> timer_entry (ev_callback ev) <> l.

Definition has_timer (l : nat) (q : Timers) : bool :=
  existsb (fun ev => bool_decide (timer_entry (ev_callback ev) = l)) (m_queue q).

Lemma has_timer_false l q : has_timer l q = false <-> no_timer l q.
Proof.
  unfold has_timer, no_timer. rewrite existsb_find_first.
  destruct (find_first _ _) as [ev|] eqn:E.
  - apply find_first_Some in E as [Hin Hl%bool_decide_eq_true]. split; [done|].
    intros H. by destruct (H ev).
  - split; [|done]. intros _ ev Hin. pose proof (proj1 (find_first_None _ _) E ev Hin) as Hf.
    by apply bool_decide_eq_false in Hf.
Qed.

Lemma has_timer_true l q :
  has_timer l q = true <-> exists ev, ev ∈ m_queue q /\ timer_entry (ev_callback ev) = l.
Proof.
  unfold has_timer. rewrite existsb_exists. split; intros (ev & H1 & H2); exists ev.
  - rewrite list_elem_of_In. by apply bool_decide_eq_true in H2.
  - rewrite <- list_elem_of_In. by rewrite bool_decide_eq_true.
Qed.

(** The states an entry can be in. *)
Definition entry_ok (e : pft_Entry) : Prop :=
  (pe_state e = WAITING_FORWARDING /\ pe_tries e = FORWARDING_TRIES) \/
  (pe_state e = WAITING_IMPLICIT_ACK /\ 0 <= pe_tries e <= MAX_IMPLICIT_ACK_TRIES).

(** The callback [k] fits the state of the entry. *)
Definition timer_fits (k : val_timer) (e : pft_Entry) : Prop :=
  match k with
  | ForwardingTimer _ f => pe_state e = WAITING_FORWARDING /\ f = pe_faceId e
  | ImpAckTimer _ f => pe_state e = WAITING_IMPLICIT_ACK /\ 1 <= pe_tries e /\ f = pe_faceId e
  end.

(** Every scheduled callback belongs to a listed entry that knows the timer and is in
    the state the callback expects. *)
Record fwd_ok (t : PFT) (q : Timers) : Prop := {
  fo_pft : pft_inv t;
  fo_queue : queue_inv q;
  fo_entry l e : pft_store t !! l = Some e -> entry_ok e;
  fo_timer ev : ev ∈ m_queue q ->
    timer_entry (ev_callback ev) ∈ m_pft t /\
    exists e, pft_store t !! timer_entry (ev_callback ev) = Some e /\
      pe_timerId e = Some (ev_id ev) /\ timer_fits (ev_callback ev) e;
}.

(** How often an entry may still be transmitted: once and with all its tries before
    its first transmission, its tries after it, and not at all without a timer. *)
Definition entry_value (e : pft_Entry) : nat :=
  if pe_state e =? WAITING_FORWARDING then S (Z.to_nat MAX_IMPLICIT_ACK_TRIES) else Z.to_nat (pe_tries e).
Definition budget (t : PFT) (q : Timers) (l : nat) : nat :=
  match pft_store t !! l with
  | Some e => if has_timer l q then entry_value e else 0%nat
  | None => 0%nat
  end.
(** The same for locations that are not allocated yet. *)
Definition MAX_TRANSMISSIONS : nat := 4.
Definition cap (t : PFT) (q : Timers) (l : nat) : nat :=
  if decide (l < pft_next t)%nat then budget t q l else MAX_TRANSMISSIONS.

Lemma entry_value_max e : entry_ok e -> (entry_value e <= MAX_TRANSMISSIONS)%nat.
Proof.
  intros [[Hs Ht]|[Hs Ht]]; unfold entry_value, MAX_TRANSMISSIONS; rewrite Hs.
  - rewrite Z.eqb_refl. unfold MAX_IMPLICIT_ACK_TRIES. lia.
  - change (WAITING_IMPLICIT_ACK =? WAITING_FORWARDING) with false. cbv iota.
    unfold MAX_IMPLICIT_ACK_TRIES in *. lia.
Qed.

Lemma fwd_ok_new : fwd_ok PFT_new EventQueue_new.
Proof.
  split; [apply pft_inv_new|apply queue_inv_new| |].
  - intros l e H. cbn in H. by rewrite lookup_empty in H.
  - by intros ev ?%elem_of_nil.
Qed.

(** *** Fewer timers *)

Lemma has_timer_sub l (q q' : Timers) :
  (forall ev, ev ∈ m_queue q' -> ev ∈ m_queue q) -> has_timer l q' = true -> has_timer l q = true.
Proof. rewrite !has_timer_true. intros H (ev & Hin & Hl). exists ev. auto. Qed.

Lemma cap_sub t (q q' : Timers) l :
  (forall ev, ev ∈ m_queue q' -> ev ∈ m_queue q) -> (cap t q' l <= cap t q l)%nat.
Proof.
  intros H. unfold cap, budget. case_decide; [|done]. destruct (pft_store t !! l); [|done].
  destruct (has_timer l q') eqn:E; [|lia]. by rewrite (has_timer_sub l q q').
Qed.

Lemma fwd_ok_sub t (q q' : Timers) :
  fwd_ok t q -> queue_inv q' -> (forall ev, ev ∈ m_queue q' -> ev ∈ m_queue q) -> fwd_ok t q'.
Proof.
  intros [Hp Hq He Ht] Hq' Hsub. split; try done. intros ev Hev. apply Ht. by apply Hsub.
Qed.

Lemma elem_of_cancel_sub id (q : Timers) ev : ev ∈ m_queue (cancel id q) -> ev ∈ m_queue q.
Proof. destruct id as [id|]; [|done]. apply elem_of_erase_first. Qed.

Lemma fwd_ok_cancel t q id : fwd_ok t q -> fwd_ok t (cancel id q).
Proof.
  intros H. apply (fwd_ok_sub t q); [done|apply queue_inv_cancel, H|]. apply elem_of_cancel_sub.
Qed.

Lemma cap_cancel t q id l : (cap t (cancel id q) l <= cap t q l)%nat.
Proof. apply cap_sub, elem_of_cancel_sub. Qed.

(** Cancelling the timer of an entry leaves it without one. *)
Lemma no_timer_cancel t q l e :
  fwd_ok t q -> pft_store t !! l = Some e -> no_timer l (cancel (pe_timerId e) q).
Proof.
  intros H He ev Hev Hl. pose proof (elem_of_cancel_sub _ _ _ Hev) as Hin.
  destruct (fo_timer t q H ev Hin) as (_ & e' & He' & Hid & _).
  rewrite Hl, He in He'. injection He' as <-. rewrite Hid in Hev.
  apply elem_of_cancel in Hev as [_ Hne]; [done|apply H].
Qed.

Lemma no_timer_cancel_other l id q : no_timer l q -> no_timer l (cancel id q).
Proof. intros H ev Hev. apply H. by eapply elem_of_cancel_sub. Qed.

(** Taking the first event leaves its entry without a timer. *)
Lemma fwd_ok_pop t q now ev q' :
  fwd_ok t q -> pop_due now q = Some (ev, q') ->
  fwd_ok t q' /\ no_timer (timer_entry (ev_callback ev)) q'.
Proof.
  intros H Hp. pose proof (fun x => elem_of_pop now q ev q' x Hp) as Hel.
  assert (Hq' : queue_inv q') by (eapply queue_inv_pop; [apply H|done]).
  split; [apply (fwd_ok_sub t q); [done|done|]; intros x Hx; apply Hel; by right|].
  intros x Hx Hl.
  destruct (fo_timer t q H x) as (_ & e & He & Hid & _); [apply Hel; by right|].
  destruct (fo_timer t q H ev) as (_ & e' & He' & Hid' & _); [apply Hel; by left|].
  rewrite Hl, He' in He. injection He as ->. rewrite Hid in Hid'. injection Hid' as Hid'.
  destruct (fo_queue t q H) as (_ & Hd & _). unfold pop_due in Hp.
  destruct (m_queue q) as [|y ys]; [done|]. case_match; [done|]. injection Hp as -> <-.
  csimpl in Hd. inversion Hd as [|? ? Hnin _]; subst. apply Hnin. rewrite <- Hid'.
  by apply list_elem_of_fmap_2.
Qed.

Lemma cap_pop t q now ev q' l :
  pop_due now q = Some (ev, q') -> (cap t q' l <= cap t q l)%nat.
Proof. intros Hp. apply cap_sub. intros x Hx. apply (elem_of_pop _ _ _ _ _ Hp). by right. Qed.

(** *** Changing an entry that has no timer *)

Lemma fwd_ok_assign t q l e e' :
  fwd_ok t q -> pft_store t !! l = Some e -> no_timer l q ->
  pe_valPkt e' = pe_valPkt e -> entry_ok e' -> fwd_ok (pft_assign l e' t) q.
Proof.
  intros H He Hn Hp Hok. split.
  - eapply pft_inv_assign; [apply H|done|done].
  - apply H.
  - intros l' x. cbn. rewrite lookup_insert. case_decide; [by intros [= <-]|]. apply H.
  - intros ev Hev. destruct (fo_timer t q H ev Hev) as (Hin & x & Hx & Hrest).
    split; [done|]. exists x. split; [|done]. cbn. rewrite lookup_insert_ne; [done|].
    intros Heq. by apply (Hn ev Hev).
Qed.

Lemma cap_assign t q l e e' l' :
  pft_store t !! l = Some e -> no_timer l q -> cap (pft_assign l e' t) q l' = cap t q l'.
Proof.
  intros He Hn. unfold cap, budget. cbn. case_decide; [|done]. rewrite lookup_insert.
  case_decide as Hd; [|done]. subst l'. rewrite He. apply has_timer_false in Hn. by rewrite Hn.
Qed.

(** *** Scheduling a timer for an entry that has none *)

Definition armed_pft (now after : Z) (k : val_timer) (l : nat) (e : pft_Entry) (t : PFT) (q : Timers) : PFT :=
  pft_assign l (setTimer (Some (next_id q)) e) t.

Lemma fwd_ok_arm now after k l e0 e t q :
  fwd_ok t q -> l ∈ m_pft t -> pft_store t !! l = Some e0 -> no_timer l q -> timer_entry k = l ->
  pe_valPkt e = pe_valPkt e0 -> entry_ok e -> timer_fits k e ->
  fwd_ok (armed_pft now after k l e t q) (schedule now after k q).2.
Proof.
  intros H Hl He Hn Hk Hp Hok Hfit. split.
  - eapply pft_inv_assign; [apply H|done|done].
  - apply queue_inv_schedule, H.
  - intros l' x. cbn. rewrite lookup_insert. case_decide; [by intros [= <-]|]. apply H.
  - intros ev [-> | Hev]%elem_of_schedule; cbn [ev_callback ev_id].
    + rewrite Hk. split; [done|]. exists (setTimer (Some (next_id q)) e). cbn.
      rewrite lookup_insert, decide_True by done. split; [done|]. split; [done|].
      by destruct k.
    + destruct (fo_timer t q H ev Hev) as (Hin & x & Hx & Hrest). split; [done|]. exists x.
      split; [|done]. cbn. rewrite lookup_insert_ne; [done|]. intros Heq. by apply (Hn ev Hev).
Qed.

Lemma has_timer_schedule now after k q l :
  has_timer l (schedule now after k q).2 = bool_decide (timer_entry k = l) || has_timer l q.
Proof.
  apply Bool.eq_true_iff_eq. rewrite orb_true_iff, bool_decide_eq_true, !has_timer_true. split.
  - intros (ev & [-> | Hev]%elem_of_schedule & Hl); [by left|right]. by exists ev.
  - intros [Hk|(ev & Hev & Hl)].
    + exists (mkEvent (next_id q) (now + after) k). rewrite elem_of_schedule. auto.
    + exists ev. rewrite elem_of_schedule. auto.
Qed.

Lemma cap_arm now after k l e t q l' :
  timer_entry k = l -> (l < pft_next t)%nat ->
  cap (armed_pft now after k l e t q) (schedule now after k q).2 l' =
  if decide (l' = l) then entry_value e else cap t q l'.
Proof.
  intros Hk Hlt. unfold cap, budget. cbn [armed_pft pft_assign pft_store pft_next].
  rewrite has_timer_schedule, Hk. destruct (decide (l' = l)) as [->|Hne].
  - rewrite decide_True, lookup_insert, decide_True by done. by rewrite bool_decide_true.
  - case_decide; [|done]. rewrite lookup_insert_ne by done. by rewrite bool_decide_false.
Qed.

(** *** Removing entries that have no timer *)

Lemma fwd_ok_list t t' q :
  fwd_ok t q -> pft_inv t' -> pft_store t' = pft_store t ->
  (forall l, l ∈ m_pft t -> l ∈ m_pft t' \/ no_timer l q) -> fwd_ok t' q.
Proof.
  intros H Ht' Hs Hl. split; [done|apply H| |].
  - rewrite Hs. apply H.
  - intros ev Hev. destruct (fo_timer t q H ev Hev) as (Hin & Hrest). rewrite Hs.
    split; [|done]. destruct (Hl _ Hin) as [?|Hn]; [done|]. by destruct (Hn ev Hev).
Qed.

Lemma fwd_ok_erase t q k :
  fwd_ok t q -> k <> KeyNone ->
  (forall l, l ∈ m_pft t -> key_at t l = k -> no_timer l q) -> fwd_ok (pft_erase k t) q.
Proof.
  intros H Hk Hn. apply (fwd_ok_list t); [done|apply pft_inv_erase, H|done|].
  intros l Hl. destruct (decide (key_at t l = k)) as [Heq|Hne]; [right; by apply Hn|left].
  by apply elem_of_erase.
Qed.

Lemma cap_list t t' q l :
  pft_store t' = pft_store t -> pft_next t' = pft_next t -> cap t' q l = cap t q l.
Proof. intros Hs Hn. unfold cap, budget. by rewrite Hs, Hn. Qed.

(** *** A new entry *)

Lemma fwd_ok_insert t q e :
  fwd_ok t q -> pending (pe_valPkt e) -> pft_findMatch (pe_valPkt e) t = Ok None -> entry_ok e ->
  fwd_ok (pft_insert e t) q /\ no_timer (pft_next t) q.
Proof.
  intros H Hp Hf Hok.
  assert (Hn : no_timer (pft_next t) q).
  { intros ev Hev Heq. destruct (fo_timer t q H ev Hev) as (_ & x & Hx & _).
    rewrite Heq, pft_store_fresh in Hx; [done|apply H]. }
  split; [|done]. split.
  - apply pft_inv_insert; [apply H|done|done].
  - apply H.
  - intros l x. cbn. rewrite lookup_insert. case_decide; [by intros [= <-]|]. apply H.
  - intros ev Hev. destruct (fo_timer t q H ev Hev) as (Hin & x & Hx & Hrest).
    split; [cbn; apply elem_of_app; by left|]. exists x. split; [|done]. cbn.
    rewrite lookup_insert_ne; [done|]. intros Heq. by apply (Hn ev Hev).
Qed.

(** ** Steps of the forwarder *)

Definition fwd_inv (s : ValForwarder) : Prop := fwd_ok (vf_pft s) (vf_timers s).
Definition vcap (s : ValForwarder) : nat -> nat := cap (vf_pft s) (vf_timers s).

(** The transmissions of an entry among the outputs. *)
Definition is_send (l : nat) (o : output) : bool :=
  match o with SendValPacket l' _ _ => bool_decide (l' = l) | _ => false end.
Definition sent (l : nat) (o : list output) : nat := length (filter (fun x => is_send l x = true) o).

Lemma sent_app l o o' : sent l (o ++ o') = (sent l o + sent l o')%nat.
Proof. unfold sent. by rewrite filter_app, length_app. Qed.
Lemma sent_one l l' f p : sent l [SendValPacket l' f p] = if decide (l = l') then 1%nat else 0%nat.
Proof.
  unfold sent. cbn. destruct (decide (l = l')) as [->|Hne].
  - by rewrite bool_decide_true.
  - by rewrite bool_decide_false.
Qed.

(** A step keeps the invariant, and what it transmits is taken from the budgets. *)
Definition progress (s : ValForwarder) (o : list output) (s' : ValForwarder) : Prop :=
  fwd_inv s' /\ (pft_next (vf_pft s) <= pft_next (vf_pft s'))%nat /\
  forall l, (sent l o + vcap s' l <= vcap s l)%nat.

Lemma progress_trans s o s1 o' s2 : progress s o s1 -> progress s1 o' s2 -> progress s (o ++ o') s2.
Proof.
  intros (H1 & Hn1 & Hc1) (H2 & Hn2 & Hc2). split; [done|]. split; [lia|].
  intros l. rewrite sent_app. specialize (Hc1 l). specialize (Hc2 l). lia.
Qed.

Lemma progress_frame s s' :
  fwd_inv s -> vf_pft s' = vf_pft s -> vf_timers s' = vf_timers s -> progress s [] s'.
Proof.
  intros H Hp Hq. unfold progress, fwd_inv, vcap. rewrite Hp, Hq. split; [done|]. split; [lia|].
  intros l. cbn. lia.
Qed.

Lemma arm_eq now after k l e s :
  arm now after k l e s =
  with_pft (armed_pft now after k l e (vf_pft s) (vf_timers s))
           (with_timers (schedule now after k (vf_timers s)).2 s).
Proof. done. Qed.

Lemma removePft_eq p s :
  pft_inv (vf_pft s) -> wf_packet p -> removePft p s = Ok (with_pft (pft_erase (key_of p) (vf_pft s)) s).
Proof. intros Ht Hp. unfold removePft. by rewrite pft_removeEntry_spec. Qed.

(** The only listed entry with the key of the packet at [l]. *)
Lemma key_at_unique t l e l' :
  pft_inv t -> l ∈ m_pft t -> pft_store t !! l = Some e -> l' ∈ m_pft t ->
  key_at t l' = key_of (pe_valPkt e) -> l' = l.
Proof.
  intros Ht Hl He Hl' Hk. eapply (NoDup_fmap_eq (key_at t)); [apply Ht|done|done|].
  rewrite Hk. unfold key_at. by rewrite He.
Qed.

Lemma removePft_progress s l e p :
  fwd_inv s -> l ∈ m_pft (vf_pft s) -> pft_store (vf_pft s) !! l = Some e -> no_timer l (vf_timers s) ->
  wf_packet p -> key_of p = key_of (pe_valPkt e) ->
  exists s', removePft p s = Ok s' /\ progress s [] s' /\ vf_timers s' = vf_timers s.
Proof.
  intros H Hl He Hn Hp Hk. eexists. split; [apply removePft_eq; [apply H|done]|].
  split; [|done]. split; [|split; [cbn; lia|]].
  - apply fwd_ok_erase; [done| |].
    + rewrite Hk. by eapply pi_pending; [apply H|].
    + intros l' Hl' Hk'. rewrite (key_at_unique (vf_pft s) l e l'); try done; [apply H|congruence].
  - intros l'. unfold vcap. cbn. by rewrite (cap_list (vf_pft s)).
Qed.

(** Cancelling the timer of an entry and removing it. *)
Lemma cancel_remove_progress s l e p s' :
  fwd_inv s -> l ∈ m_pft (vf_pft s) -> pft_store (vf_pft s) !! l = Some e ->
  wf_packet p -> key_of p = key_of (pe_valPkt e) -> removePft p (cancelTimer e s) = Ok s' ->
  progress s [] s' /\ pft_next (vf_pft s') = pft_next (vf_pft s) /\ m_faceTable s' = m_faceTable s.
Proof.
  intros H Hl He Hp Hk Hr. assert (H3 : fwd_inv (cancelTimer e s)) by by apply fwd_ok_cancel.
  destruct (removePft_progress (cancelTimer e s) l e p) as (s4 & Hs4 & Hp4 & _); try done.
  { by apply (no_timer_cancel (vf_pft s)). }
  rewrite Hs4 in Hr. injection Hr as <-. split.
  - eapply (progress_trans _ [] (cancelTimer e s) []); [|done]. split; [done|]. split; [cbn; lia|].
    intros l'. cbn. apply cap_cancel.
  - rewrite removePft_eq in Hs4; [|apply H3|done]. by injection Hs4 as <-.
Qed.

(** *** Registering an outgoing packet *)

Lemma registerOutgoing_progress now f p d s :
  fwd_inv s -> pending p ->
  exists s', registerOutgoingValPacket now f p d s = Ok s' /\ progress s [] s'.
Proof.
  intros H Hp. unfold registerOutgoingValPacket.
  destruct (pft_addEntry_cases (pft_Entry_new p f) (vf_pft s)) as [(l & Hf & ->)|[Hf ->]];
    [apply H|done|cbn [mbind result_bind]..].
  { exists s. split; [done|]. by apply progress_frame. }
  eexists. split; [done|]. rewrite arm_eq.
  set (t1 := pft_insert (pft_Entry_new p f) (vf_pft s)).
  assert (Hok : entry_ok (pft_Entry_new p f)) by by left.
  destruct (fwd_ok_insert (vf_pft s) (vf_timers s) (pft_Entry_new p f) H Hp Hf Hok) as [H1 Hn].
  assert (Hlk : pft_store t1 !! pft_next (vf_pft s) = Some (pft_Entry_new p f)).
  { cbn. by rewrite lookup_insert, decide_True. }
  split; [|split; [cbn; lia|]].
  - eapply fwd_ok_arm; try done. cbn. apply elem_of_app. right. by apply list_elem_of_singleton.
  - intros l. unfold vcap. cbn [with_pft with_timers vf_pft vf_timers].
    rewrite (cap_arm _ _ _ (pft_next (vf_pft s))) by (cbn; lia || done). cbn [sent filter length].
    destruct (decide (l = pft_next (vf_pft s))) as [->|Hne].
    + unfold cap. rewrite decide_False by lia. by apply entry_value_max.
    + unfold cap, budget, t1. cbn.
      destruct (decide (l < S (pft_next (vf_pft s)))%nat);
        destruct (decide (l < pft_next (vf_pft s))%nat); try lia.
      by rewrite lookup_insert_ne.
Qed.

(** *** Timers *)

(** A callback whose event was taken from the queue: the budget of its entry is what
    the entry had with the timer. *)
Definition timer_step (s : ValForwarder) (l : nat) (e : pft_Entry) (o : list output) (s' : ValForwarder) : Prop :=
  fwd_inv s' /\ pft_next (vf_pft s') = pft_next (vf_pft s) /\ (vcap s' l < entry_value e)%nat /\
  m_faceTable s' = m_faceTable s /\
  forall l', (sent l' o + vcap s' l' <= if decide (l' = l) then entry_value e else vcap s l')%nat.

Lemma vcap_no_timer s l e :
  fwd_inv s -> no_timer l (vf_timers s) -> pft_store (vf_pft s) !! l = Some e -> vcap s l = 0%nat.
Proof.
  intros H Hn He. unfold vcap, cap, budget. rewrite He.
  rewrite decide_True by (eapply pi_next; [apply H|by eexists]).
  by rewrite (proj2 (has_timer_false _ _) Hn).
Qed.

Lemma timer_fits_value k e : timer_fits k e -> (0 < entry_value e)%nat.
Proof.
  unfold timer_fits, entry_value. destruct k; intros Hk; [destruct Hk as [-> _]|destruct Hk as (-> & Ht & _)].
  - rewrite Z.eqb_refl. lia.
  - change (WAITING_IMPLICIT_ACK =? WAITING_FORWARDING) with false. cbv iota. lia.
Qed.

Lemma timer_step_idle s l e k :
  fwd_inv s -> no_timer l (vf_timers s) -> pft_store (vf_pft s) !! l = Some e -> timer_fits k e ->
  timer_step s l e [] s.
Proof.
  intros H Hn He Hk%timer_fits_value. pose proof (vcap_no_timer s l e H Hn He) as Hv.
  split; [done|]. split; [done|]. split; [lia|]. split; [done|]. intros l'. cbn [sent filter length].
  case_decide as Hd; [subst l'; cbn; lia|cbn; lia].
Qed.

Lemma entry_ok_changeState e : entry_ok e -> entry_ok (changeStateToWaintingImpAck e).2.
Proof.
  unfold changeStateToWaintingImpAck. intros H. destruct (_ =? _); [|done]. right. cbn.
  unfold MAX_IMPLICIT_ACK_TRIES. lia.
Qed.

Lemma changeState_valPkt e : pe_valPkt (changeStateToWaintingImpAck e).2 = pe_valPkt e.
Proof. unfold changeStateToWaintingImpAck. by destruct (_ =? _). Qed.

Lemma forwardingTimer_step now l f s e o s' :
  fwd_inv s -> no_timer l (vf_timers s) -> l ∈ m_pft (vf_pft s) ->
  pft_store (vf_pft s) !! l = Some e -> timer_fits (ForwardingTimer l f) e ->
  forwardingTimerCallback now l f s = Ok (o, s') -> timer_step s l e o s'.
Proof.
  intros H Hn Hl He Hfit Hcb. pose proof Hfit as [Hst Hf]. unfold forwardingTimerCallback, pft_deref in Hcb.
  rewrite He in Hcb. cbn [mbind result_bind] in Hcb. rewrite Hst, Z.eqb_refl in Hcb.
  apply result_bind_Ok in Hcb as (outFace & _ & Hcb).
  destruct (isValNetFace outFace); [|injection Hcb as <- <-; by eapply timer_step_idle].
  set (e1 := (changeStateToWaintingImpAck e).2) in *.
  assert (He1 : pe_state e1 = WAITING_IMPLICIT_ACK /\ pe_tries e1 = 3 /\ pe_faceId e1 = pe_faceId e).
  { unfold e1, changeStateToWaintingImpAck. by rewrite Hst. }
  destruct He1 as (Hs1 & Ht1 & Hf1).
  rewrite arm_eq in Hcb. apply result_bind_Ok in Hcb as (s2 & Hs2 & Hcb). injection Hcb as <- <-.
  set (s1 := with_pft _ _) in *.
  assert (Hlt : (l < pft_next (vf_pft s))%nat) by (eapply pi_next; [apply H|by eexists]).
  assert (H1 : fwd_inv s1).
  { eapply fwd_ok_arm; try done.
    - apply changeState_valPkt.
    - apply entry_ok_changeState. by eapply fo_entry.
    - cbn. rewrite Hs1, Ht1, Hf1. repeat split; done || lia. }
  assert (Hc1 : forall l', vcap s1 l' = if decide (l' = l) then 3%nat else vcap s l').
  { intros l'. unfold vcap. subst s1. cbn [with_pft with_timers vf_pft vf_timers].
    rewrite cap_arm by done. case_decide; [|done]. unfold entry_value. by rewrite Hs1, Ht1. }
  assert (Hv : entry_value e = 4%nat) by (unfold entry_value; by rewrite Hst).
  enough (Hp : progress s1 [] s2 /\ pft_next (vf_pft s2) = pft_next (vf_pft s) /\
                m_faceTable s2 = m_faceTable s).
  { destruct Hp as [(H2 & _ & Hc2) [Hnx Hft]]. split; [done|]. split; [done|].
    assert (Hc : forall l', (vcap s2 l' <= if decide (l' = l) then 3 else vcap s l')%nat).
    { intros l'. specialize (Hc2 l'). rewrite Hc1 in Hc2. cbn in Hc2. done. }
    split; [specialize (Hc l); rewrite decide_True in Hc by done; rewrite Hv; lia|].
    split; [done|]. intros l'. specialize (Hc l'). rewrite sent_one.
    case_decide; [rewrite Hv|]; lia. }
  destruct (_ && _); [|injection Hs2 as <-; split; [by apply progress_frame|done]].
  assert (Hlk : pft_store (vf_pft s1) !! l = Some (setTimer (Some (next_id (vf_timers s))) e1)).
  { cbn. by rewrite lookup_insert, decide_True. }
  unfold pft_deref in Hs2. rewrite Hlk in Hs2. cbn [mbind result_bind] in Hs2.
  eapply (cancel_remove_progress s1 l) in Hs2; [exact Hs2|done|done|done| |].
  - by eapply pi_pending; [apply H|].
  - cbn. unfold e1. by rewrite changeState_valPkt.
Qed.

Lemma impAckTimer_step now l f s e o s' :
  fwd_inv s -> no_timer l (vf_timers s) -> l ∈ m_pft (vf_pft s) ->
  pft_store (vf_pft s) !! l = Some e -> timer_fits (ImpAckTimer l f) e ->
  impAckTimerCallback now l f s = Ok (o, s') -> timer_step s l e o s'.
Proof.
  intros H Hn Hl He Hfit Hcb. pose proof Hfit as (Hst & Htr & Hf). unfold impAckTimerCallback, pft_deref in Hcb.
  rewrite He in Hcb. cbn [mbind result_bind] in Hcb. rewrite Hst, Z.eqb_refl in Hcb.
  apply result_bind_Ok in Hcb as (outFace & _ & Hcb).
  destruct (isValNetFace outFace); [|injection Hcb as <- <-; by eapply timer_step_idle].
  apply result_bind_Ok in Hcb as (s2 & Hs2 & Hcb). injection Hcb as <- <-.
  assert (He1 : (oneLessTry e).2 = mkPftEntry (pe_valPkt e) (pe_state e) (pe_tries e - 1) (pe_faceId e) (pe_timerId e)).
  { unfold oneLessTry. by rewrite (proj2 (Z.gtb_lt _ _)) by lia. }
  rewrite He1 in Hs2. clear He1. set (e1 := mkPftEntry _ _ _ _ _) in Hs2.
  assert (Hlt : (l < pft_next (vf_pft s))%nat) by (eapply pi_next; [apply H|by eexists]).
  assert (Hok : entry_ok e1).
  { right. cbn. destruct (fo_entry _ _ H l e He) as [[Hx _]|[_ Hx]]; [by rewrite Hst in Hx|].
    split; [done|lia]. }
  assert (Hv : entry_value e = S (entry_value e1)).
  { unfold entry_value. cbn. rewrite Hst. change (WAITING_IMPLICIT_ACK =? WAITING_FORWARDING) with false.
    cbv iota. lia. }
  destruct (pe_tries e1 >? 0) eqn:Ht.
  - injection Hs2 as <-. rewrite arm_eq. split; [|split; [done|split; [|split; [done|]]]].
    + eapply fwd_ok_arm; try done. zbool. cbn in *. split; [done|]. lia.
    + unfold vcap. cbn [with_pft with_timers vf_pft vf_timers].
      rewrite cap_arm, decide_True, Hv by done. lia.
    + intros l'. unfold vcap. cbn [with_pft with_timers vf_pft vf_timers].
      rewrite cap_arm, sent_one by done. case_decide; [rewrite Hv|]; lia.
  - set (s3 := update_entry l e1 s) in Hs2.
    assert (H3 : fwd_inv s3) by by eapply fwd_ok_assign.
    assert (Hlk : pft_store (vf_pft s3) !! l = Some e1) by (cbn; by rewrite lookup_insert, decide_True).
    destruct (removePft_progress s3 l e1 (pe_valPkt e)) as (s4 & Hs4 & Hp4 & _); try done.
    { by eapply pi_pending; [apply H|]. }
    rewrite Hs4 in Hs2. injection Hs2 as <-. destruct Hp4 as (H4 & _ & Hc4).
    assert (Hc : forall l', (vcap s4 l' <= vcap s l')%nat).
    { intros l'. specialize (Hc4 l'). unfold vcap in Hc4 at 2. cbn in Hc4.
      by rewrite (cap_assign _ _ _ e) in Hc4 by done. }
    pose proof (vcap_no_timer s l e H Hn He) as Hz. pose proof (Hc l).
    rewrite removePft_eq in Hs4; [|apply H3|by eapply pi_pending; [apply H|]].
    injection Hs4 as Hs4. split; [done|]. split; [by rewrite <- Hs4|]. split; [lia|].
    split; [by rewrite <- Hs4|]. intros l'. specialize (Hc l'). rewrite sent_one.
    case_decide as Hd; [subst l'|]; lia.
Qed.

Lemma vcap_timed s l e ev :
  fwd_inv s -> ev ∈ m_queue (vf_timers s) -> timer_entry (ev_callback ev) = l ->
  pft_store (vf_pft s) !! l = Some e -> vcap s l = entry_value e.
Proof.
  intros H Hev Hl He. unfold vcap, cap, budget.
  rewrite decide_True, He by (eapply pi_next; [apply H|by eexists]).
  by rewrite (proj2 (has_timer_true _ _) (ex_intro _ ev (conj Hev Hl))).
Qed.

Lemma fireTimer_progress now s o s' :
  fwd_inv s -> fireTimer now s = Ok (o, s') -> progress s o s'.
Proof.
  intros H Hf. unfold fireTimer in Hf.
  destruct (pop_due now (vf_timers s)) as [[ev q]|] eqn:Hp;
    [|injection Hf as <- <-; by apply progress_frame].
  destruct (fwd_ok_pop _ _ _ _ _ H Hp) as [H1 Hn].
  assert (Hev : ev ∈ m_queue (vf_timers s)) by (apply (elem_of_pop _ _ _ _ _ Hp); by left).
  destruct (fo_timer _ _ H ev Hev) as (Hl & e & He & _ & Hfit).
  assert (Hs : timer_step (with_timers q s) (timer_entry (ev_callback ev)) e o s').
  { destruct (ev_callback ev) as [l f|l f]; cbn [runTimer timer_entry] in *.
    - by eapply forwardingTimer_step.
    - by eapply impAckTimer_step. }
  destruct Hs as (H2 & Hnx & _ & _ & Hc). split; [done|]. split; [cbn in Hnx; lia|]. intros l.
  specialize (Hc l). case_decide as Hd.
  - subst l. by rewrite (vcap_timed s _ e ev).
  - pose proof (cap_pop (vf_pft s) _ _ _ _ l Hp) as Hcp. unfold vcap in *. cbn in Hc. lia.
Qed.

(** *** Packets from the network *)

Lemma cancelTimer_progress e s : fwd_inv s -> progress s [] (cancelTimer e s).
Proof.
  intros H. split; [by apply fwd_ok_cancel|]. split; [done|]. intros l. cbn. apply cap_cancel.
Qed.

Lemma update_entry_progress s l e e' :
  fwd_inv s -> pft_store (vf_pft s) !! l = Some e -> no_timer l (vf_timers s) ->
  pe_valPkt e' = pe_valPkt e -> entry_ok e' -> progress s [] (update_entry l e' s).
Proof.
  intros H He Hn Hp Hok. split; [by eapply fwd_ok_assign|]. split; [done|]. intros l'.
  unfold vcap. cbn. by rewrite (cap_assign _ _ _ e).
Qed.

Lemma preProcessing_progress p s :
  fwd_inv s -> wf_packet p ->
  exists b s', preProcessingValPacket p s = Ok (b, s') /\ progress s [] s' /\
    (b = true -> s' = s /\ pft_findMatch p (vf_pft s) = Ok None).
Proof.
  intros H Hp. unfold preProcessingValPacket.
  assert (Hf : exists r, pft_findMatch p (vf_pft s) = Ok r).
  { eexists. apply pft_findMatch_spec; [apply H|done]. }
  destruct Hf as [[l|] Hf]; rewrite Hf; cbn [mbind result_bind].
  2: { exists true, s. split; [done|]. split; [by apply progress_frame|done]. }
  destruct (pft_findMatch_Some _ _ _ (fo_pft _ _ H) Hp Hf) as (Hl & e & He & Hpe & Hk).
  unfold pft_deref. rewrite He. cbn [mbind result_bind].
  enough (Hs : forall m : result ValForwarder, (exists s', m = Ok s' /\ progress s [] s') ->
    exists b s', (let* s := m in Ok (false, s)) = Ok (b, s') /\ progress s [] s' /\
      (b = true -> s' = s /\ Ok (Some l) = Ok None)).
  2: { intros m (s' & -> & Hpr). exists false, s'. done. }
  apply Hs. clear Hs.
  pose proof (cancelTimer_progress e s H) as Hc.
  pose proof (no_timer_cancel _ _ _ _ H He) as Hn.
  assert (Hid : exists s', Ok s = Ok s' /\ progress s [] s').
  { exists s. split; [done|]. by apply progress_frame. }
  destruct (pe_state e =? WAITING_FORWARDING); [destruct (_ =? _); [|done]|].
  - set (e1 := (changeStateToWaintingImpAck e).2).
    assert (Hu : progress (cancelTimer e s) [] (update_entry l e1 (cancelTimer e s))).
    { eapply update_entry_progress; [apply Hc|done|done|apply changeState_valPkt|].
      apply entry_ok_changeState. by eapply fo_entry. }
    pose proof (progress_trans _ _ _ _ _ Hc Hu) as Hcu. destruct (isSet _ =? DATA_SET); [|by eexists].
    destruct (removePft_progress (update_entry l e1 (cancelTimer e s)) l e1 p) as (s' & -> & Hp' & _).
    + apply Hu.
    + done.
    + cbn. by rewrite lookup_insert, decide_True.
    + done.
    + done.
    + unfold e1. rewrite changeState_valPkt. done.
    + exists s'. split; [done|]. by apply (progress_trans _ _ _ _ _ Hcu Hp').
  - destruct (pe_state e =? WAITING_IMPLICIT_ACK); [|done]. destruct (_ || _); [|done].
    destruct (isSet _ =? DATA_SET); [|by eexists].
    destruct (removePft_progress (cancelTimer e s) l e p) as (s' & -> & Hp' & _); try done; [apply Hc|].
    exists s'. split; [done|]. by apply (progress_trans _ _ _ _ _ Hc Hp').
Qed.

Lemma geofaceOfArea_frame area s id s' :
  geofaceOfArea area s = Ok (id, s') ->
  vf_pft s' = vf_pft s /\ vf_timers s' = vf_timers s /\ m_ifnt s' = m_ifnt s /\ m_dfnt s' = m_dfnt s /\
  m_networkFaces s' = m_networkFaces s.
Proof.
  unfold geofaceOfArea. destruct (f2a_findByGeoArea _ _); [by intros [= _ <-]|].
  intros H. apply result_bind_Ok in H as ([sig ft] & _ & H). by injection H as _ <-.
Qed.

Lemma makeGeoFace_frame h s ids s' :
  makeGeoFaceFromValHeader h s = Ok (ids, s') ->
  vf_pft s' = vf_pft s /\ vf_timers s' = vf_timers s /\ m_ifnt s' = m_ifnt s /\ m_dfnt s' = m_dfnt s /\
  m_networkFaces s' = m_networkFaces s.
Proof.
  unfold makeGeoFaceFromValHeader. intros H.
  apply result_bind_Ok in H as ([a s1] & H1 & H). apply result_bind_Ok in H as ([b s2] & H2 & H).
  injection H as _ <-. apply geofaceOfArea_frame in H1 as (E1 & E2 & E3 & E4 & E5).
  apply geofaceOfArea_frame in H2 as (F1 & F2 & F3 & F4 & F5). repeat split; congruence.
Qed.

Lemma progress_frame_out s o s' :
  fwd_inv s -> vf_pft s' = vf_pft s -> vf_timers s' = vf_timers s ->
  (forall l, sent l o = 0%nat) -> progress s o s'.
Proof.
  intros H Hp Hq Ho. unfold progress, fwd_inv, vcap. rewrite Hp, Hq. split; [done|]. split; [lia|].
  intros l. rewrite Ho. lia.
Qed.

Lemma processInterest_frame f h i s o s' :
  processInterestFromNetwork f h i s = Ok (o, s') ->
  vf_pft s' = vf_pft s /\ vf_timers s' = vf_timers s /\ forall l, sent l o = 0%nat.
Proof.
  unfold processInterestFromNetwork. cbn [isEscapedPacket].
  destruct (ifnt_addEntry _ _) as [[] t]; [|by intros [= <- <-]].
  intros H. apply result_bind_Ok in H as ([[sa da] s1] & H1 & H).
  apply makeGeoFace_frame in H1 as (H1 & H2 & _).
  destruct (ft_get sa _) as [g|]; [destruct (isGeoFace g)|]; by injection H as <- <-.
Qed.

Lemma processData_frame f h d s o s' :
  processDataFromNetwork f h d s = Ok (o, s') ->
  vf_pft s' = vf_pft s /\ vf_timers s' = vf_timers s /\ forall l, sent l o = 0%nat.
Proof.
  unfold processDataFromNetwork. intros H. apply result_bind_Ok in H as ([[sa da] s1] & H1 & H).
  apply makeGeoFace_frame in H1 as (H1 & H2 & _).
  destruct (ft_get sa _) as [g|]; [destruct (isGeoFace g)|]; by injection H as <- <-.
Qed.

Lemma onReceived_progress f p s o s' :
  fwd_inv s -> wf_packet p -> onReceivedValPacket f p s = Ok (o, s') -> progress s o s'.
Proof.
  intros H Hp Hr. unfold onReceivedValPacket in Hr.
  destruct (preProcessing_progress p s H Hp) as (b & s1 & Hpre & Hprog & Hb).
  rewrite Hpre in Hr. cbn [mbind result_bind] in Hr. destruct b; cbn [negb] in Hr.
  2: { by injection Hr as <- <-. }
  destruct (Hb eq_refl) as [-> _].
  destruct (isSet p =? INTEREST_SET).
  - apply result_bind_Ok in Hr as (i & _ & Hr).
    apply processInterest_frame in Hr as (H1 & H2 & H3). by apply progress_frame_out.
  - destruct (isSet p =? DATA_SET).
    + apply result_bind_Ok in Hr as (d & _ & Hr).
      apply processData_frame in Hr as (H1 & H2 & H3). by apply progress_frame_out.
    + injection Hr as <- <-. by apply progress_frame.
Qed.

(** *** Packets from NFD *)

Section machine.
Context `{StrategyLaws}.

Lemma sendValPacket_progress now r s s' :
  fwd_inv s -> (forall x, r = Some x -> pending (sr_packet x)) ->
  sendValPacket now r s = Ok s' -> progress s [] s'.
Proof.
  intros Hi Hr Hs. destruct r as [x|]; cbn in Hs; [|injection Hs as <-; by apply progress_frame].
  destruct (registerOutgoing_progress now (sr_face x) (sr_packet x) (sr_duration x) s) as (s1 & H1 & Hp);
    [done|by apply Hr|]. rewrite H1 in Hs. by injection Hs as <-.
Qed.

Lemma pending_interest h i : pending (interest_packet h i).
Proof. split; [apply wf_interest_packet|done]. Qed.
Lemma pending_data h d : pending (data_packet h d).
Proof. split; [apply wf_data_packet|done]. Qed.

(** What registering a packet leaves alone. *)
Lemma sendValPacket_frame now r s s' :
  sendValPacket now r s = Ok s' ->
  m_ifnt s' = m_ifnt s /\ m_dfnt s' = m_dfnt s /\ m_f2a s' = m_f2a s /\ m_faceTable s' = m_faceTable s /\
  (forall l, l ∈ m_pft (vf_pft s') -> l ∈ m_pft (vf_pft s) \/ l = pft_next (vf_pft s)).
Proof.
  destruct r as [x|]; cbn [sendValPacket]; [|intros [= <-]; do 4 (split; [done|]); auto].
  unfold registerOutgoingValPacket, pft_addEntry. intros Hr.
  apply result_bind_Ok in Hr as ([[b l] t] & Hadd & Hr).
  apply result_bind_Ok in Hadd as (found & _ & Hadd).
  destruct found as [l'|]; injection Hadd as <- <- <-.
  - injection Hr as <-. do 4 (split; [done|]). auto.
  - rewrite arm_eq in Hr. injection Hr as <-. cbn. do 4 (split; [done|]).
    intros l [?| ->%list_elem_of_singleton]%elem_of_app; auto.
Qed.

Lemma reveiceInterest_progress e g i s s' :
  fwd_inv s -> reveiceInterest e g i s = Ok s' -> progress s [] s'.
Proof.
  intros Hi Hr. unfold reveiceInterest in Hr. destruct (ifnt_findMatchByNonce _ _) as [en|];
    apply result_bind_Ok in Hr as (r & Hst & Hr);
    (eapply sendValPacket_progress; [done| |exact Hr]; intros x ->).
  - destruct (law_ifntHit _ _ _ _ _ Hst) as (h & -> & _). apply pending_interest.
  - destruct (law_ifntMiss _ _ _ _ Hst) as (h & -> & _). apply pending_interest.
Qed.

Lemma cancelTimers_progress ls s :
  fwd_inv s -> (forall l, l ∈ ls -> is_Some (pft_store (vf_pft s) !! l)) ->
  exists s', cancelTimers ls s = Ok s' /\ progress s [] s' /\ vf_pft s' = vf_pft s /\
    m_ifnt s' = m_ifnt s /\ m_dfnt s' = m_dfnt s /\ m_f2a s' = m_f2a s /\
    m_networkFaces s' = m_networkFaces s /\
    (forall l, l ∈ ls -> no_timer l (vf_timers s')) /\
    (forall l, no_timer l (vf_timers s) -> no_timer l (vf_timers s')).
Proof.
  revert s. induction ls as [|l ls IH]; intros s Hi Hls.
  { exists s. split; [done|]. split; [by apply progress_frame|]. do 5 (split; [done|]).
    split; [|done]. by intros l ?%elem_of_nil. }
  destruct (Hls l) as [e He]; [left|]. cbn [cancelTimers]. unfold pft_deref. rewrite He.
  cbn [mbind result_bind]. pose proof (cancelTimer_progress e s Hi) as Hc.
  destruct (IH (cancelTimer e s)) as (s' & -> & Hp & H1 & H2 & H3 & H4 & H5 & Hn & Hk);
    [apply Hc|intros x Hx; apply Hls; by right|].
  exists s'. split; [done|]. split; [by apply (progress_trans _ _ _ _ _ Hc Hp)|].
  do 5 (split; [done|]). split.
  - intros x [->|Hx]%elem_of_cons; [|by apply Hn]. apply Hk. by apply (no_timer_cancel (vf_pft s)).
  - intros x Hx. apply Hk. by apply no_timer_cancel_other.
Qed.

(** Dropping the pending Interests that a Data answers. *)
Lemma dropPending_progress ns s :
  fwd_inv s ->
  exists ls s1 t', pft_findMatchByNonceList ns (vf_pft s) = Ok ls /\
    cancelTimers ls s = Ok s1 /\ pft_removeEntriesByMatchList ls (vf_pft s1) = Ok t' /\
    progress s [] (with_pft t' s1) /\
    m_ifnt s1 = m_ifnt s /\ m_dfnt s1 = m_dfnt s /\ m_f2a s1 = m_f2a s /\
    m_networkFaces s1 = m_networkFaces s /\
    (forall l, l ∈ m_pft t' -> l ∈ m_pft (vf_pft s) /\
       forall n, n ∈ ns -> key_at (vf_pft s) l <> KeyInterest n) /\
    pft_store t' = pft_store (vf_pft s) /\ pft_next t' = pft_next (vf_pft s) /\
    (forall l n, l ∈ m_pft (vf_pft s) -> n ∈ ns -> key_at (vf_pft s) l = KeyInterest n ->
       no_timer l (vf_timers s1)).
Proof.
  intros Hi.
  destruct (pft_findMatchByNonceList_spec ns (vf_pft s) (fo_pft _ _ Hi)) as (ls & Hls & Hel).
  assert (Hdom : forall l, l ∈ ls -> is_Some (pft_store (vf_pft s) !! l)).
  { intros l [Hl _]%Hel. by apply (pi_dom _ (fo_pft _ _ Hi)). }
  destruct (cancelTimers_progress ls s Hi Hdom) as (s1 & Hs1 & Hp1 & Hpft & H1 & H2 & H3 & H4 & Hn & _).
  destruct (pft_removeEntriesByMatchList_spec ls (vf_pft s1)) as (t' & Ht' & Hinv & Hst & Hnx & Hin);
    [apply Hp1|by rewrite Hpft|].
  exists ls, s1, t'. do 3 (split; [done|]).
  assert (Hsub : forall l, l ∈ m_pft t' -> l ∈ m_pft (vf_pft s) /\
       forall n, n ∈ ns -> key_at (vf_pft s) l <> KeyInterest n).
  { intros l [Hl Hk]%Hin. rewrite Hpft in *. split; [done|]. intros n Hn' Hkn.
    apply (Hk l); [|done]. apply Hel. split; [done|]. by exists n. }
  split.
  - destruct Hp1 as (Hf1 & _ & Hc1). split; [|split].
    + apply (fwd_ok_list (vf_pft s1)); [done|done|done|]. intros l Hl.
      destruct (decide (l ∈ m_pft t')) as [|Hnin]; [by left|right]. cbn.
      rewrite Hpft in *. apply Hn. apply Hel. split; [done|].
      destruct (key_at (vf_pft s) l) as [|n|sg] eqn:Ek.
      * exfalso. destruct (pft_inv_listed _ l (fo_pft _ _ Hi) Hl) as (e & He & _ & Hk).
        unfold key_at in Ek. by rewrite He in Ek.
      * exists n. split; [|done]. destruct (decide (n ∈ ns)) as [|Hnn]; [done|].
        exfalso. apply Hnin, Hin. split; [done|]. intros l' Hl' Hk'.
        apply Hel in Hl' as [_ (m & Hm & Hkm)]. rewrite Hkm, Ek in Hk'. by injection Hk' as ->.
      * exfalso. apply Hnin, Hin. split; [done|]. intros l' Hl' Hk'.
        apply Hel in Hl' as [_ (m & Hm & Hkm)]. by rewrite Hkm, Ek in Hk'.
    + cbn. rewrite Hnx, Hpft. done.
    + intros l. specialize (Hc1 l). unfold vcap in *. cbn in *.
      by rewrite (cap_list (vf_pft s1) t').
  - do 5 (split; [done|]). split; [by rewrite Hst, Hpft|]. split; [by rewrite Hnx, Hpft|].
    intros l n Hl Hn' Hk. apply Hn, Hel. split; [done|]. by exists n.
Qed.

Lemma reveiceData_progress e g d ns b s s' :
  fwd_inv s -> reveiceData e g d ns b s = Ok s' -> progress s [] s'.
Proof.
  intros Hi Hr. unfold reveiceData in Hr.
  destruct (getCongestionMark _ =? 501).
  { destruct (dfnt_findMatch _ _); injection Hr as <-; by apply progress_frame. }
  set (es := ifnt_findMatchByNonceList ns (m_ifnt s)) in Hr.
  set (s1 := with_ifnt _ s) in Hr.
  assert (Hp1 : progress s [] s1) by by apply progress_frame.
  assert (Hmiss : forall found,
    (let* r := afterDfntMiss (view e s1) g d es b in
     let* s := sendValPacket (e_now e) r s1 in
     match found with
     | Some entry => Ok (with_dfnt (dfnt_removeEntry entry (m_dfnt s)).2 s)
     | None => Ok s
     end) = Ok s' -> progress s [] s').
  { intros found Hm. apply result_bind_Ok in Hm as (r & Hst & Hm).
    apply result_bind_Ok in Hm as (s2 & Hs2 & Hm).
    assert (Hp2 : progress s1 [] s2).
    { eapply sendValPacket_progress; [apply Hp1| |exact Hs2]. intros x ->.
      destruct (law_dfntMiss _ _ _ _ _ _ Hst) as (h & ->). apply pending_data. }
    pose proof (progress_trans _ _ _ _ _ Hp1 Hp2) as Hp.
    destruct found; injection Hm as <-; [|done].
    apply (progress_trans _ _ _ _ _ Hp). apply progress_frame; done || apply Hp2. }
  destruct (dfnt_findMatch (getSignature d) (m_dfnt s1)) as [en|] eqn:Hfd; [|by eapply (Hmiss None)].
  destruct b; [by eapply (Hmiss (Some en))|].
  destruct (dropPending_progress ns s1) as (ls & s2 & t' & Hls & Hs2 & Ht' & Hp2 & _);
    [apply Hp1|].
  rewrite Hls in Hr. cbn [mbind result_bind] in Hr. rewrite Hs2 in Hr. cbn [mbind result_bind] in Hr.
  rewrite Ht' in Hr. cbn [mbind result_bind] in Hr.
  set (s3 := with_dfnt _ (with_pft t' s2)) in Hr.
  assert (Hp3 : progress s [] s3).
  { apply (progress_trans _ _ _ _ _ (progress_trans _ _ _ _ _ Hp1 Hp2)).
    apply progress_frame; done || apply Hp2. }
  destruct (negb _); [|by injection Hr as <-].
  apply result_bind_Ok in Hr as (r & Hst & Hr). apply (progress_trans _ _ _ _ _ Hp3).
  eapply sendValPacket_progress; [apply Hp3| |exact Hr]. intros x ->.
  destruct (law_dfntHit _ _ _ _ _ _ Hst) as (h & -> & _). apply pending_data.
Qed.
End machine.
