(* ===== verification/ValMachine.v ===== *)
(** * Life cycle of pending packets (model/val/fw/val-forwarder.cpp)

    The forwarder as a state machine: what holds in every state it can reach with any
    strategy that obeys its contract, how often a packet is transmitted, that the
    retransmissions end, and what a received copy of a pending packet does. *)

From stdpp Require Import base gmap list strings relations.
From Stdlib Require Import Strings.Byte ZArith Lia.
From S2P Require Import Prelude Tlv Encoder Block Codec ValHeader Ndn Signature Data Interest ValPacket ValTables.
From S2P Require Import Scheduler Pft FaceTable Double ValStrategy ValForwarder.

Local Open Scope Z_scope.

(** Received packets are built by the constructor and the setters of [ValPacket]. *)
Definition event_ok (ev : val_event) : Prop :=
  match ev with EvValPacket _ p => wf_packet p | _ => True end.

Lemma ValForwarder_new_fwd_inv ft s : ValForwarder_new ft = Ok s -> fwd_inv s.
Proof.
  unfold ValForwarder_new. intros H. apply result_bind_Ok in H as ([sig ft'] & _ & H).
  injection H as <-. apply fwd_ok_new.
Qed.

Section machine.
Context `{StrategyLaws}.

Lemma val_step_progress e ev s o s' :
  fwd_inv s -> event_ok ev -> val_step e ev s = Ok (o, s') -> progress s o s'.
Proof.
  intros Hi Hev Hs. destruct ev as [f p|g i|g d ns b| |face|id]; cbn [val_step event_ok] in *.
  - by eapply onReceived_progress.
  - apply result_bind_Ok in Hs as (s1 & H1 & Hs). injection Hs as <- <-.
    by eapply reveiceInterest_progress.
  - apply result_bind_Ok in Hs as (s1 & H1 & Hs). injection Hs as <- <-.
    by eapply reveiceData_progress.
  - by eapply fireTimer_progress.
  - apply result_bind_Ok in Hs as (s1 & H1 & Hs). injection Hs as <- <-. unfold addFace in H1.
    apply result_bind_Ok in H1 as ([sig ft] & _ & H1).
    destruct sig as [[]|]; injection H1 as <-; by apply progress_frame.
  - apply result_bind_Ok in Hs as (s1 & H1 & Hs). injection Hs as <- <-. unfold removeFace in H1.
    apply result_bind_Ok in H1 as ([sig ft] & _ & H1). injection H1 as <-.
    destruct sig; by apply progress_frame.
Qed.

Lemma val_run_progress evs s o s' :
  fwd_inv s -> Forall (fun x => event_ok x.2) evs -> val_run evs s = Ok (o, s') -> progress s o s'.
Proof.
  revert s o. induction evs as [|[e ev] evs IH]; intros s o Hi Hev Hr; cbn in Hr.
  { injection Hr as <- <-. by apply progress_frame. }
  inversion Hev as [|? ? Hev1 Hev2]; subst.
  apply result_bind_Ok in Hr as ([o1 s1] & H1 & Hr).
  apply result_bind_Ok in Hr as ([o2 s2] & H2 & Hr). injection Hr as <- <-.
  pose proof (val_step_progress e ev s o1 s1 Hi Hev1 H1) as Hp1.
  apply (progress_trans _ _ _ _ _ Hp1). apply IH; [apply Hp1|done|done].
Qed.

Lemma cap_max t q l : fwd_ok t q -> (cap t q l <= MAX_TRANSMISSIONS)%nat.
Proof.
  intros Hi. unfold cap, budget. case_decide; [|done]. destruct (pft_store t !! l) as [e|] eqn:E; [|lia].
  case_match; [|lia]. apply entry_value_max. by eapply fo_entry.
Qed.

(** C1: no packet is transmitted more than four times for one pending entry.  In
    whatever order packets are received from the network and from NFD, timers fire and
    faces come and go, an entry of the PFT is sent at most once for its forwarding timer
    and three times for the lack of an implicit acknowledgement. *)
Theorem bounded_transmissions (ft : FaceTable) (s0 : ValForwarder) (evs : list (env * val_event))
    (o : list output) (s : ValForwarder) (l : nat)
    (Hnew : ValForwarder_new ft = Ok s0) (Hev : Forall (fun x => event_ok x.2) evs)
    (Hrun : val_run evs s0 = Ok (o, s)) :
  (sent l o <= 4)%nat.
Proof.
  pose proof (ValForwarder_new_fwd_inv ft s0 Hnew) as Hi.
  destruct (val_run_progress evs s0 o s Hi Hev Hrun) as (_ & _ & Hc).
  specialize (Hc l). pose proof (cap_max (vf_pft s0) (vf_timers s0) l Hi) as Hm.
  unfold vcap, MAX_TRANSMISSIONS in *. lia.
Qed.

(** C2: in every reachable state each scheduled callback belongs to an entry that
    is in the PFT, that knows this timer (so it can be cancelled) and is in the state the
    callback tests for; no entry has two timers; and no two pending packets have the
    same nonce or signature.  So a packet whose timer was cancelled, or whose entry was
    removed, is never sent by a stale callback. *)
Theorem reachable_timers_consistent (ft : FaceTable) (s0 : ValForwarder)
    (evs : list (env * val_event)) (o : list output) (s : ValForwarder)
    (Hnew : ValForwarder_new ft = Ok s0) (Hev : Forall (fun x => event_ok x.2) evs)
    (Hrun : val_run evs s0 = Ok (o, s)) :
  (forall ev, ev ∈ m_queue (vf_timers s) ->
     timer_entry (ev_callback ev) ∈ m_pft (vf_pft s) /\
     exists e, pft_store (vf_pft s) !! timer_entry (ev_callback ev) = Some e /\
       pe_timerId e = Some (ev_id ev) /\ timer_fits (ev_callback ev) e /\ entry_ok e) /\
  NoDup ((fun ev => timer_entry (ev_callback ev)) <$> m_queue (vf_timers s)) /\
  NoDup (key_at (vf_pft s) <$> m_pft (vf_pft s)).
Proof.
  destruct (val_run_progress evs s0 o s (ValForwarder_new_fwd_inv ft s0 Hnew) Hev Hrun) as (Hi & _).
  split; [|split; [|apply Hi]].
  - intros ev Hin. destruct (fo_timer _ _ Hi ev Hin) as (Hl & e & He & Hid & Hfit).
    split; [done|]. exists e. repeat split; try done. by eapply fo_entry.
  - destruct (fo_queue _ _ Hi) as (_ & Hd & _).
    assert (Hf : forall x y, x ∈ m_queue (vf_timers s) -> y ∈ m_queue (vf_timers s) ->
      timer_entry (ev_callback x) = timer_entry (ev_callback y) -> ev_id x = ev_id y).
    { intros x y Hx Hy Hxy. destruct (fo_timer _ _ Hi x Hx) as (_ & e & He & Hid & _).
      destruct (fo_timer _ _ Hi y Hy) as (_ & e' & He' & Hid' & _).
      rewrite Hxy, He' in He. injection He as ->. congruence. }
    induction (m_queue (vf_timers s)) as [|x q IH]; [constructor|]. csimpl in *.
    inversion Hd as [|? ? Hx Hd']; subst. constructor.
    + rewrite list_elem_of_fmap. intros (y & Hxy & Hy). apply Hx.
      rewrite (Hf x y); [by apply list_elem_of_fmap_2|left|by right|done].
    + apply IH; [done|]. intros a b Ha Hb. apply Hf; by right.
Qed.
End machine.

(** ** A run for the witnesses

    A node on the line: a network face (257) is added, an Interest with three hops left
    arrives from 30 m away and is passed on by NFD, and the timers fire. *)
Definition sample_forwarder : ValForwarder :=
  match ValForwarder_new FaceTable_new with
  | Ok s => s
  | Err _ => mkValForwarder FaceTable_new Ifnt_new Dfnt_new PFT_new F2A_new [] false 0 EventQueue_new
  end.
Lemma sample_forwarder_new : ValForwarder_new FaceTable_new = Ok sample_forwarder.
Proof. vm_compute. reflexivity. Qed.

Definition sample_face : Face := setValNetFace (Face_new (str "netdev://") false LINK_TYPE_AD_HOC).
Definition sample_env (now : Z) : env :=
  mkEnv now (mkVector3D (of_int 90) (of_int 0) (of_int 0)) (of_int 20000).
Definition sample_arrival : list (env * val_event) :=
  [(sample_env 0, EvAddFace sample_face);
   (sample_env 0, EvValPacket 257 (interest_packet (line_header 30 3) (sample_interest 5)));
   (sample_env 0, EvInterest 259 (sample_interest 5))].
Definition sample_timers : list (env * val_event) :=
  (fun t => (sample_env (milliseconds t), EvTimer)) <$> [33; 150; 230; 310; 390].

Definition run_line (evs : list (env * val_event)) : result (list output * ValForwarder) :=
  @val_run (@ValDistancesStrategy line_geometry) evs sample_forwarder.

(** The bound is reached: the entry is transmitted four times. *)
Lemma bounded_transmissions_witness :
  exists o s, run_line (sample_arrival ++ sample_timers) = Ok (o, s) /\
    sent 0 o = 4%nat /\ (sent 0 o <= 4)%nat.
Proof.
  assert (Hs : match run_line (sample_arrival ++ sample_timers) with
               | Ok (o, _) => sent 0 o | Err _ => 0%nat end = 4%nat) by (vm_compute; reflexivity).
  destruct (run_line _) as [[o s]|] eqn:E; [|done]. exists o, s. split; [done|]. split; [done|].
  eapply (@bounded_transmissions (@ValDistancesStrategy line_geometry) _
            FaceTable_new sample_forwarder _ o s 0 sample_forwarder_new _ E).
  Unshelve. repeat constructor.
Defined.

Lemma reachable_timers_consistent_witness :
  exists o s, run_line sample_arrival = Ok (o, s) /\ length (m_queue (vf_timers s)) = 1%nat /\
    NoDup (key_at (vf_pft s) <$> m_pft (vf_pft s)).
Proof.
  assert (Hs : match run_line sample_arrival with
               | Ok (_, s) => length (m_queue (vf_timers s)) | Err _ => 0%nat end = 1%nat)
    by (vm_compute; reflexivity).
  destruct (run_line _) as [[o s]|] eqn:E; [|done]. exists o, s. split; [done|]. split; [done|].
  eapply (@reachable_timers_consistent (@ValDistancesStrategy line_geometry) _
            FaceTable_new sample_forwarder _ o s sample_forwarder_new _ E).
  Unshelve. repeat constructor.
Defined.

(** ** The retransmissions end *)

(** Entries of [t'] are entries of [t] with the same packet and face. *)
Definition same_entries (t t' : PFT) : Prop :=
  forall l e', pft_store t' !! l = Some e' ->
    exists e, pft_store t !! l = Some e /\ pe_faceId e' = pe_faceId e /\ pe_valPkt e' = pe_valPkt e.

Lemma same_entries_assign t l e e' :
  pft_store t !! l = Some e -> pe_faceId e' = pe_faceId e -> pe_valPkt e' = pe_valPkt e ->
  same_entries t (pft_assign l e' t).
Proof.
  intros He Hf Hp l' x. cbn. rewrite lookup_insert. case_decide as Hd.
  - subst l'. intros [= <-]. by exists e.
  - intros Hx. by exists x.
Qed.

Lemma pending_entry s l e : fwd_inv s -> pft_store (vf_pft s) !! l = Some e -> wf_packet (pe_valPkt e).
Proof. intros H He. by eapply pi_pending; [apply H|]. Qed.

Lemma forwardingTimer_total now l f s e :
  fwd_inv s -> no_timer l (vf_timers s) -> l ∈ m_pft (vf_pft s) ->
  pft_store (vf_pft s) !! l = Some e -> timer_fits (ForwardingTimer l f) e ->
  is_Some (ft_get f (m_faceTable s)) ->
  exists o s', forwardingTimerCallback now l f s = Ok (o, s') /\ same_entries (vf_pft s) (vf_pft s').
Proof.
  intros H Hn Hl He Hfit [g Hg]. pose proof Hfit as [Hst Hf].
  unfold forwardingTimerCallback, pft_deref, getOutFace. rewrite He, Hg. cbn [mbind result_bind].
  rewrite Hst, Z.eqb_refl.
  destruct (isValNetFace g); [|exists [], s; split; [done|]; intros l' x Hx; by exists x].
  set (e1 := (changeStateToWaintingImpAck e).2).
  assert (He1 : pe_faceId e1 = pe_faceId e /\ pe_valPkt e1 = pe_valPkt e /\
                pe_state e1 = WAITING_IMPLICIT_ACK /\ pe_tries e1 = 3).
  { unfold e1, changeStateToWaintingImpAck. by rewrite Hst. }
  destruct He1 as (Hf1 & Hp1 & Hs1 & Ht1).
  rewrite arm_eq. set (s1 := with_pft _ _).
  assert (H1 : fwd_inv s1).
  { eapply fwd_ok_arm; try done.
    - apply entry_ok_changeState. by eapply fo_entry.
    - cbn. rewrite Hs1, Ht1, Hf1. repeat split; done || lia. }
  assert (Hse : same_entries (vf_pft s) (vf_pft s1)) by by eapply same_entries_assign.
  destruct (_ && _); [|by eexists _, _].
  assert (Hlk : pft_store (vf_pft s1) !! l = Some (setTimer (Some (next_id (vf_timers s))) e1)).
  { cbn. by rewrite lookup_insert, decide_True. }
  rewrite Hlk. cbn [mbind result_bind].
  rewrite removePft_eq; [|apply H1|by eapply (pending_entry s)].
  eexists _, _. split; [done|]. exact Hse.
Qed.

Lemma impAckTimer_total now l f s e :
  fwd_inv s -> no_timer l (vf_timers s) -> l ∈ m_pft (vf_pft s) ->
  pft_store (vf_pft s) !! l = Some e -> timer_fits (ImpAckTimer l f) e ->
  is_Some (ft_get f (m_faceTable s)) ->
  exists o s', impAckTimerCallback now l f s = Ok (o, s') /\ same_entries (vf_pft s) (vf_pft s').
Proof.
  intros H Hn Hl He Hfit [g Hg]. pose proof Hfit as (Hst & Htr & Hf).
  unfold impAckTimerCallback, pft_deref, getOutFace. rewrite He, Hg. cbn [mbind result_bind].
  rewrite Hst, Z.eqb_refl.
  destruct (isValNetFace g); [|exists [], s; split; [done|]; intros l' x Hx; by exists x].
  set (e1 := (oneLessTry e).2).
  assert (He1 : pe_faceId e1 = pe_faceId e /\ pe_valPkt e1 = pe_valPkt e).
  { unfold e1, oneLessTry. by destruct (_ >? _). }
  destruct He1 as (Hf1 & Hp1).
  destruct (_ >? _).
  - eexists _, _. split; [done|]. by eapply same_entries_assign.
  - rewrite removePft_eq.
    + eexists _, _. split; [done|]. by eapply same_entries_assign.
    + eapply pft_inv_assign; [apply H|done|done].
    + by eapply (pending_entry s).
Qed.

(** The outgoing face of every pending packet exists. *)
Definition out_faces_exist (s : ValForwarder) : Prop :=
  forall l e, pft_store (vf_pft s) !! l = Some e -> is_Some (ft_get (pe_faceId e) (m_faceTable s)).

Definition total_budget (s : ValForwarder) : nat :=
  sum_list (vcap s <$> seq 0 (pft_next (vf_pft s))).

Lemma sum_list_lt (f g : nat -> nat) (ls : list nat) (l : nat) :
  l ∈ ls -> (forall x, (f x <= g x)%nat) -> (f l < g l)%nat ->
  (sum_list (f <$> ls) < sum_list (g <$> ls))%nat.
Proof.
  intros Hl Hle Hlt.
  assert (Hmono : forall ks, (sum_list (f <$> ks) <= sum_list (g <$> ks))%nat).
  { induction ks as [|k ks IH]; csimpl; [done|]. specialize (Hle k). lia. }
  induction ls as [|x ls IH]; [by apply elem_of_nil in Hl|]. csimpl.
  apply elem_of_cons in Hl as [->|Hl].
  - specialize (Hmono ls). lia.
  - specialize (IH Hl). specialize (Hle x). lia.
Qed.

(** The next timer expires and its callback runs. *)
Definition fireNext (s : ValForwarder) : result (list output * ValForwarder) :=
  match m_queue (vf_timers s) with
  | [] => Ok ([], s)
  | ev :: _ => fireTimer (ev_time ev) s
  end.

Lemma fireNext_decreases s :
  fwd_inv s -> out_faces_exist s -> m_queue (vf_timers s) <> [] ->
  exists o s', fireNext s = Ok (o, s') /\ fwd_inv s' /\ out_faces_exist s' /\
    (total_budget s' < total_budget s)%nat.
Proof.
  intros H Hof Hne. unfold fireNext. destruct (m_queue (vf_timers s)) as [|ev q0] eqn:Eq; [done|].
  unfold fireTimer. assert (Hp : exists q, pop_due (ev_time ev) (vf_timers s) = Some (ev, q)).
  { unfold pop_due. rewrite Eq, Z.ltb_irrefl. by eexists. }
  destruct Hp as [q Hp]. rewrite Hp. destruct (fwd_ok_pop _ _ _ _ _ H Hp) as [H1 Hn].
  assert (Hev : ev ∈ m_queue (vf_timers s)) by (rewrite Eq; left).
  destruct (fo_timer _ _ H ev Hev) as (Hl & e & He & _ & Hfit).
  set (l := timer_entry (ev_callback ev)) in *. set (s1 := with_timers q s).
  assert (Hcb : exists o s', runTimer (ev_time ev) (ev_callback ev) s1 = Ok (o, s') /\
            same_entries (vf_pft s) (vf_pft s') /\ timer_step s1 l e o s').
  { destruct (ev_callback ev) as [l0 f|l0 f]; cbn [runTimer timer_entry] in *; subst l.
    - destruct (forwardingTimer_total (ev_time ev) l0 f s1 e H1 Hn Hl He Hfit) as (o & s' & Hr & Hse).
      { destruct Hfit as [_ ->]. by apply (Hof l0). }
      exists o, s'. split; [done|]. split; [done|]. by eapply forwardingTimer_step.
    - destruct (impAckTimer_total (ev_time ev) l0 f s1 e H1 Hn Hl He Hfit) as (o & s' & Hr & Hse).
      { destruct Hfit as (_ & _ & ->). by apply (Hof l0). }
      exists o, s'. split; [done|]. split; [done|]. by eapply impAckTimer_step. }
  destruct Hcb as (o & s' & Hr & Hse & (H2 & Hnx & Hlt & Hft & Hc)).
  exists o, s'. split; [done|]. split; [done|]. split.
  - intros l' x Hx. destruct (Hse l' x Hx) as (y & Hy & -> & _). rewrite Hft. by apply (Hof l').
  - unfold total_budget. cbn in Hnx. rewrite Hnx. apply (sum_list_lt _ _ _ l).
    + apply elem_of_seq. split; [lia|]. cbn. eapply pi_next; [apply H|by eexists].
    + intros x. specialize (Hc x). case_decide as Hd.
      * subst x. rewrite (vcap_timed s l e ev) by done. lia.
      * pose proof (cap_pop (vf_pft s) _ _ _ _ x Hp) as Hcp. unfold vcap in *. cbn in Hc. lia.
    + by rewrite (vcap_timed s l e ev).
Qed.

Fixpoint fireMany (n : nat) (s : ValForwarder) : result (list output * ValForwarder) :=
  match n with
  | O => Ok ([], s)
  | S n' =>
    let* (o, s) := fireNext s in
    let* (o', s) := fireMany n' s in
    Ok (o ++ o', s)
  end.

Lemma fireMany_idle n s : m_queue (vf_timers s) = [] -> fireMany n s = Ok ([], s).
Proof.
  intros Hq. induction n as [|n IH]; [done|]. cbn. unfold fireNext. rewrite Hq. cbn. by rewrite IH.
Qed.

(** C3: retransmission ends by itself.  In a state with consistent timers whose
    outgoing faces exist, after at most as many timer expirations as the pending
    packets have transmissions left, no timer is scheduled any more; no callback fails
    on the way. *)
Theorem retransmissions_end (s : ValForwarder) (Hi : fwd_inv s) (Hof : out_faces_exist s) :
  exists o s', fireMany (total_budget s) s = Ok (o, s') /\ m_queue (vf_timers s') = [] /\ fwd_inv s'.
Proof.
  enough (Hn : forall n, (total_budget s <= n)%nat ->
    exists o s', fireMany n s = Ok (o, s') /\ m_queue (vf_timers s') = [] /\ fwd_inv s') by by apply Hn.
  intros n. revert s Hi Hof. induction n as [|n IH]; intros s Hi Hof Hn.
  - destruct (m_queue (vf_timers s)) as [|ev q] eqn:Eq; [by exists [], s|].
    destruct (fireNext_decreases s Hi Hof) as (o & s' & _ & _ & _ & Hlt); [by rewrite Eq|lia].
  - destruct (m_queue (vf_timers s)) as [|ev q] eqn:Eq.
    + exists [], s. by rewrite fireMany_idle.
    + destruct (fireNext_decreases s Hi Hof) as (o & s1 & Hf & H1 & Hof1 & Hlt); [by rewrite Eq|].
      destruct (IH s1 H1 Hof1) as (o' & s' & Hm & Hq & H'); [lia|].
      exists (o ++ o'), s'. cbn. rewrite Hf. cbn. by rewrite Hm.
Qed.

Lemma retransmissions_end_witness :
  exists s o s', match run_line sample_arrival with Ok (_, s1) => s1 = s | Err _ => False end /\
    fireMany 4 s = Ok (o, s') /\ m_queue (vf_timers s') = [].
Proof.
  assert (Hs : match run_line sample_arrival with
    | Ok (_, s) => bool_decide (map_Forall (fun _ e => is_Some (ft_get (pe_faceId e) (m_faceTable s)))
                                           (pft_store (vf_pft s))) &&
                   (total_budget s =? 4)%nat
    | Err _ => false end = true) by (vm_compute; reflexivity).
  destruct (run_line sample_arrival) as [[o s]|] eqn:E; [|done].
  apply andb_true_iff in Hs as [Hof%bool_decide_eq_true Hb%Nat.eqb_eq].
  destruct (@val_run_progress (@ValDistancesStrategy line_geometry) _ sample_arrival
              sample_forwarder o s) as (Hi & _);
    [by eapply ValForwarder_new_fwd_inv, sample_forwarder_new|repeat constructor|done|].
  destruct (retransmissions_end s Hi Hof) as (o' & s' & Hf & Hq & _). rewrite Hb in Hf.
  exists s, o', s'. split; [reflexivity|]. split; [exact Hf|exact Hq].
Defined.

(** ** Copies of pending packets *)

Section copies.
Context `{StrategyLaws}.

(** A packet without transmissions left is never sent again. *)
Lemma no_budget_no_send s l evs o s' :
  fwd_inv s -> vcap s l = 0%nat -> Forall (fun x => event_ok x.2) evs ->
  val_run evs s = Ok (o, s') -> sent l o = 0%nat.
Proof.
  intros Hi Hz Hev Hr. destruct (val_run_progress evs s o s' Hi Hev Hr) as (_ & _ & Hc).
  specialize (Hc l). lia.
Qed.

(** The received packet [p] takes over from the pending entry [e]: it was broadcast by a
    node in a better position before our timer fired, or acknowledges our
    transmission. *)
Definition takes_over (p : ValPacket) (e : pft_Entry) : bool :=
  let hopC := getHopC (getValHeader (pe_valPkt e)) in
  let rcvd := getHopC (getValHeader p) in
  ((pe_state e =? WAITING_FORWARDING) && (hopC =? rcvd)) ||
  ((pe_state e =? WAITING_IMPLICIT_ACK) &&
   ((hopC - 1 =? rcvd) || ((isSet (pe_valPkt e) =? DATA_SET) && (hopC =? rcvd)))).

(** The state [preProcessingValPacket] leaves when the packet takes over. *)
Definition taken_over (p : ValPacket) (l : nat) (e : pft_Entry) (s : ValForwarder) : ValForwarder :=
  let s := cancelTimer e s in
  let s := if pe_state e =? WAITING_FORWARDING
           then update_entry l (changeStateToWaintingImpAck e).2 s else s in
  if isSet (pe_valPkt e) =? DATA_SET then with_pft (pft_erase (key_of p) (vf_pft s)) s else s.

Lemma preProcessing_match p s l e :
  fwd_inv s -> wf_packet p -> pft_findMatch p (vf_pft s) = Ok (Some l) ->
  pft_store (vf_pft s) !! l = Some e ->
  preProcessingValPacket p s = Ok (false, if takes_over p e then taken_over p l e s else s).
Proof.
  intros Hi Hp Hf He. unfold preProcessingValPacket, pft_deref. rewrite Hf. cbn [mbind result_bind].
  rewrite He. cbn [mbind result_bind]. unfold takes_over, taken_over.
  pose proof (pft_inv_assign l e (changeStateToWaintingImpAck e).2 (vf_pft s) (fo_pft _ _ Hi) He
                (changeState_valPkt e)) as Ha.
  destruct (fo_entry _ _ Hi l e He) as [[Hst _]|[Hst _]]; rewrite Hst.
  - rewrite Z.eqb_refl. cbn [andb orb].
    change (WAITING_FORWARDING =? WAITING_IMPLICIT_ACK) with false. cbn [andb]. rewrite orb_false_r.
    destruct (_ =? getHopC _); [|done]. destruct (isSet _ =? DATA_SET); [|done].
    by rewrite removePft_eq.
  - change (WAITING_IMPLICIT_ACK =? WAITING_FORWARDING) with false. rewrite Z.eqb_refl.
    cbn [andb orb]. destruct (_ || _); [|done]. destruct (isSet _ =? DATA_SET); [|done].
    rewrite removePft_eq; [done|apply Hi|done].
Qed.

Lemma taken_over_spec p s l e :
  fwd_inv s -> wf_packet p -> pft_findMatch p (vf_pft s) = Ok (Some l) ->
  pft_store (vf_pft s) !! l = Some e ->
  let s' := taken_over p l e s in
  no_timer l (vf_timers s') /\
  (if isSet (pe_valPkt e) =? DATA_SET then l ∉ m_pft (vf_pft s') else l ∈ m_pft (vf_pft s')) /\
  exists e', pft_store (vf_pft s') !! l = Some e' /\ pe_state e' = WAITING_IMPLICIT_ACK /\
    pe_valPkt e' = pe_valPkt e.
Proof.
  intros Hi Hp Hf He. destruct (pft_findMatch_Some _ _ _ (fo_pft _ _ Hi) Hp Hf) as (Hl & e0 & He0 & Hpe & Hk).
  rewrite He in He0. injection He0 as <-. cbn zeta. unfold taken_over.
  pose proof (no_timer_cancel _ _ _ _ Hi He) as Hn.
  set (s1 := if pe_state e =? WAITING_FORWARDING then _ else _).
  assert (H1 : vf_timers s1 = vf_timers (cancelTimer e s) /\ m_pft (vf_pft s1) = m_pft (vf_pft s) /\
    exists e', pft_store (vf_pft s1) !! l = Some e' /\ pe_state e' = WAITING_IMPLICIT_ACK /\
      pe_valPkt e' = pe_valPkt e).
  { subst s1. destruct (fo_entry _ _ Hi l e He) as [[Hst _]|[Hst _]]; rewrite Hst.
    - rewrite Z.eqb_refl. split; [done|]. split; [done|]. exists (changeStateToWaintingImpAck e).2.
      cbn. rewrite lookup_insert, decide_True by done. split; [done|]. split; [|apply changeState_valPkt].
      unfold changeStateToWaintingImpAck. by rewrite Hst.
    - change (WAITING_IMPLICIT_ACK =? WAITING_FORWARDING) with false. cbv iota.
      split; [done|]. split; [done|]. by exists e. }
  destruct H1 as (Hq1 & Hm1 & e' & He' & Hs' & Hp').
  destruct (isSet _ =? DATA_SET).
  - split; [cbn; by rewrite Hq1|]. split; [|by exists e'].
    change (l ∉ m_pft (pft_erase (key_of p) (vf_pft s1))).
    rewrite elem_of_erase by (rewrite <- Hk; apply Hpe). intros [_ Hne]. apply Hne.
    unfold key_at. rewrite He', Hp'. done.
  - split; [by rewrite Hq1|]. split; [by rewrite Hm1|by exists e'].
Qed.

(** C4: a received copy of a pending packet is never processed again: it produces no
    output and leaves IFNT, DFNT, F2A and faces alone.  If it takes over from the entry,
    the entry's timer is cancelled, a Data entry is removed and an Interest entry stays,
    waiting for an acknowledgement without timer, and whatever happens afterwards the
    entry is not transmitted any more; otherwise the copy changes nothing at all. *)
Theorem copy_of_pending_packet (f : Z) (p : ValPacket) (s : ValForwarder) (l : nat) (e : pft_Entry)
    (Hi : fwd_inv s) (Hp : wf_packet p) (Hf : pft_findMatch p (vf_pft s) = Ok (Some l))
    (He : pft_store (vf_pft s) !! l = Some e) :
  exists s', onReceivedValPacket f p s = Ok ([], s') /\
    m_ifnt s' = m_ifnt s /\ m_dfnt s' = m_dfnt s /\ m_f2a s' = m_f2a s /\ m_faceTable s' = m_faceTable s /\
    if takes_over p e then
      no_timer l (vf_timers s') /\
      (if isSet (pe_valPkt e) =? DATA_SET then l ∉ m_pft (vf_pft s') else l ∈ m_pft (vf_pft s')) /\
      (exists e', pft_store (vf_pft s') !! l = Some e' /\ pe_state e' = WAITING_IMPLICIT_ACK) /\
      (forall evs o s'', Forall (fun x => event_ok x.2) evs -> val_run evs s' = Ok (o, s'') ->
         sent l o = 0%nat)
    else s' = s.
Proof.
  destruct (preProcessing_progress p s Hi Hp) as (b & s1 & Hpre & Hprog & _).
  pose proof (preProcessing_match p s l e Hi Hp Hf He) as Hm. rewrite Hm in Hpre.
  injection Hpre as <- Hs1. exists s1. split.
  { unfold onReceivedValPacket. rewrite Hm. cbn. by rewrite Hs1. }
  subst s1. destruct (takes_over p e); [|done].
  pose proof (taken_over_spec p s l e Hi Hp Hf He) as (Hn & Hl & e' & He' & Hs' & _).
  assert (Hfr : m_ifnt (taken_over p l e s) = m_ifnt s /\ m_dfnt (taken_over p l e s) = m_dfnt s /\
    m_f2a (taken_over p l e s) = m_f2a s /\ m_faceTable (taken_over p l e s) = m_faceTable s).
  { unfold taken_over. by destruct (_ =? _), (_ =? _). }
  destruct Hfr as (H1 & H2 & H3 & H4). do 4 (split; [done|]). split; [done|]. split; [done|].
  split; [by exists e'|]. intros evs o s'' Hev Hr.
  eapply no_budget_no_send; [apply Hprog| |done|done]. eapply vcap_no_timer; [apply Hprog|done|done].
Qed.
End copies.

Lemma copy_of_pending_packet_witness :
  exists s s', match run_line sample_arrival with Ok (_, s1) => s1 = s | Err _ => False end /\
    onReceivedValPacket 257 (interest_packet (line_header 100 2) (sample_interest 5)) s = Ok ([], s') /\
    no_timer 0 (vf_timers s').
Proof.
  set (p := interest_packet (line_header 100 2) (sample_interest 5)).
  assert (Hs : match run_line sample_arrival with
    | Ok (_, s) => bool_decide (pft_findMatch p (vf_pft s) = Ok (Some 0%nat)) &&
        match pft_store (vf_pft s) !! 0%nat with Some e => takes_over p e | None => false end
    | Err _ => false end = true) by (vm_compute; reflexivity).
  destruct (run_line sample_arrival) as [[o s]|] eqn:E; [|done].
  apply andb_true_iff in Hs as [Hf%bool_decide_eq_true Ht].
  destruct (pft_store (vf_pft s) !! 0%nat) as [e|] eqn:He; [|done].
  destruct (@val_run_progress (@ValDistancesStrategy line_geometry) _ sample_arrival
              sample_forwarder o s) as (Hi & _);
    [by eapply ValForwarder_new_fwd_inv, sample_forwarder_new|repeat constructor|done|].
  destruct (@copy_of_pending_packet (@ValDistancesStrategy line_geometry) _ 257 p s 0 e Hi
              (wf_interest_packet _ _) Hf He) as (s' & Hr & _ & _ & _ & _ & Hc).
  rewrite Ht in Hc. exists s, s'. split; [done|]. split; [done|]. apply Hc.
Defined.
