(* ===== verification/ValGeo.v ===== *)
(** * Geofaces and the packets that cross them (model/val/fw/val-forwarder.cpp)

    Every area a node has heard of has one geoface.  Packets from the network enter NFD
    through the geoface of their source area, with the geoface of their destination
    area as next hop; what NFD sends through a geoface comes back with the area as its
    destination. *)

From stdpp Require Import base gmap list strings.
From Stdlib Require Import Strings.Byte ZArith Lia.
From S2P Require Import Prelude Tlv Encoder Block Codec ValHeader Ndn Signature Data Interest ValPacket ValTables.
From S2P Require Import Scheduler Pft FaceTable Double ValStrategy ValForwarder ValMachine.

Local Open Scope Z_scope.

(** Every entry of the F2A table names a geoface of the face table, areas and faces
    correspond one to one, and the flood area has its face. *)
Record geo_inv (s : ValForwarder) : Prop := {
  gi_ft : ft_inv (m_faceTable s);
  gi_f2a : f2a_inv (m_f2a s);
  gi_face e : e ∈ f2a_table (m_f2a s) ->
    FACEID_RESERVED_MAX < fe_faceId e < 2 ^ 32 /\
    exists f, ft_get (fe_faceId e) (m_faceTable s) = Some f /\ isGeoFace f = true /\ isValNetFace f = false;
  gi_flood : is_Some (f2a_findByGeoArea (str "0") (m_f2a s));
}.

Lemma gi_ids s id : geo_inv s -> id ∈ (fe_faceId <$> f2a_table (m_f2a s)) -> id <= m_lastFaceId (m_faceTable s).
Proof.
  intros Hg (e & -> & He)%list_elem_of_fmap. destruct (gi_face s Hg e He) as (_ & f & Hf & _).
  apply (fi_last _ (gi_ft s Hg)). by eexists.
Qed.

(** Adding a geoface for an area that has none. *)
Lemma geo_inv_insert s area :
  geo_inv s -> f2a_findByGeoArea area (m_f2a s) = None -> m_lastFaceId (m_faceTable s) + 1 < 2 ^ 32 ->
  let id := m_lastFaceId (m_faceTable s) + 1 in
  let s' := with_f2a (f2a_addEntry (mkF2aEntry id area) (m_f2a s))
              (with_faceTable (ft_insert makeGeoface (m_faceTable s)) s) in
  geo_inv s' /\ f2a_table (m_f2a s') = f2a_table (m_f2a s) ++ [mkF2aEntry id area].
Proof.
  intros Hg Ha Hmax id s'.
  assert (Hid : id ∉ (fe_faceId <$> f2a_table (m_f2a s))).
  { intros Hin%gi_ids; [|done]. subst id. lia. }
  assert (Htab : f2a_table (m_f2a s') = f2a_table (m_f2a s) ++ [mkF2aEntry id area]).
  { subst s'. cbn [with_f2a m_f2a]. by rewrite f2a_addEntry_fresh. }
  split; [|done]. split.
  - apply ft_inv_insert, Hg.
  - apply f2a_inv_addEntry; [apply Hg|done|]. by apply f2a_findByGeoArea_None.
  - intros e. rewrite Htab. intros [He| ->%list_elem_of_singleton]%elem_of_app.
    + destruct (gi_face s Hg e He) as (Hr & f & Hf & Hgf). split; [done|]. exists f. split; [|done].
      unfold ft_get in *. cbn. rewrite lookup_insert_ne; [done|]. intros Heq.
      assert (Hx : m_faces (m_faceTable s) !! (m_lastFaceId (m_faceTable s) + 1) = None)
        by apply ft_fresh, Hg.
      by rewrite Heq, Hf in Hx.
    + cbn [fe_faceId]. pose proof (fi_reserved _ (gi_ft s Hg)). split; [subst id; lia|].
      exists (setId id makeGeoface). unfold ft_get. cbn. fold id.
      by rewrite lookup_insert, decide_True.
  - unfold f2a_findByGeoArea. rewrite Htab, find_first_app.
    destruct (gi_flood s Hg) as [e He]. unfold f2a_findByGeoArea in He. rewrite He. by eexists.
Qed.

(** What the geoface of an area is, after it was looked up or made. *)
Definition area_face (area : octets) (id : Z) (s : ValForwarder) : Prop :=
  f2a_findByGeoArea area (m_f2a s) = Some (mkF2aEntry id area) /\
  f2a_findByFaceId id (m_f2a s) = Some (mkF2aEntry id area) /\
  exists f, ft_get id (m_faceTable s) = Some f /\ isGeoFace f = true.

Lemma area_face_of s area e :
  geo_inv s -> f2a_findByGeoArea area (m_f2a s) = Some e -> area_face area (fe_faceId e) s /\ fe_geoArea e = area.
Proof.
  intros Hg He. pose proof He as He'. unfold f2a_findByGeoArea in He'.
  apply find_first_Some in He' as [Hin Ha%bool_decide_eq_true].
  destruct e as [id a]; cbn in *; subst a. split; [|done].
  destruct (gi_face s Hg _ Hin) as (_ & f & Hf & Hgf & _). split; [done|]. split; [|by exists f].
  by apply (f2a_find_inverse id area _ (gi_f2a s Hg)).
Qed.

Lemma geofaceOfArea_spec s area :
  geo_inv s -> m_lastFaceId (m_faceTable s) + 1 < 2 ^ 32 ->
  exists id s', geofaceOfArea area s = Ok (id, s') /\ geo_inv s' /\ area_face area id s' /\
    (forall a i, area_face a i s -> area_face a i s') /\
    m_lastFaceId (m_faceTable s) <= m_lastFaceId (m_faceTable s') <= m_lastFaceId (m_faceTable s) + 1 /\
    (is_Some (f2a_findByGeoArea area (m_f2a s)) -> s' = s).
Proof.
  intros Hg Hmax. unfold geofaceOfArea.
  destruct (f2a_findByGeoArea area (m_f2a s)) as [e|] eqn:Ef.
  - destruct (area_face_of s area e Hg Ef) as [Haf _].
    unfold f2a_findByGeoArea in Ef. apply find_first_Some in Ef as [Hin _].
    destruct (gi_face s Hg e Hin) as (Hr & _). unfold FACEID_RESERVED_MAX in Hr.
    rewrite u32_id by (unfold is_u32; lia). exists (fe_faceId e), s.
    do 4 (split; [done|]). split; [lia|done].
  - rewrite ft_add_new by (done || apply Hg || lia). cbn [mbind result_bind].
    pose proof (fi_reserved _ (gi_ft s Hg)) as Hres. unfold FACEID_RESERVED_MAX in Hres.
    assert (Hu : u32 (m_lastFaceId (ft_insert makeGeoface (m_faceTable s))) =
                 m_lastFaceId (m_faceTable s) + 1) by (cbn; apply u32_id; unfold is_u32; lia).
    rewrite Hu. destruct (geo_inv_insert s area Hg Ef Hmax) as [Hg' Htab]. cbn zeta in Hg', Htab.
    eexists _, _. split; [done|]. set (s' := with_f2a _ _) in *. split; [done|].
    assert (Hnew : f2a_findByGeoArea area (m_f2a s') =
                   Some (mkF2aEntry (m_lastFaceId (m_faceTable s) + 1) area)).
    { unfold f2a_findByGeoArea in Ef |- *. rewrite Htab, find_first_app, Ef. cbn.
      by rewrite bool_decide_true. }
    split; [by apply (area_face_of s' area _ Hg' Hnew)|]. split; [|split; [cbn; lia|by intros [? ?]]].
    intros a i (H1 & _). apply (area_face_of s' a (mkF2aEntry i a) Hg').
    unfold f2a_findByGeoArea in *. by rewrite Htab, find_first_app, H1.
Qed.

Lemma makeGeoFace_spec h s :
  geo_inv s -> m_lastFaceId (m_faceTable s) + 2 < 2 ^ 32 ->
  exists sa da s', makeGeoFaceFromValHeader h s = Ok ((sa, da), s') /\ geo_inv s' /\
    area_face (getSA h) sa s' /\ area_face (getDA h) da s' /\
    (forall a i, area_face a i s -> area_face a i s') /\
    m_lastFaceId (m_faceTable s) <= m_lastFaceId (m_faceTable s') <= m_lastFaceId (m_faceTable s) + 2.
Proof.
  intros Hg Hmax. unfold makeGeoFaceFromValHeader.
  destruct (geofaceOfArea_spec s (getSA h) Hg) as (sa & s1 & -> & Hg1 & Hsa & Hk1 & Hl1 & _); [lia|].
  cbn [mbind result_bind].
  destruct (geofaceOfArea_spec s1 (getDA h) Hg1) as (da & s2 & -> & Hg2 & Hda & Hk2 & Hl2 & _); [lia|].
  cbn [mbind result_bind]. exists sa, da, s2. split; [done|]. split; [done|]. split; [by apply Hk2|].
  split; [done|]. split; [auto|lia].
Qed.

(** An area that has its geoface keeps it. *)
Lemma geofaceOfArea_known s area id :
  geo_inv s -> area_face area id s -> geofaceOfArea area s = Ok (id, s).
Proof.
  intros Hg (Ha & _). unfold geofaceOfArea. rewrite Ha. cbn [fe_faceId].
  apply find_first_Some in Ha as [Hin _]. destruct (gi_face s Hg _ Hin) as (Hr & _).
  cbn in Hr. unfold FACEID_RESERVED_MAX in Hr. by rewrite u32_id by (unfold is_u32; lia).
Qed.

(** C7: geofaces are canonical.  For any header, [makeGeoFaceFromValHeader] returns the
    identifiers of two existing geofaces that the F2A table maps to the source and the
    destination area and back; equal areas share a face, different areas do not; areas
    known before keep their faces; and a second call with the same areas finds the same
    faces and changes nothing. *)
Theorem geofaces_canonical (s : ValForwarder) (h h' : ValHeader) (Hg : geo_inv s)
    (Hmax : m_lastFaceId (m_faceTable s) + 2 < 2 ^ 32)
    (Hsame : getSA h' = getSA h /\ getDA h' = getDA h) :
  exists sa da s', makeGeoFaceFromValHeader h s = Ok ((sa, da), s') /\ geo_inv s' /\
    area_face (getSA h) sa s' /\ area_face (getDA h) da s' /\
    (sa = da <-> getSA h = getDA h) /\
    (forall a i, area_face a i s -> area_face a i s') /\
    makeGeoFaceFromValHeader h' s' = Ok ((sa, da), s').
Proof.
  destruct (makeGeoFace_spec h s Hg Hmax) as (sa & da & s' & Hm & Hg' & Hsa & Hda & Hk & _).
  exists sa, da, s'. do 4 (split; [done|]). split; [|split; [done|]].
  - destruct Hsa as (H1 & H2 & _), Hda as (H3 & H4 & _). split; intros Heq; rewrite Heq in *; congruence.
  - destruct Hsame as [Hs Hd]. unfold makeGeoFaceFromValHeader. rewrite Hs, Hd.
    rewrite (geofaceOfArea_known s' _ sa) by done. cbn [mbind result_bind].
    by rewrite (geofaceOfArea_known s' _ da).
Qed.

Lemma ValForwarder_new_geo_inv ft s :
  ft_inv ft -> m_lastFaceId ft + 1 < 2 ^ 32 -> ValForwarder_new ft = Ok s -> geo_inv s.
Proof.
  intros Hft Hmax Hn. unfold ValForwarder_new in Hn. rewrite ft_add_new in Hn by (done || lia).
  cbn [mbind result_bind] in Hn. injection Hn as <-. pose proof (fi_reserved _ Hft) as Hr.
  split.
  - by apply ft_inv_insert.
  - apply f2a_inv_addEntry; [apply f2a_inv_new|by apply not_elem_of_nil..].
  - intros e He. change (e ∈ [mkF2aEntry (m_lastFaceId ft + 1) (str "0")]) in He.
    apply list_elem_of_singleton in He as ->. cbn [fe_faceId]. split; [lia|].
    exists (setId (m_lastFaceId ft + 1) makeGeoface). unfold ft_get. cbn.
    by rewrite lookup_insert, decide_True.
  - by eexists.
Qed.

Lemma sample_geo_inv : geo_inv sample_forwarder.
Proof.
  apply (ValForwarder_new_geo_inv FaceTable_new); [apply ft_inv_new|by vm_compute|apply sample_forwarder_new].
Qed.

Lemma geofaces_canonical_witness :
  exists sa da s', makeGeoFaceFromValHeader (line_header 30 3) sample_forwarder = Ok ((sa, da), s') /\
    makeGeoFaceFromValHeader (line_header 90 2) s' = Ok ((sa, da), s').
Proof.
  destruct (geofaces_canonical sample_forwarder (line_header 30 3) (line_header 90 2))
    as (sa & da & s' & H1 & _ & _ & _ & _ & _ & H2).
  - apply sample_geo_inv.
  - by vm_compute.
  - done.
  - by exists sa, da, s'.
Defined.

(** ** Packets from the network *)

(** The Interest as NFD gets it: to an area, its geoface is the next hop. *)
Definition tagged_interest (h : ValHeader) (da : Z) (i : Interest) : Interest :=
  if bool_decide (getDA h = str "0") then i else interest_setTag (set_nextHopFaceId (Some da)) i.

Lemma onReceived_fresh f h i s :
  fwd_inv s -> pft_findMatch (interest_packet h i) (vf_pft s) = Ok None ->
  onReceivedValPacket f (interest_packet h i) s = processInterestFromNetwork f h i s.
Proof.
  intros Hi Hf. unfold onReceivedValPacket.
  destruct (preProcessing_progress (interest_packet h i) s Hi (wf_interest_packet h i))
    as (b & s1 & Hpre & _ & Hb).
  unfold preProcessingValPacket in Hpre |- *. rewrite Hf in *. done.
Qed.

(** C5: an Interest that is neither pending nor known from the same neighbour enters
    NFD exactly once: through the geoface of its source area, with the geoface of its
    destination area as next hop unless it is flooded, otherwise unchanged; the IFNT
    remembers it with one hop less, so that NFD's answer is recognised as relayed; and
    the same packet again produces nothing. *)
Theorem interest_enters_nfd_once (f : Z) (h : ValHeader) (i : Interest) (s : ValForwarder)
    (Hi : fwd_inv s) (Hg : geo_inv s) (Hmax : m_lastFaceId (m_faceTable s) + 2 < 2 ^ 32)
    (Hfresh : pft_findMatch (interest_packet h i) (vf_pft s) = Ok None)
    (Hnew : ifnt_findMatch (ifnt_Entry_new h i f) (m_ifnt s) = None) :
  exists sa da s', onReceivedValPacket f (interest_packet h i) s = Ok ([InterestToNfd sa (tagged_interest h da i)], s') /\
    area_face (getSA h) sa s' /\ area_face (getDA h) da s' /\ geo_inv s' /\
    getNonce (tagged_interest h da i) = getNonce i /\
    ifnt_table (m_ifnt s') = ifnt_table (m_ifnt s) ++ [ifnt_Entry_new h i f] /\
    is_Some (ifnt_findMatchByNonce (getNonce i) (m_ifnt s')) /\
    onReceivedValPacket f (interest_packet h i) s' = Ok ([], s').
Proof.
  rewrite onReceived_fresh by done. unfold processInterestFromNetwork. cbn [isEscapedPacket].
  unfold ifnt_addEntry. rewrite Hnew. set (e := ifnt_Entry_new h i f).
  set (s0 := with_ifnt _ s).
  assert (Hg0 : geo_inv s0) by (destruct Hg; by split).
  destruct (makeGeoFace_spec h s0 Hg0 Hmax) as (sa & da & s' & Hm & Hg' & Hsa & Hda & _).
  rewrite Hm. cbn [mbind result_bind].
  destruct (makeGeoFace_frame _ _ _ _ Hm) as (H1 & H2 & H3 & H4 & H5).
  pose proof Hsa as (_ & _ & g & Hgf & Hgeo). rewrite Hgf, Hgeo.
  assert (Htag : (if negb (bool_decide (getDA h = str "0"))
     then interest_setTag (set_nextHopFaceId (Some da)) i else i) = tagged_interest h da i).
  { unfold tagged_interest. by case_bool_decide. }
  rewrite Htag. exists sa, da, s'. split; [done|]. do 3 (split; [done|]).
  split; [unfold tagged_interest; by case_bool_decide|].
  assert (Htab : ifnt_table (m_ifnt s') = ifnt_table (m_ifnt s) ++ [e]) by by rewrite H3.
  split; [done|]. split.
  - apply nonce_count_find. unfold nonce_count. rewrite Htab, filter_app, length_app.
    rewrite (filter_cons _ e []), decide_True by done. cbn. lia.
  - rewrite onReceived_fresh.
    + unfold processInterestFromNetwork. cbn [isEscapedPacket]. fold e. unfold ifnt_addEntry.
      rewrite ifnt_findMatch_spec, bool_decide_true; [by destruct s'|].
      rewrite Htab. apply elem_of_app. right. by apply list_elem_of_singleton.
    + unfold fwd_inv. by rewrite H1, H2.
    + by rewrite H1.
Qed.

Lemma interest_enters_nfd_once_witness :
  exists sa da s', onReceivedValPacket 257 (interest_packet (line_header 30 3) (sample_interest 5)) sample_forwarder
    = Ok ([InterestToNfd sa (tagged_interest (line_header 30 3) da (sample_interest 5))], s') /\
    area_face (str "A1") sa s'.
Proof.
  destruct (interest_enters_nfd_once 257 (line_header 30 3) (sample_interest 5) sample_forwarder)
    as (sa & da & s' & H1 & H2 & _).
  - by eapply ValForwarder_new_fwd_inv, sample_forwarder_new.
  - apply sample_geo_inv.
  - by vm_compute.
  - by vm_compute.
  - by vm_compute.
  - by exists sa, da, s'.
Defined.

(** ** Data answers pending Interests *)

Section answers.
Context `{StrategyLaws}.

(** C6: when NFD passes on Data that came from the network and answers the Interests
    with the given nonces, VAL forgets them all: no pending Interest with such a nonce is
    left in the PFT nor ever transmitted again, each nonce loses one IFNT entry, and the
    DFNT entry of the Data is removed. *)
Theorem data_answers_interests (e : env) (g : Z) (d : Data) (ns : list Z) (s s' : ValForwarder)
    (en : dfnt_Entry) (Hi : fwd_inv s) (Hm : getCongestionMark (d_tags d) <> 501)
    (Hd : dfnt_findMatch (getSignature d) (m_dfnt s) = Some en)
    (Hr : reveiceData e g d ns false s = Ok s') :
  (forall l n, l ∈ m_pft (vf_pft s) -> n ∈ ns -> key_at (vf_pft s) l = KeyInterest n ->
     (l ∉ m_pft (vf_pft s')) /\
     (forall evs o s'', Forall (fun x => event_ok x.2) evs -> val_run evs s' = Ok (o, s'') ->
       sent l o = 0%nat)) /\
  (forall n, nonce_count n (ifnt_table (m_ifnt s')) =
     (nonce_count n (ifnt_table (m_ifnt s)) - length (filter (eq n) ns))%nat) /\
  m_dfnt s' = (dfnt_removeEntryBySignature (getSignature d) (m_dfnt s)).2.
Proof.
  pose proof (reveiceData_progress e g d ns false s s' Hi Hr) as Hprog.
  unfold reveiceData in Hr. rewrite (proj2 (Z.eqb_neq _ _) Hm) in Hr.
  set (s1 := with_ifnt _ s) in Hr. change (m_dfnt s1) with (m_dfnt s) in Hr. rewrite Hd in Hr.
  assert (Hi1 : fwd_inv s1) by done.
  destruct (dropPending_progress ns s1 Hi1)
    as (ls & s2 & t' & Hls & Hs2 & Ht' & Hp2 & Hif & Hdf & _ & _ & Hsub & Hst & Hnx & Hnt).
  rewrite Hls in Hr. cbn [mbind result_bind] in Hr. rewrite Hs2 in Hr. cbn [mbind result_bind] in Hr.
  rewrite Ht' in Hr. cbn [mbind result_bind] in Hr.
  set (s3 := with_dfnt _ (with_pft t' s2)) in Hr.
  assert (Hi3 : fwd_inv s3) by apply Hp2.
  assert (Hfin : exists r, sendValPacket (e_now e) r s3 = Ok s' /\ progress s3 [] s').
  { destruct (negb _).
    - apply result_bind_Ok in Hr as (r & Hst' & Hr). exists r. split; [done|].
      eapply sendValPacket_progress; [done| |exact Hr]. intros x ->.
      destruct (law_dfntHit _ _ _ _ _ _ Hst') as (h & -> & _). apply pending_data.
    - exists None. injection Hr as <-. split; [done|]. by apply progress_frame. }
  destruct Hfin as (r & Hsend & (Hi' & _ & Hc)).
  destruct (sendValPacket_frame _ _ _ _ Hsend) as (F1 & F2 & _ & _ & F5).
  split; [|split].
  - intros l n Hl Hn Hk. split.
    + intros [Hin| ->]%F5; [by apply Hsub in Hin as [_ Hne]; apply (Hne n)|].
      cbn in Hl. rewrite Hnx in Hl. destruct (pi_dom _ (fo_pft _ _ Hi1) _ Hl) as [x Hx].
      by rewrite pft_store_fresh in Hx by apply Hi1.
    + intros evs o s'' Hev Hrun. eapply no_budget_no_send; [done| |done|done].
      destruct (pi_dom _ (fo_pft _ _ Hi1) _ Hl) as [x Hx].
      specialize (Hc l). rewrite (vcap_no_timer s3 l x) in Hc; [cbn in Hc; lia|done| |].
      * by apply (Hnt l n).
      * cbn. by rewrite Hst.
  - intros n. rewrite F1. cbn. rewrite Hif. cbn.
    by rewrite ifnt_removeEntriesByNonceList_table, nonce_count_removeList.
  - rewrite F2. cbn. rewrite Hdf. by rewrite (dfnt_remove_found (getSignature d)).
Qed.
End answers.

(** The Data arrives from 200 m away while the Interest is pending. *)
Definition sample_data_arrival : list (env * val_event) :=
  sample_arrival ++ [(sample_env 1000, EvValPacket 257 (data_packet (line_header 200 4) line_data))].

Lemma data_answers_interests_witness :
  exists s s', match run_line sample_data_arrival with Ok (_, s1) => s1 = s | Err _ => False end /\
    @reveiceData (@ValDistancesStrategy line_geometry) (sample_env 2000) 258 line_data [5] false s = Ok s' /\
    key_at (vf_pft s) 0 = KeyInterest 5 /\ (0%nat ∉ m_pft (vf_pft s')).
Proof.
  assert (Hs : match run_line sample_data_arrival with
    | Ok (_, s) =>
      is_ok (@reveiceData (@ValDistancesStrategy line_geometry) (sample_env 2000) 258 line_data [5] false s) &&
      bool_decide (is_Some (dfnt_findMatch (getSignature line_data) (m_dfnt s))) &&
      bool_decide (key_at (vf_pft s) 0 = KeyInterest 5) && bool_decide (0%nat ∈ m_pft (vf_pft s))
    | Err _ => false end = true) by (vm_compute; reflexivity).
  destruct (run_line sample_data_arrival) as [[o s]|] eqn:E; [|done].
  apply andb_true_iff in Hs as [Hs H4%bool_decide_eq_true].
  apply andb_true_iff in Hs as [Hs H3%bool_decide_eq_true].
  apply andb_true_iff in Hs as [H1 [en H2]%bool_decide_eq_true].
  destruct (reveiceData _ _ _ _ _ s) as [s'|] eqn:Er; [|done].
  exists s, s'. split; [reflexivity|]. split; [exact Er|]. split; [exact H3|].
  destruct (@val_run_progress (@ValDistancesStrategy line_geometry) _ sample_data_arrival
              sample_forwarder o s) as (Hi & _);
    [by eapply ValForwarder_new_fwd_inv, sample_forwarder_new|repeat constructor|exact E|].
  destruct (@data_answers_interests (@ValDistancesStrategy line_geometry) _ (sample_env 2000) 258
              line_data [5] s s' en Hi ltac:(by vm_compute) H2 Er) as [Ha _].
  apply (Ha 0%nat 5); [exact H4|left|exact H3].
Defined.

(** ** The hop limit *)

(** The hop limit can be undone.  A packet that arrives with no hop left is
    entered into the IFNT and the DFNT with 255 hops, because the decrement wraps around;
    the guard of the strategy, which drops entries without hops, then lets it pass, and
    the node forwards it with 255 hops. *)
Theorem hop_count_zero_wraps (h : ValHeader) (i : Interest) (d : Data) (f : Z)
    (Hh : getHopC h = 0) :
  ie_hopC (ifnt_Entry_new h i f) = 255 /\ de_hopC (dfnt_Entry_new h d f) = 255 /\
  forall `{Ns3Geometry} v g s,
    doAfterIfntHit v g (ifnt_Entry_new h i f) i = Ok (Some s) ->
    getHopC (getValHeader (sr_packet s)) = 255.
Proof.
  assert (He : ie_hopC (ifnt_Entry_new h i f) = 255) by (cbn; rewrite Hh; by vm_compute).
  split; [done|]. split; [cbn; rewrite Hh; by vm_compute|].
  intros G v g s (_ & p & da & _ & _ & -> & _)%doAfterIfntHit_inv. cbn -[u8 ie_hopC].
  by rewrite He.
Qed.

Lemma hop_count_zero_wraps_witness :
  exists s, @doAfterIfntHit line_geometry (line_view 90) 300
    (ifnt_Entry_new (line_header 30 0) (sample_interest 5) 257) (sample_interest 5) = Ok (Some s) /\
    getHopC (getValHeader (sr_packet s)) = 255.
Proof.
  eexists. split; [vm_compute; reflexivity|].
  destruct (hop_count_zero_wraps (line_header 30 0) (sample_interest 5) line_data 257 eq_refl)
    as (_ & _ & Hw).
  eapply (Hw line_geometry (line_view 90) 300). vm_compute. reflexivity.
Defined.
