(* ===== verification/Hashtable.v ===== *)
(** * The hash table of NFD's name tree (NFD/daemon/table/name-tree-hashtable)

    Nodes are objects linked by [prev] and [next] pointers, one doubly linked list per
    bucket, and owned by the table; they live in a heap of locations.  A node contains the
    name tree entry, whose name, parent and children are fields of the node here; what the
    tables attach to the entry is a type parameter with the interface [TableEntries].
    Names are hashed component by component; the theorems hold for any hash function, of
    which CityHash is one.  Load factors are [float] (binary32).

    The properties: under every operation the pointers form disjoint lists, no assertion
    is violated and no dangling pointer followed; the table is a finite map from names to
    nodes whatever the hash function; and its load stays under the configured factor. *)

From stdpp Require Import base gmap list sets strings.
From Stdlib Require Import ZArith Lia Floats.SpecFloat Strings.Byte.
From S2P Require Import Prelude Tlv Encoder Block Codec Ndn NameTlv Double.

Local Open Scope Z_scope.

(** ** Single precision *)

Definition f_prec : Z := 24.
Definition f_emax : Z := 128.
(** [static_cast<size_t>(factor * n)]: [n] is converted to [float] before the product. *)
Definition scale (factor : spec_float) (n : Z) : result Z :=
  to_int 0 (2 ^ 64 - 1)
    (SFmul f_prec f_emax factor (binary_normalize f_prec f_emax n 0 false)).

(** ** Hash values of names *)

(** The hash of a buffer, [CityHash64]. *)
Class HashFunction := HashFunc_compute : octets -> Z.

Section computeHash.
Context `{HashFunction}.

(** [static_cast<HashValue>(CityHash64(...))] of a component's wire encoding. *)
Definition component_hash (comp : Component) : Z := u64 (HashFunc_compute (Component_wireEncode comp)).

Definition computeHash (name : Name) (prefixLen : nat) : Z :=
  foldl (fun h comp => Z.lxor h (component_hash comp)) 0 (take (prefixLen `min` length name) name).

Fixpoint hashes_from (h : Z) (comps : list Component) : list Z :=
  h :: match comps with
       | [] => []
       | comp :: comps' => hashes_from (Z.lxor h (component_hash comp)) comps'
       end.
Definition computeHashes (name : Name) (prefixLen : nat) : list Z :=
  hashes_from 0 (take (prefixLen `min` length name) name).

(** [Name::compare(pos1, count1, other, pos2, count2)] *)
Definition name_compare_range (n : Name) (pos1 count1 : nat) (other : Name) (pos2 count2 : nat) : Z :=
  name_compare (take count1 (drop pos1 n)) (take count2 (drop pos2 other)).

End computeHash.

(** ** Names as keys *)
#[export] Instance byte_countable : Countable byte := inj_countable Byte.to_N Byte.of_N Byte.of_to_N.
#[export] Instance Component_countable : Countable Component.
Proof.
  refine (inj_countable' (fun c => (nc_type c, nc_value c)) (fun p => mkComponent p.1 p.2) _).
  by intros [].
Defined.

(** ** Nodes *)

(** What the name tree asks of the table entries attached to one of its entries. *)
Class TableEntries (T : Type) := {
  no_tables : T;
  hasTableEntries : T -> bool;
}.

(** An entry without table entries holds nothing. *)
Class TableEntriesLaws (T : Type) `{TableEntries T} := {
  no_tables_empty : hasTableEntries no_tables = false;
  empty_no_tables t : hasTableEntries t = false -> t = no_tables;
}.

Record Node {T : Type} := mkNode {
  nd_hash : Z;
  nd_prev : option nat;
  nd_next : option nat;
  nd_name : Name;            (* entry.m_name *)
  nd_parent : option nat;    (* entry.m_parent *)
  nd_children : list nat;    (* entry.m_children *)
  nd_tables : T;             (* the attached table entries *)
}.
Arguments Node : clear implicits.
Arguments mkNode {T} _ _ _ _ _ _ _.

(** ** The table *)

Record HashtableOptions := mkHashtableOptions {
  initialSize : Z;
  minSize : Z;
  expandLoadFactor : spec_float;
  expandFactor : spec_float;
  shrinkLoadFactor : spec_float;
  shrinkFactor : spec_float;
}.
(** 0.5, 2.0, 0.1 and 0.5, rounded to [float]. *)
Definition HashtableOptions_new (size : Z) : HashtableOptions :=
  mkHashtableOptions size size (S754_finite false 8388608 (-24)) (S754_finite false 8388608 (-22))
    (S754_finite false 13421773 (-27)) (S754_finite false 8388608 (-24)).

Record Hashtable {T : Type} := mkHashtable {
  ht_nodes : gmap nat (Node T);      (* the nodes that were allocated and not deleted *)
  ht_fresh : nat;                    (* the next location [new] returns *)
  m_buckets : list (option nat);
  m_htOptions : HashtableOptions;
  m_htSize : Z;
  m_expandThreshold : Z;
  m_shrinkThreshold : Z;
}.
Arguments Hashtable : clear implicits.
Arguments mkHashtable {T} _ _ _ _ _ _ _.

Section Hashtable_ops.
Context `{HashFunction} `{TableEntries T}.
Implicit Types (h : Hashtable T) (x : nat).

Definition set_links (prev next : option nat) (n : Node T) : Node T :=
  mkNode (nd_hash n) prev next (nd_name n) (nd_parent n) (nd_children n) (nd_tables n).

Definition with_nodes (nodes : gmap nat (Node T)) h : Hashtable T :=
  mkHashtable nodes (ht_fresh h) (m_buckets h) (m_htOptions h) (m_htSize h)
    (m_expandThreshold h) (m_shrinkThreshold h).
Definition with_buckets (buckets : list (option nat)) h : Hashtable T :=
  mkHashtable (ht_nodes h) (ht_fresh h) buckets (m_htOptions h) (m_htSize h)
    (m_expandThreshold h) (m_shrinkThreshold h).
Definition with_size (n : Z) h : Hashtable T :=
  mkHashtable (ht_nodes h) (ht_fresh h) (m_buckets h) (m_htOptions h) n
    (m_expandThreshold h) (m_shrinkThreshold h).
Definition store_node x (n : Node T) h : Hashtable T := with_nodes (<[x := n]> (ht_nodes h)) h.

(** Following a pointer. *)
Definition deref x h : result (Node T) :=
  match ht_nodes h !! x with
  | Some n => Ok n
  | None => Err (UndefinedBehaviour "dangling pointer to a node")
  end.

Definition getNBuckets h : Z := zlen (m_buckets h).
Definition computeBucketIndex (hash : Z) h : result nat :=
  if getNBuckets h =? 0 then Err (UndefinedBehaviour "division by zero")
  else Ok (Z.to_nat (hash mod getNBuckets h)).
Definition getBucket (bucket : nat) h : result (option nat) :=
  match m_buckets h !! bucket with
  | Some head => Ok head
  | None => Err (UndefinedBehaviour "bucket out of range")
  end.

Definition attach (bucket : nat) x h : result (Hashtable T) :=
  let* head := getBucket bucket h in
  let* node := deref x h in
  let h := store_node x (set_links None head node) h in
  let* h :=
    match head with
    | None => Ok h
    | Some y =>
      let* next := deref y h in
      assert! bool_decide (nd_prev next = None) orelse "node->next->prev == nullptr";
      Ok (store_node y (set_links (Some x) (nd_next next) next) h)
    end in
  Ok (with_buckets (<[bucket := Some x]> (m_buckets h)) h).

Definition detach (bucket : nat) x h : result (Hashtable T) :=
  let* node := deref x h in
  let* h :=
    match nd_prev node with
    | Some p =>
      let* prev := deref p h in
      assert! bool_decide (nd_next prev = Some x) orelse "node->prev->next == node";
      Ok (store_node p (set_links (nd_prev prev) (nd_next node) prev) h)
    | None =>
      let* head := getBucket bucket h in
      assert! bool_decide (head = Some x) orelse "m_buckets[bucket] == node";
      Ok (with_buckets (<[bucket := nd_next node]> (m_buckets h)) h)
    end in
  let* h :=
    match nd_next node with
    | Some y =>
      let* next := deref y h in
      assert! bool_decide (nd_prev next = Some x) orelse "node->next->prev == node";
      Ok (store_node y (set_links (nd_prev node) (nd_next next) next) h)
    | None => Ok h
    end in
  let* node := deref x h in
  Ok (store_node x (set_links None None node) h).

Definition computeThresholds h : result (Hashtable T) :=
  let* expand := scale (expandLoadFactor (m_htOptions h)) (getNBuckets h) in
  let* shrink := scale (shrinkLoadFactor (m_htOptions h)) (getNBuckets h) in
  Ok (mkHashtable (ht_nodes h) (ht_fresh h) (m_buckets h) (m_htOptions h) (m_htSize h) expand shrink).

(** [foreachNode] of the list that starts at [head]; the successor is read before [f]
    runs. *)
Fixpoint foreachNode (fuel : nat) (head : option nat)
    (f : nat -> Hashtable T -> result (Hashtable T)) h : result (Hashtable T) :=
  match head with
  | None => Ok h
  | Some x =>
    match fuel with
    | O => Err OutOfFuel
    | S fuel =>
      let* node := deref x h in
      let* h := f x h in
      foreachNode fuel (nd_next node) f h
    end
  end.

(** The lambda of [resize]. *)
Definition reattach x h : result (Hashtable T) :=
  let* node := deref x h in
  let* bucket := computeBucketIndex (nd_hash node) h in
  attach bucket x h.

Fixpoint reattach_all (oldBuckets : list (option nat)) h : result (Hashtable T) :=
  match oldBuckets with
  | [] => Ok h
  | head :: rest =>
    let* h := foreachNode (size (ht_nodes h)) head reattach h in
    reattach_all rest h
  end.

Definition resize (newNBuckets : Z) h : result (Hashtable T) :=
  if getNBuckets h =? newNBuckets then Ok h
  else
    let oldBuckets := m_buckets h in
    let h := with_buckets (replicate (Z.to_nat newNBuckets) None) h in
    let* h := reattach_all oldBuckets h in
    computeThresholds h.

(** [Hashtable::Hashtable]; its assertions on the load factors compare the fields of the
    options with constants. *)
Definition Hashtable_new (options : HashtableOptions) : result (Hashtable T) :=
  let one := S754_finite false 8388608 (-23) in
  let zero := S754_zero false in
  assert! 0 <? minSize options orelse "m_options.minSize > 0";
  assert! minSize options <=? initialSize options orelse "m_options.initialSize >= m_options.minSize";
  assert! SFltb zero (expandLoadFactor options) orelse "m_options.expandLoadFactor > 0.0";
  assert! SFleb (expandLoadFactor options) one orelse "m_options.expandLoadFactor <= 1.0";
  assert! SFltb one (expandFactor options) orelse "m_options.expandFactor > 1.0";
  assert! SFleb zero (shrinkLoadFactor options) orelse "m_options.shrinkLoadFactor >= 0.0";
  assert! SFltb (shrinkLoadFactor options) one orelse "m_options.shrinkLoadFactor < 1.0";
  assert! SFltb zero (shrinkFactor options) orelse "m_options.shrinkFactor > 0.0";
  assert! SFltb (shrinkFactor options) one orelse "m_options.shrinkFactor < 1.0";
  computeThresholds
    (mkHashtable ∅ 0 (replicate (Z.to_nat (initialSize options)) None) options 0 0 0).

(** The loop of [findOrInsert] over the nodes of a bucket. *)
Fixpoint find_loop (fuel : nat) (node : option nat) (name : Name) (prefixLen : nat) (hash : Z) h
  : result (option nat) :=
  match node with
  | None => Ok None
  | Some x =>
    match fuel with
    | O => Err OutOfFuel
    | S fuel =>
      let* n := deref x h in
      if (nd_hash n =? hash) &&
         (name_compare_range name 0 prefixLen (nd_name n) 0 (length (nd_name n)) =? 0)
      then Ok (Some x)
      else find_loop fuel (nd_next n) name prefixLen hash h
    end
  end.

(** [FIB_MAX_DEPTH], which [NameTree::getMaxDepth] returns. *)
Definition getMaxDepth : nat := 32.

(** [new Node(h, name)], with the assertion of the constructor of its entry. *)
Definition Node_new (hash : Z) (name : Name) h : result (nat * Hashtable T) :=
  let x := ht_fresh h in
  assert! (length name <=? getMaxDepth)%nat orelse "name.size() <= NameTree::getMaxDepth()";
  Ok (x, mkHashtable (<[x := mkNode hash None None name None [] no_tables]> (ht_nodes h)) (S x)
        (m_buckets h) (m_htOptions h) (m_htSize h) (m_expandThreshold h) (m_shrinkThreshold h)).

Definition findOrInsert (name : Name) (prefixLen : nat) (hash : Z) (allowInsert : bool) h
  : result (option nat * bool * Hashtable T) :=
  let* bucket := computeBucketIndex hash h in
  let* head := getBucket bucket h in
  let* found := find_loop (size (ht_nodes h)) head name prefixLen hash h in
  match found with
  | Some x => Ok (Some x, false, h)
  | None =>
    if negb allowInsert then Ok (None, false, h)
    else
      let* (x, h) := Node_new hash (take prefixLen name) h in
      let* h := attach bucket x h in
      let h := with_size (u64 (m_htSize h + 1)) h in
      let* h :=
        if m_htSize h >? m_expandThreshold h then
          let* n := scale (expandFactor (m_htOptions h)) (getNBuckets h) in resize n h
        else Ok h in
      Ok (Some x, true, h)
  end.

Definition ht_find (name : Name) (prefixLen : nat) h : result (option nat) :=
  let* (x, _, _) := findOrInsert name prefixLen (computeHash name prefixLen) false h in Ok x.

(** [hashes.at(prefixLen)] and [hashes[prefixLen]] *)
Definition hash_at (hashes : list Z) (name : Name) (prefixLen : nat) : result Z :=
  match hashes !! prefixLen with
  | None => Err (OutOfRange "vector::at")
  | Some hash =>
    assert! hash =? computeHash name prefixLen orelse "hashes.at(prefixLen) == computeHash(name, prefixLen)";
    Ok hash
  end.

Definition ht_find_hashes (name : Name) (prefixLen : nat) (hashes : list Z) h : result (option nat) :=
  let* hash := hash_at hashes name prefixLen in
  let* (x, _, _) := findOrInsert name prefixLen hash false h in Ok x.

Definition ht_insert (name : Name) (prefixLen : nat) (hashes : list Z) h
  : result (option nat * bool * Hashtable T) :=
  let* hash := hash_at hashes name prefixLen in
  findOrInsert name prefixLen hash true h.

(** [delete node], with the assertions of [Node::~Node]. *)
Definition Node_delete x h : result (Hashtable T) :=
  let* n := deref x h in
  assert! bool_decide (nd_prev n = None) orelse "prev == nullptr";
  assert! bool_decide (nd_next n = None) orelse "next == nullptr";
  Ok (with_nodes (delete x (ht_nodes h)) h).

Definition ht_erase x h : result (Hashtable T) :=
  let* node := deref x h in
  assert! bool_decide (nd_parent node = None) orelse "node->entry.getParent() == nullptr";
  let* bucket := computeBucketIndex (nd_hash node) h in
  let* h := detach bucket x h in
  let* h := Node_delete x h in
  let h := with_size (u64 (m_htSize h - 1)) h in
  if m_htSize h <? m_shrinkThreshold h then
    let* n := scale (shrinkFactor (m_htOptions h)) (getNBuckets h) in
    resize (Z.max (minSize (m_htOptions h)) n) h
  else Ok h.

End Hashtable_ops.

(** ** Lists of nodes

    [seg] says that the nodes of a list are linked in both directions, from [head] with
    predecessor [prev] to a last node [last] with successor [next]. *)
Section segments.
Context {T : Type}.
Implicit Types (σ : gmap nat (Node T)) (l : list nat) (p q : option nat).

Definition links σ (x : nat) : option (option nat * option nat) :=
  (fun n => (nd_prev n, nd_next n)) <$> σ !! x.
(** A node without its links. *)
Definition content (n : Node T) : Node T := set_links None None n.
Definition same_content σ σ' : Prop := forall y, content <$> σ' !! y = content <$> σ !! y.

Fixpoint seg σ (prev head : option nat) l (last next : option nat) : Prop :=
  match l with
  | [] => head = next /\ prev = last
  | x :: l' => head = Some x /\ exists nx, links σ x = Some (prev, nx) /\ seg σ (Some x) nx l' last next
  end.
Definition chain σ (head : option nat) l : Prop := exists last, seg σ None head l last None.

Lemma seg_app σ prev head l1 l2 last next :
  seg σ prev head (l1 ++ l2) last next <->
  exists m mid, seg σ prev head l1 m mid /\ seg σ m mid l2 last next.
Proof.
  revert prev head. induction l1 as [|x l1 IH]; intros prev head; cbn.
  - split; [by eauto|]. by intros (m & mid & [-> ->] & Hs).
  - split.
    + intros (-> & nx & Hl & (m & mid & H1 & H2)%IH). by eauto 10.
    + intros (m & mid & (-> & nx & Hl & H1) & H2). split; [done|]. exists nx.
      split; [done|]. apply IH. by eauto.
Qed.

Lemma seg_frame σ σ' prev head l last next :
  (forall y, y ∈ l -> links σ' y = links σ y) ->
  seg σ prev head l last next -> seg σ' prev head l last next.
Proof.
  revert prev head. induction l as [|x l IH]; intros prev head Hf; cbn; [done|].
  intros (-> & nx & Hl & Hs). split; [done|]. exists nx.
  split; [by rewrite Hf by set_solver|]. apply IH; [set_solver|done].
Qed.

Lemma chain_frame σ σ' head l :
  (forall y, y ∈ l -> links σ' y = links σ y) -> chain σ head l -> chain σ' head l.
Proof. intros Hf [last Hs]. exists last. by eapply seg_frame. Qed.

Lemma links_insert_ne σ x y n : y <> x -> links (<[x := n]> σ) y = links σ y.
Proof. intros Hy. unfold links. by rewrite lookup_insert_ne. Qed.
Lemma links_insert_eq σ x n : links (<[x := n]> σ) x = Some (nd_prev n, nd_next n).
Proof. unfold links. by rewrite lookup_insert_eq. Qed.
Lemma links_lookup σ x pn : links σ x = Some pn -> exists n, σ !! x = Some n /\ pn = (nd_prev n, nd_next n).
Proof. unfold links. destruct (σ !! x) as [n|]; cbn; [|done]. intros [= <-]. by eauto. Qed.

Lemma same_content_refl σ : same_content σ σ.
Proof. by intros y. Qed.
Lemma same_content_trans σ1 σ2 σ3 : same_content σ1 σ2 -> same_content σ2 σ3 -> same_content σ1 σ3.
Proof. intros H1 H2 y. by rewrite H2, H1. Qed.
Lemma same_content_relink σ x n p q :
  σ !! x = Some n -> same_content σ (<[x := set_links p q n]> σ).
Proof.
  intros Hx y. destruct (decide (y = x)) as [->|]; [|by rewrite lookup_insert_ne].
  by rewrite lookup_insert_eq, Hx.
Qed.
Lemma same_content_lookup σ σ' x n :
  same_content σ σ' -> σ !! x = Some n -> exists n', σ' !! x = Some n' /\ content n' = content n.
Proof.
  intros Hs Hx. specialize (Hs x). rewrite Hx in Hs. cbn in Hs.
  destruct (σ' !! x) as [n'|]; cbn in Hs; [|done].
  exists n'. split; [done|]. by apply (inj Some).
Qed.
Lemma same_content_sym σ σ' : same_content σ σ' -> same_content σ' σ.
Proof. intros H y. by rewrite H. Qed.
Lemma same_content_is_Some σ σ' x : same_content σ σ' -> is_Some (σ' !! x) <-> is_Some (σ !! x).
Proof.
  intros H. specialize (H x). destruct (σ !! x), (σ' !! x); cbn in H; done || by split; eauto.
Qed.
Lemma same_content_dom σ σ' : same_content σ σ' -> dom σ' = dom σ.
Proof.
  intros H. apply leibniz_equiv. intros x. rewrite !elem_of_dom. by apply same_content_is_Some.
Qed.

Lemma content_hash n n' : content n = content n' -> nd_hash n = nd_hash n'.
Proof. intros H. by injection H. Qed.
Lemma content_name n n' : content n = content n' -> nd_name n = nd_name n'.
Proof. intros H. by injection H. Qed.

(** The successor pointers alone. *)
Fixpoint nexts σ (head : option nat) l : Prop :=
  match l with
  | [] => head = None
  | x :: l' => head = Some x /\ exists n, σ !! x = Some n /\ nexts σ (nd_next n) l'
  end.

Lemma seg_nexts σ prev head l last : seg σ prev head l last None -> nexts σ head l.
Proof.
  revert prev head. induction l as [|x l IH]; intros prev head; cbn; [by intros [-> _]|].
  intros (-> & nx & (n & Hx & [= -> ->])%links_lookup & Hs). split; [done|]. exists n.
  split; [done|]. by eapply IH.
Qed.

Lemma nexts_frame σ σ' head l :
  (forall y, y ∈ l -> σ' !! y = σ !! y) -> nexts σ head l -> nexts σ' head l.
Proof.
  revert head. induction l as [|x l IH]; intros head Hf; cbn; [done|].
  intros (-> & n & Hx & Hn). split; [done|]. exists n.
  split; [by rewrite Hf by set_solver|]. apply IH; [set_solver|done].
Qed.

Lemma seg_lookup σ prev head l last next x :
  seg σ prev head l last next -> x ∈ l -> exists n, σ !! x = Some n.
Proof.
  revert prev head. induction l as [|y l IH]; intros prev head; cbn; [by intros _ ?%not_elem_of_nil|].
  intros (-> & nx & (n & Hy & _)%links_lookup & Hs) [->|Hx]%elem_of_cons; [by eauto|by eapply IH].
Qed.

(** The last pointer of a segment that is not empty. *)
Lemma seg_last σ head l last next :
  seg σ None head l last next ->
  (l = [] /\ last = None /\ head = next) \/
  exists l' z, l = l' ++ [z] /\ last = Some z /\ exists m, seg σ None head l' m (Some z) /\ links σ z = Some (m, next).
Proof.
  intros Hs. destruct l as [|z l' _] using rev_ind.
  - destruct Hs as [-> <-]. by left.
  - right. apply seg_app in Hs as (m & mid & H1 & (-> & nx & Hl & -> & <-)).
    exists l', z. split; [done|]. split; [done|]. by exists m.
Qed.

End segments.

(** ** Lists of lists *)
Section concat.
Context {A : Type}.
Implicit Types (ls : list (list A)) (l : list A).

Lemma Permutation_cons_app_l l1 l2 (x : A) : x :: l1 ++ l2 ≡ₚ l1 ++ x :: l2.
Proof. apply Permutation_middle. Qed.

Lemma concat_replicate_nil n : concat (replicate n (@nil A)) = [].
Proof. by induction n as [|n IH]; cbn. Qed.

Lemma concat_insert ls b l l' :
  ls !! b = Some l -> exists rest, concat ls ≡ₚ l ++ rest /\ concat (<[b := l']> ls) ≡ₚ l' ++ rest.
Proof.
  intros Hb. exists (concat (take b ls) ++ concat (drop (S b) ls)).
  rewrite (insert_take_drop ls b l') by (by eapply lookup_lt_Some).
  rewrite <- (take_drop_middle ls b l Hb) at 1. rewrite !concat_app. cbn [concat].
  split; rewrite !app_assoc; apply Permutation_app_tail, Permutation_app_comm.
Qed.

Lemma elem_of_concat ls l b x : ls !! b = Some l -> x ∈ l -> x ∈ concat ls.
Proof.
  intros Hb Hx. destruct (concat_insert ls b l l Hb) as (rest & -> & _). set_solver.
Qed.
Lemma elem_of_concat_inv ls x : x ∈ concat ls -> exists b l, ls !! b = Some l /\ x ∈ l.
Proof.
  induction ls as [|l ls IH]; cbn; [by intros ?%not_elem_of_nil|].
  intros [Hx|(b & l' & Hb & Hx)%IH]%elem_of_app; [by exists 0%nat, l|]. by exists (S b), l'.
Qed.
Lemma concat_disjoint ls b b' l l' x :
  NoDup (concat ls) -> ls !! b = Some l -> ls !! b' = Some l' -> x ∈ l -> x ∈ l' -> b = b'.
Proof.
  revert b b'. induction ls as [|l0 ls IH]; intros b b' Hn Hb Hb' Hx Hx'; [done|].
  cbn [concat] in Hn. apply NoDup_app in Hn as (_ & Hd & Hn).
  destruct b as [|b], b' as [|b']; cbn in Hb, Hb'; simplify_eq; [done| | |].
  - exfalso. apply (Hd x Hx). by eapply elem_of_concat.
  - exfalso. apply (Hd x Hx'). by eapply elem_of_concat.
  - f_equal. by apply (IH b b').
Qed.

End concat.

(** ** Buckets *)
Section buckets.
Context `{HashFunction} `{TableEntries T}.
Implicit Types (h : Hashtable T) (σ : gmap nat (Node T)) (cs : list (list nat)).

(** Changing one bucket, and the links of its nodes only. *)
Lemma chains_update σ σ' bs cs b hd' l l' :
  Forall2 (chain σ) bs cs -> NoDup (concat cs) -> cs !! b = Some l ->
  (forall y, y ∈ concat cs -> y ∉ l -> links σ' y = links σ y) -> chain σ' hd' l' ->
  Forall2 (chain σ') (<[b := hd']> bs) (<[b := l']> cs).
Proof.
  intros Hc Hn Hb Hf Hc'. pose proof (Forall2_length _ _ _ Hc) as Hlen.
  apply Forall2_same_length_lookup_2; [by rewrite !length_insert|].
  intros i hd k Hi Hk. destruct (decide (i = b)) as [->|Hib].
  - rewrite list_lookup_insert_eq in Hk by (by eapply lookup_lt_Some).
    rewrite list_lookup_insert_eq in Hi by (rewrite Hlen; by eapply lookup_lt_Some). by simplify_eq.
  - rewrite list_lookup_insert_ne in Hi by done. rewrite list_lookup_insert_ne in Hk by done.
    apply (chain_frame σ); [|by eapply Forall2_lookup_lr]. intros y Hy. apply Hf.
    + by eapply elem_of_concat.
    + intros Hyl. by apply Hib, (concat_disjoint cs i b k l y).
Qed.

Lemma chain_head σ hd l : chain σ hd l -> hd = head l.
Proof. intros [last Hs]. destruct l; [by destruct Hs|by destruct Hs as [-> _]]. Qed.

Lemma attach_ok h cs b l x n :
  Forall2 (chain (ht_nodes h)) (m_buckets h) cs -> NoDup (concat cs) -> cs !! b = Some l ->
  ht_nodes h !! x = Some n -> x ∉ concat cs ->
  exists σ', attach b x h = Ok (with_buckets (<[b := Some x]> (m_buckets h)) (with_nodes σ' h)) /\
    Forall2 (chain σ') (<[b := Some x]> (m_buckets h)) (<[b := x :: l]> cs) /\
    same_content (ht_nodes h) σ' /\ forall y, y ∉ x :: l -> σ' !! y = ht_nodes h !! y.
Proof.
  intros Hc Hn Hb Hx Hxc.
  assert (Hxl : x ∉ l) by (intros ?; apply Hxc; by eapply elem_of_concat).
  destruct (Forall2_lookup_r _ _ _ _ _ Hc Hb) as (hd & Hhd & Hch).
  unfold attach, getBucket, deref. rewrite Hhd, Hx. cbn [mbind result_bind].
  destruct l as [|y l].
  - destruct Hch as [last [-> <-]]. cbn [mbind result_bind].
    exists (<[x := set_links None None n]> (ht_nodes h)). split; [done|]. split; [|split].
    + apply (chains_update (ht_nodes h) _ _ _ _ _ []); [done|done|done| |].
      * intros y Hy _. apply links_insert_ne. by intros ->.
      * exists (Some x). split; [done|]. exists None. by rewrite links_insert_eq.
    + by apply same_content_relink.
    + intros y Hy. rewrite lookup_insert_ne; [done|set_solver].
  - destruct Hch as (last & -> & ny & (m & Hy & [= Hp ->])%links_lookup & Hs).
    assert (Hyx : y <> x) by set_solver.
    cbn [store_node with_nodes ht_nodes]. rewrite lookup_insert_ne, Hy by done. cbn [mbind result_bind].
    rewrite bool_decide_true by done. cbn [mbind result_bind].
    exists (<[y := set_links (Some x) (nd_next m) m]> (<[x := set_links None (Some y) n]> (ht_nodes h))).
    split; [done|]. split; [|split].
    + apply (chains_update (ht_nodes h) _ _ _ _ _ (y :: l)); [done|done|done| |].
      * intros z Hz Hzl. rewrite !links_insert_ne; [done|by intros ->|]. intros ->. apply Hzl. by left.
      * exists last. split; [done|]. exists (Some y). rewrite links_insert_ne, links_insert_eq by done.
        split; [done|]. split; [done|]. exists (nd_next m). rewrite links_insert_eq. split; [done|].
        eapply seg_frame; [|exact Hs]. intros z Hz.
        assert (NoDup (y :: l)) as [? _]%NoDup_cons.
        { destruct (concat_insert cs b (y :: l) [] Hb) as (rest & Hp' & _).
          rewrite Hp' in Hn. by apply NoDup_app in Hn as [? _]. }
        rewrite !links_insert_ne; [done| |by intros ->]. intros ->. apply Hxl. by right.
    + eapply same_content_trans; [by apply (same_content_relink _ x n)|].
      apply same_content_relink. by rewrite lookup_insert_ne.
    + intros z Hz. rewrite !lookup_insert_ne; [done|set_solver|set_solver].
Qed.

(** The two pointer assignments of [detach]. *)
Definition set_next (m nx : option nat) σ : gmap nat (Node T) :=
  match m with Some p => alter (fun n => set_links (nd_prev n) nx n) p σ | None => σ end.
Definition set_prev (m p : option nat) σ : gmap nat (Node T) :=
  match m with Some y => alter (fun n => set_links p (nd_next n) n) y σ | None => σ end.

Lemma links_alter_ne σ f x y : y <> x -> links (alter f x σ) y = links σ y.
Proof. intros Hy. unfold links. by rewrite lookup_alter_ne. Qed.
Lemma links_alter_eq σ f x n : σ !! x = Some n -> links (alter f x σ) x = Some (nd_prev (f n), nd_next (f n)).
Proof. intros Hx. unfold links. by rewrite lookup_alter_eq, Hx. Qed.
Lemma same_content_alter σ x p q :
  same_content σ (alter (fun n => set_links (p n) (q n) n) x σ).
Proof.
  intros y. destruct (decide (y = x)) as [->|]; [|by rewrite lookup_alter_ne].
  rewrite lookup_alter_eq. by destruct (σ !! x).
Qed.

Lemma same_content_set_next σ m nx : same_content σ (set_next m nx σ).
Proof. destruct m as [p|]; [|done]. apply (same_content_alter _ p nd_prev (fun _ => nx)). Qed.
Lemma same_content_set_prev σ m p : same_content σ (set_prev m p σ).
Proof. destruct m as [y|]; [|done]. apply (same_content_alter _ y (fun _ => p) nd_next). Qed.

Lemma seg_set_next σ hd l m mid nx :
  NoDup l -> seg σ None hd l m mid ->
  seg (set_next m nx σ) None (match l with [] => nx | _ => hd end) l m nx.
Proof.
  intros Hn [(-> & -> & _)|(l' & z & -> & -> & m' & H1 & Hz)]%seg_last; [done|].
  apply NoDup_app in Hn as (_ & Hd & _). apply links_lookup in Hz as (n & Hz & [= -> ->]).
  replace (match l' ++ [z] with [] => nx | _ => hd end) with hd by (by destruct l').
  apply seg_app. exists (nd_prev n), (Some z). split.
  - eapply seg_frame; [|done]. intros y Hy. apply links_alter_ne. set_solver.
  - split; [done|]. exists nx. cbn. by rewrite (links_alter_eq _ _ _ n).
Qed.

Lemma seg_set_prev σ p p' hd l last :
  NoDup l -> seg σ p hd l last None ->
  seg (set_prev hd p' σ) p' hd l (match l with [] => p' | _ => last end) None.
Proof.
  destruct l as [|y l]; cbn; [by intros _ [-> _]|].
  intros [Hy Hn]%NoDup_cons (-> & nx & (n & Hl & [= -> ->])%links_lookup & Hs).
  split; [done|]. exists (nd_next n). cbn. rewrite (links_alter_eq _ _ _ n) by done. split; [done|].
  eapply seg_frame; [|done]. intros z Hz. apply links_alter_ne. by intros ->.
Qed.

Lemma alter_insert_id σ (f : Node T -> Node T) x n : σ !! x = Some n -> <[x := f n]> σ = alter f x σ.
Proof.
  intros Hx. apply map_eq. intros y. destruct (decide (y = x)) as [->|].
  - by rewrite lookup_insert_eq, lookup_alter_eq, Hx.
  - by rewrite lookup_insert_ne, lookup_alter_ne.
Qed.

Lemma set_next_ne σ m nx x : m <> Some x -> set_next m nx σ !! x = σ !! x.
Proof. destruct m as [p|]; [|done]. intros Hm. apply lookup_alter_ne. congruence. Qed.
Lemma set_prev_ne σ m p x : m <> Some x -> set_prev m p σ !! x = σ !! x.
Proof. destruct m as [y|]; [|done]. intros Hm. apply lookup_alter_ne. congruence. Qed.

(** What [detach] computes when the pointers around the node agree. *)
Lemma detach_eq h b x n :
  let σ1 := set_next (nd_prev n) (nd_next n) (ht_nodes h) in
  ht_nodes h !! x = Some n -> nd_prev n <> Some x -> nd_next n <> Some x ->
  (forall p, nd_prev n = Some p -> snd <$> links (ht_nodes h) p = Some (Some x)) ->
  (nd_prev n = None -> m_buckets h !! b = Some (Some x)) ->
  (forall y, nd_next n = Some y -> fst <$> links σ1 y = Some (Some x)) ->
  detach b x h =
  Ok (with_buckets (match nd_prev n with Some _ => m_buckets h | None => <[b := nd_next n]> (m_buckets h) end)
        (with_nodes (<[x := set_links None None n]> (set_prev (nd_next n) (nd_prev n) σ1)) h)).
Proof.
  intros σ1 Hx Hp Hq Hprev Hhd Hnext. unfold detach, getBucket, deref. rewrite Hx. cbn [mbind result_bind].
  set (h1 := with_buckets (match nd_prev n with Some _ => m_buckets h | None => <[b := nd_next n]> (m_buckets h) end)
               (with_nodes σ1 h)).
  match goal with |- mbind _ ?m = _ => assert (E1 : m = Ok h1) end.
  { unfold h1, σ1. destruct (nd_prev n) as [p|].
    - specialize (Hprev p eq_refl). unfold links in Hprev.
      destruct (ht_nodes h !! p) as [pn|] eqn:E; cbn in Hprev; [|done]. injection Hprev as Hpn.
      cbn [mbind result_bind]. rewrite bool_decide_true by done. unfold store_node. cbn [set_next].
      by rewrite (alter_insert_id _ (fun m => set_links (nd_prev m) (nd_next n) m) _ pn E).
    - rewrite Hhd by done. cbn [mbind result_bind]. by rewrite bool_decide_true. }
  rewrite E1. cbn [mbind result_bind]. change (ht_nodes h1) with σ1. clear E1.
  assert (Hx1 : σ1 !! x = Some n) by (unfold σ1; by rewrite set_next_ne).
  destruct (nd_next n) as [y|]; cbn [set_prev].
  - specialize (Hnext y eq_refl). unfold links in Hnext.
    destruct (σ1 !! y) as [yn|] eqn:E; cbn in Hnext; [|done]. injection Hnext as Hyn.
    cbn [mbind result_bind]. rewrite bool_decide_true by done. cbn [mbind result_bind store_node with_nodes ht_nodes].
    rewrite lookup_insert_ne by congruence. change (ht_nodes h1) with σ1. rewrite Hx1. cbn [mbind result_bind].
    by rewrite <- (alter_insert_id _ (fun m => set_links (nd_prev n) (nd_next m) m) _ yn E).
  - cbn [mbind result_bind]. change (ht_nodes h1) with σ1. by rewrite Hx1.
Qed.

Lemma seg_last_in σ hd l p next : seg σ None hd l (Some p) next -> p ∈ l /\ snd <$> links σ p = Some next.
Proof.
  intros [(_ & [=] & _)|(l' & z & -> & [= ->] & m & _ & Hl)]%seg_last. rewrite Hl.
  split; [apply elem_of_app; right; by apply list_elem_of_singleton|done].
Qed.
Lemma seg_head_in σ p y l last : seg σ p (Some y) l last None -> y ∈ l /\ fst <$> links σ y = Some p.
Proof. destruct l as [|z l]; cbn; [by intros [? _]|]. intros ([= ->] & nx & -> & _). split; [by left|done]. Qed.

(** The lists around a node after its removal. *)
Lemma unlink_segs σ hd l1 x n l2 last :
  let σ1 := set_next (nd_prev n) (nd_next n) σ in
  let σ' := <[x := set_links None None n]> (set_prev (nd_next n) (nd_prev n) σ1) in
  NoDup (l1 ++ x :: l2) -> seg σ None hd l1 (nd_prev n) (Some x) -> seg σ (Some x) (nd_next n) l2 last None ->
  chain σ' (match l1 with [] => nd_next n | _ => hd end) (l1 ++ l2) /\
  (forall y, y ∉ l1 ++ x :: l2 -> links σ' y = links σ y) /\
  (forall y, y ∉ l1 -> links σ1 y = links σ y).
Proof.
  intros σ1 σ' (Hn1 & Hd & [Hx2 Hn2]%NoDup_cons)%NoDup_app S1 S2.
  assert (Hx1 : x ∉ l1) by (intros Hx1; apply (Hd x Hx1); by left).
  assert (Hσ1 : forall y, y ∉ l1 -> links σ1 y = links σ y).
  { intros y Hy. unfold links, σ1. rewrite set_next_ne; [done|]. intros E. apply Hy.
    rewrite E in S1. by apply seg_last_in in S1 as [? _]. }
  assert (Hσ2 : forall y, y ∉ l2 -> y <> x -> links σ' y = links σ1 y).
  { intros y Hy Hyx. unfold σ'. rewrite links_insert_ne by done. unfold links. rewrite set_prev_ne; [done|].
    intros E. apply Hy. rewrite E in S2. by apply seg_head_in in S2 as [? _]. }
  split; [|split; [|done]].
  - eexists. apply seg_app. exists (nd_prev n), (nd_next n). split.
    + eapply seg_frame; [|by eapply seg_set_next]. intros y Hy. apply Hσ2; [|by intros ->].
      intros Hy2. apply (Hd y Hy). by right.
    + eapply (seg_frame (set_prev (nd_next n) (nd_prev n) σ1)); [|eapply seg_set_prev; [done|]].
      * intros y Hy. apply links_insert_ne. by intros ->.
      * eapply seg_frame; [|exact S2]. intros y Hy. apply Hσ1. intros Hy1. apply (Hd y Hy1). by right.
  - intros y (Hy1 & Hyx)%not_elem_of_app. apply not_elem_of_cons in Hyx as [Hyx Hy2].
    by rewrite Hσ2, Hσ1.
Qed.

Lemma detach_ok h cs b l1 x l2 :
  Forall2 (chain (ht_nodes h)) (m_buckets h) cs -> NoDup (concat cs) -> cs !! b = Some (l1 ++ x :: l2) ->
  exists σ' hd, detach b x h = Ok (with_buckets (<[b := hd]> (m_buckets h)) (with_nodes σ' h)) /\
    Forall2 (chain σ') (<[b := hd]> (m_buckets h)) (<[b := l1 ++ l2]> cs) /\
    same_content (ht_nodes h) σ' /\ links σ' x = Some (None, None).
Proof.
  intros Hc Hn Hb. destruct (Forall2_lookup_r _ _ _ _ _ Hc Hb) as (hd & Hhd & last & Hs).
  apply seg_app in Hs as (m & mid & S1 & (-> & nx & (n & Hx & [= -> ->])%links_lookup & S2)).
  assert (NoDup (l1 ++ x :: l2)) as HN.
  { destruct (concat_insert cs b _ [] Hb) as (rest & Hp' & _). rewrite Hp' in Hn. by apply NoDup_app in Hn as [? _]. }
  destruct (unlink_segs _ _ _ _ _ _ _ HN S1 S2) as (Hch & Hf & Hf1).
  apply NoDup_app in HN as (_ & Hd & [Hx2 _]%NoDup_cons).
  eexists _, _. split; [|split; [by eapply chains_update; [done|done|done|intros y _; apply Hf|]|split]].
  - rewrite (detach_eq h b x n Hx).
    + f_equal. f_equal. destruct (nd_prev n) as [p|] eqn:Ep.
      * apply seg_last_in in S1 as [Hp _]. destruct l1; [by apply not_elem_of_nil in Hp|].
        by rewrite list_insert_id.
      * by apply seg_last in S1 as [(-> & _ & _)|(? & ? & _ & [=] & _)].
    + intros Ep. rewrite Ep in S1. apply seg_last_in in S1 as [Hp _]. apply (Hd x Hp). by left.
    + intros Ep. rewrite Ep in S2. by apply seg_head_in in S2 as [Hp _].
    + intros p Ep. rewrite Ep in S1. by apply seg_last_in in S1 as [_ Hp].
    + intros Ep. rewrite Ep in S1.
      apply seg_last in S1 as [(_ & _ & ->)|(? & ? & _ & [=] & _)]. done.
    + intros y Ey. rewrite Ey in S2. apply seg_head_in in S2 as [Hp Hy].
      rewrite Hf1; [done|]. intros Hy1. apply (Hd y Hy1). by right.
  - eapply same_content_trans; [apply (same_content_set_next _ (nd_prev n) (nd_next n))|].
    eapply same_content_trans; [apply (same_content_set_prev _ (nd_next n) (nd_prev n))|].
    apply same_content_relink. rewrite set_prev_ne, set_next_ne; [done| |].
    + intros Ep. rewrite Ep in S1. apply seg_last_in in S1 as [Hp _]. apply (Hd x Hp). by left.
    + intros Ep. rewrite Ep in S2. by apply seg_head_in in S2 as [Hp _].
  - by rewrite links_insert_eq.
Qed.

(** The buckets hold disjoint lists, of the nodes whose hash belongs there. *)
Record linked h cs : Prop := {
  lk_chains : Forall2 (chain (ht_nodes h)) (m_buckets h) cs;
  lk_NoDup : NoDup (concat cs);
  lk_placed b l x : cs !! b = Some l -> x ∈ l ->
    exists n, ht_nodes h !! x = Some n /\ Z.to_nat (nd_hash n mod getNBuckets h) = b;
  lk_buckets : 0 < getNBuckets h;
}.

(** Only links and buckets differ. *)
Record relinked h h' : Prop := {
  rl_content : same_content (ht_nodes h) (ht_nodes h');
  rl_nBuckets : getNBuckets h' = getNBuckets h;
  rl_fresh : ht_fresh h' = ht_fresh h;
  rl_options : m_htOptions h' = m_htOptions h;
  rl_size : m_htSize h' = m_htSize h;
  rl_expand : m_expandThreshold h' = m_expandThreshold h;
  rl_shrink : m_shrinkThreshold h' = m_shrinkThreshold h;
}.

Lemma relinked_refl h : relinked h h.
Proof. by split. Qed.
Lemma relinked_trans h1 h2 h3 : relinked h1 h2 -> relinked h2 h3 -> relinked h1 h3.
Proof. intros [] []. split; [by eapply same_content_trans|congruence..]. Qed.
Lemma relinked_with h b hd σ' :
  same_content (ht_nodes h) σ' ->
  relinked h (with_buckets (<[b := hd]> (m_buckets h)) (with_nodes σ' h)).
Proof. intros Hc. split; try done. unfold getNBuckets, zlen. cbn. by rewrite length_insert. Qed.

Lemma linked_bucket h cs hash :
  linked h cs -> exists l, cs !! Z.to_nat (hash mod getNBuckets h) = Some l /\
    computeBucketIndex hash h = Ok (Z.to_nat (hash mod getNBuckets h)).
Proof.
  intros [Hc _ _ Hp]. unfold computeBucketIndex. rewrite (proj2 (Z.eqb_neq _ _)) by lia.
  pose proof (Z.mod_pos_bound hash (getNBuckets h) Hp) as Hm.
  destruct (lookup_lt_is_Some_2 cs (Z.to_nat (hash mod getNBuckets h))) as [l Hl]; [|by eauto].
  rewrite <- (Forall2_length _ _ _ Hc). unfold getNBuckets, zlen in *. lia.
Qed.

Lemma placed_content h h' cs x b :
  same_content (ht_nodes h) (ht_nodes h') -> getNBuckets h' = getNBuckets h ->
  (exists n, ht_nodes h !! x = Some n /\ Z.to_nat (nd_hash n mod getNBuckets h) = b) ->
  exists n, ht_nodes h' !! x = Some n /\ Z.to_nat (nd_hash n mod getNBuckets h') = b.
Proof.
  intros Hs HB (n & Hx & Hb). destruct (same_content_lookup _ _ _ _ Hs Hx) as (n' & Hx' & Hn').
  exists n'. by rewrite (content_hash _ _ Hn'), HB.
Qed.

Lemma attach_linked h cs x n :
  linked h cs -> ht_nodes h !! x = Some n -> x ∉ concat cs ->
  exists h' cs', attach (Z.to_nat (nd_hash n mod getNBuckets h)) x h = Ok h' /\ linked h' cs' /\
    concat cs' ≡ₚ x :: concat cs /\ relinked h h' /\
    forall y, y ∉ x :: concat cs -> ht_nodes h' !! y = ht_nodes h !! y.
Proof.
  intros Hl Hx Hxc. destruct (linked_bucket h cs (nd_hash n) Hl) as (l & Hb & _).
  destruct Hl as [Hc Hn Hp HB]. set (b := Z.to_nat (nd_hash n mod getNBuckets h)) in *.
  destruct (attach_ok h cs b l x n Hc Hn Hb Hx Hxc) as (σ' & Ha & Hc' & Hs & Hf).
  pose proof (relinked_with h b (Some x) σ' Hs) as Hr.
  eexists _, (<[b := x :: l]> cs). split; [exact Ha|].
  destruct (concat_insert cs b l (x :: l) Hb) as (rest & P1 & P2).
  assert (P : concat (<[b := x :: l]> cs) ≡ₚ x :: concat cs) by (by rewrite P2, P1).
  split; [|split; [done|split; [done|]]].
  - split; [done|rewrite P; by constructor| |by rewrite (rl_nBuckets _ _ Hr)].
    intros b' l' y Hb' Hy. apply (placed_content h _ cs); [apply Hr|apply Hr|].
    destruct (decide (b' = b)) as [->|Hne].
    + rewrite list_lookup_insert_eq in Hb' by (by eapply lookup_lt_Some). injection Hb' as <-.
      apply elem_of_cons in Hy as [->|Hy]; [by exists n|by eapply Hp].
    + rewrite list_lookup_insert_ne in Hb' by done. by eapply Hp.
  - intros y Hy. apply Hf. intros Hyl. apply Hy. apply elem_of_cons in Hyl as [->|Hyl]; [by left|].
    right. by eapply elem_of_concat.
Qed.

Lemma reattach_list r : forall h cs hd fuel,
  linked h cs -> NoDup (r ++ concat cs) -> nexts (ht_nodes h) hd r -> (length r <= fuel)%nat ->
  exists h' cs', foreachNode fuel hd reattach h = Ok h' /\ linked h' cs' /\
    concat cs' ≡ₚ r ++ concat cs /\ relinked h h' /\
    forall y, y ∉ r ++ concat cs -> ht_nodes h' !! y = ht_nodes h !! y.
Proof.
  induction r as [|x r IH]; intros h cs hd fuel Hl Hn Hnx Hf.
  - cbn in Hnx. subst hd. exists h, cs. by destruct fuel; repeat (split; [done|]).
  - destruct Hnx as (-> & n & Hx & Hnx). destruct fuel as [|fuel]; [cbn in Hf; lia|].
    cbn [app] in Hn. apply NoDup_cons in Hn as [Hxn Hn].
    assert (Hxc : x ∉ concat cs) by (intros ?; apply Hxn, elem_of_app; by right).
    destruct (attach_linked h cs x n Hl Hx Hxc) as (h1 & cs1 & Ha & Hl1 & P1 & R1 & F1).
    destruct (IH h1 cs1 (nd_next n) fuel) as (h2 & cs2 & Hfe & Hl2 & P2 & R2 & F2).
    + done.
    + rewrite P1, <- Permutation_cons_app_l. by constructor.
    + eapply nexts_frame; [|exact Hnx]. intros y Hy. apply F1. intros [->|Hyc]%elem_of_cons.
      * apply Hxn, elem_of_app. by left.
      * apply NoDup_app in Hn as (_ & Hd & _). by apply (Hd y).
    + cbn in Hf. lia.
    + exists h2, cs2. destruct (linked_bucket h cs (nd_hash n) Hl) as (l & _ & Hbi).
      split; [|split; [done|split; [by rewrite P2, P1, <- Permutation_cons_app_l|split; [by eapply relinked_trans|]]]].
      * assert (Hre : reattach x h = Ok h1).
        { unfold reattach, deref. rewrite Hx. cbn [mbind result_bind]. rewrite Hbi. exact Ha. }
        cbn [foreachNode]. unfold deref. rewrite Hx. cbn [mbind result_bind]. rewrite Hre. exact Hfe.
      * cbn [app]. intros y Hy. rewrite F2, F1; [done| |].
        -- intros Hy'. apply Hy. apply elem_of_cons in Hy' as [->|Hy']; [by left|]. right. apply elem_of_app. by right.
        -- intros Hy'. apply Hy. by rewrite P1, <- Permutation_cons_app_l in Hy'.
Qed.

Lemma nexts_lookup σ hd l x : nexts σ hd l -> x ∈ l -> is_Some (σ !! x).
Proof.
  revert hd. induction l as [|y l IH]; intros hd; cbn; [by intros _ ?%not_elem_of_nil|].
  intros (_ & n & Hy & Hs) [->|Hx]%elem_of_cons; [by eauto|by eapply IH].
Qed.

Lemma NoDup_length_nodes σ l : NoDup l -> (forall x, x ∈ l -> is_Some (σ !! x)) -> (length l <= size σ)%nat.
Proof.
  intros Hn Hl. rewrite <- size_dom, <- (size_list_to_set (C:=gset nat) l) by done.
  apply subseteq_size. intros x Hx%elem_of_list_to_set. by apply elem_of_dom, Hl.
Qed.

Lemma Forall2_nexts_frame σ σ' bs ocs :
  (forall y, y ∈ concat ocs -> σ' !! y = σ !! y) ->
  Forall2 (nexts σ) bs ocs -> Forall2 (nexts σ') bs ocs.
Proof.
  intros Hf. induction 1 as [|hd l bs ocs Hnx _ IH]; [done|]. constructor.
  - eapply nexts_frame; [|done]. intros y Hy. apply Hf, elem_of_app. by left.
  - apply IH. intros y Hy. apply Hf, elem_of_app. by right.
Qed.

Lemma reattach_all_ok bs ocs : forall h cs,
  linked h cs -> Forall2 (nexts (ht_nodes h)) bs ocs -> NoDup (concat ocs ++ concat cs) ->
  exists h' cs', reattach_all bs h = Ok h' /\ linked h' cs' /\
    concat cs' ≡ₚ concat ocs ++ concat cs /\ relinked h h'.
Proof.
  revert ocs. induction bs as [|hd bs IH]; intros ocs h cs Hl Hf Hn.
  - apply Forall2_nil_inv_l in Hf as ->. exists h, cs. by repeat (split; [done|]).
  - apply Forall2_cons_inv_l in Hf as (l & ocs' & Hnx & Hf & ->). cbn [concat] in Hn.
    rewrite <- app_assoc in Hn. pose proof Hn as (Hn1 & Hd & Hn2)%NoDup_app.
    pose proof Hn2 as (_ & Hd2 & _)%NoDup_app.
    assert (P : l ++ concat ocs' ++ concat cs ≡ₚ concat ocs' ++ l ++ concat cs) by solve_Permutation.
    rewrite P in Hn. apply NoDup_app in Hn as (_ & Hd3 & Hn3).
    destruct (reattach_list l h cs hd (size (ht_nodes h))) as (h1 & cs1 & E1 & Hl1 & P1 & R1 & F1);
      [done|done|done| |].
    { apply NoDup_length_nodes; [done|]. intros x. by apply nexts_lookup with hd. }
    destruct (IH ocs' h1 cs1) as (h2 & cs2 & E2 & Hl2 & P2 & R2); [done| | |].
    + eapply Forall2_nexts_frame; [|exact Hf]. intros y Hy. apply F1. by apply Hd3.
    + rewrite P1, <- P. apply NoDup_app. split; [done|]. by split.
    + exists h2, cs2. cbn [reattach_all]. rewrite E1. cbn [mbind result_bind].
      split; [done|]. split; [done|]. split; [|by eapply relinked_trans].
      rewrite P2, P1, <- P. cbn [concat]. by rewrite app_assoc.
Qed.

Definition thresholds_ok h : Prop :=
  scale (expandLoadFactor (m_htOptions h)) (getNBuckets h) = Ok (m_expandThreshold h) /\
  scale (shrinkLoadFactor (m_htOptions h)) (getNBuckets h) = Ok (m_shrinkThreshold h).

Lemma linked_empty h n :
  m_buckets h = replicate n None -> (0 < n)%nat -> linked h (replicate n []).
Proof.
  intros Hb Hn. split.
  - rewrite Hb. apply Forall2_replicate. by exists None.
  - rewrite concat_replicate_nil. constructor.
  - intros b l x [-> _]%lookup_replicate. by intros ?%not_elem_of_nil.
  - unfold getNBuckets, zlen. rewrite Hb, length_replicate. lia.
Qed.

Lemma resize_ok h cs n e s :
  linked h cs -> thresholds_ok h -> 0 < n ->
  scale (expandLoadFactor (m_htOptions h)) n = Ok e -> scale (shrinkLoadFactor (m_htOptions h)) n = Ok s ->
  exists h' cs', resize n h = Ok h' /\ linked h' cs' /\ thresholds_ok h' /\ getNBuckets h' = n /\
    concat cs' ≡ₚ concat cs /\ same_content (ht_nodes h) (ht_nodes h') /\
    ht_fresh h' = ht_fresh h /\ m_htOptions h' = m_htOptions h /\ m_htSize h' = m_htSize h.
Proof.
  intros Hl Ht Hn He Hs. unfold resize. destruct (getNBuckets h =? n) eqn:En; zbool.
  { exists h, cs. by repeat (split; [done|]). }
  set (h0 := with_buckets (replicate (Z.to_nat n) None) h).
  assert (Hb0 : getNBuckets h0 = n) by (unfold getNBuckets, zlen; cbn; rewrite length_replicate; lia).
  assert (Hcc : concat (replicate (Z.to_nat n) (@nil nat)) = []) by apply concat_replicate_nil.
  assert (Hl0 : linked h0 (replicate (Z.to_nat n) [])) by (apply linked_empty; [done|lia]).
  destruct (reattach_all_ok (m_buckets h) cs h0 _ Hl0) as (h1 & cs1 & E1 & Hl1 & P1 & R1).
  - eapply Forall2_impl; [apply Hl|]. intros hd l [last Hsg]. by eapply seg_nexts.
  - rewrite Hcc, app_nil_r. apply Hl.
  - rewrite E1. cbn [mbind result_bind]. unfold computeThresholds.
    destruct R1 as [Rc Rb Rf Ro Rs _ _]. change (m_htOptions h1 = m_htOptions h) in Ro. rewrite Ro, Rb, Hb0, He, Hs.
    eexists _, cs1. split; [done|]. destruct Hl1 as [C1 C2 C3 C4].
    assert (Hb1 : forall e' s', getNBuckets (mkHashtable (ht_nodes h1) (ht_fresh h1) (m_buckets h1)
              (m_htOptions h) (m_htSize h1) e' s') = n) by (intros; by rewrite <- Hb0, <- Rb).
    split; [by split|]. split; [by split; rewrite Hb1|].
    split; [apply Hb1|]. split; [by rewrite P1, Hcc, app_nil_r|]. by repeat (split; [done|]).
Qed.
End buckets.

(** ** Hashes of prefixes *)
Section hashes.
Context `{HashFunction}.

Lemma computeHash_take name k : computeHash (take k name) (length (take k name)) = computeHash name k.
Proof.
  unfold computeHash. rewrite Nat.min_id, firstn_all. f_equal.
  rewrite <- (firstn_all (take k name)), length_take, take_take. f_equal. lia.
Qed.

Lemma hashes_from_lookup h comps i :
  (i <= length comps)%nat ->
  hashes_from h comps !! i = Some (foldl (fun h comp => Z.lxor h (component_hash comp)) h (take i comps)).
Proof.
  revert h i. induction comps as [|c comps IH]; intros h i Hi; cbn in Hi.
  - by replace i with 0%nat by lia.
  - destruct i as [|i]; [done|]. cbn. apply IH. lia.
Qed.

Lemma computeHashes_lookup name k i :
  (i <= k)%nat -> (i <= length name)%nat -> computeHashes name k !! i = Some (computeHash name i).
Proof.
  intros Hk Hl. unfold computeHashes, computeHash. rewrite hashes_from_lookup, take_take.
  - do 3 f_equal. lia.
  - rewrite length_take. lia.
Qed.

Lemma hash_at_ok name k i :
  (i <= k)%nat -> (i <= length name)%nat -> hash_at (computeHashes name k) name i = Ok (computeHash name i).
Proof. intros Hk Hl. unfold hash_at. by rewrite computeHashes_lookup, Z.eqb_refl. Qed.

Lemma name_compare_range_prefix name k other :
  (name_compare_range name 0 k other 0 (length other) =? 0) = bool_decide (other = take k name).
Proof.
  unfold name_compare_range. rewrite !drop_0, firstn_all.
  destruct (decide (other = take k name)) as [->|Hn].
  - rewrite bool_decide_true by done. by apply Z.eqb_eq, name_compare_eq.
  - rewrite bool_decide_false by done. apply Z.eqb_neq. intros ?%name_compare_eq. congruence.
Qed.
End hashes.

(** ** Numbers of buckets

    [counts] is a set of numbers of buckets that is closed under the resizing of the
    options, as long as there are no more than [limit] nodes, and in which the load
    stays under the threshold. *)
Definition load_above (o : HashtableOptions) (n load : Z) : bool :=
  match scale (expandLoadFactor o) n with Ok e => load <? e | Err _ => false end.
Definition count_ok (o : HashtableOptions) (limit : Z) (counts : list Z) (n : Z) : bool :=
  (0 <? n) &&
  match scale (expandLoadFactor o) n, scale (shrinkLoadFactor o) n with
  | Ok e, Ok s =>
    (negb (e <? limit) ||
     match scale (expandFactor o) n with
     | Ok m => bool_decide (m ∈ counts) && load_above o m e
     | Err _ => false
     end) &&
    match scale (shrinkFactor o) n with
    | Ok m => bool_decide (Z.max (minSize o) m ∈ counts) && load_above o (Z.max (minSize o) m) (s - 2)
    | Err _ => false
    end
  | _, _ => false
  end.
Definition counts_ok (o : HashtableOptions) (limit : Z) (counts : list Z) : bool :=
  (limit <? 2 ^ 64) && bool_decide (initialSize o ∈ counts) && forallb (count_ok o limit counts) counts.

(** The name tree starts with 1024 buckets; powers of two up to 2^61 suffice for 2^60
    nodes. *)
Definition power_counts (size : Z) : list Z := (fun k => size * 2 ^ Z.of_nat k) <$> seq 0 52.
Example counts_1024 : counts_ok (HashtableOptions_new 1024) (2 ^ 60) (power_counts 1024) = true.
Proof. vm_compute. reflexivity. Qed.

(** ** The invariant and the operations *)
Section table.
Context `{HashFunction} `{TableEntries T}.
Context (o : HashtableOptions) (limit : Z) (counts : list Z) (Hcounts : counts_ok o limit counts = true).
Implicit Types (h : Hashtable T) (σ : gmap nat (Node T)) (cs : list (list nat)).

(** What does not depend on the links: hashes, unique names, fresh locations. *)
Record data_ok σ (fresh : nat) : Prop := {
  do_hash x n : σ !! x = Some n -> nd_hash n = computeHash (nd_name n) (length (nd_name n));
  do_names x y n m : σ !! x = Some n -> σ !! y = Some m -> nd_name n = nd_name m -> x = y;
  do_fresh x : is_Some (σ !! x) -> (x < fresh)%nat;
}.

Record ht_inv h : Prop := {
  hi_linked : exists cs, linked h cs /\ forall x, x ∈ concat cs <-> is_Some (ht_nodes h !! x);
  hi_data : data_ok (ht_nodes h) (ht_fresh h);
  hi_size : m_htSize h = Z.of_nat (size (ht_nodes h));
  hi_load : m_htSize h <= m_expandThreshold h;
  hi_options : m_htOptions h = o;
  hi_count : getNBuckets h ∈ counts;
  hi_thresholds : thresholds_ok h;
}.

Lemma data_ok_content σ σ' fresh : same_content σ σ' -> data_ok σ fresh -> data_ok σ' fresh.
Proof.
  intros Hs%same_content_sym [D1 D2 D3]. split.
  - intros x n Hx. destruct (same_content_lookup _ _ _ _ Hs Hx) as (n' & Hx' & E).
    rewrite <- (content_hash _ _ E), <- (content_name _ _ E). by apply D1 with x.
  - intros x y n m Hx Hy E. destruct (same_content_lookup _ _ _ _ Hs Hx) as (n' & Hx' & En).
    destruct (same_content_lookup _ _ _ _ Hs Hy) as (m' & Hy' & Em).
    apply (D2 x y n' m'); [done|done|]. by rewrite (content_name _ _ En), (content_name _ _ Em).
  - intros x Hx. apply D3. by apply (same_content_is_Some _ _ _ Hs).
Qed.

(** The node of a name, if there is one. *)
Definition at_name h (x : nat) (name : Name) : Prop :=
  exists n, ht_nodes h !! x = Some n /\ nd_name n = name.

Lemma count_in n : n ∈ counts -> count_ok o limit counts n = true.
Proof.
  intros Hn. unfold counts_ok in Hcounts. apply andb_true_iff in Hcounts as [_ Hf].
  rewrite forallb_forall in Hf. by apply Hf, list_elem_of_In.
Qed.

Lemma find_loop_ok h l : forall hd name k hash fuel,
  nexts (ht_nodes h) hd l -> (length l <= fuel)%nat ->
  exists r, find_loop fuel hd name k hash h = Ok r /\
    match r with
    | Some x => x ∈ l /\ at_name h x (take k name)
    | None => forall x n, x ∈ l -> ht_nodes h !! x = Some n -> nd_hash n = hash -> nd_name n <> take k name
    end.
Proof.
  induction l as [|x l IH]; intros hd name k hash fuel Hnx Hf.
  - cbn in Hnx. subst hd. exists None. split; [by destruct fuel|]. by intros x n ?%not_elem_of_nil.
  - destruct Hnx as (-> & n & Hx & Hnx). destruct fuel as [|fuel]; [cbn in Hf; lia|].
    cbn [find_loop]. unfold deref at 1. rewrite Hx. cbn [mbind result_bind].
    rewrite name_compare_range_prefix. destruct (_ && _) eqn:E.
    + apply andb_true_iff in E as [_ E%bool_decide_eq_true]. exists (Some x). split; [done|].
      split; [by left|]. by exists n.
    + destruct (IH (nd_next n) name k hash fuel Hnx) as (r & Hr & Hs); [cbn in Hf; lia|].
      exists r. split; [done|]. destruct r as [y|].
      * destruct Hs as [Hy Hs]. split; [by right|done].
      * intros y m [->|Hy]%elem_of_cons Hm Hh; [|by eapply Hs]. simplify_eq.
        rewrite Z.eqb_refl in E. cbn in E. by apply bool_decide_eq_false in E.
Qed.

(** The search in the bucket of a prefix. *)
Lemma bucket_search h cs name k :
  linked h cs -> (forall x, x ∈ concat cs <-> is_Some (ht_nodes h !! x)) ->
  data_ok (ht_nodes h) (ht_fresh h) -> exists hd r,
    computeBucketIndex (computeHash name k) h = Ok (Z.to_nat (computeHash name k mod getNBuckets h)) /\
    getBucket (Z.to_nat (computeHash name k mod getNBuckets h)) h = Ok hd /\
    find_loop (size (ht_nodes h)) hd name k (computeHash name k) h = Ok r /\
    match r with Some x => at_name h x (take k name) | None => forall x, ~ at_name h x (take k name) end.
Proof.
  intros Hl Hd [Hh _ _].
  destruct (linked_bucket h cs (computeHash name k) Hl) as (l & Hb & Hbi).
  destruct (Forall2_lookup_r _ _ _ _ _ (lk_chains _ _ Hl) Hb) as (hd & Hhd & last & Hs).
  destruct (find_loop_ok h l hd name k (computeHash name k) (size (ht_nodes h))) as (r & Hr & Hspec).
  { by eapply seg_nexts. }
  { apply NoDup_length_nodes.
    - destruct (concat_insert cs _ _ [] Hb) as (rest & P & _). pose proof (lk_NoDup _ _ Hl) as Hn.
      rewrite P in Hn. by apply NoDup_app in Hn as [? _].
    - intros x Hx. apply Hd. by eapply elem_of_concat. }
  exists hd, r. split; [done|]. split; [unfold getBucket; by rewrite Hhd|]. split; [done|].
  destruct r as [x|]; [by destruct Hspec|].
  intros x (n & Hx & Hname). assert (Hhn : nd_hash n = computeHash name k).
  { rewrite (Hh x n Hx), Hname. apply computeHash_take. }
  apply (Hspec x n); [|done|done|done].
  destruct (elem_of_concat_inv cs x) as (b & l' & Hb' & Hx'); [apply Hd; by eauto|].
  destruct (lk_placed _ _ Hl b l' x Hb' Hx') as (n' & Hn' & Hmod). simplify_eq.
  by rewrite Hhn, Hb in Hb'; injection Hb' as ->.
Qed.

Lemma find_ok h name k :
  ht_inv h -> exists r, ht_find name k h = Ok r /\
    findOrInsert name k (computeHash name k) false h = Ok (r, false, h) /\
    match r with Some x => at_name h x (take k name) | None => forall x, ~ at_name h x (take k name) end.
Proof.
  intros [(cs & Hl & Hd) Hdata _ _ _ _ _].
  destruct (bucket_search h cs name k Hl Hd Hdata) as (hd & r & E1 & E2 & E3 & Hr).
  assert (E : findOrInsert name k (computeHash name k) false h = Ok (r, false, h)).
  { unfold findOrInsert. rewrite E1. cbn [mbind result_bind]. rewrite E2.
    cbn [mbind result_bind]. rewrite E3. cbn [mbind result_bind]. by destruct r. }
  exists r. split; [unfold ht_find; by rewrite E|]. by split.
Qed.

Lemma found_ok h name k x :
  ht_inv h -> ht_find name k h = Ok (Some x) ->
  findOrInsert name k (computeHash name k) true h = Ok (Some x, false, h).
Proof.
  intros [(cs & Hl & Hd) Hdata _ _ _ _ _].
  destruct (bucket_search h cs name k Hl Hd Hdata) as (hd & r & E1 & E2 & E3 & Hr).
  unfold ht_find, findOrInsert. rewrite E1. cbn [mbind result_bind]. rewrite E2. cbn [mbind result_bind].
  rewrite E3. cbn [mbind result_bind]. destruct r as [y|]; cbn; [|done]. by intros [= ->].
Qed.

Lemma linked_ext h h' cs :
  ht_nodes h' = ht_nodes h -> m_buckets h' = m_buckets h -> linked h cs -> linked h' cs.
Proof.
  intros Hn Hb [C1 C2 C3 C4]. unfold getNBuckets in *. split; unfold getNBuckets; by rewrite ?Hn, ?Hb.
Qed.

Lemma linked_alloc h cs x n :
  linked h cs -> ht_nodes h !! x = None ->
  (forall y, y ∈ concat cs <-> is_Some (ht_nodes h !! y)) ->
  linked (with_nodes (<[x := n]> (ht_nodes h)) h) cs.
Proof.
  intros [C1 C2 C3 C4] Hx Hd. split; [|done| |done].
  - cbn. apply Forall2_same_length_lookup. split; [by eapply Forall2_length|].
    intros b hd l Hb Hl. eapply chain_frame; [|by eapply Forall2_lookup_lr].
    intros y Hy. apply links_insert_ne. intros ->. apply (elem_of_concat _ _ _ _ Hl), Hd in Hy.
    rewrite Hx in Hy. by destruct Hy.
  - intros b l y Hb Hy. destruct (C3 b l y Hb Hy) as (m & Hm & Hmod). exists m.
    split; [|done]. cbn. rewrite lookup_insert_ne; [done|]. congruence.
Qed.

Lemma data_ok_alloc σ fresh hash name :
  data_ok σ fresh -> hash = computeHash name (length name) ->
  (forall x n, σ !! x = Some n -> nd_name n <> name) ->
  data_ok (<[fresh := mkNode hash None None name None [] no_tables]> σ) (S fresh).
Proof.
  intros [D1 D2 D3] Hh Hn. split.
  - intros x n. destruct (decide (x = fresh)) as [->|].
    + rewrite lookup_insert_eq. by intros [= <-].
    + rewrite lookup_insert_ne by done. apply D1.
  - intros x y n m. destruct (decide (x = fresh)) as [->|], (decide (y = fresh)) as [->|];
      rewrite ?lookup_insert_eq, ?(lookup_insert_ne _ fresh x) , ?(lookup_insert_ne _ fresh y) by done.
    + done.
    + intros [= <-] Hy E. cbn in E. by apply Hn in Hy.
    + intros Hx [= <-] E. cbn in E. by apply Hn in Hx.
    + apply D2.
  - intros x. destruct (decide (x = fresh)) as [->|]; [lia|].
    rewrite lookup_insert_ne by done. intros ?%D3. lia.
Qed.

(** All of the invariant but the load. *)
Definition loose h : Prop :=
  (exists cs, linked h cs /\ forall x, x ∈ concat cs <-> is_Some (ht_nodes h !! x)) /\
  m_htOptions h = o /\ getNBuckets h ∈ counts /\ thresholds_ok h.

(** Resizing to an allowed number of buckets. *)
Lemma resize_loose h n load :
  loose h -> n ∈ counts -> load_above o n load = true ->
  exists h', resize n h = Ok h' /\ loose h' /\ same_content (ht_nodes h) (ht_nodes h') /\
    ht_fresh h' = ht_fresh h /\ m_htSize h' = m_htSize h /\ load < m_expandThreshold h'.
Proof.
  intros ((cs & Hl & Hd) & Ho & _ & Ht) Hn Hload. pose proof (count_in n Hn) as Hc.
  unfold count_ok in Hc. apply andb_true_iff in Hc as [Hpos Hc]. zbool.
  destruct (scale (expandLoadFactor o) n) as [e|] eqn:Ee; [|done].
  destruct (scale (shrinkLoadFactor o) n) as [s|] eqn:Es; [|done].
  destruct (resize_ok h cs n e s Hl Ht Hpos) as
    (h' & cs' & E & Hl' & Ht' & Hb & P & Hs & Hf & Hop & Hsz); [by rewrite Ho..|].
  exists h'. split; [done|]. split.
  { split; [|split; [congruence|split; [by rewrite Hb|done]]].
    exists cs'. split; [done|]. intros x. by rewrite P, Hd, (same_content_is_Some _ _ _ Hs). }
  split; [done|]. split; [done|]. split; [done|].
  destruct Ht' as [He' _]. rewrite Hb, Hop, Ho, Ee in He'. injection He' as <-.
  unfold load_above in Hload. rewrite Ee in Hload. by zbool.
Qed.

Lemma expand_ok h :
  loose h -> m_htSize h - 1 <= m_expandThreshold h -> m_htSize h <= limit ->
  exists h', (if m_htSize h >? m_expandThreshold h then
      let* n := scale (expandFactor (m_htOptions h)) (getNBuckets h) in resize n h
    else Ok h) = Ok h' /\ loose h' /\ same_content (ht_nodes h) (ht_nodes h') /\
    ht_fresh h' = ht_fresh h /\ m_htSize h' = m_htSize h /\ m_htSize h' <= m_expandThreshold h'.
Proof.
  intros Hh Hld Hlim. pose proof Hh as (_ & Ho & Hn & [He Hs]). pose proof (count_in _ Hn) as Hc.
  rewrite Z.gtb_ltb. destruct (m_expandThreshold h <? m_htSize h) eqn:Egt; zbool.
  - rewrite Ho. unfold count_ok in Hc. rewrite Ho in He, Hs. rewrite He, Hs in Hc.
    apply andb_true_iff in Hc as [_ [Hc _]%andb_true_iff].
    rewrite (proj2 (Z.ltb_lt _ _)) in Hc by lia. cbn [negb orb] in Hc.
    destruct (scale (expandFactor o) (getNBuckets h)) as [m|]; [|done].
    apply andb_true_iff in Hc as [Hm%bool_decide_eq_true Hload].
    destruct (resize_loose h m _ Hh Hm Hload) as (h' & E & Hl' & Hsc & Hf & Hsz & Hle).
    exists h'. cbn [mbind result_bind]. rewrite E. repeat (split; [done|]). lia.
  - exists h. repeat (split; [done|]). lia.
Qed.

Lemma shrink_ok h :
  loose h -> m_htSize h <= m_expandThreshold h ->
  exists h', (if m_htSize h <? m_shrinkThreshold h then
      let* n := scale (shrinkFactor (m_htOptions h)) (getNBuckets h) in
      resize (Z.max (minSize (m_htOptions h)) n) h
    else Ok h) = Ok h' /\ loose h' /\ same_content (ht_nodes h) (ht_nodes h') /\
    ht_fresh h' = ht_fresh h /\ m_htSize h' = m_htSize h /\ m_htSize h' <= m_expandThreshold h'.
Proof.
  intros Hh Hld. pose proof Hh as (_ & Ho & Hn & [He Hs]). pose proof (count_in _ Hn) as Hc.
  destruct (m_htSize h <? m_shrinkThreshold h) eqn:Elt; zbool.
  - rewrite Ho. unfold count_ok in Hc. rewrite Ho in He, Hs. rewrite He, Hs in Hc.
    apply andb_true_iff in Hc as [_ [_ Hc]%andb_true_iff].
    destruct (scale (shrinkFactor o) (getNBuckets h)) as [m|]; [|done].
    apply andb_true_iff in Hc as [Hm%bool_decide_eq_true Hload].
    destruct (resize_loose h _ _ Hh Hm Hload) as (h' & E & Hl' & Hsc & Hf & Hsz & Hle).
    exists h'. cbn [mbind result_bind]. rewrite E. repeat (split; [done|]). lia.
  - by exists h.
Qed.

Lemma loose_inv h :
  loose h -> data_ok (ht_nodes h) (ht_fresh h) -> m_htSize h = Z.of_nat (size (ht_nodes h)) ->
  m_htSize h <= m_expandThreshold h -> ht_inv h.
Proof. intros (? & ? & ? & ?) ? ? ?. by split. Qed.

(** Nodes with the same content but for one location. *)
Definition same_but h h' (x : nat) : Prop :=
  forall y, y <> x -> content <$> ht_nodes h' !! y = content <$> ht_nodes h !! y.

(** A new node attached to its bucket. *)
Lemma alloc_attach h name k :
  let n := mkNode (computeHash name k) None None (take k name) None [] no_tables in
  let x := ht_fresh h in
  let h1 := mkHashtable (<[x := n]> (ht_nodes h)) (S x) (m_buckets h) (m_htOptions h) (m_htSize h)
              (m_expandThreshold h) (m_shrinkThreshold h) in
  loose h -> data_ok (ht_nodes h) (ht_fresh h) -> (length (take k name) <= getMaxDepth)%nat ->
  Node_new (computeHash name k) (take k name) h = Ok (x, h1) /\ ht_nodes h !! x = None /\ exists h2,
    attach (Z.to_nat (computeHash name k mod getNBuckets h)) x h1 = Ok h2 /\ relinked h1 h2 /\ loose h2.
Proof.
  intros n x h1 ((cs & Hl & Hd) & Ho & Hc & Ht) Hdata Hlen.
  split; [unfold Node_new; by rewrite (proj2 (Nat.leb_le _ _) Hlen)|].
  assert (Hx : ht_nodes h !! x = None).
  { destruct (ht_nodes h !! x) eqn:E; [|done]. assert (x < ht_fresh h)%nat by (apply Hdata; by eauto). lia. }
  split; [done|].
  assert (Hl1 : linked h1 cs).
  { apply (linked_ext (with_nodes (<[x := n]> (ht_nodes h)) h)); [done|done|by apply linked_alloc]. }
  destruct (attach_linked h1 cs x n Hl1) as (h2 & cs2 & E4 & Hl2 & P2 & R2 & _).
  { apply lookup_insert_eq. }
  { rewrite Hd, Hx. by intros [? ?]. }
  exists h2. split; [exact E4|]. split; [done|]. destruct R2 as [Rc Rb _ Ro _ Re Rk].
  split; [|split; [by rewrite Ro|split; [by rewrite Rb|]]].
  - exists cs2. split; [done|]. intros y. rewrite P2, (same_content_is_Some _ _ _ Rc), elem_of_cons, Hd. cbn.
    destruct (decide (y = x)) as [->|Hy]; [rewrite lookup_insert_eq; split; [by eauto|by left]|].
    rewrite lookup_insert_ne by done. split; [by intros [?|?]|by right].
  - unfold thresholds_ok. by rewrite Rb, Ro, Re, Rk.
Qed.

Lemma insert_ok h name k :
  ht_inv h -> m_htSize h < limit -> (length (take k name) <= getMaxDepth)%nat ->
  (forall x, ~ at_name h x (take k name)) ->
  exists x h', findOrInsert name k (computeHash name k) true h = Ok (Some x, true, h') /\ ht_inv h' /\
    ht_nodes h !! x = None /\ m_htSize h' = m_htSize h + 1 /\ same_but h h' x /\
    content <$> ht_nodes h' !! x =
      Some (mkNode (computeHash name k) None None (take k name) None [] no_tables).
Proof.
  intros [(cs & Hl & Hd) Hdata Hsz Hld Ho Hcnt Ht] Hlim Hdepth Hnone.
  destruct (bucket_search h cs name k Hl Hd Hdata) as (hd & r & E1 & E2 & E3 & Hr).
  destruct r as [x|]; [by apply Hnone in Hr|].
  destruct (alloc_attach h name k) as (Enew & Hx & h2 & E4 & R2 & Hlo2); [split; [by eauto|done]|done|done|].
  set (x := ht_fresh h) in *. set (n := mkNode _ None None (take k name) _ _ _) in *.
  set (h1 := mkHashtable (<[x := n]> (ht_nodes h)) _ _ _ _ _ _) in *. destruct R2 as [Rc Rb Rf Ro Rs Re Rk].
  set (h3 := with_size (u64 (m_htSize h2 + 1)) h2).
  assert (Hsz3 : m_htSize h3 = m_htSize h + 1).
  { cbn. rewrite Rs. apply u64_id. unfold counts_ok in Hcounts.
    apply andb_true_iff in Hcounts as [[?%Z.ltb_lt _]%andb_true_iff _]. unfold is_u64. lia. }
  destruct (expand_ok h3) as (h4 & E5 & Hlo & Hs4 & Hf4 & Hz4 & Hld4).
  { destruct Hlo2 as ((cs2 & Hl2 & Hd2) & L2 & L3 & L4). split; [|by split].
    exists cs2. split; [by eapply linked_ext; [..|exact Hl2]|done]. }
  { rewrite Hsz3. cbn. rewrite Re. cbn. lia. }
  { rewrite Hsz3. lia. }
  exists x, h4. split.
  { unfold findOrInsert. rewrite E1. cbn [mbind result_bind]. rewrite E2. cbn [mbind result_bind].
    rewrite E3. cbn [mbind result_bind negb]. rewrite Enew. cbn [mbind result_bind]. rewrite E4.
    cbn [mbind result_bind]. fold h3. by rewrite E5. }
  assert (Hs14 : same_content (ht_nodes h1) (ht_nodes h4)) by (by eapply same_content_trans).
  split; [|split; [done|split; [by rewrite Hz4|]]].
  - apply loose_inv; [done| | |done].
    + eapply data_ok_content; [exact Hs14|]. rewrite Hf4. cbn. rewrite Rf.
      apply data_ok_alloc; [done|symmetry; apply computeHash_take|]. intros y m Hy Em. apply (Hnone y). by exists m.
    + rewrite Hz4, Hsz3, Hsz, <- (size_dom (ht_nodes h4)), (same_content_dom _ _ Hs14), size_dom. cbn.
      rewrite map_size_insert_None by done. lia.
  - change (ht_nodes h1) with (<[x := n]> (ht_nodes h)) in Hs14. split.
    + intros y Hy. by rewrite Hs14, lookup_insert_ne.
    + by rewrite Hs14, lookup_insert_eq.
Qed.

Lemma linked_dealloc h cs x :
  linked h cs -> x ∉ concat cs -> linked (with_nodes (delete x (ht_nodes h)) h) cs.
Proof.
  intros [C1 C2 C3 C4] Hx. split; [|done| |done].
  - cbn. apply Forall2_same_length_lookup. split; [by eapply Forall2_length|].
    intros b hd l Hb Hl. eapply chain_frame; [|by eapply Forall2_lookup_lr].
    intros y Hy. unfold links. rewrite lookup_delete_ne; [done|]. intros <-. by apply Hx, (elem_of_concat _ _ _ _ Hl).
  - intros b l y Hb Hy. destruct (C3 b l y Hb Hy) as (m & Hm & Hmod). exists m.
    split; [|done]. cbn. rewrite lookup_delete_ne; [done|]. intros <-. by apply Hx, (elem_of_concat _ _ _ _ Hb).
Qed.

Lemma data_ok_dealloc σ fresh x : data_ok σ fresh -> data_ok (delete x σ) fresh.
Proof.
  intros [D1 D2 D3]. split.
  - intros y n [_ Hy]%lookup_delete_Some. by apply D1 with y.
  - intros y z n m [_ Hy]%lookup_delete_Some [_ Hz]%lookup_delete_Some. by apply D2.
  - intros y [n [_ Hy]%lookup_delete_Some]. apply D3. by eauto.
Qed.

(** A node taken out of its bucket and deleted. *)
Lemma detach_delete h x n :
  loose h -> ht_nodes h !! x = Some n ->
  exists h1 h2, computeBucketIndex (nd_hash n) h = Ok (Z.to_nat (nd_hash n mod getNBuckets h)) /\
    detach (Z.to_nat (nd_hash n mod getNBuckets h)) x h = Ok h1 /\ Node_delete x h1 = Ok h2 /\
    relinked h h1 /\ h2 = with_nodes (delete x (ht_nodes h1)) h1 /\ loose h2.
Proof.
  intros ((cs & Hl & Hd) & Ho & Hc & Ht) Hx.
  destruct (elem_of_concat_inv cs x) as (b & l & Hb & Hxl); [apply Hd; by eauto|].
  destruct (lk_placed _ _ Hl b l x Hb Hxl) as (n' & Hn' & Hmod). simplify_eq.
  destruct (linked_bucket h cs (nd_hash n) Hl) as (_ & _ & Hbi).
  set (b := Z.to_nat (nd_hash n mod getNBuckets h)) in *.
  apply list_elem_of_split in Hxl as (l1 & l2 & ->).
  destruct (detach_ok h cs b l1 x l2 (lk_chains _ _ Hl) (lk_NoDup _ _ Hl) Hb) as (σ' & hd & E & Hch & Hs & Hlk).
  destruct (concat_insert cs b _ (l1 ++ l2) Hb) as (rest & P1 & P2).
  assert (P : concat cs ≡ₚ x :: concat (<[b := l1 ++ l2]> cs)).
  { rewrite P1, P2, <- Permutation_cons_app_l. done. }
  pose proof (lk_NoDup _ _ Hl) as Hn. rewrite P in Hn. apply NoDup_cons in Hn as [Hxn Hn].
  set (h1 := with_buckets (<[b := hd]> (m_buckets h)) (with_nodes σ' h)) in *.
  pose proof (relinked_with h b hd σ' Hs) as Hr. fold h1 in Hr.
  assert (Hl1 : linked h1 (<[b := l1 ++ l2]> cs)).
  { split; [done|done| |rewrite (rl_nBuckets _ _ Hr); apply Hl].
    intros b' l' y Hb' Hy. apply (placed_content h _ cs); [apply Hr|apply Hr|].
    destruct (decide (b' = b)) as [->|Hne].
    - rewrite list_lookup_insert_eq in Hb' by (by eapply lookup_lt_Some). injection Hb' as <-.
      eapply (lk_placed _ _ Hl); [exact Hb|]. apply elem_of_app in Hy as [Hy|Hy]; apply elem_of_app; [by left|right; by right].
    - rewrite list_lookup_insert_ne in Hb' by done. by eapply (lk_placed _ _ Hl). }
  exists h1, (with_nodes (delete x (ht_nodes h1)) h1). split; [done|]. split; [done|].
  apply links_lookup in Hlk as (m & Hm & [= Hp Hq]).
  split; [|split; [done|split; [done|split; [|split; [done|split]]]]].
  - unfold Node_delete, deref. cbn [h1 ht_nodes with_buckets with_nodes]. rewrite Hm. cbn [mbind result_bind].
    by rewrite <- Hp, <- Hq.
  - eexists. split; [by apply linked_dealloc|]. intros y. cbn.
    destruct (decide (y = x)) as [->|Hy]; [rewrite lookup_delete_eq; split; [done|by intros [? ?]]|].
    rewrite lookup_delete_ne, (same_content_is_Some _ _ _ Hs), <- Hd, P, elem_of_cons by done.
    split; [by right|by intros [?|?]].
  - change (getNBuckets h1 ∈ counts). by rewrite (rl_nBuckets _ _ Hr).
  - unfold thresholds_ok. change (getNBuckets (with_nodes (delete x (ht_nodes h1)) h1)) with (getNBuckets h1).
    by rewrite (rl_nBuckets _ _ Hr).
Qed.

Lemma erase_ok h x n :
  ht_inv h -> ht_nodes h !! x = Some n -> nd_parent n = None ->
  exists h', ht_erase x h = Ok h' /\ ht_inv h' /\ ht_nodes h' !! x = None /\ same_but h h' x /\
    m_htSize h' = m_htSize h - 1.
Proof.
  intros [Hl Hdata Hsz Hld Ho Hcnt Ht] Hx Hpar.
  destruct (detach_delete h x n) as (h1 & h2 & E1 & E2 & E3 & [Rc Rb Rf Ro Rs Re Rk] & -> & Hlo); [by split|done|].
  set (h2 := with_nodes (delete x (ht_nodes h1)) h1) in *.
  set (h3 := with_size (u64 (m_htSize h2 - 1)) h2).
  assert (Hpos : (size (ht_nodes h) <> 0)%nat).
  { intros E%map_size_empty_inv. by rewrite E in Hx. }
  assert (Hu : m_htSize h < 2 ^ 64).
  { destruct Ht as [He _]. unfold scale in He. apply to_int_range in He. lia. }
  assert (Hsz3 : m_htSize h3 = m_htSize h - 1).
  { cbn. rewrite Rs. apply u64_id. unfold is_u64. lia. }
  destruct (shrink_ok h3) as (h4 & E5 & Hlo4 & Hs4 & Hf4 & Hz4 & Hld4).
  { destruct Hlo as ((cs2 & Hl2 & Hd2) & L2 & L3 & L4). split; [|by split].
    exists cs2. split; [by eapply linked_ext; [..|exact Hl2]|done]. }
  { rewrite Hsz3. cbn. rewrite Re. lia. }
  exists h4. split.
  { unfold ht_erase, deref. rewrite Hx. cbn [mbind result_bind]. rewrite bool_decide_true, E1 by done.
    cbn [mbind result_bind]. rewrite E2. cbn [mbind result_bind]. rewrite E3. exact E5. }
  change (ht_nodes h3) with (delete x (ht_nodes h1)) in Hs4.
  split; [|split; [|split; [|by rewrite Hz4]]].
  - apply loose_inv; [done| | |done].
    + eapply data_ok_content; [exact Hs4|]. apply data_ok_dealloc. rewrite Hf4. cbn. rewrite Rf.
      by eapply data_ok_content.
    + rewrite Hz4, Hsz3, Hsz, <- (size_dom (ht_nodes h4)), (same_content_dom _ _ Hs4), dom_delete_L.
      rewrite (same_content_dom _ _ Rc). rewrite size_difference by (apply singleton_subseteq_l, elem_of_dom; by eauto).
      rewrite size_singleton, size_dom. lia.
  - specialize (Hs4 x). rewrite lookup_delete_eq in Hs4. by destruct (ht_nodes h4 !! x).
  - intros y Hy. by rewrite Hs4, lookup_delete_ne, Rc.
Qed.

(** Changing what does not concern the table. *)
Lemma update_ok h x n n' :
  ht_inv h -> ht_nodes h !! x = Some n -> nd_hash n' = nd_hash n -> nd_name n' = nd_name n ->
  nd_prev n' = nd_prev n -> nd_next n' = nd_next n -> ht_inv (store_node x n' h).
Proof.
  clear Hcounts limit.
  intros [(cs & Hl & Hd) [D1 D2 D3] Hsz Hld Ho Hcnt Ht] Hx Eh En Ep Eq.
  assert (Hlk : forall y, links (<[x := n']> (ht_nodes h)) y = links (ht_nodes h) y).
  { intros y. destruct (decide (y = x)) as [->|]; [|by apply links_insert_ne].
    rewrite links_insert_eq. unfold links. rewrite Hx. cbn. congruence. }
  assert (Hin : forall y m, <[x := n']> (ht_nodes h) !! y = Some m ->
            exists m', ht_nodes h !! y = Some m' /\ nd_hash m = nd_hash m' /\ nd_name m = nd_name m').
  { intros y m. destruct (decide (y = x)) as [->|].
    - rewrite lookup_insert_eq. intros [= <-]. by eauto.
    - rewrite lookup_insert_ne by done. by eauto. }
  assert (Hdom : forall y, is_Some (<[x := n']> (ht_nodes h) !! y) <-> is_Some (ht_nodes h !! y)).
  { intros y. destruct (decide (y = x)) as [->|]; [|by rewrite lookup_insert_ne].
    rewrite lookup_insert_eq, Hx. by split; eauto. }
  split; [|split|..|done|done|done|done].
  - exists cs. split; [|cbn; intros y; by rewrite Hdom].
    destruct Hl as [C1 C2 C3 C4]. split; [|done| |done].
    + eapply Forall2_impl; [exact C1|]. intros hd l. by apply chain_frame.
    + intros b l y Hb Hy. destruct (C3 b l y Hb Hy) as (m & Hm & Hmod). cbn.
      destruct (decide (y = x)) as [->|]; [exists n'; rewrite lookup_insert_eq|exists m; by rewrite lookup_insert_ne].
      split; [done|]. simplify_eq. by rewrite Eh.
  - intros y m (m' & Hm' & -> & ->)%Hin. by apply D1 with y.
  - intros y z m1 m2 (m1' & H1 & _ & ->)%Hin (m2' & H2 & _ & ->)%Hin. by apply D2.
  - intros y. cbn. rewrite Hdom. apply D3.
  - cbn. rewrite Hsz. by rewrite map_size_insert_Some by eauto.
Qed.

Lemma new_inv h : Hashtable_new o = Ok h -> ht_inv h /\ ht_nodes h = ∅.
Proof.
  unfold Hashtable_new. repeat (case_match; [|done]). zbool.
  unfold computeThresholds. cbn [m_htOptions].
  intros (e & He & (s & Hs & [= <-])%result_bind_Ok)%result_bind_Ok.
  assert (Hcnt : zlen (replicate (Z.to_nat (initialSize o)) (@None nat)) = initialSize o).
  { unfold zlen. rewrite length_replicate. lia. }
  split; [|done]. apply loose_inv; [| |done|].
  - split; [|split; [done|split; [|by split]]].
    + eexists. split; [apply (linked_empty _ (Z.to_nat (initialSize o))); [done|lia]|].
      intros x. rewrite concat_replicate_nil. cbn. rewrite lookup_empty. split; [by intros ?%not_elem_of_nil|by intros [? ?]].
    + unfold getNBuckets. cbn. rewrite Hcnt. unfold counts_ok in Hcounts.
      by apply andb_true_iff in Hcounts as [[_ ?%bool_decide_eq_true]%andb_true_iff _].
  - cbn. split; intros x; [intros n|intros y n m|]; rewrite lookup_empty; [done|done|by intros [? ?]].
  - cbn. unfold scale in He. apply to_int_range in He. lia.
Qed.

(** ** The finite map *)

(** The map from names to nodes that the table implements. *)
Definition ht_map h : gmap Name nat :=
  list_to_map ((fun p => (nd_name p.2, p.1)) <$> map_to_list (ht_nodes h)).

Lemma ht_map_at h name x :
  data_ok (ht_nodes h) (ht_fresh h) -> ht_map h !! name = Some x <-> at_name h x name.
Proof.
  intros [_ D2 _]. unfold ht_map, at_name. rewrite <- elem_of_list_to_map.
  - rewrite list_elem_of_fmap. split.
    + intros ([y n] & [= -> ->] & Hy%elem_of_map_to_list). by eauto.
    + intros (n & Hx & <-). exists (x, n). split; [done|]. by apply elem_of_map_to_list.
  - rewrite <- list_fmap_compose. apply NoDup_fmap_2_strong; [|apply NoDup_map_to_list].
    intros [y n] [z m] Hy%elem_of_map_to_list Hz%elem_of_map_to_list E. cbn in E.
    assert (y = z) as -> by (by apply (D2 y z n m)). congruence.
Qed.

Lemma ht_map_None h name :
  data_ok (ht_nodes h) (ht_fresh h) -> ht_map h !! name = None <-> forall x, ~ at_name h x name.
Proof.
  intros Hd. rewrite eq_None_not_Some. split.
  - intros Hn x Hx%ht_map_at; [|done]. by eauto.
  - intros Hn [x Hx%ht_map_at]; [|done]. by apply (Hn x).
Qed.

Lemma at_name_content h y name :
  at_name h y name <-> exists n, content <$> ht_nodes h !! y = Some n /\ nd_name n = name.
Proof.
  unfold at_name. split.
  - intros (n & Hy & <-). exists (content n). by rewrite Hy.
  - intros (n & Hy & <-). destruct (ht_nodes h !! y) as [m|]; [|done]. injection Hy as <-. by exists m.
Qed.
Lemma at_name_same h h' y name :
  content <$> ht_nodes h' !! y = content <$> ht_nodes h !! y -> at_name h' y name <-> at_name h y name.
Proof. intros E. by rewrite !at_name_content, E. Qed.

(** A table that differs in one location from another. *)
Lemma ht_map_insert h h' x name :
  data_ok (ht_nodes h) (ht_fresh h) -> data_ok (ht_nodes h') (ht_fresh h') ->
  ht_nodes h !! x = None -> at_name h' x name -> same_but h h' x ->
  ht_map h' = <[name := x]> (ht_map h).
Proof.
  intros Hd Hd' Hx Hat Hsb. apply map_eq. intros m. apply option_eq. intros y.
  rewrite ht_map_at by done. destruct (decide (m = name)) as [->|Hm].
  - rewrite lookup_insert_eq. split; [|by intros [= <-]].
    destruct Hat as (n & Hn & En). intros (n' & Hn' & En'). f_equal. apply (do_names _ _ Hd' x y n n'); congruence.
  - rewrite lookup_insert_ne, ht_map_at by done. destruct (decide (y = x)) as [->|Hy].
    + split; [|by intros (n & Hn & _); congruence]. intros (n & Hn & <-).
      destruct Hat as (n' & Hn' & <-). congruence.
    + by apply at_name_same, Hsb.
Qed.

Lemma ht_map_delete h h' x n :
  data_ok (ht_nodes h) (ht_fresh h) -> data_ok (ht_nodes h') (ht_fresh h') ->
  ht_nodes h !! x = Some n -> ht_nodes h' !! x = None -> same_but h h' x ->
  ht_map h' = delete (nd_name n) (ht_map h).
Proof.
  intros Hd Hd' Hx Hx' Hsb. apply map_eq. intros m. apply option_eq. intros y.
  rewrite ht_map_at, lookup_delete_Some, ht_map_at by done. destruct (decide (y = x)) as [->|Hy].
  - split; [intros (k & Hk & _); congruence|]. intros [Hm (k & Hk & <-)]. congruence.
  - rewrite (at_name_same h h' y m) by (by apply Hsb). split; [|by intros [_ ?]].
    intros Hat. split; [|done]. intros <-. destruct Hat as (k & Hk & Ek).
    by apply Hy, (do_names _ _ Hd y x k n).
Qed.
End table.

(** ** Properties *)

(** C36: the hash table implements a finite map from names to nodes, whatever the hash
    function.  A new table is empty; finding a prefix of a name returns its node and
    changes nothing; inserting returns the node of the prefix, a new one exactly if there
    was none; erasing a node without parent removes its name.  No operation violates an
    assertion, follows a dangling pointer or divides by zero, the links stay consistent,
    and however often the table grows or shrinks its load stays under the threshold. *)
Theorem hashtable_refines_map `{HashFunction} `{TableEntries T}
    (o : HashtableOptions) (limit : Z) (counts : list Z) (Hc : counts_ok o limit counts = true) :
  (forall h : Hashtable T, Hashtable_new o = Ok h -> ht_inv o counts h /\ ht_map h = ∅) /\
  forall h : Hashtable T, ht_inv o counts h ->
    (forall name k, ht_find name k h = Ok (ht_map h !! take k name)) /\
    (forall name k, (k <= length name)%nat -> (k <= getMaxDepth)%nat -> m_htSize h < limit -> exists x h',
       ht_insert name k (computeHashes name k) h =
         Ok (Some x, bool_decide (ht_map h !! take k name = None), h') /\
       ht_inv o counts h' /\ ht_map h' = <[take k name := x]> (ht_map h) /\
       (ht_map h !! take k name <> None -> h' = h)) /\
    (forall x n, ht_nodes h !! x = Some n -> nd_parent n = None -> exists h',
       ht_erase x h = Ok h' /\ ht_inv o counts h' /\ ht_map h' = delete (nd_name n) (ht_map h)) /\
    m_htSize h = Z.of_nat (size (ht_nodes h)) /\ m_htSize h <= m_expandThreshold h.
Proof.
  split.
  { intros h Hnew. destruct (new_inv o limit counts Hc h Hnew) as [Hi Hn]. split; [done|].
    unfold ht_map. by rewrite Hn, map_to_list_empty. }
  intros h Hi. pose proof (hi_data _ _ _ Hi) as Hd.
  assert (Hfind : forall name k, ht_find name k h = Ok (ht_map h !! take k name)).
  { intros name k. destruct (find_ok o counts h name k Hi) as (r & -> & _ & Hr). f_equal.
    destruct r as [x|]; symmetry; [by apply ht_map_at|by apply ht_map_None]. }
  split; [done|]. split; [|split; [|split; apply Hi]].
  - intros name k Hk Hkd Hlim. unfold ht_insert. rewrite hash_at_ok by lia. cbn [mbind result_bind].
    destruct (ht_map h !! take k name) as [x|] eqn:E.
    + exists x, h. rewrite bool_decide_false by done.
      split; [|by rewrite insert_id].
      apply (found_ok o counts); [done|]. by rewrite Hfind, E.
    + destruct (insert_ok o limit counts Hc h name k Hi Hlim) as (x & h' & E' & Hi' & Hx & _ & Hsb & Hnew).
      { rewrite length_take. lia. }
      { by apply ht_map_None. }
      exists x, h'. rewrite bool_decide_true by done. split; [done|]. split; [done|]. split; [|done].
      apply ht_map_insert; [done|apply Hi'|done| |done]. apply at_name_content. eexists. by split.
  - intros x n Hx Hp. destruct (erase_ok o limit counts Hc h x n Hi Hx Hp) as (h' & E & Hi' & Hx' & Hsb & _).
    exists h'. split; [done|]. split; [done|]. by apply ht_map_delete with x; [..|apply Hi'| | |].
Qed.

#[local] Instance sample_hash : HashFunction := fun bs => zlen bs.
#[local] Instance sample_tables : TableEntries unit := {| no_tables := tt; hasTableEntries _ := false |}.

Lemma hashtable_refines_map_witness : exists h h' : Hashtable unit, exists x,
  Hashtable_new (HashtableOptions_new 1024) = Ok h /\
  ht_insert [mkComponent 8 (str "a")] 1 (computeHashes [mkComponent 8 (str "a")] 1) h = Ok (Some x, true, h') /\
  ht_map h' = {[ [mkComponent 8 (str "a")] := x ]}.
Proof.
  destruct (hashtable_refines_map (T:=unit) (HashtableOptions_new 1024) (2 ^ 60) (power_counts 1024) counts_1024)
    as [Hnew Hops].
  assert (H0 : match Hashtable_new (T:=unit) (HashtableOptions_new 1024) with
               | Ok h => m_htSize h <? 2 ^ 60 | Err _ => false end = true) by (vm_compute; reflexivity).
  destruct (Hashtable_new (T:=unit) (HashtableOptions_new 1024)) as [h|e] eqn:E; [|done].
  destruct (Hnew h eq_refl) as [Hi Hm]. destruct (Hops h Hi) as (_ & Hins & _).
  destruct (Hins [mkComponent 8 (str "a")] 1%nat) as (x & h' & E' & _ & Hm' & _);
    [cbn; lia|unfold getMaxDepth; lia|by apply Z.ltb_lt|].
  exists h, h', x. rewrite Hm in E', Hm'. split; [reflexivity|]. split; [exact E'|exact Hm'].
Defined.
