(* ===== verification/NameTree.v ===== *)
(** * The name tree (NFD/daemon/table: name-tree, name-tree-entry, name-tree-iterator)

    The common index of FIB, PIT, strategy choice and measurements: one entry for every
    name that has table entries and for every prefix of such a name, found through the
    hash table and linked to its parent and children.  Entry pointers are locations of
    the node heap.  Iterators are records with the fields of [Iterator], advanced by the
    three enumeration classes.

    The properties: the tree invariant under lookup and erasure, with no assertion
    violated; seen from the tables the name tree is a function from names to table
    entries that creating and erasing entries does not change; longest prefix match by
    hash and by parent pointers agree; every enumeration yields what it should, once. *)

From stdpp Require Import base gmap list sets strings.
From Stdlib Require Import ZArith Lia.
From S2P Require Import Prelude Tlv Encoder Block Codec Ndn NameTlv Double Hashtable.

Local Open Scope Z_scope.

Section NameTree_ops.
Context `{HashFunction} `{TableEntries T}.
Abbreviation NameTree := (Hashtable T).
Implicit Types (h : NameTree) (x : nat).

(** [NameTree::NameTree(nBuckets)] *)
Definition NameTree_new (nBuckets : Z) : result NameTree := Hashtable_new (HashtableOptions_new nBuckets).

(** ** Entries *)

Definition set_parent (p : option nat) (n : Node T) : Node T :=
  mkNode (nd_hash n) (nd_prev n) (nd_next n) (nd_name n) p (nd_children n) (nd_tables n).
Definition set_children (cs : list nat) (n : Node T) : Node T :=
  mkNode (nd_hash n) (nd_prev n) (nd_next n) (nd_name n) (nd_parent n) cs (nd_tables n).
Definition set_tables (t : T) (n : Node T) : Node T :=
  mkNode (nd_hash n) (nd_prev n) (nd_next n) (nd_name n) (nd_parent n) (nd_children n) t.

Definition entry_setParent x (parent : nat) h : result NameTree :=
  let* n := deref x h in
  let* p := deref parent h in
  assert! bool_decide (nd_parent n = None) orelse "this->getParent() == nullptr";
  assert! negb (bool_decide (nd_name n = [])) orelse "!this->getName().empty()";
  assert! name_equals (nd_name p) (getPrefix (-1) (nd_name n)) orelse "entry.getName() == this->getName().getPrefix(-1)";
  let h := store_node x (set_parent (Some parent) n) h in
  let* p := deref parent h in
  Ok (store_node parent (set_children (nd_children p ++ [x]) p) h).

Definition entry_unsetParent x h : result NameTree :=
  let* n := deref x h in
  match nd_parent n with
  | None => Err (AssertFailed "this->getParent() != nullptr")
  | Some parent =>
    let* p := deref parent h in
    assert! existsb (Nat.eqb x) (nd_children p) orelse "i != m_parent->m_children.end()";
    let h := store_node parent (set_children (erase_first (Nat.eqb x) (nd_children p)) p) h in
    let* n := deref x h in
    Ok (store_node x (set_parent None n) h)
  end.

Definition hasChildren (n : Node T) : bool := negb (bool_decide (nd_children n = [])).
Definition isEmpty (n : Node T) : bool := negb (hasChildren n) && negb (hasTableEntries (nd_tables n)).

(** ** Mutation *)

(** [parent] is the entry of the previous, shorter prefix. *)
Fixpoint lookup_loop (lens : list nat) (name : Name) (hashes : list Z) (parent : option nat) h
  : result (option nat * NameTree) :=
  match lens with
  | [] => Ok (parent, h)
  | i :: lens =>
    let* r := ht_insert name i hashes h in
    match r with
    | (Some x, isNew, h) =>
      let* h := match parent with
                | Some p => if (isNew : bool) then entry_setParent x p h else Ok h
                | None => Ok h
                end in
      lookup_loop lens name hashes (Some x) h
    | (None, _, h) => Err (UndefinedBehaviour "null node")
    end
  end.

Definition nt_lookup (name : Name) (prefixLen : nat) h : result (nat * NameTree) :=
  assert! (prefixLen <=? length name)%nat orelse "prefixLen <= name.size()";
  assert! (prefixLen <=? getMaxDepth)%nat orelse "prefixLen <= getMaxDepth()";
  let* r := lookup_loop (seq 0 (S prefixLen)) name (computeHashes name prefixLen) None h in
  match r with
  | (Some x, h) => Ok (x, h)
  | (None, _) => Err (UndefinedBehaviour "null node")
  end.

(** The loop of [eraseIfEmpty]: at most one entry for every prefix is erased. *)
Fixpoint erase_loop (fuel : nat) (entry : option nat) (canEraseAncestors : bool) (nErased : Z) h
  : result (Z * NameTree) :=
  match entry with
  | None => Ok (nErased, h)
  | Some x =>
    let* n := deref x h in
    if negb (isEmpty n) then Ok (nErased, h)
    else
      let parent := nd_parent n in
      let* h := match parent with Some _ => entry_unsetParent x h | None => Ok h end in
      let* h := ht_erase x h in
      if negb canEraseAncestors then Ok (nErased + 1, h)
      else
        match fuel with
        | O => Err OutOfFuel
        | S fuel => erase_loop fuel parent canEraseAncestors (nErased + 1) h
        end
  end.

Definition nt_eraseIfEmpty x (canEraseAncestors : bool) h : result (Z * NameTree) :=
  erase_loop (S getMaxDepth) (Some x) canEraseAncestors 0 h.

(** ** Matching *)

Definition findExactMatch (name : Name) (prefixLen : nat) h : result (option nat) :=
  let prefixLen := (length name `min` prefixLen)%nat in
  if (getMaxDepth <? prefixLen)%nat then Ok None
  else ht_find name prefixLen h.

(** One iteration of [findLongestPrefixMatch(const Name&, ...)]: the entry of the prefix,
    if it is selected. *)
Definition lpm_probe (i : nat) (name : Name) (hashes : list Z) (sel : Node T -> bool) h : result (option nat) :=
  let* node := ht_find_hashes name i hashes h in
  match node with
  | Some x => let* n := deref x h in Ok (if sel n then Some x else None)
  | None => Ok None
  end.
(** The loop, from [i] down to 0. *)
Fixpoint lpm_loop (i : nat) (name : Name) (hashes : list Z) (sel : Node T -> bool) h : result (option nat) :=
  let* found := lpm_probe i name hashes sel h in
  match found with
  | Some x => Ok (Some x)
  | None =>
    match i with
    | O => Ok None
    | S i => lpm_loop i name hashes sel h
    end
  end.

Definition findLongestPrefixMatch (name : Name) (sel : Node T -> bool) h : result (option nat) :=
  let depth := (length name `min` getMaxDepth)%nat in
  lpm_loop depth name (computeHashes name depth) sel h.

(** [findLongestPrefixMatch(const Entry&, ...)]: up the tree. *)
Fixpoint lpm_up (fuel : nat) (entry : option nat) (sel : Node T -> bool) h : result (option nat) :=
  match entry with
  | None => Ok None
  | Some x =>
    let* n := deref x h in
    if sel n then Ok (Some x)
    else
      match fuel with
      | O => Err OutOfFuel
      | S fuel => lpm_up fuel (nd_parent n) sel h
      end
  end.
Definition findLongestPrefixMatch_entry x (sel : Node T -> bool) h : result (option nat) :=
  lpm_up (S getMaxDepth) (Some x) sel h.

(** The loop of [findLongestPrefixMatch(const pit::Entry&, ...)] that goes deeper than
    the entry the PIT entry is attached to. *)
Fixpoint deeper_loop (lens : list nat) (name : Name) (nte : nat) h : result nat :=
  match lens with
  | [] => Ok nte
  | i :: lens =>
    let* exact := findExactMatch name i h in
    match exact with
    | None => Ok nte
    | Some x => deeper_loop lens name x h
    end
  end.
Definition findLongestPrefixMatch_pit (pitName : Name) (nte : nat) (sel : Node T -> bool) h
  : result (option nat) :=
  let* n := deref nte h in
  let depth := (length pitName `min` getMaxDepth)%nat in
  let* nte :=
    if (length (nd_name n) <? length pitName)%nat
    then deeper_loop (seq (S (length (nd_name n))) (depth - length (nd_name n))) pitName nte h
    else Ok nte in
  findLongestPrefixMatch_entry nte sel h.

(** ** Iterators *)

Record Iterator := mkIterator {
  it_entry : option nat;
  it_ref : option nat;
  it_state : bool;
}.
Definition Iterator_end : Iterator := mkIterator None None false.

(** The entries an iterator visits until it equals [end()], given its [advance]. *)
Fixpoint collect (fuel : nat) (advance : Iterator -> result Iterator) (i : Iterator) : result (list nat) :=
  match it_entry i with
  | None => Ok []
  | Some x =>
    match fuel with
    | O => Err OutOfFuel
    | S fuel =>
      let* i := advance i in
      let* rest := collect fuel advance i in
      Ok (x :: rest)
    end
  end.

(** [PrefixMatchImpl::advance] *)
Definition prefix_advance (pred : Node T -> bool) h (i : Iterator) : result Iterator :=
  let up x :=
    let* n := deref x h in
    let* entry := lpm_up (S getMaxDepth) (nd_parent n) pred h in
    match entry with
    | Some y => Ok (mkIterator (Some y) (it_ref i) (it_state i))
    | None => Ok Iterator_end
    end in
  match it_entry i with
  | None =>
    match it_ref i with
    | None => Ok Iterator_end
    | Some r =>
      let* n := deref r h in
      if pred n then Ok (mkIterator (Some r) (it_ref i) (it_state i)) else up r
    end
  | Some x => up x
  end.

(** [findAllMatches], as the list of the visited entries. *)
Definition findAllMatches (name : Name) (sel : Node T -> bool) h : result (list nat) :=
  let* entry := findLongestPrefixMatch name sel h in
  let* begin := prefix_advance sel h (mkIterator None entry false) in
  collect (S getMaxDepth) (prefix_advance sel h) begin.

(** The first node of a list that satisfies the predicate. *)
Fixpoint scan_list (fuel : nat) (node : option nat) (pred : Node T -> bool) h : result (option nat) :=
  match node with
  | None => Ok None
  | Some x =>
    match fuel with
    | O => Err OutOfFuel
    | S fuel =>
      let* n := deref x h in
      if pred n then Ok (Some x) else scan_list fuel (nd_next n) pred h
    end
  end.
(** The loop over the buckets. *)
Fixpoint scan_buckets (heads : list (option nat)) (pred : Node T -> bool) h : result (option nat) :=
  match heads with
  | [] => Ok None
  | head :: heads =>
    let* found := scan_list (size (ht_nodes h)) head pred h in
    match found with
    | Some x => Ok (Some x)
    | None => scan_buckets heads pred h
    end
  end.

(** [FullEnumerationImpl::advance] *)
Definition full_advance (pred : Node T -> bool) h (i : Iterator) : result Iterator :=
  let other x :=
    let* n := deref x h in
    let* found := scan_list (size (ht_nodes h)) (nd_next n) pred h in
    match found with
    | Some y => Ok (mkIterator (Some y) (it_ref i) (it_state i))
    | None =>
      let* currentBucket := computeBucketIndex (nd_hash n) h in
      let* found := scan_buckets (drop (S currentBucket) (m_buckets h)) pred h in
      match found with
      | Some y => Ok (mkIterator (Some y) (it_ref i) (it_state i))
      | None => Ok Iterator_end
      end
    end in
  match it_entry i with
  | None =>
    match find_first (fun head => negb (bool_decide (head = None))) (m_buckets h) with
    | Some (Some x) =>
      let* n := deref x h in
      if pred n then Ok (mkIterator (Some x) (it_ref i) (it_state i)) else other x
    | _ => Ok Iterator_end
    end
  | Some x => other x
  end.

(** [fullEnumerate], as the list of the visited entries. *)
Definition fullEnumerate (pred : Node T -> bool) h : result (list nat) :=
  let* begin := full_advance pred h (mkIterator None None false) in
  collect (size (ht_nodes h)) (full_advance pred h) begin.

End NameTree_ops.

(** ** The tree invariant

    What the tree is made of, independently of the hash table: name, parent and children
    of every entry. *)
Record tview := mkTview {
  tv_name : Name;
  tv_parent : option nat;
  tv_children : list nat;
}.

Record tree_ok (V : gmap nat tview) : Prop := {
  to_parent x v : V !! x = Some v ->
    match tv_parent v with
    | None => tv_name v = []
    | Some p => exists pv c, V !! p = Some pv /\ tv_name v = tv_name pv ++ [c]
    end;
  to_children p pv x : V !! p = Some pv ->
    x ∈ tv_children pv <-> exists v, V !! x = Some v /\ tv_parent v = Some p;
  to_NoDup p pv : V !! p = Some pv -> NoDup (tv_children pv);
  to_depth x v : V !! x = Some v -> (length (tv_name v) <= getMaxDepth)%nat;
}.

Section tree.
Implicit Types (V : gmap nat tview) (x p : nat).

Lemma tree_parent_present V x v p : tree_ok V -> V !! x = Some v -> tv_parent v = Some p -> is_Some (V !! p).
Proof. intros HV Hx Hp. pose proof (to_parent _ HV x v Hx) as H. rewrite Hp in H. destruct H as (pv & _ & H & _). by eauto. Qed.

(** Entries as the map has them after one insertion. *)
Lemma tree_add V x v :
  tree_ok V -> V !! x = None -> tv_children v = [] -> (length (tv_name v) <= getMaxDepth)%nat ->
  tv_name v = [] -> tv_parent v = None -> tree_ok (<[x := v]> V).
Proof.
  intros HV Hx Hc Hd Hn Hp. split.
  - intros y w [[<- <-]|[Hy Hw]]%lookup_insert_Some; [by rewrite Hp|].
    pose proof (to_parent _ HV y w Hw) as H. destruct (tv_parent w) as [p|]; [|done].
    destruct H as (pv & c & H & E). exists pv, c. rewrite lookup_insert_ne; [done|congruence].
  - intros p pv y [[<- <-]|[Hp' Hpv]]%lookup_insert_Some.
    + rewrite Hc. split; [by intros ?%not_elem_of_nil|]. intros (w & [[<- <-]|[_ Hw]]%lookup_insert_Some & Hpw); [congruence|].
      destruct (tree_parent_present V y w x HV Hw Hpw) as [? ?]. congruence.
    + rewrite (to_children _ HV p pv y Hpv). split; intros (w & Hw & Hpw).
      * exists w. rewrite lookup_insert_ne; [done|congruence].
      * apply lookup_insert_Some in Hw as [[<- <-]|[_ Hw]]; [congruence|]. by eauto.
  - intros p pv [[<- <-]|[_ Hpv]]%lookup_insert_Some; [rewrite Hc; constructor|]. by eapply to_NoDup.
  - intros y w [[<- <-]|[_ Hw]]%lookup_insert_Some; [done|]. by eapply to_depth.
Qed.

Lemma tree_link V x p pv name c :
  tree_ok V -> V !! x = None -> V !! p = Some pv -> name = tv_name pv ++ [c] ->
  (length name <= getMaxDepth)%nat ->
  tree_ok (<[p := mkTview (tv_name pv) (tv_parent pv) (tv_children pv ++ [x])]> (<[x := mkTview name (Some p) []]> V)).
Proof.
  intros HV Hx Hp Hn Hd. assert (Hpx : p <> x) by congruence.
  assert (Hnp : forall y w, V !! y = Some w -> tv_parent w <> Some x).
  { intros y w Hw Hpw. destruct (tree_parent_present V y w x HV Hw Hpw) as [? ?]. congruence. }
  set (V' := <[p := _]> _).
  assert (Hl : forall y w, V' !! y = Some w ->
    (y = x /\ w = mkTview name (Some p) []) \/ (y = p /\ w = mkTview (tv_name pv) (tv_parent pv) (tv_children pv ++ [x])) \/
    (y <> x /\ y <> p /\ V !! y = Some w)).
  { unfold V'. intros y w [[<- <-]|[Hy [[<- <-]|[Hyx Hw]]%lookup_insert_Some]]%lookup_insert_Some; [by right; left|by left|].
    right; right. done. }
  assert (Hname : forall y w, V !! y = Some w -> exists w', V' !! y = Some w' /\ tv_name w' = tv_name w /\ tv_parent w' = tv_parent w).
  { intros y w Hw. unfold V'. destruct (decide (y = p)) as [->|Hyp]; [rewrite lookup_insert_eq; simplify_eq; by eauto|].
    rewrite !lookup_insert_ne by congruence. by eauto. }
  split.
  - intros y w [[-> ->]|[[-> ->]|(Hyx & Hyp & Hw)]]%Hl; cbn.
    + destruct (Hname p pv Hp) as (pv' & Hp' & E & _). exists pv', c. by rewrite E.
    + pose proof (to_parent _ HV p pv Hp) as H. destruct (tv_parent pv) as [q|]; [|done].
      destruct H as (qv & d & Hq & E). destruct (Hname q qv Hq) as (qv' & Hq' & Eq & _). exists qv', d. by rewrite Eq.
    + pose proof (to_parent _ HV y w Hw) as H. destruct (tv_parent w) as [q|]; [|done].
      destruct H as (qv & d & Hq & E). destruct (Hname q qv Hq) as (qv' & Hq' & Eq & _). exists qv', d. by rewrite Eq.
  - assert (Hpar : forall q y, (exists v, V' !! y = Some v /\ tv_parent v = Some q) <->
      (y = x /\ q = p) \/ exists v, V !! y = Some v /\ tv_parent v = Some q).
    { intros q y. split.
      - intros (v & [[-> ->]|[[-> ->]|(_ & _ & Hv)]]%Hl & E); cbn in E; [left; by simplify_eq|right; by eauto..].
      - intros [[-> ->]|(v & Hv & E)].
        + exists (mkTview name (Some p) []). unfold V'. by rewrite lookup_insert_ne, lookup_insert_eq by done.
        + destruct (Hname y v Hv) as (v' & Hv' & _ & E'). exists v'. by rewrite E'. }
    intros q qv y Hq. rewrite Hpar. apply Hl in Hq as [[-> ->]|[[-> ->]|(Hqx & Hqp & Hq)]]; cbn.
    + split; [by intros ?%not_elem_of_nil|]. intros [[_ E]|(v & Hv & E)]; [congruence|by apply Hnp in Hv].
    + rewrite elem_of_app, (to_children _ HV p pv y Hp), list_elem_of_singleton.
      split; [intros [?| ->]; [by right|by left]|intros [[-> _]|?]; [by right|by left]].
    + rewrite (to_children _ HV q qv y Hq). split; [by right|by intros [[_ ->]|?]].
  - intros q qv [[-> ->]|[[-> ->]|(Hqx & Hqp & Hq)]]%Hl; cbn; [constructor| |by eapply to_NoDup].
    apply NoDup_app. split; [by eapply to_NoDup|]. split; [|apply NoDup_singleton].
    intros y Hy ->%list_elem_of_singleton. apply (to_children _ HV p pv x Hp) in Hy as (v & Hv & _). congruence.
  - intros y w [[-> ->]|[[-> ->]|(Hyx & Hyp & Hw)]]%Hl; cbn; [done|by eapply (to_depth _ HV)..].
Qed.

Lemma erase_first_eq_NoDup x (l : list nat) : NoDup l -> x ∉ erase_first (Nat.eqb x) l.
Proof.
  induction l as [|y l IH]; intros Hn; cbn; [apply not_elem_of_nil|]. apply NoDup_cons in Hn as [Hy Hn].
  destruct (Nat.eqb x y) eqn:E; [apply Nat.eqb_eq in E as ->; done|]. apply Nat.eqb_neq in E.
  apply not_elem_of_cons. split; [done|by apply IH].
Qed.

(** Removing an entry without children. *)
Lemma tree_remove_root V x v :
  tree_ok V -> V !! x = Some v -> tv_children v = [] -> tv_parent v = None -> tree_ok (delete x V).
Proof.
  intros HV Hx Hc Hp.
  assert (Hnp : forall y w, V !! y = Some w -> tv_parent w <> Some x).
  { intros y w Hw Hpw. assert (Hy : y ∈ tv_children v) by (apply (to_children _ HV x v y Hx); by eauto).
    rewrite Hc in Hy. by apply not_elem_of_nil in Hy. }
  split.
  - intros y w [_ Hw]%lookup_delete_Some. pose proof (to_parent _ HV y w Hw) as H. pose proof (Hnp y w Hw) as Hn.
    destruct (tv_parent w) as [p|]; [|done]. destruct H as (pv & c & H & E). exists pv, c.
    rewrite lookup_delete_ne; [done|congruence].
  - intros p pv y [Hpx Hpv]%lookup_delete_Some. rewrite (to_children _ HV p pv y Hpv).
    split; intros (w & Hw & Hpw); exists w; [|by apply lookup_delete_Some in Hw as [_ ?]].
    rewrite lookup_delete_ne; [done|congruence].
  - intros p pv [_ Hpv]%lookup_delete_Some. by eapply to_NoDup.
  - intros y w [_ Hw]%lookup_delete_Some. by eapply to_depth.
Qed.

Lemma tree_unlink V x v p pv :
  tree_ok V -> V !! x = Some v -> tv_children v = [] -> tv_parent v = Some p -> V !! p = Some pv ->
  tree_ok (delete x (<[p := mkTview (tv_name pv) (tv_parent pv) (erase_first (Nat.eqb x) (tv_children pv))]> V)).
Proof.
  intros HV Hx Hc Hp Hpv.
  assert (Hnp : forall y w, V !! y = Some w -> tv_parent w <> Some x).
  { intros y w Hw Hpw. assert (Hy : y ∈ tv_children v) by (apply (to_children _ HV x v y Hx); by eauto).
    rewrite Hc in Hy. by apply not_elem_of_nil in Hy. }
  set (pv' := mkTview (tv_name pv) (tv_parent pv) (erase_first (Nat.eqb x) (tv_children pv))). set (V' := delete x _).
  assert (Hl : forall y w, V' !! y = Some w ->
    (y = p /\ w = pv' /\ y <> x) \/ (y <> x /\ y <> p /\ V !! y = Some w)).
  { intros y w [Hyx [[<- <-]|[Hyp Hw]]%lookup_insert_Some]%lookup_delete_Some; [by left|by right]. }
  assert (Hr : forall y w, V !! y = Some w -> y <> x -> exists w', V' !! y = Some w' /\ tv_name w' = tv_name w /\ tv_parent w' = tv_parent w).
  { intros y w Hw Hyx. unfold V'. rewrite lookup_delete_ne by done.
    destruct (decide (y = p)) as [->|Hyp]; [rewrite lookup_insert_eq; simplify_eq; by eauto|].
    rewrite lookup_insert_ne by done. by eauto. }
  assert (Hpar : forall y w, V !! y = Some w -> match tv_parent w with
     | None => tv_name w = [] | Some q => exists qv c, V' !! q = Some qv /\ tv_name w = tv_name qv ++ [c] end).
  { intros y w Hw. pose proof (to_parent _ HV y w Hw) as H. pose proof (Hnp y w Hw) as Hn.
    destruct (tv_parent w) as [q|]; [|done]. destruct H as (qv & c & Hq & E).
    destruct (Hr q qv Hq) as (qv' & Hq' & Eq & _); [congruence|]. exists qv', c. by rewrite Eq. }
  split.
  - intros y w [(-> & -> & _)|(_ & _ & Hw)]%Hl; [apply (Hpar p pv Hpv)|by apply (Hpar y)].
  - assert (Hch : forall q qv y, V !! q = Some qv -> y <> x ->
      y ∈ tv_children qv <-> exists w, V' !! y = Some w /\ tv_parent w = Some q).
    { intros q qv y Hq Hyx. rewrite (to_children _ HV q qv y Hq). split; intros (w & Hw & E).
      - destruct (Hr y w Hw Hyx) as (w' & Hw' & _ & E'). exists w'. by rewrite E'.
      - apply Hl in Hw as [(-> & -> & _)|(_ & _ & Hw)]; by eauto. }
    assert (Hx' : forall q, ~ exists w, V' !! x = Some w /\ tv_parent w = Some q).
    { intros q (w & [(_ & _ & ?)|(? & _)]%Hl & _); done. }
    intros q qv y [(-> & -> & Hpx)|(Hqx & Hqp & Hq)]%Hl; cbn.
    + destruct (decide (y = x)) as [->|Hyx].
      * split; [|intros Hw; by destruct (Hx' p)]. intros Hy. exfalso. revert Hy.
        apply erase_first_eq_NoDup. by eapply to_NoDup.
      * rewrite <- (Hch p pv y Hpv Hyx). split; [apply elem_of_erase_first|].
        intros Hy. apply elem_of_erase_first_ne; [done|]. by apply Nat.eqb_neq.
    + destruct (decide (y = x)) as [->|Hyx]; [|by apply Hch].
      split; [|intros Hw; by destruct (Hx' q)]. intros (w & Hw & E)%(to_children _ HV q qv x Hq). congruence.
  - intros q qv [(-> & -> & _)|(_ & _ & Hq)]%Hl; [|by eapply to_NoDup].
    apply NoDup_erase_first. by eapply to_NoDup.
  - intros y w [(-> & -> & _)|(_ & _ & Hw)]%Hl; [by apply (to_depth _ HV p pv)|by apply (to_depth _ HV y)].
Qed.
End tree.

Lemma take_S_r' {A} (l : list A) i : (i < length l)%nat -> exists c, take (S i) l = take i l ++ [c].
Proof. intros Hi. destruct (lookup_lt_is_Some_2 l i Hi) as [c Hc]. exists c. by apply take_S_r. Qed.

(** ** Lookup *)
Section NameTree_lookup.
Context `{HashFunction} `{TableEntries T}.
Context (o : HashtableOptions) (limit : Z) (counts : list Z) (Hcounts : counts_ok o limit counts = true).
Abbreviation NameTree := (Hashtable T).
Implicit Types (h : NameTree) (x : nat).

Definition tview_of (n : Node T) : tview := mkTview (nd_name n) (nd_parent n) (nd_children n).
Definition tviews h : gmap nat tview := tview_of <$> ht_nodes h.

Record nt_inv h : Prop := {
  ni_table : ht_inv o counts h;
  ni_tree : tree_ok (tviews h);
}.

Lemma tviews_lookup h x n : ht_nodes h !! x = Some n -> tviews h !! x = Some (tview_of n).
Proof. intros Hx. unfold tviews. by rewrite lookup_fmap, Hx. Qed.
Lemma tviews_inv h x v : tviews h !! x = Some v -> exists n, ht_nodes h !! x = Some n /\ v = tview_of n.
Proof. unfold tviews. rewrite lookup_fmap. intros (n & Hx & ->)%fmap_Some. by eauto. Qed.
Lemma tviews_store x n h : tviews (store_node x n h) = <[x := tview_of n]> (tviews h).
Proof. unfold tviews. cbn. by rewrite fmap_insert. Qed.
Lemma tview_of_content n : tview_of (content n) = tview_of n.
Proof. done. Qed.
Lemma tviews_same_but h h' x n :
  same_but h h' x -> content <$> ht_nodes h' !! x = Some n -> tviews h' = <[x := tview_of n]> (tviews h).
Proof.
  intros Hsb Hx. apply map_eq. intros y. unfold tviews. destruct (decide (y = x)) as [->|Hy].
  - rewrite lookup_insert_eq, lookup_fmap. destruct (ht_nodes h' !! x) as [m|]; [|done].
    injection Hx as <-. by rewrite tview_of_content.
  - rewrite lookup_insert_ne, !lookup_fmap by done. specialize (Hsb y Hy).
    destruct (ht_nodes h !! y) as [m|], (ht_nodes h' !! y) as [m'|]; try done. cbn in *.
    injection Hsb as Hm. f_equal. unfold tview_of. congruence.
Qed.

Lemma setParent_ok h x n p pn c :
  ht_inv o counts h -> ht_nodes h !! x = Some n -> ht_nodes h !! p = Some pn -> x <> p ->
  nd_parent n = None -> nd_name n = nd_name pn ++ [c] -> (length (nd_name n) <= getMaxDepth)%nat ->
  let h' := store_node p (set_children (nd_children pn ++ [x]) pn) (store_node x (set_parent (Some p) n) h) in
  entry_setParent x p h = Ok h' /\ ht_inv o counts h'.
Proof.
  intros Hi Hx Hp Hxp Hpar Hname Hlen h'.
  assert (Hp' : ht_nodes (store_node x (set_parent (Some p) n) h) !! p = Some pn).
  { cbn. by rewrite lookup_insert_ne. }
  split.
  - unfold entry_setParent, deref. rewrite Hx, Hp. cbn [mbind result_bind].
    rewrite bool_decide_true by done. rewrite (bool_decide_false (nd_name n = [])) by (rewrite Hname; by destruct (nd_name pn)).
    cbn [negb]. rewrite getPrefix_minus1 by (unfold zlen, getMaxDepth in *; lia).
    rewrite (proj2 (name_equals_spec _ _)); [|rewrite Hname, length_app; cbn; by rewrite Nat.add_sub, take_app_length].
    by rewrite Hp'.
  - apply (update_ok o counts _ p pn); [|done..].
    by apply (update_ok o counts h x n).
Qed.

(** What [lookup] may do to the other entries. *)
Record grown h h' (P : Name -> Prop) : Prop := {
  gr_kept y n : ht_nodes h !! y = Some n -> exists n', ht_nodes h' !! y = Some n' /\
    nd_name n' = nd_name n /\ nd_parent n' = nd_parent n /\ nd_tables n' = nd_tables n;
  gr_new y n' : ht_nodes h' !! y = Some n' -> ht_nodes h !! y = None ->
    P (nd_name n') /\ nd_tables n' = no_tables;
}.

Lemma grown_refl h P : grown h h P.
Proof. split; [by eauto 10|]. intros y n' H1 H2. congruence. Qed.
Lemma grown_trans h1 h2 h3 P : grown h1 h2 P -> grown h2 h3 P -> grown h1 h3 P.
Proof.
  intros [K1 N1] [K2 N2]. split.
  - intros y n Hy. destruct (K1 y n Hy) as (n' & Hy' & <- & <- & <-). by apply K2.
  - intros y n' Hy' Hy. destruct (ht_nodes h2 !! y) as [m|] eqn:E; [|by apply N2 in Hy'].
    destruct (K2 y m E) as (m' & Hm' & En & _ & Et). simplify_eq. rewrite En, Et. by apply (N1 y).
Qed.
Lemma grown_weaken h h' (P Q : Name -> Prop) : (forall m, P m -> Q m) -> grown h h' P -> grown h h' Q.
Proof. intros HPQ [K N]. split; [done|]. intros y n' H1 H2. destruct (N y n' H1 H2). auto. Qed.

Lemma grown_at_name h h' P x name : grown h h' P -> at_name h x name -> at_name h' x name.
Proof. intros [K _] (n & Hx & <-). destruct (K x n Hx) as (n' & Hx' & E & _). by exists n'. Qed.

Lemma content_eq (n m : Node T) : content n = m ->
  nd_name n = nd_name m /\ nd_parent n = nd_parent m /\ nd_children n = nd_children m /\ nd_tables n = nd_tables m.
Proof. by intros <-. Qed.

Lemma grown_insert h h' x name t :
  ht_nodes h !! x = None -> same_but h h' x -> t = no_tables ->
  (forall n, ht_nodes h' !! x = Some n -> nd_name n = name /\ nd_tables n = t) ->
  grown h h' (eq name).
Proof.
  intros Hx Hsb -> Hn. split.
  - intros y n Hy. assert (Hyx : y <> x) by congruence. specialize (Hsb y Hyx). rewrite Hy in Hsb.
    destruct (ht_nodes h' !! y) as [n'|]; [|done]. apply (inj Some) in Hsb.
    apply content_eq in Hsb as (E1 & E2 & _ & E3). by exists n'.
  - intros y n' Hy' Hy. destruct (decide (y = x)) as [->|Hyx].
    + destruct (Hn n' Hy') as [<- ->]. done.
    + specialize (Hsb y Hyx). by rewrite Hy, Hy' in Hsb.
Qed.

Lemma grown_setParent h x n p pn :
  ht_nodes h !! x = Some n -> ht_nodes h !! p = Some pn -> x <> p -> forall h0,
  ht_nodes h0 !! x = None -> grown h0 h (eq (nd_name n)) ->
  grown h0 (store_node p (set_children (nd_children pn ++ [x]) pn) (store_node x (set_parent (Some p) n) h)) (eq (nd_name n)).
Proof.
  intros Hx Hp Hxp h0 Hx0 [K N]. cbn. split; cbn.
  - intros y m Hy. destruct (K y m Hy) as (m' & Hm' & E). destruct (decide (y = p)) as [->|Hyp].
    + rewrite lookup_insert_eq. simplify_eq. eexists. split; [done|]. exact E.
    + rewrite !lookup_insert_ne by congruence. by eauto.
  - intros y m [[<- <-]|[Hyp [[<- <-]|[Hyx Hm]]%lookup_insert_Some]]%lookup_insert_Some Hy; cbn.
    + by apply (N p).
    + split; [done|]. by apply (N x).
    + by apply (N y).
Qed.

Definition parent_of h (parent : option nat) (name : Name) (i : nat) : Prop :=
  match parent with
  | None => i = 0%nat
  | Some p => exists j, i = S j /\ at_name h p (take j name)
  end.

Lemma lookup_step_new h name i parent :
  nt_inv h -> (i <= length name)%nat -> (i <= getMaxDepth)%nat -> m_htSize h < limit ->
  parent_of h parent name i -> (forall x, ~ at_name h x (take i name)) ->
  exists x h1 h2, findOrInsert name i (computeHash name i) true h = Ok (Some x, true, h1) /\
    match parent with Some p => entry_setParent x p h1 | None => Ok h1 end = Ok h2 /\
    nt_inv h2 /\ at_name h2 x (take i name) /\ grown h h2 (eq (take i name)) /\ m_htSize h2 = m_htSize h + 1.
Proof.
  intros [Hi Ht] Hl Hd Hlim Hpar Hnone.
  assert (Hlen : length (take i name) = i) by (rewrite length_take; lia).
  destruct (insert_ok o limit counts Hcounts h name i Hi Hlim) as (x & h1 & E & Hi1 & Hx & Hsz & Hsb & Hnew); [lia|done|].
  pose proof (tviews_same_but _ _ _ _ Hsb Hnew) as HV. cbn in HV.
  destruct (ht_nodes h1 !! x) as [n|] eqn:Hx1; [|done]. apply (inj Some) in Hnew. apply content_eq in Hnew.
  cbn in Hnew. destruct Hnew as (Hn1 & Hn2 & Hn3 & Hn4).
  assert (Hg : grown h h1 (eq (take i name))).
  { apply (grown_insert h h1 x _ no_tables); [done|done|done|]. intros m Hm. by simplify_eq. }
  exists x, h1. destruct parent as [p|].
  - destruct Hpar as (j & -> & (pn0 & Hp0 & Hname)).
    assert (Hxp : x <> p) by congruence.
    destruct (gr_kept _ _ _ Hg p pn0 Hp0) as (pn & Hp & Epn & _).
    destruct (take_S_r' name j) as (c & Hc); [lia|].
    destruct (setParent_ok h1 x n p pn c Hi1 Hx1 Hp Hxp Hn2) as [E2 Hi2].
    { rewrite Hn1, Epn, Hname. exact Hc. }
    { rewrite Hn1. lia. }
    eexists. split; [done|]. split; [exact E2|]. split; [|split; [|split; [|done]]].
    + split; [done|]. rewrite !tviews_store, HV. rewrite (insert_insert_eq (tviews h)).
      assert (Hpv : tviews h !! p = Some (tview_of pn)).
      { specialize (Hsb p ltac:(congruence)). unfold tviews. rewrite lookup_fmap, Hp0. rewrite Hp, Hp0 in Hsb.
        apply (inj Some) in Hsb. cbn. f_equal. symmetry. unfold tview_of. apply content_eq in Hsb as (-> & -> & -> & _). done. }
      replace (tview_of (set_parent (Some p) n)) with (mkTview (take (S j) name) (Some p) [])
        by (unfold tview_of; cbn; by rewrite Hn1, Hn3).
      apply (tree_link (tviews h) x p (tview_of pn) _ c); [done| |done| |lia].
      * unfold tviews. by rewrite lookup_fmap, Hx.
      * cbn. rewrite Epn, Hname. exact Hc.
    + exists (set_parent (Some p) n). cbn. by rewrite lookup_insert_ne, lookup_insert_eq by done.
    + rewrite <- Hn1. apply grown_setParent; [done|done|done|done|by rewrite Hn1].
  - cbn in Hpar. subst i. exists h1. split; [done|]. split; [done|]. split; [|split; [by exists n|split; [done|done]]].
    split; [done|]. rewrite HV. apply tree_add; [done| |done|cbn; lia|done|done].
    unfold tviews. by rewrite lookup_fmap, Hx.
Qed.

Lemma lookup_step h name k i parent :
  nt_inv h -> (i <= k)%nat -> (i <= length name)%nat -> (i <= getMaxDepth)%nat -> m_htSize h < limit ->
  parent_of h parent name i ->
  exists x isNew h1 h2, ht_insert name i (computeHashes name k) h = Ok (Some x, isNew, h1) /\
    match parent with Some p => if isNew then entry_setParent x p h1 else Ok h1 | None => Ok h1 end = Ok h2 /\
    nt_inv h2 /\ at_name h2 x (take i name) /\ grown h h2 (eq (take i name)) /\ m_htSize h2 <= m_htSize h + 1.
Proof.
  intros Hi Hk Hl Hd Hlim Hpar. unfold ht_insert. rewrite hash_at_ok by done. cbn [mbind result_bind].
  destruct (find_ok o counts h name i (ni_table _ Hi)) as ([x|] & Ef & _ & Hr).
  - exists x, false, h, h. rewrite (found_ok o counts h name i x (ni_table _ Hi) Ef).
    split; [done|]. split; [by destruct parent|]. split; [done|]. split; [done|]. split; [apply grown_refl|lia].
  - destruct (lookup_step_new h name i parent Hi Hl Hd Hlim Hpar Hr) as (x & h1 & h2 & E1 & E2 & Hi2 & Ha & Hg & Hs).
    exists x, true, h1, h2. split; [done|]. split; [done|]. split; [done|]. split; [done|]. split; [done|lia].
Qed.

Lemma lookup_loop_ok name k c : forall i h parent,
  nt_inv h -> parent_of h parent name i -> (i + c = S k)%nat -> (k <= length name)%nat -> (k <= getMaxDepth)%nat ->
  m_htSize h + Z.of_nat c <= limit ->
  exists r h', lookup_loop (seq i c) name (computeHashes name k) parent h = Ok (r, h') /\ nt_inv h' /\
    parent_of h' r name (S k) /\ grown h h' (fun m => m `prefix_of` take k name) /\
    m_htSize h' <= m_htSize h + Z.of_nat c.
Proof.
  induction c as [|c IH]; intros i h parent Hi Hpar Hic Hl Hd Hlim.
  - exists parent, h. replace (S k) with i by lia. split; [done|]. split; [done|]. split; [done|].
    split; [apply grown_refl|lia].
  - destruct (lookup_step h name k i parent Hi) as (x & isNew & h1 & h2 & E1 & E2 & Hi2 & Ha & Hg & Hs); [lia|lia|lia|lia|done|].
    destruct (IH (S i) h2 (Some x) Hi2) as (r & h3 & E3 & Hi3 & Hp3 & Hg3 & Hs3); [by exists i|lia|done|done|lia|].
    exists r, h3. cbn [seq lookup_loop]. rewrite E1. cbn [mbind result_bind]. rewrite E2. cbn [mbind result_bind].
    split; [done|]. split; [done|]. split; [done|]. split; [|lia].
    eapply grown_trans; [|exact Hg3]. eapply grown_weaken; [|exact Hg]. intros m <-.
    exists (drop i (take k name)). rewrite <- (take_drop i (take k name)) at 1. f_equal. rewrite take_take. f_equal. lia.
Qed.

Lemma lookup_ok h name k :
  nt_inv h -> (k <= length name)%nat -> (k <= getMaxDepth)%nat -> m_htSize h + Z.of_nat (S getMaxDepth) <= limit ->
  exists x h', nt_lookup name k h = Ok (x, h') /\ nt_inv h' /\ at_name h' x (take k name) /\
    grown h h' (fun m => m `prefix_of` take k name) /\ m_htSize h' <= m_htSize h + Z.of_nat (S getMaxDepth).
Proof.
  intros Hi Hl Hd Hlim.
  destruct (lookup_loop_ok name k (S k) 0 h None Hi) as (r & h' & E & Hi' & Hp & Hg & Hs); [done|done|done|done|lia|].
  destruct r as [x|]; [|done]. destruct Hp as (j & [= ->] & Ha). exists x, h'.
  unfold nt_lookup. rewrite (proj2 (Nat.leb_le _ _) Hl), (proj2 (Nat.leb_le _ _) Hd), E.
  split; [done|]. split; [done|]. split; [done|]. split; [done|lia].
Qed.

(** ** What the tables see

    The table entries at a name; a name without entry has none. *)
Definition tables_at h (name : Name) : T :=
  match ht_map h !! name ≫= fun x => ht_nodes h !! x with
  | Some n => nd_tables n
  | None => no_tables
  end.

Lemma tables_at_present h x n :
  ht_inv o counts h -> ht_nodes h !! x = Some n -> tables_at h (nd_name n) = nd_tables n.
Proof.
  intros Hi Hx. unfold tables_at. rewrite (proj2 (ht_map_at h (nd_name n) x (hi_data _ _ _ Hi))); [|by exists n].
  cbn. by rewrite Hx.
Qed.
Lemma tables_at_absent h name :
  ht_inv o counts h -> (forall x, ~ at_name h x name) -> tables_at h name = no_tables.
Proof. intros Hi Hn. unfold tables_at. by rewrite (proj2 (ht_map_None h name (hi_data _ _ _ Hi)) Hn). Qed.

(** The entry of a name, or none. *)
Lemma at_name_dec h name : ht_inv o counts h -> (exists x, at_name h x name) \/ (forall x, ~ at_name h x name).
Proof.
  intros Hi. destruct (ht_map h !! name) as [x|] eqn:E.
  - left. exists x. by apply ht_map_at; [apply Hi|].
  - right. by apply ht_map_None; [apply Hi|].
Qed.

Lemma tables_at_grown h h' P :
  ht_inv o counts h -> ht_inv o counts h' -> grown h h' P -> forall name, tables_at h' name = tables_at h name.
Proof.
  intros Hi Hi' [K N] name. destruct (at_name_dec h name Hi) as [(x & n & Hx & <-)|Hno].
  - destruct (K x n Hx) as (n' & Hx' & En & _ & Et). rewrite <- En at 1.
    by rewrite (tables_at_present h' x n'), (tables_at_present h x n).
  - rewrite (tables_at_absent h name Hi Hno). destruct (at_name_dec h' name Hi') as [(x & n & Hx & <-)|Hno'].
    + rewrite (tables_at_present h' x n) by done. destruct (ht_nodes h !! x) as [m|] eqn:E.
      * exfalso. apply (Hno x). destruct (K x m E) as (m' & Hm' & Em & _). simplify_eq. by exists m.
      * by apply (N x).
    + by apply tables_at_absent.
Qed.
End NameTree_lookup.

(** ** Erasure *)
Section NameTree_erase.
Context `{HashFunction} `{TableEntries T} `{!TableEntriesLaws T}.
Context (o : HashtableOptions) (limit : Z) (counts : list Z) (Hcounts : counts_ok o limit counts = true).
Abbreviation NameTree := (Hashtable T).
Abbreviation nt_inv := (nt_inv o counts).
Implicit Types (h : NameTree) (x : nat).

Lemma parent_shorter h x n p pn :
  nt_inv h -> ht_nodes h !! x = Some n -> nd_parent n = Some p -> ht_nodes h !! p = Some pn ->
  exists c, nd_name n = nd_name pn ++ [c].
Proof.
  intros [_ Ht] Hx Hp Hpn. pose proof (to_parent _ Ht x _ (tviews_lookup h x n Hx)) as Hpar.
  cbn in Hpar. rewrite Hp in Hpar. destruct Hpar as (pv & c & Hpv & E).
  rewrite (tviews_lookup h p pn Hpn) in Hpv. simplify_eq. by exists c.
Qed.
Lemma parent_present h x n p :
  nt_inv h -> ht_nodes h !! x = Some n -> nd_parent n = Some p -> exists pn, ht_nodes h !! p = Some pn.
Proof.
  intros [_ Ht] Hx Hp. destruct (tree_parent_present _ x _ p Ht (tviews_lookup h x n Hx) Hp) as [v Hv].
  apply tviews_inv in Hv as (pn & Hpn & _). by eauto.
Qed.
Lemma parent_child h x n p pn :
  nt_inv h -> ht_nodes h !! x = Some n -> nd_parent n = Some p -> ht_nodes h !! p = Some pn -> x ∈ nd_children pn.
Proof.
  intros [_ Ht] Hx Hp Hpn. apply (to_children _ Ht p _ x (tviews_lookup h p pn Hpn)).
  exists (tview_of n). split; [by apply tviews_lookup|done].
Qed.

Lemma unsetParent_ok h x n p pn :
  nt_inv h -> ht_nodes h !! x = Some n -> nd_parent n = Some p -> ht_nodes h !! p = Some pn ->
  let h' := store_node x (set_parent None n) (store_node p (set_children (erase_first (Nat.eqb x) (nd_children pn)) pn) h) in
  x <> p /\ entry_unsetParent x h = Ok h' /\ ht_inv o counts h'.
Proof.
  intros Hi Hx Hp Hpn h'. pose proof (parent_child h x n p pn Hi Hx Hp Hpn) as Hc.
  assert (Hxp : x <> p).
  { intros ->. destruct (parent_shorter h p n p pn Hi Hx Hp Hpn) as (c & E). simplify_eq.
    apply (f_equal length) in E. rewrite length_app in E. cbn in E. lia. }
  assert (Hx' : ht_nodes (store_node p (set_children (erase_first (Nat.eqb x) (nd_children pn)) pn) h) !! x = Some n).
  { cbn. by rewrite lookup_insert_ne. }
  split; [done|]. split.
  - unfold entry_unsetParent, deref. rewrite Hx. cbn [mbind result_bind]. rewrite Hp, Hpn. cbn [mbind result_bind].
    rewrite (proj2 (existsb_exists _ _)); [|exists x; split; [by apply list_elem_of_In|apply Nat.eqb_refl]].
    by rewrite Hx'.
  - apply (update_ok o counts _ x n); [|done..]. by apply (update_ok o counts h p pn); [apply Hi|..].
Qed.

Lemma tviews_deleted h h' x :
  same_but h h' x -> ht_nodes h' !! x = None -> tviews h' = delete x (tviews h).
Proof.
  intros Hsb Hx. apply map_eq. intros y. unfold tviews. destruct (decide (y = x)) as [->|Hy].
  - by rewrite lookup_delete_eq, lookup_fmap, Hx.
  - rewrite lookup_delete_ne, !lookup_fmap by done. specialize (Hsb y Hy).
    destruct (ht_nodes h !! y) as [m|], (ht_nodes h' !! y) as [m'|]; try done.
    apply (inj Some) in Hsb. cbn. f_equal. unfold tview_of. by apply content_eq in Hsb as (-> & -> & -> & _).
Qed.

(** What erasure may do: entries without table entries disappear; the others keep all
    but children. *)
Record shrunk h h' (P : Name -> Prop) : Prop := {
  sk_kept y m' : ht_nodes h' !! y = Some m' -> exists m, ht_nodes h !! y = Some m /\
    nd_name m' = nd_name m /\ nd_parent m' = nd_parent m /\ nd_tables m' = nd_tables m;
  sk_gone y m : ht_nodes h !! y = Some m -> ht_nodes h' !! y = None ->
    P (nd_name m) /\ nd_tables m = no_tables;
}.

Lemma shrunk_refl h P : shrunk h h P.
Proof. split; [by eauto 10|]. intros y m H1 H2. congruence. Qed.
Lemma shrunk_trans h1 h2 h3 P : shrunk h1 h2 P -> shrunk h2 h3 P -> shrunk h1 h3 P.
Proof.
  intros [K1 N1] [K2 N2]. split.
  - intros y m3 Hy. destruct (K2 y m3 Hy) as (m2 & Hm2 & -> & -> & ->). by apply K1.
  - intros y m Hm Hy. destruct (ht_nodes h2 !! y) as [m2|] eqn:E; [|by apply (N1 y)].
    destruct (K1 y m2 E) as (m1 & Hm1 & En & _ & Et). simplify_eq. rewrite <- En, <- Et. by apply (N2 y).
Qed.
Lemma shrunk_weaken h h' (P Q : Name -> Prop) : (forall m, P m -> Q m) -> shrunk h h' P -> shrunk h h' Q.
Proof. intros HPQ [K N]. split; [done|]. intros y m H1 H2. destruct (N y m H1 H2). auto. Qed.

Lemma tables_at_shrunk h h' P :
  ht_inv o counts h -> ht_inv o counts h' -> shrunk h h' P -> forall name, tables_at h' name = tables_at h name.
Proof.
  intros Hi Hi' [K N] name. destruct (at_name_dec o counts h' name Hi') as [(x & n & Hx & <-)|Hno].
  - destruct (K x n Hx) as (n' & Hx' & En & _ & Et). rewrite En at 2.
    by rewrite (tables_at_present o counts h' x n), (tables_at_present o counts h x n').
  - rewrite (tables_at_absent o counts h' name Hi' Hno). destruct (at_name_dec o counts h name Hi) as [(x & n & Hx & <-)|Hno'].
    + rewrite (tables_at_present o counts h x n) by done. destruct (ht_nodes h' !! x) as [m|] eqn:E.
      * exfalso. apply (Hno x). destruct (K x m E) as (m' & Hm' & Em & _). simplify_eq. by exists m.
      * symmetry. by apply (N x).
    + symmetry. by apply (tables_at_absent o counts).
Qed.

Lemma isEmpty_true (n : Node T) : isEmpty n = true -> nd_children n = [] /\ nd_tables n = no_tables.
Proof.
  unfold isEmpty, hasChildren. rewrite negb_involutive. intros [?%bool_decide_eq_true Ht]%andb_true_iff.
  split; [done|]. by apply empty_no_tables, negb_true_iff.
Qed.

Lemma isEmpty_view (n m : Node T) :
  nd_children n = nd_children m -> nd_tables n = nd_tables m -> isEmpty n = isEmpty m.
Proof. intros E1 E2. unfold isEmpty, hasChildren. by rewrite E1, E2. Qed.

Lemma same_but_eq h h' x y m : same_but h h' x -> y <> x -> ht_nodes h' !! y = Some m ->
  exists m0, ht_nodes h !! y = Some m0 /\ nd_name m = nd_name m0 /\ nd_parent m = nd_parent m0 /\
    nd_children m = nd_children m0 /\ nd_tables m = nd_tables m0.
Proof.
  intros Hsb Hy Hm. specialize (Hsb y Hy). rewrite Hm in Hsb. destruct (ht_nodes h !! y) as [m0|]; [|done].
  apply (inj Some) in Hsb. apply content_eq in Hsb as (E1 & E2 & E3 & E4). by exists m0.
Qed.

(** The effect of erasing an entry on the others. *)
Record erased h h' x (n : Node T) : Prop := {
  ed_inv : nt_inv h';
  ed_shrunk : shrunk h h' (eq (nd_name n));
  ed_gone : ht_nodes h' !! x = None;
  ed_size : m_htSize h' = m_htSize h - 1;
  ed_others y m : ht_nodes h' !! y = Some m -> nd_parent n <> Some y ->
    exists m0, ht_nodes h !! y = Some m0 /\ isEmpty m = isEmpty m0;
}.

Lemma erase_root h x n :
  nt_inv h -> ht_nodes h !! x = Some n -> isEmpty n = true -> nd_parent n = None ->
  exists h', ht_erase x h = Ok h' /\ erased h h' x n.
Proof.
  intros Hi Hx [Hc Ht]%isEmpty_true Hp.
  destruct (erase_ok o limit counts Hcounts h x n (ni_table _ _ _ Hi) Hx Hp) as (h2 & E2 & Hi2 & Hx2 & Hsb & Hs2).
  exists h2. split; [done|]. split; [|split|done|done|].
  - split; [done|]. rewrite (tviews_deleted h h2 x Hsb Hx2).
    apply (tree_remove_root (tviews h) x (tview_of n)); [apply Hi|by apply tviews_lookup|done|done].
  - intros y m Hm. destruct (same_but_eq h h2 x y m Hsb) as (m0 & Hm0 & En & Ep & _ & Et); [congruence|done|by eauto 10].
  - intros y m Hm Hy2. destruct (decide (y = x)) as [->|Hyx]; [by simplify_eq|]. exfalso.
    specialize (Hsb y Hyx). by rewrite Hm, Hy2 in Hsb.
  - intros y m Hm _. destruct (same_but_eq h h2 x y m Hsb) as (m0 & Hm0 & _ & _ & Ec & Et); [congruence|done|].
    exists m0. split; [done|]. by apply isEmpty_view.
Qed.

Lemma erase_child h x n p :
  nt_inv h -> ht_nodes h !! x = Some n -> isEmpty n = true -> nd_parent n = Some p ->
  exists h1 h2, entry_unsetParent x h = Ok h1 /\ ht_erase x h1 = Ok h2 /\ erased h h2 x n.
Proof.
  intros Hi Hx [Hc Ht]%isEmpty_true Hp. destruct (parent_present h x n p Hi Hx Hp) as (pn & Hpn).
  destruct (unsetParent_ok h x n p pn Hi Hx Hp Hpn) as (Hxp & E1 & Hi1).
  set (pn' := set_children (erase_first (Nat.eqb x) (nd_children pn)) pn) in *.
  set (h1 := store_node x (set_parent None n) (store_node p pn' h)) in *.
  destruct (erase_ok o limit counts Hcounts h1 x (set_parent None n) Hi1) as (h2 & E2 & Hi2 & Hx2 & Hsb & Hs2);
    [apply lookup_insert_eq|done|].
  assert (Hback : forall y m, ht_nodes h2 !! y = Some m -> exists m0, ht_nodes h !! y = Some m0 /\
    nd_name m = nd_name m0 /\ nd_parent m = nd_parent m0 /\ nd_tables m = nd_tables m0 /\
    (y <> p -> nd_children m = nd_children m0)).
  { intros y m Hm. assert (Hyx : y <> x) by congruence.
    destruct (same_but_eq h1 h2 x y m Hsb Hyx Hm) as (m0 & Hm0 & En & Ep & Ec & Et).
    cbn in Hm0. rewrite lookup_insert_ne in Hm0 by done. apply lookup_insert_Some in Hm0 as [[<- <-]|[Hyp Hm0]].
    - exists pn. cbn in *. by repeat (split; [done|]).
    - exists m0. by repeat (split; [done|]). }
  exists h1, h2. split; [done|]. split; [done|]. split; [|split|done|done|].
  - split; [done|]. rewrite (tviews_deleted h1 h2 x Hsb Hx2). unfold h1. rewrite !tviews_store, delete_insert_eq.
    apply (tree_unlink (tviews h) x (tview_of n) p (tview_of pn)); [apply Hi|by apply tviews_lookup|done|done|by apply tviews_lookup].
  - intros y m Hm. destruct (Hback y m Hm) as (m0 & Hm0 & En & Ep & Et & _). by eauto 10.
  - intros y m Hm Hy2. destruct (decide (y = x)) as [->|Hyx]; [by simplify_eq|]. exfalso.
    assert (is_Some (ht_nodes h1 !! y)) as [m1 Hm1].
    { cbn. rewrite lookup_insert_ne by done. destruct (decide (y = p)) as [->|]; [rewrite lookup_insert_eq; by eauto|].
      rewrite lookup_insert_ne by done. by eauto. }
    specialize (Hsb y Hyx). by rewrite Hm1, Hy2 in Hsb.
  - intros y m Hm Hyp. destruct (Hback y m Hm) as (m0 & Hm0 & _ & _ & Et & Ec).
    exists m0. split; [done|]. apply isEmpty_view; [|done]. apply Ec. congruence.
Qed.

Lemma erase_step h x n :
  nt_inv h -> ht_nodes h !! x = Some n -> isEmpty n = true ->
  exists h1 h2, match nd_parent n with Some _ => entry_unsetParent x h | None => Ok h end = Ok h1 /\
    ht_erase x h1 = Ok h2 /\ erased h h2 x n.
Proof.
  intros Hi Hx He. destruct (nd_parent n) as [p|] eqn:Hp; [by eapply erase_child|].
  destruct (erase_root h x n Hi Hx He Hp) as (h2 & E & Hd). by exists h, h2.
Qed.

(** Every entry but one is needed: it has children or table entries. *)
Definition tight_but h (e : option nat) : Prop :=
  forall y m, ht_nodes h !! y = Some m -> e <> Some y -> isEmpty m = false.

Lemma erase_loop_ok fuel : forall h x n (can : bool) nErased,
  nt_inv h -> ht_nodes h !! x = Some n -> (length (nd_name n) < fuel)%nat ->
  exists k h', erase_loop fuel (Some x) can nErased h = Ok (nErased + k, h') /\ nt_inv h' /\
    shrunk h h' (fun m => m `prefix_of` nd_name n) /\ 0 <= k /\ m_htSize h' = m_htSize h - k /\
    (isEmpty n = false -> h' = h /\ k = 0) /\ (isEmpty n = true -> ht_nodes h' !! x = None) /\
    (can = true -> tight_but h (Some x) -> tight_but h' None).
Proof.
  induction fuel as [|fuel IH]; intros h x n can nErased Hi Hx Hf; [lia|].
  cbn [erase_loop]. unfold deref. rewrite Hx. cbn [mbind result_bind].
  destruct (isEmpty n) eqn:He; cbn [negb].
  2: { exists 0, h. rewrite Z.add_0_r. split; [done|]. split; [done|]. split; [apply shrunk_refl|].
       split; [lia|]. split; [lia|]. split; [done|]. split; [done|].
       intros _ Htb y m Hm _. destruct (decide (y = x)) as [->|]; [by simplify_eq|]. apply (Htb y m Hm). congruence. }
  destruct (erase_step h x n Hi Hx He) as (h1 & h2 & -> & Ee & [Hi2 Hsh Hx2 Hs2 Hoth]). cbn [mbind result_bind].
  rewrite Ee. cbn [mbind result_bind].
  assert (Hsh' : shrunk h h2 (fun m => m `prefix_of` nd_name n)) by (eapply shrunk_weaken; [|done]; by intros m <-).
  destruct can; cbn [negb].
  2: { exists 1, h2. split; [done|]. split; [done|]. split; [done|]. split; [lia|]. split; [lia|]. by split. }
  destruct (nd_parent n) as [p|] eqn:Hp.
  - destruct (parent_present h x n p Hi Hx Hp) as (pn & Hpn).
    destruct (parent_shorter h x n p pn Hi Hx Hp Hpn) as (c & En).
    assert (exists pn2, ht_nodes h2 !! p = Some pn2 /\ nd_name pn2 = nd_name pn) as (pn2 & Hpn2 & En2).
    { destruct (ht_nodes h2 !! p) as [pn2|] eqn:E2.
      - destruct (sk_kept _ _ _ Hsh p pn2 E2) as (m & Hm & En2 & _). simplify_eq. by exists pn2.
      - destruct (sk_gone _ _ _ Hsh p pn Hpn E2) as [E _]. rewrite E in En.
        apply (f_equal length) in En. rewrite length_app in En. cbn in En. lia. }
    destruct (IH h2 p pn2 true (nErased + 1) Hi2 Hpn2) as (k & h3 & E3 & Hi3 & Hsh3 & Hk & Hs3 & _ & _ & Ht3).
    { rewrite En2. rewrite En, length_app in Hf. cbn in Hf. lia. }
    exists (1 + k), h3. split; [by rewrite E3, Z.add_assoc|]. split; [done|]. split; [|split; [lia|split; [lia|split; [done|]]]].
    + eapply shrunk_trans; [done|]. eapply shrunk_weaken; [|exact Hsh3]. intros m Hm. rewrite En2 in Hm.
      etrans; [exact Hm|]. rewrite En. by exists [c].
    + split.
      * intros _. destruct (ht_nodes h3 !! x) as [m|] eqn:E; [|done].
        destruct (sk_kept _ _ _ Hsh3 x m E) as (m' & Hm' & _). congruence.
      * intros _ Htb. apply Ht3; [done|]. intros y m Hm Hyp. destruct (Hoth y m Hm Hyp) as (m0 & Hm0 & ->).
        apply (Htb y m0 Hm0). congruence.
  - exists 1, h2. split; [by destruct fuel|]. split; [done|]. split; [done|]. split; [lia|]. split; [lia|]. split; [done|]. split; [done|].
    intros _ Htb y m Hm _. destruct (Hoth y m Hm) as (m0 & Hm0 & ->); [done|]. apply (Htb y m0 Hm0). congruence.
Qed.
End NameTree_erase.

(** ** Longest prefix match *)
Section NameTree_match.
Context `{HashFunction} `{TableEntries T} `{!TableEntriesLaws T}.
Context (o : HashtableOptions) (counts : list Z).
Abbreviation NameTree := (Hashtable T).
Abbreviation nt_inv := (nt_inv o counts).
Implicit Types (h : NameTree) (x : nat) (sel : Node T -> bool).

(** The entry with the longest name among the selected entries whose name is a prefix. *)
Definition is_lpm h (name : Name) sel (r : option nat) : Prop :=
  match r with
  | Some x => exists n, ht_nodes h !! x = Some n /\ sel n = true /\ nd_name n `prefix_of` name /\
      forall y m, ht_nodes h !! y = Some m -> sel m = true -> nd_name m `prefix_of` name ->
        (length (nd_name m) <= length (nd_name n))%nat
  | None => forall y m, ht_nodes h !! y = Some m -> nd_name m `prefix_of` name -> sel m = false
  end.

Lemma prefix_same_length {A} (l1 l2 l : list A) :
  l1 `prefix_of` l -> l2 `prefix_of` l -> length l1 = length l2 -> l1 = l2.
Proof.
  intros [k1 ->] [k2 E] Hl. by apply app_inj_1 in E as [-> _].
Qed.

Lemma is_lpm_unique h name sel r1 r2 :
  ht_inv o counts h -> is_lpm h name sel r1 -> is_lpm h name sel r2 -> r1 = r2.
Proof.
  intros Hi H1 H2. destruct r1 as [x|], r2 as [y|]; cbn in H1, H2; [| | |done].
  - destruct H1 as (n & Hx & Sn & Pn & Ln), H2 as (m & Hy & Sm & Pm & Lm). f_equal.
    apply (do_names _ _ (hi_data _ _ _ Hi) x y n m Hx Hy). apply (prefix_same_length _ _ name); [done|done|].
    pose proof (Ln y m Hy Sm Pm). pose proof (Lm x n Hx Sn Pn). lia.
  - destruct H1 as (n & Hx & Sn & Pn & _). by rewrite (H2 x n Hx Pn) in Sn.
  - destruct H2 as (n & Hx & Sn & Pn & _). by rewrite (H1 y n Hx Pn) in Sn.
Qed.

Lemma prefix_of_take {A} (l : list A) i : take i l `prefix_of` l.
Proof. exists (drop i l). by rewrite take_drop. Qed.

Lemma entry_depth h x n : nt_inv h -> ht_nodes h !! x = Some n -> (length (nd_name n) <= getMaxDepth)%nat.
Proof. intros [_ Ht] Hx. apply (to_depth _ Ht x _ (tviews_lookup h x n Hx)). Qed.

Lemma ht_find_hashes_ok h name k i :
  ht_inv o counts h -> (i <= k)%nat -> (i <= length name)%nat ->
  ht_find_hashes name i (computeHashes name k) h = Ok (ht_map h !! take i name).
Proof.
  intros Hi Hk Hl. unfold ht_find_hashes. rewrite hash_at_ok by done. cbn [mbind result_bind].
  destruct (find_ok o counts h name i Hi) as (r & _ & -> & Hr). cbn [mbind result_bind]. f_equal.
  symmetry. destruct r as [x|]; [by apply ht_map_at; [apply Hi|]|by apply ht_map_None; [apply Hi|]].
Qed.

(** No selected entry at a prefix of at least [i] components. *)
Definition none_from h (name : Name) sel (i : nat) : Prop :=
  forall y m, ht_nodes h !! y = Some m -> nd_name m `prefix_of` name -> (i <= length (nd_name m))%nat -> sel m = false.

Lemma lpm_probe_ok h name k sel i :
  ht_inv o counts h -> (i <= k)%nat -> (i <= length name)%nat -> none_from h name sel (S i) ->
  exists r, lpm_probe i name (computeHashes name k) sel h = Ok r /\
    match r with Some x => is_lpm h name sel (Some x) | None => none_from h name sel i end.
Proof.
  intros Hi Hk Hl Hlong. unfold lpm_probe. rewrite ht_find_hashes_ok by done. cbn [mbind result_bind].
  assert (Hnone : (forall x n, ht_nodes h !! x = Some n -> nd_name n = take i name -> sel n = false) -> none_from h name sel i).
  { intros Hf y m Hm Hp Hlen. destruct (decide (length (nd_name m) = i)) as [E|]; [|apply (Hlong y m Hm Hp); lia].
    apply (Hf y m Hm). destruct Hp as [k' ->]. by rewrite <- E, take_app_length. }
  destruct (ht_map h !! take i name) as [x|] eqn:E.
  - apply ht_map_at in E as (n & Hx & En); [|apply Hi]. unfold deref. rewrite Hx. cbn [mbind result_bind].
    destruct (sel n) eqn:Es.
    + exists (Some x). split; [done|]. exists n. split; [done|]. split; [done|].
      split; [rewrite En; apply prefix_of_take|]. intros y m Hm Hs Hp.
      destruct (decide (length (nd_name m) <= length (nd_name n))%nat) as [|Hgt]; [done|].
      rewrite (Hlong y m Hm Hp) in Hs; [done|]. rewrite En, length_take in Hgt. lia.
    + exists None. split; [done|]. apply Hnone. intros y m Hm Em.
      rewrite (do_names _ _ (hi_data _ _ _ Hi) y x m n Hm Hx) in Hm by congruence. congruence.
  - exists None. split; [done|]. apply Hnone. intros y m Hm Em. exfalso.
    apply (proj1 (ht_map_None h _ (hi_data _ _ _ Hi)) E y). by exists m.
Qed.

Lemma lpm_loop_ok h name k sel i :
  ht_inv o counts h -> (i <= k)%nat -> (i <= length name)%nat -> none_from h name sel (S i) ->
  exists r, lpm_loop i name (computeHashes name k) sel h = Ok r /\ is_lpm h name sel r.
Proof.
  intros Hi. induction i as [|i IH]; intros Hk Hl Hlong;
    (destruct (lpm_probe_ok h name k sel _ Hi Hk Hl Hlong) as ([x|] & E & Hr);
     cbn [lpm_loop]; rewrite E; cbn [mbind result_bind]; [by exists (Some x)|]).
  - exists None. split; [done|]. intros y m Hm Hp. apply (Hr y m Hm Hp). lia.
  - apply IH; [lia|lia|done].
Qed.

Lemma lpm_ok h name sel :
  nt_inv h -> exists r, findLongestPrefixMatch name sel h = Ok r /\ is_lpm h name sel r.
Proof.
  intros Hi. unfold findLongestPrefixMatch. apply lpm_loop_ok; [apply Hi|lia|lia|].
  intros y m Hm Hp Hlen. pose proof (entry_depth h y m Hi Hm). apply prefix_length in Hp. lia.
Qed.

Lemma findExactMatch_ok h name k :
  nt_inv h -> findExactMatch name k h = Ok (ht_map h !! take k name).
Proof.
  intros Hi. unfold findExactMatch.
  assert (Et : take (length name `min` k) name = take k name).
  { destruct (decide (k <= length name)%nat); [by rewrite Nat.min_r by lia|].
    rewrite Nat.min_l, !take_ge by lia. done. }
  destruct (getMaxDepth <? length name `min` k)%nat eqn:E.
  - apply Nat.ltb_lt in E. f_equal. symmetry. apply ht_map_None; [apply Hi|]. intros x (n & Hx & En).
    pose proof (entry_depth h x n Hi Hx) as Hd. rewrite En, length_take in Hd. lia.
  - destruct (find_ok o counts h name (length name `min` k) (ni_table _ _ _ Hi)) as (r & -> & _ & Hr). f_equal.
    rewrite Et in Hr. symmetry. destruct r as [x|]; [by apply ht_map_at; [apply Hi|]|by apply ht_map_None; [apply Hi|]].
Qed.

(** *** Up the tree *)

Lemma root_name h x n : nt_inv h -> ht_nodes h !! x = Some n -> nd_parent n = None -> nd_name n = [].
Proof.
  intros [_ Ht] Hx Hp. pose proof (to_parent _ Ht x _ (tviews_lookup h x n Hx)) as Hpar. cbn in Hpar. by rewrite Hp in Hpar.
Qed.

Lemma prefix_snoc_inv {A} (l l' : list A) c : l `prefix_of` l' ++ [c] -> l = l' ++ [c] \/ l `prefix_of` l'.
Proof.
  intros [k E]. destruct k as [|d k _] using rev_ind; [left; by rewrite app_nil_r in E|].
  rewrite app_assoc in E. apply app_inj_tail in E as [-> _]. right. by exists k.
Qed.

Lemma lpm_up_ok fuel : forall h x n sel,
  nt_inv h -> ht_nodes h !! x = Some n -> (length (nd_name n) < fuel)%nat ->
  exists r, lpm_up fuel (Some x) sel h = Ok r /\ is_lpm h (nd_name n) sel r.
Proof.
  induction fuel as [|fuel IH]; intros h x n sel Hi Hx Hf; [lia|].
  cbn [lpm_up]. unfold deref. rewrite Hx. cbn [mbind result_bind]. destruct (sel n) eqn:Es.
  - exists (Some x). split; [done|]. exists n. split; [done|]. split; [done|]. split; [done|].
    intros y m _ _ Hp. by apply prefix_length.
  - assert (Hself : forall y m, ht_nodes h !! y = Some m -> nd_name m = nd_name n -> sel m = false).
    { intros y m Hm Em. rewrite (do_names _ _ (hi_data _ _ _ (ni_table _ _ _ Hi)) y x m n Hm Hx Em) in Hm. congruence. }
    destruct (nd_parent n) as [p|] eqn:Hp.
    + destruct (parent_present o counts h x n p Hi Hx Hp) as (pn & Hpn).
      destruct (parent_shorter o counts h x n p pn Hi Hx Hp Hpn) as (c & En).
      destruct (IH h p pn sel Hi Hpn) as (r & E & Hr); [rewrite En, length_app in Hf; cbn in Hf; lia|].
      exists r. split; [done|]. rewrite En in *. destruct r as [y|]; cbn in *.
      * destruct Hr as (m & Hy & Hs & Hpre & Hlen). exists m. split; [done|]. split; [done|].
        split; [etrans; [exact Hpre|by exists [c]]|]. intros z w Hw Hsw [Ew|Hpw]%prefix_snoc_inv; [|by apply (Hlen z)].
        by rewrite (Hself z w Hw Ew) in Hsw.
      * intros y m Hm [Em|Hpm]%prefix_snoc_inv; [by apply (Hself y)|by apply (Hr y)].
    + exists None. split; [by destruct fuel|]. intros y m Hm Hpre. apply (Hself y m Hm).
      rewrite (root_name h x n Hi Hx Hp) in *. by apply prefix_nil_inv.
Qed.

Lemma lpm_entry_ok h x n sel :
  nt_inv h -> ht_nodes h !! x = Some n ->
  exists r, findLongestPrefixMatch_entry x sel h = Ok r /\ is_lpm h (nd_name n) sel r.
Proof.
  intros Hi Hx. apply lpm_up_ok; [done|done|]. pose proof (entry_depth h x n Hi Hx). lia.
Qed.

(** *** From a PIT entry *)

Lemma prefix_closed h name : forall y m, nt_inv h -> ht_nodes h !! y = Some m -> name `prefix_of` nd_name m ->
  exists x, at_name h x name.
Proof.
  intros y m Hi. remember (length (nd_name m)) as k eqn:Ek. revert y m Ek. induction k as [|k IH]; intros y m Ek Hm Hp.
  - destruct (nd_name m) eqn:E; [|done]. apply prefix_nil_inv in Hp as ->. exists y. by exists m.
  - destruct (decide (name = nd_name m)) as [->|Hne]; [exists y; by exists m|].
    destruct (nd_parent m) as [p|] eqn:Hpar.
    + destruct (parent_present o counts h y m p Hi Hm Hpar) as (pn & Hpn).
      destruct (parent_shorter o counts h y m p pn Hi Hm Hpar Hpn) as (c & En).
      apply (IH p pn); [|done|].
      * rewrite En, length_app in Ek. cbn in Ek. lia.
      * rewrite En in Hp. apply prefix_snoc_inv in Hp as [->|Hp]; [by rewrite En in Hne|done].
    + rewrite (root_name h y m Hi Hm Hpar) in Ek. done.
Qed.

Lemma prefix_of_take_length {A} (l l' : list A) k : l `prefix_of` l' -> (length l <= k)%nat -> l `prefix_of` take k l'.
Proof.
  intros [r ->] Hl. exists (take (k - length l) r). by rewrite take_app, take_ge by lia.
Qed.

Lemma deeper_ok h name c : forall d nte,
  nt_inv h -> at_name h nte (take d name) -> (d + c = length name `min` getMaxDepth)%nat ->
  exists e x, deeper_loop (seq (S d) c) name nte h = Ok x /\ at_name h x (take e name) /\
    forall y m, ht_nodes h !! y = Some m -> nd_name m `prefix_of` name -> nd_name m `prefix_of` take e name.
Proof.
  induction c as [|c IH]; intros d nte Hi Hat Hc.
  - exists d, nte. split; [done|]. split; [done|]. intros y m Hm Hp. apply prefix_of_take_length; [done|].
    pose proof (entry_depth h y m Hi Hm). apply prefix_length in Hp. lia.
  - cbn [seq deeper_loop]. rewrite findExactMatch_ok by done. cbn [mbind result_bind].
    destruct (ht_map h !! take (S d) name) as [x|] eqn:E.
    + apply ht_map_at in E; [|apply Hi]. destruct (IH (S d) x Hi E) as (e & z & H1 & H2 & H3); [lia|]. by exists e, z.
    + exists d, nte. split; [done|]. split; [done|]. intros y m Hm Hp. apply prefix_of_take_length; [done|].
      destruct (decide (length (nd_name m) <= d)%nat) as [|Hgt]; [done|]. exfalso.
      destruct (prefix_closed h (take (S d) name) y m Hi Hm) as (x & Hx).
      { destruct Hp as [r ->]. rewrite take_app_le by lia. apply prefix_of_take. }
      by apply (proj1 (ht_map_None h _ (hi_data _ _ _ (ni_table _ _ _ Hi))) E x).
Qed.

Lemma lpm_pit_ok h name nte d sel :
  nt_inv h -> at_name h nte (take d name) -> (d <= length name)%nat ->
  exists r, findLongestPrefixMatch_pit name nte sel h = Ok r /\ is_lpm h name sel r.
Proof.
  intros Hi (n & Hn & En) Hd. pose proof (entry_depth h nte n Hi Hn) as Hdep.
  assert (Hln : length (nd_name n) = d) by (rewrite En, length_take; lia).
  unfold findLongestPrefixMatch_pit, deref. rewrite Hn. cbn [mbind result_bind]. rewrite Hln.
  assert (Hdeep : exists e x, (if (d <? length name)%nat then
      deeper_loop (seq (S d) (length name `min` getMaxDepth - d)) name nte h else Ok nte) = Ok x /\ at_name h x (take e name) /\
      forall y m, ht_nodes h !! y = Some m -> nd_name m `prefix_of` name -> nd_name m `prefix_of` take e name).
  { destruct (d <? length name)%nat eqn:E.
    - apply deeper_ok; [done|by exists n|]. apply Nat.ltb_lt in E. lia.
    - apply Nat.ltb_ge in E. exists d, nte. split; [done|]. split; [by exists n|].
      intros y m _ Hp. by rewrite take_ge by lia. }
  destruct Hdeep as (e & x & -> & (k & Hk & Ek) & Hall). cbn [mbind result_bind].
  destruct (lpm_entry_ok h x k sel Hi Hk) as (r & -> & Hr). exists r. split; [done|]. rewrite Ek in Hr.
  destruct r as [z|]; cbn in *.
  - destruct Hr as (w & Hw & Hs & Hp & Hlen). exists w. split; [done|]. split; [done|].
    split; [etrans; [exact Hp|apply prefix_of_take]|]. intros y m Hm Hsm Hpm. apply (Hlen y m Hm Hsm). by apply (Hall y).
  - intros y m Hm Hp. apply (Hr y m Hm). by apply (Hall y).
Qed.

(** *** All prefixes *)

Lemma prefix_advance_ok h x n sel i :
  nt_inv h -> ht_nodes h !! x = Some n -> it_entry i = Some x ->
  exists r, prefix_advance sel h i = Ok (match r with Some y => mkIterator (Some y) (it_ref i) (it_state i) | None => Iterator_end end) /\
    match r with
    | Some y => exists m, ht_nodes h !! y = Some m /\ sel m = true /\ nd_name m `prefix_of` nd_name n /\
        (length (nd_name m) < length (nd_name n))%nat /\
        forall z w, ht_nodes h !! z = Some w -> sel w = true -> nd_name w `prefix_of` nd_name n ->
          nd_name w = nd_name n \/ nd_name w `prefix_of` nd_name m
    | None => forall z w, ht_nodes h !! z = Some w -> sel w = true -> nd_name w `prefix_of` nd_name n -> nd_name w = nd_name n
    end.
Proof.
  intros Hi Hx Hit. unfold prefix_advance. rewrite Hit. unfold deref. rewrite Hx. cbn [mbind result_bind].
  destruct (nd_parent n) as [p|] eqn:Hp.
  - destruct (parent_present o counts h x n p Hi Hx Hp) as (pn & Hpn).
    destruct (parent_shorter o counts h x n p pn Hi Hx Hp Hpn) as (c & En).
    destruct (lpm_up_ok (S getMaxDepth) h p pn sel Hi Hpn) as (r & -> & Hr).
    { pose proof (entry_depth h p pn Hi Hpn). lia. }
    exists r. cbn [mbind result_bind]. split; [by destruct r|]. rewrite En. destruct r as [y|]; cbn in Hr.
    + destruct Hr as (m & Hm & Hs & Hpre & Hlen). exists m. split; [done|]. split; [done|].
      split; [etrans; [exact Hpre|by exists [c]]|]. split; [rewrite length_app; cbn; apply prefix_length in Hpre; lia|].
      intros z w Hw Hsw [E|Hpw]%prefix_snoc_inv; [by left|right]. pose proof (Hlen z w Hw Hsw Hpw) as Hle.
      destruct Hpw as [k1 E1], Hpre as [k2 E2]. rewrite E1 in E2.
      destruct (prefix_weak_total (nd_name w) (nd_name m) (nd_name pn)) as [|H2]; [by exists k1|by rewrite E1; exists k2|done|].
      apply prefix_length in H2 as Hl2. destruct H2 as [k3 E3]. rewrite E3, length_app in Hle.
      destruct k3; [by rewrite E3, app_nil_r|cbn in Hle; lia].
    + intros z w Hw Hsw [E|Hpw]%prefix_snoc_inv; [done|]. by rewrite (Hr z w Hw Hpw) in Hsw.
  - exists None. split; [done|]. intros z w _ _ Hpw. rewrite (root_name h x n Hi Hx Hp) in *. by apply prefix_nil_inv.
Qed.

(** Entries with shorter and shorter names. *)
Definition descends h (l : list nat) : Prop :=
  forall i j x y n m, (i < j)%nat -> l !! i = Some x -> l !! j = Some y ->
    ht_nodes h !! x = Some n -> ht_nodes h !! y = Some m -> (length (nd_name m) < length (nd_name n))%nat.

Lemma collect_prefix_ok fuel : forall h x n sel i,
  nt_inv h -> ht_nodes h !! x = Some n -> sel n = true -> it_entry i = Some x -> (length (nd_name n) < fuel)%nat ->
  exists l, collect fuel (prefix_advance sel h) i = Ok l /\ descends h l /\
    forall y, y ∈ l <-> exists m, ht_nodes h !! y = Some m /\ sel m = true /\ nd_name m `prefix_of` nd_name n.
Proof.
  induction fuel as [|fuel IH]; intros h x n sel i Hi Hx Hs Hit Hf; [lia|]. cbn [collect]. rewrite Hit.
  assert (Hsame : forall y m, ht_nodes h !! y = Some m -> nd_name m = nd_name n -> y = x).
  { intros y m Hm Em. by apply (do_names _ _ (hi_data _ _ _ (ni_table _ _ _ Hi)) y x m n). }
  destruct (prefix_advance_ok h x n sel i Hi Hx Hit) as (r & -> & Hr). cbn [mbind result_bind].
  destruct r as [y|].
  - destruct Hr as (m & Hm & Hsm & Hpm & Hlen & Hall).
    destruct (IH h y m sel (mkIterator (Some y) (it_ref i) (it_state i)) Hi Hm Hsm eq_refl) as (l & -> & Hd & Hl); [lia|].
    exists (x :: l). split; [done|]. split.
    + intros [|a] [|b] u v nu nv Hab Hu Hv Hnu Hnv; [lia| |lia|].
      * cbn in Hu, Hv. simplify_eq. apply list_elem_of_lookup_2, Hl in Hv as (w & Hw & _ & Hpw).
        simplify_eq. apply prefix_length in Hpw. lia.
      * cbn in Hu, Hv. apply (Hd a b u v nu nv); [lia|done..].
    + intros z. rewrite elem_of_cons, Hl. split.
      * intros [->|(w & Hw & Hsw & Hpw)]; [by eauto|]. exists w. split; [done|]. split; [done|]. by etrans.
      * intros (w & Hw & Hsw & Hpw). destruct (Hall z w Hw Hsw Hpw) as [E|Hpm']; [left; by apply (Hsame z w)|by eauto].
  - exists [x]. split; [by destruct fuel|]. split.
    + intros a b u v nu nv Hab Hu Hv. destruct a, b; cbn in Hu, Hv; simplify_eq; lia.
    + intros z. rewrite list_elem_of_singleton. split; [intros ->; by eauto|].
      intros (w & Hw & Hsw & Hpw). apply (Hsame z w Hw). by apply (Hr z).
Qed.

Lemma findAllMatches_ok h name sel :
  nt_inv h -> exists l, findAllMatches name sel h = Ok l /\ descends h l /\
    forall y, y ∈ l <-> exists m, ht_nodes h !! y = Some m /\ sel m = true /\ nd_name m `prefix_of` name.
Proof.
  intros Hi. unfold findAllMatches. destruct (lpm_ok h name sel Hi) as (r & -> & Hr). cbn [mbind result_bind].
  destruct r as [x|]; cbn in Hr.
  - destruct Hr as (n & Hx & Hs & Hp & Hlen). 
    assert (Eb : prefix_advance sel h (mkIterator None (Some x) false) = Ok (mkIterator (Some x) (Some x) false)).
    { unfold prefix_advance, deref. cbn. rewrite Hx. cbn. by rewrite Hs. }
    rewrite Eb. cbn [mbind result_bind].
    destruct (collect_prefix_ok (S getMaxDepth) h x n sel (mkIterator (Some x) (Some x) false)) as (l & E & Hd & Hl);
      [done|done|done|done|pose proof (entry_depth h x n Hi Hx); lia|].
    exists l. split; [exact E|]. split; [done|]. intros y. rewrite Hl. split.
    + intros (m & Hm & Hsm & Hpm). exists m. split; [done|]. split; [done|]. by etrans.
    + intros (m & Hm & Hsm & Hpm). exists m. split; [done|]. split; [done|].
      pose proof (Hlen y m Hm Hsm Hpm) as Hle. rewrite <- (take_ge (nd_name n) (length (nd_name n))) by lia.
      destruct Hp as [k Ek]. rewrite Ek in Hpm.
      apply (prefix_of_take_length _ _ (length (nd_name n))) in Hpm; [|done].
      by rewrite take_app_length in Hpm; rewrite take_ge by lia.
  - exists []. split; [done|]. split; [done|]. intros y. split; [by intros ?%not_elem_of_nil|].
    intros (m & Hm & Hsm & Hpm). by rewrite (Hr y m Hm Hpm) in Hsm.
Qed.

(** *** Enumeration of all entries *)

Definition selected h (pred : Node T -> bool) (y : nat) : bool :=
  match ht_nodes h !! y with Some n => pred n | None => false end.

Lemma scan_list_ok h pred l : forall hd fuel,
  nexts (ht_nodes h) hd l -> (length l <= fuel)%nat ->
  scan_list fuel hd pred h = Ok (find_first (selected h pred) l).
Proof.
  induction l as [|x l IH]; intros hd fuel Hn Hf; [cbn in Hn; subst hd; by destruct fuel|].
  destruct Hn as (-> & n & Hx & Hn). destruct fuel as [|fuel]; [cbn in Hf; lia|]. cbn [scan_list find_first].
  unfold deref, selected at 1. rewrite Hx. cbn [mbind result_bind]. destruct (pred n); [done|]. apply IH; [done|cbn in Hf; lia].
Qed.

Lemma scan_buckets_ok h pred heads ls :
  Forall2 (nexts (ht_nodes h)) heads ls -> Forall (fun l => (length l <= size (ht_nodes h))%nat) ls ->
  scan_buckets heads pred h = Ok (find_first (selected h pred) (concat ls)).
Proof.
  intros Hf. induction Hf as [|hd l heads ls Hn _ IH]; intros Hlen; [done|].
  apply Forall_cons in Hlen as [Hl Hlen]. cbn [scan_buckets concat].
  rewrite (scan_list_ok h pred l), find_first_app by done. cbn [mbind result_bind].
  destruct (find_first (selected h pred) l); [done|by apply IH].
Qed.

Lemma NoDup_split_unique {A} (l1 l2 k1 k2 : list A) (a : A) :
  NoDup (l1 ++ a :: l2) -> l1 ++ a :: l2 = k1 ++ a :: k2 -> l1 = k1 /\ l2 = k2.
Proof.
  revert k1. induction l1 as [|y l1 IH]; intros [|z k1] Hn E; cbn in *; simplify_eq.
  - done.
  - apply NoDup_cons in Hn as [Hx _]. exfalso. apply Hx. apply elem_of_app. right. by left.
  - apply NoDup_cons in Hn as [Hx _]. exfalso. apply Hx. apply elem_of_app. right. by left.
  - apply NoDup_cons in Hn as [_ Hn]. destruct (IH k1 Hn) as [-> ->]; done.
Qed.

Definition it_of (i : Iterator) (r : option nat) : Iterator :=
  match r with Some y => mkIterator (Some y) (it_ref i) (it_state i) | None => Iterator_end end.

(** The part of [advance] that looks for the next entry after [x]. *)
Lemma full_advance_next h cs pred x pre post i :
  linked h cs -> (forall y, y ∈ concat cs <-> is_Some (ht_nodes h !! y)) ->
  concat cs = pre ++ x :: post -> it_entry i = Some x ->
  full_advance pred h i = Ok (it_of i (find_first (selected h pred) post)).
Proof.
  intros Hl Hd Hsp Hit. unfold full_advance. rewrite Hit.
  destruct (elem_of_concat_inv cs x) as (b & l & Hb & Hxl).
  { rewrite Hsp. apply elem_of_app. right. by left. }
  destruct (lk_placed _ _ Hl b l x Hb Hxl) as (n & Hn & Hmod). unfold deref. rewrite Hn. cbn [mbind result_bind].
  apply list_elem_of_split in Hxl as (l1 & l2 & ->).
  destruct (linked_bucket h cs (nd_hash n) Hl) as (_ & _ & Hbi). rewrite Hmod in Hbi.
  assert (Hshort : Forall (fun l => (length l <= size (ht_nodes h))%nat) cs).
  { apply Forall_lookup. intros c k Hk. destruct (concat_insert cs c k [] Hk) as (rest & P & _).
    pose proof (lk_NoDup _ _ Hl) as Hnd. rewrite P in Hnd. apply NoDup_length_nodes; [by apply NoDup_app in Hnd as [? _]|].
    intros y Hy. apply Hd. rewrite P. apply elem_of_app. by left. }
  pose proof (Forall_lookup_1 _ _ _ _ Hshort Hb) as Hlen. cbn in Hlen. rewrite length_app in Hlen. cbn in Hlen.
  destruct (Forall2_lookup_r _ _ _ _ _ (lk_chains _ _ Hl) Hb) as (hd & Hhd & last & Hs).
  apply seg_app in Hs as (m & mid & _ & (-> & nx & (n' & Hn' & [= -> ->])%links_lookup & S2)).
  assert (n' = n) as -> by congruence. apply seg_nexts in S2. rewrite (scan_list_ok h pred l2) by (done || lia). cbn [mbind result_bind].
  assert (E : post = l2 ++ concat (drop (S b) cs)).
  { assert (Hc : concat cs = (concat (take b cs) ++ l1) ++ x :: l2 ++ concat (drop (S b) cs)).
    { rewrite <- (take_drop_middle cs b _ Hb) at 1. rewrite concat_app. cbn [concat]. by rewrite <- !app_assoc. }
    rewrite Hc in Hsp. pose proof (lk_NoDup _ _ Hl) as Hnd. rewrite Hc in Hnd.
    by apply NoDup_split_unique in Hsp as [_ <-]. }
  rewrite E, find_first_app. destruct (find_first (selected h pred) l2) as [y|]; [done|].
  rewrite Hbi. cbn [mbind result_bind]. rewrite (scan_buckets_ok h pred _ (drop (S b) cs)).
  - cbn [mbind result_bind]. by destruct (find_first _ _).
  - apply Forall2_drop. eapply Forall2_impl; [apply Hl|]. intros hd' l' [last' Hs']. by eapply seg_nexts.
  - by apply Forall_drop.
Qed.

Lemma find_first_split {A} (p : A -> bool) l y :
  find_first p l = Some y -> exists l1 l2, l = l1 ++ y :: l2 /\ List.filter p l = y :: List.filter p l2.
Proof.
  induction l as [|z l IH]; cbn; [done|]. destruct (p z) eqn:E.
  - intros [= ->]. by exists [], l.
  - intros (l1 & l2 & -> & Hf)%IH. by exists (z :: l1), l2.
Qed.

Lemma collect_full_ok h cs pred fuel : forall x pre post i,
  linked h cs -> (forall y, y ∈ concat cs <-> is_Some (ht_nodes h !! y)) ->
  concat cs = pre ++ x :: post -> it_entry i = Some x -> (length post < fuel)%nat ->
  collect fuel (full_advance pred h) i = Ok (x :: List.filter (selected h pred) post).
Proof.
  induction fuel as [|fuel IH]; intros x pre post i Hl Hd Hsp Hit Hf; [lia|].
  cbn [collect]. rewrite Hit. rewrite (full_advance_next h cs pred x pre post i Hl Hd Hsp Hit). cbn [mbind result_bind].
  destruct (find_first (selected h pred) post) as [y|] eqn:E; cbn [it_of].
  - apply find_first_split in E as (l1 & l2 & -> & ->).
    rewrite (IH y (pre ++ x :: l1) l2 (mkIterator (Some y) (it_ref i) (it_state i))); [done|done|done| |done|].
    + rewrite Hsp. by rewrite <- app_assoc.
    + rewrite length_app in Hf. cbn in Hf. lia.
  - rewrite find_first_filter in E. destruct (List.filter (selected h pred) post); [|done]. by destruct fuel.
Qed.

Lemma first_bucket h cs :
  Forall2 (chain (ht_nodes h)) (m_buckets h) cs ->
  match find_first (fun head => negb (bool_decide (head = None))) (m_buckets h) with
  | Some hd => exists x post, hd = Some x /\ concat cs = x :: post
  | None => concat cs = []
  end.
Proof.
  induction 1 as [|hd l bs cs Hc _ IH]; cbn; [done|]. pose proof (chain_head _ _ _ Hc) as ->.
  destruct l as [|x l]; cbn; [exact IH|]. by exists x, (l ++ concat cs).
Qed.

Lemma full_begin h cs pred :
  linked h cs -> (forall y, y ∈ concat cs <-> is_Some (ht_nodes h !! y)) ->
  full_advance pred h (mkIterator None None false) =
  Ok (it_of Iterator_end (find_first (selected h pred) (concat cs))).
Proof.
  intros Hl Hd. pose proof (first_bucket h cs (lk_chains _ _ Hl)) as Hfb. unfold full_advance. cbn [it_entry].
  destruct (find_first _ (m_buckets h)) as [hd|]; [|by rewrite Hfb].
  destruct Hfb as (x & post & -> & Hsp). destruct (proj1 (Hd x)) as [n Hx]; [rewrite Hsp; by left|].
  pose proof (full_advance_next h cs pred x [] post (mkIterator (Some x) None false) Hl Hd Hsp eq_refl) as E.
  unfold full_advance in E. cbn [it_entry it_ref it_state] in E. revert E. unfold deref. rewrite Hx, Hsp. cbn [mbind result_bind].
  cbn [find_first]. unfold selected at 2. rewrite Hx. by destruct (pred n).
Qed.

Lemma fullEnumerate_ok h pred :
  ht_inv o counts h -> exists l, fullEnumerate pred h = Ok l /\ NoDup l /\
    forall y, y ∈ l <-> exists n, ht_nodes h !! y = Some n /\ pred n = true.
Proof.
  intros Hi. destruct (hi_linked _ _ _ Hi) as (cs & Hl & Hd).
  assert (Hok : fullEnumerate pred h = Ok (List.filter (selected h pred) (concat cs))).
  { unfold fullEnumerate. rewrite (full_begin h cs pred Hl Hd). cbn [mbind result_bind].
    assert (Hlen : (length (concat cs) <= size (ht_nodes h))%nat).
    { apply NoDup_length_nodes; [apply Hl|]. intros y. apply Hd. }
    destruct (find_first (selected h pred) (concat cs)) as [x|] eqn:E.
    - apply find_first_split in E as (pre & post & Hsp & Hf). rewrite Hf.
      apply (collect_full_ok h cs pred _ x pre post); [done|done|done|done|].
      rewrite Hsp, length_app in Hlen. cbn in Hlen. lia.
    - rewrite find_first_filter in E. destruct (List.filter (selected h pred) (concat cs)); [|done].
      by destruct (size (ht_nodes h)). }
  exists (List.filter (selected h pred) (concat cs)). split; [done|].
  split; [apply NoDup_ListNoDup, List.NoDup_filter, NoDup_ListNoDup, Hl|].
  intros y. rewrite list_elem_of_In, filter_In, <- list_elem_of_In, Hd. unfold selected. split.
  - intros [[n Hn] Hp]. rewrite Hn in Hp. by eauto.
  - intros (n & -> & Hp). by eauto.
Qed.
End NameTree_match.

(** ** Properties *)

Section properties.
Context `{HashFunction} `{TableEntries T} `{!TableEntriesLaws T}.
Implicit Types (h : Hashtable T).

Lemma NameTree_new_inv o limit counts h :
  counts_ok o limit counts = true -> Hashtable_new o = Ok h -> nt_inv o counts h /\ forall name, tables_at h name = no_tables.
Proof.
  intros Hc Hnew. destruct (new_inv o limit counts Hc h Hnew) as [Hi Hn].
  assert (Hi' : nt_inv o counts h).
  { split; [done|]. unfold tviews. rewrite Hn, fmap_empty.
    split; intros x v; [|intros y|..]; rewrite lookup_empty; done. }
  split; [done|]. intros name. apply (tables_at_absent o counts); [done|]. intros x (n & Hx & _). by rewrite Hn, lookup_empty in Hx.
Qed.

(** C34: looking up a prefix creates the entries that are missing and returns the
    entry of the prefix, whose ancestors all exist; erasing an entry removes it and every
    ancestor that becomes empty, and leaves no empty entry if there was no other one.
    Both keep the tree consistent, violate no assertion, touch no other entry, and what
    the tables see at any name does not change. *)
Theorem name_tree_consistent (o : HashtableOptions) (limit : Z) (counts : list Z)
    (Hc : counts_ok o limit counts = true) (h : Hashtable T) (Hi : nt_inv o counts h) :
  (forall name k, (k <= length name)%nat -> (k <= getMaxDepth)%nat -> m_htSize h + Z.of_nat (S getMaxDepth) <= limit ->
     exists x h', nt_lookup name k h = Ok (x, h') /\ nt_inv o counts h' /\ at_name h' x (take k name) /\
       grown h h' (fun m => m `prefix_of` take k name) /\
       (forall m, m `prefix_of` take k name -> exists y, at_name h' y m) /\
       (forall m, tables_at h' m = tables_at h m)) /\
  (forall x n can, ht_nodes h !! x = Some n ->
     exists k h', nt_eraseIfEmpty x can h = Ok (k, h') /\ nt_inv o counts h' /\
       shrunk h h' (fun m => m `prefix_of` nd_name n) /\ m_htSize h' = m_htSize h - k /\
       (isEmpty n = false -> h' = h) /\ (isEmpty n = true -> ht_nodes h' !! x = None) /\
       (can = true -> tight_but h (Some x) -> tight_but h' None) /\
       (forall m, tables_at h' m = tables_at h m)).
Proof.
  split.
  - intros name k Hl Hd Hlim. destruct (lookup_ok o limit counts Hc h name k Hi Hl Hd Hlim) as (x & h' & E & Hi' & Ha & Hg & _).
    exists x, h'. split; [done|]. split; [done|]. split; [done|]. split; [done|]. split.
    + intros m Hm. destruct Ha as (n & Hx & En). apply (prefix_closed o counts h' m x n Hi' Hx). by rewrite En.
    + apply (tables_at_grown o counts h h' _ (ni_table _ _ _ Hi) (ni_table _ _ _ Hi') Hg).
  - intros x n can Hx. unfold nt_eraseIfEmpty. destruct (erase_loop_ok o limit counts Hc (S getMaxDepth) h x n can 0 Hi Hx)
      as (k & h' & E & Hi' & Hsh & Hk & Hs & H1 & H2 & H3).
    { pose proof (entry_depth o counts h x n Hi Hx). lia. }
    exists k, h'. split; [done|]. split; [done|]. split; [done|]. split; [done|]. split; [intros He; by apply H1|].
    split; [done|]. split; [done|].
    apply (tables_at_shrunk o counts h h' _ (ni_table _ _ _ Hi) (ni_table _ _ _ Hi') Hsh).
Qed.

(** C35: the three ways to find the longest matching prefix agree and are right: by
    hashing the prefixes of a name from the longest, by walking up from an entry, and
    from the entry of a PIT entry first down, then up.  None of them fails. *)
Theorem longest_prefix_match (o : HashtableOptions) (counts : list Z) (h : Hashtable T) (Hi : nt_inv o counts h)
    (name : Name) (sel : Node T -> bool) :
  exists r, findLongestPrefixMatch name sel h = Ok r /\ is_lpm h name sel r /\
    (forall x, at_name h x name -> findLongestPrefixMatch_entry x sel h = Ok r) /\
    (forall x d, (d <= length name)%nat -> at_name h x (take d name) -> findLongestPrefixMatch_pit name x sel h = Ok r).
Proof.
  destruct (lpm_ok o counts h name sel Hi) as (r & E & Hr). exists r. split; [done|]. split; [done|]. split.
  - intros x (n & Hx & <-). destruct (lpm_entry_ok o counts h x n sel Hi Hx) as (r' & -> & Hr').
    f_equal. apply (is_lpm_unique o counts h (nd_name n) sel); [apply Hi|done|done].
  - intros x d Hd Hat. destruct (lpm_pit_ok o counts h name x d sel Hi Hat Hd) as (r' & -> & Hr').
    f_equal. apply (is_lpm_unique o counts h name sel); [apply Hi|done|done].
Qed.

(** The enumeration of all entries visits every entry that satisfies the
    predicate once; the enumeration of the prefixes of a name visits every selected
    prefix, the longest first. *)
Theorem name_tree_enumerations (o : HashtableOptions) (counts : list Z) (h : Hashtable T) (Hi : nt_inv o counts h)
    (pred : Node T -> bool) :
  (exists l, fullEnumerate pred h = Ok l /\ NoDup l /\
     forall y, y ∈ l <-> exists n, ht_nodes h !! y = Some n /\ pred n = true) /\
  forall name, exists l, findAllMatches name pred h = Ok l /\ descends h l /\
     forall y, y ∈ l <-> exists m, ht_nodes h !! y = Some m /\ pred m = true /\ nd_name m `prefix_of` name.
Proof.
  split; [apply (fullEnumerate_ok o counts), Hi|]. intros name. by apply (findAllMatches_ok o counts).
Qed.
End properties.

(** A tree with the entries of /a/b and its prefixes; the tables are a mark. *)
#[local] Instance mark_hash : HashFunction := fun bs => zlen bs.
#[local] Instance mark_tables : TableEntries bool := {| no_tables := false; hasTableEntries b := b |}.
#[local] Instance mark_laws : TableEntriesLaws bool.
Proof. split; [done|]. by intros []. Qed.
Definition name_a_b : Name := [mkComponent 8 (str "a"); mkComponent 8 (str "b")].

Lemma sample_tree : exists (h0 h : Hashtable bool) x, NameTree_new 1024 = Ok h0 /\ nt_lookup name_a_b 2 h0 = Ok (x, h) /\
  nt_inv (HashtableOptions_new 1024) (power_counts 1024) h /\ at_name h x name_a_b /\ forall m, tables_at h m = false.
Proof.
  assert (H0 : match Hashtable_new (T:=bool) (HashtableOptions_new 1024) with
               | Ok h => m_htSize h =? 0 | Err _ => false end = true) by (vm_compute; reflexivity).
  unfold NameTree_new. destruct (Hashtable_new (T:=bool) (HashtableOptions_new 1024)) as [h0|e] eqn:E; [|done].
  destruct (NameTree_new_inv _ _ _ h0 counts_1024 E) as [Hi Ht]. zbool.
  destruct (lookup_ok _ _ _ counts_1024 h0 name_a_b 2 Hi) as (x & h & El & Hi' & Ha & Hg & _);
    [cbn; lia|unfold getMaxDepth; lia|rewrite H0; unfold getMaxDepth; lia|].
  exists h0, h, x. split; [reflexivity|]. split; [exact El|]. split; [exact Hi'|]. split; [exact Ha|].
  intros m. rewrite (tables_at_grown _ _ h0 h _ (ni_table _ _ _ Hi) (ni_table _ _ _ Hi') Hg). apply Ht.
Qed.

Lemma name_tree_consistent_witness : exists (h h' : Hashtable bool) x k,
  nt_inv (HashtableOptions_new 1024) (power_counts 1024) h /\ at_name h x name_a_b /\
  nt_eraseIfEmpty x true h = Ok (k, h') /\ tables_at h' name_a_b = false.
Proof.
  destruct sample_tree as (h0 & h & x & _ & _ & Hi & (n & Hx & En) & Hf).
  destruct (name_tree_consistent _ _ _ counts_1024 h Hi) as [_ He].
  destruct (He x n true Hx) as (k & h' & E & Hi' & _ & _ & _ & _ & _ & Ht).
  exists h, h', x, k. split; [exact Hi|]. split; [by exists n|]. split; [exact E|]. rewrite Ht. apply Hf.
Defined.

Lemma longest_prefix_match_witness : exists (h : Hashtable bool) x,
  at_name h x name_a_b /\ findLongestPrefixMatch_pit name_a_b x (fun _ => true) h = Ok (Some x).
Proof.
  destruct sample_tree as (h0 & h & x & _ & _ & Hi & Ha & _). exists h, x. split; [exact Ha|].
  destruct (longest_prefix_match _ _ h Hi name_a_b (fun _ => true)) as (r & _ & Hr & _ & Hp).
  rewrite (Hp x 2%nat) by (done || cbn; lia). f_equal.
  apply (is_lpm_unique _ _ h name_a_b (fun _ => true) _ _ (ni_table _ _ _ Hi) Hr).
  destruct Ha as (n & Hx & En). exists n. rewrite En. split; [done|]. split; [done|]. split; [done|].
  intros y m _ _ Hm. by apply prefix_length.
Defined.

Lemma name_tree_enumerations_witness : exists (h : Hashtable bool) x l,
  at_name h x name_a_b /\ fullEnumerate (fun _ => true) h = Ok l /\ x ∈ l.
Proof.
  destruct sample_tree as (h0 & h & x & _ & _ & Hi & (n & Hx & En) & _).
  destruct (name_tree_enumerations _ _ h Hi (fun _ => true)) as [(l & E & _ & Hl) _].
  exists h, x, l. split; [by exists n|]. split; [exact E|]. apply Hl. by exists n.
Defined.
