(* ===== verification/NfdTables.v ===== *)
(** * The entries of the NFD tables (NFD/daemon/table: name-tree-entry, fib-entry, fib-nexthop,
    pit-entry, pit-face-record, pit-in-record, pit-out-record, measurements-entry,
    strategy-choice-entry, strategy-info-host)

    What FIB, PIT, measurements and strategy choice attach to the entries of the name
    tree, and the state they share.  A FIB, measurements or strategy-choice entry is owned
    by its name tree entry and is named by the location of that entry; PIT entries are
    shared pointers, with a heap of their own.  A face is named by its identifier.

    The lemmas: what writing the table entries of one name does to the name tree, and
    the tables as finite maps from names. *)

From stdpp Require Import base gmap list sets strings.
From Stdlib Require Import ZArith Lia.
From S2P Require Import Prelude Tlv Encoder Block Codec Ndn NameTlv Selectors Data Interest Double Hashtable NameTree Scheduler.

Local Open Scope Z_scope.

(** The element that [std::find_if] finds is changed in place. *)
Fixpoint update_first {A} (p : A -> bool) (f : A -> A) (l : list A) : list A :=
  match l with
  | [] => []
  | x :: l => if p x then f x :: l else x :: update_first p f l
  end.

(** ** FIB entries *)

Record NextHop := mkNextHop {
  nh_face : Z;
  nh_endpointId : Z;
  nh_cost : Z;
}.
(** [NextHop(face, endpointId)] *)
Definition NextHop_new (face endpointId : Z) : NextHop := mkNextHop face endpointId 0.
Definition setCost (cost : Z) (nh : NextHop) : NextHop := mkNextHop (nh_face nh) (nh_endpointId nh) cost.

Record fib_Entry := mkFibEntry {
  fe_prefix : Name;
  fe_nextHops : list NextHop;
}.
Definition fib_Entry_new (prefix : Name) : fib_Entry := mkFibEntry prefix [].

(** ** PIT entries *)

(** The items that strategies store on an entry ([StrategyInfo]): of the modelled
    strategies, the suppression interval of retransmissions, in microseconds. *)
Inductive StrategyInfo : Type := PitInfo (suppressionInterval : Z).
(** [StrategyInfoHost]: the items by their type identifier. *)
Definition StrategyInfoHost : Type := gmap Z StrategyInfo.
Definition clearStrategyInfo (_ : StrategyInfoHost) : StrategyInfoHost := ∅.

(** Time points and durations are nanoseconds; [TimePoint::min()]. *)
Definition TimePoint_min : Z := - 2 ^ 63.

Record FaceRecord := mkFaceRecord {
  fr_face : Z;
  fr_lastNonce : Z;
  fr_lastRenewed : Z;
  fr_expiry : Z;
  fr_info : StrategyInfoHost;
}.
Definition FaceRecord_new (face : Z) : FaceRecord := mkFaceRecord face 0 TimePoint_min TimePoint_min ∅.

(** [ir_interest] is the null pointer in a new record. *)
Record InRecord := mkInRecord {
  ir_record : FaceRecord;
  ir_interest : option Interest;
}.
(** The reason of the Nack header. *)
Record OutRecord := mkOutRecord {
  or_record : FaceRecord;
  or_incomingNack : option Z;
}.

(** [m_nonceListCopy] only holds the result of [getNonceList]. *)
Record pit_Entry := mkPitEntry {
  pit_interest : Interest;
  pit_inRecords : list InRecord;
  pit_outRecords : list OutRecord;
  pit_nonceList : list Z;
  pit_nte : option nat;              (* m_nameTreeEntry *)
  pit_expiryTimer : option nat;
  pit_isSatisfied : bool;
  pit_dataFreshnessPeriod : Z;
  pit_info : StrategyInfoHost;
}.

(** ** Measurements and strategy choice entries *)

Record measurements_Entry := mkMeasurementsEntry {
  me_name : Name;
  me_expiry : Z;
  me_cleanup : option nat;
  me_info : StrategyInfoHost;
}.

(** The strategy, by its instance name. *)
Record strategy_choice_Entry := mkStrategyChoiceEntry {
  sc_prefix : Name;
  sc_strategy : Name;
}.

(** ** What a name tree entry holds *)

Record Tables := mkTables {
  tb_fib : option fib_Entry;
  tb_pit : list nat;
  tb_measurements : option measurements_Entry;
  tb_strategyChoice : option strategy_choice_Entry;
}.

Definition is_some {A} (o : option A) : bool := match o with Some _ => true | None => false end.

#[export] Instance Tables_entries : TableEntries Tables := {|
  no_tables := mkTables None [] None None;
  hasTableEntries t :=
    is_some (tb_fib t) || negb (bool_decide (tb_pit t = [])) ||
    is_some (tb_measurements t) || is_some (tb_strategyChoice t);
|}.
#[export] Instance Tables_laws : TableEntriesLaws Tables.
Proof.
  split; [done|]. intros [[] [] [] []]; cbn; try done.
Qed.

Lemma fib_none : tb_fib no_tables = None. Proof. done. Qed.
Lemma measurements_none : tb_measurements no_tables = None. Proof. done. Qed.
Lemma strategyChoice_none : tb_strategyChoice no_tables = None. Proof. done. Qed.

(** The setters of [name_tree::Entry]; the back pointer of an entry that the name tree
    entry owns is the location itself. *)
Definition setFibEntry (e : option fib_Entry) (t : Tables) : Tables :=
  mkTables e (tb_pit t) (tb_measurements t) (tb_strategyChoice t).
Definition setPitEntries (es : list nat) (t : Tables) : Tables :=
  mkTables (tb_fib t) es (tb_measurements t) (tb_strategyChoice t).
Definition setMeasurementsEntry (e : option measurements_Entry) (t : Tables) : Tables :=
  mkTables (tb_fib t) (tb_pit t) e (tb_strategyChoice t).
Definition setStrategyChoiceEntry (e : option strategy_choice_Entry) (t : Tables) : Tables :=
  mkTables (tb_fib t) (tb_pit t) (tb_measurements t) e.

Section update.
Context `{HashFunction} `{TableEntries T}.

(** Writing the table entries of a name tree entry. *)
Definition nt_update (x : nat) (f : T -> T) (h : Hashtable T) : result (Hashtable T) :=
  let* n := deref x h in
  Ok (store_node x (set_tables (f (nd_tables n)) n) h).

(** ** Lemmas *)

Context `{!TableEntriesLaws T} (o : HashtableOptions) (counts : list Z).
Implicit Types (h : Hashtable T) (x : nat).

Lemma nt_update_Ok x f h n :
  ht_nodes h !! x = Some n -> nt_update x f h = Ok (store_node x (set_tables (f (nd_tables n)) n) h).
Proof. intros Hx. unfold nt_update, deref. by rewrite Hx. Qed.

(** Writing table entries keeps the tree and is seen at one name only. *)
Lemma nt_update_ok x f h n :
  nt_inv o counts h -> ht_nodes h !! x = Some n ->
  exists h', nt_update x f h = Ok h' /\ nt_inv o counts h' /\
    ht_nodes h' = <[x := set_tables (f (nd_tables n)) n]> (ht_nodes h) /\
    (m_htSize h' = m_htSize h /\ m_buckets h' = m_buckets h) /\ tables_at h' (nd_name n) = f (nd_tables n) /\
    forall m, m <> nd_name n -> tables_at h' m = tables_at h m.
Proof.
  intros [Hi Ht] Hx. eexists. split; [by apply nt_update_Ok|].
  set (n' := set_tables (f (nd_tables n)) n). set (h' := store_node x n' h).
  assert (Hi' : ht_inv o counts h') by (by apply (update_ok o counts h x n)).
  assert (Hv : tviews h' = tviews h).
  { unfold h'. rewrite tviews_store. change (tview_of n') with (tview_of n). apply insert_id. by apply tviews_lookup. }
  assert (Hx' : ht_nodes h' !! x = Some n') by apply lookup_insert_eq.
  split; [split; [done|by rewrite Hv]|]. split; [done|]. split; [done|].
  split; [by apply (tables_at_present o counts h' x n')|].
  intros m Hm. destruct (at_name_dec o counts h m Hi) as [(y & k & Hy & Ek)|Hno].
  - subst m. assert (Hyx : y <> x) by congruence. rewrite (tables_at_present o counts h y k) by done.
    apply (tables_at_present o counts h' y k); [done|]. cbn. by rewrite lookup_insert_ne.
  - rewrite (tables_at_absent o counts h m) by done. apply (tables_at_absent o counts h' m); [done|].
    intros y (k & Hy & Ek). cbn in Hy. apply lookup_insert_Some in Hy as [[<- <-]|[_ Hy]]; [by rewrite <- Ek in Hm|].
    apply (Hno y). by exists k.
Qed.
End update.

(** One kind of table entries, as a finite map from names. *)
Section view.
Context `{HashFunction} `{TableEntries T} `{!TableEntriesLaws T} {A : Type} (f : T -> option A) (Hf : f no_tables = None).
Context (o : HashtableOptions) (counts : list Z).
Implicit Types (h : Hashtable T) (m name : Name).

Definition view h : gmap Name A := omap (fun x => ht_nodes h !! x ≫= fun n => f (nd_tables n)) (ht_map h).

Lemma view_lookup h m : view h !! m = f (tables_at h m).
Proof.
  unfold view, tables_at. rewrite lookup_omap. destruct (ht_map h !! m) as [x|]; [|done].
  cbn. by destruct (ht_nodes h !! x).
Qed.
Lemma view_node h x n : ht_inv o counts h -> ht_nodes h !! x = Some n -> view h !! nd_name n = f (nd_tables n).
Proof. intros Hi Hx. by rewrite view_lookup, (tables_at_present o counts h x n). Qed.
Lemma view_ext h h' : (forall m, tables_at h' m = tables_at h m) -> view h' = view h.
Proof. intros E. apply map_eq. intros m. by rewrite !view_lookup, E. Qed.
Lemma view_same h h' name :
  (forall m, m <> name -> tables_at h' m = tables_at h m) -> f (tables_at h' name) = f (tables_at h name) -> view h' = view h.
Proof.
  intros E En. apply map_eq. intros m. rewrite !view_lookup. destruct (decide (m = name)) as [->|]; [done|by rewrite E].
Qed.
Lemma view_insert h h' name a :
  (forall m, m <> name -> tables_at h' m = tables_at h m) -> f (tables_at h' name) = Some a ->
  view h' = <[name := a]> (view h).
Proof.
  intros E En. apply map_eq. intros m. rewrite view_lookup. destruct (decide (m = name)) as [->|Hm].
  - by rewrite lookup_insert_eq.
  - by rewrite lookup_insert_ne, view_lookup, E.
Qed.
Lemma view_delete h h' name :
  (forall m, m <> name -> tables_at h' m = tables_at h m) -> f (tables_at h' name) = None ->
  view h' = delete name (view h).
Proof.
  intros E En. apply map_eq. intros m. rewrite view_lookup. destruct (decide (m = name)) as [->|Hm].
  - by rewrite lookup_delete_eq.
  - by rewrite lookup_delete_ne, view_lookup, E.
Qed.

(** The node of a name in the map. *)
Lemma view_present h name a : ht_inv o counts h -> view h !! name = Some a ->
  exists x n, ht_nodes h !! x = Some n /\ nd_name n = name /\ f (nd_tables n) = Some a /\ ht_map h !! name = Some x.
Proof using Hf.
  rewrite view_lookup. unfold tables_at. intros Hi Ha. destruct (ht_map h !! name) as [x|] eqn:E; cbn in Ha; [|by rewrite Hf in Ha].
  apply ht_map_at in E as Hat; [|apply Hi]. destruct Hat as (n & Hx & En). rewrite Hx in Ha. by eauto 10.
Qed.

(** The longest prefix with an entry, in a map. *)
Definition map_lpm (M : gmap Name A) name (r : option (Name * A)) : Prop :=
  match r with
  | Some (p, a) => M !! p = Some a /\ p `prefix_of` name /\
      forall q, is_Some (M !! q) -> q `prefix_of` name -> q `prefix_of` p
  | None => forall q, q `prefix_of` name -> M !! q = None
  end.

(** Longest prefix match in the tree is the one in the map. *)
Lemma lpm_view h name r :
  ht_inv o counts h -> is_lpm h name (fun n => is_some (f (nd_tables n))) r ->
  match r with
  | Some x => exists n a, ht_nodes h !! x = Some n /\ f (nd_tables n) = Some a /\ map_lpm (view h) name (Some (nd_name n, a))
  | None => map_lpm (view h) name None
  end.
Proof using Hf.
  intros Hi. destruct r as [x|]; cbn.
  - intros (n & Hx & Hs & Hp & Hall). destruct (f (nd_tables n)) as [a|] eqn:Ha; [|done].
    exists n, a. split; [done|]. split; [done|]. split; [by rewrite (view_node h x n)|]. split; [done|].
    intros q [b Hq] Hpq. destruct (view_present h q b Hi Hq) as (y & m & Hy & <- & Hb & _).
    destruct (prefix_weak_total (nd_name m) (nd_name n) name Hpq Hp) as [|Hnm]; [done|].
    assert (Hle : (length (nd_name m) <= length (nd_name n))%nat) by (apply (Hall y m); [done|by rewrite Hb|done]).
    destruct Hnm as [k Ek]. rewrite Ek, length_app in Hle. destruct k; [|cbn in Hle; lia]. by rewrite Ek, app_nil_r.
  - intros Hall q Hpq. destruct (view h !! q) as [b|] eqn:Hq; [|done].
    destruct (view_present h q b Hi Hq) as (y & m & Hy & <- & Hb & _). specialize (Hall y m Hy Hpq). by rewrite Hb in Hall.
Qed.
End view.

(** Numbers of items, counted modulo 2^64. *)
Lemma u64_of_succ n : u64 (u64 (Z.of_nat n) + 1) = u64 (Z.of_nat (S n)).
Proof. unfold u64. rewrite Zplus_mod_idemp_l. f_equal. lia. Qed.
Lemma u64_of_pred n : (0 < n)%nat -> u64 (u64 (Z.of_nat n) - 1) = u64 (Z.of_nat (pred n)).
Proof. intros Hn. unfold u64. rewrite Zminus_mod_idemp_l. f_equal. lia. Qed.

(** ** Frames

    What an operation leaves alone: the entries whose table entries, seen through [g], are
    not empty keep their location, their name and what [g] shows. *)
Section keeps.
Context `{HashFunction} `{TableEntries T} `{!TableEntriesLaws T} {B : Type}.
Implicit Types (h : Hashtable T) (g : T -> B).

Definition same_at g h h' : Prop := forall y n,
  ht_nodes h !! y = Some n -> g (nd_tables n) <> g no_tables ->
  exists n', ht_nodes h' !! y = Some n' /\ nd_name n' = nd_name n /\ g (nd_tables n') = g (nd_tables n).
Definition keeps g h h' : Prop := same_at g h h' /\ same_at g h' h.

#[export] Instance same_at_preorder g : PreOrder (same_at g).
Proof.
  split; [by intros h y n Hy _; eauto|]. intros h1 h2 h3 K1 K2 y n Hy Hg.
  destruct (K1 y n Hy Hg) as (n2 & Hy2 & E2 & G2). destruct (K2 y n2 Hy2) as (n3 & Hy3 & E3 & G3); [by rewrite G2|].
  exists n3. split; [done|]. by rewrite E3, G3.
Qed.
#[export] Instance keeps_equivalence g : Equivalence (keeps g).
Proof.
  split.
  - by intros h.
  - by intros h h' [].
  - intros h1 h2 h3 [K1 K1'] [K2 K2']. split; by etrans.
Qed.

Lemma keeps_grown g h h' P : grown h h' P -> keeps g h h'.
Proof.
  intros [K N]. split; intros y n Hy Hg.
  - destruct (K y n Hy) as (n' & Hy' & E & _ & G). exists n'. by rewrite G.
  - destruct (ht_nodes h !! y) as [m|] eqn:Em.
    + destruct (K y m Em) as (m' & Hm' & E & _ & G). simplify_eq. exists m. by rewrite E, G.
    + destruct (N y n Hy Em) as [_ G]. by rewrite G in Hg.
Qed.
Lemma keeps_shrunk g h h' P : shrunk h h' P -> keeps g h h'.
Proof.
  intros [K N]. split; intros y n Hy Hg.
  - destruct (ht_nodes h' !! y) as [m|] eqn:Em.
    + destruct (K y m Em) as (m' & Hm' & E & _ & G). simplify_eq. exists m. by rewrite E, G.
    + destruct (N y n Hy Em) as [_ G]. by rewrite G in Hg.
  - destruct (K y n Hy) as (n' & Hy' & E & _ & G). exists n'. by rewrite G.
Qed.
Lemma keeps_update g x (t : T) h h' n :
  ht_nodes h !! x = Some n -> ht_nodes h' = <[x := set_tables t n]> (ht_nodes h) ->
  g t = g (nd_tables n) -> keeps g h h'.
Proof.
  intros Hx E G. split; intros y m; rewrite E.
  - intros Hy _. destruct (decide (y = x)) as [->|]; [|rewrite lookup_insert_ne by done; by eauto].
    rewrite lookup_insert_eq. eexists. split; [done|]. by simplify_eq.
  - intros [[<- <-]|[_ Hy]]%lookup_insert_Some _; [|by eauto]. exists n. by split_and!.
Qed.
End keeps.

Lemma keeps_compose `{HashFunction} `{TableEntries T} {B C} (g : T -> B) (k : B -> C) (h h' : Hashtable T) :
  keeps g h h' -> keeps (fun t => k (g t)) h h'.
Proof.
  intros [K K']. split; intros y n Hy Hg.
  - destruct (K y n Hy) as (n' & ? & ? & E); [congruence|]. exists n'. by rewrite E.
  - destruct (K' y n Hy) as (n' & ? & ? & E); [congruence|]. exists n'. by rewrite E.
Qed.

Lemma keeps_view `{HashFunction} `{TableEntries T} `{!TableEntriesLaws T} {A} (f : T -> option A) o counts (h h' : Hashtable T) :
  f no_tables = None -> ht_inv o counts h -> ht_inv o counts h' -> keeps f h h' -> view f h' = view f h.
Proof.
  intros Hf Hi Hi' [K K']. apply map_eq. intros m. apply option_eq. intros a.
  assert (Hone : forall h1 h2, ht_inv o counts h1 -> ht_inv o counts h2 -> same_at f h1 h2 -> view f h1 !! m = Some a -> view f h2 !! m = Some a).
  { intros h1 h2 I1 I2 S E. destruct (view_present f Hf o counts h1 m a I1 E) as (x & n & Hx & <- & Ha & _).
    destruct (S x n Hx) as (n' & Hx' & <- & G); [by rewrite Ha, Hf|]. by rewrite (view_node f Hf o counts h2 x n'), G. }
  split; by apply Hone.
Qed.

(** Erasing an entry that may still be needed. *)
Section erase.
Context `{HashFunction} `{TableEntries T} `{!TableEntriesLaws T}.
Context (o : HashtableOptions) (limit : Z) (counts : list Z) (Hcounts : counts_ok o limit counts = true).

Lemma nt_erase_ok (h : Hashtable T) x n can :
  nt_inv o counts h -> ht_nodes h !! x = Some n ->
  exists k h', nt_eraseIfEmpty x can h = Ok (k, h') /\ nt_inv o counts h' /\
    shrunk h h' (fun m => m `prefix_of` nd_name n) /\ m_htSize h' <= m_htSize h /\
    (forall m, tables_at h' m = tables_at h m) /\
    (can = true -> tight_but h (Some x) -> tight_but h' None) /\
    (isEmpty n = false -> h' = h) /\ (isEmpty n = true -> ht_nodes h' !! x = None).
Proof.
  intros Hi Hx. destruct (erase_loop_ok o limit counts Hcounts (S getMaxDepth) h x n can 0 Hi Hx)
    as (k & h' & E & Hi' & Hsh & Hk & Hs & H1 & H2 & H3).
  { pose proof (entry_depth o counts h x n Hi Hx). lia. }
  exists k, h'. split; [done|]. split; [done|]. split; [done|]. split; [lia|].
  split; [apply (tables_at_shrunk o counts h h' _ (ni_table _ _ _ Hi) (ni_table _ _ _ Hi') Hsh)|].
  split; [done|]. split; [intros He; by apply H1|done].
Qed.

Lemma nt_lookup_ok (h : Hashtable T) name k :
  nt_inv o counts h -> (k <= length name)%nat -> (k <= getMaxDepth)%nat -> m_htSize h + Z.of_nat (S getMaxDepth) <= limit ->
  exists x n h', nt_lookup name k h = Ok (x, h') /\ nt_inv o counts h' /\
    ht_nodes h' !! x = Some n /\ nd_name n = take k name /\ nd_tables n = tables_at h (take k name) /\
    grown h h' (fun m => m `prefix_of` take k name) /\ (forall m, tables_at h' m = tables_at h m).
Proof.
  intros Hi Hl Hd Hlim. destruct (lookup_ok o limit counts Hcounts h name k Hi Hl Hd Hlim) as (x & h' & E & Hi' & (n & Hx & En) & Hg & _).
  pose proof (tables_at_grown o counts h h' _ (ni_table _ _ _ Hi) (ni_table _ _ _ Hi') Hg) as Ht.
  exists x, n, h'. split; [done|]. split; [done|]. split; [done|]. split; [done|].
  split; [by rewrite <- En, <- Ht, (tables_at_present o counts h' x n (ni_table _ _ _ Hi') Hx)|]. by split.
Qed.
End erase.

(** ** The state the tables share *)

(** What scheduled events do: drop an expired measurements entry, finalize a PIT entry, mark
    the dead nonce list or adjust its capacity. *)
Inductive table_event : Type :=
  | MeasurementsCleanup (nte : nat)
  | PitExpiry (entry : nat)
  | DnlMark
  | DnlAdjustCapacity.

Record NfdTables := mkNfdTables {
  t_nameTree : Hashtable Tables;
  fib_nItems : Z;
  pit_entries : gmap nat pit_Entry;
  pit_fresh : nat;
  pit_nItems : Z;
  measurements_nItems : Z;
  strategyChoice_nItems : Z;
  t_timers : EventQueue table_event;
}.

Definition with_nameTree (h : Hashtable Tables) (s : NfdTables) : NfdTables :=
  mkNfdTables h (fib_nItems s) (pit_entries s) (pit_fresh s) (pit_nItems s) (measurements_nItems s) (strategyChoice_nItems s) (t_timers s).
Definition with_fib_nItems (n : Z) (s : NfdTables) : NfdTables :=
  mkNfdTables (t_nameTree s) n (pit_entries s) (pit_fresh s) (pit_nItems s) (measurements_nItems s) (strategyChoice_nItems s) (t_timers s).
Definition with_pit (es : gmap nat pit_Entry) (fresh : nat) (n : Z) (s : NfdTables) : NfdTables :=
  mkNfdTables (t_nameTree s) (fib_nItems s) es fresh n (measurements_nItems s) (strategyChoice_nItems s) (t_timers s).
Definition with_measurements (n : Z) (q : EventQueue table_event) (s : NfdTables) : NfdTables :=
  mkNfdTables (t_nameTree s) (fib_nItems s) (pit_entries s) (pit_fresh s) (pit_nItems s) n (strategyChoice_nItems s) q.
Definition with_strategyChoice_nItems (n : Z) (s : NfdTables) : NfdTables :=
  mkNfdTables (t_nameTree s) (fib_nItems s) (pit_entries s) (pit_fresh s) (pit_nItems s) (measurements_nItems s) n (t_timers s).

(** The state of a forwarder with an empty name tree. *)
Definition NfdTables_new (h : Hashtable Tables) : NfdTables := mkNfdTables h 0 ∅ 0 0 0 0 EventQueue_new.
