(* ===== verification/Fib.v ===== *)
(** * The forwarding information base (NFD/daemon/table: fib, fib-entry, fib-nexthop)

    The FIB on the name tree: entries with their next hops, longest prefix match, and
    the removal of next hops and entries.  Faces are compared by identity.  [std::sort]
    is any function that returns a sorted permutation, so that nothing depends on the
    order of next hops with equal cost.

    The properties: an entry is a map from (face, endpoint) to cost whose list is sorted
    by cost; the FIB is a map from names to entries, searched by longest prefix; no
    assertion is violated, the number of items is right and the other tables are left
    alone; the one exception is the removal of a name that is in the name tree without a
    FIB entry, which decrements the number of items all the same. *)

From stdpp Require Import base gmap list sets strings sorting.
From Stdlib Require Import ZArith Lia.
From S2P Require Import Prelude Tlv Encoder Block Codec Ndn NameTlv Selectors Data Interest Double Hashtable NameTree NfdTables.

Local Open Scope Z_scope.

(** [std::sort] with a comparator that compares an integer key: a sorted permutation. *)
Class StdSort := sort_by : forall {A : Type}, (A -> Z) -> list A -> list A.
Class StdSortLaws `{StdSort} := {
  sort_by_perm {A} (key : A -> Z) l : sort_by key l ≡ₚ l;
  sort_by_sorted {A} (key : A -> Z) l : StronglySorted (fun a b => key a <= key b) (sort_by key l);
}.

(** ** Entries *)
Section entry.
Context `{StdSort}.
Implicit Types (e : fib_Entry) (face endpointId : Z).

Definition is_nextHop face endpointId (nh : NextHop) : bool :=
  (nh_face nh =? face) && (nh_endpointId nh =? endpointId).

Definition hasNextHops e : bool := negb (bool_decide (fe_nextHops e = [])).
Definition hasNextHop face endpointId e : bool := existsb (is_nextHop face endpointId) (fe_nextHops e).

Definition sortNextHops e : fib_Entry := mkFibEntry (fe_prefix e) (sort_by nh_cost (fe_nextHops e)).

Definition addOrUpdateNextHop face endpointId (cost : Z) e : fib_Entry :=
  let nextHops :=
    if hasNextHop face endpointId e then fe_nextHops e else fe_nextHops e ++ [NextHop_new face endpointId] in
  sortNextHops (mkFibEntry (fe_prefix e) (update_first (is_nextHop face endpointId) (setCost cost) nextHops)).

Definition removeNextHop face endpointId e : fib_Entry :=
  mkFibEntry (fe_prefix e) (erase_first (is_nextHop face endpointId) (fe_nextHops e)).

Definition removeNextHopByFace face e : fib_Entry :=
  mkFibEntry (fe_prefix e) (List.filter (fun nh => negb (nh_face nh =? face)) (fe_nextHops e)).
End entry.

(** ** The table *)
Section fib.
Context `{HashFunction} `{StdSort}.
Implicit Types (s : NfdTables) (x : nat).

Definition nteHasFibEntry (n : Node Tables) : bool := is_some (tb_fib (nd_tables n)).

(** [Fib::findLongestPrefixMatch]: the name tree entry of the match, or [None] for
    [s_emptyEntry]. *)
Definition fib_findLongestPrefixMatch (prefix : Name) s : result (option nat) :=
  findLongestPrefixMatch prefix nteHasFibEntry (t_nameTree s).
Definition fib_findLongestPrefixMatch_pit (pitEntry : pit_Entry) s : result (option nat) :=
  match pit_nte pitEntry with
  | Some nte => findLongestPrefixMatch_pit (i_name (pit_interest pitEntry)) nte nteHasFibEntry (t_nameTree s)
  | None => Err (AssertFailed "nte != nullptr")
  end.
Definition fib_findLongestPrefixMatch_measurements (nte : nat) s : result (option nat) :=
  findLongestPrefixMatch_entry nte nteHasFibEntry (t_nameTree s).

Definition fib_findExactMatch (prefix : Name) s : result (option nat) :=
  let* nte := findExactMatch prefix (length prefix) (t_nameTree s) in
  match nte with
  | Some x => let* n := deref x (t_nameTree s) in Ok (if nteHasFibEntry n then Some x else None)
  | None => Ok None
  end.

Definition fib_insert (prefix : Name) s : result (nat * bool * NfdTables) :=
  let* (x, h) := nt_lookup prefix (length prefix) (t_nameTree s) in
  let* n := deref x h in
  match tb_fib (nd_tables n) with
  | Some _ => Ok (x, false, with_nameTree h s)
  | None =>
    let* h := nt_update x (setFibEntry (Some (fib_Entry_new prefix))) h in
    Ok (x, true, with_fib_nItems (u64 (fib_nItems s + 1)) (with_nameTree h s))
  end.

(** [Fib::erase(name_tree::Entry*, bool)] *)
Definition fib_erase_nte x (canDeleteNte : bool) s : result NfdTables :=
  let* h := nt_update x (setFibEntry None) (t_nameTree s) in
  let* h := if canDeleteNte then let* r := nt_eraseIfEmpty x true h in Ok r.2 else Ok h in
  Ok (with_fib_nItems (u64 (fib_nItems s - 1)) (with_nameTree h s)).

(** [Fib::erase(const Name&)] *)
Definition fib_erase (prefix : Name) s : result NfdTables :=
  let* nte := findExactMatch prefix (length prefix) (t_nameTree s) in
  match nte with
  | Some x => fib_erase_nte x true s
  | None => Ok s
  end.

(** [Fib::erase(const Entry&)]; [None] is [s_emptyEntry]. *)
Definition fib_erase_entry (entry : option nat) s : result NfdTables :=
  match entry with
  | Some x => fib_erase_nte x true s
  | None => Ok s
  end.

(** The entry a reference designates. *)
Definition fib_entry_at x s : result fib_Entry :=
  let* n := deref x (t_nameTree s) in
  match tb_fib (nd_tables n) with
  | Some e => Ok e
  | None => Err (UndefinedBehaviour "no FIB entry")
  end.
Definition fib_update_entry x (f : fib_Entry -> fib_Entry) s : result NfdTables :=
  let* e := fib_entry_at x s in
  let* h := nt_update x (setFibEntry (Some (f e))) (t_nameTree s) in
  Ok (with_nameTree h s).

Definition fib_eraseIfEmpty x s : result NfdTables :=
  let* e := fib_entry_at x s in
  if negb (hasNextHops e) then fib_erase_nte x false s else Ok s.

Definition fib_addOrUpdateNextHop x (face endpointId cost : Z) s : result NfdTables :=
  fib_update_entry x (addOrUpdateNextHop face endpointId cost) s.

Definition fib_removeNextHop x (face endpointId : Z) s : result NfdTables :=
  let* s := fib_update_entry x (removeNextHop face endpointId) s in
  fib_eraseIfEmpty x s.

Definition fib_removeNextHopByFace x (face : Z) s : result NfdTables :=
  let* s := fib_update_entry x (removeNextHopByFace face) s in
  fib_eraseIfEmpty x s.

(** [Fib::getRange], as the list of the visited name tree entries. *)
Definition fib_getRange s : result (list nat) := fullEnumerate nteHasFibEntry (t_nameTree s).
End fib.

(** ** Next hops as a map *)
Section next_hops.
Context `{StdSort} `{!StdSortLaws}.
Implicit Types (nh : NextHop) (l : list NextHop) (e : fib_Entry) (k : Z * Z).

Definition hop_key nh : Z * Z := (nh_face nh, nh_endpointId nh).
Definition hop_pair nh : (Z * Z) * Z := (hop_key nh, nh_cost nh).
Definition hops_of l : gmap (Z * Z) Z := list_to_map (hop_pair <$> l).
(** The costs by face and endpoint. *)
Definition hops_map e : gmap (Z * Z) Z := hops_of (fe_nextHops e).

(** At most one next hop for a face and endpoint, in the order of the costs. *)
Record hops_ok e : Prop := {
  ho_keys : NoDup (hop_key <$> fe_nextHops e);
  ho_sorted : StronglySorted (fun a b => nh_cost a <= nh_cost b) (fe_nextHops e);
}.

Lemma is_nextHop_spec face ep nh : is_nextHop face ep nh = bool_decide (hop_key nh = (face, ep)).
Proof.
  unfold is_nextHop, hop_key. apply eq_true_iff_eq. rewrite andb_true_iff, !Z.eqb_eq, bool_decide_eq_true.
  split; [by intros [-> ->]|by intros [= -> ->]].
Qed.

Lemma hop_pairs_keys l : (hop_pair <$> l).*1 = hop_key <$> l.
Proof. rewrite <- list_fmap_compose. by apply list_fmap_ext. Qed.

Lemma hops_of_cons nh l : hops_of (nh :: l) = <[hop_key nh := nh_cost nh]> (hops_of l).
Proof. done. Qed.
Lemma hops_of_None l k : k ∉ hop_key <$> l -> hops_of l !! k = None.
Proof. intros Hk. apply not_elem_of_list_to_map_1. by rewrite hop_pairs_keys. Qed.
Lemma hops_of_dom l k : k ∈ dom (hops_of l) <-> k ∈ hop_key <$> l.
Proof. unfold hops_of. rewrite dom_list_to_map_L, elem_of_list_to_set, hop_pairs_keys. done. Qed.
Lemma hops_of_perm l l' : NoDup (hop_key <$> l) -> l ≡ₚ l' -> hops_of l = hops_of l'.
Proof. intros Hn Hp. apply list_to_map_proper; [by rewrite hop_pairs_keys|by rewrite Hp]. Qed.

Lemma hops_of_update face ep cost l :
  NoDup (hop_key <$> l) -> (face, ep) ∈ hop_key <$> l ->
  hops_of (update_first (is_nextHop face ep) (setCost cost) l) = <[(face, ep) := cost]> (hops_of l) /\
  hop_key <$> update_first (is_nextHop face ep) (setCost cost) l = hop_key <$> l.
Proof.
  induction l as [|nh l IH]; intros Hn Hin; [by apply not_elem_of_nil in Hin|].
  apply NoDup_cons in Hn as [Hnh Hn]. cbn [update_first]. rewrite is_nextHop_spec. case_bool_decide as Ek.
  - rewrite !hops_of_cons. change (hop_key (setCost cost nh)) with (hop_key nh). rewrite Ek, insert_insert_eq. by split.
  - destruct IH as [E1 E2]; [done|by apply elem_of_cons in Hin as [E|]; [congruence|]|].
    rewrite !hops_of_cons, E1. split; [by rewrite insert_insert_ne by congruence|]. cbn. by rewrite E2.
Qed.

Lemma hops_of_erase face ep l :
  NoDup (hop_key <$> l) -> hops_of (erase_first (is_nextHop face ep) l) = delete (face, ep) (hops_of l).
Proof.
  induction l as [|nh l IH]; intros Hn; [by cbn; rewrite delete_empty|].
  apply NoDup_cons in Hn as [Hnh Hn]. cbn [erase_first]. rewrite is_nextHop_spec, !hops_of_cons. case_bool_decide as Ek.
  - rewrite <- Ek, delete_insert_id; [done|by apply hops_of_None].
  - rewrite hops_of_cons, IH by done. by rewrite delete_insert_ne by congruence.
Qed.

Lemma hops_of_filter face l :
  NoDup (hop_key <$> l) ->
  hops_of (List.filter (fun nh => negb (nh_face nh =? face)) l) = filter (fun '((f, _), _) => f <> face) (hops_of l).
Proof.
  induction l as [|nh l IH]; intros Hn; [done|].
  apply NoDup_cons in Hn as [Hnh Hn]. cbn [List.filter]. rewrite hops_of_cons.
  destruct (nh_face nh =? face) eqn:E; cbn [negb]; zbool.
  - rewrite IH, map_filter_insert_False by (done || cbn; intros []; done).
    symmetry. f_equal. apply delete_id. by apply hops_of_None.
  - by rewrite hops_of_cons, IH, map_filter_insert_True.
Qed.

Lemma hops_ok_sublist e e' :
  fe_nextHops e' `sublist_of` fe_nextHops e -> hops_ok e -> hops_ok e'.
Proof.
  intros Hs [Hk Ho]. split; [eapply sublist_NoDup; [exact Hk|by apply fmap_sublist]|].
  remember (fe_nextHops e) as l eqn:El. remember (fe_nextHops e') as l' eqn:El'. clear -Hs Ho.
  induction Hs as [|nh l1 l2 Hs IH|nh l1 l2 Hs IH]; [constructor| |]; apply StronglySorted_inv in Ho as [Ho Hf].
  - constructor; [by apply IH|]. rewrite Forall_forall in *. intros x Hx. apply Hf. eapply elem_of_submseteq; [exact Hx|by apply sublist_submseteq].
  - by apply IH.
Qed.

Lemma fib_Entry_new_ok prefix : hops_ok (fib_Entry_new prefix).
Proof. split; constructor. Qed.

Lemma existsb_nextHop face ep l : existsb (is_nextHop face ep) l = bool_decide ((face, ep) ∈ hop_key <$> l).
Proof.
  apply eq_true_iff_eq. rewrite existsb_exists, bool_decide_eq_true, list_elem_of_fmap. split.
  - intros (nh & Hin & E). rewrite is_nextHop_spec in E. apply bool_decide_eq_true in E. exists nh. by rewrite list_elem_of_In.
  - intros (nh & E & Hin). exists nh. rewrite <- list_elem_of_In, is_nextHop_spec. split; [done|]. by apply bool_decide_eq_true.
Qed.

Lemma addOrUpdateNextHop_ok face ep cost e :
  hops_ok e -> hops_ok (addOrUpdateNextHop face ep cost e) /\
  hops_map (addOrUpdateNextHop face ep cost e) = <[(face, ep) := cost]> (hops_map e).
Proof.
  intros [Hk Ho]. unfold addOrUpdateNextHop, hasNextHop, hops_map. cbn [fe_nextHops sortNextHops]. rewrite existsb_nextHop.
  set (l := if bool_decide ((face, ep) ∈ hop_key <$> fe_nextHops e) then fe_nextHops e else fe_nextHops e ++ [NextHop_new face ep]).
  assert (NoDup (hop_key <$> l) /\ (face, ep) ∈ hop_key <$> l /\
    <[(face, ep) := cost]> (hops_of l) = <[(face, ep) := cost]> (hops_of (fe_nextHops e))) as (Hn & Hin & E).
  { unfold l. case_bool_decide as Hin; [done|].
    assert (Hp : fe_nextHops e ++ [NextHop_new face ep] ≡ₚ NextHop_new face ep :: fe_nextHops e) by (symmetry; apply Permutation_cons_append).
    assert (Hn : NoDup (hop_key <$> (NextHop_new face ep :: fe_nextHops e))) by (by apply NoDup_cons).
    split; [by rewrite Hp|]. split; [rewrite Hp; by left|].
    rewrite <- (hops_of_perm _ _ Hn (Permutation_sym Hp)), hops_of_cons. apply insert_insert_eq. }
  destruct (hops_of_update face ep cost l Hn Hin) as [E1 E2].
  assert (Hns : NoDup (hop_key <$> sort_by nh_cost (update_first (is_nextHop face ep) (setCost cost) l))).
  { by rewrite sort_by_perm, E2. }
  split; [split; [done|apply sort_by_sorted]|]. rewrite <- E, <- E1. apply hops_of_perm; [done|apply sort_by_perm].
Qed.

Lemma removeNextHop_ok face ep e :
  hops_ok e -> hops_ok (removeNextHop face ep e) /\ hops_map (removeNextHop face ep e) = delete (face, ep) (hops_map e).
Proof.
  intros Ho. split; [|apply hops_of_erase, Ho]. apply (hops_ok_sublist e); [apply erase_first_sublist|done].
Qed.

Lemma filter_sublist {A} (p : A -> bool) (l : list A) : List.filter p l `sublist_of` l.
Proof. induction l as [|x l IH]; cbn; [constructor|]. destruct (p x); by constructor. Qed.

Lemma removeNextHopByFace_ok face e :
  hops_ok e -> hops_ok (removeNextHopByFace face e) /\
  hops_map (removeNextHopByFace face e) = filter (fun '((f, _), _) => f <> face) (hops_map e).
Proof.
  intros Ho. split; [|apply hops_of_filter, Ho]. apply (hops_ok_sublist e); [apply filter_sublist|done].
Qed.

Lemma hasNextHops_map e : hasNextHops e = negb (bool_decide (hops_map e = ∅)).
Proof.
  unfold hasNextHops, hops_map. f_equal. apply bool_decide_ext. destruct (fe_nextHops e) as [|nh l]; [done|].
  rewrite hops_of_cons. split; [done|]. intros E. exfalso. exact (insert_non_empty _ _ _ E).
Qed.
End next_hops.

(** ** The FIB as a map *)
Section fib_map.
Context `{HashFunction} `{StdSort} `{!StdSortLaws}.
Context (o : HashtableOptions) (limit : Z) (counts : list Z) (Hcounts : counts_ok o limit counts = true).
Implicit Types (s : NfdTables) (x : nat) (e : fib_Entry).

Definition fib_view s : gmap Name fib_Entry := view tb_fib (t_nameTree s).

Record fib_inv s : Prop := {
  fi_tree : nt_inv o counts (t_nameTree s);
  fi_count : fib_nItems s = u64 (Z.of_nat (size (fib_view s)));
  fi_entries name e : fib_view s !! name = Some e -> fe_prefix e = name /\ hops_ok e;
}.

(** The location of the entry of a prefix. *)
Definition fib_at s x (prefix : Name) e : Prop :=
  exists n, ht_nodes (t_nameTree s) !! x = Some n /\ nd_name n = prefix /\ tb_fib (nd_tables n) = Some e.

(** Only the FIB changes. *)
Definition fib_frame s s' : Prop :=
  keeps (setFibEntry None) (t_nameTree s) (t_nameTree s') /\
  s' = with_fib_nItems (fib_nItems s') (with_nameTree (t_nameTree s') s).

Lemma fib_frame_refl s : fib_frame s s.
Proof. split; [done|]. by destruct s. Qed.
Lemma fib_frame_trans s1 s2 s3 : fib_frame s1 s2 -> fib_frame s2 s3 -> fib_frame s1 s3.
Proof. intros [K1 E1] [K2 E2]. split; [by etrans|]. rewrite E2, E1. done. Qed.

Lemma fib_at_view s x prefix e : ht_inv o counts (t_nameTree s) -> fib_at s x prefix e -> fib_view s !! prefix = Some e.
Proof. intros Hi (n & Hx & <- & He). unfold fib_view. by rewrite (view_node tb_fib fib_none o counts _ x n). Qed.
Lemma fib_view_at s prefix e : ht_inv o counts (t_nameTree s) -> fib_view s !! prefix = Some e ->
  exists x, fib_at s x prefix e /\ ht_map (t_nameTree s) !! prefix = Some x.
Proof.
  intros Hi He. destruct (view_present tb_fib fib_none o counts _ prefix e Hi He) as (x & n & Hx & En & Hn & Hm).
  exists x. split; [|done]. by exists n.
Qed.

Lemma fib_insert_ok s prefix :
  fib_inv s -> (length prefix <= getMaxDepth)%nat -> m_htSize (t_nameTree s) + Z.of_nat (S getMaxDepth) <= limit ->
  exists x e s', fib_insert prefix s = Ok (x, negb (is_some (fib_view s !! prefix)), s') /\ fib_inv s' /\ fib_frame s s' /\
    fib_at s' x prefix e /\
    match fib_view s !! prefix with
    | Some e' => e = e' /\ fib_view s' = fib_view s
    | None => e = fib_Entry_new prefix /\ fib_view s' = <[prefix := e]> (fib_view s)
    end.
Proof.
  intros [Hi Hc He] Hd Hlim.
  destruct (nt_lookup_ok o limit counts Hcounts (t_nameTree s) prefix (length prefix) Hi) as (x & n & h & El & Hi1 & Hx & En & Et & Hg & Hta);
    [done|done|done|]. rewrite take_ge in En, Et by done.
  assert (Hv : tb_fib (nd_tables n) = fib_view s !! prefix) by (unfold fib_view; by rewrite view_lookup, Et).
  assert (Hv1 : view tb_fib h = fib_view s) by (apply view_ext; [done|exact Hta]).
  unfold fib_insert. rewrite El. cbn [mbind result_bind]. unfold deref. rewrite Hx. cbn [mbind result_bind].
  rewrite Hv. destruct (fib_view s !! prefix) as [e|] eqn:Ee.
  - exists x, e, (with_nameTree h s). split; [done|]. split; [split; [done|by cbn; unfold fib_view at 1; cbn; rewrite Hv1|by unfold fib_view; cbn; rewrite Hv1]|].
    split; [split; [by eapply keeps_grown|by destruct s]|]. split; [by exists n|]. split; [done|exact Hv1].
  - destruct (nt_update_ok o counts x (setFibEntry (Some (fib_Entry_new prefix))) h n Hi1 Hx) as (h' & -> & Hi2 & Hn & _ & Htn & Hto).
    cbn [mbind result_bind]. exists x, (fib_Entry_new prefix). eexists. split; [done|].
    assert (Hv2 : view tb_fib h' = <[prefix := fib_Entry_new prefix]> (fib_view s)).
    { rewrite <- Hv1. apply (view_insert tb_fib fib_none _ _ prefix); [by rewrite <- En|rewrite <- En at 1; by rewrite Htn]. }
    split; [split; [done| |]|].
    + cbn. unfold fib_view. cbn. rewrite Hv2, map_size_insert_None, Hc by done. apply u64_of_succ.
    + unfold fib_view. cbn. rewrite Hv2. intros name e [[<- <-]|[_ ?]]%lookup_insert_Some; [split; [done|apply fib_Entry_new_ok]|by apply He].
    + split; [split; [|by destruct s]|].
      * etrans; [by eapply keeps_grown|]. by eapply keeps_update.
      * split; [|done]. eexists. split; [cbn; rewrite Hn; apply lookup_insert_eq|done].
Qed.

(** Removing an entry; [tight_but] says that no empty name tree entry is left over. *)
Lemma fib_erase_nte_ok s x prefix e can :
  fib_inv s -> fib_at s x prefix e ->
  exists s', fib_erase_nte x can s = Ok s' /\ fib_inv s' /\ fib_frame s s' /\ fib_view s' = delete prefix (fib_view s) /\
    (can = true -> tight_but (t_nameTree s) None -> tight_but (t_nameTree s') None) /\
    (can = false -> exists n, ht_nodes (t_nameTree s) !! x = Some n /\
       ht_nodes (t_nameTree s') = <[x := set_tables (setFibEntry None (nd_tables n)) n]> (ht_nodes (t_nameTree s)) /\
       m_buckets (t_nameTree s') = m_buckets (t_nameTree s)).
Proof.
  intros [Hi Hc He] Hat. pose proof (fib_at_view s x prefix e (ni_table _ _ _ Hi) Hat) as Hpe. destruct Hat as (n & Hx & En & Hn).
  destruct (nt_update_ok o counts x (setFibEntry None) (t_nameTree s) n Hi Hx) as (h & E & Hi1 & Hh & [_ Hb] & Htn & Hto).
  assert (Hx1 : ht_nodes h !! x = Some (set_tables (setFibEntry None (nd_tables n)) n)) by (rewrite Hh; apply lookup_insert_eq).
  assert (Hv1 : view tb_fib h = delete prefix (fib_view s)).
  { apply (view_delete tb_fib fib_none _ _ prefix); [by rewrite <- En|rewrite <- En; by rewrite Htn]. }
  assert (Hk1 : keeps (setFibEntry None) (t_nameTree s) h) by (by eapply keeps_update).
  assert (Hsz : u64 (fib_nItems s - 1) = u64 (Z.of_nat (size (delete prefix (fib_view s))))).
  { rewrite Hc, map_size_delete_Some by (by eexists). apply u64_of_pred.
    apply Nat.neq_0_lt_0. intros Hz%map_size_empty_inv. by rewrite Hz, lookup_empty in Hpe. }
  unfold fib_erase_nte. rewrite E. cbn [mbind result_bind]. destruct can.
  - destruct (nt_erase_ok o limit counts Hcounts h x _ true Hi1 Hx1) as (k & h' & -> & Hi2 & Hsh & _ & Hta & Htight & _).
    cbn [mbind result_bind snd]. eexists. split; [done|].
    assert (Hv2 : view tb_fib h' = delete prefix (fib_view s)) by (rewrite <- Hv1; by apply view_ext).
    split; [split; [done| |]|split; [split|split; [done|split; [|done]]]].
    + unfold fib_view at 1. cbn. by rewrite Hv2.
    + unfold fib_view. cbn. rewrite Hv2. intros name e' [_ ?]%lookup_delete_Some. by apply He.
    + etrans; [exact Hk1|]. by eapply keeps_shrunk.
    + by destruct s.
    + intros _ Ht. apply Htight; [done|]. intros y m. rewrite Hh. intros [[<- _]|[Hy Hm]]%lookup_insert_Some Hne; [done|by eapply Ht].
  - cbn [mbind result_bind]. eexists. split; [done|].
    split; [split; [done| |]|split; [split; [exact Hk1|by destruct s]|split; [exact Hv1|split; [done|]]]].
    + unfold fib_view at 1. cbn. by rewrite Hv1.
    + unfold fib_view. cbn. rewrite Hv1. intros name e' [_ ?]%lookup_delete_Some. by apply He.
    + intros _. exists n. by split.
Qed.

(** Changing an entry in place. *)
Lemma fib_update_entry_ok s x prefix e f :
  fib_inv s -> fib_at s x prefix e -> fe_prefix (f e) = fe_prefix e -> hops_ok (f e) ->
  exists s', fib_update_entry x f s = Ok s' /\ fib_inv s' /\ fib_frame s s' /\ fib_at s' x prefix (f e) /\
    fib_view s' = <[prefix := f e]> (fib_view s) /\
    exists n, ht_nodes (t_nameTree s) !! x = Some n /\
      ht_nodes (t_nameTree s') = <[x := set_tables (setFibEntry (Some (f e)) (nd_tables n)) n]> (ht_nodes (t_nameTree s)) /\
      m_buckets (t_nameTree s') = m_buckets (t_nameTree s).
Proof.
  intros [Hi Hc He] Hat Hp Hok. pose proof (fib_at_view s x prefix e (ni_table _ _ _ Hi) Hat) as Hpe. destruct Hat as (n & Hx & En & Hn).
  destruct (nt_update_ok o counts x (setFibEntry (Some (f e))) (t_nameTree s) n Hi Hx) as (h & E & Hi1 & Hh & [_ Hb] & Htn & Hto).
  assert (Hv1 : view tb_fib h = <[prefix := f e]> (fib_view s)).
  { apply (view_insert tb_fib fib_none _ _ prefix); [by rewrite <- En|rewrite <- En; by rewrite Htn]. }
  unfold fib_update_entry, fib_entry_at, deref. rewrite Hx. cbn [mbind result_bind]. rewrite Hn. cbn [mbind result_bind].
  rewrite E. cbn [mbind result_bind]. eexists. split; [done|].
  split; [split; [done| |]|split; [split|split; [|split; [exact Hv1|by exists n]]]].
  - unfold fib_view. cbn. rewrite Hv1, map_size_insert_Some by (by eexists). done.
  - unfold fib_view. cbn. rewrite Hv1. intros name e' [[<- <-]|[_ ?]]%lookup_insert_Some; [|by apply He].
    split; [rewrite Hp; by apply He|done].
  - by eapply keeps_update.
  - by destruct s.
  - eexists. split; [cbn; rewrite Hh; apply lookup_insert_eq|]. by split.
Qed.

(** Changing an entry and dropping it when it has no next hop left. *)
Definition with_hops (prefix : Name) e (M : gmap Name fib_Entry) : gmap Name fib_Entry :=
  if hasNextHops e then <[prefix := e]> M else delete prefix M.

Lemma fib_remove_ok s x prefix e f :
  fib_inv s -> fib_at s x prefix e -> fe_prefix (f e) = fe_prefix e -> hops_ok (f e) ->
  exists s', (let* s := fib_update_entry x f s in fib_eraseIfEmpty x s) = Ok s' /\ fib_inv s' /\ fib_frame s s' /\
    fib_view s' = with_hops prefix (f e) (fib_view s) /\
    exists n, ht_nodes (t_nameTree s) !! x = Some n /\ ht_nodes (t_nameTree s') =
      <[x := set_tables (setFibEntry (if hasNextHops (f e) then Some (f e) else None) (nd_tables n)) n]> (ht_nodes (t_nameTree s)) /\
      m_buckets (t_nameTree s') = m_buckets (t_nameTree s).
Proof.
  intros Hi Hat Hp Hok. destruct (fib_update_entry_ok s x prefix e f Hi Hat Hp Hok) as (s1 & -> & Hi1 & Hf1 & Hat1 & Hv1 & n & Hx & Hn1 & Hb1).
  cbn [mbind result_bind]. unfold fib_eraseIfEmpty, fib_entry_at, with_hops. pose proof Hat1 as (n1 & Hx1 & _ & Hfe1).
  unfold deref. rewrite Hx1. cbn [mbind result_bind]. rewrite Hfe1. cbn [mbind result_bind].
  destruct (hasNextHops (f e)) eqn:E; cbn [negb].
  - exists s1. split; [done|]. split; [done|]. split; [done|]. split; [done|]. by exists n.
  - destruct (fib_erase_nte_ok s1 x prefix (f e) false Hi1 Hat1) as (s2 & -> & Hi2 & Hf2 & Hv2 & _ & Hn2).
    exists s2. split; [done|]. split; [done|]. split; [by eapply fib_frame_trans|].
    split; [by rewrite Hv2, Hv1, delete_insert_eq|]. destruct (Hn2 eq_refl) as (n' & Hx' & Hn' & Hb'). exists n. split; [done|].
    split; [|by rewrite Hb']. rewrite Hn', Hn1, insert_insert_eq. f_equal. rewrite Hn1, lookup_insert_eq in Hx'. by simplify_eq.
Qed.

Lemma fib_findExactMatch_ok s prefix :
  fib_inv s -> exists r, fib_findExactMatch prefix s = Ok r /\
    match r with Some x => exists e, fib_at s x prefix e | None => fib_view s !! prefix = None end.
Proof.
  intros [Hi _ _]. unfold fib_findExactMatch. rewrite (findExactMatch_ok o counts) by done. rewrite take_ge by done. cbn [mbind result_bind].
  destruct (ht_map (t_nameTree s) !! prefix) as [x|] eqn:E.
  - apply ht_map_at in E as (n & Hx & En); [|apply Hi]. unfold deref. rewrite Hx. cbn [mbind result_bind]. unfold nteHasFibEntry.
    destruct (tb_fib (nd_tables n)) as [e|] eqn:Hn; cbn [is_some]; eexists; (split; [done|]); [exists e; by exists n|].
    unfold fib_view. by rewrite <- En, (view_node tb_fib fib_none o counts _ x n) by (done || apply Hi).
  - exists None. split; [done|]. unfold fib_view. rewrite view_lookup by done. unfold tables_at. by rewrite E.
Qed.

Lemma fib_lpm_ok s name :
  fib_inv s -> exists r, fib_findLongestPrefixMatch name s = Ok r /\
    match r with
    | Some x => exists p e, fib_at s x p e /\ map_lpm (fib_view s) name (Some (p, e))
    | None => map_lpm (fib_view s) name None
    end.
Proof.
  intros [Hi _ _]. unfold fib_findLongestPrefixMatch. destruct (lpm_ok o counts (t_nameTree s) name nteHasFibEntry Hi) as (r & -> & Hr).
  exists r. split; [done|]. pose proof (lpm_view tb_fib fib_none o counts _ name r (ni_table _ _ _ Hi) Hr) as Hl.
  destruct r as [x|]; [|done]. destruct Hl as (n & e & Hx & He & Hl). exists (nd_name n), e. split; [by exists n|done].
Qed.
End fib_map.

(** ** Properties *)

Section properties.
Context `{HashFunction} `{StdSort} `{!StdSortLaws}.

Lemma fib_inv_new o limit counts h :
  counts_ok o limit counts = true -> Hashtable_new o = Ok h -> fib_inv o counts (NfdTables_new h) /\ fib_view (NfdTables_new h) = ∅.
Proof.
  intros Hc Hnew. destruct (NameTree_new_inv o limit counts h Hc Hnew) as [Hi Ht].
  assert (Hv : fib_view (NfdTables_new h) = ∅).
  { apply map_eq. intros m. unfold fib_view. rewrite view_lookup by done. cbn. by rewrite Ht, lookup_empty. }
  split; [|done]. split; [done|by rewrite Hv|]. intros name e. by rewrite Hv, lookup_empty.
Qed.

(** Removing the name of a name tree entry that has no FIB entry. *)
Lemma fib_erase_without_entry o limit counts (Hc : counts_ok o limit counts = true) s prefix x :
  fib_inv o counts s -> ht_map (t_nameTree s) !! prefix = Some x -> fib_view s !! prefix = None ->
  exists s', fib_erase prefix s = Ok s' /\ fib_view s' = fib_view s /\ fib_nItems s' = u64 (fib_nItems s - 1).
Proof.
  intros [Hi _ _] Hm Hv. unfold fib_erase. rewrite (findExactMatch_ok o counts), take_ge, Hm by done. cbn [mbind result_bind].
  apply ht_map_at in Hm as (n & Hx & En); [|apply Hi].
  destruct (nt_update_ok o counts x (setFibEntry None) (t_nameTree s) n Hi Hx) as (h & E & Hi1 & Hh & _ & Htn & Hto).
  assert (Hx1 : ht_nodes h !! x = Some (set_tables (setFibEntry None (nd_tables n)) n)) by (rewrite Hh; apply lookup_insert_eq).
  destruct (nt_erase_ok o limit counts Hc h x _ true Hi1 Hx1) as (k & h' & E' & Hi2 & Hsh & _ & Hta & _).
  unfold fib_erase_nte. rewrite E. cbn [mbind result_bind]. rewrite E'. cbn [mbind result_bind snd].
  eexists. split; [done|]. split; [|done]. unfold fib_view in *. cbn. rewrite (view_ext tb_fib fib_none h h') by done.
  rewrite (view_delete tb_fib fib_none (t_nameTree s) h prefix); [by apply delete_id|by rewrite <- En|by rewrite <- En, Htn].
Qed.

(** C27: the FIB is a finite map from prefixes to next hops.  Inserting adds an empty
    entry if there is none; removing a name deletes its entry, and decrements the number
    of items even if the name has a name tree entry but no FIB entry; adding, updating
    and removing next hops change the costs of one (face, endpoint) or one face, keep one
    next hop per face and endpoint, sorted by cost, and drop an entry without next hops;
    exact and longest prefix match find what the map says, also from a PIT entry.  No
    assertion is violated and the other tables do not change. *)
Theorem fib_refines_map o limit counts (Hc : counts_ok o limit counts = true) s (Hi : fib_inv o counts s) :
  (forall prefix, (length prefix <= getMaxDepth)%nat -> m_htSize (t_nameTree s) + Z.of_nat (S getMaxDepth) <= limit ->
     exists x e s', fib_insert prefix s = Ok (x, negb (is_some (fib_view s !! prefix)), s') /\
       fib_inv o counts s' /\ fib_frame s s' /\ fib_at s' x prefix e /\
       match fib_view s !! prefix with
       | Some e' => e = e' /\ fib_view s' = fib_view s
       | None => e = fib_Entry_new prefix /\ fib_view s' = <[prefix := e]> (fib_view s)
       end) /\
  (forall prefix, exists s', fib_erase prefix s = Ok s' /\ fib_view s' = delete prefix (fib_view s) /\
     match fib_view s !! prefix, ht_map (t_nameTree s) !! prefix with
     | Some _, _ => fib_inv o counts s' /\ fib_frame s s'
     | None, None => s' = s
     | None, Some _ => fib_nItems s' = u64 (fib_nItems s - 1)
     end) /\
  (forall x prefix e face ep cost, fib_at s x prefix e ->
     (exists s' e', fib_addOrUpdateNextHop x face ep cost s = Ok s' /\ fib_inv o counts s' /\ fib_frame s s' /\
        fib_view s' = <[prefix := e']> (fib_view s) /\ hops_map e' = <[(face, ep) := cost]> (hops_map e)) /\
     (exists s' e', fib_removeNextHop x face ep s = Ok s' /\ fib_inv o counts s' /\ fib_frame s s' /\
        fib_view s' = with_hops prefix e' (fib_view s) /\ hops_map e' = delete (face, ep) (hops_map e)) /\
     (exists s' e', fib_removeNextHopByFace x face s = Ok s' /\ fib_inv o counts s' /\ fib_frame s s' /\
        fib_view s' = with_hops prefix e' (fib_view s) /\
        hops_map e' = filter (fun '((f, _), _) => f <> face) (hops_map e))) /\
  (forall prefix, exists r, fib_findExactMatch prefix s = Ok r /\
     match r with Some x => exists e, fib_at s x prefix e | None => fib_view s !! prefix = None end) /\
  (forall name, exists r, fib_findLongestPrefixMatch name s = Ok r /\
     match r with
     | Some x => exists p e, fib_at s x p e /\ map_lpm (fib_view s) name (Some (p, e))
     | None => map_lpm (fib_view s) name None
     end /\
     forall pe nte d, pit_nte pe = Some nte -> i_name (pit_interest pe) = name -> (d <= length name)%nat ->
       at_name (t_nameTree s) nte (take d name) -> fib_findLongestPrefixMatch_pit pe s = Ok r).
Proof.
  pose proof (fi_tree _ _ _ Hi) as Ht. split; [|split; [|split; [|split]]].
  - intros prefix. by apply (fib_insert_ok o limit counts).
  - intros prefix. destruct (fib_view s !! prefix) as [e|] eqn:Ev.
    + destruct (fib_view_at o counts s prefix e (ni_table _ _ _ Ht) Ev) as (x & Hat & Hm).
      destruct (fib_erase_nte_ok o limit counts Hc s x prefix e true Hi Hat) as (s' & E & Hi' & Hf & Hv & _).
      exists s'. unfold fib_erase. rewrite (findExactMatch_ok o counts), take_ge, Hm by done. by split_and!.
    + destruct (ht_map (t_nameTree s) !! prefix) as [x|] eqn:Hm.
      * destruct (fib_erase_without_entry o limit counts Hc s prefix x Hi Hm Ev) as (s' & E & Hv & Hn).
        exists s'. rewrite delete_id by done. done.
      * exists s. unfold fib_erase. rewrite (findExactMatch_ok o counts), take_ge, Hm by done. by rewrite delete_id.
  - intros x prefix e face ep cost Hat. pose proof (fib_at_view o counts s x prefix e (ni_table _ _ _ Ht) Hat) as Hv.
    destruct (fi_entries _ _ _ Hi prefix e Hv) as [_ Hok]. split; [|split].
    + destruct (addOrUpdateNextHop_ok face ep cost e Hok) as [Hok' Hm].
      destruct (fib_update_entry_ok o counts s x prefix e (addOrUpdateNextHop face ep cost) Hi Hat eq_refl Hok') as (s' & E & Hi' & Hf & _ & Hv' & _).
      by exists s', (addOrUpdateNextHop face ep cost e).
    + destruct (removeNextHop_ok face ep e Hok) as [Hok' Hm].
      destruct (fib_remove_ok o limit counts Hc s x prefix e (removeNextHop face ep) Hi Hat eq_refl Hok') as (s' & E & Hi' & Hf & Hv' & _).
      by exists s', (removeNextHop face ep e).
    + destruct (removeNextHopByFace_ok face e Hok) as [Hok' Hm].
      destruct (fib_remove_ok o limit counts Hc s x prefix e (removeNextHopByFace face) Hi Hat eq_refl Hok') as (s' & E & Hi' & Hf & Hv' & _).
      by exists s', (removeNextHopByFace face e).
  - intros prefix. by apply (fib_findExactMatch_ok o counts).
  - intros name. destruct (fib_lpm_ok o counts s name Hi) as (r & E & Hr). exists r. split; [done|]. split; [done|].
    intros pe nte d Hn <- Hd Hat. unfold fib_findLongestPrefixMatch_pit. rewrite Hn.
    destruct (lpm_pit_ok o counts (t_nameTree s) _ nte d nteHasFibEntry Ht Hat Hd) as (r' & -> & Hr').
    destruct (lpm_ok o counts (t_nameTree s) (i_name (pit_interest pe)) nteHasFibEntry Ht) as (r'' & E'' & Hr'').
    unfold fib_findLongestPrefixMatch in E. rewrite E'' in E. injection E as <-. f_equal.
    by apply (is_lpm_unique o counts (t_nameTree s) (i_name (pit_interest pe)) nteHasFibEntry _ _ (ni_table _ _ _ Ht)).
Qed.
End properties.

(** Sorting by merging, for the witnesses. *)
#[export] Instance merge_StdSort : StdSort := fun A key =>
  @merge_sort A (fun a b => key a <= key b) (fun a b => Z.le_dec (key a) (key b)).
#[export] Instance merge_StdSortLaws : StdSortLaws.
Proof.
  split.
  - intros A key l. apply merge_sort_Permutation.
  - intros A key l. refine (@StronglySorted_merge_sort A (fun a b => key a <= key b) _ _ _ l).
    + intros x y z. lia.
    + intros x y. lia.
Qed.

Lemma fib_refines_map_witness : exists (s s' s'' : NfdTables) x,
  fib_inv (H := mark_hash) (HashtableOptions_new 1024) (power_counts 1024) s /\
  fib_insert (H := mark_hash) name_a_b s = Ok (x, true, s') /\ fib_addOrUpdateNextHop x 256 0 10 s' = Ok s'' /\
  exists e, fib_view s'' !! name_a_b = Some e /\ hops_map e = {[ (256, 0) := 10 ]}.
Proof.
  assert (H0 : match Hashtable_new (T:=Tables) (HashtableOptions_new 1024) with
               | Ok h => m_htSize h =? 0 | Err _ => false end = true) by (vm_compute; reflexivity).
  destruct (Hashtable_new (T:=Tables) (HashtableOptions_new 1024)) as [h|] eqn:Eh; [|done]. zbool.
  destruct (fib_inv_new (H := mark_hash) _ _ _ h counts_1024 Eh) as [Hi Hv].
  destruct (fib_refines_map (H := mark_hash) _ _ _ counts_1024 (NfdTables_new h) Hi) as [Hins _].
  destruct (Hins name_a_b) as (x & e & s' & E & Hi' & _ & Hat & Hm); [cbn; unfold getMaxDepth; lia|cbn; rewrite H0; unfold getMaxDepth; lia|].
  rewrite Hv, lookup_empty in E, Hm. destruct Hm as [-> Hm].
  destruct (fib_refines_map (H := mark_hash) _ _ _ counts_1024 s' Hi') as (_ & _ & Hhops & _).
  destruct (Hhops x name_a_b _ 256 0 10 Hat) as [(s'' & e' & E' & _ & _ & Hv' & Hm') _].
  exists (NfdTables_new h), s', s'', x. split; [exact Hi|]. split; [exact E|]. split; [exact E'|].
  exists e'. split; [rewrite Hv'; apply lookup_insert_eq|exact Hm'].
Defined.
