(* ===== verification/Pit.v ===== *)
(** * The pending Interest table (NFD/daemon/table: pit, pit-entry, pit-face-record, pit-in-record,
    pit-out-record, pit-iterator)

    PIT entries are attached to the name tree entry of their Interest's name, without an
    implicit digest and up to the maximal depth, and live in a heap of shared pointers.
    In- and out-records are lists with one record per face; the nonces of the Interests
    are collected in a list of their own.

    The properties: the PIT is a map from name and selectors to entries; Data finds
    exactly the entries whose Interest it matches; in-records are a map from faces; what
    the nonce list holds. *)

From stdpp Require Import base gmap list sets strings.
From Stdlib Require Import ZArith Lia.
From S2P Require Import Prelude Tlv Encoder Block Codec Ndn NameTlv Selectors Data Interest Double Hashtable NameTree NfdTables.

Local Open Scope Z_scope.

(** ** Face records *)

(** The expiry is computed in signed 64-bit nanoseconds. *)
Definition FaceRecord_update (now : Z) (interest : Interest) (r : FaceRecord) : result FaceRecord :=
  let lifetime := if i_interestLifetime interest <? 0 then DEFAULT_INTEREST_LIFETIME else i_interestLifetime interest in
  let expiry := now + lifetime * 1000000 in
  if expiry <? 2 ^ 63
  then Ok (mkFaceRecord (fr_face r) (getNonce interest) now expiry (fr_info r))
  else Err (UndefinedBehaviour "signed overflow").

Definition InRecord_new (face : Z) : InRecord := mkInRecord (FaceRecord_new face) None.
Definition InRecord_update (now : Z) (interest : Interest) (r : InRecord) : result InRecord :=
  let* fr := FaceRecord_update now interest (ir_record r) in
  Ok (mkInRecord fr (Some interest)).

Definition OutRecord_new (face : Z) : OutRecord := mkOutRecord (FaceRecord_new face) None.
(** [OutRecord] inherits [FaceRecord::update]. *)
Definition OutRecord_update (now : Z) (interest : Interest) (r : OutRecord) : result OutRecord :=
  let* fr := FaceRecord_update now interest (or_record r) in
  Ok (mkOutRecord fr (or_incomingNack r)).
(** The nonce of the nacked Interest and the reason of the Nack. *)
Definition setIncomingNack (nonce reason : Z) (r : OutRecord) : bool * OutRecord :=
  if negb (nonce =? fr_lastNonce (or_record r)) then (false, r)
  else (true, mkOutRecord (or_record r) (Some reason)).
Definition clearIncomingNack (r : OutRecord) : OutRecord := mkOutRecord (or_record r) None.

(** ** Entries *)

Definition with_inRecords (rs : list InRecord) (nonces : list Z) (e : pit_Entry) : pit_Entry :=
  mkPitEntry (pit_interest e) rs (pit_outRecords e) nonces (pit_nte e) (pit_expiryTimer e) (pit_isSatisfied e)
    (pit_dataFreshnessPeriod e) (pit_info e).
Definition with_outRecords (rs : list OutRecord) (e : pit_Entry) : pit_Entry :=
  mkPitEntry (pit_interest e) (pit_inRecords e) rs (pit_nonceList e) (pit_nte e) (pit_expiryTimer e) (pit_isSatisfied e)
    (pit_dataFreshnessPeriod e) (pit_info e).
Definition with_nte (nte : option nat) (e : pit_Entry) : pit_Entry :=
  mkPitEntry (pit_interest e) (pit_inRecords e) (pit_outRecords e) (pit_nonceList e) nte (pit_expiryTimer e) (pit_isSatisfied e)
    (pit_dataFreshnessPeriod e) (pit_info e).

(** A nonce is listed once. *)
Definition add_nonce (nonce : Z) (nonces : list Z) : list Z :=
  if existsb (Z.eqb nonce) nonces then nonces else nonces ++ [nonce].

Definition pit_Entry_new (interest : Interest) : pit_Entry :=
  mkPitEntry interest [] [] (add_nonce (getNonce interest) []) None None false 0 ∅.

Definition canMatch (interest : Interest) (nEqualNameComps : nat) (e : pit_Entry) : result bool :=
  let mine := i_name (pit_interest e) in
  let other := i_name interest in
  assert! name_compare_range mine 0 nEqualNameComps other 0 nEqualNameComps =? 0
    orelse "m_interest->getName().compare(0, nEqualNameComps, interest.getName(), 0, nEqualNameComps) == 0";
  if name_compare_range mine nEqualNameComps (length mine) other nEqualNameComps (length other) =? 0
  then Selectors_eqb (i_selectors (pit_interest e)) (i_selectors interest)
  else Ok false.

Definition in_face (r : InRecord) : Z := fr_face (ir_record r).
Definition out_face (r : OutRecord) : Z := fr_face (or_record r).

Definition getInRecord (face : Z) (e : pit_Entry) : option InRecord :=
  find_first (fun r => in_face r =? face) (pit_inRecords e).

(** [std::find_if] followed by a change that may fail. *)
Fixpoint try_update_first {A} (p : A -> bool) (f : A -> result A) (l : list A) : result (list A) :=
  match l with
  | [] => Ok []
  | x :: l =>
    if p x then let* y := f x in Ok (y :: l)
    else let* l' := try_update_first p f l in Ok (x :: l')
  end.

Definition insertOrUpdateInRecord (now face : Z) (interest : Interest) (e : pit_Entry) : result pit_Entry :=
  let* m := canMatch interest 0 e in
  assert! (m : bool) orelse "this->canMatch(interest)";
  let rs := if existsb (fun r => in_face r =? face) (pit_inRecords e) then pit_inRecords e
            else InRecord_new face :: pit_inRecords e in
  let nonces := add_nonce (getNonce interest) (pit_nonceList e) in
  let* rs := try_update_first (fun r => in_face r =? face) (InRecord_update now interest) rs in
  Ok (with_inRecords rs nonces e).

Definition deleteInRecord (face : Z) (e : pit_Entry) : result pit_Entry :=
  match find_first (fun r => in_face r =? face) (pit_inRecords e) with
  | None => Ok e
  | Some r =>
    match ir_interest r with
    | None => Err (AssertFailed "static_cast<bool>(m_interest)")
    | Some interest =>
      Ok (with_inRecords (erase_first (fun r => in_face r =? face) (pit_inRecords e))
            (erase_first (Z.eqb (getNonce interest)) (pit_nonceList e)) e)
    end
  end.

Definition clearInRecords (e : pit_Entry) : pit_Entry := with_inRecords [] (pit_nonceList e) e.
Definition hasInRecords (e : pit_Entry) : bool := negb (bool_decide (pit_inRecords e = [])).
Definition getNonceList (e : pit_Entry) : list Z := pit_nonceList e.

Definition getOutRecord (face : Z) (e : pit_Entry) : option OutRecord :=
  find_first (fun r => out_face r =? face) (pit_outRecords e).

Definition insertOrUpdateOutRecord (now face : Z) (interest : Interest) (e : pit_Entry) : result pit_Entry :=
  let* m := canMatch interest 0 e in
  assert! (m : bool) orelse "this->canMatch(interest)";
  let rs := if existsb (fun r => out_face r =? face) (pit_outRecords e) then pit_outRecords e
            else OutRecord_new face :: pit_outRecords e in
  let* rs := try_update_first (fun r => out_face r =? face) (OutRecord_update now interest) rs in
  Ok (with_outRecords rs e).

Definition deleteOutRecord (face : Z) (e : pit_Entry) : pit_Entry :=
  with_outRecords (erase_first (fun r => out_face r =? face) (pit_outRecords e)) e.
Definition hasOutRecords (e : pit_Entry) : bool := negb (bool_decide (pit_outRecords e = [])).

(** ** The table *)
Section pit.
Context `{HashFunction}.
Implicit Types (s : NfdTables) (x loc : nat).

Definition nteHasPitEntries (n : Node Tables) : bool := negb (bool_decide (tb_pit (nd_tables n) = [])).

Definition pit_deref loc s : result pit_Entry :=
  match pit_entries s !! loc with
  | Some e => Ok e
  | None => Err (UndefinedBehaviour "dangling PIT entry")
  end.
Definition pit_store loc (e : pit_Entry) s : NfdTables :=
  with_pit (<[loc := e]> (pit_entries s)) (pit_fresh s) (pit_nItems s) s.
(** Changing an entry through its pointer. *)
Definition pit_modify loc (f : pit_Entry -> result pit_Entry) s : result NfdTables :=
  let* e := pit_deref loc s in
  let* e := f e in
  Ok (pit_store loc e s).

(** [name_tree::Entry::insertPitEntry] *)
Definition insertPitEntry x loc s : result NfdTables :=
  let* e := pit_deref loc s in
  assert! bool_decide (pit_nte e = None) orelse "pitEntry->m_nameTreeEntry == nullptr";
  let* h := nt_update x (fun t => setPitEntries (tb_pit t ++ [loc]) t) (t_nameTree s) in
  Ok (pit_store loc (with_nte (Some x) e) (with_nameTree h s)).

(** The last element takes the place of the erased one. *)
Definition erase_swap loc (l : list nat) : list nat :=
  match last l with
  | Some back => removelast (update_first (Nat.eqb loc) (fun _ => back) l)
  | None => []
  end.
(** [name_tree::Entry::erasePitEntry] *)
Definition erasePitEntry x loc s : result NfdTables :=
  let* e := pit_deref loc s in
  assert! bool_decide (pit_nte e = Some x) orelse "pitEntry->m_nameTreeEntry == this";
  let* n := deref x (t_nameTree s) in
  assert! existsb (Nat.eqb loc) (tb_pit (nd_tables n)) orelse "it != m_pitEntries.end()";
  let s := pit_store loc (with_nte None e) s in
  let* h := nt_update x (fun t => setPitEntries (erase_swap loc (tb_pit t)) t) (t_nameTree s) in
  Ok (with_nameTree h s).

(** The depth of the name tree entry of an Interest. *)
Definition nteDepth (name : Name) : nat :=
  let hasDigest := match last name with Some c => isImplicitSha256Digest c | None => false end in
  ((length name - (if hasDigest then 1 else 0)) `min` getMaxDepth)%nat.

(** [std::find_if] with a predicate that may throw. *)
Fixpoint find_match (interest : Interest) (depth : nat) (locs : list nat) s : result (option nat) :=
  match locs with
  | [] => Ok None
  | loc :: locs =>
    let* e := pit_deref loc s in
    let* m := canMatch interest depth e in
    if (m : bool) then Ok (Some loc) else find_match interest depth locs s
  end.

(** [make_shared<Entry>(interest)] *)
Definition make_pit_entry (interest : Interest) s : nat * NfdTables :=
  (pit_fresh s, with_pit (<[pit_fresh s := pit_Entry_new interest]> (pit_entries s)) (S (pit_fresh s)) (pit_nItems s) s).

Definition pit_findOrInsert (interest : Interest) (allowInsert : bool) s : result (option nat * bool * NfdTables) :=
  let name := i_name interest in
  let depth := nteDepth name in
  let* (nte, s) :=
    if allowInsert then let* (x, h) := nt_lookup name depth (t_nameTree s) in Ok (Some x, with_nameTree h s)
    else let* nte := findExactMatch name depth (t_nameTree s) in Ok (nte, s) in
  match nte with
  | None => Ok (None, true, s)
  | Some x =>
    let* n := deref x (t_nameTree s) in
    let* found := find_match interest depth (tb_pit (nd_tables n)) s in
    match found with
    | Some loc => Ok (Some loc, false, s)
    | None =>
      if negb allowInsert then
        assert! negb (isEmpty n) orelse "!nte->isEmpty()";
        Ok (None, true, s)
      else
        let '(loc, s) := make_pit_entry interest s in
        let* s := insertPitEntry x loc s in
        Ok (Some loc, true, with_pit (pit_entries s) (pit_fresh s) (u64 (pit_nItems s + 1)) s)
    end
  end.

(** [Pit::find] and [Pit::insert] *)
Definition pit_find (interest : Interest) s : result (option nat) :=
  let* r := pit_findOrInsert interest false s in Ok r.1.1.
Definition pit_insert (interest : Interest) s : result (option nat * bool * NfdTables) :=
  pit_findOrInsert interest true s.

(** The digest of a Data packet. *)
Context (sha256 : octets -> octets).

(** The entries of one name tree entry that the Data matches. *)
Fixpoint data_matches (data : Data) (locs : list nat) s : result (list nat) :=
  match locs with
  | [] => Ok []
  | loc :: locs =>
    let* e := pit_deref loc s in
    let* m := matchesData sha256 (pit_interest e) data in
    let* rest := data_matches data locs s in
    Ok (if (m : bool) then loc :: rest else rest)
  end.
Fixpoint ntes_matches (data : Data) (ntes : list nat) s : result (list nat) :=
  match ntes with
  | [] => Ok []
  | x :: ntes =>
    let* n := deref x (t_nameTree s) in
    let* here := data_matches data (tb_pit (nd_tables n)) s in
    let* rest := ntes_matches data ntes s in
    Ok (here ++ rest)
  end.
Definition pit_findAllDataMatches (data : Data) s : result (list nat) :=
  let* ntMatches := findAllMatches (d_name data) nteHasPitEntries (t_nameTree s) in
  ntes_matches data ntMatches s.

Definition pit_erase loc (canDeleteNte : bool) s : result NfdTables :=
  let* e := pit_deref loc s in
  match pit_nte e with
  | None => Err (AssertFailed "nte != nullptr")
  | Some x =>
    let* s := erasePitEntry x loc s in
    let* h := if canDeleteNte then let* r := nt_eraseIfEmpty x true (t_nameTree s) in Ok r.2 else Ok (t_nameTree s) in
    let s := with_nameTree h s in
    Ok (with_pit (pit_entries s) (pit_fresh s) (u64 (pit_nItems s - 1)) s)
  end.

Definition pit_deleteInOutRecords loc (face : Z) s : result NfdTables :=
  let* s := pit_modify loc (deleteInRecord face) s in
  pit_modify loc (fun e => Ok (deleteOutRecord face e)) s.
End pit.

(** ** Records as maps from faces *)
Section records.
Context {A : Type} (key : A -> Z).
Implicit Types (l : list A) (r : A) (k : Z).

Definition rec_map l : gmap Z A := list_to_map ((fun r => (key r, r)) <$> l).

Lemma rec_map_cons r l : rec_map (r :: l) = <[key r := r]> (rec_map l).
Proof. done. Qed.
Lemma rec_keys l : ((fun r => (key r, r)) <$> l).*1 = key <$> l.
Proof. rewrite <- list_fmap_compose. by apply list_fmap_ext. Qed.
Lemma rec_map_None l k : rec_map l !! k = None <-> k ∉ key <$> l.
Proof. unfold rec_map. rewrite <- not_elem_of_list_to_map, rec_keys. done. Qed.
Lemma rec_map_Some l k r : NoDup (key <$> l) -> rec_map l !! k = Some r <-> r ∈ l /\ key r = k.
Proof.
  intros Hn. unfold rec_map. rewrite <- elem_of_list_to_map by (by rewrite rec_keys). rewrite list_elem_of_fmap. split.
  - intros (r' & [= -> ->] & Hr). done.
  - intros [Hr <-]. by exists r.
Qed.

Lemma rec_find l k : find_first (fun r => key r =? k) l = rec_map l !! k.
Proof.
  induction l as [|r l IH]; [done|]. rewrite rec_map_cons. cbn [find_first]. destruct (key r =? k) eqn:E; zbool.
  - by rewrite E, lookup_insert_eq.
  - by rewrite lookup_insert_ne.
Qed.
Lemma rec_exists l k : existsb (fun r => key r =? k) l = is_some (rec_map l !! k).
Proof.
  induction l as [|r l IH]; [done|]. rewrite rec_map_cons. cbn [existsb]. destruct (key r =? k) eqn:E; zbool.
  - by rewrite E, lookup_insert_eq.
  - by rewrite lookup_insert_ne.
Qed.
Lemma rec_erase l k : NoDup (key <$> l) ->
  rec_map (erase_first (fun r => key r =? k) l) = delete k (rec_map l) /\ NoDup (key <$> erase_first (fun r => key r =? k) l).
Proof.
  intros Hn. split; [|by eapply sublist_NoDup; [exact Hn|apply fmap_sublist, erase_first_sublist]].
  induction l as [|r l IH]; [by cbn; rewrite delete_empty|]. apply NoDup_cons in Hn as [Hr Hn].
  cbn [erase_first]. rewrite rec_map_cons. destruct (key r =? k) eqn:E; zbool.
  - rewrite <- E, delete_insert_id; [done|by apply rec_map_None].
  - rewrite rec_map_cons, IH by done. by rewrite delete_insert_ne.
Qed.
Lemma rec_update l k r r' f :
  rec_map l !! k = Some r -> f r = Ok r' -> key r' = k ->
  exists l', try_update_first (fun r => key r =? k) f l = Ok l' /\ rec_map l' = <[k := r']> (rec_map l) /\ key <$> l' = key <$> l.
Proof.
  intros Hr Hf Hk. induction l as [|x l IH]; [done|]. rewrite rec_map_cons in *. cbn [try_update_first].
  destruct (key x =? k) eqn:E; zbool.
  - rewrite E, lookup_insert_eq in Hr. injection Hr as ->. rewrite Hf. eexists. split; [done|].
    rewrite rec_map_cons, Hk, E, insert_insert_eq. split; [done|]. cbn. by rewrite Hk, E.
  - rewrite lookup_insert_ne in Hr by done. destruct (IH Hr) as (l' & -> & E1 & E2). eexists. split; [done|].
    rewrite rec_map_cons, E1, insert_insert_ne by done. split; [done|]. cbn. by rewrite E2.
Qed.
(** The record of a face, made if there is none, is changed. *)
Lemma rec_upsert l k new r' f :
  NoDup (key <$> l) -> key new = k -> f (default new (rec_map l !! k)) = Ok r' -> key r' = k ->
  exists l', try_update_first (fun r => key r =? k) f (if existsb (fun r => key r =? k) l then l else new :: l) = Ok l' /\
    rec_map l' = <[k := r']> (rec_map l) /\ NoDup (key <$> l').
Proof.
  intros Hn Hk Hf Hr'. rewrite rec_exists. destruct (rec_map l !! k) as [r|] eqn:E; cbn [is_some default] in *.
  - destruct (rec_update l k r r' f E Hf Hr') as (l' & E1 & E2 & E3). exists l'. by rewrite E3.
  - destruct (rec_update (new :: l) k new r' f) as (l' & E1 & E2 & E3); [by rewrite rec_map_cons, Hk, lookup_insert_eq|done|done|].
    exists l'. split; [done|]. rewrite E2, rec_map_cons, Hk, insert_insert_eq, E3. split; [done|].
    apply NoDup_cons. split; [|done]. rewrite Hk. by apply rec_map_None.
Qed.
End records.

(** ** In- and out-records of an entry *)

(** What [Selectors::operator==] compares. *)
Definition block_key (b : Block) : Z * Z * octets :=
  (block_type b, block_value_size b, if block_value_size b =? 0 then [] else block_value b).
Lemma Block_eqb_key a b : Block_eqb a b = bool_decide (block_key a = block_key b).
Proof.
  unfold Block_eqb, block_key. apply eq_true_iff_eq. rewrite !andb_true_iff, orb_true_iff, !Z.eqb_eq, !bool_decide_eq_true.
  split.
  - intros [[-> E] [H0|Hv]]; rewrite <- E; [by rewrite H0|by rewrite Hv].
  - intros [= Et Es Ev]. rewrite <- Es in Ev. split; [done|]. destruct (block_value_size a =? 0) eqn:E; zbool; auto.
Qed.

Definition sel_key (s : Selectors) : Z * Z * octets :=
  match Selectors_wireEncode s with Ok w => block_key w | Err _ => (0, 0, []) end.
Definition sel_ok (s : Selectors) : Prop := is_ok (Selectors_wireEncode s) = true.

Lemma Selectors_eqb_key a b : sel_ok a -> sel_ok b -> Selectors_eqb a b = Ok (bool_decide (sel_key a = sel_key b)).
Proof.
  unfold sel_ok, Selectors_eqb, sel_key. destruct (Selectors_wireEncode a), (Selectors_wireEncode b); try done.
  intros _ _. cbn [mbind result_bind]. by rewrite Block_eqb_key.
Qed.

(** Name and selectors, which identify a PIT entry. *)
Definition interest_key (i : Interest) : Name * (Z * Z * octets) := (i_name i, sel_key (i_selectors i)).
Definition pit_key (e : pit_Entry) : Name * (Z * Z * octets) := interest_key (pit_interest e).

Lemma name_compare_range_split a b k :
  take k a = take k b -> (name_compare_range a k (length a) b k (length b) =? 0) = bool_decide (a = b).
Proof.
  intros Ht. unfold name_compare_range. rewrite !take_ge by (rewrite length_drop; lia).
  apply eq_true_iff_eq. rewrite Z.eqb_eq, bool_decide_eq_true, name_compare_eq. split; [|by intros ->].
  intros Hd. by rewrite <- (take_drop k a), <- (take_drop k b), Ht, Hd.
Qed.

Lemma canMatch_ok interest k e :
  sel_ok (i_selectors interest) -> sel_ok (i_selectors (pit_interest e)) ->
  take k (i_name (pit_interest e)) = take k (i_name interest) ->
  canMatch interest k e = Ok (bool_decide (pit_key e = interest_key interest)).
Proof.
  intros H1 H2 Ht. unfold canMatch. unfold name_compare_range at 1. rewrite !drop_0.
  rewrite (proj2 (Z.eqb_eq _ _) (proj2 (name_compare_eq _ _) Ht)). rewrite name_compare_range_split by done.
  unfold pit_key, interest_key. case_bool_decide as En.
  - rewrite Selectors_eqb_key by done. f_equal. apply bool_decide_ext. rewrite En. split; [by intros ->|by intros [= ->]].
  - f_equal. symmetry. apply bool_decide_eq_false. intros [= E _]. done.
Qed.

Definition in_map (e : pit_Entry) : gmap Z InRecord := rec_map in_face (pit_inRecords e).
Definition out_map (e : pit_Entry) : gmap Z OutRecord := rec_map out_face (pit_outRecords e).

Record records_ok (e : pit_Entry) : Prop := {
  ro_in : NoDup (in_face <$> pit_inRecords e);
  ro_out : NoDup (out_face <$> pit_outRecords e);
  ro_interest r : r ∈ pit_inRecords e -> exists i, ir_interest r = Some i /\ getNonce i = fr_lastNonce (ir_record r);
  ro_nonces : NoDup (pit_nonceList e);
}.
(** Every in-record's nonce is listed. *)
Definition nonces_covered (e : pit_Entry) : Prop :=
  forall face r, in_map e !! face = Some r -> fr_lastNonce (ir_record r) ∈ pit_nonceList e.

Definition expiry_of (now : Z) (i : Interest) : Z :=
  now + (if i_interestLifetime i <? 0 then DEFAULT_INTEREST_LIFETIME else i_interestLifetime i) * 1000000.

Lemma existsb_eqb (n : Z) l : existsb (Z.eqb n) l = bool_decide (n ∈ l).
Proof.
  apply eq_true_iff_eq. rewrite existsb_exists, bool_decide_eq_true. split.
  - intros (x & Hx & ->%Z.eqb_eq). by apply list_elem_of_In.
  - intros Hn%list_elem_of_In. exists n. split; [done|apply Z.eqb_refl].
Qed.
Lemma add_nonce_ok n l : NoDup l -> NoDup (add_nonce n l) /\ forall m, m ∈ add_nonce n l <-> m = n \/ m ∈ l.
Proof.
  intros Hl. unfold add_nonce. rewrite existsb_eqb. case_bool_decide as Hn.
  - split; [done|]. intros m. split; [by right|]. by intros [->|].
  - split.
    + apply NoDup_app. split; [done|]. split; [|apply NoDup_singleton]. by intros x Hx ->%list_elem_of_singleton.
    + intros m. rewrite elem_of_app, list_elem_of_singleton. tauto.
Qed.
Lemma erase_nonce_ok n (l : list Z) : NoDup l ->
  NoDup (erase_first (Z.eqb n) l) /\ forall m, m ∈ erase_first (Z.eqb n) l <-> m ∈ l /\ m <> n.
Proof.
  intros Hl. split; [by apply NoDup_erase_first|]. intros m. induction l as [|x l IH]; cbn [erase_first].
  - split; [by intros ?%not_elem_of_nil|by intros [? _]].
  - apply NoDup_cons in Hl as [Hx Hl]. destruct (Z.eqb n x) eqn:E; zbool.
    + subst x. rewrite elem_of_cons. split; [intros Hm; split; [by right|by intros ->]|]. by intros [[->|?] ?].
    + rewrite !elem_of_cons, IH by done. split; [intros [->|[? ?]]; [split; [by left|by intros ->]|split; [by right|done]]|].
      intros [[->|?] ?]; [by left|right; done].
Qed.

Lemma in_map_lookup e face r : records_ok e -> in_map e !! face = Some r <-> r ∈ pit_inRecords e /\ in_face r = face.
Proof. intros Hr. apply rec_map_Some, Hr. Qed.
Lemma out_map_lookup e face r : records_ok e -> out_map e !! face = Some r <-> r ∈ pit_outRecords e /\ out_face r = face.
Proof. intros Hr. apply rec_map_Some, Hr. Qed.

Lemma insertOrUpdateInRecord_ok now face i e :
  records_ok e -> canMatch i 0 e = Ok true -> expiry_of now i < 2 ^ 63 ->
  let info := match in_map e !! face with Some r => fr_info (ir_record r) | None => ∅ end in
  let r := mkInRecord (mkFaceRecord face (getNonce i) now (expiry_of now i) info) (Some i) in
  exists e', insertOrUpdateInRecord now face i e = Ok e' /\ records_ok e' /\ in_map e' = <[face := r]> (in_map e) /\
    e' = with_inRecords (pit_inRecords e') (add_nonce (getNonce i) (pit_nonceList e)) e.
Proof.
  intros Hok Hm He info r. destruct Hok as [Hin Hout Hint Hnon] eqn:Heq. clear Heq.
  destruct (add_nonce_ok (getNonce i) (pit_nonceList e) Hnon) as [Hnon' _].
  destruct (rec_upsert in_face (pit_inRecords e) face (InRecord_new face) r (InRecord_update now i) Hin eq_refl)
    as (l & E & El & Hl); [|done|].
  { unfold InRecord_update, FaceRecord_update. fold (expiry_of now i). rewrite (proj2 (Z.ltb_lt _ _) He). cbn [mbind result_bind].
    unfold r, info, in_map. destruct (rec_map in_face (pit_inRecords e) !! face) as [r0|] eqn:E0; cbn; [|done].
    apply rec_map_Some in E0 as [_ E0]; [|done]. unfold in_face in E0. by rewrite E0. }
  unfold insertOrUpdateInRecord. rewrite Hm. cbn [mbind result_bind]. rewrite E. cbn [mbind result_bind].
  eexists. split; [done|]. split; [|split; [exact El|done]]. split; [exact Hl|exact Hout| |exact Hnon'].
  cbn. intros r0 Hr0. assert (Hr : rec_map in_face l !! in_face r0 = Some r0) by (by apply rec_map_Some).
  rewrite El in Hr. apply lookup_insert_Some in Hr as [[_ <-]|[_ Hr]]; [by exists i|].
  apply Hint. by apply rec_map_Some in Hr as [? _].
Qed.

Lemma deleteInRecord_ok face e :
  records_ok e -> exists e', deleteInRecord face e = Ok e' /\ records_ok e' /\ in_map e' = delete face (in_map e) /\
    e' = with_inRecords (pit_inRecords e') (pit_nonceList e') e /\
    forall n, n ∈ pit_nonceList e' <-> n ∈ pit_nonceList e /\ (fun r => fr_lastNonce (ir_record r)) <$> in_map e !! face <> Some n.
Proof.
  intros Hok. destruct Hok as [Hin Hout Hint Hnon] eqn:Heq. clear Heq.
  unfold deleteInRecord. rewrite (rec_find in_face). fold (in_map e). destruct (in_map e !! face) as [r|] eqn:Er.
  - apply rec_map_Some in Er as [Hr Hf]; [|done]. destruct (Hint r Hr) as (i & -> & En). eexists. split; [done|].
    destruct (rec_erase in_face (pit_inRecords e) face Hin) as [Em Hn].
    destruct (erase_nonce_ok (getNonce i) (pit_nonceList e) Hnon) as [Hnon' Hnl].
    split; [split; [exact Hn|exact Hout| |exact Hnon']|].
    + cbn. intros r0 Hr0. apply Hint. by apply elem_of_erase_first in Hr0.
    + split; [exact Em|]. split; [done|]. intros n. cbn. rewrite Hnl, En. split; intros [? Hne]; (split; [done|]); congruence.
  - exists e. split; [done|]. split; [done|]. split; [by rewrite delete_id|]. split; [by destruct e|].
    intros n. cbn. split; [by intros|by intros [? _]].
Qed.

Lemma insertOrUpdateOutRecord_ok now face i e :
  records_ok e -> canMatch i 0 e = Ok true -> expiry_of now i < 2 ^ 63 ->
  let info := match out_map e !! face with Some r => fr_info (or_record r) | None => ∅ end in
  let r := mkOutRecord (mkFaceRecord face (getNonce i) now (expiry_of now i) info) (out_map e !! face ≫= or_incomingNack) in
  exists e', insertOrUpdateOutRecord now face i e = Ok e' /\ records_ok e' /\ out_map e' = <[face := r]> (out_map e) /\
    e' = with_outRecords (pit_outRecords e') e.
Proof.
  intros Hok Hm He info r. destruct Hok as [Hin Hout Hint Hnon] eqn:Heq. clear Heq.
  destruct (rec_upsert out_face (pit_outRecords e) face (OutRecord_new face) r (OutRecord_update now i) Hout eq_refl)
    as (l & E & El & Hl); [|done|].
  { unfold OutRecord_update, FaceRecord_update. fold (expiry_of now i). rewrite (proj2 (Z.ltb_lt _ _) He). cbn [mbind result_bind].
    unfold r, info, out_map. destruct (rec_map out_face (pit_outRecords e) !! face) as [r0|] eqn:E0; cbn; [|done].
    apply rec_map_Some in E0 as [_ E0]; [|done]. unfold out_face in E0. by rewrite E0. }
  unfold insertOrUpdateOutRecord. rewrite Hm. cbn [mbind result_bind]. rewrite E. cbn [mbind result_bind].
  eexists. split; [done|]. split; [|split; [exact El|done]]. by split.
Qed.

Lemma deleteOutRecord_ok face e :
  records_ok e -> records_ok (deleteOutRecord face e) /\ out_map (deleteOutRecord face e) = delete face (out_map e).
Proof.
  intros [Hin Hout Hint Hnon]. destruct (rec_erase out_face (pit_outRecords e) face Hout) as [Em Hn].
  split; [by split|exact Em].
Qed.

Lemma pit_Entry_new_ok i : records_ok (pit_Entry_new i).
Proof.
  split; cbn; [apply NoDup_nil_2|apply NoDup_nil_2| |apply NoDup_singleton].
  by intros r ?%not_elem_of_nil.
Qed.

(** ** The PIT as a map *)
Section pit_map.
Context `{HashFunction}.
Context (o : HashtableOptions) (limit : Z) (counts : list Z) (Hcounts : counts_ok o limit counts = true).
Implicit Types (s : NfdTables) (x loc : nat) (e : pit_Entry).

(** An entry that is attached to the name tree. *)
Definition attached (E : gmap nat pit_Entry) loc e : Prop := E !! loc = Some e /\ is_Some (pit_nte e).

(** The attached entries by name and selectors. *)
Definition key_map (E : gmap nat pit_Entry) : gmap (Name * (Z * Z * octets)) nat :=
  list_to_map ((fun p => (pit_key p.2, p.1)) <$> map_to_list (filter (fun p => is_Some (pit_nte p.2)) E)).
Definition pit_map s : gmap (Name * (Z * Z * octets)) nat := key_map (pit_entries s).

(** The lists [P] of PIT entries that the name tree entries hold, with their names, and
    the heap [E]. *)
Record pit_ok (P : nat -> Name -> list nat -> Prop) (E : gmap nat pit_Entry) : Prop := {
  po_listed x name l loc : P x name l -> loc ∈ l ->
    exists e, E !! loc = Some e /\ pit_nte e = Some x /\
      let n := i_name (pit_interest e) in name = take (nteDepth n) n;
  po_attached loc e x : E !! loc = Some e -> pit_nte e = Some x -> exists name l, P x name l /\ loc ∈ l;
  po_NoDup x name l : P x name l -> NoDup l;
  po_unique loc loc' e e' : attached E loc e -> attached E loc' e' -> pit_key e = pit_key e' -> loc = loc';
  po_entries loc e : E !! loc = Some e -> sel_ok (i_selectors (pit_interest e)) /\ records_ok e;
}.

Lemma key_map_at E k loc :
  (forall l l' e e', attached E l e -> attached E l' e' -> pit_key e = pit_key e' -> l = l') ->
  key_map E !! k = Some loc <-> exists e, attached E loc e /\ pit_key e = k.
Proof.
  intros Hu. unfold key_map. rewrite <- elem_of_list_to_map.
  - rewrite list_elem_of_fmap. split.
    + intros ([l e] & [= -> ->] & [? ?]%elem_of_map_to_list%map_lookup_filter_Some). by exists e.
    + intros (e & [? ?] & <-). exists (loc, e). split; [done|]. by apply elem_of_map_to_list, map_lookup_filter_Some.
  - rewrite <- list_fmap_compose. apply NoDup_fmap_2_strong; [|apply NoDup_map_to_list].
    intros [l e] [l' e'] [? ?]%elem_of_map_to_list%map_lookup_filter_Some [? ?]%elem_of_map_to_list%map_lookup_filter_Some Ek.
    assert (l = l') as -> by (by apply (Hu l l' e e')). congruence.
Qed.

(** Two heaps with the same attached keys. *)
Lemma key_map_ext E E' :
  (forall l l' e e', attached E l e -> attached E l' e' -> pit_key e = pit_key e' -> l = l') ->
  (forall l l' e e', attached E' l e -> attached E' l' e' -> pit_key e = pit_key e' -> l = l') ->
  (forall loc k, (exists e, attached E loc e /\ pit_key e = k) <-> exists e, attached E' loc e /\ pit_key e = k) ->
  key_map E' = key_map E.
Proof.
  intros H1 H2 Heq. apply map_eq. intros k. apply option_eq. intros loc. by rewrite !key_map_at, Heq.
Qed.

(** Attaching a new entry. *)
Lemma pit_ok_attach P E x name l loc i (P' : nat -> Name -> list nat -> Prop) :
  pit_ok P E -> P x name l -> E !! loc = None -> name = take (nteDepth (i_name i)) (i_name i) ->
  sel_ok (i_selectors i) -> key_map E !! interest_key i = None ->
  (forall l1 l2 nm1 nm2, P x nm1 l1 -> P x nm2 l2 -> l1 = l2) ->
  (forall y nm l', P' y nm l' <-> (y = x /\ nm = name /\ l' = l ++ [loc]) \/ (y <> x /\ P y nm l')) ->
  let e := with_nte (Some x) (pit_Entry_new i) in
  pit_ok P' (<[loc := e]> E) /\ key_map (<[loc := e]> E) = <[interest_key i := loc]> (key_map E).
Proof.
  intros [L A N U W] Hx Hloc Hname Hsel Hkey Hfun HP' e.
  assert (Hfresh : forall y nm l', P y nm l' -> loc ∉ l').
  { intros y nm l' Hy Hin. destruct (L y nm l' loc Hy Hin) as (e' & He' & _). congruence. }
  assert (Hatt : forall l' e', attached (<[loc := e]> E) l' e' <-> (l' = loc /\ e' = e) \/ attached E l' e').
  { intros l' e'. unfold attached. rewrite lookup_insert_Some. split.
    - intros [[[<- <-]|[Hne He']] Hs]; [by left|by right].
    - intros [[-> ->]|[He' Hs]]; [split; [by left|done]|]. split; [right|done]. split; [congruence|done]. }
  assert (Hnew : forall l' e', attached E l' e' -> pit_key e' <> interest_key i).
  { intros l' e' Ha Ek. assert (Hs : key_map E !! interest_key i = Some l') by (apply key_map_at; [done|by exists e']). congruence. }
  assert (U' : forall l1 l2 e1 e2, attached (<[loc := e]> E) l1 e1 -> attached (<[loc := e]> E) l2 e2 -> pit_key e1 = pit_key e2 -> l1 = l2).
  { intros l1 l2 e1 e2 [[-> ->]|H1]%Hatt [[-> ->]|H2]%Hatt Ek; [done| | |by apply (U l1 l2 e1 e2)].
    - exfalso. by apply (Hnew l2 e2 H2).
    - exfalso. by apply (Hnew l1 e1 H1). }
  split.
  - split.
    + intros y nm l' loc' [(-> & -> & ->)|[Hy Hp]]%HP' Hin.
      * apply elem_of_app in Hin as [Hin| ->%list_elem_of_singleton].
        -- destruct (L x name l loc' Hx Hin) as (e' & He' & Hn). exists e'. split; [rewrite lookup_insert_ne; [done|congruence]|done].
        -- exists e. by rewrite lookup_insert_eq.
      * destruct (L y nm l' loc' Hp Hin) as (e' & He' & Hn). exists e'. split; [rewrite lookup_insert_ne; [done|congruence]|done].
    + intros loc' e' y [[<- <-]|[Hne He']]%lookup_insert_Some Hy.
      * injection Hy as <-. exists name, (l ++ [loc]). split; [apply HP'; by left|]. apply elem_of_app. right. by left.
      * destruct (A loc' e' y He' Hy) as (nm & l' & Hp & Hin). destruct (decide (y = x)) as [->|Hyx].
        -- exists name, (l ++ [loc]). split; [apply HP'; by left|]. apply elem_of_app. left. by rewrite (Hfun l l' name nm).
        -- exists nm, l'. split; [apply HP'; by right|done].
    + intros y nm l' [(-> & -> & ->)|[Hy Hp]]%HP'; [|by eapply N]. apply NoDup_app. split; [by eapply N|].
      split; [|apply NoDup_singleton]. intros z Hz ->%list_elem_of_singleton. by eapply Hfresh.
    + done.
    + intros loc' e' [[<- <-]|[_ He']]%lookup_insert_Some; [|by apply W in He']. split; [done|].
      destruct (pit_Entry_new_ok i) as [? ? ? ?]. by split.
  - apply map_eq. intros k. apply option_eq. intros l'. rewrite key_map_at by done. split.
    + intros (e' & [[-> ->]|Ha]%Hatt & <-); [apply lookup_insert_eq|]. rewrite lookup_insert_ne; [apply key_map_at; [done|by exists e']|].
      intros Ek. by apply (Hnew l' e' Ha).
    + intros [[<- <-]|[Hne (e' & Ha & Ek)%key_map_at]]%lookup_insert_Some; [|exists e'; split; [apply Hatt; by right|done]|done].
      exists e. split; [apply Hatt; by left|done].
Qed.

(** Detaching an entry. *)
Lemma pit_ok_detach P E x name l l1 loc e (P' : nat -> Name -> list nat -> Prop) :
  pit_ok P E -> P x name l -> E !! loc = Some e -> pit_nte e = Some x ->
  NoDup l1 -> (forall y, y ∈ l1 <-> y ∈ l /\ y <> loc) ->
  (forall l1 l2 nm1 nm2, P x nm1 l1 -> P x nm2 l2 -> l1 = l2) ->
  (forall y nm l', P' y nm l' <-> (y = x /\ nm = name /\ l' = l1) \/ (y <> x /\ P y nm l')) ->
  pit_ok P' (<[loc := with_nte None e]> E) /\ key_map (<[loc := with_nte None e]> E) = delete (pit_key e) (key_map E).
Proof.
  intros [L A N U W] Hx Hloc Hnte Hn1 Hl1 Hfun HP'.
  assert (Hatt : forall l' e', attached (<[loc := with_nte None e]> E) l' e' <-> l' <> loc /\ attached E l' e').
  { intros l' e'. unfold attached. rewrite lookup_insert_Some. split.
    - intros [[[<- <-]|[Hne He']] Hs]; [by destruct Hs|]. split; [congruence|done].
    - intros [Hne [He' Hs]]. split; [right|done]. split; [congruence|done]. }
  assert (U' : forall l1 l2 e1 e2, attached (<[loc := with_nte None e]> E) l1 e1 ->
    attached (<[loc := with_nte None e]> E) l2 e2 -> pit_key e1 = pit_key e2 -> l1 = l2).
  { intros l2 l3 e2 e3 [_ H2]%Hatt [_ H3]%Hatt Ek. by apply (U l2 l3 e2 e3). }
  assert (Hother : forall y nm l' loc', P y nm l' -> loc' ∈ l' -> loc' <> loc -> exists e',
    <[loc := with_nte None e]> E !! loc' = Some e' /\ pit_nte e' = Some y /\ let n := i_name (pit_interest e') in nm = take (nteDepth n) n).
  { intros y nm l' loc' Hp Hin Hne. destruct (L y nm l' loc' Hp Hin) as (e' & He' & Hn). exists e'. by rewrite lookup_insert_ne. }
  split.
  - split.
    + intros y nm l' loc' [(-> & -> & ->)|[Hy Hp]]%HP' Hin.
      * apply Hl1 in Hin as [Hin Hne]. by apply (Hother x name l).
      * apply (Hother y nm l'); [done|done|]. intros ->. destruct (L y nm l' loc Hp Hin) as (e' & He' & Hn' & _). congruence.
    + intros loc' e' y [[<- <-]|[Hne He']]%lookup_insert_Some Hy; [done|].
      destruct (A loc' e' y He' Hy) as (nm & l' & Hp & Hin). destruct (decide (y = x)) as [->|Hyx].
      * exists name, l1. split; [apply HP'; by left|]. apply Hl1. split; [by rewrite (Hfun l l' name nm)|congruence].
      * exists nm, l'. split; [apply HP'; by right|done].
    + intros y nm l' [(-> & -> & ->)|[Hy Hp]]%HP'; [done|by eapply N].
    + done.
    + intros loc' e' [[<- <-]|[_ He']]%lookup_insert_Some; [|by apply W in He']. destruct (W loc e Hloc) as [Hs [? ? ? ?]]. split; [done|by split].
  - apply map_eq. intros k. apply option_eq. intros l'. rewrite key_map_at, lookup_delete_Some, key_map_at by done. split.
    + intros (e' & [Hne Ha]%Hatt & <-). split; [|by exists e']. intros Ek. apply Hne.
      apply (U l' loc e' e); [done|split; [done|by rewrite Hnte]|done].
    + intros [Hne (e' & Ha & <-)]. exists e'. split; [|done]. apply Hatt. split; [|done]. intros ->. destruct Ha as [Ha _]. congruence.
Qed.

(** Changing anything but name, selectors and name tree entry. *)
Lemma pit_ok_modify P E loc e e' :
  pit_ok P E -> E !! loc = Some e -> pit_nte e' = pit_nte e -> i_name (pit_interest e') = i_name (pit_interest e) ->
  i_selectors (pit_interest e') = i_selectors (pit_interest e) -> records_ok e' ->
  pit_ok P (<[loc := e']> E) /\ key_map (<[loc := e']> E) = key_map E.
Proof.
  intros [L A N U W] Hloc Hnte Hnm Hsl Hrec.
  assert (Hkey : pit_key e' = pit_key e) by (unfold pit_key, interest_key; by rewrite Hnm, Hsl).
  assert (Hatt : forall l e1, attached (<[loc := e']> E) l e1 -> exists e2, attached E l e2 /\ pit_key e2 = pit_key e1).
  { intros l e1 [[[<- <-]|[Hne He]]%lookup_insert_Some Hs]; [|by exists e1]. exists e.
    split; [split; [done|by rewrite <- Hnte]|done]. }
  assert (U' : forall l1 l2 e1 e2, attached (<[loc := e']> E) l1 e1 -> attached (<[loc := e']> E) l2 e2 -> pit_key e1 = pit_key e2 -> l1 = l2).
  { intros l1 l2 e1 e2 (e3 & H3 & K3)%Hatt (e4 & H4 & K4)%Hatt Ek. apply (U l1 l2 e3 e4); [done|done|congruence]. }
  split; [split|].
  - intros x name l loc' Hp Hin. destruct (L x name l loc' Hp Hin) as (e1 & He1 & Hn & Hnm1). destruct (decide (loc' = loc)) as [->|Hne].
    + simplify_eq. exists e'. rewrite lookup_insert_eq, Hnte, Hnm. done.
    + exists e1. by rewrite lookup_insert_ne.
  - intros loc' e1 x [[<- <-]|[Hne He]]%lookup_insert_Some Hx; [apply (A loc e x); [done|congruence]|by eapply A].
  - done.
  - done.
  - intros loc' e1 [[<- <-]|[_ He]]%lookup_insert_Some; [rewrite Hsl; split; [by apply (W loc e)|done]|by eapply W].
  - apply key_map_ext; [done|done|]. intros l k. split.
    + intros (e1 & [He Hs] & <-). destruct (decide (l = loc)) as [->|Hne].
      * assert (e1 = e) as -> by congruence. exists e'. split; [split; [apply lookup_insert_eq|by rewrite Hnte]|done].
      * exists e1. split; [split; [by rewrite lookup_insert_ne|done]|done].
    + intros (e1 & (e2 & H2 & K2)%Hatt & <-). by exists e2.
Qed.

(** *** In the name tree *)

Definition pit_lists (h : Hashtable Tables) x (name : Name) (l : list nat) : Prop :=
  exists n, ht_nodes h !! x = Some n /\ nd_name n = name /\ tb_pit (nd_tables n) = l.

Record pit_inv s : Prop := {
  pv_tree : nt_inv o counts (t_nameTree s);
  pv_ok : pit_ok (pit_lists (t_nameTree s)) (pit_entries s);
  pv_fresh loc : is_Some (pit_entries s !! loc) -> (loc < pit_fresh s)%nat;
  pv_count : pit_nItems s = u64 (Z.of_nat (size (pit_map s)));
}.

(** Only the PIT changes. *)
Definition pit_frame s s' : Prop :=
  keeps (setPitEntries []) (t_nameTree s) (t_nameTree s') /\
  s' = with_pit (pit_entries s') (pit_fresh s') (pit_nItems s') (with_nameTree (t_nameTree s') s).

Lemma pit_ok_keeps h h' E : keeps tb_pit h h' -> pit_ok (pit_lists h) E -> pit_ok (pit_lists h') E.
Proof.
  intros [K K'] [L A N U W]. split.
  - intros x name l loc (n & Hx & <- & <-) Hin. destruct (K' x n Hx) as (n' & Hx' & <- & Et).
    { intros E0. rewrite E0 in Hin. by apply not_elem_of_nil in Hin. }
    apply (L x (nd_name n') (tb_pit (nd_tables n'))); [by exists n'|by rewrite Et].
  - intros loc e x He Hx. destruct (A loc e x He Hx) as (nm & l & (n & Hn & <- & <-) & Hin).
    destruct (K x n Hn) as (n' & Hn' & En & Et).
    { intros E0. rewrite E0 in Hin. by apply not_elem_of_nil in Hin. }
    exists (nd_name n'), (tb_pit (nd_tables n')). split; [by exists n'|by rewrite Et].
  - intros x name l (n & Hx & _ & <-). destruct (tb_pit (nd_tables n)) as [|y l'] eqn:El; [apply NoDup_nil_2|].
    destruct (K' x n Hx) as (n' & Hx' & _ & Et); [by rewrite El|]. rewrite <- El, <- Et. apply (N x (nd_name n')). by exists n'.
  - done.
  - done.
Qed.

(** The other tables may change. *)
Lemma pit_inv_frame s s' :
  pit_inv s -> nt_inv o counts (t_nameTree s') -> keeps tb_pit (t_nameTree s) (t_nameTree s') ->
  pit_entries s' = pit_entries s -> pit_fresh s' = pit_fresh s -> pit_nItems s' = pit_nItems s -> pit_inv s'.
Proof.
  intros [Ht Hok Hf Hc] Ht' Hk E1 E2 E3. split; [done| |by rewrite E1, E2|unfold pit_map; by rewrite E1, E3].
  rewrite E1. by eapply pit_ok_keeps.
Qed.

Lemma pit_lists_update h h' x n f :
  ht_nodes h !! x = Some n -> ht_nodes h' = <[x := set_tables (f (nd_tables n)) n]> (ht_nodes h) ->
  forall y nm l, pit_lists h' y nm l <->
    (y = x /\ nm = nd_name n /\ l = tb_pit (f (nd_tables n))) \/ (y <> x /\ pit_lists h y nm l).
Proof.
  intros Hx E y nm l. unfold pit_lists. rewrite E. split.
  - intros (m & [[<- <-]|[Hne Hm]]%lookup_insert_Some & <- & <-); [by left|right]. split; [done|by exists m].
  - intros [(-> & -> & ->)|[Hne (m & Hm & <- & <-)]].
    + eexists. by rewrite lookup_insert_eq.
    + exists m. by rewrite lookup_insert_ne.
Qed.

Lemma update_first_perm {A} (p : A -> bool) (b : A) l : existsb p l = true ->
  update_first p (fun _ => b) l ≡ₚ b :: erase_first p l.
Proof.
  induction l as [|x l IH]; cbn; [done|]. destruct (p x); [done|]. cbn. intros E. rewrite IH by done. apply Permutation_swap.
Qed.
Lemma update_first_app {A} (p : A -> bool) (f : A -> A) l1 l2 : existsb p l1 = true ->
  update_first p f (l1 ++ l2) = update_first p f l1 ++ l2.
Proof. induction l1 as [|x l IH]; cbn; [done|]. destruct (p x); [done|]. cbn. intros E. by rewrite IH. Qed.
Lemma update_first_miss {A} (p : A -> bool) (f : A -> A) l (x : A) : existsb p l = false -> p x = true ->
  update_first p f (l ++ [x]) = l ++ [f x].
Proof. intros E Hx. induction l as [|y l IH]; cbn in *; [by rewrite Hx|]. destruct (p y); [done|]. cbn. by rewrite IH. Qed.
Lemma erase_first_app {A} (p : A -> bool) l1 l2 : existsb p l1 = true ->
  erase_first p (l1 ++ l2) = erase_first p l1 ++ l2.
Proof. induction l1 as [|x l IH]; cbn; [done|]. destruct (p x); [done|]. cbn. intros E. by rewrite IH. Qed.
Lemma erase_first_miss {A} (p : A -> bool) l (x : A) : existsb p l = false -> p x = true -> erase_first p (l ++ [x]) = l.
Proof. intros E Hx. induction l as [|y l IH]; cbn in *; [by rewrite Hx|]. destruct (p y); [done|]. cbn. by rewrite IH. Qed.

Lemma erase_swap_perm loc l : existsb (Nat.eqb loc) l = true -> erase_swap loc l ≡ₚ erase_first (Nat.eqb loc) l.
Proof.
  intros Hex. destruct l as [|b l _] using rev_ind; [done|]. unfold erase_swap. rewrite last_snoc.
  rewrite existsb_app in Hex. destruct (existsb (Nat.eqb loc) l) eqn:E.
  - rewrite update_first_app, removelast_last, erase_first_app, update_first_perm by done. apply Permutation_cons_append.
  - cbn in Hex. rewrite orb_false_r in Hex. rewrite update_first_miss, removelast_last, erase_first_miss by done. done.
Qed.

Lemma elem_of_existsb loc l : existsb (Nat.eqb loc) l = bool_decide (loc ∈ l).
Proof.
  apply eq_true_iff_eq. rewrite existsb_exists, bool_decide_eq_true. split.
  - intros (y & Hy & ->%Nat.eqb_eq). by apply list_elem_of_In.
  - intros Hl%list_elem_of_In. exists loc. split; [done|apply Nat.eqb_refl].
Qed.

Lemma erase_swap_ok loc l : NoDup l -> loc ∈ l ->
  NoDup (erase_swap loc l) /\ forall y, y ∈ erase_swap loc l <-> y ∈ l /\ y <> loc.
Proof.
  intros Hn Hin. assert (Hex : existsb (Nat.eqb loc) l = true) by (by rewrite elem_of_existsb, bool_decide_true).
  pose proof (erase_swap_perm loc l Hex) as Hp. split; [rewrite Hp; by apply NoDup_erase_first|].
  intros y. rewrite Hp. split.
  - intros Hy. split; [by apply elem_of_erase_first in Hy|]. intros ->. by apply (erase_first_eq_NoDup loc l Hn).
  - intros [Hy Hne]. apply elem_of_erase_first_ne; [done|]. by apply Nat.eqb_neq.
Qed.

(** *** Operations *)

Lemma nteDepth_bounds name : (nteDepth name <= length name)%nat /\ (nteDepth name <= getMaxDepth)%nat.
Proof. unfold nteDepth. destruct (match last name with Some c => _ | None => false end); lia. Qed.

Lemma find_match_list s i k locs :
  sel_ok (i_selectors i) ->
  (forall loc, loc ∈ locs -> exists e, pit_entries s !! loc = Some e /\ sel_ok (i_selectors (pit_interest e)) /\
     take k (i_name (pit_interest e)) = take k (i_name i)) ->
  exists r, find_match i k locs s = Ok r /\
    match r with
    | Some loc => loc ∈ locs /\ exists e, pit_entries s !! loc = Some e /\ pit_key e = interest_key i
    | None => forall loc e, loc ∈ locs -> pit_entries s !! loc = Some e -> pit_key e <> interest_key i
    end.
Proof.
  intros Hsel. induction locs as [|loc locs IH]; intros Hall; [exists None; split; [done|]; by intros ? ? ?%not_elem_of_nil|].
  destruct (Hall loc) as (e & He & Hs & Ht); [by left|]. cbn [find_match]. unfold pit_deref. rewrite He. cbn [mbind result_bind].
  rewrite canMatch_ok by done. cbn [mbind result_bind]. case_bool_decide as Ek.
  - exists (Some loc). split; [done|]. split; [by left|by exists e].
  - destruct IH as (r & -> & Hr); [intros l Hl; apply Hall; by right|]. exists r. split; [done|]. destruct r as [l|].
    + destruct Hr as [Hl Hr]. split; [by right|done].
    + intros l e' [->|Hl]%elem_of_cons He'; [by simplify_eq|by eapply Hr].
Qed.

Lemma pit_lists_fun h x l1 l2 nm1 nm2 : pit_lists h x nm1 l1 -> pit_lists h x nm2 l2 -> l1 = l2.
Proof. intros (n & Hn & _ & <-) (m & Hm & _ & <-). by simplify_eq. Qed.

Lemma find_match_ok s x n i :
  pit_inv s -> sel_ok (i_selectors i) -> ht_nodes (t_nameTree s) !! x = Some n ->
  nd_name n = take (nteDepth (i_name i)) (i_name i) ->
  find_match i (nteDepth (i_name i)) (tb_pit (nd_tables n)) s = Ok (pit_map s !! interest_key i).
Proof.
  intros [Ht [L A N U W] Hf Hc] Hsel Hx Hname. destruct (nteDepth_bounds (i_name i)) as [Hd _].
  destruct (find_match_list s i (nteDepth (i_name i)) (tb_pit (nd_tables n)) Hsel) as (r & -> & Hr).
  { intros loc Hin. destruct (L x (nd_name n) (tb_pit (nd_tables n)) loc) as (e & He & _ & En); [by exists n|done|].
    exists e. split; [done|]. split; [by apply (W loc)|]. rewrite <- Hname. cbn in En.
    destruct (nteDepth_bounds (i_name (pit_interest e))) as [Hd' _].
    assert (El : nteDepth (i_name (pit_interest e)) = nteDepth (i_name i)).
    { apply (f_equal length) in En, Hname. rewrite length_take in En, Hname. lia. }
    by rewrite En, El. }
  f_equal. symmetry. destruct r as [loc|].
  - destruct Hr as (Hin & e & He & Ek). apply key_map_at; [done|]. exists e. split; [|done]. split; [done|].
    destruct (L x (nd_name n) (tb_pit (nd_tables n)) loc) as (e' & He' & Hn & _); [by exists n|done|]. simplify_eq. by rewrite Hn.
  - destruct (pit_map s !! interest_key i) as [loc|] eqn:E; [|done]. exfalso.
    apply key_map_at in E as (e & [He [y Hy]] & Ek); [|done]. apply (Hr loc e); [|done|done].
    destruct (A loc e y He Hy) as (nm & l & Hl & Hin). pose proof Hl as (m & Hm & Em & El).
    destruct (L y nm l loc Hl Hin) as (e' & He' & _ & En). simplify_eq. injection Ek as Ei _. rewrite Ei in En.
    assert (y = x) as ->; [|by simplify_eq].
    apply (do_names _ _ (hi_data _ _ _ (ni_table _ _ _ Ht)) y x m n); [done|done|by rewrite En, Hname].
Qed.

(** The new entry of an Interest, attached. *)
Lemma attach_new_ok s x n i :
  pit_inv s -> sel_ok (i_selectors i) -> ht_nodes (t_nameTree s) !! x = Some n ->
  nd_name n = take (nteDepth (i_name i)) (i_name i) -> pit_map s !! interest_key i = None ->
  exists s', (let '(loc, s) := make_pit_entry i s in
     let* s := insertPitEntry x loc s in
     Ok (Some loc, true, with_pit (pit_entries s) (pit_fresh s) (u64 (pit_nItems s + 1)) s)) = Ok (Some (pit_fresh s), true, s') /\
    pit_inv s' /\ pit_frame s s' /\ pit_map s' = <[interest_key i := pit_fresh s]> (pit_map s) /\
    pit_entries s' = <[pit_fresh s := with_nte (Some x) (pit_Entry_new i)]> (pit_entries s).
Proof.
  intros [Ht Hok Hf Hc] Hsel Hx Hname Hnone. set (loc := pit_fresh s).
  assert (Hloc : pit_entries s !! loc = None).
  { destruct (pit_entries s !! loc) as [e|] eqn:E; [|done]. pose proof (Hf loc (ex_intro _ e E)). unfold loc in *. lia. }
  destruct (nt_update_ok o counts x (fun t => setPitEntries (tb_pit t ++ [loc]) t) (t_nameTree s) n Ht Hx) as (h & E & Ht1 & Hh & _ & _ & _).
  unfold make_pit_entry, insertPitEntry, pit_deref. fold loc. cbn [pit_entries with_pit]. rewrite lookup_insert_eq. cbn [mbind result_bind].
  cbn [pit_nte pit_Entry_new]. rewrite bool_decide_true by done. cbn [t_nameTree with_pit with_nameTree]. rewrite E. cbn [mbind result_bind].
  eexists. split; [done|].
  destruct (pit_ok_attach (pit_lists (t_nameTree s)) (pit_entries s) x (nd_name n) (tb_pit (nd_tables n)) loc i (pit_lists h)) as [Hok' Hm];
    [done|by exists n|done|done|done|done|by apply pit_lists_fun|by apply (pit_lists_update _ _ x n (fun t => setPitEntries (tb_pit t ++ [loc]) t))|].
  unfold pit_store, with_nameTree, with_pit, pit_map, pit_frame. cbn. rewrite insert_insert_eq.
  split; [split; cbn; [done|done| |]|split; [split; [by eapply keeps_update|done]|by split]].
  - intros l [e [[<- _]|[_ He]]%lookup_insert_Some]; [lia|]. pose proof (Hf l (ex_intro _ e He)). lia.
  - unfold pit_map. cbn. rewrite Hm, map_size_insert_None, Hc by done. apply u64_of_succ.
Qed.

Lemma pit_frame_trans s1 s2 s3 : pit_frame s1 s2 -> pit_frame s2 s3 -> pit_frame s1 s3.
Proof. intros [K1 E1] [K2 E2]. split; [by etrans|]. rewrite E2, E1. done. Qed.

Lemma pit_insert_ok s i :
  pit_inv s -> sel_ok (i_selectors i) -> m_htSize (t_nameTree s) + Z.of_nat (S getMaxDepth) <= limit ->
  exists loc s', pit_insert i s = Ok (Some loc, negb (is_some (pit_map s !! interest_key i)), s') /\
    pit_inv s' /\ pit_frame s s' /\
    match pit_map s !! interest_key i with
    | Some loc' => loc = loc' /\ pit_map s' = pit_map s /\ pit_entries s' = pit_entries s
    | None => pit_entries s !! loc = None /\ pit_map s' = <[interest_key i := loc]> (pit_map s) /\
        exists x, pit_entries s' = <[loc := with_nte (Some x) (pit_Entry_new i)]> (pit_entries s)
    end.
Proof.
  intros Hi Hsel Hlim. destruct (nteDepth_bounds (i_name i)) as [Hd Hm].
  destruct (nt_lookup_ok o limit counts Hcounts (t_nameTree s) (i_name i) (nteDepth (i_name i)) (pv_tree _ Hi) Hd Hm Hlim)
    as (x & n & h & El & Ht1 & Hx & En & Et & Hg & Hta).
  set (s1 := with_nameTree h s).
  assert (Hi1 : pit_inv s1) by (eapply pit_inv_frame; [exact Hi|exact Ht1|by eapply keeps_grown|done|done|done]).
  assert (Hf1 : pit_frame s s1) by (split; [by eapply keeps_grown|by destruct s]).
  unfold pit_insert, pit_findOrInsert. cbv zeta. rewrite El. cbn [mbind result_bind]. fold s1. unfold deref.
  change (ht_nodes (t_nameTree s1)) with (ht_nodes h). rewrite Hx. cbn [mbind result_bind].
  rewrite (find_match_ok s1 x n i Hi1 Hsel Hx En). cbn [mbind result_bind]. change (pit_map s1) with (pit_map s).
  destruct (pit_map s !! interest_key i) as [loc|] eqn:E; cbn [is_some negb].
  - exists loc, s1. split; [done|]. by split_and!.
  - destruct (attach_new_ok s1 x n i Hi1 Hsel Hx En E) as (s' & -> & Hi' & Hf' & Hm' & He').
    exists (pit_fresh s1), s'. split; [done|]. split; [done|]. split; [by eapply pit_frame_trans|].
    split; [|by eauto]. destruct (pit_entries s !! pit_fresh s1) as [e|] eqn:Ee; [|done].
    pose proof (pv_fresh _ Hi1 (pit_fresh s1) (ex_intro _ e Ee)). lia.
Qed.

(** [find] fails only at an empty name tree entry that another table left over. *)
Lemma pit_find_ok s i :
  pit_inv s -> sel_ok (i_selectors i) -> tight_but (t_nameTree s) None ->
  pit_find i s = Ok (pit_map s !! interest_key i).
Proof.
  intros Hi Hsel Htight. unfold pit_find, pit_findOrInsert. cbv zeta.
  rewrite (findExactMatch_ok o counts) by apply Hi. cbn [mbind result_bind].
  destruct (ht_map (t_nameTree s) !! take (nteDepth (i_name i)) (i_name i)) as [x|] eqn:E.
  - apply ht_map_at in E as (n & Hx & En); [|apply Hi]. unfold deref. rewrite Hx. cbn [mbind result_bind].
    rewrite (find_match_ok s x n i Hi Hsel Hx En). cbn [mbind result_bind].
    destruct (pit_map s !! interest_key i); [done|]. cbn [negb]. by rewrite (Htight x n Hx).
  - cbn [mbind result_bind fst snd]. f_equal. symmetry. destruct (pit_map s !! interest_key i) as [loc|] eqn:Em; [|done]. exfalso.
    pose proof (pv_ok _ Hi) as [L A N U W].
    apply key_map_at in Em as (e & [He [y Hy]] & Ek); [|done]. destruct (A loc e y He Hy) as (nm & l & Hl & Hin).
    pose proof Hl as (m & Hm & Em & El). destruct (L y nm l loc Hl Hin) as (e' & He' & _ & En). simplify_eq.
    injection Ek as Ei _. rewrite Ei in En.
    apply (proj1 (ht_map_None (t_nameTree s) _ (hi_data _ _ _ (ni_table _ _ _ (pv_tree _ Hi)))) E y). by exists m.
Qed.

Lemma pit_erase_ok s loc e can :
  pit_inv s -> attached (pit_entries s) loc e ->
  exists s', pit_erase loc can s = Ok s' /\ pit_inv s' /\ pit_frame s s' /\
    pit_map s' = delete (pit_key e) (pit_map s) /\ pit_entries s' = <[loc := with_nte None e]> (pit_entries s) /\
    (can = true -> tight_but (t_nameTree s) None -> tight_but (t_nameTree s') None).
Proof.
  intros [Ht Hok Hf Hc] Ha. pose proof Ha as [He [x Hx]]. destruct (po_attached _ _ Hok loc e x He Hx) as (nm & l & Hl & Hin).
  pose proof Hl as (n & Hn & <- & Etb). pose proof (po_NoDup _ _ Hok x _ _ Hl) as Hnd.
  destruct (erase_swap_ok loc l Hnd Hin) as [Hnd' Hel].
  destruct (nt_update_ok o counts x (fun t => setPitEntries (erase_swap loc (tb_pit t)) t) (t_nameTree s) n Ht Hn) as (h & E & Ht1 & Hh & _ & _ & _).
  assert (Hn1 : ht_nodes h !! x = Some (set_tables (setPitEntries (erase_swap loc (tb_pit (nd_tables n))) (nd_tables n)) n))
    by (rewrite Hh; apply lookup_insert_eq).
  destruct (pit_ok_detach (pit_lists (t_nameTree s)) (pit_entries s) x (nd_name n) l (erase_swap loc l) loc e (pit_lists h)) as [Hok' Hm'];
    [done|done|done|done|done|done|by apply pit_lists_fun|rewrite <- Etb;
     by apply (pit_lists_update _ _ x n (fun t => setPitEntries (erase_swap loc (tb_pit t)) t))|].
  assert (Hsz : u64 (pit_nItems s - 1) = u64 (Z.of_nat (size (delete (pit_key e) (pit_map s))))).
  { assert (Hk : pit_map s !! pit_key e = Some loc) by (apply key_map_at; [apply Hok|by exists e]).
    rewrite Hc, map_size_delete_Some by (by eexists). apply u64_of_pred.
    apply Nat.neq_0_lt_0. intros Hz%map_size_empty_inv. by rewrite Hz, lookup_empty in Hk. }
  assert (Hfr : forall l', is_Some (<[loc := with_nte None e]> (pit_entries s) !! l') -> (l' < pit_fresh s)%nat).
  { intros l' [e' [[<- _]|[_ He']]%lookup_insert_Some]; apply Hf; by eexists. }
  unfold pit_erase, erasePitEntry, pit_deref. rewrite He. cbn [mbind result_bind]. rewrite Hx. cbn [mbind result_bind].
  rewrite bool_decide_true by done. unfold deref. rewrite Hn. cbn [mbind result_bind]. rewrite Etb, elem_of_existsb, bool_decide_true by done.
  cbn [t_nameTree pit_store with_pit]. rewrite E. cbn [mbind result_bind t_nameTree with_nameTree].
  assert (Hk1 : keeps (setPitEntries []) (t_nameTree s) h) by (by eapply keeps_update).
  destruct can.
  - destruct (nt_erase_ok o limit counts Hcounts h x _ true Ht1 Hn1) as (k & h' & -> & Ht2 & Hsh & _ & Hta & Htight & _).
    cbn [mbind result_bind snd]. eexists. split; [done|]. split; [split; cbn; [done|by eapply pit_ok_keeps, Hok'; eapply keeps_shrunk|done|]|].
    + unfold pit_map. cbn. by rewrite Hm'.
    + split; [split; [by etrans; [exact Hk1|eapply keeps_shrunk]|by destruct s]|]. split; [exact Hm'|]. split; [done|].
      intros _ Htt. apply Htight; [done|]. intros y m. rewrite Hh. intros [[<- _]|[Hy Hm]]%lookup_insert_Some Hne; [done|by eapply Htt].
  - cbn [mbind result_bind]. eexists. split; [done|]. split; [split; cbn; [done|done|done|]|].
    + unfold pit_map. cbn. by rewrite Hm'.
    + split; [split; [exact Hk1|by destruct s]|]. split; [exact Hm'|]. by split.
Qed.

Lemma pit_modify_ok s loc e e' f :
  pit_inv s -> pit_entries s !! loc = Some e -> f e = Ok e' ->
  pit_nte e' = pit_nte e -> i_name (pit_interest e') = i_name (pit_interest e) ->
  i_selectors (pit_interest e') = i_selectors (pit_interest e) -> records_ok e' ->
  exists s', pit_modify loc f s = Ok s' /\ pit_inv s' /\ pit_map s' = pit_map s /\ t_nameTree s' = t_nameTree s /\
    s' = pit_store loc e' s.
Proof.
  intros [Ht Hok Hf Hc] He Hfe Hnte Hnm Hsl Hrec. unfold pit_modify, pit_deref. rewrite He. cbn [mbind result_bind]. rewrite Hfe. cbn [mbind result_bind].
  destruct (pit_ok_modify _ _ loc e e' Hok He Hnte Hnm Hsl Hrec) as [Hok' Hm].
  eexists. split; [done|]. split; [split; cbn; [done|done| |unfold pit_map; cbn; by rewrite Hm]|].
  - intros l [e1 [[<- _]|[_ He1]]%lookup_insert_Some]; apply Hf; by eexists.
  - split; [exact Hm|]. done.
Qed.

Lemma pit_deleteInOutRecords_ok s loc e face :
  pit_inv s -> pit_entries s !! loc = Some e ->
  exists s' e', pit_deleteInOutRecords loc face s = Ok s' /\ pit_inv s' /\ pit_map s' = pit_map s /\ s' = pit_store loc e' s /\
    in_map e' = delete face (in_map e) /\ out_map e' = delete face (out_map e) /\
    pit_interest e' = pit_interest e /\ pit_nte e' = pit_nte e /\
    e' = with_outRecords (pit_outRecords e') (with_inRecords (pit_inRecords e') (pit_nonceList e') e).
Proof.
  intros Hi He. destruct (po_entries _ _ (pv_ok _ Hi) loc e He) as [_ Hr].
  destruct (deleteInRecord_ok face e Hr) as (e1 & E1 & Hr1 & Hin1 & Ee1 & _).
  destruct (pit_modify_ok s loc e e1 (deleteInRecord face) Hi He E1) as (s1 & Es1 & Hi1 & Hm1 & Ht1 & ->);
    [by rewrite Ee1|by rewrite Ee1|by rewrite Ee1|done|].
  destruct (deleteOutRecord_ok face e1 Hr1) as [Hr2 Hout2].
  destruct (pit_modify_ok (pit_store loc e1 s) loc e1 (deleteOutRecord face e1) (fun e => Ok (deleteOutRecord face e)) Hi1)
    as (s2 & Es2 & Hi2 & Hm2 & _ & ->); [cbn; apply lookup_insert_eq|done|done|done|done|done|].
  unfold pit_deleteInOutRecords. rewrite Es1. cbn [mbind result_bind]. rewrite Es2.
  eexists _, (deleteOutRecord face e1). split; [done|]. split; [done|]. split; [by rewrite Hm2|].
  split; [unfold pit_store, with_pit; cbn; by rewrite insert_insert_eq|]. split; [exact Hin1|]. split; [rewrite Hout2; by rewrite Ee1|].
  split; [by rewrite Ee1|]. split; [by rewrite Ee1|]. by rewrite Ee1.
Qed.

(** *** Data *)
Section data.
Context (sha256 : octets -> octets) (data : Data).

(** The name tree entry of a matching Interest is named by a prefix of the Data name. *)
Lemma matchesData_prefix i :
  matchesData sha256 i data = Ok true -> take (nteDepth (i_name i)) (i_name i) `prefix_of` d_name data.
Proof.
  unfold matchesData. cbv zeta. destruct (negb _); [done|]. destruct (_ && _); [done|]. intros (p & Hp & Hr)%result_bind_Ok.
  destruct p; [|done]. clear Hr. unfold matches_prefix in Hp. cbv zeta in Hp.
  destruct (name_size (i_name i) =? name_size (d_name data) + 1) eqn:En; zbool.
  - apply result_bind_Ok in Hp as (c & _ & Hp). destruct (isImplicitSha256Digest c); [|done].
    apply result_bind_Ok in Hp as (full & Hf & [= Hp]). apply name_equals_spec in Hp.
    destruct (getFullName_digest _ _ _ Hf) as (d & Hfull & Hd). unfold nteDepth.
    rewrite Hp, Hfull, last_snoc, Hd, length_app, Nat.add_sub. rewrite take_app_le by lia. apply prefix_of_take.
  - injection Hp as Hp. apply isPrefixOf_spec in Hp. etrans; [apply prefix_of_take|done].
Qed.

Definition data_match s loc : bool :=
  match pit_entries s !! loc with
  | Some e => match matchesData sha256 (pit_interest e) data with Ok b => b | Err _ => false end
  | None => false
  end.

Lemma data_matches_ok s locs :
  (forall loc, loc ∈ locs -> exists e b, pit_entries s !! loc = Some e /\ matchesData sha256 (pit_interest e) data = Ok b) ->
  data_matches sha256 data locs s = Ok (List.filter (data_match s) locs).
Proof.
  induction locs as [|loc locs IH]; intros Hall; [done|]. destruct (Hall loc) as (e & b & He & Hb); [by left|].
  cbn [data_matches List.filter]. unfold pit_deref. rewrite He. cbn [mbind result_bind]. rewrite Hb. cbn [mbind result_bind].
  rewrite IH by (intros l Hl; apply Hall; by right). cbn [mbind result_bind].
  assert (data_match s loc = b) as -> by (unfold data_match; by rewrite He, Hb). done.
Qed.

Lemma ntes_matches_ok s ntes :
  pit_inv s -> NoDup ntes -> (forall x, x ∈ ntes -> is_Some (ht_nodes (t_nameTree s) !! x)) ->
  (forall loc e, attached (pit_entries s) loc e -> exists b, matchesData sha256 (pit_interest e) data = Ok b) ->
  exists l, ntes_matches sha256 data ntes s = Ok l /\ NoDup l /\
    forall loc, loc ∈ l <-> exists e x, pit_entries s !! loc = Some e /\ pit_nte e = Some x /\ x ∈ ntes /\
      matchesData sha256 (pit_interest e) data = Ok true.
Proof.
  intros Hi Hn Hs Hm. pose proof (pv_ok _ Hi) as [L A N U W].
  induction ntes as [|x ntes IH].
  { exists []. split; [done|]. split; [apply NoDup_nil_2|]. intros loc. split; [by intros ?%not_elem_of_nil|].
    intros (e & x & _ & _ & ?%not_elem_of_nil & _). done. }
  apply NoDup_cons in Hn as [Hx Hn]. destruct IH as (l & El & Hl & Hin); [done|by intros; apply Hs; right|].
  destruct (Hs x) as [n Hnx]; [by left|]. assert (HP : pit_lists (t_nameTree s) x (nd_name n) (tb_pit (nd_tables n))) by (by exists n).
  assert (Hhere : forall loc, loc ∈ tb_pit (nd_tables n) <-> exists e, pit_entries s !! loc = Some e /\ pit_nte e = Some x).
  { intros loc. split; [intros Hloc; destruct (L x _ _ loc HP Hloc) as (e & He & Hnte & _); by exists e|].
    intros (e & He & Hnte). destruct (A loc e x He Hnte) as (nm & l' & Hl' & Hin'). by rewrite (pit_lists_fun _ _ _ _ _ _ HP Hl'). }
  cbn [ntes_matches]. unfold deref. rewrite Hnx. cbn [mbind result_bind]. rewrite data_matches_ok.
  2: { intros loc (e & He & Hnte)%Hhere. destruct (Hm loc e) as [b Hb]; [split; [done|by rewrite Hnte]|]. by exists e, b. }
  cbn [mbind result_bind]. rewrite El. eexists. split; [done|].
  assert (Hfilter : forall loc, loc ∈ List.filter (data_match s) (tb_pit (nd_tables n)) <->
    exists e, pit_entries s !! loc = Some e /\ pit_nte e = Some x /\ matchesData sha256 (pit_interest e) data = Ok true).
  { intros loc. rewrite list_elem_of_In, filter_In, <- list_elem_of_In, Hhere. unfold data_match. split.
    - intros [(e & He & Hnte) Hd]. rewrite He in Hd. exists e. split; [done|]. split; [done|]. destruct (matchesData _ _ _) as [[]|]; done.
    - intros (e & He & Hnte & Hd). split; [by exists e|]. by rewrite He, Hd. }
  split.
  - apply NoDup_app. split; [|split; [|done]].
    + apply NoDup_ListNoDup, List.NoDup_filter, NoDup_ListNoDup. by eapply N.
    + intros loc (e & He & Hnte & _)%Hfilter (e' & y & He' & Hnte' & Hy & _)%Hin. simplify_eq. done.
  - intros loc. rewrite elem_of_app, Hfilter, Hin. split.
    + intros [(e & ? & ? & ?)|(e & y & ? & ? & ? & ?)]; [exists e, x|exists e, y]; (split; [done|]; split; [done|]; split; [|done]); [by left|by right].
    + intros (e & y & ? & Hnte & [->|?]%elem_of_cons & ?); [left; by exists e|right; by exists e, y].
Qed.

Lemma descends_NoDup (h : Hashtable Tables) l : descends h l -> (forall x, x ∈ l -> is_Some (ht_nodes h !! x)) -> NoDup l.
Proof.
  intros Hd Hs. apply NoDup_alt. intros i j x Hi Hj. destruct (Hs x) as [n Hn]; [by eapply list_elem_of_lookup_2|].
  destruct (Nat.lt_trichotomy i j) as [Hlt|[->|Hlt]]; [|done|].
  - pose proof (Hd i j x x n n Hlt Hi Hj Hn Hn). lia.
  - pose proof (Hd j i x x n n Hlt Hj Hi Hn Hn). lia.
Qed.

Lemma pit_findAllDataMatches_ok s :
  pit_inv s -> (forall loc e, attached (pit_entries s) loc e -> exists b, matchesData sha256 (pit_interest e) data = Ok b) ->
  exists l, pit_findAllDataMatches sha256 data s = Ok l /\ NoDup l /\
    forall loc, loc ∈ l <-> exists e, attached (pit_entries s) loc e /\ matchesData sha256 (pit_interest e) data = Ok true.
Proof.
  intros Hi Hm. unfold pit_findAllDataMatches.
  destruct (findAllMatches_ok o counts (t_nameTree s) (d_name data) nteHasPitEntries (pv_tree _ Hi)) as (ntes & -> & Hd & Hnt).
  cbn [mbind result_bind]. assert (Hs : forall x, x ∈ ntes -> is_Some (ht_nodes (t_nameTree s) !! x)) by (intros x (n & Hn & _)%Hnt; by exists n).
  destruct (ntes_matches_ok s ntes Hi (descends_NoDup _ _ Hd Hs) Hs Hm) as (l & -> & Hl & Hin).
  exists l. split; [done|]. split; [done|]. intros loc. rewrite Hin. split.
  - intros (e & x & He & Hx & _ & Hmt). exists e. split; [split; [done|by rewrite Hx]|done].
  - intros (e & [He [x Hx]] & Hmt). exists e, x. split; [done|]. split; [done|]. split; [|done].
    pose proof (pv_ok _ Hi) as [L A _ _ _]. destruct (A loc e x He Hx) as (nm & l' & Hl' & Hin'). pose proof Hl' as (n & Hn & En & El).
    destruct (L x nm l' loc Hl' Hin') as (e' & He' & _ & Ename). simplify_eq. apply Hnt. exists n. split; [done|]. split.
    + unfold nteHasPitEntries. rewrite bool_decide_false; [done|]. intros E0. rewrite E0 in Hin'. by apply not_elem_of_nil in Hin'.
    + cbn in Ename. rewrite Ename. by apply matchesData_prefix.
Qed.
End data.
End pit_map.

(** ** Properties *)

Section properties.
Context `{HashFunction}.

(** C26: the PIT is a finite map from name and selectors to entries.  Inserting an
    Interest returns its entry or adds a new one; finding returns the entry, and violates
    its assertion only if some name tree entry is empty; erasing an entry removes it, and
    the name tree entries that become empty; Data finds exactly the attached entries
    whose Interest it matches, each once, although only the name tree entries at prefixes
    of its name are searched; the records of a face are removed from one entry only.  The
    number of items is right and the other tables do not change. *)
Theorem pit_refines_map o limit counts (Hc : counts_ok o limit counts = true) s (Hi : pit_inv o counts s) :
  (forall i, sel_ok (i_selectors i) -> m_htSize (t_nameTree s) + Z.of_nat (S getMaxDepth) <= limit ->
     exists loc s', pit_insert i s = Ok (Some loc, negb (is_some (pit_map s !! interest_key i)), s') /\
       pit_inv o counts s' /\ pit_frame s s' /\
       match pit_map s !! interest_key i with
       | Some loc' => loc = loc' /\ pit_map s' = pit_map s /\ pit_entries s' = pit_entries s
       | None => pit_entries s !! loc = None /\ pit_map s' = <[interest_key i := loc]> (pit_map s) /\
           exists x, pit_entries s' = <[loc := with_nte (Some x) (pit_Entry_new i)]> (pit_entries s)
       end) /\
  (forall i, sel_ok (i_selectors i) -> tight_but (t_nameTree s) None -> pit_find i s = Ok (pit_map s !! interest_key i)) /\
  (forall loc e can, attached (pit_entries s) loc e ->
     exists s', pit_erase loc can s = Ok s' /\ pit_inv o counts s' /\ pit_frame s s' /\
       pit_map s' = delete (pit_key e) (pit_map s) /\ pit_entries s' = <[loc := with_nte None e]> (pit_entries s) /\
       (can = true -> tight_but (t_nameTree s) None -> tight_but (t_nameTree s') None)) /\
  (forall sha256 data,
     (forall loc e, attached (pit_entries s) loc e -> exists b, matchesData sha256 (pit_interest e) data = Ok b) ->
     exists l, pit_findAllDataMatches sha256 data s = Ok l /\ NoDup l /\
       forall loc, loc ∈ l <-> exists e, attached (pit_entries s) loc e /\ matchesData sha256 (pit_interest e) data = Ok true) /\
  (forall loc e face, pit_entries s !! loc = Some e ->
     exists s' e', pit_deleteInOutRecords loc face s = Ok s' /\ pit_inv o counts s' /\ pit_map s' = pit_map s /\
       s' = pit_store loc e' s /\ in_map e' = delete face (in_map e) /\ out_map e' = delete face (out_map e) /\
       pit_interest e' = pit_interest e /\ pit_nte e' = pit_nte e).
Proof.
  split; [|split; [|split; [|split]]].
  - intros i Hs Hl. by apply (pit_insert_ok o limit counts).
  - intros i Hs Ht. by apply (pit_find_ok o counts).
  - intros loc e can Ha. by apply (pit_erase_ok o limit counts).
  - intros sha256 data Hm. by apply (pit_findAllDataMatches_ok o counts).
  - intros loc e face He. destruct (pit_deleteInOutRecords_ok o counts s loc e face Hi He) as (s' & e' & ? & ? & ? & ? & ? & ? & ? & ? & _).
    by exists s', e'.
Qed.
End properties.

(** An entry has at most one in-record and one out-record per face.  Inserting
    an in-record stores the Interest, its nonce and its expiry under the face and lists
    the nonce; deleting one removes its nonce from the list, so that every in-record's
    nonce stays listed exactly if no other face has sent the same nonce.  Inserting an
    out-record keeps the Nack that the face returned before. *)
Theorem pit_records (e : pit_Entry) (Hr : records_ok e) (face : Z) :
  (forall now i, canMatch i 0 e = Ok true -> expiry_of now i < 2 ^ 63 ->
     (exists e' r, insertOrUpdateInRecord now face i e = Ok e' /\ records_ok e' /\
        in_map e' = <[face := r]> (in_map e) /\ out_map e' = out_map e /\
        ir_interest r = Some i /\ fr_lastNonce (ir_record r) = getNonce i /\ fr_expiry (ir_record r) = expiry_of now i /\
        (forall n, n ∈ getNonceList e' <-> n = getNonce i \/ n ∈ getNonceList e) /\
        (nonces_covered e -> nonces_covered e')) /\
     (exists e' r, insertOrUpdateOutRecord now face i e = Ok e' /\ records_ok e' /\
        out_map e' = <[face := r]> (out_map e) /\ in_map e' = in_map e /\ getNonceList e' = getNonceList e /\
        fr_lastNonce (or_record r) = getNonce i /\ fr_expiry (or_record r) = expiry_of now i /\
        or_incomingNack r = (out_map e !! face ≫= or_incomingNack))) /\
  (exists e', deleteInRecord face e = Ok e' /\ records_ok e' /\ in_map e' = delete face (in_map e) /\ out_map e' = out_map e /\
     (nonces_covered e -> nonces_covered e' <-> forall r face' r', in_map e !! face = Some r -> face' <> face ->
        in_map e !! face' = Some r' -> fr_lastNonce (ir_record r') <> fr_lastNonce (ir_record r))) /\
  (records_ok (deleteOutRecord face e) /\ out_map (deleteOutRecord face e) = delete face (out_map e)).
Proof.
  split; [|split; [|by apply deleteOutRecord_ok]].
  - intros now i Hm He. split.
    + destruct (insertOrUpdateInRecord_ok now face i e Hr Hm He) as (e' & E & Hr' & Hin & Ee). eexists e', _.
      split; [done|]. split; [done|]. split; [exact Hin|]. split; [by rewrite Ee|]. do 3 (split; [done|]).
      pose proof (proj2 (add_nonce_ok (getNonce i) (pit_nonceList e) (ro_nonces _ Hr))) as Hn.
      split; [unfold getNonceList; by rewrite Ee|]. intros Hcov f r. rewrite Hin, Ee. cbn.
      intros [[<- <-]|[_ Hf]]%lookup_insert_Some; apply Hn; [by left|right; by apply (Hcov f)].
    + destruct (insertOrUpdateOutRecord_ok now face i e Hr Hm He) as (e' & E & Hr' & Hout & Ee). eexists e', _.
      split; [done|]. split; [done|]. split; [exact Hout|]. split; [by rewrite Ee|]. split; [unfold getNonceList; by rewrite Ee|]. done.
  - destruct (deleteInRecord_ok face e Hr) as (e' & E & Hr' & Hin & Ee & Hn). exists e'.
    split; [done|]. split; [done|]. split; [done|]. split; [by rewrite Ee|]. intros Hcov. split.
    + intros Hcov' r f' r' Hf Hne Hf' Eq. assert (Hl : in_map e' !! f' = Some r') by (by rewrite Hin, lookup_delete_ne by done).
      apply Hcov', Hn in Hl as [_ Hl]. rewrite Hf in Hl. cbn in Hl. by rewrite Eq in Hl.
    + intros Hd f r. rewrite Hin. intros [Hne Hf]%lookup_delete_Some. apply Hn. split; [by apply (Hcov f)|].
      destruct (in_map e !! face) as [r0|] eqn:Hf0; cbn; [|done]. intros [= Eq]. by apply (Hd r0 f r); [|congruence|..].
Qed.

(** Two faces with the same nonce. *)
Definition sample_interest (nonce : Z) : Interest :=
  mkInterest name_a_b Selectors_new true nonce 4000 DelegationList_new Block_default None no_tags.
Definition sample_pit_entry : pit_Entry :=
  with_inRecords [mkInRecord (mkFaceRecord 256 7 0 4000000000 ∅) (Some (sample_interest 7));
                  mkInRecord (mkFaceRecord 257 7 0 4000000000 ∅) (Some (sample_interest 7))] [7]
    (pit_Entry_new (sample_interest 7)).
Lemma sample_pit_entry_ok : records_ok sample_pit_entry.
Proof.
  split.
  - change (NoDup [256; 257]). apply NoDup_cons. split; [by intros [?|?%not_elem_of_nil]%elem_of_cons|apply NoDup_singleton].
  - apply NoDup_nil_2.
  - intros r [->|[->|?%not_elem_of_nil]%elem_of_cons]%elem_of_cons; by exists (sample_interest 7).
  - apply NoDup_singleton.
Qed.

Lemma pit_records_witness : exists e', deleteInRecord 256 sample_pit_entry = Ok e' /\ in_map e' !! 257 <> None /\ 7 ∉ getNonceList e'.
Proof.
  destruct (pit_records sample_pit_entry sample_pit_entry_ok 256) as (_ & (e' & E & Hr & Hin & _) & _).
  exists e'. split; [exact E|]. split.
  - rewrite Hin. by vm_compute.
  - injection E as <-. by apply not_elem_of_nil.
Defined.

Lemma pit_inv_new `{HashFunction} o limit counts h :
  counts_ok o limit counts = true -> Hashtable_new o = Ok h ->
  pit_inv o counts (NfdTables_new h) /\ pit_map (NfdTables_new h) = ∅ /\ tight_but h None.
Proof.
  intros Hc Hnew. destruct (NameTree_new_inv o limit counts h Hc Hnew) as [Hi Ht]. destruct (new_inv o limit counts Hc h Hnew) as [_ Hn].
  assert (Hno : forall x name l, ~ pit_lists h x name l) by (intros x name l (n & Hx & _); by rewrite Hn, lookup_empty in Hx).
  split; [split; [done| |by intros loc []|done]|split; [done|]].
  - split; cbn.
    + intros x name l loc Hp. by apply Hno in Hp.
    + done.
    + intros x name l Hp. by apply Hno in Hp.
    + by intros loc loc' e e' [].
    + done.
  - intros y m Hy. by rewrite Hn, lookup_empty in Hy.
Qed.

Lemma pit_refines_map_witness : exists (s s' : NfdTables) loc,
  pit_inv (H := mark_hash) (HashtableOptions_new 1024) (power_counts 1024) s /\
  pit_insert (H := mark_hash) (sample_interest 7) s = Ok (Some loc, true, s') /\
  pit_map s' = {[ interest_key (sample_interest 7) := loc ]}.
Proof.
  assert (H0 : match Hashtable_new (T:=Tables) (HashtableOptions_new 1024) with
               | Ok h => m_htSize h =? 0 | Err _ => false end = true) by (vm_compute; reflexivity).
  destruct (Hashtable_new (T:=Tables) (HashtableOptions_new 1024)) as [h|] eqn:Eh; [|done]. zbool.
  destruct (pit_inv_new (H := mark_hash) _ _ _ h counts_1024 Eh) as (Hi & Hm & _).
  destruct (pit_refines_map (H := mark_hash) _ _ _ counts_1024 (NfdTables_new h) Hi) as [Hins _].
  destruct (Hins (sample_interest 7)) as (loc & s' & E & _ & _ & Hm'); [by vm_compute|cbn; rewrite H0; unfold getMaxDepth; lia|].
  rewrite Hm, lookup_empty in E, Hm'. destruct Hm' as (_ & Hm' & _).
  exists (NfdTables_new h), s', loc. split; [exact Hi|]. split; [exact E|exact Hm'].
Defined.
