(* ===== verification/Cleanup.v ===== *)
(** * Cleanup after the removal of a face (NFD/daemon/table/cleanup.cpp)

    When a face disappears, one pass over the name tree removes its next hops from the
    FIB and its records from the PIT, collects the name tree entries that have no table
    entries left, and erases those that are empty, longer names first.

    The properties: the pass visits every entry although it changes what it visits; what
    FIB and PIT hold afterwards; the assertion at the end, that no entry of the name tree
    is empty, holds in every state. *)

From stdpp Require Import base gmap list sets strings sorting.
From Stdlib Require Import ZArith Lia.
From S2P Require Import Prelude Tlv Encoder Block Codec Ndn NameTlv Selectors Data Interest Double Hashtable NameTree NfdTables Fib Pit.

Local Open Scope Z_scope.

Section cleanup.
Context `{HashFunction} `{StdSort}.
Implicit Types (s : NfdTables) (x : nat).

(** [std::multimap::emplace]: after the elements with the same key. *)
Fixpoint multimap_emplace (k : nat) (v : nat) (m : list (nat * nat)) : list (nat * nat) :=
  match m with
  | [] => [(k, v)]
  | (k', v') :: m' => if (k <? k')%nat then (k, v) :: m else (k', v') :: multimap_emplace k v m'
  end.

(** The loop over [nte.getPitEntries()]. *)
Fixpoint delete_records (locs : list nat) (face : Z) s : result NfdTables :=
  match locs with
  | [] => Ok s
  | loc :: locs =>
    let* s := pit_deleteInOutRecords loc face s in
    delete_records locs face s
  end.

(** The body of the loop over the name tree. *)
Definition cleanup_entry x (face : Z) (maybeEmptyNtes : list (nat * nat)) s : result (list (nat * nat) * NfdTables) :=
  let* n := deref x (t_nameTree s) in
  let* s := match tb_fib (nd_tables n) with
            | Some _ => fib_removeNextHopByFace x face s
            | None => Ok s
            end in
  let* n := deref x (t_nameTree s) in
  let* s := delete_records (tb_pit (nd_tables n)) face s in
  let* n := deref x (t_nameTree s) in
  Ok (if negb (hasTableEntries (nd_tables n)) then multimap_emplace (length (nd_name n)) x maybeEmptyNtes else maybeEmptyNtes, s).

Definition any_entry (_ : Node Tables) : bool := true.

(** The loop over the name tree: the iterator advances in the changed tree. *)
Fixpoint cleanup_loop (fuel : nat) (i : Iterator) (face : Z) (maybeEmptyNtes : list (nat * nat)) s
  : result (list (nat * nat) * NfdTables) :=
  match it_entry i with
  | None => Ok (maybeEmptyNtes, s)
  | Some x =>
    match fuel with
    | O => Err OutOfFuel
    | S fuel =>
      let* (maybeEmptyNtes, s) := cleanup_entry x face maybeEmptyNtes s in
      let* i := full_advance any_entry (t_nameTree s) i in
      cleanup_loop fuel i face maybeEmptyNtes s
    end
  end.

(** The loop from [rbegin()] to [rend()]. *)
Fixpoint erase_empty (ntes : list (nat * nat)) (h : Hashtable Tables) : result (Hashtable Tables) :=
  match ntes with
  | [] => Ok h
  | (_, x) :: ntes =>
    let* r := nt_eraseIfEmpty x false h in
    erase_empty ntes r.2
  end.

Definition cleanupOnFaceRemoval (face : Z) s : result NfdTables :=
  let* begin := full_advance any_entry (t_nameTree s) (mkIterator None None false) in
  let* (maybeEmptyNtes, s) := cleanup_loop (size (ht_nodes (t_nameTree s))) begin face [] s in
  let* h := erase_empty (rev maybeEmptyNtes) (t_nameTree s) in
  let s := with_nameTree h s in
  let* ntes := fullEnumerate any_entry h in
  assert! (m_htSize h =? 0) ||
      forallb (fun x => match ht_nodes h !! x with Some n => negb (isEmpty n) | None => true end) ntes
    orelse "nt.size() == 0 || std::none_of(nt.begin(), nt.end(), isEmpty)";
  Ok s.
End cleanup.

(** ** The enumeration does not see table entries *)
Section retabled.
Context `{HashFunction} `{TableEntries T}.
Implicit Types (h : Hashtable T).

Definition untabled (n : Node T) : Node T := set_tables no_tables n.
Record retabled h h' : Prop := {
  rt_nodes y : untabled <$> ht_nodes h' !! y = untabled <$> ht_nodes h !! y;
  rt_buckets : m_buckets h' = m_buckets h;
}.

#[export] Instance retabled_preorder : PreOrder retabled.
Proof.
  split; [by intros h|]. intros h1 h2 h3 [N1 B1] [N2 B2]. split; [intros y; by rewrite N2|by rewrite B2].
Qed.

Lemma retabled_deref h h' x n : retabled h h' -> ht_nodes h !! x = Some n ->
  exists n', ht_nodes h' !! x = Some n' /\ nd_hash n' = nd_hash n /\ nd_next n' = nd_next n /\ nd_name n' = nd_name n.
Proof.
  intros [Hn _] Hx. specialize (Hn x). rewrite Hx in Hn. destruct (ht_nodes h' !! x) as [n'|]; [|done].
  apply (inj Some) in Hn. exists n'. split; [done|].
  pose proof (f_equal nd_hash Hn). pose proof (f_equal nd_next Hn). pose proof (f_equal nd_name Hn). done.
Qed.
Lemma retabled_None h h' x : retabled h h' -> ht_nodes h !! x = None -> ht_nodes h' !! x = None.
Proof. intros [Hn _] Hx. specialize (Hn x). rewrite Hx in Hn. by destruct (ht_nodes h' !! x). Qed.
Lemma retabled_size h h' : retabled h h' -> size (ht_nodes h') = size (ht_nodes h).
Proof.
  intros [Hn _]. rewrite <- !size_dom. f_equal. apply set_eq. intros y. rewrite !elem_of_dom.
  rewrite <- (fmap_is_Some untabled (ht_nodes h' !! y)), <- (fmap_is_Some untabled (ht_nodes h !! y)). by rewrite Hn.
Qed.

Lemma scan_list_retabled h h' fuel : retabled h h' ->
  forall node, scan_list fuel node (fun _ => true) h' = scan_list fuel node (fun _ => true) h.
Proof.
  intros Hr node. destruct node as [x|], fuel as [|fuel]; [done| |done|done]. cbn [scan_list]. unfold deref.
  destruct (ht_nodes h !! x) as [n|] eqn:E.
  - by destruct (retabled_deref h h' x n Hr E) as (n' & -> & _).
  - by rewrite (retabled_None h h' x Hr E).
Qed.
Lemma scan_buckets_retabled h h' heads : retabled h h' ->
  scan_buckets heads (fun _ => true) h' = scan_buckets heads (fun _ => true) h.
Proof.
  intros Hr. induction heads as [|head heads IH]; [done|]. cbn [scan_buckets].
  by rewrite (retabled_size h h'), (scan_list_retabled h h') by done; rewrite IH.
Qed.
Lemma full_advance_retabled h h' i : retabled h h' ->
  full_advance (fun _ => true) h' i = full_advance (fun _ => true) h i.
Proof.
  intros Hr. unfold full_advance. destruct (it_entry i) as [x|].
  - unfold deref. destruct (ht_nodes h !! x) as [n|] eqn:E; [|by rewrite (retabled_None h h' x Hr E)].
    destruct (retabled_deref h h' x n Hr E) as (n' & -> & Eh & En & _). cbn [mbind result_bind].
    rewrite Eh, En, (retabled_size h h'), (scan_list_retabled h h'), (rt_buckets h h') by done.
    unfold computeBucketIndex, getNBuckets. rewrite (rt_buckets h h') by done. destruct (scan_list _ _ _ h) as [[y|]|]; [done| |done].
    cbn [mbind result_bind]. destruct (zlen (m_buckets h) =? 0); [done|]. cbn [mbind result_bind]. by rewrite (scan_buckets_retabled h h').
  - rewrite (rt_buckets h h') by done. destruct (find_first _ (m_buckets h)) as [[x|]|]; [|done|done]. unfold deref.
    destruct (ht_nodes h !! x) as [n|] eqn:E.
    + by destruct (retabled_deref h h' x n Hr E) as (n' & -> & _).
    + by rewrite (retabled_None h h' x Hr E).
Qed.
End retabled.

(** ** One pass *)
Section pass.
Context `{HashFunction} `{StdSort} `{!StdSortLaws}.
Context (o : HashtableOptions) (limit : Z) (counts : list Z) (Hcounts : counts_ok o limit counts = true) (face : Z).
Implicit Types (s : NfdTables) (x loc : nat) (e : pit_Entry).
Abbreviation fib_inv := (fib_inv o counts).
Abbreviation pit_inv := (pit_inv o counts).

(** What becomes of the FIB entry, the tables and the PIT entries. *)
Definition clean_fib (oe : option fib_Entry) : option fib_Entry :=
  match oe with
  | Some fe => let fe' := removeNextHopByFace face fe in if hasNextHops fe' then Some fe' else None
  | None => None
  end.
Definition clean_tables (t : Tables) : Tables := setFibEntry (clean_fib (tb_fib t)) t.
Record cleaned e e' : Prop := {
  cd_interest : pit_interest e' = pit_interest e;
  cd_nte : pit_nte e' = pit_nte e;
  cd_in : in_map e' = delete face (in_map e);
  cd_out : out_map e' = delete face (out_map e);
  cd_rest : e' = with_outRecords (pit_outRecords e') (with_inRecords (pit_inRecords e') (pit_nonceList e') e);
}.

Lemma cleaned_key e e' : cleaned e e' -> pit_key e' = pit_key e.
Proof. intros [E _ _ _ _]. unfold pit_key. by rewrite E. Qed.

Lemma deleteInOut_cleaned s loc e :
  pit_inv s -> pit_entries s !! loc = Some e ->
  exists e', pit_deleteInOutRecords loc face s = Ok (pit_store loc e' s) /\ pit_inv (pit_store loc e' s) /\
    pit_map (pit_store loc e' s) = pit_map s /\ cleaned e e'.
Proof.
  intros Hi He. destruct (pit_deleteInOutRecords_ok o counts s loc e face Hi He) as (s' & e' & E & Hi' & Hm & -> & Hin & Hout & Hint & Hnte & Hrest).
  exists e'. by split_and!.
Qed.

Lemma delete_records_ok locs : forall s,
  pit_inv s -> NoDup locs -> (forall loc, loc ∈ locs -> is_Some (pit_entries s !! loc)) ->
  exists E, delete_records locs face s = Ok (with_pit E (pit_fresh s) (pit_nItems s) s) /\
    pit_inv (with_pit E (pit_fresh s) (pit_nItems s) s) /\ key_map E = pit_map s /\
    (forall loc, loc ∉ locs -> E !! loc = pit_entries s !! loc) /\
    (forall loc e, loc ∈ locs -> pit_entries s !! loc = Some e -> exists e', E !! loc = Some e' /\ cleaned e e').
Proof.
  induction locs as [|loc locs IH]; intros s Hi Hn Hs.
  - exists (pit_entries s). assert (Es : with_pit (pit_entries s) (pit_fresh s) (pit_nItems s) s = s) by (by destruct s).
    rewrite Es. split; [done|]. split; [done|]. split; [done|]. split; [done|]. by intros loc e ?%not_elem_of_nil.
  - apply NoDup_cons in Hn as [Hloc Hn]. destruct (Hs loc) as [e He]; [by left|].
    destruct (deleteInOut_cleaned s loc e Hi He) as (e' & E1 & Hi1 & Hm1 & Hc). cbn [delete_records]. rewrite E1. cbn [mbind result_bind].
    destruct (IH (pit_store loc e' s) Hi1 Hn) as (E & E2 & Hi2 & Hm2 & Hout & Hin).
    { intros l Hl. cbn. apply lookup_insert_is_Some'. right. apply Hs. by right. }
    exists E. split; [exact E2|]. split; [exact Hi2|]. split; [by rewrite Hm2|]. split.
    + intros l [Hne Hl]%not_elem_of_cons. rewrite Hout by done. cbn. by rewrite lookup_insert_ne.
    + intros l e0 [->|Hl]%elem_of_cons He0.
      * simplify_eq. rewrite Hout by done. cbn. rewrite lookup_insert_eq. by eauto.
      * apply (Hin l e0 Hl). cbn. rewrite lookup_insert_ne; [done|congruence].
Qed.

Lemma retabled_update (h h' : Hashtable Tables) x n t :
  ht_nodes h !! x = Some n -> ht_nodes h' = <[x := set_tables t n]> (ht_nodes h) -> m_buckets h' = m_buckets h -> retabled h h'.
Proof.
  intros Hx E Hb. split; [|done]. intros y. rewrite E. destruct (decide (y = x)) as [->|]; [by rewrite lookup_insert_eq, Hx|by rewrite lookup_insert_ne].
Qed.

(** The FIB part of one visit. *)
Lemma clean_fib_ok s x n :
  fib_inv s -> pit_inv s -> ht_nodes (t_nameTree s) !! x = Some n ->
  exists h k, match tb_fib (nd_tables n) with
       | Some _ => fib_removeNextHopByFace x face s
       | None => Ok s
       end = Ok (with_fib_nItems k (with_nameTree h s)) /\
    let s' := with_fib_nItems k (with_nameTree h s) in
    fib_inv s' /\ pit_inv s' /\ ht_nodes h = <[x := set_tables (clean_tables (nd_tables n)) n]> (ht_nodes (t_nameTree s)) /\
    m_buckets h = m_buckets (t_nameTree s).
Proof.
  intros Hi Hpi Hx. destruct (tb_fib (nd_tables n)) as [fe|] eqn:Efib.
  - assert (Hat : fib_at s x (nd_name n) fe) by (by exists n).
    pose proof (fib_at_view o counts s x _ fe (ni_table _ _ _ (fi_tree _ _ _ Hi)) Hat) as Hv.
    destruct (fi_entries _ _ _ Hi (nd_name n) fe Hv) as [_ Hok].
    destruct (removeNextHopByFace_ok face fe Hok) as [Hok' _].
    destruct (fib_remove_ok o limit counts Hcounts s x _ fe (removeNextHopByFace face) Hi Hat eq_refl Hok')
      as (s' & E & Hi' & [Hk Hs] & _ & m & Hm & Hn & Hb). simplify_eq.
    exists (t_nameTree s'), (fib_nItems s'). rewrite <- Hs. split; [exact E|]. split; [done|]. split.
    + eapply pit_inv_frame; [exact Hpi|apply Hi'| |by rewrite Hs..]. by apply (keeps_compose (setFibEntry None) tb_pit).
    + split; [|exact Hb]. rewrite Hn. unfold clean_tables. rewrite Efib. done.
  - exists (t_nameTree s), (fib_nItems s). assert (Es : with_fib_nItems (fib_nItems s) (with_nameTree (t_nameTree s) s) = s) by (by destruct s).
    rewrite Es. split; [done|]. split; [done|]. split; [done|]. split; [|done].
    unfold clean_tables. rewrite Efib. cbn. symmetry. apply insert_id. rewrite Hx. f_equal. destruct n as [? ? ? ? ? ? t]. cbn in *. by destruct t; cbn in *; subst.
Qed.

(** The fields that the cleanup does not touch. *)
Definition with_fib_pit (h : Hashtable Tables) (k : Z) (E : gmap nat pit_Entry) s : NfdTables :=
  with_pit E (pit_fresh s) (pit_nItems s) (with_fib_nItems k (with_nameTree h s)).

Lemma fib_inv_pit s E f k : fib_inv s -> fib_inv (with_pit E f k s).
Proof. by intros [? ? ?]. Qed.

Lemma cleanup_entry_ok s x n acc :
  fib_inv s -> pit_inv s -> ht_nodes (t_nameTree s) !! x = Some n ->
  exists h k E, let s' := with_fib_pit h k E s in
    cleanup_entry x face acc s = Ok (if hasTableEntries (clean_tables (nd_tables n)) then acc
                                     else multimap_emplace (length (nd_name n)) x acc, s') /\
    fib_inv s' /\ pit_inv s' /\ key_map E = pit_map s /\
    ht_nodes h = <[x := set_tables (clean_tables (nd_tables n)) n]> (ht_nodes (t_nameTree s)) /\
    m_buckets h = m_buckets (t_nameTree s) /\
    (forall loc e, pit_entries s !! loc = Some e -> exists e', E !! loc = Some e' /\
       if decide (pit_nte e = Some x) then cleaned e e' else e' = e).
Proof.
  intros Hi Hpi Hx. destruct (clean_fib_ok s x n Hi Hpi Hx) as (h & k & Efib & Hi1 & Hpi1 & Hn & Hb).
  set (s1 := with_fib_nItems k (with_nameTree h s)) in *. set (n1 := set_tables (clean_tables (nd_tables n)) n) in *.
  assert (Hx1 : ht_nodes (t_nameTree s1) !! x = Some n1) by (cbn; rewrite Hn; apply lookup_insert_eq).
  assert (HP : pit_lists (t_nameTree s1) x (nd_name n1) (tb_pit (nd_tables n1))) by (by exists n1).
  pose proof (pv_ok _ _ _ Hpi1) as [L A N _ _].
  destruct (delete_records_ok (tb_pit (nd_tables n1)) s1 Hpi1) as (E & Ed & Hpi2 & Hm2 & Hout & Hin).
  { by eapply N. }
  { intros loc Hloc. destruct (L x _ _ loc HP Hloc) as (e & He & _). by exists e. }
  exists h, k, E. cbv zeta. split; [|split; [|split; [|split; [|split; [|split; [exact Hb|]]]]]].
  - unfold cleanup_entry, deref. rewrite Hx. cbn [mbind result_bind]. rewrite Efib. cbn [mbind result_bind]. rewrite Hx1. cbn [mbind result_bind].
    rewrite Ed. cbn [mbind result_bind]. change (t_nameTree (with_pit E (pit_fresh s1) (pit_nItems s1) s1)) with (t_nameTree s1).
    rewrite Hx1. cbn [mbind result_bind]. do 2 f_equal. change (nd_tables n1) with (clean_tables (nd_tables n)). by destruct (hasTableEntries _).
  - by apply (fib_inv_pit s1).
  - exact Hpi2.
  - exact Hm2.
  - exact Hn.
  - intros loc e He. case_decide as Hnte.
    + apply (Hin loc e); [|done]. destruct (A loc e x He Hnte) as (nm & l & Hl & Hlin). by rewrite (pit_lists_fun _ _ _ _ _ _ HP Hl).
    + exists e. split; [|done]. rewrite Hout; [done|]. intros Hlin. destruct (L x _ _ loc HP Hlin) as (e' & He' & Hn' & _).
      change (pit_entries s1) with (pit_entries s) in He'. by simplify_eq.
Qed.

(** *** The loop over the tree *)

Definition clean_node (n : Node Tables) : Node Tables := set_tables (clean_tables (nd_tables n)) n.
Definition candidate (σ : gmap nat (Node Tables)) x : option (nat * nat) :=
  match σ !! x with
  | Some n => if hasTableEntries (clean_tables (nd_tables n)) then None else Some (length (nd_name n), x)
  | None => None
  end.
Definition candidates (σ : gmap nat (Node Tables)) (l : list nat) : list (nat * nat) := omap (candidate σ) l.

Definition by_key (p q : nat * nat) : Prop := (p.1 <= q.1)%nat.

Lemma multimap_emplace_perm k v m : multimap_emplace k v m ≡ₚ (k, v) :: m.
Proof.
  induction m as [|[k' v'] m IH]; cbn [multimap_emplace]; [done|]. destruct (k <? k')%nat; [done|]. rewrite IH. apply Permutation_swap.
Qed.
Lemma multimap_emplace_sorted k v m : StronglySorted by_key m -> StronglySorted by_key (multimap_emplace k v m).
Proof.
  induction 1 as [|[k' v'] m Hs IH Hf]; cbn [multimap_emplace]; [by repeat constructor|]. destruct (k <? k')%nat eqn:E.
  - apply Nat.ltb_lt in E. constructor; [by constructor|]. constructor; [unfold by_key; cbn; lia|].
    eapply Forall_impl; [exact Hf|]. unfold by_key. cbn. intros q. lia.
  - apply Nat.ltb_ge in E. constructor; [done|]. rewrite multimap_emplace_perm. constructor; [exact E|exact Hf].
Qed.

Lemma candidates_ext σ σ' l : (forall y, y ∈ l -> σ' !! y = σ !! y) -> candidates σ' l = candidates σ l.
Proof. intros E. apply list_omap_ext, Forall_Forall2_diag, Forall_forall. intros y Hy. unfold candidate. by rewrite E. Qed.

(** What a pass over [l] has done to a PIT entry. *)
Definition pass_entry (l : list nat) e e' : Prop :=
  match pit_nte e with
  | Some x => if decide (x ∈ l) then cleaned e e' else e' = e
  | None => e' = e
  end.

Lemma pass_entry_cons x l e e1 e' :
  x ∉ l -> (if decide (pit_nte e = Some x) then cleaned e e1 else e1 = e) -> pass_entry l e1 e' -> pass_entry (x :: l) e e'.
Proof.
  intros Hx Hp1 Hp2. unfold pass_entry in *. case_decide as Hd.
  - rewrite Hd. rewrite (cd_nte _ _ Hp1), Hd in Hp2. rewrite decide_False in Hp2 by done. subst e'. rewrite decide_True by (by left). done.
  - subst e1. destruct (pit_nte e) as [y|]; [|done]. assert (Hyx : y <> x) by congruence. destruct (decide (y ∈ l)) as [Hy|Hy].
    + rewrite decide_True by (by right). done.
    + rewrite decide_False by (by intros [?|?]%elem_of_cons). done.
Qed.

Lemma pass_nil (h0 : Hashtable Tables) acc s :
  retabled h0 (t_nameTree s) -> fib_inv s -> pit_inv s ->
  exists h k E acc', let s' := with_fib_pit h k E s in
    Ok (acc, s) = Ok (acc', s') :> result _ /\ fib_inv s' /\ pit_inv s' /\ key_map E = pit_map s /\ retabled h0 h /\
    (forall y, ht_nodes h !! y = if decide (y ∈ []) then clean_node <$> ht_nodes (t_nameTree s) !! y else ht_nodes (t_nameTree s) !! y) /\
    (forall loc e, pit_entries s !! loc = Some e -> exists e', E !! loc = Some e' /\ pass_entry [] e e') /\
    acc' ≡ₚ acc ++ candidates (ht_nodes (t_nameTree s)) [] /\ (StronglySorted by_key acc -> StronglySorted by_key acc').
Proof.
  intros Hr Hi Hpi. exists (t_nameTree s), (fib_nItems s), (pit_entries s), acc.
  assert (Es : with_fib_pit (t_nameTree s) (fib_nItems s) (pit_entries s) s = s) by (by destruct s).
  cbv zeta. rewrite Es, app_nil_r. do 5 (split; [done|]). split; [|split; [|done]].
  - intros y. case_decide as Hy; [by apply not_elem_of_nil in Hy|done].
  - intros loc e He. exists e. split; [done|]. unfold pass_entry. destruct (pit_nte e); [|done].
    case_decide as Hy; [by apply not_elem_of_nil in Hy|done].
Qed.

Lemma cleanup_loop_ok (h0 : Hashtable Tables) fuel : forall i l acc s,
  collect fuel (full_advance any_entry h0) i = Ok l -> retabled h0 (t_nameTree s) -> fib_inv s -> pit_inv s ->
  NoDup l -> (forall x, x ∈ l -> is_Some (ht_nodes (t_nameTree s) !! x)) ->
  exists h k E acc', let s' := with_fib_pit h k E s in
    cleanup_loop fuel i face acc s = Ok (acc', s') /\ fib_inv s' /\ pit_inv s' /\ key_map E = pit_map s /\ retabled h0 h /\
    (forall y, ht_nodes h !! y = if decide (y ∈ l) then clean_node <$> ht_nodes (t_nameTree s) !! y else ht_nodes (t_nameTree s) !! y) /\
    (forall loc e, pit_entries s !! loc = Some e -> exists e', E !! loc = Some e' /\ pass_entry l e e') /\
    acc' ≡ₚ acc ++ candidates (ht_nodes (t_nameTree s)) l /\ (StronglySorted by_key acc -> StronglySorted by_key acc').
Proof.
  induction fuel as [|fuel IH]; intros i l acc s Hc Hr Hi Hpi Hnd Hs; cbn [collect cleanup_loop] in *; destruct (it_entry i) as [x|].
  { done. }
  1, 3: injection Hc as <-; by apply pass_nil.
  apply result_bind_Ok in Hc as (i' & Hadv & (l' & Hc & [= <-])%result_bind_Ok). apply NoDup_cons in Hnd as [Hx Hnd].
  destruct (Hs x) as [n Hn]; [by left|].
  destruct (cleanup_entry_ok s x n acc Hi Hpi Hn) as (h1 & k1 & E1 & Ee & Hi1 & Hpi1 & Hm1 & Hn1 & Hb1 & He1).
  set (s1 := with_fib_pit h1 k1 E1 s) in *. rewrite Ee. cbn [mbind result_bind].
  assert (Hr1 : retabled h0 (t_nameTree s1)) by (etrans; [exact Hr|]; by eapply retabled_update).
  rewrite (full_advance_retabled h0 (t_nameTree s1) i Hr1 : full_advance any_entry (t_nameTree s1) i = full_advance any_entry h0 i).
  rewrite Hadv. cbn [mbind result_bind].
  assert (Hsame : forall y, y ∈ l' -> ht_nodes (t_nameTree s1) !! y = ht_nodes (t_nameTree s) !! y).
  { intros y Hy. cbn. rewrite Hn1, lookup_insert_ne; [done|congruence]. }
  set (acc1 := if hasTableEntries (clean_tables (nd_tables n)) then acc else multimap_emplace (length (nd_name n)) x acc).
  destruct (IH i' l' acc1 s1 Hc Hr1 Hi1 Hpi1 Hnd) as (h & k & E & acc' & -> & Hi' & Hpi' & Hm' & Hr' & Hn' & He' & Hacc & Hsort).
  { intros y Hy. rewrite Hsame by done. apply Hs. by right. }
  exists h, k, E, acc'. split; [done|]. split; [done|]. split; [done|]. split; [by rewrite Hm'|]. split; [done|]. split; [|split; [|split]].
  - intros y. rewrite Hn'. cbn [t_nameTree s1 with_fib_pit with_pit with_fib_nItems with_nameTree]. rewrite Hn1. destruct (decide (y = x)) as [->|Hyx].
    + rewrite (decide_False (P := x ∈ l')), (decide_True (P := x ∈ x :: l')) by (done || by left). by rewrite lookup_insert_eq, Hn.
    + rewrite lookup_insert_ne by done. destruct (decide (y ∈ l')) as [Hy|Hy].
      * by rewrite decide_True by (by right).
      * by rewrite decide_False by (by intros [?|?]%elem_of_cons).
  - intros loc e He. destruct (He1 loc e He) as (e1 & Hl1 & Hc1). destruct (He' loc e1 Hl1) as (e' & Hl' & Hp'). exists e'.
    split; [done|]. by eapply pass_entry_cons.
  - rewrite Hacc, (candidates_ext _ _ _ Hsame). unfold acc1, candidates at 2. cbn [omap list_omap]. unfold candidate at 1. rewrite Hn.
    destruct (hasTableEntries _); [done|]. rewrite multimap_emplace_perm. by rewrite <- Permutation_middle.
  - intros Ha. apply Hsort. unfold acc1. destruct (hasTableEntries _); [done|]. by apply multimap_emplace_sorted.
Qed.
End pass.

(** ** Erasing the empty entries *)
Section erase_empty.
Context `{HashFunction} (o : HashtableOptions) (limit : Z) (counts : list Z) (Hcounts : counts_ok o limit counts = true).
Implicit Types (h : Hashtable Tables) (x : nat) (L : list (nat * nat)).

Lemma nt_erase_one h x n :
  nt_inv o counts h -> ht_nodes h !! x = Some n ->
  exists k h', nt_eraseIfEmpty x false h = Ok (k, h') /\ nt_inv o counts h' /\
    if isEmpty n then erased o counts h h' x n else h' = h.
Proof.
  intros Hi Hx. unfold nt_eraseIfEmpty. cbn [erase_loop]. unfold deref. rewrite Hx. cbn [mbind result_bind].
  destruct (isEmpty n) eqn:He; cbn [negb]; [|by exists 0, h].
  destruct (erase_step o limit counts Hcounts h x n Hi Hx He) as (h1 & h2 & -> & E2 & Hd). cbn [mbind result_bind].
  rewrite E2. cbn [mbind result_bind]. eexists _, h2. split; [done|]. split; [apply Hd|done].
Qed.

(** The entries that are still to be tried, longer names first; the others are not empty,
    and do not become empty. *)
Record pending h L : Prop := {
  pd_inv : nt_inv o counts h;
  pd_NoDup : NoDup L.*2;
  pd_nodes k x : (k, x) ∈ L -> exists n, ht_nodes h !! x = Some n /\ k = length (nd_name n);
  pd_sorted : StronglySorted (fun p q => (q.1 <= p.1)%nat) L;
  pd_others y m : ht_nodes h !! y = Some m -> y ∉ L.*2 ->
    isEmpty m = false /\ (hasTableEntries (nd_tables m) = true \/ forall p, p ∈ L -> (p.1 <= length (nd_name m))%nat);
}.

Lemma has_tables_not_empty (n : Node Tables) : hasTableEntries (nd_tables n) = true -> isEmpty n = false.
Proof. intros Ht. unfold isEmpty. rewrite Ht. apply andb_false_r. Qed.

Lemma pending_keep h k x n L :
  pending h ((k, x) :: L) -> ht_nodes h !! x = Some n -> isEmpty n = false -> pending h L.
Proof.
  intros [Hi Hnd Hno Hs Hot] Hx He. apply NoDup_cons in Hnd as [Hxl Hnd]. apply StronglySorted_inv in Hs as [Hs Hf].
  destruct (Hno k x) as (n' & Hx' & ->); [by left|]. simplify_eq. split; [done|done|by intros k' y Hy; apply Hno; right|done|].
  intros y m Hy Hyl. destruct (decide (y = x)) as [->|Hyx].
  - simplify_eq. split; [done|]. right. intros p Hp. rewrite Forall_forall in Hf. by apply Hf.
  - destruct (Hot y m Hy) as [? Hor]; [by intros [?|?]%elem_of_cons|]. split; [done|]. destruct Hor as [|Hor]; [by left|right].
    intros p Hp. apply Hor. by right.
Qed.

Lemma pending_erased h h' k x n L :
  pending h ((k, x) :: L) -> ht_nodes h !! x = Some n -> erased o counts h h' x n -> pending h' L.
Proof.
  intros [Hi Hnd Hno Hs Hot] Hx [Hi' [Hk Hg] Hgone _ Hoth]. apply NoDup_cons in Hnd as [Hxl Hnd]. apply StronglySorted_inv in Hs as [Hs Hf].
  destruct (Hno k x) as (n' & Hx' & ->); [by left|]. simplify_eq. split; [done|done| |done|].
  - intros k' y Hy. destruct (Hno k' y) as (m & Hm & ->); [by right|].
    assert (Hyx : y <> x) by (intros ->; apply Hxl, list_elem_of_fmap; by exists (length (nd_name m), x)).
    destruct (ht_nodes h' !! y) as [m'|] eqn:E.
    + destruct (Hk y m' E) as (m0 & Hm0 & En & _). simplify_eq. exists m'. by rewrite En.
    + exfalso. destruct (Hg y m Hm E) as [En _]. apply Hyx.
      by apply (do_names _ _ (hi_data _ _ _ (ni_table _ _ _ Hi)) y x m n).
  - intros y m' Hy Hyl. destruct (Hk y m' Hy) as (m & Hm & En & Ep & Et). assert (Hyx : y <> x) by congruence.
    destruct (Hot y m Hm) as [He Hor]; [by intros [?|?]%elem_of_cons|]. rewrite En, Et.
    destruct (decide (nd_parent n = Some y)) as [Hp|Hp].
    + destruct (parent_shorter o counts h x n y m Hi Hx Hp Hm) as (c & Enm).
      assert (Ht : hasTableEntries (nd_tables m) = true).
      { destruct Hor as [|Hor]; [done|]. pose proof (Hor (length (nd_name n), x)) as Hle. cbn in Hle.
        rewrite Enm, length_app in Hle. cbn in Hle. exfalso. specialize (Hle ltac:(by left)). lia. }
      split; [apply has_tables_not_empty; by rewrite Et|by left].
    + destruct (Hoth y m' Hy Hp) as (m0 & Hm0 & ->). simplify_eq. split; [done|]. destruct Hor as [|Hor]; [by left|right].
      intros p Hp'. apply Hor. by right.
Qed.

Lemma erase_empty_ok L : forall h, pending h L ->
  exists h', erase_empty L h = Ok h' /\ nt_inv o counts h' /\ shrunk h h' (fun _ => True) /\ tight_but h' None.
Proof.
  induction L as [|[k x] L IH]; intros h Hpd.
  - exists h. split; [done|]. split; [apply Hpd|]. split; [apply shrunk_refl|]. intros y m Hy _. by apply (pd_others _ _ Hpd y), not_elem_of_nil.
  - destruct (pd_nodes _ _ Hpd k x) as (n & Hx & _); [by left|].
    destruct (nt_erase_one h x n (pd_inv _ _ Hpd) Hx) as (j & h1 & E & Hi1 & Hd). cbn [erase_empty]. rewrite E. cbn [mbind result_bind snd].
    destruct (isEmpty n) eqn:He.
    + destruct (IH h1) as (h' & E' & Hi' & Hsh & Ht); [by eapply pending_erased|]. exists h'. split; [done|]. split; [done|]. split; [|done].
      eapply shrunk_trans; [|exact Hsh]. eapply shrunk_weaken; [|apply (ed_shrunk _ _ _ _ _ _ Hd)]. done.
    + subst h1. apply IH. by eapply pending_keep.
Qed.
End erase_empty.

(** ** Properties *)

Section properties.
Context `{HashFunction} `{StdSort} `{!StdSortLaws}.
Implicit Types (s : NfdTables).

Lemma tables_at_nodes o counts (h h' : Hashtable Tables) (f : Tables -> Tables) :
  ht_inv o counts h -> ht_inv o counts h' -> f no_tables = no_tables ->
  (forall y, ht_nodes h' !! y = (fun n => set_tables (f (nd_tables n)) n) <$> ht_nodes h !! y) ->
  forall m, tables_at h' m = f (tables_at h m).
Proof.
  intros Hi Hi' Hf Hn m. destruct (at_name_dec o counts h m Hi) as [(x & n & Hx & <-)|Hno].
  - rewrite (tables_at_present o counts h x n) by done.
    apply (tables_at_present o counts h' x (set_tables (f (nd_tables n)) n)); [done|]. by rewrite Hn, Hx.
  - rewrite (tables_at_absent o counts h m Hi Hno), Hf. apply (tables_at_absent o counts); [done|].
    intros x (n & Hx & En). rewrite Hn in Hx. apply fmap_Some in Hx as (n0 & Hx & ->). apply (Hno x). by exists n0.
Qed.

Lemma candidates_sublist face σ l : (candidates face σ l).*2 `sublist_of` l.
Proof.
  induction l as [|x l IH]; [constructor|]. unfold candidates. cbn [omap list_omap]. unfold candidate at 1.
  destruct (σ !! x) as [n|]; [|by constructor]. destruct (hasTableEntries _); [by constructor|]. cbn. by apply sublist_skip.
Qed.

Lemma cleanup_pending o counts face (h h' : Hashtable Tables) (l : list nat) acc :
  nt_inv o counts h' -> NoDup l ->
  (forall y, y ∈ l <-> is_Some (ht_nodes h !! y)) -> (forall y, ht_nodes h' !! y = clean_node face <$> ht_nodes h !! y) ->
  acc ≡ₚ candidates face (ht_nodes h) l -> StronglySorted by_key acc -> pending o counts h' (rev acc).
Proof.
  intros Hi Hnd Hl Hn Hacc Hs.
  assert (Hin : forall k x, (k, x) ∈ rev acc <-> exists n, ht_nodes h !! x = Some n /\ k = length (nd_name n) /\
    hasTableEntries (clean_tables face (nd_tables n)) = false).
  { intros k x. rewrite <- Permutation_rev, Hacc. unfold candidates. rewrite list_elem_of_omap. unfold candidate. split.
    - intros (y & Hy & E). destruct (ht_nodes h !! y) as [n|] eqn:En; [|done]. destruct (hasTableEntries _) eqn:Et; [done|].
      injection E as <- <-. by exists n.
    - intros (n & Hx & -> & Et). exists x. split; [apply Hl; by eexists|]. by rewrite Hx, Et. }
  split.
  - done.
  - assert (Hp : (rev acc).*2 ≡ₚ (candidates face (ht_nodes h) l).*2) by (by rewrite <- Permutation_rev, Hacc).
    rewrite Hp. eapply sublist_NoDup; [exact Hnd|apply candidates_sublist].
  - intros k x (n & Hx & -> & _)%Hin. exists (clean_node face n). by rewrite Hn, Hx.
  - clear -Hs. induction Hs as [|p acc Hs IH Hf]; cbn; [constructor|]. clear Hs. 
    assert (Hf' : Forall (fun q => (p.1 <= q.1)%nat) (rev acc)) by (by rewrite <- Permutation_rev).
    induction (rev acc) as [|q L IHL]; cbn; [by repeat constructor|]. apply StronglySorted_inv in IH as [IH Hq]. apply Forall_cons in Hf' as [Hpq Hf'].
    constructor; [by apply IHL|]. apply Forall_app. split; [done|]. by constructor.
  - intros y m Hy Hyl. rewrite Hn in Hy. apply fmap_Some in Hy as (n & Hy & ->).
    assert (Ht : hasTableEntries (nd_tables (clean_node face n)) = true).
    { destruct (hasTableEntries _) eqn:E; [done|]. exfalso. apply Hyl. apply list_elem_of_fmap. exists (length (nd_name n), y).
      split; [done|]. apply Hin. by exists n. }
    split; [by apply has_tables_not_empty|by left].
Qed.

Lemma keeps_clean face (h h' : Hashtable Tables) :
  (forall y, ht_nodes h' !! y = clean_node face <$> ht_nodes h !! y) -> keeps (setFibEntry None) h h'.
Proof.
  intros Hn. split; intros y n Hy Hg.
  - exists (clean_node face n). by rewrite Hn, Hy.
  - rewrite Hn in Hy. apply fmap_Some in Hy as (m & Hm & ->). by exists m.
Qed.

Lemma cleanupOnFaceRemoval_ok o limit counts (Hc : counts_ok o limit counts = true) s
    (Hf : fib_inv o counts s) (Hp : pit_inv o counts s) (face : Z) :
  exists s', cleanupOnFaceRemoval face s = Ok s' /\ fib_inv o counts s' /\ pit_inv o counts s' /\
    tight_but (t_nameTree s') None /\
    (forall m, tables_at (t_nameTree s') m = clean_tables face (tables_at (t_nameTree s) m)) /\
    (forall name e ep, fib_view s' !! name = Some e -> hops_map e !! (face, ep) = None) /\
    pit_map s' = pit_map s /\
    (forall loc e, pit_entries s !! loc = Some e -> exists e', pit_entries s' !! loc = Some e' /\
       if is_some (pit_nte e) then cleaned face e e' else e' = e) /\
    keeps (setFibEntry None) (t_nameTree s) (t_nameTree s') /\ s' = with_fib_pit (t_nameTree s') (fib_nItems s') (pit_entries s') s.
Proof.
  pose proof (fi_tree _ _ _ Hf) as Ht. unfold cleanupOnFaceRemoval.
  destruct (fullEnumerate_ok o counts (t_nameTree s) any_entry (ni_table _ _ _ Ht)) as (l & El & Hnd & Hl).
  assert (Hl' : forall y, y ∈ l <-> is_Some (ht_nodes (t_nameTree s) !! y)).
  { intros y. rewrite Hl. split; [intros (n & Hn & _); by eexists|intros [n Hn]; by exists n]. }
  unfold fullEnumerate in El. apply result_bind_Ok in El as (begin & Eb & Ec). rewrite Eb. cbn [mbind result_bind].
  destruct (cleanup_loop_ok o limit counts Hc face (t_nameTree s) _ begin l [] s Ec) as (h & k & E & acc & -> & Hf1 & Hp1 & Hm1 & _ & Hn1 & He1 & Hacc & Hsort);
    [done|done|done|done|by apply Hl'|]. cbn [mbind result_bind app] in *.
  assert (Hn : forall y, ht_nodes h !! y = clean_node face <$> ht_nodes (t_nameTree s) !! y).
  { intros y. rewrite Hn1. case_decide as Hy; [done|]. rewrite Hl' in Hy. apply eq_None_not_Some in Hy. by rewrite Hy. }
  pose proof (fi_tree _ _ _ Hf1) as Ht1. cbn in Ht1.
  destruct (erase_empty_ok o limit counts Hc (rev acc) h) as (h' & Ee & Ht2 & Hsh & Htight);
    [apply (cleanup_pending o counts face (t_nameTree s) h l acc); [done|done|done|done|done|by apply Hsort; constructor]|].
  cbn [t_nameTree with_fib_pit with_pit with_fib_nItems with_nameTree]. rewrite Ee. cbn [mbind result_bind].
  destruct (fullEnumerate_ok o counts h' any_entry (ni_table _ _ _ Ht2)) as (l2 & -> & _ & Hl2). cbn [mbind result_bind].
  set (s1 := with_fib_pit h k E s) in *. set (s' := with_nameTree h' s1).
  assert (Hta : forall m, tables_at h' m = tables_at h m) by (by eapply (tables_at_shrunk o counts); [apply Ht1|apply Ht2|]).
  assert (Hta1 : forall m, tables_at h m = clean_tables face (tables_at (t_nameTree s) m)).
  { apply (tables_at_nodes o counts); [apply Ht|apply Ht1|done|done]. }
  assert (Hv : fib_view s' = fib_view s1) by (unfold fib_view; by apply view_ext).
  exists s'. rewrite (proj2 (forallb_forall _ _)), orb_true_r.
  2: { intros x _. destruct (ht_nodes h' !! x) as [n|] eqn:Ex; [|done]. by rewrite (Htight x n Ex). }
  split; [done|]. split; [|split; [|split; [done|split; [|split; [|split; [|split; [|split]]]]]]].
  - split; [done|by rewrite Hv; apply Hf1|rewrite Hv; apply Hf1].
  - eapply pit_inv_frame; [exact Hp1|exact Ht2|by eapply keeps_shrunk|done|done|done].
  - intros m. cbn. by rewrite Hta, Hta1.
  - intros name e ep. rewrite Hv. unfold fib_view. rewrite view_lookup by done. cbn. rewrite Hta1. cbn. unfold clean_fib.
    destruct (tb_fib (tables_at (t_nameTree s) name)) as [e0|] eqn:E0; [|done]. destruct (hasNextHops _); [|done]. intros [= <-].
    destruct (fi_entries _ _ _ Hf name e0) as [_ Hok]; [unfold fib_view; by rewrite view_lookup|].
    destruct (removeNextHopByFace_ok face e0 Hok) as [_ ->]. apply map_lookup_filter_None. right. intros c _ Hne. by apply Hne.
  - exact Hm1.
  - intros loc e He. destruct (He1 loc e He) as (e' & Hl1 & Hpe). exists e'. split; [done|]. unfold pass_entry in Hpe.
    destruct (pit_nte e) as [x|] eqn:Ex; [|done]. rewrite decide_True in Hpe; [done|].
    destruct (po_attached _ _ (pv_ok _ _ _ Hp) loc e x He Ex) as (nm & lst & (n & Hx & _) & _). apply Hl'. by eexists.
  - etrans; [|by eapply keeps_shrunk]. by apply (keeps_clean face).
  - done.
Qed.

(** C28: when a face is removed, the cleanup ends without violating an assertion, in
    particular the last one: no name tree entry is empty afterwards, not even one that
    was empty before.  The FIB loses the next hops of the face and the entries without
    next hops, every attached PIT entry loses the records of the face, and nothing else
    changes. *)
Theorem cleanup_on_face_removal o limit counts (Hc : counts_ok o limit counts = true) s
    (Hf : fib_inv o counts s) (Hp : pit_inv o counts s) (face : Z) :
  exists s', cleanupOnFaceRemoval face s = Ok s' /\ fib_inv o counts s' /\ pit_inv o counts s' /\
    tight_but (t_nameTree s') None /\
    (forall m, tables_at (t_nameTree s') m = clean_tables face (tables_at (t_nameTree s) m)) /\
    (forall name e ep, fib_view s' !! name = Some e -> hops_map e !! (face, ep) = None) /\
    pit_map s' = pit_map s /\
    (forall loc e, pit_entries s !! loc = Some e -> exists e', pit_entries s' !! loc = Some e' /\
       if is_some (pit_nte e) then cleaned face e e' else e' = e).
Proof.
  destruct (cleanupOnFaceRemoval_ok o limit counts Hc s Hf Hp face) as (s' & ? & ? & ? & ? & ? & ? & ? & ? & _). by exists s'.
Qed.

(** C40: removing the last next hop of a FIB entry through [Fib::removeNextHop]
    drops the entry but not its name tree entry.  If nothing else was attached there, the
    name tree entry stays behind empty, and looking for a PIT entry of that name violates
    an assertion of [Pit::findOrInsert]. *)
Theorem leftover_breaks_find o limit counts (Hc : counts_ok o limit counts = true) s
    (Hf : fib_inv o counts s) (Hp : pit_inv o counts s) x prefix e n face ep i
    (Hat : fib_at s x prefix e) (Hops : delete (face, ep) (hops_map e) = ∅)
    (Hx : ht_nodes (t_nameTree s) !! x = Some n) (Hch : nd_children n = [])
    (Ht : nd_tables n = setFibEntry (Some e) no_tables)
    (Hi : take (nteDepth (i_name i)) (i_name i) = prefix) :
  exists s', fib_removeNextHop x face ep s = Ok s' /\ pit_find i s' = Err (AssertFailed "!nte->isEmpty()").
Proof.
  pose proof (fib_at_view o counts s x prefix e (ni_table _ _ _ (fi_tree _ _ _ Hf)) Hat) as Hv.
  destruct (fi_entries _ _ _ Hf prefix e Hv) as [_ Hok]. destruct (removeNextHop_ok face ep e Hok) as [Hok' Hm].
  destruct (fib_remove_ok o limit counts Hc s x prefix e (removeNextHop face ep) Hf Hat eq_refl Hok') as (s' & E & Hf' & _ & _ & m & Hm' & Hn & _).
  simplify_eq. exists s'. split; [exact E|]. clear E.
  assert (hasNextHops (removeNextHop face ep e) = false) as Eh by (by rewrite hasNextHops_map, Hm, Hops, bool_decide_true).
  rewrite Eh in Hn. set (m' := set_tables _ _) in Hn.
  assert (Hx' : ht_nodes (t_nameTree s') !! x = Some m') by (rewrite Hn; apply lookup_insert_eq).
  destruct Hat as (n0 & Hn0 & En & _). simplify_eq.
  unfold pit_find, pit_findOrInsert. cbv zeta. rewrite (findExactMatch_ok o counts) by apply Hf'. cbn [mbind result_bind].
  assert (Hmap : ht_map (t_nameTree s') !! take (nteDepth (i_name i)) (i_name i) = Some x).
  { apply ht_map_at; [apply Hf'|]. exists m'. split; [done|]. exact En. }
  rewrite Hmap. unfold deref. rewrite Hx'. cbn [mbind result_bind].
  assert (Etb : nd_tables m' = no_tables) by (unfold m'; cbn; by rewrite Ht). rewrite Etb. cbn [tb_pit no_tables Tables_entries find_match mbind result_bind negb].
  unfold isEmpty, hasChildren. rewrite Etb. unfold m'. cbn [nd_children set_tables]. by rewrite Hch.
Qed.
End properties.

(** A FIB entry for /a/b with one next hop, and nothing else. *)
Definition sample_fib : result (nat * NfdTables) :=
  let* h := NameTree_new 1024 in
  let* (xs, s) := fib_insert (H := mark_hash) name_a_b (NfdTables_new h) in
  let* s := fib_addOrUpdateNextHop xs.1 256 0 10 s in
  Ok (xs.1, s).

Lemma sample_fib_ok : exists h x s e n, Hashtable_new (T := Tables) (HashtableOptions_new 1024) = Ok h /\ sample_fib = Ok (x, s) /\
  fib_inv (H := mark_hash) (HashtableOptions_new 1024) (power_counts 1024) s /\
  pit_inv (H := mark_hash) (HashtableOptions_new 1024) (power_counts 1024) s /\
  fib_at s x name_a_b e /\ hops_map e = {[ (256, 0) := 10 ]} /\
  ht_nodes (t_nameTree s) !! x = Some n /\ nd_tables n = setFibEntry (Some e) no_tables /\ nd_children n = [].
Proof.
  assert (H0 : match Hashtable_new (T:=Tables) (HashtableOptions_new 1024) with
               | Ok h => m_htSize h =? 0 | Err _ => false end = true) by (vm_compute; reflexivity).
  destruct (Hashtable_new (T:=Tables) (HashtableOptions_new 1024)) as [h|] eqn:Eh; [|done]. zbool.
  destruct (fib_inv_new (H := mark_hash) _ _ _ h counts_1024 Eh) as [Hf Hv].
  destruct (pit_inv_new (H := mark_hash) _ _ _ h counts_1024 Eh) as (Hp & _ & _).
  destruct (NameTree_new_inv (H := mark_hash) _ _ _ h counts_1024 Eh) as [_ Hta].
  destruct (fib_insert_ok (H := mark_hash) _ _ _ counts_1024 (NfdTables_new h) name_a_b Hf) as (x & e & s1 & E1 & Hf1 & [K1 S1] & Hat & Hm);
    [cbn; unfold getMaxDepth; lia|cbn; rewrite H0; unfold getMaxDepth; lia|].
  rewrite Hv, lookup_empty in E1, Hm. destruct Hm as [-> Hm].
  destruct (addOrUpdateNextHop_ok 256 0 10 (fib_Entry_new name_a_b) (fib_Entry_new_ok _)) as [Hok Hhm].
  destruct (fib_update_entry_ok (H := mark_hash) _ _ s1 x name_a_b (fib_Entry_new name_a_b) (addOrUpdateNextHop 256 0 10) Hf1 Hat)
    as (s2 & E2 & Hf2 & [K2 S2] & Hat2 & _ & _); [done|exact Hok|].
  assert (E : sample_fib = Ok (x, s2)).
  { unfold sample_fib, NameTree_new. rewrite Eh. cbn [mbind result_bind]. rewrite E1. cbn [mbind result_bind fst].
    unfold fib_addOrUpdateNextHop. by rewrite E2. }
  assert (H1 : match sample_fib with
               | Ok (x, s) => match ht_nodes (t_nameTree s) !! x with Some n => bool_decide (nd_children n = []) | None => false end
               | Err _ => false end = true) by (vm_compute; reflexivity).
  rewrite E in H1. pose proof Hat2 as (n & Hn & En & Hfe). rewrite Hn in H1. apply bool_decide_eq_true in H1.
  exists h, x, s2, (addOrUpdateNextHop 256 0 10 (fib_Entry_new name_a_b)), n. split; [done|]. split; [done|]. split; [done|]. split.
  { eapply (pit_inv_frame (H := mark_hash)); [exact Hp|apply Hf2| |by rewrite S2, S1..].
    apply (keeps_compose (H := mark_hash) (setFibEntry None) tb_pit). by etrans. }
  split; [done|]. split; [exact Hhm|]. split; [done|]. split; [|done].
  assert (K : same_at (setFibEntry None) (t_nameTree s2) h) by (etrans; [apply K2|apply K1]).
  destruct (hasTableEntries (setFibEntry None (nd_tables n))) eqn:Et; cycle 1.
  - apply empty_no_tables in Et. destruct (nd_tables n) as [tf tp tm ts]. unfold setFibEntry in *. cbn in *. injection Et as -> -> ->. by rewrite Hfe.
  - destruct (K x n Hn) as (n' & Hn' & _); [intros Eq; by rewrite Eq in Et|]. destruct (new_inv (H := mark_hash) _ _ _ counts_1024 h Eh) as [_ Hnone].
    by rewrite Hnone, lookup_empty in Hn'.
Qed.

Lemma leftover_breaks_find_witness : exists x s s', sample_fib = Ok (x, s) /\ fib_removeNextHop x 256 0 s = Ok s' /\
  pit_find (H := mark_hash) (sample_interest 7) s' = Err (AssertFailed "!nte->isEmpty()").
Proof.
  destruct sample_fib_ok as (h & x & s & e & n & _ & E & Hf & Hp & Hat & Hops & Hn & Ht & Hch).
  destruct (leftover_breaks_find (H := mark_hash) _ _ _ counts_1024 s Hf Hp x name_a_b e n 256 0 (sample_interest 7) Hat) as (s' & E1 & E2);
    [by rewrite Hops, delete_singleton_eq|exact Hn|exact Hch|exact Ht|by vm_compute|].
  exists x, s, s'. split; [exact E|]. split; [exact E1|exact E2].
Defined.

Lemma cleanup_on_face_removal_witness : exists x s s', sample_fib = Ok (x, s) /\
  cleanupOnFaceRemoval 256 s = Ok s' /\ fib_view s' !! name_a_b = None.
Proof.
  destruct sample_fib_ok as (h & x & s & e & n & _ & E & Hf & Hp & Hat & Hops & Hn & Ht & Hch).
  destruct (cleanup_on_face_removal (H := mark_hash) _ _ _ counts_1024 s Hf Hp 256) as (s' & E1 & Hf' & _ & _ & Hta & _).
  exists x, s, s'. split; [exact E|]. split; [exact E1|]. clear E E1.
  unfold fib_view. rewrite view_lookup by done. rewrite Hta.
  destruct Hat as (n0 & Hn0 & En & Hfe). assert (n0 = n) as -> by congruence. rewrite <- En.
  rewrite (tables_at_present (H := mark_hash) _ _ _ x n (ni_table _ _ _ (fi_tree _ _ _ Hf)) Hn), Ht. cbn. unfold clean_fib.
  cbn. rewrite hasNextHops_map.
  assert (Hok : hops_ok e).
  { apply (fi_entries _ _ _ Hf name_a_b). eapply (fib_at_view (H := mark_hash)); [apply Hf|]. by exists n. }
  rewrite (proj2 (removeNextHopByFace_ok 256 e Hok)), Hops. by vm_compute.
Defined.
