(* ===== verification/DeadNonceList.v ===== *)
(** * The dead nonce list (NFD/daemon/table/dead-nonce-list.cpp)

    Hashes of a name and a nonce, kept in the order of their insertion.  Marks inserted at
    fixed intervals tell how long entries stay; the capacity is adjusted so that about
    five marks are present.  The hash function is an argument: what is proved holds for
    each, and so says nothing about collisions, which the code accepts.  The container is
    indexed by order and by hash; here it is the list, searched.

    The properties: an entry stays until as many entries as the capacity have been added
    after it; the capacity stays within its limits, whatever the rounding of its
    adjustment in [double]; no assertion is violated. *)

From stdpp Require Import base gmap list sets strings.
From Stdlib Require Import ZArith Lia Floats.SpecFloat.
From S2P Require Import Prelude Tlv Encoder Block Codec Ndn NameTlv Selectors Data Interest Double Hashtable NameTree Scheduler NfdTables.

Local Open Scope Z_scope.

(** [CityHash64WithSeed] of an octet string and a seed. *)
Class SeededHash := CityHash64WithSeed : octets -> Z -> Z.

Definition DEFAULT_LIFETIME : Z := 6000000000.
Definition MIN_LIFETIME : Z := 1000000.
Definition INITIAL_CAPACITY : Z := 2 ^ 7.
Definition MIN_CAPACITY : Z := 2 ^ 3.
Definition MAX_CAPACITY : Z := 2 ^ 24.
Definition MARK : Z := 0.
Definition EXPECTED_MARK_COUNT : Z := 5.
(** The binary64 numbers nearest to 1.2 and 0.9. *)
Definition CAPACITY_UP : double := S754_finite false 5404319552844595 (-52).
Definition CAPACITY_DOWN : double := S754_finite false 8106479329266893 (-53).
Definition EVICT_LIMIT : Z := 2 ^ 6.

(** The multiset of mark counts is only compared with the expected count; its order is
    not kept. *)
Record DeadNonceList := mkDeadNonceList {
  dnl_lifetime : Z;
  dnl_queue : list Z;
  dnl_capacity : Z;
  dnl_actualMarkCounts : list Z;
  dnl_markInterval : Z;
  dnl_adjustCapacityInterval : Z;
  dnl_markEvent : option nat;
  dnl_adjustCapacityEvent : option nat;
}.

Definition with_queue (q : list Z) (d : DeadNonceList) : DeadNonceList :=
  mkDeadNonceList (dnl_lifetime d) q (dnl_capacity d) (dnl_actualMarkCounts d) (dnl_markInterval d)
    (dnl_adjustCapacityInterval d) (dnl_markEvent d) (dnl_adjustCapacityEvent d).

Definition DeadNonceList_new (now lifetime : Z) (q : EventQueue table_event)
  : result (DeadNonceList * EventQueue table_event) :=
  if lifetime <? MIN_LIFETIME then Err (InvalidArgument "lifetime is less than MIN_LIFETIME") else
  let markInterval := lifetime / EXPECTED_MARK_COUNT in
  let '(markEvent, q) := schedule now markInterval DnlMark q in
  let '(adjustEvent, q) := schedule now lifetime DnlAdjustCapacity q in
  Ok (mkDeadNonceList lifetime (replicate (Z.to_nat EXPECTED_MARK_COUNT) MARK) INITIAL_CAPACITY [] markInterval lifetime
        (Some markEvent) (Some adjustEvent), q).

Section operations.
Context `{SeededHash}.
Implicit Types (d : DeadNonceList) (name : Name) (nonce : Z).

(** The wire encoding of the name is that of [Name_wireEncode_ok]. *)
Definition makeEntry name nonce : Z :=
  u64 (CityHash64WithSeed (tlv tlv_Name (tlvs (name_elements name))) (u64 nonce)).

Definition countMarks d : Z := zlen (List.filter (Z.eqb MARK) (dnl_queue d)).
Definition dnl_size d : Z := u64 (zlen (dnl_queue d) - countMarks d).

Definition dnl_has name nonce d : bool := existsb (Z.eqb (makeEntry name nonce)) (dnl_queue d).

Definition evictEntries d : result DeadNonceList :=
  let nOverCapacity := i64 (u64 (zlen (dnl_queue d) - dnl_capacity d)) in
  if nOverCapacity <=? 0 then Ok d else
  let nEvict := Z.min nOverCapacity EVICT_LIMIT in
  let d := with_queue (drop (Z.to_nat nEvict) (dnl_queue d)) d in
  assert! dnl_capacity d <=? zlen (dnl_queue d) orelse "m_queue.size() >= m_capacity";
  Ok d.

Definition dnl_add name nonce d : result DeadNonceList :=
  evictEntries (with_queue (dnl_queue d ++ [makeEntry name nonce]) d).

Definition dnl_mark (now : Z) d (q : EventQueue table_event) : DeadNonceList * EventQueue table_event :=
  let d := with_queue (dnl_queue d ++ [MARK]) d in
  let nMarks := countMarks d in
  let '(ev, q) := schedule now (dnl_markInterval d) DnlMark q in
  (mkDeadNonceList (dnl_lifetime d) (dnl_queue d) (dnl_capacity d) (nMarks :: dnl_actualMarkCounts d) (dnl_markInterval d)
     (dnl_adjustCapacityInterval d) (Some ev) (dnl_adjustCapacityEvent d), q).

(** The bounds of the [equal_range] of the expected count tell whether all counts are
    above it or all are below it. *)
Definition adjustedCapacity d : result Z :=
  if forallb (fun n => EXPECTED_MARK_COUNT <? n) (dnl_actualMarkCounts d) then
    let* c := to_uint64 (d_mul (of_int (dnl_capacity d)) CAPACITY_DOWN) in Ok (Z.max MIN_CAPACITY c)
  else if forallb (fun n => n <? EXPECTED_MARK_COUNT) (dnl_actualMarkCounts d) then
    let* c := to_uint64 (d_mul (of_int (dnl_capacity d)) CAPACITY_UP) in Ok (Z.min MAX_CAPACITY c)
  else Ok (dnl_capacity d).
Definition adjustCapacity (now : Z) d (q : EventQueue table_event) : result (DeadNonceList * EventQueue table_event) :=
  let* c := adjustedCapacity d in
  let* d := evictEntries (mkDeadNonceList (dnl_lifetime d) (dnl_queue d) c [] (dnl_markInterval d)
                            (dnl_adjustCapacityInterval d) (dnl_markEvent d) (dnl_adjustCapacityEvent d)) in
  let '(ev, q) := schedule now (dnl_adjustCapacityInterval d) DnlAdjustCapacity q in
  Ok (mkDeadNonceList (dnl_lifetime d) (dnl_queue d) (dnl_capacity d) (dnl_actualMarkCounts d) (dnl_markInterval d)
        (dnl_adjustCapacityInterval d) (dnl_markEvent d) (Some ev), q).
End operations.

(** ** Lemmas *)
Section lemmas.
Context `{SeededHash}.
Implicit Types (d : DeadNonceList) (name : Name) (nonce : Z).

(** The capacity is within its limits, and the list shorter than a [ssize_t] can count. *)
Record dnl_inv d : Prop := {
  di_capacity : MIN_CAPACITY <= dnl_capacity d <= MAX_CAPACITY;
  di_length : zlen (dnl_queue d) < 2 ^ 63 - 1;
}.

(** Eviction drops the oldest entries, never below the capacity. *)
Lemma evictEntries_ok d :
  dnl_inv d \/ (MIN_CAPACITY <= dnl_capacity d <= MAX_CAPACITY /\ zlen (dnl_queue d) < 2 ^ 63) ->
  exists k, evictEntries d = Ok (with_queue (drop k (dnl_queue d)) d) /\
    (k = 0%nat \/ dnl_capacity d <= zlen (drop k (dnl_queue d))) /\
    k = Z.to_nat (Z.min (zlen (dnl_queue d) - dnl_capacity d) EVICT_LIMIT).
Proof.
  intros Hd. assert (Hc : MIN_CAPACITY <= dnl_capacity d <= MAX_CAPACITY /\ zlen (dnl_queue d) < 2 ^ 63).
  { destruct Hd as [[]|]; [|done]. split; [done|lia]. } clear Hd. destruct Hc as [Hc Hl].
  unfold MIN_CAPACITY, MAX_CAPACITY in Hc. pose proof (zlen_nonneg (dnl_queue d)). unfold evictEntries.
  set (n := zlen (dnl_queue d)) in *. set (c := dnl_capacity d) in *.
  assert (Hi : i64 (u64 (n - c)) = n - c).
  { unfold i64, u64. rewrite Zplus_mod_idemp_l, Z.mod_small by lia. lia. }
  rewrite Hi. destruct (n - c <=? 0) eqn:E; zbool.
  - exists 0%nat. assert (Z.to_nat (Z.min (n - c) EVICT_LIMIT) = 0%nat) as -> by lia.
    rewrite drop_0. split; [by destruct d|]. split; [by left|done].
  - set (k := Z.to_nat (Z.min (n - c) EVICT_LIMIT)). exists k. cbn [dnl_capacity dnl_queue with_queue].
    assert (Hk : c <= zlen (drop k (dnl_queue d))).
    { unfold zlen in *. rewrite length_drop. unfold k, EVICT_LIMIT. lia. }
    fold c. rewrite (proj2 (Z.leb_le _ _) Hk). split; [done|]. split; [by right|done].
Qed.

Lemma dnl_inv_drop k d : dnl_inv d -> dnl_inv (with_queue (drop k (dnl_queue d)) d).
Proof. intros [Hc Hl]. split; [done|]. cbn. unfold zlen in *. rewrite length_drop. lia. Qed.

(** A scaled capacity. *)
Lemma scaled_capacity d m e : dnl_inv d -> Z.pos m < 2 ^ 53 -> -60 <= e <= -40 -> Z.pos m < 2 * 2 ^ (- e) ->
  exists z, to_uint64 (d_mul (of_int (dnl_capacity d)) (S754_finite false m e)) = Ok z /\ 0 <= z /\
    z * 2 ^ (- e) <= dnl_capacity d * Z.pos m + 2 ^ 32 /\ dnl_capacity d * Z.pos m - 2 ^ 34 < (z + 1) * 2 ^ (- e).
Proof.
  intros [Hc _] Hm He Hme. unfold MIN_CAPACITY, MAX_CAPACITY in Hc.
  destruct (scale_bounds (dnl_capacity d) m e) as (z & Ez & Hz & Hu & Hl); [lia|done|done|].
  exists z. unfold to_uint64, to_int. rewrite Ez. split; [|done].
  assert (2 ^ 40 <= 2 ^ (- e)) by (apply Z.pow_le_mono_r; lia). set (b := 2 ^ (- e)) in *.
  rewrite (proj2 (Z.leb_le 0 z)), (proj2 (Z.leb_le z _)) by nia. done.
Qed.

Lemma adjustedCapacity_ok d : dnl_inv d -> exists c, adjustedCapacity d = Ok c /\ MIN_CAPACITY <= c <= MAX_CAPACITY.
Proof.
  intros Hd. pose proof (di_capacity d Hd) as Hc. unfold adjustedCapacity, CAPACITY_DOWN, CAPACITY_UP.
  unfold MIN_CAPACITY, MAX_CAPACITY in *. destruct (forallb _ _); [|destruct (forallb _ _); [|by eexists]].
  - destruct (scaled_capacity d 8106479329266893 (-53) Hd) as (z & -> & Hz & Hu & _); [lia..|]. eexists. split; [done|].
    change (- (-53)) with 53 in Hu. lia.
  - destruct (scaled_capacity d 5404319552844595 (-52) Hd) as (z & -> & Hz & _ & Hl); [lia..|]. eexists. split; [done|].
    change (- (-52)) with 52 in Hl. lia.
Qed.

Lemma dnl_add_ok name nonce d : dnl_inv d ->
  exists d', dnl_add name nonce d = Ok d' /\ dnl_inv d' /\ dnl_capacity d' = dnl_capacity d /\ dnl_lifetime d' = dnl_lifetime d /\
    exists k, dnl_queue d' = drop k (dnl_queue d ++ [makeEntry name nonce]) /\
      (k = 0%nat \/ dnl_capacity d <= zlen (dnl_queue d')).
Proof.
  intros [Hc Hl]. unfold dnl_add. set (d1 := with_queue _ d).
  assert (Hl1 : zlen (dnl_queue d1) = zlen (dnl_queue d) + 1) by (cbn; zlen_lia).
  destruct (evictEntries_ok d1) as (k & -> & Hk & Ek); [right; split; [done|lia]|].
  eexists. split; [done|]. split; [split; [done|]|split; [done|split; [done|by exists k]]].
  cbn [dnl_queue with_queue]. change (dnl_capacity d1) with (dnl_capacity d) in Ek.
  unfold MIN_CAPACITY, MAX_CAPACITY, EVICT_LIMIT, zlen in *. rewrite length_drop. lia.
Qed.

Lemma adjustCapacity_ok now d q : dnl_inv d -> exists d' ev q', adjustCapacity now d q = Ok (d', q') /\ dnl_inv d' /\
  (ev, q') = schedule now (dnl_adjustCapacityInterval d) DnlAdjustCapacity q /\ dnl_adjustCapacityEvent d' = Some ev /\
  exists k, dnl_queue d' = drop k (dnl_queue d) /\ (k <= Z.to_nat EVICT_LIMIT)%nat.
Proof.
  intros Hd. unfold adjustCapacity. destruct (adjustedCapacity_ok d Hd) as (c & -> & Hc). cbn [mbind result_bind].
  destruct Hd as [_ Hl]. destruct (evictEntries_ok (mkDeadNonceList (dnl_lifetime d) (dnl_queue d) c [] (dnl_markInterval d)
    (dnl_adjustCapacityInterval d) (dnl_markEvent d) (dnl_adjustCapacityEvent d))) as (k & -> & Hk & Ek); [right; split; [done|cbn; lia]|].
  cbn [mbind result_bind]. eexists _, _, _. split; [done|]. split; [split; [done|]|split; [done|split; [done|exists k; split; [done|]]]].
  - cbn. unfold zlen in *. rewrite length_drop. lia.
  - rewrite Ek. unfold EVICT_LIMIT. lia.
Qed.
Lemma dnl_mark_ok now d q : dnl_inv d -> zlen (dnl_queue d) < 2 ^ 63 - 2 -> exists d' ev q', dnl_mark now d q = (d', q') /\ dnl_inv d' /\
  (ev, q') = schedule now (dnl_markInterval d) DnlMark q /\ dnl_markEvent d' = Some ev /\ dnl_queue d' = dnl_queue d ++ [MARK].
Proof. intros Hd Hl. eexists _, _, _. split; [done|]. split; [|done]. split; [by apply Hd|]. cbn. zlen_lia. Qed.
End lemmas.

(** Additions, one after the other. *)
Fixpoint dnl_adds `{SeededHash} (l : list (Name * Z)) (d : DeadNonceList) : result DeadNonceList :=
  match l with
  | [] => Ok d
  | (name, nonce) :: l => let* d := dnl_add name nonce d in dnl_adds l d
  end.

(** An entry with [j] entries behind it. *)
Definition behind (e : Z) (j : nat) (q : list Z) : Prop := exists l1 l2, q = l1 ++ e :: l2 /\ length l2 = j.

Lemma behind_drop e j k q : behind e j q -> (j < length (drop k q))%nat -> behind e j (drop k q).
Proof.
  intros (l1 & l2 & -> & Hj) Hl. rewrite length_drop, length_app in Hl. cbn in Hl.
  exists (drop k l1), l2. split; [|done]. apply drop_app_le. lia.
Qed.
Lemma behind_snoc e j q x : behind e j q -> behind e (S j) (q ++ [x]).
Proof.
  intros (l1 & l2 & -> & Hj). exists l1, (l2 ++ [x]). rewrite <- app_assoc. split; [done|]. rewrite length_app, Hj. cbn. lia.
Qed.
Lemma behind_elem e j q : behind e j q -> e ∈ q.
Proof. intros (l1 & l2 & -> & _). apply elem_of_app. right. by left. Qed.

Section retention.
Context `{SeededHash}.
Implicit Types (d : DeadNonceList) (name : Name) (nonce : Z).

Lemma dnl_add_behind name nonce e j d d' :
  dnl_inv d -> dnl_add name nonce d = Ok d' -> behind e j (dnl_queue d) -> Z.of_nat (S j) < dnl_capacity d ->
  behind e (S j) (dnl_queue d').
Proof.
  intros Hd E Hb Hj. destruct (dnl_add_ok name nonce d Hd) as (d1 & E1 & _ & _ & _ & k & Hq & Hk). rewrite E in E1. apply (inj Ok) in E1 as <-.
  apply (behind_snoc _ _ _ (makeEntry name nonce)) in Hb. rewrite Hq in Hk |- *. destruct Hk as [->|Hk]; [by rewrite drop_0|].
  apply behind_drop; [done|]. unfold zlen in Hk. lia.
Qed.

Lemma dnl_adds_ok l : forall d, dnl_inv d ->
  exists d', dnl_adds l d = Ok d' /\ dnl_inv d' /\
    (forall e j, behind e j (dnl_queue d) -> Z.of_nat (j + length l) < dnl_capacity d -> behind e (j + length l) (dnl_queue d')) /\
    (forall e, e ∈ dnl_queue d' -> e ∈ dnl_queue d \/ e ∈ (fun p => makeEntry p.1 p.2) <$> l).
Proof.
  induction l as [|[name nonce] l IH]; intros d Hd.
  - exists d. split; [done|]. split; [done|]. split; [intros e j; by rewrite Nat.add_0_r|by left].
  - destruct (dnl_add_ok name nonce d Hd) as (d1 & E1 & Hd1 & Hc & _ & k & Hq & _).
    destruct (IH d1 Hd1) as (d' & E & Hd' & Hb & Hs). exists d'. cbn [dnl_adds]. rewrite E1. cbn [mbind result_bind].
    split; [done|]. split; [done|]. split.
    + intros e j He Hj. cbn [length] in *. rewrite <- Nat.add_succ_comm. apply Hb; [|rewrite Hc; lia].
      eapply dnl_add_behind; [exact Hd|exact E1|done|lia].
    + intros e [He|He]%Hs; [|right; by right]. rewrite Hq in He.
      assert (He' : e ∈ dnl_queue d ++ [makeEntry name nonce]) by (eapply elem_of_submseteq; [exact He|apply sublist_submseteq, sublist_drop]).
      apply elem_of_app in He' as [He'| ->%list_elem_of_singleton]; [by left|right; by left].
Qed.

Lemma dnl_has_elem name nonce d : dnl_has name nonce d = true <-> makeEntry name nonce ∈ dnl_queue d.
Proof.
  unfold dnl_has. rewrite existsb_exists. split.
  - intros (x & Hx & ->%Z.eqb_eq). by apply list_elem_of_In.
  - intros Hn%list_elem_of_In. eexists. split; [exact Hn|apply Z.eqb_refl].
Qed.

(** C23: adding a name and nonce to the dead nonce list never violates the assertion of
    the eviction, and they are found until as many additions as the capacity have
    followed; nothing is found but what was there or was added, up to collisions of the
    hash.  The capacity stays between its limits when it is adjusted, with the factors
    1.2 and 0.9 of [double]; marks and adjustments keep the consistency, and the events are
    scheduled again. *)
Theorem dead_nonce_list (d : DeadNonceList) (Hd : dnl_inv d) :
  (forall name nonce l, zlen l < dnl_capacity d -> exists d', dnl_adds ((name, nonce) :: l) d = Ok d' /\ dnl_inv d' /\
     dnl_has name nonce d' = true /\
     forall name' nonce', dnl_has name' nonce' d' = true ->
       dnl_has name' nonce' d = true \/ makeEntry name' nonce' ∈ (fun p => makeEntry p.1 p.2) <$> (name, nonce) :: l) /\
  (forall now q, exists d' ev q', adjustCapacity now d q = Ok (d', q') /\ dnl_inv d' /\
     (ev, q') = schedule now (dnl_adjustCapacityInterval d) DnlAdjustCapacity q /\ dnl_adjustCapacityEvent d' = Some ev /\
     exists k, dnl_queue d' = drop k (dnl_queue d) /\ (k <= Z.to_nat EVICT_LIMIT)%nat) /\
  (forall now q, zlen (dnl_queue d) < 2 ^ 63 - 2 -> exists d' ev q', dnl_mark now d q = (d', q') /\ dnl_inv d' /\
     (ev, q') = schedule now (dnl_markInterval d) DnlMark q /\ dnl_markEvent d' = Some ev /\ dnl_queue d' = dnl_queue d ++ [MARK]).
Proof.
  split; [|split].
  - intros name nonce l Hl. destruct (dnl_add_ok name nonce d Hd) as (d1 & E1 & Hd1 & Hc & _ & k & Hq & Hk).
    destruct (dnl_adds_ok l d1 Hd1) as (d' & E & Hd' & Hb & _).
    destruct (dnl_adds_ok ((name, nonce) :: l) d Hd) as (d2 & E2 & _ & _ & Hs). cbn [dnl_adds] in E2. rewrite E1 in E2.
    cbn [mbind result_bind] in E2. rewrite E in E2. apply (inj Ok) in E2 as <-. exists d'. cbn [dnl_adds]. rewrite E1. cbn [mbind result_bind].
    split; [done|]. split; [done|]. split.
    + apply dnl_has_elem, (behind_elem _ (0 + length l)), Hb; [|rewrite Hc; unfold zlen in Hl; lia].
      rewrite Hq in Hk |- *. assert (Hb0 : behind (makeEntry name nonce) 0 (dnl_queue d ++ [makeEntry name nonce])) by (by exists (dnl_queue d), []).
      destruct Hk as [->|Hk]; [by rewrite drop_0|]. apply behind_drop; [done|]. destruct Hd as [[Hmin _] _].
      unfold zlen, MIN_CAPACITY in *. lia.
    + intros name' nonce' [?|?]%dnl_has_elem%Hs; [left; by apply dnl_has_elem|by right].
  - intros now q. by apply adjustCapacity_ok.
  - intros now q. by apply dnl_mark_ok.
Qed.
End retention.

Definition mark_seeded : SeededHash := fun s seed => zlen s + seed.

Lemma dead_nonce_list_witness : exists d d' q, DeadNonceList_new 0 DEFAULT_LIFETIME EventQueue_new = Ok (d, q) /\
  dnl_adds (H := mark_seeded) [([], 7); ([], 8)] d = Ok d' /\ dnl_has (H := mark_seeded) [] 7 d' = true.
Proof.
  destruct (DeadNonceList_new 0 DEFAULT_LIFETIME EventQueue_new) as [[d q]|] eqn:E; [|by vm_compute in E].
  assert (Hd : dnl_inv d) by (apply (inj Ok) in E; injection E as <- _; by vm_compute).
  assert (Hc : dnl_capacity d = INITIAL_CAPACITY) by (apply (inj Ok) in E; by injection E as <- _).
  destruct (dead_nonce_list (H := mark_seeded) d Hd) as [Hadd _].
  destruct (Hadd [] 7 [([], 8)]) as (d' & E' & _ & Hh & _); [by rewrite Hc|].
  exists d, d', q. split; [done|]. split; [exact E'|exact Hh].
Defined.
