(* ===== verification/NameTreeWalk.v ===== *)
(** * Partial enumeration of the name tree (NFD/daemon/table/name-tree-iterator.cpp,
    NameTree::partialEnumerate)

    The iterator walks the subtree of a name in pre-order through parent and children
    pointers, without a stack; a predicate tells for each entry whether to visit it and
    whether to descend.  The property: it visits what a recursive walk of the subtree
    visits, in that order, and ends; each entry is visited at most once. *)

From stdpp Require Import base gmap list sets strings.
From Stdlib Require Import ZArith Lia.
From S2P Require Import Prelude Tlv Encoder Block Codec Ndn NameTlv Hashtable NameTree.

Local Open Scope Z_scope.

Section walk_ops.
Context `{HashFunction} `{TableEntries T}.
Implicit Types (h : Hashtable T) (x : nat).
(** [EntrySubTreeSelector]: whether to visit the entry, and its children. *)
Context (pred : nat -> Node T -> bool * bool).

(** The elements after the one that [std::find] finds. *)
Fixpoint after_first x (l : list nat) : option (list nat) :=
  match l with
  | [] => None
  | y :: l => if (y =? x)%nat then Some l else after_first x l
  end.

(** The loop over the remaining siblings, until one is visited or has wanted children. *)
Fixpoint scan_siblings (siblings : list nat) h : result (option (nat * bool * bool)) :=
  match siblings with
  | [] => Ok None
  | y :: siblings =>
    let* n := deref y h in
    let '(wantSelf, wantChildren) := pred y n in
    if wantSelf || wantChildren then Ok (Some (y, wantSelf, wantChildren)) else scan_siblings siblings h
  end.

(** The while loop of [PartialEnumerationImpl::advance]: the entry that is visited next,
    and its state. *)
Fixpoint partial_loop (fuel : nat) (ref entry : nat) (wantChildren : bool) h : result (option (nat * bool)) :=
  let* n := deref entry h in
  if negb (entry =? ref)%nat || (wantChildren && hasChildren n) then
    match fuel with
    | O => Err OutOfFuel
    | S fuel =>
      if wantChildren && hasChildren n then
        match nd_children n with
        | [] => Err (UndefinedBehaviour "front of an empty vector")
        | y :: _ =>
          let* m := deref y h in
          let '(wantSelf, wantChildren) := pred y m in
          if wantSelf then Ok (Some (y, wantChildren)) else partial_loop fuel ref y wantChildren h
        end
      else
        match nd_parent n with
        | None => Err (UndefinedBehaviour "null parent")
        | Some p =>
          let* pn := deref p h in
          match after_first entry (nd_children pn) with
          | None => Err (AssertFailed "sibling != siblings.end()")
          | Some siblings =>
            let* next := scan_siblings siblings h in
            match (next : option (nat * bool * bool)) with
            | Some (y, wantSelf, wantChildren) =>
              if wantSelf then Ok (Some (y, wantChildren)) else partial_loop fuel ref y wantChildren h
            | None => partial_loop fuel ref p false h
            end
          end
        end
    end
  else Ok None.

Definition partial_advance h (i : Iterator) : result Iterator :=
  let walk r x wantChildren :=
    let* next := partial_loop (2 * size (ht_nodes h)) r x wantChildren h in
    Ok (match (next : option (nat * bool)) with
        | Some (y, wantChildren) => mkIterator (Some y) (Some r) wantChildren
        | None => Iterator_end
        end) in
  match it_entry i with
  | None =>
    match it_ref i with
    | None => Ok Iterator_end
    | Some r =>
      let* n := deref r h in
      let '(wantSelf, wantChildren) := pred r n in
      if wantSelf then Ok (mkIterator (Some r) (Some r) wantChildren) else walk r r wantChildren
    end
  | Some x =>
    match it_ref i with
    | None => Err (AssertFailed "i.m_ref != nullptr")
    | Some r => walk r x (it_state i)
    end
  end.

(** As the list of the visited entries. *)
Definition partialEnumerate (prefix : Name) h : result (list nat) :=
  let* entry := findExactMatch prefix (length prefix) h in
  let* begin := partial_advance h (mkIterator None entry false) in
  collect (size (ht_nodes h)) (partial_advance h) begin.
End walk_ops.

(** ** Trees *)

#[local] Unset Elimination Schemes.
Inductive tree : Type := Tree (x : nat) (subtrees : list tree).
#[local] Set Elimination Schemes.

Section tree_ind.
Context (P : tree -> Prop) (Hnode : forall x ts, Forall P ts -> P (Tree x ts)).
Fixpoint tree_ind (t : tree) : P t :=
  match t with
  | Tree x ts => Hnode x ts ((fix go (l : list tree) : Forall P l :=
      match l with [] => Forall_nil_2 P | t :: l => Forall_cons_2 P t l (tree_ind t) (go l) end) ts)
  end.
End tree_ind.

Definition root (t : tree) : nat := let 'Tree x _ := t in x.
Definition subtrees (t : tree) : list tree := let 'Tree _ ts := t in ts.
Fixpoint flatten (t : tree) : list nat := let 'Tree x ts := t in x :: mjoin (flatten <$> ts).

Section walk.
Context `{HashFunction} `{TableEntries T} `{!TableEntriesLaws T}.
Context (o : HashtableOptions) (counts : list Z) (h : Hashtable T) (Hinv : nt_inv o counts h).
Implicit Types (t : tree) (x y : nat).

(** The tree that the pointers describe. *)
#[local] Unset Elimination Schemes.
Inductive is_tree : tree -> Prop :=
  | is_tree_node x n ts : ht_nodes h !! x = Some n -> nd_children n = root <$> ts ->
      Forall (fun t => exists n, ht_nodes h !! root t = Some n /\ nd_parent n = Some x) ts -> Forall is_tree ts -> is_tree (Tree x ts).
#[local] Set Elimination Schemes.

Lemma is_tree_root t : is_tree t -> exists n, ht_nodes h !! root t = Some n /\ nd_children n = root <$> subtrees t.
Proof. destruct 1 as [x n ts Hn Hc _ _]. by exists n. Qed.
Lemma is_tree_subtree t s : is_tree t -> s ∈ subtrees t -> is_tree s /\ exists n, ht_nodes h !! root s = Some n /\ nd_parent n = Some (root t).
Proof.
  destruct 1 as [x n ts _ _ Hp Hs]. intros Hin. rewrite Forall_forall in Hp, Hs. split; [by apply Hs|by apply Hp].
Qed.

(** Every entry has one. *)
Lemma tree_exists x n : ht_nodes h !! x = Some n -> exists t, is_tree t /\ root t = x.
Proof.
  remember (getMaxDepth - length (nd_name n))%nat as k eqn:Ek. revert x n Ek.
  induction (lt_wf k) as [k _ IH]. intros x n -> Hx. pose proof (ni_tree _ _ _ Hinv) as Ht.
  assert (Hc : forall y, y ∈ nd_children n -> exists t, (is_tree t /\ exists m, ht_nodes h !! root t = Some m /\ nd_parent m = Some x) /\ root t = y).
  { intros y Hy. apply (to_children _ Ht x _ y (tviews_lookup h x n Hx)) in Hy as (v & Hv & Hp). apply tviews_inv in Hv as (m & Hm & ->).
    destruct (parent_shorter o counts h y m x n Hinv Hm Hp Hx) as (c & Em).
    pose proof (to_depth _ Ht y _ (tviews_lookup h y m Hm)) as Hd. cbn in Hd.
    destruct (IH (getMaxDepth - length (nd_name m))%nat) with (x := y) (n := m) as (t & Hit & <-); [|done|done|exists t; by eauto].
    assert (length (nd_name m) = S (length (nd_name n))) by (rewrite Em, length_app; cbn; lia). lia. }
  assert (Hts : exists ts, root <$> ts = nd_children n /\
    Forall (fun t => is_tree t /\ exists m, ht_nodes h !! root t = Some m /\ nd_parent m = Some x) ts).
  { induction (nd_children n) as [|y l IHl]; [by exists []|]. destruct (Hc y) as (t & Hit & Hr); [by left|].
    destruct IHl as (ts & E & Hf); [intros z Hz; apply Hc; by right|]. exists (t :: ts). cbn. rewrite Hr, E. split; [done|by constructor]. }
  destruct Hts as (ts & E & Hf). exists (Tree x ts). split; [|done].
  apply (is_tree_node x n); [done|done|..]; (eapply Forall_impl; [exact Hf|]); by intros t [].
Qed.

(** *** No entry occurs twice *)
Lemma flatten_below t : is_tree t -> forall y, y ∈ flatten t -> exists nr ny, ht_nodes h !! root t = Some nr /\ ht_nodes h !! y = Some ny /\
  nd_name nr `prefix_of` nd_name ny.
Proof.
  induction t as [x ts IH] using tree_ind. intros Hit y. pose proof (is_tree_root _ Hit) as (n & Hn & _). cbn in Hn |- *.
  intros [->|Hy]%elem_of_cons; [by exists n, n|]. apply list_elem_of_join in Hy as (l & Hy & (s & -> & Hs)%list_elem_of_fmap).
  destruct (is_tree_subtree _ s Hit Hs) as (Hs' & m & Hm & Hp). rewrite Forall_forall in IH.
  destruct (IH s Hs Hs' y Hy) as (nr & ny & Hnr & Hny & Hpre). exists n, ny. split; [done|]. split; [done|].
  assert (nr = m) as -> by congruence. destruct (parent_shorter o counts h _ m x n Hinv Hm Hp Hn) as (c & E).
  etrans; [|exact Hpre]. rewrite E. by exists [c].
Qed.

Lemma siblings_names t : is_tree t -> NoDup (root <$> subtrees t).
Proof.
  intros Hit. destruct (is_tree_root t Hit) as (n & Hn & <-). apply (to_NoDup _ (ni_tree _ _ _ Hinv) (root t) _ (tviews_lookup h _ n Hn)).
Qed.

Lemma flatten_NoDup t : is_tree t -> NoDup (flatten t).
Proof.
  induction t as [x ts IH] using tree_ind. intros Hit. pose proof (is_tree_root _ Hit) as (n & Hn & _). cbn in Hn |- *. apply NoDup_cons. split.
  - intros Hx. apply list_elem_of_join in Hx as (l & Hx & (s & -> & Hs)%list_elem_of_fmap).
    destruct (is_tree_subtree _ s Hit Hs) as (Hs' & m & Hm & Hp). destruct (flatten_below s Hs' x Hx) as (nr & ny & Hnr & Hny & Hpre).
    assert (nr = m) as -> by congruence. assert (ny = n) as -> by congruence.
    destruct (parent_shorter o counts h _ m x n Hinv Hm Hp Hn) as (c & E). rewrite E in Hpre. apply prefix_length in Hpre.
    rewrite length_app in Hpre. cbn in Hpre. lia.
  - pose proof (siblings_names _ Hit) as Hnd. cbn in Hnd.
    assert (Hsub : forall s, s ∈ ts -> is_tree s /\ exists m, ht_nodes h !! root s = Some m /\ nd_parent m = Some x) by (intros s; apply (is_tree_subtree (Tree x ts) s Hit)).
    clear Hit. induction ts as [|s ts IHts]; [constructor|]. cbn in Hnd |- *. apply NoDup_cons in Hnd as [Hr Hnd]. apply Forall_cons in IH as [IHs IH].
    destruct (Hsub s) as (Hs & m & Hm & Hp); [by left|]. apply NoDup_app. split; [by apply IHs|]. split; [|apply IHts; [done|done|]; intros s0 Hs0; apply Hsub; by right].
    intros y Hy Hy'. apply list_elem_of_join in Hy' as (l & Hy' & (s2 & -> & Hs2)%list_elem_of_fmap).
    destruct (Hsub s2) as (Hs2' & m2 & Hm2 & Hp2); [by right|].
    destruct (flatten_below s Hs y Hy) as (nr & ny & Hnr & Hny & Hpre). destruct (flatten_below s2 Hs2' y Hy') as (nr2 & ny2 & Hnr2 & Hny2 & Hpre2).
    assert (nr = m) as -> by congruence. assert (nr2 = m2) as -> by congruence. assert (ny2 = ny) as -> by congruence.
    destruct (parent_shorter o counts h _ m x n Hinv Hm Hp Hn) as (c & E). destruct (parent_shorter o counts h _ m2 x n Hinv Hm2 Hp2 Hn) as (c2 & E2).
    assert (Hname : nd_name m = nd_name m2).
    { destruct Hpre as [k1 F1], Hpre2 as [k2 F2]. rewrite F1 in F2. apply app_inj_1 in F2 as [F2 _]; [done|]. by rewrite E, E2, !length_app. }
    apply Hr. apply list_elem_of_fmap. exists s2. split; [|done].
    by apply (do_names _ _ (hi_data _ _ _ (ni_table _ _ _ Hinv)) (root s) (root s2) m m2).
Qed.

Lemma flatten_size t : is_tree t -> (length (flatten t) <= size (ht_nodes h))%nat.
Proof.
  intros Hit. rewrite <- size_dom, <- (size_list_to_set (C := gset nat)) by (by apply flatten_NoDup). apply subseteq_size. intros y.
  rewrite elem_of_list_to_set. intros (nr & ny & _ & Hy & _)%(flatten_below t Hit). by apply elem_of_dom_2 in Hy.
Qed.

(** *** The recursive walk *)
Context (pred : nat -> Node T -> bool * bool).

Definition sel x : bool * bool := match ht_nodes h !! x with Some n => pred x n | None => (false, false) end.
Fixpoint preorder t : list nat :=
  let 'Tree x ts := t in
  (if (sel x).1 then [x] else []) ++ (if (sel x).2 then mjoin (preorder <$> ts) else []).

Lemma preorder_root t : preorder t = (if (sel (root t)).1 then [root t] else []) ++ (if (sel (root t)).2 then mjoin (preorder <$> subtrees t) else []).
Proof. by destruct t. Qed.

Lemma preorder_sublist t : preorder t `sublist_of` flatten t.
Proof.
  induction t as [x ts IH] using tree_ind. cbn.
  assert (Hts : mjoin (preorder <$> ts) `sublist_of` mjoin (flatten <$> ts)).
  { clear x. induction IH as [|t ts Ht _ IHts]; [done|]. cbn. by apply sublist_app. }
  destruct (sel x) as [[] []]; cbn; [by apply sublist_skip|apply sublist_skip, sublist_nil_l|by apply sublist_cons|apply sublist_nil_l].
Qed.

(** *** The position of the iterator: the current tree, and for each ancestor up to the
    root of the walk the subtrees that follow. *)
Definition path : Type := list (nat * list tree).

Fixpoint position (ref : nat) t (p : path) : Prop :=
  match p with
  | [] => root t = ref
  | (x, later) :: p => exists earlier, is_tree (Tree x (earlier ++ t :: later)) /\ position ref (Tree x (earlier ++ t :: later)) p
  end.

Definition remaining t (wantChildren : bool) (p : path) : list nat :=
  (if wantChildren then mjoin (preorder <$> subtrees t) else []) ++ mjoin ((fun f => mjoin (preorder <$> f.2)) <$> p).

Definition weight (ts : list tree) : nat := length (mjoin (flatten <$> ts)).
(** How many rounds the loop may still take. *)
Fixpoint path_rounds (p : path) : nat := match p with [] => 0 | (_, later) :: p => 1 + 2 * weight later + path_rounds p end.
Definition rounds t (wantChildren : bool) (p : path) : nat := (if wantChildren then 2 * weight (subtrees t) else 0) + path_rounds p.

Lemma weight_cons t ts : weight (t :: ts) = (S (weight (subtrees t)) + weight ts)%nat.
Proof. unfold weight. cbn. rewrite length_app. by destruct t. Qed.
Lemma weight_app ts ts' : weight (ts ++ ts') = (weight ts + weight ts')%nat.
Proof. unfold weight. rewrite fmap_app, join_app, length_app. done. Qed.

(** An entry below the root of the walk has a longer name than it. *)
Lemma position_below ref t p n nr : is_tree t -> position ref t p -> ht_nodes h !! root t = Some n -> ht_nodes h !! ref = Some nr ->
  length (nd_name n) = (length (nd_name nr) + length p)%nat.
Proof.
  revert t n. induction p as [|[x later] p IH]; intros t n Hit Hpos Hn Hr; cbn in Hpos.
  - subst ref. rewrite Hn in Hr. injection Hr as ->. cbn. lia.
  - destruct Hpos as (earlier & Hit' & Hpos). destruct (is_tree_root _ Hit') as (m & Hm & _). cbn in Hm.
    destruct (is_tree_subtree _ t Hit') as (_ & n' & Hn' & Hp); [apply elem_of_app; right; by left|]. assert (n' = n) as -> by congruence.
    destruct (parent_shorter o counts h _ n x m Hinv Hn Hp Hm) as (c & E). rewrite E, length_app. rewrite (IH _ m Hit' Hpos Hm Hr). cbn. lia.
Qed.

Lemma after_first_app x l1 l2 : x ∉ l1 -> after_first x (l1 ++ x :: l2) = Some l2.
Proof.
  induction l1 as [|y l1 IH]; cbn; [by rewrite Nat.eqb_refl|]. intros [Hy Hn]%not_elem_of_cons.
  destruct (y =? x)%nat eqn:E; [apply Nat.eqb_eq in E; congruence|by apply IH].
Qed.

(** The loop over the siblings. *)
Lemma scan_siblings_ok ts : Forall is_tree ts ->
  exists r, scan_siblings pred (root <$> ts) h = Ok r /\
    match r with
    | Some (y, self, ch) => exists l1 t l2, ts = l1 ++ t :: l2 /\ root t = y /\ sel y = (self, ch) /\ self || ch = true /\ mjoin (preorder <$> l1) = []
    | None => mjoin (preorder <$> ts) = []
    end.
Proof.
  induction 1 as [|t ts Ht _ IH]; [by exists None|]. cbn [scan_siblings fmap list_fmap]. destruct (is_tree_root t Ht) as (n & Hn & _).
  unfold deref. rewrite Hn. cbn [mbind result_bind]. assert (Es : sel (root t) = pred (root t) n) by (unfold sel; by rewrite Hn).
  destruct (pred (root t) n) as [self ch]. destruct (self || ch) eqn:E.
  - exists (Some (root t, self, ch)). split; [done|]. by exists [], t, ts.
  - destruct IH as (r & -> & Hr). exists r. split; [done|]. apply orb_false_iff in E as [-> ->].
    assert (Hpt : preorder t = []) by (rewrite preorder_root, Es; done).
    destruct r as [[[y self] ch]|]; [|cbn; by rewrite Hpt]. destruct Hr as (l1 & t' & l2 & -> & Hr). exists (t :: l1), t', l2.
    split; [done|]. cbn. by rewrite Hpt.
Qed.

(** The walk goes on from [t'] with less to do. *)
Definition goes_on ref t (ch : bool) (p : path) t' (ch' : bool) (p' : path) (visited : list nat) : Prop :=
  is_tree t' /\ position ref t' p' /\ remaining t ch p = visited ++ remaining t' ch' p' /\ (rounds t' ch' p' < rounds t ch p)%nat.

Lemma round_down ref x c cs p : is_tree (Tree x (c :: cs)) -> position ref (Tree x (c :: cs)) p ->
  exists m, ht_nodes h !! root c = Some m /\ let '(self, ch) := pred (root c) m in
    goes_on ref (Tree x (c :: cs)) true p c ch ((x, cs) :: p) (if self then [root c] else []).
Proof.
  intros Hit Hpos. destruct (is_tree_subtree _ c Hit) as (Hitc & m & Hm & _); [by left|]. exists m. split; [done|].
  assert (Es : sel (root c) = pred (root c) m) by (unfold sel; by rewrite Hm). destruct (pred (root c) m) as [self ch].
  split; [done|]. split; [by exists []|]. split.
  - unfold remaining. cbn. rewrite (preorder_root c), Es. cbn [fst snd]. by rewrite <- !app_assoc.
  - unfold rounds. cbn [path_rounds subtrees]. rewrite weight_cons. destruct ch; lia.
Qed.

Lemma round_aside ref t ch x later p :
  is_tree t -> position ref t ((x, later) :: p) -> ch = false \/ subtrees t = [] ->
  exists n m siblings, ht_nodes h !! root t = Some n /\ nd_parent n = Some x /\ ht_nodes h !! x = Some m /\
    after_first (root t) (nd_children m) = Some siblings /\
    exists r, scan_siblings pred siblings h = Ok r /\
      match r with
      | Some (y, self, ch') => exists t' p', root t' = y /\ goes_on ref t ch ((x, later) :: p) t' ch' p' (if self then [y] else [])
      | None => exists t', root t' = x /\ goes_on ref t ch ((x, later) :: p) t' false p []
      end.
Proof.
  intros Hit (earlier & Hit' & Hpos') Hno. destruct (is_tree_subtree _ t Hit') as (_ & n & Hn & Hp); [apply elem_of_app; right; by left|].
  destruct (is_tree_root _ Hit') as (m & Hm & Hcm). cbn [root subtrees] in Hm, Hcm. exists n, m, (root <$> later).
  split; [done|]. split; [done|]. split; [done|]. rewrite Hcm, fmap_app, fmap_cons, after_first_app.
  2: { pose proof (siblings_names _ Hit') as Hnd. cbn in Hnd. rewrite fmap_app in Hnd. apply NoDup_app in Hnd as (_ & Hnd & _). intros Hin.
       apply (Hnd _ Hin). by left. }
  split; [done|]. assert (Hlater : Forall is_tree later).
  { apply Forall_forall. intros s Hs. apply (is_tree_subtree _ s Hit'). apply elem_of_app. right. by right. }
  assert (Hrem : remaining t ch ((x, later) :: p) = mjoin (preorder <$> later) ++ remaining (Tree x (earlier ++ t :: later)) false p).
  { unfold remaining. destruct Hno as [->|E]; [done|]. rewrite E. by destruct ch. }
  assert (Hrd : (1 + 2 * weight later + path_rounds p <= rounds t ch ((x, later) :: p))%nat) by (unfold rounds; cbn; lia).
  destruct (scan_siblings_ok later Hlater) as (r & -> & Hr). exists r. split; [done|]. destruct r as [[[y self] ch']|].
  - destruct Hr as (l1 & t' & l2 & -> & <- & Es & Hor & Hl1). rewrite weight_app, weight_cons in Hrd. exists t', ((x, l2) :: p). split; [done|].
    split; [rewrite Forall_forall in Hlater; apply Hlater, elem_of_app; right; by left|].
    split; [exists (earlier ++ t :: l1); rewrite <- app_assoc; done|]. split.
    + rewrite Hrem. unfold remaining. rewrite fmap_app, join_app, Hl1. cbn. rewrite (preorder_root t'), Es. cbn [fst snd]. by rewrite <- !app_assoc.
    + unfold rounds at 1. cbn [path_rounds]. destruct ch'; lia.
  - exists (Tree x (earlier ++ t :: later)). split; [done|]. split; [done|]. split; [done|]. split; [by rewrite Hrem, Hr|unfold rounds at 1; cbn [path_rounds]; lia].
Qed.

Definition loop_post ref t ch p (r : option (nat * bool)) : Prop :=
  match r with
  | Some (y, ch') => exists t' p', root t' = y /\ goes_on ref t ch p t' ch' p' [y]
  | None => remaining t ch p = []
  end.

Lemma loop_post_on ref t ch p t' ch' p' r : goes_on ref t ch p t' ch' p' [] -> loop_post ref t' ch' p' r -> loop_post ref t ch p r.
Proof.
  intros (Hit & Hpos & E & Hlt) Hr. destruct r as [[y ch2]|]; cbn in *; [|by rewrite E].
  destruct Hr as (t2 & p2 & <- & Hit2 & Hpos2 & E2 & Hlt2). exists t2, p2. split; [done|]. split; [done|]. split; [done|].
  split; [by rewrite E, E2|lia].
Qed.

Lemma partial_loop_ok ref nr fuel : ht_nodes h !! ref = Some nr -> forall t ch p,
  is_tree t -> position ref t p -> (rounds t ch p <= fuel)%nat ->
  exists r, partial_loop pred fuel ref (root t) ch h = Ok r /\ loop_post ref t ch p r.
Proof.
  intros Hr. induction fuel as [|fuel IH]; intros t ch p Hit Hpos Hf.
  all: destruct (is_tree_root t Hit) as (n & Hn & Hc); pose proof (position_below ref t p n nr Hit Hpos Hn Hr) as Hlen.
  all: assert (Href : (root t =? ref)%nat = bool_decide (p = [])) by
    (destruct p as [|[x later] p]; cbn in Hpos; [by apply Nat.eqb_eq|apply Nat.eqb_neq; intros E; rewrite E, Hr in Hn; injection Hn as ->; cbn in Hlen; lia]).
  all: assert (Hch : hasChildren n = negb (bool_decide (subtrees t = []))) by
    (unfold hasChildren; rewrite Hc; f_equal; apply bool_decide_ext; by destruct (subtrees t)).
  all: cbn [partial_loop]; unfold deref; rewrite Hn; cbn [mbind result_bind]; rewrite Href, Hch.
  - destruct p as [|[x later] p]; [|unfold rounds in Hf; cbn in Hf; lia]. rewrite bool_decide_true by done. cbn [negb orb].
    exists None. unfold rounds, loop_post, remaining in *. destruct ch; [|done]. destruct (subtrees t) as [|c cs]; [done|]. rewrite weight_cons in Hf. lia.
  - destruct (ch && negb (bool_decide (subtrees t = []))) eqn:Edesc.
    + apply andb_true_iff in Edesc as [-> Hne]. rewrite orb_true_r. destruct t as [x [|c cs]]; [done|]. cbn [subtrees root] in *. rewrite Hc. cbn [fmap list_fmap].
      destruct (round_down ref x c cs p Hit Hpos) as (m & -> & Hon). cbn [mbind result_bind]. destruct (pred (root c) m) as [self ch'].
      destruct self; [exists (Some (root c, ch')); split; [done|by exists c, ((x, cs) :: p)]|].
      pose proof Hon as (Hit' & Hpos' & _ & Hlt). destruct (IH c ch' ((x, cs) :: p) Hit' Hpos') as (r & -> & Hr'); [lia|].
      exists r. split; [done|by eapply loop_post_on].
    + assert (Hno : ch = false \/ subtrees t = []).
      { destruct ch; [right|by left]. cbn in Edesc. apply negb_false_iff in Edesc. by apply bool_decide_eq_true in Edesc. }
      rewrite orb_false_r. destruct p as [|[x later] p].
      { rewrite bool_decide_true by done. exists None. split; [done|]. unfold loop_post, remaining. destruct Hno as [->|E]; [done|]. rewrite E. by destruct ch. }
      rewrite bool_decide_false by done. cbn [negb].
      destruct (round_aside ref t ch x later p Hit Hpos Hno) as (n' & m & siblings & Hn' & Hp & Hm & Eaf & next & Esc & Hnext).
      assert (n' = n) as -> by congruence. rewrite Hp, Hm. cbn [mbind result_bind]. rewrite Eaf, Esc. cbn [mbind result_bind]. destruct next as [[[y self] ch']|].
      * destruct Hnext as (t' & p' & <- & Hon). destruct self; [exists (Some (root t', ch')); split; [done|by exists t', p']|].
        pose proof Hon as (Hit' & Hpos' & _ & Hlt). destruct (IH t' ch' p' Hit' Hpos') as (r & -> & Hr'); [lia|]. exists r. split; [done|by eapply loop_post_on].
      * destruct Hnext as (t' & <- & Hon). pose proof Hon as (Hit' & Hpos' & _ & Hlt).
        destruct (IH t' false p Hit' Hpos') as (r & -> & Hr'); [lia|]. exists r. split; [done|by eapply loop_post_on].
Qed.

(** *** The enumeration *)
Lemma partial_advance_from r x ch : partial_advance pred h (mkIterator (Some x) (Some r) ch) =
  let* next := partial_loop pred (2 * size (ht_nodes h)) r x ch h in
  Ok (match next with Some (y, ch') => mkIterator (Some y) (Some r) ch' | None => Iterator_end end).
Proof. done. Qed.

Lemma collect_partial_ok ref nr fuel : ht_nodes h !! ref = Some nr -> forall t ch p,
  is_tree t -> position ref t p -> (rounds t ch p <= 2 * size (ht_nodes h))%nat -> (length (remaining t ch p) < fuel)%nat ->
  collect fuel (partial_advance pred h) (mkIterator (Some (root t)) (Some ref) ch) = Ok (root t :: remaining t ch p).
Proof.
  intros Hr. induction fuel as [|fuel IH]; intros t ch p Hit Hpos Hrd Hf; [lia|]. cbn [collect it_entry]. rewrite partial_advance_from.
  destruct (partial_loop_ok ref nr (2 * size (ht_nodes h)) Hr t ch p Hit Hpos Hrd) as (r & -> & Hpost). cbn [mbind result_bind].
  destruct r as [[y ch']|]; cbn in Hpost.
  - destruct Hpost as (t' & p' & <- & Hit' & Hpos' & E & Hlt). rewrite E in Hf |- *. cbn in Hf.
    rewrite (IH t' ch' p' Hit' Hpos'); [done|lia|lia].
  - rewrite Hpost. by destruct fuel.
Qed.

(** What is visited: the entries that are reached through wanted children. *)
Inductive reached (ref : nat) : nat -> Prop :=
  | reached_root : reached ref ref
  | reached_child p x n : reached ref p -> (sel p).2 = true -> ht_nodes h !! x = Some n -> nd_parent n = Some p -> reached ref x.

Lemma reached_trans a b c : reached a b -> reached b c -> reached a c.
Proof. intros Hab. induction 1 as [|p x n _ IH Hs Hx Hp]; [done|]. by eapply reached_child. Qed.

Lemma preorder_reached t : is_tree t -> forall y, y ∈ preorder t <-> reached (root t) y /\ (sel y).1 = true.
Proof.
  induction t as [x ts IH] using tree_ind. intros Hit y. rewrite preorder_root. cbn [root subtrees]. rewrite Forall_forall in IH.
  rewrite elem_of_app. split.
  - intros [Hy|Hy].
    + destruct (sel x).1 eqn:E; [|by apply not_elem_of_nil in Hy]. apply list_elem_of_singleton in Hy as ->. split; [constructor|done].
    + destruct (sel x).2 eqn:E; [|by apply not_elem_of_nil in Hy]. apply list_elem_of_join in Hy as (l & Hy & (s & -> & Hs)%list_elem_of_fmap).
      destruct (is_tree_subtree _ s Hit Hs) as (Hits & m & Hm & Hp). apply (IH s Hs Hits) in Hy as [Hy Hself]. split; [|done].
      eapply reached_trans; [|exact Hy]. by apply (reached_child x x (root s) m (reached_root x)).
  - intros [Hy Hself]. assert (Hcase : y = x \/ (sel x).2 = true /\ exists s, s ∈ ts /\ reached (root s) y).
    { clear Hself IH. induction Hy as [|p y n _ IHp Hs Hy Hp]; [by left|]. right. destruct IHp as [->|(Hx & s & Hs' & Hr)].
      - split; [done|]. destruct (is_tree_root _ Hit) as (m & Hm & Hc). cbn [root subtrees] in Hm, Hc.
        pose proof (parent_child o counts h y n x m Hinv Hy Hp Hm) as Hin. rewrite Hc in Hin. apply list_elem_of_fmap in Hin as (s & -> & Hin).
        exists s. split; [done|constructor].
      - split; [done|]. exists s. split; [done|]. by eapply reached_child. }
    destruct Hcase as [->|(Hx & s & Hs & Hr)]; [left; rewrite Hself; by apply list_elem_of_singleton|right].
    rewrite Hx. apply list_elem_of_join. exists (preorder s). split; [|by apply list_elem_of_fmap_2].
    destruct (is_tree_subtree _ s Hit Hs) as (Hits & _). by apply (IH s Hs Hits).
Qed.

Lemma partial_walk_ok x n : ht_nodes h !! x = Some n ->
  exists t begin, is_tree t /\ root t = x /\ partial_advance pred h (mkIterator None (Some x) false) = Ok begin /\
    collect (size (ht_nodes h)) (partial_advance pred h) begin = Ok (preorder t).
Proof.
  intros Hx. destruct (tree_exists x n Hx) as (t & Hit & <-). exists t. pose proof (flatten_size t Hit) as Hsz.
  assert (Hpos : position (root t) t []) by done. assert (Es : sel (root t) = pred (root t) n) by (unfold sel; by rewrite Hx).
  assert (Hrd : forall ch, (rounds t ch [] <= 2 * size (ht_nodes h))%nat).
  { intros ch. unfold rounds, weight. cbn. destruct t as [y ts]. cbn in *. destruct ch; lia. }
  assert (Hrem : preorder t = (if (sel (root t)).1 then [root t] else []) ++ remaining t (sel (root t)).2 []).
  { rewrite preorder_root. unfold remaining. cbn. by rewrite app_nil_r. }
  assert (Hlen : (length (preorder t) <= size (ht_nodes h))%nat) by (etrans; [apply sublist_length, preorder_sublist|done]).
  unfold partial_advance at 1. cbv zeta. cbn [it_entry it_ref]. unfold deref. rewrite Hx. cbn [mbind result_bind].
  rewrite Hrem in Hlen |- *. rewrite Es in Hlen |- *. destruct (pred (root t) n) as [[] ch]; cbn [fst snd app] in *.
  - eexists. split; [done|]. split; [done|]. split; [done|]. by apply (collect_partial_ok (root t) n).
  - destruct (partial_loop_ok (root t) n (2 * size (ht_nodes h)) Hx t ch [] Hit Hpos (Hrd ch)) as (r & -> & Hpost). cbn [mbind result_bind].
    eexists. split; [done|]. split; [done|]. split; [done|]. destruct r as [[y ch']|]; cbn in Hpost.
    + destruct Hpost as (t' & p' & <- & Hit' & Hpos' & E & Hlt). rewrite E in Hlen |- *. cbn in Hlen.
      apply (collect_partial_ok (root t) n); [done|done|done| |lia]. specialize (Hrd ch). lia.
    + rewrite Hpost. by destruct (size (ht_nodes h)).
Qed.
End walk.

(** ** Properties *)
Section properties.
Context `{HashFunction} `{TableEntries T} `{!TableEntriesLaws T}.

Lemma partialEnumerate_ok o counts (h : Hashtable T) pred prefix : nt_inv o counts h ->
  exists l, partialEnumerate pred prefix h = Ok l /\ NoDup l /\
    match ht_map h !! prefix with
    | Some x => exists t, is_tree h t /\ root t = x /\ l = preorder h pred t
    | None => l = []
    end.
Proof.
  intros Hi. unfold partialEnumerate. rewrite (findExactMatch_ok o counts) by done. rewrite take_ge by done. cbn [mbind result_bind].
  destruct (ht_map h !! prefix) as [x|] eqn:E; [|exists []; split; [by destruct (size (ht_nodes h))|]; split; [constructor|done]].
  apply ht_map_at in E as (n & Hx & _); [|apply Hi].
  destruct (partial_walk_ok o counts h Hi pred x n Hx) as (t & begin & Hit & Hr & -> & Ec). cbn [mbind result_bind]. rewrite Ec.
  exists (preorder h pred t). split; [done|]. split; [|by exists t].
  eapply sublist_NoDup; [by eapply flatten_NoDup|apply preorder_sublist].
Qed.

(** C24: partial enumeration of the name tree ends, whatever the predicate rejects; it
    visits the entries of the subtree in the order in which a recursive walk visits them,
    each at most once: exactly the entries that are to be visited and whose ancestors up
    to the given name all have wanted children. *)
Theorem partial_enumeration o counts (h : Hashtable T) (Hi : nt_inv o counts h) pred prefix :
  exists l, partialEnumerate pred prefix h = Ok l /\ NoDup l /\
    (ht_map h !! prefix = None -> l = []) /\
    forall x, ht_map h !! prefix = Some x ->
      (exists t, is_tree h t /\ root t = x /\ l = preorder h pred t) /\
      forall y, y ∈ l <-> reached h pred x y /\ (sel h pred y).1 = true.
Proof.
  destruct (partialEnumerate_ok o counts h pred prefix Hi) as (l & E & Hnd & Hl). exists l. split; [done|]. split; [done|].
  destruct (ht_map h !! prefix) as [x|]; split; try done. intros x' [= <-]. destruct Hl as (t & Hit & <- & ->).
  split; [by exists t|]. by apply (preorder_reached o counts h Hi).
Qed.
End properties.

Lemma partial_enumeration_witness : exists (h : Hashtable bool) x l,
  at_name h x name_a_b /\ partialEnumerate (H := mark_hash) (H0 := mark_tables) (fun _ _ => (true, true)) name_a_b h = Ok l /\ x ∈ l.
Proof.
  destruct sample_tree as (h0 & h & x & _ & _ & Hi & (n & Hx & En) & _).
  destruct (partial_enumeration (H := mark_hash) (H0 := mark_tables) _ _ h Hi (fun _ _ => (true, true)) name_a_b) as (l & E & _ & _ & Hl).
  exists h, x, l. split; [by exists n|]. split; [exact E|].
  assert (Hm : ht_map h !! name_a_b = Some x) by (refine (proj2 (ht_map_at (H := mark_hash) h name_a_b x _) _); [apply Hi|by exists n]).
  destruct (Hl x Hm) as [_ Hin]. apply Hin. split; [constructor|]. unfold sel. by rewrite Hx.
Defined.
