(* ===== verification/NameSuccessor.v ===== *)
(** * Successors of names (ndn-cxx/name.cpp, name-component.cpp, impl/name-component-types.hpp)

    [Name::getSuccessor]: the first name after all names with a given prefix, with which
    content store and strategy registry find the end of a range of names. *)

From stdpp Require Import base gmap list sets strings.
From Stdlib Require Import ZArith Lia.
From S2P Require Import Prelude Tlv Encoder Block Codec Ndn NameTlv.

Local Open Scope Z_scope.

(** The loop of [getSuccessorImpl], from the last octet on: whether all octets have
    overflowed, and the new octets. *)
Fixpoint increment_loop (l : octets) : bool * octets :=
  match l with
  | [] => (true, [])
  | b :: l =>
    let newValue := z2b (u8 (b2z b + 1)) in
    if b2z newValue =? 0 then let '(isOverflow, l) := increment_loop l in (isOverflow, newValue :: l)
    else (false, newValue :: l)
  end.

(** [ComponentType::getSuccessorImpl] *)
Definition getSuccessorImpl (c : Component) : bool * Block :=
  let '(isOverflow, l) := increment_loop (rev (nc_value c)) in
  (isOverflow, element (nc_type c) (rev l ++ (if isOverflow then [z2b 0] else []))).

(** [ComponentTypeTable::get]: the types 1 and 2 hold digests. *)
Definition isDigestType (type : Z) : bool :=
  (type =? ImplicitSha256DigestComponent) || (type =? ParametersSha256DigestComponent).
Definition getMinValue (type : Z) : octets := if isDigestType type then replicate 32 (z2b 0) else [].
(** [ComponentType::getSuccessor] and [Sha256ComponentType::getSuccessor] *)
Definition type_getSuccessor (c : Component) : result (bool * Component) :=
  let '(isExtended, successor) := getSuccessorImpl c in
  if isDigestType (nc_type c) && isExtended then Ok (true, c)
  else let* s := Component_ofBlock successor in Ok (false, s).

Definition Component_getSuccessor (c : Component) : result Component :=
  let* (isOverflow, successor) := type_getSuccessor c in
  if negb (isOverflow : bool) then Ok successor else
  let type := u32 (nc_type c + 1) in
  Component_new type (getMinValue type).

Definition Name_getSuccessor (n : Name) : result Name :=
  match last n with
  | None => Ok [mkComponent ImplicitSha256DigestComponent (replicate 32 (z2b 0))]
  | Some c => let* s := Component_getSuccessor c in Ok (getPrefix (-1) n ++ [s])
  end.

(** ** Components as numbers *)

(** The octets as a number, the last one first. *)
Fixpoint lval (l : octets) : Z := match l with [] => 0 | b :: l => b2z b + 256 * lval l end.
Definition value_of (v : octets) : Z := lval (rev v).

Lemma lval_range l : 0 <= lval l < 256 ^ zlen l.
Proof.
  induction l as [|b l IH]; [done|]. cbn [lval]. rewrite zlen_cons, Z.pow_add_r by (pose proof (zlen_nonneg l); lia).
  pose proof (b2z_range b) as Hb. unfold is_u8 in Hb. change (256 ^ 1) with 256. nia.
Qed.
Lemma lval_app l b : lval (l ++ [b]) = lval l + 256 ^ zlen l * b2z b.
Proof.
  induction l as [|x l IH]; [cbn [lval app]; change (256 ^ zlen (@nil Byte.byte)) with 1; lia|]. cbn [lval app]. rewrite IH, zlen_cons, Z.pow_add_r by (pose proof (zlen_nonneg l); lia).
  change (256 ^ 1) with 256. lia.
Qed.
Lemma zlen_rev {A} (l : list A) : zlen (rev l) = zlen l.
Proof. unfold zlen. by rewrite length_rev. Qed.

Lemma lexcmp_value v w : length v = length w -> lexcmp v w = cmp_then (value_of v) (value_of w) 0.
Proof.
  unfold value_of. revert w. induction v as [|x v IH]; intros [|y w] Hl; try done. injection Hl as Hl. cbn [lexcmp rev].
  rewrite !lval_app, !zlen_rev. pose proof (lval_range (rev v)) as H1. pose proof (lval_range (rev w)) as H2. rewrite !zlen_rev in *.
  assert (Ez : zlen w = zlen v) by (unfold zlen; lia). rewrite Ez in *. set (p := 256 ^ zlen v) in *. rewrite IH by done. unfold cmp_then.
  destruct (b2z x <? b2z y) eqn:E1; zbool; [rewrite (proj2 (Z.ltb_lt _ _)); [done|nia]|].
  destruct (b2z y <? b2z x) eqn:E2; zbool; [rewrite (proj2 (Z.ltb_ge _ _)), (proj2 (Z.ltb_lt _ _)); [done|nia|nia]|].
  assert (b2z x = b2z y) as -> by lia. repeat case_match; zbool; try done; nia.
Qed.

Lemma increment_loop_ok l : let '(o, l') := increment_loop l in
  length l' = length l /\ (if o then lval l = 256 ^ zlen l - 1 /\ lval l' = 0 else lval l' = lval l + 1).
Proof.
  induction l as [|b l IH]; [done|]. cbn [increment_loop]. pose proof (b2z_range b) as Hb. unfold is_u8 in Hb.
  assert (En : b2z (z2b (u8 (b2z b + 1))) = if b2z b =? 255 then 0 else b2z b + 1).
  { rewrite b2z_z2b. unfold u8. change (2 ^ 8) with 256 in *. destruct (b2z b =? 255) eqn:E; zbool; [by rewrite E|].
    rewrite Zmod_mod, Z.mod_small by lia. done. }
  rewrite En. destruct (b2z b =? 255) eqn:E; zbool.
  - cbn [Z.eqb]. destruct (increment_loop l) as [o l']. destruct IH as [Hl IH]. cbn [length lval]. split; [lia|]. rewrite En.
    rewrite zlen_cons, Z.pow_add_r by (pose proof (zlen_nonneg l); lia). change (256 ^ 1) with 256. destruct o; lia.
  - rewrite (proj2 (Z.eqb_neq _ 0)) by lia. cbn [length lval]. split; [done|]. rewrite En. lia.
Qed.

(** A component in its place in the canonical order: type, length, number. *)
Definition place (c : Component) : Z * Z * Z := (nc_type c, zlen (nc_value c), value_of (nc_value c)).
Definition place_lt (a b : Z * Z * Z) : Prop :=
  let '(t, l, v) := a in let '(t', l', v') := b in t < t' \/ t = t' /\ (l < l' \/ l = l' /\ v < v').
Lemma compare_place c d : compare_fields c d < 0 <-> place_lt (place c) (place d).
Proof.
  assert (Hs : compare_fields c d < 0 <-> Z.sgn (compare_fields c d) < 0) by (destruct (compare_fields c d); cbn; lia).
  rewrite Hs, compare_fields_sgn, lexcmp_sgn. unfold place_lt, place, cmp_then.
  destruct (nc_type c <? nc_type d) eqn:E1; zbool; [split; [by left|lia]|].
  destruct (nc_type d <? nc_type c) eqn:E2; zbool; [split; [lia|intros [?|[? _]]; lia]|].
  destruct (zlen (nc_value c) <? zlen (nc_value d)) eqn:E3; zbool; [split; [right; split; [lia|by left]|lia]|].
  destruct (zlen (nc_value d) <? zlen (nc_value c)) eqn:E4; zbool; [split; [lia|intros [?|[_ [?|[? _]]]]; lia]|].
  rewrite lexcmp_value by (unfold zlen in *; lia). unfold cmp_then.
  destruct (value_of (nc_value c) <? value_of (nc_value d)) eqn:E5; zbool; [split; [right; split; [lia|right; lia]|lia]|].
  split; [destruct (_ <? _); lia|intros [?|[_ [?|[_ ?]]]]; lia].
Qed.

(** Components that [ensureValid] accepts. *)
Definition valid_component (c : Component) : Prop := ensureValid c = Ok tt.
Definition valid_name (n : Name) : Prop := Forall valid_component n.
#[export] Instance valid_component_dec c : Decision (valid_component c).
Proof.
  unfold valid_component. destruct (ensureValid c) as [[]|e] eqn:E; [by left|by right].
Defined.

Lemma valid_component_spec c : valid_component c <->
  1 <= nc_type c <= 65535 /\ (isDigestType (nc_type c) = true -> zlen (nc_value c) = 32).
Proof.
  unfold valid_component, ensureValid, ComponentType_check, isImplicitSha256Digest, isParametersSha256Digest, isDigestType,
    ImplicitSha256DigestComponent, ParametersSha256DigestComponent, DIGEST_SIZE, NameComponentMin, NameComponentMax.
  rewrite Z.gtb_ltb. repeat case_match; zbool; cbn in *; split; try done; intros; try (split; [lia|]); intros; try lia.
Qed.

(** The next component. *)
Lemma Component_getSuccessor_ok c : valid_component c ->
  exists s, Component_getSuccessor c = Ok s /\ valid_component s /\
    place s = let '(t, l, v) := place c in
      if v + 1 <? 256 ^ l then (t, l, v + 1) else if isDigestType t then (t + 1, (if isDigestType (t + 1) then 32 else 0), 0) else (t, l + 1, 0).
Proof.
  intros Hv. pose proof Hv as [Ht Hd]%valid_component_spec. unfold Component_getSuccessor, type_getSuccessor, getSuccessorImpl.
  pose proof (increment_loop_ok (rev (nc_value c))) as Hinc. destruct (increment_loop (rev (nc_value c))) as [ov l']. destruct Hinc as [Hlen Hval].
  rewrite length_rev in Hlen. rewrite zlen_rev in Hval. fold (value_of (nc_value c)) in Hval. unfold place at 2.
  pose proof (lval_range (rev (nc_value c))) as Hr. rewrite zlen_rev in Hr. fold (value_of (nc_value c)) in Hr.
  assert (Hov : (value_of (nc_value c) + 1 <? 256 ^ zlen (nc_value c)) = negb ov).
  { destruct ov; [apply Z.ltb_ge; lia|apply Z.ltb_lt]. pose proof (lval_range l') as Hl'. unfold zlen in *. rewrite Hlen in Hl'. lia. }
  rewrite Hov. assert (Hzl : zlen (rev l') = zlen (nc_value c)) by (unfold zlen; rewrite length_rev; lia).
  destruct (isDigestType (nc_type c) && ov) eqn:Ed.
  - apply andb_true_iff in Ed as [Ed ->]. cbn [mbind result_bind negb]. rewrite Ed. unfold isDigestType, ImplicitSha256DigestComponent, ParametersSha256DigestComponent in Ed |- *.
    assert (nc_type c = 1 \/ nc_type c = 2) as [->| ->] by (apply orb_true_iff in Ed as [?|?]; zbool; lia).
    + exists (mkComponent 2 (replicate 32 (z2b 0))). by vm_compute.
    + exists (mkComponent 3 []). by vm_compute.
  - set (v' := rev l' ++ _). assert (Hs : valid_component (mkComponent (nc_type c) v')).
    { apply valid_component_spec. cbn. split; [done|]. intros Hdt. rewrite Hdt in Ed. cbn in Ed. subst ov. unfold v'. rewrite app_nil_r, Hzl. by apply Hd. }
    unfold Component_ofBlock. cbn [block_type block_value element]. unfold valid_component in Hs. rewrite Hs. cbn [mbind result_bind negb].
    eexists. split; [done|]. split; [done|]. unfold place, v'. cbn [nc_type nc_value]. destruct ov; cbn [negb].
    + rewrite andb_true_r in Ed. rewrite Ed. destruct Hval as [_ Hval]. unfold value_of. rewrite rev_app_distr, rev_involutive. cbn [rev app lval].
      rewrite Hval. unfold zlen in *. rewrite length_app, length_rev, Hlen. cbn. do 2 f_equal. lia.
    + rewrite app_nil_r, Hzl. unfold value_of. rewrite rev_involutive. by rewrite Hval.
Qed.

(** Nothing is between a component and its successor. *)
Lemma successor_least c s d : valid_component c -> valid_component d -> Component_getSuccessor c = Ok s ->
  compare_fields c d < 0 <-> ~ compare_fields d s < 0.
Proof.
  intros Hc Hd E. destruct (Component_getSuccessor_ok c Hc) as (s' & E' & _ & Hs). rewrite E in E'. apply (inj Ok) in E' as <-.
  rewrite !compare_place, Hs. apply valid_component_spec in Hc as [Htc Hlc], Hd as [Htd Hld].
  pose proof (lval_range (rev (nc_value c))) as Hvc. pose proof (lval_range (rev (nc_value d))) as Hvd. rewrite zlen_rev in Hvc, Hvd.
  pose proof (zlen_nonneg (nc_value d)) as Hnn. unfold place_lt, place, value_of. set (t := nc_type c) in *. set (t' := nc_type d) in *.
  set (l := zlen (nc_value c)) in *. set (l' := zlen (nc_value d)) in *. set (v := lval (rev (nc_value c))) in *. set (v' := lval (rev (nc_value d))) in *.
  destruct (v + 1 <? 256 ^ l) eqn:Ev; zbool; [lia|].
  assert (Hsame : l' = l -> v' <= v) by (intros El; rewrite El in Hvd; lia).
  destruct (isDigestType t) eqn:Et.
  - specialize (Hlc eq_refl). assert (Htt : t' = t -> l' = l) by (intros Ett; rewrite Ett in Hld; specialize (Hld Et); lia).
    destruct (isDigestType (t + 1)) eqn:Et1; [|lia]. assert (t' = t + 1 -> l' = 32) by (intros Ett; rewrite Ett in Hld; by apply Hld). lia.
  - lia.
Qed.
Lemma successor_greater c s : valid_component c -> Component_getSuccessor c = Ok s -> compare_fields c s < 0.
Proof.
  intros Hc E. destruct (Component_getSuccessor_ok c Hc) as (s' & E' & Hs & _). rewrite E in E'. apply (inj Ok) in E' as <-.
  apply (successor_least c s s Hc Hs E). rewrite (proj2 (compare_fields_eq s s) eq_refl). lia.
Qed.

(** ** Names *)
Lemma Name_getSuccessor_cons c n : n <> [] -> zlen (c :: n) < 2 ^ 64 - 1 -> Name_getSuccessor (c :: n) = let* s := Name_getSuccessor n in Ok (c :: s).
Proof.
  intros Hn Hl. unfold Name_getSuccessor. destruct n as [|d n]; [done|]. change (last (c :: d :: n)) with (last (d :: n)).
  destruct (last (d :: n)) as [e|] eqn:El; [|by apply last_None in El]. destruct (Component_getSuccessor e) as [s|]; [|done]. cbn [mbind result_bind].
  f_equal. rewrite !getPrefix_minus1; [|rewrite zlen_cons in Hl; lia|done]. cbn. by rewrite Nat.sub_0_r.
Qed.
Lemma Name_getSuccessor_one c : Name_getSuccessor [c] = let* s := Component_getSuccessor c in Ok [s].
Proof. done. Qed.

Lemma Name_getSuccessor_ok n : n <> [] -> valid_name n -> zlen n < 2 ^ 64 - 1 ->
  exists s, Name_getSuccessor n = Ok s /\ valid_name s /\ length s = length n /\
    forall m, valid_name m -> (name_compare n m <= 0 /\ name_compare m s < 0) <-> n `prefix_of` m.
Proof.
  intros Hn Hv Hl. induction n as [|c n IH]; [done|]. apply Forall_cons in Hv as [Hc Hv]. destruct n as [|d n].
  - rewrite Name_getSuccessor_one. destruct (Component_getSuccessor_ok c Hc) as (s & E & Hs & _). rewrite E. exists [s].
    split; [done|]. split; [by constructor|]. split; [done|]. intros [|e m] Hm.
    + pose proof (name_compare_cons_nil c []). split; [lia|]. by intros ?%prefix_nil_not.
    + apply Forall_cons in Hm as [He Hm]. rewrite !name_compare_cons. pose proof (successor_least c s e Hc He E) as Hle.
      pose proof (compare_fields_eq c e) as Hce. pose proof (compare_fields_eq e s) as Hes.
      assert (Hnm : name_compare [] m <= 0) by (destruct m; [done|]; pose proof (name_compare_nil_cons c0 m); lia).
      assert (Hmn : 0 <= name_compare m []) by (destruct m; [done|]; pose proof (name_compare_cons_nil c0 m); lia).
      split.
      * destruct (compare_fields c e =? 0) eqn:E1, (compare_fields e s =? 0) eqn:E2; zbool; try lia.
        apply Hce in E1 as ->. intros _. by apply prefix_cons, prefix_nil.
      * intros Hp. apply prefix_cons_inv_1 in Hp as ->. rewrite (proj2 (Z.eqb_eq _ 0)) by (by apply compare_fields_eq).
        pose proof (successor_greater e s He E). rewrite (proj2 (Z.eqb_neq _ 0)) by lia. done.
  - rewrite Name_getSuccessor_cons by done. destruct IH as (s & -> & Hs & Hls & IH); [done|done|rewrite zlen_cons in Hl; lia|].
    exists (c :: s). split; [done|]. split; [by constructor|]. split; [cbn; by rewrite Hls|]. intros [|e m] Hm.
    + pose proof (name_compare_cons_nil c (d :: n)). split; [lia|]. by intros ?%prefix_nil_not.
    + apply Forall_cons in Hm as [He Hm]. rewrite (name_compare_cons c _ e), (name_compare_cons e _ c). specialize (IH m Hm).
      pose proof (compare_fields_eq c e) as Hce. pose proof (compare_fields_antisym c e) as Ha. pose proof (compare_fields_antisym e c) as Ha'.
      split.
      * destruct (compare_fields c e =? 0) eqn:E1; zbool.
        -- apply Hce in E1 as ->. rewrite (proj2 (Z.eqb_eq _ 0)) by (by apply compare_fields_eq). intros Hm'. by apply prefix_cons, IH.
        -- destruct (compare_fields e c =? 0) eqn:E2; zbool; [apply compare_fields_eq in E2 as ->; by destruct E1; apply compare_fields_eq|]. lia.
      * intros Hp. pose proof (prefix_cons_inv_1 _ _ _ _ Hp) as ->. apply prefix_cons_inv_2 in Hp. rewrite (proj2 (Z.eqb_eq _ 0)) by (by apply compare_fields_eq). by apply IH.
Qed.

(** ** Properties *)

(** The successor of a valid name is the first name after all names that have it
    as a prefix: a valid name lies between the name and its successor in the canonical
    order exactly if it starts with the name.  In particular a digest of all ones is
    followed by the least component of the next type, and other values of all ones by a
    longer value. *)
Theorem successor_bounds_prefix (n : Name) (Hn : n <> []) (Hv : valid_name n) (Hl : zlen n < 2 ^ 64 - 1) :
  exists s, Name_getSuccessor n = Ok s /\ valid_name s /\
    forall m, valid_name m -> (name_ltb m n = false /\ name_ltb m s = true) <-> n `prefix_of` m.
Proof.
  destruct (Name_getSuccessor_ok n Hn Hv Hl) as (s & E & Hs & _ & Hp). exists s. split; [done|]. split; [done|]. intros m Hm.
  rewrite <- (Hp m Hm). unfold name_ltb. rewrite Z.ltb_ge, Z.ltb_lt. pose proof (name_compare_antisym n m). lia.
Qed.

Lemma successor_bounds_prefix_witness : exists s, Name_getSuccessor [mkComponent 8 (str "a"); mkComponent 8 [z2b 255]] = Ok s /\
  s = [mkComponent 8 (str "a"); mkComponent 8 [z2b 0; z2b 0]] /\
  (name_ltb [mkComponent 8 (str "a"); mkComponent 8 [z2b 255]; mkComponent 8 (str "z")] s = true).
Proof.
  destruct (successor_bounds_prefix [mkComponent 8 (str "a"); mkComponent 8 [z2b 255]]) as (s & E & _ & Hp).
  - done.
  - repeat constructor.
  - by vm_compute.
  - exists s. split; [exact E|]. split; [vm_compute in E; by injection E as <-|].
    apply (Hp [mkComponent 8 (str "a"); mkComponent 8 [z2b 255]; mkComponent 8 (str "z")]); [repeat constructor|]. by exists [mkComponent 8 (str "z")].
Defined.
