(* ===== verification/Cs.v ===== *)
(** * The content store (NFD/daemon/table/cs.cpp, cs-entry.cpp, cs-entry-impl.cpp,
    cs-policy.cpp, cs-policy-lru.cpp)

    A table of Data packets, sorted by full name, and the queue of the replacement policy
    "lru".  The nodes of the [std::set] are numbered; iterators into it are positions in
    the sorted list, and the queue holds the numbers of nodes, which stay as nodes are
    inserted and erased around them.  A comparison that throws does so when the entry is
    compared; for Data with a wire encoding none does, so that the order in which the tree
    makes the comparisons does not matter.

    Shown: what [find] finds is what the documented rule finds in the table as a set; the
    store never holds more than its limit, it evicts what was used least recently, and
    its two indexes agree.  An Interest whose name ends with a digest and that asks for
    the rightmost child is the exception: looking it up can decrement the first iterator. *)

From stdpp Require Import base gmap list sets strings.
From Stdlib Require Import ZArith Lia Sorted.
From S2P Require Import Prelude Tlv Encoder Block Codec Ndn NameTlv NameSuccessor Signature Exclude Selectors Data Interest LpPacket Hashtable.

Local Open Scope Z_scope.

(** ** State *)

(** [EntryImpl] of stored Data, in the node [ce_id]. *)
Record CsEntry := mkCsEntry {
  ce_id : nat;
  ce_data : Data;
  ce_isUnsolicited : bool;
  ce_staleTime : Z;
}.

Record Cs := mkCs {
  cs_table : list CsEntry;
  cs_fresh : nat;
  cs_queue : list nat;
  cs_limit : Z;
  cs_shouldAdmit : bool;
  cs_shouldServe : bool;
}.

Definition cs_with_table (t : list CsEntry) (c : Cs) : Cs :=
  mkCs t (cs_fresh c) (cs_queue c) (cs_limit c) (cs_shouldAdmit c) (cs_shouldServe c).
Definition cs_with_queue (q : list nat) (c : Cs) : Cs :=
  mkCs (cs_table c) (cs_fresh c) q (cs_limit c) (cs_shouldAdmit c) (cs_shouldServe c).
Definition cs_size (c : Cs) : Z := zlen (cs_table c).

Section operations.
Context (sha256 : octets -> octets).

(** ** Entries *)

(** [now + milliseconds(freshness)], in signed 64-bit nanoseconds. *)
Definition stale_time (now : Z) (d : Data) : result Z :=
  let period := mi_freshnessPeriod (d_metaInfo d) * 1000000 in
  if (- 2 ^ 63 <=? period) && (period <? 2 ^ 63) && (now + period <? 2 ^ 63) then Ok (now + period)
  else Err (UndefinedBehaviour "signed overflow").
Definition updateStaleTime (now : Z) (e : CsEntry) : result CsEntry :=
  let* t := stale_time now (ce_data e) in
  Ok (mkCsEntry (ce_id e) (ce_data e) (ce_isUnsolicited e) t).
Definition ce_setData (now : Z) (data : Data) (isUnsolicited : bool) (e : CsEntry) : result CsEntry :=
  updateStaleTime now (mkCsEntry (ce_id e) data isUnsolicited (ce_staleTime e)).
Definition unsetUnsolicited (now : Z) (e : CsEntry) : result CsEntry := ce_setData now (ce_data e) false e.
Definition ce_isStale (now : Z) (e : CsEntry) : bool := ce_staleTime e <? now.
Definition canSatisfy (now : Z) (interest : Interest) (e : CsEntry) : result bool :=
  let* m := matchesData sha256 interest (ce_data e) in
  if negb (m : bool) then Ok false else
  if sel_mustBeFresh (i_selectors interest) && ce_isStale now e then Ok false else Ok true.

(** *** The order of the table *)

Definition digest_of (d : Data) : result Component := let* full := getFullName sha256 d in name_at (-1) full.
Definition compareQueryWithData (queryName : Name) (d : Data) : result Z :=
  match last queryName with
  | Some digest =>
    if isImplicitSha256Digest digest then
      let cmp := name_compare_range queryName 0 (length queryName - 1) (d_name d) 0 (length (d_name d)) in
      if negb (cmp =? 0) then Ok cmp else let* other := digest_of d in Ok (compare_fields digest other)
    else let cmp := name_compare queryName (d_name d) in Ok (if negb (cmp =? 0) then cmp else -1)
  | None => let cmp := name_compare queryName (d_name d) in Ok (if negb (cmp =? 0) then cmp else -1)
  end.
Definition compareDataWithData (lhs rhs : Data) : result Z :=
  let cmp := name_compare (d_name lhs) (d_name rhs) in
  if negb (cmp =? 0) then Ok cmp else
  let* l := digest_of lhs in let* r := digest_of rhs in Ok (compare_fields l r).

(** [std::set::lower_bound]: the position of the first entry that is not less than the query. *)
Fixpoint cs_lower_bound (queryName : Name) (t : list CsEntry) : result nat :=
  match t with
  | [] => Ok 0%nat
  | e :: t =>
    let* cmp := compareQueryWithData queryName (ce_data e) in
    if 0 <? cmp then let* n := cs_lower_bound queryName t in Ok (S n) else Ok 0%nat
  end.

(** [std::set::emplace]: the table with the new entry, if there was none that is
    equivalent, and the position of the entry. *)
Fixpoint cs_emplace (new : CsEntry) (t : list CsEntry) : result (nat * bool * list CsEntry) :=
  match t with
  | [] => Ok (0%nat, true, [new])
  | e :: t' =>
    let* cmp := compareDataWithData (ce_data e) (ce_data new) in
    if cmp <? 0 then let* (i, isNew, t') := cs_emplace new t' in Ok (S i, isNew, e :: t')
    else let* cmp := compareDataWithData (ce_data new) (ce_data e) in
      if cmp <? 0 then Ok (0%nat, true, new :: t) else Ok (0%nat, false, t)
  end.

Definition cs_entry (i : nat) (t : list CsEntry) : result CsEntry :=
  match t !! i with Some e => Ok e | None => Err (UndefinedBehaviour "dereference of the end") end.

(** ** The policy *)

(** [insertToQueue]: [push_back] unless the queue has the node, which [relocate] moves
    to the end. *)
Definition insertToQueue (i : nat) (isNewEntry : bool) (c : Cs) : result Cs :=
  let isNew := negb (bool_decide (i ∈ cs_queue c)) in
  assert! Bool.eqb isNew isNewEntry orelse "isNew == isNewEntry";
  Ok (cs_with_queue (filter (fun j => j <> i) (cs_queue c) ++ [i]) c).

Definition erase_node (i : nat) (t : list CsEntry) : list CsEntry := filter (fun e => ce_id e <> i) t.
Fixpoint evict_loop (fuel : nat) (c : Cs) : result Cs :=
  if cs_limit c <? cs_size c then
    match fuel with
    | O => Err OutOfFuel
    | S fuel =>
      match cs_queue c with
      | [] => Err (AssertFailed "!m_queue.empty()")
      | i :: q => evict_loop fuel (cs_with_table (erase_node i (cs_table c)) (cs_with_queue q c))
      end
    end
  else Ok c.
Definition cs_evictEntries (c : Cs) : result Cs := evict_loop (length (cs_table c)) c.

Definition cs_setLimit (nMaxPackets : Z) (c : Cs) : result Cs :=
  cs_evictEntries (mkCs (cs_table c) (cs_fresh c) (cs_queue c) nMaxPackets (cs_shouldAdmit c) (cs_shouldServe c)).
(** A new policy "lru", with an empty queue. *)
Definition cs_setPolicy (c : Cs) : result Cs := cs_setLimit (cs_limit c) (cs_with_queue [] c).
Definition Cs_new (nMaxPackets : Z) : result Cs := cs_setLimit nMaxPackets (mkCs [] 0 [] 0 true true).
Definition enableAdmit (b : bool) (c : Cs) : Cs := mkCs (cs_table c) (cs_fresh c) (cs_queue c) (cs_limit c) b (cs_shouldServe c).
Definition enableServe (b : bool) (c : Cs) : Cs := mkCs (cs_table c) (cs_fresh c) (cs_queue c) (cs_limit c) (cs_shouldAdmit c) b.

(** ** Insertion and erasure *)

Definition is_no_cache (d : Data) : bool :=
  match tag_cachePolicy (d_tags d) with
  | Some policy => CachePolicy_getPolicy policy =? CachePolicyType_NO_CACHE
  | None => false
  end.

Definition Cs_insert (now : Z) (data : Data) (isUnsolicited : bool) (c : Cs) : result Cs :=
  if negb (cs_shouldAdmit c) || (cs_limit c =? 0) then Ok c else
  if is_no_cache data then Ok c else
  let* staleTime := stale_time now data in
  let* (i, isNewEntry, t) := cs_emplace (mkCsEntry (cs_fresh c) data isUnsolicited staleTime) (cs_table c) in
  let* entry := cs_entry i t in
  let* entry := updateStaleTime now entry in
  let* entry := if negb (isNewEntry : bool) && (ce_isUnsolicited entry && negb isUnsolicited)
                then unsetUnsolicited now entry else Ok entry in
  let c := mkCs (<[i := entry]> t) (if isNewEntry : bool then S (cs_fresh c) else cs_fresh c) (cs_queue c) (cs_limit c) (cs_shouldAdmit c) (cs_shouldServe c) in
  let* c := insertToQueue (ce_id entry) isNewEntry c in
  if isNewEntry : bool then cs_evictEntries c else Ok c.

(** The range of the entries under a prefix. *)
Definition cs_range (prefix : Name) (t : list CsEntry) : result (nat * nat) :=
  let* first := cs_lower_bound prefix t in
  if name_size prefix >? 0 then
    let* s := Name_getSuccessor prefix in let* last := cs_lower_bound s t in Ok (first, last)
  else Ok (first, length t).

Fixpoint cs_erase_loop (n first : nat) (limit : Z) (nErased : Z) (c : Cs) : result (Z * Cs) :=
  match n with
  | O => Ok (nErased, c)
  | S n =>
    if nErased <? limit then
      let* e := cs_entry first (cs_table c) in
      let q := filter (fun j => j <> ce_id e) (cs_queue c) in
      cs_erase_loop n first limit (nErased + 1) (cs_with_table (erase_node (ce_id e) (cs_table c)) (cs_with_queue q c))
    else Ok (nErased, c)
  end.
(** The loop runs until [first] is [last]; it ends if [last] is reachable from [first]. *)
Definition Cs_erase (prefix : Name) (limit : Z) (c : Cs) : result (Z * Cs) :=
  let* (first, last) := cs_range prefix (cs_table c) in
  if (last <? first)%nat then Err (UndefinedBehaviour "invalid range") else
  cs_erase_loop (last - first) first limit 0 c.

(** ** Lookup *)

(** [std::find_if] in the [n] positions from [first] on. *)
Fixpoint find_if (p : CsEntry -> result bool) (first n : nat) (t : list CsEntry) : result nat :=
  match n with
  | O => Ok first
  | S n =>
    let* e := cs_entry first t in
    let* b := p e in
    if b : bool then Ok first else find_if p (S first) n t
  end.
Definition findLeftmost (now : Z) (interest : Interest) (first last : nat) (t : list CsEntry) : result nat :=
  if (last <? first)%nat then Err (UndefinedBehaviour "invalid range") else find_if (canSatisfy now interest) first (last - first) t.

(** [find_last_if] in the [n] positions up to [first + n]; [last] if there is none. *)
Fixpoint find_last_if (p : CsEntry -> result bool) (first n last : nat) (t : list CsEntry) : result nat :=
  match n with
  | O => Ok last
  | S n =>
    let* e := cs_entry (first + n) t in
    let* b := p e in
    if b : bool then Ok (first + n)%nat else find_last_if p first n last t
  end.
Definition findRightmostAmongExact (now : Z) (interest : Interest) (first last : nat) (t : list CsEntry) : result nat :=
  if (last <? first)%nat then Err (UndefinedBehaviour "invalid range")
  else find_last_if (canSatisfy now interest) first (last - first) last t.

(** The position of [right] goes down in each round. *)
Fixpoint rightmost_loop (fuel : nat) (now : Z) (interest : Interest) (first right last : nat) (t : list CsEntry) : result nat :=
  if (right =? first)%nat then Ok last else
  match right with
  | O => Err (UndefinedBehaviour "decrement of the first iterator")
  | S prev =>
    match fuel with
    | O => Err OutOfFuel
    | S fuel =>
      let* e := cs_entry prev t in
      if name_size (d_name (ce_data e)) =? name_size (i_name interest) then
        let* matchExact := findRightmostAmongExact now interest first right t in
        Ok (if (matchExact =? right)%nat then last else matchExact)
      else
        let prefix := getPrefix (name_size (i_name interest) + 1) (d_name (ce_data e)) in
        let* lft := cs_lower_bound prefix t in
        let* found := findLeftmost now interest lft right t in
        if negb (found =? right)%nat then Ok found else rightmost_loop fuel now interest first lft last t
    end
  end.
Definition findRightmost (now : Z) (interest : Interest) (first last : nat) (t : list CsEntry) : result nat :=
  rightmost_loop last now interest first last last t.

(** The Data, if there is a match; the policy is told of its use. *)
Definition Cs_find (now : Z) (interest : Interest) (c : Cs) : result (option Data * Cs) :=
  if negb (cs_shouldServe c) || (cs_limit c =? 0) then Ok (None, c) else
  let isRightmost := sel_childSelector (i_selectors interest) =? 1 in
  let* (first, last) := cs_range (i_name interest) (cs_table c) in
  let* found := if isRightmost then findRightmost now interest first last (cs_table c)
                else findLeftmost now interest first last (cs_table c) in
  if (found =? last)%nat then Ok (None, c) else
  let* e := cs_entry found (cs_table c) in
  let* c := insertToQueue (ce_id e) false c in
  Ok (Some (ce_data e), c).
End operations.

(** ** The order of the table *)
Section order.
Context (sha256 : octets -> octets).
Implicit Types (d : Data) (e : CsEntry) (t : list CsEntry).

(** Name and digest of Data with a wire encoding. *)
Definition stored (d : Data) : Prop := exists g, digest_of sha256 d = Ok g.
Definition digest (d : Data) : Component := match digest_of sha256 d with Ok g => g | Err _ => mkComponent 0 [] end.
Definition data_cmp (l r : Data) : Z :=
  let cmp := name_compare (d_name l) (d_name r) in if cmp =? 0 then compare_fields (digest l) (digest r) else cmp.
Definition query_cmp (q : Name) (d : Data) : Z :=
  match last q with
  | Some g =>
    if isImplicitSha256Digest g then
      let cmp := name_compare (take (length q - 1) q) (d_name d) in if cmp =? 0 then compare_fields g (digest d) else cmp
    else let cmp := name_compare q (d_name d) in if cmp =? 0 then -1 else cmp
  | None => let cmp := name_compare q (d_name d) in if cmp =? 0 then -1 else cmp
  end.
Definition entry_lt (a b : CsEntry) : Prop := data_cmp (ce_data a) (ce_data b) < 0.

Lemma stored_digest d : stored d -> digest_of sha256 d = Ok (digest d).
Proof. intros [g E]. unfold digest. by rewrite E. Qed.
Lemma stored_fullName d : is_ok (getFullName sha256 d) = true <-> stored d.
Proof.
  unfold stored, digest_of. unfold getFullName. destruct (d_wire d) as [w|]; [|split; [done|by intros [g ?]]].
  destruct (Component_ofBlock _) as [g|]; [|split; [done|by intros [? ?]]]. cbn [mbind result_bind]. split; [|done]. intros _.
  exists g. unfold name_at. cbn [Z.ltb Z.compare]. cbv zeta. unfold name_size. rewrite zlen_app. change (zlen [g]) with 1.
  pose proof (zlen_nonneg (d_name d)). rewrite (proj2 (Z.ltb_ge _ _)), (proj2 (Z.leb_gt _ _)) by lia. cbn [orb].
  rewrite lookup_app_r by (unfold zlen; lia). unfold zlen. by replace (Z.to_nat _ - _)%nat with 0%nat by lia.
Qed.
Lemma stored_getFullName d : stored d -> getFullName sha256 d = Ok (d_name d ++ [digest d]).
Proof.
  intros Hd. pose proof (stored_digest d Hd) as Hg. apply stored_fullName in Hd. unfold digest_of in Hg.
  unfold getFullName in *. destruct (d_wire d) as [w|]; [|done]. destruct (Component_ofBlock _) as [g|]; [|done]. cbn [mbind result_bind] in *.
  do 3 f_equal. revert Hg. unfold name_at. cbn [Z.ltb Z.compare]. cbv zeta. unfold name_size. rewrite zlen_app. change (zlen [g]) with 1.
  pose proof (zlen_nonneg (d_name d)). rewrite (proj2 (Z.ltb_ge _ _)), (proj2 (Z.leb_gt _ _)) by lia. cbn [orb].
  rewrite lookup_app_r by (unfold zlen; lia). unfold zlen. replace (Z.to_nat _ - _)%nat with 0%nat by lia. by intros [= ->].
Qed.
Lemma stored_digest_type d : stored d -> valid_component (digest d) /\ nc_type (digest d) = ImplicitSha256DigestComponent.
Proof.
  intros Hd. pose proof (stored_getFullName d Hd) as Hf. unfold getFullName in Hf. destruct (d_wire d) as [w|]; [|done].
  apply result_bind_Ok in Hf as (g & Eg & [= <-%app_inj_tail%proj2]). unfold Component_ofBlock in Eg.
  apply result_bind_Ok in Eg as ([] & Ev & [= <-]). by split.
Qed.

Lemma compareDataWithData_ok l r : stored l -> stored r -> compareDataWithData sha256 l r = Ok (data_cmp l r).
Proof.
  intros Hl Hr. unfold compareDataWithData, data_cmp. destruct (_ =? 0); [|done]. cbn [negb]. by rewrite (stored_digest l), (stored_digest r).
Qed.
Lemma compareQueryWithData_ok q d : stored d -> compareQueryWithData sha256 q d = Ok (query_cmp q d).
Proof.
  intros Hd. unfold compareQueryWithData, query_cmp. destruct (last q) as [g|]; [|by destruct (_ =? 0)].
  destruct (isImplicitSha256Digest g); [|by destruct (_ =? 0)]. unfold name_compare_range. rewrite !drop_0, firstn_all.
  destruct (_ =? 0); [|done]. cbn [negb]. by rewrite stored_digest.
Qed.

Lemma data_cmp_antisym a b : data_cmp b a < 0 <-> 0 < data_cmp a b.
Proof.
  unfold data_cmp. pose proof (name_compare_antisym (d_name a) (d_name b)). pose proof (name_compare_antisym (d_name b) (d_name a)).
  destruct (name_compare (d_name a) (d_name b) =? 0) eqn:E1, (name_compare (d_name b) (d_name a) =? 0) eqn:E2; zbool; try lia. apply compare_fields_antisym.
Qed.
Lemma data_cmp_eq a b : data_cmp a b = 0 <-> d_name a = d_name b /\ digest a = digest b.
Proof.
  unfold data_cmp. rewrite <- name_compare_eq, <- compare_fields_eq. destruct (_ =? 0) eqn:E; zbool; lia.
Qed.
Lemma data_cmp_trans a b c : data_cmp a b < 0 -> data_cmp b c < 0 -> data_cmp a c < 0.
Proof.
  unfold data_cmp. pose proof (name_ltb_trans (d_name a) (d_name b) (d_name c)) as Ht. unfold name_ltb in Ht. rewrite !Z.ltb_lt in Ht.
  pose proof (compare_fields_trans (digest a) (digest b) (digest c)).
  destruct (name_compare (d_name a) (d_name b) =? 0) eqn:E1; zbool.
  - apply name_compare_eq in E1. rewrite E1 in *. destruct (_ =? 0); [done|lia].
  - destruct (name_compare (d_name b) (d_name c) =? 0) eqn:E2; zbool; [apply name_compare_eq in E2; rewrite <- E2 in *; rewrite (proj2 (Z.eqb_neq _ _) E1); lia|].
    intros. rewrite (proj2 (Z.eqb_neq _ _)) by lia. auto.
Qed.

(** What is less than something less than the query is less than it. *)
Lemma query_cmp_mono q a b : data_cmp a b < 0 -> 0 < query_cmp q b -> 0 < query_cmp q a.
Proof.
  intros Hab. assert (Hn : forall n, 0 < name_compare n (d_name b) -> 0 < name_compare n (d_name a)).
  { intros n. rewrite <- !(name_compare_antisym n). intros Hb. unfold data_cmp in Hab. destruct (_ =? 0) eqn:E; zbool.
    - apply name_compare_eq in E. by rewrite E.
    - pose proof (name_ltb_trans (d_name a) (d_name b) n) as Ht. unfold name_ltb in Ht. rewrite !Z.ltb_lt in Ht. auto. }
  assert (Hplain : forall n, 0 < (if name_compare n (d_name b) =? 0 then -1 else name_compare n (d_name b)) ->
    0 < (if name_compare n (d_name a) =? 0 then -1 else name_compare n (d_name a))).
  { intros n. specialize (Hn n). destruct (_ =? 0) eqn:E; [lia|]. intros Hb. specialize (Hn Hb). by rewrite (proj2 (Z.eqb_neq _ _)) by lia. }
  unfold query_cmp. destruct (last q) as [g|]; [|apply Hplain]. destruct (isImplicitSha256Digest g); [|apply Hplain].
  set (p := take _ q). specialize (Hn p). cbv zeta. destruct (name_compare p (d_name b) =? 0) eqn:E; zbool.
  - intros Hg. apply name_compare_eq in E. unfold data_cmp in Hab. rewrite E in *.
    destruct (name_compare (d_name a) (d_name b) =? 0) eqn:E2; zbool.
    + apply name_compare_eq in E2. rewrite E2. rewrite (proj2 (Z.eqb_eq _ 0)) by (by apply name_compare_eq).
      apply compare_fields_antisym. eapply compare_fields_trans; [done|]. by apply compare_fields_antisym.
    + apply name_compare_antisym in Hab. by rewrite (proj2 (Z.eqb_neq _ _)) by lia.
  - intros Hb. specialize (Hn Hb). by rewrite (proj2 (Z.eqb_neq _ _)) by lia.
Qed.

(** ** Positions *)
Definition all_stored (t : list CsEntry) : Prop := Forall (fun e => stored (ce_data e)) t.

Lemma cs_lower_bound_ok q t : all_stored t -> StronglySorted entry_lt t ->
  exists n, cs_lower_bound sha256 q t = Ok n /\ (n <= length t)%nat /\
    forall i e, t !! i = Some e -> (i < n)%nat <-> 0 < query_cmp q (ce_data e).
Proof.
  induction t as [|e t IH]; intros Ha Hs; [exists 0%nat; do 2 (split; [done|]); by intros ??|].
  apply Forall_cons in Ha as [He Ha]. apply StronglySorted_inv in Hs as [Hs Hlt]. cbn [cs_lower_bound].
  rewrite compareQueryWithData_ok by done. cbn [mbind result_bind]. destruct (0 <? query_cmp q (ce_data e)) eqn:E; zbool.
  - destruct (IH Ha Hs) as (n & -> & Hn & Hi). exists (S n). split; [done|]. split; [cbn; lia|].
    intros [|i] e'; cbn; [intros [= <-]; split; [done|lia]|]. intros Hl. rewrite <- (Hi i e' Hl). lia.
  - exists 0%nat. split; [done|]. split; [lia|]. intros [|i] e'; cbn; [intros [= <-]; lia|]. intros Hl. split; [lia|]. intros Hq.
    rewrite Forall_forall in Hlt. apply list_elem_of_lookup_2, Hlt in Hl. pose proof (query_cmp_mono q _ _ Hl Hq). lia.
Qed.

Lemma sorted_lookup t i j a b : StronglySorted entry_lt t -> t !! i = Some a -> t !! j = Some b -> (i < j)%nat -> entry_lt a b.
Proof.
  intros Hs. revert i j. induction Hs as [|e t Hs IH Hlt]; [done|]. intros [|i] [|j] Hi Hj Hij; try lia; cbn in *.
  - injection Hi as ->. rewrite Forall_forall in Hlt. eapply Hlt, list_elem_of_lookup_2, Hj.
  - eapply IH; [done..|lia].
Qed.

End order.

Section ranges.
Context (sha256 : octets -> octets).
Implicit Types (d : Data) (e : CsEntry) (t : list CsEntry).

Lemma cs_entry_ok i t : (i < length t)%nat -> exists e, t !! i = Some e /\ cs_entry i t = Ok e.
Proof. intros Hi. destruct (lookup_lt_is_Some_2 t i Hi) as [e He]. exists e. unfold cs_entry. by rewrite He. Qed.

Lemma cs_entry_Some i t e : cs_entry i t = Ok e <-> t !! i = Some e.
Proof. unfold cs_entry. destruct (t !! i); split; congruence. Qed.

Definition sat (p : CsEntry -> result bool) (e : CsEntry) : Prop := p e = Ok true.
Definition decided (p : CsEntry -> result bool) (t : list CsEntry) : Prop := forall e, e ∈ t -> is_ok (p e) = true.

(** The first and the last position of a range where the predicate holds. *)
Lemma find_if_ok p first n t : decided p t -> (first + n <= length t)%nat ->
  exists m, find_if p first n t = Ok m /\ (first <= m <= first + n)%nat /\
    (forall j e, (first <= j < m)%nat -> t !! j = Some e -> ~ sat p e) /\
    ((m < first + n)%nat -> exists e, t !! m = Some e /\ sat p e).
Proof.
  intros Hd. revert first. induction n as [|n IH]; intros first Hl; [exists first; split; [done|]; split; [lia|]; split; [lia|lia]|].
  cbn [find_if]. destruct (cs_entry_ok first t) as (e & He & ->); [lia|]. cbn [mbind result_bind].
  pose proof (Hd e (list_elem_of_lookup_2 _ _ _ He)) as Hok. destruct (p e) as [[]|] eqn:Ep; [| |done]; cbn [mbind result_bind].
  - exists first. split; [done|]. split; [lia|]. split; [lia|]. intros _. by exists e.
  - destruct (IH (S first)) as (m & -> & Hm & Hno & Hyes); [lia|]. exists m. split; [done|]. split; [lia|]. split; [|intros; apply Hyes; lia].
    intros j e' Hj Hl'. destruct (decide (j = first)) as [->|Hne]; [|apply (Hno j); [lia|done]].
    rewrite He in Hl'. injection Hl' as <-. unfold sat. by rewrite Ep.
Qed.
Lemma find_last_if_ok p first n last t : decided p t -> (first + n <= length t)%nat -> (first + n <= last)%nat ->
  exists m, find_last_if p first n last t = Ok m /\
    ((m = last /\ forall j e, (first <= j < first + n)%nat -> t !! j = Some e -> ~ sat p e) \/
     ((first <= m < first + n)%nat /\ (exists e, t !! m = Some e /\ sat p e) /\
      forall j e, (m < j < first + n)%nat -> t !! j = Some e -> ~ sat p e)).
Proof.
  intros Hd. induction n as [|n IH]; intros Hl Hb; [exists last; split; [done|]; left; split; [done|lia]|].
  cbn [find_last_if]. destruct (cs_entry_ok (first + n) t) as (e & He & ->); [lia|]. cbn [mbind result_bind].
  pose proof (Hd e (list_elem_of_lookup_2 _ _ _ He)) as Hok. destruct (p e) as [[]|] eqn:Ep; [| |done]; cbn [mbind result_bind].
  - exists (first + n)%nat. split; [done|]. right. split; [lia|]. split; [by exists e|]. lia.
  - assert (Hn : ~ sat p e) by (unfold sat; by rewrite Ep).
    destruct IH as (m & -> & Hm); [lia|lia|]. exists m. split; [done|].
    destruct Hm as [[-> Hno]|(Hm & Hyes & Hno)]; [left|right]; (split; [first [done|lia]|]); [|split; [done|]];
      intros j e' Hj Hl'; (destruct (decide (j = first + n)%nat) as [->|Hne]; [rewrite He in Hl'; by injection Hl' as <-|apply (Hno j); [lia|done]]).
Qed.

(** ** The range of a prefix *)

(** The last component of the name is not a digest. *)
Definition plain_last (n : Name) : Prop := forall g, last n = Some g -> isImplicitSha256Digest g = false.

Lemma query_cmp_plain q d : plain_last q -> 0 < query_cmp sha256 q d <-> name_ltb (d_name d) q = true.
Proof.
  intros Hp. unfold query_cmp, name_ltb. rewrite Z.ltb_lt, (name_compare_antisym q). destruct (last q) as [g|] eqn:E; [rewrite (Hp g) by done|];
    cbv zeta; destruct (name_compare q (d_name d) =? 0) eqn:E0; zbool; lia.
Qed.

Lemma successor_last n s : n <> [] -> valid_name n -> zlen n < 2 ^ 64 - 1 -> Name_getSuccessor n = Ok s ->
  exists p c c', n = p ++ [c] /\ valid_component c /\ Component_getSuccessor c = Ok c' /\ s = p ++ [c'].
Proof.
  intros Hn Hv Hl E. unfold Name_getSuccessor in E. destruct (last n) as [c|] eqn:El; [|by apply last_None in El].
  apply last_Some in El as [p ->]. apply result_bind_Ok in E as (c' & Ec & [= <-]). exists p, c, c'. split; [done|].
  apply Forall_app in Hv as [_ Hv]. split; [by inversion Hv|]. split; [done|]. rewrite getPrefix_minus1 by done.
  rewrite length_app, Nat.add_sub, take_app_length. done.
Qed.
Lemma zlen_pos {A} (l : list A) : l <> [] -> (zlen l >? 0) = true.
Proof. destruct l as [|x l]; [done|]. intros _. rewrite zlen_cons, Z.gtb_lt. pose proof (zlen_nonneg l). lia. Qed.
Lemma implicit_type c : valid_component c -> isImplicitSha256Digest c = (nc_type c =? 1).
Proof.
  intros [_ Hd]%valid_component_spec. unfold isImplicitSha256Digest, isDigestType, ImplicitSha256DigestComponent, DIGEST_SIZE in *.
  destruct (nc_type c =? 1) eqn:E; [|done]. cbn [andb]. apply Z.eqb_eq, Hd. done.
Qed.
Lemma successor_plain n s : n <> [] -> valid_name n -> zlen n < 2 ^ 64 - 1 -> plain_last n -> Name_getSuccessor n = Ok s -> plain_last s.
Proof.
  intros Hn Hv Hl Hp E. destruct (successor_last n s Hn Hv Hl E) as (p & c & c' & -> & Hc & Ec & ->).
  specialize (Hp c (last_snoc c p)). intros g. rewrite last_snoc. intros [= <-].
  destruct (Component_getSuccessor_ok c Hc) as (s & Es & Hvs & Hs). rewrite Ec in Es. apply (inj Ok) in Es as <-.
  rewrite implicit_type in Hp |- * by done. unfold place in Hs. apply valid_component_spec in Hc as [Ht _].
  apply Z.eqb_neq. apply Z.eqb_neq in Hp. repeat case_match; injection Hs as Hs; lia.
Qed.

Lemma cs_range_plain prefix t : all_stored sha256 t -> StronglySorted (entry_lt sha256) t ->
  Forall (fun e => valid_name (d_name (ce_data e))) t -> valid_name prefix -> zlen prefix < 2 ^ 64 - 1 -> plain_last prefix ->
  exists first last, cs_range sha256 prefix t = Ok (first, last) /\ (first <= last <= length t)%nat /\
    forall i e, t !! i = Some e -> (first <= i < last)%nat <-> prefix `prefix_of` d_name (ce_data e).
Proof.
  intros Ha Hs Hv Hp Hl Hpl. unfold cs_range. destruct (cs_lower_bound_ok sha256 prefix t Ha Hs) as (first & -> & Hf & Hfirst).
  cbn [mbind result_bind]. unfold name_size. destruct (decide (prefix = [])) as [->|Hne].
  - cbn. exists first, (length t). split; [done|]. split; [lia|]. intros i e Hi. pose proof (lookup_lt_Some _ _ _ Hi).
    specialize (Hfirst i e Hi). rewrite query_cmp_plain in Hfirst by done. assert (Hlt : name_ltb (d_name (ce_data e)) [] = false).
    { unfold name_ltb. apply Z.ltb_ge. destruct (d_name (ce_data e)) as [|c n]; [done|]. pose proof (name_compare_cons_nil c n). lia. }
    rewrite Hlt in Hfirst. split; [intros _; apply prefix_nil|]. intros _. split; [|done]. destruct (decide (i < first)%nat) as [Hlt'|]; [by apply Hfirst in Hlt'|lia].
  - rewrite zlen_pos by done.
    destruct (Name_getSuccessor_ok prefix Hne Hp Hl) as (s & Es & _ & _ & Hb). rewrite Es. cbn [mbind result_bind].
    destruct (cs_lower_bound_ok sha256 s t Ha Hs) as (last & -> & Hla & Hlast). cbn [mbind result_bind].
    pose proof (successor_plain _ _ Hne Hp Hl Hpl Es) as Hps.
    assert (Hin : forall i e, t !! i = Some e -> (first <= i < last)%nat <-> prefix `prefix_of` d_name (ce_data e)).
    { intros i e Hi. rewrite <- Hb by (rewrite Forall_forall in Hv; by eapply Hv, list_elem_of_lookup_2).
      rewrite (Hlast i e Hi), query_cmp_plain by done. unfold name_ltb. rewrite Z.ltb_lt.
      pose proof (Hfirst i e Hi) as Hfi. rewrite query_cmp_plain in Hfi by done. unfold name_ltb in Hfi. rewrite Z.ltb_lt in Hfi.
      pose proof (name_compare_antisym prefix (d_name (ce_data e))). lia. }
    exists first, last. split; [done|]. split; [|done]. split; [|done]. destruct (decide (first <= last)%nat); [done|].
    destruct (lookup_lt_is_Some_2 t last) as [e He]; [lia|]. pose proof (Hfirst last e He) as H1. pose proof (Hlast last e He) as H2.
    rewrite query_cmp_plain in H1, H2 by done. assert (Hlt : name_ltb prefix s = true).
    { unfold name_ltb. apply Z.ltb_lt, Hb; [done|]. done. }
    assert (name_ltb (d_name (ce_data e)) prefix = true) as Hep by (apply H1; lia).
    pose proof (name_ltb_trans _ _ _ Hep Hlt) as Hes. apply H2 in Hes. lia.
Qed.

(** The range of a full name. *)
Lemma successor_query n s d : n <> [] -> valid_name n -> zlen n < 2 ^ 64 - 1 -> ~ plain_last n -> Name_getSuccessor n = Ok s ->
  stored sha256 d -> (0 < query_cmp sha256 n d -> 0 < query_cmp sha256 s d) /\
    (n = d_name d ++ [digest sha256 d] -> query_cmp sha256 n d = 0 /\ 0 < query_cmp sha256 s d).
Proof.
  intros Hn Hv Hl Hp E Hd. destruct (successor_last n s Hn Hv Hl E) as (p & c & c' & -> & Hc & Ec & ->).
  destruct (isImplicitSha256Digest c) eqn:Eg; [|by destruct Hp; intros ?; rewrite last_snoc; intros [= <-]].
  pose proof (successor_greater c c' Hc Ec) as Hlt. apply compare_fields_antisym in Hlt.
  assert (Htake : forall x, take (length (p ++ [x]) - 1) (p ++ [x]) = p) by (intros x; by rewrite length_app, Nat.add_sub, take_app_length).
  assert (Hpc : forall m, 0 <= name_compare p m -> 0 < name_compare (p ++ [c']) m).
  { intros m. clear. revert m. induction p as [|x p IH]; intros [|y m]; cbn [app]; intros Hpm.
    - apply name_compare_cons_nil.
    - pose proof (name_compare_nil_cons y m). lia.
    - apply name_compare_cons_nil.
    - rewrite name_compare_cons in Hpm |- *. destruct (compare_fields x y =? 0) eqn:E; zbool; [by apply IH|lia]. }
  unfold query_cmp. rewrite !last_snoc, Eg, !Htake. cbv zeta. split.
  - intros Hq. assert (0 <= name_compare p (d_name d)) as Hp0 by (destruct (_ =? 0) eqn:E0; zbool; lia).
    destruct (isImplicitSha256Digest c'); [|pose proof (Hpc _ Hp0); by rewrite (proj2 (Z.eqb_neq _ _)) by lia].
    destruct (_ =? 0); [|done]. apply compare_fields_antisym. apply compare_fields_antisym in Hq, Hlt. by eapply compare_fields_trans.
  - intros [-> ->]%app_inj_tail. rewrite (proj2 (Z.eqb_eq _ 0)) by (by apply name_compare_eq). split; [by apply compare_fields_eq|].
    destruct (isImplicitSha256Digest c'); [done|]. assert (0 <= name_compare (d_name d) (d_name d)) as H0 by (by rewrite (proj2 (name_compare_eq _ _))).
    pose proof (Hpc _ H0). by rewrite (proj2 (Z.eqb_neq _ _)) by lia.
Qed.

Lemma matchesData_name i d : matchesData sha256 i d = Ok true -> stored sha256 d ->
  i_name i `prefix_of` d_name d \/ i_name i = d_name d ++ [digest sha256 d].
Proof.
  intros Hm Hd. unfold matchesData in Hm. cbv zeta in Hm. destruct (negb _); [done|]. destruct (_ && _); [done|].
  apply result_bind_Ok in Hm as (b & Hb & Hm). destruct b; [clear Hm|done]. unfold matches_prefix in Hb. cbv zeta in Hb.
  destruct (_ =? _); [|left; injection Hb as Hb; by apply isPrefixOf_spec]. apply result_bind_Ok in Hb as (g & _ & Hb).
  destruct (isImplicitSha256Digest g); [|done]. rewrite (stored_getFullName _ _ Hd) in Hb. right. injection Hb as Hb. by apply name_equals_spec.
Qed.

(** Names without a digest inside, as Data packets should have. *)
Definition plain_name (n : Name) : Prop := Forall (fun c => isImplicitSha256Digest c = false) n.

Lemma plain_last_dec n : plain_last n \/ exists p g, n = p ++ [g] /\ isImplicitSha256Digest g = true.
Proof.
  destruct (last n) as [g|] eqn:E; [|left; intros g; by rewrite E]. destruct (isImplicitSha256Digest g) eqn:Eg.
  - right. apply last_Some in E as [p ->]. by exists p, g.
  - left. intros g' E'. rewrite E in E'. by injection E' as <-.
Qed.

Lemma all_stored_at t i e : all_stored sha256 t -> t !! i = Some e -> stored sha256 (ce_data e).
Proof. intros Ha Hi. unfold all_stored in Ha. rewrite Forall_forall in Ha. by eapply Ha, list_elem_of_lookup_2. Qed.

Lemma cs_range_ok prefix t : all_stored sha256 t -> StronglySorted (entry_lt sha256) t ->
  Forall (fun e => valid_name (d_name (ce_data e))) t -> valid_name prefix -> zlen prefix < 2 ^ 64 - 1 ->
  exists first last, cs_range sha256 prefix t = Ok (first, last) /\ (first <= last <= length t)%nat /\
    forall i e, t !! i = Some e ->
      (plain_last prefix -> (first <= i < last)%nat <-> prefix `prefix_of` d_name (ce_data e)) /\
      (prefix = d_name (ce_data e) ++ [digest sha256 (ce_data e)] -> (first <= i < last)%nat).
Proof.
  intros Ha Hs Hv Hp Hl. destruct (plain_last_dec prefix) as [Hpl|(p & g & -> & Hg)].
  - destruct (cs_range_plain prefix t Ha Hs Hv Hp Hl Hpl) as (first & last & E & Hle & Hin). exists first, last. split; [done|]. split; [done|].
    intros i e Hi. split; [intros _; by apply Hin|]. intros ->. apply (all_stored_at t i e Ha) in Hi.
    pose proof (stored_digest_type sha256 _ Hi) as [Hvd Ht]. specialize (Hpl _ (last_snoc _ _)). rewrite implicit_type, Ht in Hpl by done. done.
  - assert (Hnp : ~ plain_last (p ++ [g])) by (intros Hpl; specialize (Hpl g (last_snoc _ _)); congruence).
    assert (Hne : p ++ [g] <> []) by (by destruct p). unfold cs_range.
    destruct (cs_lower_bound_ok sha256 (p ++ [g]) t Ha Hs) as (first & -> & Hf & Hfirst). cbn [mbind result_bind]. unfold name_size. rewrite zlen_pos by done.
    destruct (Name_getSuccessor_ok (p ++ [g]) Hne Hp Hl) as (s & Es & _). rewrite Es. cbn [mbind result_bind].
    destruct (cs_lower_bound_ok sha256 s t Ha Hs) as (last & -> & Hla & Hlast). exists first, last. split; [done|].
    assert (Hq : forall i e, t !! i = Some e -> ((i < first)%nat -> (i < last)%nat) /\
      (p ++ [g] = d_name (ce_data e) ++ [digest sha256 (ce_data e)] -> (first <= i < last)%nat)).
    { intros i e Hi. pose proof (Hfirst i e Hi) as H1. pose proof (Hlast i e Hi) as H2.
      destruct (successor_query _ s (ce_data e) Hne Hp Hl Hnp Es) as [Hlt Heq]; [by eapply all_stored_at|]. split; [tauto|].
      intros [E0 Hs0]%Heq. split; [|by apply H2]. destruct (decide (first <= i)%nat); [done|]. apply Nat.nle_gt in n. apply H1 in n. lia. }
    split; [|intros i e Hi; split; [done|by apply (Hq i e)]]. split; [|done]. destruct (decide (first <= last)%nat); [done|].
    destruct (lookup_lt_is_Some_2 t last) as [e He]; [lia|]. destruct (Hq last e He) as [Hlt _]. lia.
Qed.
End ranges.

(** ** What is found *)
Section lookup.
Context (sha256 : octets -> octets).
Implicit Types (d : Data) (e : CsEntry) (t : list CsEntry) (q : Name).

(** The component of the full name after a prefix. *)
Definition child q d : Component := default (mkComponent 0 []) ((d_name d ++ [digest sha256 d]) !! length q).

Lemma child_exact q d : d_name d = q -> child q d = digest sha256 d.
Proof. intros <-. unfold child. by rewrite lookup_app_r, Nat.sub_diag by lia. Qed.
Lemma child_under q c d : q ++ [c] `prefix_of` d_name d -> child q d = c.
Proof.
  intros [r E]. unfold child. rewrite E, <- !app_assoc. by rewrite lookup_app_r, Nat.sub_diag by lia.
Qed.

Lemma child_split q r d : d_name d = q ++ r -> child q d = default (digest sha256 d) (head r).
Proof. intros E. unfold child. rewrite E, <- app_assoc, lookup_app_r, Nat.sub_diag by lia. by destruct r. Qed.

Lemma name_compare_app q a b : name_compare (q ++ a) (q ++ b) = name_compare a b.
Proof.
  induction q as [|c q IH]; [done|]. cbn [app]. rewrite name_compare_cons, (proj2 (Z.eqb_eq _ 0)) by (by apply compare_fields_eq). done.
Qed.
Lemma name_compare_prefix q n : q `prefix_of` n -> name_compare q n <= 0.
Proof.
  intros [r ->]. rewrite <- (app_nil_r q) at 1. rewrite name_compare_app. destruct r as [|c r]; [done|]. pose proof (name_compare_nil_cons c r). lia.
Qed.
(** Names between a name and an extension of it extend it. *)
Lemma prefix_convex q n m : q `prefix_of` m -> name_compare q n <= 0 -> name_compare n m <= 0 -> q `prefix_of` n.
Proof.
  revert n m. induction q as [|c q IH]; intros n m Hm H1 H2; [apply prefix_nil|]. destruct Hm as [r ->].
  destruct n as [|x n]; [pose proof (name_compare_cons_nil c q); lia|]. cbn [app] in H2. rewrite name_compare_cons in H1, H2.
  pose proof (compare_fields_antisym c x). pose proof (compare_fields_antisym x c). pose proof (compare_fields_eq c x) as He. pose proof (compare_fields_eq x c).
  destruct (compare_fields c x =? 0) eqn:E1, (compare_fields x c =? 0) eqn:E2; zbool; try lia.
  apply He in E1 as ->. apply prefix_cons. eapply IH; [|done..]. by exists r.
Qed.

(** The entries under a name are sorted by their child. *)
Lemma child_mono q a b : stored sha256 a -> stored sha256 b -> valid_name (d_name a) -> valid_name (d_name b) -> plain_name (d_name b) ->
  q `prefix_of` d_name a -> q `prefix_of` d_name b -> data_cmp sha256 a b < 0 ->
  compare_fields (child q a) (child q b) < 0 \/ child q a = child q b.
Proof.
  intros Ha Hb Hva Hvb Hpl [ra Ea] [rb Eb] Hlt. unfold data_cmp in Hlt. rewrite Ea, Eb, name_compare_app in Hlt.
  rewrite (child_split q ra a Ea), (child_split q rb b Eb).
  destruct ra as [|x ra], rb as [|y rb]; cbn [head from_option id].
  - left. exact Hlt.
  - left. unfold plain_name in Hpl. rewrite Eb in Hvb, Hpl. apply Forall_app in Hvb as [_ [Hy _]%Forall_cons]. apply Forall_app in Hpl as [_ [Hpy _]%Forall_cons].
    rewrite implicit_type in Hpy by done. zbool. apply valid_component_spec in Hy as [Hy _].
    destruct (stored_digest_type sha256 a Ha) as [_ Ht]. apply compare_fields_lt. left. rewrite Ht. unfold ImplicitSha256DigestComponent. lia.
  - pose proof (name_compare_cons_nil x ra). rewrite (proj2 (Z.eqb_neq _ _)) in Hlt by lia. lia.
  - rewrite name_compare_cons in Hlt. destruct (compare_fields x y =? 0) eqn:E; zbool; [right; by apply compare_fields_eq|].
    rewrite (proj2 (Z.eqb_neq _ _)) in Hlt by lia. by left.
Qed.

(** Queries for a prefix of a name, and for an extension of a greater name. *)
Lemma query_prefix q d : q `prefix_of` d_name d -> query_cmp sha256 q d <= 0.
Proof.
  intros Hq. pose proof (name_compare_prefix q _ Hq) as Hle. destruct (plain_last_dec q) as [Hp|(p & g & -> & Hg)].
  - destruct (decide (0 < query_cmp sha256 q d)) as [Hc|]; [|lia]. apply query_cmp_plain in Hc; [|done]. unfold name_ltb in Hc. zbool.
    apply name_compare_antisym in Hc. lia.
  - unfold query_cmp. rewrite last_snoc, Hg, length_app, Nat.add_sub, take_app_length. destruct Hq as [r ->]. rewrite <- app_assoc. cbv zeta.
    assert (name_compare p (p ++ [g] ++ r) < 0) as Hlt; [|by rewrite (proj2 (Z.eqb_neq _ _)); lia].
    rewrite <- (app_nil_r p) at 1. rewrite name_compare_app. apply name_compare_nil_cons.
Qed.
Lemma query_extension q c d : 0 < name_compare q (d_name d) -> 0 < query_cmp sha256 (q ++ [c]) d.
Proof.
  intros Hq. unfold query_cmp. rewrite last_snoc, length_app, Nat.add_sub, take_app_length. cbv zeta.
  assert (0 < name_compare (q ++ [c]) (d_name d)) as Hqc.
  { apply name_compare_antisym. apply name_compare_antisym in Hq. pose proof (name_ltb_trans (d_name d) q (q ++ [c])) as Ht.
    unfold name_ltb in Ht. rewrite !Z.ltb_lt in Ht. apply Ht; [done|]. rewrite <- (app_nil_r q) at 1. rewrite name_compare_app. apply name_compare_nil_cons. }
  destruct (isImplicitSha256Digest c); [by rewrite (proj2 (Z.eqb_neq _ _)) by lia|by rewrite (proj2 (Z.eqb_neq _ _)) by lia].
Qed.

Record table_ok (t : list CsEntry) : Prop := {
  to_stored : all_stored sha256 t;
  to_sorted : StronglySorted (entry_lt sha256) t;
  to_valid : Forall (fun e => valid_name (d_name (ce_data e))) t;
}.
Definition plain_table (t : list CsEntry) : Prop := Forall (fun e => plain_name (d_name (ce_data e))) t.

Lemma to_valid_at t i e : table_ok t -> t !! i = Some e -> valid_name (d_name (ce_data e)).
Proof. intros Ht Hi. pose proof (to_valid t Ht) as Hv. rewrite Forall_forall in Hv. by eapply Hv, list_elem_of_lookup_2. Qed.
Lemma plain_table_at t i e : plain_table t -> t !! i = Some e -> plain_name (d_name (ce_data e)).
Proof. intros Ht Hi. unfold plain_table in Ht. rewrite Forall_forall in Ht. by eapply Ht, list_elem_of_lookup_2. Qed.
#[local] Hint Resolve to_valid_at plain_table_at to_stored to_sorted : core.

(** The Data at [j] is preferred to that at [j']: by position, or by child and position. *)
Definition preferred (rightmost : bool) q (j : nat) d (j' : nat) d' : Prop :=
  if rightmost then compare_fields (child q d') (child q d) < 0 \/ child q d' = child q d /\ (j <= j')%nat else (j <= j')%nat.

Lemma getPrefix_take k n : 0 <= k < 2 ^ 64 - 1 -> getPrefix k n = take (Z.to_nat k) n.
Proof.
  intros Hk. unfold getPrefix, getSubName. rewrite (proj2 (Z.ltb_ge k 0)) by lia. change (0 <? 0) with false. cbv iota.
  change (Z.max 0 0) with 0. cbn [Z.to_nat drop]. rewrite Z.add_0_l, Z.sub_0_r. unfold npos, u64, name_size, zlen. rewrite (proj2 (Z.eqb_neq _ _)), Z.mod_small by lia.
  destruct (decide (Z.to_nat k <= length n)%nat); [f_equal; lia|]. transitivity n; [|symmetry]; apply take_ge; lia.
Qed.

(** One round: the subtree of the last child, and that it is shorter. *)
Lemma rightmost_round q t first last right prev e :
  table_ok t -> (last <= length t)%nat -> zlen q < 2 ^ 64 - 2 ->
  (forall i e, t !! i = Some e -> (first <= i < last)%nat <-> q `prefix_of` d_name (ce_data e)) ->
  (first < right <= last)%nat -> right = S prev -> t !! prev = Some e -> name_size (d_name (ce_data e)) <> name_size q ->
  exists c lft, getPrefix (name_size q + 1) (d_name (ce_data e)) = q ++ [c] /\ cs_lower_bound sha256 (q ++ [c]) t = Ok lft /\
    (first <= lft < right)%nat /\
    (plain_table t -> forall i e', t !! i = Some e' -> (first <= i < right)%nat ->
       if decide (lft <= i)%nat then child q (ce_data e') = c else compare_fields (child q (ce_data e')) c < 0).
Proof.
  intros Ht Hla Hl Hin Hr -> He Hsz.
  assert (q `prefix_of` d_name (ce_data e)) as Hpe by (apply (Hin prev); [done|lia]).
  assert (exists c, getPrefix (name_size q + 1) (d_name (ce_data e)) = q ++ [c] /\ q ++ [c] `prefix_of` d_name (ce_data e)) as (c & Ec & Hqc).
  { rewrite getPrefix_take by (unfold name_size; pose proof (zlen_nonneg q); lia). destruct Hpe as [[|c r] E].
    - rewrite E, app_nil_r in Hsz. done.
    - exists c. rewrite E. unfold name_size, zlen. replace (Z.to_nat _) with (S (length q)) by lia.
      rewrite cons_middle, app_assoc. rewrite take_app_length' by (rewrite length_app; cbn; lia). split; [done|by exists r]. }
  exists c. destruct (cs_lower_bound_ok sha256 (q ++ [c]) t) as (lft & E & Hle & Hlft); [by eauto..|]. exists lft. split; [done|]. split; [done|].
  assert (Hlr : (first <= lft < S prev)%nat).
  { split.
    - destruct (decide (first <= lft)%nat); [done|]. destruct (lookup_lt_is_Some_2 t lft) as [x Hx]; [lia|].
      destruct (decide (0 < query_cmp sha256 (q ++ [c]) (ce_data x))) as [Hc|Hc]; [apply (Hlft lft x Hx) in Hc; lia|].
      destruct (decide (0 < name_compare q (d_name (ce_data x)))) as [Hq|Hq]; [by destruct Hc; apply query_extension|].
      assert (q `prefix_of` d_name (ce_data x)) as Hpx; [|apply (Hin lft x Hx) in Hpx; lia].
      apply (prefix_convex q _ (d_name (ce_data e))); [done|lia|]. assert (entry_lt sha256 x e) as Hlt by (eapply sorted_lookup; [by eauto|done|done|lia]).
      unfold entry_lt, data_cmp in Hlt. destruct (_ =? 0) eqn:E0; zbool; lia.
    - destruct (decide (lft < S prev)%nat); [done|]. assert (0 < query_cmp sha256 (q ++ [c]) (ce_data e)) as Hc by (apply (Hlft prev e He); lia).
      pose proof (query_prefix _ _ Hqc). lia. }
  split; [done|]. intros Hpl i x Hx Hi. assert (q `prefix_of` d_name (ce_data x)) as Hpx by (apply (Hin i x Hx); lia).
  assert (Hcp : plain_last (q ++ [c])).
  { intros g. rewrite last_snoc. intros [= <-]. pose proof (plain_table_at _ _ _ Hpl He) as Hp. destruct Hqc as [r Er]. unfold plain_name in Hp.
    rewrite Er in Hp. apply Forall_app in Hp as [Hp _]. apply Forall_app in Hp as [_ Hp]. by inversion Hp. }
  pose proof (Hlft i x Hx) as Hcmp. rewrite query_cmp_plain in Hcmp by done. unfold name_ltb in Hcmp. rewrite Z.ltb_lt in Hcmp.
  destruct (decide (lft <= i)%nat) as [Hge|Hlt].
  - apply child_under. apply (prefix_convex _ _ (d_name (ce_data e))); [done| |].
    + pose proof (name_compare_antisym (q ++ [c]) (d_name (ce_data x))). lia.
    + destruct (decide (i = prev)) as [->|]; [assert (x = e) as -> by congruence; by rewrite (proj2 (name_compare_eq _ _) eq_refl)|].
      assert (entry_lt sha256 x e) as Hlt by (eapply sorted_lookup; [by eauto|done|done|lia]). unfold entry_lt, data_cmp in Hlt. destruct (_ =? 0) eqn:E0; zbool; lia.
  - assert (entry_lt sha256 x e) as Hxe by (eapply sorted_lookup; [by eauto|done|done|lia]). rewrite <- (child_under q c (ce_data e) Hqc).
    destruct (child_mono q (ce_data x) (ce_data e)) as [Hm|Hm]; [by eauto using all_stored_at..|done|].
    assert (q ++ [c] `prefix_of` d_name (ce_data x)) as Hbad%name_compare_prefix; [|assert (name_compare (d_name (ce_data x)) (q ++ [c]) < 0) as H1%name_compare_antisym by (apply Hcmp; lia); lia].
    destruct Hpx as [r Er]. rewrite (child_split q r _ Er), (child_under q c _ Hqc) in Hm. destruct r as [|c' r]; cbn in Hm; [|subst c'; exists r; by rewrite Er, <- app_assoc].
    specialize (Hcp c (last_snoc _ _)). rewrite <- Hm in Hcp. destruct (stored_digest_type sha256 (ce_data x)) as [Hvd Htd]; [by eauto using all_stored_at|].
    rewrite implicit_type, Htd in Hcp by done. done.
Qed.

(** The outcome of a search in a range: a position outside if nothing matches, otherwise
    the best match. *)
Definition outcome (rightmost : bool) q (p : CsEntry -> result bool) t (first right none m : nat) : Prop :=
  (m = none /\ forall j e, (first <= j < right)%nat -> t !! j = Some e -> ~ sat p e) \/
  ((first <= m < right)%nat /\ exists e, t !! m = Some e /\ sat p e /\
     ((rightmost = true -> plain_table t) -> forall j e', (first <= j < right)%nat -> t !! j = Some e' -> sat p e' ->
        preferred rightmost q m (ce_data e) j (ce_data e'))).

Lemma findLeftmost_ok now i first last t q : decided (canSatisfy sha256 now i) t -> (first <= last <= length t)%nat ->
  exists m, findLeftmost sha256 now i first last t = Ok m /\ outcome false q (canSatisfy sha256 now i) t first last last m.
Proof.
  intros Hd Hr. unfold findLeftmost. rewrite (proj2 (Nat.ltb_ge _ _)) by lia.
  destruct (find_if_ok (canSatisfy sha256 now i) first (last - first) t Hd) as (m & -> & Hm & Hno & Hyes); [lia|]. exists m. split; [done|].
  destruct (decide (m < first + (last - first))%nat) as [Hlt|Hge].
  - right. split; [lia|]. destruct (Hyes Hlt) as (e & He & Hs). exists e. do 2 (split; [done|]). intros _ j e' Hj Hl Hs'. cbn.
    destruct (decide (m <= j)%nat); [done|]. by destruct (Hno j e'); [lia|..].
  - left. split; [lia|]. intros j e Hj. apply Hno. lia.
Qed.

(** When all names are the prefix itself. *)
Lemma exact_ok now i first right t q : decided (canSatisfy sha256 now i) t -> table_ok t -> (first <= right <= length t)%nat ->
  (forall j e, t !! j = Some e -> (first <= j < right)%nat -> d_name (ce_data e) = q) ->
  exists m, findRightmostAmongExact sha256 now i first right t = Ok m /\ outcome true q (canSatisfy sha256 now i) t first right right m.
Proof.
  intros Hd Ht Hr Hq. unfold findRightmostAmongExact. rewrite (proj2 (Nat.ltb_ge _ _)) by lia.
  destruct (find_last_if_ok (canSatisfy sha256 now i) first (right - first) right t Hd) as (m & -> & Hm); [lia|lia|]. exists m. split; [done|].
  replace (first + (right - first))%nat with right in Hm by lia. destruct Hm as [[-> Hno]|(Hm & (e & He & Hs) & Hno)]; [by left|right].
  split; [lia|]. exists e. do 2 (split; [done|]). intros _ j e' Hj Hl Hs'. cbn.
  destruct (decide (m < j)%nat) as [Hlt|Hge]; [by destruct (Hno j e'); [lia|..]|]. destruct (decide (j = m)) as [->|Hne]; [right; by assert (e' = e) as -> by congruence|].
  left. assert (entry_lt sha256 e' e) as Hlt by (eapply sorted_lookup; [by eauto|done|done|lia]). rewrite !child_exact by (eapply Hq; [done|lia]).
  unfold entry_lt, data_cmp in Hlt. rewrite (Hq j e'), (Hq m e), (proj2 (Z.eqb_eq _ 0)) in Hlt by (done || lia || by apply name_compare_eq). done.
Qed.

Lemma rightmost_loop_ok now i t first last : decided (canSatisfy sha256 now i) t -> table_ok t -> (last <= length t)%nat ->
  zlen (i_name i) < 2 ^ 64 - 2 ->
  (forall j e, t !! j = Some e -> (first <= j < last)%nat <-> i_name i `prefix_of` d_name (ce_data e)) ->
  forall fuel right, (right <= fuel)%nat -> (first <= right <= last)%nat ->
  exists m, rightmost_loop sha256 fuel now i first right last t = Ok m /\ outcome true (i_name i) (canSatisfy sha256 now i) t first right last m.
Proof.
  intros Hd Ht Hla Hl Hin. induction fuel as [|fuel IH]; intros right Hf Hr.
  { replace right with 0%nat by lia. replace first with 0%nat by lia. exists last. split; [done|]. left. split; [done|lia]. }
  cbn [rightmost_loop]. destruct (right =? first)%nat eqn:E0.
  { apply Nat.eqb_eq in E0 as ->. exists last. split; [done|]. left. split; [done|lia]. }
  apply Nat.eqb_neq in E0. destruct right as [|prev]; [lia|]. destruct (cs_entry_ok prev t) as (e & He & ->); [lia|]. cbn [mbind result_bind].
  destruct (name_size (d_name (ce_data e)) =? name_size (i_name i)) eqn:Esz; zbool.
  - destruct (exact_ok now i first (S prev) t (i_name i) Hd Ht) as (m & -> & Hm); [lia| |].
    + intros j e' Hj Hlt. assert (i_name i `prefix_of` d_name (ce_data e')) as Hp' by (apply (Hin j e' Hj); lia).
      assert (i_name i = d_name (ce_data e)) as Ee. { apply prefix_length_eq; [apply (Hin prev e He); lia|unfold name_size, zlen in *; lia]. }
      destruct (decide (j = prev)) as [->|Hne]; [congruence|]. assert (entry_lt sha256 e' e) as Hlt' by (eapply sorted_lookup; [by eauto|done|done|lia]).
      unfold entry_lt, data_cmp in Hlt'. rewrite <- Ee in Hlt'. destruct (_ =? 0) eqn:E1; zbool; [by apply name_compare_eq|].
      apply name_compare_prefix in Hp'. pose proof (name_compare_antisym (i_name i) (d_name (ce_data e'))). lia.
    + eexists. split; [done|]. destruct Hm as [[-> Hno]|[Hm Hbest]]; [rewrite Nat.eqb_refl; by left|].
      rewrite (proj2 (Nat.eqb_neq _ _)) by lia. by right.
  - destruct (rightmost_round (i_name i) t first last (S prev) prev e Ht Hla Hl Hin) as (c & lft & -> & -> & Hb & Hch); [lia|done|done|done|].
    cbn [mbind result_bind]. destruct (findLeftmost_ok now i lft (S prev) t (i_name i) Hd) as (m & -> & Hm); [lia|]. cbn [mbind result_bind].
    destruct Hm as [[-> Hno]|(Hm & e1 & He1 & Hs1 & Hbest)].
    + rewrite Nat.eqb_refl. cbn [negb]. destruct (IH lft) as (m & -> & Hm); [lia|lia|]. exists m. split; [done|].
      destruct Hm as [[-> Hno']|(Hm & e2 & He2 & Hs2 & Hbest)].
      * left. split; [done|]. intros j e' Hj. destruct (decide (j < lft)%nat); [apply Hno'|apply Hno]; lia.
      * right. split; [lia|]. exists e2. do 2 (split; [done|]). intros Hpl j e' Hj Hl' Hs'.
        destruct (decide (j < lft)%nat); [apply Hbest; [done|lia|done..]|]. by destruct (Hno j e'); [lia|..].
    + rewrite (proj2 (Nat.eqb_neq m (S prev))) by lia. cbn [negb]. exists m. split; [done|]. right. split; [lia|]. exists e1. do 2 (split; [done|]).
      intros Hpl j e' Hj Hl' Hs'. pose proof (Hch (Hpl eq_refl) m e1 He1 ltac:(lia)) as H1. rewrite decide_True in H1 by lia.
      pose proof (Hch (Hpl eq_refl) j e' Hl' ltac:(lia)) as H2. cbn. rewrite H1. destruct (decide (lft <= j)%nat); [right|by left].
      split; [done|]. by apply (Hbest ltac:(done) j e'); [lia|..].
Qed.
End lookup.

(** ** The store as a queue of names *)
Section store.
Context (sha256 : octets -> octets).
Implicit Types (d : Data) (e : CsEntry) (t : list CsEntry) (c : Cs) (i : nat).

Definition fname (d : Data) : Name := d_name d ++ [digest sha256 d].
Definition node_names (t : list CsEntry) : gmap nat Name := list_to_map ((fun e => (ce_id e, fname (ce_data e))) <$> t).
(** The full names of the stored Data, the least recently used first. *)
Definition recency (c : Cs) : list Name := omap (fun i => node_names (cs_table c) !! i) (cs_queue c).

(** The two indexes of the store agree. *)
Record cs_index (c : Cs) : Prop := {
  cx_table : table_ok sha256 (cs_table c);
  cx_ids : NoDup (ce_id <$> cs_table c);
  cx_fresh : Forall (fun e => (ce_id e < cs_fresh c)%nat) (cs_table c);
  cx_queue : cs_queue c ≡ₚ ce_id <$> cs_table c;
}.
Record cs_inv (c : Cs) : Prop := {
  ci_index : cs_index c;
  ci_size : cs_size c <= cs_limit c;
}.

(** What an abstract LRU cache does with its names. *)
Definition lru_touch (n : Name) (l : list Name) : list Name := filter (fun m => m <> n) l ++ [n].
Definition lru_trim (limit : Z) (l : list Name) : list Name := drop (length l - Z.to_nat limit) l.

Lemma node_names_lookup t i n : NoDup (ce_id <$> t) ->
  node_names t !! i = Some n <-> exists e, e ∈ t /\ ce_id e = i /\ fname (ce_data e) = n.
Proof.
  intros Hnd. unfold node_names. rewrite <- elem_of_list_to_map.
  - rewrite list_elem_of_fmap. split; [intros (e & [= -> ->] & He); by exists e|intros (e & He & <- & <-); by exists e].
  - by rewrite <- list_fmap_compose.
Qed.
Lemma table_fname_inj t a b : table_ok sha256 t -> a ∈ t -> b ∈ t -> fname (ce_data a) = fname (ce_data b) -> a = b.
Proof.
  intros Ht [i Hi]%list_elem_of_lookup_1 [j Hj]%list_elem_of_lookup_1 [En Eg]%app_inj_tail.
  assert (data_cmp sha256 (ce_data a) (ce_data b) = 0) as E0 by (by apply data_cmp_eq).
  assert (data_cmp sha256 (ce_data b) (ce_data a) = 0) as E1 by (by apply data_cmp_eq).
  destruct (lt_eq_lt_dec i j) as [[Hlt| ->]|Hlt]; [|congruence|].
  - pose proof (sorted_lookup _ _ _ _ _ _ (to_sorted _ _ Ht) Hi Hj Hlt) as Hc. unfold entry_lt in Hc. lia.
  - pose proof (sorted_lookup _ _ _ _ _ _ (to_sorted _ _ Ht) Hj Hi Hlt) as Hc. unfold entry_lt in Hc. lia.
Qed.

Lemma node_names_at c i : cs_index c -> i ∈ cs_queue c -> exists e, e ∈ cs_table c /\ ce_id e = i /\ node_names (cs_table c) !! i = Some (fname (ce_data e)).
Proof.
  intros Hx Hi. rewrite (cx_queue c Hx) in Hi. apply list_elem_of_fmap in Hi as (e & -> & He). exists e. do 2 (split; [done|]).
  apply node_names_lookup; [apply Hx|]. by exists e.
Qed.

(** The names of the stored Data, in the order of the queue. *)
Lemma recency_fmap c (f : nat -> Name) : (forall i, i ∈ cs_queue c -> node_names (cs_table c) !! i = Some (f i)) -> recency c = f <$> cs_queue c.
Proof.
  unfold recency. induction (cs_queue c) as [|i q IH]; intros Hf; [done|]. cbn. rewrite (Hf i) by left. f_equal. apply IH. intros j Hj. apply Hf. by right.
Qed.
Lemma recency_table c : cs_index c -> recency c ≡ₚ (fun e => fname (ce_data e)) <$> cs_table c.
Proof.
  intros Hx. unfold recency. rewrite (cx_queue c Hx).
  enough (omap (fun i => node_names (cs_table c) !! i) (ce_id <$> cs_table c) = (fun e => fname (ce_data e)) <$> cs_table c) as ->; [done|].
  assert (Hin : forall e, e ∈ cs_table c -> node_names (cs_table c) !! ce_id e = Some (fname (ce_data e))).
  { intros e He. apply node_names_lookup; [apply Hx|]. by exists e. }
  revert Hin. generalize (node_names (cs_table c)). intros m. induction (cs_table c) as [|e t IH]; intros Hin; [done|]. cbn. rewrite Hin by left.
  f_equal. apply IH. intros e' He'. apply Hin. by right.
Qed.
Lemma recency_length c : cs_index c -> length (recency c) = length (cs_table c).
Proof. intros Hx. by rewrite (recency_table c Hx), length_fmap. Qed.
Lemma recency_NoDup c : cs_index c -> NoDup (recency c).
Proof.
  intros Hx. rewrite (recency_table c Hx). apply NoDup_fmap_2_strong; [|eapply NoDup_fmap_1, Hx].
  intros a b Ha Hb. apply (table_fname_inj (cs_table c)); [apply Hx|done..].
Qed.

Lemma omap_same (m m' : gmap nat Name) (q : list nat) : (forall j, j ∈ q -> m !! j = m' !! j) -> omap (fun i => m !! i) q = omap (fun i => m' !! i) q.
Proof.
  induction q as [|j q IH]; intros Hm; [done|]. cbn [omap list_omap]. rewrite Hm by left. rewrite IH; [done|]. intros j' Hj'. apply Hm. by right.
Qed.
Lemma omap_touch (m : gmap nat Name) (q : list nat) i n : m !! i = Some n -> (forall j, j ∈ q -> m !! j = Some n -> j = i) ->
  omap (m !!.) (filter (fun j => j <> i) q) = filter (fun x => x <> n) (omap (m !!.) q).
Proof.
  intros Hi Hinj. induction q as [|j q IH]; [done|]. cbn [omap list_omap].
  assert (Hq : forall j', j' ∈ q -> m !! j' = Some n -> j' = i) by (intros; apply Hinj; [by right|done]). specialize (IH Hq).
  destruct (decide (j = i)) as [->|Hne].
  - rewrite filter_cons_False, Hi, filter_cons_False by naive_solver. done.
  - rewrite filter_cons_True by done. cbn [omap list_omap]. destruct (m !! j) as [x|] eqn:Ej; [|done].
    assert (x <> n) by (intros ->; by destruct Hne; apply Hinj; [left|]). rewrite filter_cons_True by done. f_equal. done.
Qed.

(** An entry that is used or refreshed goes to the end. *)
Lemma insertToQueue_used c e : cs_index c -> e ∈ cs_table c ->
  exists c', insertToQueue (ce_id e) false c = Ok c' /\ cs_index c' /\ recency c' = lru_touch (fname (ce_data e)) (recency c) /\
    c' = cs_with_queue (cs_queue c') c.
Proof.
  intros Hx He. assert (Hin : ce_id e ∈ cs_queue c) by (rewrite (cx_queue c Hx); by apply list_elem_of_fmap_2).
  unfold insertToQueue. rewrite bool_decide_true by done. cbn [negb Bool.eqb]. eexists. split; [done|].
  assert (Hnd : NoDup (cs_queue c)) by (rewrite (cx_queue c Hx); apply Hx). split; [|split; [|done]].
  - destruct Hx as [Ht Hi Hf Hq]. split; [done..|]. cbn [cs_queue cs_with_queue cs_table]. rewrite <- Hq. apply NoDup_Permutation.
    + apply NoDup_app. split; [by apply NoDup_filter|]. split; [|apply NoDup_singleton]. intros j Hj Hs. apply list_elem_of_filter in Hj as [Hj _]. by apply list_elem_of_singleton in Hs.
    + done.
    + intros j. rewrite elem_of_app, list_elem_of_filter, list_elem_of_singleton. destruct (decide (j = ce_id e)) as [->|]; [split; [done|by right]|tauto].
  - assert (Hn : node_names (cs_table c) !! ce_id e = Some (fname (ce_data e))) by (apply node_names_lookup; [apply Hx|by exists e]).
    unfold recency. cbn [cs_queue cs_with_queue cs_table]. rewrite omap_app. cbn [omap list_omap]. rewrite Hn. unfold lru_touch. f_equal.
    apply omap_touch; [done|]. intros j _ (e' & He' & <- & Ef)%node_names_lookup; [|apply Hx]. f_equal. eapply table_fname_inj; [apply Hx|done..].
Qed.

Lemma Forall_filter {A} (P Q : A -> Prop) `{!forall x, Decision (P x)} l : Forall Q l -> Forall Q (filter P l).
Proof. rewrite !Forall_forall. intros Hq x [_ Hx]%list_elem_of_filter. by apply Hq. Qed.
Lemma list_filter_all {A} (P : A -> Prop) `{!forall x, Decision (P x)} l : Forall P l -> filter P l = l.
Proof. induction 1 as [|x l Hx _ IH]; [done|]. rewrite filter_cons_True by done. by f_equal. Qed.
Lemma table_ok_filter (P : CsEntry -> Prop) `{!forall e, Decision (P e)} t : table_ok sha256 t -> table_ok sha256 (filter P t).
Proof.
  intros [Ha Hs Hv]. split; [by apply Forall_filter| |by apply Forall_filter]. clear Ha Hv. induction Hs as [|e t Hs IH Hlt]; [constructor|].
  destruct (decide (P e)); [rewrite filter_cons_True by done|by rewrite filter_cons_False]. constructor; [done|]. by apply Forall_filter.
Qed.

(** Erasing a node with its place in the queue. *)
Lemma erase_index c i q : cs_index c -> (i :: q) ≡ₚ cs_queue c ->
  cs_index (cs_with_table (erase_node i (cs_table c)) (cs_with_queue q c)) /\
  (forall j, j ∈ q -> node_names (erase_node i (cs_table c)) !! j = node_names (cs_table c) !! j) /\
  S (length (erase_node i (cs_table c))) = length (cs_table c).
Proof.
  intros Hx Hp. destruct Hx as [Ht Hi Hf Hq]. assert (Hnd : NoDup (i :: q)) by (by rewrite Hp, Hq). apply NoDup_cons in Hnd as [Hni Hnq].
  assert (Hids : ce_id <$> erase_node i (cs_table c) = filter (fun j => j <> i) (ce_id <$> cs_table c)).
  { unfold erase_node. clear. induction (cs_table c) as [|e t IH]; [done|]. rewrite fmap_cons.
    destruct (decide (ce_id e = i)) as [E|E]; [rewrite !filter_cons_False by naive_solver|rewrite !filter_cons_True by done; rewrite fmap_cons, IH]; done. }
  assert (Hq' : filter (fun j => j <> i) (ce_id <$> cs_table c) ≡ₚ q).
  { apply NoDup_Permutation; [by apply NoDup_filter|done|]. intros j. rewrite list_elem_of_filter, <- Hq, <- Hp, elem_of_cons.
    destruct (decide (j = i)) as [->|]; tauto. }
  assert (Hnd' : NoDup (ce_id <$> erase_node i (cs_table c))) by (rewrite Hids; by apply NoDup_filter).
  split; [split; cbn [cs_table cs_with_table cs_with_queue cs_fresh cs_queue]; [by apply table_ok_filter|done|by apply Forall_filter|by rewrite Hids]|]. split.
  - intros j Hj. apply option_eq. intros n. rewrite !node_names_lookup by done. unfold erase_node.
    split; intros (e & He & <- & <-); exists e; (split; [|done]); [by apply list_elem_of_filter in He as [_ He]|].
    apply list_elem_of_filter. split; [|done]. intros E. by rewrite E in Hj.
  - rewrite <- (length_fmap ce_id), Hids, Hq', <- (length_fmap ce_id (cs_table c)), <- Hq, <- Hp. done.
Qed.

Lemma evict_loop_ok fuel c : cs_index c -> 0 <= cs_limit c -> (length (cs_table c) <= fuel)%nat ->
  exists c', evict_loop fuel c = Ok c' /\ cs_inv c' /\ recency c' = lru_trim (cs_limit c) (recency c) /\
    cs_table c' `sublist_of` cs_table c /\ c' = mkCs (cs_table c') (cs_fresh c) (cs_queue c') (cs_limit c) (cs_shouldAdmit c) (cs_shouldServe c).
Proof.
  revert c. induction fuel as [|fuel IH]; intros c Hx H0 Hf; cbn [evict_loop]; unfold cs_size, zlen;
    destruct (cs_limit c <? Z.of_nat (length (cs_table c))) eqn:E; zbool; try lia.
  2: destruct (cs_queue c) as [|i q] eqn:Eq.
  1, 4: exists c; split; [done|]; split; [by split|]; split; [|split; [done|by destruct c]];
    unfold lru_trim; rewrite (recency_length c Hx); by replace (_ - _)%nat with 0%nat by lia.
  - pose proof (cx_queue c Hx) as Hq. rewrite Eq in Hq. apply Permutation_length in Hq. rewrite length_fmap in Hq. cbn in Hq. lia.
  - destruct (erase_index c i q Hx) as (Hx' & Hn & Hlen); [by rewrite Eq|]. set (c1 := cs_with_table _ _) in *.
    destruct (IH c1 Hx' H0) as (c' & -> & Hi' & Hr & Hsub & Ec); [cbn; lia|]. exists c'. split; [done|]. split; [done|].
    assert (Hrec : recency c = default [] (node_names (cs_table c) !! i) :: recency c1).
    { unfold recency. rewrite Eq. cbn [omap list_omap]. destruct (node_names_at c i Hx) as (e & _ & _ & ->); [rewrite Eq; by left|]. cbn [default]. f_equal.
      unfold c1. cbn [cs_table cs_with_table cs_with_queue cs_queue]. apply omap_same. intros j Hj. by rewrite Hn. }
    split; [|split; [etransitivity; [done|apply sublist_filter]|done]].
    rewrite Hr, Hrec. unfold lru_trim. cbn [length]. rewrite (recency_length c1 Hx'). cbn [cs_table c1 cs_with_table cs_limit cs_with_queue].
    replace (S _ - _)%nat with (S (length (erase_node i (cs_table c)) - Z.to_nat (cs_limit c)))%nat by lia. done.
Qed.

Lemma StronglySorted_insert {A} (R : relation A) l x k : StronglySorted R l ->
  Forall (fun y => R y x) (take k l) -> Forall (fun y => R x y) (drop k l) -> StronglySorted R (take k l ++ x :: drop k l).
Proof.
  intros Hs. revert k. induction Hs as [|y l Hs IH Hlt]; intros k H1 H2; [rewrite take_nil, drop_nil; repeat constructor|].
  destruct k as [|k]; cbn in *; [constructor; [by constructor|done]|]. apply Forall_cons in H1 as [Hy H1]. constructor; [by apply IH|].
  rewrite <- (take_drop k l), Forall_app in Hlt. destruct Hlt. rewrite Forall_app, Forall_cons. done.
Qed.

Lemma cs_emplace_ok new t : table_ok sha256 t -> stored sha256 (ce_data new) ->
  exists i isNew t', cs_emplace sha256 new t = Ok (i, isNew, t') /\
    if isNew : bool
    then (i <= length t)%nat /\ t' = take i t ++ new :: drop i t /\
         Forall (fun e => entry_lt sha256 e new) (take i t) /\ Forall (fun e => entry_lt sha256 new e) (drop i t)
    else t' = t /\ exists e, t !! i = Some e /\ fname (ce_data e) = fname (ce_data new).
Proof.
  intros [Ha Hs _] Hn. induction t as [|e t IH]; [exists 0%nat, true, [new]; split; [done|]; split; [done|]; split; [done|]; split; constructor|].
  apply Forall_cons in Ha as [He Ha]. apply StronglySorted_inv in Hs as [Hs Hlt]. cbn [cs_emplace]. rewrite !compareDataWithData_ok by done. cbn [mbind result_bind].
  destruct (data_cmp sha256 (ce_data e) (ce_data new) <? 0) eqn:E1; zbool.
  - destruct (IH Ha Hs) as (i & isNew & t' & -> & Hi). exists (S i), isNew, (e :: t'). split; [done|]. destruct isNew.
    + destruct Hi as (Hi & -> & H1 & H2). split; [cbn; lia|]. split; [done|]. split; [by constructor|done].
    + destruct Hi as (-> & Hi). by split.
  - destruct (data_cmp sha256 (ce_data new) (ce_data e) <? 0) eqn:E2; zbool.
    + exists 0%nat, true, (new :: e :: t). split; [done|]. split; [cbn; lia|]. split; [done|]. split; [constructor|]. constructor; [done|].
      eapply Forall_impl; [exact Hlt|]. intros e' He'. unfold entry_lt in *. by eapply data_cmp_trans.
    + exists 0%nat, false, (e :: t). split; [done|]. split; [done|]. exists e. split; [done|]. pose proof (data_cmp_antisym sha256 (ce_data e) (ce_data new)) as Has.
      destruct (data_cmp_eq sha256 (ce_data e) (ce_data new)) as [[En Eg] _]; [lia|]. unfold fname. by rewrite En, Eg.
Qed.

Lemma Forall_same {A B} (f : A -> B) (P : B -> Prop) l l' : f <$> l' = f <$> l -> Forall (fun x => P (f x)) l -> Forall (fun x => P (f x)) l'.
Proof.
  revert l. induction l' as [|x l' IH]; intros [|y l] E; try done. rewrite !fmap_cons in E. injection E as E1 E2.
  intros [Hy Hl]%Forall_cons. constructor; [by rewrite E1|by apply (IH l)].
Qed.
Lemma sorted_same t t' : ce_data <$> t' = ce_data <$> t -> StronglySorted (entry_lt sha256) t -> StronglySorted (entry_lt sha256) t'.
Proof.
  revert t. induction t' as [|x t' IH]; intros [|y t] E; try done. rewrite !fmap_cons in E. injection E as E1 E2.
  intros [Hs Hlt]%StronglySorted_inv. constructor; [by apply (IH t)|]. unfold entry_lt in *. rewrite E1.
  by apply (Forall_same ce_data (fun d => data_cmp sha256 (ce_data y) d < 0) t).
Qed.
(** Changing an entry without its node and its Data. *)
Lemma same_nodes_index t' c : cs_index c -> ce_id <$> t' = ce_id <$> cs_table c -> ce_data <$> t' = ce_data <$> cs_table c ->
  cs_index (cs_with_table t' c) /\ node_names t' = node_names (cs_table c).
Proof.
  intros [[Ha Hs Hv] Hi Hf Hq] Ei Ed. split.
  - split; cbn [cs_table cs_with_table cs_fresh cs_queue]; [|by rewrite Ei| |by rewrite Ei].
    + split.
      * by apply (Forall_same ce_data (stored sha256) (cs_table c)).
      * by apply (sorted_same (cs_table c)).
      * by apply (Forall_same ce_data (fun d => valid_name (d_name d)) (cs_table c)).
    + by apply (Forall_same ce_id (fun i => (i < cs_fresh c)%nat) (cs_table c)).
  - unfold node_names. f_equal. clear -Ei Ed. revert Ei Ed. generalize (cs_table c). induction t' as [|e t IH]; intros [|e' t0]; try done. rewrite !fmap_cons.
    intros [= E1 Ei] [= E2 Ed]. rewrite E1, E2. f_equal. by apply IH.
Qed.

Lemma recency_elem c n : cs_index c -> n ∈ recency c <-> exists e, e ∈ cs_table c /\ fname (ce_data e) = n.
Proof. intros Hx. rewrite (recency_table c Hx), list_elem_of_fmap. split; intros (e & H1 & H2); by exists e. Qed.

(** A new node, at the end of the queue. *)
Lemma new_node_index c new k : cs_index c -> ce_id new = cs_fresh c -> stored sha256 (ce_data new) -> valid_name (d_name (ce_data new)) ->
  Forall (fun e => entry_lt sha256 e new) (take k (cs_table c)) -> Forall (fun e => entry_lt sha256 new e) (drop k (cs_table c)) ->
  let c' := mkCs (take k (cs_table c) ++ new :: drop k (cs_table c)) (S (cs_fresh c)) (cs_queue c ++ [cs_fresh c])
              (cs_limit c) (cs_shouldAdmit c) (cs_shouldServe c) in
  ~ cs_fresh c ∈ cs_queue c /\ cs_index c' /\ recency c' = lru_touch (fname (ce_data new)) (recency c).
Proof.
  intros Hx En Hd Hv Hlo Hhi c'. pose proof Hx as [[Ha Hs Hval] Hi Hf Hq].
  assert (Hp : take k (cs_table c) ++ new :: drop k (cs_table c) ≡ₚ new :: cs_table c).
  { rewrite <- Permutation_middle, take_drop. done. }
  assert (Hnf : ~ cs_fresh c ∈ ce_id <$> cs_table c).
  { intros (e & E & He)%list_elem_of_fmap. rewrite Forall_forall in Hf. specialize (Hf e He). lia. }
  assert (Hx' : cs_index c').
  { split; cbn [cs_table cs_fresh cs_queue c'].
    - split; [unfold all_stored; rewrite Hp; by constructor|by apply StronglySorted_insert|rewrite Hp; by constructor].
    - rewrite Hp. cbn. rewrite En. by constructor.
    - rewrite Hp. constructor; [lia|]. eapply Forall_impl; [exact Hf|]. cbn. lia.
    - rewrite Hp, <- Permutation_cons_append, Hq. cbn. by rewrite En. }
  split; [by rewrite Hq|]. split; [done|].
  assert (Hnames : forall j, j ∈ cs_queue c -> node_names (cs_table c') !! j = node_names (cs_table c) !! j).
  { intros j Hj. destruct (node_names_at c j Hx Hj) as (e & He & E & ->). apply node_names_lookup; [apply Hx'|]. exists e. split; [|done].
    cbn. rewrite Hp. by right. }
  assert (Hnew : node_names (cs_table c') !! cs_fresh c = Some (fname (ce_data new))).
  { apply node_names_lookup; [apply Hx'|]. exists new. split; [cbn; rewrite Hp; by left|done]. }
  assert (Hrec : recency c' = recency c ++ [fname (ce_data new)]).
  { unfold recency. cbn [cs_queue c']. rewrite omap_app. cbn [omap list_omap]. rewrite Hnew. f_equal.
    by apply omap_same. }
  rewrite Hrec. unfold lru_touch. f_equal. symmetry. apply list_filter_all. apply Forall_forall. intros n Hn E. subst n.
  pose proof (recency_NoDup c' Hx') as Hnd. rewrite Hrec in Hnd. apply NoDup_app in Hnd as (_ & Hnd & _). by apply (Hnd _ Hn), list_elem_of_singleton.
Qed.

Definition admitted (d : Data) (c : Cs) : bool := cs_shouldAdmit c && negb (cs_limit c =? 0) && negb (is_no_cache d).

Lemma updateStaleTime_ok now e : is_ok (stale_time now (ce_data e)) = true ->
  exists e', updateStaleTime now e = Ok e' /\ ce_id e' = ce_id e /\ ce_data e' = ce_data e /\ stale_time now (ce_data e) = Ok (ce_staleTime e') /\
    ce_isUnsolicited e' = ce_isUnsolicited e.
Proof. intros H. unfold updateStaleTime. destruct (stale_time now (ce_data e)) as [st|]; [|done]. by eexists. Qed.

Lemma insert_new_ok c new k : cs_inv c -> ce_id new = cs_fresh c -> stored sha256 (ce_data new) -> valid_name (d_name (ce_data new)) ->
  Forall (fun e => entry_lt sha256 e new) (take k (cs_table c)) -> Forall (fun e => entry_lt sha256 new e) (drop k (cs_table c)) ->
  let t := take k (cs_table c) ++ new :: drop k (cs_table c) in
  exists c', (let* c1 := insertToQueue (ce_id new) true (mkCs t (S (cs_fresh c)) (cs_queue c) (cs_limit c) (cs_shouldAdmit c) (cs_shouldServe c)) in
              cs_evictEntries c1) = Ok c' /\ cs_inv c' /\
    recency c' = lru_trim (cs_limit c) (lru_touch (fname (ce_data new)) (recency c)) /\
    (forall e', e' ∈ cs_table c' -> e' = new \/ e' ∈ cs_table c) /\
    cs_limit c' = cs_limit c /\ cs_shouldAdmit c' = cs_shouldAdmit c /\ cs_shouldServe c' = cs_shouldServe c.
Proof.
  intros [Hx Hsz] Ei Hd Hv Hlo Hhi t. destruct (new_node_index c new k Hx Ei Hd Hv Hlo Hhi) as (Hnf & Hx1 & Hr1). rewrite Ei.
  unfold insertToQueue. cbn [cs_queue]. rewrite bool_decide_false by done. cbn [negb Bool.eqb mbind result_bind cs_with_queue cs_table cs_fresh cs_limit cs_shouldAdmit cs_shouldServe].
  rewrite (list_filter_all (fun j => j <> cs_fresh c) (cs_queue c)) by (apply Forall_forall; intros j Hj E; by rewrite E in Hj).
  unfold cs_evictEntries. destruct (evict_loop_ok (length t) _ Hx1) as (c' & E & Hi' & Hr' & Hsub & Ec');
    [unfold cs_size in Hsz; pose proof (zlen_nonneg (cs_table c)); cbn; lia|done|].
  exists c'. split; [exact E|]. split; [done|]. split; [by rewrite Hr', Hr1|]. split; [|by rewrite Ec'].
  intros e' He'. pose proof (elem_of_sublist _ _ _ He' Hsub) as He1. cbn in He1. rewrite <- Permutation_middle, take_drop in He1. by apply elem_of_cons in He1.
Qed.

Lemma refresh_ok c k e e2 : cs_inv c -> cs_table c !! k = Some e -> ce_id e2 = ce_id e -> ce_data e2 = ce_data e ->
  exists c', insertToQueue (ce_id e2) false (cs_with_table (<[k := e2]> (cs_table c)) c) = Ok c' /\ cs_inv c' /\
    recency c' = lru_trim (cs_limit c) (lru_touch (fname (ce_data e)) (recency c)) /\
    (forall e', e' ∈ cs_table c' -> ce_data e' ∈ ce_data <$> cs_table c) /\
    cs_limit c' = cs_limit c /\ cs_shouldAdmit c' = cs_shouldAdmit c /\ cs_shouldServe c' = cs_shouldServe c.
Proof.
  intros [Hx Hsz] He Ei Ed. assert (Edt : ce_data <$> <[k:=e2]> (cs_table c) = ce_data <$> cs_table c) by
    (rewrite list_fmap_insert; apply list_insert_id; rewrite list_lookup_fmap, He; cbn; by rewrite Ed).
  destruct (same_nodes_index (<[k:=e2]> (cs_table c)) c Hx) as [Hx1 Hnn]; [|done|].
  { rewrite list_fmap_insert. apply list_insert_id. rewrite list_lookup_fmap, He. cbn. by rewrite Ei. }
  destruct (insertToQueue_used (cs_with_table (<[k:=e2]> (cs_table c)) c) e2 Hx1) as (c' & E & Hx' & Hr & Ec').
  { cbn. apply list_elem_of_lookup_2 with k. apply list_lookup_insert_eq. by eapply lookup_lt_Some. }
  exists c'. split; [done|]. assert (Hrec : recency (cs_with_table (<[k:=e2]> (cs_table c)) c) = recency c) by (unfold recency; cbn [cs_table cs_queue cs_with_table]; by rewrite Hnn).
  rewrite Hrec, Ed in Hr. assert (Et : cs_table c' = <[k:=e2]> (cs_table c)) by (by rewrite Ec'). assert (El : cs_limit c' = cs_limit c) by (by rewrite Ec').
  split; [split; [done|unfold cs_size, zlen; rewrite Et, length_insert, El; exact Hsz]|]. split; [|split; [|by rewrite Ec']].
  - unfold lru_trim. rewrite <- Hr. rewrite (recency_length c' Hx'), Et, length_insert. unfold cs_size, zlen in Hsz. by replace (_ - _)%nat with 0%nat by lia.
  - intros e' He'. rewrite Et in He'. rewrite <- Edt. by apply list_elem_of_fmap_2.
Qed.

Lemma negb_orb_shouldAdmit c d : negb (negb (cs_shouldAdmit c) || (cs_limit c =? 0)) && negb (is_no_cache d) =
  cs_shouldAdmit c && negb (cs_limit c =? 0) && negb (is_no_cache d).
Proof. by rewrite negb_orb, negb_involutive. Qed.
Lemma Cs_insert_ok now d u c : cs_inv c -> stored sha256 d -> valid_name (d_name d) ->
  is_ok (stale_time now d) = true -> (forall e, e ∈ cs_table c -> is_ok (stale_time now (ce_data e)) = true) ->
  exists c', Cs_insert sha256 now d u c = Ok c' /\ cs_inv c' /\
    recency c' = (if admitted d c then lru_trim (cs_limit c) (lru_touch (fname d) (recency c)) else recency c) /\
    (forall e', e' ∈ cs_table c' -> ce_data e' = d \/ ce_data e' ∈ ce_data <$> cs_table c) /\
    cs_limit c' = cs_limit c /\ cs_shouldAdmit c' = cs_shouldAdmit c /\ cs_shouldServe c' = cs_shouldServe c.
Proof.
  intros Hi Hd Hv Hst Hall. unfold Cs_insert, admitted. rewrite <- negb_orb_shouldAdmit.
  assert (Hsame : forall e', e' ∈ cs_table c -> ce_data e' = d \/ ce_data e' ∈ ce_data <$> cs_table c) by (intros; right; by apply list_elem_of_fmap_2).
  destruct (negb (cs_shouldAdmit c) || (cs_limit c =? 0)); [by exists c|]. destruct (is_no_cache d); [by exists c|]. cbn [negb andb].
  destruct (stale_time now d) as [st|] eqn:Est; [|done]. cbn [mbind result_bind]. set (new := mkCsEntry (cs_fresh c) d u st).
  destruct (cs_emplace_ok new (cs_table c)) as (k & isNew & t & -> & Hk); [apply Hi|done|]. cbn [mbind result_bind]. destruct isNew.
  - destruct Hk as (Hk & -> & Hlo & Hhi). destruct (insert_new_ok c new k Hi eq_refl Hd Hv Hlo Hhi) as (c' & E & Hi' & Hr & Hin & Hrest).
    unfold cs_entry. rewrite lookup_app_r; rewrite length_take_le by lia; [|lia]. rewrite Nat.sub_diag. cbn [lookup list_lookup mbind result_bind].
    unfold updateStaleTime. change (ce_data new) with d. rewrite Est. cbn [mbind result_bind negb andb].
    change (mkCsEntry (ce_id new) d (ce_isUnsolicited new) st) with new.
    rewrite list_insert_id by (rewrite lookup_app_r; rewrite length_take_le by lia; [by rewrite Nat.sub_diag|lia]).
    exists c'. split; [exact E|]. split; [done|]. split; [done|]. split; [|done]. intros e' [->|He']%Hin; [by left|by apply Hsame].
  - destruct Hk as (-> & e & He & Ef). assert (Hin : e ∈ cs_table c) by (by eapply list_elem_of_lookup_2).
    unfold cs_entry. rewrite He. cbn [mbind result_bind]. destruct (updateStaleTime_ok now e (Hall e Hin)) as (e1 & -> & Ei1 & Ed1 & _). cbn [mbind result_bind].
    assert (exists e2, (if negb false && (ce_isUnsolicited e1 && negb u) then unsetUnsolicited now e1 else Ok e1) = Ok e2 /\ ce_id e2 = ce_id e /\ ce_data e2 = ce_data e) as (e2 & -> & Ei2 & Ed2).
    { destruct (_ && _); [|by exists e1]. unfold unsetUnsolicited, ce_setData.
      destruct (updateStaleTime_ok now (mkCsEntry (ce_id e1) (ce_data e1) false (ce_staleTime e1))) as (e2 & -> & Ei2 & Ed2 & _); [cbn; rewrite Ed1; by apply Hall|].
      exists e2. split; [done|]. by rewrite Ei2, Ed2. }
    cbn [mbind result_bind]. destruct (refresh_ok c k e e2 Hi He Ei2 Ed2) as (c' & E & Hi' & Hr & Hin' & Hrest). unfold cs_with_table in E. rewrite E.
    exists c'. split; [done|]. split; [done|]. split; [by rewrite Hr, Ef|]. split; [|done]. intros e' He'. right. by apply Hin'.
Qed.

(** ** Lookup and configuration *)
Definition served (c : Cs) : bool := cs_shouldServe c && negb (cs_limit c =? 0).
Definition isRightmost (i : Interest) : bool := sel_childSelector (i_selectors i) =? 1.

(** Interests that can be looked up. *)
Record lookup_ok (i : Interest) : Prop := {
  lo_valid : valid_name (i_name i);
  lo_length : zlen (i_name i) < 2 ^ 64 - 2;
  lo_rightmost : isRightmost i = true -> plain_last (i_name i);
}.

Lemma canSatisfy_matches now (i : Interest) e : sat (canSatisfy sha256 now i) e -> matchesData sha256 i (ce_data e) = Ok true.
Proof. unfold sat, canSatisfy. destruct (matchesData _ _ _) as [[]|]; done. Qed.

Lemma match_in_range now (i : Interest) t first last : table_ok sha256 t -> plain_table t ->
  (forall j e, t !! j = Some e -> (plain_last (i_name i) -> (first <= j < last)%nat <-> i_name i `prefix_of` d_name (ce_data e)) /\
     (i_name i = d_name (ce_data e) ++ [digest sha256 (ce_data e)] -> (first <= j < last)%nat)) ->
  forall j e, t !! j = Some e -> sat (canSatisfy sha256 now i) e -> (first <= j < last)%nat.
Proof.
  intros Ht Hp Hin j e Hj Hs. destruct (Hin j e Hj) as [H1 H2]. destruct (matchesData_name sha256 i (ce_data e)) as [Hpre|Hfull];
    [by eapply canSatisfy_matches|by eapply all_stored_at; [apply Ht|]| |by apply H2].
  apply H1; [|done]. intros g Hg. pose proof (plain_table_at _ _ _ Hp Hj) as Hpn. unfold plain_name in Hpn. rewrite Forall_forall in Hpn. apply Hpn.
  destruct Hpre as [r ->]. apply elem_of_app. left. apply last_Some in Hg as [p ->]. apply elem_of_app. right. by apply list_elem_of_singleton.
Qed.

Lemma Cs_find_ok now (i : Interest) c : cs_inv c -> decided (canSatisfy sha256 now i) (cs_table c) -> valid_name (i_name i) -> zlen (i_name i) < 2 ^ 64 - 2 ->
  (isRightmost i = true -> plain_last (i_name i)) ->
  exists r c', Cs_find sha256 now i c = Ok (r, c') /\ cs_inv c' /\ c' = cs_with_queue (cs_queue c') c /\
    match r with
    | None => c' = c /\ (served c = true -> plain_table (cs_table c) -> forall e, e ∈ cs_table c -> ~ sat (canSatisfy sha256 now i) e)
    | Some d => recency c' = lru_touch (fname d) (recency c) /\
        exists j e, cs_table c !! j = Some e /\ ce_data e = d /\ sat (canSatisfy sha256 now i) e /\
          (plain_table (cs_table c) -> forall j' e', cs_table c !! j' = Some e' -> sat (canSatisfy sha256 now i) e' ->
             preferred sha256 (isRightmost i) (i_name i) j d j' (ce_data e'))
    end.
Proof.
  intros Hi Hd Hv Hl Hr. unfold Cs_find, served. fold (isRightmost i). pose proof (ci_index c Hi) as Hx. pose proof (cx_table c Hx) as [Ha Hs Hval].
  destruct (negb (cs_shouldServe c) || (cs_limit c =? 0)) eqn:Esrv.
  { exists None, c. do 2 (split; [done|]). split; [by destruct c|]. split; [done|]. destruct (cs_shouldServe c), (cs_limit c =? 0); done. }
  destruct (cs_range_ok sha256 (i_name i) (cs_table c) Ha Hs Hval Hv) as (first & last & -> & Hle & Hin); [lia|]. cbn [mbind result_bind].
  assert (exists m, (if isRightmost i then findRightmost sha256 now i first last (cs_table c) else findLeftmost sha256 now i first last (cs_table c)) = Ok m /\
    outcome sha256 (isRightmost i) (i_name i) (canSatisfy sha256 now i) (cs_table c) first last last m) as (m & -> & Hm).
  { destruct (isRightmost i); [|by apply findLeftmost_ok]. unfold findRightmost. apply rightmost_loop_ok; [done|apply Hx|lia|done| |lia|lia].
    intros j e Hj. apply (Hin j e Hj). by apply Hr. }
  cbn [mbind result_bind]. destruct Hm as [[-> Hno]|(Hm & e & He & Hse & Hbest)].
  - rewrite Nat.eqb_refl. exists None, c. do 2 (split; [done|]). split; [by destruct c|]. split; [done|]. intros _ Hp e [j Hj]%list_elem_of_lookup_1 Hsat.
    eapply (Hno j); [|done|done]. by eapply match_in_range.
  - rewrite (proj2 (Nat.eqb_neq _ _)) by lia. unfold cs_entry. rewrite He. cbn [mbind result_bind].
    destruct (insertToQueue_used c e Hx) as (c' & -> & Hx' & Hrec & Ec); [by eapply list_elem_of_lookup_2|]. cbn [mbind result_bind].
    exists (Some (ce_data e)), c'. split; [done|]. split; [split; [done|]; rewrite Ec; apply Hi|]. do 2 (split; [done|]).
    exists m, e. do 3 (split; [done|]). intros Hp j' e' Hj' Hs'. apply Hbest; [done| |done|done]. by eapply match_in_range.
Qed.

Lemma cs_setLimit_ok n c : cs_index c -> 0 <= n ->
  exists c', cs_setLimit n c = Ok c' /\ cs_inv c' /\ cs_limit c' = n /\ recency c' = lru_trim n (recency c) /\ cs_table c' `sublist_of` cs_table c /\
    cs_shouldAdmit c' = cs_shouldAdmit c /\ cs_shouldServe c' = cs_shouldServe c.
Proof.
  intros [Ht Hid Hf Hq] Hn. unfold cs_setLimit, cs_evictEntries. set (c1 := mkCs _ _ _ _ _ _).
  assert (Hx1 : cs_index c1) by (by split). destruct (evict_loop_ok (length (cs_table c1)) c1 Hx1 Hn) as (c' & -> & Hi & Hr & Hsub & Ec); [done|].
  exists c'. split; [done|]. split; [done|]. split; [by rewrite Ec|]. split; [done|]. split; [done|]. by rewrite Ec.
Qed.
Lemma Cs_new_ok n : 0 <= n -> exists c, Cs_new n = Ok c /\ cs_inv c /\ cs_limit c = n /\ cs_table c = [] /\ cs_shouldAdmit c = true /\ cs_shouldServe c = true.
Proof.
  intros Hn. unfold Cs_new. destruct (cs_setLimit_ok n (mkCs [] 0 [] 0 true true)) as (c & -> & Hi & Hl & _ & Hsub & Hadm & Hsrv); [|done|].
  - repeat split; by repeat constructor.
  - exists c. split; [done|]. do 2 (split; [done|]). split; [|done]. cbn in Hsub. by apply sublist_nil_r in Hsub.
Qed.

(** ** Erasing under a prefix *)
Lemma erase_node_delete k e t : NoDup (ce_id <$> t) -> t !! k = Some e -> erase_node (ce_id e) t = delete k t.
Proof.
  unfold erase_node. revert k. induction t as [|x t IH]; intros k Hnd Hk; [done|]. rewrite fmap_cons in Hnd. apply NoDup_cons in Hnd as [Hx Hnd].
  destruct k as [|k]; cbn in Hk.
  - injection Hk as ->. rewrite filter_cons_False by (intros E; by apply E). change (delete 0%nat (e :: t)) with t. apply list_filter_all, Forall_forall. intros y Hy E. apply Hx. rewrite <- E. by apply list_elem_of_fmap_2.
  - rewrite filter_cons_True; [change (delete (S k) (x :: t)) with (x :: delete k t); by rewrite (IH k)|]. intros E. apply Hx. rewrite E. eapply list_elem_of_fmap_2, list_elem_of_lookup_2, Hk.
Qed.

Lemma cs_erase_loop_ok n first limit nErased c : cs_index c -> (first + n <= length (cs_table c))%nat -> nErased <= limit ->
  let k := Nat.min n (Z.to_nat (limit - nErased)) in
  exists c', cs_erase_loop n first limit nErased c = Ok (nErased + Z.of_nat k, c') /\ cs_index c' /\
    cs_table c' = take first (cs_table c) ++ drop (first + k) (cs_table c) /\ recency c' `sublist_of` recency c /\
    cs_limit c' = cs_limit c /\ cs_shouldAdmit c' = cs_shouldAdmit c /\ cs_shouldServe c' = cs_shouldServe c.
Proof.
  revert nErased c. induction n as [|n IH]; intros nErased c Hx Hl Hn k; cbn [cs_erase_loop].
  { exists c. split; [do 2 f_equal; lia|]. split; [done|]. rewrite Nat.add_0_r, take_drop. done. }
  destruct (nErased <? limit) eqn:E; zbool.
  2: { exists c. subst k. replace (Nat.min _ _) with 0%nat by lia. split; [do 2 f_equal; lia|]. split; [done|]. rewrite Nat.add_0_r, take_drop. done. }
  destruct (cs_entry_ok first (cs_table c)) as (e & He & ->); [lia|]. cbn [mbind result_bind].
  assert (Hin : e ∈ cs_table c) by (by eapply list_elem_of_lookup_2).
  assert (Hq : ce_id e :: filter (fun j => j <> ce_id e) (cs_queue c) ≡ₚ cs_queue c).
  { pose proof (cx_queue c Hx) as Hp. assert (Hnd : NoDup (cs_queue c)) by (rewrite Hp; apply Hx). apply NoDup_Permutation; [|done|].
    - constructor; [|by apply NoDup_filter]. rewrite list_elem_of_filter. tauto.
    - intros j. rewrite elem_of_cons, list_elem_of_filter. destruct (decide (j = ce_id e)) as [->|]; [|tauto]. split; [|by left]. intros _. rewrite Hp. by apply list_elem_of_fmap_2. }
  destruct (erase_index c _ _ Hx Hq) as (Hx1 & Hnames & Hlen). set (c1 := cs_with_table _ _) in *.
  destruct (IH (nErased + 1) c1 Hx1) as (c' & -> & Hx' & Ht & Hsub & Hrest); [cbn; lia|lia|]. exists c'. subst k.
  set (k := Nat.min n (Z.to_nat (limit - (nErased + 1)))) in *. replace (Nat.min (S n) _) with (S k) by lia.
  split; [do 2 f_equal; lia|]. split; [done|]. split; [|split; [|done]].
  - rewrite Ht. cbn [cs_table c1 cs_with_table]. rewrite (erase_node_delete first e) by (apply Hx || done).
    rewrite delete_take_drop, take_app_le, take_take, Nat.min_id by (rewrite length_take_le; lia). f_equal.
    rewrite drop_app_ge, length_take_le, drop_drop by (rewrite ?length_take_le; lia). f_equal. lia.
  - etransitivity; [exact Hsub|]. unfold recency. cbn [cs_queue cs_table c1 cs_with_table cs_with_queue]. rewrite (omap_same _ (node_names (cs_table c))) by done.
    rewrite (omap_touch _ (cs_queue c) (ce_id e) (fname (ce_data e))).
    + apply sublist_filter.
    + apply node_names_lookup; [apply Hx|]. by exists e.
    + intros j _ (e' & He' & <- & Ef)%node_names_lookup; [|apply Hx]. f_equal. eapply table_fname_inj; [apply Hx|done..].
Qed.

Lemma Cs_erase_ok prefix limit c : cs_inv c -> valid_name prefix -> zlen prefix < 2 ^ 64 - 1 -> plain_last prefix -> 0 <= limit ->
  exists c' first last, Cs_erase sha256 prefix limit c = Ok (Z.min (Z.of_nat (last - first)) limit, c') /\ cs_inv c' /\
    (first <= last <= length (cs_table c))%nat /\
    (forall i e, cs_table c !! i = Some e -> (first <= i < last)%nat <-> prefix `prefix_of` d_name (ce_data e)) /\
    cs_table c' = take first (cs_table c) ++ drop (first + Nat.min (last - first) (Z.to_nat limit)) (cs_table c) /\
    recency c' `sublist_of` recency c.
Proof.
  intros [Hx Hsz] Hv Hl Hp H0. pose proof (cx_table c Hx) as [Ha Hs Hval]. unfold Cs_erase.
  destruct (cs_range_plain sha256 prefix (cs_table c) Ha Hs Hval Hv Hl Hp) as (first & last & -> & Hle & Hin). cbn [mbind result_bind].
  rewrite (proj2 (Nat.ltb_ge _ _)) by lia. destruct (cs_erase_loop_ok (last - first) first limit 0 c Hx) as (c' & -> & Hx' & Ht & Hsub & El & _); [lia|lia|].
  rewrite Z.sub_0_r in Ht. exists c', first, last. split; [do 2 f_equal; lia|]. split; [|done]. split; [done|].
  unfold cs_size, zlen in *. rewrite Ht, length_app, length_take_le, length_drop, El by lia. lia.
Qed.

(** ** The rightmost child of a full name *)

(** Below the range, where nothing matches, the loop does not stop before the beginning. *)
Lemma rightmost_loop_below now (i : Interest) t first last : decided (canSatisfy sha256 now i) t -> table_ok sha256 t -> (first <= length t)%nat ->
  zlen (i_name i) < 2 ^ 64 - 2 -> (forall j e, t !! j = Some e -> ~ sat (canSatisfy sha256 now i) e) ->
  forall fuel right, (right <= fuel)%nat -> (right < first)%nat -> exists what, rightmost_loop sha256 fuel now i first right last t = Err (UndefinedBehaviour what).
Proof.
  intros Hd Ht Hf Hl Hno. induction fuel as [|fuel IH]; intros right Hfu Hr; cbn [rightmost_loop]; rewrite (proj2 (Nat.eqb_neq _ _)) by lia;
    (destruct right as [|prev]; [by eexists|]); [lia|].
  destruct (cs_entry_ok prev t) as (e & He & ->); [lia|]. cbn [mbind result_bind]. destruct (_ =? _).
  - unfold findRightmostAmongExact. rewrite (proj2 (Nat.ltb_lt _ _)) by lia. by eexists.
  - destruct (cs_lower_bound_ok sha256 (getPrefix (name_size (i_name i) + 1) (d_name (ce_data e))) t) as (lft & -> & _ & Hlft); [apply Ht|apply Ht|]. cbn [mbind result_bind].
    assert (lft < S prev)%nat as Hlt.
    { destruct (decide (lft < S prev)%nat); [done|]. assert (0 < query_cmp sha256 (getPrefix (name_size (i_name i) + 1) (d_name (ce_data e))) (ce_data e)) as Hc by (apply (Hlft prev e He); lia).
      revert Hc. rewrite getPrefix_take by (unfold name_size; pose proof (zlen_nonneg (i_name i)); lia). intros Hc.
      pose proof (query_prefix sha256 (take (Z.to_nat (name_size (i_name i) + 1)) (d_name (ce_data e))) (ce_data e)) as Hq.
      assert (take (Z.to_nat (name_size (i_name i) + 1)) (d_name (ce_data e)) `prefix_of` d_name (ce_data e)) as Hpre; [|apply Hq in Hpre; lia].
      eexists. by rewrite take_drop. }
    destruct (findLeftmost_ok sha256 now i lft (S prev) t [] Hd) as (m & -> & Hm); [lia|]. cbn [mbind result_bind].
    destruct Hm as [[-> _]|(_ & e1 & He1 & Hs1 & _)]; [|by destruct (Hno _ _ He1)]. rewrite Nat.eqb_refl. cbn [negb]. apply IH; lia.
Qed.

(** The range of a full name holds that Data only. *)
Lemma full_name_range (p : Name) (g s : Component) d : valid_name (p ++ [g]) -> isImplicitSha256Digest g = true -> Component_getSuccessor g = Ok s ->
  stored sha256 d -> valid_name (d_name d) -> plain_name (d_name d) ->
  query_cmp sha256 (p ++ [g]) d <= 0 -> 0 < query_cmp sha256 (p ++ [s]) d -> fname d = p ++ [g].
Proof.
  intros Hv Hg Es Hd Hvd Hpd Hlo Hhi. apply Forall_app in Hv as [_ [Hvg _]%Forall_cons]. destruct (stored_digest_type sha256 d Hd) as [Hdg Htd].
  destruct (Component_getSuccessor_ok g Hvg) as (s' & E & Hvs & _). rewrite Es in E. apply (inj Ok) in E as <-.
  assert (Hgd : d_name d = p -> compare_fields g (digest sha256 d) <= 0 -> compare_fields (digest sha256 d) s < 0 -> fname d = p ++ [g]).
  { intros En H1 H2. unfold fname. rewrite En. do 2 f_equal. symmetry. apply compare_fields_eq. pose proof (successor_least g s _ Hvg Hdg Es). lia. }
  unfold query_cmp in Hlo, Hhi. rewrite !last_snoc, !length_app, !Nat.add_sub, !take_app_length in Hlo, Hhi. rewrite Hg in Hlo. cbv zeta in Hlo, Hhi.
  destruct (isImplicitSha256Digest s) eqn:Ei.
  - destruct (name_compare p (d_name d) =? 0) eqn:E0; zbool; [|lia]. apply name_compare_eq in E0. apply Hgd; [done|done|]. by apply compare_fields_antisym.
  - assert (0 < name_compare (p ++ [s]) (d_name d)) as Hs by (destruct (name_compare (p ++ [s]) (d_name d) =? 0) eqn:E1; zbool; lia). apply name_compare_antisym in Hs.
    assert (name_compare p (d_name d) <= 0) as Hp by (destruct (name_compare p (d_name d) =? 0) eqn:E1; zbool; lia).
    destruct (prefix_convex p (d_name d) (p ++ [s])) as [r Er]; [by exists [s]|done|lia|]. rewrite implicit_type in Ei, Hg by done. zbool.
    assert (Hts : nc_type g < nc_type s).
    { pose proof (successor_greater g s Hvg Es) as Hgs. apply compare_fields_lt in Hgs. lia. }
    destruct r as [|x r].
    + rewrite app_nil_r in Er. rewrite Er, (proj2 (Z.eqb_eq _ 0)) in Hlo by (by apply name_compare_eq). apply Hgd; [done|done|].
      apply compare_fields_lt. left. rewrite Htd. unfold ImplicitSha256DigestComponent. lia.
    + exfalso. unfold plain_name in Hpd. rewrite Er in Hs, Hvd, Hpd. rewrite name_compare_app, name_compare_cons in Hs.
      apply Forall_app in Hvd as [_ [Hvx _]%Forall_cons]. apply Forall_app in Hpd as [_ [Hpx _]%Forall_cons]. rewrite implicit_type in Hpx by done. zbool.
      assert (compare_fields x s < 0) as Hxs by (destruct (compare_fields x s =? 0) eqn:E1; zbool; [destruct r; [done|pose proof (name_compare_cons_nil c r); lia]|done]).
      pose proof (successor_least g s x Hvg Hvx Es) as Hle. apply valid_component_spec in Hvx as [Hvx _]. assert (nc_type g < nc_type x) as Hgx by lia.
      destruct Hle as [Hle _]. apply Hle; [|done]. apply compare_fields_lt. by left.
Qed.

Lemma sorted_NoDup t : table_ok sha256 t -> NoDup t.
Proof.
  intros [_ Hs _]. induction Hs as [|e t Hs IH Hlt]; constructor; [|done]. intros He. rewrite Forall_forall in Hlt. specialize (Hlt e He). unfold entry_lt in Hlt.
  rewrite (proj2 (data_cmp_eq sha256 _ _)) in Hlt by done. lia.
Qed.
Lemma full_range t j e : table_ok sha256 t -> plain_table t -> t !! j = Some e -> valid_name (fname (ce_data e)) -> zlen (fname (ce_data e)) < 2 ^ 64 - 1 ->
  cs_range sha256 (fname (ce_data e)) t = Ok (j, S j).
Proof.
  intros Ht Hpl Hj Hv Hl. pose proof Ht as [Ha Hs _]. assert (Hd : stored sha256 (ce_data e)) by (by eapply all_stored_at).
  destruct (cs_range_ok sha256 (fname (ce_data e)) t Ha Hs (to_valid _ _ Ht) Hv Hl) as (first & last & E & Hle & Hin). rewrite E.
  destruct (Hin j e Hj) as [_ Hjr]. specialize (Hjr eq_refl). assert (Hu : forall k, (first <= k < last)%nat -> k = j).
  { intros k Hk. destruct (lookup_lt_is_Some_2 t k) as [x Hx]; [lia|]. assert (Hne : fname (ce_data e) <> []) by (unfold fname; by destruct (d_name (ce_data e))).
    unfold cs_range in E. destruct (cs_lower_bound_ok sha256 (fname (ce_data e)) t Ha Hs) as (f & E1 & _ & Hf). rewrite E1 in E. cbn [mbind result_bind] in E.
    unfold name_size in E. rewrite zlen_pos in E by done. destruct (Name_getSuccessor (fname (ce_data e))) as [s|] eqn:Es; [|done]. cbn [mbind result_bind] in E.
    destruct (cs_lower_bound_ok sha256 s t Ha Hs) as (l & E2 & _ & Hla). rewrite E2 in E. injection E as -> ->.
    destruct (successor_last _ s Hne Hv Hl Es) as (p & g & g' & Ep & _ & Eg & ->). destruct (stored_digest_type sha256 (ce_data e) Hd) as [Hvd Htd].
    assert (fname (ce_data x) = fname (ce_data e)) as Efx.
    - rewrite Ep. apply app_inj_tail in Ep as Ep'. destruct Ep' as [_ <-]. apply (full_name_range p _ g'); [by rewrite <- Ep|by rewrite implicit_type, Htd|done|by eapply all_stored_at|by eapply to_valid_at|by eapply plain_table_at| |].
      + rewrite <- Ep. destruct (decide (query_cmp sha256 (fname (ce_data e)) (ce_data x) <= 0)); [done|]. assert (k < first)%nat by (apply (Hf k x Hx); lia). lia.
      + apply (Hla k x Hx). lia.
    - assert (x = e) as -> by (apply (table_fname_inj t); [done|by eapply list_elem_of_lookup_2..|done]).
      eapply (NoDup_lookup (t)); [|done|done]. by eapply sorted_NoDup. }
  assert (first = j) as -> by (apply Hu; lia). assert ((last - 1)%nat = j) by (apply Hu; lia). do 2 f_equal. lia.
Qed.

Lemma rightmost_digest_ub now (i : Interest) c e e' : cs_inv c -> served c = true -> plain_table (cs_table c) -> decided (canSatisfy sha256 now i) (cs_table c) ->
  valid_name (i_name i) -> zlen (i_name i) < 2 ^ 64 - 2 -> isRightmost i = true ->
  e ∈ cs_table c -> fname (ce_data e) = i_name i -> ~ sat (canSatisfy sha256 now i) e ->
  e' ∈ cs_table c -> d_name (ce_data e') = d_name (ce_data e) -> compare_fields (digest sha256 (ce_data e')) (digest sha256 (ce_data e)) < 0 ->
  exists what, Cs_find sha256 now i c = Err (UndefinedBehaviour what).
Proof.
  intros [Hx _] Hsrv Hpl Hd Hv Hl Hrm He Hfn Hns He' Hname Hdig. pose proof (cx_table c Hx) as Ht. pose proof Ht as [Ha Hs Hval].
  unfold Cs_find. fold (isRightmost i). rewrite Hrm. destruct (negb _ || _) eqn:E; [unfold served in Hsrv; by destruct (cs_shouldServe c), (cs_limit c =? 0)|clear E].
  apply list_elem_of_lookup_1 in He as [j Hj], He' as [j' Hj'].
  assert (Hjj : (j' < j)%nat).
  { destruct (lt_eq_lt_dec j' j) as [[Hlt| ->]|Hlt]; [done|assert (e' = e) as -> by congruence; rewrite (proj2 (compare_fields_eq _ _) eq_refl) in Hdig; lia|].
    pose proof (sorted_lookup _ _ _ _ _ _ Hs Hj Hj' Hlt) as Hc. unfold entry_lt, data_cmp in Hc. rewrite Hname, (proj2 (Z.eqb_eq _ 0)) in Hc by (by apply name_compare_eq).
    apply compare_fields_antisym in Hdig. lia. }
  assert (Hno : forall k x, cs_table c !! k = Some x -> ~ sat (canSatisfy sha256 now i) x).
  { intros k x Hk Hsx. assert (x = e) as ->; [|done]. apply (table_fname_inj (cs_table c)); [done|by eapply list_elem_of_lookup_2..|]. rewrite Hfn.
    destruct (matchesData_name sha256 i (ce_data x)) as [Hpre|Hfull]; [by eapply canSatisfy_matches|by eapply all_stored_at| |done]. exfalso.
    destruct (stored_digest_type sha256 (ce_data e)) as [Hvd Htd]; [by eapply all_stored_at|]. pose proof (plain_table_at _ _ _ Hpl Hk) as Hp.
    unfold plain_name in Hp. rewrite Forall_forall in Hp. specialize (Hp (digest sha256 (ce_data e))). rewrite implicit_type, Htd in Hp by done. discriminate Hp.
    destruct Hpre as [r ->]. rewrite <- Hfn. unfold fname. rewrite !elem_of_app, list_elem_of_singleton. tauto. }
  rewrite <- Hfn in Hv |- *. rewrite (full_range (cs_table c) j e Ht Hpl Hj Hv) by (rewrite Hfn; lia). cbn [mbind result_bind].
  unfold findRightmost. cbn [rightmost_loop]. rewrite (proj2 (Nat.eqb_neq (S j) j)) by lia. rewrite (proj2 (cs_entry_Some _ _ _) Hj). cbn [mbind result_bind].
  rewrite <- Hfn. unfold fname, name_size. rewrite zlen_app. change (zlen [_]) with 1. rewrite (proj2 (Z.eqb_neq _ _)) by lia.
  rewrite getPrefix_take by (rewrite <- Hfn in Hl; unfold fname in Hl; rewrite zlen_app in Hl; change (zlen [_]) with 1 in Hl; pose proof (zlen_nonneg (d_name (ce_data e))); lia).
  rewrite take_ge by (unfold zlen; lia).
  destruct (cs_lower_bound_ok sha256 (d_name (ce_data e)) (cs_table c) Ha Hs) as (lft & -> & _ & Hlft). cbn [mbind result_bind].
  assert (lft <= j')%nat as Hlj.
  { destruct (decide (lft <= j')%nat); [done|]. assert (0 < query_cmp sha256 (d_name (ce_data e)) (ce_data e')) as Hc by (apply (Hlft j' e' Hj'); lia).
    pose proof (query_prefix sha256 (d_name (ce_data e)) (ce_data e')) as Hq. rewrite Hname in Hq. specialize (Hq ltac:(done)). lia. }
  pose proof (lookup_lt_Some _ _ _ Hj) as Hjl. destruct (findLeftmost_ok sha256 now i lft (S j) (cs_table c) [] Hd) as (m & -> & Hm); [lia|]. cbn [mbind result_bind].
  destruct Hm as [[-> _]|(_ & e1 & He1 & Hs1 & _)]; [|by destruct (Hno _ _ He1)]. rewrite Nat.eqb_refl. cbn [negb].
  destruct (rightmost_loop_below now i (cs_table c) j (S j) Hd Ht) with (fuel := j) (right := lft) as [what ->]; [lia|done|done|lia|lia|]. by exists what.
Qed.
End store.

(** ** Properties *)
Section properties.
Context (sha256 : octets -> octets).

(** C21: the content store is an LRU cache of full names: the names of the stored Data,
    from the least to the most recently used, never more than the limit.  Inserting
    admitted Data, new or known, moves its name to the end and drops names from the front
    until the limit is kept; finding Data moves its name to the end; lowering the limit
    drops from the front; erasing under a prefix removes the first entries under it and
    keeps the order of the others.  None of these operations fails. *)
Theorem cs_refines_lru (c : Cs) (Hi : cs_inv sha256 c) :
  recency sha256 c ≡ₚ (fun e => fname sha256 (ce_data e)) <$> cs_table c /\ NoDup (recency sha256 c) /\ zlen (recency sha256 c) <= cs_limit c /\
  (forall now d u, stored sha256 d -> valid_name (d_name d) -> is_ok (stale_time now d) = true ->
     (forall e, e ∈ cs_table c -> is_ok (stale_time now (ce_data e)) = true) ->
     exists c', Cs_insert sha256 now d u c = Ok c' /\ cs_inv sha256 c' /\
       recency sha256 c' = if admitted d c then lru_trim (cs_limit c) (lru_touch (fname sha256 d) (recency sha256 c)) else recency sha256 c) /\
  (forall now i, decided (canSatisfy sha256 now i) (cs_table c) -> valid_name (i_name i) -> zlen (i_name i) < 2 ^ 64 - 2 ->
     (isRightmost i = true -> plain_last (i_name i)) ->
     exists r c', Cs_find sha256 now i c = Ok (r, c') /\ cs_inv sha256 c' /\
       recency sha256 c' = match r with Some d => lru_touch (fname sha256 d) (recency sha256 c) | None => recency sha256 c end) /\
  (forall n, 0 <= n -> exists c', cs_setLimit n c = Ok c' /\ cs_inv sha256 c' /\ cs_limit c' = n /\ recency sha256 c' = lru_trim n (recency sha256 c)) /\
  (forall prefix n, valid_name prefix -> zlen prefix < 2 ^ 64 - 1 -> plain_last prefix -> 0 <= n ->
     exists c' first last, Cs_erase sha256 prefix n c = Ok (Z.min (Z.of_nat (last - first)) n, c') /\ cs_inv sha256 c' /\
       (forall j e, cs_table c !! j = Some e -> (first <= j < last)%nat <-> prefix `prefix_of` d_name (ce_data e)) /\
       cs_table c' = take first (cs_table c) ++ drop (first + Nat.min (last - first) (Z.to_nat n)) (cs_table c) /\
       recency sha256 c' `sublist_of` recency sha256 c).
Proof.
  pose proof (ci_index _ _ Hi) as Hx. split; [by apply recency_table|]. split; [by apply recency_NoDup|].
  split; [unfold zlen; rewrite (recency_length _ _ Hx); apply Hi|]. split; [|split; [|split]].
  - intros now d u H1 H2 H3 H4. destruct (Cs_insert_ok sha256 now d u c Hi H1 H2 H3 H4) as (c' & E & Hi' & Hr & _). by exists c'.
  - intros now i H1 H2 H3 H4. destruct (Cs_find_ok sha256 now i c Hi H1 H2 H3 H4) as (r & c' & E & Hi' & _ & Hr). exists r, c'. split; [done|]. split; [done|].
    destruct r; [apply Hr|]. by destruct Hr as [-> _].
  - intros n Hn. destruct (cs_setLimit_ok sha256 n c Hx Hn) as (c' & E & Hi' & El & Hr & _). by exists c'.
  - intros prefix n H1 H2 H3 H4. destruct (Cs_erase_ok sha256 prefix n c Hi H1 H2 H3 H4) as (c' & f & l & E & Hi' & _ & Hin & Ht & Hr). by exists c', f, l.
Qed.

(** A lookup finds the Data that the rule of selection chooses, among all that is
    stored: what is found satisfies the Interest, freshness included; without
    ChildSelector no entry before it in the canonical order does; with the rightmost
    child, no entry under a greater child does, and none before it under the same child.
    A miss means that nothing stored satisfies the Interest.  (Names of Data hold no
    implicit digest.) *)
Theorem cs_find_best (now : Z) (i : Interest) (c : Cs) (Hi : cs_inv sha256 c) (Hs : served c = true) (Hp : plain_table (cs_table c))
    (Hd : decided (canSatisfy sha256 now i) (cs_table c)) (Hv : valid_name (i_name i)) (Hl : zlen (i_name i) < 2 ^ 64 - 2)
    (Hr : isRightmost i = true -> plain_last (i_name i)) :
  exists r c', Cs_find sha256 now i c = Ok (r, c') /\
    match r with
    | None => forall e, e ∈ cs_table c -> canSatisfy sha256 now i e <> Ok true
    | Some d => exists j e, cs_table c !! j = Some e /\ ce_data e = d /\ canSatisfy sha256 now i e = Ok true /\
        forall j' e', cs_table c !! j' = Some e' -> canSatisfy sha256 now i e' = Ok true ->
          if isRightmost i
          then compare_fields (child sha256 (i_name i) (ce_data e')) (child sha256 (i_name i) d) < 0 \/
               child sha256 (i_name i) (ce_data e') = child sha256 (i_name i) d /\ (j <= j')%nat
          else (j <= j')%nat
    end.
Proof.
  destruct (Cs_find_ok sha256 now i c Hi Hd Hv Hl Hr) as (r & c' & E & _ & _ & Hm). exists r, c'. split; [done|]. destruct r as [d|].
  - destruct Hm as (_ & j & e & Hj & Ed & Hse & Hbest). exists j, e. do 3 (split; [done|]). by apply Hbest.
  - by apply Hm.
Qed.

(** An Interest for a full name that asks for the rightmost child walks off the
    table if the Data of that name is stored but does not satisfy it (it is stale, for
    instance) and Data of the same name with a smaller digest is stored too. *)
Theorem cs_rightmost_digest (now : Z) (i : Interest) (c : Cs) (e e' : CsEntry) (Hi : cs_inv sha256 c) (Hs : served c = true) (Hp : plain_table (cs_table c))
    (Hd : decided (canSatisfy sha256 now i) (cs_table c)) (Hv : valid_name (i_name i)) (Hl : zlen (i_name i) < 2 ^ 64 - 2)
    (Hr : isRightmost i = true) (He : e ∈ cs_table c) (Hn : fname sha256 (ce_data e) = i_name i) (Hns : canSatisfy sha256 now i e = Ok false)
    (He' : e' ∈ cs_table c) (Hn' : d_name (ce_data e') = d_name (ce_data e)) (Hlt : compare_fields (digest sha256 (ce_data e')) (digest sha256 (ce_data e)) < 0) :
  exists what, Cs_find sha256 now i c = Err (UndefinedBehaviour what).
Proof.
  apply (rightmost_digest_ub sha256 now i c e e'); try done. unfold sat. by rewrite Hns.
Qed.
End properties.

(** A store with two Data packets of the name /a, stale after the time 0. *)
Definition sample_sha256 (w : octets) : octets := z2b (zlen w) :: replicate 31 (z2b 0).
Definition sample_data (k : nat) : Data :=
  mkData [mkComponent 8 (str "a")] MetaInfo_new (Block_ofType tlv_Content) Signature_new (Some (element tlv_Data (replicate k (z2b 0)))) no_tags.
Definition sample_entry (k : nat) : CsEntry := mkCsEntry (k - 1) (sample_data k) false 0.
Definition sample_store : Cs := mkCs [sample_entry 1; sample_entry 2] 2 [0; 1]%nat 10 true true.
Definition sample_interest (name : Name) (childSelector : Z) : Interest :=
  mkInterest name (mkSelectors (-1) (-1) KeyLocator_new Exclude_new childSelector true None) true 7 4000 DelegationList_new Block_default None no_tags.

Lemma sample_store_inv : cs_inv sample_sha256 sample_store.
Proof.
  split; [|by vm_compute]. split; [split| | |done].
  - repeat constructor; eexists; by vm_compute.
  - repeat constructor; by vm_compute.
  - repeat constructor.
  - apply (bool_decide_unpack _). by vm_compute.
  - repeat constructor.
Qed.
Lemma cs_refines_lru_witness : exists c', Cs_insert sample_sha256 5 (sample_data 1) false sample_store = Ok c' /\
  recency sample_sha256 c' = [fname sample_sha256 (sample_data 2); fname sample_sha256 (sample_data 1)].
Proof.
  destruct (cs_refines_lru sample_sha256 sample_store sample_store_inv) as (_ & _ & _ & Hins & _).
  destruct (Hins 5 (sample_data 1) false) as (c' & E & _ & Hr).
  - eexists. by vm_compute.
  - repeat constructor.
  - done.
  - intros e [->|[->|[]%not_elem_of_nil]%elem_of_cons]%elem_of_cons; done.
  - exists c'. split; [exact E|]. rewrite Hr. by vm_compute.
Defined.

Lemma cs_find_best_witness : exists d c', Cs_find sample_sha256 0 (sample_interest [mkComponent 8 (str "a")] 1) sample_store = Ok (Some d, c') /\ d = sample_data 2.
Proof.
  destruct (cs_find_best sample_sha256 0 (sample_interest [mkComponent 8 (str "a")] 1) sample_store sample_store_inv) as (r & c' & E & _).
  - done.
  - repeat constructor.
  - intros e [->|[->|[]%not_elem_of_nil]%elem_of_cons]%elem_of_cons; by vm_compute.
  - repeat constructor.
  - by vm_compute.
  - intros _ g [= <-]. done.
  - vm_compute in E. injection E as <- <-. eexists _, _. split; reflexivity.
Defined.

Lemma cs_rightmost_digest_witness : exists what,
  Cs_find sample_sha256 1 (sample_interest (fname sample_sha256 (sample_data 2)) 1) sample_store = Err (UndefinedBehaviour what).
Proof.
  apply (cs_rightmost_digest sample_sha256 1 _ sample_store (sample_entry 2) (sample_entry 1) sample_store_inv); try done.
  - repeat constructor.
  - intros e [->|[->|[]%not_elem_of_nil]%elem_of_cons]%elem_of_cons; by vm_compute.
  - by repeat constructor.
  - right. left.
  - by left.
Defined.
