(* ===== verification/Algorithm.v ===== *)
(** * Algorithms of the forwarder (NFD/daemon/fw/algorithm.cpp,
    NFD/daemon/table/network-region-table.cpp, NFD/core/scope-prefix.cpp)

    Scope control, duplicate nonces, pending out-records, and the regions of the node. *)

From stdpp Require Import base gmap list sets strings.
From Stdlib Require Import ZArith Lia.
From S2P Require Import Prelude Tlv Encoder Block Codec Ndn NameTlv Selectors Data Interest FaceTable Double Hashtable NameTree Scheduler NfdTables Pit.

Local Open Scope Z_scope.

Definition LOCALHOST : Name := [mkComponent GenericNameComponent (str "localhost")].
Definition LOCALHOP : Name := [mkComponent GenericNameComponent (str "localhop")].

Definition wouldViolateScope (inFace : Face) (interest : Interest) (outFace : Face) : bool :=
  if face_local outFace then false
  else if isPrefixOf LOCALHOST (i_name interest) then true
  else if isPrefixOf LOCALHOP (i_name interest) then negb (face_local inFace)
  else false.

Definition canForwardToLegacy (now : Z) (e : pit_Entry) (face : Z) : bool :=
  let hasUnexpiredOutRecord :=
    existsb (fun r => (out_face r =? face) && (now <=? fr_expiry (or_record r))) (pit_outRecords e) in
  if hasUnexpiredOutRecord then false else
  let hasUnexpiredOtherInRecord :=
    existsb (fun r => negb (in_face r =? face) && (now <=? fr_expiry (ir_record r))) (pit_inRecords e) in
  if negb hasUnexpiredOtherInRecord then false else true.

Definition DUPLICATE_NONCE_NONE : Z := 0.
Definition DUPLICATE_NONCE_IN_SAME : Z := Z.shiftl 1 0.
Definition DUPLICATE_NONCE_IN_OTHER : Z := Z.shiftl 1 1.
Definition DUPLICATE_NONCE_OUT_SAME : Z := Z.shiftl 1 2.
Definition DUPLICATE_NONCE_OUT_OTHER : Z := Z.shiftl 1 3.

Definition findDuplicateNonce (e : pit_Entry) (nonce face : Z) : Z :=
  let dnw := foldl (fun dnw r =>
      if fr_lastNonce (ir_record r) =? nonce
      then Z.lor dnw (if in_face r =? face then DUPLICATE_NONCE_IN_SAME else DUPLICATE_NONCE_IN_OTHER)
      else dnw) DUPLICATE_NONCE_NONE (pit_inRecords e) in
  foldl (fun dnw r =>
      if fr_lastNonce (or_record r) =? nonce
      then Z.lor dnw (if out_face r =? face then DUPLICATE_NONCE_OUT_SAME else DUPLICATE_NONCE_OUT_OTHER)
      else dnw) dnw (pit_outRecords e).

Definition hasPendingOutRecords (now : Z) (e : pit_Entry) : bool :=
  existsb (fun r => (now <=? fr_expiry (or_record r)) && negb (is_some (or_incomingNack r))) (pit_outRecords e).

(** [std::max_element] with a comparison of an integer key, and the key of what it finds. *)
Definition max_key {A} (key : A -> Z) (l : list A) : option Z :=
  match l with
  | [] => None
  | x :: l => Some (foldl (fun m y => if m <? key y then key y else m) (key x) l)
  end.

Definition getLastOutgoing (e : pit_Entry) : result Z :=
  match max_key (fun r => fr_lastRenewed (or_record r)) (pit_outRecords e) with
  | Some t => Ok t
  | None => Err (AssertFailed "lastOutgoing != pitEntry.out_end()")
  end.

(** [NetworkRegionTable] is a [std::set] of names. *)
Definition isInProducerRegion (regions : list Name) (forwardingHint : DelegationList) : bool :=
  existsb (fun regionName => existsb (fun del => isPrefixOf (del_name del) regionName) (dl_dels forwardingHint)) regions.

(** ** Lemmas *)

Lemma foldl_max_spec {A} (key : A -> Z) l : forall m,
  let r := foldl (fun m y => if m <? key y then key y else m) m l in
  m <= r /\ (forall y, y ∈ l -> key y <= r) /\ (r = m \/ exists y, y ∈ l /\ key y = r).
Proof.
  induction l as [|x l IH]; intros m; cbn.
  - split; [lia|]. split; [by intros y ?%not_elem_of_nil|by left].
  - destruct (IH (if m <? key x then key x else m)) as (H1 & H2 & H3). destruct (m <? key x) eqn:E; zbool.
    + split; [lia|]. split; [intros y [->|Hy]%elem_of_cons; [lia|by apply H2]|].
      right. destruct H3 as [->|(y & Hy & Ey)]; [exists x; split; [by left|done]|exists y; split; [by right|done]].
    + split; [lia|]. split; [intros y [->|Hy]%elem_of_cons; [lia|by apply H2]|].
      destruct H3 as [->|(y & Hy & Ey)]; [by left|right; exists y; split; [by right|done]].
Qed.

Lemma max_key_spec {A} (key : A -> Z) l :
  match max_key key l with
  | None => l = []
  | Some m => (exists y, y ∈ l /\ key y = m) /\ forall y, y ∈ l -> key y <= m
  end.
Proof.
  destruct l as [|x l]; [done|]. cbn [max_key]. destruct (foldl_max_spec key l (key x)) as (H1 & H2 & H3). split.
  - destruct H3 as [E|(y & Hy & Ey)]; [exists x; split; [by left|done]|exists y; split; [by right|done]].
  - intros y [->|Hy]%elem_of_cons; [done|by apply H2].
Qed.

(** What the bits of the result say. *)
Lemma foldl_lor_testbit {A} (p : A -> bool) (b : A -> Z) (l : list A) : forall acc k, 0 <= k ->
  Z.testbit (foldl (fun d r => if p r then Z.lor d (b r) else d) acc l) k =
  Z.testbit acc k || existsb (fun r => p r && Z.testbit (b r) k) l.
Proof.
  induction l as [|x l IH]; intros acc k Hk; cbn; [by rewrite orb_false_r|]. rewrite IH by done.
  destruct (p x); cbn; [by rewrite Z.lor_spec, orb_assoc|done].
Qed.

Lemma findDuplicateNonce_bit e nonce face k : 0 <= k ->
  Z.testbit (findDuplicateNonce e nonce face) k =
  existsb (fun r => (fr_lastNonce (ir_record r) =? nonce) &&
             Z.testbit (if in_face r =? face then DUPLICATE_NONCE_IN_SAME else DUPLICATE_NONCE_IN_OTHER) k) (pit_inRecords e) ||
  existsb (fun r => (fr_lastNonce (or_record r) =? nonce) &&
             Z.testbit (if out_face r =? face then DUPLICATE_NONCE_OUT_SAME else DUPLICATE_NONCE_OUT_OTHER) k) (pit_outRecords e).
Proof.
  intros Hk. unfold findDuplicateNonce. cbv zeta.
  by rewrite (foldl_lor_testbit (fun r => fr_lastNonce (or_record r) =? nonce)
       (fun r => if out_face r =? face then DUPLICATE_NONCE_OUT_SAME else DUPLICATE_NONCE_OUT_OTHER)) by done;
  rewrite (foldl_lor_testbit (fun r => fr_lastNonce (ir_record r) =? nonce)
       (fun r => if in_face r =? face then DUPLICATE_NONCE_IN_SAME else DUPLICATE_NONCE_IN_OTHER)) by done;
  rewrite Z.bits_0.
Qed.

(** No record, no duplicate. *)
Lemma findDuplicateNonce_new e nonce face :
  pit_inRecords e = [] -> pit_outRecords e = [] -> findDuplicateNonce e nonce face = DUPLICATE_NONCE_NONE.
Proof. intros E1 E2. unfold findDuplicateNonce. by rewrite E1, E2. Qed.

Lemma findDuplicateNonce_none e nonce face :
  findDuplicateNonce e nonce face = DUPLICATE_NONCE_NONE <->
  (forall r, r ∈ pit_inRecords e -> fr_lastNonce (ir_record r) <> nonce) /\
  (forall r, r ∈ pit_outRecords e -> fr_lastNonce (or_record r) <> nonce).
Proof.
  split.
  - intros E. split; intros r Hr En.
    + set (k := if in_face r =? face then 0 else 1).
      assert (Hb : Z.testbit (findDuplicateNonce e nonce face) k = true).
      { rewrite findDuplicateNonce_bit by (unfold k; case_match; lia). apply orb_true_iff. left. apply existsb_exists. exists r.
        split; [by apply list_elem_of_In|]. rewrite En, Z.eqb_refl. unfold k. by destruct (in_face r =? face). }
      rewrite E in Hb. unfold DUPLICATE_NONCE_NONE in Hb. by rewrite Z.bits_0 in Hb.
    + set (k := if out_face r =? face then 2 else 3).
      assert (Hb : Z.testbit (findDuplicateNonce e nonce face) k = true).
      { rewrite findDuplicateNonce_bit by (unfold k; case_match; lia). apply orb_true_iff. right. apply existsb_exists. exists r.
        split; [by apply list_elem_of_In|]. rewrite En, Z.eqb_refl. unfold k. by destruct (out_face r =? face). }
      rewrite E in Hb. unfold DUPLICATE_NONCE_NONE in Hb. by rewrite Z.bits_0 in Hb.
  - intros [Hi Ho]. apply Z.bits_inj'. intros k Hk. rewrite findDuplicateNonce_bit by done. unfold DUPLICATE_NONCE_NONE. rewrite Z.bits_0.
    apply orb_false_iff. split; apply not_true_iff_false; rewrite existsb_exists; intros (r & Hr%list_elem_of_In & [Hn%Z.eqb_eq _]%andb_true_iff).
    + by apply (Hi r Hr).
    + by apply (Ho r Hr).
Qed.
