(* ===== verification/RetxSuppression.v ===== *)
(** * Suppression of retransmissions (NFD/daemon/fw/retx-suppression-exponential.cpp,
    retx-suppression-fixed.cpp, table/strategy-info-host.hpp)

    A retransmitted Interest is forwarded only if enough time has passed since it was sent
    last.  The exponential variant stores the interval on the PIT entry or out-record and
    multiplies it, in single precision, each time. *)

From stdpp Require Import base gmap list sets strings.
From Stdlib Require Import ZArith Lia Floats.SpecFloat.
From S2P Require Import Prelude Tlv Encoder Block Codec Ndn NameTlv Selectors Data Interest FaceTable Double Hashtable NameTree Scheduler NfdTables Pit Algorithm.

Local Open Scope Z_scope.

Inductive RetxSuppressionResult : Type := NEW | FORWARD | SUPPRESS.
#[export] Instance RetxSuppressionResult_eq_dec : EqDecision RetxSuppressionResult.
Proof. solve_decision. Defined.

(** ** Stored items *)

(** The stored item, or a new one; the item is changed in place through its pointer, which
    [setStrategyInfo] stands for. *)
Definition insertStrategyInfo (typeId : Z) (new : StrategyInfo) (h : StrategyInfoHost) : StrategyInfo * StrategyInfoHost :=
  match h !! typeId with
  | Some item => (item, h)
  | None => (new, <[typeId := new]> h)
  end.
Definition setStrategyInfo (typeId : Z) (item : StrategyInfo) (h : StrategyInfoHost) : StrategyInfoHost := <[typeId := item]> h.
Definition PitInfo_getTypeId : Z := 1020.

Definition pit_with_info (h : StrategyInfoHost) (e : pit_Entry) : pit_Entry :=
  mkPitEntry (pit_interest e) (pit_inRecords e) (pit_outRecords e) (pit_nonceList e) (pit_nte e) (pit_expiryTimer e) (pit_isSatisfied e)
    (pit_dataFreshnessPeriod e) h.
Definition out_with_info (h : StrategyInfoHost) (r : OutRecord) : OutRecord :=
  mkOutRecord (mkFaceRecord (fr_face (or_record r)) (fr_lastNonce (or_record r)) (fr_lastRenewed (or_record r)) (fr_expiry (or_record r)) h)
    (or_incomingNack r).

(** ** Exponential intervals

    Intervals are microseconds, time points nanoseconds. *)
Definition float_of_int (n : Z) : spec_float := binary_normalize f_prec f_emax n 0 false.

Record RetxSuppressionExponential := mkRetxExponential {
  rs_initialInterval : Z;
  rs_multiplier : spec_float;
  rs_maxInterval : Z;
}.
Definition RetxSuppressionExponential_new (initialInterval : Z) (multiplier : spec_float) (maxInterval : Z) : result RetxSuppressionExponential :=
  assert! 0 <? initialInterval orelse "initialInterval > 0_us";
  assert! SFleb (float_of_int 1) multiplier orelse "multiplier >= 1.0f";
  assert! initialInterval <=? maxInterval orelse "maxInterval >= initialInterval";
  Ok (mkRetxExponential initialInterval multiplier maxInterval).
Definition DEFAULT_MULTIPLIER : spec_float := float_of_int 2.

(** [std::min(m_maxInterval, duration_cast<Duration>(interval * m_multiplier))] *)
Definition nextInterval (r : RetxSuppressionExponential) (interval : Z) : result Z :=
  let* v := to_int64 (SFmul f_prec f_emax (float_of_int interval) (rs_multiplier r)) in
  Ok (Z.min (rs_maxInterval r) v).

Definition decidePerPitEntry (r : RetxSuppressionExponential) (now : Z) (e : pit_Entry) : result (RetxSuppressionResult * pit_Entry) :=
  let isNewPitEntry := negb (hasPendingOutRecords now e) in
  if isNewPitEntry then Ok (NEW, e) else
  let* lastOutgoing := getLastOutgoing e in
  let sinceLastOutgoing := now - lastOutgoing in
  let '(PitInfo interval, h) := insertStrategyInfo PitInfo_getTypeId (PitInfo (rs_initialInterval r)) (pit_info e) in
  if sinceLastOutgoing <? interval * 1000 then Ok (SUPPRESS, pit_with_info h e) else
  let* interval := nextInterval r interval in
  Ok (FORWARD, pit_with_info (setStrategyInfo PitInfo_getTypeId (PitInfo interval) h) e).

Definition update_out (face : Z) (f : OutRecord -> OutRecord) (e : pit_Entry) : pit_Entry :=
  with_outRecords (update_first (fun r => out_face r =? face) f (pit_outRecords e)) e.

Definition decidePerUpstream (r : RetxSuppressionExponential) (now face : Z) (e : pit_Entry) : RetxSuppressionResult * pit_Entry :=
  match getOutRecord face e with
  | None => (NEW, e)
  | Some outRecord =>
    let sinceLastOutgoing := now - fr_lastRenewed (or_record outRecord) in
    let '(PitInfo interval, h) := insertStrategyInfo PitInfo_getTypeId (PitInfo (rs_initialInterval r)) (fr_info (or_record outRecord)) in
    (if sinceLastOutgoing <? interval * 1000 then SUPPRESS else FORWARD, update_out face (out_with_info h) e)
  end.

Definition incrementIntervalForOutRecord (r : RetxSuppressionExponential) (outRecord : OutRecord) : result OutRecord :=
  let '(PitInfo interval, h) := insertStrategyInfo PitInfo_getTypeId (PitInfo (rs_initialInterval r)) (fr_info (or_record outRecord)) in
  let* interval := nextInterval r interval in
  Ok (out_with_info (setStrategyInfo PitInfo_getTypeId (PitInfo interval) h) outRecord).

(** ** A fixed interval *)
Definition RetxSuppressionFixed_new (minRetxInterval : Z) : result Z :=
  assert! 0 <? minRetxInterval orelse "minRetxInterval > 0_ms"; Ok minRetxInterval.
Definition fixed_decidePerPitEntry (minRetxInterval now : Z) (e : pit_Entry) : result RetxSuppressionResult :=
  let isNewPitEntry := negb (hasPendingOutRecords now e) in
  if isNewPitEntry then Ok NEW else
  let* lastOutgoing := getLastOutgoing e in
  Ok (if now - lastOutgoing <? minRetxInterval * 1000000 then SUPPRESS else FORWARD).

(** ** What the strategies use

    The best-route and multicast strategies start at 10 ms and stop at 250 ms.  The
    intervals that are ever stored are few, so that the product in single precision can be
    evaluated for each. *)
Definition RETX_SUPPRESSION_INITIAL : Z := 10.
Definition RETX_SUPPRESSION_MAX : Z := 250.
Definition strategyRetx : RetxSuppressionExponential :=
  mkRetxExponential (RETX_SUPPRESSION_INITIAL * 1000) DEFAULT_MULTIPLIER (RETX_SUPPRESSION_MAX * 1000).
Definition retx_intervals : list Z := [10000; 20000; 40000; 80000; 160000; 250000].

Lemma strategyRetx_new :
  RetxSuppressionExponential_new (RETX_SUPPRESSION_INITIAL * 1000) DEFAULT_MULTIPLIER (RETX_SUPPRESSION_MAX * 1000) = Ok strategyRetx.
Proof. by vm_compute. Qed.

Lemma nextInterval_ok v : v ∈ retx_intervals -> nextInterval strategyRetx v = Ok (Z.min 250000 (2 * v)) /\ Z.min 250000 (2 * v) ∈ retx_intervals.
Proof.
  intros Hv. assert (Ht : forallb (fun v => match nextInterval strategyRetx v with Ok w => (w =? Z.min 250000 (2 * v)) && bool_decide (w ∈ retx_intervals) | Err _ => false end)
    retx_intervals = true) by (by vm_compute).
  rewrite forallb_forall in Ht. specialize (Ht v (proj1 (list_elem_of_In _ _) Hv)). cbv beta in Ht. destruct (nextInterval strategyRetx v) as [w|]; [|done].
  apply andb_prop in Ht as [Ew Hw]. zbool. apply bool_decide_eq_true in Hw. by subst w.
Qed.
Lemma retx_intervals_range v : v ∈ retx_intervals -> 10000 <= v <= 250000.
Proof.
  intros Hv. assert (Ht : forallb (fun v => (10000 <=? v) && (v <=? 250000)) retx_intervals = true) by (by vm_compute).
  rewrite forallb_forall in Ht. specialize (Ht v (proj1 (list_elem_of_In _ _) Hv)). cbv beta in Ht. apply andb_prop in Ht as [? ?]. zbool. lia.
Qed.

(** The interval in force: the stored one, or the initial one. *)
Definition interval_of (h : StrategyInfoHost) : Z :=
  match h !! PitInfo_getTypeId with Some (PitInfo v) => v | None => rs_initialInterval strategyRetx end.
Definition info_ok (h : StrategyInfoHost) : Prop := interval_of h ∈ retx_intervals.

Lemma info_ok_empty : info_ok ∅.
Proof. left. Qed.
Lemma interval_of_set v h : interval_of (setStrategyInfo PitInfo_getTypeId (PitInfo v) h) = v.
Proof. unfold interval_of, setStrategyInfo. unfold StrategyInfoHost in *; by rewrite lookup_insert_eq. Qed.
Lemma insertStrategyInfo_ok h : exists h', insertStrategyInfo PitInfo_getTypeId (PitInfo (rs_initialInterval strategyRetx)) h = (PitInfo (interval_of h), h') /\
  interval_of h' = interval_of h.
Proof.
  unfold insertStrategyInfo, interval_of. destruct (h !! PitInfo_getTypeId) as [[v]|] eqn:E.
  - exists h. by rewrite E.
  - eexists. split; [done|]. unfold StrategyInfoHost in *; by rewrite lookup_insert_eq.
Qed.

(** The decision for a PIT entry: new if nothing is pending; otherwise suppressed within
    the interval since the last transmission, else the interval doubles up to its
    maximum. *)
Lemma decidePerPitEntry_ok now e : info_ok (pit_info e) ->
  exists res h, decidePerPitEntry strategyRetx now e = Ok (res, pit_with_info h e) /\ info_ok h /\
    match res with
    | NEW => hasPendingOutRecords now e = false /\ h = pit_info e
    | SUPPRESS => hasPendingOutRecords now e = true /\ interval_of h = interval_of (pit_info e) /\
        exists r, r ∈ pit_outRecords e /\ now - fr_lastRenewed (or_record r) < interval_of (pit_info e) * 1000
    | FORWARD => hasPendingOutRecords now e = true /\ interval_of h = Z.min 250000 (2 * interval_of (pit_info e)) /\
        forall r, r ∈ pit_outRecords e -> interval_of (pit_info e) * 1000 <= now - fr_lastRenewed (or_record r)
    end.
Proof.
  intros Hi. unfold decidePerPitEntry. destruct (hasPendingOutRecords now e) eqn:Ep; cbn [negb].
  2:{ exists NEW, (pit_info e). split; [by destruct e|]. done. }
  unfold getLastOutgoing. pose proof (max_key_spec (fun r => fr_lastRenewed (or_record r)) (pit_outRecords e)) as Hm.
  destruct (max_key _ _) as [t|]; cbn [mbind result_bind].
  2:{ unfold hasPendingOutRecords in Ep. by rewrite Hm in Ep. }
  destruct Hm as [(r & Hr & <-) Hmax]. destruct (insertStrategyInfo_ok (pit_info e)) as (h & -> & Eh).
  destruct (_ <? _) eqn:Et; zbool.
  - exists SUPPRESS, h. split; [done|]. split; [unfold info_ok; by rewrite Eh|]. split; [done|]. split; [done|]. by exists r.
  - destruct (nextInterval_ok _ Hi) as [-> Hn]. cbn [mbind result_bind]. eexists FORWARD, _. split; [reflexivity|].
    unfold info_ok. rewrite interval_of_set. split; [exact Hn|]. split; [done|]. split; [done|]. intros r' Hr'. specialize (Hmax r' Hr'). cbn in Hmax. lia.
Qed.

(** ** Out-records that are changed in place *)
Lemma elem_of_update_first {A} (p : A -> bool) (f : A -> A) l x : x ∈ update_first p f l -> x ∈ l \/ exists y, y ∈ l /\ p y = true /\ x = f y.
Proof.
  induction l as [|y l IH]; cbn; [by left|]. destruct (p y) eqn:Ep; rewrite !elem_of_cons.
  - intros [->|Hx]; [|by auto]. right. exists y. by rewrite elem_of_cons; auto.
  - intros [->|Hx]; [by auto|]. destruct (IH Hx) as [?|(z & Hz & Ez)]; [by auto|]. right. exists z. by rewrite elem_of_cons; auto.
Qed.
Lemma update_out_records face f e : (forall r, out_face r = face -> out_face (f r) = face) -> records_ok e -> records_ok (update_out face f e).
Proof.
  intros Hf [Hin Hout Hint Hnon]. split; [done| |done|done]. cbn.
  assert (out_face <$> update_first (fun r => out_face r =? face) f (pit_outRecords e) = out_face <$> pit_outRecords e) as ->; [|done].
  clear -Hf. induction (pit_outRecords e) as [|r l IH]; [done|]. cbn. destruct (out_face r =? face) eqn:E; zbool; cbn; [by rewrite (Hf r E), E|by rewrite IH].
Qed.
Lemma update_out_lookup face f e k : (forall r, out_face r = face -> out_face (f r) = face) ->
  out_map (update_out face f e) !! k = if k =? face then f <$> out_map e !! k else out_map e !! k.
Proof.
  intros Hf. unfold out_map. rewrite <-!(rec_find out_face). cbn [pit_outRecords update_out with_outRecords].
  induction (pit_outRecords e) as [|r l IH]; cbn [update_first find_first]; [by destruct (k =? face)|].
  destruct (out_face r =? face) eqn:Er; zbool; cbn [find_first].
  - rewrite (Hf r Er), Er, (Z.eqb_sym face k). by destruct (k =? face) eqn:Ek; zbool.
  - destruct (out_face r =? k) eqn:Ek; zbool; [|done]. subst k. by rewrite (proj2 (Z.eqb_neq _ _) Er).
Qed.

Definition outs_ok (e : pit_Entry) : Prop := forall r, r ∈ pit_outRecords e -> info_ok (fr_info (or_record r)).

Lemma update_out_info face f e : (forall r, r ∈ pit_outRecords e -> info_ok (fr_info (or_record r)) -> info_ok (fr_info (or_record (f r)))) ->
  outs_ok e -> outs_ok (update_out face f e).
Proof. intros Hf Ho r [Hr|(r0 & Hr & _ & ->)]%elem_of_update_first; [by apply Ho|]. by apply Hf, Ho. Qed.

(** The decision for one upstream: new without an out-record; it is suppressed within the
    interval since the last transmission there.  The interval does not change. *)
Lemma decidePerUpstream_ok now face e : records_ok e -> outs_ok e ->
  exists res f, decidePerUpstream strategyRetx now face e = (res, update_out face f e) /\
    (forall r, or_record (f r) = mkFaceRecord (fr_face (or_record r)) (fr_lastNonce (or_record r)) (fr_lastRenewed (or_record r)) (fr_expiry (or_record r)) (fr_info (or_record (f r))) /\
       or_incomingNack (f r) = or_incomingNack r) /\ outs_ok (update_out face f e) /\
    (forall r, out_map e !! face = Some r -> interval_of (fr_info (or_record (f r))) = interval_of (fr_info (or_record r))) /\
    match res with
    | NEW => out_map e !! face = None
    | SUPPRESS => exists r, out_map e !! face = Some r /\ now - fr_lastRenewed (or_record r) < interval_of (fr_info (or_record r)) * 1000
    | FORWARD => exists r, out_map e !! face = Some r /\ interval_of (fr_info (or_record r)) * 1000 <= now - fr_lastRenewed (or_record r)
    end.
Proof.
  intros Hr Ho. unfold decidePerUpstream, getOutRecord. rewrite (rec_find out_face). fold (out_map e). destruct (out_map e !! face) as [r|] eqn:Er.
  - pose proof (proj1 (proj1 (out_map_lookup e face r Hr) Er)) as Hin. destruct (insertStrategyInfo_ok (fr_info (or_record r))) as (h & -> & Eh).
    assert (Ho' : outs_ok (update_out face (out_with_info h) e)).
    { apply update_out_info; [|done]. intros r0 _ _. unfold info_ok. cbn. rewrite Eh. by apply Ho. }
    destruct (_ <? _) eqn:Et; zbool; eexists _, (out_with_info h); (split; [reflexivity|]); (split; [done|]); (split; [exact Ho'|]); (split; [intros r0 [= <-]; exact Eh|]); by exists r.
  - exists NEW, id. assert (Eid : update_out face id e = e).
    { unfold update_out. assert (update_first (fun r => out_face r =? face) id (pit_outRecords e) = pit_outRecords e) as ->; [|by destruct e].
      clear. induction (pit_outRecords e) as [|r l IH]; [done|]. cbn. destruct (_ =? _); [done|by rewrite IH]. }
    rewrite Eid. split; [done|]. split; [by intros [[] ?]|]. split; [done|]. split; [|done]. by intros r Hr'.
Qed.

Lemma incrementInterval_ok r : info_ok (fr_info (or_record r)) ->
  exists h, incrementIntervalForOutRecord strategyRetx r = Ok (out_with_info h r) /\ info_ok h /\
    interval_of h = Z.min 250000 (2 * interval_of (fr_info (or_record r))).
Proof.
  intros Hi. unfold incrementIntervalForOutRecord. destruct (insertStrategyInfo_ok (fr_info (or_record r))) as (h & -> & Eh).
  destruct (nextInterval_ok _ Hi) as [-> Hn]. cbn [mbind result_bind]. eexists. split; [reflexivity|]. unfold info_ok. by rewrite interval_of_set.
Qed.
