(* ===== verification/Measurements.v ===== *)
(** * The measurements table (NFD/daemon/table/measurements.cpp, measurements-entry.hpp)

    Entries on which strategies store what they have measured about a prefix.  An entry is
    made on demand, expires after its lifetime unless that is extended, and is then
    dropped by its timer.

    The property: the table is a map from names whose entries have exactly one pending
    timer each, at the expiry of the entry. *)

From stdpp Require Import base gmap list sets strings.
From Stdlib Require Import ZArith Lia.
From S2P Require Import Prelude Tlv Encoder Block Codec Ndn NameTlv Selectors Data Interest Double Hashtable NameTree Scheduler NfdTables Pit.

Local Open Scope Z_scope.

Definition getInitialLifetime : Z := 4000000000.

Section operations.
Context `{HashFunction}.
Implicit Types (s : NfdTables) (x : nat).

Definition measurements_at x s : result (option measurements_Entry) :=
  let* n := deref x (t_nameTree s) in Ok (tb_measurements (nd_tables n)).

(** [Measurements::get(name_tree::Entry&)] *)
Definition measurements_get_nte (now : Z) x s : result NfdTables :=
  let* n := deref x (t_nameTree s) in
  match tb_measurements (nd_tables n) with
  | Some _ => Ok s
  | None =>
    let '(id, q) := schedule now getInitialLifetime (MeasurementsCleanup x) (t_timers s) in
    let* h := nt_update x (setMeasurementsEntry (Some (mkMeasurementsEntry (nd_name n) (now + getInitialLifetime) (Some id) ∅)))
                (t_nameTree s) in
    Ok (with_measurements (u64 (measurements_nItems s + 1)) q (with_nameTree h s))
  end.

(** [Measurements::get(const Name&)]; the entry is named by its name tree entry. *)
Definition measurements_get (now : Z) (name : Name) s : result (nat * NfdTables) :=
  let* (x, h) := nt_lookup name (length name `min` getMaxDepth) (t_nameTree s) in
  let* s := measurements_get_nte now x (with_nameTree h s) in
  Ok (x, s).

(** [NameTree::lookup(const fib::Entry&)]; [None] is [s_emptyEntry]. *)
Definition nt_lookup_fib (entry : option nat) (h : Hashtable Tables) : result (nat * Hashtable Tables) :=
  match entry with
  | Some x => Ok (x, h)
  | None => nt_lookup [] 0 h
  end.
(** [NameTree::lookup(const pit::Entry&)] *)
Definition nt_lookup_pit (loc : nat) s : result (nat * Hashtable Tables) :=
  let* e := pit_deref loc s in
  let name := i_name (pit_interest e) in
  let hasDigest := match last name with Some c => isImplicitSha256Digest c | None => false end in
  if hasDigest && (length name <=? getMaxDepth)%nat then nt_lookup name (length name) (t_nameTree s) else
  match pit_nte e with
  | None => Err (AssertFailed "nte != nullptr")
  | Some x =>
    let* n := deref x (t_nameTree s) in
    assert! (length (List.filter (Nat.eqb loc) (tb_pit (nd_tables n))) =? 1)%nat
      orelse "std::count_if(...) == 1";
    Ok (x, t_nameTree s)
  end.
Definition measurements_get_fib (now : Z) (entry : option nat) s : result (nat * NfdTables) :=
  let* (x, h) := nt_lookup_fib entry (t_nameTree s) in
  let* s := measurements_get_nte now x (with_nameTree h s) in Ok (x, s).
Definition measurements_get_pit (now : Z) (loc : nat) s : result (nat * NfdTables) :=
  let* (x, h) := nt_lookup_pit loc s in
  let* s := measurements_get_nte now x (with_nameTree h s) in Ok (x, s).

(** The entry of the parent; [None] for the root. *)
Definition measurements_getParent (now : Z) (child : nat) s : result (option nat * NfdTables) :=
  let* n := deref child (t_nameTree s) in
  if bool_decide (nd_name n = []) then Ok (None, s) else
  match nd_parent n with
  | None => Err (AssertFailed "nte != nullptr")
  | Some p => let* s := measurements_get_nte now p s in Ok (Some p, s)
  end.

Definition measurements_sel (pred : measurements_Entry -> bool) (n : Node Tables) : bool :=
  match tb_measurements (nd_tables n) with Some e => pred e | None => false end.
Definition measurements_findLongestPrefixMatch (name : Name) (pred : measurements_Entry -> bool) s : result (option nat) :=
  findLongestPrefixMatch (getPrefix (Z.of_nat getMaxDepth) name) (measurements_sel pred) (t_nameTree s).

Definition measurements_findExactMatch (name : Name) s : result (option nat) :=
  let* r := findExactMatch name (length name) (t_nameTree s) in
  match r with
  | None => Ok None
  | Some x => let* e := measurements_at x s in Ok (if is_some e then Some x else None)
  end.

Definition extendLifetime (now : Z) x (lifetime : Z) s : result NfdTables :=
  let* e := measurements_at x s in
  match e with
  | None => Err (UndefinedBehaviour "no measurements entry")
  | Some e =>
    let expiry := now + lifetime in
    if expiry <=? me_expiry e then Ok s else
    let q := cancel (me_cleanup e) (t_timers s) in
    let '(id, q) := schedule now lifetime (MeasurementsCleanup x) q in
    let* h := nt_update x (setMeasurementsEntry (Some (mkMeasurementsEntry (me_name e) expiry (Some id) (me_info e)))) (t_nameTree s) in
    Ok (with_measurements (measurements_nItems s) q (with_nameTree h s))
  end.

(** [Measurements::cleanup], by the timer of the entry *)
Definition measurements_cleanup x s : result NfdTables :=
  let* e := measurements_at x s in
  match e with
  | None => Err (AssertFailed "nte != nullptr")
  | Some _ =>
    let* h := nt_update x (setMeasurementsEntry None) (t_nameTree s) in
    let* r := nt_eraseIfEmpty x true h in
    Ok (with_measurements (u64 (measurements_nItems s - 1)) (t_timers s) (with_nameTree r.2 s))
  end.
End operations.
