(* ===== verification/StrategyChoice.v ===== *)
(** * Strategy choice (NFD/daemon/table/strategy-choice.cpp, fw/strategy.cpp)

    The registry of strategies, which finds a strategy type for a name that may lack a
    version, and the strategy choice table on the name tree: the strategy of a name is that
    of the longest prefix with an entry.  A change of the strategy of a prefix clears what
    strategies have stored on the PIT and measurements entries that it governs.

    A strategy is named by its instance name.  The registry maps names to constructors,
    which give the instance name or throw.  The iterator of a partial enumeration reads the
    shape of the name tree and the strategy choice entries, which clearing does not change,
    so that the entries are enumerated before they are cleared. *)

From stdpp Require Import base gmap list sets strings.
From Stdlib Require Import ZArith Lia.
From S2P Require Import Prelude Tlv Encoder Block Codec Ndn NameTlv NameSuccessor Selectors Data Interest Double Hashtable NameTree NameTreeWalk Scheduler NfdTables Fib Pit.

Local Open Scope Z_scope.

(** ** The registry *)

(** [ParsedInstanceName] *)
Record ParsedInstanceName := mkParsed {
  pi_strategyName : Name;
  pi_version : option Z;
  pi_parameters : Name;
}.

(** The loop from the last component down to the second. *)
Fixpoint parse_loop (input : Name) (i : nat) : result ParsedInstanceName :=
  match i with
  | O => Ok (mkParsed input None [])
  | S i' =>
    let* c := name_at (Z.of_nat i) input in
    if isVersion c then
      let* v := toVersion c in
      Ok (mkParsed (getPrefix (Z.of_nat i + 1) input) (Some v) (getSubName (Z.of_nat i + 1) npos input))
    else parse_loop input i'
  end.
Definition parseInstanceName (input : Name) : result ParsedInstanceName := parse_loop input (length input - 1).

Definition makeInstanceName (input strategyName : Name) : result Name :=
  let* v := name_at (-1) strategyName in
  assert! isVersion v orelse "strategyName.at(-1).isVersion()";
  Ok (if existsb isVersion input then input else input ++ [v]).

(** The constructors of strategies that take no parameters. *)
Definition strategy_ctor (strategyName name : Name) : result Name :=
  let* parsed := parseInstanceName name in
  if negb (bool_decide (pi_parameters parsed = [])) then Err (InvalidArgument "does not accept parameters") else
  let* v := name_at (-1) strategyName in
  let* version := toVersion v in
  if match pi_version parsed with Some v => negb (v =? version) | None => false end
  then Err (InvalidArgument "does not support version")
  else makeInstanceName name strategyName.

(** [Strategy::Registry], sorted by name. *)
Definition Registry : Type := list (Name * (Name -> result Name)).

(** [std::map::lower_bound]: the position of the first entry not less than the key. *)
Fixpoint reg_lower_bound (key : Name) (r : Registry) : nat :=
  match r with
  | [] => 0
  | (name, _) :: r => if name_ltb name key then S (reg_lower_bound key r) else 0
  end.

(** [Strategy::find]: the position in the registry. *)
Definition strategy_find (r : Registry) (instanceName : Name) : result (option nat) :=
  let* parsed := parseInstanceName instanceName in
  let name := pi_strategyName parsed in
  match pi_version parsed with
  | Some _ =>
    let found := reg_lower_bound name r in
    Ok (match r !! found with
        | Some (k, _) => if isPrefixOf (getPrefix (-1) name) k then Some found else None
        | None => None
        end)
  | None =>
    if bool_decide (name = []) then Ok None else
    let* s := Name_getSuccessor name in
    match reg_lower_bound s r with
    | O => Ok None
    | S found =>
      Ok (match r !! found with
          | Some (k, _) => if isPrefixOf name k then Some found else None
          | None => None
          end)
    end
  end.

(** The instance name of the new strategy; [None] is [nullptr]. *)
Definition strategy_create (r : Registry) (instanceName : Name) : result (option Name) :=
  let* found := strategy_find r instanceName in
  match found with
  | None => Ok None
  | Some i =>
    match r !! i with
    | None => Err (UndefinedBehaviour "dereference of the end")
    | Some (_, ctor) =>
      let* instance := ctor instanceName in
      assert! negb (bool_decide (instance = [])) orelse "!instance->getInstanceName().empty()";
      Ok (Some instance)
    end
  end.

Definition areSameType (r : Registry) (a b : Name) : result bool :=
  let* x := strategy_find r a in
  let* y := strategy_find r b in
  Ok (bool_decide (x = y)).

(** The names of strategies, under /localhost/nfd/strategy. *)
Definition strategy_prefix : Name := mkComponent GenericNameComponent <$> [str "localhost"; str "nfd"; str "strategy"].
Definition strategy_name (name : string) (version : Z) : Name :=
  strategy_prefix ++ [mkComponent GenericNameComponent (str name); mkComponent GenericNameComponent [z2b VERSION_MARKER; z2b version]].
Definition BestRouteStrategy2_getStrategyName : Name := strategy_name "best-route" 5.

(** ** The table *)
Section table.
Context `{HashFunction}.
Implicit Types (t : NfdTables) (x loc : nat).

Definition nteHasStrategyChoiceEntry (n : Node Tables) : bool := is_some (tb_strategyChoice (nd_tables n)).

(** [findEffectiveStrategy] *)
Definition strategy_at (nte : option nat) t : result Name :=
  match nte with
  | None => Err (AssertFailed "nte != nullptr")
  | Some x =>
    let* n := deref x (t_nameTree t) in
    match tb_strategyChoice (nd_tables n) with
    | Some e => Ok (sc_strategy e)
    | None => Err (UndefinedBehaviour "no strategy choice entry")
    end
  end.
Definition findEffectiveStrategy_pit (e : pit_Entry) t : result Name :=
  match pit_nte e with
  | Some nte =>
    let* r := findLongestPrefixMatch_pit (i_name (pit_interest e)) nte nteHasStrategyChoiceEntry (t_nameTree t) in strategy_at r t
  | None => Err (AssertFailed "nte != nullptr")
  end.
Definition findEffectiveStrategy (prefix : Name) t : result Name :=
  let* r := findLongestPrefixMatch prefix nteHasStrategyChoiceEntry (t_nameTree t) in strategy_at r t.
Definition findEffectiveStrategy_measurements x t : result Name :=
  let* r := findLongestPrefixMatch_entry x nteHasStrategyChoiceEntry (t_nameTree t) in strategy_at r t.

(** *** Clearing *)
Definition clear_record (r : FaceRecord) : FaceRecord :=
  mkFaceRecord (fr_face r) (fr_lastNonce r) (fr_lastRenewed r) (fr_expiry r) (clearStrategyInfo (fr_info r)).
Definition clear_pit_entry (e : pit_Entry) : pit_Entry :=
  mkPitEntry (pit_interest e)
    ((fun r => mkInRecord (clear_record (ir_record r)) (ir_interest r)) <$> pit_inRecords e)
    ((fun r => mkOutRecord (clear_record (or_record r)) (or_incomingNack r)) <$> pit_outRecords e)
    (pit_nonceList e) (pit_nte e) (pit_expiryTimer e) (pit_isSatisfied e) (pit_dataFreshnessPeriod e) (clearStrategyInfo (pit_info e)).
Definition clear_measurements (m : measurements_Entry) : measurements_Entry :=
  mkMeasurementsEntry (me_name m) (me_expiry m) (me_cleanup m) (clearStrategyInfo (me_info m)).

Fixpoint clear_pit_entries (locs : list nat) t : result NfdTables :=
  match locs with
  | [] => Ok t
  | loc :: locs => let* t := pit_modify loc (fun e => Ok (clear_pit_entry e)) t in clear_pit_entries locs t
  end.
Definition nte_clearStrategyInfo x t : result NfdTables :=
  let* n := deref x (t_nameTree t) in
  let* t := clear_pit_entries (tb_pit (nd_tables n)) t in
  match tb_measurements (nd_tables n) with
  | Some m =>
    let* h := nt_update x (setMeasurementsEntry (Some (clear_measurements m))) (t_nameTree t) in Ok (with_nameTree h t)
  | None => Ok t
  end.
Fixpoint clear_all (xs : list nat) t : result NfdTables :=
  match xs with
  | [] => Ok t
  | x :: xs => let* t := nte_clearStrategyInfo x t in clear_all xs t
  end.

Definition changed_sel (root : nat) (x : nat) (n : Node Tables) : bool * bool :=
  if (x =? root)%nat then (true, true) else
  if nteHasStrategyChoiceEntry n then (false, false) else (true, true).
Definition changeStrategy (r : Registry) (root : nat) (prefix oldName newName : Name) t : result NfdTables :=
  let* same := areSameType r oldName newName in
  if same : bool then Ok t else
  let* xs := partialEnumerate (changed_sel root) prefix (t_nameTree t) in
  clear_all xs t.

(** *** Operations *)
Definition set_choice x (e : option strategy_choice_Entry) t : result NfdTables :=
  let* h := nt_update x (setStrategyChoiceEntry e) (t_nameTree t) in Ok (with_nameTree h t).

Definition setDefaultStrategy (r : Registry) (strategyName : Name) t : result NfdTables :=
  let* created := strategy_create r strategyName in
  match created with
  | None => Err (UndefinedBehaviour "null strategy")
  | Some instance =>
    let* (x, h) := nt_lookup [] 0 (t_nameTree t) in
    let* t := set_choice x (Some (mkStrategyChoiceEntry [] instance)) (with_nameTree h t) in
    Ok (with_strategyChoice_nItems (u64 (strategyChoice_nItems t + 1)) t)
  end.

Inductive InsertResult : Type := SC_OK | NOT_REGISTERED | EXCEPTION | DEPTH_EXCEEDED.

(** A new entry has no strategy while [changeStrategy] runs, which does not ask for it. *)
Definition sc_insert (r : Registry) (prefix strategyName : Name) t : result (InsertResult * NfdTables) :=
  if (getMaxDepth <? length prefix)%nat then Ok (DEPTH_EXCEEDED, t) else
  match strategy_create r strategyName with
  | Err (InvalidArgument _) => Ok (EXCEPTION, t)
  | Err e => Err e
  | Ok None => Ok (NOT_REGISTERED, t)
  | Ok (Some instance) =>
    let* (x, h) := nt_lookup prefix (length prefix) (t_nameTree t) in
    let t := with_nameTree h t in
    let* n := deref x (t_nameTree t) in
    match tb_strategyChoice (nd_tables n) with
    | Some entry =>
      if name_equals (sc_strategy entry) instance then Ok (SC_OK, t) else
      let* t := changeStrategy r x prefix (sc_strategy entry) instance t in
      let* t := set_choice x (Some (mkStrategyChoiceEntry (sc_prefix entry) instance)) t in
      Ok (SC_OK, t)
    | None =>
      let* old := findEffectiveStrategy prefix t in
      let* t := set_choice x (Some (mkStrategyChoiceEntry prefix instance)) t in
      let t := with_strategyChoice_nItems (u64 (strategyChoice_nItems t + 1)) t in
      let* t := changeStrategy r x prefix old instance t in
      Ok (SC_OK, t)
    end
  end.

Definition sc_erase (r : Registry) (prefix : Name) t : result NfdTables :=
  assert! name_size prefix >? 0 orelse "prefix.size() > 0";
  let* nte := findExactMatch prefix (length prefix) (t_nameTree t) in
  match nte with
  | None => Ok t
  | Some x =>
    let* n := deref x (t_nameTree t) in
    match tb_strategyChoice (nd_tables n) with
    | None => Ok t
    | Some entry =>
      let* parent := findEffectiveStrategy (getPrefix (-1) prefix) t in
      let* t := changeStrategy r x prefix (sc_strategy entry) parent t in
      let* t := set_choice x None t in
      let* (_, h) := nt_eraseIfEmpty x true (t_nameTree t) in
      let t := with_nameTree h t in
      Ok (with_strategyChoice_nItems (u64 (strategyChoice_nItems t - 1)) t)
    end
  end.

Definition sc_get (prefix : Name) t : result (bool * Name) :=
  let* nte := findExactMatch prefix (length prefix) (t_nameTree t) in
  match nte with
  | None => Ok (false, [])
  | Some x =>
    let* n := deref x (t_nameTree t) in
    match tb_strategyChoice (nd_tables n) with
    | None => Ok (false, [])
    | Some entry => Ok (true, sc_strategy entry)
    end
  end.
End table.
