(* ===== verification/Forwarder.v ===== *)
(** * The forwarder (NFD/daemon/fw/forwarder.cpp, strategy.cpp, strategy.hpp,
    broadcast-strategy.cpp, face/face.hpp, model/val/face/val-dummy-link-service.cpp)

    Every pipeline of NFD with the hooks of VAL, the actions of strategies, the strategies
    as records of triggers, and the broadcast strategy, which sends Interests to an
    application or to one geoface and Data to the waiting faces.  Strategies call the
    outgoing pipelines, the incoming pipelines call the strategies, so that the
    definitions are layered the same way.

    Faces are named by their identifier and found in the face table; a reference to a face
    that is not there is dangling.  The Interest that a pipeline processes is shared with
    the PIT entry that it made and with its in-record; where the code changes it in place,
    so do they.  The tags that are set on a Data packet on its way are returned by the
    triggers.  The order of a [std::set] of faces is that of their addresses, an argument.
    The content store is an interface.  What is sent, and the signals that tracers
    observe, are outputs in the order of the calls; nothing that is sent re-enters the
    forwarder before the pipeline has returned (sending to VAL only schedules, and
    applications are called by the simulator later). *)

From stdpp Require Import base gmap list sets strings.
From Stdlib Require Import ZArith Lia.
From S2P Require Import Prelude Tlv Encoder Block Codec Ndn NameTlv Selectors Data Interest LpPacket FaceTable Double Hashtable NameTree Scheduler NfdTables Fib Pit Cleanup DeadNonceList Algorithm Measurements StrategyChoice.

Local Open Scope Z_scope.

(** ** State *)

Inductive fw_counter : Type :=
  | nInInterests | nOutInterests | nInData | nOutData | nInNacks | nOutNacks
  | nSatisfiedInterests | nUnsatisfiedInterests | nCsHits | nCsMisses.
#[export] Instance fw_counter_eq_dec : EqDecision fw_counter.
Proof. solve_decision. Defined.

(** What leaves the forwarder: packets sent on faces, packets handed to VAL through a
    geoface, and signals. *)
Inductive fw_output : Type :=
  | SendInterest (face : Z) (interest : Interest)
  | SendData (face : Z) (data : Data)
  | SendNack (face : Z) (interest : Interest) (reason : Z)
  | InterestToVal (face : Z) (interest : Interest)
  | DataToVal (face : Z) (data : Data) (nonceList : option (list Z)) (isProducer : bool)
  | BeforeSatisfyInterest (entry : nat) (face : Z) (data : Data)
  | BeforeExpirePendingInterest (entry : nat).

(** The content store: NFD's or that of ndnSIM.  Looking up
    may reorder what is stored; the time is an argument. *)
Class ContentStore (C : Type) := {
  cs_find : Z -> Interest -> C -> result (option Data * C);
  cs_insert : Z -> Data -> bool -> C -> result C;
}.

(** The addresses of the [Face] objects, by identifier. *)
Class FaceAddresses := face_address : Z -> Z.

Record Forwarder (C : Type) := mkForwarder {
  fw_tables : NfdTables;
  fw_faceTable : FaceTable;
  fw_deadNonceList : DeadNonceList;
  fw_networkRegionTable : list Name;
  fw_cs : C;
  fw_counters : fw_counter -> Z;
  fw_out : list fw_output;
}.
Arguments mkForwarder {C} _ _ _ _ _ _ _.
Arguments fw_tables {C} _.
Arguments fw_faceTable {C} _.
Arguments fw_deadNonceList {C} _.
Arguments fw_networkRegionTable {C} _.
Arguments fw_cs {C} _.
Arguments fw_counters {C} _ _.
Arguments fw_out {C} _.

Section state.
Context {C : Type}.
Implicit Types (s : Forwarder C).

Definition with_tables (t : NfdTables) s : Forwarder C :=
  mkForwarder t (fw_faceTable s) (fw_deadNonceList s) (fw_networkRegionTable s) (fw_cs s) (fw_counters s) (fw_out s).
Definition with_dnl (d : DeadNonceList) s : Forwarder C :=
  mkForwarder (fw_tables s) (fw_faceTable s) d (fw_networkRegionTable s) (fw_cs s) (fw_counters s) (fw_out s).
Definition with_cs (c : C) s : Forwarder C :=
  mkForwarder (fw_tables s) (fw_faceTable s) (fw_deadNonceList s) (fw_networkRegionTable s) c (fw_counters s) (fw_out s).
Definition emit (x : fw_output) s : Forwarder C :=
  mkForwarder (fw_tables s) (fw_faceTable s) (fw_deadNonceList s) (fw_networkRegionTable s) (fw_cs s) (fw_counters s) (fw_out s ++ [x]).
(** [++m_counters.c], a 64-bit counter *)
Definition count (c : fw_counter) s : Forwarder C :=
  mkForwarder (fw_tables s) (fw_faceTable s) (fw_deadNonceList s) (fw_networkRegionTable s) (fw_cs s)
    (fun c' => if decide (c' = c) then u64 (fw_counters s c + 1) else fw_counters s c') (fw_out s).
Definition on_faceTable (t : FaceTable) s : Forwarder C :=
  mkForwarder (fw_tables s) t (fw_deadNonceList s) (fw_networkRegionTable s) (fw_cs s) (fw_counters s) (fw_out s).

(** The face that a pointer designates. *)
Definition get_face (id : Z) s : result Face :=
  match ft_get id (fw_faceTable s) with
  | Some f => Ok f
  | None => Err (UndefinedBehaviour "dangling face")
  end.

Definition entry_at (loc : nat) s : result pit_Entry := pit_deref loc (fw_tables s).
Definition entry_modify (loc : nat) (f : pit_Entry -> result pit_Entry) s : result (Forwarder C) :=
  let* t := pit_modify loc f (fw_tables s) in Ok (with_tables t s).
End state.

Definition set_incomingFaceId (v : option Z) (t : Tags) : Tags :=
  mkTags v (tag_nextHopFaceId t) (tag_cachePolicy t) (tag_congestionMark t)
         (tag_nonDiscovery t) (tag_prefixAnnouncement t) (tag_hopCount t).
(** [interest.setTag], [data.setTag], [data.removeTag]: the packet and its wire stay. *)
Definition interest_tags (f : Tags -> Tags) (i : Interest) : Interest :=
  mkInterest (i_name i) (i_selectors i) (i_hasNonce i) (i_nonce i) (i_interestLifetime i)
    (i_forwardingHint i) (i_parameters i) (i_wire i) (f (i_tags i)).
Definition data_tags (f : Tags -> Tags) (d : Data) : Data :=
  mkData (d_name d) (d_metaInfo d) (d_content d) (d_signature d) (d_wire d) (f (d_tags d)).

Definition isAppFace (f : Face) : bool := bool_decide (face_uri f = str "appFace://").

(** ** Faces

    [Face::sendInterest] and the like; what is sent to VAL leaves through the dummy link
    service of a geoface, other faces ignore the call. *)
Section faces.
Context {C : Type}.
Implicit Types (s : Forwarder C).

Definition face_sendInterestToVal (f : Face) (interest : Interest) s : Forwarder C :=
  if isGeoFace f then emit (InterestToVal (face_id f) interest) s else s.
Definition face_sendDataToVal (f : Face) (data : Data) (nonceList : option (list Z)) (isProducer : bool) s : Forwarder C :=
  if isGeoFace f then emit (DataToVal (face_id f) data nonceList isProducer) s else s.
(** The dummy link service of a geoface asserts false, and so does the link service of
    VAL's network faces. *)
Definition face_sendInterest (f : Face) (interest : Interest) s : result (Forwarder C) :=
  assert! negb (isGeoFace f) && negb (isValNetFace f) orelse "false"; Ok (emit (SendInterest (face_id f) interest) s).
Definition face_sendData (f : Face) (data : Data) s : result (Forwarder C) :=
  assert! negb (isGeoFace f) && negb (isValNetFace f) orelse "false"; Ok (emit (SendData (face_id f) data) s).
Definition face_sendNack (f : Face) (interest : Interest) (reason : Z) s : result (Forwarder C) :=
  assert! negb (isGeoFace f) && negb (isValNetFace f) orelse "false"; Ok (emit (SendNack (face_id f) interest reason) s).
End faces.

(** ** Outgoing pipelines *)
Section outgoing.
Context {C : Type} `{SeededHash}.
Implicit Types (s : Forwarder C) (loc : nat).

Definition with_timer (t : option nat) (e : pit_Entry) : pit_Entry :=
  mkPitEntry (pit_interest e) (pit_inRecords e) (pit_outRecords e) (pit_nonceList e) (pit_nte e) t (pit_isSatisfied e)
    (pit_dataFreshnessPeriod e) (pit_info e).
Definition with_satisfied (freshness : Z) (e : pit_Entry) : pit_Entry :=
  mkPitEntry (pit_interest e) (pit_inRecords e) (pit_outRecords e) (pit_nonceList e) (pit_nte e) (pit_expiryTimer e) true
    freshness (pit_info e).
Definition on_timers (q : EventQueue table_event) (t : NfdTables) : NfdTables :=
  with_measurements (measurements_nItems t) q t.

(** Milliseconds to nanoseconds. *)
Definition ms (duration : Z) : Z := duration * 1000000.

Definition setExpiryTimer (now : Z) loc (duration : Z) s : result (Forwarder C) :=
  assert! 0 <=? duration orelse "duration >= 0_ms";
  let* e := entry_at loc s in
  let q := cancel (pit_expiryTimer e) (t_timers (fw_tables s)) in
  let '(id, q) := schedule now (ms duration) (PitExpiry loc) q in
  entry_modify loc (fun e => Ok (with_timer (Some id) e)) (with_tables (on_timers q (fw_tables s)) s).

Definition onOutgoingInterest (now : Z) loc (outFace : Z) (interest : Interest) s : result (Forwarder C) :=
  let* s := entry_modify loc (insertOrUpdateOutRecord now outFace interest) s in
  let* f := get_face outFace s in
  let* s := if isGeoFace f then Ok (face_sendInterestToVal f interest s) else face_sendInterest f interest s in
  Ok (count nOutInterests s).

Definition onOutgoingData (data : Data) (outFace : Z) (nonceList : option (list Z)) (isProducer : bool) s : result (Forwarder C) :=
  let* f := get_face outFace s in
  if face_id f =? INVALID_FACEID then Ok s else
  let isViolatingLocalhost := negb (face_local f) && isPrefixOf LOCALHOST (d_name data) in
  if isViolatingLocalhost then Ok s else
  let* s := if isGeoFace f then Ok (face_sendDataToVal f data nonceList isProducer s) else face_sendData f data s in
  Ok (count nOutData s).

Definition onOutgoingNack loc (outFace : Z) (reason : Z) s : result (Forwarder C) :=
  let* f := get_face outFace s in
  if face_id f =? INVALID_FACEID then Ok s else
  let* e := entry_at loc s in
  match getInRecord outFace e with
  | None => Ok s
  | Some r =>
    if bool_decide (face_linkType f <> LINK_TYPE_POINT_TO_POINT) then Ok s else
    match ir_interest r with
    | None => Err (AssertFailed "static_cast<bool>(m_interest)")
    | Some interest =>
      let* s := entry_modify loc (deleteInRecord outFace) s in
      if negb (isGeoFace f) then
        let* s := face_sendNack f interest reason s in Ok (count nOutNacks s)
      else Ok s
    end
  end.

(** The nonces of the out-records, or of one of them, when needed. *)
Fixpoint dnl_add_all (name : Name) (nonces : list Z) (d : DeadNonceList) : result DeadNonceList :=
  match nonces with
  | [] => Ok d
  | n :: nonces => let* d := dnl_add name n d in dnl_add_all name nonces d
  end.
Definition needDnl (lifetime : Z) (e : pit_Entry) : result bool :=
  if pit_isSatisfied e then
    assert! 0 <=? pit_dataFreshnessPeriod e orelse "pitEntry.dataFreshnessPeriod >= 0_ms";
    if sel_mustBeFresh (i_selectors (pit_interest e)) then
      if ms (pit_dataFreshnessPeriod e) <? 2 ^ 63
      then Ok (ms (pit_dataFreshnessPeriod e) <? lifetime)
      else Err (UndefinedBehaviour "signed overflow")
    else Ok false
  else Ok true.
Definition insertDeadNonceList loc (upstream : option Z) s : result (Forwarder C) :=
  let* e := entry_at loc s in
  let* need := needDnl (dnl_lifetime (fw_deadNonceList s)) e in
  if negb (need : bool) then Ok s else
  let nonces := match upstream with
    | None => (fun r => fr_lastNonce (or_record r)) <$> pit_outRecords e
    | Some face => match getOutRecord face e with Some r => [fr_lastNonce (or_record r)] | None => [] end
    end in
  let* d := dnl_add_all (i_name (pit_interest e)) nonces (fw_deadNonceList s) in
  Ok (with_dnl d s).
End outgoing.

(** ** Strategy actions *)
Section actions.
Context {C : Type} `{HashFunction} `{StdSort} `{FaceAddresses} (sha256 : octets -> octets).
Implicit Types (s : Forwarder C) (loc : nat).

Definition strategy_sendInterest (now : Z) loc (outFace : Z) (interest : Interest) s : result (Forwarder C) :=
  onOutgoingInterest now loc outFace interest s.

Definition assert_matches loc (data : Data) s : result unit :=
  let* e := entry_at loc s in
  let* m := matchesData sha256 (pit_interest e) data in
  assert! (m : bool) orelse "pitEntry->getInterest().matchesData(data)"; Ok tt.

Definition strategy_sendData loc (data : Data) (outFace : Z) s : result (Forwarder C) :=
  let* _ := assert_matches loc data s in
  let* f := get_face outFace s in
  if negb (isGeoFace f) then
    let* s := entry_modify loc (deleteInRecord outFace) s in
    onOutgoingData data outFace None false s
  else Ok s.

Definition strategy_sendDataToVal loc (data : Data) (outFace : Z) (nonceList : option (list Z)) (isProducer : bool) s
  : result (Forwarder C) :=
  let* _ := assert_matches loc data s in
  let* s := entry_modify loc (deleteInRecord outFace) s in
  onOutgoingData data outFace nonceList isProducer s.

(** The faces of the in-records that have not expired, in the order of a [std::set]. *)
Definition pendingDownstreams (now : Z) (e : pit_Entry) : list Z :=
  sort_by face_address (in_face <$> List.filter (fun r => now <? fr_expiry (ir_record r)) (pit_inRecords e)).

Fixpoint sendData_loop loc (data : Data) (faces : list Z) s : result (Forwarder C) :=
  match faces with
  | [] => Ok s
  | f :: faces => let* s := strategy_sendData loc data f s in sendData_loop loc data faces s
  end.
Definition strategy_sendDataToAll (now : Z) loc (data : Data) s : result (Forwarder C) :=
  let* e := entry_at loc s in
  sendData_loop loc data (pendingDownstreams now e) s.

Definition rejectPendingInterest (now : Z) loc s : result (Forwarder C) := setExpiryTimer now loc 0 s.

Definition strategy_sendNack loc (outFace : Z) (reason : Z) s : result (Forwarder C) := onOutgoingNack loc outFace reason s.

(** The next hops of a FIB entry; [None] is [s_emptyEntry]. *)
Definition nexthops_at (r : option nat) s : result (list NextHop) :=
  match r with
  | None => Ok []
  | Some x => let* e := fib_entry_at x (fw_tables s) in Ok (fe_nextHops e)
  end.
Definition prefix_size_at (r : option nat) s : result nat :=
  match r with
  | None => Ok 0%nat
  | Some x => let* e := fib_entry_at x (fw_tables s) in Ok (length (fe_prefix e))
  end.

Fixpoint lookupFib_loop (dels : list Delegation) (fibEntry : option (option nat)) s : result (option nat) :=
  match dels with
  | [] =>
    match fibEntry with
    | None => Err (AssertFailed "fibEntry != nullptr && fibEntry->getPrefix().size() == 0")
    | Some r =>
      let* n := prefix_size_at r s in
      assert! (n =? 0)%nat orelse "fibEntry != nullptr && fibEntry->getPrefix().size() == 0"; Ok r
    end
  | del :: dels =>
    let* r := fib_findLongestPrefixMatch (del_name del) (fw_tables s) in
    let* hops := nexthops_at r s in
    if negb (bool_decide (hops = [])) then Ok r else
    let* n := prefix_size_at r s in
    assert! (n =? 0)%nat orelse "fibEntry->getPrefix().size() == 0";
    lookupFib_loop dels (Some r) s
  end.
Definition lookupFib loc s : result (option nat) :=
  let* e := entry_at loc s in
  let fh := i_forwardingHint (pit_interest e) in
  if bool_decide (dl_dels fh = []) then fib_findLongestPrefixMatch_pit e (fw_tables s) else
  assert! negb (isInProducerRegion (fw_networkRegionTable s) fh)
    orelse "!m_forwarder.getNetworkRegionTable().isInProducerRegion(fh)";
  lookupFib_loop (dl_dels fh) None s.

(** [getFib().insert(name.getPrefix(-1)).first->addOrUpdateNextHop(face, 0, 1)] *)
Definition add_route (name : Name) (face : Z) s : result (Forwarder C) :=
  let* (xs, t) := fib_insert (getPrefix (-1) name) (fw_tables s) in
  let* t := fib_addOrUpdateNextHop xs.1 face 0 1 t in
  Ok (with_tables t s).
End actions.

(** ** Strategies

    The triggers of [fw::Strategy].  A trigger on Data returns the packet with the tags it
    has set. *)
Record Strategy (C : Type) := mkStrategy {
  st_afterReceiveInterest : Z -> Z -> Interest -> nat -> Forwarder C -> result (Forwarder C);
  st_beforeSatisfyInterest : Z -> nat -> Z -> Data -> Forwarder C -> result (Data * Forwarder C);
  st_afterContentStoreHit : Z -> nat -> Z -> Data -> Forwarder C -> result (Data * Forwarder C);
  st_afterReceiveData : Z -> nat -> Z -> Data -> Forwarder C -> result (Data * Forwarder C);
  st_afterReceiveNack : Z -> Z -> Interest -> Z -> nat -> Forwarder C -> result (Forwarder C);
  st_onDroppedInterest : Z -> Interest -> Forwarder C -> result (Forwarder C);
}.
Arguments mkStrategy {C} _ _ _ _ _ _.
Arguments st_afterReceiveInterest {C} _ _ _ _ _ _.
Arguments st_beforeSatisfyInterest {C} _ _ _ _ _ _.
Arguments st_afterContentStoreHit {C} _ _ _ _ _ _.
Arguments st_afterReceiveData {C} _ _ _ _ _ _.
Arguments st_afterReceiveNack {C} _ _ _ _ _ _ _.
Arguments st_onDroppedInterest {C} _ _ _ _.

Section base_strategy.
Context {C : Type} `{HashFunction} `{StdSort} `{FaceAddresses} (sha256 : octets -> octets).
Implicit Types (s : Forwarder C) (loc : nat).

(** The base class only logs in these. *)
Definition base_beforeSatisfyInterest (now : Z) loc (inFace : Z) (data : Data) s : result (Data * Forwarder C) := Ok (data, s).
Definition base_afterReceiveNack (now inFace : Z) (interest : Interest) (reason : Z) loc s : result (Forwarder C) := Ok s.
Definition base_onDroppedInterest (outFace : Z) (interest : Interest) s : result (Forwarder C) := Ok s.

Definition base_afterContentStoreHit (now : Z) loc (inFace : Z) (data : Data) s : result (Data * Forwarder C) :=
  let* s := strategy_sendData sha256 loc data inFace s in Ok (data, s).
Definition base_afterReceiveData (now : Z) loc (inFace : Z) (data : Data) s : result (Data * Forwarder C) :=
  let* (data, s) := base_beforeSatisfyInterest now loc inFace data s in
  let* s := strategy_sendDataToAll sha256 now loc data s in Ok (data, s).
End base_strategy.

(** ** The broadcast strategy *)
Section broadcast.
Context {C : Type} `{HashFunction} `{StdSort} `{FaceAddresses} (sha256 : octets -> octets).
Implicit Types (s : Forwarder C) (loc : nat).

(** The first application face among the next hops, or else the first geoface. *)
Fixpoint bs_select (inFace : Face) (interest : Interest) (nexthops : list NextHop) (outFace : option Z) s
  : result (option Z) :=
  match nexthops with
  | [] => Ok outFace
  | nh :: nexthops =>
    let* candidate := get_face (nh_face nh) s in
    if negb (isValNetFace candidate) && negb (wouldViolateScope inFace interest candidate) then
      if isAppFace candidate then Ok (Some (nh_face nh))
      else bs_select inFace interest nexthops
             (if isGeoFace candidate && negb (is_some outFace) then Some (nh_face nh) else outFace) s
    else bs_select inFace interest nexthops outFace s
  end.

Definition bs_afterReceiveInterest (now inFace : Z) (interest : Interest) loc s : result (Forwarder C) :=
  let* fin := get_face inFace s in
  let* fibEntry := lookupFib loc s in
  let* nexthops := nexthops_at fibEntry s in
  let* outFace := bs_select fin interest nexthops None s in
  match outFace with
  | None => rejectPendingInterest now loc s
  | Some outFace => strategy_sendInterest now loc outFace interest s
  end.

(** The first geoface among the next hops. *)
Fixpoint first_geoface (nexthops : list NextHop) s : result (option Z) :=
  match nexthops with
  | [] => Ok None
  | nh :: nexthops =>
    let* f := get_face (nh_face nh) s in
    if isGeoFace f then Ok (Some (nh_face nh)) else first_geoface nexthops s
  end.

Definition bs_afterContentStoreHit (now : Z) loc (inFace : Z) (data : Data) s : result (Data * Forwarder C) :=
  let* fin := get_face inFace s in
  if isGeoFace fin then
    let* fibEntry := lookupFib loc s in
    let* nexthops := nexthops_at fibEntry s in
    let* outFace := first_geoface nexthops s in
    match outFace with
    | Some outFace =>
      let* e := entry_at loc s in
      let* s := strategy_sendDataToVal sha256 loc data outFace (Some (getNonceList e)) false s in Ok (data, s)
    | None => Ok (data, s)
    end
  else let* s := strategy_sendData sha256 loc data inFace s in Ok (data, s).

(** The loop over the waiting faces; at most one geoface gets the Data. *)
Fixpoint bs_loop loc (inFace : Z) (isProducer sentToGeoFace : bool) (faces : list Z) (data : Data) s : result (Data * Forwarder C) :=
  match faces with
  | [] => Ok (data, s)
  | face :: faces =>
    let* f := get_face face s in
    if isGeoFace f && negb sentToGeoFace then
      let* e := entry_at loc s in
      let* s := strategy_sendDataToVal sha256 loc data face (Some (getNonceList e)) isProducer s in
      bs_loop loc inFace isProducer true faces data s
    else if negb (isGeoFace f) then
      let* fin := get_face inFace s in
      let* e := entry_at loc s in
      let nonceList := if isGeoFace fin && isAppFace f then Some (getNonceList e) else None in
      let* s := strategy_sendData sha256 loc data face s in
      match nonceList with
      | Some l =>
        let data := data_tags (set_congestionMark (Some 500)) data in
        bs_loop loc inFace isProducer sentToGeoFace faces data (face_sendDataToVal fin data (Some l) false s)
      | None => bs_loop loc inFace isProducer sentToGeoFace faces data s
      end
    else
      let* s := entry_modify loc (deleteInRecord face) s in
      bs_loop loc inFace isProducer sentToGeoFace faces data s
  end.

Definition bs_afterReceiveData (now : Z) loc (inFace : Z) (data : Data) s : result (Data * Forwarder C) :=
  let* (data, s) := base_beforeSatisfyInterest now loc inFace data s in
  let* fin := get_face inFace s in
  let* (isProducer, s) :=
    if isGeoFace fin then let* s := add_route (d_name data) inFace s in Ok (false, s) else Ok (true, s) in
  let* e := entry_at loc s in
  bs_loop loc inFace isProducer false (pendingDownstreams now e) data s.

Definition BroadcastStrategy : Strategy C :=
  mkStrategy bs_afterReceiveInterest base_beforeSatisfyInterest bs_afterContentStoreHit bs_afterReceiveData
    base_afterReceiveNack base_onDroppedInterest.
End broadcast.

(** ** Incoming pipelines *)
Section incoming.
Context {C : Type} `{HashFunction} `{SeededHash} `{StdSort} `{FaceAddresses} `{ContentStore C} (sha256 : octets -> octets).
(** The strategy with an instance name. *)
Context (strategies : Name -> Strategy C).
Implicit Types (s : Forwarder C) (loc : nat).

Definition dispatchToStrategy {A} loc (trigger : Strategy C -> Forwarder C -> result A) s : result A :=
  let* e := entry_at loc s in
  let* name := findEffectiveStrategy_pit e (fw_tables s) in
  trigger (strategies name) s.

Definition onInterestFinalize loc s : result (Forwarder C) :=
  let* e := entry_at loc s in
  let s := if negb (pit_isSatisfied e) then emit (BeforeExpirePendingInterest loc) s else s in
  let* s := insertDeadNonceList loc None s in
  let s := if pit_isSatisfied e then count nSatisfiedInterests s else count nUnsatisfiedInterests s in
  let s := with_tables (on_timers (cancel (pit_expiryTimer e) (t_timers (fw_tables s))) (fw_tables s)) s in
  let* t := pit_erase loc true (fw_tables s) in
  Ok (with_tables t s).

(** The processed Interest is changed in place, in the in-record of its face and, if it
    made the entry, in the entry. *)
Definition replace_interest (inFace : Z) (isNew : bool) (i : Interest) (e : pit_Entry) : pit_Entry :=
  mkPitEntry (if isNew then i else pit_interest e)
    (update_first (fun r => in_face r =? inFace) (fun r => mkInRecord (ir_record r) (Some i)) (pit_inRecords e))
    (pit_outRecords e) (pit_nonceList e) (pit_nte e) (pit_expiryTimer e) (pit_isSatisfied e) (pit_dataFreshnessPeriod e) (pit_info e).

(** The first application face among the next hops. *)
Fixpoint first_appface (nexthops : list NextHop) s : result (option Z) :=
  match nexthops with
  | [] => Ok None
  | nh :: nexthops =>
    let* f := get_face (nh_face nh) s in
    if isAppFace f then Ok (Some (nh_face nh)) else first_appface nexthops s
  end.

(** The chosen next hop, when the Interest has one: at a producer an application instead,
    at a relay or consumer a new route. *)
Definition useNextHop (now : Z) (inFace : Face) loc (isNew : bool) (nextHopFace : Z) (interest : Interest) s
  : result (Forwarder C) :=
  let* (r, s) :=
    if isGeoFace inFace then
      let* e := entry_at loc s in
      let* fibEntry := fib_findLongestPrefixMatch_pit e (fw_tables s) in
      let* nexthops := nexthops_at fibEntry s in
      if negb (bool_decide (nexthops = [])) then
        let* app := first_appface nexthops s in
        match app with
        | Some outFace =>
          let interest := setForwardingHint DelegationList_new interest in
          let* s := entry_modify loc (fun e => Ok (replace_interest (face_id inFace) isNew interest e)) s in
          Ok ((outFace, interest), s)
        | None => Ok ((nextHopFace, interest), s)
        end
      else
        let* s := add_route (i_name interest) nextHopFace s in Ok ((nextHopFace, interest), s)
    else Ok ((nextHopFace, interest), s) in
  let '(nextHopFace, interest) := r in
  let* s := if isAppFace inFace then add_route (i_name interest) nextHopFace s else Ok s in
  onOutgoingInterest now loc nextHopFace interest s.

Definition onContentStoreMiss (now : Z) (inFace : Face) loc (isNew : bool) (interest : Interest) s : result (Forwarder C) :=
  let s := count nCsMisses s in
  let* s := entry_modify loc (insertOrUpdateInRecord now (face_id inFace) interest) s in
  let* e := entry_at loc s in
  match max_key (fun r => fr_expiry (ir_record r)) (pit_inRecords e) with
  | None => Err (UndefinedBehaviour "no in-record")
  | Some lastExpiry =>
    let* s := setExpiryTimer now loc (Z.quot (lastExpiry - now) 1000000) s in
    match tag_nextHopFaceId (i_tags interest) with
    | Some nextHop =>
      match ft_get nextHop (fw_faceTable s) with
      | Some f => useNextHop now inFace loc isNew (face_id f) interest s
      | None => Ok s
      end
    | None => dispatchToStrategy loc (fun st => st_afterReceiveInterest st now (face_id inFace) interest loc) s
    end
  end.

Definition onContentStoreHit (now : Z) (inFace : Face) loc (data : Data) s : result (Forwarder C) :=
  let s := count nCsHits s in
  let data := data_tags (set_incomingFaceId (Some FACEID_CONTENT_STORE)) data in
  let* s := entry_modify loc (fun e => Ok (with_satisfied (mi_freshnessPeriod (d_metaInfo data)) e)) s in
  let* s := setExpiryTimer now loc 0 s in
  let s := emit (BeforeSatisfyInterest loc FACEID_CONTENT_STORE data) s in
  let* (data, s) := dispatchToStrategy loc (fun st => st_beforeSatisfyInterest st now loc FACEID_CONTENT_STORE data) s in
  let* (data, s) := dispatchToStrategy loc (fun st => st_afterContentStoreHit st now loc (face_id inFace) data) s in
  Ok s.

Definition onInterestLoop (inFace : Face) (interest : Interest) s : result (Forwarder C) :=
  if bool_decide (face_linkType inFace <> LINK_TYPE_POINT_TO_POINT) then Ok s
  else if negb (isGeoFace inFace) then face_sendNack inFace interest NackReason_DUPLICATE s
  else Ok s.

Definition isViolatingLocalhost (inFace : Face) (name : Name) : bool := negb (face_local inFace) && isPrefixOf LOCALHOST name.

(** A point-to-point face other than a geoface may repeat its nonce. *)
Definition hasDuplicateNonceInPit (inFace : Face) (interest : Interest) (e : pit_Entry) : bool :=
  let dnw := findDuplicateNonce e (getNonce interest) (face_id inFace) in
  let dup := negb (dnw =? DUPLICATE_NONCE_NONE) in
  if bool_decide (face_linkType inFace = LINK_TYPE_POINT_TO_POINT) && negb (isGeoFace inFace)
  then dup && (Z.land dnw DUPLICATE_NONCE_IN_SAME =? 0) else dup.

Definition onIncomingInterest (now : Z) (inFaceId : Z) (interest : Interest) s : result (Forwarder C) :=
  let* inFace := get_face inFaceId s in
  let interest := interest_tags (set_incomingFaceId (Some (face_id inFace))) interest in
  let s := count nInInterests s in
  if isViolatingLocalhost inFace (i_name interest) then Ok s else
  if dnl_has (i_name interest) (getNonce interest) (fw_deadNonceList s) then onInterestLoop inFace interest s else
  let interest :=
    if negb (bool_decide (dl_dels (i_forwardingHint interest) = [])) &&
       isInProducerRegion (fw_networkRegionTable s) (i_forwardingHint interest)
    then setForwardingHint DelegationList_new interest else interest in
  let* (r, t) := pit_insert interest (fw_tables s) in
  let s := with_tables t s in
  match r with
  | (None, _) => Err (UndefinedBehaviour "null PIT entry")
  | (Some loc, isNew) =>
    let* e := entry_at loc s in
    if hasDuplicateNonceInPit inFace interest e then onInterestLoop inFace interest s else
    if negb (hasInRecords e) then
      let* (found, c) := cs_find now interest (fw_cs s) in
      let s := with_cs c s in
      match found with
      | Some data => onContentStoreHit now inFace loc data s
      | None => onContentStoreMiss now inFace loc isNew interest s
      end
    else onContentStoreMiss now inFace loc isNew interest s
  end.

Definition onDataUnsolicited (now : Z) (inFace : Face) (data : Data) s : result (Forwarder C) :=
  (* the policy's decision is overwritten *)
  let cache := negb (face_local inFace) in
  let* (r, s) :=
    if isGeoFace inFace && cache then
      let* fibEntry := fib_findLongestPrefixMatch (d_name data) (fw_tables s) in
      let* nexthops := nexthops_at fibEntry s in
      let* app := first_appface nexthops s in
      let isProducer := is_some app in
      let* s := if negb isProducer then add_route (d_name data) (face_id inFace) s else Ok s in
      let data := data_tags (set_congestionMark (Some 501)) data in
      Ok ((negb isProducer, data), face_sendDataToVal inFace data None isProducer s)
    else Ok ((cache, data), s) in
  let '(cache, data) := r in
  if (cache : bool) then let* c := cs_insert now data true (fw_cs s) in Ok (with_cs c s) else Ok s.

Definition satisfyEntry (now : Z) (inFace : Face) loc (data : Data) s : result (Data * Forwarder C) :=
  let* s := setExpiryTimer now loc 0 s in
  let s := emit (BeforeSatisfyInterest loc (face_id inFace) data) s in
  let* (data, s) := dispatchToStrategy loc (fun st => st_afterReceiveData st now loc (face_id inFace) data) s in
  let* s := entry_modify loc (fun e => Ok (with_satisfied (mi_freshnessPeriod (d_metaInfo data)) e)) s in
  let* s := insertDeadNonceList loc (Some (face_id inFace)) s in
  let* s := entry_modify loc (fun e => Ok (deleteOutRecord (face_id inFace) e)) s in
  Ok (data, s).
Fixpoint satisfy_loop (now : Z) (inFace : Face) (locs : list nat) (data : Data) s : result (Forwarder C) :=
  match locs with
  | [] => Ok s
  | loc :: locs => let* (data, s) := satisfyEntry now inFace loc data s in satisfy_loop now inFace locs data s
  end.

Definition onIncomingData (now : Z) (inFaceId : Z) (data : Data) s : result (Forwarder C) :=
  let* inFace := get_face inFaceId s in
  let data := data_tags (set_incomingFaceId (Some (face_id inFace))) data in
  let s := count nInData s in
  if isViolatingLocalhost inFace (d_name data) then Ok s else
  let* pitMatches := pit_findAllDataMatches sha256 data (fw_tables s) in
  if bool_decide (pitMatches = []) then onDataUnsolicited now inFace data s else
  let dataCopyWithoutTag := data_tags (set_hopCount None) data in
  let* c := cs_insert now dataCopyWithoutTag false (fw_cs s) in
  satisfy_loop now inFace pitMatches data (with_cs c s).

(** The Nack: the nacked Interest and the reason. *)
Definition onIncomingNack (now : Z) (inFaceId : Z) (interest : Interest) (reason : Z) s : result (Forwarder C) :=
  let* inFace := get_face inFaceId s in
  let s := count nInNacks s in
  if bool_decide (face_linkType inFace <> LINK_TYPE_POINT_TO_POINT) then Ok s else
  let* found := pit_find interest (fw_tables s) in
  match found with
  | None => Ok s
  | Some loc =>
    let* e := entry_at loc s in
    match getOutRecord (face_id inFace) e with
    | None => Ok s
    | Some r =>
      if negb (getNonce interest =? fr_lastNonce (or_record r)) then Ok s else
      let* s := entry_modify loc (fun e => Ok (with_outRecords
        (update_first (fun r => out_face r =? face_id inFace) (fun r => (setIncomingNack (getNonce interest) reason r).2)
           (pit_outRecords e)) e)) s in
      let* e := entry_at loc s in
      let* s := if negb (hasPendingOutRecords now e) then setExpiryTimer now loc 0 s else Ok s in
      dispatchToStrategy loc (fun st => st_afterReceiveNack st now (face_id inFace) interest reason loc) s
    end
  end.

Definition onDroppedInterest (outFace : Z) (interest : Interest) s : result (Forwarder C) :=
  let* name := findEffectiveStrategy (i_name interest) (fw_tables s) in
  st_onDroppedInterest (strategies name) outFace interest s.
End incoming.

(** ** The event loop

    What reaches the forwarder: packets on faces that are in the face table, faces that
    are added and removed, and timers, which all use one scheduler.  The signals of the
    face table, to which the constructor of the forwarder connects, tell whether a face
    is one of VAL's network faces; the tables are cleaned up when another face is
    removed. *)
Section events.
Context {C : Type} `{HashFunction} `{SeededHash} `{StdSort} `{FaceAddresses} `{ContentStore C} (sha256 : octets -> octets).
Context (strategies : Name -> Strategy C).
Implicit Types (s : Forwarder C) (loc : nat).

Inductive fw_event : Type :=
  | ReceiveInterest (face : Z) (interest : Interest)
  | ReceiveData (face : Z) (data : Data)
  | ReceiveNack (face : Z) (interest : Interest) (reason : Z)
  | DropInterest (face : Z) (interest : Interest)
  | AddFace (face : Face)
  | RemoveFace (face : Z)
  | RunTimer.

Definition fw_addFace (face : Face) s : result (Forwarder C) :=
  let* r := ft_add face (fw_faceTable s) in Ok (on_faceTable r.2 s).

Definition fw_removeFace (face : Z) s : result (Forwarder C) :=
  let* (sig, ft) := ft_remove face (fw_faceTable s) in
  let* t := match sig with
            | BeforeRemove face => cleanupOnFaceRemoval face (fw_tables s)
            | _ => Ok (fw_tables s)
            end in
  Ok (on_faceTable ft (with_tables t s)).

(** The callbacks that are scheduled. *)
Definition run_callback (now : Z) (ev : table_event) s : result (Forwarder C) :=
  match ev with
  | PitExpiry loc => onInterestFinalize loc s
  | MeasurementsCleanup x => let* t := measurements_cleanup x (fw_tables s) in Ok (with_tables t s)
  | DnlMark =>
    let '(d, q) := dnl_mark now (fw_deadNonceList s) (t_timers (fw_tables s)) in
    Ok (with_dnl d (with_tables (on_timers q (fw_tables s)) s))
  | DnlAdjustCapacity =>
    let* (d, q) := adjustCapacity now (fw_deadNonceList s) (t_timers (fw_tables s)) in
    Ok (with_dnl d (with_tables (on_timers q (fw_tables s)) s))
  end.
Definition run_timer (now : Z) s : result (Forwarder C) :=
  match pop_due now (t_timers (fw_tables s)) with
  | None => Ok s
  | Some (ev, q) => run_callback now (ev_callback ev) (with_tables (on_timers q (fw_tables s)) s)
  end.

Definition fw_handle (now : Z) (ev : fw_event) s : result (Forwarder C) :=
  match ev with
  | ReceiveInterest face interest => onIncomingInterest strategies now face interest s
  | ReceiveData face data => onIncomingData sha256 strategies now face data s
  | ReceiveNack face interest reason => onIncomingNack strategies now face interest reason s
  | DropInterest face interest => onDroppedInterest strategies face interest s
  | AddFace face => fw_addFace face s
  | RemoveFace face => fw_removeFace face s
  | RunTimer => run_timer now s
  end.
(** A sequence of events, each with the time at which it happens. *)
Fixpoint fw_run (evs : list (Z * fw_event)) s : result (Forwarder C) :=
  match evs with
  | [] => Ok s
  | (now, ev) :: evs => let* s := fw_handle now ev s in fw_run evs s
  end.
End events.

(** ** Construction *)
Definition makeNullFace (uri : octets) : Face := Face_new uri true LINK_TYPE_POINT_TO_POINT.
Definition getDefaultStrategyName : Name := BestRouteStrategy2_getStrategyName.

Definition Forwarder_new {C} `{HashFunction} (registry : Registry) (now : Z) (cs : C) : result (Forwarder C) :=
  let* h := NameTree_new 1024 in
  let* (d, q) := DeadNonceList_new now DEFAULT_LIFETIME EventQueue_new in
  let* (_, faces) := ft_addReserved (makeNullFace (str "contentstore://")) FACEID_CONTENT_STORE FaceTable_new in
  let* t := setDefaultStrategy registry getDefaultStrategyName (on_timers q (NfdTables_new h)) in
  Ok (mkForwarder t faces d [] cs (fun _ => 0) []).
