(* ===== verification/Strategies.v ===== *)
(** * Strategies of NFD (NFD/daemon/fw: best-route-strategy2.cpp, best-route-strategy.cpp,
    multicast-strategy.cpp, process-nack-traits.cpp)

    The default strategy, which forwards an Interest to the next hop of lowest cost and its
    retransmissions to the others in turn; the original best-route strategy; the multicast
    strategy, which forwards to all next hops; and the procedure for Nacks they share. *)

From stdpp Require Import base gmap list sets strings.
From Stdlib Require Import ZArith Lia.
From S2P Require Import Prelude Tlv Encoder Block Codec Ndn NameTlv Selectors Data Interest LpPacket FaceTable Double Hashtable NameTree Scheduler NfdTables Fib Pit Cleanup DeadNonceList Algorithm RetxSuppression Measurements StrategyChoice Forwarder.

Local Open Scope Z_scope.

(** The order in which a [std::unordered_set] of faces is traversed. *)
Class UnorderedFaces := unordered : list Z -> list Z.
Class UnorderedLaws `{UnorderedFaces} := {
  unordered_perm l : unordered l ≡ₚ l;
}.

Section strategies.
Context {C : Type} `{HashFunction} `{StdSort} `{FaceAddresses} `{UnorderedFaces} (sha256 : octets -> octets).
Implicit Types (s : Forwarder C) (loc : nat).

(** ** Nacks *)

Fixpoint sendNacks_loop loc (reason : Z) (faces : list Z) s : result (Forwarder C) :=
  match faces with
  | [] => Ok s
  | f :: faces => let* s := strategy_sendNack loc f reason s in sendNacks_loop loc reason faces s
  end.
Definition strategy_sendNacks loc (reason : Z) (exceptFaces : list Z) s : result (Forwarder C) :=
  let* e := entry_at loc s in
  let downstreams := List.filter (fun f => negb (existsb (Z.eqb f) exceptFaces)) (in_face <$> pit_inRecords e) in
  sendNacks_loop loc reason (unordered downstreams) s.

(** The loop over the out-records: how many were not nacked, the last of them, and the
    least severe reason of the others. *)
Record nack_summary := mkNackSummary {
  nOutRecordsNotNacked : Z;
  lastFaceNotNacked : option Z;
  leastSevereReason : Z;
}.
Definition summarize (outRecords : list OutRecord) : nack_summary :=
  foldl (fun a r =>
    match or_incomingNack r with
    | None => mkNackSummary (nOutRecordsNotNacked a + 1) (Some (out_face r)) (leastSevereReason a)
    | Some inNack =>
      mkNackSummary (nOutRecordsNotNacked a) (lastFaceNotNacked a)
        (if isLessSevere (NackHeader_getReason inNack) (leastSevereReason a) then NackHeader_getReason inNack else leastSevereReason a)
    end) (mkNackSummary 0 None NackReason_NONE) outRecords.

Definition processNack loc s : result (Forwarder C) :=
  let* e := entry_at loc s in
  let a := summarize (pit_outRecords e) in
  let* bidirectional :=
    if nOutRecordsNotNacked a =? 1 then
      match lastFaceNotNacked a with
      | None => Err (AssertFailed "lastFaceNotNacked != nullptr")
      | Some face => Ok (match getInRecord face e with Some _ => Some face | None => None end)
      end
    else Ok None in
  match (bidirectional : option Z) with
  | Some face => strategy_sendNack loc face (leastSevereReason a) s
  | None => if 0 <? nOutRecordsNotNacked a then Ok s else strategy_sendNacks loc (leastSevereReason a) [] s
  end.

(** ** Best route *)

(** [TimePoint::max()] *)
Definition TimePoint_max : Z := 2 ^ 63 - 1.

Definition isNextHopEligible (inFace : Face) (interest : Interest) (outFace : Face) (e : pit_Entry) (wantUnused : bool) (now : Z) : bool :=
  if (face_id outFace =? face_id inFace) && negb (bool_decide (face_linkType outFace = LINK_TYPE_AD_HOC)) then false else
  if wouldViolateScope inFace interest outFace then false else
  if wantUnused then
    match getOutRecord (face_id outFace) e with
    | Some r => negb (now <? fr_expiry (or_record r))
    | None => true
    end
  else true.

(** [std::find_if] over the next hops. *)
Fixpoint find_eligible (inFace : Face) (interest : Interest) (e : pit_Entry) (wantUnused : bool) (now : Z) (nexthops : list NextHop) s
  : result (option Z) :=
  match nexthops with
  | [] => Ok None
  | nh :: nexthops =>
    let* outFace := get_face (nh_face nh) s in
    if isNextHopEligible inFace interest outFace e wantUnused now then Ok (Some (nh_face nh))
    else find_eligible inFace interest e wantUnused now nexthops s
  end.

Fixpoint find_earliest (inFace : Face) (interest : Interest) (e : pit_Entry) (nexthops : list NextHop) (found : option Z) (earliestRenewed : Z) s
  : result (option Z) :=
  match nexthops with
  | [] => Ok found
  | nh :: nexthops =>
    let* outFace := get_face (nh_face nh) s in
    if negb (isNextHopEligible inFace interest outFace e false TimePoint_min) then find_earliest inFace interest e nexthops found earliestRenewed s else
    match getOutRecord (nh_face nh) e with
    | None => Err (AssertFailed "outRecord != pitEntry->out_end()")
    | Some outRecord =>
      if fr_lastRenewed (or_record outRecord) <? earliestRenewed
      then find_earliest inFace interest e nexthops (Some (nh_face nh)) (fr_lastRenewed (or_record outRecord)) s
      else find_earliest inFace interest e nexthops found earliestRenewed s
    end
  end.
Definition findEligibleNextHopWithEarliestOutRecord (inFace : Face) (interest : Interest) (nexthops : list NextHop) (e : pit_Entry) s :=
  find_earliest inFace interest e nexthops None TimePoint_max s.

Definition br2_afterReceiveInterest (now inFace : Z) (interest : Interest) loc s : result (Forwarder C) :=
  let* fin := get_face inFace s in
  let* e := entry_at loc s in
  let* (suppression, e) := decidePerPitEntry strategyRetx now e in
  let* s := entry_modify loc (fun _ => Ok e) s in
  if decide (suppression = SUPPRESS) then Ok s else
  let* fibEntry := lookupFib loc s in
  let* nexthops := nexthops_at fibEntry s in
  if decide (suppression = NEW) then
    let* it := find_eligible fin interest e false TimePoint_min nexthops s in
    match (it : option Z) with
    | None =>
      let* s := strategy_sendNack loc inFace NackReason_NO_ROUTE s in
      rejectPendingInterest now loc s
    | Some outFace => strategy_sendInterest now loc outFace interest s
    end
  else
    let* it := find_eligible fin interest e true now nexthops s in
    match (it : option Z) with
    | Some outFace => strategy_sendInterest now loc outFace interest s
    | None =>
      let* it := findEligibleNextHopWithEarliestOutRecord fin interest nexthops e s in
      match (it : option Z) with
      | None => Ok s
      | Some outFace => strategy_sendInterest now loc outFace interest s
      end
    end.

Definition afterReceiveNack_process (now inFace : Z) (interest : Interest) (reason : Z) loc s : result (Forwarder C) := processNack loc s.

Definition BestRouteStrategy2 : Strategy C :=
  mkStrategy br2_afterReceiveInterest base_beforeSatisfyInterest (base_afterContentStoreHit sha256) (base_afterReceiveData sha256)
    afterReceiveNack_process base_onDroppedInterest.

(** *** The original strategy *)
Fixpoint br_find (now : Z) (inFace : Face) (interest : Interest) (e : pit_Entry) (nexthops : list NextHop) s : result (option Z) :=
  match nexthops with
  | [] => Ok None
  | nh :: nexthops =>
    let* outFace := get_face (nh_face nh) s in
    if negb (wouldViolateScope inFace interest outFace) && canForwardToLegacy now e (nh_face nh) then Ok (Some (nh_face nh))
    else br_find now inFace interest e nexthops s
  end.
Definition br_afterReceiveInterest (now inFace : Z) (interest : Interest) loc s : result (Forwarder C) :=
  let* fin := get_face inFace s in
  let* e := entry_at loc s in
  if hasPendingOutRecords now e then Ok s else
  let* fibEntry := lookupFib loc s in
  let* nexthops := nexthops_at fibEntry s in
  let* it := br_find now fin interest e nexthops s in
  match (it : option Z) with
  | Some outFace => strategy_sendInterest now loc outFace interest s
  | None => rejectPendingInterest now loc s
  end.
Definition BestRouteStrategyBase : Strategy C :=
  mkStrategy br_afterReceiveInterest base_beforeSatisfyInterest (base_afterContentStoreHit sha256) (base_afterReceiveData sha256)
    base_afterReceiveNack base_onDroppedInterest.

(** ** Multicast *)
Definition increment_out (face : Z) (e : pit_Entry) : result pit_Entry :=
  match getOutRecord face e with
  | None => Err (UndefinedBehaviour "end iterator")
  | Some r => let* r := incrementIntervalForOutRecord strategyRetx r in Ok (update_out face (fun _ => r) e)
  end.

Fixpoint mc_loop (now : Z) (inFace : Face) (interest : Interest) loc (nexthops : list NextHop) (nEligibleNextHops : Z) (isSuppressed : bool) s
  : result (Z * bool * Forwarder C) :=
  match nexthops with
  | [] => Ok (nEligibleNextHops, isSuppressed, s)
  | nh :: nexthops =>
    let* outFace := get_face (nh_face nh) s in
    let* e := entry_at loc s in
    let '(suppressResult, e) := decidePerUpstream strategyRetx now (nh_face nh) e in
    let* s := entry_modify loc (fun _ => Ok e) s in
    if decide (suppressResult = SUPPRESS) then mc_loop now inFace interest loc nexthops nEligibleNextHops true s else
    if isValNetFace outFace || wouldViolateScope inFace interest outFace
    then mc_loop now inFace interest loc nexthops nEligibleNextHops isSuppressed s else
    let* s := strategy_sendInterest now loc (nh_face nh) interest s in
    let* s := if decide (suppressResult = FORWARD) then entry_modify loc (increment_out (nh_face nh)) s else Ok s in
    mc_loop now inFace interest loc nexthops (nEligibleNextHops + 1) isSuppressed s
  end.

Definition mc_afterReceiveInterest (now inFace : Z) (interest : Interest) loc s : result (Forwarder C) :=
  let* fin := get_face inFace s in
  let* fibEntry := lookupFib loc s in
  let* nexthops := nexthops_at fibEntry s in
  let* (r, s) := mc_loop now fin interest loc nexthops 0 false s in
  let '(nEligibleNextHops, isSuppressed) := r in
  if (nEligibleNextHops =? 0) && negb isSuppressed then
    let* s := strategy_sendNack loc inFace NackReason_NO_ROUTE s in
    rejectPendingInterest now loc s
  else Ok s.

Definition MulticastStrategy : Strategy C :=
  mkStrategy mc_afterReceiveInterest base_beforeSatisfyInterest (base_afterContentStoreHit sha256) (base_afterReceiveData sha256)
    afterReceiveNack_process base_onDroppedInterest.
End strategies.
