(* ===== verification/TablesInv.v ===== *)
(** * The invariant of the tables

    What FIB, PIT, measurements and strategy choice keep true together: each table's own
    invariant, no empty name tree entry, next hops in every FIB entry, a strategy for the
    root, and timers that belong to the entries that wait for them.  One lemma for each
    way the pipelines change the tables. *)

From stdpp Require Import base gmap list sets strings.
From Stdlib Require Import ZArith Lia.
From S2P Require Import Prelude Tlv Encoder Block Codec Ndn NameTlv Selectors Data Interest FaceTable Double Hashtable NameTree Scheduler NfdTables Fib Pit Cleanup Measurements Forwarder.

Local Open Scope Z_scope.

(** ** Name tree lookup leaves only its result possibly empty *)
Section lookup.
Context `{HashFunction} `{TableEntries T} `{!TableEntriesLaws T}.
Context (o : HashtableOptions) (limit : Z) (counts : list Z) (Hcounts : counts_ok o limit counts = true).
Implicit Types (h : Hashtable T) (x : nat).

Lemma not_empty_child (n : Node T) y : y ∈ nd_children n -> isEmpty n = false.
Proof.
  intros Hy. unfold isEmpty, hasChildren. rewrite bool_decide_false; [done|]. intros E. rewrite E in Hy. by apply not_elem_of_nil in Hy.
Qed.

Lemma nt_lookup_tight h h' name k x :
  nt_inv o counts h -> nt_inv o counts h' -> grown h h' (fun m => m `prefix_of` take k name) -> at_name h' x (take k name) ->
  tight_but h None -> tight_but h' (Some x).
Proof.
  intros Hi Hi' [K N] Hx Ht y m Hy Hne. destruct (ht_nodes h !! y) as [n|] eqn:En.
  - destruct (K y n En) as (m' & Hm' & _ & _ & Et). simplify_eq. pose proof (Ht y n En) as Hn. specialize (Hn ltac:(done)).
    destruct (hasTableEntries (nd_tables n)) eqn:Htb; [unfold isEmpty; rewrite Et, Htb; by rewrite andb_false_r|].
    destruct (nd_children n) as [|c cs] eqn:Ec; [unfold isEmpty, hasChildren in Hn; by rewrite Ec, Htb in Hn|].
    assert (Hc : c ∈ nd_children n) by (rewrite Ec; by left).
    apply (to_children _ (ni_tree _ _ _ Hi) y _ c (tviews_lookup h y n En)) in Hc as (v & Hv & Hp).
    apply tviews_inv in Hv as (nc & Hnc & ->). destruct (K c nc Hnc) as (nc' & Hnc' & _ & Ep & _).
    apply (not_empty_child m c), (parent_child o counts h' c nc' y m Hi' Hnc'); [by rewrite Ep|done].
  - destruct (N y m Hy En) as [[k' Hp] _]. destruct k' as [|c k'].
    { exfalso. apply Hne. f_equal. destruct Hx as (nx & Hnx & Ex).
      apply (do_names _ _ (hi_data _ _ _ (ni_table _ _ _ Hi')) x y nx m Hnx Hy). rewrite Ex, Hp. by rewrite app_nil_r. }
    destruct Hx as (nx & Hnx & Ex).
    destruct (prefix_closed o counts h' (nd_name m ++ [c]) x nx Hi' Hnx) as (z & nz & Hz & Ez).
    { rewrite Ex, Hp. exists k'. by rewrite <- app_assoc. }
    pose proof (to_parent _ (ni_tree _ _ _ Hi') z _ (tviews_lookup h' z nz Hz)) as Hpar. cbn in Hpar.
    destruct (nd_parent nz) as [p|] eqn:Epz; [|rewrite Ez in Hpar; by destruct (nd_name m)].
    destruct Hpar as (pv & c' & (np & Hnp & ->)%tviews_inv & Ep). cbn in Ep. rewrite Ez in Ep. apply app_inj_tail in Ep as [Ep _].
    assert (p = y) as -> by (by apply (do_names _ _ (hi_data _ _ _ (ni_table _ _ _ Hi')) p y np m)).
    apply (not_empty_child m z). by apply (parent_child o counts h' z nz y m).
Qed.

Lemma nt_lookup_full h name k :
  nt_inv o counts h -> (k <= length name)%nat -> (k <= getMaxDepth)%nat -> m_htSize h + Z.of_nat (S getMaxDepth) <= limit ->
  exists x n h', nt_lookup name k h = Ok (x, h') /\ nt_inv o counts h' /\
    ht_nodes h' !! x = Some n /\ nd_name n = take k name /\ nd_tables n = tables_at h (take k name) /\
    grown h h' (fun m => m `prefix_of` take k name) /\ (forall m, tables_at h' m = tables_at h m) /\
    m_htSize h' <= m_htSize h + Z.of_nat (S getMaxDepth) /\ (tight_but h None -> tight_but h' (Some x)).
Proof.
  intros Hi Hl Hd Hlim. destruct (nt_lookup_ok o limit counts Hcounts h name k Hi Hl Hd Hlim)
    as (x & n & h' & E & Hi' & Hx & En & Et & Hg & Hta).
  destruct (lookup_ok o limit counts Hcounts h name k Hi Hl Hd Hlim) as (x2 & h2 & E2 & _ & _ & _ & Hs).
  rewrite E in E2. apply (inj Ok) in E2. injection E2 as -> ->.
  exists x2, n, h2. do 7 (split; [done|]). split; [done|]. intros Ht. apply (nt_lookup_tight h h2 name k); [done..| |done]. by exists n.
Qed.
End lookup.

(** ** The invariant *)

Definition pit_timer (t : NfdTables) (loc : nat) : option nat :=
  match pit_entries t !! loc with
  | Some e => if is_some (pit_nte e) then pit_expiryTimer e else None
  | None => None
  end.
Definition meas_at (t : NfdTables) (x : nat) : option measurements_Entry :=
  ht_nodes (t_nameTree t) !! x ≫= fun n => tb_measurements (nd_tables n).
Definition meas_timer (t : NfdTables) (x : nat) : option nat := meas_at t x ≫= me_cleanup.

Lemma PitExpiry_inj y z : PitExpiry y = PitExpiry z -> y = z.
Proof. by intros [= ->]. Qed.
Lemma MeasurementsCleanup_inj y z : MeasurementsCleanup y = MeasurementsCleanup z -> y = z.
Proof. by intros [= ->]. Qed.
#[export] Hint Resolve PitExpiry_inj MeasurementsCleanup_inj : valdb.

Section tables.
Context `{HashFunction} `{StdSort} `{!StdSortLaws}.
Context (o : HashtableOptions) (limit : Z) (counts : list Z) (Hcounts : counts_ok o limit counts = true).
Implicit Types (t : NfdTables) (x loc : nat) (busy : option nat).

(** The timer of the entry [busy] may still have to be set. *)
Record tables_inv busy t : Prop := {
  ti_fib : fib_inv o counts t;
  ti_pit : pit_inv o counts t;
  ti_tight : tight_but (t_nameTree t) None;
  ti_hops name e : fib_view t !! name = Some e -> hasNextHops e = true;
  ti_root : is_Some (view tb_strategyChoice (t_nameTree t) !! []);
  ti_queue : queue_inv (t_timers t);
  ti_pit_timers : timed (t_timers t) PitExpiry (pit_timer t);
  ti_meas_timers : timed (t_timers t) MeasurementsCleanup (meas_timer t);
  ti_pending loc e : attached (pit_entries t) loc e -> busy <> Some loc -> is_Some (pit_expiryTimer e);
}.

Lemma keeps_meas t t' : keeps tb_measurements (t_nameTree t) (t_nameTree t') -> forall x, meas_at t' x = meas_at t x.
Proof.
  intros [K K'] x. apply option_eq. intros m. unfold meas_at. split; intros (n & Hx & Hm)%bind_Some; apply bind_Some.
  - destruct (K' x n Hx) as (n' & Hx' & _ & Et); [by rewrite Hm|]. exists n'. by rewrite Et.
  - destruct (K x n Hx) as (n' & Hx' & _ & Et); [by rewrite Hm|]. exists n'. by rewrite Et.
Qed.

(** The part of the invariant that another table's change does not touch. *)
Lemma keeps_root t t' :
  nt_inv o counts (t_nameTree t) -> nt_inv o counts (t_nameTree t') -> keeps tb_strategyChoice (t_nameTree t) (t_nameTree t') ->
  view tb_strategyChoice (t_nameTree t') = view tb_strategyChoice (t_nameTree t).
Proof. intros Hi Hi' Hk. by apply (keeps_view tb_strategyChoice o counts); [|apply Hi|apply Hi'|]. Qed.

Lemma tables_inv_fib busy t t' :
  tables_inv busy t -> fib_inv o counts t' -> fib_frame t t' -> tight_but (t_nameTree t') None ->
  (forall name e, fib_view t' !! name = Some e -> hasNextHops e = true) -> tables_inv busy t'.
Proof.
  intros [Hf Hp Ht Hh Hr Hq Hpt Hmt Hpe] Hf' [Hk E] Ht' Hh'. pose proof (fi_tree _ _ _ Hf) as Hi. pose proof (fi_tree _ _ _ Hf') as Hi'.
  assert (Ee : pit_entries t' = pit_entries t /\ pit_fresh t' = pit_fresh t /\ pit_nItems t' = pit_nItems t /\ t_timers t' = t_timers t)
    by (by rewrite E). destruct Ee as (Ee & Efr & En & Etm).
  assert (Hmeas : forall x, meas_timer t' x = meas_timer t x).
  { intros x. unfold meas_timer. rewrite (keeps_meas t t'); [done|]. exact (keeps_compose (setFibEntry None) tb_measurements _ _ Hk). }
  split; [done| |done|done| |by rewrite Etm| | |by rewrite Ee].
  - apply (pit_inv_frame o counts t t'); [done|done| |done|done|done]. exact (keeps_compose (setFibEntry None) tb_pit _ _ Hk).
  - rewrite (keeps_root t t'); [done|done|done|]. exact (keeps_compose (setFibEntry None) tb_strategyChoice _ _ Hk).
  - rewrite Etm. eapply timed_ext; [|exact Hpt]. intros loc. unfold pit_timer. by rewrite Ee.
  - rewrite Etm. by eapply timed_ext.
Qed.

Lemma size_nodes t t' x n n' :
  nt_inv o counts (t_nameTree t) -> nt_inv o counts (t_nameTree t') -> ht_nodes (t_nameTree t) !! x = Some n ->
  ht_nodes (t_nameTree t') = <[x := n']> (ht_nodes (t_nameTree t)) -> m_htSize (t_nameTree t') = m_htSize (t_nameTree t).
Proof.
  intros Hi Hi' Hx E. rewrite (hi_size _ _ _ (ni_table _ _ _ Hi)), (hi_size _ _ _ (ni_table _ _ _ Hi')), E.
  by rewrite map_size_insert_Some by (by eexists).
Qed.

(** Giving an entry a table entry makes the tree tight. *)
Lemma tight_update (h h' : Hashtable Tables) x n f :
  ht_nodes h !! x = Some n -> ht_nodes h' = <[x := set_tables (f (nd_tables n)) n]> (ht_nodes h) ->
  hasTableEntries (f (nd_tables n)) = true -> tight_but h (Some x) -> tight_but h' None.
Proof.
  intros Hx E Hf Ht y m. rewrite E. intros [[<- <-]|[Hne Hy]]%lookup_insert_Some _; [by apply has_tables_not_empty|].
  apply (Ht y m Hy). congruence.
Qed.
Lemma tight_weaken (h : Hashtable Tables) x : tight_but h None -> tight_but h (Some x).
Proof. intros Ht y m Hy _. by apply (Ht y m). Qed.

(** *** A new route *)
Lemma fib_insert_tight t prefix x b t' :
  fib_inv o counts t -> tight_but (t_nameTree t) None -> (length prefix <= getMaxDepth)%nat ->
  m_htSize (t_nameTree t) + Z.of_nat (S getMaxDepth) <= limit -> fib_insert prefix t = Ok (x, b, t') ->
  tight_but (t_nameTree t') None /\ m_htSize (t_nameTree t') <= m_htSize (t_nameTree t) + Z.of_nat (S getMaxDepth).
Proof.
  intros [Hi Hc He] Ht Hd Hlim. destruct (nt_lookup_full o limit counts Hcounts (t_nameTree t) prefix (length prefix) Hi)
    as (y & n & h & El & Hi1 & Hx & En & Et & Hg & Hta & Hs & Htight); [done|done|done|].
  unfold fib_insert. rewrite El. cbn [mbind result_bind]. unfold deref. rewrite Hx. cbn [mbind result_bind].
  destruct (tb_fib (nd_tables n)) as [e|] eqn:Efib.
  - intros [= -> <- <-]. cbn. split; [|done]. intros z m Hz _. destruct (decide (z = x)) as [->|Hne].
    + simplify_eq. apply has_tables_not_empty. cbn. by rewrite Efib.
    + apply (Htight Ht z m Hz). congruence.
  - destruct (nt_update_ok o counts y (setFibEntry (Some (fib_Entry_new prefix))) h n Hi1 Hx) as (h' & -> & Hi2 & Hn & [Hsz _] & _).
    cbn [mbind result_bind]. intros [= -> <- <-]. cbn. split; [|lia].
    apply (tight_update h h' x n (setFibEntry (Some (fib_Entry_new prefix)))); [done|done|done|by apply Htight].
Qed.

Definition room t (k : Z) : Prop := m_htSize (t_nameTree t) + k * Z.of_nat (S getMaxDepth) <= limit.

Lemma add_route_ok busy t prefix face :
  tables_inv busy t -> (length prefix <= getMaxDepth)%nat -> room t 1 ->
  exists x b t1 t' e e', fib_insert prefix t = Ok (x, b, t1) /\ fib_addOrUpdateNextHop x face 0 1 t1 = Ok t' /\
    tables_inv busy t' /\ fib_frame t t' /\ m_htSize (t_nameTree t') <= m_htSize (t_nameTree t) + Z.of_nat (S getMaxDepth) /\
    fib_view t' = <[prefix := e']> (fib_view t) /\ e = default (fib_Entry_new prefix) (fib_view t !! prefix) /\
    hops_map e' = <[(face, 0) := 1]> (hops_map e).
Proof.
  intros Hinv Hd Hroom. pose proof Hinv as [Hf Hp Ht Hh Hr Hq Hpt Hmt Hpe]. unfold room in Hroom.
  destruct (fib_insert_ok o limit counts Hcounts t prefix Hf Hd) as (x & e & t1 & E1 & Hf1 & Hfr1 & Hat & Hv1); [lia|].
  destruct (fib_insert_tight t prefix x _ t1 Hf Ht Hd ltac:(lia) E1) as [Ht1 Hs1].
  pose proof (fib_at_view o counts t1 x prefix e (ni_table _ _ _ (fi_tree _ _ _ Hf1)) Hat) as Hve.
  destruct (fi_entries _ _ _ Hf1 prefix e Hve) as [_ Hok].
  destruct (addOrUpdateNextHop_ok face 0 1 e Hok) as [Hok' Hm'].
  destruct (fib_update_entry_ok o counts t1 x prefix e (addOrUpdateNextHop face 0 1) Hf1 Hat eq_refl Hok')
    as (t' & E' & Hf' & Hfr' & _ & Hv' & n & Hx & Hn' & _).
  exists x, (negb (is_some (fib_view t !! prefix))), t1, t', e, (addOrUpdateNextHop face 0 1 e).
  split; [done|]. split; [exact E'|]. assert (Hfr : fib_frame t t') by (by eapply fib_frame_trans).
  assert (Hvt : fib_view t' = <[prefix := addOrUpdateNextHop face 0 1 e]> (fib_view t) /\ e = default (fib_Entry_new prefix) (fib_view t !! prefix)).
  { rewrite Hv'. destruct (fib_view t !! prefix) as [e0|] eqn:Ee; destruct Hv1 as [-> ->]; [by split|]. by rewrite insert_insert_eq. }
  destruct Hvt as [Hvt Hdef]. split; [apply (tables_inv_fib busy t t'); [done|done|done| |]|].
  - apply (tight_update (t_nameTree t1) (t_nameTree t') x n (setFibEntry (Some (addOrUpdateNextHop face 0 1 e)))); [done|done|done|by apply tight_weaken].
  - intros name e0. rewrite Hvt. intros [[<- <-]|[_ ?]]%lookup_insert_Some; [|by eapply Hh].
    rewrite hasNextHops_map, Hm', bool_decide_false; [done|]. apply insert_non_empty.
  - split; [done|]. split; [|done]. rewrite (size_nodes t1 t' x n _ (fi_tree _ _ _ Hf1) (fi_tree _ _ _ Hf') Hx Hn'). done.
Qed.

(** *** PIT entries *)

Lemma fib_inv_ext t t' : fib_inv o counts t -> t_nameTree t' = t_nameTree t -> fib_nItems t' = fib_nItems t -> fib_inv o counts t'.
Proof. intros [Ha Hb Hc] E1 E2. split; unfold fib_view; rewrite ?E1, ?E2; done. Qed.

(** The heap and the timers change, the name tree does not. *)
Lemma tables_inv_heap busy busy' t t' :
  tables_inv busy t -> t_nameTree t' = t_nameTree t -> fib_nItems t' = fib_nItems t -> pit_inv o counts t' ->
  queue_inv (t_timers t') -> timed (t_timers t') PitExpiry (pit_timer t') -> timed (t_timers t') MeasurementsCleanup (meas_timer t) ->
  (forall loc e, attached (pit_entries t') loc e -> busy' <> Some loc -> is_Some (pit_expiryTimer e)) -> tables_inv busy' t'.
Proof.
  intros [Hf Hp Ht Hh Hr Hq Hpt Hmt Hpe] Et En Hp' Hq' Hpt' Hmt' Hpe'. split; [by eapply fib_inv_ext|done|by rewrite Et| |by rewrite Et|done|done| |done].
  - intros name e. unfold fib_view. rewrite Et. apply Hh.
  - eapply timed_ext; [|exact Hmt']. intros x. unfold meas_timer, meas_at. by rewrite Et.
Qed.

Lemma tables_inv_modify busy t loc e e' f :
  tables_inv busy t -> pit_entries t !! loc = Some e -> f e = Ok e' ->
  pit_nte e' = pit_nte e -> pit_expiryTimer e' = pit_expiryTimer e -> i_name (pit_interest e') = i_name (pit_interest e) ->
  i_selectors (pit_interest e') = i_selectors (pit_interest e) -> records_ok e' ->
  pit_modify loc f t = Ok (pit_store loc e' t) /\ tables_inv busy (pit_store loc e' t) /\ pit_map (pit_store loc e' t) = pit_map t.
Proof.
  intros Hinv He Hf Hnte Htm Hnm Hsl Hrec. pose proof Hinv as [Hf' Hp Ht Hh Hr Hq Hpt Hmt Hpe].
  destruct (pit_modify_ok o counts t loc e e' f Hp He Hf Hnte Hnm Hsl Hrec) as (t' & E & Hp' & Hm & _ & ->).
  split; [done|]. split; [|done]. apply (tables_inv_heap busy busy t); [done|done|done|done|done| |done|].
  - eapply timed_ext; [|exact Hpt]. intros l. unfold pit_timer. cbn. destruct (decide (l = loc)) as [->|Hne].
    + by rewrite lookup_insert_eq, He, Hnte, Htm.
    + by rewrite lookup_insert_ne by done.
  - intros l e1 [Hl Hs] Hb. cbn in Hl. apply lookup_insert_Some in Hl as [[<- <-]|[Hne He1]]; [|by apply (Hpe l e1)]. rewrite Htm. apply (Hpe loc e); [|done].
    split; [done|by rewrite <- Hnte].
Qed.

Lemma pit_inv_timers q t : pit_inv o counts t -> pit_inv o counts (on_timers q t).
Proof. intros Hp. apply (pit_inv_frame o counts t); [done|apply Hp|reflexivity|done|done|done]. Qed.

Lemma set_timer_ok busy t loc e now d :
  tables_inv busy t -> attached (pit_entries t) loc e -> busy = None \/ busy = Some loc ->
  let q := schedule now d (PitExpiry loc) (cancel (pit_expiryTimer e) (t_timers t)) in
  let e' := with_timer (Some q.1) e in
  pit_modify loc (fun e => Ok (with_timer (Some q.1) e)) (on_timers q.2 t) = Ok (pit_store loc e' (on_timers q.2 t)) /\
  tables_inv None (pit_store loc e' (on_timers q.2 t)) /\ pit_map (pit_store loc e' (on_timers q.2 t)) = pit_map t.
Proof.
  intros Hinv Ha Hb q e'. pose proof Hinv as [Hf Hp Ht Hh Hr Hq Hpt Hmt Hpe]. destruct Ha as [He Hs].
  assert (Hn : is_some (pit_nte e) = true) by (by destruct Hs as [? ->]).
  assert (Htm : pit_timer t loc = pit_expiryTimer e) by (unfold pit_timer; by rewrite He, Hn).
  destruct (po_entries _ _ (pv_ok _ _ _ Hp) loc e He) as [_ Hrec].
  destruct (pit_modify_ok o counts (on_timers q.2 t) loc e e' (fun e => Ok (with_timer (Some q.1) e)) (pit_inv_timers q.2 t Hp) He eq_refl)
    as (t' & E & Hp' & Hm & _ & ->); [done|done|done|by destruct Hrec; split|].
  set (t' := pit_store loc e' (on_timers q.2 t)) in *. split; [done|]. split; [|done].
  assert (Hqc : queue_inv (cancel (pit_expiryTimer e) (t_timers t))) by auto with valdb.
  set (f1 := fun l => if decide (l = loc) then None else pit_timer t l).
  assert (Htc : timed (cancel (pit_expiryTimer e) (t_timers t)) PitExpiry f1).
  { rewrite <- Htm. apply (timed_cancel _ PitExpiry (pit_timer t) f1 loc); [done|done|by auto with valdb|by unfold f1; rewrite decide_True|].
    intros y Hy. unfold f1. by rewrite decide_False. }
  apply (tables_inv_heap busy None t); [done|done|done|done| | | |].
  - cbn. apply (queue_inv_schedule now d (PitExpiry loc)). done.
  - apply (timed_schedule now d _ PitExpiry f1 (pit_timer t') loc); [by auto with valdb|done|by unfold f1; rewrite decide_True| |].
    + unfold pit_timer, t'. cbn. rewrite lookup_insert_eq. cbn. by rewrite Hn.
    + intros y Hy. unfold pit_timer, t', f1. cbn. rewrite lookup_insert_ne, decide_False by done. done.
  - apply timed_schedule_other; [done|]. rewrite <- Htm. apply (timed_cancel_other _ PitExpiry (pit_timer t)); [done|done|by auto with valdb|done|done].
  - intros l e1 [Hl Hs1] _. cbn in Hl. apply lookup_insert_Some in Hl as [[<- <-]|[Hne He1]]; [by eexists|]. apply (Hpe l e1); [done|].
    destruct Hb as [->| ->]; congruence.
Qed.

(** *** Inserting an Interest *)
Lemma pit_insert_tight t i loc b t' :
  pit_inv o counts t -> tight_but (t_nameTree t) None -> sel_ok (i_selectors i) -> room t 1 ->
  pit_insert i t = Ok (Some loc, b, t') ->
  tight_but (t_nameTree t') None /\ m_htSize (t_nameTree t') <= m_htSize (t_nameTree t) + Z.of_nat (S getMaxDepth).
Proof.
  intros Hp Ht Hsel Hroom. unfold room in Hroom. destruct (nteDepth_bounds (i_name i)) as [Hd Hm].
  destruct (nt_lookup_full o limit counts Hcounts (t_nameTree t) (i_name i) (nteDepth (i_name i)) (pv_tree _ _ _ Hp) Hd Hm)
    as (x & n & h & El & Hi1 & Hx & En & Et & Hg & Hta & Hs & Htight); [lia|]. set (t1 := with_nameTree h t).
  assert (Hp1 : pit_inv o counts t1) by (eapply pit_inv_frame; [exact Hp|exact Hi1|by eapply keeps_grown|done|done|done]).
  unfold pit_insert, pit_findOrInsert. cbv zeta. rewrite El. cbn [mbind result_bind]. fold t1. unfold deref.
  change (ht_nodes (t_nameTree t1)) with (ht_nodes h). rewrite Hx. cbn [mbind result_bind].
  rewrite (find_match_ok o counts t1 x n i Hp1 Hsel Hx En). cbn [mbind result_bind].
  destruct (pit_map t1 !! interest_key i) as [l|] eqn:E; cbn [is_some negb].
  - intros [= -> <- <-]. cbn. split; [|lia].
    assert (Hne : tb_pit (nd_tables n) <> []).
    { pose proof (pv_ok _ _ _ Hp1) as [L A _ U W]. apply key_map_at in E as (e & [He [y Hy]] & Ek); [|done].
      destruct (A loc e y He Hy) as (nm & l & Hl & Hin). pose proof Hl as (m & Hmy & Em & Elst). intros E0.
      destruct (L y nm l loc Hl Hin) as (e' & He' & _ & Enm). simplify_eq. injection Ek as Ei _. rewrite Ei in Enm.
      change (ht_nodes h !! y = Some m) in Hmy.
      assert (y = x) as ->; [|assert (m = n) as -> by congruence; rewrite E0 in Hin; by apply not_elem_of_nil in Hin].
      apply (do_names _ _ (hi_data _ _ _ (ni_table _ _ _ Hi1)) y x m n); [done|done|by rewrite Enm, En]. }
    intros y m Hy _. destruct (decide (y = x)) as [->|Hyx]; [|apply (Htight Ht y m Hy); congruence].
    simplify_eq. apply has_tables_not_empty. cbn. rewrite bool_decide_false by done. by rewrite orb_true_r.
  - destruct (nt_update_ok o counts x (fun tb => setPitEntries (tb_pit tb ++ [pit_fresh t1]) tb) h n Hi1 Hx) as (h' & Eu & Hi2 & Hn & [Hsz _] & _).
    unfold make_pit_entry, insertPitEntry, pit_deref. cbn [pit_entries with_pit]. rewrite lookup_insert_eq. cbn [mbind result_bind].
    cbn [pit_nte pit_Entry_new]. rewrite bool_decide_true by done. cbn [t_nameTree with_pit with_nameTree t1] in *. rewrite Eu. cbn [mbind result_bind].
    intros [= _ <- <-]. cbn. split; [|lia].
    apply (tight_update h h' x n (fun tb => setPitEntries (tb_pit tb ++ [pit_fresh t1]) tb)); [done|done| |by apply Htight].
    cbn. rewrite bool_decide_false; [by rewrite orb_true_r|]. by destruct (tb_pit (nd_tables n)).
Qed.

Lemma tables_inv_insert t i :
  tables_inv None t -> sel_ok (i_selectors i) -> room t 1 ->
  exists loc t' e, pit_insert i t = Ok (Some loc, negb (is_some (pit_map t !! interest_key i)), t') /\
    tables_inv (if is_some (pit_map t !! interest_key i) then None else Some loc) t' /\ pit_frame t t' /\
    m_htSize (t_nameTree t') <= m_htSize (t_nameTree t) + Z.of_nat (S getMaxDepth) /\
    attached (pit_entries t') loc e /\ pit_key e = interest_key i /\
    match pit_map t !! interest_key i with
    | Some loc' => loc = loc' /\ pit_entries t' = pit_entries t
    | None => pit_entries t !! loc = None /\ pit_entries t' = <[loc := e]> (pit_entries t) /\ exists x, e = with_nte (Some x) (pit_Entry_new i)
    end.
Proof.
  intros Hinv Hsel Hroom. pose proof Hinv as [Hf Hp Ht Hh Hr Hq Hpt Hmt Hpe].
  destruct (pit_insert_ok o limit counts Hcounts t i Hp Hsel) as (loc & t' & E & Hp' & [Hk Eq] & Hm); [unfold room in Hroom; lia|].
  destruct (pit_insert_tight t i loc _ t' Hp Ht Hsel Hroom E) as [Ht' Hs'].
  pose proof (pv_tree _ _ _ Hp') as Hi'. pose proof (pv_tree _ _ _ Hp) as Hi.
  assert (Hv : fib_view t' = fib_view t).
  { apply (keeps_view tb_fib o counts); [done|apply Hi|apply Hi'|]. exact (keeps_compose (setPitEntries []) tb_fib _ _ Hk). }
  assert (Hfi : fib_inv o counts t').
  { destruct Hf as [_ Hf2 Hf3]. split; [done|rewrite Hv; by rewrite Eq|by rewrite Hv]. }
  assert (Hinv' : forall busy', timed (t_timers t) PitExpiry (pit_timer t') ->
    (forall loc e, attached (pit_entries t') loc e -> busy' <> Some loc -> is_Some (pit_expiryTimer e)) -> tables_inv busy' t').
  { intros busy' Hpt' Hpe'. assert (Etm : t_timers t' = t_timers t) by (by rewrite Eq).
    split; [done|done|done|by rewrite Hv| |by rewrite Etm|by rewrite Etm| |done].
    - rewrite (keeps_root t t'); [done|done|done|]. exact (keeps_compose (setPitEntries []) tb_strategyChoice _ _ Hk).
    - rewrite Etm. eapply timed_ext; [|exact Hmt]. intros x. unfold meas_timer. rewrite (keeps_meas t t'); [done|].
      exact (keeps_compose (setPitEntries []) tb_measurements _ _ Hk). }
  destruct (pit_map t !! interest_key i) as [l|] eqn:Em; cbn [is_some negb] in *.
  - destruct Hm as (-> & Hm & Ee). apply key_map_at in Em as (e & Ha & Ek); [|apply (pv_ok _ _ _ Hp)].
    exists l, t', e. rewrite Ee. split; [done|]. split; [|by split_and!]. apply Hinv'.
    + eapply timed_ext; [|exact Hpt]. intros l'. unfold pit_timer. by rewrite Ee.
    + by rewrite Ee.
  - destruct Hm as (Hnone & Hm & x & Ee). exists loc, t', (with_nte (Some x) (pit_Entry_new i)). split; [done|].
    split; [apply Hinv'|].
    + eapply timed_ext; [|exact Hpt]. intros l'. unfold pit_timer. rewrite Ee. destruct (decide (l' = loc)) as [->|Hne].
      * by rewrite lookup_insert_eq, Hnone.
      * by rewrite lookup_insert_ne by done.
    + intros l' e1 [Hl Hs1] Hb. rewrite Ee in Hl. apply lookup_insert_Some in Hl as [[<- _]|[_ Hl]]; [done|]. by apply (Hpe l' e1).
    + rewrite Ee. split; [done|]. split; [done|]. split; [split; [apply lookup_insert_eq|by eexists]|]. split; [done|]. by eauto.
Qed.

(** *** Timers that run *)
Lemma cancel_absent {K} (q : EventQueue K) id : (forall ev, ev ∈ m_queue q -> ev_id ev <> id) -> cancel (Some id) q = q.
Proof.
  intros Hno. destruct q as [l k]. cbn in *. f_equal. apply erase_first_not_found, find_first_None.
  intros ev Hev. apply bool_decide_eq_false. by apply Hno.
Qed.

Lemma popped_absent {K} now (q : EventQueue K) e q' : queue_inv q -> pop_due now q = Some (e, q') ->
  forall ev, ev ∈ m_queue q' -> ev_id ev <> ev_id e.
Proof.
  intros (_ & Hd & _) Hp ev Hev E. unfold pop_due in Hp. destruct (m_queue q) as [|z l]; [done|]. case_match; [done|].
  injection Hp as -> <-. csimpl in Hd. apply NoDup_cons in Hd as [Hd _]. apply Hd. rewrite <- E. by apply list_elem_of_fmap_2.
Qed.

Lemma pit_timer_owner now t ev q' loc : tables_inv None t -> pop_due now (t_timers t) = Some (ev, q') -> ev_callback ev = PitExpiry loc ->
  exists e, attached (pit_entries t) loc e /\ pit_expiryTimer e = Some (ev_id ev).
Proof.
  intros Hinv Hpop Hc. assert (Hev : ev ∈ m_queue (t_timers t)) by (apply (elem_of_pop now _ ev q'); [done|by left]).
  assert (E : pit_timer t loc = Some (ev_id ev)) by (apply (ti_pit_timers _ _ Hinv); by exists ev).
  unfold pit_timer in E. destruct (pit_entries t !! loc) as [e|] eqn:Ee; [|done]. destruct (pit_nte e) eqn:En; [|done].
  exists e. split; [split; [done|by rewrite En]|done].
Qed.

(** The entry whose timer runs is erased. *)
Lemma tables_inv_finalize now t ev q' loc e :
  tables_inv None t -> pop_due now (t_timers t) = Some (ev, q') -> ev_callback ev = PitExpiry loc -> attached (pit_entries t) loc e ->
  exists t', pit_erase loc true (on_timers q' t) = Ok t' /\ tables_inv None t' /\ pit_frame (on_timers q' t) t' /\
    pit_entries t' = <[loc := with_nte None e]> (pit_entries t) /\ pit_map t' = delete (pit_key e) (pit_map t).
Proof.
  intros Hinv Hpop Hc Ha. pose proof Hinv as [Hf Hp Ht Hh Hr Hq Hpt Hmt Hpe]. set (t0 := on_timers q' t).
  destruct (pit_erase_ok o limit counts Hcounts t0 loc e true (pit_inv_timers q' t Hp) Ha) as (t' & E & Hp' & [Hk Eq] & Hm & Ee & Htight).
  exists t'. split; [done|]. assert (Hq' : queue_inv q') by (by eapply queue_inv_pop).
  pose proof (pv_tree _ _ _ Hp') as Hi'. pose proof (pv_tree _ _ _ Hp) as Hi.
  assert (Hv : fib_view t' = fib_view t).
  { apply (keeps_view tb_fib o counts); [done|apply Hi|apply Hi'|]. exact (keeps_compose (setPitEntries []) tb_fib _ _ Hk). }
  assert (Etm : t_timers t' = q') by (by rewrite Eq).
  split; [split; [|done| | | |by rewrite Etm| | |]|split; [by split|]].
  - destruct Hf as [_ Hf2 Hf3]. split; [done|rewrite Hv; by rewrite Eq|by rewrite Hv].
  - by apply Htight.
  - by rewrite Hv.
  - rewrite (keeps_root t t'); [done|done|done|]. exact (keeps_compose (setPitEntries []) tb_strategyChoice _ _ Hk).
  - rewrite Etm. apply (timed_pop now (t_timers t) ev q' PitExpiry (pit_timer t) _ loc); [done|done|by auto with valdb|done|done| |].
    + unfold pit_timer. by rewrite Ee, lookup_insert_eq.
    + intros y Hy. unfold pit_timer. rewrite Ee, lookup_insert_ne by done. done.
  - rewrite Etm. apply (timed_pop_other now (t_timers t) ev q'); [done|by rewrite Hc|]. eapply timed_ext; [|exact Hmt].
    intros x. unfold meas_timer. rewrite (keeps_meas t t'); [done|]. exact (keeps_compose (setPitEntries []) tb_measurements _ _ Hk).
  - intros l e1 [Hl Hs] _. rewrite Ee in Hl. apply lookup_insert_Some in Hl as [[<- <-]|[_ Hl]]; [by destruct Hs|]. by apply (Hpe l e1).
  - by split.
Qed.

(** *** The effective strategy *)
Lemma attached_at t loc e : pit_inv o counts t -> attached (pit_entries t) loc e ->
  exists x, pit_nte e = Some x /\ at_name (t_nameTree t) x (take (nteDepth (i_name (pit_interest e))) (i_name (pit_interest e))).
Proof.
  intros Hp [He [x Hx]]. pose proof (pv_ok _ _ _ Hp) as [L A _ _ _]. destruct (A loc e x He Hx) as (nm & l & Hl & Hin).
  destruct (L x nm l loc Hl Hin) as (e' & He' & _ & En). simplify_eq. exists x. split; [done|]. destruct Hl as (n & Hn & <- & _). by exists n.
Qed.

Lemma pit_lpm_ok {A} (f : Tables -> option A) (Hf : f no_tables = None) t loc e :
  pit_inv o counts t -> attached (pit_entries t) loc e ->
  exists nte r, pit_nte e = Some nte /\
    findLongestPrefixMatch_pit (i_name (pit_interest e)) nte (fun n => is_some (f (nd_tables n))) (t_nameTree t) = Ok r /\
    match r with
    | Some x => exists n a, ht_nodes (t_nameTree t) !! x = Some n /\ f (nd_tables n) = Some a /\
        map_lpm (view f (t_nameTree t)) (i_name (pit_interest e)) (Some (nd_name n, a))
    | None => map_lpm (view f (t_nameTree t)) (i_name (pit_interest e)) None
    end.
Proof.
  intros Hp Ha. destruct (attached_at t loc e Hp Ha) as (x & Hx & Hat). exists x. pose proof (pv_tree _ _ _ Hp) as Hi.
  destruct (lpm_pit_ok o counts (t_nameTree t) (i_name (pit_interest e)) x _ (fun n => is_some (f (nd_tables n))) Hi Hat) as (r & E & Hr);
    [apply nteDepth_bounds|]. exists r. split; [done|]. split; [done|].
  by apply (lpm_view f Hf o counts); [apply Hi|].
Qed.

(** *** Measurements *)

(** Only measurements and timers change. *)
Definition meas_frame t t' : Prop :=
  keeps (setMeasurementsEntry None) (t_nameTree t) (t_nameTree t') /\
  t' = with_measurements (measurements_nItems t') (t_timers t') (with_nameTree (t_nameTree t') t).

Lemma tables_inv_meas t t' :
  tables_inv None t -> nt_inv o counts (t_nameTree t') -> meas_frame t t' -> tight_but (t_nameTree t') None -> queue_inv (t_timers t') ->
  timed (t_timers t') PitExpiry (pit_timer t) -> timed (t_timers t') MeasurementsCleanup (meas_timer t') -> tables_inv None t'.
Proof.
  intros [Hf Hp Ht Hh Hr Hq Hpt Hmt Hpe] Hi' [Hk Eq] Ht' Hq' Hpt' Hmt'. pose proof (pv_tree _ _ _ Hp) as Hi.
  assert (Hv : fib_view t' = fib_view t).
  { apply (keeps_view tb_fib o counts); [done|apply Hi|apply Hi'|]. exact (keeps_compose (setMeasurementsEntry None) tb_fib _ _ Hk). }
  assert (Ee : pit_entries t' = pit_entries t) by (by rewrite Eq).
  split; [| |done|by rewrite Hv| |done| |done|by rewrite Ee].
  - destruct Hf as [_ Hf2 Hf3]. split; [done|rewrite Hv; by rewrite Eq|by rewrite Hv].
  - apply (pit_inv_frame o counts t); [done|done| |done|by rewrite Eq|by rewrite Eq].
    exact (keeps_compose (setMeasurementsEntry None) tb_pit _ _ Hk).
  - rewrite (keeps_root t t'); [done|done|done|]. exact (keeps_compose (setMeasurementsEntry None) tb_strategyChoice _ _ Hk).
  - eapply timed_ext; [|exact Hpt']. intros l. unfold pit_timer. by rewrite Ee.
Qed.

Lemma meas_at_update t h x n m q k :
  ht_nodes (t_nameTree t) !! x = Some n -> ht_nodes h = <[x := set_tables (setMeasurementsEntry m (nd_tables n)) n]> (ht_nodes (t_nameTree t)) ->
  let t' := with_measurements k q (with_nameTree h t) in
  meas_at t' x = m /\ forall y, y <> x -> meas_at t' y = meas_at t y.
Proof.
  intros Hx E t'. unfold meas_at, t'. cbn. rewrite E. split; [by rewrite lookup_insert_eq|].
  intros y Hy. by rewrite lookup_insert_ne.
Qed.

(** A new entry has a timer for its lifetime; an old one stays as it is. *)
Lemma measurements_get_nte_ok now t x n :
  tables_inv None t -> ht_nodes (t_nameTree t) !! x = Some n ->
  exists t' m, measurements_get_nte now x t = Ok t' /\ tables_inv None t' /\ meas_frame t t' /\ meas_at t' x = Some m /\
    m = default (mkMeasurementsEntry (nd_name n) (now + getInitialLifetime) (Some (next_id (t_timers t))) ∅) (meas_at t x) /\
    (forall y, y <> x -> meas_at t' y = meas_at t y).
Proof.
  intros Hinv Hx. pose proof Hinv as [Hf Hp Ht Hh Hr Hq Hpt Hmt Hpe]. pose proof (pv_tree _ _ _ Hp) as Hi.
  unfold measurements_get_nte, deref. rewrite Hx. cbn [mbind result_bind].
  assert (Em : meas_at t x = tb_measurements (nd_tables n)) by (unfold meas_at; by rewrite Hx).
  destruct (tb_measurements (nd_tables n)) as [m|] eqn:Et.
  - exists t, m. rewrite Em. split; [done|]. split; [done|]. split; [split; [done|by destruct t]|]. done.
  - set (m := mkMeasurementsEntry (nd_name n) (now + getInitialLifetime) (Some (next_id (t_timers t))) ∅).
    destruct (nt_update_ok o counts x (setMeasurementsEntry (Some m)) (t_nameTree t) n Hi Hx) as (h & E & Hi' & Hn & _).
    cbn [schedule]. fold m. rewrite E. cbn [mbind result_bind]. set (q := mkEventQueue _ _). set (t' := with_measurements _ q _).
    destruct (meas_at_update t h x n (Some m) q (u64 (measurements_nItems t + 1)) Hx Hn) as [Hmx Hmy]. fold t' in Hmx, Hmy.
    exists t', m. split; [done|]. assert (Hfr : meas_frame t t').
    { split; [|by destruct t]. by apply (keeps_update (setMeasurementsEntry None) x (setMeasurementsEntry (Some m) (nd_tables n)) _ _ n). }
    split; [|by rewrite Em]. apply (tables_inv_meas t t'); [done|done|done| | | |].
    + apply (tight_update (t_nameTree t) h x n (setMeasurementsEntry (Some m))); [done|done| |by apply tight_weaken].
      cbn. by rewrite orb_true_r.
    + by apply (queue_inv_schedule now getInitialLifetime (MeasurementsCleanup x)).
    + by apply (timed_schedule_other now getInitialLifetime _ (MeasurementsCleanup x)).
    + apply (timed_schedule now getInitialLifetime _ MeasurementsCleanup (meas_timer t)); [by auto with valdb|done| | |].
      * unfold meas_timer. by rewrite Em.
      * unfold meas_timer. by rewrite Hmx.
      * intros y Hy. unfold meas_timer. by rewrite Hmy.
Qed.

(** A lifetime is only extended. *)
Lemma extendLifetime_ok now t x m lifetime :
  tables_inv None t -> meas_at t x = Some m ->
  exists t' m', extendLifetime now x lifetime t = Ok t' /\ tables_inv None t' /\ meas_frame t t' /\ meas_at t' x = Some m' /\
    me_expiry m' = Z.max (me_expiry m) (now + lifetime) /\ (forall y, y <> x -> meas_at t' y = meas_at t y).
Proof.
  intros Hinv Hm. pose proof Hinv as [Hf Hp Ht Hh Hr Hq Hpt Hmt Hpe]. pose proof (pv_tree _ _ _ Hp) as Hi.
  pose proof Hm as (n & Hx & Em)%bind_Some. unfold extendLifetime, measurements_at, deref. rewrite Hx. cbn [mbind result_bind]. rewrite Em.
  destruct (now + lifetime <=? me_expiry m) eqn:El; zbool.
  - exists t, m. split; [done|]. split; [done|]. split; [split; [done|by destruct t]|]. split; [done|]. split; [lia|done].
  - assert (Hc : me_cleanup m = meas_timer t x) by (unfold meas_timer; by rewrite Hm). rewrite Hc.
    set (q0 := cancel (meas_timer t x) (t_timers t)).
    set (m' := mkMeasurementsEntry (me_name m) (now + lifetime) (Some (next_id q0)) (me_info m)).
    destruct (nt_update_ok o counts x (setMeasurementsEntry (Some m')) (t_nameTree t) n Hi Hx) as (h & E & Hi' & Hn & _).
    cbn [schedule]. fold q0. fold m'. rewrite E. cbn [mbind result_bind]. set (q := mkEventQueue _ _). set (t' := with_measurements _ q _).
    destruct (meas_at_update t h x n (Some m') q (measurements_nItems t) Hx Hn) as [Hmx Hmy]. fold t' in Hmx, Hmy.
    exists t', m'. split; [done|]. assert (Hfr : meas_frame t t').
    { split; [|by destruct t]. by apply (keeps_update (setMeasurementsEntry None) x (setMeasurementsEntry (Some m') (nd_tables n)) _ _ n). }
    set (f1 := fun l => if decide (l = x) then None else meas_timer t l).
    split; [|split; [done|split; [done|split; [cbn; lia|done]]]]. apply (tables_inv_meas t t'); [done|done|done| | | |].
    + apply (tight_update (t_nameTree t) h x n (setMeasurementsEntry (Some m'))); [done|done| |by apply tight_weaken].
      cbn. by rewrite orb_true_r.
    + apply (queue_inv_schedule now lifetime (MeasurementsCleanup x)). by apply queue_inv_cancel.
    + apply (timed_schedule_other now lifetime _ (MeasurementsCleanup x)); [done|].
      apply (timed_cancel_other _ MeasurementsCleanup (meas_timer t)); [done|done|by auto with valdb|done|done].
    + apply (timed_schedule now lifetime _ MeasurementsCleanup f1); [by auto with valdb| |by unfold f1; rewrite decide_True| |].
      * apply (timed_cancel _ MeasurementsCleanup (meas_timer t) f1 x); [done|done|by auto with valdb|by unfold f1; rewrite decide_True|].
        intros y Hy. unfold f1. by rewrite decide_False.
      * unfold meas_timer. by rewrite Hmx.
      * intros y Hy. unfold meas_timer, f1. by rewrite Hmy, decide_False.
Qed.

(** The entry whose timer runs is dropped. *)
Lemma tables_inv_cleanup now t ev q' x :
  tables_inv None t -> pop_due now (t_timers t) = Some (ev, q') -> ev_callback ev = MeasurementsCleanup x ->
  exists t', measurements_cleanup x (on_timers q' t) = Ok t' /\ tables_inv None t' /\ meas_frame t t' /\
    meas_at t' x = None /\ (forall y, y <> x -> meas_at t' y = meas_at t y).
Proof.
  intros Hinv Hpop Hc. pose proof Hinv as [Hf Hp Ht Hh Hr Hq Hpt Hmt Hpe]. pose proof (pv_tree _ _ _ Hp) as Hi.
  assert (Hev : ev ∈ m_queue (t_timers t)) by (apply (elem_of_pop now _ ev q'); [done|by left]).
  assert (Etm : meas_timer t x = Some (ev_id ev)) by (apply Hmt; by exists ev).
  apply bind_Some in Etm as (m & Hm & _). pose proof Hm as (n & Hx & Em)%bind_Some.
  unfold measurements_cleanup, measurements_at, deref. cbn [t_nameTree on_timers with_measurements]. rewrite Hx. cbn [mbind result_bind]. rewrite Em.
  destruct (nt_update_ok o counts x (setMeasurementsEntry None) (t_nameTree t) n Hi Hx) as (h & -> & Hi1 & Hn & _). cbn [mbind result_bind].
  assert (Hx1 : ht_nodes h !! x = Some (set_tables (setMeasurementsEntry None (nd_tables n)) n)) by (rewrite Hn; apply lookup_insert_eq).
  destruct (nt_erase_ok o limit counts Hcounts h x _ true Hi1 Hx1) as (k & h' & -> & Hi2 & Hsh & _ & Hta & Htight & _). cbn [mbind result_bind snd].
  set (t1 := with_measurements (u64 (measurements_nItems t - 1)) q' (with_nameTree h t)).
  set (t' := with_measurements (u64 (measurements_nItems t - 1)) q' (with_nameTree h' t)).
  destruct (meas_at_update t h x n None q' (u64 (measurements_nItems t - 1)) Hx Hn) as [Hmx Hmy]. fold t1 in Hmx, Hmy.
  assert (Hk : keeps tb_measurements h h') by (by eapply keeps_shrunk). pose proof (keeps_meas t1 t' Hk) as Hmeas.
  assert (Hfr : meas_frame t t').
  { split; [|by destruct t]. etrans; [|by eapply keeps_shrunk].
    by apply (keeps_update (setMeasurementsEntry None) x (setMeasurementsEntry None (nd_tables n)) _ _ n). }
  exists t'. split; [by destruct t|]. split; [|split; [done|split; [by rewrite Hmeas|intros y Hy; by rewrite Hmeas, Hmy]]].
  apply (tables_inv_meas t t'); [done|done|done| |by eapply queue_inv_pop| |].
  - apply Htight; [done|]. intros y w. rewrite Hn. intros [[<- _]|[Hy Hw]]%lookup_insert_Some Hne; [done|]. by apply (Ht y w).
  - apply (timed_pop_other now (t_timers t) ev q'); [done|by rewrite Hc|done].
  - apply (timed_pop now (t_timers t) ev q' MeasurementsCleanup (meas_timer t) _ x); [done|done|by auto with valdb|done|done| |].
    + unfold meas_timer. by rewrite Hmeas, Hmx.
    + intros y Hy. unfold meas_timer. by rewrite Hmeas, Hmy.
Qed.

(** *** Other timers *)
Lemma tables_inv_timers busy t q : tables_inv busy t -> queue_inv q -> timed q PitExpiry (pit_timer t) ->
  timed q MeasurementsCleanup (meas_timer t) -> tables_inv busy (on_timers q t).
Proof.
  intros Hinv Hq Hpt Hmt. apply (tables_inv_heap busy busy t); [done|done|done|apply pit_inv_timers, Hinv|done|done|done|]. apply Hinv.
Qed.

(** A timer that belongs to no entry runs and is scheduled again. *)
Lemma tables_inv_tick now now' t ev q k after :
  tables_inv None t -> pop_due now (t_timers t) = Some (ev, q) ->
  (forall loc, PitExpiry loc <> ev_callback ev /\ PitExpiry loc <> k) ->
  (forall x, MeasurementsCleanup x <> ev_callback ev /\ MeasurementsCleanup x <> k) ->
  tables_inv None (on_timers (schedule now' after k q).2 t).
Proof.
  intros Hinv Hpop Hp Hm. pose proof Hinv as [_ _ _ _ _ Hq Hpt Hmt _]. apply tables_inv_timers; [done| | |].
  - apply (queue_inv_schedule now' after k). by eapply queue_inv_pop.
  - apply timed_schedule_other; [by intros y; apply Hp|]. by apply (timed_pop_other now (t_timers t) ev q); [|intros y; apply Hp|].
  - apply timed_schedule_other; [by intros y; apply Hm|]. by apply (timed_pop_other now (t_timers t) ev q); [|intros y; apply Hm|].
Qed.

(** *** The removal of a face *)
Lemma tables_inv_removal t face :
  tables_inv None t ->
  exists t', cleanupOnFaceRemoval face t = Ok t' /\ tables_inv None t' /\
    (forall name e' nh, fib_view t' !! name = Some e' -> nh ∈ fe_nextHops e' ->
       nh_face nh <> face /\ exists e, fib_view t !! name = Some e /\ nh ∈ fe_nextHops e) /\
    (forall loc e', attached (pit_entries t') loc e' -> exists e, attached (pit_entries t) loc e /\ cleaned face e e') /\
    (forall loc e, attached (pit_entries t) loc e -> exists e', attached (pit_entries t') loc e' /\ cleaned face e e').
Proof.
  intros [Hf Hp Ht Hh Hr Hq Hpt Hmt Hpe].
  destruct (cleanupOnFaceRemoval_ok o limit counts Hcounts t Hf Hp face) as (t' & E & Hf' & Hp' & Ht' & Hta & _ & Hm & He & Hk & Efr).
  exists t'. split; [done|].
  assert (Hfwd : forall loc e, attached (pit_entries t) loc e -> exists e', attached (pit_entries t') loc e' /\ cleaned face e e').
  { intros loc e [Hl [x Hx]]. destruct (He loc e Hl) as (e' & Hl' & Hc). rewrite Hx in Hc. cbn in Hc. exists e'. split; [|done].
    split; [done|]. rewrite (cd_nte _ _ _ Hc), Hx. by eexists. }
  assert (Hbwd : forall loc e', attached (pit_entries t') loc e' -> exists e, attached (pit_entries t) loc e /\ cleaned face e e').
  { intros loc e' Ha. assert (Hkm : pit_map t' !! pit_key e' = Some loc) by (apply key_map_at; [apply (pv_ok _ _ _ Hp')|by exists e']).
    rewrite Hm in Hkm. apply key_map_at in Hkm as (e & Ha0 & _); [|apply (pv_ok _ _ _ Hp)]. exists e. split; [done|].
    destruct (Hfwd loc e Ha0) as (e1 & Ha1 & Hc). destruct Ha as [Hl _], Ha1 as [Hl1 _]. congruence. }
  assert (Etm : t_timers t' = t_timers t) by (by rewrite Efr).
  assert (Hv : forall name, fib_view t' !! name = clean_fib face (fib_view t !! name)).
  { intros name. unfold fib_view. rewrite !view_lookup by done. by rewrite Hta. }
  split; [split; [done|done|done| | |by rewrite Etm| | |]|split; [|by split]].
  - intros name e. rewrite Hv. unfold clean_fib. destruct (fib_view t !! name); [|done]. destruct (hasNextHops _) eqn:Ehn; [|done]. by intros [= <-].
  - rewrite (keeps_root t t'); [done|apply Hf|apply Hf'|]. exact (keeps_compose (setFibEntry None) tb_strategyChoice _ _ Hk).
  - rewrite Etm. eapply timed_ext; [|exact Hpt]. intros loc. unfold pit_timer.
    destruct (pit_entries t !! loc) as [e|] eqn:El.
    + destruct (He loc e El) as (e' & -> & Hc). destruct (pit_nte e) eqn:En; cbn in Hc; [|subst e'; by rewrite En].
      rewrite (cd_nte _ _ _ Hc), En. cbn. by rewrite (cd_rest _ _ _ Hc).
    + destruct (pit_entries t' !! loc) as [e'|] eqn:El'; [|done]. destruct (pit_nte e') eqn:En; [|done].
      destruct (Hbwd loc e') as (e & [Hl _] & _); [split; [done|by rewrite En]|]. congruence.
  - rewrite Etm. eapply timed_ext; [|exact Hmt]. intros x. unfold meas_timer. rewrite (keeps_meas t t'); [done|].
    exact (keeps_compose (setFibEntry None) tb_measurements _ _ Hk).
  - intros loc e' Ha _. destruct (Hbwd loc e' Ha) as (e & Ha0 & Hc). rewrite (cd_rest _ _ _ Hc). by apply (Hpe loc e).
  - intros name e' nh. rewrite Hv. unfold clean_fib. destruct (fib_view t !! name) as [e|]; [|done]. destruct (hasNextHops _); [|done].
    intros [= <-] Hnh. cbn in Hnh. apply list_elem_of_In, filter_In in Hnh as [Hnh Hne]. apply negb_true_iff, Z.eqb_neq in Hne.
    split; [done|]. exists e. split; [done|by apply list_elem_of_In].
Qed.
End tables.
