(* ===== verification/StrategyChoiceProps.v ===== *)
(** * Properties of strategy choice

    The table is a map from prefixes to strategies, looked up by longest prefix; changing
    it keeps the invariant of the tables, and clears what strategies have stored exactly
    where the changed entry is the one that governs. *)

From stdpp Require Import base gmap list sets strings.
From Stdlib Require Import ZArith Lia.
From S2P Require Import Prelude Tlv Encoder Block Codec Ndn NameTlv NameSuccessor Selectors Data Interest FaceTable Double Hashtable NameTree NameTreeWalk Scheduler NfdTables Fib Pit Cleanup Measurements StrategyChoice Forwarder TablesInv.

Local Open Scope Z_scope.

Section choice.
Context `{HashFunction} `{StdSort} `{!StdSortLaws}.
Context (o : HashtableOptions) (limit : Z) (counts : list Z) (Hcounts : counts_ok o limit counts = true).
Implicit Types (t : NfdTables) (x loc : nat).

Definition choices (t : NfdTables) : gmap Name Name := sc_strategy <$> view tb_strategyChoice (t_nameTree t).
(** The entry of [p] is the one that governs the name [m]. *)
Definition governs (M : gmap Name Name) (p m : Name) : Prop :=
  p `prefix_of` m /\ forall q, is_Some (M !! q) -> q `prefix_of` m -> q `prefix_of` p.

Lemma same_name (h : Hashtable Tables) x y n m : nt_inv o counts h -> ht_nodes h !! x = Some n -> ht_nodes h !! y = Some m -> nd_name n = nd_name m -> x = y.
Proof.
  intros Hi Hx Hy E. assert (ht_map h !! nd_name n = Some x) as Hm1 by (apply ht_map_at; [apply Hi|by exists n]).
  assert (ht_map h !! nd_name n = Some y) as Hm2 by (apply ht_map_at; [apply Hi|by exists m]). congruence.
Qed.
Lemma no_parent_root (h : Hashtable Tables) x n : nt_inv o counts h -> ht_nodes h !! x = Some n -> nd_parent n = None -> nd_name n = [].
Proof. intros [_ Ht] Hx Hp. pose proof (NameTree.to_parent _ Ht x _ (tviews_lookup h x n Hx)) as Hpar. cbn in Hpar. by rewrite Hp in Hpar. Qed.

(** ** The entries that a change concerns *)
Section concerned.
Context (t : NfdTables) (Hi : nt_inv o counts (t_nameTree t)) (x : nat) (nx : Node Tables) (Hx : ht_nodes (t_nameTree t) !! x = Some nx).
Abbreviation h := (t_nameTree t).

Lemma choice_node y n : ht_nodes h !! y = Some n -> is_Some (choices t !! nd_name n) <-> nteHasStrategyChoiceEntry n = true.
Proof.
  intros Hy. unfold choices, nteHasStrategyChoiceEntry. rewrite lookup_fmap, (view_node tb_strategyChoice strategyChoice_none o counts h y n (ni_table _ _ _ Hi) Hy).
  destruct (tb_strategyChoice (nd_tables n)); cbn; split; (done || by eauto || by intros [? ?]).
Qed.

Lemma sel_changed y n : ht_nodes h !! y = Some n -> sel h (changed_sel x) y = if decide (y = x) then (true, true) else if nteHasStrategyChoiceEntry n then (false, false) else (true, true).
Proof.
  intros Hy. unfold sel, changed_sel. rewrite Hy. destruct (decide (y = x)) as [->|Hne]; [by rewrite Nat.eqb_refl|]. by rewrite (proj2 (Nat.eqb_neq _ _) Hne).
Qed.

(** Nothing with a strategy lies between the changed entry and an entry that is reached. *)
Lemma reached_between y n : ht_nodes h !! y = Some n -> reached h (changed_sel x) x y ->
  nd_name nx `prefix_of` nd_name n /\ forall q, is_Some (choices t !! q) -> q `prefix_of` nd_name n -> q `prefix_of` nd_name nx \/ q = nd_name n.
Proof.
  intros Hy Hr. revert n Hy. induction Hr as [|p y ny Hp IH Hs Hyy Hpar]; intros n Hy.
  - assert (n = nx) as -> by congruence. split; [done|]. intros q _ Hq. by left.
  - assert (n = ny) as -> by congruence. destruct (parent_present o counts h y ny p Hi Hyy Hpar) as (pn & Hpn).
    destruct (parent_shorter o counts h y ny p pn Hi Hyy Hpar Hpn) as (c & Ec). destruct (IH pn Hpn) as [Hpre Hbt]. rewrite Ec. split; [by apply prefix_app_r|].
    intros q Hq Hqp. destruct (decide (q = nd_name pn ++ [c])) as [->|Hne]; [by right|]. left.
    assert (q `prefix_of` nd_name pn) as Hqn by (by apply prefix_snoc_inv in Hqp as [->|]).
    destruct (Hbt q Hq Hqn) as [| ->]; [done|]. rewrite (sel_changed p pn Hpn) in Hs. destruct (decide (p = x)) as [->|]; [by assert (pn = nx) as -> by congruence|].
    apply (choice_node p pn Hpn) in Hq. by rewrite Hq in Hs.
Qed.

Lemma reached_from k : forall y n, ht_nodes h !! y = Some n -> length (nd_name n) = (length (nd_name nx) + k)%nat -> nd_name nx `prefix_of` nd_name n ->
  (forall q, is_Some (choices t !! q) -> q `prefix_of` nd_name n -> q <> nd_name n -> q `prefix_of` nd_name nx) -> reached h (changed_sel x) x y.
Proof.
  induction k as [|k IH]; intros y n Hy Hl Hp Hq.
  - assert (nd_name nx = nd_name n) as En by (apply prefix_length_eq; [done|lia]).
    assert (x = y) as <-; [|constructor]. apply (same_name h x y nx n Hi); done.
  - destruct (nd_parent n) as [p|] eqn:Epar.
    + destruct (parent_present o counts h y n p Hi Hy Epar) as (pn & Hpn). destruct (parent_shorter o counts h y n p pn Hi Hy Epar Hpn) as (c & Ec).
      rewrite Ec in Hl, Hp, Hq. rewrite length_app in Hl. cbn in Hl.
      assert (nd_name nx `prefix_of` nd_name pn) as Hpp by (apply prefix_snoc_inv in Hp as [E|]; [rewrite E, length_app in Hl; cbn in Hl; lia|done]).
      apply (reached_child _ _ _ p y n); [|rewrite (sel_changed p pn Hpn)|done|done].
      * apply (IH p pn Hpn); [lia|done|]. intros q Hsq Hqp Hne. apply Hq; [done|by apply prefix_app_r|]. intros ->. apply prefix_length in Hqp. rewrite length_app in Hqp. cbn in Hqp. lia.
      * destruct (decide (p = x)) as [|Hne]; [done|]. destruct (nteHasStrategyChoiceEntry pn) eqn:E; [|done]. apply (choice_node p pn Hpn) in E.
        exfalso. apply Hne. apply (same_name h p x pn nx Hi); [done|done|]. apply (anti_symm prefix); [|done].
        apply Hq; [done|by apply prefix_app_r|]. intros E2. apply (f_equal length) in E2. rewrite length_app in E2. cbn in E2. lia.
    + exfalso. pose proof (no_parent_root h y n Hi Hy Epar) as En. rewrite En in Hl. cbn in Hl. lia.
Qed.

Lemma changed_governs y n : nteHasStrategyChoiceEntry nx = true -> ht_nodes h !! y = Some n ->
  (reached h (changed_sel x) x y /\ (sel h (changed_sel x) y).1 = true) <-> governs (choices t) (nd_name nx) (nd_name n).
Proof.
  intros Hs Hy. rewrite (sel_changed y n Hy). split.
  - intros [Hr Hv]. destruct (reached_between y n Hy Hr) as [Hp Hb]. split; [done|]. intros q Hq Hqn. destruct (Hb q Hq Hqn) as [| ->]; [done|].
    destruct (decide (y = x)) as [->|]; [by assert (n = nx) as -> by congruence|]. apply (choice_node y n Hy) in Hq. by rewrite Hq in Hv.
  - intros [Hp Hq]. split.
    + apply (reached_from (length (nd_name n) - length (nd_name nx)) y n Hy); [apply prefix_length in Hp; lia|done|]. intros q Hsq Hqn _. by apply Hq.
    + destruct (decide (y = x)); [done|]. destruct (nteHasStrategyChoiceEntry n) eqn:E; [|done]. apply (choice_node y n Hy) in E.
      exfalso. apply n0. apply (same_name h y x n nx Hi); [done|done|]. apply (anti_symm prefix); [by apply Hq|done].
Qed.
End concerned.

(** ** Clearing *)
Lemma clear_records_ok e : records_ok e -> records_ok (clear_pit_entry e).
Proof.
  intros [Hin Hout Hint Hn]. split; cbn; [| | |done].
  - by rewrite <- list_fmap_compose.
  - by rewrite <- list_fmap_compose.
  - intros r (r0 & -> & Hr)%list_elem_of_fmap. destruct (Hint r0 Hr) as (i & Ei & En). by exists i.
Qed.
Lemma clear_idempotent e : clear_pit_entry (clear_pit_entry e) = clear_pit_entry e.
Proof. unfold clear_pit_entry. cbn. by rewrite <- !list_fmap_compose. Qed.

Lemma clear_pit_entries_ok locs : forall t, tables_inv o counts None t -> (forall loc, loc ∈ locs -> is_Some (pit_entries t !! loc)) ->
  exists t', clear_pit_entries locs t = Ok t' /\ tables_inv o counts None t' /\ t' = with_pit (pit_entries t') (pit_fresh t) (pit_nItems t) t /\ pit_map t' = pit_map t /\
    forall loc, pit_entries t' !! loc = if decide (loc ∈ locs) then clear_pit_entry <$> pit_entries t !! loc else pit_entries t !! loc.
Proof.
  induction locs as [|l locs IH]; intros t Ht Hall; [exists t; do 2 (split; [done|]); split; [by destruct t|]; split; [done|]; intros loc; by rewrite decide_False by (by apply not_elem_of_nil)|].
  cbn [clear_pit_entries]. destruct (Hall l) as [e He]; [by left|].
  destruct (po_entries _ _ (pv_ok _ _ _ (ti_pit _ _ _ _ Ht)) l e He) as [_ Hrec].
  destruct (tables_inv_modify o counts None t l e (clear_pit_entry e) (fun e => Ok (clear_pit_entry e)) Ht He eq_refl) as (-> & Ht1 & Hm1); [done..|by apply clear_records_ok|].
  cbn [mbind result_bind]. set (t1 := pit_store l _ t) in *.
  assert (E1 : forall loc, pit_entries t1 !! loc = if decide (loc = l) then Some (clear_pit_entry e) else pit_entries t !! loc).
  { intros loc. cbn. destruct (decide (loc = l)) as [->|]; [by rewrite lookup_insert_eq|by rewrite lookup_insert_ne]. }
  destruct (IH t1 Ht1) as (t' & -> & Ht' & Hrest & Hm' & Hents).
  { intros loc Hloc. rewrite E1. destruct (decide (loc = l)); [by eexists|]. apply Hall. by right. }
  exists t'. do 2 (split; [done|]). split; [rewrite Hrest; by destruct t|]. split; [by rewrite Hm'|]. intros loc. rewrite Hents, E1. destruct (decide (loc = l)) as [->|Hne].
  - rewrite (decide_True (P := l ∈ l :: locs)) by left. rewrite He. cbn. destruct (decide (l ∈ locs)); cbn; by rewrite ?clear_idempotent.
  - destruct (decide (loc ∈ locs)), (decide (loc ∈ l :: locs)) as [Hin|Hin]; try done; [by destruct Hin; right|by apply elem_of_cons in Hin as [|]].
Qed.

(** What is left alone, and what is cleared, when the entries [xs] are. *)
Record cleared_at (xs : list nat) t t' : Prop := {
  ca_tree : keeps (setMeasurementsEntry None) (t_nameTree t) (t_nameTree t');
  ca_nodes y n : ht_nodes (t_nameTree t) !! y = Some n ->
    exists n', ht_nodes (t_nameTree t') !! y = Some n' /\ nd_name n' = nd_name n /\ tb_strategyChoice (nd_tables n') = tb_strategyChoice (nd_tables n);
  ca_rest : t' = with_nameTree (t_nameTree t') (with_pit (pit_entries t') (pit_fresh t) (pit_nItems t) t);
  ca_map : pit_map t' = pit_map t;
  ca_size : m_htSize (t_nameTree t') = m_htSize (t_nameTree t);
  ca_pit loc : pit_entries t' !! loc =
    (fun e => if decide (pit_nte e ∈ Some <$> xs) then clear_pit_entry e else e) <$> pit_entries t !! loc;
  ca_meas y : meas_at t' y = if decide (y ∈ xs) then clear_measurements <$> meas_at t y else meas_at t y;
}.

Lemma clear_measurements_ok t x n m : tables_inv o counts None t -> ht_nodes (t_nameTree t) !! x = Some n -> tb_measurements (nd_tables n) = Some m ->
  exists h, nt_update x (setMeasurementsEntry (Some (clear_measurements m))) (t_nameTree t) = Ok h /\ tables_inv o counts None (with_nameTree h t) /\
    ht_nodes h = <[x := set_tables (setMeasurementsEntry (Some (clear_measurements m)) (nd_tables n)) n]> (ht_nodes (t_nameTree t)) /\ m_htSize h = m_htSize (t_nameTree t).
Proof.
  intros Ht Hx Hm. pose proof Ht as [Hf Hp Hti Hh Hr Hq Hpt Hmt Hpe]. pose proof (pv_tree _ _ _ Hp) as Hi.
  destruct (nt_update_ok o counts x (setMeasurementsEntry (Some (clear_measurements m))) (t_nameTree t) n Hi Hx) as (h & E & Hi' & Hn & [Hsz _] & _).
  exists h. split; [done|]. split; [|by split].
  destruct (meas_at_update t h x n (Some (clear_measurements m)) (t_timers t) (measurements_nItems t) Hx Hn) as [Hmx Hmy].
  set (t' := with_measurements _ _ _) in Hmx, Hmy. assert (Et : with_nameTree h t = t') by (by destruct t). rewrite Et.
  apply (tables_inv_meas o counts t t'); [done|done| | |done|done|].
  - split; [|by destruct t]. by apply (keeps_update (setMeasurementsEntry None) x (setMeasurementsEntry (Some (clear_measurements m)) (nd_tables n)) _ _ n).
  - apply (tight_update (t_nameTree t) h x n (setMeasurementsEntry (Some (clear_measurements m)))); [done|done| |by apply tight_weaken]. cbn. by rewrite orb_true_r.
  - eapply timed_ext; [|exact Hmt]. intros y. unfold meas_timer. destruct (decide (y = x)) as [->|Hy]; [|by rewrite Hmy].
    rewrite Hmx. unfold meas_at. rewrite Hx. cbn. by rewrite Hm.
Qed.

Lemma clear_node_ok t x n : tables_inv o counts None t -> ht_nodes (t_nameTree t) !! x = Some n ->
  exists t', nte_clearStrategyInfo x t = Ok t' /\ tables_inv o counts None t' /\ cleared_at [x] t t'.
Proof.
  intros Ht Hx. unfold nte_clearStrategyInfo, deref. rewrite Hx. cbn [mbind result_bind]. pose proof (pv_ok _ _ _ (ti_pit _ _ _ _ Ht)) as [L A _ _ _].
  assert (Hl : pit_lists (t_nameTree t) x (nd_name n) (tb_pit (nd_tables n))) by (by exists n).
  destruct (clear_pit_entries_ok (tb_pit (nd_tables n)) t Ht) as (t1 & -> & Ht1 & Er & Hmap & Hents).
  { intros loc Hloc. destruct (L _ _ _ _ Hl Hloc) as (e & -> & _). by eexists. }
  assert (Hpit : forall loc, pit_entries t1 !! loc = (fun e => if decide (pit_nte e ∈ Some <$> [x]) then clear_pit_entry e else e) <$> pit_entries t !! loc).
  { intros loc. rewrite Hents. destruct (pit_entries t !! loc) as [e|] eqn:E; [|by destruct (decide _)]. cbn.
    destruct (decide (loc ∈ tb_pit (nd_tables n))) as [Hin|Hin].
    - destruct (L _ _ _ _ Hl Hin) as (e' & E' & Hn & _). assert (e' = e) as -> by congruence. rewrite decide_True; [done|]. rewrite Hn. by left.
    - rewrite decide_False; [done|]. intros Hn%list_elem_of_singleton. destruct (A loc e x E Hn) as (nm & l & (n' & Hn' & _ & <-) & Hin'). by assert (n' = n) as -> by congruence. }
  cbn [mbind result_bind]. assert (Etree : t_nameTree t1 = t_nameTree t) by (by rewrite Er). destruct (tb_measurements (nd_tables n)) as [m|] eqn:Em.
  - destruct (clear_measurements_ok t1 x n m Ht1) as (h & -> & Ht2 & Hn & Hsz); [by rewrite Etree|done|]. cbn [mbind result_bind]. eexists. split; [done|]. split; [done|].
    rewrite Etree in Hn, Hsz. split; cbn [t_nameTree with_nameTree pit_entries]; [| |by rewrite Er|by rewrite <- Hmap|done|done|].
    + by apply (keeps_update (setMeasurementsEntry None) x (setMeasurementsEntry (Some (clear_measurements m)) (nd_tables n)) _ _ n).
    + intros y ny Hy. rewrite Hn. destruct (decide (y = x)) as [->|Hne]; [rewrite lookup_insert_eq; assert (ny = n) as -> by congruence; by eexists|].
      rewrite lookup_insert_ne by done. by exists ny.
    + intros y. unfold meas_at. cbn [t_nameTree with_nameTree]. rewrite Hn. destruct (decide (y = x)) as [->|Hne].
      * rewrite lookup_insert_eq, decide_True, Hx by (by left). cbn. by rewrite Em.
      * rewrite lookup_insert_ne, decide_False by (done || by rewrite list_elem_of_singleton). done.
  - exists t1. do 2 (split; [done|]). split; rewrite ?Etree; [done|by intros y ny Hy; exists ny|rewrite Er at 1; by destruct t|done|done|done|].
    intros y. unfold meas_at. rewrite Etree. destruct (decide (y ∈ [x])) as [->%list_elem_of_singleton|]; [|done]. rewrite Hx. cbn. by rewrite Em.
Qed.

Lemma clear_if_cons x xs e : let e1 := if decide (pit_nte e ∈ Some <$> [x]) then clear_pit_entry e else e in
  (if decide (pit_nte e1 ∈ Some <$> xs) then clear_pit_entry e1 else e1) = if decide (pit_nte e ∈ Some <$> x :: xs) then clear_pit_entry e else e.
Proof.
  intros e1. assert (Hn : pit_nte e1 = pit_nte e) by (unfold e1; by destruct (decide _)). rewrite Hn. unfold e1.
  destruct (decide (pit_nte e ∈ Some <$> [x])) as [H1'|H1'], (decide (pit_nte e ∈ Some <$> xs)) as [H2'|H2'], (decide (pit_nte e ∈ Some <$> x :: xs)) as [H3'|H3'];
    rewrite ?clear_idempotent; try done; exfalso; rewrite fmap_cons, elem_of_cons in H3'; cbn in H1'; rewrite list_elem_of_singleton in H1'; tauto.
Qed.
Lemma clear_all_ok xs : forall t, tables_inv o counts None t -> (forall x, x ∈ xs -> is_Some (ht_nodes (t_nameTree t) !! x)) ->
  exists t', clear_all xs t = Ok t' /\ tables_inv o counts None t' /\ cleared_at xs t t'.
Proof.
  induction xs as [|x xs IH]; intros t Ht Hall; cbn [clear_all].
  - exists t. do 2 (split; [done|]). split; [done|by intros y n Hy; exists n|by destruct t|done|done| |done]. intros loc. by destruct (pit_entries t !! loc).
  - destruct (Hall x) as [n Hx]; [by left|]. destruct (clear_node_ok t x n Ht Hx) as (t1 & -> & Ht1 & Hc1). cbn [mbind result_bind].
    destruct (IH t1 Ht1) as (t' & -> & Ht' & Hc'). { intros y Hy. destruct (Hall y) as [m Hm]; [by right|]. destruct (ca_nodes _ _ _ Hc1 y m Hm) as (m' & -> & _). by eexists. }
    exists t'. do 2 (split; [done|]). destruct Hc1 as [K1 N1 R1 M1 S1 P1 Me1], Hc' as [K2 N2 R2 M2 S2 P2 Me2]. split.
    + by etransitivity.
    + intros y m Hy. destruct (N1 y m Hy) as (m1 & Hy1 & E1 & F1). destruct (N2 y m1 Hy1) as (m2 & Hy2 & E2 & F2). exists m2. split; [done|]. split; congruence.
    + rewrite R2, R1. by destruct t.
    + by rewrite M2.
    + by rewrite S2.
    + intros loc. rewrite P2, P1. destruct (pit_entries t !! loc) as [e|]; [|done]. exact (f_equal Some (clear_if_cons x xs e)).
    + intros y. rewrite Me2, Me1. destruct (decide (y ∈ [x])) as [H1'|H1'], (decide (y ∈ xs)) as [H2'|H2'], (decide (y ∈ x :: xs)) as [H3'|H3'];
        try done; try (exfalso; rewrite elem_of_cons in H3'; rewrite list_elem_of_singleton in H1'; tauto). by destruct (meas_at t y).
Qed.

(** ** Changing the strategy of an entry *)

(** Strategy information is cleared on the entries whose name is in [P], and kept on the others. *)
Definition info_cleared (P : Name -> Prop) t t' : Prop :=
  (forall loc e, attached (pit_entries t) loc e ->
     let m := take (nteDepth (i_name (pit_interest e))) (i_name (pit_interest e)) in
     (P m -> pit_entries t' !! loc = Some (clear_pit_entry e)) /\ (~ P m -> pit_entries t' !! loc = Some e)) /\
  (forall m, let M := view tb_measurements (t_nameTree t) in let M' := view tb_measurements (t_nameTree t') in
     (P m -> M' !! m = clear_measurements <$> M !! m) /\ (~ P m -> M' !! m = M !! m)).

Lemma info_cleared_same P t t1 t' : pit_entries t1 = pit_entries t -> view tb_measurements (t_nameTree t1) = view tb_measurements (t_nameTree t) ->
  info_cleared P t1 t' -> info_cleared P t t'.
Proof. intros E1 E2 [Hp Hm]. split; [intros loc e Ha; apply Hp; by rewrite E1|intros m; rewrite <- E2; apply Hm]. Qed.
Lemma info_cleared_refl P t t' : pit_entries t' = pit_entries t -> view tb_measurements (t_nameTree t') = view tb_measurements (t_nameTree t) ->
  (forall m, ~ P m) -> info_cleared P t t'.
Proof.
  intros E1 E2 Hn. split.
  - intros loc e [He _] m. split; [by intros ?%Hn|intros _; by rewrite E1].
  - intros m M M'. split; [by intros ?%Hn|]. intros _. unfold M', M. by rewrite E2.
Qed.
Lemma info_cleared_then P t t' t'' : info_cleared P t t' -> pit_entries t'' = pit_entries t' -> view tb_measurements (t_nameTree t'') = view tb_measurements (t_nameTree t') ->
  info_cleared P t t''.
Proof. intros [Hp Hm] E1 E2. split; [intros loc e Ha; rewrite E1; by apply Hp|intros m; rewrite E2; apply Hm]. Qed.

Lemma view_meas t m : view tb_measurements (t_nameTree t) !! m = ht_map (t_nameTree t) !! m ≫= meas_at t.
Proof. unfold view. by rewrite lookup_omap. Qed.

Lemma cleared_info (P : Name -> Prop) xs t t' : tables_inv o counts None t -> tables_inv o counts None t' -> cleared_at xs t t' ->
  (forall y n, ht_nodes (t_nameTree t) !! y = Some n -> y ∈ xs <-> P (nd_name n)) -> info_cleared P t t'.
Proof.
  intros Ht Ht' [K N R M S Hp Hm] Hxs. split.
  - intros loc e Ha. destruct (attached_at o counts t loc e (ti_pit _ _ _ _ Ht) Ha) as (x & Hx & (n & Hn & En)). cbv zeta. rewrite <- En, <- (Hxs x n Hn).
    destruct Ha as [He _]. rewrite Hp, He. cbn. rewrite Hx. split; intros Hin; [rewrite decide_True by (by apply list_elem_of_fmap_2); done|].
    rewrite decide_False; [done|]. intros (y & [= <-] & Hy)%list_elem_of_fmap. done.
  - intros m. cbv zeta. rewrite !view_meas. pose proof (pv_tree _ _ _ (ti_pit _ _ _ _ Ht)) as Hi. pose proof (pv_tree _ _ _ (ti_pit _ _ _ _ Ht')) as Hi'.
    destruct (ht_map (t_nameTree t) !! m) as [y|] eqn:E.
    + apply ht_map_at in E as (n & Hy & En); [|apply Hi]. destruct (N y n Hy) as (n' & Hy' & En' & _).
      assert (ht_map (t_nameTree t') !! m = Some y) as -> by (apply ht_map_at; [apply Hi'|exists n'; by rewrite En']). cbn. rewrite Hm, <- En, <- (Hxs y n Hy).
      split; intros Hin; [by rewrite decide_True|by rewrite decide_False].
    + assert (ht_map (t_nameTree t') !! m ≫= meas_at t' = None) as ->; [|done]. destruct (ht_map (t_nameTree t') !! m) as [y|] eqn:E'; [|done]. cbn.
      apply ht_map_at in E' as (n' & Hy' & En'); [|apply Hi']. rewrite Hm.
      assert (meas_at t y = None) as ->; [|by destruct (decide _)]. destruct (ht_nodes (t_nameTree t) !! y) as [n|] eqn:Hy; [|unfold meas_at; by rewrite Hy].
      destruct (N y n Hy) as (n'' & Hy'' & En'' & _). assert (n'' = n') as -> by congruence.
      assert (ht_map (t_nameTree t) !! m = Some y); [|congruence]. apply ht_map_at; [apply Hi|]. exists n. split; [done|congruence].
Qed.

Lemma keeps_choices t t' : nt_inv o counts (t_nameTree t) -> nt_inv o counts (t_nameTree t') -> keeps tb_strategyChoice (t_nameTree t) (t_nameTree t') -> choices t' = choices t.
Proof. intros Hi Hi' Hk. unfold choices. by rewrite (keeps_root o counts t t'). Qed.

Lemma changeStrategy_ok r t x n old new same : tables_inv o counts None t -> ht_nodes (t_nameTree t) !! x = Some n -> nteHasStrategyChoiceEntry n = true ->
  areSameType r old new = Ok same ->
  exists t', changeStrategy r x (nd_name n) old new t = Ok t' /\ tables_inv o counts None t' /\ choices t' = choices t /\ fib_view t' = fib_view t /\
    pit_map t' = pit_map t /\ m_htSize (t_nameTree t') = m_htSize (t_nameTree t) /\ strategyChoice_nItems t' = strategyChoice_nItems t /\
    (exists n', ht_nodes (t_nameTree t') !! x = Some n' /\ nd_name n' = nd_name n /\ tb_strategyChoice (nd_tables n') = tb_strategyChoice (nd_tables n)) /\
    info_cleared (fun m => same = false /\ governs (choices t) (nd_name n) m) t t'.
Proof.
  intros Ht Hx Hn Es. unfold changeStrategy. rewrite Es. cbn [mbind result_bind]. destruct same.
  { exists t. do 6 (split; [done|]). split; [done|]. split; [by exists n|]. apply info_cleared_refl; [done|done|]. by intros m [? _]. }
  pose proof (pv_tree _ _ _ (ti_pit _ _ _ _ Ht)) as Hi.
  destruct (partialEnumerate_ok o counts (t_nameTree t) (changed_sel x) (nd_name n) Hi) as (xs & -> & _ & Hl).
  assert (Hm : ht_map (t_nameTree t) !! nd_name n = Some x) by (apply ht_map_at; [apply Hi|by exists n]). rewrite Hm in Hl. destruct Hl as (tr & Hit & Hroot & ->).
  cbn [mbind result_bind]. pose proof (preorder_reached o counts (t_nameTree t) Hi (changed_sel x) tr Hit) as Hpre. rewrite Hroot in Hpre.
  destruct (clear_all_ok (preorder (t_nameTree t) (changed_sel x) tr) t Ht) as (t' & -> & Ht' & Hc).
  { intros y [Hr _]%Hpre. destruct Hr as [|p y ny _ _ Hy _]; [by eexists|by eexists]. }
  pose proof (pv_tree _ _ _ (ti_pit _ _ _ _ Ht')) as Hi'.
  exists t'. do 2 (split; [done|]). split; [apply keeps_choices; [done|done|]; exact (keeps_compose (setMeasurementsEntry None) tb_strategyChoice _ _ (ca_tree _ _ _ Hc))|].
  split; [apply (keeps_view tb_fib o counts); [done|apply Hi|apply Hi'|]; exact (keeps_compose (setMeasurementsEntry None) tb_fib _ _ (ca_tree _ _ _ Hc))|].
  split; [apply Hc|]. split; [apply Hc|]. split; [by rewrite (ca_rest _ _ _ Hc)|]. split; [by apply (ca_nodes _ _ _ Hc)|].
  apply (cleared_info _ _ t t' Ht Ht' Hc). intros y ny Hy. rewrite Hpre, (changed_governs t Hi x n Hx y ny Hn Hy). tauto.
Qed.

(** ** The table operations *)

(** Only strategy choice entries change. *)
Definition choice_frame t t' : Prop :=
  keeps (setStrategyChoiceEntry None) (t_nameTree t) (t_nameTree t') /\
  t' = with_strategyChoice_nItems (strategyChoice_nItems t') (with_nameTree (t_nameTree t') t).

Lemma choice_frame_views t t' : nt_inv o counts (t_nameTree t) -> nt_inv o counts (t_nameTree t') -> choice_frame t t' ->
  fib_view t' = fib_view t /\ view tb_measurements (t_nameTree t') = view tb_measurements (t_nameTree t) /\ pit_entries t' = pit_entries t.
Proof.
  intros Hi Hi' [K E]. split; [|split; [|by rewrite E]].
  - apply (keeps_view tb_fib o counts); [done|apply Hi|apply Hi'|]. exact (keeps_compose (setStrategyChoiceEntry None) tb_fib _ _ K).
  - apply (keeps_view tb_measurements o counts); [done|apply Hi|apply Hi'|]. exact (keeps_compose (setStrategyChoiceEntry None) tb_measurements _ _ K).
Qed.

Lemma tables_inv_choice t t' : fib_inv o counts t -> pit_inv o counts t -> (forall name e, fib_view t !! name = Some e -> hasNextHops e = true) ->
  queue_inv (t_timers t) -> timed (t_timers t) PitExpiry (pit_timer t) -> timed (t_timers t) MeasurementsCleanup (meas_timer t) ->
  (forall loc e, attached (pit_entries t) loc e -> is_Some (pit_expiryTimer e)) ->
  nt_inv o counts (t_nameTree t') -> choice_frame t t' -> tight_but (t_nameTree t') None -> is_Some (view tb_strategyChoice (t_nameTree t') !! []) ->
  tables_inv o counts None t'.
Proof.
  intros Hf Hp Hh Hq Hpt Hmt Hpe Hi' Hfr Ht' Hr'. pose proof (pv_tree _ _ _ Hp) as Hi. destruct (choice_frame_views t t' Hi Hi' Hfr) as (Hv & _ & Ee). destruct Hfr as [K E].
  split; [| |done|by rewrite Hv|done|by rewrite E| | |intros loc e Ha _; rewrite Ee in Ha; by apply (Hpe loc e)].
  - destruct Hf as [_ Hf2 Hf3]. split; [done|rewrite Hv; by rewrite E|by rewrite Hv].
  - apply (pit_inv_frame o counts t); [done|done| |done|by rewrite E|by rewrite E]. exact (keeps_compose (setStrategyChoiceEntry None) tb_pit _ _ K).
  - assert (t_timers t' = t_timers t) as -> by (by rewrite E). eapply timed_ext; [|exact Hpt]. intros l. unfold pit_timer. by rewrite Ee.
  - assert (t_timers t' = t_timers t) as -> by (by rewrite E). eapply timed_ext; [|exact Hmt]. intros y. unfold meas_timer.
    by rewrite (keeps_meas t t' (keeps_compose (setStrategyChoiceEntry None) tb_measurements _ _ K)).
Qed.

Lemma set_choice_ok t x n e : nt_inv o counts (t_nameTree t) -> ht_nodes (t_nameTree t) !! x = Some n ->
  exists t', set_choice x e t = Ok t' /\ nt_inv o counts (t_nameTree t') /\ choice_frame t t' /\
    ht_nodes (t_nameTree t') = <[x := set_tables (setStrategyChoiceEntry e (nd_tables n)) n]> (ht_nodes (t_nameTree t)) /\
    m_htSize (t_nameTree t') = m_htSize (t_nameTree t) /\ strategyChoice_nItems t' = strategyChoice_nItems t /\
    view tb_strategyChoice (t_nameTree t') = partial_alter (fun _ => e) (nd_name n) (view tb_strategyChoice (t_nameTree t)).
Proof.
  intros Hi Hx. unfold set_choice. destruct (nt_update_ok o counts x (setStrategyChoiceEntry e) (t_nameTree t) n Hi Hx) as (h & -> & Hi' & Hn & [Hsz _] & Hat & Hoth).
  cbn [mbind result_bind]. eexists. split; [done|]. split; [done|]. split; [split; [|by destruct t]|].
  { by apply (keeps_update (setStrategyChoiceEntry None) x (setStrategyChoiceEntry e (nd_tables n)) _ _ n). }
  do 3 (split; [done|]). cbn. destruct e as [e|].
  - apply (view_insert tb_strategyChoice strategyChoice_none _ _ (nd_name n) e); [done|by rewrite Hat].
  - apply (view_delete tb_strategyChoice strategyChoice_none _ _ (nd_name n)); [done|by rewrite Hat].
Qed.

(** The effective strategy is that of the longest prefix. *)
Lemma findEffectiveStrategy_lpm t name : nt_inv o counts (t_nameTree t) -> is_Some (view tb_strategyChoice (t_nameTree t) !! []) ->
  exists p st, findEffectiveStrategy name t = Ok st /\ map_lpm (choices t) name (Some (p, st)).
Proof.
  intros Hi [a Ha]. unfold findEffectiveStrategy. destruct (lpm_ok o counts (t_nameTree t) name nteHasStrategyChoiceEntry Hi) as (r & -> & Hr). cbn [mbind result_bind].
  pose proof (lpm_view tb_strategyChoice strategyChoice_none o counts _ name r (ni_table _ _ _ Hi) Hr) as Hl. destruct r as [x|].
  - destruct Hl as (n & e & Hx & He & H1' & H2' & H3'). exists (nd_name n), (sc_strategy e). unfold strategy_at, deref. rewrite Hx. cbn [mbind result_bind]. rewrite He.
    split; [done|]. unfold choices. split; [by rewrite lookup_fmap, H1'|]. split; [done|]. intros q Hq. apply H3'. rewrite lookup_fmap in Hq. by apply fmap_is_Some in Hq.
  - rewrite (Hl [] (prefix_nil _)) in Ha. done.
Qed.

Definition findable (r : Registry) (M : gmap Name Name) : Prop := forall p st, M !! p = Some st -> is_ok (strategy_find r st) = true.
Lemma areSameType_ok r a b : is_ok (strategy_find r a) = true -> is_ok (strategy_find r b) = true -> exists same, areSameType r a b = Ok same.
Proof. unfold areSameType. destruct (strategy_find r a), (strategy_find r b); try done. by eexists. Qed.
Lemma areSameType_refl r a : is_ok (strategy_find r a) = true -> areSameType r a a = Ok true.
Proof. unfold areSameType. destruct (strategy_find r a); [|done]. intros _. cbn. by rewrite bool_decide_true. Qed.

(** Looking up the entry of a prefix. *)
Lemma lookup_entry_ok t prefix : tables_inv o counts None t -> (length prefix <= getMaxDepth)%nat -> m_htSize (t_nameTree t) + Z.of_nat (S getMaxDepth) <= limit ->
  exists x n h, nt_lookup prefix (length prefix) (t_nameTree t) = Ok (x, h) /\ nt_inv o counts h /\ choice_frame t (with_nameTree h t) /\
    view tb_strategyChoice h = view tb_strategyChoice (t_nameTree t) /\ tight_but h (Some x) /\ ht_nodes h !! x = Some n /\ nd_name n = prefix.
Proof.
  intros Ht Hl Hsz. pose proof (pv_tree _ _ _ (ti_pit _ _ _ _ Ht)) as Hi.
  destruct (nt_lookup_full o limit counts Hcounts (t_nameTree t) prefix (length prefix) Hi) as (x & n & h & E & Hi' & Hx & En & _ & Hg & _ & _ & Hti); [done|done|done|].
  exists x, n, h. split; [done|]. split; [done|]. split; [split; [by eapply keeps_grown|by destruct t]|].
  split; [by apply (keeps_view tb_strategyChoice o counts); [|apply Hi|apply Hi'|eapply keeps_grown]|]. split; [apply Hti, Ht|]. split; [done|]. by rewrite En, take_ge.
Qed.

Lemma tables_inv_chosen t t' : tables_inv o counts None t -> nt_inv o counts (t_nameTree t') -> choice_frame t t' -> tight_but (t_nameTree t') None ->
  is_Some (view tb_strategyChoice (t_nameTree t') !! []) -> tables_inv o counts None t'.
Proof. intros [Hf Hp Hti Hh Hr Hq Hpt Hmt Hpe] Hi' Hfr Hti' Hr'. apply (tables_inv_choice t t'); try done. intros loc e Ha. by apply (Hpe loc e). Qed.

Lemma choice_frame_trans t1 t2 t3 : choice_frame t1 t2 -> choice_frame t2 t3 -> choice_frame t1 t3.
Proof. intros [K1 E1] [K2 E2]. split; [by etransitivity|]. rewrite E2. rewrite E1 at 1. by destruct t1. Qed.

Lemma choice_frame_count k t t' : choice_frame t t' -> choice_frame t (with_strategyChoice_nItems k t').
Proof. intros [K E]. split; [done|]. destruct t, t'. cbn in *. injection E as -> -> -> -> -> ->. done. Qed.

Lemma choices_alter t t' p e : view tb_strategyChoice (t_nameTree t') = partial_alter (fun _ => e) p (view tb_strategyChoice (t_nameTree t)) ->
  choices t' = partial_alter (fun _ => sc_strategy <$> e) p (choices t).
Proof. intros E. unfold choices. rewrite E. destruct e as [e|]; [exact (fmap_insert _ _ _ _)|exact (fmap_delete _ _ _)]. Qed.

Lemma governs_dom (M M' : gmap Name Name) p m : (forall q, is_Some (M !! q) <-> is_Some (M' !! q)) -> governs M p m <-> governs M' p m.
Proof. intros Hd. unfold governs. split; intros [Hp Hq]; (split; [done|]); intros q Hs; apply Hq; by apply Hd. Qed.

Lemma info_cleared_iff (P Q : Name -> Prop) t t' : (forall m, P m <-> Q m) -> info_cleared P t t' -> info_cleared Q t t'.
Proof.
  intros Hpq [H1' H2']. split.
  - intros loc e Ha m. destruct (H1' loc e Ha) as [Hy Hn]. split; [intros ?%Hpq; by apply Hy|]. intros Hq. apply Hn. intros ?%Hpq. done.
  - intros m M M'. destruct (H2' m) as [Hy Hn]. split; [intros ?%Hpq; by apply Hy|]. intros Hq. apply Hn. intros ?%Hpq. done.
Qed.

Lemma setStrategy_tight t x n e t' : ht_nodes (t_nameTree t) !! x = Some n -> tight_but (t_nameTree t) (Some x) ->
  ht_nodes (t_nameTree t') = <[x := set_tables (setStrategyChoiceEntry (Some e) (nd_tables n)) n]> (ht_nodes (t_nameTree t)) -> tight_but (t_nameTree t') None.
Proof.
  intros Hx Hti Hn. apply (tight_update (t_nameTree t) (t_nameTree t') x n (setStrategyChoiceEntry (Some e))); [done|done| |done]. cbn. by rewrite orb_true_r.
Qed.

(** What a successful change of the table amounts to: the new choices, the strategy that
    was effective, and where information is cleared. *)
Definition choice_changed (r : Registry) (prefix old new : Name) (M' : gmap Name Name) (G : gmap Name Name) t t' : Prop :=
  tables_inv o counts None t' /\ choices t' = M' /\ fib_view t' = fib_view t /\ pit_map t' = pit_map t /\
  exists same, areSameType r old new = Ok same /\ info_cleared (fun m => same = false /\ governs G prefix m) t t'.

Lemma insert_new_choice r prefix instance t t1 x n : tables_inv o counts None t -> choice_frame t t1 -> nt_inv o counts (t_nameTree t1) ->
  view tb_strategyChoice (t_nameTree t1) = view tb_strategyChoice (t_nameTree t) -> tight_but (t_nameTree t1) (Some x) ->
  ht_nodes (t_nameTree t1) !! x = Some n -> nd_name n = prefix -> findable r (choices t) -> is_ok (strategy_find r instance) = true ->
  exists old p t', findEffectiveStrategy prefix t1 = Ok old /\ map_lpm (choices t) prefix (Some (p, old)) /\
    (let* t := set_choice x (Some (mkStrategyChoiceEntry prefix instance)) t1 in
     let* t := changeStrategy r x prefix old instance (with_strategyChoice_nItems (u64 (strategyChoice_nItems t + 1)) t) in Ok (SC_OK, t)) = Ok (SC_OK, t') /\
    choice_changed r prefix old instance (<[prefix := instance]> (choices t)) (<[prefix := instance]> (choices t)) t t'.
Proof.
  intros Ht Hf1 Hi1 Hv1 Hti Hx <- Hfd Hfi. pose proof (pv_tree _ _ _ (ti_pit _ _ _ _ Ht)) as Hi.
  assert (Hc1 : choices t1 = choices t) by (unfold choices; by rewrite Hv1).
  destruct (findEffectiveStrategy_lpm t1 (nd_name n) Hi1) as (p & old & -> & Hlpm); [rewrite Hv1; apply Ht|]. rewrite Hc1 in Hlpm.
  destruct (set_choice_ok t1 x n (Some (mkStrategyChoiceEntry (nd_name n) instance)) Hi1 Hx) as (t2 & -> & Hi2 & Hf2 & Hn2 & _ & _ & Hv2). cbn [mbind result_bind].
  set (t3 := with_strategyChoice_nItems _ t2).
  assert (Hf3 : choice_frame t t3) by (apply choice_frame_count; by eapply choice_frame_trans).
  assert (Ht3 : tables_inv o counts None t3).
  { apply (tables_inv_chosen t t3 Ht); [done|done|by apply (setStrategy_tight t1 x n (mkStrategyChoiceEntry (nd_name n) instance) t2)|]. cbn. rewrite Hv2, Hv1.
    destruct (decide (nd_name n = [])) as [->|Hne]; [rewrite lookup_partial_alter_eq; by eexists|]. rewrite lookup_partial_alter_ne by done. apply Ht. }
  assert (Hc3 : choices t3 = <[nd_name n := instance]> (choices t)).
  { transitivity (choices t2); [done|]. rewrite (choices_alter t1 t2 _ _ Hv2), Hc1. done. }
  destruct (areSameType_ok r old instance) as (same & Es); [by apply (Hfd p old), Hlpm|done|].
  destruct (changeStrategy_ok r t3 x (set_tables (setStrategyChoiceEntry (Some (mkStrategyChoiceEntry (nd_name n) instance)) (nd_tables n)) n) old instance same Ht3)
    as (t' & E & Ht' & Hc' & Hv' & Hm' & _ & _ & _ & Hinfo); [cbn; rewrite Hn2; apply lookup_insert_eq|done|done|].
  exists old, p, t'. split; [done|]. split; [done|]. split; [cbn [nd_name set_tables] in E; by rewrite E|].
  destruct (choice_frame_views t t3 Hi Hi2 Hf3) as (Hfv & Hmv & Hpe). split; [done|]. split; [by rewrite Hc'|]. split; [by rewrite Hv'|].
  split; [rewrite Hm'; unfold pit_map; by rewrite Hpe|]. exists same. split; [done|]. rewrite Hc3 in Hinfo. by apply (info_cleared_same _ t t3 t').
Qed.

Lemma replace_choice r t x n entry instance : tables_inv o counts None t -> ht_nodes (t_nameTree t) !! x = Some n -> tb_strategyChoice (nd_tables n) = Some entry ->
  findable r (choices t) -> is_ok (strategy_find r instance) = true ->
  exists t', (let* t := changeStrategy r x (nd_name n) (sc_strategy entry) instance t in
              let* t := set_choice x (Some (mkStrategyChoiceEntry (sc_prefix entry) instance)) t in Ok (SC_OK, t)) = Ok (SC_OK, t') /\
    choice_changed r (nd_name n) (sc_strategy entry) instance (<[nd_name n := instance]> (choices t)) (<[nd_name n := instance]> (choices t)) t t'.
Proof.
  intros Ht Hx He Hfd Hfi. pose proof (pv_tree _ _ _ (ti_pit _ _ _ _ Ht)) as Hi.
  assert (Hcn : choices t !! nd_name n = Some (sc_strategy entry)).
  { unfold choices. by rewrite lookup_fmap, (view_node tb_strategyChoice strategyChoice_none o counts _ x n (ni_table _ _ _ Hi) Hx), He. }
  destruct (areSameType_ok r (sc_strategy entry) instance) as (same & Es); [by apply (Hfd (nd_name n))|done|].
  destruct (changeStrategy_ok r t x n (sc_strategy entry) instance same Ht Hx) as (t1 & -> & Ht1 & Hc1 & Hv1 & Hm1 & _ & _ & (n' & Hx' & En' & Esc) & Hinfo);
    [unfold nteHasStrategyChoiceEntry; by rewrite He|done|]. cbn [mbind result_bind]. pose proof (pv_tree _ _ _ (ti_pit _ _ _ _ Ht1)) as Hi1.
  destruct (set_choice_ok t1 x n' (Some (mkStrategyChoiceEntry (sc_prefix entry) instance)) Hi1 Hx') as (t2 & -> & Hi2 & Hf2 & Hn2 & _ & _ & Hv2). cbn [mbind result_bind].
  exists t2. split; [done|]. destruct (choice_frame_views t1 t2 Hi1 Hi2 Hf2) as (Hfv & Hmv & Hpe).
  assert (Ht2 : tables_inv o counts None t2).
  { apply (tables_inv_chosen t1 t2 Ht1 Hi2 Hf2); [eapply setStrategy_tight; [exact Hx'|by apply tight_weaken, Ht1|exact Hn2]|]. rewrite Hv2.
    destruct (decide (nd_name n' = [])) as [->|Hne]; [rewrite lookup_partial_alter_eq; by eexists|]. rewrite lookup_partial_alter_ne by done. apply Ht1. }
  split; [done|]. split; [rewrite (choices_alter t1 t2 _ _ Hv2), Hc1, En'; done|]. split; [by rewrite Hfv|]. split; [unfold pit_map in *; by rewrite Hpe|].
  exists same. split; [done|]. apply (info_cleared_then _ _ t1); [|done|done]. eapply info_cleared_iff; [|exact Hinfo]. intros m. cbn.
  rewrite (governs_dom (choices t) (<[nd_name n := instance]> (choices t))); [done|]. intros q. destruct (decide (q = nd_name n)) as [->|Hne].
  - rewrite lookup_insert_eq, Hcn. split; by eexists.
  - by rewrite lookup_insert_ne.
Qed.

Lemma sc_insert_ok r t prefix strategyName instance : tables_inv o counts None t -> (length prefix <= getMaxDepth)%nat ->
  m_htSize (t_nameTree t) + Z.of_nat (S getMaxDepth) <= limit -> strategy_create r strategyName = Ok (Some instance) ->
  findable r (choices t) -> is_ok (strategy_find r instance) = true ->
  exists t' p old, sc_insert r prefix strategyName t = Ok (SC_OK, t') /\ map_lpm (choices t) prefix (Some (p, old)) /\
    choice_changed r prefix old instance (<[prefix := instance]> (choices t)) (<[prefix := instance]> (choices t)) t t'.
Proof.
  intros Ht Hl Hsz Hc Hfd Hfi. unfold sc_insert. rewrite (proj2 (Nat.ltb_ge _ _)) by done. rewrite Hc. pose proof (pv_tree _ _ _ (ti_pit _ _ _ _ Ht)) as Hi.
  destruct (lookup_entry_ok t prefix Ht Hl Hsz) as (x & n & h & -> & Hi1 & Hf1 & Hv1 & Hti & Hx & En). cbn [mbind result_bind]. set (t1 := with_nameTree h t) in *.
  unfold deref. cbn [t_nameTree t1 with_nameTree]. rewrite Hx. cbn [mbind result_bind]. destruct (tb_strategyChoice (nd_tables n)) as [entry|] eqn:Ee.
  - assert (Ht1 : tables_inv o counts None t1).
    { apply (tables_inv_chosen t t1 Ht Hi1 Hf1); [|cbn; rewrite Hv1; apply Ht]. intros y m Hy _. destruct (decide (y = x)) as [->|Hne]; [|apply (Hti y m Hy); congruence].
      cbn in Hy. assert (m = n) as -> by congruence. unfold isEmpty. cbn. rewrite Ee. by rewrite !orb_true_r, andb_false_r. }
    assert (Hc1 : choices t1 = choices t) by (unfold choices; cbn; by rewrite Hv1). destruct (choice_frame_views t t1 Hi Hi1 Hf1) as (Hfv & Hmv & Hpe).
    assert (Hcn : choices t !! prefix = Some (sc_strategy entry)).
    { rewrite <- Hc1, <- En. unfold choices, t1. cbn [t_nameTree with_nameTree]. by rewrite lookup_fmap, (view_node tb_strategyChoice strategyChoice_none o counts _ x n (ni_table _ _ _ Hi1) Hx), Ee. }
    assert (Hlpm : map_lpm (choices t) prefix (Some (prefix, sc_strategy entry))) by done.
    destruct (name_equals (sc_strategy entry) instance) eqn:Eeq.
    + apply name_equals_spec in Eeq. exists t1, prefix, (sc_strategy entry). split; [done|]. split; [done|]. split; [done|]. rewrite <- Eeq.
      split; [by rewrite Hc1, insert_id|]. split; [done|]. split; [done|]. exists true. split; [by apply areSameType_refl; rewrite Eeq|].
      apply info_cleared_refl; [done|done|]. by intros m [? _].
    + rewrite <- Hc1 in Hfd. destruct (replace_choice r t1 x n entry instance Ht1 Hx Ee Hfd Hfi) as (t' & E & Ht' & Hc' & Hv' & Hm' & same & Es & Hinfo). rewrite En in *.
      rewrite E. exists t', prefix, (sc_strategy entry). split; [done|]. split; [done|]. rewrite Hc1 in Hc', Hinfo. split; [done|]. split; [done|]. split; [by rewrite Hv'|].
      split; [rewrite Hm'; unfold pit_map; by rewrite Hpe|]. exists same. split; [done|]. by apply (info_cleared_same _ t t1 t').
  - destruct (insert_new_choice r prefix instance t t1 x n Ht Hf1 Hi1 Hv1 Hti Hx En Hfd Hfi) as (old & p & t' & -> & Hlpm & E & Hch). cbn [mbind result_bind]. rewrite E. by exists t', p, old.
Qed.

Lemma sc_erase_ok r t prefix st : tables_inv o counts None t -> prefix <> [] -> choices t !! prefix = Some st -> findable r (choices t) ->
  exists t' p parent, sc_erase r prefix t = Ok t' /\ map_lpm (choices t) (take (length prefix - 1) prefix) (Some (p, parent)) /\
    choice_changed r prefix st parent (delete prefix (choices t)) (choices t) t t'.
Proof.
  intros Ht Hne Hst Hfd. pose proof (pv_tree _ _ _ (ti_pit _ _ _ _ Ht)) as Hi. unfold sc_erase, name_size.
  assert ((zlen prefix >? 0) = true) as -> by (destruct prefix as [|c l]; [done|]; rewrite zlen_cons, Z.gtb_lt; pose proof (zlen_nonneg l); lia).
  unfold choices in Hst. rewrite lookup_fmap in Hst. apply fmap_Some in Hst as (entry & Hv & ->).
  destruct (view_present tb_strategyChoice strategyChoice_none o counts (t_nameTree t) prefix entry (ni_table _ _ _ Hi) Hv) as (x & n & Hx & <- & Ee & Hm).
  rewrite (findExactMatch_ok o counts) by done. rewrite take_ge, Hm by done. cbn [mbind result_bind]. unfold deref. rewrite Hx. cbn [mbind result_bind]. rewrite Ee.
  pose proof (entry_depth o counts _ x n Hi Hx) as Hd. rewrite getPrefix_minus1 by (unfold zlen, getMaxDepth in *; lia).
  destruct (findEffectiveStrategy_lpm t (take (length (nd_name n) - 1) (nd_name n)) Hi (ti_root _ _ _ _ Ht)) as (p & parent & -> & Hlpm). cbn [mbind result_bind].
  assert (Hcn : choices t !! nd_name n = Some (sc_strategy entry)) by (unfold choices; by rewrite lookup_fmap, Hv).
  destruct (areSameType_ok r (sc_strategy entry) parent) as (same & Es); [by apply (Hfd (nd_name n))|by apply (Hfd p), Hlpm|].
  destruct (changeStrategy_ok r t x n (sc_strategy entry) parent same Ht Hx) as (t1 & -> & Ht1 & Hc1 & Hv1 & Hm1 & _ & _ & (n1 & Hx1 & En1 & Esc) & Hinfo);
    [unfold nteHasStrategyChoiceEntry; by rewrite Ee|done|]. cbn [mbind result_bind]. pose proof (pv_tree _ _ _ (ti_pit _ _ _ _ Ht1)) as Hi1.
  destruct (set_choice_ok t1 x n1 None Hi1 Hx1) as (t2 & -> & Hi2 & Hf2 & Hn2 & _ & _ & Hv2). cbn [mbind result_bind].
  destruct (nt_erase_ok o limit counts Hcounts (t_nameTree t2) x (set_tables (setStrategyChoiceEntry None (nd_tables n1)) n1) true Hi2)
    as (k & h3 & -> & Hi3 & Hsh & _ & Hta & Hti & _); [rewrite Hn2; apply lookup_insert_eq|]. cbn [mbind result_bind].
  set (t3 := with_nameTree h3 t2). set (t4 := with_strategyChoice_nItems _ t3).
  assert (Hf4 : choice_frame t1 t4). { apply choice_frame_count. eapply choice_frame_trans; [exact Hf2|]. split; [by eapply keeps_shrunk|by destruct t2]. }
  assert (Hv4 : view tb_strategyChoice (t_nameTree t4) = delete (nd_name n) (view tb_strategyChoice (t_nameTree t1))).
  { cbn. rewrite (view_ext tb_strategyChoice strategyChoice_none (t_nameTree t2)) by done. by rewrite Hv2, En1. }
  assert (Ht4 : tables_inv o counts None t4).
  { apply (tables_inv_chosen t1 t4 Ht1 Hi3 Hf4); [|rewrite Hv4, lookup_delete_ne by (intros E; by rewrite E in Hne); apply Ht1]. apply Hti; [done|].
    intros y m Hy Hney. rewrite Hn2 in Hy. apply lookup_insert_Some in Hy as [[<- _]|[_ Hy]]; [done|]. by apply (ti_tight _ _ _ _ Ht1 y m). }
  destruct (choice_frame_views t1 t4 Hi1 Hi3 Hf4) as (Hfv & Hmv & Hpe).
  exists t4, p, parent. split; [done|]. split; [done|]. split; [done|]. split; [unfold choices; rewrite Hv4, fmap_delete; fold (choices t1); by rewrite Hc1|].
  split; [by rewrite Hfv|]. split; [rewrite <- Hm1; unfold pit_map; by rewrite Hpe|]. exists same. split; [done|]. by apply (info_cleared_then _ t t1 t4).
Qed.

Lemma sc_erase_absent r t prefix : tables_inv o counts None t -> prefix <> [] -> choices t !! prefix = None -> sc_erase r prefix t = Ok t.
Proof.
  intros Ht Hne Hst. pose proof (pv_tree _ _ _ (ti_pit _ _ _ _ Ht)) as Hi. unfold sc_erase, name_size.
  assert ((zlen prefix >? 0) = true) as -> by (destruct prefix as [|c l]; [done|]; rewrite zlen_cons, Z.gtb_lt; pose proof (zlen_nonneg l); lia).
  rewrite (findExactMatch_ok o counts) by done. rewrite take_ge by done. cbn [mbind result_bind]. destruct (ht_map (t_nameTree t) !! prefix) as [x|] eqn:E; [|done].
  apply ht_map_at in E as (n & Hx & <-); [|apply Hi]. unfold deref. rewrite Hx. cbn [mbind result_bind].
  unfold choices in Hst. rewrite lookup_fmap, (view_node tb_strategyChoice strategyChoice_none o counts _ x n (ni_table _ _ _ Hi) Hx) in Hst. by destruct (tb_strategyChoice (nd_tables n)).
Qed.

Lemma sc_get_ok t prefix : tables_inv o counts None t ->
  sc_get prefix t = Ok (match choices t !! prefix with Some st => (true, st) | None => (false, []) end).
Proof.
  intros Ht. pose proof (pv_tree _ _ _ (ti_pit _ _ _ _ Ht)) as Hi. unfold sc_get, choices. rewrite lookup_fmap.
  rewrite (findExactMatch_ok o counts) by done. rewrite take_ge by done. cbn [mbind result_bind]. destruct (ht_map (t_nameTree t) !! prefix) as [x|] eqn:E.
  - apply ht_map_at in E as (n & Hx & <-); [|apply Hi]. unfold deref. rewrite Hx. cbn [mbind result_bind].
    rewrite (view_node tb_strategyChoice strategyChoice_none o counts _ x n (ni_table _ _ _ Hi) Hx). by destruct (tb_strategyChoice (nd_tables n)).
  - unfold view. rewrite lookup_omap, E. done.
Qed.

(** The default strategy, in new tables. *)
Lemma setDefaultStrategy_ok r h strategyName instance : Hashtable_new o = Ok h -> Z.of_nat (S getMaxDepth) <= limit -> m_htSize h = 0 ->
  strategy_create r strategyName = Ok (Some instance) ->
  exists t, setDefaultStrategy r strategyName (NfdTables_new h) = Ok t /\ tables_inv o counts None t /\ choices t = {[ [] := instance ]} /\
    pit_entries t = ∅ /\ fib_view t = ∅ /\ t_timers t = EventQueue_new /\ m_htSize (t_nameTree t) <= Z.of_nat (S getMaxDepth).
Proof.
  intros Hnew Hlim Hsz Hc. destruct (fib_inv_new o limit counts h Hcounts Hnew) as [Hf Hv]. destruct (pit_inv_new o limit counts h Hcounts Hnew) as (Hp & _ & Hti).
  pose proof (pv_tree _ _ _ Hp) as Hi. destruct (new_inv o limit counts Hcounts h Hnew) as [_ Hn]. unfold setDefaultStrategy. rewrite Hc. cbn [mbind result_bind].
  destruct (nt_lookup_full o limit counts Hcounts h [] 0 Hi) as (x & n & h1 & E & Hi1 & Hx & En & _ & Hg & Hta & Hs1 & Ht1); [done|cbn; lia|lia|].
  cbn [t_nameTree NfdTables_new]. rewrite E. cbn [mbind result_bind]. set (t1 := with_nameTree h1 (NfdTables_new h)).
  destruct (set_choice_ok t1 x n (Some (mkStrategyChoiceEntry [] instance)) Hi1 Hx) as (t2 & -> & Hi2 & Hf2 & Hn2 & Hs2 & _ & Hv2). cbn [mbind result_bind].
  set (t3 := with_strategyChoice_nItems _ t2). rewrite En in Hv2. cbn in Hv2.
  assert (Hf3 : choice_frame (NfdTables_new h) t3). { apply choice_frame_count. eapply choice_frame_trans; [|exact Hf2]. split; [by eapply keeps_grown|done]. }
  assert (Hv1 : view tb_strategyChoice h1 = ∅).
  { apply map_eq. intros m. rewrite (view_lookup tb_strategyChoice strategyChoice_none), Hta, lookup_empty. unfold tables_at, ht_map. by rewrite Hn. }
  destruct (choice_frame_views (NfdTables_new h) t3 Hi Hi2 Hf3) as (Hfv & _ & Hpe).
  exists t3. split; [done|]. split; [|split; [|split; [done|split; [by rewrite Hfv|split; [by rewrite (proj2 Hf3)|cbn in *; lia]]]]].
  - apply (tables_inv_choice (NfdTables_new h) t3); [done|done|intros name e; by rewrite Hv, lookup_empty| | | |by intros loc e [He _]|done|done| |].
    + apply queue_inv_new.
    + intros l id. split; [done|]. by intros (ev & Hev%not_elem_of_nil & _).
    + intros y id. unfold meas_timer, meas_at. cbn. rewrite Hn, lookup_empty. split; [done|]. by intros (ev & Hev%not_elem_of_nil & _).
    + by apply (setStrategy_tight t1 x n (mkStrategyChoiceEntry [] instance) t2); [|apply Ht1|].
    + cbn. rewrite Hv2, lookup_partial_alter_eq. by eexists.
  - transitivity (choices t2); [done|]. rewrite (choices_alter t1 t2 _ _ Hv2). unfold choices. cbn [t_nameTree t1 with_nameTree]. rewrite Hv1, fmap_empty. done.
Qed.
End choice.

(** ** Properties *)
Section properties.
Context `{HashFunction} (o : HashtableOptions) (limit : Z) (counts : list Z) (Hcounts : counts_ok o limit counts = true).

(** C22: the strategy choice table is a map from prefixes to strategies; the effective
    strategy of a name is that of its longest prefix in the map.  Setting the strategy of a
    prefix, or removing it, changes that entry of the map, leaves FIB and PIT as they are,
    and, if the strategy type that was effective there differs from the new one, clears
    what strategies have stored on exactly the PIT and measurements entries that the prefix
    governs; otherwise it clears nothing.  A prefix that is too long and a strategy that is
    not registered or does not accept its name change nothing.  The tables stay consistent. *)
Theorem strategy_choice_table (r : Registry) (t : NfdTables) (Ht : tables_inv o counts None t) (Hr : findable r (choices t)) :
  (forall prefix, sc_get prefix t = Ok (match choices t !! prefix with Some st => (true, st) | None => (false, []) end)) /\
  (forall name, exists p st, findEffectiveStrategy name t = Ok st /\ map_lpm (choices t) name (Some (p, st))) /\
  (forall prefix name, (getMaxDepth < length prefix)%nat -> sc_insert r prefix name t = Ok (DEPTH_EXCEEDED, t)) /\
  (forall prefix name, (length prefix <= getMaxDepth)%nat -> strategy_create r name = Ok None -> sc_insert r prefix name t = Ok (NOT_REGISTERED, t)) /\
  (forall prefix name what, (length prefix <= getMaxDepth)%nat -> strategy_create r name = Err (InvalidArgument what) -> sc_insert r prefix name t = Ok (EXCEPTION, t)) /\
  (forall prefix name new, (length prefix <= getMaxDepth)%nat -> m_htSize (t_nameTree t) + Z.of_nat (S getMaxDepth) <= limit ->
     strategy_create r name = Ok (Some new) -> is_ok (strategy_find r new) = true ->
     exists t' p old, sc_insert r prefix name t = Ok (SC_OK, t') /\ map_lpm (choices t) prefix (Some (p, old)) /\
       choice_changed o counts r prefix old new (<[prefix := new]> (choices t)) (<[prefix := new]> (choices t)) t t') /\
  (forall prefix, prefix <> [] -> choices t !! prefix = None -> sc_erase r prefix t = Ok t) /\
  (forall prefix old, prefix <> [] -> choices t !! prefix = Some old ->
     exists t' p new, sc_erase r prefix t = Ok t' /\ map_lpm (choices t) (take (length prefix - 1) prefix) (Some (p, new)) /\
       choice_changed o counts r prefix old new (delete prefix (choices t)) (choices t) t t').
Proof.
  pose proof (pv_tree _ _ _ (ti_pit _ _ _ _ Ht)) as Hi. split; [intros prefix; by apply (sc_get_ok o counts)|]. split; [intros name; by apply (findEffectiveStrategy_lpm o counts), Ht|].
  unfold sc_insert. split; [intros prefix name Hl; by rewrite (proj2 (Nat.ltb_lt _ _) Hl)|]. split; [intros prefix name Hl Hc; by rewrite (proj2 (Nat.ltb_ge _ _) Hl), Hc|].
  split; [intros prefix name what Hl Hc; by rewrite (proj2 (Nat.ltb_ge _ _) Hl), Hc|]. split; [intros; by eapply sc_insert_ok|].
  split; [intros prefix; by apply (sc_erase_absent o counts)|intros; by eapply sc_erase_ok].
Qed.
End properties.

(** A registry of two strategies. *)
Definition sample_registry : Registry :=
  [(strategy_name "multicast" 3, strategy_ctor (strategy_name "multicast" 3)); (strategy_name "best-route" 5, strategy_ctor (strategy_name "best-route" 5))].

Lemma strategy_choice_table_witness : exists t t' old, choices t = {[ [] := strategy_name "best-route" 5 ]} /\
  sc_insert (H := mark_hash) sample_registry name_a_b (strategy_prefix ++ [mkComponent 8 (str "multicast")]) t = Ok (SC_OK, t') /\
  choices t' !! name_a_b = Some (strategy_name "multicast" 3) /\ old = strategy_name "best-route" 5 /\
  areSameType sample_registry old (strategy_name "multicast" 3) = Ok false.
Proof.
  assert (Hsz : match Hashtable_new (T:=Tables) (HashtableOptions_new 1024) with
                | Ok h => m_htSize h =? 0 | Err _ => false end = true) by (vm_compute; reflexivity).
  destruct (Hashtable_new (T:=Tables) (HashtableOptions_new 1024)) as [h|] eqn:Eh; [|done]. zbool.
  destruct (setDefaultStrategy_ok (H := mark_hash) _ _ _ counts_1024 sample_registry h (strategy_name "best-route" 5) (strategy_name "best-route" 5) Eh)
    as (t & _ & Ht & Hc & _ & _ & _ & Hs); [by vm_compute|done|by vm_compute|].
  assert (Hfd : findable sample_registry (choices t)).
  { intros p st. rewrite Hc. intros [<- <-]%lookup_singleton_Some. by vm_compute. }
  destruct (strategy_choice_table (H := mark_hash) _ _ _ counts_1024 sample_registry t Ht Hfd) as (_ & _ & _ & _ & _ & Hins & _).
  destruct (Hins name_a_b (strategy_prefix ++ [mkComponent 8 (str "multicast")]) (strategy_name "multicast" 3)) as (t' & p & old & E & (Hold & _) & _ & Hc' & _ & _ & same & Es & _).
  - cbn. unfold getMaxDepth. lia.
  - clear -Hs. unfold getMaxDepth in *. lia.
  - by vm_compute.
  - by vm_compute.
  - rewrite Hc in Hold. apply lookup_singleton_Some in Hold as [_ <-]. exists t, t', (strategy_name "best-route" 5). split; [exact Hc|]. split; [exact E|].
    split; [rewrite Hc'; apply lookup_insert_eq|]. split; [done|]. by vm_compute.
Defined.
