(* ===== verification/ForwarderInv.v ===== *)
(** * The invariant of the forwarder, and what its parts promise each other

    When Data matches an Interest; the invariant of the forwarder's state; the frame that
    a step of a pipeline respects; a judgement [safe], that a computation returns, keeps
    the invariant and respects the frame, with a rule for sequencing.  The interfaces of
    content stores and of strategies are stated with it, so that the pipelines are
    verified against any strategy that keeps them. *)

From stdpp Require Import base gmap list sets strings.
From Stdlib Require Import ZArith Lia.
From S2P Require Import Prelude Tlv Encoder Block Codec Ndn NameTlv Signature Exclude Selectors Data Interest LpPacket FaceTable Double Hashtable NameTree Scheduler NfdTables Fib Pit Cleanup DeadNonceList NameSuccessor Cs Algorithm RetxSuppression Measurements StrategyChoice Forwarder TablesInv.

Local Open Scope Z_scope.

(** ** Matching *)

(** What [matchesData] reads of an Interest and of a Data packet. *)
Lemma matchesData_ext sha256 i i' d d' :
  i_name i' = i_name i -> i_selectors i' = i_selectors i -> d_name d' = d_name d -> d_wire d' = d_wire d -> d_signature d' = d_signature d ->
  matchesData sha256 i' d' = matchesData sha256 i d.
Proof.
  intros En Es Ed Ew Eg. unfold matchesData, matches_prefix, matches_exclude, matches_locator, getFullName.
  by rewrite En, Es, Ed, Ew, Eg.
Qed.

Definition with_selectors (s : Selectors) (i : Interest) : Interest :=
  mkInterest (i_name i) s (i_hasNonce i) (i_nonce i) (i_interestLifetime i) (i_forwardingHint i) (i_parameters i) (i_wire i) (i_tags i).

(** Selectors that select the same Data. *)
Definition same_selection (s s' : Selectors) : Prop :=
  forall sha256 i d, matchesData sha256 (with_selectors s i) d = matchesData sha256 (with_selectors s' i) d.

(** Selectors that can be encoded, and whose encoding says what they select: those that
    were decoded, and those made by the setters.  *)
Record sel_fine (s : Selectors) : Prop := {
  sf_wire : exists w s', Selectors_wireEncode s = Ok w /\ Selectors_wireDecode w = Ok s' /\ same_selection s s';
  sf_locator : KeyLocator_empty (sel_publisherPublicKeyLocator s) = true \/
    is_ok (KeyLocator_wireEncode (sel_publisherPublicKeyLocator s)) = true;
}.

Lemma sel_fine_ok s : sel_fine s -> sel_ok s.
Proof. intros [(w & s' & E & _) _]. unfold sel_ok. by rewrite E. Qed.
#[export] Hint Resolve sel_fine_ok : valdb.

Lemma Selectors_wireDecode_value w w' s : block_key w = block_key w' -> Selectors_wireDecode w = Ok s ->
  exists s', Selectors_wireDecode w' = Ok s' /\ same_selection s s'.
Proof.
  intros Ek. assert (Hv : block_type w = block_type w' /\ block_value w = block_value w').
  { unfold block_key, block_value_size in Ek. injection Ek as Et Es Ev. split; [done|]. rewrite Es in Ev.
    destruct (zlen (block_value w') =? 0) eqn:E; zbool; [|done].
    assert (block_value w' = []) as -> by (apply length_zero_iff_nil; unfold zlen in *; lia).
    apply length_zero_iff_nil. unfold zlen in *. lia. }
  destruct Hv as [Et Ev]. unfold Selectors_wireDecode, parse. rewrite Et, Ev. destruct (negb _); [done|].
  intros D. repeat (apply result_bind_Ok in D as (? & E & D); rewrite E; clear E; cbn [mbind result_bind]).
  apply (inj Ok) in D as <-. eexists. split; [done|]. by intros ???.
Qed.

(** Interests with the same name and encoded selectors match the same Data. *)
Lemma same_key_matches sha256 i i' d :
  sel_fine (i_selectors i) -> sel_fine (i_selectors i') -> interest_key i = interest_key i' ->
  matchesData sha256 i d = matchesData sha256 i' d.
Proof.
  intros [(w & s & E & D & S) _] [(w' & s' & E' & D' & S') _] Hk. injection Hk as En Ek.
  unfold sel_key in Ek. rewrite E, E' in Ek. destruct (Selectors_wireDecode_value w w' s Ek D) as (s0 & D0 & S0).
  rewrite D' in D0. apply (inj Ok) in D0 as <-.
  transitivity (matchesData sha256 (with_selectors s i) d); [by rewrite <- S; destruct i|].
  rewrite (S0 sha256 i d), <- (S' sha256 i d). apply matchesData_ext; [done|done|done..].
Qed.

Lemma sel_fine_decoded w s : Selectors_wireDecode w = Ok s ->
  KeyLocator_empty (sel_publisherPublicKeyLocator s) = true \/ is_ok (KeyLocator_wireEncode (sel_publisherPublicKeyLocator s)) = true ->
  sel_fine s.
Proof.
  intros D Hl. split; [|done]. assert (Hw : sel_wire s = Some w).
  { unfold Selectors_wireDecode in D. destruct (negb _); [done|].
    repeat (apply result_bind_Ok in D as (? & _ & D)). by injection D as <-. }
  exists w, s. unfold Selectors_wireEncode. rewrite Hw. done.
Qed.

(** Data that can be matched: it has a wire encoding, and its SignatureInfo parses. *)
Record matchable (sha256 : octets -> octets) (d : Data) : Prop := {
  mt_fullName : is_ok (getFullName sha256 d) = true;
  mt_info : exists info, Signature_getInfo (d_signature d) = Ok info /\
    (is_Some (si_wire (sig_info (d_signature d))) -> is_ok (parse info) = true);
}.

Lemma matchable_ok sha256 i d : sel_fine (i_selectors i) -> matchable sha256 d -> exists b, matchesData sha256 i d = Ok b.
Proof.
  intros Hs [Hf (info & Hi & Hp)]. unfold matchesData. cbv zeta.
  destruct (negb _); [by eexists|]. destruct (_ && _); [by eexists|].
  destruct (getFullName sha256 d) as [full|] eqn:Efull; [|done]. clear Hf.
  assert (Hlen : name_size full = name_size (d_name d) + 1).
  { unfold getFullName in Efull. destruct (d_wire d); [|done]. apply result_bind_Ok in Efull as (c & _ & E). injection E as <-.
    unfold name_size. zlen_lia. }
  assert (Hat : forall k (n : Name), 0 <= k < name_size n -> exists c, name_at k n = Ok c).
  { intros k n Hk. unfold name_at. rewrite (proj2 (Z.ltb_ge k 0)) by lia. cbv zeta. rewrite (proj2 (Z.ltb_ge k 0)), (proj2 (Z.leb_gt _ _)) by lia.
    cbn [orb]. destruct (n !! Z.to_nat k) eqn:E; [by eexists|]. apply lookup_ge_None in E. unfold name_size, zlen in Hk. lia. }
  assert (exists p, matches_prefix sha256 i d = Ok p) as (p & ->).
  { unfold matches_prefix. destruct (name_size (i_name i) =? _) eqn:E; [|by eexists]. zbool.
    destruct (Hat (name_size (i_name i) - 1) (i_name i)) as (c & Hc); [unfold name_size in *; pose proof (zlen_nonneg (d_name d)); lia|].
    assert (name_at (-1) (i_name i) = Ok c) as ->.
    { rewrite <- Hc. unfold name_at. cbn [Z.ltb Z.compare]. cbv zeta. rewrite (proj2 (Z.ltb_ge (name_size (i_name i) - 1) 0)); [done|].
      unfold name_size in *. pose proof (zlen_nonneg (d_name d)). lia. }
    cbn [mbind result_bind]. destruct (isImplicitSha256Digest c); [|by eexists]. rewrite Efull. by eexists. }
  cbn [mbind result_bind]. destruct p; [|by eexists]. cbn [negb].
  assert (exists e, matches_exclude sha256 i d = Ok e) as (e & ->).
  { unfold matches_exclude. cbv zeta. destruct (_ && _) eqn:E; [|by eexists]. apply andb_prop in E as [_ E]. zbool.
    pose proof (zlen_nonneg (i_name i)). destruct (name_size (i_name i) =? _) eqn:E2; zbool.
    - rewrite Efull. cbn [mbind result_bind]. destruct (Hat (name_size (i_name i)) full) as (c & ->); [unfold name_size in *; lia|]. by eexists.
    - destruct (Hat (name_size (i_name i)) (d_name d)) as (c & ->); [unfold name_size in *; lia|]. by eexists. }
  cbn [mbind result_bind]. destruct e; [|by eexists]. cbn [negb]. unfold matches_locator.
  destruct (KeyLocator_empty _) eqn:Ek; [by eexists|]. cbn [negb]. rewrite Hi. cbn [mbind result_bind].
  destruct Hs as [_ [Hl|Hl]]; [by rewrite Hl in Ek|]. destruct (KeyLocator_wireEncode _) as [kw|]; [|done].
  destruct (si_wire _) as [|]; [|by eexists]. specialize (Hp ltac:(by eexists)). destruct (parse info); [|done]. cbn [mbind result_bind].
  destruct (block_find _ _); by eexists.
Qed.

(** ** The invariant *)

(** The freshness of Data, in milliseconds, can be computed with. *)
Definition fresh_ok (period : Z) : Prop := 0 <= period /\ ms period < 2 ^ 62.
(** Only tags differ. *)
Definition same_packet (d d' : Data) : Prop := exists f, d' = data_tags f d.

#[export] Instance same_packet_refl : Reflexive same_packet.
Proof. intros d. exists (fun t => t). by destruct d. Qed.
#[export] Instance same_packet_trans : Transitive same_packet.
Proof. intros d1 d2 d3 [f ->] [g ->]. by exists (fun t => g (f t)). Qed.
Lemma same_packet_tags f d : same_packet d (data_tags f d).
Proof. by exists f. Qed.
#[export] Hint Resolve same_packet_tags : valdb.
Lemma same_packet_matches sha256 i d d' : same_packet d d' -> matchesData sha256 i d' = matchesData sha256 i d.
Proof. intros [f ->]. by apply matchesData_ext. Qed.

Lemma findAllDataMatches_packet `{HashFunction} sha256 d d' t :
  same_packet d d' -> pit_findAllDataMatches sha256 d' t = pit_findAllDataMatches sha256 d t.
Proof.
  intros Hd. unfold pit_findAllDataMatches. assert (d_name d' = d_name d) as -> by (by destruct Hd as [f ->]).
  destruct (findAllMatches _ _ _) as [ntes|]; [|done]. cbn [mbind result_bind]. induction ntes as [|x ntes IH]; [done|]. cbn [ntes_matches].
  destruct (deref x _) as [n|]; [|done]. cbn [mbind result_bind].
  assert (data_matches sha256 d' (tb_pit (nd_tables n)) t = data_matches sha256 d (tb_pit (nd_tables n)) t) as ->; [|by rewrite IH].
  induction (tb_pit (nd_tables n)) as [|loc l IHl]; [done|]. cbn [data_matches]. destruct (pit_deref loc t) as [e|]; [|done]. cbn [mbind result_bind].
  rewrite (same_packet_matches sha256 _ d d' Hd). destruct (matchesData _ _ _); [|done]. cbn [mbind result_bind]. by rewrite IHl.
Qed.

(** What a content store promises: it does not fail, and what it finds matches and is
    fresh enough to compute with.  [cs_ok] is its invariant. *)
Class ContentStoreLaws (C : Type) `{ContentStore C} (sha256 : octets -> octets) (cs_ok : C -> Prop) : Prop := {
  cs_find_ok now i c : cs_ok c -> sel_fine (i_selectors i) -> lookup_ok i ->
    exists r c', cs_find now i c = Ok (r, c') /\ cs_ok c' /\
      forall d, r = Some d -> matchesData sha256 i d = Ok true /\ fresh_ok (mi_freshnessPeriod (d_metaInfo d));
  cs_insert_ok now d unsolicited c : cs_ok c -> 0 <= now < 2 ^ 62 -> fresh_ok (mi_freshnessPeriod (d_metaInfo d)) -> matchable sha256 d ->
    valid_name (d_name d) -> exists c', cs_insert now d unsolicited c = Ok c' /\ cs_ok c';
}.

Lemma room_le limit t k k' : room limit t k -> k' <= k -> room limit t k'.
Proof. unfold room. intros Hr Hk. assert (k' * Z.of_nat (S getMaxDepth) <= k * Z.of_nat (S getMaxDepth)) by (apply Z.mul_le_mono_nonneg_r; lia). lia. Qed.

Section invariant.
Context {C : Type} `{HashFunction} `{StdSort} `{!StdSortLaws} `{SeededHash} (cs_ok : C -> Prop).
Context (o : HashtableOptions) (limit : Z) (counts : list Z) (Hcounts : counts_ok o limit counts = true).
Implicit Types (s : Forwarder C) (loc : nat) (busy : option nat).

(** The face exists, and NFD may use it: it is not one of VAL's network faces. *)
Definition known (t : FaceTable) (face : Z) : Prop := exists f, ft_get face t = Some f /\ face_id f = face /\ isValNetFace f = false.

(** A PIT entry that waits for Data: its Interest can be matched and has no hint to the
    node's own region, the faces that wait are there, the freshness of the Data that
    satisfied it can be computed with, and so can the suppression intervals that are
    stored. *)
Record entry_ok (t : FaceTable) (regions : list Name) (e : pit_Entry) : Prop := {
  eo_selectors : sel_fine (i_selectors (pit_interest e));
  eo_hint : isInProducerRegion regions (i_forwardingHint (pit_interest e)) = false;
  eo_faces r : r ∈ pit_inRecords e -> known t (in_face r);
  eo_fresh : pit_isSatisfied e = true -> fresh_ok (pit_dataFreshnessPeriod e);
  eo_info : info_ok (pit_info e);
  eo_outInfo r : r ∈ pit_outRecords e -> info_ok (fr_info (or_record r));
}.

Record fw_inv busy s : Prop := {
  fv_tables : tables_inv o counts busy (fw_tables s);
  fv_dnl : dnl_inv (fw_deadNonceList s);
  fv_faces : ft_inv (fw_faceTable s);
  fv_hops prefix e nh : fib_view (fw_tables s) !! prefix = Some e -> nh ∈ fe_nextHops e -> known (fw_faceTable s) (nh_face nh);
  fv_entries loc e : attached (pit_entries (fw_tables s)) loc e -> entry_ok (fw_faceTable s) (fw_networkRegionTable s) e;
  fv_cs : cs_ok (fw_cs s);
}.

(** Data for VAL comes with the nonces of the entry, unless it only announces that it was
    not solicited. *)
Definition val_ready (x : fw_output) : Prop :=
  match x with DataToVal _ d None _ => getCongestionMark (d_tags d) = 501 | _ => True end.
Definition ready (l l' : list fw_output) : Prop := exists out, l' = l ++ out /\ Forall val_ready out.
Lemma ready_refl l : ready l l.
Proof. exists []. by rewrite app_nil_r. Qed.
Lemma ready_snoc l x : val_ready x -> ready l (l ++ [x]).
Proof. intros Hx. exists [x]. split; [done|]. by constructor. Qed.
Lemma ready_trans l1 l2 l3 : ready l1 l2 -> ready l2 l3 -> ready l1 l3.
Proof. intros (o1 & -> & Ho1) (o2 & -> & Ho2). exists (o1 ++ o2). rewrite app_assoc. split; [done|]. by apply Forall_app. Qed.

(** What a step of a pipeline may do, with at most [k] new name tree branches: faces and
    regions stay, and so do the pending entries; what leaves is ready for VAL. *)
Record fw_frame (k : Z) s s' : Prop := {
  ff_faces : fw_faceTable s' = fw_faceTable s;
  ff_regions : fw_networkRegionTable s' = fw_networkRegionTable s;
  ff_entries loc e : attached (pit_entries (fw_tables s)) loc e ->
    exists e', attached (pit_entries (fw_tables s')) loc e' /\ i_name (pit_interest e') = i_name (pit_interest e) /\
      i_selectors (pit_interest e') = i_selectors (pit_interest e);
  ff_size : m_htSize (t_nameTree (fw_tables s')) <= m_htSize (t_nameTree (fw_tables s)) + k * Z.of_nat (S getMaxDepth);
  ff_out : ready (fw_out s) (fw_out s');
}.

Lemma fw_frame_refl s : fw_frame 0 s s.
Proof. split; [done|done|by eauto|lia|apply ready_refl]. Qed.
Lemma fw_frame_trans k1 k2 s1 s2 s3 : fw_frame k1 s1 s2 -> fw_frame k2 s2 s3 -> fw_frame (k1 + k2) s1 s3.
Proof.
  intros [F1 R1 E1 S1 O1] [F2 R2 E2 S2 O2]. split; [congruence|congruence| |lia|by eapply ready_trans].
  intros loc e Ha. destruct (E1 loc e Ha) as (e2 & Ha2 & N2 & L2). destruct (E2 loc e2 Ha2) as (e3 & Ha3 & N3 & L3).
  exists e3. split; [done|]. by rewrite N3, L3.
Qed.
Lemma fw_frame_weaken k k' s s' : fw_frame k s s' -> k <= k' -> fw_frame k' s s'.
Proof. intros [F R E S O] Hk. split; [done|done|done|nia|done]. Qed.
Lemma fw_frame_room k k' s s' : fw_frame k s s' -> room limit (fw_tables s) k' -> room limit (fw_tables s') (k' - k).
Proof. intros [_ _ _ Hs _] Hr. unfold room in *. lia. Qed.
Lemma fw_frame_known k s s' face : fw_frame k s s' -> known (fw_faceTable s) face -> known (fw_faceTable s') face.
Proof. intros Hf. by rewrite (ff_faces _ _ _ Hf). Qed.

(** The computation returns, keeps the invariant and the frame. *)
Definition safe busy k s (m : result (Forwarder C)) : Prop := exists s', m = Ok s' /\ fw_inv busy s' /\ fw_frame k s s'.
Definition safe_data busy k s d (m : result (Data * Forwarder C)) : Prop :=
  exists d' s', m = Ok (d', s') /\ same_packet d d' /\ fw_inv busy s' /\ fw_frame k s s'.

Lemma safe_Ok busy s : fw_inv busy s -> safe busy 0 s (Ok s).
Proof. intros Hi. exists s. split; [done|]. split; [done|apply fw_frame_refl]. Qed.
Lemma safe_weaken busy k k' s m : safe busy k s m -> k <= k' -> safe busy k' s m.
Proof. intros (s' & E & Hi & Hf) Hk. exists s'. split; [done|]. split; [done|by eapply fw_frame_weaken]. Qed.
Lemma safe_bind busy busy' k k' s m f :
  safe busy k s m -> (forall s1, fw_inv busy s1 -> fw_frame k s s1 -> safe busy' (k' - k) s1 (f s1)) -> safe busy' k' s (m ≫= f).
Proof.
  intros (s1 & -> & Hi & Hf) Hk. destruct (Hk s1 Hi Hf) as (s2 & E & Hi2 & Hf2). exists s2. split; [done|]. split; [done|].
  replace k' with (k + (k' - k)) by lia. by eapply fw_frame_trans.
Qed.
Lemma safe_data_bind busy busy' k k' s d m f :
  safe_data busy k s d m ->
  (forall d1 s1, same_packet d d1 -> fw_inv busy s1 -> fw_frame k s s1 -> safe_data busy' (k' - k) s1 d1 (f (d1, s1))) ->
  safe_data busy' k' s d (m ≫= f).
Proof.
  intros (d1 & s1 & -> & Hd & Hi & Hf) Hk. destruct (Hk d1 s1 Hd Hi Hf) as (d2 & s2 & E & Hd2 & Hi2 & Hf2).
  exists d2, s2. split; [done|]. split; [by etrans|]. split; [done|].
  replace k' with (k + (k' - k)) by lia. by eapply fw_frame_trans.
Qed.
Lemma safe_data_drop busy busy' k k' s d m f :
  safe_data busy k s d m ->
  (forall d1 s1, same_packet d d1 -> fw_inv busy s1 -> fw_frame k s s1 -> safe busy' (k' - k) s1 (f (d1, s1))) ->
  safe busy' k' s (m ≫= f).
Proof.
  intros (d1 & s1 & -> & Hd & Hi & Hf) Hk. destruct (Hk d1 s1 Hd Hi Hf) as (s2 & E & Hi2 & Hf2).
  exists s2. split; [done|]. split; [done|]. replace k' with (k + (k' - k)) by lia. by eapply fw_frame_trans.
Qed.
Lemma safe_to_data busy k k' s d m f :
  safe busy k s m -> (forall s1, fw_inv busy s1 -> fw_frame k s s1 -> safe_data busy (k' - k) s1 d (f s1)) ->
  safe_data busy k' s d (m ≫= f).
Proof.
  intros (s1 & -> & Hi & Hf) Hk. destruct (Hk s1 Hi Hf) as (d2 & s2 & E & Hd2 & Hi2 & Hf2).
  exists d2, s2. split; [done|]. split; [done|]. split; [done|]. replace k' with (k + (k' - k)) by lia. by eapply fw_frame_trans.
Qed.
Lemma safe_data_Ok busy s d : fw_inv busy s -> safe_data busy 0 s d (Ok (d, s)).
Proof. intros Hi. exists d, s. split; [done|]. split; [done|]. split; [done|apply fw_frame_refl]. Qed.

(** *** Steps that do not touch the tables *)
Definition quiet s s' : Prop :=
  fw_tables s' = fw_tables s /\ fw_faceTable s' = fw_faceTable s /\ fw_deadNonceList s' = fw_deadNonceList s /\
  fw_networkRegionTable s' = fw_networkRegionTable s /\ fw_cs s' = fw_cs s /\ ready (fw_out s) (fw_out s').
Lemma quiet_emit x s : val_ready x -> quiet s (emit x s). Proof. intros Hx. do 5 (split; [done|]). by apply ready_snoc. Qed.
Lemma quiet_count c s : quiet s (count c s). Proof. do 5 (split; [done|]). apply ready_refl. Qed.
Lemma quiet_inv busy s s' : quiet s s' -> fw_inv busy s -> fw_inv busy s'.
Proof. intros (Et & Ef & Ed & Er & Ec & _) [? ? ? ? ? ?]. split; rewrite ?Et, ?Ef, ?Ed, ?Er, ?Ec; done. Qed.
Lemma fw_inv_emit busy x s : fw_inv busy s -> fw_inv busy (emit x s).
Proof. by intros [? ? ? ? ? ?]. Qed.
Lemma fw_inv_count busy c s : fw_inv busy s -> fw_inv busy (count c s).
Proof. by intros [? ? ? ? ? ?]. Qed.
Lemma quiet_frame s s' : quiet s s' -> fw_frame 0 s s'.
Proof. intros (Et & Ef & Ed & Er & Ec & Eo). split; rewrite ?Et; [done|done|by eauto|lia|done]. Qed.
Lemma quiet_safe busy s s' : quiet s s' -> fw_inv busy s -> safe busy 0 s (Ok s').
Proof. intros Hq Hi. exists s'. split; [done|]. split; [by eapply quiet_inv|by apply quiet_frame]. Qed.
(** What precedes may be quiet. *)
Lemma safe_after busy k s s1 m : fw_frame 0 s s1 -> safe busy k s1 m -> safe busy k s m.
Proof.
  intros Hf (s' & E & Hi & Hf'). exists s'. split; [done|]. split; [done|]. replace k with (0 + k) by lia. by eapply fw_frame_trans.
Qed.
Lemma safe_data_after busy k s s1 d d1 m : fw_frame 0 s s1 -> same_packet d d1 -> safe_data busy k s1 d1 m -> safe_data busy k s d m.
Proof.
  intros Hf Hd (d' & s' & E & Hd' & Hi & Hf'). exists d', s'. split; [done|]. split; [by etrans|]. split; [done|].
  replace k with (0 + k) by lia. by eapply fw_frame_trans.
Qed.

Lemma get_face_ok busy s face : fw_inv busy s -> known (fw_faceTable s) face -> exists f, get_face face s = Ok f /\ face_id f = face /\ isValNetFace f = false.
Proof. intros Hi (f & Hf & Hid & Hv). exists f. unfold get_face. by rewrite Hf. Qed.

(** *** Steps on the tables *)
Lemma fw_inv_tables busy busy' s t' :
  fw_inv busy s -> tables_inv o counts busy' t' -> fib_view t' = fib_view (fw_tables s) ->
  (forall loc e, attached (pit_entries t') loc e -> entry_ok (fw_faceTable s) (fw_networkRegionTable s) e) ->
  fw_inv busy' (with_tables t' s).
Proof. intros [? ? ? Hh ? ?] Ht Ef He. split; [done|done|done| |done|done]. cbn. rewrite Ef. done. Qed.

Lemma attached_entry busy s loc e : fw_inv busy s -> attached (pit_entries (fw_tables s)) loc e ->
  entry_at loc s = Ok e /\ records_ok e /\ entry_ok (fw_faceTable s) (fw_networkRegionTable s) e.
Proof.
  intros Hi Ha. split; [unfold entry_at, pit_deref; by rewrite (proj1 Ha)|]. split; [|by apply (fv_entries _ _ Hi loc)].
  apply (po_entries _ _ (pv_ok _ _ _ (ti_pit _ _ _ _ (fv_tables _ _ Hi))) loc e), Ha.
Qed.

(** An entry is changed through its pointer; its key and its timer stay. *)
Lemma entry_modify_ok busy s loc e e' f :
  fw_inv busy s -> attached (pit_entries (fw_tables s)) loc e -> f e = Ok e' ->
  pit_nte e' = pit_nte e -> pit_expiryTimer e' = pit_expiryTimer e -> i_name (pit_interest e') = i_name (pit_interest e) ->
  i_selectors (pit_interest e') = i_selectors (pit_interest e) -> records_ok e' ->
  entry_ok (fw_faceTable s) (fw_networkRegionTable s) e' ->
  let s' := with_tables (pit_store loc e' (fw_tables s)) s in
  entry_modify loc f s = Ok s' /\ fw_inv busy s' /\ fw_frame 0 s s' /\ attached (pit_entries (fw_tables s')) loc e'.
Proof.
  intros Hi Ha Hf Hnte Htm Hnm Hsl Hrec Hok s'. pose proof Ha as [He Hs].
  destruct (tables_inv_modify o counts busy (fw_tables s) loc e e' f (fv_tables _ _ Hi) He Hf Hnte Htm Hnm Hsl Hrec) as (E & Ht & _).
  assert (Ha' : attached (pit_entries (fw_tables s')) loc e').
  { split; [apply lookup_insert_eq|by rewrite Hnte]. }
  unfold entry_modify. rewrite E. split; [done|]. split; [|split; [|done]].
  - apply (fw_inv_tables busy busy s); [done|done|done|]. intros l e1 [Hl Hs1]. cbn in Hl.
    apply lookup_insert_Some in Hl as [[<- <-]|[_ Hl]]; [done|]. by apply (fv_entries _ _ Hi l).
  - split; [done|done| |cbn; lia|apply ready_refl]. intros l e1 [Hl Hs1]. destruct (decide (l = loc)) as [->|Hne].
    + exists e'. assert (e1 = e) as -> by congruence. by rewrite Hnm, Hsl.
    + exists e1. split; [|done]. split; [|done]. cbn. by rewrite lookup_insert_ne.
Qed.

Lemma setExpiryTimer_ok busy s loc e now d :
  fw_inv busy s -> attached (pit_entries (fw_tables s)) loc e -> busy = None \/ busy = Some loc -> 0 <= d ->
  exists s' id, setExpiryTimer now loc d s = Ok s' /\ fw_inv None s' /\ fw_frame 0 s s' /\
    attached (pit_entries (fw_tables s')) loc (with_timer (Some id) e) /\
    s' = with_tables (fw_tables s') s /\ pit_entries (fw_tables s') = <[loc := with_timer (Some id) e]> (pit_entries (fw_tables s)) /\
    mkEvent id (now + ms d) (PitExpiry loc) ∈ m_queue (t_timers (fw_tables s')).
Proof.
  intros Hi Ha Hb Hd. destruct (attached_entry busy s loc e Hi Ha) as (Ee & Hrec & Hok). unfold setExpiryTimer.
  rewrite (proj2 (Z.leb_le 0 d) Hd). rewrite Ee. cbn [mbind result_bind].
  destruct (set_timer_ok o counts busy (fw_tables s) loc e now (ms d) (fv_tables _ _ Hi) Ha Hb) as (E & Ht & _).
  destruct (schedule now (ms d) (PitExpiry loc) (cancel (pit_expiryTimer e) (t_timers (fw_tables s)))) as [id q] eqn:Eq. cbn [fst snd] in *.
  unfold entry_modify. cbn [fw_tables with_tables]. rewrite E. cbn [mbind result_bind]. eexists _, id. split; [done|].
  assert (Hn : is_Some (pit_nte (with_timer (Some id) e))) by apply Ha.
  split; [|split; [|split; [split; [apply lookup_insert_eq|done]|split; [done|split; [done|]]]]].
  - apply (fw_inv_tables busy None s); [done|done|done|]. intros l e1 [Hl Hs1]. cbn in Hl.
    apply lookup_insert_Some in Hl as [[<- <-]|[_ Hl]]; [by destruct Hok; split|]. by apply (fv_entries _ _ Hi l).
  - split; [done|done| |cbn; lia|apply ready_refl]. intros l e1 [Hl Hs1]. destruct (decide (l = loc)) as [->|Hne].
    + exists (with_timer (Some id) e). assert (e1 = e) as -> by (destruct Ha; congruence). split; [|done]. split; [apply lookup_insert_eq|done].
    + exists e1. split; [|done]. split; [|done]. cbn. by rewrite lookup_insert_ne.
  - cbn. injection Eq as <- <-. apply (elem_of_schedule now (ms d) (PitExpiry loc)). by left.
Qed.

Lemma setExpiryTimer_safe busy s loc e now d :
  fw_inv busy s -> attached (pit_entries (fw_tables s)) loc e -> busy = None \/ busy = Some loc -> 0 <= d ->
  safe None 0 s (setExpiryTimer now loc d s).
Proof.
  intros Hi Ha Hb Hd. destruct (setExpiryTimer_ok busy s loc e now d Hi Ha Hb Hd) as (s' & id & E & Hi' & Hf & _). by exists s'.
Qed.

Lemma add_route_safe busy s name face :
  fw_inv busy s -> (length name <= S getMaxDepth)%nat -> room limit (fw_tables s) 1 -> known (fw_faceTable s) face ->
  safe busy 1 s (add_route name face s).
Proof.
  intros Hi Hl Hr Hk. set (prefix := getPrefix (-1) name).
  assert (Hp : (length prefix <= getMaxDepth)%nat).
  { unfold prefix. rewrite getPrefix_minus1, length_take; [lia|]. unfold zlen, getMaxDepth in *. lia. }
  destruct (add_route_ok o limit counts Hcounts busy (fw_tables s) prefix face (fv_tables _ _ Hi) Hp Hr)
    as (x & b & t1 & t' & e & e' & E1 & E2 & Ht & [Hkp Hfr] & Hs & Hv & Ee & Eh).
  assert (Een : pit_entries t' = pit_entries (fw_tables s)) by (by rewrite Hfr).
  unfold add_route. fold prefix. rewrite E1. cbn [mbind result_bind fst]. rewrite E2. cbn [mbind result_bind].
  eexists. split; [done|]. split; [split; try apply Hi; [done| |]|split; [done|done| |cbn; lia|apply ready_refl]].
  - intros p e0 nh. cbn [fw_tables with_tables fw_faceTable]. rewrite Hv. intros [[<- <-]|[_ Hp0]]%lookup_insert_Some Hin; [|by eapply (fv_hops _ _ Hi)].
    assert (Hd : hop_key nh ∈ dom (hops_map e')) by (by apply hops_of_dom, list_elem_of_fmap_2).
    rewrite Eh, dom_insert, elem_of_union, elem_of_singleton in Hd. destruct Hd as [Hd|Hd]; [by injection Hd as -> _|].
    apply hops_of_dom, list_elem_of_fmap in Hd as (nh' & Ek & Hnh'). injection Ek as -> _. rewrite Ee in Hnh'.
    destruct (fib_view (fw_tables s) !! prefix) as [e1|] eqn:E0; [|by apply not_elem_of_nil in Hnh'].
    by eapply (fv_hops _ _ Hi).
  - cbn. rewrite Een. apply Hi.
  - intros l e0 Ha. exists e0. cbn. by rewrite Een.
Qed.
End invariant.
Ltac solve_ready := first [exact (ready_refl _) | exact (ready_snoc _ _ I) | apply ready_snoc; reflexivity].
Ltac solve_quiet := do 5 (split; [reflexivity|]); solve_ready.
#[export] Hint Extern 0 (quiet _ _) => solve_quiet : core.

(** ** What a strategy promises

    From a state that satisfies the invariant every trigger returns, keeps the invariant,
    the faces and the pending entries, and grows the name tree by at most one branch.  A
    trigger that gets Data gives it back with other tags at most. *)
Class StrategyLaws {C : Type} `{HashFunction} `{StdSort} `{SeededHash} (sha256 : octets -> octets) (cs_ok : C -> Prop)
  (o : HashtableOptions) (limit : Z) (counts : list Z) (st : Strategy C) : Prop := {
  sl_afterReceiveInterest now inFace i loc e s :
    fw_inv cs_ok o counts None s -> attached (pit_entries (fw_tables s)) loc e -> pit_key e = interest_key i ->
    sel_fine (i_selectors i) -> expiry_of now i < 2 ^ 63 -> known (fw_faceTable s) inFace -> room limit (fw_tables s) 1 ->
    safe cs_ok o counts None 1 s (st_afterReceiveInterest st now inFace i loc s);
  sl_beforeSatisfyInterest now loc e inFace d s :
    fw_inv cs_ok o counts None s -> attached (pit_entries (fw_tables s)) loc e -> matchesData sha256 (pit_interest e) d = Ok true ->
    room limit (fw_tables s) 1 -> safe_data cs_ok o counts None 1 s d (st_beforeSatisfyInterest st now loc inFace d s);
  sl_afterContentStoreHit now loc e inFace d s :
    fw_inv cs_ok o counts None s -> attached (pit_entries (fw_tables s)) loc e -> matchesData sha256 (pit_interest e) d = Ok true ->
    known (fw_faceTable s) inFace -> room limit (fw_tables s) 1 ->
    safe_data cs_ok o counts None 1 s d (st_afterContentStoreHit st now loc inFace d s);
  sl_afterReceiveData now loc e inFace d s :
    fw_inv cs_ok o counts None s -> attached (pit_entries (fw_tables s)) loc e -> matchesData sha256 (pit_interest e) d = Ok true ->
    (length (d_name d) <= S getMaxDepth)%nat -> known (fw_faceTable s) inFace -> room limit (fw_tables s) 1 ->
    safe_data cs_ok o counts None 1 s d (st_afterReceiveData st now loc inFace d s);
  sl_afterReceiveNack now inFace i reason loc e s :
    fw_inv cs_ok o counts None s -> attached (pit_entries (fw_tables s)) loc e -> known (fw_faceTable s) inFace ->
    room limit (fw_tables s) 1 -> safe cs_ok o counts None 1 s (st_afterReceiveNack st now inFace i reason loc s);
  sl_onDroppedInterest outFace i s :
    fw_inv cs_ok o counts None s -> room limit (fw_tables s) 1 -> safe cs_ok o counts None 1 s (st_onDroppedInterest st outFace i s);
}.
