(* ===== verification/ForwarderSafety.v ===== *)
(** * Safety of the forwarding pipelines

    From a state that satisfies the invariant no pipeline violates an assertion, uses a
    dangling pointer or throws; each keeps the invariant, so that every PIT entry has a
    pending timer and leaves the table when it runs.  The actions and the broadcast
    strategy first, which implement the interface of strategies, then the pipelines,
    against the interface. *)

From stdpp Require Import base gmap list sets strings.
From Stdlib Require Import ZArith Lia.
From S2P Require Import Prelude Tlv Encoder Block Codec Ndn NameTlv Signature Exclude Selectors Data Interest LpPacket FaceTable Double Hashtable NameTree Scheduler NfdTables Fib Pit Cleanup DeadNonceList NameSuccessor Cs Algorithm RetxSuppression Measurements StrategyChoice Forwarder TablesInv ForwarderInv.

Local Open Scope Z_scope.

Section actions.
Context {C : Type} `{HashFunction} `{StdSort} `{!StdSortLaws} `{SeededHash} `{FaceAddresses} (sha256 : octets -> octets) (cs_ok : C -> Prop).
Context (o : HashtableOptions) (limit : Z) (counts : list Z) (Hcounts : counts_ok o limit counts = true).
Implicit Types (s : Forwarder C) (loc : nat) (busy : option nat).
Abbreviation inv := (fw_inv cs_ok o counts).
Abbreviation safe := (ForwarderInv.safe cs_ok o counts).
Abbreviation safe_data := (ForwarderInv.safe_data cs_ok o counts).
Abbreviation waits s loc e := (attached (pit_entries (fw_tables s)) loc e).

(** *** Outgoing pipelines *)

Lemma same_key_canMatch i e : sel_fine (i_selectors i) -> sel_fine (i_selectors (pit_interest e)) -> pit_key e = interest_key i ->
  canMatch i 0 e = Ok true.
Proof. intros Hi He Hk. rewrite canMatch_ok by auto with valdb. by rewrite bool_decide_true. Qed.

(** The suppression interval of an out-record survives a transmission. *)
Lemma out_insert_info e e' face r :
  records_ok e -> records_ok e' -> (forall r, r ∈ pit_outRecords e -> info_ok (fr_info (or_record r))) ->
  fr_info (or_record r) = match out_map e !! face with Some r => fr_info (or_record r) | None => ∅ end ->
  out_map e' = <[face := r]> (out_map e) -> forall r', r' ∈ pit_outRecords e' -> info_ok (fr_info (or_record r')).
Proof.
  intros Hr Hr' Hi Ef Eo r' Hin. assert (Hm : out_map e' !! out_face r' = Some r') by (by apply out_map_lookup).
  rewrite Eo in Hm. apply lookup_insert_Some in Hm as [[_ <-]|[_ Hm]]; [|apply Hi; by apply out_map_lookup in Hm as [? _]].
  rewrite Ef. destruct (out_map e !! face) as [r0|] eqn:E0; [|apply info_ok_empty]. apply Hi. by apply out_map_lookup in E0 as [? _].
Qed.

(** What leaves for a face: geofaces hand Interests to VAL. *)
Definition interest_output (f : Face) (i : Interest) : fw_output :=
  if isGeoFace f then InterestToVal (face_id f) i else SendInterest (face_id f) i.

Lemma onOutgoingInterest_ok now s loc e outFace f i :
  inv None s -> waits s loc e -> pit_key e = interest_key i -> sel_fine (i_selectors i) -> expiry_of now i < 2 ^ 63 ->
  ft_get outFace (fw_faceTable s) = Some f -> isValNetFace f = false ->
  exists s' e', onOutgoingInterest now loc outFace i s = Ok s' /\ inv None s' /\ fw_frame 0 s s' /\
    fw_out s' = fw_out s ++ [interest_output f i] /\ waits s' loc e' /\ e' = with_outRecords (pit_outRecords e') e /\
    out_map e' = <[outFace := mkOutRecord (mkFaceRecord outFace (getNonce i) now (expiry_of now i)
        (match out_map e !! outFace with Some r => fr_info (or_record r) | None => ∅ end)) (out_map e !! outFace ≫= or_incomingNack)]> (out_map e) /\
    fib_view (fw_tables s') = fib_view (fw_tables s).
Proof.
  intros Hi Ha Hk Hs Hx Hf Hv. destruct (attached_entry cs_ok o counts None s loc e Hi Ha) as (_ & Hrec & Hok).
  pose proof (same_key_canMatch i e Hs (eo_selectors _ _ _ Hok) Hk) as Hm.
  destruct (insertOrUpdateOutRecord_ok now outFace i e Hrec Hm Hx) as (e' & E & Hrec' & Hout & Ee').
  destruct (entry_modify_ok cs_ok o counts None s loc e e' (insertOrUpdateOutRecord now outFace i) Hi Ha E) as (E1 & Hi1 & Hf1 & Ha1);
    [by rewrite Ee'..|done|rewrite Ee'; split; try apply Hok; intros r Hr; eapply (out_insert_info e e' outFace _ Hrec Hrec' (eo_outInfo _ _ _ Hok)); [|exact Hout|exact Hr]; done|].
  unfold onOutgoingInterest. rewrite E1. cbn [mbind result_bind]. unfold get_face. cbn [fw_faceTable with_tables]. rewrite Hf. cbn [mbind result_bind].
  set (s1 := with_tables _ s) in *. assert (Eo : (let* s2 := if isGeoFace f then Ok (face_sendInterestToVal f i s1) else face_sendInterest f i s1 in
    Ok (count nOutInterests s2)) = Ok (count nOutInterests (emit (interest_output f i) s1))).
  { unfold face_sendInterestToVal, face_sendInterest, interest_output. rewrite Hv. by destruct (isGeoFace f). }
  rewrite Eo. eexists _, e'. split; [reflexivity|]. split; [by apply fw_inv_count, fw_inv_emit|]. split; [|by do 4 (split; [done|])].
  change 0 with (0 + 0). eapply fw_frame_trans; [exact Hf1|]. apply quiet_frame. do 5 (split; [done|]). apply ready_snoc. unfold interest_output. by destruct (isGeoFace f).
Qed.
Lemma onOutgoingInterest_safe now s loc e outFace i :
  inv None s -> waits s loc e -> pit_key e = interest_key i -> sel_fine (i_selectors i) -> expiry_of now i < 2 ^ 63 ->
  known (fw_faceTable s) outFace -> safe None 0 s (onOutgoingInterest now loc outFace i s).
Proof.
  intros Hi Ha Hk Hs Hx (f & Hf & _ & Hv). destruct (onOutgoingInterest_ok now s loc e outFace f i Hi Ha Hk Hs Hx Hf Hv) as (s' & e' & E & Hi' & Hfr & _). by exists s'.
Qed.

Lemma onOutgoingData_safe busy s d outFace nonces isProducer :
  inv busy s -> known (fw_faceTable s) outFace ->
  (forall f, ft_get outFace (fw_faceTable s) = Some f -> isGeoFace f = true -> val_ready (DataToVal (face_id f) d nonces isProducer)) ->
  safe busy 0 s (onOutgoingData d outFace nonces isProducer s).
Proof.
  intros Hi Hf Hval. unfold onOutgoingData. destruct Hf as (f & Hf & _ & Hv). unfold get_face. rewrite Hf. cbn [mbind result_bind].
  destruct (_ =? _); [by apply safe_Ok|]. destruct (_ && _); [by apply safe_Ok|].
  unfold face_sendDataToVal, face_sendData. rewrite Hv. destruct (isGeoFace f) eqn:Hg; [|by apply quiet_safe].
  apply quiet_safe; [|done]. do 5 (split; [done|]). by apply ready_snoc, Hval.
Qed.

Lemma deleteInRecord_step busy s loc e face :
  inv busy s -> waits s loc e ->
  exists e' s', entry_modify loc (deleteInRecord face) s = Ok s' /\ inv busy s' /\ fw_frame 0 s s' /\ waits s' loc e' /\ quiet s' (with_tables (fw_tables s') s) /\
    fw_out s' = fw_out s /\ e' = with_inRecords (pit_inRecords e') (pit_nonceList e') e /\ in_map e' = delete face (in_map e).
Proof.
  intros Hi Ha. destruct (attached_entry cs_ok o counts busy s loc e Hi Ha) as (_ & Hrec & Hok).
  destruct (deleteInRecord_ok face e Hrec) as (e' & E & Hrec' & Hin & Ee' & _).
  destruct (entry_modify_ok cs_ok o counts busy s loc e e' (deleteInRecord face) Hi Ha E) as (E1 & Hi1 & Hf1 & Ha1);
    [by rewrite Ee'..|done| |by eexists e', _].
  rewrite Ee'. destruct Hok as [H1' H2' H3' H4' H5' H6']. split; [done|done| |done|done|done]. cbn. intros r Hr.
  apply H3'. assert (Hm : in_map e' !! in_face r = Some r) by (by apply in_map_lookup).
  rewrite Hin in Hm. apply lookup_delete_Some in Hm as [_ Hm]. by apply in_map_lookup in Hm as [Hm _].
Qed.
Lemma deleteInRecord_safe busy s loc e face :
  inv busy s -> waits s loc e -> safe busy 0 s (entry_modify loc (deleteInRecord face) s).
Proof. intros Hi Ha. destruct (deleteInRecord_step busy s loc e face Hi Ha) as (e' & s' & E & Hi' & Hf & _). by exists s'. Qed.

(** A Nack goes only to a face that waits, over a point-to-point link; then the face does
    not wait any more.  A geoface drops it. *)
Definition nackable (f : Face) : bool := negb (face_id f =? INVALID_FACEID) && bool_decide (face_linkType f = LINK_TYPE_POINT_TO_POINT).
Definition nack_output (f : Face) (e : pit_Entry) (reason : Z) : list fw_output :=
  if nackable f && negb (isGeoFace f) then
    match in_map e !! face_id f ≫= ir_interest with Some i => [SendNack (face_id f) i reason] | None => [] end
  else [].
Lemma onOutgoingNack_ok busy s loc e outFace f reason :
  inv busy s -> waits s loc e -> ft_get outFace (fw_faceTable s) = Some f -> isValNetFace f = false ->
  exists s' e', onOutgoingNack loc outFace reason s = Ok s' /\ inv busy s' /\ fw_frame 0 s s' /\ waits s' loc e' /\
    fw_out s' = fw_out s ++ nack_output f e reason /\ e' = with_inRecords (pit_inRecords e') (pit_nonceList e') e /\
    in_map e' = if nackable f then delete outFace (in_map e) else in_map e.
Proof.
  intros Hi Ha Hf Hv. destruct (attached_entry cs_ok o counts busy s loc e Hi Ha) as (E & Hrec & Hok).
  pose proof (fi_id _ (fv_faces _ _ _ _ _ Hi) outFace f Hf) as Hid.
  assert (Hsame : nack_output f e reason = [] -> (in_map e = if nackable f then delete outFace (in_map e) else in_map e) -> exists s' e', Ok s = Ok s' /\ inv busy s' /\ fw_frame 0 s s' /\ waits s' loc e' /\
    fw_out s' = fw_out s ++ nack_output f e reason /\ e' = with_inRecords (pit_inRecords e') (pit_nonceList e') e /\ in_map e' = if nackable f then delete outFace (in_map e) else in_map e).
  { intros -> Em. exists s, e. rewrite app_nil_r. split; [done|]. split; [done|]. split; [apply fw_frame_refl|]. by destruct e. }
  unfold onOutgoingNack, get_face. rewrite Hf. cbn [mbind result_bind]. unfold nack_output, nackable in *.
  destruct (face_id f =? INVALID_FACEID); cbn [negb andb] in *; [by apply Hsame|].
  rewrite E. cbn [mbind result_bind]. unfold getInRecord. rewrite (rec_find in_face). fold (in_map e). rewrite Hid in *.
  destruct (in_map e !! outFace) as [r|] eqn:Er; cbn [mbind option_bind] in *.
  2:{ apply Hsame; [by destruct (_ && _)|]. destruct (bool_decide _); [by rewrite delete_id|done]. }
  rewrite bool_decide_not. destruct (bool_decide (face_linkType f = _)); cbn [negb andb] in *; [|by apply Hsame].
  apply in_map_lookup in Er as [Hr _]; [|done]. destruct (ro_interest _ Hrec r Hr) as (i & Hri & _). rewrite Hri in *.
  destruct (deleteInRecord_step busy s loc e outFace Hi Ha) as (e' & s1 & -> & Hi1 & Hf1 & Ha1 & _ & Eo & Ee' & Em). cbn [mbind result_bind].
  unfold face_sendNack. rewrite Hv. destruct (isGeoFace f); cbn [negb andb].
  - exists s1, e'. rewrite app_nil_r. by do 4 (split; [done|]).
  - rewrite Hid. cbn [mbind result_bind]. eexists _, e'. split; [reflexivity|]. split; [by apply fw_inv_count, fw_inv_emit|].
    split; [change 0 with (0 + 0); eapply fw_frame_trans; [exact Hf1|by apply quiet_frame]|]. split; [done|]. cbn. by rewrite Eo.
Qed.
Lemma onOutgoingNack_safe busy s loc e outFace reason :
  inv busy s -> waits s loc e -> known (fw_faceTable s) outFace -> safe busy 0 s (onOutgoingNack loc outFace reason s).
Proof.
  intros Hi Ha (f & Hf & _ & Hv). destruct (onOutgoingNack_ok busy s loc e outFace f reason Hi Ha Hf Hv) as (s' & e' & E & Hi' & Hfr & _). by exists s'.
Qed.

(** *** Actions *)
Lemma assert_matches_ok busy s loc e d :
  inv busy s -> waits s loc e -> matchesData sha256 (pit_interest e) d = Ok true -> assert_matches sha256 loc d s = Ok tt.
Proof.
  intros Hi Ha Hm. destruct (attached_entry cs_ok o counts busy s loc e Hi Ha) as (E & _ & _).
  unfold assert_matches. rewrite E. cbn [mbind result_bind]. rewrite Hm. done.
Qed.
Lemma strategy_sendData_safe busy s loc e d outFace :
  inv busy s -> waits s loc e -> matchesData sha256 (pit_interest e) d = Ok true -> known (fw_faceTable s) outFace ->
  safe busy 0 s (strategy_sendData sha256 loc d outFace s).
Proof.
  intros Hi Ha Hm Hf. unfold strategy_sendData. rewrite (assert_matches_ok busy s loc e d Hi Ha Hm). cbn [mbind result_bind].
  pose proof Hf as (f & Hff & _ & _). unfold get_face. rewrite Hff. cbn [mbind result_bind].
  destruct (isGeoFace f) eqn:Hg; [by apply safe_Ok|]. cbn [negb]. eapply safe_bind; [by eapply deleteInRecord_safe|].
  intros s1 Hi1 Hf1. apply onOutgoingData_safe; [done|by eapply fw_frame_known|]. rewrite (ff_faces _ _ _ Hf1), Hff. intros f' [= <-]. congruence.
Qed.
Lemma strategy_sendDataToVal_safe busy s loc e d outFace nonces isProducer :
  inv busy s -> waits s loc e -> matchesData sha256 (pit_interest e) d = Ok true -> known (fw_faceTable s) outFace ->
  safe busy 0 s (strategy_sendDataToVal sha256 loc d outFace (Some nonces) isProducer s).
Proof.
  intros Hi Ha Hm Hf. unfold strategy_sendDataToVal. rewrite (assert_matches_ok busy s loc e d Hi Ha Hm). cbn [mbind result_bind].
  eapply safe_bind; [by eapply deleteInRecord_safe|]. intros s1 Hi1 Hf1. by apply onOutgoingData_safe; [|eapply fw_frame_known|].
Qed.

(** The entry is still there after a step, with the same name and selectors. *)
Lemma still_matches k s s' loc e d :
  fw_frame k s s' -> waits s loc e -> matchesData sha256 (pit_interest e) d = Ok true ->
  exists e', waits s' loc e' /\ matchesData sha256 (pit_interest e') d = Ok true.
Proof.
  intros Hf Ha Hm. destruct (ff_entries _ _ _ Hf loc e Ha) as (e' & Ha' & En & Es). exists e'. split; [done|].
  rewrite <- Hm. by apply matchesData_ext.
Qed.
Lemma still_key k s s' loc e : fw_frame k s s' -> waits s loc e -> exists e', waits s' loc e' /\ pit_key e' = pit_key e.
Proof.
  intros Hf Ha. destruct (ff_entries _ _ _ Hf loc e Ha) as (e' & Ha' & En & Es). exists e'. split; [done|].
  unfold pit_key, interest_key. by rewrite En, Es.
Qed.

(** *** Looking up next hops *)
Definition hops_known s (r : option nat) : Prop :=
  exists hops, nexthops_at r s = Ok hops /\ forall nh, nh ∈ hops -> known (fw_faceTable s) (nh_face nh).

Lemma fib_at_hops busy s x p e : inv busy s -> fib_at (fw_tables s) x p e ->
  nexthops_at (Some x) s = Ok (fe_nextHops e) /\ hasNextHops e = true /\ forall nh, nh ∈ fe_nextHops e -> known (fw_faceTable s) (nh_face nh).
Proof.
  intros Hi Hx. pose proof (fv_tables _ _ _ _ _ Hi) as Ht.
  pose proof (fib_at_view o counts (fw_tables s) x p e (ni_table _ _ _ (fi_tree _ _ _ (ti_fib _ _ _ _ Ht))) Hx) as Hv.
  destruct Hx as (n & Hn & _ & He). unfold nexthops_at, fib_entry_at, deref. rewrite Hn. cbn [mbind result_bind]. rewrite He.
  cbn [mbind result_bind]. split; [done|]. split; [by eapply (ti_hops _ _ _ _ Ht)|]. intros nh Hnh. by eapply (fv_hops _ _ _ _ _ Hi).
Qed.
Lemma hops_known_None s : hops_known s None.
Proof. exists []. split; [done|]. by intros nh ?%not_elem_of_nil. Qed.

Lemma fib_lpm_pit_ok busy s loc e : inv busy s -> waits s loc e ->
  exists r, fib_findLongestPrefixMatch_pit e (fw_tables s) = Ok r /\ hops_known s r.
Proof.
  intros Hi Ha. pose proof (fv_tables _ _ _ _ _ Hi) as Ht.
  destruct (pit_lpm_ok o counts tb_fib fib_none (fw_tables s) loc e (ti_pit _ _ _ _ Ht) Ha) as (nte & r & En & E & Hr).
  exists r. unfold fib_findLongestPrefixMatch_pit. rewrite En. split; [exact E|]. destruct r as [x|]; [|apply hops_known_None].
  destruct Hr as (n & a & Hn & Hta & _). destruct (fib_at_hops busy s x (nd_name n) a Hi) as (E1 & _ & Hk); [by exists n|]. by exists (fe_nextHops a).
Qed.

Lemma lookupFib_loop_ok busy s dels last :
  inv busy s -> (last = Some None \/ dels <> [] /\ last = None) -> exists r, lookupFib_loop dels last s = Ok r /\ hops_known s r.
Proof.
  intros Hi. revert last. induction dels as [|del dels IH]; intros last Hl; cbn [lookupFib_loop].
  - destruct Hl as [->|[? _]]; [|done]. exists None. split; [done|apply hops_known_None].
  - destruct (fib_lpm_ok o counts (fw_tables s) (del_name del) (ti_fib _ _ _ _ (fv_tables _ _ _ _ _ Hi))) as (r & -> & Hr).
    cbn [mbind result_bind]. destruct r as [x|].
    + destruct Hr as (p & e & Hx & _). destruct (fib_at_hops busy s x p e Hi Hx) as (E1 & Hh & Hk). rewrite E1. cbn [mbind result_bind].
      unfold hasNextHops in Hh. rewrite Hh. exists (Some x). split; [done|]. by exists (fe_nextHops e).
    + cbn. apply IH. by left.
Qed.

Lemma lookupFib_ok busy s loc e : inv busy s -> waits s loc e -> exists r, lookupFib loc s = Ok r /\ hops_known s r.
Proof.
  intros Hi Ha. destruct (attached_entry cs_ok o counts busy s loc e Hi Ha) as (E & _ & Hok). unfold lookupFib. rewrite E. cbn [mbind result_bind].
  case_bool_decide as Hd; [by eapply fib_lpm_pit_ok|]. rewrite (eo_hint _ _ _ Hok). cbn [negb].
  apply (lookupFib_loop_ok busy); [done|]. by right.
Qed.

(** *** The broadcast strategy *)
Lemma bs_select_ok busy s fin i hops r :
  inv busy s -> (forall nh, nh ∈ hops -> known (fw_faceTable s) (nh_face nh)) -> (forall f, r = Some f -> known (fw_faceTable s) f) ->
  exists r', bs_select fin i hops r s = Ok r' /\ forall f, r' = Some f -> known (fw_faceTable s) f.
Proof.
  intros Hi. revert r. induction hops as [|nh hops IH]; intros r Hh Hr; cbn [bs_select]; [by exists r|].
  assert (Hn : known (fw_faceTable s) (nh_face nh)) by (apply Hh; by left).
  destruct (get_face_ok cs_ok o counts busy s (nh_face nh) Hi Hn) as (f & -> & _ & _). cbn [mbind result_bind].
  assert (Hh' : forall nh, nh ∈ hops -> known (fw_faceTable s) (nh_face nh)) by (intros; apply Hh; by right).
  destruct (_ && _); [|by apply IH]. destruct (isAppFace f); [exists (Some (nh_face nh)); split; [done|by intros ? [= <-]]|].
  apply IH; [done|]. destruct (_ && _); [by intros ? [= <-]|done].
Qed.
(** The first next hop whose face has a property. *)
Lemma first_geoface_ok busy s hops :
  inv busy s -> (forall nh, nh ∈ hops -> known (fw_faceTable s) (nh_face nh)) ->
  exists r, first_geoface hops s = Ok r /\ forall f, r = Some f -> known (fw_faceTable s) f.
Proof.
  intros Hi. induction hops as [|nh hops IH]; intros Hh; cbn [first_geoface]; [by exists None|].
  assert (Hn : known (fw_faceTable s) (nh_face nh)) by (apply Hh; by left).
  destruct (get_face_ok cs_ok o counts busy s (nh_face nh) Hi Hn) as (f & -> & _ & _). cbn [mbind result_bind].
  destruct (isGeoFace f); [exists (Some (nh_face nh)); split; [done|by intros ? [= <-]]|]. apply IH. intros; apply Hh; by right.
Qed.
Lemma first_appface_ok busy s hops :
  inv busy s -> (forall nh, nh ∈ hops -> known (fw_faceTable s) (nh_face nh)) ->
  exists r, first_appface hops s = Ok r /\ forall f, r = Some f -> known (fw_faceTable s) f.
Proof.
  intros Hi. induction hops as [|nh hops IH]; intros Hh; cbn [first_appface]; [by exists None|].
  assert (Hn : known (fw_faceTable s) (nh_face nh)) by (apply Hh; by left).
  destruct (get_face_ok cs_ok o counts busy s (nh_face nh) Hi Hn) as (f & -> & _ & _). cbn [mbind result_bind].
  destruct (isAppFace f); [exists (Some (nh_face nh)); split; [done|by intros ? [= <-]]|]. apply IH. intros; apply Hh; by right.
Qed.

Lemma bs_afterReceiveInterest_safe now s loc e inFace i :
  inv None s -> waits s loc e -> pit_key e = interest_key i -> sel_fine (i_selectors i) -> expiry_of now i < 2 ^ 63 ->
  known (fw_faceTable s) inFace -> safe None 0 s (bs_afterReceiveInterest now inFace i loc s).
Proof.
  intros Hi Ha Hk Hs Hx Hf. unfold bs_afterReceiveInterest.
  destruct (get_face_ok cs_ok o counts None s inFace Hi Hf) as (fin & -> & _ & _). cbn [mbind result_bind].
  destruct (lookupFib_ok None s loc e Hi Ha) as (r & -> & hops & Eh & Hh). cbn [mbind result_bind]. rewrite Eh. cbn [mbind result_bind].
  destruct (bs_select_ok None s fin i hops None Hi Hh) as (r' & -> & Hr'); [done|]. cbn [mbind result_bind].
  destruct r' as [outFace|]; [|by eapply setExpiryTimer_safe; eauto]. eapply onOutgoingInterest_safe; eauto.
Qed.

Lemma bs_afterContentStoreHit_safe now s loc e inFace d :
  inv None s -> waits s loc e -> matchesData sha256 (pit_interest e) d = Ok true -> known (fw_faceTable s) inFace ->
  safe_data None 0 s d (bs_afterContentStoreHit sha256 now loc inFace d s).
Proof.
  intros Hi Ha Hm Hf. unfold bs_afterContentStoreHit.
  destruct (get_face_ok cs_ok o counts None s inFace Hi Hf) as (fin & -> & _ & _). cbn [mbind result_bind].
  destruct (isGeoFace fin).
  - destruct (lookupFib_ok None s loc e Hi Ha) as (r & -> & hops & Eh & Hh). cbn [mbind result_bind]. rewrite Eh. cbn [mbind result_bind].
    destruct (first_geoface_ok None s hops Hi Hh) as (r' & -> & Hr'). cbn [mbind result_bind].
    destruct r' as [outFace|]; [|by apply safe_data_Ok]. destruct (attached_entry cs_ok o counts None s loc e Hi Ha) as (-> & _ & _).
    cbn [mbind result_bind]. eapply safe_to_data; [by eapply strategy_sendDataToVal_safe; eauto|]. intros. by apply safe_data_Ok.
  - eapply safe_to_data; [by eapply strategy_sendData_safe|]. intros. by apply safe_data_Ok.
Qed.

Lemma bs_loop_safe loc inFace isProducer : forall faces sent s e d,
  inv None s -> waits s loc e -> matchesData sha256 (pit_interest e) d = Ok true -> known (fw_faceTable s) inFace ->
  (forall f, f ∈ faces -> known (fw_faceTable s) f) -> safe_data None 0 s d (bs_loop sha256 loc inFace isProducer sent faces d s).
Proof.
  induction faces as [|face faces IH]; intros sent s e d Hi Ha Hm Hf Hfs; cbn [bs_loop]; [by apply safe_data_Ok|].
  assert (Hface : known (fw_faceTable s) face) by (apply Hfs; by left).
  destruct (get_face_ok cs_ok o counts None s face Hi Hface) as (f & -> & _ & _). cbn [mbind result_bind].
  assert (Hnext : forall d' s1 sent', inv None s1 -> fw_frame 0 s s1 -> same_packet d d' ->
    safe_data None 0 s1 d' (bs_loop sha256 loc inFace isProducer sent' faces d' s1)).
  { intros d' s1 sent' Hi1 Hf1 Hd. destruct (still_matches 0 s s1 loc e d Hf1 Ha Hm) as (e1 & Ha1 & Hm1).
    apply (IH sent' s1 e1); [done|done|by rewrite (same_packet_matches _ _ d)|by eapply fw_frame_known|].
    intros f' Hf'. eapply fw_frame_known; [done|]. apply Hfs. by right. }
  destruct (attached_entry cs_ok o counts None s loc e Hi Ha) as (Ee & _ & _).
  destruct (isGeoFace f && negb sent); [|destruct (negb (isGeoFace f))].
  - rewrite Ee. cbn [mbind result_bind]. eapply safe_to_data; [by eapply strategy_sendDataToVal_safe|]. intros s1 Hi1 Hf1. by apply Hnext.
  - destruct (get_face_ok cs_ok o counts None s inFace Hi Hf) as (fin & -> & _ & _). cbn [mbind result_bind]. rewrite Ee. cbn [mbind result_bind].
    eapply safe_to_data; [by eapply strategy_sendData_safe|]. intros s1 Hi1 Hf1. destruct (_ && _); [|by apply Hnext].
    set (d' := data_tags _ d). assert (Hq : quiet s1 (face_sendDataToVal fin d' (Some (getNonceList e)) false s1)).
    { unfold face_sendDataToVal. by destruct (isGeoFace fin). }
    eapply safe_data_after; [by apply quiet_frame|apply same_packet_tags|]. apply Hnext; [by eapply quiet_inv| |apply same_packet_tags].
    change 0 with (0 + 0). eapply fw_frame_trans; [exact Hf1|by apply quiet_frame].
  - eapply safe_to_data; [by eapply deleteInRecord_safe|]. intros s1 Hi1 Hf1. by apply Hnext.
Qed.

Lemma pendingDownstreams_known busy s loc e now : inv busy s -> waits s loc e ->
  forall f, f ∈ pendingDownstreams now e -> known (fw_faceTable s) f.
Proof.
  intros Hi Ha f. unfold pendingDownstreams. rewrite sort_by_perm. intros (r & -> & Hr)%list_elem_of_fmap.
  apply list_elem_of_In, filter_In in Hr as [Hr _]. apply (eo_faces _ _ _ (fv_entries _ _ _ _ _ Hi loc e Ha)). by apply list_elem_of_In.
Qed.

Lemma bs_afterReceiveData_safe now s loc e inFace d :
  inv None s -> waits s loc e -> matchesData sha256 (pit_interest e) d = Ok true -> (length (d_name d) <= S getMaxDepth)%nat ->
  known (fw_faceTable s) inFace -> room limit (fw_tables s) 1 -> safe_data None 1 s d (bs_afterReceiveData sha256 now loc inFace d s).
Proof.
  intros Hi Ha Hm Hl Hf Hr. unfold bs_afterReceiveData, base_beforeSatisfyInterest. cbn [mbind result_bind].
  destruct (get_face_ok cs_ok o counts None s inFace Hi Hf) as (fin & -> & _ & _). cbn [mbind result_bind].
  assert (Hroute : exists b s1, (if isGeoFace fin then let* s := add_route (d_name d) inFace s in Ok (false, s) else Ok (true, s)) = Ok (b, s1) /\
    inv None s1 /\ fw_frame 1 s s1).
  { destruct (isGeoFace fin); [|exists true, s; split; [done|]; split; [done|]; eapply fw_frame_weaken; [apply fw_frame_refl|lia]].
    destruct (add_route_safe cs_ok o limit counts Hcounts None s (d_name d) inFace Hi Hl Hr Hf) as (s1 & -> & Hi1 & Hf1). by exists false, s1. }
  destruct Hroute as (b & s1 & -> & Hi1 & Hf1). cbn [mbind result_bind].
  destruct (still_matches 1 s s1 loc e d Hf1 Ha Hm) as (e1 & Ha1 & Hm1). destruct (attached_entry cs_ok o counts None s1 loc e1 Hi1 Ha1) as (-> & _ & _).
  cbn [mbind result_bind]. destruct (bs_loop_safe loc inFace b (pendingDownstreams now e1) false s1 e1 d Hi1 Ha1 Hm1)
    as (d2 & s2 & E & Hd & Hi2 & Hf2); [by eapply fw_frame_known|by eapply pendingDownstreams_known|].
  exists d2, s2. split; [done|]. split; [done|]. split; [done|]. change 1 with (1 + 0). by eapply fw_frame_trans.
Qed.

#[export] Instance BroadcastStrategy_laws : StrategyLaws sha256 cs_ok o limit counts (BroadcastStrategy sha256).
Proof.
  split; cbn; intros.
  - eapply safe_weaken; [by eapply bs_afterReceiveInterest_safe|lia].
  - destruct (safe_data_Ok cs_ok o counts None s d) as (d' & s' & E & Hd & Hi & Hf); [done|]. exists d', s'. do 3 (split; [done|]). eapply fw_frame_weaken; [done|lia].
  - destruct (bs_afterContentStoreHit_safe now s loc e inFace d) as (d' & s' & E & Hd & Hi & Hf); [done..|]. exists d', s'. do 3 (split; [done|]). eapply fw_frame_weaken; [done|lia].
  - by eapply bs_afterReceiveData_safe.
  - eapply safe_weaken; [by apply safe_Ok|lia].
  - eapply safe_weaken; [by apply safe_Ok|lia].
Qed.
End actions.

Section pipelines.
Context {C : Type} `{HashFunction} `{StdSort} `{!StdSortLaws} `{SeededHash} `{FaceAddresses} (sha256 : octets -> octets) (cs_ok : C -> Prop).
Context `{ContentStore C} `{!ContentStoreLaws C sha256 cs_ok}.
Context (o : HashtableOptions) (limit : Z) (counts : list Z) (Hcounts : counts_ok o limit counts = true).
Context (strategies : Name -> Strategy C) `{Hst : !forall name, StrategyLaws sha256 cs_ok o limit counts (strategies name)}.
Implicit Types (s : Forwarder C) (loc : nat) (busy : option nat).
Abbreviation inv := (fw_inv cs_ok o counts).
Abbreviation safe := (ForwarderInv.safe cs_ok o counts).
Abbreviation safe_data := (ForwarderInv.safe_data cs_ok o counts).
Abbreviation waits s loc e := (attached (pit_entries (fw_tables s)) loc e).

(** *** The effective strategy *)
Lemma strategy_at_ok busy t r name :
  tables_inv o counts busy t ->
  match r with
  | Some x => exists n a, ht_nodes (t_nameTree t) !! x = Some n /\ tb_strategyChoice (nd_tables n) = Some a /\
      map_lpm (view tb_strategyChoice (t_nameTree t)) name (Some (nd_name n, a))
  | None => map_lpm (view tb_strategyChoice (t_nameTree t)) name None
  end -> exists a, strategy_at r t = Ok (sc_strategy a).
Proof.
  intros Ht Hr. destruct r as [x|].
  - destruct Hr as (n & a & Hn & Ha & _). exists a. unfold strategy_at, deref. rewrite Hn. cbn [mbind result_bind]. by rewrite Ha.
  - destruct (ti_root _ _ _ _ Ht) as [a Ha]. rewrite (Hr [] (prefix_nil _)) in Ha. done.
Qed.
Lemma findEffectiveStrategy_pit_ok busy s loc e : inv busy s -> waits s loc e ->
  exists name, findEffectiveStrategy_pit e (fw_tables s) = Ok name.
Proof.
  intros Hi Ha. pose proof (fv_tables _ _ _ _ _ Hi) as Ht.
  destruct (pit_lpm_ok o counts tb_strategyChoice strategyChoice_none (fw_tables s) loc e (ti_pit _ _ _ _ Ht) Ha) as (nte & r & En & E & Hr).
  unfold findEffectiveStrategy_pit, nteHasStrategyChoiceEntry. rewrite En, E. cbn [mbind result_bind].
  destruct (strategy_at_ok busy (fw_tables s) r _ Ht Hr) as [a ->]. by eexists.
Qed.
Lemma findEffectiveStrategy_ok busy s name : inv busy s ->
  exists st, findEffectiveStrategy name (fw_tables s) = Ok st.
Proof.
  intros Hi. pose proof (fv_tables _ _ _ _ _ Hi) as Ht. pose proof (fi_tree _ _ _ (ti_fib _ _ _ _ Ht)) as Hn.
  unfold findEffectiveStrategy. destruct (lpm_ok o counts (t_nameTree (fw_tables s)) name nteHasStrategyChoiceEntry Hn) as (r & -> & Hr).
  cbn [mbind result_bind]. pose proof (lpm_view tb_strategyChoice strategyChoice_none o counts _ name r (ni_table _ _ _ Hn) Hr) as Hl.
  destruct (strategy_at_ok busy (fw_tables s) r name Ht Hl) as [a ->]. by eexists.
Qed.

Lemma dispatch_ok {A} s loc e (trigger : Strategy C -> Forwarder C -> result A) : inv None s -> waits s loc e ->
  exists name, dispatchToStrategy strategies loc trigger s = trigger (strategies name) s.
Proof.
  intros Hi Ha. destruct (attached_entry cs_ok o counts None s loc e Hi Ha) as (E & _ & _).
  destruct (findEffectiveStrategy_pit_ok None s loc e Hi Ha) as (name & Es). exists name.
  unfold dispatchToStrategy. rewrite E. cbn [mbind result_bind]. by rewrite Es.
Qed.

(** *** Interests *)
Lemma hint_cleared regions i : isInProducerRegion regions (i_forwardingHint (setForwardingHint DelegationList_new i)) = false.
Proof. unfold isInProducerRegion. cbn. induction regions as [|r l IH]; [done|]. cbn. exact IH. Qed.

Lemma update_first_faces face i (l : list InRecord) :
  in_face <$> update_first (fun r => in_face r =? face) (fun r => mkInRecord (ir_record r) (Some i)) l = in_face <$> l.
Proof. induction l as [|r l IH]; [done|]. cbn. destruct (in_face r =? face); cbn; [done|by rewrite IH]. Qed.

(** The hint of the processed Interest is taken off in place. *)
Lemma replace_interest_ok face isNew i e :
  records_ok e -> (forall r, in_map e !! face = Some r -> getNonce i = fr_lastNonce (ir_record r)) -> records_ok (replace_interest face isNew i e).
Proof.
  intros Hrec Hn. pose proof Hrec as [Hin Hout Hint Hnon]. split; [cbn; by rewrite update_first_faces|done| |done].
  cbn. intros r [Hr|(r0 & Hr0 & Hf & ->)]%elem_of_update_first; [by apply Hint|]. apply Z.eqb_eq in Hf.
  exists i. split; [done|]. apply (Hn r0). by apply in_map_lookup.
Qed.

Lemma useNextHop_safe now s loc e f isNew nextHop i :
  inv None s -> waits s loc e -> pit_key e = interest_key i -> sel_fine (i_selectors i) -> expiry_of now i < 2 ^ 63 ->
  known (fw_faceTable s) nextHop -> room limit (fw_tables s) 2 -> (length (i_name i) <= S getMaxDepth)%nat ->
  (forall r, in_map e !! face_id f = Some r -> getNonce i = fr_lastNonce (ir_record r)) ->
  (isNew = true -> i_name i = i_name (pit_interest e) /\ i_selectors i = i_selectors (pit_interest e)) ->
  safe None 2 s (useNextHop now f loc isNew nextHop i s).
Proof.
  intros Hi Ha Hk Hs Hx Hf Hr Hl Hn Hnew. unfold useNextHop.
  assert (Hlast : forall i' s1 next, inv None s1 -> fw_frame 1 s s1 -> interest_key i' = interest_key i -> i_selectors i' = i_selectors i ->
    expiry_of now i' < 2 ^ 63 -> known (fw_faceTable s1) next ->
    safe None 1 s1 (let* s := if isAppFace f then add_route (i_name i') next s1 else Ok s1 in onOutgoingInterest now loc next i' s)).
  { intros i' s1 next Hi1 Hf1 Hk1 Hs1 Hx1 Hn1. injection Hk1 as En1 _.
    assert (Hroute : safe None 1 s1 (if isAppFace f then add_route (i_name i') next s1 else Ok s1)).
    { destruct (isAppFace f); [|eapply safe_weaken; [by apply safe_Ok|lia]].
      apply (add_route_safe cs_ok o limit counts Hcounts None); [done|by rewrite En1| |done]. by eapply (fw_frame_room limit 1 2). }
    eapply safe_bind; [exact Hroute|]. intros s2 Hi2 Hf2. destruct (still_key 1 s s1 loc e Hf1 Ha) as (e1 & Ha1 & Hke1).
    destruct (still_key 1 s1 s2 loc e1 Hf2 Ha1) as (e2 & Ha2 & Hke2).
    eapply (onOutgoingInterest_safe cs_ok o counts now s2 loc e2); [done|done| |by rewrite Hs1|done|by eapply fw_frame_known].
    rewrite Hke2, Hke1, Hk. unfold interest_key. by rewrite En1, Hs1. }
  assert (Hweak : fw_frame 1 s s) by (eapply fw_frame_weaken; [apply fw_frame_refl|lia]).
  assert (Hsame : safe None 2 s (let* s := if isAppFace f then add_route (i_name i) nextHop s else Ok s in onOutgoingInterest now loc nextHop i s)).
  { eapply safe_weaken; [exact (Hlast i s nextHop Hi Hweak eq_refl eq_refl Hx Hf)|lia]. }
  destruct (isGeoFace f); [|exact Hsame]. destruct (attached_entry cs_ok o counts None s loc e Hi Ha) as (Ee & Hrec & Hok). rewrite Ee. cbn [mbind result_bind].
  destruct (fib_lpm_pit_ok cs_ok o counts None s loc e Hi Ha) as (r & -> & hops & Eh & Hh). cbn [mbind result_bind]. rewrite Eh. cbn [mbind result_bind].
  case_bool_decide as Hnil; cbn [negb].
  - destruct (add_route_safe cs_ok o limit counts Hcounts None s (i_name i) nextHop Hi Hl) as (s1 & -> & Hi1 & Hf1); [unfold room in *; lia|done|].
    cbn [mbind result_bind]. destruct (Hlast i s1 nextHop) as (s2 & E & Hi2 & Hf2); [done|done|done|done|done|by eapply fw_frame_known|].
    exists s2. split; [exact E|]. split; [done|]. change 2 with (1 + 1). by eapply fw_frame_trans.
  - destruct (first_appface_ok cs_ok o counts None s hops Hi Hh) as (app & -> & Happ). cbn [mbind result_bind].
    destruct app as [out|]; [|exact Hsame]. set (i' := setForwardingHint DelegationList_new i).
    destruct (entry_modify_ok cs_ok o counts None s loc e (replace_interest (face_id f) isNew i' e) (fun e => Ok (replace_interest (face_id f) isNew i' e)))
      as (-> & Hi1 & Hf1 & Ha1); [done|done|done|done|done| | |by apply replace_interest_ok| |].
    + cbn. destruct isNew; [by destruct Hnew|done].
    + cbn. destruct isNew; [by destruct Hnew|done].
    + destruct Hok as [E1 E2 E3 E4 E5 E6]. split; [| | |done|done|done].
      * cbn. destruct isNew; [exact Hs|exact E1].
      * cbn [pit_interest replace_interest]. destruct isNew; [apply hint_cleared|exact E2].
      * intros r' Hr'. assert (Hin : in_face r' ∈ in_face <$> pit_inRecords e).
        { rewrite <- (update_first_faces (face_id f) i'). by apply list_elem_of_fmap_2. }
        apply list_elem_of_fmap in Hin as (r0 & -> & Hr0). by apply E3.
    + cbn [mbind result_bind]. eapply safe_after; [exact Hf1|]. eapply safe_weaken; [apply Hlast; [done| |done|done|exact Hx|by apply Happ]|lia].
      eapply fw_frame_weaken; [exact Hf1|lia].
Qed.

Lemma insertInRecord_ok busy now s loc e face i :
  inv busy s -> waits s loc e -> pit_key e = interest_key i -> sel_fine (i_selectors i) -> expiry_of now i < 2 ^ 63 ->
  known (fw_faceTable s) face ->
  exists e' s' r, entry_modify loc (insertOrUpdateInRecord now face i) s = Ok s' /\ inv busy s' /\ fw_frame 0 s s' /\ waits s' loc e' /\
    pit_interest e' = pit_interest e /\ in_map e' !! face = Some r /\ fr_lastNonce (ir_record r) = getNonce i /\
    fr_expiry (ir_record r) = expiry_of now i /\ quiet (with_tables (fw_tables s') s) s' /\
    pit_outRecords e' = pit_outRecords e /\ in_map e' = <[face := r]> (in_map e) /\
    pit_entries (fw_tables s') = <[loc := e']> (pit_entries (fw_tables s)).
Proof.
  intros Hi Ha Hk Hs Hx Hf. destruct (attached_entry cs_ok o counts busy s loc e Hi Ha) as (_ & Hrec & Hok).
  pose proof (same_key_canMatch i e Hs (eo_selectors _ _ _ Hok) Hk) as Hm.
  destruct (insertOrUpdateInRecord_ok now face i e Hrec Hm Hx) as (e' & E & Hrec' & Hin & Ee').
  destruct (entry_modify_ok cs_ok o counts busy s loc e e' (insertOrUpdateInRecord now face i) Hi Ha E) as (E1 & Hi1 & Hf1 & Ha1);
    [by rewrite Ee'..|done| |].
  - destruct Hok as [H1' H2' H3' H4' H5' H6']. split; [by rewrite Ee'|by rewrite Ee'| |by rewrite Ee'|by rewrite Ee'|by rewrite Ee']. intros r Hr.
    assert (Hmr : in_map e' !! in_face r = Some r) by (by apply in_map_lookup).
    rewrite Hin in Hmr. apply lookup_insert_Some in Hmr as [[<- _]|[_ Hmr]]; [done|]. apply H3'. by apply in_map_lookup in Hmr as [Hmr _].
  - eexists e', _, _. split; [exact E1|]. split; [done|]. split; [done|]. split; [done|]. split; [by rewrite Ee'|].
    rewrite Hin, lookup_insert_eq. split; [done|]. split; [done|]. split; [done|]. split; [done|]. split; [by rewrite Ee'|]. done.
Qed.

Lemma last_expiry now e face r i : records_ok e -> in_map e !! face = Some r -> fr_expiry (ir_record r) = expiry_of now i ->
  exists last, max_key (fun r => fr_expiry (ir_record r)) (pit_inRecords e) = Some last /\ now <= last.
Proof.
  intros Hrec Hr Hx. apply in_map_lookup in Hr as [Hr _]; [|done]. pose proof (max_key_spec (fun r => fr_expiry (ir_record r)) (pit_inRecords e)) as Hm.
  destruct (max_key _ _) as [last|]; [|rewrite Hm in Hr; by apply not_elem_of_nil in Hr].
  exists last. split; [done|]. destruct Hm as [_ Hm]. specialize (Hm r Hr). cbn in Hm. rewrite Hx in Hm. unfold expiry_of, DEFAULT_INTEREST_LIFETIME in Hm.
  destruct (i_interestLifetime i <? 0) eqn:E; zbool; lia.
Qed.

(** The next hop that is chosen for the Interest is not a network face of VAL. *)
Definition next_ok s (i : Interest) : Prop :=
  forall nh f, tag_nextHopFaceId (i_tags i) = Some nh -> ft_get nh (fw_faceTable s) = Some f -> isValNetFace f = false.

Lemma onContentStoreMiss_safe busy now s loc e f isNew i :
  next_ok s i -> inv busy s -> busy = None \/ busy = Some loc -> waits s loc e -> pit_key e = interest_key i -> sel_fine (i_selectors i) ->
  expiry_of now i < 2 ^ 63 -> known (fw_faceTable s) (face_id f) -> room limit (fw_tables s) 2 -> (length (i_name i) <= S getMaxDepth)%nat ->
  (isNew = true -> i_name i = i_name (pit_interest e) /\ i_selectors i = i_selectors (pit_interest e)) ->
  safe None 2 s (onContentStoreMiss strategies now f loc isNew i s).
Proof.
  intros Hno Hi Hb Ha Hk Hs Hx Hf Hr Hl Hnew. unfold onContentStoreMiss. eapply safe_after; [apply (quiet_frame _ (count nCsMisses s)); done|].
  assert (Hi0 : inv busy (count nCsMisses s)) by (by apply fw_inv_count).
  destruct (insertInRecord_ok busy now (count nCsMisses s) loc e (face_id f) i Hi0 Ha Hk Hs Hx Hf)
    as (e1 & s1 & r & -> & Hi1 & Hf1 & Ha1 & Epi & Hin & Hnon & Hexp & _). cbn [mbind result_bind].
  destruct (attached_entry cs_ok o counts busy s1 loc e1 Hi1 Ha1) as (Ee & Hrec & Hok). rewrite Ee. cbn [mbind result_bind].
  destruct (last_expiry now e1 (face_id f) r i Hrec Hin Hexp) as (last & -> & Hlast). eapply safe_after; [exact Hf1|].
  destruct (setExpiryTimer_ok cs_ok o counts busy s1 loc e1 now (Z.quot (last - now) 1000000) Hi1 Ha1 Hb) as (s2 & id & -> & Hi2 & Hf2 & Ha2 & _);
    [apply Z.quot_pos; lia|]. cbn [mbind result_bind]. eapply safe_after; [exact Hf2|].
  assert (Hk2 : pit_key (with_timer (Some id) e1) = interest_key i).
  { change (interest_key (pit_interest e1) = interest_key i). by rewrite Epi. }
  assert (Hroom : room limit (fw_tables s2) 2).
  { pose proof (fw_frame_room limit 0 2 _ _ Hf1 Hr) as Hr1. pose proof (fw_frame_room limit 0 2 _ _ Hf2 Hr1) as Hr2. exact Hr2. }
  assert (Hf' : known (fw_faceTable s2) (face_id f)) by (eapply fw_frame_known; [exact Hf2|]; by eapply fw_frame_known).
  destruct (tag_nextHopFaceId (i_tags i)) as [nextHop|] eqn:Enh.
  - destruct (ft_get nextHop (fw_faceTable s2)) as [f2|] eqn:Ef2; [|eapply safe_weaken; [by apply safe_Ok|lia]].
    eapply useNextHop_safe; try done.
    + exists f2. pose proof (fi_id _ (fv_faces _ _ _ _ _ Hi2) _ _ Ef2) as Hid. split; [by rewrite Hid|split; [done|]].
      apply (Hno nextHop); [done|]. by rewrite (ff_faces _ _ _ Hf2), (ff_faces _ _ _ Hf1) in Ef2.
    + cbn. intros r' Hr'. change (in_map e1 !! face_id f = Some r') in Hr'. congruence.
    + cbn. by rewrite Epi.
  - destruct (dispatch_ok s2 loc _ (fun st => st_afterReceiveInterest st now (face_id f) i loc) Hi2 Ha2) as (name & ->).
    eapply safe_weaken; [eapply sl_afterReceiveInterest; try done|lia]. unfold room in *. lia.
Qed.

Lemma onContentStoreHit_safe busy now s loc e f d :
  inv busy s -> busy = None \/ busy = Some loc -> waits s loc e -> matchesData sha256 (pit_interest e) d = Ok true ->
  fresh_ok (mi_freshnessPeriod (d_metaInfo d)) -> known (fw_faceTable s) (face_id f) -> room limit (fw_tables s) 2 ->
  safe None 2 s (onContentStoreHit strategies now f loc d s).
Proof.
  intros Hi Hb Ha Hm Hfr Hf Hr. unfold onContentStoreHit. eapply safe_after; [apply (quiet_frame _ (count nCsHits s)); done|].
  assert (Hi0 : inv busy (count nCsHits s)) by (by apply fw_inv_count). set (d0 := data_tags _ d).
  assert (Hm0 : matchesData sha256 (pit_interest e) d0 = Ok true) by (by rewrite (same_packet_matches _ _ d) by apply same_packet_tags).
  destruct (attached_entry cs_ok o counts busy s loc e Hi Ha) as (_ & Hrec & Hok).
  destruct (entry_modify_ok cs_ok o counts busy (count nCsHits s) loc e (with_satisfied (mi_freshnessPeriod (d_metaInfo d0)) e)
    (fun e => Ok (with_satisfied (mi_freshnessPeriod (d_metaInfo d0)) e)) Hi0 Ha) as (-> & Hi1 & Hf1 & Ha1);
    [done..|by destruct Hrec; split|by destruct Hok; split|]. cbn [mbind result_bind]. eapply safe_after; [exact Hf1|].
  destruct (setExpiryTimer_ok cs_ok o counts busy _ loc _ now 0 Hi1 Ha1 Hb) as (s2 & id & -> & Hi2 & Hf2 & Ha2 & _); [done|].
  cbn [mbind result_bind]. eapply safe_after; [exact Hf2|]. set (s3 := emit _ s2). eapply safe_after; [apply (quiet_frame _ s3); done|].
  assert (Hi3 : inv None s3) by (by apply fw_inv_emit). assert (Hr3 : room limit (fw_tables s3) 2) by exact (fw_frame_room limit 0 2 _ _ Hf2 Hr).
  assert (Hk3 : known (fw_faceTable s3) (face_id f)) by exact (fw_frame_known 0 _ _ _ Hf2 Hf).
  destruct (dispatch_ok s3 loc _ (fun st => st_beforeSatisfyInterest st now loc FACEID_CONTENT_STORE d0) Hi3 Ha2) as (name & ->).
  eapply safe_data_drop; [eapply sl_beforeSatisfyInterest; [done|done|exact Hm0|unfold room in *; lia]|].
  intros d1 s4 Hd1 Hi4 Hf4. destruct (still_matches sha256 1 s3 s4 loc _ d0 Hf4 Ha2 Hm0) as (e4 & Ha4 & Hm4).
  destruct (dispatch_ok s4 loc e4 (fun st => st_afterContentStoreHit st now loc (face_id f) d1) Hi4 Ha4) as (name' & ->).
  eapply safe_data_drop; [eapply sl_afterContentStoreHit; [done|done|by rewrite (same_packet_matches _ _ d0)|by eapply fw_frame_known|]|].
  - exact (fw_frame_room limit 1 2 _ _ Hf4 Hr3).
  - intros d5 s5 _ Hi5 Hf5. by apply safe_Ok.
Qed.

Lemma onInterestLoop_safe s f i : inv None s -> isValNetFace f = false -> safe None 0 s (onInterestLoop f i s).
Proof.
  intros Hi Hv. unfold onInterestLoop, face_sendNack. rewrite Hv. case_bool_decide; [by apply safe_Ok|].
  destruct (isGeoFace f); [by apply safe_Ok|]. by apply quiet_safe.
Qed.

Lemma pit_insert_fw s i :
  inv None s -> sel_fine (i_selectors i) -> isInProducerRegion (fw_networkRegionTable s) (i_forwardingHint i) = false ->
  room limit (fw_tables s) 1 ->
  exists loc t' e isNew, pit_insert i (fw_tables s) = Ok (Some loc, isNew, t') /\
    inv (if isNew : bool then Some loc else None) (with_tables t' s) /\ fw_frame 1 s (with_tables t' s) /\
    attached (pit_entries t') loc e /\ pit_key e = interest_key i /\ isNew = negb (is_some (pit_map (fw_tables s) !! interest_key i)) /\
    (if isNew then pit_entries (fw_tables s) !! loc = None /\ pit_entries t' = <[loc := e]> (pit_entries (fw_tables s)) /\
       exists x, e = with_nte (Some x) (pit_Entry_new i)
     else pit_map (fw_tables s) !! interest_key i = Some loc /\ pit_entries t' = pit_entries (fw_tables s)).
Proof.
  intros Hi Hs Hh Hr. pose proof (fv_tables _ _ _ _ _ Hi) as Ht.
  destruct (tables_inv_insert o limit counts Hcounts (fw_tables s) i Ht (sel_fine_ok _ Hs) Hr) as (loc & t' & e & E & Ht' & [Hkp Hfr] & Hsz & Ha & Hk & Hcase).
  exists loc, t', e, (negb (is_some (pit_map (fw_tables s) !! interest_key i))). split; [done|].
  assert (Hv : fib_view t' = fib_view (fw_tables s)).
  { apply (keeps_view tb_fib o counts); [done|apply (fi_tree _ _ _ (ti_fib _ _ _ _ Ht))|apply (fi_tree _ _ _ (ti_fib _ _ _ _ Ht'))|].
    exact (keeps_compose (setPitEntries []) tb_fib _ _ Hkp). }
  destruct (pit_map (fw_tables s) !! interest_key i) as [l|] eqn:Em; cbn [is_some negb] in *.
  - destruct Hcase as [-> Ee]. split; [|split; [|by split_and!]].
    + apply (fw_inv_tables cs_ok o counts None None s); [done|done|done|]. rewrite Ee. apply Hi.
    + split; [done|done| |cbn; lia|apply ready_refl]. intros l0 e0. cbn. rewrite Ee. by eauto.
  - destruct Hcase as (Hnone & Ee & x & Hx). split; [|split; [|by eauto 10]].
    + apply (fw_inv_tables cs_ok o counts None (Some loc) s); [done|done|done|]. rewrite Ee. intros l0 e0 [Hl Hat].
      apply lookup_insert_Some in Hl as [[<- <-]|[_ Hl]]; [|by apply (fv_entries _ _ _ _ _ Hi l0)].
      rewrite Hx. split; [done|done|by intros r ?%not_elem_of_nil|done|apply info_ok_empty|by intros r ?%not_elem_of_nil].
    + split; [done|done| |cbn; lia|apply ready_refl]. intros l0 e0 [Hl Hat]. exists e0. split; [|done]. split; [|done]. cbn. rewrite Ee.
      rewrite lookup_insert_ne; [done|]. intros <-. congruence.
Qed.

Lemma no_dels_region regions fh : dl_dels fh = [] -> isInProducerRegion regions fh = false.
Proof. intros E. unfold isInProducerRegion. rewrite E. induction regions as [|r l IH]; [done|]. cbn. exact IH. Qed.

Lemma stripped_hint regions i :
  let i' := if negb (bool_decide (dl_dels (i_forwardingHint i) = [])) && isInProducerRegion regions (i_forwardingHint i)
            then setForwardingHint DelegationList_new i else i in
  isInProducerRegion regions (i_forwardingHint i') = false /\ interest_key i' = interest_key i /\
  i_name i' = i_name i /\ i_selectors i' = i_selectors i /\ i_interestLifetime i' = i_interestLifetime i /\ getNonce i' = getNonce i.
Proof.
  case_bool_decide as Hd; cbn [negb andb]; [split; [by apply no_dels_region|done]|].
  destruct (isInProducerRegion regions (i_forwardingHint i)) eqn:E; [|done]. split; [apply hint_cleared|done].
Qed.

(** An Interest that may arrive. *)
Record interest_ok (now : Z) s (face : Z) (i : Interest) : Prop := {
  io_face : known (fw_faceTable s) face;
  io_selectors : sel_fine (i_selectors i);
  io_name : (length (i_name i) <= S getMaxDepth)%nat;
  io_expiry : expiry_of now i < 2 ^ 63;
  io_lookup : lookup_ok i;
  io_nextHop : next_ok s i;
}.

Lemma onIncomingInterest_safe now s face i :
  inv None s -> interest_ok now s face i -> room limit (fw_tables s) 3 -> safe None 3 s (onIncomingInterest strategies now face i s).
Proof.
  intros Hi [Hf Hs Hl Hx Hlo Hno] Hr. unfold onIncomingInterest. destruct Hf as (f & Hf & Hid & Hv). unfold get_face. rewrite Hf. cbn [mbind result_bind].
  set (i0 := interest_tags _ i). eapply safe_after; [apply (quiet_frame _ (count nInInterests s)); done|].
  assert (Hi0 : inv None (count nInInterests s)) by (by apply fw_inv_count). set (s0 := count nInInterests s) in *.
  destruct (isViolatingLocalhost _ _); [eapply safe_weaken; [by apply safe_Ok|lia]|].
  destruct (dnl_has _ _ _); [eapply safe_weaken; [by apply onInterestLoop_safe|lia]|].
  destruct (stripped_hint (fw_networkRegionTable s0) i0) as (Hh & Hk & En & Es & El & Enc).
  set (i1 := if negb (bool_decide (dl_dels (i_forwardingHint i0) = [])) && _ then _ else i0) in *.
  assert (Hs1 : sel_fine (i_selectors i1)) by (by rewrite Es). assert (Hx1 : expiry_of now i1 < 2 ^ 63) by (unfold expiry_of; by rewrite El).
  assert (Hl1 : (length (i_name i1) <= S getMaxDepth)%nat) by (by rewrite En).
  assert (Htag : tag_nextHopFaceId (i_tags i1) = tag_nextHopFaceId (i_tags i)) by (unfold i1; by destruct (negb _ && _)).
  destruct (pit_insert_fw s0 i1 Hi0 Hs1 Hh) as (loc & t' & e & isNew & -> & Hi1 & Hf1 & Ha & Hk1 & _ & Hcase); [unfold room, s0 in *; cbn in *; lia|].
  cbn [mbind result_bind]. set (s1 := with_tables t' s0) in *.
  assert (Hb : (if isNew then Some loc else None) = None \/ (if isNew then Some loc else None) = Some loc) by (destruct isNew; auto).
  assert (Hr1 : room limit (fw_tables s1) 2) by exact (fw_frame_room limit 1 3 _ _ Hf1 Hr).
  assert (Hkn : known (fw_faceTable s1) (face_id f)) by (exists f; by rewrite Hid).
  assert (Hnew : isNew = true -> i_name i1 = i_name (pit_interest e) /\ i_selectors i1 = i_selectors (pit_interest e)).
  { intros ->. destruct Hcase as (_ & _ & x & ->). done. }
  destruct (attached_entry cs_ok o counts _ s1 loc e Hi1 Ha) as (-> & _ & Hok). cbn [mbind result_bind].
  destruct (hasDuplicateNonceInPit f i1 e) eqn:Edup.
  { destruct isNew; [|destruct (onInterestLoop_safe s1 f i1 Hi1 Hv) as (s2 & E2 & Hi2 & Hf2); exists s2; split; [done|]; split; [done|];
      eapply fw_frame_weaken; [by eapply fw_frame_trans|lia]].
    exfalso. destruct Hcase as (_ & _ & x & ->). unfold hasDuplicateNonceInPit in Edup. rewrite findDuplicateNonce_new in Edup by done.
    by destruct (bool_decide _ && negb _) in Edup. }
  assert (Hmiss : forall s2, inv (if isNew then Some loc else None) s2 -> fw_tables s2 = t' -> fw_frame 1 s0 s2 ->
    safe None 3 s0 (onContentStoreMiss strategies now f loc isNew i1 s2)).
  { intros s2 Hi2 Et Hf2. destruct (onContentStoreMiss_safe (if isNew then Some loc else None) now s2 loc e f isNew i1) as (s3 & E3 & Hi3 & Hf3);
      [intros nh f'; rewrite Htag, (ff_faces _ _ _ Hf2); apply Hno|done|done|by rewrite Et|done|done|done|by eapply fw_frame_known|by rewrite Et|done|done|].
    exists s3. split; [done|]. split; [done|]. change 3 with (1 + 2). by eapply fw_frame_trans. }
  destruct (negb (hasInRecords e)); [|exact (Hmiss s1 Hi1 eq_refl Hf1)].
  assert (Hlo1 : lookup_ok i1) by (unfold isRightmost in *; destruct Hlo; split; unfold isRightmost in *; rewrite ?Es, En; done).
  destruct (cs_find_ok now i1 (fw_cs s1) (fv_cs _ _ _ _ _ Hi1) Hs1 Hlo1) as (found & c & -> & Hc & Hfound). cbn [mbind result_bind].
  assert (Hi2 : inv (if isNew then Some loc else None) (with_cs c s1)) by (by destruct Hi1; split).
  assert (Hf2 : fw_frame 1 s0 (with_cs c s1)) by (by destruct Hf1; split).
  destruct found as [d|]; [|exact (Hmiss (with_cs c s1) Hi2 eq_refl Hf2)]. destruct (Hfound d eq_refl) as [Hm Hfr].
  rewrite (same_key_matches sha256 i1 (pit_interest e)) in Hm; [|done|apply Hok|done].
  destruct (onContentStoreHit_safe _ now (with_cs c s1) loc e f d Hi2 Hb Ha Hm Hfr Hkn Hr1) as (s3 & E3 & Hi3 & Hf3).
  exists s3. split; [done|]. split; [done|]. change 3 with (1 + 2). by eapply fw_frame_trans.
Qed.

(** *** Data *)
Lemma dnl_add_all_ok name nonces d : dnl_inv d -> exists d', dnl_add_all name nonces d = Ok d' /\ dnl_inv d'.
Proof.
  revert d. induction nonces as [|n l IH]; intros d Hd; [by exists d|]. cbn [dnl_add_all].
  destruct (dnl_add_ok name n d Hd) as (d1 & -> & Hd1 & _). by apply IH.
Qed.
Lemma needDnl_ok lifetime e : (pit_isSatisfied e = true -> fresh_ok (pit_dataFreshnessPeriod e)) -> exists b, needDnl lifetime e = Ok b.
Proof.
  intros Hf. unfold needDnl. destruct (pit_isSatisfied e); [|by eexists]. destruct (Hf eq_refl) as [H0' H1'].
  rewrite (proj2 (Z.leb_le _ _) H0'). destruct (sel_mustBeFresh _); [|by eexists]. rewrite (proj2 (Z.ltb_lt (ms _) (2 ^ 63))) by lia. by eexists.
Qed.
Lemma insertDeadNonceList_ok loc e upstream s :
  entry_at loc s = Ok e -> (pit_isSatisfied e = true -> fresh_ok (pit_dataFreshnessPeriod e)) -> dnl_inv (fw_deadNonceList s) ->
  exists d, insertDeadNonceList loc upstream s = Ok (with_dnl d s) /\ dnl_inv d.
Proof.
  intros E Hf Hd. unfold insertDeadNonceList. rewrite E. cbn [mbind result_bind].
  destruct (needDnl_ok (dnl_lifetime (fw_deadNonceList s)) e Hf) as (b & ->). cbn [mbind result_bind].
  destruct b; [|exists (fw_deadNonceList s); by destruct s]. cbn [negb].
  match goal with |- context [dnl_add_all ?n ?l ?d] => destruct (dnl_add_all_ok n l d Hd) as (d' & -> & Hd') end. by exists d'.
Qed.
Lemma insertDeadNonceList_safe busy s loc e upstream :
  inv busy s -> waits s loc e -> safe busy 0 s (insertDeadNonceList loc upstream s).
Proof.
  intros Hi Ha. destruct (attached_entry cs_ok o counts busy s loc e Hi Ha) as (E & _ & Hok).
  destruct (insertDeadNonceList_ok loc e upstream s E (eo_fresh _ _ _ Hok) (fv_dnl _ _ _ _ _ Hi)) as (d & -> & Hd).
  eexists. split; [done|]. split; [by destruct Hi; split|by destruct (fw_frame_refl s); split].
Qed.

(** Data that may arrive. *)
Record data_ok (now : Z) s (face : Z) (d : Data) : Prop := {
  dk_face : known (fw_faceTable s) face;
  dk_matchable : matchable sha256 d;
  dk_name : (length (d_name d) <= S getMaxDepth)%nat;
  dk_fresh : fresh_ok (mi_freshnessPeriod (d_metaInfo d));
  dk_valid : valid_name (d_name d);
  dk_now : 0 <= now < 2 ^ 62;
}.

Lemma matchable_packet d d' : same_packet d d' -> matchable sha256 d -> matchable sha256 d'.
Proof. intros [f ->] [Hf Hi]. by split. Qed.

Lemma onDataUnsolicited_safe now s f d :
  inv None s -> data_ok now s (face_id f) d -> room limit (fw_tables s) 1 -> safe None 1 s (onDataUnsolicited now f d s).
Proof.
  intros Hi [Hf Hmt Hl Hfr Hvd Hnow] Hr. unfold onDataUnsolicited.
  cbv zeta. match goal with |- _ _ _ _ _ _ _ (mbind _ ?m) => assert (Hpart : exists cache d' s1,
    m = Ok ((cache, d'), s1) /\ same_packet d d' /\ inv None s1 /\ fw_frame 1 s s1) end.
  { destruct (_ && _); [|exists (negb (face_local f)), d, s; split; [done|]; split; [done|]; split; [done|]; eapply fw_frame_weaken; [apply fw_frame_refl|lia]].
    destruct (fib_lpm_ok o counts (fw_tables s) (d_name d) (ti_fib _ _ _ _ (fv_tables _ _ _ _ _ Hi))) as (r & -> & Hr').
    cbn [mbind result_bind]. assert (hops_known s r) as (hops & -> & Hh).
    { destruct r as [x|]; [|apply hops_known_None]. destruct Hr' as (p & e & Hx & _).
      destruct (fib_at_hops cs_ok o counts None s x p e Hi Hx) as (E1 & _ & Hk). by exists (fe_nextHops e). }
    cbn [mbind result_bind]. destruct (first_appface_ok cs_ok o counts None s hops Hi Hh) as (app & -> & _). cbn [mbind result_bind].
    assert (safe None 1 s (if negb (is_some app) then add_route (d_name d) (face_id f) s else Ok s)) as (s1 & -> & Hi1 & Hf1).
    { destruct (negb _); [by apply (add_route_safe cs_ok o limit counts Hcounts None)|]. eapply safe_weaken; [by apply safe_Ok|lia]. }
    cbn [mbind result_bind]. set (d' := data_tags _ d).
    assert (Hq : quiet s1 (face_sendDataToVal f d' None (is_some app) s1)) by (unfold face_sendDataToVal; by destruct (isGeoFace f)).
    eexists _, d', _. split; [done|]. split; [apply same_packet_tags|]. split; [by eapply quiet_inv|].
    change 1 with (1 + 0). eapply fw_frame_trans; [done|by apply quiet_frame]. }
  destruct Hpart as (cache & d' & s1 & -> & Hd & Hi1 & Hf1). cbn [mbind result_bind].
  destruct cache; [|by exists s1]. destruct (cs_insert_ok now d' true (fw_cs s1) (fv_cs _ _ _ _ _ Hi1) Hnow) as (c & -> & Hc);
    [by destruct Hd as [g ->]|by eapply matchable_packet|by destruct Hd as [g ->]|]. cbn [mbind result_bind].
  eexists. split; [done|]. split; [by destruct Hi1; split|by destruct Hf1; split].
Qed.

Lemma satisfyEntry_safe now s loc e f d :
  inv None s -> waits s loc e -> matchesData sha256 (pit_interest e) d = Ok true -> data_ok now s (face_id f) d -> room limit (fw_tables s) 1 ->
  safe_data None 1 s d (satisfyEntry strategies now f loc d s).
Proof.
  intros Hi Ha Hm [Hf Hmt Hl Hfr _ _] Hr. unfold satisfyEntry.
  destruct (setExpiryTimer_ok cs_ok o counts None s loc e now 0 Hi Ha) as (s1 & id & -> & Hi1 & Hf1 & Ha1 & _); [by left|done|].
  cbn [mbind result_bind]. eapply safe_data_after; [exact Hf1|done|]. set (s2 := emit _ s1). eapply safe_data_after; [by apply (quiet_frame _ s2)|done|].
  assert (Hi2 : inv None s2) by (by apply fw_inv_emit). assert (Hr2 : room limit (fw_tables s2) 1) by exact (fw_frame_room limit 0 1 _ _ Hf1 Hr).
  destruct (dispatch_ok s2 loc _ (fun st => st_afterReceiveData st now loc (face_id f) d) Hi2 Ha1) as (name & ->).
  eapply safe_data_bind; [eapply sl_afterReceiveData; [done|done|exact Hm|done|exact (fw_frame_known 0 _ _ _ Hf1 Hf)|done]|].
  intros d3 s3 Hd3 Hi3 Hf3. destruct (ff_entries _ _ _ Hf3 loc _ Ha1) as (e3 & Ha3 & _).
  destruct (attached_entry cs_ok o counts None s3 loc e3 Hi3 Ha3) as (_ & Hrec & Hok).
  assert (Hfr3 : fresh_ok (mi_freshnessPeriod (d_metaInfo d3))) by (by destruct Hd3 as [g ->]).
  destruct (entry_modify_ok cs_ok o counts None s3 loc e3 (with_satisfied (mi_freshnessPeriod (d_metaInfo d3)) e3)
    (fun e => Ok (with_satisfied (mi_freshnessPeriod (d_metaInfo d3)) e)) Hi3 Ha3) as (-> & Hi4 & Hf4 & Ha4);
    [done..|by destruct Hrec; split|by destruct Hok; split|]. cbn [mbind result_bind]. eapply safe_data_after; [exact Hf4|done|].
  eapply safe_to_data; [by eapply insertDeadNonceList_safe|]. intros s5 Hi5 Hf5.
  destruct (ff_entries _ _ _ Hf5 loc _ Ha4) as (e5 & Ha5 & _). destruct (attached_entry cs_ok o counts None s5 loc e5 Hi5 Ha5) as (_ & Hrec5 & Hok5).
  destruct (deleteOutRecord_ok (face_id f) e5 Hrec5) as [Hrec6 _].
  destruct (entry_modify_ok cs_ok o counts None s5 loc e5 (deleteOutRecord (face_id f) e5)
    (fun e => Ok (deleteOutRecord (face_id f) e)) Hi5 Ha5) as (-> & Hi6 & Hf6 & Ha6);
    [done..|split; try apply Hok5; intros r Hr'%elem_of_erase_first; by apply Hok5|]. cbn [mbind result_bind].
  eapply safe_data_after; [exact Hf6|done|]. by apply safe_data_Ok.
Qed.

Lemma data_ok_frame now k s s' face d d' : fw_frame k s s' -> same_packet d d' -> data_ok now s face d -> data_ok now s' face d'.
Proof.
  intros Hf Hd [H1' H2' H3' H4' H5' H6']. split; [by eapply fw_frame_known|by eapply matchable_packet|by destruct Hd as [g ->]..|done].
Qed.

Lemma satisfy_loop_safe now f : forall locs s d,
  inv None s -> (forall loc, loc ∈ locs -> exists e, waits s loc e /\ matchesData sha256 (pit_interest e) d = Ok true) ->
  data_ok now s (face_id f) d -> room limit (fw_tables s) (zlen locs) -> safe None (zlen locs) s (satisfy_loop strategies now f locs d s).
Proof.
  induction locs as [|loc locs IH]; intros s d Hi Hm Hd Hr; cbn [satisfy_loop]; [by apply safe_Ok|].
  destruct (Hm loc) as (e & Ha & He); [by left|]. assert (Hz : zlen (loc :: locs) = 1 + zlen locs) by zlen_lia. pose proof (zlen_nonneg locs) as Hnn.
  rewrite Hz in Hr |- *.
  eapply safe_data_drop; [eapply (satisfyEntry_safe now s loc e f d Hi Ha He Hd); eapply room_le; [exact Hr|lia]|].
  intros d1 s1 Hd1 Hi1 Hf1. replace (1 + zlen locs - 1) with (zlen locs) by lia. apply IH; [done| |by eapply data_ok_frame|].
  - intros l Hl. destruct (Hm l) as (e0 & Ha0 & He0); [by right|]. destruct (still_matches sha256 1 s s1 l e0 d Hf1 Ha0 He0) as (e1 & Ha1 & He1).
    exists e1. split; [done|]. by rewrite (same_packet_matches _ _ d).
  - pose proof (fw_frame_room limit 1 (1 + zlen locs) _ _ Hf1 Hr) as Hr1. eapply room_le; [exact Hr1|lia].
Qed.

(** The number of branches that Data may add: one for each entry that it satisfies. *)
Definition data_room s (d : Data) : Z :=
  match pit_findAllDataMatches sha256 d (fw_tables s) with Ok l => Z.max 1 (zlen l) | Err _ => 1 end.

Lemma onIncomingData_safe now s face d :
  inv None s -> data_ok now s face d -> room limit (fw_tables s) (data_room s d) ->
  safe None (data_room s d) s (onIncomingData sha256 strategies now face d s).
Proof.
  intros Hi Hd Hr. unfold onIncomingData. destruct (dk_face _ _ _ _ Hd) as (f & Hf & Hid & Hv). unfold get_face. rewrite Hf. cbn [mbind result_bind].
  set (d0 := data_tags _ d). eapply safe_after; [apply (quiet_frame _ (count nInData s)); done|].
  assert (Hi0 : inv None (count nInData s)) by (by apply fw_inv_count).
  assert (H1z : 1 <= data_room s d) by (unfold data_room; case_match; lia).
  assert (Hd0 : data_ok now (count nInData s) (face_id f) d0).
  { rewrite Hid. eapply (data_ok_frame now 0 s); [by apply quiet_frame|apply same_packet_tags|done]. }
  destruct (isViolatingLocalhost _ _); [eapply safe_weaken; [by apply safe_Ok|lia]|].
  destruct (pit_findAllDataMatches_ok o counts sha256 d0 (fw_tables s) (ti_pit _ _ _ _ (fv_tables _ _ _ _ _ Hi))) as (l & El & _ & Hl).
  { intros loc e Ha. apply matchable_ok; [apply (eo_selectors _ _ _ (fv_entries _ _ _ _ _ Hi loc e Ha))|apply Hd0]. }
  cbn [fw_tables count]. rewrite El. cbn [mbind result_bind].
  assert (Eroom : data_room s d = Z.max 1 (zlen l)).
  { unfold data_room. assert (pit_findAllDataMatches sha256 d (fw_tables s) = Ok l) as ->; [|done]. rewrite <- El. symmetry.
    by apply findAllDataMatches_packet, same_packet_tags. }
  case_bool_decide as Hnil; [eapply safe_weaken; [apply onDataUnsolicited_safe; [done|done|by eapply room_le]|lia]|].
  destruct (cs_insert_ok now (data_tags (set_hopCount None) d0) false (fw_cs (count nInData s)) (fv_cs _ _ _ _ _ Hi)) as (c & -> & Hc);
    [apply Hd0|apply Hd0|eapply matchable_packet; [apply same_packet_tags|apply Hd0]|apply Hd0|]. cbn [mbind result_bind].
  eapply safe_after; [by apply (quiet_frame _ (count nInData s))|].
  assert (Hi1 : inv None (with_cs c (count nInData s))) by (by destruct Hi0; split).
  destruct (satisfy_loop_safe now f l (with_cs c (count nInData s)) d0 Hi1) as (s2 & E & Hi2 & Hf2).
  - intros loc Hloc. by apply Hl.
  - by destruct Hd0; split.
  - eapply room_le; [exact Hr|lia].
  - exists s2. split; [done|]. split; [done|]. eapply (fw_frame_weaken (0 + zlen l)); [|lia]. eapply fw_frame_trans; [|exact Hf2].
    by destruct (fw_frame_refl (count nInData s)); split.
Qed.

(** *** Nacks and dropped Interests *)
Lemma onIncomingNack_safe now s face i reason :
  inv None s -> known (fw_faceTable s) face -> sel_fine (i_selectors i) -> room limit (fw_tables s) 1 ->
  safe None 1 s (onIncomingNack strategies now face i reason s).
Proof.
  intros Hi (f & Hf & Hid & Hv) Hs Hr. unfold onIncomingNack, get_face. rewrite Hf. cbn [mbind result_bind].
  eapply safe_after; [apply (quiet_frame _ (count nInNacks s)); done|]. set (s0 := count nInNacks s).
  assert (Hi0 : inv None s0) by (by apply fw_inv_count). pose proof (fv_tables _ _ _ _ _ Hi0) as Ht.
  assert (Hdone : forall s1, inv None s1 -> fw_frame 0 s0 s1 -> safe None 1 s0 (Ok s1)).
  { intros s1 Hi1 Hf1. exists s1. split; [done|]. split; [done|]. eapply fw_frame_weaken; [done|lia]. }
  case_bool_decide; [apply Hdone; [done|apply fw_frame_refl]|].
  rewrite (pit_find_ok o counts (fw_tables s0) i (ti_pit _ _ _ _ Ht) (sel_fine_ok _ Hs) (ti_tight _ _ _ _ Ht)). cbn [mbind result_bind].
  destruct (pit_map (fw_tables s0) !! interest_key i) as [loc|] eqn:Em; [|apply Hdone; [done|apply fw_frame_refl]].
  apply key_map_at in Em as (e & Ha & Hk); [|apply (pv_ok _ _ _ (ti_pit _ _ _ _ Ht))].
  destruct (attached_entry cs_ok o counts None s0 loc e Hi0 Ha) as (-> & Hrec & Hok). cbn [mbind result_bind].
  destruct (getOutRecord (face_id f) e) as [r|]; [|apply Hdone; [done|apply fw_frame_refl]].
  destruct (negb _); [apply Hdone; [done|apply fw_frame_refl]|]. cbv zeta.
  destruct (entry_modify_ok cs_ok o counts None s0 loc e _ (fun e => Ok (with_outRecords (update_first (fun r => out_face r =? face_id f)
    (fun r => (setIncomingNack (getNonce i) reason r).2) (pit_outRecords e)) e)) Hi0 Ha eq_refl) as (-> & Hi1 & Hf1 & Ha1);
    [done..|by apply (update_out_records (face_id f)); [intros r0; unfold setIncomingNack; by destruct (negb _)|]| |].
  { split; try apply Hok. apply (update_out_info (face_id f)); [|exact (eo_outInfo _ _ _ Hok)]. intros r0 _. unfold setIncomingNack. by destruct (negb _). }
  cbn [mbind result_bind].
  destruct (attached_entry cs_ok o counts None _ loc _ Hi1 Ha1) as (-> & _ & _). cbn [mbind result_bind].
  set (e1 := with_outRecords _ e) in *. set (s1 := with_tables _ s0) in *. eapply safe_after; [exact Hf1|].
  eapply safe_bind; [instantiate (1 := 0); instantiate (1 := None)|].
  - destruct (negb _); [by eapply setExpiryTimer_safe; eauto|by apply safe_Ok].
  - intros s2 Hi2 Hf2. destruct (ff_entries _ _ _ Hf2 loc e1 Ha1) as (e2 & Ha2 & _).
    destruct (dispatch_ok s2 loc e2 (fun st => st_afterReceiveNack st now (face_id f) i reason loc) Hi2 Ha2) as (name & ->).
    change (1 - 0) with 1. eapply sl_afterReceiveNack; [done|done| |].
    + exists f. rewrite (ff_faces _ _ _ Hf2), Hid. done.
    + exact (fw_frame_room limit 0 1 _ _ Hf2 Hr).
Qed.

Lemma onDroppedInterest_safe s face i : inv None s -> room limit (fw_tables s) 1 -> safe None 1 s (onDroppedInterest strategies face i s).
Proof.
  intros Hi Hr. unfold onDroppedInterest. destruct (findEffectiveStrategy_ok None s (i_name i) Hi) as (st & ->). cbn [mbind result_bind].
  by apply sl_onDroppedInterest.
Qed.

(** *** Timers *)

(** The entry whose timer runs leaves the table. *)
Lemma onInterestFinalize_ok now s ev q loc :
  inv None s -> pop_due now (t_timers (fw_tables s)) = Some (ev, q) -> ev_callback ev = PitExpiry loc ->
  exists s' e d, onInterestFinalize loc (with_tables (on_timers q (fw_tables s)) s) = Ok s' /\ inv None s' /\
    waits s loc e /\ pit_map (fw_tables s') = delete (pit_key e) (pit_map (fw_tables s)) /\
    pit_entries (fw_tables s') = <[loc := with_nte None e]> (pit_entries (fw_tables s)) /\
    fw_faceTable s' = fw_faceTable s /\ fw_deadNonceList s' = d /\
    insertDeadNonceList loc None s = Ok (with_dnl d s) /\
    fw_out s' = fw_out s ++ (if pit_isSatisfied e then [] else [BeforeExpirePendingInterest loc]).
Proof.
  intros Hi Hpop Hc. pose proof (fv_tables _ _ _ _ _ Hi) as Ht.
  destruct (pit_timer_owner o counts now (fw_tables s) ev q loc Ht Hpop Hc) as (e & Ha & Htm).
  destruct (attached_entry cs_ok o counts None s loc e Hi Ha) as (Ee & _ & Hok).
  destruct (tables_inv_finalize o limit counts Hcounts now (fw_tables s) ev q loc e Ht Hpop Hc Ha) as (t' & Er & Ht' & [Hkp Hfr] & Een & Em).
  destruct (insertDeadNonceList_ok loc e None s Ee (eo_fresh _ _ _ Hok) (fv_dnl _ _ _ _ _ Hi)) as (d & Ed & Hd).
  assert (Hv : fib_view t' = fib_view (fw_tables s)).
  { apply (keeps_view tb_fib o counts); [done|apply (fi_tree _ _ _ (ti_fib _ _ _ _ Ht))|apply (fi_tree _ _ _ (ti_fib _ _ _ _ Ht'))|].
    exact (keeps_compose (setPitEntries []) tb_fib _ _ Hkp). }
  set (s0 := with_tables (on_timers q (fw_tables s)) s).
  set (s1 := if negb (pit_isSatisfied e) then emit (BeforeExpirePendingInterest loc) s0 else s0).
  assert (Ed1 : insertDeadNonceList loc None s1 = Ok (with_dnl d s1)).
  { unfold insertDeadNonceList in Ed |- *. assert (entry_at loc s1 = entry_at loc s) as -> by (unfold s1; by destruct (negb _)).
    rewrite Ee in *. cbn [mbind result_bind] in *. assert (fw_deadNonceList s1 = fw_deadNonceList s) as -> by (unfold s1; by destruct (negb _)).
    destruct (needDnl _ e) as [[]|]; [| |done]; cbn [mbind result_bind negb] in *.
    - destruct (dnl_add_all _ _ _) as [d'|]; [|done]. cbn [mbind result_bind] in *. apply (inj Ok) in Ed. do 2 f_equal.
      exact (f_equal fw_deadNonceList Ed).
    - apply (inj Ok) in Ed. f_equal. pose proof (f_equal fw_deadNonceList Ed) as E1. cbn in E1. rewrite <- E1.
      unfold s1. by destruct (negb _). }
  assert (Hcancel : cancel (pit_expiryTimer e) q = q).
  { rewrite Htm. apply cancel_absent. exact (popped_absent now _ ev q (ti_queue _ _ _ _ Ht) Hpop). }
  assert (Ho : forall l0 e0, attached (pit_entries t') l0 e0 -> entry_ok (fw_faceTable s) (fw_networkRegionTable s) e0).
  { intros l0 e0 [Hl Hs]. rewrite Een in Hl. apply lookup_insert_Some in Hl as [[<- <-]|[_ Hl]]; [by destruct Hs|]. by apply (fv_entries _ _ _ _ _ Hi l0). }
  pose proof (fw_inv_tables cs_ok o counts None None s t' Hi Ht' Hv Ho) as Hi'. clear Ho Hv.
  unfold onInterestFinalize. fold s0. change (entry_at loc s0) with (entry_at loc s). rewrite Ee. cbn [mbind result_bind]. fold s1. rewrite Ed1.
  cbn [mbind result_bind]. set (s2 := if pit_isSatisfied e then count nSatisfiedInterests (with_dnl d s1) else count nUnsatisfiedInterests (with_dnl d s1)).
  assert (Et2 : fw_tables s2 = on_timers q (fw_tables s)) by (unfold s2, s1; by destruct (pit_isSatisfied e)).
  rewrite Et2. cbn [t_timers on_timers with_measurements]. rewrite Hcancel.
  cbn [fw_tables with_tables]. change (on_timers q (on_timers q (fw_tables s))) with (on_timers q (fw_tables s)). rewrite Er. cbn [mbind result_bind].
  exists (with_tables t' (with_tables (on_timers q (on_timers q (fw_tables s))) s2)), e, d. split; [done|].
  split; [destruct Hi'; unfold s2, s1; by destruct (pit_isSatisfied e); split|].
  split; [done|]. split; [exact Em|]. split; [exact Een|].
  split; [unfold s2, s1; by destruct (pit_isSatisfied e)|]. split; [unfold s2, s1; by destruct (pit_isSatisfied e)|]. split; [exact Ed|].
  unfold s2, s1. destruct (pit_isSatisfied e); cbn; [by rewrite app_nil_r|done].
Qed.

Lemma run_timer_ok now s : inv None s -> zlen (dnl_queue (fw_deadNonceList s)) < 2 ^ 63 - 2 ->
  exists s', run_timer now s = Ok s' /\ inv None s' /\ fw_faceTable s' = fw_faceTable s /\ ready (fw_out s) (fw_out s').
Proof.
  intros Hi Hd. pose proof (fv_tables _ _ _ _ _ Hi) as Ht. unfold run_timer.
  destruct (pop_due now (t_timers (fw_tables s))) as [[ev q]|] eqn:Hpop; [|exists s; do 3 (split; [done|]); apply ready_refl]. unfold run_callback.
  destruct (ev_callback ev) as [x|loc| |] eqn:Hc.
  - destruct (tables_inv_cleanup o limit counts Hcounts now (fw_tables s) ev q x Ht Hpop Hc) as (t' & E & Ht' & [Hk Hfr] & _).
    cbn [fw_tables with_tables]. rewrite E. cbn [mbind result_bind]. eexists. split; [done|]. split; [|split; [done|apply ready_refl]].
    apply (fw_inv_tables cs_ok o counts None None s); [done|done| |].
    + apply (keeps_view tb_fib o counts); [done|apply (fi_tree _ _ _ (ti_fib _ _ _ _ Ht))|apply (fi_tree _ _ _ (ti_fib _ _ _ _ Ht'))|].
      exact (keeps_compose (setMeasurementsEntry None) tb_fib _ _ Hk).
    + assert (pit_entries t' = pit_entries (fw_tables s)) as -> by (by rewrite Hfr). apply Hi.
  - destruct (onInterestFinalize_ok now s ev q loc Hi Hpop Hc) as (s' & e & d & E & Hi' & _ & _ & _ & Hf & _ & _ & Ho). exists s'. do 3 (split; [done|]).
    rewrite Ho. destruct (pit_isSatisfied e); [rewrite app_nil_r; apply ready_refl|by apply ready_snoc].
  - cbn [fw_tables with_tables t_timers on_timers with_measurements fw_deadNonceList].
    destruct (dnl_mark_ok now (fw_deadNonceList s) q (fv_dnl _ _ _ _ _ Hi) Hd) as (d' & id & q' & -> & Hd' & Eq & _).
    assert (Ht' : tables_inv o counts None (on_timers (schedule now (dnl_markInterval (fw_deadNonceList s)) DnlMark q).2 (fw_tables s))).
    { apply (tables_inv_tick o counts now now (fw_tables s) ev); [done|done| |]; intros ?; by rewrite Hc. }
    rewrite <- Eq in Ht'. eexists. split; [done|]. split; [|split; [done|apply ready_refl]].
    destruct (fw_inv_tables cs_ok o counts None None s _ Hi Ht' eq_refl (fv_entries _ _ _ _ _ Hi)). by split.
  - cbn [fw_tables with_tables t_timers on_timers with_measurements fw_deadNonceList].
    destruct (adjustCapacity_ok now (fw_deadNonceList s) q (fv_dnl _ _ _ _ _ Hi)) as (d' & id & q' & -> & Hd' & Eq & _).
    assert (Ht' : tables_inv o counts None (on_timers (schedule now (dnl_adjustCapacityInterval (fw_deadNonceList s)) DnlAdjustCapacity q).2 (fw_tables s))).
    { apply (tables_inv_tick o counts now now (fw_tables s) ev); [done|done| |]; intros ?; by rewrite Hc. }
    rewrite <- Eq in Ht'. eexists. split; [done|]. split; [|split; [done|apply ready_refl]].
    destruct (fw_inv_tables cs_ok o counts None None s _ Hi Ht' eq_refl (fv_entries _ _ _ _ _ Hi)). by split.
Qed.

(** *** Faces *)
Lemma fw_addFace_ok f s : inv None s -> face_id f = INVALID_FACEID -> m_lastFaceId (fw_faceTable s) < 2 ^ 64 - 1 ->
  exists s' sig, fw_addFace f s = Ok s' /\ inv None s' /\ fw_tables s' = fw_tables s /\ fw_out s' = fw_out s /\ ft_add f (fw_faceTable s) = Ok (sig, fw_faceTable s').
Proof.
  intros Hi Hid Hmax. pose proof (fv_faces _ _ _ _ _ Hi) as Hft. unfold fw_addFace. rewrite (ft_add_new f (fw_faceTable s) Hft Hid Hmax).
  cbn [mbind result_bind snd]. eexists _, _. split; [done|]. split; [|by split; [|split]].
  assert (Hk : forall face, known (fw_faceTable s) face -> known (ft_insert f (fw_faceTable s)) face).
  { intros face (f0 & Hf0 & Hid0). exists f0. split; [|done]. unfold ft_get, ft_insert. cbn. rewrite lookup_insert_ne; [done|].
    intros <-. unfold ft_get in Hf0. by rewrite ft_fresh in Hf0. }
  destruct Hi as [? ? ? Hh He ?]. split; [done|done|by apply ft_inv_insert|intros prefix e nh Hv Hnh; apply Hk; by eapply Hh| |done].
  intros loc e Ha. destruct (He loc e Ha) as [? ? H3' ? ? ?]. split; [done|done|by intros r Hr; apply Hk, H3'|done..].
Qed.

(** A face that FIB and PIT do not use. *)
Definition unused s (face : Z) : Prop :=
  (forall prefix e nh, fib_view (fw_tables s) !! prefix = Some e -> nh ∈ fe_nextHops e -> nh_face nh <> face) /\
  (forall loc e r, waits s loc e -> r ∈ pit_inRecords e -> in_face r <> face).

Lemma forget_face s t id : inv None s -> ft_remove id (fw_faceTable s) = Ok t -> unused s id -> inv None (on_faceTable t.2 s).
Proof.
  intros Hi E [Hu1 Hu2]. destruct t as [sig t]. pose proof (ft_inv_remove id _ sig t (fv_faces _ _ _ _ _ Hi) E) as Hft.
  unfold ft_remove in E. destruct (m_faces (fw_faceTable s) !! id) as [f|]; [|done]. injection E as _ <-. cbn [snd].
  assert (Hk : forall face, face <> id -> known (fw_faceTable s) face ->
    known (mkFaceTable (m_lastFaceId (fw_faceTable s)) (delete id (m_faces (fw_faceTable s)))) face).
  { intros face Hne (f0 & Hf0 & Hid0). exists f0. split; [|done]. unfold ft_get. cbn. by rewrite lookup_delete_ne. }
  destruct Hi as [? ? ? Hh He ?]. split; [done|done|done| | |done].
  - intros prefix e nh Hv Hnh. apply Hk; [by eapply Hu1|by eapply Hh].
  - intros loc e Ha. destruct (He loc e Ha) as [? ? H3' ? ? ?]. split; [done|done| |done..]. intros r Hr. apply Hk; [by eapply Hu2|by apply H3'].
Qed.

(** The network faces of VAL are not used. *)
Lemma val_unused s face f : inv None s -> ft_get face (fw_faceTable s) = Some f -> isValNetFace f = true -> unused s face.
Proof.
  intros Hi Hf Hv. assert (Hk : ~ known (fw_faceTable s) face) by (intros (f' & Hf' & _ & Hv'); congruence).
  split; [intros prefix e nh Hfib Hnh <-|intros loc e r Ha Hr <-]; apply Hk; [by eapply Hi|by apply (fv_entries _ _ _ _ _ Hi loc e Ha)].
Qed.

Lemma fw_removeFace_ok s face f : inv None s -> ft_get face (fw_faceTable s) = Some f ->
  exists s' sig, fw_removeFace face s = Ok s' /\ inv None s' /\ unused s' face /\ ft_get face (fw_faceTable s') = None /\ fw_out s' = fw_out s /\
    ft_remove face (fw_faceTable s) = Ok (sig, fw_faceTable s').
Proof.
  intros Hi Hf. unfold fw_removeFace. pose proof (val_unused s face f Hi Hf) as Hval.
  assert (Er : exists sig t, ft_remove face (fw_faceTable s) = Ok (sig, t) /\ ft_get face t = None /\
    sig = if isValNetFace f then BeforeValFaceRemove face else BeforeRemove face).
  { unfold ft_remove, ft_get in *. rewrite Hf. eexists _, _. split; [done|]. split; [apply lookup_delete_eq|done]. }
  destruct Er as (sig & t & Er & Hnone & ->). rewrite Er. cbn [mbind result_bind]. destruct (isValNetFace f).
  { eexists _, _. split; [done|]. split; [by apply (forget_face s (_, t) face Hi Er), Hval|]. split; [by apply Hval|done]. }
  destruct (tables_inv_removal o limit counts Hcounts (fw_tables s) face (fv_tables _ _ _ _ _ Hi)) as (t' & -> & Ht' & Hhops & Hb & _).
  cbn [mbind result_bind]. eexists _, _. split; [done|].
  assert (Hi' : inv None (with_tables t' s)).
  { destruct Hi as [? ? ? Hh He ?]. split; [done|done|done| | |done]; cbn.
    - intros prefix e nh Hv Hnh. destruct (Hhops prefix e nh Hv Hnh) as [_ (e0 & Hv0 & Hnh0)]. by eapply Hh.
    - intros loc e' Ha. destruct (Hb loc e' Ha) as (e & Ha0 & Hc). destruct (He loc e Ha0) as [H1' H2' H3' H4' H5' H6'].
      assert (Hrec : records_ok e') by apply (po_entries _ _ (pv_ok _ _ _ (ti_pit _ _ _ _ Ht')) loc e'), Ha.
      assert (Hrec0 : records_ok e) by apply (po_entries _ _ (pv_ok _ _ _ (ti_pit _ _ _ _ fv_tables)) loc e), Ha0.
      rewrite (cd_rest _ _ _ Hc). split; [done|done|intros r Hr; apply H3'|done|done|intros r Hr; apply H6'].
      + assert (Hm : in_map e' !! in_face r = Some r) by (by apply in_map_lookup).
        rewrite (cd_in _ _ _ Hc) in Hm. apply lookup_delete_Some in Hm as [_ Hm]. by apply in_map_lookup in Hm as [Hm _].
      + assert (Hm : out_map e' !! out_face r = Some r) by (by apply out_map_lookup).
        rewrite (cd_out _ _ _ Hc) in Hm. apply lookup_delete_Some in Hm as [_ Hm]. by apply out_map_lookup in Hm as [Hm _]. }
  assert (Hun : unused (with_tables t' s) face).
  { split; [intros prefix e nh Hv Hnh; by apply (Hhops prefix e nh Hv Hnh)|]. cbn. intros loc e' r Ha Hr Ef.
    destruct (Hb loc e' Ha) as (e & _ & Hc). assert (Hrec : records_ok e') by apply (po_entries _ _ (pv_ok _ _ _ (ti_pit _ _ _ _ Ht')) loc e'), Ha.
    assert (Hm : in_map e' !! face = Some r) by (by apply in_map_lookup). by rewrite (cd_in _ _ _ Hc), lookup_delete_eq in Hm. }
  split; [exact (forget_face (with_tables t' s) (_, t) face Hi' Er Hun)|]. split; [exact Hun|done].
Qed.

(** ** The event loop *)

(** Events that may happen: packets on faces that are there, of sizes and names that the
    tables take; faces that are not in a table yet, or are. *)
Definition admissible (now : Z) s (ev : fw_event) : Prop :=
  match ev with
  | ReceiveInterest face i => interest_ok now s face i /\ room limit (fw_tables s) 3
  | ReceiveData face d => data_ok now s face d /\ room limit (fw_tables s) (data_room s d)
  | ReceiveNack face i _ => known (fw_faceTable s) face /\ sel_fine (i_selectors i) /\ room limit (fw_tables s) 1
  | DropInterest _ _ => room limit (fw_tables s) 1
  | AddFace f => face_id f = INVALID_FACEID /\ m_lastFaceId (fw_faceTable s) < 2 ^ 64 - 1
  | RemoveFace face => is_Some (ft_get face (fw_faceTable s))
  | RunTimer => zlen (dnl_queue (fw_deadNonceList s)) < 2 ^ 63 - 2
  end.

Lemma fw_handle_ok now s ev : inv None s -> admissible now s ev ->
  exists s', fw_handle sha256 strategies now ev s = Ok s' /\ inv None s' /\ ready (fw_out s) (fw_out s') /\
    match ev with
    | AddFace f => exists sig, ft_add f (fw_faceTable s) = Ok (sig, fw_faceTable s')
    | RemoveFace face => exists sig, ft_remove face (fw_faceTable s) = Ok (sig, fw_faceTable s')
    | _ => fw_faceTable s' = fw_faceTable s
    end.
Proof.
  intros Hi Had.
  assert (Hsafe : forall k m, safe None k s m -> exists s', m = Ok s' /\ inv None s' /\ ready (fw_out s) (fw_out s') /\ fw_faceTable s' = fw_faceTable s).
  { intros k m (s' & E & Hi' & Hf). exists s'. split; [done|]. split; [done|]. split; apply Hf. }
  destruct ev as [face i|face d|face i reason|face i|f|face|]; cbn in *.
  - eapply Hsafe, onIncomingInterest_safe; [done|apply Had..].
  - eapply Hsafe, onIncomingData_safe; [done|apply Had..].
  - eapply Hsafe, onIncomingNack_safe; [done|apply Had..].
  - by eapply Hsafe, onDroppedInterest_safe.
  - destruct Had as [Hid Hm]. destruct (fw_addFace_ok f s Hi Hid Hm) as (s' & sig & E & Hi' & _ & Eo & Ef). exists s'. split; [done|]. split; [done|].
    split; [rewrite Eo; apply ready_refl|by exists sig].
  - destruct Had as (f & Hf). destruct (fw_removeFace_ok s face f Hi Hf) as (s' & sig & E & Hi' & _ & _ & Eo & Ef). exists s'. split; [done|]. split; [done|].
    split; [rewrite Eo; apply ready_refl|by exists sig].
  - destruct (run_timer_ok now s Hi Had) as (s' & E & Hi' & Hf & Ho). by exists s'.
Qed.
End pipelines.
