(* ===== verification/StrategySafety.v ===== *)
(** * NFD's strategies keep their contract

    The best-route and multicast strategies satisfy [StrategyLaws], and what they choose. *)

From stdpp Require Import base gmap list sets strings.
From Stdlib Require Import ZArith Lia Sorting.Sorted.
From S2P Require Import Prelude Tlv Encoder Block Codec Ndn NameTlv NameSuccessor Signature Exclude Selectors Data Interest LpPacket FaceTable Double Hashtable NameTree Scheduler NfdTables Fib Pit Cleanup DeadNonceList Cs Algorithm RetxSuppression Measurements StrategyChoice Forwarder Strategies TablesInv ForwarderInv ForwarderSafety.

Local Open Scope Z_scope.

Section laws.
Context {C : Type} `{HashFunction} `{StdSort} `{!StdSortLaws} `{SeededHash} `{FaceAddresses} `{UnorderedFaces} `{!UnorderedLaws}.
Context (sha256 : octets -> octets) (cs_ok : C -> Prop).
Context (o : HashtableOptions) (limit : Z) (counts : list Z) (Hcounts : counts_ok o limit counts = true).
Implicit Types (s : Forwarder C) (loc : nat) (busy : option nat).
Abbreviation inv := (fw_inv cs_ok o counts).
Abbreviation safe := (ForwarderInv.safe cs_ok o counts).
Abbreviation safe_data := (ForwarderInv.safe_data cs_ok o counts).
Abbreviation waits s loc e := (attached (pit_entries (fw_tables s)) loc e).

(** ** The base class *)
Lemma sendData_loop_safe loc faces : forall s e d, inv None s -> waits s loc e -> matchesData sha256 (pit_interest e) d = Ok true ->
  (forall f, f ∈ faces -> known (fw_faceTable s) f) -> safe None 0 s (sendData_loop sha256 loc d faces s).
Proof.
  induction faces as [|face faces IH]; intros s e d Hi Ha Hm Hfs; cbn [sendData_loop]; [by apply safe_Ok|].
  eapply safe_bind; [eapply (strategy_sendData_safe sha256 cs_ok o counts None s loc e); [done..|apply Hfs; by left]|]. intros s1 Hi1 Hf1. change (0 - 0) with 0.
  destruct (still_matches sha256 0 s s1 loc e d Hf1 Ha Hm) as (e1 & Ha1 & Hm1). apply (IH s1 e1); [done..|].
  intros f Hf. eapply fw_frame_known; [done|]. apply Hfs. by right.
Qed.
Lemma base_afterReceiveData_safe now s loc e inFace d : inv None s -> waits s loc e -> matchesData sha256 (pit_interest e) d = Ok true ->
  safe_data None 1 s d (base_afterReceiveData sha256 now loc inFace d s).
Proof.
  intros Hi Ha Hm. unfold base_afterReceiveData, base_beforeSatisfyInterest. cbn [mbind result_bind]. unfold strategy_sendDataToAll.
  destruct (attached_entry cs_ok o counts None s loc e Hi Ha) as (-> & _ & _). cbn [mbind result_bind].
  destruct (sendData_loop_safe loc (pendingDownstreams now e) s e d Hi Ha Hm) as (s1 & -> & Hi1 & Hf1); [by eapply pendingDownstreams_known|].
  exists d, s1. do 3 (split; [done|]). eapply fw_frame_weaken; [done|lia].
Qed.
Lemma base_afterContentStoreHit_safe now s loc e inFace d : inv None s -> waits s loc e -> matchesData sha256 (pit_interest e) d = Ok true ->
  known (fw_faceTable s) inFace -> safe_data None 1 s d (base_afterContentStoreHit sha256 now loc inFace d s).
Proof.
  intros Hi Ha Hm Hf. unfold base_afterContentStoreHit. destruct (strategy_sendData_safe sha256 cs_ok o counts None s loc e d inFace Hi Ha Hm Hf) as (s1 & -> & Hi1 & Hf1).
  exists d, s1. do 3 (split; [done|]). eapply fw_frame_weaken; [done|lia].
Qed.

(** ** Nacks *)
(** The Nacks for a list of downstreams. *)
Definition nack_outputs (t : FaceTable) (e : pit_Entry) (reason : Z) (faces : list Z) : list fw_output :=
  faces ≫= fun face => match ft_get face t with Some f => nack_output f e reason | None => [] end.
Definition nackable_face (t : FaceTable) (face : Z) : bool := match ft_get face t with Some f => nackable f | None => false end.

Lemma nack_outputs_ext s e e' reason faces : inv None s -> (forall face, face ∈ faces -> in_map e' !! face = in_map e !! face) ->
  nack_outputs (fw_faceTable s) e' reason faces = nack_outputs (fw_faceTable s) e reason faces.
Proof.
  intros Hi. induction faces as [|face faces IH]; intros He; [done|]. unfold nack_outputs in *. cbn [mbind list_bind]. f_equal; [|apply IH; intros; apply He; by right].
  destruct (ft_get face (fw_faceTable s)) as [f|] eqn:Hf; [|done]. unfold nack_output. rewrite (fi_id _ (fv_faces _ _ _ _ _ Hi) face f Hf), He; [done|by left].
Qed.

Lemma sendNacks_loop_ok loc reason faces : forall s e, inv None s -> waits s loc e -> (forall f, f ∈ faces -> known (fw_faceTable s) f) -> NoDup faces ->
  exists s' e', sendNacks_loop loc reason faces s = Ok s' /\ inv None s' /\ fw_frame 0 s s' /\ waits s' loc e' /\
    fw_out s' = fw_out s ++ nack_outputs (fw_faceTable s) e reason faces /\ e' = with_inRecords (pit_inRecords e') (pit_nonceList e') e /\
    forall face, in_map e' !! face = if bool_decide (face ∈ faces) && nackable_face (fw_faceTable s) face then None else in_map e !! face.
Proof.
  induction faces as [|face faces IH]; intros s e Hi Ha Hfs Hnd; cbn [sendNacks_loop].
  { exists s, e. split; [done|]. split; [done|]. split; [apply fw_frame_refl|]. split; [done|]. split; [by rewrite app_nil_r|]. by destruct e. }
  apply NoDup_cons in Hnd as [Hni Hnd]. destruct (Hfs face) as (f & Hf & Hid & Hv); [by left|].
  destruct (onOutgoingNack_ok cs_ok o counts None s loc e face f reason Hi Ha Hf Hv) as (s1 & e1 & E1 & Hi1 & Hf1 & Ha1 & Eo1 & Ee1 & Em1).
  unfold strategy_sendNack. rewrite E1. cbn [mbind result_bind]. assert (Eft : fw_faceTable s1 = fw_faceTable s) by apply Hf1.
  destruct (IH s1 e1 Hi1 Ha1) as (s2 & e2 & E2 & Hi2 & Hf2 & Ha2 & Eo2 & Ee2 & Em2); [rewrite Eft; intros; apply Hfs; by right|done|].
  assert (Hm1 : forall face', in_map e1 !! face' = if bool_decide (face' = face) && nackable f then None else in_map e !! face').
  { intros face'. rewrite Em1. destruct (nackable f); [|by rewrite andb_false_r]. rewrite andb_true_r. case_bool_decide as Hc; [by rewrite Hc, lookup_delete_eq|by rewrite lookup_delete_ne]. }
  exists s2, e2. split; [done|]. split; [done|]. split; [change 0 with (0 + 0); by eapply fw_frame_trans|]. split; [done|]. split; [|split].
  - rewrite Eo2, Eo1, <-app_assoc. f_equal. rewrite (nack_outputs_ext s1 e e1 reason faces Hi1); [|intros face' Hin; rewrite Hm1; rewrite bool_decide_false; [done|congruence]].
    rewrite Eft. unfold nack_outputs. cbn [mbind list_bind]. by rewrite Hf.
  - rewrite Ee2, Ee1. done.
  - intros face'. rewrite Em2, Hm1, Eft. unfold nackable_face. destruct (decide (face' = face)) as [->|Hne].
    + rewrite Hf, (bool_decide_false (face ∈ faces)), !bool_decide_true; [done|by left|done|done].
    + rewrite (bool_decide_false (face' = face)) by done. cbn [andb]. by rewrite (bool_decide_ext (face' ∈ face :: faces) (face' ∈ faces)) by (rewrite elem_of_cons; tauto).
Qed.

Lemma sendNacks_ok s loc e reason : inv None s -> waits s loc e ->
  exists s' e' faces, strategy_sendNacks loc reason [] s = Ok s' /\ inv None s' /\ fw_frame 0 s s' /\ waits s' loc e' /\
    faces ≡ₚ (in_face <$> pit_inRecords e) /\ fw_out s' = fw_out s ++ nack_outputs (fw_faceTable s) e reason faces /\
    e' = with_inRecords (pit_inRecords e') (pit_nonceList e') e /\
    forall face, in_map e' !! face = if nackable_face (fw_faceTable s) face then None else in_map e !! face.
Proof.
  intros Hi Ha. unfold strategy_sendNacks. destruct (attached_entry cs_ok o counts None s loc e Hi Ha) as (-> & Hr & Hok). cbn [mbind result_bind].
  assert (Ef : List.filter (fun f => negb (existsb (Z.eqb f) [])) (in_face <$> pit_inRecords e) = in_face <$> pit_inRecords e).
  { clear. induction (in_face <$> pit_inRecords e) as [|x l IH]; [done|]. cbn. by f_equal. }
  rewrite Ef. pose proof (unordered_perm (in_face <$> pit_inRecords e)) as Hp.
  destruct (sendNacks_loop_ok loc reason (unordered (in_face <$> pit_inRecords e)) s e Hi Ha) as (s' & e' & E & Hi' & Hfr & Ha' & Eo & Ee & Em).
  - intros f. rewrite Hp. intros (r & -> & Hin)%list_elem_of_fmap. by apply Hok.
  - rewrite Hp. apply Hr.
  - exists s', e', (unordered (in_face <$> pit_inRecords e)). do 7 (split; [done|]). intros face. rewrite Em. case_bool_decide as Hc; [done|]. cbn [andb].
    destruct (nackable_face _ _); [|done]. rewrite Hp in Hc. destruct (in_map e !! face) as [r|] eqn:Er; [|done].
    apply in_map_lookup in Er as [Hin <-]; [|done]. destruct Hc. by apply list_elem_of_fmap_2.
Qed.

(** The loop over the out-records: it counts those without a Nack, and knows one of them
    when there is any. *)
Definition not_nacked (r : OutRecord) : bool := negb (is_some (or_incomingNack r)).
Lemma summarize_snoc l r : summarize (l ++ [r]) =
  match or_incomingNack r with
  | None => mkNackSummary (nOutRecordsNotNacked (summarize l) + 1) (Some (out_face r)) (leastSevereReason (summarize l))
  | Some n => mkNackSummary (nOutRecordsNotNacked (summarize l)) (lastFaceNotNacked (summarize l))
      (if isLessSevere (NackHeader_getReason n) (leastSevereReason (summarize l)) then NackHeader_getReason n else leastSevereReason (summarize l))
  end.
Proof. unfold summarize. by rewrite foldl_app. Qed.
Lemma summarize_count l : nOutRecordsNotNacked (summarize l) = zlen (List.filter not_nacked l) /\
  lastFaceNotNacked (summarize l) = out_face <$> last (List.filter not_nacked l).
Proof.
  induction l as [|r l [IH1 IH2]] using rev_ind; [done|]. rewrite summarize_snoc, List.filter_app. cbn [List.filter].
  unfold not_nacked at 2 4. destruct (or_incomingNack r); cbn [is_some negb nOutRecordsNotNacked lastFaceNotNacked]; [by rewrite app_nil_r|].
  rewrite IH1, last_snoc. unfold zlen. rewrite length_app. cbn. split; [lia|done].
Qed.

(** The reason that is passed on: none is less severe. *)
Definition nack_reasons (l : list OutRecord) : list Z := omap (fun r => NackHeader_getReason <$> or_incomingNack r) l.
Lemma summarize_reason l : (leastSevereReason (summarize l) = NackReason_NONE \/ leastSevereReason (summarize l) ∈ nack_reasons l) /\
  forall reason, reason ∈ nack_reasons l -> isLessSevere reason (leastSevereReason (summarize l)) = false.
Proof.
  induction l as [|r l [IH1 IH2]] using rev_ind; [split; [by left|by intros ? ?%not_elem_of_nil]|]. rewrite summarize_snoc. unfold nack_reasons in *. rewrite omap_app.
  cbn [omap list_omap]. destruct (or_incomingNack r) as [n|]; cbn [fmap option_fmap option_map leastSevereReason]; [|by rewrite app_nil_r].
  set (x := NackHeader_getReason n) in *. set (y := leastSevereReason (summarize l)) in *. destruct (isLessSevere x y) eqn:E.
  - split; [right; rewrite elem_of_app, elem_of_cons; auto|]. intros z. rewrite elem_of_app, list_elem_of_singleton. intros [Hz| ->].
    + specialize (IH2 z Hz). revert E IH2. unfold isLessSevere, NackReason_NONE. repeat case_match; zbool; lia || done.
    + unfold isLessSevere. repeat case_match; zbool; lia || done.
  - split; [destruct IH1; [by left|right; rewrite elem_of_app; auto]|]. intros z. rewrite elem_of_app, list_elem_of_singleton. intros [Hz| ->]; [by apply IH2|done].
Qed.

(** What a Nack from an upstream makes of the downstreams: when all upstreams have
    nacked, all downstreams get the least severe reason; when one has not, and it is a
    downstream as well, that one gets it; otherwise the entry waits on. *)
Inductive nack_outcome (t : FaceTable) (e : pit_Entry) (reason : Z) : list fw_output -> Prop :=
  | nack_all faces : List.filter not_nacked (pit_outRecords e) = [] -> faces ≡ₚ (in_face <$> pit_inRecords e) ->
      nack_outcome t e reason (nack_outputs t e reason faces)
  | nack_one r : List.filter not_nacked (pit_outRecords e) = [r] -> is_Some (in_map e !! out_face r) ->
      nack_outcome t e reason (nack_outputs t e reason [out_face r])
  | nack_wait : List.filter not_nacked (pit_outRecords e) <> [] ->
      (forall r, List.filter not_nacked (pit_outRecords e) = [r] -> in_map e !! out_face r = None) -> nack_outcome t e reason [].

Lemma processNack_ok s loc e : inv None s -> waits s loc e ->
  exists s' e' out reason, processNack loc s = Ok s' /\ inv None s' /\ fw_frame 0 s s' /\ waits s' loc e' /\
    fw_out s' = fw_out s ++ out /\ nack_outcome (fw_faceTable s) e reason out /\
    (reason = NackReason_NONE \/ reason ∈ nack_reasons (pit_outRecords e)) /\
    (forall reason', reason' ∈ nack_reasons (pit_outRecords e) -> isLessSevere reason' reason = false) /\
    e' = with_inRecords (pit_inRecords e') (pit_nonceList e') e.
Proof.
  intros Hi Ha. unfold processNack. destruct (attached_entry cs_ok o counts None s loc e Hi Ha) as (-> & Hrec & Hok). cbn [mbind result_bind].
  destruct (summarize_count (pit_outRecords e)) as [En El]. destruct (summarize_reason (pit_outRecords e)) as [Hr1 Hr2]. rewrite El, En.
  set (reason := leastSevereReason _) in *. set (l := List.filter not_nacked (pit_outRecords e)) in *.
  assert (Hwait : l <> [] -> (forall r, l = [r] -> in_map e !! out_face r = None) -> exists s' e' out reason, Ok s = Ok s' /\ inv None s' /\ fw_frame 0 s s' /\ waits s' loc e' /\
    fw_out s' = fw_out s ++ out /\ nack_outcome (fw_faceTable s) e reason out /\ (reason = NackReason_NONE \/ reason ∈ nack_reasons (pit_outRecords e)) /\
    (forall reason', reason' ∈ nack_reasons (pit_outRecords e) -> isLessSevere reason' reason = false) /\ e' = with_inRecords (pit_inRecords e') (pit_nonceList e') e).
  { intros Hne Hone. exists s, e, [], reason. split; [done|]. split; [done|]. split; [apply fw_frame_refl|]. split; [done|]. rewrite app_nil_r. split; [done|].
    split; [by apply nack_wait|]. split; [done|]. split; [done|]. by destruct e. }
  destruct l as [|r [|r2 l2]] eqn:Efl; cbn [last]; [| |rewrite (proj2 (Z.eqb_neq _ 1)) by (unfold zlen; cbn; lia)].
  - cbn [zlen length Z.of_nat Z.eqb mbind result_bind]. destruct (sendNacks_ok s loc e reason Hi Ha) as (s' & e' & faces & E & Hi' & Hfr & Ha' & Hp & Eo & Ee & _).
    exists s', e', (nack_outputs (fw_faceTable s) e reason faces), reason. do 4 (split; [done|]). split; [done|]. split; [by apply nack_all|]. done.
  - cbn [zlen length Z.of_nat Pos.of_succ_nat Z.eqb Pos.eqb fmap option_fmap option_map mbind result_bind]. unfold getInRecord. rewrite (rec_find in_face). fold (in_map e).
    destruct (in_map e !! out_face r) as [ir|] eqn:Ei; [|apply Hwait; [done|]; by intros ? [= <-]].
    pose proof Ei as [Hin Hif]%in_map_lookup; [|done]. destruct (eo_faces _ _ _ Hok ir Hin) as (f & Hf & Hid & Hv). rewrite Hif in Hf.
    destruct (onOutgoingNack_ok cs_ok o counts None s loc e (out_face r) f reason Hi Ha Hf Hv) as (s1 & e1 & E1 & Hi1 & Hf1 & Ha1 & Eo1 & Ee1 & _).
    exists s1, e1, (nack_outputs (fw_faceTable s) e reason [out_face r]), reason. do 4 (split; [done|]).
    split; [rewrite Eo1; unfold nack_outputs; cbn [mbind list_bind]; by rewrite Hf, app_nil_r|]. split; [|done]. apply nack_one; [done|by rewrite Ei].
  - cbn [mbind result_bind]. rewrite (proj2 (Z.ltb_lt 0 _)) by (unfold zlen; cbn; lia). by apply Hwait.
Qed.
Lemma processNack_safe s loc e : inv None s -> waits s loc e -> safe None 0 s (processNack loc s).
Proof. intros Hi Ha. destruct (processNack_ok s loc e Hi Ha) as (s' & e' & out & reason & E & Hi' & Hf & _). by exists s'. Qed.

(** ** Best route *)

(** Whether a next hop may be used: not back to where the Interest came from unless the
    link is ad hoc, not out of its scope, and if wanted only where nothing is pending. *)
Definition eligible (t : FaceTable) (fin : Face) (i : Interest) (e : pit_Entry) (wantUnused : bool) (now : Z) (nh : NextHop) : bool :=
  match ft_get (nh_face nh) t with
  | Some f => (negb (nh_face nh =? face_id fin) || bool_decide (face_linkType f = LINK_TYPE_AD_HOC)) && negb (wouldViolateScope fin i f) &&
      (negb wantUnused || match out_map e !! nh_face nh with Some r => fr_expiry (or_record r) <=? now | None => true end)
  | None => false
  end.
Lemma eligible_ok t fin i e wantUnused now nh f : ft_get (nh_face nh) t = Some f -> face_id f = nh_face nh ->
  isNextHopEligible fin i f e wantUnused now = eligible t fin i e wantUnused now nh.
Proof.
  intros Hf Hid. unfold isNextHopEligible, eligible. rewrite Hf, Hid. unfold getOutRecord. rewrite (rec_find out_face). fold (out_map e).
  destruct (nh_face nh =? face_id fin), (bool_decide _), (wouldViolateScope fin i f), wantUnused; try done; cbn;
    (destruct (out_map e !! nh_face nh) as [r|]; [by rewrite Z.leb_antisym|done]).
Qed.

Lemma find_eligible_ok s fin i e wantUnused now hops : (forall nh, nh ∈ hops -> known (fw_faceTable s) (nh_face nh)) ->
  find_eligible fin i e wantUnused now hops s = Ok (nh_face <$> List.find (eligible (fw_faceTable s) fin i e wantUnused now) hops).
Proof.
  induction hops as [|nh hops IH]; intros Hh; [done|]. cbn [find_eligible List.find]. destruct (Hh nh) as (f & Hf & Hid & _); [by left|].
  unfold get_face. rewrite Hf. cbn [mbind result_bind]. rewrite (eligible_ok _ fin i e wantUnused now nh f Hf Hid). destruct (eligible _ _ _ _ _ _ nh); [done|]. apply IH. intros; apply Hh; by right.
Qed.

(** The first eligible next hop is the cheapest. *)
Definition cheapest (p : NextHop -> bool) (hops : list NextHop) (nh : NextHop) : Prop :=
  nh ∈ hops /\ p nh = true /\ forall nh', nh' ∈ hops -> p nh' = true -> nh_cost nh <= nh_cost nh'.
Definition none_of (p : NextHop -> bool) (hops : list NextHop) : Prop := forall nh, nh ∈ hops -> p nh = false.
Lemma find_cheapest p hops : StronglySorted (fun a b => nh_cost a <= nh_cost b) hops ->
  match List.find p hops with Some nh => cheapest p hops nh | None => none_of p hops end.
Proof.
  induction 1 as [|nh hops Hs IH Hall]; cbn [List.find]; [by intros nh ?%not_elem_of_nil|]. destruct (p nh) eqn:Ep.
  - split; [by left|]. split; [done|]. intros nh' [->|Hin]%elem_of_cons _; [lia|]. rewrite Forall_forall in Hall. by apply Hall.
  - destruct (List.find p hops) as [x|].
    + destruct IH as (Hx & Hpx & Hmin). split; [by right|]. split; [done|]. intros nh' [->|Hin]%elem_of_cons Hp; [congruence|by apply Hmin].
    + intros nh' [->|Hin]%elem_of_cons; [done|by apply IH].
Qed.
Lemma nexthops_sorted busy s r hops : inv busy s -> nexthops_at r s = Ok hops -> StronglySorted (fun a b => nh_cost a <= nh_cost b) hops.
Proof.
  intros Hi. pose proof (fv_tables _ _ _ _ _ Hi) as Ht. destruct r as [x|]; cbn [nexthops_at]; [|intros [= <-]; constructor]. unfold fib_entry_at, deref.
  destruct (ht_nodes (t_nameTree (fw_tables s)) !! x) as [n|] eqn:En; [|done]. cbn [mbind result_bind]. destruct (tb_fib (nd_tables n)) as [e|] eqn:Ee; [|done].
  cbn [mbind result_bind]. intros [= <-]. apply (fi_entries _ _ _ (ti_fib _ _ _ _ Ht) (nd_name n) e).
  eapply (fib_at_view o counts _ x); [apply (ni_table _ _ _ (fi_tree _ _ _ (ti_fib _ _ _ _ Ht)))|]. by exists n.
Qed.

(** When no next hop is unused, every eligible one has an out-record. *)
Lemma unused_none_out t fin i e now hops nh : (forall nh, nh ∈ hops -> known t (nh_face nh)) -> records_ok e ->
  none_of (eligible t fin i e true now) hops -> nh ∈ hops -> eligible t fin i e false TimePoint_min nh = true ->
  exists r, out_map e !! nh_face nh = Some r /\ now < fr_expiry (or_record r).
Proof.
  intros Hh Hr Hn Hin He. pose proof (Hn nh Hin) as Hu. unfold eligible in *. destruct (ft_get (nh_face nh) t) as [f|]; [|done].
  apply andb_prop in He as [He _]. rewrite He in Hu. cbn in Hu. destruct (out_map e !! nh_face nh) as [r|]; [|done]. exists r. by zbool.
Qed.

(** The eligible next hop whose out-record is the oldest. *)
Definition renewed (e : pit_Entry) (face : Z) : Z := match out_map e !! face with Some r => fr_lastRenewed (or_record r) | None => TimePoint_max end.
Lemma find_earliest_ok s fin i e hops : forall found earliest,
  (forall nh, nh ∈ hops -> known (fw_faceTable s) (nh_face nh)) ->
  (forall nh, nh ∈ hops -> eligible (fw_faceTable s) fin i e false TimePoint_min nh = true -> is_Some (out_map e !! nh_face nh)) ->
  exists r, find_earliest fin i e hops found earliest s = Ok r /\
    ((r = found /\ forall nh, nh ∈ hops -> eligible (fw_faceTable s) fin i e false TimePoint_min nh = true -> earliest <= renewed e (nh_face nh)) \/
     exists nh, r = Some (nh_face nh) /\ nh ∈ hops /\ eligible (fw_faceTable s) fin i e false TimePoint_min nh = true /\ renewed e (nh_face nh) < earliest /\
       forall nh', nh' ∈ hops -> eligible (fw_faceTable s) fin i e false TimePoint_min nh' = true -> renewed e (nh_face nh) <= renewed e (nh_face nh')).
Proof.
  induction hops as [|nh hops IH]; intros found earliest Hh Ho; cbn [find_earliest].
  { exists found. split; [done|]. left. split; [done|]. by intros ? ?%not_elem_of_nil. }
  destruct (Hh nh) as (f & Hf & Hid & _); [by left|]. unfold get_face. rewrite Hf. cbn [mbind result_bind]. rewrite (eligible_ok _ fin i e false TimePoint_min nh f Hf Hid).
  assert (Hh' : forall nh, nh ∈ hops -> known (fw_faceTable s) (nh_face nh)) by (intros; apply Hh; by right).
  assert (Ho' : forall nh, nh ∈ hops -> eligible (fw_faceTable s) fin i e false TimePoint_min nh = true -> is_Some (out_map e !! nh_face nh)) by (intros; apply Ho; [by right|done]).
  destruct (eligible _ fin i e false TimePoint_min nh) eqn:El; cbn [negb].
  2:{ destruct (IH found earliest Hh' Ho') as (r & Er & Hr). exists r. split; [done|]. destruct Hr as [[-> Hr]|(n & -> & Hn & Hel & Hlt & Hr)].
    - left. split; [done|]. intros n [->|Hn]%elem_of_cons Hel; [congruence|by apply Hr].
    - right. exists n. split; [done|]. split; [by right|]. split; [done|]. split; [done|]. intros n' [->|Hn']%elem_of_cons Hel'; [congruence|by apply Hr]. }
  destruct (Ho nh) as [ro Hro]; [by left|done|]. unfold getOutRecord. rewrite (rec_find out_face). fold (out_map e). rewrite Hro.
  assert (Er : fr_lastRenewed (or_record ro) = renewed e (nh_face nh)) by (unfold renewed; by rewrite Hro). rewrite Er.
  destruct (_ <? earliest) eqn:Elt; zbool.
  - destruct (IH (Some (nh_face nh)) (renewed e (nh_face nh)) Hh' Ho') as (r & E & Hr). exists r. split; [done|]. right. destruct Hr as [[-> Hr]|(n & -> & Hn & Hel & Hlt & Hr)].
    + exists nh. split; [done|]. split; [by left|]. split; [done|]. split; [done|]. intros n' [->|Hn']%elem_of_cons Hel'; [lia|by apply Hr].
    + exists n. split; [done|]. split; [by right|]. split; [done|]. split; [lia|]. intros n' [->|Hn']%elem_of_cons Hel'; [lia|by apply Hr].
  - destruct (IH found earliest Hh' Ho') as (r & E & Hr). exists r. split; [done|]. destruct Hr as [[-> Hr]|(n & -> & Hn & Hel & Hlt & Hr)].
    + left. split; [done|]. intros n [->|Hn]%elem_of_cons Hel; [lia|by apply Hr].
    + right. exists n. split; [done|]. split; [by right|]. split; [done|]. split; [done|]. intros n' [->|Hn']%elem_of_cons Hel'; [lia|by apply Hr].
Qed.

(** What the entry holds besides its FIB-relevant part does not change the next hops. *)
Lemma lookupFib_store s loc e e' : waits s loc e -> pit_interest e' = pit_interest e -> pit_nte e' = pit_nte e ->
  let s1 := with_tables (pit_store loc e' (fw_tables s)) s in
  lookupFib loc s1 = lookupFib loc s /\ forall r, nexthops_at r s1 = nexthops_at r s.
Proof.
  intros [He _] Ei En s1. assert (Hh : forall r, nexthops_at r s1 = nexthops_at r s) by (by intros []). split; [|done].
  unfold lookupFib, entry_at, pit_deref. cbn [fw_tables with_tables pit_store with_pit pit_entries s1]. rewrite lookup_insert_eq, He. cbn [mbind result_bind].
  unfold fib_findLongestPrefixMatch_pit. rewrite Ei, En. destruct (bool_decide _); [done|]. cbn [fw_networkRegionTable with_tables]. destruct (isInProducerRegion _ _); [done|].
  cbn [negb]. generalize (@None (option nat)). induction (dl_dels (i_forwardingHint (pit_interest e))) as [|del dels IH]; intros last; [done|]. cbn [lookupFib_loop].
  change (fib_findLongestPrefixMatch (del_name del) (fw_tables s1)) with (fib_findLongestPrefixMatch (del_name del) (fw_tables s)).
  destruct (fib_findLongestPrefixMatch _ _) as [r|]; [|done]. cbn [mbind result_bind]. rewrite Hh. destruct (nexthops_at r s); [|done]. cbn [mbind result_bind].
  case_bool_decide; [|done]. cbn [negb]. change (prefix_size_at r s1) with (prefix_size_at r s). destruct (prefix_size_at r s); [|done]. cbn [mbind result_bind]. destruct (_ =? _)%nat; [apply IH|done].
Qed.

(** What leaves, and the suppression interval afterwards. *)
Inductive best_route (t : FaceTable) (fin : Face) (i : Interest) (e : pit_Entry) (now : Z) (hops : list NextHop) : list fw_output -> Z -> Prop :=
  | br_new nh f : hasPendingOutRecords now e = false -> cheapest (eligible t fin i e false TimePoint_min) hops nh ->
      ft_get (nh_face nh) t = Some f -> best_route t fin i e now hops [interest_output f i] (interval_of (pit_info e))
  | br_no_route : hasPendingOutRecords now e = false -> none_of (eligible t fin i e false TimePoint_min) hops ->
      best_route t fin i e now hops (nack_output fin e NackReason_NO_ROUTE) (interval_of (pit_info e))
  | br_suppressed r : hasPendingOutRecords now e = true -> r ∈ pit_outRecords e ->
      now - fr_lastRenewed (or_record r) < interval_of (pit_info e) * 1000 -> best_route t fin i e now hops [] (interval_of (pit_info e))
  | br_retransmit out : hasPendingOutRecords now e = true ->
      (forall r, r ∈ pit_outRecords e -> interval_of (pit_info e) * 1000 <= now - fr_lastRenewed (or_record r)) ->
      retransmit t fin i e now hops out -> best_route t fin i e now hops out (Z.min 250000 (2 * interval_of (pit_info e)))
with retransmit (t : FaceTable) (fin : Face) (i : Interest) (e : pit_Entry) (now : Z) (hops : list NextHop) : list fw_output -> Prop :=
  | rt_unused nh f : cheapest (eligible t fin i e true now) hops nh -> ft_get (nh_face nh) t = Some f ->
      retransmit t fin i e now hops [interest_output f i]
  | rt_retry nh f : none_of (eligible t fin i e true now) hops -> nh ∈ hops -> eligible t fin i e false TimePoint_min nh = true ->
      (forall nh', nh' ∈ hops -> eligible t fin i e false TimePoint_min nh' = true -> renewed e (nh_face nh) <= renewed e (nh_face nh')) ->
      ft_get (nh_face nh) t = Some f -> retransmit t fin i e now hops [interest_output f i]
  | rt_none : none_of (eligible t fin i e false TimePoint_min) hops -> retransmit t fin i e now hops [].

(** Setting the stored interval. *)
Lemma info_store_ok s loc e h : inv None s -> waits s loc e -> info_ok h ->
  let s1 := with_tables (pit_store loc (pit_with_info h e) (fw_tables s)) s in
  entry_modify loc (fun _ => Ok (pit_with_info h e)) s = Ok s1 /\ inv None s1 /\ fw_frame 0 s s1 /\ waits s1 loc (pit_with_info h e).
Proof.
  intros Hi Ha Hh. destruct (attached_entry cs_ok o counts None s loc e Hi Ha) as (_ & Hrec & Hok).
  apply (entry_modify_ok cs_ok o counts None s loc e (pit_with_info h e)); try done; [by destruct Hrec|by destruct Hok].
Qed.

(** Sending an Interest as the last step. *)
Lemma send_last now s loc e outFace i : inv None s -> waits s loc e -> pit_key e = interest_key i -> sel_fine (i_selectors i) -> expiry_of now i < 2 ^ 63 ->
  known (fw_faceTable s) outFace -> exists f s' e', ft_get outFace (fw_faceTable s) = Some f /\ strategy_sendInterest now loc outFace i s = Ok s' /\
    inv None s' /\ fw_frame 0 s s' /\ fw_out s' = fw_out s ++ [interest_output f i] /\ waits s' loc e' /\ pit_info e' = pit_info e.
Proof.
  intros Hi Ha Hk Hs Hx (f & Hf & _ & Hv). destruct (onOutgoingInterest_ok cs_ok o counts now s loc e outFace f i Hi Ha Hk Hs Hx Hf Hv)
    as (s' & e' & E & Hi' & Hfr & Eo & Ha' & Ee & _). exists f, s', e'. do 6 (split; [done|]). by rewrite Ee.
Qed.

Lemma no_route_ok now s loc e inFace f : inv None s -> waits s loc e -> ft_get inFace (fw_faceTable s) = Some f -> isValNetFace f = false ->
  exists s1 s' e' id, strategy_sendNack loc inFace NackReason_NO_ROUTE s = Ok s1 /\ rejectPendingInterest now loc s1 = Ok s' /\ inv None s' /\ fw_frame 0 s s' /\
    fw_out s' = fw_out s ++ nack_output f e NackReason_NO_ROUTE /\ waits s' loc e' /\ pit_info e' = pit_info e /\
    mkEvent id now (PitExpiry loc) ∈ m_queue (t_timers (fw_tables s')).
Proof.
  intros Hi Ha Hf Hv. destruct (onOutgoingNack_ok cs_ok o counts None s loc e inFace f NackReason_NO_ROUTE Hi Ha Hf Hv) as (s1 & e1 & E1 & Hi1 & Hf1 & Ha1 & Eo1 & Ee1 & _).
  destruct (setExpiryTimer_ok cs_ok o counts None s1 loc e1 now 0 Hi1 Ha1) as (s' & id & E & Hi' & Hfr & Ha' & Es & _ & Hev); [by left|done|].
  exists s1, s', (with_timer (Some id) e1), id. split; [done|]. split; [done|]. split; [done|]. split; [change 0 with (0 + 0); by eapply fw_frame_trans|].
  split; [by rewrite Es|]. split; [done|]. split; [by rewrite Ee1|]. unfold ms in Hev. by rewrite Z.mul_0_l, Z.add_0_r in Hev.
Qed.

Lemma retransmit_ok now s loc e fin i hops : inv None s -> waits s loc e -> pit_key e = interest_key i -> sel_fine (i_selectors i) -> expiry_of now i < 2 ^ 63 ->
  (forall nh, nh ∈ hops -> known (fw_faceTable s) (nh_face nh)) -> StronglySorted (fun a b => nh_cost a <= nh_cost b) hops ->
  (forall r, r ∈ pit_outRecords e -> 0 < now - fr_lastRenewed (or_record r)) ->
  exists s' e' out, (let* it := find_eligible fin i e true now hops s in
    match (it : option Z) with
    | Some outFace => strategy_sendInterest now loc outFace i s
    | None =>
      let* it := findEligibleNextHopWithEarliestOutRecord fin i hops e s in
      match (it : option Z) with
      | None => Ok s
      | Some outFace => strategy_sendInterest now loc outFace i s
      end
    end) = Ok s' /\ inv None s' /\ fw_frame 0 s s' /\ waits s' loc e' /\ pit_info e' = pit_info e /\ fw_out s' = fw_out s ++ out /\
    retransmit (fw_faceTable s) fin i e now hops out.
Proof.
  intros Hi Ha Hk Hs Hx Hh Hsort Hl. destruct (attached_entry cs_ok o counts None s loc e Hi Ha) as (_ & Hrec & _). rewrite find_eligible_ok by done. cbn [mbind result_bind].
  pose proof (find_cheapest (eligible (fw_faceTable s) fin i e true now) hops Hsort) as Efind. destruct (List.find _ hops) as [nh|]; cbn [fmap option_fmap option_map].
  { pose proof (proj1 Efind) as Hin.
    destruct (send_last now s loc e (nh_face nh) i Hi Ha Hk Hs Hx (Hh nh Hin)) as (f & s' & e' & Hf & E & Hi' & Hfr & Eo & Ha' & Ei).
    exists s', e', [interest_output f i]. do 6 (split; [done|]). by eapply rt_unused. }
  unfold findEligibleNextHopWithEarliestOutRecord. destruct (find_earliest_ok s fin i e hops None TimePoint_max Hh) as (it & -> & Hit).
  { intros nh Hin Hel. destruct (unused_none_out (fw_faceTable s) fin i e now hops nh Hh Hrec Efind Hin Hel) as (r & Hr & _). by exists r. }
  cbn [mbind result_bind]. destruct Hit as [[-> Hnone]|(nh & -> & Hin & Hel & _ & Hmin)].
  - exists s, e, []. split; [done|]. split; [done|]. split; [apply fw_frame_refl|]. rewrite app_nil_r. do 3 (split; [done|]). apply rt_none. intros nh Hin.
    destruct (eligible _ _ _ _ _ _ nh) eqn:Hel; [|done]. specialize (Hnone nh Hin Hel).
    destruct (unused_none_out (fw_faceTable s) fin i e now hops nh Hh Hrec Efind Hin Hel) as (r & Hr & _). unfold renewed in Hnone. rewrite Hr in Hnone.
    apply out_map_lookup in Hr as [Hr _]; [|done]. specialize (Hl r Hr). unfold TimePoint_max, expiry_of, DEFAULT_INTEREST_LIFETIME in *.
    destruct (i_interestLifetime i <? 0) eqn:Elt; zbool; lia.
  - destruct (send_last now s loc e (nh_face nh) i Hi Ha Hk Hs Hx (Hh nh Hin)) as (f & s' & e' & Hf & E & Hi' & Hfr & Eo & Ha' & Ei).
    exists s', e', [interest_output f i]. do 6 (split; [done|]). by eapply rt_retry.
Qed.

Lemma br2_interest_ok now s loc e inFace fin i : inv None s -> waits s loc e -> pit_key e = interest_key i -> sel_fine (i_selectors i) -> expiry_of now i < 2 ^ 63 ->
  ft_get inFace (fw_faceTable s) = Some fin -> isValNetFace fin = false ->
  exists r hops s' e' out, lookupFib loc s = Ok r /\ nexthops_at r s = Ok hops /\ br2_afterReceiveInterest now inFace i loc s = Ok s' /\ inv None s' /\
    fw_frame 0 s s' /\ waits s' loc e' /\ fw_out s' = fw_out s ++ out /\ best_route (fw_faceTable s) fin i e now hops out (interval_of (pit_info e')) /\
    (hasPendingOutRecords now e = false -> none_of (eligible (fw_faceTable s) fin i e false TimePoint_min) hops ->
     exists id, mkEvent id now (PitExpiry loc) ∈ m_queue (t_timers (fw_tables s'))).
Proof.
  intros Hi Ha Hk Hs Hx Hf Hv. destruct (attached_entry cs_ok o counts None s loc e Hi Ha) as (Ee & Hrec & Hok).
  destruct (lookupFib_ok cs_ok o counts None s loc e Hi Ha) as (r & Er & hops & Eh & Hh). exists r, hops. pose proof (nexthops_sorted None s r hops Hi Eh) as Hsort.
  unfold br2_afterReceiveInterest, get_face. rewrite Hf, Ee. cbn [mbind result_bind].
  destruct (decidePerPitEntry_ok now e (eo_info _ _ _ Hok)) as (res & h & -> & Hh' & Hres). cbn [mbind result_bind].
  destruct (info_store_ok s loc e h Hi Ha Hh') as (-> & Hi1 & Hf1 & Ha1). cbn [mbind result_bind].
  destruct (lookupFib_store s loc e (pit_with_info h e) Ha eq_refl eq_refl) as [El En]. set (s1 := with_tables _ s) in *.
  assert (Hh1 : forall nh, nh ∈ hops -> known (fw_faceTable s1) (nh_face nh)) by done.
  destruct res; repeat (destruct (decide _); [try discriminate|try congruence]); rewrite ?El, ?Er; cbn [mbind result_bind]; rewrite ?En, ?Eh; cbn [mbind result_bind].
  - destruct Hres as [Hp ->]. rewrite find_eligible_ok by done. cbn [mbind result_bind].
    change (List.find (eligible (fw_faceTable s1) fin i (pit_with_info (pit_info e) e) false TimePoint_min) hops)
      with (List.find (eligible (fw_faceTable s) fin i e false TimePoint_min) hops).
    pose proof (find_cheapest (eligible (fw_faceTable s) fin i e false TimePoint_min) hops Hsort) as Efind.
    destruct (List.find _ hops) as [nh|]; cbn [fmap option_fmap option_map].
    + pose proof (proj1 Efind) as Hin.
      destruct (send_last now s1 loc _ (nh_face nh) i Hi1 Ha1 Hk Hs Hx (Hh1 nh Hin)) as (f & s' & e' & Hff & E & Hi' & Hfr & Eo & Ha' & Ei).
      exists s', e', [interest_output f i]. do 4 (split; [done|]). split; [change 0 with (0 + 0); by eapply fw_frame_trans|]. do 2 (split; [done|]).
      split; [rewrite Ei; cbn [pit_info pit_with_info]; by eapply br_new|]. intros _ Hn. pose proof (Hn nh Hin) as Hn'. destruct Efind as (_ & Hy & _). congruence.
    + destruct (no_route_ok now s1 loc _ inFace fin Hi1 Ha1 Hf Hv) as (s2 & s' & e' & id & E1 & E2 & Hi' & Hfr & Eo & Ha' & Ei & Hev).
      exists s', e', (nack_output fin e NackReason_NO_ROUTE). do 2 (split; [done|]). rewrite E1. cbn [mbind result_bind]. do 2 (split; [done|]).
      split; [change 0 with (0 + 0); by eapply fw_frame_trans|]. do 2 (split; [done|]). split; [rewrite Ei; cbn [pit_info pit_with_info]; by apply br_no_route|]. intros _ _. by exists id.
  - destruct Hres as (Hp & Eint & Hpast).
    destruct (retransmit_ok now s1 loc (pit_with_info h e) fin i hops Hi1 Ha1 Hk Hs Hx Hh1 Hsort) as (s' & e' & out & E & Hi' & Hfr & Ha' & Ei & Eo & Hrt).
    { intros r0 Hr0. specialize (Hpast r0 Hr0). pose proof (retx_intervals_range _ (eo_info _ _ _ Hok)). lia. }
    exists s', e', out. do 4 (split; [done|]). split; [change 0 with (0 + 0); by eapply fw_frame_trans|]. do 2 (split; [done|]). split; [|congruence].
    rewrite Ei. cbn [pit_info pit_with_info]. rewrite Eint. apply br_retransmit; [done|done|]. by destruct Hrt; [eapply rt_unused|eapply rt_retry|eapply rt_none].
  - destruct Hres as (Hp & Eint & r0 & Hr0 & Hlt). exists s1, (pit_with_info h e), []. rewrite app_nil_r. do 4 (split; [done|]). do 3 (split; [done|]). split; [|congruence].
    cbn [pit_info pit_with_info]. rewrite Eint. by apply (br_suppressed _ _ _ _ _ _ r0).
Qed.

Lemma br2_interest_safe now s loc e inFace i : inv None s -> waits s loc e -> pit_key e = interest_key i -> sel_fine (i_selectors i) -> expiry_of now i < 2 ^ 63 ->
  known (fw_faceTable s) inFace -> safe None 0 s (br2_afterReceiveInterest now inFace i loc s).
Proof.
  intros Hi Ha Hk Hs Hx (fin & Hf & _ & Hv). destruct (br2_interest_ok now s loc e inFace fin i Hi Ha Hk Hs Hx Hf Hv) as (? & ? & s' & ? & ? & _ & _ & E & Hi' & Hfr & _).
  by exists s'.
Qed.

(** *** The original strategy *)
Lemma br_find_ok s now fin i e hops : (forall nh, nh ∈ hops -> known (fw_faceTable s) (nh_face nh)) ->
  exists r, br_find now fin i e hops s = Ok r /\ forall face, r = Some face -> known (fw_faceTable s) face.
Proof.
  induction hops as [|nh hops IH]; intros Hh; cbn [br_find]; [by exists None|]. destruct (Hh nh) as (f & Hf & Hid & Hv); [by left|].
  unfold get_face. rewrite Hf. cbn [mbind result_bind]. destruct (_ && _); [|apply IH; intros; apply Hh; by right].
  exists (Some (nh_face nh)). split; [done|]. intros ? [= <-]. by exists f.
Qed.
Lemma br_interest_safe now s loc e inFace i : inv None s -> waits s loc e -> pit_key e = interest_key i -> sel_fine (i_selectors i) -> expiry_of now i < 2 ^ 63 ->
  known (fw_faceTable s) inFace -> safe None 0 s (br_afterReceiveInterest now inFace i loc s).
Proof.
  intros Hi Ha Hk Hs Hx Hf. unfold br_afterReceiveInterest. destruct (get_face_ok cs_ok o counts None s inFace Hi Hf) as (fin & -> & _ & _). cbn [mbind result_bind].
  destruct (attached_entry cs_ok o counts None s loc e Hi Ha) as (-> & _ & _). cbn [mbind result_bind]. destruct (hasPendingOutRecords now e); [by apply safe_Ok|].
  destruct (lookupFib_ok cs_ok o counts None s loc e Hi Ha) as (r & -> & hops & Eh & Hh). cbn [mbind result_bind]. rewrite Eh. cbn [mbind result_bind].
  destruct (br_find_ok s now fin i e hops Hh) as (r' & -> & Hr'). cbn [mbind result_bind].
  destruct r' as [outFace|]; [|by eapply setExpiryTimer_safe; eauto]. eapply onOutgoingInterest_safe; eauto.
Qed.

(** ** Multicast *)

(** Changing the out-records of an entry. *)
Lemma out_store_ok s loc e e' f : inv None s -> waits s loc e -> f e = Ok e' -> e' = with_outRecords (pit_outRecords e') e -> records_ok e' -> outs_ok e' ->
  let s1 := with_tables (pit_store loc e' (fw_tables s)) s in
  entry_modify loc f s = Ok s1 /\ inv None s1 /\ fw_frame 0 s s1 /\ waits s1 loc e'.
Proof.
  intros Hi Ha E Ee Hrec Ho. destruct (attached_entry cs_ok o counts None s loc e Hi Ha) as (_ & _ & Hok).
  apply (entry_modify_ok cs_ok o counts None s loc e e' f Hi Ha E); try (by rewrite Ee); [done|]. destruct Hok. by split; try (by rewrite Ee).
Qed.

(** When an upstream was last used, and its interval. *)
Definition upstream (e : pit_Entry) (face : Z) : option (Z * Z) :=
  (fun r => (fr_lastRenewed (or_record r), interval_of (fr_info (or_record r)))) <$> out_map e !! face.
Definition suppressed (now : Z) (e : pit_Entry) (face : Z) : bool :=
  match upstream e face with Some (t, v) => now - t <? v * 1000 | None => false end.

(** The faces that get the Interest; a face that occurs twice gets it once. *)
Fixpoint mc_targets (t : FaceTable) (fin : Face) (i : Interest) (e : pit_Entry) (now : Z) (sent : list Z) (hops : list NextHop) : list Face :=
  match hops with
  | [] => []
  | nh :: hops =>
    match ft_get (nh_face nh) t with
    | None => mc_targets t fin i e now sent hops
    | Some f =>
      if bool_decide (nh_face nh ∈ sent) || suppressed now e (nh_face nh) || wouldViolateScope fin i f then mc_targets t fin i e now sent hops
      else f :: mc_targets t fin i e now (nh_face nh :: sent) hops
    end
  end.

(** The entry as the loop has left it: faces that were sent to were used just now, the
    others are as at the start. *)
Definition mc_rel (now : Z) (e : pit_Entry) (sent : list Z) (e' : pit_Entry) : Prop :=
  forall face, if bool_decide (face ∈ sent) then exists v, upstream e' face = Some (now, v) /\ 0 < v else upstream e' face = upstream e face.

Lemma mc_rel_suppressed now e sent e' face : mc_rel now e sent e' -> suppressed now e' face = bool_decide (face ∈ sent) || suppressed now e face.
Proof.
  intros Hr. specialize (Hr face). unfold suppressed. case_bool_decide; cbn [orb]; [|by rewrite Hr].
  destruct Hr as (v & -> & Hv). rewrite Z.sub_diag. by apply Z.ltb_lt; lia.
Qed.

(** The decision for one upstream leaves its interval in the record. *)
Lemma mc_decide now s loc e face : inv None s -> waits s loc e ->
  exists res e', decidePerUpstream strategyRetx now face e = (res, e') /\ (pit_key e' = pit_key e /\ pit_inRecords e' = pit_inRecords e) /\
    (let s1 := with_tables (pit_store loc e' (fw_tables s)) s in entry_modify loc (fun _ => Ok e') s = Ok s1 /\ inv None s1 /\ fw_frame 0 s s1 /\ waits s1 loc e') /\
    (forall k, upstream e' k = upstream e k) /\
    match res with NEW => out_map e' !! face = None | SUPPRESS => suppressed now e face = true | FORWARD => suppressed now e face = false end /\
    (res = NEW -> suppressed now e face = false).
Proof.
  intros Hi Ha. destruct (attached_entry cs_ok o counts None s loc e Hi Ha) as (_ & Hrec & Hok).
  destruct (decidePerUpstream_ok now face e Hrec (eo_outInfo _ _ _ Hok)) as (res & f & E & Hf & Ho & Hint & Hres).
  assert (Hff : forall r, out_face r = face -> out_face (f r) = face) by (intros r Hr; destruct (Hf r) as [Hr' _]; unfold out_face in *; by rewrite Hr').
  assert (Hup : forall k, upstream (update_out face f e) k = upstream e k).
  { intros k. unfold upstream. rewrite (update_out_lookup face f e k Hff). destruct (k =? face) eqn:Ek; zbool; [subst k|done].
    destruct (out_map e !! face) as [r|] eqn:Er; [|done]. cbn. rewrite (Hint r) by done. destruct (Hf r) as [-> _]. done. }
  exists res, (update_out face f e). split; [done|]. split; [done|]. split; [|split; [done|]].
  - by apply (out_store_ok s loc e (update_out face f e) (fun _ => Ok (update_out face f e))); [..|apply update_out_records|].
  - unfold suppressed, upstream. destruct res.
    + rewrite (update_out_lookup face f e face Hff), Z.eqb_refl. by rewrite Hres.
    + destruct Hres as (r & -> & Hl). cbn. split; [by apply Z.ltb_ge|done].
    + destruct Hres as (r & -> & Hl). cbn. split; [by apply Z.ltb_lt|done].
Qed.

Lemma mc_send now s loc e face f i res : inv None s -> waits s loc e -> pit_key e = interest_key i -> sel_fine (i_selectors i) -> expiry_of now i < 2 ^ 63 ->
  ft_get face (fw_faceTable s) = Some f -> isValNetFace f = false ->
  exists s' e', (let* s := strategy_sendInterest now loc face i s in
      if decide (res = FORWARD) then entry_modify loc (increment_out face) s else Ok s) = Ok s' /\
    inv None s' /\ fw_frame 0 s s' /\ waits s' loc e' /\ (pit_key e' = pit_key e /\ pit_inRecords e' = pit_inRecords e) /\ fw_out s' = fw_out s ++ [interest_output f i] /\
    (exists v, upstream e' face = Some (now, v) /\ 0 < v) /\ (forall k, k <> face -> upstream e' k = upstream e k).
Proof.
  intros Hi Ha Hk Hs Hx Hf Hv. destruct (onOutgoingInterest_ok cs_ok o counts now s loc e face f i Hi Ha Hk Hs Hx Hf Hv) as (s1 & e1 & E1 & Hi1 & Hf1 & Eo1 & Ha1 & Ee1 & Em1 & _).
  unfold strategy_sendInterest. rewrite E1. cbn [mbind result_bind]. destruct (attached_entry cs_ok o counts None s1 loc e1 Hi1 Ha1) as (_ & Hrec1 & Hok1).
  set (r1 := mkOutRecord _ _) in Em1. assert (Er1 : out_map e1 !! face = Some r1) by (by rewrite Em1, lookup_insert_eq).
  assert (Hin1 : r1 ∈ pit_outRecords e1 /\ out_face r1 = face) by (by apply out_map_lookup). destruct Hin1 as [Hin1 Ef1].
  pose proof (eo_outInfo _ _ _ Hok1 r1 Hin1) as Hinfo. assert (Hk1 : pit_key e1 = pit_key e /\ pit_inRecords e1 = pit_inRecords e) by (by rewrite Ee1).
  assert (Hup1 : forall k, k <> face -> upstream e1 k = upstream e k) by (intros k Hne; unfold upstream; by rewrite Em1, lookup_insert_ne).
  destruct (decide (res = FORWARD)).
  - destruct (incrementInterval_ok r1 Hinfo) as (h & Einc & Hh & Eint). assert (Hff : forall r, out_face r = face -> out_face (out_with_info h r1) = face) by done.
    destruct (out_store_ok s1 loc e1 (update_out face (fun _ => out_with_info h r1) e1) (increment_out face) Hi1 Ha1) as (E2 & Hi2 & Hf2 & Ha2); [|done|by apply update_out_records|apply update_out_info; [intros; exact Hh|exact (eo_outInfo _ _ _ Hok1)]|].
    { unfold increment_out, getOutRecord. rewrite (rec_find out_face). fold (out_map e1). rewrite Er1, Einc. done. }
    eexists _, _. split; [exact E2|]. split; [done|]. split; [change 0 with (0 + 0); by eapply fw_frame_trans|]. split; [exact Ha2|]. split; [done|]. split; [done|]. split.
    + exists (interval_of h). unfold upstream. rewrite (update_out_lookup face _ e1 face Hff), Z.eqb_refl, Er1. cbn. split; [done|]. pose proof (retx_intervals_range _ Hh). lia.
    + intros k Hne. rewrite <-(Hup1 k Hne). unfold upstream. by rewrite (update_out_lookup face _ e1 k Hff), (proj2 (Z.eqb_neq _ _) Hne).
  - exists s1, e1. do 6 (split; [done|]). split; [|done]. exists (interval_of (fr_info (or_record r1))). unfold upstream. rewrite Er1. split; [done|].
    pose proof (retx_intervals_range _ Hinfo). lia.
Qed.

Lemma mc_loop_ok now fin i loc e0 hops : forall sent s e n b,
  inv None s -> waits s loc e -> pit_key e = interest_key i -> sel_fine (i_selectors i) -> expiry_of now i < 2 ^ 63 ->
  (forall nh, nh ∈ hops -> known (fw_faceTable s) (nh_face nh)) -> mc_rel now e0 sent e ->
  exists s' e' b' , let targets := mc_targets (fw_faceTable s) fin i e0 now sent hops in
    mc_loop now fin i loc hops n b s = Ok (n + zlen targets, b', s') /\ inv None s' /\ fw_frame 0 s s' /\ waits s' loc e' /\ pit_inRecords e' = pit_inRecords e /\
    fw_out s' = fw_out s ++ ((fun f => interest_output f i) <$> targets) /\
    (targets = [] -> sent = [] -> b' = b || existsb (fun nh => suppressed now e0 (nh_face nh)) hops) /\ (b = true -> b' = true).
Proof.
  induction hops as [|nh hops IH]; intros sent s e n b Hi Ha Hk Hs Hx Hh Hr; cbn [mc_loop].
  { exists s, e, b. rewrite Z.add_0_r, app_nil_r, orb_false_r. split; [done|]. split; [done|]. split; [apply fw_frame_refl|]. done. }
  destruct (Hh nh) as (f & Hf & Hid & Hv); [by left|]. unfold get_face. rewrite Hf. cbn [mbind result_bind].
  destruct (attached_entry cs_ok o counts None s loc e Hi Ha) as (-> & _ & _). cbn [mbind result_bind].
  destruct (mc_decide now s loc e (nh_face nh) Hi Ha) as (res & e1 & -> & [Hk1 Hin1] & (E1 & Hi1 & Hf1 & Ha1) & Hup & Hres & Hnew). rewrite E1. cbn [mbind result_bind].
  set (s1 := with_tables _ s) in *. assert (Hr1 : mc_rel now e0 sent e1) by (intros k; rewrite Hup; apply Hr). rewrite <-Hk1 in Hk.
  assert (Hh1 : forall nh, nh ∈ hops -> known (fw_faceTable s1) (nh_face nh)) by (intros; apply Hh; by right).
  cbn [mc_targets existsb]. rewrite Hf. pose proof (mc_rel_suppressed now e0 sent e (nh_face nh) Hr) as Hsup. rewrite <-Hsup.
  assert (Hsup0 : sent = [] -> suppressed now e0 (nh_face nh) = suppressed now e (nh_face nh)) by (intros ->; rewrite Hsup, bool_decide_false; [done|apply not_elem_of_nil]).
  assert (Hskip : forall b1, (sent = [] -> b1 = b || suppressed now e0 (nh_face nh)) -> (b = true -> b1 = true) ->
    exists s' e' b', let targets := mc_targets (fw_faceTable s) fin i e0 now sent hops in
    mc_loop now fin i loc hops n b1 s1 = Ok (n + zlen targets, b', s') /\ inv None s' /\ fw_frame 0 s s' /\ waits s' loc e' /\ pit_inRecords e' = pit_inRecords e /\
    fw_out s' = fw_out s ++ ((fun f => interest_output f i) <$> targets) /\
    (targets = [] -> sent = [] -> b' = b || (suppressed now e0 (nh_face nh) || existsb (fun nh => suppressed now e0 (nh_face nh)) hops)) /\ (b = true -> b' = true)).
  { intros b1 Hb1 Hb2. destruct (IH sent s1 e1 n b1 Hi1 Ha1 Hk Hs Hx Hh1 Hr1) as (s' & e' & b' & E & Hi' & Hf' & Ha' & Hin' & Eo & Hb & Hb'). exists s', e', b'.
    split; [done|]. split; [done|]. split; [change 0 with (0 + 0); by eapply fw_frame_trans|]. split; [done|]. split; [by rewrite Hin'|]. split; [done|]. split; [|by auto].
    intros Ht Hsn. by rewrite (Hb Ht Hsn), (Hb1 Hsn), orb_assoc. }
  destruct (decide (res = SUPPRESS)) as [->|Hns].
  { rewrite Hres. cbn [orb]. apply Hskip; [|done]. intros Hn. by rewrite (Hsup0 Hn), Hres, orb_true_r. }
  assert (Hsf : suppressed now e (nh_face nh) = false) by (destruct res; [by apply Hnew|done|done]). rewrite Hsf in *. cbn [orb]. rewrite Hv. cbn [orb].
  destruct (wouldViolateScope fin i f).
  { apply Hskip; [|done]. intros Hn. by rewrite (Hsup0 Hn), orb_false_r. }
  destruct (mc_send now s1 loc e1 (nh_face nh) f i res Hi1 Ha1 Hk Hs Hx Hf Hv) as (s2 & e2 & E2 & Hi2 & Hf2 & Ha2 & [Hk2 Hin2] & Eo2 & (v & Hv2 & Hpos) & Hup2).
  destruct (strategy_sendInterest now loc (nh_face nh) i s1) as [s1'|]; [|done]. cbn [mbind result_bind] in *. rewrite E2. cbn [mbind result_bind].
  assert (Eft : fw_faceTable s2 = fw_faceTable s) by (transitivity (fw_faceTable s1); [apply Hf2|done]).
  destruct (IH (nh_face nh :: sent) s2 e2 (n + 1) b Hi2 Ha2) as (s' & e' & b' & E & Hi' & Hf' & Ha' & Hin' & Eo & Hb & Hb'); [by rewrite Hk2|done|done|by rewrite Eft| |].
  { intros k. destruct (decide (k = nh_face nh)) as [->|Hne]; [rewrite bool_decide_true by (by left); by exists v|].
    rewrite (Hup2 k Hne). rewrite (bool_decide_ext (k ∈ nh_face nh :: sent) (k ∈ sent)) by (rewrite elem_of_cons; tauto). apply Hr1. }
  exists s', e', b'. rewrite Eft in *. cbn zeta. split; [rewrite E; do 3 f_equal; unfold zlen; cbn [length]; lia|]. split; [done|].
  split; [change 0 with (0 + (0 + 0)); eapply fw_frame_trans; [exact Hf1|]; by eapply fw_frame_trans|]. split; [done|]. split; [by rewrite Hin', Hin2|]. split; [|done].
  rewrite Eo, Eo2. cbn [fmap list_fmap]. by rewrite <-app_assoc.
Qed.

(** What leaves: the Interest, to each target once, or a Nack when no next hop could ever
    be used. *)
Definition multicast (t : FaceTable) (fin : Face) (i : Interest) (e : pit_Entry) (now : Z) (hops : list NextHop) : list fw_output -> Prop :=
  fun out => let targets := mc_targets t fin i e now [] hops in
    if bool_decide (targets = []) && negb (existsb (fun nh => suppressed now e (nh_face nh)) hops)
    then out = nack_output fin e NackReason_NO_ROUTE
    else out = (fun f => interest_output f i) <$> targets.

Lemma mc_targets_spec t fin i e now hops : forall sent, ft_inv t ->
  (forall f, f ∈ mc_targets t fin i e now sent hops -> (face_id f ∉ sent) /\ exists nh, nh ∈ hops /\ ft_get (nh_face nh) t = Some f /\
     suppressed now e (nh_face nh) = false /\ wouldViolateScope fin i f = false) /\
  (forall nh f, nh ∈ hops -> (nh_face nh ∉ sent) -> ft_get (nh_face nh) t = Some f -> suppressed now e (nh_face nh) = false -> wouldViolateScope fin i f = false ->
     f ∈ mc_targets t fin i e now sent hops) /\
  NoDup (face_id <$> mc_targets t fin i e now sent hops).
Proof.
  intros sent Ht. revert sent. induction hops as [|nh hops IH]; intros sent; cbn [mc_targets].
  { split; [by intros ? ?%not_elem_of_nil|]. split; [by intros ? ? ?%not_elem_of_nil|constructor]. }
  destruct (ft_get (nh_face nh) t) as [f|] eqn:Hf.
  2:{ destruct (IH sent) as (H1' & H2' & H3'). split; [|split; [|done]].
    - intros g Hg. destruct (H1' g Hg) as (? & n & ? & ?). split; [done|]. exists n. split; [by right|done].
    - intros n g [->|Hn]%elem_of_cons; [congruence|by apply H2']. }
  pose proof (fi_id _ Ht (nh_face nh) f Hf) as Hid. destruct (_ || wouldViolateScope fin i f) eqn:Eskip.
  - destruct (IH sent) as (H1' & H2' & H3'). split; [|split; [|done]].
    + intros g Hg. destruct (H1' g Hg) as (? & n & ? & ?). split; [done|]. exists n. split; [by right|done].
    + intros n g [->|Hn]%elem_of_cons Hs; [|by apply H2']. rewrite Hf. intros [= <-] Hsup Hscope. rewrite bool_decide_false, Hsup, Hscope in Eskip by done. done.
  - apply orb_false_iff in Eskip as [[Hns%bool_decide_eq_false Hsup]%orb_false_iff Hscope]. destruct (IH (nh_face nh :: sent)) as (H1' & H2' & H3'). split; [|split].
    + intros g [->|Hg]%elem_of_cons; [rewrite Hid; split; [done|]; exists nh; split; [by left|done]|].
      destruct (H1' g Hg) as (Hng & n & ? & ?). split; [contradict Hng; by right|]. exists n. split; [by right|done].
    + intros n g Hn Hs Hg Hsn Hsc. rewrite elem_of_cons. destruct (decide (nh_face n = nh_face nh)) as [En|Hne]; [left; congruence|right].
      apply elem_of_cons in Hn as [->|Hn]; [done|]. apply (H2' n g Hn); [|done..]. by rewrite elem_of_cons; intros [?|?].
    + cbn [fmap list_fmap]. apply NoDup_cons. split; [|done]. intros (g & Eg & Hg)%list_elem_of_fmap. destruct (H1' g Hg) as [Hng _]. rewrite <-Eg, Hid in Hng. destruct Hng. by left.
Qed.

Lemma mc_interest_ok now s loc e inFace fin i : inv None s -> waits s loc e -> pit_key e = interest_key i -> sel_fine (i_selectors i) -> expiry_of now i < 2 ^ 63 ->
  ft_get inFace (fw_faceTable s) = Some fin -> isValNetFace fin = false ->
  exists r hops s' out, lookupFib loc s = Ok r /\ nexthops_at r s = Ok hops /\ mc_afterReceiveInterest now inFace i loc s = Ok s' /\ inv None s' /\
    fw_frame 0 s s' /\ fw_out s' = fw_out s ++ out /\ multicast (fw_faceTable s) fin i e now hops out.
Proof.
  intros Hi Ha Hk Hs Hx Hf Hv. unfold mc_afterReceiveInterest, get_face. rewrite Hf. cbn [mbind result_bind].
  destruct (lookupFib_ok cs_ok o counts None s loc e Hi Ha) as (r & Er & hops & Eh & Hh). exists r, hops. rewrite Er. cbn [mbind result_bind]. rewrite Eh. cbn [mbind result_bind].
  destruct (mc_loop_ok now fin i loc e hops [] s e 0 false Hi Ha Hk Hs Hx Hh) as (s1 & e1 & b & E & Hi1 & Hf1 & Ha1 & Hin1 & Eo & Hb & _).
  { intros k. by rewrite bool_decide_false by apply not_elem_of_nil. }
  rewrite E. cbn [mbind result_bind]. unfold multicast. set (targets := mc_targets _ _ _ _ _ _ _) in *. rewrite Z.add_0_l.
  assert (Ez : (zlen targets =? 0) = bool_decide (targets = [])) by (case_bool_decide as Hc; [by rewrite Hc|]; apply Z.eqb_neq; destruct targets; [done|unfold zlen; cbn; lia]).
  rewrite Ez. case_bool_decide as Hc; cbn [andb]; [pose proof (Hb Hc eq_refl) as Hb0; cbn [orb] in Hb0; rewrite <-Hb0|]; [|by exists s1, ((fun f => interest_output f i) <$> targets)].
  destruct b; cbn [negb]; [by exists s1, ((fun f => interest_output f i) <$> targets)|].
  assert (Hf' : ft_get inFace (fw_faceTable s1) = Some fin) by (by replace (fw_faceTable s1) with (fw_faceTable s) by (symmetry; apply Hf1)).
  destruct (no_route_ok now s1 loc e1 inFace fin Hi1 Ha1 Hf' Hv) as (s2 & s' & e' & id & E1 & E2 & Hi' & Hfr & Eo' & _).
  rewrite E1. cbn [mbind result_bind]. exists s', (nack_output fin e NackReason_NO_ROUTE). do 4 (split; [done|]). split; [change 0 with (0 + 0); by eapply fw_frame_trans|].
  split; [|done]. rewrite Eo', Eo, Hc. cbn [fmap list_fmap]. rewrite app_nil_r. unfold nack_output, in_map. by rewrite Hin1.
Qed.
Lemma mc_interest_safe now s loc e inFace i : inv None s -> waits s loc e -> pit_key e = interest_key i -> sel_fine (i_selectors i) -> expiry_of now i < 2 ^ 63 ->
  known (fw_faceTable s) inFace -> safe None 0 s (mc_afterReceiveInterest now inFace i loc s).
Proof.
  intros Hi Ha Hk Hs Hx (fin & Hf & _ & Hv). destruct (mc_interest_ok now s loc e inFace fin i Hi Ha Hk Hs Hx Hf Hv) as (? & ? & s' & ? & _ & _ & E & Hi' & Hfr & _).
  by exists s'.
Qed.

(** ** The contract *)
Lemma base_laws st :
  st_beforeSatisfyInterest st = base_beforeSatisfyInterest -> st_afterContentStoreHit st = base_afterContentStoreHit sha256 ->
  st_afterReceiveData st = base_afterReceiveData sha256 -> st_onDroppedInterest st = base_onDroppedInterest ->
  (forall now inFace i loc e s, inv None s -> waits s loc e -> pit_key e = interest_key i -> sel_fine (i_selectors i) -> expiry_of now i < 2 ^ 63 ->
     known (fw_faceTable s) inFace -> safe None 0 s (st_afterReceiveInterest st now inFace i loc s)) ->
  (forall now inFace i reason loc e s, inv None s -> waits s loc e -> safe None 0 s (st_afterReceiveNack st now inFace i reason loc s)) ->
  StrategyLaws sha256 cs_ok o limit counts st.
Proof.
  intros E1 E2 E3 E4 Hint Hnack. split; intros; rewrite ?E1, ?E2, ?E3, ?E4.
  - eapply safe_weaken; [by eapply Hint|lia].
  - destruct (safe_data_Ok cs_ok o counts None s d) as (d' & s' & E & Hd & Hi & Hf); [done|]. exists d', s'. do 3 (split; [done|]). eapply fw_frame_weaken; [done|lia].
  - by eapply base_afterContentStoreHit_safe.
  - by eapply base_afterReceiveData_safe.
  - eapply safe_weaken; [by eapply Hnack|lia].
  - eapply safe_weaken; [by apply safe_Ok|lia].
Qed.
#[export] Instance BestRouteStrategy2_laws : StrategyLaws sha256 cs_ok o limit counts (BestRouteStrategy2 sha256).
Proof. apply base_laws; try done; cbn; intros; [by eapply br2_interest_safe|by eapply processNack_safe]. Qed.
#[export] Instance BestRouteStrategyBase_laws : StrategyLaws sha256 cs_ok o limit counts (BestRouteStrategyBase sha256).
Proof. apply base_laws; try done; cbn; intros; [by eapply br_interest_safe|by apply safe_Ok]. Qed.
#[export] Instance MulticastStrategy_laws : StrategyLaws sha256 cs_ok o limit counts (MulticastStrategy sha256).
Proof. apply base_laws; try done; cbn; intros; [by eapply mc_interest_safe|by eapply processNack_safe]. Qed.
End laws.
