(* ===== verification/CsStore.v ===== *)
(** * NFD's content store as the content store of the forwarder

    The content store of [Cs] keeps what the pipelines rely on ([ContentStoreLaws]). *)

From stdpp Require Import base gmap list sets strings.
From Stdlib Require Import ZArith Lia.
From S2P Require Import Prelude Tlv Encoder Block Codec Ndn NameTlv NameSuccessor Signature Exclude Selectors Data Interest LpPacket FaceTable Double Hashtable NameTree Scheduler NfdTables Fib Pit Cleanup DeadNonceList Cs Algorithm RetxSuppression Measurements StrategyChoice Forwarder TablesInv ForwarderInv.

Local Open Scope Z_scope.

Section store.
Context (sha256 : octets -> octets).

#[export] Instance Cs_ContentStore : ContentStore Cs := {|
  cs_find := Cs_find sha256;
  cs_insert := Cs_insert sha256;
|}.

(** All that is stored can be matched, and its freshness computed with. *)
Record cs_fine (c : Cs) : Prop := {
  cf_inv : cs_inv sha256 c;
  cf_data e : e ∈ cs_table c -> matchable sha256 (ce_data e) /\ fresh_ok (mi_freshnessPeriod (d_metaInfo (ce_data e)));
}.

Lemma fresh_stale_time now d : 0 <= now < 2 ^ 62 -> fresh_ok (mi_freshnessPeriod (d_metaInfo d)) -> is_ok (stale_time now d) = true.
Proof.
  intros Hn [H0 H1]. unfold stale_time, ms in *. cbv zeta. rewrite (proj2 (Z.leb_le _ _)), !(proj2 (Z.ltb_lt _ _)) by lia. done.
Qed.
Lemma fine_decided now i c : cs_fine c -> sel_fine (i_selectors i) -> decided (canSatisfy sha256 now i) (cs_table c).
Proof.
  intros [_ Hd] Hs e He. destruct (Hd e He) as [Hm _]. destruct (matchable_ok sha256 i (ce_data e) Hs Hm) as (b & Hb). unfold canSatisfy. rewrite Hb.
  cbn [mbind result_bind]. destruct b; [|done]. cbn [negb]. by destruct (_ && _).
Qed.

#[export] Instance Cs_laws : ContentStoreLaws Cs sha256 cs_fine.
Proof.
  split.
  - intros now i c Hc Hs Hl. pose proof Hc as [Hi Hd].
    destruct (Cs_find_ok sha256 now i c Hi (fine_decided now i c Hc Hs)) as (r & c' & E & Hi' & Ec & Hr); [apply Hl..|].
    exists r, c'. split; [done|]. split; [split; [done|by rewrite Ec]|]. intros d ->. destruct Hr as (_ & j & e & Hj & <- & Hsat & _).
    split; [by eapply canSatisfy_matches|]. by eapply Hd, list_elem_of_lookup_2.
  - intros now d u c [Hi Hd] Hn Hf Hm Hv. destruct (Cs_insert_ok sha256 now d u c Hi) as (c' & E & Hi' & _ & Hin & _).
    + apply stored_fullName, Hm.
    + done.
    + by apply fresh_stale_time.
    + intros e He. apply fresh_stale_time; [done|]. by apply Hd.
    + exists c'. split; [done|]. split; [done|]. intros e' [->|(e & -> & He)%list_elem_of_fmap]%Hin; [done|]. by apply Hd.
Qed.
End store.
