(* ===== verification/ForwarderProps.v ===== *)
(** * Properties of the forwarder

    From its construction on, no admissible sequence of events makes the forwarder fail.
    The nonce of a forwarded Interest is remembered when its PIT entry goes, so that the
    Interest is not forwarded again when it comes back.  Data goes to the faces that wait
    for it. *)

From stdpp Require Import base gmap list sets strings.
From Stdlib Require Import ZArith Lia.
From S2P Require Import Prelude Tlv Encoder Block Codec Ndn NameTlv NameSuccessor Signature Exclude Selectors Data Interest LpPacket FaceTable Double Hashtable NameTree Scheduler NfdTables Fib Pit Cleanup DeadNonceList Cs Algorithm RetxSuppression Measurements StrategyChoice Forwarder TablesInv StrategyChoiceProps ForwarderInv ForwarderSafety CsStore.

Local Open Scope Z_scope.

(** The options and growth of the name tree that the forwarder makes. *)
#[local] Abbreviation o := (HashtableOptions_new 1024).
#[local] Abbreviation counts := (power_counts 1024).

(** ** Construction *)
Section construction.
Context {C : Type} `{HashFunction} (cs_ok : C -> Prop).

Lemma setDefaultStrategy_timers r name q t : setDefaultStrategy r name (on_timers q t) =
  let* t := setDefaultStrategy r name t in Ok (on_timers q t).
Proof.
  unfold setDefaultStrategy, set_choice. destruct (strategy_create r name) as [[i|]|]; [|done|done]. cbn [mbind result_bind].
  change (t_nameTree (on_timers q t)) with (t_nameTree t). destruct (nt_lookup [] 0 (t_nameTree t)) as [[x h]|]; [|done]. cbn [mbind result_bind].
  cbn [t_nameTree with_nameTree on_timers with_measurements]. by destruct (nt_update _ _ _) as [h'|].
Qed.

Lemma dnl_new_ok now : exists d q, DeadNonceList_new now DEFAULT_LIFETIME EventQueue_new = Ok (d, q) /\ dnl_inv d /\ queue_inv q /\
  forall ev, ev ∈ m_queue q -> ev_callback ev = DnlMark \/ ev_callback ev = DnlAdjustCapacity.
Proof.
  unfold DeadNonceList_new. rewrite (proj2 (Z.ltb_ge _ _)) by (by vm_compute). cbn [schedule]. eexists _, _. split; [done|]. split; [by vm_compute|]. split.
  - apply (queue_inv_schedule now DEFAULT_LIFETIME DnlAdjustCapacity), (queue_inv_schedule now (DEFAULT_LIFETIME / EXPECTED_MARK_COUNT) DnlMark), queue_inv_new.
  - intros ev Hev. apply (elem_of_schedule now DEFAULT_LIFETIME DnlAdjustCapacity) in Hev as [->|Hev]; [by right|].
    apply (elem_of_schedule now (DEFAULT_LIFETIME / EXPECTED_MARK_COUNT) DnlMark) in Hev as [->|Hev]; [by left|]. by apply not_elem_of_nil in Hev.
Qed.

Lemma timed_none (q : EventQueue table_event) (mk : nat -> table_event) (f : nat -> option nat) : (forall x, f x = None) ->
  (forall ev x, ev ∈ m_queue q -> ev_callback ev <> mk x) -> timed q mk f.
Proof. intros Hf Hq x id. rewrite Hf. split; [done|]. intros (ev & Hev & E & _). by destruct (Hq ev x Hev). Qed.

Lemma addReserved_new f id : face_id f = INVALID_FACEID -> id <= FACEID_RESERVED_MAX ->
  exists sg t, ft_addReserved f id FaceTable_new = Ok (sg, t) /\ ft_inv t /\ t = mkFaceTable FACEID_RESERVED_MAX (<[id := setId id f]> ∅).
Proof.
  intros Hf Hid. unfold ft_addReserved, addImpl. rewrite (proj2 (Z.eqb_eq _ _) Hf), (proj2 (Z.leb_le _ _) Hid). cbn [m_faces FaceTable_new]. rewrite bool_decide_true by done.
  eexists _, _. split; [done|]. split; [|done]. split; cbn.
  - intros i f'. rewrite lookup_insert_Some, lookup_empty. by intros [[<- <-]|[_ ?]].
  - intros i [f' Hf']. rewrite lookup_insert_Some, lookup_empty in Hf'. by destruct Hf' as [[<- _]|[_ ?]].
  - done.
Qed.

Lemma Forwarder_new_ok registry now cs instance : strategy_create registry getDefaultStrategyName = Ok (Some instance) -> cs_ok cs ->
  exists s, Forwarder_new registry now cs = Ok s /\ fw_inv cs_ok o counts None s /\ choices (fw_tables s) = {[ [] := instance ]} /\ fw_out s = [] /\
    room (2 ^ 60) (fw_tables s) 1 /\ exists f, fw_faceTable s = mkFaceTable FACEID_RESERVED_MAX (<[FACEID_CONTENT_STORE := f]> ∅).
Proof.
  intros Hc Hcs. unfold Forwarder_new, NameTree_new.
  assert (Hsz : match Hashtable_new (T:=Tables) o with Ok h => m_htSize h =? 0 | Err _ => false end = true) by (vm_compute; reflexivity).
  destruct (Hashtable_new (T:=Tables) o) as [h|] eqn:Eh; [|done]. zbool. cbn [mbind result_bind].
  destruct (dnl_new_ok now) as (d & q & -> & Hd & Hq & Hcb). cbn [mbind result_bind].
  destruct (addReserved_new (makeNullFace (str "contentstore://")) FACEID_CONTENT_STORE) as (sg & ft & -> & Hft & Eft); [done|done|]. cbn [mbind result_bind]. rewrite setDefaultStrategy_timers.
  destruct (setDefaultStrategy_ok o (2 ^ 60) counts counts_1024 registry h getDefaultStrategyName instance Eh) as (t & -> & Ht & Hch & Hpe & Hfv & Htm & Hts); [by vm_compute|done|done|].
  clear Eh. cbn [mbind result_bind]. eexists. split; [reflexivity|]. split; [|split; [exact Hch|split; [reflexivity|split; [cbn; unfold room, getMaxDepth in *; cbn in *; lia|by eexists]]]]. split; cbn [fw_tables fw_deadNonceList fw_faceTable fw_networkRegionTable fw_cs]; [|done|done|intros p e nh|intros loc e [He _]|done].
  - assert (Hm : forall x, meas_timer t x = None).
    { intros x. destruct (meas_timer t x) as [id|] eqn:E; [|done]. apply (ti_meas_timers _ _ _ _ Ht) in E as (ev & Hev & _). rewrite Htm in Hev. by apply not_elem_of_nil in Hev. }
    apply (tables_inv_timers o counts None t q Ht Hq).
    + apply timed_none; [intros loc; unfold pit_timer; by rewrite Hpe, lookup_empty|]. intros ev x [->| ->]%Hcb; done.
    + apply timed_none; [done|]. intros ev x [->| ->]%Hcb; done.
  - change (fib_view (on_timers q t)) with (fib_view t). by rewrite Hfv, lookup_empty.
  - cbn in He. by rewrite Hpe, lookup_empty in He.
Qed.
End construction.

(** ** Nonces that are remembered *)
Section nonces.
Context `{SeededHash}.

Lemma dnl_adds_has l : forall d, dnl_inv d -> zlen l <= dnl_capacity d ->
  exists d', dnl_adds l d = Ok d' /\ dnl_inv d' /\ forall name nonce, (name, nonce) ∈ l -> dnl_has name nonce d' = true.
Proof.
  induction l as [|[name nonce] l IH]; intros d Hd Hl; [exists d; do 2 (split; [done|]); intros name nonce Hn; by apply not_elem_of_nil in Hn|].
  rewrite zlen_cons in Hl. cbn [dnl_adds]. destruct (dnl_add_ok name nonce d Hd) as (d1 & -> & Hd1 & Hc & _ & k & Hq & Hk). cbn [mbind result_bind].
  destruct (IH d1 Hd1) as (d' & E & Hd' & Hin); [lia|]. exists d'. split; [done|]. split; [done|].
  destruct (dnl_adds_ok l d1 Hd1) as (d2 & E2 & _ & Hb & _). rewrite E in E2. apply (inj Ok) in E2 as <-.
  intros name' nonce' [[= -> ->]|Hin']%elem_of_cons; [|by apply Hin]. apply dnl_has_elem, (behind_elem _ (0 + length l)), Hb; [|rewrite Hc; unfold zlen in Hl; lia].
  rewrite Hq in Hk |- *. assert (Hb0 : behind (makeEntry name nonce) 0 (dnl_queue d ++ [makeEntry name nonce])) by (by exists (dnl_queue d), []).
  destruct Hk as [->|Hk]; [by rewrite drop_0|]. apply behind_drop; [done|]. destruct Hd as [[Hmin _] _]. unfold zlen, MIN_CAPACITY in *. lia.
Qed.
Lemma dnl_add_all_adds name ns d : dnl_add_all name ns d = dnl_adds (pair name <$> ns) d.
Proof. revert d. induction ns as [|n ns IH]; intros d; [done|]. cbn. destruct (dnl_add name n d); [|done]. cbn. apply IH. Qed.
End nonces.

Section loops.
Context {C : Type} `{HashFunction} `{SeededHash} `{StdSort} `{FaceAddresses} `{ContentStore C} (strategies : Name -> Strategy C).
Implicit Types (s : Forwarder C).

(** An Interest whose nonce is dead is not processed further. *)
Lemma dead_interest now s face f i : ft_get face (fw_faceTable s) = Some f -> face_id f = face -> isValNetFace f = false -> dnl_has (i_name i) (getNonce i) (fw_deadNonceList s) = true ->
  exists s', onIncomingInterest strategies now face i s = Ok s' /\ fw_tables s' = fw_tables s /\ fw_cs s' = fw_cs s /\
    (fw_out s' = fw_out s \/ exists i', fw_out s' = fw_out s ++ [SendNack face i' NackReason_DUPLICATE]).
Proof.
  intros Hf Hid Hv Hd. unfold onIncomingInterest, get_face. rewrite Hf. cbn [mbind result_bind]. set (i0 := interest_tags _ i). set (s0 := count nInInterests s).
  destruct (isViolatingLocalhost f (i_name i0)); [exists s0; do 3 (split; [done|]); by left|].
  change (dnl_has (i_name i0) (getNonce i0) (fw_deadNonceList s0)) with (dnl_has (i_name i) (getNonce i) (fw_deadNonceList s)). rewrite Hd.
  unfold onInterestLoop. case_bool_decide; [exists s0; do 3 (split; [done|]); by left|]. destruct (isGeoFace f) eqn:Eg; cbn [negb]; [exists s0; do 3 (split; [done|]); by left|].
  unfold face_sendNack. rewrite Eg, Hv. cbn [negb andb]. eexists. split; [done|]. do 2 (split; [done|]). right. exists i0. cbn. by rewrite Hid.
Qed.
End loops.

(** ** Every run *)
Section safety.
Context {C : Type} `{HashFunction} `{StdSort} `{!StdSortLaws} `{SeededHash} `{FaceAddresses} (sha256 : octets -> octets) (cs_ok : C -> Prop).
Context `{ContentStore C} `{!ContentStoreLaws C sha256 cs_ok}.
Context (strategies : Name -> Strategy C) `{Hst : !forall name, StrategyLaws sha256 cs_ok o (2 ^ 60) counts (strategies name)}.
Implicit Types (s : Forwarder C).

(** Each event may happen in the state in which it happens. *)
Fixpoint admissible_run (evs : list (Z * fw_event)) s : Prop :=
  match evs with
  | [] => True
  | (now, ev) :: evs => admissible sha256 (2 ^ 60) now s ev /\
    forall s', fw_handle sha256 strategies now ev s = Ok s' -> admissible_run evs s'
  end.

Lemma fw_run_ok evs : forall s, fw_inv cs_ok o counts None s -> admissible_run evs s ->
  exists s', fw_run sha256 strategies evs s = Ok s' /\ fw_inv cs_ok o counts None s'.
Proof.
  induction evs as [|[now ev] evs IH]; intros s Hi Ha; [by exists s|]. destruct Ha as [Ha Hn]. cbn [fw_run].
  destruct (fw_handle_ok sha256 cs_ok o (2 ^ 60) counts counts_1024 strategies now s ev Hi Ha) as (s1 & E & Hi1 & _). rewrite E. cbn [mbind result_bind]. by apply IH, Hn.
Qed.

(** C9: the forwarder does not fail.  With a registered default strategy its
    construction succeeds; after it, whatever packets, faces and timers come in whatever
    order, as long as each is admissible where it happens, every pipeline, callback and
    strategy trigger returns, without a failed assertion, a dangling face or PIT entry, or
    an overflow; and the state that is left satisfies the invariant of its tables. *)
Theorem forwarder_safety registry now cs instance evs :
  strategy_create registry getDefaultStrategyName = Ok (Some instance) -> cs_ok cs ->
  (forall s, Forwarder_new registry now cs = Ok s -> admissible_run evs s) ->
  exists s s', Forwarder_new registry now cs = Ok s /\ fw_run sha256 strategies evs s = Ok s' /\ fw_inv cs_ok o counts None s'.
Proof.
  intros Hc Hcs Ha. destruct (Forwarder_new_ok cs_ok registry now cs instance Hc Hcs) as (s & E & Hi & _ & _).
  destruct (fw_run_ok evs s Hi (Ha s E)) as (s' & Er & Hi'). exists s, s'. split; [exact E|]. split; [exact Er|exact Hi'].
Qed.
End safety.

(** ** Entries that expire *)
Section expiry.
Context {C : Type} `{HashFunction} `{StdSort} `{!StdSortLaws} `{SeededHash} `{FaceAddresses} `{ContentStore C} (cs_ok : C -> Prop).
Implicit Types (s : Forwarder C).

(** The dead nonce list after the nonces of all out-records were added. *)
Lemma unsatisfied_nonces loc e d s : entry_at loc s = Ok e -> pit_isSatisfied e = false -> dnl_inv (fw_deadNonceList s) ->
  zlen (pit_outRecords e) <= dnl_capacity (fw_deadNonceList s) -> insertDeadNonceList loc None s = Ok (with_dnl d s) ->
  forall r, r ∈ pit_outRecords e -> dnl_has (i_name (pit_interest e)) (fr_lastNonce (or_record r)) d = true.
Proof.
  intros Ee Hu Hd Hlen. unfold insertDeadNonceList, needDnl. rewrite Ee. cbn [mbind result_bind]. rewrite Hu. cbn [mbind result_bind negb].
  rewrite dnl_add_all_adds. set (l := pair _ <$> _). destruct (dnl_adds_has l (fw_deadNonceList s) Hd) as (d' & -> & _ & Hin).
  { unfold l, zlen in *. by rewrite !length_fmap. }
  cbn [mbind result_bind]. intros E r Hr. apply (inj Ok), (f_equal fw_deadNonceList) in E. cbn in E. subst d'. apply Hin. unfold l.
  rewrite <- list_fmap_compose. by apply (list_elem_of_fmap_2 (fun r => (i_name (pit_interest e), fr_lastNonce (or_record r)))).
Qed.

(** C10: when the timer of a PIT entry fires, the entry is there, the callback
    returns, removes that entry and no other, and an entry that was not satisfied is
    reported as expired.  If the entry was not satisfied and has no more out-records than the
    dead nonce list holds nonces, then the last nonce of each of its out-records is
    remembered: an Interest with the entry's name and one of these nonces that comes
    back before anything else happens, on any face (VAL's network faces do not
    reach NFD), is not forwarded, by whatever strategy; no table changes,
    and at most a Nack goes back. *)
Theorem expired_entry now s ev q loc :
  fw_inv cs_ok o counts None s -> pop_due now (t_timers (fw_tables s)) = Some (ev, q) -> ev_callback ev = PitExpiry loc ->
  exists e s', attached (pit_entries (fw_tables s)) loc e /\ run_timer now s = Ok s' /\ fw_inv cs_ok o counts None s' /\
    pit_map (fw_tables s') = delete (pit_key e) (pit_map (fw_tables s)) /\ fw_faceTable s' = fw_faceTable s /\
    fw_out s' = fw_out s ++ (if pit_isSatisfied e then [] else [BeforeExpirePendingInterest loc]) /\
    (pit_isSatisfied e = false -> zlen (pit_outRecords e) <= dnl_capacity (fw_deadNonceList s) ->
     forall r strategies now' face f i, r ∈ pit_outRecords e -> i_name i = i_name (pit_interest e) ->
       getNonce i = fr_lastNonce (or_record r) -> ft_get face (fw_faceTable s') = Some f -> isValNetFace f = false ->
       exists s2, onIncomingInterest strategies now' face i s' = Ok s2 /\ fw_tables s2 = fw_tables s' /\ fw_cs s2 = fw_cs s' /\
         (fw_out s2 = fw_out s' \/ exists i', fw_out s2 = fw_out s' ++ [SendNack face i' NackReason_DUPLICATE])).
Proof.
  intros Hi Hpop Hc. destruct (onInterestFinalize_ok cs_ok o (2 ^ 60) counts counts_1024 now s ev q loc Hi Hpop Hc) as (s' & e & d & E & Hi' & Ha & Hm & _ & Hft & Hdn & Hins & Ho).
  destruct (attached_entry cs_ok o counts None s loc e Hi Ha) as (Ee & _ & _).
  exists e, s'. split; [done|]. split; [unfold run_timer; rewrite Hpop; cbn [run_callback]; by rewrite Hc|]. do 4 (split; [done|]).
  intros Hu Hl r strategies now' face f i Hr En Enc Hf Hv. apply (dead_interest strategies now' s' face f i Hf (fi_id _ (fv_faces _ _ _ _ _ Hi') face f Hf) Hv).
  rewrite En, Enc, Hdn. by apply (unsatisfied_nonces loc e d s Ee Hu (fv_dnl _ _ _ _ _ Hi)).
Qed.
End expiry.

(** ** Where Data goes *)
Section delivery.
Context {C : Type} `{HashFunction} `{StdSort} `{!StdSortLaws} `{SeededHash} `{FaceAddresses} (sha256 : octets -> octets) (cs_ok : C -> Prop).
Implicit Types (s : Forwarder C) (loc : nat) (out : list fw_output).

(** The faces to which Data was sent, and the geofaces through which it went to VAL. *)
Definition sent_faces out : list Z := omap (fun x => match x with SendData face _ => Some face | _ => None end) out.
Definition val_faces out : list Z := omap (fun x => match x with DataToVal face _ _ _ => Some face | _ => None end) out.
(** Every packet sent is [d], up to its tags. *)
Definition carries (d : Data) out : Prop :=
  Forall (fun x => match x with SendData _ d' | DataToVal _ d' _ _ => same_packet d d' | _ => False end) out.

Definition on_face (t : FaceTable) (p : Face -> bool) (face : Z) : bool := match ft_get face t with Some f => p f | None => false end.
Definition takes (name : Name) (f : Face) : bool := negb (face_id f =? INVALID_FACEID) && negb (isViolatingLocalhost f name).

(** What a step of a trigger does to an entry and what it sends: the in-records of [faces]
    go. *)
Definition step loc (faces : list Z) out s s' : Prop :=
  fw_faceTable s' = fw_faceTable s /\ fw_out s' = fw_out s ++ out /\
  forall e, entry_at loc s = Ok e -> records_ok e -> exists e', entry_at loc s' = Ok e' /\ records_ok e' /\
    forall face, in_map e' !! face = if bool_decide (face ∈ faces) then None else in_map e !! face.

Lemma step_refl loc s : step loc [] [] s s.
Proof. split; [done|]. split; [by rewrite app_nil_r|]. intros e He Hr. exists e. by do 2 (split; [done|]). Qed.
Lemma step_trans loc l1 l2 o1 o2 s1 s2 s3 : step loc l1 o1 s1 s2 -> step loc l2 o2 s2 s3 -> step loc (l1 ++ l2) (o1 ++ o2) s1 s3.
Proof.
  intros (F1 & O1 & E1) (F2 & O2 & E2). split; [congruence|]. split; [by rewrite O2, O1, app_assoc|].
  intros e He Hr. destruct (E1 e He Hr) as (e1 & He1 & Hr1 & M1). destruct (E2 e1 He1 Hr1) as (e2 & He2 & Hr2 & M2). exists e2. do 2 (split; [done|]).
  intros face. rewrite M2, M1, (bool_decide_ext _ _ (elem_of_app l1 l2 face)), bool_decide_or. by destruct (bool_decide (face ∈ l1)), (bool_decide (face ∈ l2)).
Qed.

Lemma delete_step loc face s s' : entry_modify loc (deleteInRecord face) s = Ok s' -> step loc [face] [] s s'.
Proof.
  unfold entry_modify, pit_modify. intros E. apply result_bind_Ok in E as (t & Et & E). apply (inj Ok) in E as <-.
  apply result_bind_Ok in Et as (e & He & Et). apply result_bind_Ok in Et as (e1 & Ed & Et). apply (inj Ok) in Et as <-.
  split; [done|]. split; [by rewrite app_nil_r|]. intros e0 He0 Hr. change (pit_deref loc (fw_tables s) = Ok e0) in He0. rewrite He in He0. apply (inj Ok) in He0 as <-.
  destruct (deleteInRecord_ok face e Hr) as (e2 & Ed2 & Hr2 & Hm & _). rewrite Ed in Ed2. apply (inj Ok) in Ed2 as <-.
  exists e1. split; [unfold entry_at, pit_deref; cbn; by rewrite lookup_insert_eq|]. split; [done|].
  intros face'. rewrite Hm. case_bool_decide as Hf; [apply list_elem_of_singleton in Hf as ->; apply lookup_delete_eq|apply lookup_delete_ne; intros ->; apply Hf; left].
Qed.

(** What one waiting face gets. *)
Definition delivery (f : Face) (d : Data) (nonces : option (list Z)) (isProducer : bool) : list fw_output :=
  if takes (d_name d) f then [if isGeoFace f then DataToVal (face_id f) d nonces isProducer else SendData (face_id f) d] else [].

Lemma outgoing_step loc d face f nonces p s s' : ft_get face (fw_faceTable s) = Some f ->
  onOutgoingData d face nonces p s = Ok s' -> step loc [] (delivery f d nonces p) s s'.
Proof.
  intros Hf. unfold onOutgoingData, get_face, delivery, takes. rewrite Hf. cbn [mbind result_bind].
  destruct (face_id f =? INVALID_FACEID); cbn [negb andb]; [intros E; apply (inj Ok) in E as <-; apply step_refl|].
  fold (isViolatingLocalhost f (d_name d)). destruct (isViolatingLocalhost f (d_name d)); cbn [negb]; [intros E; apply (inj Ok) in E as <-; apply step_refl|].
  unfold face_sendDataToVal, face_sendData. destruct (isGeoFace f), (isValNetFace f); cbn [mbind result_bind negb andb]; intros E; try done; apply (inj Ok) in E as <-; (split; [done|]); (split; [done|]);
    intros e He Hr; exists e; by do 2 (split; [done|]).
Qed.

Lemma sendDataToVal_step loc d face f nonces p s s' : ft_get face (fw_faceTable s) = Some f ->
  strategy_sendDataToVal sha256 loc d face nonces p s = Ok s' -> step loc [face] (delivery f d nonces p) s s'.
Proof.
  intros Hf E. unfold strategy_sendDataToVal in E. apply result_bind_Ok in E as (_ & _ & E). apply result_bind_Ok in E as (s1 & Ed & E).
  apply delete_step in Ed. refine (step_trans loc [face] [] [] _ s s1 s' Ed _). eapply outgoing_step; [|exact E]. by rewrite (proj1 Ed).
Qed.
Lemma sendData_step loc d face f s s' : ft_get face (fw_faceTable s) = Some f -> isGeoFace f = false ->
  strategy_sendData sha256 loc d face s = Ok s' -> step loc [face] (delivery f d None false) s s'.
Proof.
  intros Hf Hg E. unfold strategy_sendData in E. apply result_bind_Ok in E as (_ & _ & E). unfold get_face in E. rewrite Hf in E. cbn [mbind result_bind] in E. rewrite Hg in E.
  apply result_bind_Ok in E as (s1 & Ed & E).
  apply delete_step in Ed. refine (step_trans loc [face] [] [] _ s s1 s' Ed _). eapply outgoing_step; [|exact E]. by rewrite (proj1 Ed).
Qed.

(** The faces that get the Data: all that are not geofaces, and the first geoface. *)
Definition direct_faces (t : FaceTable) (name : Name) (faces : list Z) : list Z :=
  List.filter (on_face t (fun f => negb (isGeoFace f) && takes name f)) faces.
Definition first_geo (t : FaceTable) (name : Name) (faces : list Z) : list Z :=
  List.filter (on_face t (takes name)) (take 1 (List.filter (on_face t isGeoFace) faces)).

Lemma delivery_faces f d nonces p : carries d (delivery f d nonces p) /\
  sent_faces (delivery f d nonces p) = (if negb (isGeoFace f) && takes (d_name d) f then [face_id f] else []) /\
  val_faces (delivery f d nonces p) = (if isGeoFace f && takes (d_name d) f then [face_id f] else []).
Proof.
  unfold delivery. destruct (takes _ f); [|rewrite !andb_false_r; split; [constructor|done]].
  destruct (isGeoFace f); (split; [|done]); (constructor; [by exists id; destruct d|constructor]).
Qed.

Lemma sent_faces_app o1 o2 : sent_faces (o1 ++ o2) = sent_faces o1 ++ sent_faces o2.
Proof. apply omap_app. Qed.
Lemma val_faces_app o1 o2 : val_faces (o1 ++ o2) = val_faces o1 ++ val_faces o2.
Proof. apply omap_app. Qed.
Lemma carries_packet d d' out : same_packet d d' -> carries d' out -> carries d out.
Proof. intros Hd Ho. eapply Forall_impl; [exact Ho|]. intros []; try done; by apply transitivity. Qed.
Lemma sent_to_val d f nonces p s loc : exists out, step loc [] out s (face_sendDataToVal f d nonces p s) /\ carries d out /\ sent_faces out = [] /\
  val_faces out = if isGeoFace f then [face_id f] else [].
Proof.
  unfold face_sendDataToVal. destruct (isGeoFace f); [|exists []; split; [apply step_refl|]; split; [constructor|done]].
  eexists. split; [split; [done|]; split; [done|]; intros e He Hr; exists e; by do 2 (split; [done|])|]. split; [constructor; [done|constructor]|done].
Qed.
(** VAL is told through the incoming geoface of each waiting application. *)
Definition told (t : FaceTable) (fin : Face) (faces : list Z) : list Z :=
  if isGeoFace fin then (fun _ => face_id fin) <$> List.filter (on_face t (fun f => negb (isGeoFace f) && isAppFace f)) faces else [].

(** What the loop over [faces] does: [sent] tells that a geoface has got the Data. *)
Definition delivers (fin : Face) loc (t : FaceTable) (sent : bool) (faces : list Z) (d : Data) s s' : Prop :=
  exists out, step loc faces out s s' /\ carries d out /\ sent_faces out = direct_faces t (d_name d) faces /\
    val_faces out ≡ₚ (if sent then [] else first_geo t (d_name d) faces) ++ told t fin faces.

Lemma delivers_cons fin loc t sent sent' face f faces d d1 out s s1 s' :
  ft_get face t = Some f -> face_id f = face -> step loc [face] out s s1 -> carries d out -> same_packet d d1 ->
  sent_faces out = (if negb (isGeoFace f) && takes (d_name d) f then [face] else []) ->
  val_faces out = (if isGeoFace f && negb sent && takes (d_name d) f then [face] else []) ++ (if isGeoFace fin && (negb (isGeoFace f) && isAppFace f) then [face_id fin] else []) ->
  sent' = sent || isGeoFace f -> delivers fin loc t sent' faces d1 s1 s' -> delivers fin loc t sent (face :: faces) d s s'.
Proof.
  intros Hf Hid Hst Hc [g ->] Hs Hv -> (o2 & Hst2 & Hc2 & Hs2 & Hv2). exists (out ++ o2). split; [exact (step_trans loc [face] faces out o2 s s1 s' Hst Hst2)|].
  split; [apply Forall_app_2; [done|by eapply carries_packet; [apply same_packet_tags|]]|]. split.
  - rewrite sent_faces_app, Hs, Hs2. unfold direct_faces, on_face. cbn [List.filter]. rewrite Hf. by destruct (negb (isGeoFace f) && takes (d_name d) f).
  - rewrite val_faces_app, Hv, Hv2. assert (told t fin (face :: faces) = (if isGeoFace fin && (negb (isGeoFace f) && isAppFace f) then [face_id fin] else []) ++ told t fin faces) as ->.
    { unfold told, on_face. cbn [List.filter]. rewrite Hf. destruct (isGeoFace fin); [|done]. by destruct (negb (isGeoFace f) && isAppFace f). }
    assert ((if sent then [] else first_geo t (d_name d) (face :: faces)) = (if isGeoFace f && negb sent && takes (d_name d) f then [face] else []) ++ (if sent || isGeoFace f then [] else first_geo t (d_name d) faces)) as ->.
    { unfold first_geo, on_face. cbn [List.filter]. rewrite Hf. destruct sent; [by rewrite andb_false_r|]. destruct (isGeoFace f); [|done]. cbn. rewrite Hf. by destruct (takes (d_name d) f). }
    change (d_name (data_tags g d)) with (d_name d). rewrite <-!app_assoc. apply Permutation_app_head. rewrite !app_assoc. apply Permutation_app_tail, Permutation_app_comm.
Qed.

(** The turn of a face that is not a geoface. *)
Lemma bs_direct loc inFace fin p faces sent d d' s s' face f :
  (forall sent d s d' s', ft_inv (fw_faceTable s) -> ft_get inFace (fw_faceTable s) = Some fin ->
    bs_loop sha256 loc inFace p sent faces d s = Ok (d', s') -> delivers fin loc (fw_faceTable s) sent faces d s s') ->
  ft_inv (fw_faceTable s) -> ft_get inFace (fw_faceTable s) = Some fin -> ft_get face (fw_faceTable s) = Some f -> isGeoFace f = false ->
  (let* fin := get_face inFace s in
   let* e := entry_at loc s in
   let nonceList := if isGeoFace fin && isAppFace f then Some (getNonceList e) else None in
   let* s := strategy_sendData sha256 loc d face s in
   match nonceList with
   | Some l =>
     let d := data_tags (set_congestionMark (Some 500)) d in
     bs_loop sha256 loc inFace p sent faces d (face_sendDataToVal fin d (Some l) false s)
   | None => bs_loop sha256 loc inFace p sent faces d s
   end) = Ok (d', s') -> delivers fin loc (fw_faceTable s) sent (face :: faces) d s s'.
Proof.
  intros IH Hi Hin Ef Eg E. pose proof (fi_id _ Hi face f Ef) as Hid. unfold get_face in E. rewrite Hin in E. cbn [mbind result_bind] in E.
  apply result_bind_Ok in E as (e & _ & E). apply result_bind_Ok in E as (s1 & Ed & E). apply (sendData_step _ _ _ f _ _ Ef Eg) in Ed. pose proof (proj1 Ed) as Hft. rewrite <- Hft in *.
  destruct (delivery_faces f d None false) as (Hc & Hs & Hv). rewrite Hid in *. destruct (isGeoFace fin && isAppFace f) eqn:Ea.
  - destruct (sent_to_val (data_tags (set_congestionMark (Some 500)) d) fin (Some (getNonceList e)) false s1 loc) as (o2 & Hst2 & Hc2 & Hs2 & Hv2).
    pose proof (step_trans loc [face] [] _ o2 s s1 _ Ed Hst2) as Hst. cbn [app] in Hst. cbv zeta in E.
    eapply (delivers_cons fin loc _ sent sent face f faces d (data_tags (set_congestionMark (Some 500)) d)); [done|done|exact Hst| |apply same_packet_tags| | | |].
    + apply Forall_app_2; [done|]. by eapply carries_packet; [apply same_packet_tags|].
    + by rewrite sent_faces_app, Hs, Hs2, app_nil_r.
    + rewrite val_faces_app, Hv, Hv2, Eg. apply andb_prop in Ea as [-> ->]. done.
    + by rewrite Eg, orb_false_r.
    + rewrite <- (proj1 Hst2) in *. by eapply IH.
  - eapply (delivers_cons fin loc _ sent sent face f faces d d); try done; [rewrite Hv, Eg; cbn [negb andb app]; by rewrite Ea|by rewrite Eg, orb_false_r|by eapply IH].
Qed.

Lemma bs_loop_step loc inFace fin p : forall faces sent d s d' s', ft_inv (fw_faceTable s) -> ft_get inFace (fw_faceTable s) = Some fin ->
  bs_loop sha256 loc inFace p sent faces d s = Ok (d', s') -> delivers fin loc (fw_faceTable s) sent faces d s s'.
Proof.
  induction faces as [|face faces IH]; intros sent d s d' s' Hi Hin E.
  { injection E as <- <-. exists []. split; [apply step_refl|]. split; [constructor|]. split; [done|]. unfold told. destruct sent, (isGeoFace fin); done. }
  cbn [bs_loop] in E. apply result_bind_Ok in E as (f & Hf & E). unfold get_face in Hf. destruct (ft_get face (fw_faceTable s)) as [f0|] eqn:Ef; [|done]. injection Hf as ->.
  pose proof (fi_id _ Hi face f Ef) as Hid. destruct (isGeoFace f) eqn:Eg, sent; cbn [negb andb] in E.
  - apply result_bind_Ok in E as (s1 & Ed & E). apply delete_step in Ed. pose proof (proj1 Ed) as Hft. rewrite <- Hft in *.
    apply (delivers_cons fin loc _ true true face f faces d d [] s s1 s'); [done|done|done|apply Forall_nil_2|done|by rewrite Eg|rewrite Eg; cbn [andb negb]; by rewrite andb_false_r|by rewrite Eg|by eapply IH].
  - apply result_bind_Ok in E as (e & _ & E). apply result_bind_Ok in E as (s1 & Ed & E). apply (sendDataToVal_step _ _ _ f _ _ _ _ Ef) in Ed. pose proof (proj1 Ed) as Hft. rewrite <- Hft in *.
    destruct (delivery_faces f d (Some (getNonceList e)) p) as (Hc & Hs & Hv). rewrite Hid in *.
    eapply (delivers_cons fin loc _ false true face f faces d d); [done|done|exact Ed|done|done|done|rewrite Hv, Eg; cbn [andb negb]; by rewrite andb_false_r, app_nil_r|by rewrite Eg|by eapply IH].
  - apply (bs_direct loc inFace fin p faces true d d' s s' face f IH Hi Hin Ef Eg E).
  - apply (bs_direct loc inFace fin p faces false d d' s s' face f IH Hi Hin Ef Eg E).
Qed.

Lemma add_route_step loc name face s : fw_inv cs_ok o counts None s -> (length name <= S getMaxDepth)%nat -> room (2 ^ 60) (fw_tables s) 1 ->
  exists s', add_route name face s = Ok s' /\ entry_at loc s' = entry_at loc s /\ step loc [] [] s s'.
Proof.
  intros Hi Hl Hr. assert (Hp : (length (getPrefix (-1) name) <= getMaxDepth)%nat).
  { rewrite getPrefix_minus1, length_take; [lia|]. unfold zlen, getMaxDepth in *. lia. }
  destruct (add_route_ok o (2 ^ 60) counts counts_1024 None (fw_tables s) (getPrefix (-1) name) face (fv_tables _ _ _ _ _ Hi) Hp Hr)
    as (x & b & t1 & t' & _ & _ & E1 & E2 & _ & [_ Hfr] & _).
  assert (Een : entry_at loc (with_tables t' s) = entry_at loc s) by (unfold entry_at, pit_deref; cbn; by rewrite Hfr).
  unfold add_route. rewrite E1. cbn [mbind result_bind fst]. rewrite E2. cbn [mbind result_bind]. eexists. split; [done|]. split; [done|].
  split; [done|]. split; [by rewrite app_nil_r|]. intros e He Hre. exists e. rewrite Een. by do 2 (split; [done|]).
Qed.

(** The in-records that have not expired. *)
Definition waiting (now : Z) (e : pit_Entry) (face : Z) : option InRecord :=
  r ← in_map e !! face; if now <? fr_expiry (ir_record r) then Some r else None.

Lemma pendingDownstreams_waiting now e face : records_ok e -> face ∈ pendingDownstreams now e <-> is_Some (waiting now e face).
Proof.
  intros Hr. unfold pendingDownstreams, waiting. rewrite sort_by_perm, list_elem_of_fmap. split.
  - intros (r & -> & Hin). apply list_elem_of_In, filter_In in Hin as [Hin Ht]. rewrite (proj2 (in_map_lookup e (in_face r) r Hr)) by (split; [by apply list_elem_of_In|done]).
    cbn. rewrite Ht. by eexists.
  - intros [r Hw]. apply bind_Some in Hw as (r0 & Hm & Hw). destruct (now <? _) eqn:E; [|done]. injection Hw as ->. apply in_map_lookup in Hm as [Hin <-]; [|done].
    exists r. split; [done|]. apply list_elem_of_In, filter_In. split; [by apply list_elem_of_In|done].
Qed.

Lemma first_geo_only t name fin faces l : isGeoFace fin = false -> l ≡ₚ first_geo t name faces ++ told t fin faces -> l = first_geo t name faces.
Proof.
  intros Hg. unfold told. rewrite Hg, app_nil_r. unfold first_geo. destruct (List.filter (on_face t isGeoFace) faces) as [|x k]; [apply Permutation_nil_r|]. cbn [take List.filter]. rewrite take_0. cbn [List.filter].
  destruct (on_face t (takes name) x); [apply Permutation_singleton_r|apply Permutation_nil_r].
Qed.

(** C11: Data that arrives, not on a network face of VAL, and matches a PIT entry, with a
    name that the tables take.  The broadcast strategy returns and keeps the
    invariant; it sends that packet, to every face with an in-record that has not expired,
    geofaces and faces on which the name may not leave apart, once each.  It hands it to VAL
    once through the first waiting geoface, if there is one on which the name may leave; and
    if the Data came through a geoface, it tells VAL once more, through that geoface, for each
    waiting face of an application.  The in-records that were waiting go and the others stay. *)
Theorem broadcast_data_delivery now s loc e inFace fin d :
  fw_inv cs_ok o counts None s -> attached (pit_entries (fw_tables s)) loc e -> matchesData sha256 (pit_interest e) d = Ok true ->
  (length (d_name d) <= S getMaxDepth)%nat -> ft_get inFace (fw_faceTable s) = Some fin -> isValNetFace fin = false -> room (2 ^ 60) (fw_tables s) 1 ->
  exists d' s' out e', bs_afterReceiveData sha256 now loc inFace d s = Ok (d', s') /\ fw_inv cs_ok o counts None s' /\
    fw_out s' = fw_out s ++ out /\ carries d out /\ NoDup (pendingDownstreams now e) /\
    (forall face, face ∈ pendingDownstreams now e <-> is_Some (waiting now e face)) /\
    sent_faces out = direct_faces (fw_faceTable s) (d_name d) (pendingDownstreams now e) /\
    val_faces out ≡ₚ first_geo (fw_faceTable s) (d_name d) (pendingDownstreams now e) ++ told (fw_faceTable s) fin (pendingDownstreams now e) /\
    (isGeoFace fin = false -> val_faces out = first_geo (fw_faceTable s) (d_name d) (pendingDownstreams now e)) /\
    entry_at loc s' = Ok e' /\ forall face, in_map e' !! face = if decide (is_Some (waiting now e face)) then None else in_map e !! face.
Proof.
  intros Hi Ha Hm Hl Hf Hv Hr. destruct (attached_entry cs_ok o counts None s loc e Hi Ha) as (Ee & Hre & _).
  destruct (bs_afterReceiveData_safe sha256 cs_ok o (2 ^ 60) counts counts_1024 now s loc e inFace d Hi Ha Hm Hl) as (d' & s' & E & _ & Hi' & _);
    [exists fin; split; [done|]; split; [by apply (fi_id _ (fv_faces _ _ _ _ _ Hi))|done]|done|].
  assert (Hd : delivers fin loc (fw_faceTable s) false (pendingDownstreams now e) d s s').
  { revert E. unfold bs_afterReceiveData, base_beforeSatisfyInterest, get_face. cbn [mbind result_bind]. rewrite Hf. cbn [mbind result_bind]. destruct (isGeoFace fin).
    - destruct (add_route_step loc (d_name d) inFace s Hi Hl Hr) as (s1 & -> & Ee1 & Hst). cbn [mbind result_bind]. rewrite Ee1, Ee. cbn [mbind result_bind]. pose proof (proj1 Hst) as Hft.
      intros E. apply (bs_loop_step loc inFace fin) in E; [|rewrite Hft; apply Hi|by rewrite Hft]. rewrite Hft in E. destruct E as (out & Hst2 & Hrest).
      exists out. split; [exact (step_trans loc [] _ [] out s s1 s' Hst Hst2)|exact Hrest].
    - cbn [mbind result_bind]. rewrite Ee. cbn [mbind result_bind]. intros E. apply (bs_loop_step loc inFace fin) in E; [done|apply Hi|done]. }
  destruct Hd as (out & (_ & Ho & Hen) & Hc & Hs & Hval). destruct (Hen e Ee Hre) as (e' & Ee' & _ & Hm').
  exists d', s', out, e'. do 4 (split; [done|]). split; [|split; [intros; by apply pendingDownstreams_waiting|do 2 (split; [done|]); split; [intros Hg; by apply (first_geo_only _ _ fin)|split; [done|]]]].
  - unfold pendingDownstreams. rewrite sort_by_perm. eapply sublist_NoDup; [apply (ro_in _ Hre)|]. apply fmap_sublist, filter_sublist.
  - intros face. rewrite Hm'. pose proof (pendingDownstreams_waiting now e face Hre). by case_bool_decide; destruct (decide _); tauto.
Qed.
End delivery.

(** A forwarder with a content store, the broadcast strategy and one application. *)
Definition sample_app : Face := Face_new (str "appFace://") true LINK_TYPE_POINT_TO_POINT.
Definition sample_run : list (Z * fw_event) :=
  [(1, AddFace sample_app); (2, ReceiveInterest 256 (sample_interest [mkComponent 8 (str "a")] 0)); (3, RunTimer)].
#[local] Instance sample_addresses : FaceAddresses := fun id => id.
#[local] Existing Instance mark_hash.
#[local] Existing Instance mark_seeded.
#[local] Instance sample_content_store : ContentStore Cs := Cs_ContentStore sample_sha256.
Definition sample_strategies (name : Name) : Strategy Cs := BroadcastStrategy sample_sha256.
Definition sample_forwarder : result (Forwarder Cs) := Forwarder_new sample_registry 0 (mkCs [] 0 [] 10 true true).

Lemma sel_fine_made s : (exists w s', Selectors_wireEncode s = Ok w /\ Selectors_wireDecode w = Ok s' /\
    sel_minSuffixComponents s' = sel_minSuffixComponents s /\ sel_maxSuffixComponents s' = sel_maxSuffixComponents s /\
    sel_publisherPublicKeyLocator s' = sel_publisherPublicKeyLocator s /\ sel_exclude s' = sel_exclude s) ->
  KeyLocator_empty (sel_publisherPublicKeyLocator s) = true -> sel_fine s.
Proof.
  intros (w & s' & E & D & E1 & E2 & E3 & E4) Hk. split; [|by left]. exists w, s'. split; [done|]. split; [done|]. intros sha256 i d. unfold matchesData, matches_exclude, matches_locator. cbn.
  by rewrite E1, E2, E3, E4.
Qed.

Definition empty_store : Cs := mkCs [] 0 [] 10 true true.
Lemma empty_store_fine : cs_fine sample_sha256 empty_store.
Proof.
  destruct (Cs_new_ok sample_sha256 10) as (c & E & Hi & _); [done|]. assert (c = empty_store) as -> by (apply (inj Ok); by rewrite <- E).
  split; [done|]. intros e He. by apply not_elem_of_nil in He.
Qed.

(** What an event needs of the state, as a test. *)
Definition sample_test (now : Z) (ev : fw_event) (s : Forwarder Cs) : bool :=
  match ev with
  | AddFace f => (face_id f =? INVALID_FACEID) && (m_lastFaceId (fw_faceTable s) <? 2 ^ 64 - 1)
  | ReceiveInterest face i => bool_decide (((fun f => (face_id f, isValNetFace f)) <$> ft_get face (fw_faceTable s)) = Some (face, false)) && (m_htSize (t_nameTree (fw_tables s)) <? 1000)
      && (expiry_of now i <? 2 ^ 63) &&
      match tag_nextHopFaceId (i_tags i) ≫= fun nh => ft_get nh (fw_faceTable s) with Some f => negb (isValNetFace f) | None => true end
  | RunTimer => zlen (dnl_queue (fw_deadNonceList s)) <? 2 ^ 63 - 2
  | _ => false
  end.

Lemma sample_test_ok now ev s : sample_test now ev s = true ->
  (forall face i, ev = ReceiveInterest face i -> sel_fine (i_selectors i) /\ lookup_ok i /\ (length (i_name i) <= 3)%nat) ->
  admissible sample_sha256 (2 ^ 60) now s ev.
Proof.
  intros Ht Hi. destruct ev as [face i| | | |f| |]; try done; cbn in Ht |- *.
  - destruct (Hi face i eq_refl) as (Hs & Hl & Hlen). apply andb_prop in Ht as [Ht Hnh]. apply andb_prop in Ht as [Ht Hx]. apply andb_prop in Ht as [Hf Hr]. zbool. apply bool_decide_eq_true in Hf.
    apply fmap_Some in Hf as (f & Hf & [= -> Hv]). split; [|unfold room, getMaxDepth; lia]. split; [by exists f|done|unfold getMaxDepth; lia|done|done|].
    intros nh f' Et Ef'. rewrite Et in Hnh. cbn in Hnh. rewrite Ef' in Hnh. by apply negb_true_iff in Hnh.
  - apply andb_prop in Ht as [? ?]. by zbool.
  - by zbool.
Qed.
(** The tests of a run, each in the state in which the event happens. *)
Fixpoint sample_tests (evs : list (Z * fw_event)) (s : Forwarder Cs) : bool :=
  match evs with
  | [] => true
  | (now, ev) :: evs => sample_test now ev s &&
    match fw_handle sample_sha256 sample_strategies now ev s with Ok s' => sample_tests evs s' | Err _ => false end
  end.
Lemma sample_tests_ok evs : (forall now face i, (now, ReceiveInterest face i) ∈ evs -> sel_fine (i_selectors i) /\ lookup_ok i /\ (length (i_name i) <= 3)%nat) ->
  forall s, sample_tests evs s = true -> admissible_run sample_sha256 sample_strategies evs s.
Proof.
  induction evs as [|[now ev] evs IH]; intros Hin s Ht; [done|]. cbn in Ht |- *. apply andb_prop in Ht as [Ht Hn]. split.
  - apply sample_test_ok; [exact Ht|]. intros face i ->. apply (Hin now face). left.
  - intros s' E. rewrite E in Hn. apply IH; [|exact Hn]. intros now' face i Hi. apply (Hin now' face). by right.
Qed.

Lemma forwarder_safety_witness : exists s s', sample_forwarder = Ok s /\ fw_run sample_sha256 sample_strategies sample_run s = Ok s'.
Proof.
  destruct (forwarder_safety sample_sha256 (cs_fine sample_sha256) sample_strategies (Hst := fun name => BroadcastStrategy_laws sample_sha256 _ _ _ _ counts_1024)
    sample_registry 0 empty_store (strategy_name "best-route" 5) sample_run) as (s & s' & E & Er & _).
  - by vm_compute.
  - apply empty_store_fine.
  - intros s E. apply sample_tests_ok.
    + clear E. intros now face i Hin. assert (i = sample_interest [mkComponent 8 (str "a")] 0) as ->.
      { unfold sample_run in Hin. rewrite !elem_of_cons, elem_of_nil in Hin. by destruct Hin as [[=]|[[=]|[[=]|[]]]]. }
      split; [|split; [split; [repeat constructor|done|done]|cbn; lia]]. apply sel_fine_made; [|done]. eexists _, _. split; [vm_compute; reflexivity|]. split; [vm_compute; reflexivity|]. by vm_compute.
    + assert (Ht : match Forwarder_new sample_registry 0 empty_store with Ok s => sample_tests sample_run s | Err _ => false end = true) by (vm_compute; reflexivity).
      rewrite E in Ht. exact Ht.
  - exists s, s'. split; [exact E|exact Er].
Defined.

(** An Interest of one application for another, which does not answer in its second. *)
Definition tagged_interest : Interest :=
  mkInterest [mkComponent 8 (str "a"); mkComponent 8 (str "b")] Selectors_new true 7 1000 DelegationList_new Block_default None (set_nextHopFaceId (Some 257) no_tags).
Definition unanswered_run : list (Z * fw_event) :=
  [(1, AddFace sample_app); (2, AddFace sample_app); (3, ReceiveInterest 256 tagged_interest)].
Definition unanswered : result (Forwarder Cs) :=
  let* s := Forwarder_new sample_registry 0 empty_store in fw_run sample_sha256 sample_strategies unanswered_run s.

Lemma unanswered_ok : exists s, unanswered = Ok s /\ fw_inv (cs_fine sample_sha256) o counts None s.
Proof.
  destruct (Forwarder_new_ok (cs_fine sample_sha256) sample_registry 0 empty_store (strategy_name "best-route" 5)) as (s & E & Hi & _); [by vm_compute|apply empty_store_fine|].
  unfold unanswered. assert (Ht : match Forwarder_new sample_registry 0 empty_store with Ok s => sample_tests unanswered_run s | Err _ => false end = true) by (vm_compute; reflexivity).
  rewrite E in Ht |- *. clear E. cbn [mbind result_bind].
  apply (fw_run_ok sample_sha256 (cs_fine sample_sha256) sample_strategies (Hst := fun name => BroadcastStrategy_laws sample_sha256 _ _ _ _ counts_1024)); [exact Hi|].
  apply sample_tests_ok; [|exact Ht]. clear. intros now face i Hin. unfold unanswered_run in Hin. rewrite !elem_of_cons, elem_of_nil in Hin.
  destruct Hin as [[=]|[[=]|[[= -> -> ->]|[]]]]. split; [|split; [split; [repeat constructor|done|done]|cbn; lia]].
  apply sel_fine_made; [|done]. eexists _, _. split; [vm_compute; reflexivity|]. split; [vm_compute; reflexivity|]. by vm_compute.
Qed.

Lemma expired_entry_witness : exists s s' s2, unanswered = Ok s /\ run_timer 2000000000 s = Ok s' /\ pit_map (fw_tables s') = ∅ /\
  onIncomingInterest sample_strategies 3000000000 257 tagged_interest s' = Ok s2 /\ fw_tables s2 = fw_tables s'.
Proof.
  destruct unanswered_ok as (s & E & Hi).
  assert (Hp : exists ev q e r, (pop_due 2000000000 (t_timers (fw_tables s)) = Some (ev, q) /\ ev_callback ev = PitExpiry 0) /\
    pit_entries (fw_tables s) !! 0%nat = Some e /\ pit_outRecords e = [r] /\
    (pit_isSatisfied e = false /\ i_name tagged_interest = i_name (pit_interest e) /\ getNonce tagged_interest = fr_lastNonce (or_record r)) /\
    (1 <=? dnl_capacity (fw_deadNonceList s)) = true /\ (isValNetFace <$> ft_get 257 (fw_faceTable s)) = Some false /\ pit_map (fw_tables s) = {[pit_key e := 0%nat]}).
  { assert (Ok s = unanswered) as Es by done. clear E Hi. vm_compute in Es. injection Es as ->. eexists _, _, _, _. split; [split; reflexivity|]. split; [reflexivity|]. split; [reflexivity|]. split; [split; [reflexivity|split; reflexivity]|]. split; [reflexivity|]. split; reflexivity. }
  destruct Hp as (ev & q & e & r & [Hpop Hc] & He & Hr & (Hu & Hn & Hnc) & Hcap & (f & Hf & Hv)%fmap_Some & Hm).
  destruct (expired_entry (cs_fine sample_sha256) 2000000000 s ev q 0 Hi Hpop Hc) as (e' & s' & [Ha _] & Er & Hi' & Hm' & Hft & _ & Hdead).
  rewrite He in Ha. injection Ha as <-. rewrite Hm, delete_singleton_eq in Hm'.
  destruct (Hdead Hu) with (r := r) (strategies := sample_strategies) (now' := 3000000000) (face := 257) (f := f) (i := tagged_interest) as (s2 & E2 & Et & _).
  - rewrite Hr. by apply Z.leb_le in Hcap.
  - rewrite Hr. left.
  - exact Hn.
  - exact Hnc.
  - rewrite Hft. exact Hf.
  - symmetry. exact Hv.
  - exists s, s', s2. split; [exact E|]. split; [exact Er|]. split; [exact Hm'|]. split; [exact E2|exact Et].
Defined.

(** The application answers in time. *)
Definition answer : Data :=
  mkData (i_name tagged_interest) MetaInfo_new (Block_ofType tlv_Content) Signature_new (Some (element tlv_Data [])) no_tags.
Lemma broadcast_data_delivery_witness : exists s d' s' out, unanswered = Ok s /\
  bs_afterReceiveData sample_sha256 500 0 257 answer s = Ok (d', s') /\ fw_out s' = fw_out s ++ out /\ sent_faces out = [256] /\ val_faces out = [].
Proof.
  destruct unanswered_ok as (s & E & Hi).
  assert (Hp : exists e f, pit_entries (fw_tables s) !! 0%nat = Some e /\ is_Some (pit_nte e) /\ matchesData sample_sha256 (pit_interest e) answer = Ok true /\
    (ft_get 257 (fw_faceTable s) = Some f /\ isGeoFace f = false /\ isValNetFace f = false) /\ m_htSize (t_nameTree (fw_tables s)) = 3 /\
    direct_faces (fw_faceTable s) (d_name answer) (pendingDownstreams 500 e) = [256] /\ first_geo (fw_faceTable s) (d_name answer) (pendingDownstreams 500 e) = []).
  { assert (Ok s = unanswered) as Es by done. clear E Hi. vm_compute in Es. injection Es as ->. eexists _, _. split; [reflexivity|]. split; [by eexists|].
    split; [vm_compute; reflexivity|]. split; [split; [reflexivity|split; reflexivity]|]. split; [reflexivity|]. split; vm_compute; reflexivity. }
  destruct Hp as (e & f & He & Hnte & Hm & (Hf & Hg & Hnv) & Hsz & Hd & Hv).
  destruct (broadcast_data_delivery sample_sha256 (cs_fine sample_sha256) 500 s 0 e 257 f answer Hi (conj He Hnte) Hm) as (d' & s' & out & e' & Eb & _ & Ho & _ & _ & _ & Hs & _ & Hvs & _).
  - cbn. unfold getMaxDepth. lia.
  - exact Hf.
  - exact Hnv.
  - clear -Hsz. unfold room, getMaxDepth. lia.
  - exists s, d', s', out. split; [exact E|]. split; [exact Eb|]. split; [exact Ho|]. split; [by rewrite Hs|by rewrite (Hvs Hg)].
Defined.
