(* ===== verification/StrategyProps.v ===== *)
(** * Properties of NFD's strategies

    Which next hops the best-route and multicast strategies choose, how often they
    retransmit, and how Nacks from upstreams are passed on. *)

From stdpp Require Import base gmap list sets strings.
From Stdlib Require Import ZArith Lia.
From S2P Require Import Prelude Tlv Encoder Block Codec Ndn NameTlv NameSuccessor Signature Exclude Selectors Data Interest LpPacket FaceTable Double Hashtable NameTree Scheduler NfdTables Fib Pit Cleanup DeadNonceList Cs Algorithm RetxSuppression Measurements StrategyChoice Forwarder Strategies TablesInv StrategyChoiceProps ForwarderInv ForwarderSafety StrategySafety CsStore ForwarderProps.

Local Open Scope Z_scope.

#[local] Abbreviation o := (HashtableOptions_new 1024).
#[local] Abbreviation counts := (power_counts 1024).

Section choices.
Context {C : Type} `{HashFunction} `{StdSort} `{!StdSortLaws} `{SeededHash} `{FaceAddresses} `{UnorderedFaces} `{!UnorderedLaws} (cs_ok : C -> Prop).
Implicit Types (s : Forwarder C) (loc : nat).

(** C12: the default strategy never fails.  An Interest for which nothing is pending goes
    to the cheapest eligible next hop, and without one it is answered with a NO_ROUTE Nack
    and its entry expires at once.  A retransmission is dropped as long as the suppression
    interval has not passed since the last transmission of the entry; afterwards the
    interval doubles up to 250 ms, and the Interest goes to the cheapest eligible next hop
    with nothing pending or else to the eligible one that was used least recently. *)
Theorem best_route_choice now s loc e inFace fin i :
  fw_inv cs_ok o counts None s -> attached (pit_entries (fw_tables s)) loc e -> pit_key e = interest_key i -> sel_fine (i_selectors i) ->
  expiry_of now i < 2 ^ 63 -> ft_get inFace (fw_faceTable s) = Some fin -> isValNetFace fin = false ->
  exists r hops s' e' out, lookupFib loc s = Ok r /\ nexthops_at r s = Ok hops /\ br2_afterReceiveInterest now inFace i loc s = Ok s' /\
    fw_inv cs_ok o counts None s' /\ attached (pit_entries (fw_tables s')) loc e' /\ fw_out s' = fw_out s ++ out /\
    best_route (fw_faceTable s) fin i e now hops out (interval_of (pit_info e')) /\
    (hasPendingOutRecords now e = false -> none_of (eligible (fw_faceTable s) fin i e false TimePoint_min) hops ->
     exists id, mkEvent id now (PitExpiry loc) ∈ m_queue (t_timers (fw_tables s'))).
Proof.
  intros Hi Ha Hk Hs Hx Hf Hv. destruct (br2_interest_ok cs_ok o counts now s loc e inFace fin i Hi Ha Hk Hs Hx Hf Hv)
    as (r & hops & s' & e' & out & E1 & E2 & E3 & Hi' & _ & Ha' & Eo & Hbr & Hev). by exists r, hops, s', e', out.
Qed.

(** C13: the multicast strategy never fails.  The Interest, which did not come from a network
    face of VAL, goes exactly once to each next
    hop that its scope allows and whose suppression interval has passed since the Interest
    was last sent there; if there is none, and none is suppressed either, a NO_ROUTE Nack
    goes back.  The face that the Interest came from is not excepted: the test for it is
    commented out (multicast-strategy.cpp:88), while the unit tests Forward2 and RejectLoopback
    still expect it. *)
Theorem multicast_reach now s loc e inFace fin i :
  fw_inv cs_ok o counts None s -> attached (pit_entries (fw_tables s)) loc e -> pit_key e = interest_key i -> sel_fine (i_selectors i) ->
  expiry_of now i < 2 ^ 63 -> ft_get inFace (fw_faceTable s) = Some fin -> isValNetFace fin = false ->
  exists r hops s' targets, lookupFib loc s = Ok r /\ nexthops_at r s = Ok hops /\ mc_afterReceiveInterest now inFace i loc s = Ok s' /\
    fw_inv cs_ok o counts None s' /\ NoDup (face_id <$> targets) /\
    (forall f, f ∈ targets <-> exists nh, nh ∈ hops /\ ft_get (nh_face nh) (fw_faceTable s) = Some f /\
       suppressed now e (nh_face nh) = false /\ wouldViolateScope fin i f = false) /\
    fw_out s' = fw_out s ++ ((fun f => interest_output f i) <$> targets) ++
      (if bool_decide (targets = []) && negb (existsb (fun nh => suppressed now e (nh_face nh)) hops) then nack_output fin e NackReason_NO_ROUTE else []).
Proof.
  intros Hi Ha Hk Hs Hx Hf Hv. destruct (mc_interest_ok cs_ok o counts now s loc e inFace fin i Hi Ha Hk Hs Hx Hf Hv)
    as (r & hops & s' & out & E1 & E2 & E3 & Hi' & _ & Eo & Hm). exists r, hops, s', (mc_targets (fw_faceTable s) fin i e now [] hops).
  destruct (mc_targets_spec (fw_faceTable s) fin i e now hops [] (fv_faces _ _ _ _ _ Hi)) as (T1 & T2 & T3).
  do 4 (split; [done|]). split; [done|]. split; [intros f; split; [intros Hin; by apply T1|intros (nh & Hin & Hfn & Hns & Hsc); by apply (T2 nh f Hin (not_elem_of_nil _))]|].
  rewrite Eo. f_equal. unfold multicast in Hm. destruct (bool_decide _) eqn:Et; cbn [andb] in *; [apply bool_decide_eq_true in Et; rewrite Et in *|by rewrite app_nil_r].
  destruct (existsb _ hops); [by rewrite Hm|exact Hm].
Qed.

(** C14: when a Nack from an upstream has been recorded, the strategies pass on the
    least severe of the recorded reasons: to every downstream if all upstreams have
    nacked, to the only upstream that has not nacked if it is a downstream too, and to
    nobody otherwise.  The entry keeps everything but the in-records that were answered. *)
Theorem nack_processing s loc e :
  fw_inv cs_ok o counts None s -> attached (pit_entries (fw_tables s)) loc e ->
  exists s' e' out reason, processNack loc s = Ok s' /\ fw_inv cs_ok o counts None s' /\ attached (pit_entries (fw_tables s')) loc e' /\
    fw_out s' = fw_out s ++ out /\ nack_outcome (fw_faceTable s) e reason out /\
    (reason = NackReason_NONE \/ reason ∈ nack_reasons (pit_outRecords e)) /\
    (forall reason', reason' ∈ nack_reasons (pit_outRecords e) -> isLessSevere reason' reason = false) /\
    e' = with_inRecords (pit_inRecords e') (pit_nonceList e') e.
Proof.
  intros Hi Ha. destruct (processNack_ok cs_ok o counts s loc e Hi Ha) as (s' & e' & out & reason & E & Hi' & _ & Ha' & Eo & Hn & Hr1 & Hr2 & Ee).
  by exists s', e', out, reason.
Qed.
End choices.

(** ** Examples: two applications and a route to the second *)
#[local] Instance sample_addresses' : FaceAddresses := fun id => id.
#[local] Instance sample_unordered : UnorderedFaces := fun l => l.
#[local] Instance sample_unordered_laws : UnorderedLaws.
Proof. split. done. Qed.
#[local] Existing Instance mark_hash.
#[local] Existing Instance mark_seeded.
#[local] Instance sample_content_store' : ContentStore Cs := Cs_ContentStore sample_sha256.

Definition routed : result (Forwarder Cs) := let* s := unanswered in add_route (i_name tagged_interest) 257 s.

(** What the examples need of the state, evaluated. *)
Definition routed_facts (s : Forwarder Cs) : Prop :=
  exists e fin f, (pit_entries (fw_tables s) !! 0%nat = Some e /\ is_Some (pit_nte e) /\ pit_key e = interest_key tagged_interest) /\
    (ft_get 256 (fw_faceTable s) = Some fin /\ isValNetFace fin = false) /\ (ft_get 257 (fw_faceTable s) = Some f /\ interest_output f tagged_interest = SendInterest 257 tagged_interest) /\
    (let* r := lookupFib 0 s in nexthops_at r s) = Ok [mkNextHop 257 0 1] /\
    (hasPendingOutRecords 1500000000 e = false /\ eligible (fw_faceTable s) fin tagged_interest e false TimePoint_min (mkNextHop 257 0 1) = true) /\
    suppressed 1500000000 e 257 = false /\ wouldViolateScope fin tagged_interest f = false.
Lemma tagged_fine : sel_fine (i_selectors tagged_interest).
Proof. apply sel_fine_made; [|done]. eexists _, _. split; [vm_compute; reflexivity|]. split; [vm_compute; reflexivity|]. by vm_compute. Qed.
Lemma routed_ok : exists s, routed = Ok s /\ fw_inv (cs_fine sample_sha256) o counts None s /\ routed_facts s.
Proof.
  destruct unanswered_ok as (s & E & Hi).
  assert (Hp : m_htSize (t_nameTree (fw_tables s)) = 3 /\ exists f, ft_get 257 (fw_faceTable s) = Some f /\ face_id f = 257 /\ isValNetFace f = false).
  { assert (Ok s = unanswered) as Es by done. clear E Hi. vm_compute in Es. injection Es as ->. split; [reflexivity|]. eexists. split; [reflexivity|]. split; reflexivity. }
  destruct Hp as [Hsz Hf]. destruct (add_route_safe (cs_fine sample_sha256) o (2 ^ 60) counts counts_1024 None s (i_name tagged_interest) 257 Hi) as (s' & E' & Hi' & _).
  - cbn. unfold getMaxDepth. lia.
  - clear -Hsz. unfold room, getMaxDepth. lia.
  - exact Hf.
  - exists s'. assert (Er : routed = Ok s') by (unfold routed; rewrite E; exact E'). split; [exact Er|]. split; [exact Hi'|].
    clear -Er. vm_compute in Er. apply (inj Ok) in Er. subst s'. eexists _, _, _. split; [split; [reflexivity|split; [by eexists|vm_compute; reflexivity]]|].
    split; [split; reflexivity|]. split; [split; reflexivity|]. split; [vm_compute; reflexivity|]. split; [split; vm_compute; reflexivity|]. split; vm_compute; reflexivity.
Qed.

Lemma best_route_choice_witness : exists s s', routed = Ok s /\ br2_afterReceiveInterest 1500000000 256 tagged_interest 0 s = Ok s' /\
  fw_out s' = fw_out s ++ [SendInterest 257 tagged_interest].
Proof.
  destruct routed_ok as (s & E & Hi & e & fin & f & (He & Hn & Hk) & (Hfin & Hv) & (Hf & Ho) & Eh & (Hp & Hel) & _).
  destruct (best_route_choice (cs_fine sample_sha256) 1500000000 s 0 e 256 fin tagged_interest Hi (conj He Hn) Hk tagged_fine) as (r & hops & s' & e' & out & E1 & E2 & E3 & _ & _ & Eo & Hbr & _).
  - vm_compute. reflexivity.
  - exact Hfin.
  - exact Hv.
  - rewrite E1 in Eh. cbn [mbind result_bind] in Eh. rewrite E2 in Eh. injection Eh as ->. exists s, s'. split; [exact E|]. split; [exact E3|]. rewrite Eo. f_equal.
    clear -Hp Hel Hf Ho Hbr. destruct Hbr as [nh f' _ Hc Hf'|_ Hc|r0 Hp' _ _|out Hp' _ _].
    + destruct Hc as (Hin & _ & _). apply list_elem_of_singleton in Hin as ->. cbn [nh_face] in Hf'. rewrite Hf in Hf'. injection Hf' as <-. by rewrite Ho.
    + specialize (Hc (mkNextHop 257 0 1)). rewrite Hel in Hc. discriminate Hc. left.
    + congruence.
    + congruence.
Defined.

Lemma multicast_reach_witness : exists s s' targets, routed = Ok s /\ mc_afterReceiveInterest 1500000000 256 tagged_interest 0 s = Ok s' /\ targets <> [] /\
  fw_out s' = fw_out s ++ ((fun f => interest_output f tagged_interest) <$> targets).
Proof.
  destruct routed_ok as (s & E & Hi & e & fin & f & (He & Hn & Hk) & (Hfin & Hv) & (Hf & Ho) & Eh & _ & Hsup & Hsc).
  destruct (multicast_reach (cs_fine sample_sha256) 1500000000 s 0 e 256 fin tagged_interest Hi (conj He Hn) Hk tagged_fine) as (r & hops & s' & targets & E1 & E2 & E3 & _ & _ & Ht & Eo).
  - vm_compute. reflexivity.
  - exact Hfin.
  - exact Hv.
  - rewrite E1 in Eh. cbn [mbind result_bind] in Eh. rewrite E2 in Eh. injection Eh as ->.
    assert (Hin : f ∈ targets) by (apply Ht; exists (mkNextHop 257 0 1); split; [left|split; [exact Hf|split; [exact Hsup|exact Hsc]]]).
    assert (Hne : targets <> []) by (clear -Hin; intros ->; by apply not_elem_of_nil in Hin). exists s, s', targets. split; [exact E|]. split; [exact E3|].
    split; [exact Hne|]. rewrite Eo, (bool_decide_false (targets = [])) by exact Hne. cbn [andb]. rewrite app_nil_r. reflexivity.
Defined.

(** The second application refuses. *)
Definition refused : result (Forwarder Cs) := let* s := unanswered in onIncomingNack sample_strategies 4 257 tagged_interest NackReason_CONGESTION s.
Lemma refused_ok : exists s, refused = Ok s /\ fw_inv (cs_fine sample_sha256) o counts None s /\
  exists e i, pit_entries (fw_tables s) !! 0%nat = Some e /\ is_Some (pit_nte e) /\ List.filter not_nacked (pit_outRecords e) = [] /\ in_face <$> pit_inRecords e = [256] /\
    nack_reasons (pit_outRecords e) = [NackReason_CONGESTION] /\
    nack_outputs (fw_faceTable s) e NackReason_CONGESTION [256] = [SendNack 256 i NackReason_CONGESTION].
Proof.
  destruct unanswered_ok as (s & E & Hi).
  assert (Hp : m_htSize (t_nameTree (fw_tables s)) = 3 /\ exists f, ft_get 257 (fw_faceTable s) = Some f /\ face_id f = 257 /\ isValNetFace f = false).
  { assert (Ok s = unanswered) as Es by done. clear E Hi. vm_compute in Es. injection Es as ->. split; [reflexivity|]. eexists. split; [reflexivity|]. split; reflexivity. }
  destruct Hp as [Hsz Hf].
  destruct (onIncomingNack_safe sample_sha256 (cs_fine sample_sha256) o (2 ^ 60) counts sample_strategies
    (Hst := fun name => BroadcastStrategy_laws sample_sha256 _ _ _ _ counts_1024) 4 s 257 tagged_interest NackReason_CONGESTION Hi Hf tagged_fine) as (s' & E' & Hi' & _).
  - clear -Hsz. unfold room, getMaxDepth. lia.
  - exists s'. assert (Er : refused = Ok s') by (unfold refused; rewrite E; exact E'). split; [exact Er|]. split; [exact Hi'|].
    clear -Er. vm_compute in Er. apply (inj Ok) in Er. subst s'. eexists _, _. split; [reflexivity|]. split; [by eexists|]. split; [reflexivity|]. split; [reflexivity|]. split; vm_compute; reflexivity.
Qed.

Lemma nack_processing_witness : exists s s' i, refused = Ok s /\ processNack 0 s = Ok s' /\ fw_out s' = fw_out s ++ [SendNack 256 i NackReason_CONGESTION].
Proof.
  destruct refused_ok as (s & E & Hi & e & i & He & Hn & Hnn & Hin & Hr & Hout).
  destruct (nack_processing (cs_fine sample_sha256) s 0 e Hi (conj He Hn)) as (s' & e' & out & reason & E' & _ & _ & Eo & Ho & Hr1 & Hr2 & _).
  exists s, s', i. split; [exact E|]. split; [exact E'|]. rewrite Eo, <-Hout. clear E E' Hi Eo Hout. f_equal. rewrite Hr in Hr1, Hr2.
  assert (reason = NackReason_CONGESTION) as ->.
  { destruct Hr1 as [->|Hr1]; [|by apply list_elem_of_singleton in Hr1]. specialize (Hr2 NackReason_CONGESTION). discriminate Hr2. left. }
  destruct Ho as [faces _ Hp|r Hf|Hf _]; [|congruence|congruence]. rewrite Hin in Hp. apply Permutation_singleton_r in Hp as ->. reflexivity.
Defined.
