(* ===== verification/Node.v ===== *)
(** * A node: NFD and VAL together (model/ndn-l3-protocol.cpp,
    model/val/fw/val-forwarder.cpp, model/val/face/val-dummy-link-service.cpp)

    The two forwarders of a node share the face table.  What VAL hands to NFD through a
    geoface enters NFD's pipelines at once, and what NFD sends through a geoface is
    handled by VAL at once; neither call comes back before its caller is done with its own
    state, so that the calls can be carried out one after the other.

    The model keeps the shared table in both parts and copies it from the one that has
    run to the other.  The scheduler, which the forwarders share too, is split into its
    events for NFD and for VAL; they may be executed in any order here. *)

From stdpp Require Import base gmap list sets strings.
From Stdlib Require Import ZArith Lia.
From S2P Require Import Prelude Tlv Encoder Block Codec ValHeader Ndn NameTlv Signature Selectors Data Interest ValPacket ValTables FaceTable Double Hashtable NameTree Scheduler Pft ValStrategy ValForwarder NfdTables Fib Pit Cleanup DeadNonceList Algorithm Measurements StrategyChoice Forwarder.

Local Open Scope Z_scope.

Record Node (C : Type) := mkNode {
  n_forwarder : Forwarder C;
  n_val : ValForwarder.ValForwarder;
}.
Arguments mkNode {C} _ _.
Arguments n_forwarder {C} _.
Arguments n_val {C} _.

(** What leaves the node: VAL packets on network faces, and what NFD does besides calling
    VAL. *)
Inductive node_output : Type :=
  | ToNetwork (entry : nat) (faceId : Z) (valPkt : ValPacket)
  | FromNfd (x : fw_output).

Inductive node_event : Type :=
  | NetworkPacket (faceId : Z) (valP : ValPacket)
  | NfdEvent (ev : fw_event)
  | ValTimer.

Section node.
Context {C : Type} `{HashFunction} `{StdSort} `{SeededHash} `{ContentStore C} `{ValStrategy.Strategy} (sha256 : octets -> octets).
Context (strategies : Name -> Forwarder.Strategy C).
Implicit Types (n : Node C) (s : Forwarder C) (v : ValForwarder.ValForwarder).

Definition clear_out s : Forwarder C :=
  mkForwarder (fw_tables s) (fw_faceTable s) (fw_deadNonceList s) (fw_networkRegionTable s) (fw_cs s) (fw_counters s) [].

(** The calls of NFD that VAL handles, in their order; each call of the strategy draws its
    own random value. *)
Definition doSendInterestToVal (e : env) (face : Z) (interest : Interest) v : result ValForwarder.ValForwarder :=
  reveiceInterest e face interest v.
Definition doSendDataToVal (e : env) (face : Z) (data : Data) (nonceList : option (list Z)) (isProducer : bool) v
  : result ValForwarder.ValForwarder :=
  match nonceList with
  | Some nonceList => reveiceData e face data nonceList isProducer v
  | None =>
    if getCongestionMark (d_tags data) =? 501 then reveiceData e face data [] isProducer v
    else Err (UndefinedBehaviour "null nonce list")
  end.
Fixpoint val_calls (e : env) (random : list double) (outs : list fw_output) v : result (list node_output * ValForwarder.ValForwarder) :=
  match outs with
  | [] => Ok ([], v)
  | x :: outs =>
    let e' := mkEnv (e_now e) (e_position e) (default (e_random e) (head random)) in
    match x with
    | InterestToVal face interest =>
      let* v := doSendInterestToVal e' face interest v in val_calls e (tail random) outs v
    | DataToVal face data nonceList isProducer =>
      let* v := doSendDataToVal e' face data nonceList isProducer v in val_calls e (tail random) outs v
    | _ => let* (o, v) := val_calls e random outs v in Ok (FromNfd x :: o, v)
    end
  end.

(** An event of NFD, with what it makes VAL do. *)
Definition nfd_event (e : env) (random : list double) (ev : fw_event) n : result (list node_output * Node C) :=
  let* s := fw_handle sha256 strategies (e_now e) ev (clear_out (n_forwarder n)) in
  let* (o, v) := val_calls e random (fw_out s) (n_val n) in
  Ok (o, mkNode (clear_out s) (with_faceTable (fw_faceTable s) v)).

(** What VAL does outside its state: transmissions, and packets for NFD. *)
Fixpoint nfd_calls (e : env) (random : list double) (outs : list output) n : result (list node_output * Node C) :=
  match outs with
  | [] => Ok ([], n)
  | x :: outs =>
    let* (o, n) := match x with
      | SendValPacket entry faceId valPkt => Ok ([ToNetwork entry faceId valPkt], n)
      | InterestToNfd geoface interest => nfd_event e random (ReceiveInterest geoface interest) n
      | DataToNfd geoface data => nfd_event e random (ReceiveData geoface data) n
      end in
    let* (o', n) := nfd_calls e random outs n in
    Ok (o ++ o', n)
  end.
Definition val_event (e : env) (random : list double) (ev : ValForwarder.val_event) n : result (list node_output * Node C) :=
  let* (outs, v) := val_step e ev (n_val n) in
  nfd_calls e random outs (mkNode (on_faceTable (m_faceTable v) (n_forwarder n)) v).

(** The signals of the face table reach both forwarders. *)
Definition face_event (e : env) (random : list double) (nfd : fw_event) (val : ValForwarder.val_event) n : result (list node_output * Node C) :=
  let* (_, v) := val_step e val (n_val n) in
  nfd_event e random nfd (mkNode (n_forwarder n) v).

Definition node_step (e : env) (random : list double) (ev : node_event) n : result (list node_output * Node C) :=
  match ev with
  | NetworkPacket faceId valP => val_event e random (EvValPacket faceId valP) n
  | ValTimer => val_event e random EvTimer n
  | NfdEvent (AddFace face) => face_event e random (AddFace face) (EvAddFace face) n
  | NfdEvent (RemoveFace face) => face_event e random (RemoveFace face) (EvRemoveFace face) n
  | NfdEvent ev => nfd_event e random ev n
  end.
Fixpoint node_run (evs : list (env * list double * node_event)) n : result (list node_output * Node C) :=
  match evs with
  | [] => Ok ([], n)
  | (e, random, ev) :: evs =>
    let* (o, n) := node_step e random ev n in
    let* (o', n) := node_run evs n in
    Ok (o ++ o', n)
  end.

(** [L3Protocol::initialize] up to management: NFD, then VAL, whose flood face is the
    default route, then the null face. *)
Definition FACEID_NULL : Z := 255.
Definition Node_new (registry : Registry) (now : Z) (cs : C) : result (Node C) :=
  let* s := Forwarder_new registry now cs in
  let* v := ValForwarder_new (fw_faceTable s) in
  let s := on_faceTable (m_faceTable v) s in
  let* (xs, t) := fib_insert [] (fw_tables s) in
  let* t := fib_addOrUpdateNextHop xs.1 (m_lastFaceId (m_faceTable v)) 0 1 t in
  let s := with_tables t s in
  let* (_, ft) := ft_addReserved (makeNullFace (str "null://")) FACEID_NULL (fw_faceTable s) in
  Ok (mkNode (on_faceTable ft s) (with_faceTable ft v)).
End node.
