(* ===== verification/NodeVal.v ===== *)
(** * The VAL forwarder fails only where its strategy does

    What the composition of the two forwarders needs of VAL: every handler returns if
    the strategy does, the face table only grows, what is handed to NFD comes from a geoface, and the faces that
    the tables and pending packets of VAL refer to exist. *)

From stdpp Require Import base gmap list strings.
From Stdlib Require Import ZArith Lia.
From S2P Require Import Prelude Tlv Encoder Block Codec ValHeader Ndn Signature Data Interest ValPacket ValTables.
From S2P Require Import Scheduler Pft FaceTable Double ValStrategy ValForwarder ValMachine ValGeo.

Local Open Scope Z_scope.

(** ** Strategies *)

(** The computation returns, or fails with one of the given errors. *)
Definition post {A} (fails : fault -> Prop) (m : result A) (P : A -> Prop) : Prop := match m with Ok x => P x | Err e => fails e end.
Lemma post_bind {A B} fails (m : result A) (f : A -> result B) P Q : post fails m P -> (forall x, P x -> post fails (f x) Q) -> post fails (m ≫= f) Q.
Proof. destruct m as [x|e]; cbn; [|done]. intros Hx Hf. by apply Hf. Qed.
Lemma post_weaken {A} fails (m : result A) (P Q : A -> Prop) : post fails m P -> (forall x, P x -> Q x) -> post fails m Q.
Proof. destruct m as [x|e]; [|done]. intros Hx Hq. by apply Hq. Qed.
Lemma post_always {A} fails (m : result A) P : (exists x, m = Ok x /\ P x) -> post fails m P.
Proof. by intros (x & -> & Hx). Qed.

(** A strategy whose handlers fail in the given ways only, and send only on a network
    face or on the face of the entry they are given. *)
Class ScopedStrategy `{Strategy} (fails : fault -> Prop) : Prop := {
  ss_laws :: StrategyLaws;
  ss_ifntHit v g e i : post fails (afterIfntHit v g e i) (fun r => forall q, r = Some q -> sr_face q = ie_faceId e \/ sr_face q ∈ sv_networkFaces v);
  ss_ifntMiss v g i : post fails (afterIfntMiss v g i) (fun r => forall q, r = Some q -> sr_face q ∈ sv_networkFaces v);
  ss_dfntHit v g e es d : post fails (afterDfntHit v g e es d) (fun r => forall q, r = Some q -> sr_face q = de_faceId e \/ sr_face q ∈ sv_networkFaces v);
  ss_dfntMiss v g d es b : post fails (afterDfntMiss v g d es b) (fun r => forall q, r = Some q -> sr_face q ∈ sv_networkFaces v);
}.

(** Where the distances strategy has no defined behaviour: no network face or no mobility
    model, no Interest to answer, an area without its two characters, a distance or a
    delay that no integer holds. *)
Definition distances_gap (e : fault) : Prop :=
  e ∈ [UndefinedBehaviour "begin() of an empty list dereferenced"; UndefinedBehaviour "null mobility model"; UndefinedBehaviour "begin() of an empty vector dereferenced";
       UndefinedBehaviour "iterator past the end of the area dereferenced"; UndefinedBehaviour "floating-point value out of range of the integer type";
       UndefinedBehaviour "conversion of NaN or infinity to an integer type"].

Create HintDb gap.
Section distances.
Context `{Ns3Geometry}.
#[local] Abbreviation fine m := (post distances_gap m (fun _ => True)).
Ltac in_gap := cbn; unfold distances_gap; repeat first [by left | right].
(** Peel the binds of a computation whose parts are fine. *)
Ltac fine_steps := repeat (eapply post_bind; [solve [auto with gap]|intros ? _]).

Lemma fine_to_int lo hi d : fine (to_int lo hi d).
Proof. unfold to_int. destruct (truncate d) as [z|]; [destruct (_ && _); [done|]|]; in_gap. Qed.
#[local] Hint Extern 0 (post _ (to_uint32 _) _) => apply fine_to_int : gap.
#[local] Hint Extern 0 (post _ (to_int32 _) _) => apply fine_to_int : gap.
#[local] Hint Extern 0 (post _ (to_int64 _) _) => apply fine_to_int : gap.
#[local] Hint Extern 0 (post _ (generateMicroSecondDelay _) _) => apply fine_to_int : gap.
Lemma fine_getPosition v : fine (getPosition v).
Proof. unfold getPosition. destruct (sv_position v); [done|in_gap]. Qed.
#[local] Hint Resolve fine_getPosition : gap.
Lemma fine_getMyPos v : fine (getMyPos v).
Proof. unfold getMyPos. by fine_steps. Qed.
Lemma fine_getMyArea v : fine (getMyArea v).
Proof. unfold getMyArea, getAreaFromPosition. by fine_steps. Qed.
Lemma fine_getDistanceToArea p a : fine (getDistanceToArea p a).
Proof. unfold getDistanceToArea, getPositionFromArea. destruct a as [|x [|y a]]; [in_gap|in_gap|done]. Qed.
Lemma fine_getLongestJorney es : fine (getLongestJorney es).
Proof. destruct es; [in_gap|done]. Qed.
#[local] Hint Resolve fine_getMyPos fine_getMyArea fine_getDistanceToArea fine_getLongestJorney : gap.
Lemma fine_getValNetFaceId v : post distances_gap (getValNetFaceId v) (fun id => id ∈ sv_networkFaces v).
Proof. unfold getValNetFaceId. destruct (sv_networkFaces v); [in_gap|left]. Qed.
Lemma fine_calcFwdTimer v d hopC toArea isData : toArea = false \/ hopC <> 0 -> fine (calcFwdTimer v d hopC toArea isData).
Proof.
  intros Hc. unfold calcFwdTimer. destruct toArea; [|by fine_steps]. destruct Hc as [?|Hc]; [done|]. rewrite (proj2 (Z.eqb_neq _ _) Hc). cbn [negb].
  destruct (d_ltb _ _); by fine_steps.
Qed.
Lemma fine_calcInvertedFwdTimer v d hopC isData : fine (calcInvertedFwdTimer v d hopC false isData).
Proof. unfold calcInvertedFwdTimer. by fine_steps. Qed.
#[local] Hint Resolve fine_calcInvertedFwdTimer : gap.

Lemma ValDistancesStrategy_scoped : @ScopedStrategy ValDistancesStrategy distances_gap.
Proof.
  split; [apply _| | | |]; cbn [afterIfntHit afterIfntMiss afterDfntHit afterDfntMiss ValDistancesStrategy].
  - intros v g e i. unfold doAfterIfntHit. destruct (Z.eqb_spec (ie_hopC e) 0) as [|Hc]; [done|]. eapply post_bind with (P := fun _ => True); [destruct (bool_decide _); [done|by fine_steps]|].
    intros known _. destruct known; fine_steps; [destruct (_ <? _); [|done]|intros q [= <-]; by left].
    eapply post_bind; [apply fine_calcFwdTimer; by right|]. intros t _ q [= <-]. by left.
  - intros v g i. unfold doAfterIfntMiss. fine_steps. eapply post_bind; [apply fine_getValNetFaceId|]. by intros id Hid q [= <-].
  - intros v g e es d. unfold doAfterDfntHit. destruct (_ =? 0); [done|]. fine_steps. destruct (_ && _); [|done].
    eapply post_bind; [apply fine_calcFwdTimer; by left|]. intros t _ q [= <-]. by left.
  - intros v g d es b. unfold doAfterDfntMiss. fine_steps. eapply post_bind with (P := fun _ => True); [destruct b; [apply fine_getMyArea|done]|]. intros src _. fine_steps.
    eapply post_bind; [apply fine_getValNetFaceId|]. by intros id Hid q [= <-].
Qed.
End distances.

(** ** Faces that VAL refers to *)
Definition used (v : ValForwarder) (id : Z) : Prop :=
  id ∈ (ie_faceId <$> ifnt_table (m_ifnt v)) \/ id ∈ (de_faceId <$> dfnt_table (m_dfnt v)) \/
  exists l e, l ∈ m_pft (vf_pft v) /\ pft_store (vf_pft v) !! l = Some e /\ pe_faceId e = id.

Record val_ok (v : ValForwarder) : Prop := {
  vo_fwd : fwd_inv v;
  vo_geo : geo_inv v;
  vo_once : NoDup (m_networkFaces v);
  vo_net id : id ∈ m_networkFaces v -> exists f, ft_get id (m_faceTable v) = Some f /\ isValNetFace f = true;
  vo_used id : used v id -> is_Some (ft_get id (m_faceTable v));
}.
Lemma net_exists v id : val_ok v -> id ∈ m_networkFaces v -> is_Some (ft_get id (m_faceTable v)).
Proof. intros Hv (f & Hf & _)%(vo_net _ Hv). by exists f. Qed.
Definition grows (t t' : FaceTable) : Prop := forall id f, ft_get id t = Some f -> ft_get id t' = Some f.
#[export] Instance grows_preorder : PreOrder grows.
Proof. split; [by intros t id f|]. intros t1 t2 t3 G1 G2 id f Hf. by apply G2, G1. Qed.

(** Only the PFT and the timers change; no packet comes in, and the entries keep their
    faces. *)
Definition pft_only (v v' : ValForwarder) : Prop :=
  v' = with_pft (vf_pft v') (with_timers (vf_timers v') v) /\ same_entries (vf_pft v) (vf_pft v') /\ m_pft (vf_pft v') ⊆ m_pft (vf_pft v).
Lemma same_entries_refl t : same_entries t t.
Proof. intros l e He. by exists e. Qed.
Lemma same_entries_trans t1 t2 t3 : same_entries t1 t2 -> same_entries t2 t3 -> same_entries t1 t3.
Proof. intros S1 S2 l e He. destruct (S2 l e He) as (e2 & He2 & F2 & P2). destruct (S1 l e2 He2) as (e1 & He1 & F1 & P1). exists e1. split; [done|]. by rewrite F2, P2. Qed.
#[export] Instance pft_only_preorder : PreOrder pft_only.
Proof.
  split.
  - intros v. split; [by destruct v|split; [apply same_entries_refl|done]].
  - intros v1 v2 v3 (E1 & S1 & L1) (E2 & S2 & L2). split; [rewrite E2, E1; by destruct v1|split; [by eapply same_entries_trans|by etrans]].
Qed.
Lemma pft_only_cancel e v : pft_only v (cancelTimer e v).
Proof. split; [by destruct v|split; [apply same_entries_refl|done]]. Qed.
Lemma pft_only_assign l e e' v : pft_store (vf_pft v) !! l = Some e -> pe_faceId e' = pe_faceId e -> pe_valPkt e' = pe_valPkt e -> pft_only v (update_entry l e' v).
Proof. intros He Hf Hp. split; [by destruct v|split; [by eapply same_entries_assign|done]]. Qed.
Lemma pft_only_arm now after k l e e' v : pft_store (vf_pft v) !! l = Some e -> pe_faceId e' = pe_faceId e -> pe_valPkt e' = pe_valPkt e ->
  pft_only v (arm now after k l e' v).
Proof. intros He Hf Hp. split; [by destruct v|]. split; [by eapply same_entries_assign|done]. Qed.
Lemma pft_erase_sub k t : m_pft (pft_erase k t) ⊆ m_pft t.
Proof. intros l Hl. by apply list_elem_of_filter in Hl as [_ Hl]. Qed.
Lemma pft_only_remove p v v' : pft_inv (vf_pft v) -> wf_packet p -> removePft p v = Ok v' -> pft_only v v'.
Proof. intros Hv Hp. rewrite removePft_eq by done. intros [= <-]. split; [by destruct v|]. split; [intros l e He; by exists e|]. apply pft_erase_sub. Qed.
Lemma pft_only_used v v' id : pft_only v v' -> used v' id -> used v id.
Proof.
  intros (E & S & L). unfold used. rewrite E. cbn. intros [?|[?|(l & e & Hl & He & Hf)]]; [by auto..|]. do 2 right.
  destruct (S l e He) as (e0 & He0 & F0 & _). exists l, e0. split; [by apply L|]. by rewrite <-F0.
Qed.
Lemma pft_only_ok v v' : pft_only v v' -> fwd_inv v' -> val_ok v -> val_ok v' /\ m_faceTable v' = m_faceTable v.
Proof.
  intros Hp Hf [_ Hg Ho Hn Hu]. assert (Et : m_faceTable v' = m_faceTable v) by (destruct Hp as [-> _]; done).
  assert (En : m_networkFaces v' = m_networkFaces v) by (destruct Hp as [-> _]; done). split; [|done]. split; [done| |by rewrite En|by rewrite En, Et|].
  - destruct Hp as [-> _]. by destruct Hg; split.
  - intros id Hid. rewrite Et. apply Hu. by eapply pft_only_used.
Qed.

(** A packet that is to be sent on a face that exists. *)
Lemma register_ok now f p d v : val_ok v -> pending p -> is_Some (ft_get f (m_faceTable v)) ->
  exists v', registerOutgoingValPacket now f p d v = Ok v' /\ val_ok v' /\ m_faceTable v' = m_faceTable v.
Proof.
  intros Hv Hp Hf. destruct (registerOutgoing_progress now f p d v (vo_fwd _ Hv) Hp) as (v' & E & Hpr). exists v'. split; [done|].
  unfold registerOutgoingValPacket in E. destruct (pft_addEntry_cases (pft_Entry_new p f) (vf_pft v)) as [(l & _ & Ea)|[_ Ea]]; [apply Hv|done| |];
    rewrite Ea in E; cbn [mbind result_bind] in E; [by injection E as <-|]. injection E as E.
  assert (Et : m_faceTable v' = m_faceTable v) by (by rewrite <-E). split; [|done]. destruct Hv as [Hfw Hg Ho Hn Hu]. split; [apply Hpr| |by rewrite <-E|by rewrite <-E|].
  - rewrite <-E. by destruct Hg; split.
  - intros id Hid. rewrite Et. rewrite <-E in Hid. destruct Hid as [Hid|[Hid|(l & e & Hl & He & Hfe)]]; [by apply Hu; cbn in Hid; unfold used; auto..|].
    cbn in Hl, He. apply lookup_insert_Some in He as [[<- <-]|[Hne He]]; [by rewrite <-Hfe|].
    apply elem_of_app in Hl as [Hl|Hl%list_elem_of_singleton]; [|by rewrite Hl in Hne].
    rewrite lookup_insert_ne in He by done. apply Hu. do 2 right. by exists l, e.
Qed.
Lemma send_ok now r v : val_ok v -> (forall q, r = Some q -> pending (sr_packet q) /\ is_Some (ft_get (sr_face q) (m_faceTable v))) ->
  exists v', sendValPacket now r v = Ok v' /\ val_ok v' /\ m_faceTable v' = m_faceTable v.
Proof.
  intros Hv Hr. destruct r as [q|]; [|by exists v]. destruct (Hr q eq_refl) as [Hp Hu]. by apply register_ok.
Qed.

(** ** Timers *)
Definition sends (o : list output) : Prop := forall x, x ∈ o -> exists l f p, x = SendValPacket l f p.
Lemma sends_nil : sends [].
Proof. by intros x ?%elem_of_nil. Qed.
Lemma sends_one l f p : sends [SendValPacket l f p].
Proof. intros x ->%list_elem_of_singleton. by exists l, f, p. Qed.

Lemma changeState_faceId e : pe_faceId (changeStateToWaintingImpAck e).2 = pe_faceId e.
Proof. unfold changeStateToWaintingImpAck. by destruct (_ =? _). Qed.
Lemma oneLessTry_same e : pe_faceId (oneLessTry e).2 = pe_faceId e /\ pe_valPkt (oneLessTry e).2 = pe_valPkt e.
Proof. unfold oneLessTry. by destruct (_ >? _). Qed.

Lemma forwardingTimer_only now l f v e o v' : fwd_inv v -> pft_store (vf_pft v) !! l = Some e -> forwardingTimerCallback now l f v = Ok (o, v') -> pft_only v v' /\ sends o.
Proof.
  intros H He E. unfold forwardingTimerCallback, pft_deref in E. rewrite He in E. cbn [mbind result_bind] in E.
  destruct (_ =? WAITING_FORWARDING); [|injection E as <- <-; split; [reflexivity|apply sends_nil]].
  apply result_bind_Ok in E as (g & _ & E). destruct (isValNetFace g); [|injection E as <- <-; split; [reflexivity|apply sends_nil]].
  apply result_bind_Ok in E as (v2 & E2 & E). injection E as <- <-. split; [|apply sends_one].
  pose proof (changeState_valPkt e) as Hp. pose proof (changeState_faceId e) as Hf. set (e1 := (changeStateToWaintingImpAck e).2) in *.
  assert (Ha : pft_only v (arm now (getDefaultImpAckTimerDuration e1) (ImpAckTimer l f) l e1 v)) by (by apply (pft_only_arm _ _ _ l e)).
  destruct (_ && _); [|by injection E2 as <-]. apply result_bind_Ok in E2 as (e2 & _ & E2). etrans; [exact Ha|]. etrans; [apply (pft_only_cancel e2)|].
  eapply pft_only_remove; [|by eapply pending_entry|exact E2]. cbn. eapply pft_inv_assign; [apply H|exact He|exact Hp].
Qed.
Lemma impAckTimer_only now l f v e o v' : fwd_inv v -> pft_store (vf_pft v) !! l = Some e -> impAckTimerCallback now l f v = Ok (o, v') -> pft_only v v' /\ sends o.
Proof.
  intros H He E. unfold impAckTimerCallback, pft_deref in E. rewrite He in E. cbn [mbind result_bind] in E.
  destruct (_ =? WAITING_IMPLICIT_ACK); [|injection E as <- <-; split; [reflexivity|apply sends_nil]].
  apply result_bind_Ok in E as (g & _ & E). destruct (isValNetFace g); [|injection E as <- <-; split; [reflexivity|apply sends_nil]].
  apply result_bind_Ok in E as (v2 & E2 & E). injection E as <- <-. split; [|apply sends_one].
  destruct (oneLessTry_same e) as [Hf Hp]. destruct (_ >? 0); [injection E2 as <-; by apply (pft_only_arm _ _ _ l e)|].
  etrans; [by apply (pft_only_assign l e)|]. eapply pft_only_remove; [|by eapply pending_entry|exact E2]. cbn. eapply pft_inv_assign; [apply H|exact He|exact Hp].
Qed.

Lemma fireTimer_ok now v : val_ok v -> exists o v', fireTimer now v = Ok (o, v') /\ val_ok v' /\ m_faceTable v' = m_faceTable v /\ sends o.
Proof.
  intros Hv. pose proof (vo_fwd _ Hv) as H. unfold fireTimer. destruct (pop_due now (vf_timers v)) as [[ev q]|] eqn:Hp.
  2:{ exists [], v. do 3 (split; [done|]). apply sends_nil. }
  destruct (fwd_ok_pop _ _ _ _ _ H Hp) as [H1 Hn]. assert (Hev : ev ∈ m_queue (vf_timers v)) by (apply (elem_of_pop _ _ _ _ _ Hp); by left).
  destruct (fo_timer _ _ H ev Hev) as (Hl & e & He & _ & Hfit). set (v1 := with_timers q v) in *.
  assert (Hface : is_Some (ft_get (pe_faceId e) (m_faceTable v1))) by (apply (vo_used _ Hv); do 2 right; exists (timer_entry (ev_callback ev)), e; done).
  assert (Hcb : exists o v', runTimer now (ev_callback ev) v1 = Ok (o, v') /\ pft_only v1 v' /\ sends o).
  { destruct (ev_callback ev) as [l f|l f]; cbn [runTimer timer_entry] in *.
    - destruct (forwardingTimer_total now l f v1 e H1 Hn Hl He Hfit) as (o & v' & E & _); [destruct Hfit as [_ ->]; done|].
      exists o, v'. split; [done|]. by eapply (forwardingTimer_only now l f v1 e).
    - destruct (impAckTimer_total now l f v1 e H1 Hn Hl He Hfit) as (o & v' & E & _); [destruct Hfit as (_ & _ & ->); done|].
      exists o, v'. split; [done|]. by eapply (impAckTimer_only now l f v1 e). }
  destruct Hcb as (o & v' & E & Hpo & Hs). exists o, v'. split; [done|].
  assert (Hpr : progress v o v') by (apply (fireTimer_progress now v o v' H); unfold fireTimer; by rewrite Hp).
  destruct (pft_only_ok v v') as [Hok' Et]; [|apply Hpr|done|done]. etrans; [|exact Hpo]. split; [by destruct v|split; [apply same_entries_refl|done]].
Qed.

(** ** Packets from the network *)
Lemma preProcessing_ok p v : val_ok v -> wf_packet p ->
  exists b v', preProcessingValPacket p v = Ok (b, v') /\ val_ok v' /\ m_faceTable v' = m_faceTable v.
Proof.
  intros Hv Hw. pose proof (vo_fwd _ Hv) as H. destruct (preProcessing_progress p v H Hw) as (b & v' & E & Hpr & _). exists b, v'. split; [done|].
  apply pft_only_ok; [|apply Hpr|done]. clear Hpr. unfold preProcessingValPacket in E.
  apply result_bind_Ok in E as (found & _ & E). destruct found as [l|]; [|injection E as _ <-; reflexivity].
  apply result_bind_Ok in E as (e & He & E). unfold pft_deref in He. destruct (pft_store (vf_pft v) !! l) as [e0|] eqn:Es; [|done]. injection He as ->.
  apply result_bind_Ok in E as (v2 & E2 & E). injection E as _ <-.
  assert (Hc : pft_only v (cancelTimer e v)) by apply pft_only_cancel.
  destruct (_ =? WAITING_FORWARDING); [destruct (_ =? _); [|by injection E2 as <-]|destruct (_ =? WAITING_IMPLICIT_ACK); [destruct (_ || _); [|by injection E2 as <-]|by injection E2 as <-]].
  - assert (Hu : pft_only v (update_entry l (changeStateToWaintingImpAck e).2 (cancelTimer e v))).
    { etrans; [exact Hc|]. apply (pft_only_assign l e); [done|apply changeState_faceId|apply changeState_valPkt]. }
    destruct (_ =? DATA_SET); [|by injection E2 as <-]. etrans; [exact Hu|]. eapply pft_only_remove; [|exact Hw|exact E2].
    cbn. eapply pft_inv_assign; [apply H|exact Es|apply changeState_valPkt].
  - destruct (_ =? DATA_SET); [|by injection E2 as <-]. etrans; [exact Hc|]. eapply pft_only_remove; [apply H|exact Hw|exact E2].
Qed.

(** Steps that leave the PFT alone: the face table grows, and what is referred to anew
    exists. *)
Lemma grow_ok v v' : val_ok v -> geo_inv v' -> vf_pft v' = vf_pft v -> vf_timers v' = vf_timers v -> m_networkFaces v' = m_networkFaces v ->
  grows (m_faceTable v) (m_faceTable v') ->
  (forall id, used v' id -> used v id \/ is_Some (ft_get id (m_faceTable v'))) -> val_ok v'.
Proof.
  intros [Hf Hg Ho Hn Hu] Hg' Ep Et En Hgr Hu'. split; [unfold fwd_inv; by rewrite Ep, Et|done|by rewrite En| |].
  { intros id. rewrite En. intros (f & Hf' & Hv)%Hn. exists f. by split; [apply Hgr|]. }
  intros id [Hid|?]%Hu'; [|done].
  destruct (Hu id Hid) as [f Hf']. exists f. by apply Hgr.
Qed.

(** The tables of VAL grow by entries for faces that exist, and shrink. *)
Lemma tables_ok i d v : val_ok v ->
  (forall x, x ∈ ie_faceId <$> ifnt_table i -> x ∈ ie_faceId <$> ifnt_table (m_ifnt v) \/ is_Some (ft_get x (m_faceTable v))) ->
  (forall x, x ∈ de_faceId <$> dfnt_table d -> x ∈ de_faceId <$> dfnt_table (m_dfnt v) \/ is_Some (ft_get x (m_faceTable v))) ->
  val_ok (with_dfnt d (with_ifnt i v)).
Proof.
  intros Hv Hi Hd. apply (grow_ok v); [done|by destruct (vo_geo _ Hv); split|done..|]. unfold used. cbn.
  intros id [[Hid|Hid]%Hi|[[Hid|Hid]%Hd|Hid]]; auto.
Qed.
Lemma ifnt_ok i v : val_ok v ->
  (forall x, x ∈ ie_faceId <$> ifnt_table i -> x ∈ ie_faceId <$> ifnt_table (m_ifnt v) \/ is_Some (ft_get x (m_faceTable v))) -> val_ok (with_ifnt i v).
Proof. intros Hv Hi. replace (with_ifnt i v) with (with_dfnt (m_dfnt v) (with_ifnt i v)) by (by destruct v). apply tables_ok; [done|done|by auto]. Qed.
Lemma dfnt_ok d v : val_ok v ->
  (forall x, x ∈ de_faceId <$> dfnt_table d -> x ∈ de_faceId <$> dfnt_table (m_dfnt v) \/ is_Some (ft_get x (m_faceTable v))) -> val_ok (with_dfnt d v).
Proof. intros Hv Hd. replace (with_dfnt d v) with (with_dfnt d (with_ifnt (m_ifnt v) v)) by (by destruct v). apply tables_ok; [done|by auto|done]. Qed.

Lemma fmap_erase_first {A} (f : A -> Z) p l x : x ∈ f <$> erase_first p l -> x ∈ f <$> l.
Proof. intros (y & -> & Hy)%list_elem_of_fmap. apply list_elem_of_fmap. exists y. split; [done|]. by apply elem_of_erase_first in Hy. Qed.
Lemma ifnt_remove_ok ns v : val_ok v -> val_ok (with_ifnt (ifnt_removeEntriesByNonceList ns (m_ifnt v)) v).
Proof.
  intros Hv. apply ifnt_ok; [done|]. intros x Hx. left. rewrite ifnt_removeEntriesByNonceList_table in Hx. revert Hx.
  generalize (ifnt_table (m_ifnt v)). induction ns as [|n ns IH]; intros l Hl; [done|]. cbn in Hl. by apply IH, fmap_erase_first in Hl.
Qed.
Lemma dfnt_remove_ok en v : val_ok v -> val_ok (with_dfnt (dfnt_removeEntry en (m_dfnt v)).2 v).
Proof.
  intros Hv. apply dfnt_ok; [done|]. intros x Hx. left. unfold dfnt_removeEntry, dfnt_erase in Hx. destruct (find_first _ _); [|done]. by apply fmap_erase_first in Hx.
Qed.

Lemma grows_insert f t : ft_inv t -> grows t (ft_insert f t).
Proof.
  intros Ht id f' Hf. unfold ft_get in *. cbn. rewrite lookup_insert_ne; [done|]. intros <-. by rewrite ft_fresh in Hf.
Qed.
Lemma geofaceOfArea_grows area s id s' : ft_inv (m_faceTable s) -> m_lastFaceId (m_faceTable s) < 2 ^ 64 - 1 ->
  geofaceOfArea area s = Ok (id, s') -> grows (m_faceTable s) (m_faceTable s').
Proof.
  intros Ht Hm E. unfold geofaceOfArea in E. destruct (f2a_findByGeoArea _ _); [by injection E as _ <-|]. rewrite ft_add_new in E by done.
  cbn [mbind result_bind] in E. injection E as _ <-. by apply grows_insert.
Qed.

(** The geofaces of a header. *)
Lemma geofaces_ok h v : val_ok v -> m_lastFaceId (m_faceTable v) + 2 < 2 ^ 32 ->
  exists sa da v', makeGeoFaceFromValHeader h v = Ok ((sa, da), v') /\ val_ok v' /\ grows (m_faceTable v) (m_faceTable v') /\
    area_face (getSA h) sa v' /\ area_face (getDA h) da v'.
Proof.
  intros Hv Hm. destruct (makeGeoFace_spec h v (vo_geo _ Hv) Hm) as (sa & da & v' & E & Hg & Hsa & Hda & _ & _). exists sa, da, v'. split; [done|].
  assert (Hgr : grows (m_faceTable v) (m_faceTable v')).
  { unfold makeGeoFaceFromValHeader in E. destruct (geofaceOfArea_spec v (getSA h) (vo_geo _ Hv)) as (a & v1 & E1 & Hg1 & _ & _ & Hl1 & _); [lia|].
    rewrite E1 in E. cbn [mbind result_bind] in E. destruct (geofaceOfArea (getDA h) v1) as [[b v2]|] eqn:E2; [|done]. injection E as _ _ ->.
    etrans; eapply geofaceOfArea_grows; [apply (vo_geo _ Hv)|lia|exact E1|apply Hg1|lia|exact E2]. }
  split; [|done]. destruct (makeGeoFace_frame _ _ _ _ E) as (E1 & E2 & E3 & E4 & E5).
  apply (grow_ok v); [done..|]. unfold used. rewrite E1, E3, E4. by auto.
Qed.

(** What VAL hands to NFD: a packet from the network, through a geoface; an Interest for
    an area has the area's geoface as its next hop. *)
Definition geoface (v : ValForwarder) (g : Z) : Prop := exists f, ft_get g (m_faceTable v) = Some f /\ isGeoFace f = true /\ isValNetFace f = false.
Definition handed (p : ValPacket) (v : ValForwarder) (x : output) : Prop :=
  match x with
  | SendValPacket _ _ _ => False
  | InterestToNfd g i => geoface v g /\ exists i0, getInterest p = Ok i0 /\ (i = i0 \/ exists da, geoface v da /\ i = interest_setTag (set_nextHopFaceId (Some da)) i0)
  | DataToNfd g d => geoface v g /\ getData p = Ok d
  end.
Lemma area_face_geoface area id v : geo_inv v -> area_face area id v -> geoface v id.
Proof.
  intros Hg (Ha & _). apply find_first_Some in Ha as [Hin _]. destruct (gi_face v Hg _ Hin) as (_ & f & Hf). by exists f.
Qed.

Lemma processInterest_ok face p i v : val_ok v -> getInterest p = Ok i -> is_Some (ft_get face (m_faceTable v)) -> m_lastFaceId (m_faceTable v) + 2 < 2 ^ 32 ->
  exists o v', processInterestFromNetwork face (getValHeader p) i v = Ok (o, v') /\ val_ok v' /\ grows (m_faceTable v) (m_faceTable v') /\
    (o = [] \/ exists x, o = [x] /\ handed p v' x).
Proof.
  intros Hv Hp Hf Hm. unfold processInterestFromNetwork. cbn [isEscapedPacket]. unfold ifnt_addEntry.
  destruct (ifnt_findMatch _ _) as [en|]; [exists [], v; split; [by destruct v|]; do 2 (split; [done|]); by left|]. set (v0 := with_ifnt _ v).
  assert (Hv0 : val_ok v0).
  { apply ifnt_ok; [done|]. cbn. intros x. rewrite fmap_app, elem_of_app. intros [Hx|Hx%list_elem_of_singleton]; [by left|right; by rewrite Hx]. }
  destruct (geofaces_ok (getValHeader p) v0 Hv0 Hm) as (sa & da & v' & -> & Hv' & Hgr & Hsa & Hda). cbn [mbind result_bind].
  apply (area_face_geoface _ _ _ (vo_geo _ Hv')) in Hsa, Hda. destruct Hsa as (f & Hfsa & Hgsa & Hnsa). rewrite Hfsa, Hgsa.
  eexists _, v'. split; [done|]. do 2 (split; [done|]). right. eexists. split; [done|]. split; [by exists f|]. exists i. split; [done|].
  destruct (negb _); [right; by exists da|by left].
Qed.
Lemma processData_ok face p d v : val_ok v -> getData p = Ok d -> is_Some (ft_get face (m_faceTable v)) -> m_lastFaceId (m_faceTable v) + 2 < 2 ^ 32 ->
  exists o v', processDataFromNetwork face (getValHeader p) d v = Ok (o, v') /\ val_ok v' /\ grows (m_faceTable v) (m_faceTable v') /\
    (o = [] \/ exists x, o = [x] /\ handed p v' x).
Proof.
  intros Hv Hp Hf Hm. unfold processDataFromNetwork. set (v0 := with_dfnt _ v).
  assert (Hv0 : val_ok v0).
  { apply dfnt_ok; [done|]. cbn. intros x. rewrite elem_of_cons. intros [->|Hx]; [by right|by left]. }
  destruct (geofaces_ok (getValHeader p) v0 Hv0 Hm) as (sa & da & v' & -> & Hv' & Hgr & Hsa & _). cbn [mbind result_bind].
  apply (area_face_geoface _ _ _ (vo_geo _ Hv')) in Hsa. destruct Hsa as (f & Hfsa & Hgsa & Hnsa). rewrite Hfsa, Hgsa.
  eexists _, v'. split; [done|]. do 2 (split; [done|]). right. eexists. split; [done|]. split; [by exists f|done].
Qed.

Lemma onReceived_ok face p v : val_ok v -> wf_packet p -> is_Some (ft_get face (m_faceTable v)) -> m_lastFaceId (m_faceTable v) + 2 < 2 ^ 32 ->
  exists o v', onReceivedValPacket face p v = Ok (o, v') /\ val_ok v' /\ grows (m_faceTable v) (m_faceTable v') /\
    (o = [] \/ exists x, o = [x] /\ handed p v' x).
Proof.
  intros Hv Hw Hf Hm. unfold onReceivedValPacket. destruct (preProcessing_ok p v Hv Hw) as (b & v1 & -> & Hv1 & Et). cbn [mbind result_bind].
  rewrite <-Et in Hf, Hm |- *. destruct b; cbn [negb]; [|exists [], v1; do 3 (split; [done|]); by left].
  destruct Hw as [h|h i|h d]; cbn -[processInterestFromNetwork processDataFromNetwork]; [|by apply (processInterest_ok _ (mkValPacket _ _ _ _))|by apply (processData_ok _ (mkValPacket _ _ _ _))].
  eexists _, _. split; [done|]. split; [|split; [done|by left]]. apply (grow_ok v1); [done|by destruct (vo_geo _ Hv1); split|done..|by auto].
Qed.

(** ** Packets from NFD *)
Section from_nfd.
Context (fails : fault -> Prop) `{!Strategy} `{!ScopedStrategy fails}.

(** VAL has handled a call, and the table is as it was. *)
Definition handled (v : ValForwarder) (m : result ValForwarder) : Prop :=
  post fails m (fun v' => val_ok v' /\ m_faceTable v' = m_faceTable v /\ progress v [] v').

Lemma send_handled now r v : val_ok v -> (forall q, r = Some q -> pending (sr_packet q) /\ is_Some (ft_get (sr_face q) (m_faceTable v))) ->
  handled v (sendValPacket now r v).
Proof.
  intros Hv Hr. apply post_always. destruct (send_ok now r v Hv Hr) as (v' & E & Hv' & Et). exists v'. do 3 (split; [done|]).
  eapply sendValPacket_progress; [apply Hv| |exact E]. intros q ->. by apply Hr.
Qed.
Lemma handled_after v v1 m : handled v1 m -> m_faceTable v1 = m_faceTable v -> progress v [] v1 -> handled v m.
Proof.
  intros Hm Et Hp. eapply post_weaken; [exact Hm|]. intros v' (Hv' & Et' & Hp'). split; [done|]. split; [congruence|]. by apply (progress_trans _ [] v1).
Qed.

Lemma reveiceInterest_ok e g i v : val_ok v -> handled v (reveiceInterest e g i v).
Proof.
  intros Hv. unfold reveiceInterest. destruct (ifnt_findMatchByNonce _ _) as [en|] eqn:En.
  - pose proof (ss_ifntHit (view e v) g en i) as Hs. destruct (afterIfntHit _ _ _ _) as [r|] eqn:E; [|exact Hs]. apply send_handled; [done|]. intros q ->. split.
    + destruct (law_ifntHit _ _ _ _ _ E) as (h & -> & _). apply pending_interest.
    + destruct (Hs q eq_refl) as [->|Hn]; [|by apply net_exists]. apply (vo_used _ Hv). left. apply list_elem_of_fmap. exists en. split; [done|].
      by apply find_first_Some in En as [Hin _].
  - pose proof (ss_ifntMiss (view e v) g i) as Hs. destruct (afterIfntMiss _ _ _) as [r|] eqn:E; [|exact Hs]. apply send_handled; [done|]. intros q ->. split.
    + destruct (law_ifntMiss _ _ _ _ E) as (h & -> & _). apply pending_interest.
    + by apply net_exists; [|apply Hs].
Qed.

Lemma cancelTimers_only ls : forall v v', cancelTimers ls v = Ok v' -> pft_only v v'.
Proof.
  induction ls as [|l ls IH]; intros v v' E; cbn in E; [by injection E as <-|]. apply result_bind_Ok in E as (en & _ & E).
  etrans; [apply (pft_only_cancel en)|by apply IH].
Qed.
(** Pending Interests are taken out of the PFT. *)
Lemma dropPending_ok ns v : val_ok v -> exists ls v1 t, pft_findMatchByNonceList ns (vf_pft v) = Ok ls /\ cancelTimers ls v = Ok v1 /\
  pft_removeEntriesByMatchList ls (vf_pft v1) = Ok t /\ val_ok (with_pft t v1) /\ m_faceTable v1 = m_faceTable v /\ progress v [] (with_pft t v1).
Proof.
  intros Hv. destruct (dropPending_progress ns v (vo_fwd _ Hv)) as (ls & v1 & t & Hls & E1 & Et & Hp & _ & _ & _ & _ & Hsub & Hst & _).
  exists ls, v1, t. do 3 (split; [done|]). pose proof (cancelTimers_only ls v v1 E1) as (E & _ & _).
  assert (Hf : m_faceTable v1 = m_faceTable v) by (by rewrite E). split; [|done].
  apply (pft_only_ok v (with_pft t v1)); [|apply Hp|done]. split; [rewrite E; by destruct v|]. cbn. split; [|by intros l [Hl _]%Hsub].
  intros l x Hx. rewrite Hst in Hx. by exists x.
Qed.

Lemma dfnt_removed en v : val_ok v -> handled v (Ok (with_dfnt (dfnt_removeEntry en (m_dfnt v)).2 v)).
Proof. intros Hv. split; [by apply dfnt_remove_ok|]. split; [done|]. apply progress_frame; done || apply Hv. Qed.
Lemma unchanged v : val_ok v -> handled v (Ok v).
Proof. intros Hv. do 2 (split; [done|]). apply progress_frame; done || apply Hv. Qed.

(** Data that VAL does not know is sent; then its entry goes, if it has one. *)
Lemma dfntMiss_handled e g d es b found v : val_ok v -> handled v (let* r := afterDfntMiss (view e v) g d es b in let* s := sendValPacket (e_now e) r v in
  match found with Some entry => Ok (with_dfnt (dfnt_removeEntry entry (m_dfnt s)).2 s) | None => Ok s end).
Proof.
  intros Hv. pose proof (ss_dfntMiss (view e v) g d es b) as Hs. destruct (afterDfntMiss _ _ _ _ _) as [r|] eqn:E; [|exact Hs]. cbn [mbind result_bind].
  eapply post_bind; [apply send_handled; [done|]|].
  - intros q ->. split; [destruct (law_dfntMiss _ _ _ _ _ _ E) as (h & ->); apply pending_data|]. by apply net_exists; [|apply Hs].
  - intros v2 (Hv2 & Et & Hp). apply (handled_after v v2); [|done|done]. destruct found; [by apply dfnt_removed|by apply unchanged].
Qed.

Lemma reveiceData_ok e g d ns b v : val_ok v -> handled v (reveiceData e g d ns b v).
Proof.
  intros Hv. unfold reveiceData. destruct (_ =? 501).
  { destruct (dfnt_findMatch _ _) as [en|]; [by apply dfnt_removed|by apply unchanged]. }
  set (es := ifnt_findMatchByNonceList _ _). pose proof (ifnt_remove_ok ns v Hv) as Hv1. set (v1 := with_ifnt _ v) in *.
  apply (handled_after v v1); [|done|apply progress_frame; done || apply Hv]. clearbody v1 es. clear Hv v.
  destruct (dfnt_findMatch (getSignature d) (m_dfnt v1)) as [en|] eqn:Ed; [|by apply (dfntMiss_handled e g d es b None)].
  destruct b; [by apply (dfntMiss_handled e g d es true (Some en))|].
  destruct (dropPending_ok ns v1 Hv1) as (ls & v2 & t & -> & E2 & E3 & Hv2 & Et & Hp2). cbn [mbind result_bind]. rewrite E2. cbn [mbind result_bind]. rewrite E3. cbn [mbind result_bind].
  assert (Hface : is_Some (ft_get (de_faceId en) (m_faceTable v1))).
  { apply (vo_used _ Hv1). right; left. apply list_elem_of_fmap. exists en. split; [done|]. by apply find_first_Some in Ed as [Hin _]. }
  apply (handled_after v1 (with_pft t v2)); [|done|done]. rewrite <-Et in Hface. change (m_faceTable v2) with (m_faceTable (with_pft t v2)) in Hface.
  set (v3 := with_pft t v2) in *. clearbody v3. destruct (dfnt_removed en v3 Hv2) as (Hv4 & Et4 & Hp4). apply (handled_after v3 (with_dfnt (dfnt_removeEntry en (m_dfnt v3)).2 v3)); [|done|done].
  rewrite <-Et4 in Hface. set (v4 := with_dfnt _ v3) in *. clearbody v4. destruct (negb _); [|by apply unchanged].
  pose proof (ss_dfntHit (view e v4) g en es d) as Hs. destruct (afterDfntHit _ _ _ _ _) as [r|] eqn:E; [|exact Hs]. cbn [mbind result_bind].
  apply send_handled; [done|]. intros q ->. split; [destruct (law_dfntHit _ _ _ _ _ _ E) as (h & -> & _); apply pending_data|].
  destruct (Hs q eq_refl) as [->|Hn]; [done|]. by apply net_exists.
Qed.
End from_nfd.

(** ** Faces *)
Lemma ValForwarder_new_ok t : ft_inv t -> m_lastFaceId t + 1 < 2 ^ 32 ->
  exists v, ValForwarder_new t = Ok v /\ val_ok v /\ m_faceTable v = ft_insert makeGeoface t.
Proof.
  intros Ht Hm. assert (E : exists v, ValForwarder_new t = Ok v /\ m_faceTable v = ft_insert makeGeoface t /\ m_networkFaces v = [] /\
    m_ifnt v = Ifnt_new /\ m_dfnt v = Dfnt_new /\ vf_pft v = PFT_new).
  { unfold ValForwarder_new. rewrite ft_add_new by (done || lia). cbn [mbind result_bind]. by eexists. }
  destruct E as (v & E & Et & En & Ei & Ed & Ep). exists v. split; [done|]. split; [|done]. split.
  - by eapply ValForwarder_new_fwd_inv.
  - by eapply ValForwarder_new_geo_inv.
  - rewrite En. constructor.
  - rewrite En. by intros id Hid%not_elem_of_nil.
  - unfold used. rewrite Ei, Ed, Ep. intros id [Hid|[Hid|(l & e & Hid & _)]]; by apply not_elem_of_nil in Hid.
Qed.

Lemma geo_inv_grows v t : geo_inv v -> ft_inv t -> grows (m_faceTable v) t -> geo_inv (with_faceTable t v).
Proof.
  intros [? ? Hf ?] Ht Hg. split; [done|done| |done]. intros e (Hr & f & Hff & Hfg)%Hf. split; [done|]. exists f. by split; [apply Hg|].
Qed.
Lemma addFace_ok f v : val_ok v -> face_id f = INVALID_FACEID -> m_lastFaceId (m_faceTable v) < 2 ^ 64 - 1 ->
  exists v', addFace f v = Ok v' /\ val_ok v' /\ m_faceTable v' = ft_insert f (m_faceTable v).
Proof.
  intros Hv Hid Hm. pose proof (gi_ft _ (vo_geo _ Hv)) as Ht. unfold addFace. rewrite ft_add_new by done. cbn [mbind result_bind].
  pose proof (grows_insert f _ Ht) as Hg. assert (Hv1 : val_ok (with_faceTable (ft_insert f (m_faceTable v)) v)).
  { apply (grow_ok v); [done|apply geo_inv_grows; [apply Hv|by apply ft_inv_insert|done]|done..|]. intros id Hid'. left. exact Hid'. }
  destruct (isValNetFace f) eqn:Ef; [|by eexists]. eexists. split; [done|]. split; [|done]. destruct Hv1 as [Hf' Hg' Ho Hn Hu]. set (id := m_lastFaceId _ + 1).
  assert (Hnew : id ∉ m_networkFaces v).
  { intros (f' & Hf1 & _)%(vo_net _ Hv). assert (id <= m_lastFaceId (m_faceTable v)) by (apply (fi_last _ Ht); by exists f'). subst id. lia. }
  split; [done|by destruct Hg'; split| | |exact Hu]; cbn.
  - apply NoDup_app. split; [apply Hv|]. split; [|apply NoDup_singleton]. by intros x Hx ->%list_elem_of_singleton.
  - intros x [Hx| ->%list_elem_of_singleton]%elem_of_app; [by apply Hn|]. exists (setId id f). unfold ft_get. cbn. fold id.
    by rewrite lookup_insert, decide_True.
Qed.

Lemma erase_first_gone id l : NoDup l -> id ∉ erase_first (Z.eqb id) l.
Proof.
  induction l as [|x l IH]; intros Hl; [apply not_elem_of_nil|]. apply NoDup_cons in Hl as [Hx Hl]. cbn. destruct (Z.eqb_spec id x) as [->|Hne]; [done|].
  intros [->|Hin]%elem_of_cons; [done|]. by apply IH in Hin.
Qed.
Lemma removeFace_ok id f v : val_ok v -> ft_get id (m_faceTable v) = Some f -> (forall e, e ∈ f2a_table (m_f2a v) -> fe_faceId e <> id) -> ~ used v id ->
  exists v', removeFace id v = Ok v' /\ val_ok v' /\ m_faceTable v' = mkFaceTable (m_lastFaceId (m_faceTable v)) (delete id (m_faces (m_faceTable v))).
Proof.
  intros Hv Hf Ha Hu. unfold removeFace. assert (Er : ft_remove id (m_faceTable v) = Ok (if isValNetFace f then BeforeValFaceRemove id else BeforeRemove id,
    mkFaceTable (m_lastFaceId (m_faceTable v)) (delete id (m_faces (m_faceTable v))))) by (unfold ft_remove, ft_get in *; by rewrite Hf).
  pose proof (ft_inv_remove _ _ _ _ (gi_ft _ (vo_geo _ Hv)) Er) as Ht. rewrite Er. cbn [mbind result_bind]. clear Er.
  set (t := mkFaceTable _ _) in *. assert (Hk : forall x f', x <> id -> ft_get x (m_faceTable v) = Some f' -> ft_get x t = Some f').
  { intros x f' Hne Hx. unfold ft_get in *. cbn. by rewrite lookup_delete_ne. }
  destruct Hv as [Hfw [? ? Hgf ?] Ho Hn Huv]. eexists. split; [done|]. split; [|done]. split; cbn.
  - by destruct (isValNetFace f).
  - assert (Hg : geo_inv (with_faceTable t v)); [|destruct (isValNetFace f), Hg; split; done]. split; [done|done| |done].
    intros e He. destruct (Hgf e He) as (Hr & f' & Hf' & Hm). split; [done|]. exists f'. split; [|done]. apply Hk; [by apply Ha|done].
  - destruct (isValNetFace f); [by apply NoDup_erase_first|done].
  - intros x Hx. assert (x ∈ m_networkFaces v /\ x <> id) as [Hxn Hne].
    { destruct (isValNetFace f) eqn:Ef; cbn in Hx.
      - split; [by apply elem_of_erase_first in Hx|]. intros ->. apply (erase_first_gone id (m_networkFaces v)) in Hx; done.
      - split; [done|]. intros ->. destruct (Hn id Hx) as (f' & Hf' & Hv'). congruence. }
    destruct (Hn x Hxn) as (f' & Hf' & Hv'). exists f'. split; [by apply Hk|done].
  - intros x Hx. assert (Hx' : used v x) by (by destruct (isValNetFace f)). destruct (Huv x Hx') as [f' Hf']. exists f'. apply Hk; [|done]. by intros ->.
Qed.
