(* ===== verification/NodeProps.v ===== *)
(** * Properties of a node

    The invariant of the two forwarders and the table they share; that an admissible
    event makes the node fail only where the strategy of VAL does; what VAL's bound on
    transmissions means for the node.  One way in which the parts, each of which does what
    it should, do not fit: Data that was overheard cannot be served from the cache. *)

From stdpp Require Import base gmap list sets strings.
From Stdlib Require Import ZArith Lia.
From S2P Require Import Prelude Tlv Encoder Block Codec ValHeader Ndn NameTlv NameSuccessor Signature Exclude Selectors Data Interest ValPacket ValTables FaceTable Double Hashtable NameTree Scheduler Pft ValStrategy ValForwarder ValMachine ValGeo NfdTables Fib Pit Cleanup DeadNonceList Cs Algorithm RetxSuppression Measurements StrategyChoice Forwarder TablesInv StrategyChoiceProps ForwarderInv ForwarderSafety CsStore ForwarderProps Node NodeVal.

Local Open Scope Z_scope.

#[local] Abbreviation o := (HashtableOptions_new 1024).
#[local] Abbreviation counts := (power_counts 1024).

(** ** What leaves the node on the network *)
Definition val_part (x : node_output) : option output :=
  match x with ToNetwork entry faceId valPkt => Some (SendValPacket entry faceId valPkt) | FromNfd _ => None end.
Definition transmissions (l : nat) (out : list node_output) : nat := sent l (omap val_part out).

Lemma transmissions_app l out out' : transmissions l (out ++ out') = (transmissions l out + transmissions l out')%nat.
Proof. unfold transmissions. by rewrite omap_app, sent_app. Qed.
Lemma progress_sent v out out' v' : progress v out v' -> (forall l, sent l out' = sent l out) -> progress v out' v'.
Proof. intros (H1 & H2 & H3) He. split; [done|]. split; [done|]. intros l. by rewrite He. Qed.

(** The table may grow under NFD. *)
Section growth.
Context {C : Type} `{HashFunction} `{StdSort} `{SeededHash} (cs_ok : C -> Prop).
Lemma known_grows t t' face : grows t t' -> known t face -> known t' face.
Proof. intros Hg (f & Hf & Hr). exists f. by split; [apply Hg|]. Qed.
Lemma fw_inv_grows (s : Forwarder C) t : fw_inv cs_ok o counts None s -> ft_inv t -> grows (fw_faceTable s) t -> fw_inv cs_ok o counts None (on_faceTable t s).
Proof.
  intros [? ? ? Hh He ?] Ht Hg. split; [done|done|done| | |done]; cbn.
  - intros prefix e nh Hv Hn. by eapply known_grows, Hh.
  - intros loc e Ha. destruct (He loc e Ha) as [? ? Hf ? ? ?]. split; [done|done| |done..]. intros r Hr. by eapply known_grows, Hf.
Qed.
Lemma fw_inv_clear (s : Forwarder C) : fw_inv cs_ok o counts None s -> fw_inv cs_ok o counts None (clear_out s).
Proof. by intros [? ? ? ? ? ?]. Qed.
End growth.

(** ** The calls of NFD *)
Section calls.
Context (fails : fault -> Prop) `{!ValStrategy.Strategy} `{!ScopedStrategy fails}.

Lemma val_calls_ok e outs : forall random v, val_ok v -> Forall val_ready outs ->
  post fails (val_calls e random outs v) (fun x => val_ok x.2 /\ m_faceTable x.2 = m_faceTable v /\ progress v (omap val_part x.1) x.2).
Proof.
  induction outs as [|x outs IH]; intros random v Hv Hr; [do 2 (split; [done|]); apply progress_frame; done || apply Hv|].
  apply Forall_cons in Hr as [Hx Hr]. cbn [val_calls]. set (e' := mkEnv _ _ _).
  assert (Hcall : forall random m, handled fails v m ->
    post fails (let* v := m in val_calls e random outs v) (fun x => val_ok x.2 /\ m_faceTable x.2 = m_faceTable v /\ progress v (omap val_part x.1) x.2)).
  { intros random' m Hm. eapply post_bind; [exact Hm|]. intros v1 (Hv1 & Et & Hp). eapply post_weaken; [by apply IH|]. intros y (Hv' & Et' & Hp').
    split; [done|]. split; [congruence|]. by apply (progress_trans _ [] v1). }
  assert (Hother : post fails (let* (o, v) := val_calls e random outs v in Ok (FromNfd x :: o, v)) (fun x => val_ok x.2 /\ m_faceTable x.2 = m_faceTable v /\ progress v (omap val_part x.1) x.2)).
  { eapply post_bind; [by apply IH|]. by intros [out v'] Hy. }
  destruct x; try exact Hother; apply Hcall; [by apply reveiceInterest_ok|].
  unfold doSendDataToVal. destruct nonceList as [ns|]; [by apply reveiceData_ok|]. cbn in Hx. rewrite Hx. by apply reveiceData_ok.
Qed.
End calls.

(** ** Every run *)
Section safety.
Context {C : Type} `{HashFunction} `{StdSort} `{!StdSortLaws} `{SeededHash} (sha256 : octets -> octets) (cs_ok : C -> Prop).
Context `{ContentStore C} `{!ContentStoreLaws C sha256 cs_ok}.
Context (strategies : Name -> Forwarder.Strategy C) `{Hst : !forall name, ForwarderInv.StrategyLaws sha256 cs_ok o (2 ^ 60) counts (strategies name)}.
Context (fails : fault -> Prop) `{!ValStrategy.Strategy} `{!ScopedStrategy fails}.
Implicit Types (n : Node C) (s : Forwarder C).

Record node_inv n : Prop := {
  ni_nfd : fw_inv cs_ok o counts None (n_forwarder n);
  ni_val : val_ok (n_val n);
  ni_faces : fw_faceTable (n_forwarder n) = m_faceTable (n_val n);
}.

(** What [node_step] gives in a state that satisfies the invariant. *)
Definition step_ok n (r : result (list node_output * Node C)) : Prop :=
  post fails r (fun x => node_inv x.2 /\ progress (n_val n) (omap val_part x.1) (n_val x.2)).

(** Packets from the network: of sizes that the tables take, without a next hop of their
    own. *)
Definition network_ok (now : Z) n (face : Z) (p : ValPacket) : Prop :=
  wf_packet p /\ is_Some (ft_get face (m_faceTable (n_val n))) /\ m_lastFaceId (m_faceTable (n_val n)) + 2 < 2 ^ 32 /\
  (forall i, getInterest p = Ok i -> sel_fine (i_selectors i) /\ (length (i_name i) <= S getMaxDepth)%nat /\ expiry_of now i < 2 ^ 63 /\ lookup_ok i /\
    tag_nextHopFaceId (i_tags i) = None /\ room (2 ^ 60) (fw_tables (n_forwarder n)) 3) /\
  (forall d, getData p = Ok d -> matchable sha256 d /\ (length (d_name d) <= S getMaxDepth)%nat /\ fresh_ok (mi_freshnessPeriod (d_metaInfo d)) /\
    valid_name (d_name d) /\ 0 <= now < 2 ^ 62 /\ room (2 ^ 60) (fw_tables (n_forwarder n)) (data_room sha256 (n_forwarder n) d)).

(** Geofaces are never removed, nor are faces that VAL refers to; what else NFD handles
    is as for NFD alone. *)
Definition node_admissible (now : Z) n (ev : node_event) : Prop :=
  match ev with
  | NetworkPacket face p => network_ok now n face p
  | ValTimer => True
  | NfdEvent ev => admissible sha256 (2 ^ 60) now (clear_out (n_forwarder n)) ev /\
    match ev with
    | RemoveFace face => (forall e, e ∈ f2a_table (m_f2a (n_val n)) -> fe_faceId e <> face) /\ ~ used (n_val n) face
    | _ => True
    end
  end.

(** NFD handles an event, VAL its calls; [v1] is VAL after it has seen the event. *)
Lemma nfd_event_ok e random ev n v1 : fw_inv cs_ok o counts None (n_forwarder n) -> admissible sha256 (2 ^ 60) (e_now e) (clear_out (n_forwarder n)) ev -> val_ok v1 ->
  (forall s', fw_handle sha256 strategies (e_now e) ev (clear_out (n_forwarder n)) = Ok s' -> fw_faceTable s' = m_faceTable v1) -> n_val n = v1 ->
  step_ok n (nfd_event sha256 strategies e random ev n).
Proof.
  intros Hf Ha Hv Ht <-. unfold nfd_event.
  destruct (fw_handle_ok sha256 cs_ok o (2 ^ 60) counts counts_1024 strategies (e_now e) (clear_out (n_forwarder n)) ev) as (s & E & Hs & (out & Eo & Hr) & _); [by apply fw_inv_clear|done|].
  specialize (Ht s E). rewrite E. cbn [mbind result_bind]. cbn in Eo. rewrite Eo.
  eapply post_bind; [by apply val_calls_ok|]. intros [o' v'] (Hv' & Et & Hp). cbn in Hv', Et, Hp.
  assert (Ev : with_faceTable (fw_faceTable s) v' = v') by (rewrite Ht, <-Et; by destruct v'). rewrite Ev.
  split; [|done]. split; [by apply fw_inv_clear|done|]. cbn. by rewrite Ht, Et.
Qed.

(** An event that leaves the faces alone. *)
Lemma nfd_step_ok e random ev n : node_inv n -> admissible sha256 (2 ^ 60) (e_now e) (clear_out (n_forwarder n)) ev ->
  match ev with AddFace _ | RemoveFace _ => False | _ => True end -> step_ok n (nfd_event sha256 strategies e random ev n).
Proof.
  intros [Hf Hv Et] Ha He. apply (nfd_event_ok e random ev n (n_val n)); [done..| |done]. intros s' E.
  destruct (fw_handle_ok sha256 cs_ok o (2 ^ 60) counts counts_1024 strategies (e_now e) (clear_out (n_forwarder n)) ev) as (s & E' & _ & _ & Htab); [by apply fw_inv_clear|done|].
  rewrite E in E'. apply (inj Ok) in E' as <-. rewrite <-Et. by destruct ev.
Qed.

(** What VAL hands over is admissible. *)
Lemma handed_ok e random p n x : node_inv n -> handed p (n_val n) x -> 
  (forall i, getInterest p = Ok i -> sel_fine (i_selectors i) /\ (length (i_name i) <= S getMaxDepth)%nat /\ expiry_of (e_now e) i < 2 ^ 63 /\ lookup_ok i /\
    tag_nextHopFaceId (i_tags i) = None /\ room (2 ^ 60) (fw_tables (n_forwarder n)) 3) ->
  (forall d, getData p = Ok d -> matchable sha256 d /\ (length (d_name d) <= S getMaxDepth)%nat /\ fresh_ok (mi_freshnessPeriod (d_metaInfo d)) /\
    valid_name (d_name d) /\ 0 <= e_now e < 2 ^ 62 /\ room (2 ^ 60) (fw_tables (n_forwarder n)) (data_room sha256 (n_forwarder n) d)) ->
  step_ok n (nfd_calls sha256 strategies e random [x] n).
Proof.
  intros Hn Hx Hpi Hpd. cbn [nfd_calls]. pose proof (gi_ft _ (vo_geo _ (ni_val _ Hn))) as Hft.
  assert (Hkn : forall g, geoface (n_val n) g -> known (fw_faceTable (clear_out (n_forwarder n))) g).
  { intros g (f & Hf & _ & Hvn). exists f. cbn. rewrite (ni_faces _ Hn). split; [done|]. split; [by eapply fi_id|done]. }
  assert (Hcall : forall m, step_ok n m -> step_ok n (let* (o, n) := m in let* (o', n) := Ok ([], n) in Ok (o ++ o', n))).
  { intros m Hm. eapply post_bind; [exact Hm|]. intros [out n'] Hr. cbn. by rewrite app_nil_r. }
  destruct x as [l f q|g i|g d]; [done| |]; apply Hcall, nfd_step_ok; [done| |done|done| |done].
  - destruct Hx as (Hg & i0 & Hi0 & Hi). destruct (Hpi i0 Hi0) as (H1' & H2' & H3' & H4' & H5' & H6'). split; [|done].
    assert (Htag : forall nh f, tag_nextHopFaceId (i_tags i) = Some nh -> ft_get nh (fw_faceTable (clear_out (n_forwarder n))) = Some f -> isValNetFace f = false).
    { intros nh f Ht Hf. destruct Hi as [->|(da & (f' & Hf' & _ & Hv') & ->)]; [congruence|]. cbn in Ht, Hf. injection Ht as <-. rewrite (ni_faces _ Hn), Hf' in Hf. congruence. }
    destruct Hi as [->|(da & Hda & ->)]; (split; [by apply Hkn|done..|by destruct H4'|done]).
  - destruct Hx as (Hg & Hd). destruct (Hpd d Hd) as (H1' & H2' & H3' & H4' & H5' & H6'). split; [|done]. split; [by apply Hkn|done..].
Qed.

(** The node after VAL has made geofaces. *)
Lemma grown_inv n v : node_inv n -> val_ok v -> grows (m_faceTable (n_val n)) (m_faceTable v) -> node_inv (mkNode (on_faceTable (m_faceTable v) (n_forwarder n)) v).
Proof. intros [Hf _ Et] Hv Hg. split; [|done|done]. apply fw_inv_grows; [done|apply (vo_geo _ Hv)|by rewrite Et]. Qed.

Lemma network_step_ok e random face p n : node_inv n -> network_ok (e_now e) n face p -> step_ok n (val_event sha256 strategies e random (EvValPacket face p) n).
Proof.
  intros Hn (Hw & Hf & Hm & Hi & Hd). unfold val_event. cbn [val_step].
  destruct (onReceived_ok face p (n_val n) (ni_val _ Hn) Hw Hf Hm) as (outs & v & E & Hv & Hg & Ho). rewrite E. cbn [mbind result_bind].
  pose proof (onReceived_progress face p _ _ _ (vo_fwd _ (ni_val _ Hn)) Hw E) as Hp. pose proof (grown_inv n v Hn Hv Hg) as Hn1.
  destruct Ho as [->|(x & -> & Hx)]; [done|].
  eapply post_weaken; [exact (handed_ok e random p _ x Hn1 Hx Hi Hd)|]. intros [out n'] (Hn' & Hp'). split; [done|].
  eapply progress_sent; [exact (progress_trans _ _ _ _ _ Hp Hp')|]. intros l. rewrite sent_app. by destruct x.
Qed.

(** Timers of VAL only transmit. *)
Lemma nfd_calls_sends e random outs : forall n, sends outs -> exists out, nfd_calls sha256 strategies e random outs n = Ok (out, n) /\ omap val_part out = outs.
Proof.
  induction outs as [|x outs IH]; intros n Hs; [by exists []|]. destruct (Hs x) as (l & f & p & ->); [left|]. cbn [nfd_calls mbind result_bind].
  destruct (IH n) as (out & -> & Ho); [intros y Hy; apply Hs; by right|]. cbn [mbind result_bind]. eexists. split; [done|]. cbn. by rewrite Ho.
Qed.
Lemma timer_step_ok e random n : node_inv n -> step_ok n (val_event sha256 strategies e random EvTimer n).
Proof.
  intros Hn. unfold val_event. cbn [val_step]. destruct (fireTimer_ok (e_now e) (n_val n) (ni_val _ Hn)) as (outs & v & E & Hv & Et & Hs). rewrite E. cbn [mbind result_bind].
  destruct (nfd_calls_sends e random outs (mkNode (on_faceTable (m_faceTable v) (n_forwarder n)) v) Hs) as (out & -> & Ho).
  split; [apply (grown_inv n v Hn Hv); by rewrite Et|]. cbn. rewrite Ho. by eapply fireTimer_progress; [apply Hn|].
Qed.

(** Faces that come and go. *)
Lemma face_step_ok e random nfd val n v1 : node_inv n -> admissible sha256 (2 ^ 60) (e_now e) (clear_out (n_forwarder n)) nfd -> val_step e val (n_val n) = Ok ([], v1) -> val_ok v1 ->
  match nfd with
  | AddFace f => exists sig, ft_add f (m_faceTable (n_val n)) = Ok (sig, m_faceTable v1)
  | RemoveFace face => exists sig, ft_remove face (m_faceTable (n_val n)) = Ok (sig, m_faceTable v1)
  | _ => False
  end -> event_ok val -> step_ok n (face_event sha256 strategies e random nfd val n).
Proof.
  intros Hn Ha E Hv Ht Hev. unfold face_event. rewrite E. cbn [mbind result_bind].
  eapply post_weaken; [apply (nfd_event_ok e random nfd (mkNode (n_forwarder n) v1) v1 (ni_nfd _ Hn) Ha Hv); [|done]|].
  - intros s' Es. destruct (fw_handle_ok sha256 cs_ok o (2 ^ 60) counts counts_1024 strategies (e_now e) (clear_out (n_forwarder n)) nfd) as (s & Es' & _ & _ & Htab);
      [apply fw_inv_clear, Hn|done|]. cbn in Es. rewrite Es in Es'. apply (inj Ok) in Es' as <-. cbn in Htab. rewrite (ni_faces _ Hn) in Htab.
    destruct nfd as [| | | |f|face|]; try done; destruct Ht as [sg Ht], Htab as [sg' Htab]; congruence.
  - intros x (Hn' & Hp'). split; [exact Hn'|]. apply (progress_trans _ [] v1); [|exact Hp'].
    eapply val_step_progress; [apply Hn|exact Hev|exact E].
Qed.

Lemma node_step_ok e random ev n : node_inv n -> node_admissible (e_now e) n ev -> step_ok n (node_step sha256 strategies e random ev n).
Proof.
  intros Hn Ha. destruct ev as [face p|ev|]; [by apply network_step_ok| |by apply timer_step_ok]. destruct Ha as [Ha Hr]. pose proof (ni_val _ Hn) as Hv.
  destruct ev as [g i|g d|g i r|g i|f|face|]; cbn [node_step]; try (by apply nfd_step_ok).
  - destruct Ha as [Hid Hl]. cbn in Hl. rewrite (ni_faces _ Hn) in Hl. destruct (addFace_ok f (n_val n) Hv Hid Hl) as (v1 & E & Hv1 & Et).
    apply (face_step_ok e random _ _ n v1); [done| |cbn; by rewrite E|done| |done]; [split; [done|]; cbn; by rewrite (ni_faces _ Hn)|].
    eexists. rewrite Et. by apply ft_add_new; [apply (vo_geo _ Hv)| |].
  - destruct Hr as [Hg Hu]. pose proof Ha as (f & Hf). cbn in Hf. rewrite (ni_faces _ Hn) in Hf. destruct (removeFace_ok face f (n_val n) Hv Hf Hg Hu) as (v1 & E & Hv1 & Et).
    apply (face_step_ok e random _ _ n v1); [done|done|cbn; by rewrite E|done| |done]. eexists. rewrite Et. unfold ft_remove, ft_get in *. by rewrite Hf.
Qed.

(** Each event may happen in the state in which it happens. *)
Fixpoint node_admissible_run (evs : list (env * list double * node_event)) n : Prop :=
  match evs with
  | [] => True
  | (e, random, ev) :: evs => node_admissible (e_now e) n ev /\
    forall out n', node_step sha256 strategies e random ev n = Ok (out, n') -> node_admissible_run evs n'
  end.

Lemma node_run_ok evs : forall n, node_inv n -> node_admissible_run evs n -> step_ok n (node_run sha256 strategies evs n).
Proof.
  induction evs as [|[[e random] ev] evs IH]; intros n Hn Ha; [split; [done|]; by apply progress_frame; [apply Hn| |]|].
  destruct Ha as [Ha Hr]. cbn [node_run]. pose proof (node_step_ok e random ev n Hn Ha) as Hs. destruct (node_step _ _ _ _ _ _) as [[out n1]|]; [|exact Hs].
  destruct Hs as [Hn1 Hp]. cbn [mbind result_bind]. eapply post_bind; [apply (IH n1 Hn1 (Hr _ _ eq_refl))|]. intros [out' n'] [Hn' Hp']. split; [done|].
  cbn. rewrite omap_app. by eapply progress_trans.
Qed.

(** ** Construction *)

Lemma addReserved_ok f id t : ft_inv t -> face_id f = INVALID_FACEID -> id <= FACEID_RESERVED_MAX -> ft_get id t = None ->
  exists sig t', ft_addReserved f id t = Ok (sig, t') /\ ft_inv t' /\ grows t t' /\ m_lastFaceId t' = m_lastFaceId t.
Proof.
  intros Ht Hf Hid Hn. unfold ft_addReserved, addImpl. rewrite (proj2 (Z.eqb_eq _ _) Hf), (proj2 (Z.leb_le _ _) Hid). unfold ft_get in Hn. rewrite bool_decide_true by done.
  eexists _, _. split; [done|]. split; [|split; [|done]].
  - split; cbn; [| |apply (fi_reserved _ Ht)].
    + intros x f' [[<- <-]|[_ Hx]]%lookup_insert_Some; [done|by apply (fi_id _ Ht)].
    + intros x [f' [[<- _]|[_ Hx]]%lookup_insert_Some]; [pose proof (fi_reserved _ Ht); lia|apply (fi_last _ Ht); by exists f'].
  - intros x f' Hx. unfold ft_get in *. cbn. rewrite lookup_insert_ne; [done|]. intros <-. congruence.
Qed.

(** The default route. *)
Lemma default_route s face : fw_inv cs_ok o counts None s -> room (2 ^ 60) (fw_tables s) 1 -> known (fw_faceTable s) face ->
  exists xs t t', fib_insert [] (fw_tables s) = Ok (xs, t) /\ fib_addOrUpdateNextHop xs.1 face 0 1 t = Ok t' /\ fw_inv cs_ok o counts None (with_tables t' s).
Proof.
  intros Hi Hr Hk. destruct (add_route_safe cs_ok o (2 ^ 60) counts counts_1024 None s [mkComponent 8 []] face Hi) as (s' & E & Hi' & _); [unfold getMaxDepth; cbn; lia|done|done|].
  unfold add_route in E. change (getPrefix (-1) [mkComponent 8 []]) with (@nil Component) in E. apply result_bind_Ok in E as ([xs t] & E1 & E). apply result_bind_Ok in E as (t' & E2 & E).
  apply (inj Ok) in E as <-. by exists xs, t, t'.
Qed.

Lemma Node_new_ok registry now cs instance : strategy_create registry getDefaultStrategyName = Ok (Some instance) -> cs_ok cs ->
  exists n, Node_new registry now cs = Ok n /\ node_inv n.
Proof.
  intros Hc Hcs. destruct (Forwarder_new_ok cs_ok registry now cs instance Hc Hcs) as (s & E & Hi & _ & _ & Hroom & f & Ef). unfold Node_new. rewrite E. cbn [mbind result_bind]. clear E.
  pose proof (fv_faces _ _ _ _ _ Hi) as Ht. destruct (ValForwarder_new_ok (fw_faceTable s) Ht) as (v & -> & Hv & Et); [by rewrite Ef|]. cbn [mbind result_bind].
  pose proof (gi_ft _ (vo_geo _ Hv)) as Htv. assert (Hlast : m_lastFaceId (m_faceTable v) = 256) by (by rewrite Et, Ef). assert (Hfree : ft_get 255 (m_faceTable v) = None) by (by rewrite Et, Ef).
  assert (Hflood : known (m_faceTable v) 256) by (rewrite Et, Ef; eexists; by do 2 (split; [done|])).
  assert (Hi1 : fw_inv cs_ok o counts None (on_faceTable (m_faceTable v) s)) by (apply fw_inv_grows; [done|done|]; rewrite Et; by apply grows_insert).
  destruct (default_route (on_faceTable (m_faceTable v) s) 256 Hi1 Hroom Hflood) as (xs & t & t' & E1 & E2 & Hi2). rewrite E1. cbn [mbind result_bind]. rewrite Hlast, E2. cbn [mbind result_bind].
  destruct (addReserved_ok (makeNullFace (str "null://")) FACEID_NULL (m_faceTable v) Htv) as (sig & ft & E3 & Hft & Hg & _); [done|done|done|]. cbn [fw_faceTable with_tables on_faceTable]. rewrite E3. cbn [mbind result_bind].
  eexists. split; [done|]. split; cbn; [|apply (grow_ok v); [done|apply geo_inv_grows; [apply Hv|done|done]|done..|intros id Hid; left; exact Hid]|done].
  by apply (fw_inv_grows cs_ok (with_tables t' (on_faceTable (m_faceTable v) s))).
Qed.

(** C8: a node fails only in VAL's strategy.  With a registered default strategy the
    construction of NFD and VAL over one face table succeeds, the flood face being the
    default route.  After it, whatever comes from the network and from applications,
    whichever timers fire and whichever faces come and go, as long as each event is
    admissible where it happens: every handler of VAL, every pipeline of NFD that it runs
    into and every call back into VAL returns, unless VAL's strategy fails in one of the
    ways given for it (for the distances strategy, [distances_gap]; for a total strategy,
    none); the two tables stay equal and both invariants hold; and no pending packet is
    transmitted more than four times. *)
Theorem node_safety registry now cs instance evs :
  strategy_create registry getDefaultStrategyName = Ok (Some instance) -> cs_ok cs ->
  (forall n, Node_new registry now cs = Ok n -> node_admissible_run evs n) ->
  exists n, Node_new registry now cs = Ok n /\
    post fails (node_run sha256 strategies evs n) (fun x => node_inv x.2 /\ forall l, (transmissions l x.1 <= 4)%nat).
Proof.
  intros Hc Hcs Ha. destruct (Node_new_ok registry now cs instance Hc Hcs) as (n & E & Hn). exists n. split; [exact E|].
  eapply post_weaken; [exact (node_run_ok evs n Hn (Ha n E))|]. intros [out n'] (Hn' & _ & _ & Hp). split; [exact Hn'|]. intros l. specialize (Hp l).
  pose proof (cap_max (vf_pft (n_val n)) (vf_timers (n_val n)) l (vo_fwd _ (ni_val _ Hn))) as Hm. unfold transmissions, vcap, MAX_TRANSMISSIONS in *. cbn [fst snd] in *. lia.
Qed.
End safety.

(** ** A node on a line, by evaluation *)
#[local] Existing Instance mark_hash.
#[local] Existing Instance mark_seeded.
#[local] Instance sample_content_store'' : ContentStore Cs := Cs_ContentStore sample_sha256.
#[local] Existing Instance line_geometry.

Definition sample_node : result (Node Cs) := Node_new sample_registry 0 empty_store.
Definition asked (nonce : Z) : Interest :=
  mkInterest [mkComponent 8 (str "a"); mkComponent 8 (str "b")] Selectors_new true nonce 1000 DelegationList_new Block_default None no_tags.
Definition run_node `{ValStrategy.Strategy} (evs : list (env * list double * node_event)) : result (list node_output * Node Cs) :=
  let* n := sample_node in node_run sample_sha256 sample_strategies evs n.

Lemma asked_ok nonce : sel_fine (i_selectors (asked nonce)) /\ lookup_ok (asked nonce).
Proof.
  split; [|split; [repeat constructor|done|done]]. apply sel_fine_made; [|done]. eexists _, _. split; [vm_compute; reflexivity|]. split; [vm_compute; reflexivity|]. by vm_compute.
Qed.

(** What the events of the runs below need of the state, as a test. *)
Definition node_test (now : Z) (ev : node_event) (n : Node Cs) : bool :=
  match ev with
  | NfdEvent (AddFace f) => sample_test now (AddFace f) (n_forwarder n)
  | NfdEvent _ => false
  | NetworkPacket face p => bool_decide (is_Some (ft_get face (m_faceTable (n_val n)))) && (m_lastFaceId (m_faceTable (n_val n)) + 2 <? 2 ^ 32) &&
      (m_htSize (t_nameTree (fw_tables (n_forwarder n))) <? 1000) && (now <? 2 ^ 62)
  | ValTimer => true
  end.
Fixpoint node_tests `{ValStrategy.Strategy} (evs : list (env * list double * node_event)) (n : Node Cs) : bool :=
  match evs with
  | [] => true
  | (e, random, ev) :: evs => node_test (e_now e) ev n &&
    match node_step sample_sha256 sample_strategies e random ev n with Ok (_, n') => node_tests evs n' | Err _ => false end
  end.
(** The only packets are Interests. *)
Definition asks (ev : node_event) : Prop := match ev with NetworkPacket _ p => exists h nonce, p = interest_packet h (asked nonce) | _ => True end.

Lemma node_test_ok now ev n : asks ev -> node_test now ev n = true -> node_admissible sample_sha256 now n ev.
Proof.
  intros Hp Ht. destruct ev as [face p|ev|]; [| |done]; cbn in Ht |- *.
  - destruct Hp as (h & nonce & ->). apply andb_prop in Ht as [Ht Hnow]. apply andb_prop in Ht as [Ht Hsz]. apply andb_prop in Ht as [Hf Hl]. apply bool_decide_eq_true in Hf. zbool.
    split; [apply wf_interest_packet|]. do 2 (split; [done|]). rewrite interest_packet_eq. cbn. split; [|done]. intros i [= <-].
    destruct (asked_ok nonce) as [Hs Hlo]. do 1 (split; [done|]). split; [cbn; unfold getMaxDepth; lia|]. split; [unfold expiry_of, ms; cbn; lia|]. split; [done|]. split; [done|].
    unfold room, getMaxDepth. lia.
  - destruct ev as [| | | |f| |]; try done. split; [|done]. cbn. apply andb_prop in Ht as [? ?]. by zbool.
Qed.
Lemma node_tests_ok `{ValStrategy.Strategy} evs : Forall (fun x => asks x.2) evs -> forall n, node_tests evs n = true ->
  node_admissible_run sample_sha256 sample_strategies evs n.
Proof.
  induction evs as [|[[e random] ev] evs IH]; intros Hp n Ht; [done|]. apply Forall_cons in Hp as [Hp Hps]. cbn in Ht |- *. apply andb_prop in Ht as [Ht Hn]. split; [by apply node_test_ok|].
  intros out n' E. rewrite E in Hn. by apply IH.
Qed.

(** An Interest for the area of another node is relayed; nobody acknowledges it. *)
Definition relay_run : list (env * list double * node_event) :=
  [(sample_env 1, [], NfdEvent (AddFace ValMachine.sample_face)); (sample_env 4, [], NetworkPacket 257 (interest_packet (line_header 30 3) (asked 7)))] ++
  ((fun k => (sample_env (k * 1000000000), [], ValTimer)) <$> [1; 2; 3; 4; 5; 6]).

Lemma node_safety_witness : exists n out n', sample_node = Ok n /\ node_run sample_sha256 sample_strategies relay_run n = Ok (out, n') /\
  node_inv (cs_fine sample_sha256) n' /\ transmissions 0 out = 4%nat.
Proof.
  destruct (node_safety sample_sha256 (cs_fine sample_sha256) sample_strategies (Hst := fun name => BroadcastStrategy_laws sample_sha256 _ _ _ _ counts_1024)
    distances_gap (ScopedStrategy0 := ValDistancesStrategy_scoped) sample_registry 0 empty_store (strategy_name "best-route" 5) relay_run) as (n & E & Hr).
  - by vm_compute.
  - apply empty_store_fine.
  - intros n E. apply node_tests_ok.
    + clear. repeat (apply Forall_cons; split; [done || (eexists _, _; reflexivity)|]). apply Forall_nil_2.
    + assert (Ht : match sample_node with Ok n => node_tests relay_run n | Err _ => false end = true) by (vm_compute; reflexivity).
      unfold sample_node in Ht. rewrite E in Ht. exact Ht.
  - assert (Ht : match run_node relay_run with Ok (out, _) => transmissions 0 out =? 4 | Err _ => false end%nat = true) by (vm_compute; reflexivity).
    unfold run_node, sample_node in Ht. rewrite E in Ht. cbn [mbind result_bind] in Ht. destruct (node_run _ _ _ _) as [[out n']|] eqn:Er; [|discriminate Ht].
    exists n, out, n'. split; [exact E|]. split; [exact Er|]. split; [apply Hr|by apply Nat.eqb_eq].
Defined.

(** ** Answers from the content store *)

(** A node that has relayed an Interest and its answer has the answer of the next
    Interest for it ready to be sent, with the hops that the Interest has taken. *)
Example cached_answer_served :
  match run_node [(sample_env 1, [], NfdEvent (AddFace ValMachine.sample_face)); (sample_env 4, [], NetworkPacket 257 (interest_packet (line_header 30 3) (asked 7)));
                  (sample_env 5, [], NetworkPacket 257 (data_packet (line_header 30 3) answer)); (sample_env 5, [], NfdEvent RunTimer);
                  (sample_env 6, [], NetworkPacket 257 (interest_packet (line_header 30 3) (asked 8)))] with
  | Ok (_, n) => (fun l => (fun e => (isSet (pe_valPkt e), getHopC (getValHeader (pe_valPkt e)))) <$> pft_store (vf_pft (n_val n)) !! l) <$> m_pft (vf_pft (n_val n)) =
      [Some (DATA_SET, 8)]
  | Err _ => False
  end.
Proof. vm_compute. reflexivity. Qed.


(** VAL takes Data with the congestion mark 501 for the command to forget its DFNT entry,
    and keeps nothing to send. *)
Lemma marked_data_not_kept `{ValStrategy.Strategy} e g d ns b v :
  getCongestionMark (d_tags d) = 501 ->
  exists v', doSendDataToVal e g d ns b v = Ok v' /\ vf_pft v' = vf_pft v /\ vf_timers v' = vf_timers v /\ m_ifnt v' = m_ifnt v.
Proof.
  intros Hm. unfold doSendDataToVal. rewrite Hm. cbn [Z.eqb Pos.eqb].
  assert (Hr : forall ns, exists v', reveiceData e g d ns b v = Ok v' /\ vf_pft v' = vf_pft v /\ vf_timers v' = vf_timers v /\ m_ifnt v' = m_ifnt v);
    [|by destruct ns].
  intros ns'. unfold reveiceData. rewrite Hm. cbn [Z.eqb Pos.eqb]. destruct (dfnt_findMatch _ _); by eexists.
Qed.
(** A node that has overheard a Data, which it caches with that mark, and then gets an
    Interest for it finds the Data, transmits nothing and has nothing scheduled, while the
    PIT entry of the Interest expires at once. *)
Example overheard_data_unanswered :
  match run_node [(sample_env 1, [], NfdEvent (AddFace ValMachine.sample_face)); (sample_env 4, [], NetworkPacket 257 (data_packet (line_header 30 3) answer));
                  (sample_env 5, [], NetworkPacket 257 (interest_packet (line_header 30 3) (asked 7))); (sample_env 5, [], NfdEvent RunTimer)] with
  | Ok (out, n) => (getCongestionMark ∘ d_tags ∘ ce_data <$> cs_table (fw_cs (n_forwarder n)), size (pit_map (fw_tables (n_forwarder n)))) = ([501], 0%nat) /\
      (length (omap val_part out), length (m_pft (vf_pft (n_val n))), length (m_queue (vf_timers (n_val n))), length (ifnt_table (m_ifnt (n_val n)))) = (0, 0, 0, 1)%nat
  | Err _ => False
  end.
Proof. vm_compute. split; reflexivity. Qed.
