(* ===== verification/Rib.v ===== *)
(** * The routing information base (NFD/rib/route.hpp, rib-entry.cpp, rib.cpp)

    The routes that were registered, collected by name.  The entries form a forest: the
    parent of an entry is the entry of the longest proper prefix of its name that has one.
    Entries are referred to by their names: while an entry is in the table its name is its
    own, and an entry that is erased is taken out of the lists that mention it. *)

From stdpp Require Import base gmap list sorting strings.
From Stdlib Require Import ZArith Lia.
From S2P Require Import Prelude Ndn NameTlv Data ValTables Scheduler Hashtable NameTree NfdTables Fib.

Local Open Scope Z_scope.

(** ** Routes *)
Definition ROUTE_FLAG_CHILD_INHERIT : Z := 1.
Definition ROUTE_FLAG_CAPTURE : Z := 2.

Record Route := mkRoute {
  r_faceId : Z;
  r_origin : Z;
  r_cost : Z;
  r_flags : Z;
  r_expires : option Z;
  r_announcement : option PrefixAnnouncement;
  r_annExpires : Z;
  r_expirationEvent : option nat;
}.

Definition isChildInherit (r : Route) : bool := negb (Z.land (r_flags r) ROUTE_FLAG_CHILD_INHERIT =? 0).
Definition isRibCapture (r : Route) : bool := negb (Z.land (r_flags r) ROUTE_FLAG_CAPTURE =? 0).
Definition compareFaceIdAndOrigin (lhs rhs : Route) : bool := (r_faceId lhs =? r_faceId rhs) && (r_origin lhs =? r_origin rhs).
Definition compareFaceId (faceId : Z) (route : Route) : bool := r_faceId route =? faceId.

(** ** Entries *)
Record RibEntry := mkRibEntry {
  re_name : Name;
  re_children : list Name;
  re_parent : option Name;
  re_routes : list Route;
  re_inheritedRoutes : list Route;
  re_nRoutesWithCaptureSet : Z;
}.
Definition RibEntry_new (name : Name) : RibEntry := mkRibEntry name [] None [] [] 0.

Definition with_children (x : list Name) (e : RibEntry) : RibEntry :=
  mkRibEntry (re_name e) x (re_parent e) (re_routes e) (re_inheritedRoutes e) (re_nRoutesWithCaptureSet e).
Definition setParent (x : option Name) (e : RibEntry) : RibEntry :=
  mkRibEntry (re_name e) (re_children e) x (re_routes e) (re_inheritedRoutes e) (re_nRoutesWithCaptureSet e).
Definition with_routes (x : list Route) (nCapture : Z) (e : RibEntry) : RibEntry :=
  mkRibEntry (re_name e) (re_children e) (re_parent e) x (re_inheritedRoutes e) nCapture.
Definition with_inheritedRoutes (x : list Route) (e : RibEntry) : RibEntry :=
  mkRibEntry (re_name e) (re_children e) (re_parent e) (re_routes e) x (re_nRoutesWithCaptureSet e).

Definition findRoute (route : Route) (e : RibEntry) : option Route := find_first (fun r => compareFaceIdAndOrigin r route) (re_routes e).
Definition insertRoute (route : Route) (e : RibEntry) : bool * RibEntry :=
  match findRoute route e with
  | None => (true, with_routes (re_routes e ++ [route]) (if isRibCapture route then incr (re_nRoutesWithCaptureSet e) else re_nRoutesWithCaptureSet e) e)
  | Some _ => (false, e)
  end.
(** [*entryIt = route]; the number of routes with the capture flag stays as it is. *)
Definition assignRoute (route : Route) (e : RibEntry) : RibEntry :=
  with_routes (update_first (fun r => compareFaceIdAndOrigin r route) (fun _ => route) (re_routes e)) (re_nRoutesWithCaptureSet e) e.
(** Erase the route that [findRoute] found. *)
Definition eraseRoute (route : Route) (e : RibEntry) : RibEntry :=
  match findRoute route e with
  | Some r => with_routes (erase_first (fun r => compareFaceIdAndOrigin r route) (re_routes e))
                (if isRibCapture r then decr (re_nRoutesWithCaptureSet e) else re_nRoutesWithCaptureSet e) e
  | None => e
  end.
Definition hasFaceId (faceId : Z) (e : RibEntry) : bool := existsb (compareFaceId faceId) (re_routes e).
Definition getNRoutes (e : RibEntry) : Z := zlen (re_routes e).
Definition addInheritedRoute (route : Route) (e : RibEntry) : RibEntry := with_inheritedRoutes (re_inheritedRoutes e ++ [route]) e.
Definition removeInheritedRoute (route : Route) (e : RibEntry) : RibEntry :=
  with_inheritedRoutes (filter (fun r => compareFaceId (r_faceId route) r = false) (re_inheritedRoutes e)) e.
Definition hasInheritedRoute (route : Route) (e : RibEntry) : bool := existsb (compareFaceId (r_faceId route)) (re_inheritedRoutes e).
Definition hasCapture (e : RibEntry) : bool := re_nRoutesWithCaptureSet e >? 0.
Definition hasChildInheritOnFaceId (faceId : Z) (e : RibEntry) : bool :=
  existsb (fun r => (r_faceId r =? faceId) && isChildInherit r) (re_routes e).

(** The first of the routes with the lowest cost. *)
Fixpoint lowest_loop (p : Route -> bool) (candidate : option Route) (routes : list Route) : option Route :=
  match routes with
  | [] => candidate
  | route :: routes =>
    lowest_loop p (if p route then match candidate with
                                   | None => Some route
                                   | Some c => if r_cost route <? r_cost c then Some route else candidate
                                   end
                   else candidate) routes
  end.
Definition getRouteWithLowestCostByFaceId (faceId : Z) (e : RibEntry) : option Route :=
  lowest_loop (compareFaceId faceId) None (re_routes e).
Definition getRouteWithLowestCostAndChildInheritByFaceId (faceId : Z) (e : RibEntry) : option Route :=
  lowest_loop (fun r => (r_faceId r =? faceId) && isChildInherit r) None (re_routes e).
(** [std::nth_element] puts one of the routes with the second lowest cost at position 1. *)
Definition getRouteWithSecondLowestCostByFaceId `{StdSort} (faceId : Z) (e : RibEntry) : option Route :=
  let matches := filter (fun r => compareFaceId faceId r = true) (re_routes e) in
  if zlen matches <? 2 then None else sort_by r_cost matches !! 1%nat.

(** ** The table *)
Inductive rib_signal : Type :=
  | AfterInsertEntry (name : Name)
  | AfterEraseEntry (name : Name)
  | AfterAddRoute (name : Name) (route : Route)
  | BeforeRemoveRoute (name : Name) (route : Route).

(** [m_rib], the face lookup table, the number of routes, and what surrounds them: the
    events that unregister routes when they expire, and the signals that were emitted. *)
Record Rib := mkRib {
  rib_table : gmap Name RibEntry;
  rib_faceMap : gmap Z (list Name);
  rib_nItems : Z;
  rib_timers : EventQueue (Name * Route);
  rib_signals : list rib_signal;
}.
Definition Rib_new : Rib := mkRib ∅ ∅ 0 EventQueue_new [].

Definition on_table (f : gmap Name RibEntry -> gmap Name RibEntry) (s : Rib) : Rib :=
  mkRib (f (rib_table s)) (rib_faceMap s) (rib_nItems s) (rib_timers s) (rib_signals s).
Definition on_faceMap (f : gmap Z (list Name) -> gmap Z (list Name)) (s : Rib) : Rib :=
  mkRib (rib_table s) (f (rib_faceMap s)) (rib_nItems s) (rib_timers s) (rib_signals s).
Definition with_nItems (n : Z) (s : Rib) : Rib :=
  mkRib (rib_table s) (rib_faceMap s) n (rib_timers s) (rib_signals s).
Definition cancelExpiration (route : Route) (s : Rib) : Rib :=
  mkRib (rib_table s) (rib_faceMap s) (rib_nItems s) (cancel (r_expirationEvent route) (rib_timers s)) (rib_signals s).
Definition signal (x : rib_signal) (s : Rib) : Rib :=
  mkRib (rib_table s) (rib_faceMap s) (rib_nItems s) (rib_timers s) (rib_signals s ++ [x]).

Definition rib_find (prefix : Name) (s : Rib) : option RibEntry := rib_table s !! prefix.
Definition rib_findRoute (prefix : Name) (route : Route) (s : Rib) : option Route := rib_find prefix s ≫= findRoute route.
(** The entry a pointer points to. *)
Definition rib_deref (name : Name) (s : Rib) : result RibEntry :=
  match rib_table s !! name with Some e => Ok e | None => Err (UndefinedBehaviour "dangling RIB entry") end.
Definition rib_modify (name : Name) (f : RibEntry -> RibEntry) (s : Rib) : result Rib :=
  let* e := rib_deref name s in Ok (on_table <[name := f e]> s).

(** [findParent]: prefixes of decreasing length. *)
Fixpoint findParent_loop (i : nat) (prefix : Name) (s : Rib) : option Name :=
  match i with
  | O => None
  | S i => match rib_find (take i prefix) s with Some e => Some (re_name e) | None => findParent_loop i prefix s end
  end.
Definition findParent (prefix : Name) (s : Rib) : option Name := findParent_loop (length prefix) prefix s.

Definition findLongestPrefix (prefix : Name) (route : Route) (s : Rib) : option Route :=
  match rib_findRoute prefix route s with
  | Some r => Some r
  | None => match findParent prefix s with Some parent => rib_findRoute parent route s | None => None end
  end.

(** The names of a [std::map] in its order. *)
Definition name_le (a b : Name) : Prop := name_compare a b <= 0.
#[export] Instance name_le_dec a b : Decision (name_le a b).
Proof. apply Z.le_dec. Defined.
Definition rib_names (s : Rib) : list Name := merge_sort name_le (map_to_list (rib_table s)).*1.

Fixpoint take_while {A} (p : A -> bool) (l : list A) : list A :=
  match l with [] => [] | x :: l => if p x then x :: take_while p l else [] end.
(** The elements behind the one that is found. *)
Fixpoint after (prefix : Name) (names : list Name) : list Name :=
  match names with [] => [] | n :: names => if bool_decide (n = prefix) then names else after prefix names end.
Definition findDescendants (prefix : Name) (s : Rib) : list Name :=
  match rib_find prefix s with
  | Some _ => take_while (isPrefixOf prefix) (after prefix (rib_names s))
  | None => []
  end.
Definition findDescendantsForNonInsertedName (prefix : Name) (s : Rib) : list Name :=
  filter (fun n => isPrefixOf prefix n = true) (rib_names s).

(** [addChild], [removeChild] of the entry at [name]. *)
Definition addChild (name child : Name) (s : Rib) : result Rib :=
  let* c := rib_deref child s in
  assert! negb (is_some (re_parent c)) orelse "!child->getParent()" ;
  let* s := rib_modify child (setParent (Some name)) s in
  rib_modify name (fun e => with_children (re_children e ++ [child]) e) s.
Definition removeChild (name child : Name) (s : Rib) : result Rib :=
  let* c := rib_deref child s in
  assert! bool_decide (re_parent c = Some name) orelse "child->getParent().get() == this" ;
  let* s := rib_modify child (setParent None) s in
  rib_modify name (fun e => with_children (filter (fun n => n <> child) (re_children e)) e) s.

(** The children of the parent that become children of the new entry. *)
Fixpoint adopt (prefix : Name) (parent : option Name) (children : list Name) (s : Rib) : result Rib :=
  match children with
  | [] => Ok s
  | child :: children =>
    let* c := rib_deref child s in
    let* s :=
      if bool_decide (re_parent c = parent) then
        let* s := match parent with Some p => removeChild p child s | None => Ok s end in
        addChild prefix child s
      else Ok s in
    adopt prefix parent children s
  end.

Definition register_face (faceId : Z) (name : Name) : gmap Z (list Name) -> gmap Z (list Name) :=
  partial_alter (fun l => Some (default [] l ++ [name])) faceId.
Definition unregister_face (faceId : Z) (name : Name) : gmap Z (list Name) -> gmap Z (list Name) :=
  partial_alter (fun l => Some (filter (fun n => n <> name) (default [] l))) faceId.

Definition rib_insert (prefix : Name) (route : Route) (s : Rib) : result Rib :=
  match rib_find prefix s with
  | Some entry =>
    let '(didInsert, e) := insertRoute route entry in
    if (didInsert : bool) then
      let s := on_table <[prefix := e]> s in
      let s := with_nItems (incr (rib_nItems s)) s in
      let s := signal (AfterAddRoute prefix route) s in
      Ok (on_faceMap (register_face (r_faceId route) prefix) s)
    else
      let s := match findRoute route entry with Some old => cancelExpiration old s | None => s end in
      Ok (on_table <[prefix := assignRoute route entry]> s)
  | None =>
    let s := on_table <[prefix := RibEntry_new prefix]> s in
    let s := with_nItems (incr (rib_nItems s)) s in
    let* s := rib_modify prefix (fun e => (insertRoute route e).2) s in
    let parent := findParent prefix s in
    let* s := match parent with Some p => addChild p prefix s | None => Ok s end in
    let* s := adopt prefix parent (findDescendants prefix s) s in
    let s := on_faceMap (register_face (r_faceId route) prefix) s in
    let s := signal (AfterInsertEntry prefix) s in
    Ok (signal (AfterAddRoute prefix route) s)
  end.

(** The children of the entry that is erased become its parent's. *)
Fixpoint hand_over (name : Name) (parent : option Name) (children : list Name) (s : Rib) : result Rib :=
  match children with
  | [] => Ok s
  | child :: children =>
    let* s := removeChild name child s in
    let* s := match parent with Some p => addChild p child s | None => Ok s end in
    hand_over name parent children s
  end.
Definition eraseEntry (name : Name) (s : Rib) : result Rib :=
  let* entry := rib_deref name s in
  let parent := re_parent entry in
  let* s := match parent with Some p => removeChild p name s | None => Ok s end in
  let* s := hand_over name parent (re_children entry) s in
  Ok (signal (AfterEraseEntry name) (on_table (delete name) s)).

Definition rib_erase (prefix : Name) (route : Route) (s : Rib) : result Rib :=
  match rib_find prefix s with
  | None => Ok s
  | Some entry =>
    match findRoute route entry with
    | None => Ok s
    | Some r =>
      let s := signal (BeforeRemoveRoute prefix r) s in
      let s := cancelExpiration r s in
      let e := eraseRoute route entry in
      let s := on_table <[prefix := e]> s in
      let s := with_nItems (decr (rib_nItems s)) s in
      let s := if negb (hasFaceId (r_faceId route) e) then on_faceMap (unregister_face (r_faceId route) prefix) s else s in
      if bool_decide (re_routes e = []) then eraseEntry prefix s else Ok s
    end
  end.

(** ** Routes of ancestors *)

(** [RouteSet]: at most one route for a face, in the order of the faces. *)
Fixpoint rs_insert (route : Route) (l : list Route) : list Route :=
  match l with
  | [] => [route]
  | r :: l' => if r_faceId route <? r_faceId r then route :: l else if r_faceId r <? r_faceId route then r :: rs_insert route l' else l
  end.
Definition rs_find (route : Route) (l : list Route) : option Route := find_first (compareFaceId (r_faceId route)) l.
Definition rs_erase (route : Route) (l : list Route) : list Route := erase_first (compareFaceId (r_faceId route)) l.

Definition add_inheritable (routes set : list Route) : list Route :=
  foldl (fun set route => if isChildInherit route then rs_insert route set else set) set routes.
(** The loop up the tree; an entry with capture is the last one. *)
Fixpoint ancestor_loop (fuel : nat) (parent : option Name) (set : list Route) (s : Rib) : result (list Route) :=
  match parent with
  | None => Ok set
  | Some p =>
    match fuel with
    | O => Err OutOfFuel
    | S fuel =>
      let* e := rib_deref p s in
      let set := add_inheritable (re_routes e) set in
      if hasCapture e then Ok set else ancestor_loop fuel (re_parent e) set s
    end
  end.
Definition getAncestorRoutes (e : RibEntry) (s : Rib) : result (list Route) :=
  ancestor_loop (S (length (re_name e))) (re_parent e) [] s.
Definition getAncestorRoutesOfName (name : Name) (s : Rib) : result (list Route) :=
  ancestor_loop (S (length name)) (findParent name s) [] s.

Definition findRoutesWithFaceId (faceId : Z) (s : Rib) : result (list (Name * Route)) :=
  match rib_faceMap s !! faceId with
  | None => Ok []
  | Some entries => foldr (fun name r =>
      let* rest := r in
      let* e := rib_deref name s in
      Ok (((fun route => (re_name e, route)) <$> filter (fun route => r_faceId route = faceId) (re_routes e)) ++ rest)) (Ok []) entries
  end.
