(* ===== verification/RibInv.v ===== *)
(** * The forest of RIB entries

    The parent of an entry is the nearest registered prefix of its name; what the links
    between the entries promise, and that insertion and erasure keep it. *)

From stdpp Require Import base gmap list sorting strings.
From Stdlib Require Import ZArith Lia.
From S2P Require Import Prelude Ndn NameTlv Data ValTables Scheduler Hashtable NameTree NfdTables Fib NameSuccessor Cs Rib.

Local Open Scope Z_scope.
Implicit Types (s : Rib) (n p q c : Name) (e : RibEntry) (T : gmap Name RibEntry).

(** ** Nearest registered prefix *)
Definition strict (p n : Name) : Prop := p `prefix_of` n /\ p <> n.
#[export] Instance strict_dec p n : Decision (strict p n).
Proof. apply _. Defined.

Lemma strict_length p n : strict p n -> (length p < length n)%nat.
Proof.
  intros [[k ->] Hne]. rewrite length_app. destruct k; [by rewrite app_nil_r in Hne|]. cbn. lia.
Qed.
Lemma strict_irrefl n : ~ strict n n.
Proof. by intros [_ ?]. Qed.
Lemma strict_trans a b d : strict a b -> strict b d -> strict a d.
Proof.
  intros H1 H2. pose proof (strict_length _ _ H1). pose proof (strict_length _ _ H2). split; [etrans; [apply H1|apply H2]|]. intros ->. lia.
Qed.
(** Prefixes of one name are ordered by their lengths. *)
Lemma prefix_by_length a b n : a `prefix_of` n -> b `prefix_of` n -> (length a <= length b)%nat -> a `prefix_of` b.
Proof. intros Ha Hb Hl. destruct (prefix_weak_total a b n Ha Hb) as [|Hba]; [done|]. assert (a = b) as ->; [|done]. symmetry. apply prefix_length_eq; [done|lia]. Qed.
Lemma strict_by_length a b n : a `prefix_of` n -> b `prefix_of` n -> (length a < length b)%nat -> strict a b.
Proof. intros Ha Hb Hl. split; [eapply prefix_by_length; [done|done|lia]|]. intros ->. lia. Qed.

(** [o] is the nearest of the registered strict prefixes of [n], if there is one. *)
Definition is_nearest T n (o : option Name) : Prop :=
  match o with
  | Some p => is_Some (T !! p) /\ strict p n /\ forall q, is_Some (T !! q) -> strict q n -> (length q <= length p)%nat
  | None => forall q, is_Some (T !! q) -> ~ strict q n
  end.
Lemma is_nearest_unique T n o o' : is_nearest T n o -> is_nearest T n o' -> o = o'.
Proof.
  destruct o as [p|], o' as [p'|]; cbn; [| | |done].
  - intros (Hp & Hs & Hm) (Hp' & Hs' & Hm'). f_equal. specialize (Hm p' Hp' Hs'). specialize (Hm' p Hp Hs).
    apply prefix_length_eq; [|lia]. eapply prefix_by_length; [apply Hs|apply Hs'|lia].
  - intros (Hp & Hs & _) Hn. by destruct (Hn p Hp).
  - intros Hn (Hp & Hs & _). by destruct (Hn p' Hp).
Qed.
Lemma is_nearest_ext T T' n o : (forall q, is_Some (T !! q) <-> is_Some (T' !! q)) -> is_nearest T n o -> is_nearest T' n o.
Proof.
  intros He. destruct o as [p|]; cbn; [|intros Hn q Hq; by apply Hn, He]. intros (Hp & Hs & Hm). split; [by apply He|]. split; [done|]. intros q Hq. by apply Hm, He.
Qed.

Definition named T : Prop := forall n e, T !! n = Some e -> re_name e = n.
Lemma findParent_nearest n s : named (rib_table s) -> is_nearest (rib_table s) n (findParent n s).
Proof.
  intros Hn. unfold findParent.
  assert (Hl : forall i, (i <= length n)%nat -> (forall q, is_Some (rib_table s !! q) -> strict q n -> (length q < i)%nat) ->
    is_nearest (rib_table s) n (findParent_loop i n s)).
  { induction i as [|i IH]; intros Hi Hq; cbn [findParent_loop]; [intros q H1 H2; specialize (Hq q H1 H2); lia|].
    unfold rib_find. destruct (rib_table s !! take i n) as [e|] eqn:Ee.
    - rewrite (Hn _ _ Ee). split; [by eexists|]. assert (length (take i n) = i) as El by (rewrite length_take; lia).
      split; [split; [apply prefix_take|intros E; rewrite E in El; lia]|]. intros q H1 H2. specialize (Hq q H1 H2). lia.
    - apply IH; [lia|]. intros q H1 H2. specialize (Hq q H1 H2). destruct (decide (length q = i)) as [E|]; [|lia].
      destruct H2 as [[k ->] _]. rewrite <-E, take_app_length in Ee. rewrite Ee in H1. by destruct H1. }
  apply Hl; [done|]. intros q _ Hs. by apply strict_length.
Qed.

(** The prefix that was found, if any, is shorter than [p]. *)
Definition shorter (o : option Name) p : Prop := match o with Some q => (length q < length p)%nat | None => True end.
#[export] Instance shorter_dec o p : Decision (shorter o p).
Proof. destruct o; cbn; apply _. Defined.

(** A new name, and one that goes. *)
Lemma nearest_insert T n p e o : T !! p = None -> is_nearest T n o ->
  is_nearest (<[p := e]> T) n (if decide (strict p n /\ shorter o p) then Some p else o).
Proof.
  intros Hp Ho. assert (Hk : forall q, is_Some (<[p := e]> T !! q) <-> q = p \/ is_Some (T !! q)).
  { intros q. rewrite lookup_insert_is_Some. split; [intros [->|[_ ?]]; auto|intros [->|Hq]; [by left|]]. destruct (decide (p = q)); auto. }
  destruct (decide _) as [[Hs Hl]|Hns]; cbn.
  - split; [apply Hk; by left|]. split; [done|]. intros q [->|Hq]%Hk Hsq; [done|]. destruct o as [x|]; [|by destruct (Ho q Hq)].
    destruct Ho as (_ & _ & Hm). specialize (Hm q Hq Hsq). cbn in Hl. lia.
  - destruct o as [x|]; cbn.
    + destruct Ho as (Hx & Hsx & Hm). split; [apply Hk; by right|]. split; [done|]. intros q [->|Hq]%Hk Hsq; [|by apply Hm].
      destruct (decide (length p <= length x)%nat); [done|]. destruct Hns. split; [done|]. cbn. lia.
    + intros q [->|Hq]%Hk Hsq; [|by destruct (Ho q Hq)]. by apply Hns.
Qed.
Lemma nearest_delete T n p o op : is_nearest T n o -> is_nearest T p op -> is_nearest (delete p T) n (if decide (o = Some p) then op else o).
Proof.
  intros Ho Hop. assert (Hk : forall q, is_Some (delete p T !! q) <-> q <> p /\ is_Some (T !! q)).
  { intros q. rewrite lookup_delete_is_Some. split; intros [? ?]; (split; [by apply not_eq_sym|done]). }
  destruct (decide (o = Some p)) as [->|Hne].
  - destruct Ho as (_ & Hs & Hm). assert (Hback : forall q, is_Some (delete p T !! q) -> strict q n -> is_Some (T !! q) /\ strict q p).
    { intros q [Hqp Hq]%Hk Hsq. split; [done|]. split; [eapply prefix_by_length; [apply Hsq|apply Hs|by apply Hm]|done]. }
    destruct op as [x|]; cbn.
    + destruct Hop as (Hx & Hsx & Hmx). split; [apply Hk; split; [intros ->; by apply strict_irrefl in Hsx|done]|]. split; [by eapply strict_trans|].
      intros q H1 H2. destruct (Hback q H1 H2) as [H3 H4]. by apply Hmx.
    + intros q H1 H2. destruct (Hback q H1 H2) as [H3 H4]. by apply (Hop q).
  - destruct o as [x|]; cbn.
    + destruct Ho as (Hx & Hsx & Hm). split; [apply Hk; split; [congruence|done]|]. split; [done|]. intros q [_ Hq]%Hk. by apply Hm.
    + intros q [_ Hq]%Hk. by apply Ho.
Qed.

(** Below a name that is not registered, the nearest prefix is the one of that name or
    lies below it. *)
Lemma nearest_below T n p o op : T !! p = None -> strict p n -> is_nearest T n o -> is_nearest T p op ->
  o = op <-> shorter o p.
Proof.
  intros Hp Hs Ho Hop. split.
  - intros <-. destruct o; [|done]. apply strict_length, Hop.
  - intros Hl. apply (is_nearest_unique T p); [|done]. destruct o as [x|]; cbn.
    + destruct Ho as (Hx & Hsx & Hm). split; [done|]. split; [eapply strict_by_length; [apply Hsx|apply Hs|done]|].
      intros q Hq Hsq. apply Hm; [done|]. by eapply strict_trans.
    + intros q Hq Hsq. apply (Ho q Hq). by eapply strict_trans.
Qed.

(** ** Links *)

(** Parents and children belong to each other. *)
Record links T : Prop := {
  lk_children n e : T !! n = Some e -> NoDup (re_children e);
  lk_child n e c : T !! n = Some e -> c ∈ re_children e <-> exists ec, T !! c = Some ec /\ re_parent ec = Some n;
  lk_parent n e p : T !! n = Some e -> re_parent e = Some p -> is_Some (T !! p);
}.

(** What is left of an entry without its links, and its parent. *)
Definition content e : RibEntry := setParent None (with_children [] e).
Definition parent_at T n : option (option Name) := re_parent <$> T !! n.

(** Only links change, and the parents as described. *)
Definition relinked (f : Name -> option Name -> option Name) s s' : Prop :=
  s' = on_table (fun _ => rib_table s') s /\ content <$> rib_table s' = content <$> rib_table s /\
  forall n, parent_at (rib_table s') n = f n <$> parent_at (rib_table s) n.

Lemma relinked_lookup f s s' n e : relinked f s s' -> rib_table s !! n = Some e ->
  exists e', rib_table s' !! n = Some e' /\ content e' = content e /\ re_parent e' = f n (re_parent e).
Proof.
  intros (_ & Hc & Hp) He. specialize (Hp n). assert (Hn : (content <$> rib_table s') !! n = Some (content e)) by (by rewrite Hc, lookup_fmap, He).
  rewrite lookup_fmap in Hn. apply fmap_Some in Hn as (e' & He' & Ec). exists e'. split; [done|]. split; [done|]. unfold parent_at in Hp. rewrite He, He' in Hp. by injection Hp.
Qed.
Lemma relinked_dom f s s' n : relinked f s s' -> is_Some (rib_table s' !! n) <-> is_Some (rib_table s !! n).
Proof.
  intros (_ & Hc & _). assert (E : (content <$> rib_table s') !! n = (content <$> rib_table s) !! n) by (by rewrite Hc). rewrite !lookup_fmap in E.
  destruct (rib_table s' !! n), (rib_table s !! n); try done; by split; intros [? ?].
Qed.
Lemma relinked_same s : relinked (fun _ o => o) s s.
Proof. split; [by destruct s|]. split; [done|]. intros n. by rewrite option_fmap_id. Qed.
Lemma relinked_twice f g s1 s2 s3 : relinked f s1 s2 -> relinked g s2 s3 -> relinked (fun n o => g n (f n o)) s1 s3.
Proof.
  intros (E1 & C1 & P1) (E2 & C2 & P2). split; [rewrite E2, E1; done|]. split; [congruence|]. intros n. by rewrite P2, P1, <-option_fmap_compose.
Qed.
Lemma relinked_ext f g s s' : relinked f s s' -> (forall n e, rib_table s !! n = Some e -> f n (re_parent e) = g n (re_parent e)) -> relinked g s s'.
Proof.
  intros (E & C & P) Hfg. split; [done|]. split; [done|]. intros n. rewrite P. unfold parent_at. destruct (rib_table s !! n) as [e|] eqn:He; [|done]. cbn. f_equal. by apply Hfg.
Qed.

Lemma deref_ok n s e : rib_table s !! n = Some e -> rib_deref n s = Ok e.
Proof. intros He. unfold rib_deref. by rewrite He. Qed.
Lemma modify_ok n s e f : rib_table s !! n = Some e -> rib_modify n f s = Ok (on_table <[n := f e]> s).
Proof. intros He. unfold rib_modify. by rewrite (deref_ok n s e He). Qed.

(** The two changes of a link: the parent of [c] becomes [o], and the children of [n] are
    those of [l]. *)
Definition relink c n (o : option Name) (l : list Name -> list Name) T : gmap Name RibEntry :=
  alter (fun e => with_children (l (re_children e)) e) n (alter (setParent o) c T).
Lemma relink_lookup c n o l T m : c <> n -> relink c n o l T !! m =
  (fun e => if decide (m = c) then setParent o e else if decide (m = n) then with_children (l (re_children e)) e else e) <$> T !! m.
Proof.
  intros Hne. unfold relink. rewrite !lookup_alter. repeat case_decide; subst; try done; by destruct (T !! m).
Qed.
Lemma relink_ok c n o l s ec en : c <> n -> rib_table s !! c = Some ec -> rib_table s !! n = Some en ->
  let s' := on_table (relink c n o l) s in
  (let* s := rib_modify c (setParent o) s in rib_modify n (fun e => with_children (l (re_children e)) e) s) = Ok s' /\
  relinked (fun m o' => if decide (m = c) then o else o') s s'.
Proof.
  intros Hne Hc Hn s'. rewrite (modify_ok c s ec) by done. cbn [mbind result_bind].
  rewrite (modify_ok n _ en) by (cbn; by rewrite lookup_insert_ne). split.
  - f_equal. unfold s', on_table, relink. cbn. f_equal. apply map_eq. intros m. change (alter _ n (alter _ c _) !! m) with (relink c n o l (rib_table s) !! m).
    rewrite relink_lookup, !lookup_insert by done. repeat case_decide; subst; rewrite ?Hc, ?Hn; try done; by destruct (rib_table s !! m).
  - split; [done|]. split.
    + apply map_eq. intros m. rewrite !lookup_fmap. unfold s'. cbn. rewrite relink_lookup by done. destruct (rib_table s !! m) as [e|]; [|done]. cbn.
      repeat case_decide; done.
    + intros m. unfold parent_at, s'. cbn. rewrite relink_lookup by done. destruct (rib_table s !! m) as [e|]; [|done]. cbn. repeat case_decide; done.
Qed.

Lemma relink_Some c n o l T m e' : c <> n -> relink c n o l T !! m = Some e' -> exists e, T !! m = Some e /\
  e' = if decide (m = c) then setParent o e else if decide (m = n) then with_children (l (re_children e)) e else e.
Proof. intros Hne. rewrite relink_lookup by done. intros (e & He & ->)%fmap_Some. by exists e. Qed.

(** A link is as described: [l] has the children of [n] except [c], and [c] if it has
    become a child. *)
Lemma links_relink c n o l T ec en : links T -> c <> n -> T !! c = Some ec -> T !! n = Some en ->
  (re_parent ec = None /\ o = Some n) \/ (re_parent ec = Some n /\ o = None) ->
  NoDup (l (re_children en)) -> (forall x, x ∈ l (re_children en) <-> (x <> c /\ x ∈ re_children en) \/ (x = c /\ o = Some n)) ->
  links (relink c n o l T).
Proof.
  intros [L1 L2 L3] Hne Hc Hn Ho Hnd Hl.
  assert (Hpar : forall x m, (exists ex, relink c n o l T !! x = Some ex /\ re_parent ex = Some m) <->
    (x <> c /\ exists ex, T !! x = Some ex /\ re_parent ex = Some m) \/ (x = c /\ o = Some m)).
  { intros x m. rewrite relink_lookup by done. split.
    - intros (ex & (e & He & ->)%fmap_Some & Hp). destruct (decide (x = c)) as [->|Hx]; [by right|]. left. split; [done|]. exists e. split; [done|]. by destruct (decide (x = n)).
    - intros [(Hx & ex & He & Hp)|[-> ->]].
      + eexists. rewrite He. split; [done|]. rewrite decide_False by done. by destruct (decide (x = n)).
      + eexists. rewrite Hc. split; [done|]. by rewrite decide_True. }
  split.
  - intros m e' (e & He & ->)%relink_Some; [|done]. destruct (decide (m = c)); [exact (L1 m e He)|]. destruct (decide (m = n)) as [->|]; [|exact (L1 m e He)].
    rewrite Hn in He. injection He as <-. exact Hnd.
  - intros m e' x (e & He & ->)%relink_Some; [|done]. rewrite Hpar. assert (Hx : x ∈ re_children e <-> exists ex, T !! x = Some ex /\ re_parent ex = Some m) by (by apply L2).
    assert (Hxc : x = c -> x ∈ re_children e <-> re_parent ec = Some m).
    { intros ->. rewrite Hx. split; [intros (ex & Hex & ?); congruence|intros; by exists ec]. }
    destruct (decide (m = n)) as [->|Hmn].
    + rewrite decide_False by done. rewrite Hn in He. injection He as <-. cbn. rewrite Hl, Hx. done.
    + assert (E : (x ∈ re_children (if decide (m = c) then setParent o e else e)) <-> x ∈ re_children e) by (by case_decide). rewrite E.
      destruct (decide (x = c)) as [->|Hxc']; [|rewrite Hx; split; [intros ?; by left|by intros [[_ ?]|[? _]]]].
      rewrite (Hxc eq_refl). destruct Ho as [[-> ->]|[-> ->]]; (split; [intros [=]; congruence|intros [[? _]|[_ [=]]]; congruence]).
  - intros m e' p (e & He & ->)%relink_Some Hp; [|done]. rewrite relink_lookup, fmap_is_Some by done. destruct (decide (m = c)) as [->|Hm].
    + cbn in Hp. destruct Ho as [[_ ->]|[_ ->]]; [injection Hp as <-; by eexists|done].
    + apply (L3 m e); [done|]. by destruct (decide (m = n)).
Qed.

(** [addChild], [removeChild] *)
Lemma addChild_ok n c s ec en : links (rib_table s) -> c <> n -> rib_table s !! c = Some ec -> rib_table s !! n = Some en -> re_parent ec = None ->
  exists s', addChild n c s = Ok s' /\ links (rib_table s') /\ relinked (fun m o => if decide (m = c) then Some n else o) s s'.
Proof.
  intros L Hne Hc Hn Hp. unfold addChild. rewrite (deref_ok c s ec Hc). cbn [mbind result_bind]. rewrite Hp. cbn [is_some negb].
  destruct (relink_ok c n (Some n) (fun l => l ++ [c]) s ec en Hne Hc Hn) as [E Hr]. rewrite E. eexists. split; [done|]. split; [|done].
  assert (Hout : c ∉ re_children en) by (intros (ec' & Hc' & Hp')%(lk_child _ L n en c Hn); congruence).
  apply (links_relink c n _ _ _ ec en L Hne Hc Hn); [by left|apply NoDup_app; split; [by apply (lk_children _ L n)|]; split; [by intros x Hx ->%list_elem_of_singleton|apply NoDup_singleton]|].
  intros x. rewrite elem_of_app, list_elem_of_singleton. split; [intros [Hx| ->]; [left; split; [by intros ->|done]|by right]|intros [[_ Hx]|[-> _]]; auto].
Qed.
Lemma removeChild_ok n c s ec : links (rib_table s) -> c <> n -> rib_table s !! c = Some ec -> re_parent ec = Some n ->
  exists s', removeChild n c s = Ok s' /\ links (rib_table s') /\ relinked (fun m o => if decide (m = c) then None else o) s s'.
Proof.
  intros L Hne Hc Hp. destruct (lk_parent _ L c ec n Hc Hp) as [en Hn]. unfold removeChild. rewrite (deref_ok c s ec Hc). cbn [mbind result_bind]. rewrite bool_decide_true by done.
  destruct (relink_ok c n None (fun l => filter (fun n => n <> c) l) s ec en Hne Hc Hn) as [E Hr]. rewrite E. eexists. split; [done|]. split; [|done].
  apply (links_relink c n _ _ _ ec en L Hne Hc Hn); [by right|apply NoDup_filter; by apply (lk_children _ L n)|].
  intros x. rewrite list_elem_of_filter. split; [by left|intros [?|[_ ?]]; done].
Qed.

(** ** Many children at once *)
Lemma parent_lookup s n e : rib_table s !! n = Some e -> parent_at (rib_table s) n = Some (re_parent e).
Proof. intros He. unfold parent_at. by rewrite He. Qed.

(** [adopt]: of the given entries, those with the given parent become children of [n]. *)
Lemma adopt_ok n parent ls : forall s, links (rib_table s) -> is_Some (rib_table s !! n) -> NoDup ls -> (forall c, c ∈ ls -> is_Some (rib_table s !! c) /\ c <> n /\ parent <> Some c) ->
  parent <> Some n ->
  exists s', adopt n parent ls s = Ok s' /\ links (rib_table s') /\ relinked (fun c o => if decide (c ∈ ls /\ o = parent) then Some n else o) s s'.
Proof.
  induction ls as [|c ls IH]; intros s L Hn Hnd Hls Hpn; cbn [adopt].
  { exists s. split; [done|]. split; [done|]. eapply relinked_ext; [apply relinked_same|]. intros m e He. rewrite decide_False; [done|]. by intros [?%not_elem_of_nil _]. }
  apply NoDup_cons in Hnd as [Hc Hnd]. destruct (Hls c) as ([ec Hec] & Hcn & Hcp); [left|]. rewrite (deref_ok c s ec Hec). cbn [mbind result_bind].
  assert (Hstep : exists s1, (if bool_decide (re_parent ec = parent) then let* s := match parent with Some p => removeChild p c s | None => Ok s end in addChild n c s else Ok s) = Ok s1 /\
    links (rib_table s1) /\ relinked (fun m o => if decide (m = c /\ o = parent) then Some n else o) s s1).
  { case_bool_decide as Hp.
    - destruct Hn as [en Hen]. destruct parent as [p|].
      + destruct (removeChild_ok p c s ec L) as (s0 & E0 & L0 & R0); [congruence|done|done|]. rewrite E0. cbn [mbind result_bind].
        destruct (relinked_lookup _ _ _ c ec R0 Hec) as (ec0 & Hec0 & _ & Hp0). rewrite decide_True in Hp0 by done. destruct (relinked_lookup _ _ _ n en R0 Hen) as (en0 & Hen0 & _ & _).
        destruct (addChild_ok n c s0 ec0 en0 L0 Hcn Hec0 Hen0 Hp0) as (s1 & E1 & L1 & R1). exists s1. split; [done|]. split; [done|].
        eapply relinked_ext; [exact (relinked_twice _ _ _ _ _ R0 R1)|]. intros m e He. cbn beta. destruct (decide (m = c)) as [->|Hm]; [rewrite decide_True; [done|split; [done|congruence]]|rewrite decide_False; [done|by intros [? _]]].
      + cbn [mbind result_bind]. destruct (addChild_ok n c s ec en L Hcn Hec Hen Hp) as (s1 & E1 & L1 & R1). exists s1. split; [done|]. split; [done|].
        eapply relinked_ext; [exact R1|]. intros m e He. cbn beta. destruct (decide (m = c)) as [->|Hm]; [rewrite decide_True; [done|split; [done|congruence]]|rewrite decide_False; [done|by intros [? _]]].
    - exists s. split; [done|]. split; [done|]. eapply relinked_ext; [apply relinked_same|]. intros m e He. rewrite decide_False; [done|]. intros [-> E]. congruence. }
  destruct Hstep as (s1 & E1 & L1 & R1). rewrite E1. cbn [mbind result_bind].
  destruct (IH s1 L1) as (s' & E' & L' & R'); [by apply (relinked_dom _ _ _ n R1)|done|intros x Hx; destruct (Hls x) as (Hxs & ? & ?); [by right|]; split; [by apply (relinked_dom _ _ _ x R1)|done]|done|].
  exists s'. split; [done|]. split; [done|]. eapply relinked_ext; [exact (relinked_twice _ _ _ _ _ R1 R')|]. intros m e He. cbn beta.
  destruct (decide (m = c)) as [->|Hm].
  - rewrite decide_False by (by intros [? _]). destruct (decide (re_parent e = parent)) as [Ep|Ep]; [rewrite !decide_True; [done|split; [left|done]|done]|]. by rewrite !decide_False by (by intros [_ ?]).
  - rewrite (decide_False (P := m = c /\ _)) by (by intros [? _]). destruct (decide (m ∈ ls /\ re_parent e = parent)) as [[Hin Ep]|Hno]; [rewrite decide_True; [done|split; [by right|done]]|].
    rewrite decide_False; [done|]. intros [[->|Hin]%elem_of_cons Ep]; [done|]. by apply Hno.
Qed.

(** [hand_over]: all children of [n] become children of its parent, or roots. *)
Lemma hand_over_ok n parent ls : forall s, links (rib_table s) -> NoDup ls -> (forall c, c ∈ ls -> c <> n /\ parent <> Some c /\ parent_at (rib_table s) c = Some (Some n)) ->
  (forall p, parent = Some p -> is_Some (rib_table s !! p)) ->
  exists s', hand_over n parent ls s = Ok s' /\ links (rib_table s') /\ relinked (fun c o => if decide (c ∈ ls) then parent else o) s s'.
Proof.
  induction ls as [|c ls IH]; intros s L Hnd Hls Hpar; cbn [hand_over].
  { exists s. split; [done|]. split; [done|]. eapply relinked_ext; [apply relinked_same|]. intros m e He. rewrite decide_False; [done|]. apply not_elem_of_nil. }
  apply NoDup_cons in Hnd as [Hc Hnd]. destruct (Hls c) as (Hcn & Hcp & Hpc); [left|]. unfold parent_at in Hpc. apply fmap_Some in Hpc as (ec & Hec & Ep).
  destruct (removeChild_ok n c s ec L Hcn Hec) as (s0 & E0 & L0 & R0); [done|]. rewrite E0. cbn [mbind result_bind].
  assert (Hstep : exists s1, match parent with Some p => addChild p c s0 | None => Ok s0 end = Ok s1 /\ links (rib_table s1) /\ relinked (fun m o => if decide (m = c) then parent else o) s s1).
  { destruct (relinked_lookup _ _ _ c ec R0 Hec) as (ec0 & Hec0 & _ & Hp0). rewrite decide_True in Hp0 by done. destruct parent as [p|]; [|by exists s0].
    destruct (Hpar p eq_refl) as [ep Hep]. destruct (relinked_lookup _ _ _ p ep R0 Hep) as (ep0 & Hep0 & _ & _). destruct (addChild_ok p c s0 ec0 ep0 L0) as (s1 & E1 & L1 & R1); [congruence|done..|].
    exists s1. split; [done|]. split; [done|]. eapply relinked_ext; [exact (relinked_twice _ _ _ _ _ R0 R1)|]. intros m e He. cbn beta. by destruct (decide (m = c)). }
  destruct Hstep as (s1 & E1 & L1 & R1). rewrite E1. cbn [mbind result_bind]. destruct (IH s1 L1 Hnd) as (s' & E' & L' & R').
  - intros x Hx. destruct (Hls x) as (H1 & H2 & H3); [by right|]. split; [done|]. split; [done|]. destruct R1 as (_ & _ & Hp1). rewrite Hp1, H3. cbn. rewrite decide_False; [done|]. by intros ->.
  - intros p ->. apply (relinked_dom _ _ _ p R1). by apply Hpar.
  - exists s'. split; [done|]. split; [done|]. eapply relinked_ext; [exact (relinked_twice _ _ _ _ _ R1 R')|]. intros m e He. cbn beta.
    destruct (decide (m = c)) as [->|Hm]; [rewrite decide_False by done; rewrite decide_True; [done|left]|]. destruct (decide (m ∈ ls)) as [Hin|Hin]; [rewrite decide_True; [done|by right]|].
    rewrite decide_False; [done|]. by intros [->|?]%elem_of_cons.
Qed.

(** ** Descendants *)

(** What lies between a name and one of its extensions is an extension, too. *)
Lemma prefix_between p x y : name_le p x -> name_le x y -> p `prefix_of` y -> p `prefix_of` x.
Proof.
  unfold name_le. revert x y. induction p as [|c p IH]; intros x y Hpx Hxy Hp; [apply prefix_nil|].
  destruct y as [|d y]; [by apply prefix_nil_not in Hp|]. apply prefix_cons_inv_1 in Hp as Hcd. subst d. apply prefix_cons_inv_2 in Hp.
  destruct x as [|a x]; [pose proof (name_compare_cons_nil c p); lia|]. rewrite name_compare_cons in Hpx, Hxy.
  destruct (Z.eqb_spec (compare_fields c a) 0) as [E|E].
  - apply compare_fields_eq in E as ->. rewrite (proj2 (Z.eqb_eq _ 0)) in Hxy by (by apply compare_fields_eq). apply prefix_cons. by apply (IH x y).
  - destruct (Z.eqb_spec (compare_fields a c) 0) as [E'|E']; [apply compare_fields_eq in E' as ->; destruct E; by apply compare_fields_eq|].
    pose proof (compare_fields_antisym c a). lia.
Qed.

#[export] Instance name_le_total : Total name_le.
Proof. intros a b. unfold name_le. pose proof (name_compare_antisym a b). lia. Qed.
#[export] Instance name_le_trans : Transitive name_le.
Proof.
  intros a b d. unfold name_le. intros H1 H2. destruct (decide (name_compare a b = 0)) as [->%name_compare_eq|N1]; [done|]. destruct (decide (name_compare b d = 0)) as [<-%name_compare_eq|N2]; [done|].
  pose proof (name_ltb_trans a b d) as Ht. unfold name_ltb in Ht. rewrite !Z.ltb_lt in Ht. lia.
Qed.

Lemma rib_names_spec s : (forall n, n ∈ rib_names s <-> is_Some (rib_table s !! n)) /\ NoDup (rib_names s) /\ StronglySorted name_le (rib_names s).
Proof.
  unfold rib_names. split; [|split].
  - intros n. rewrite merge_sort_Permutation, list_elem_of_fmap. split.
    + intros ([m e] & -> & He%elem_of_map_to_list). by exists e.
    + intros [e He]. exists (n, e). split; [done|]. by apply elem_of_map_to_list.
  - rewrite merge_sort_Permutation. apply NoDup_fst_map_to_list.
  - refine (@StronglySorted_merge_sort _ name_le _ _ _ _).
Qed.

Lemma after_spec p l : StronglySorted name_le l -> NoDup l -> p ∈ l ->
  StronglySorted name_le (after p l) /\ NoDup (after p l) /\ forall x, x ∈ after p l <-> x ∈ l /\ x <> p /\ name_le p x.
Proof.
  induction l as [|y l IH]; intros Hs Hnd Hp; [by apply not_elem_of_nil in Hp|]. apply StronglySorted_inv in Hs as [Hs Hy]. apply NoDup_cons in Hnd as [Hyl Hnd]. cbn [after].
  case_bool_decide as E.
  - subst y. split; [done|]. split; [done|]. intros x. rewrite elem_of_cons. split.
    + intros Hx. split; [by right|]. split; [by intros ->|]. rewrite Forall_forall in Hy. by apply Hy.
    + intros ([->|Hx] & Hne & _); done.
  - apply elem_of_cons in Hp as [->|Hp]; [done|]. destruct (IH Hs Hnd Hp) as (H1 & H2 & H3). split; [done|]. split; [done|]. intros x. rewrite H3, elem_of_cons. split.
    + intros (Hx & Hr). split; [by right|done].
    + intros ([->|Hx] & Hne & Hle); [|done]. rewrite Forall_forall in Hy. specialize (Hy p Hp). destruct Hne. apply name_compare_eq. unfold name_le in *. pose proof (name_compare_antisym p y). lia.
Qed.
Lemma take_while_spec p l : StronglySorted name_le l -> (forall x, x ∈ l -> name_le p x) -> forall x, x ∈ take_while (isPrefixOf p) l <-> x ∈ l /\ p `prefix_of` x.
Proof.
  induction l as [|y l IH]; intros Hs Hp x; cbn [take_while]; [rewrite elem_of_nil; tauto|]. apply StronglySorted_inv in Hs as [Hs Hy]. rewrite Forall_forall in Hy.
  destruct (isPrefixOf p y) eqn:Ey.
  - apply isPrefixOf_spec in Ey. rewrite !elem_of_cons, IH; [|done|intros z Hz; apply Hp; by right]. split; [intros [->|[? ?]]; auto|intros [[->|?] ?]; auto].
  - rewrite elem_of_nil, elem_of_cons. split; [done|]. intros [[->|Hx] Hpx]; [apply isPrefixOf_spec in Hpx; congruence|].
    assert (Hpy : p `prefix_of` y) by (apply (prefix_between p y x); [apply Hp; left|by apply Hy|done]). apply isPrefixOf_spec in Hpy. congruence.
Qed.
Lemma NoDup_take_while {A} (p : A -> bool) l : NoDup l -> NoDup (take_while p l).
Proof.
  intros Hl. eapply sublist_NoDup; [exact Hl|]. clear Hl. induction l as [|x l IH]; [done|]. cbn. destruct (p x); [by apply sublist_skip|apply sublist_nil_l].
Qed.

Lemma findDescendants_spec p s : is_Some (rib_table s !! p) -> NoDup (findDescendants p s) /\ forall x, x ∈ findDescendants p s <-> is_Some (rib_table s !! x) /\ strict p x.
Proof.
  intros [e He]. unfold findDescendants, rib_find. rewrite He. destruct (rib_names_spec s) as (Hin & Hnd & Hs).
  destruct (after_spec p (rib_names s) Hs Hnd) as (H1 & H2 & H3); [by apply Hin; eexists|]. split; [by apply NoDup_take_while|]. intros x.
  rewrite take_while_spec; [|done|intros z Hz; by apply H3 in Hz as (_ & _ & ?)]. rewrite H3, Hin. unfold strict. split; [intros [(Hx & Hne & _) Hp]; by split; [|split; [|apply not_eq_sym]]|].
  intros (Hx & Hp & Hne). split; [|done]. split; [done|]. split; [by apply not_eq_sym|]. by apply name_compare_prefix.
Qed.

(** ** The invariant *)
Definition route_key (r : Route) : Z * Z := (r_faceId r, r_origin r).
Definition n_routes T : nat := sum_list ((fun x => length (re_routes x.2)) <$> map_to_list T).

(** The entries know their names, the links belong to each other, and the parent of an
    entry is the nearest prefix. *)
Record tree_inv T : Prop := {
  tr_name : named T;
  tr_links : links T;
  tr_nearest n e : T !! n = Some e -> is_nearest T n (re_parent e);
}.
(** No entry is empty or has two routes of one face and origin; the face table lists the
    entries that use a face; the routes are counted. *)
Record rib_inv s : Prop := {
  ri_tree : tree_inv (rib_table s);
  ri_routes n e : rib_table s !! n = Some e -> re_routes e <> [] /\ NoDup (route_key <$> re_routes e);
  ri_faces f n : n ∈ default [] (rib_faceMap s !! f) <-> exists e, rib_table s !! n = Some e /\ hasFaceId f e = true;
  ri_items : rib_nItems s = u64 (Z.of_nat (n_routes (rib_table s)));
}.

(** The routes that are registered for a name. *)
Definition routes_of s n : list Route := match rib_table s !! n with Some e => re_routes e | None => [] end.

Lemma n_routes_insert T n e : T !! n = None -> n_routes (<[n := e]> T) = (length (re_routes e) + n_routes T)%nat.
Proof. intros Hn. unfold n_routes. rewrite map_to_list_insert by done. done. Qed.
Lemma n_routes_lookup T n e : T !! n = Some e -> n_routes T = (length (re_routes e) + n_routes (delete n T))%nat.
Proof. intros He. rewrite <-(insert_delete_id T n e He) at 1. rewrite n_routes_insert; [done|apply lookup_delete_eq]. Qed.
Lemma n_routes_update T n e e' : T !! n = Some e -> (n_routes (<[n := e']> T) + length (re_routes e) = n_routes T + length (re_routes e'))%nat.
Proof.
  intros He. rewrite (n_routes_lookup T n e He), <-(insert_delete_eq T n e'), n_routes_insert by apply lookup_delete_eq. lia.
Qed.
Lemma n_routes_content T T' : content <$> T' = content <$> T -> n_routes T' = n_routes T.
Proof.
  intros E. assert (Hc : forall T, n_routes T = n_routes (content <$> T)).
  { intros U. unfold n_routes. by rewrite map_to_list_fmap, <-list_fmap_compose. }
  by rewrite (Hc T), (Hc T'), E.
Qed.

Lemma content_fields e e' : content e' = content e -> re_name e' = re_name e /\ re_routes e' = re_routes e.
Proof. destruct e, e'. by intros [=]. Qed.
Lemma relinked_back f s s' n e' : relinked f s s' -> rib_table s' !! n = Some e' ->
  exists e, rib_table s !! n = Some e /\ content e' = content e /\ re_parent e' = f n (re_parent e).
Proof.
  intros R He'. destruct (proj1 (relinked_dom _ _ _ n R)) as [e He]; [by eexists|]. destruct (relinked_lookup _ _ _ n e R He) as (e2 & He2 & Hr2). exists e. split; [done|]. congruence.
Qed.
(** Only links changed, and every parent is the nearest prefix. *)
Lemma relinked_tree f s s' : relinked f s s' -> named (rib_table s) -> links (rib_table s') ->
  (forall n e, rib_table s !! n = Some e -> is_nearest (rib_table s) n (f n (re_parent e))) -> tree_inv (rib_table s').
Proof.
  intros R Hn L Hnear. split; [|done|].
  - intros n e' (e & He & [-> _]%content_fields & _)%(relinked_back _ _ _ _ _ R). by apply Hn.
  - intros n e' (e & He & _ & ->)%(relinked_back _ _ _ _ _ R). eapply is_nearest_ext; [|by apply Hnear]. intros q. symmetry. apply (relinked_dom _ _ _ q R).
Qed.
Lemma relinked_routes f s s' n : relinked f s s' -> routes_of s' n = routes_of s n.
Proof.
  intros R. unfold routes_of. destruct (rib_table s !! n) as [e|] eqn:He.
  - destruct (relinked_lookup _ _ _ n e R He) as (e' & -> & [_ E]%content_fields & _). done.
  - destruct (rib_table s' !! n) as [e'|] eqn:He'; [|done]. destruct (relinked_back _ _ _ _ _ R He') as (e & He2 & _). congruence.
Qed.

(** An entry changes, but for its name and links. *)
Lemma tree_update T n e e' : tree_inv T -> T !! n = Some e -> re_name e' = re_name e -> re_parent e' = re_parent e -> re_children e' = re_children e -> tree_inv (<[n := e']> T).
Proof.
  intros [I1 [L1 L2 L3] I3] He En Ep Ec. assert (Hl : forall m x, <[n := e']> T !! m = Some x -> exists y, T !! m = Some y /\ re_name x = re_name y /\ re_parent x = re_parent y /\ re_children x = re_children y).
  { intros m x [[<- <-]|[Hne Hm]]%lookup_insert_Some; [by exists e|by exists x]. }
  assert (Hf : forall m y, T !! m = Some y -> exists x, <[n := e']> T !! m = Some x /\ re_parent x = re_parent y).
  { intros m y Hm. destruct (decide (m = n)) as [->|Hne]; [rewrite lookup_insert_eq; exists e'; split; [done|congruence]|rewrite lookup_insert_ne by done; by exists y]. }
  assert (Hd : forall m, is_Some (T !! m) <-> is_Some (<[n := e']> T !! m)).
  { intros m. split; [intros [y (x & ? & _)%Hf]; by exists x|intros [x (y & ? & _)%Hl]; by exists y]. }
  split.
  - intros m x (y & Hm & -> & _)%Hl. by apply I1.
  - split.
    + intros m x (y & Hm & _ & _ & ->)%Hl. by apply (L1 m).
    + intros m x c (y & Hm & _ & _ & ->)%Hl. rewrite (L2 m y c Hm). split.
      * intros (ec & Hec & Hp). destruct (Hf c ec Hec) as (ec' & Hec' & Epc). exists ec'. by rewrite Epc.
      * intros (ec' & (ec & Hec & _ & Epc & _)%Hl & Hp). exists ec. by rewrite <-Epc.
    + intros m x p (y & Hm & _ & -> & _)%Hl Hp. apply Hd. by apply (L3 m y).
  - intros m x (y & Hm & _ & -> & _)%Hl. eapply is_nearest_ext; [exact Hd|by apply I3].
Qed.

(** ** Insertion *)
Definition same_route (route r : Route) : bool := compareFaceIdAndOrigin r route.
Lemma same_route_spec route r : same_route route r = true <-> route_key r = route_key route.
Proof. unfold same_route, compareFaceIdAndOrigin, route_key. rewrite andb_true_iff, !Z.eqb_eq. split; [by intros [-> ->]|by intros [= -> ->]]. Qed.
(** The list of routes after one of them was registered. *)
Definition put_route (route : Route) (l : list Route) : list Route :=
  match find_first (same_route route) l with Some _ => update_first (same_route route) (fun _ => route) l | None => l ++ [route] end.

Lemma put_keys route l : NoDup (route_key <$> l) -> NoDup (route_key <$> put_route route l) /\ put_route route l <> [] /\
  forall f, existsb (compareFaceId f) (put_route route l) = existsb (compareFaceId f) l || (r_faceId route =? f).
Proof.
  intros Hl. unfold put_route. destruct (find_first _ l) as [r|] eqn:E.
  - assert (Hk : route_key <$> update_first (same_route route) (fun _ => route) l = route_key <$> l).
    { clear Hl E. induction l as [|x l IH]; [done|]. cbn [update_first]. destruct (same_route route x) eqn:Ex; csimpl; [apply same_route_spec in Ex; congruence|by rewrite IH]. }
    assert (Hx : forall f k, existsb (compareFaceId f) k = existsb (fun x => x.1 =? f) (route_key <$> k)) by (intros f k; induction k as [|x k IH]; [done|]; csimpl; by rewrite IH).
    apply find_first_Some in E as [Hin Er%same_route_spec]. split; [by rewrite Hk|]. split.
    + intros E0. rewrite E0 in Hk. destruct l; [by apply not_elem_of_nil in Hin|done].
    + intros f. rewrite !Hx, Hk, <-Hx. destruct (r_faceId route =? f) eqn:Ef; [|by rewrite orb_false_r]. rewrite orb_true_r. apply existsb_exists. exists r. split; [by apply list_elem_of_In|].
      unfold compareFaceId. by injection Er as -> _.
  - split; [|split; [by destruct l|]].
    + rewrite fmap_app. apply NoDup_app. split; [done|]. split; [|apply NoDup_singleton]. intros k (r & -> & Hr)%list_elem_of_fmap Hk%list_elem_of_singleton.
      assert (Hf : same_route route r = false) by (by apply (proj1 (find_first_None _ _) E)). apply not_true_iff_false in Hf. by apply Hf, same_route_spec.
    + intros f. rewrite existsb_app. cbn. by rewrite orb_false_r.
Qed.

Lemma elem_of_register f g n m (M : gmap Z (list Name)) : n ∈ default [] (register_face f m M !! g) <-> n ∈ default [] (M !! g) \/ (n = m /\ g = f).
Proof.
  unfold register_face. destruct (decide (g = f)) as [->|Hne].
  - rewrite lookup_partial_alter, decide_True by done. cbn. rewrite elem_of_app, list_elem_of_singleton. tauto.
  - rewrite lookup_partial_alter, decide_False by done. split; [by left|intros [?|[_ ?]]; done].
Qed.

(** The routes of an entry that is there change. *)
Lemma set_routes_inv s n e rs k M N tm g : rib_inv s -> rib_table s !! n = Some e -> rs <> [] -> NoDup (route_key <$> rs) ->
  (forall f m, m ∈ default [] (M !! f) <-> if decide (m = n) then existsb (compareFaceId f) rs = true else m ∈ default [] (rib_faceMap s !! f)) ->
  N = u64 (Z.of_nat (n_routes (rib_table s)) + zlen rs - zlen (re_routes e)) ->
  let s' := mkRib (<[n := with_routes rs k e]> (rib_table s)) M N tm g in
  rib_inv s' /\ forall m, routes_of s' m = if decide (m = n) then rs else routes_of s m.
Proof.
  intros [I1 I4 I5 I6] He Hrs Hk HM HN s'. split.
  - split; cbn.
    + by apply (tree_update _ n e).
    + intros m e' [[<- <-]|[Hne Hm]]%lookup_insert_Some; [done|by apply (I4 m)].
    + intros f m. rewrite HM. destruct (decide (m = n)) as [->|Hne].
      * rewrite lookup_insert_eq. split; [intros ?; by eexists|intros (e' & [= <-] & ?); done].
      * rewrite lookup_insert_ne by done. apply I5.
    + rewrite HN. f_equal. pose proof (n_routes_update (rib_table s) n e (with_routes rs k e) He) as E. cbn in E. unfold zlen. lia.
  - intros m. unfold routes_of. cbn. destruct (decide (m = n)) as [->|Hne]; [by rewrite lookup_insert_eq|by rewrite lookup_insert_ne].
Qed.

Lemma u64_succ a : incr (u64 a) = u64 (a + 1).
Proof. unfold incr, u64. rewrite Zplus_mod_idemp_l. done. Qed.
Lemma u64_pred a : decr (u64 a) = u64 (a - 1).
Proof. unfold decr, u64. rewrite Zminus_mod_idemp_l. done. Qed.

(** A new entry takes its place: [T] with the entry, without links. *)
Lemma tree_new_links T n e : tree_inv T -> T !! n = None -> re_name e = n -> re_parent e = None -> re_children e = [] ->
  named (<[n := e]> T) /\ links (<[n := e]> T).
Proof.
  intros [I1 [L1 L2 L3] _] Hn En Ep Ec. split; [by intros m x [[<- <-]|[_ Hm]]%lookup_insert_Some; [|apply I1]|]. split.
  - intros m x [[<- <-]|[_ Hm]]%lookup_insert_Some; [rewrite Ec; constructor|by apply (L1 m)].
  - intros m x c [[<- <-]|[Hne Hm]]%lookup_insert_Some.
    + rewrite Ec. split; [by intros ?%not_elem_of_nil|]. intros (ec & [[<- <-]|[_ Hc]]%lookup_insert_Some & Hp); [congruence|].
      destruct (L3 c ec n Hc Hp) as [? ?]. congruence.
    + rewrite (L2 m x c Hm). split.
      * intros (ec & Hc & Hp). exists ec. split; [|done]. rewrite lookup_insert_ne; [done|]. intros <-. congruence.
      * intros (ec & [[<- <-]|[_ Hc]]%lookup_insert_Some & Hp); [congruence|by exists ec].
  - intros m x p [[<- <-]|[_ Hm]]%lookup_insert_Some Hp; [congruence|]. apply lookup_insert_is_Some'. right. by apply (L3 m x).
Qed.

(** The new entry, its parent and its children. *)
Lemma place_ok s n e : tree_inv (rib_table s) -> rib_table s !! n = None -> re_name e = n -> re_parent e = None -> re_children e = [] ->
  let s1 := on_table <[n := e]> s in let parent := findParent n s1 in
  exists s2 s3 f, match parent with Some p => addChild p n s1 | None => Ok s1 end = Ok s2 /\ adopt n parent (findDescendants n s2) s2 = Ok s3 /\
    tree_inv (rib_table s3) /\ relinked f s1 s3.
Proof.
  intros Ht Hn En Ep Ec s1 parent. destruct (tree_new_links (rib_table s) n e Ht Hn En Ep Ec) as [Hnamed Hlinks].
  pose proof (findParent_nearest n s1 Hnamed) as Hpar. fold parent in Hpar. assert (He : rib_table s1 !! n = Some e) by apply lookup_insert_eq.
  assert (Hpn : parent <> Some n) by (intros E; rewrite E in Hpar; destruct Hpar as (_ & Hs & _); by apply strict_irrefl in Hs).
  assert (Hpar0 : is_nearest (rib_table s) n parent).
  { clearbody parent. destruct parent as [p|]; cbn in Hpar |- *.
    - destruct Hpar as (Hp & Hs & Hm). split; [apply lookup_insert_is_Some' in Hp as [<-|]; done|]. split; [done|]. intros q Hq. apply Hm. apply lookup_insert_is_Some'. by right.
    - intros q Hq. apply Hpar, lookup_insert_is_Some'. by right. }
  assert (H2 : exists s2, match parent with Some p => addChild p n s1 | None => Ok s1 end = Ok s2 /\ links (rib_table s2) /\ relinked (fun m o => if decide (m = n) then parent else o) s1 s2).
  { clearbody parent. destruct parent as [p|].
    - destruct Hpar as ([ep Hep] & _). destruct (addChild_ok p n s1 e ep Hlinks) as (s2 & E2 & L2 & R2); [congruence|done..|]. by exists s2.
    - exists s1. split; [done|]. split; [done|]. eapply relinked_ext; [apply relinked_same|]. intros m x Hx. destruct (decide (m = n)) as [->|]; [congruence|done]. }
  destruct H2 as (s2 & E2 & L2 & R2). assert (Hn2 : is_Some (rib_table s2 !! n)) by (apply (relinked_dom _ _ _ n R2); by eexists).
  destruct (findDescendants_spec n s2 Hn2) as [Hnd Hdesc].
  destruct (adopt_ok n parent (findDescendants n s2) s2 L2 Hn2 Hnd) as (s3 & E3 & L3 & R3); [|done|].
  { intros c [Hc Hs]%Hdesc. split; [done|]. split; [intros ->; by apply strict_irrefl in Hs|]. intros E. rewrite E in Hpar0. destruct Hpar0 as (_ & Hs' & _).
    apply (strict_irrefl n). by eapply strict_trans. }
  exists s2, s3, (fun m o => if decide (m ∈ findDescendants n s2 /\ (if decide (m = n) then parent else o) = parent) then Some n else if decide (m = n) then parent else o).
  split; [done|]. split; [done|]. assert (R : relinked (fun m o => if decide (m ∈ findDescendants n s2 /\ (if decide (m = n) then parent else o) = parent) then Some n else if decide (m = n) then parent else o) s1 s3)
    by exact (relinked_twice _ _ _ _ _ R2 R3). split; [|done].
  apply (relinked_tree _ _ _ R Hnamed L3). intros m x Hx. destruct (decide (m = n)) as [->|Hmn].
  - rewrite decide_False; [done|]. intros [Hd _]. apply Hdesc in Hd as [_ Hs]. by apply strict_irrefl in Hs.
  - assert (Hm : rib_table s !! m = Some x) by (cbn in Hx; by rewrite lookup_insert_ne in Hx). pose proof (tr_nearest _ Ht m x Hm) as Hnear.
    pose proof (nearest_insert (rib_table s) m n e (re_parent x) Hn Hnear) as Hins.
    assert (Hin : m ∈ findDescendants n s2 <-> strict n m) by (rewrite Hdesc; split; [by intros [_ ?]|intros ?; split; [apply (relinked_dom _ _ _ m R2); by eexists|done]]).
    destruct (decide (strict n m /\ shorter (re_parent x) n)) as [[Hs Hsh]|Hno].
    + rewrite decide_True; [done|]. split; [by apply Hin|]. by apply (nearest_below (rib_table s) m n).
    + rewrite decide_False; [done|]. intros [Hs%Hin Ep']. apply Hno. split; [done|]. by apply (nearest_below (rib_table s) m n _ parent).
Qed.

Lemma relinked_faces f s s' g n : relinked f s s' ->
  (exists e, rib_table s' !! n = Some e /\ hasFaceId g e = true) <-> exists e, rib_table s !! n = Some e /\ hasFaceId g e = true.
Proof.
  intros R. split.
  - intros (e' & (e & He & [_ E]%content_fields & _)%(relinked_back _ _ _ _ _ R) & Hh). exists e. split; [done|]. unfold hasFaceId in *. by rewrite <-E.
  - intros (e & He & Hh). destruct (relinked_lookup _ _ _ n e R He) as (e' & He' & [_ E]%content_fields & _). exists e'. split; [done|]. unfold hasFaceId in *. by rewrite E.
Qed.

(** A route is registered for a name without entry. *)
Lemma rib_insert_new n route s : rib_inv s -> rib_table s !! n = None ->
  exists s', rib_insert n route s = Ok s' /\ rib_inv s' /\ forall m, routes_of s' m = if decide (m = n) then [route] else routes_of s m.
Proof.
  intros [I1 I4 I5 I6] Hn. unfold rib_insert, rib_find. rewrite Hn. set (e := (insertRoute route (RibEntry_new n)).2).
  rewrite (modify_ok n _ (RibEntry_new n)) by apply lookup_insert_eq. cbn [mbind result_bind]. fold e.
  set (s0 := with_nItems (incr (rib_nItems s)) s). assert (Es : on_table <[n := e]> (with_nItems (incr (rib_nItems (on_table <[n := RibEntry_new n]> s))) (on_table <[n := RibEntry_new n]> s)) = on_table <[n := e]> s0)
    by (unfold on_table, s0; cbn; by rewrite insert_insert_eq). rewrite Es. clear Es.
  destruct (place_ok s0 n e I1 Hn eq_refl eq_refl eq_refl) as (s2 & s3 & f & E2 & E3 & Ht & R). rewrite E2. cbn [mbind result_bind]. rewrite E3. cbn [mbind result_bind].
  pose proof R as (Es3 & Ec & _). eexists. split; [done|]. split.
  - split; cbn; [exact Ht| | |].
    + intros m x (y & Hy & [_ ->]%content_fields & _)%(relinked_back _ _ _ _ _ R). cbn in Hy. apply lookup_insert_Some in Hy as [[<- <-]|[_ Hy]]; [split; [done|apply NoDup_singleton]|by apply (I4 m)].
    + intros g m. rewrite elem_of_register, (relinked_faces _ _ _ g m R), Es3. cbn. rewrite I5. destruct (decide (m = n)) as [->|Hne].
      * rewrite lookup_insert_eq, Hn. split.
        -- intros [(x & [=] & _)|[_ ->]]. exists e. split; [done|]. unfold hasFaceId. cbn. unfold compareFaceId. by rewrite Z.eqb_refl.
        -- intros (x & [= <-] & Hh). right. split; [done|]. unfold hasFaceId in Hh. cbn in Hh. unfold compareFaceId in Hh. rewrite orb_false_r in Hh. by apply Z.eqb_eq in Hh.
      * rewrite lookup_insert_ne by done. split; [intros [?|[? _]]; done|by left].
    + rewrite Es3. cbn. rewrite I6, u64_succ, (n_routes_content _ _ Ec). cbn. rewrite n_routes_insert by done. f_equal. cbn. lia.
  - intros m. change (routes_of (signal _ _) m) with (routes_of s3 m). rewrite (relinked_routes _ _ _ m R). unfold routes_of. cbn.
    destruct (decide (m = n)) as [->|Hne]; [by rewrite lookup_insert_eq|by rewrite lookup_insert_ne].
Qed.

Lemma findRoute_first route e : findRoute route e = find_first (same_route route) (re_routes e).
Proof. done. Qed.
Lemma rib_insert_ok n route s : rib_inv s ->
  exists s', rib_insert n route s = Ok s' /\ rib_inv s' /\ forall m, routes_of s' m = if decide (m = n) then put_route route (routes_of s n) else routes_of s m.
Proof.
  intros Hi. destruct (rib_table s !! n) as [e|] eqn:He.
  2:{ destruct (rib_insert_new n route s Hi He) as (s' & E & Hi' & Hr). exists s'. split; [done|]. split; [done|]. intros m. rewrite Hr. unfold routes_of at 2. by rewrite He. }
  unfold rib_insert, rib_find. rewrite He. unfold insertRoute. destruct (ri_routes _ Hi n e He) as [_ Hk]. destruct (put_keys route (re_routes e) Hk) as (Hk' & Hne & Hfaces).
  assert (Hrn : routes_of s n = re_routes e) by (unfold routes_of; by rewrite He). rewrite Hrn. rewrite findRoute_first. unfold put_route in *. destruct (find_first (same_route route) (re_routes e)) as [old|] eqn:Ef.
  - eexists. split; [done|]. unfold assignRoute. change (fun r => compareFaceIdAndOrigin r route) with (same_route route).
    apply (set_routes_inv s n e); [done|done|done|done| |].
    + intros f m. cbn. destruct (decide (m = n)) as [->|]; [|done]. rewrite Hfaces, (ri_faces _ Hi). apply find_first_Some in Ef as [Hin Er%same_route_spec]. split.
      * intros (x & Hx & Hh). rewrite He in Hx. injection Hx as <-. unfold hasFaceId in Hh. by rewrite Hh.
      * intros [Hh|Hf]%orb_true_iff; exists e; (split; [done|]); [done|]. apply existsb_exists. exists old. split; [by apply list_elem_of_In|]. unfold compareFaceId. by injection Er as -> _.
    + cbn. rewrite (ri_items _ Hi). f_equal. assert (zlen (update_first (same_route route) (fun _ => route) (re_routes e)) = zlen (re_routes e)) as ->; [|lia].
      clear. unfold zlen. f_equal. induction (re_routes e) as [|x l IH]; [done|]. cbn. destruct (same_route route x); [done|]. cbn. by rewrite IH.
  - eexists. split; [done|]. apply (set_routes_inv s n e); [done|done|done|done| |].
    + intros f m. rewrite elem_of_register. cbn [rib_faceMap signal with_nItems on_table]. rewrite (ri_faces _ Hi). destruct (decide (m = n)) as [->|Hmn].
      * rewrite Hfaces, orb_true_iff, Z.eqb_eq. split; [intros [(x & Hx & Hh)|[_ ->]]; [rewrite He in Hx; injection Hx as <-; by left|by right]|].
        intros [Hh| <-]; [left; by exists e|by right].
      * rewrite (ri_faces _ Hi). split; [intros [?|[? _]]; done|by left].
    + cbn. rewrite (ri_items _ Hi), u64_succ. f_equal. zlen_lia.
Qed.

(** ** Erasure *)
(** An entry that nothing refers to any more goes. *)
Lemma links_delete T n : links T -> (forall m e, T !! m = Some e -> (n ∉ re_children e) /\ re_parent e <> Some n) -> links (delete n T).
Proof.
  intros [L1 L2 L3] Hn. split.
  - intros m x [_ Hm]%lookup_delete_Some. by apply (L1 m).
  - intros m x c [Hne Hm]%lookup_delete_Some. rewrite (L2 m x c Hm). split.
    + intros (ec & Hc & Hp). exists ec. split; [|done]. apply lookup_delete_Some. split; [|done]. intros <-. destruct (Hn m x Hm) as [Hout _]. apply Hout, (L2 m x n Hm). by exists ec.
    + intros (ec & [_ Hc]%lookup_delete_Some & Hp). by exists ec.
  - intros m x p [_ Hm]%lookup_delete_Some Hp. apply lookup_delete_is_Some. split; [|by apply (L3 m x)]. intros <-. by destruct (Hn m x Hm).
Qed.
Lemma eraseEntry_ok n s e : tree_inv (rib_table s) -> rib_table s !! n = Some e ->
  exists s', eraseEntry n s = Ok s' /\ tree_inv (rib_table s') /\ content <$> rib_table s' = content <$> delete n (rib_table s) /\
    rib_faceMap s' = rib_faceMap s /\ rib_nItems s' = rib_nItems s.
Proof.
  intros Ht He. pose proof (tr_links _ Ht) as L. unfold eraseEntry. rewrite (deref_ok n s e He). cbn [mbind result_bind]. set (parent := re_parent e).
  pose proof (tr_nearest _ Ht n e He) as Hpar. fold parent in Hpar. assert (Hpn : parent <> Some n) by (intros E; rewrite E in Hpar; destruct Hpar as (_ & Hs & _); by apply strict_irrefl in Hs).
  assert (H1 : exists s1, match parent with Some p => removeChild p n s | None => Ok s end = Ok s1 /\ links (rib_table s1) /\ relinked (fun m o => if decide (m = n) then None else o) s s1).
  { destruct parent as [p|] eqn:Ep.
    - destruct (removeChild_ok p n s e L) as (s1 & E1 & L1 & R1); [congruence|done|done|]. by exists s1.
    - exists s. split; [done|]. split; [done|]. eapply relinked_ext; [apply relinked_same|]. intros m x Hx. destruct (decide (m = n)) as [->|]; [|done]. rewrite He in Hx. injection Hx as <-. exact Ep. }
  destruct H1 as (s1 & E1 & L1 & R1). rewrite E1. cbn [mbind result_bind].
  assert (Hch : forall c, c ∈ re_children e <-> exists ec, rib_table s !! c = Some ec /\ re_parent ec = Some n) by (intros c; by apply (lk_child _ L n e)).
  assert (Hcn : forall c, c ∈ re_children e -> strict n c).
  { intros c (ec & Hc & Hp)%Hch. pose proof (tr_nearest _ Ht c ec Hc) as Hx. rewrite Hp in Hx. apply Hx. }
  destruct (hand_over_ok n parent (re_children e) s1 L1) as (s2 & E2 & L2 & R2); [by apply (lk_children _ L n)| | |].
  { intros c Hc. pose proof (Hcn c Hc) as Hs. split; [intros ->; by apply strict_irrefl in Hs|]. split.
    - intros E. rewrite E in Hpar. destruct Hpar as (_ & Hs' & _). apply (strict_irrefl n). by eapply strict_trans.
    - apply Hch in Hc as (ec & Hec & Hp). destruct R1 as (_ & _ & Hp1). rewrite Hp1. unfold parent_at. rewrite Hec. cbn. rewrite decide_False; [by rewrite Hp|]. intros ->. by apply strict_irrefl in Hs. }
  { intros p Ep. apply (relinked_dom _ _ _ p R1). rewrite Ep in Hpar. apply Hpar. }
  rewrite E2. cbn [mbind result_bind]. eexists. split; [done|]. pose proof (relinked_twice _ _ _ _ _ R1 R2) as R. cbn beta in R. pose proof R as (Es & Ec & _).
  split; [|split; [cbn; rewrite !fmap_delete, Ec; done|rewrite Es; done]]. cbn [rib_table signal on_table].
  assert (Hback : forall m x, delete n (rib_table s2) !! m = Some x -> m <> n /\ exists y, rib_table s !! m = Some y /\ re_name x = re_name y /\ re_parent x = if decide (re_parent y = Some n) then parent else re_parent y).
  { intros m x [Hne Hx]%lookup_delete_Some. split; [done|]. destruct (relinked_back _ _ _ _ _ R Hx) as (y & Hy & [En _]%content_fields & Hp). exists y. split; [done|]. split; [done|].
    rewrite Hp, (decide_False (P := m = n)) by done. destruct (decide (re_parent y = Some n)) as [Eq|Nq]; [rewrite decide_True; [done|apply Hch; by exists y]|].
    rewrite decide_False; [done|]. intros (y' & Hy' & ?)%Hch. congruence. }
  split.
  - intros m x (_ & y & Hy & -> & _)%Hback. by apply Ht.
  - assert (Hnp : forall m x, rib_table s2 !! m = Some x -> re_parent x <> Some n).
    { intros m x (y & Hy & _ & Hp)%(relinked_back _ _ _ _ _ R) E. rewrite Hp in E. destruct (decide (m ∈ re_children e)) as [Hc|Hc]; [by rewrite E in Hpn|].
      destruct (decide (m = n)); [done|]. apply Hc, Hch. by exists y. }
    apply links_delete; [done|]. intros m x Hx. split; [|by apply (Hnp m)]. intros (en & Hen & Hp)%(lk_child _ L2 m x n Hx).
    destruct (relinked_back _ _ _ _ _ R Hen) as (y & Hy & _ & E). rewrite E, decide_False, decide_True in Hp; [done|done|]. intros Hc%Hcn. by apply strict_irrefl in Hc.
  - intros m x (Hne & y & Hy & _ & ->)%Hback. eapply is_nearest_ext; [|exact (nearest_delete (rib_table s) m n _ parent (tr_nearest _ Ht m y Hy) Hpar)].
    intros q. rewrite !lookup_delete_is_Some, (relinked_dom _ _ _ q R). done.
Qed.

Lemma elem_of_unregister f g n m (M : gmap Z (list Name)) : n ∈ default [] (unregister_face f m M !! g) <-> n ∈ default [] (M !! g) /\ ~ (n = m /\ g = f).
Proof.
  unfold unregister_face. rewrite lookup_partial_alter. destruct (decide (f = g)) as [->|Hne]; cbn.
  - rewrite list_elem_of_filter. split; [intros [H1 H2]; split; [done|by intros [? _]]|intros [H1 H2]; split; [|done]; intros ->; by apply H2].
  - split; [intros H1; split; [done|intros [_ ->]; done]|by intros [? _]].
Qed.
Lemma erase_keys (f : Route -> bool) l : NoDup (route_key <$> l) -> NoDup (route_key <$> erase_first f l).
Proof. intros Hl. eapply sublist_NoDup; [exact Hl|]. apply fmap_sublist, erase_first_sublist. Qed.

(** The faces of the routes that are left. *)
Lemma erase_faces route l f : NoDup (route_key <$> l) ->
  existsb (compareFaceId f) (erase_first (same_route route) l) = true -> existsb (compareFaceId f) l = true.
Proof. intros _. rewrite !existsb_exists. intros (r & Hr%list_elem_of_In & Hf). exists r. split; [|done]. apply list_elem_of_In. by apply elem_of_erase_first in Hr. Qed.
Lemma erase_other_faces route l f : r_faceId route <> f ->
  existsb (compareFaceId f) (erase_first (same_route route) l) = existsb (compareFaceId f) l.
Proof.
  intros Hf. induction l as [|x l IH]; [done|]. cbn [erase_first existsb]. destruct (same_route route x) eqn:Ex; [|cbn; by rewrite IH].
  apply same_route_spec in Ex. injection Ex as Ex _. unfold compareFaceId at 2. by rewrite Ex, (proj2 (Z.eqb_neq _ _) Hf).
Qed.

(** The last route of an entry is gone, and the entry goes. *)
Lemma last_route_inv s n e k M N tm g : rib_inv s -> rib_table s !! n = Some e ->
  (forall f m, m ∈ default [] (M !! f) <-> if decide (m = n) then False else m ∈ default [] (rib_faceMap s !! f)) ->
  N = u64 (Z.of_nat (n_routes (rib_table s)) - zlen (re_routes e)) ->
  exists s', eraseEntry n (mkRib (<[n := with_routes [] k e]> (rib_table s)) M N tm g) = Ok s' /\ rib_inv s' /\
    forall m, routes_of s' m = if decide (m = n) then [] else routes_of s m.
Proof.
  intros Hi He HM HN.
  destruct (eraseEntry_ok n (mkRib (<[n := with_routes [] k e]> (rib_table s)) M N tm g) (with_routes [] k e)) as (s' & E' & Ht & Ec & EM & EN);
    [by apply (tree_update _ n e); [apply Hi|..]|apply lookup_insert_eq|]. exists s'. split; [done|]. cbn in Ec, EM, EN. rewrite delete_insert_eq in Ec.
  assert (Hback : forall m x, rib_table s' !! m = Some x -> m <> n /\ exists y, rib_table s !! m = Some y /\ re_routes x = re_routes y).
  { intros m x Hx. assert (E : (content <$> rib_table s') !! m = (content <$> delete n (rib_table s)) !! m) by (by rewrite Ec). rewrite !lookup_fmap, Hx in E.
    symmetry in E. apply fmap_Some in E as (y & [Hne Hy]%lookup_delete_Some & [_ Ey]%content_fields). split; [done|]. by exists y. }
  assert (Hfwd : forall m y, m <> n -> rib_table s !! m = Some y -> exists x, rib_table s' !! m = Some x /\ re_routes x = re_routes y).
  { intros m y Hne Hy. assert (E : (content <$> rib_table s') !! m = (content <$> delete n (rib_table s)) !! m) by (by rewrite Ec). rewrite !lookup_fmap, lookup_delete_ne, Hy in E by done.
    apply fmap_Some in E as (x & Hx & [_ Ey]%eq_sym%content_fields). by exists x. }
  split; [split|].
  + exact Ht.
  + intros m x (_ & y & Hy & ->)%Hback. by apply (ri_routes _ Hi m).
  + intros f m. rewrite EM, HM. destruct (decide (m = n)) as [->|Hne].
    * split; [done|]. intros (x & (? & _)%Hback & _). done.
    * rewrite (ri_faces _ Hi). split; [intros (y & Hy & Hh); destruct (Hfwd m y Hne Hy) as (x & Hx & E)|intros (x & (_ & y & Hy & E)%Hback & Hh)]; [exists x|exists y]; (split; [done|]); unfold hasFaceId in *; congruence.
  + rewrite EN, HN. f_equal. rewrite (n_routes_content _ _ Ec), (n_routes_lookup (rib_table s) n e He). unfold zlen in *. lia.
  + intros m. unfold routes_of. destruct (decide (m = n)) as [->|Hne]; [destruct (rib_table s' !! n) eqn:Hx; [by apply Hback in Hx as [? _]|done]|].
    destruct (rib_table s !! m) as [y|] eqn:Hy; [by destruct (Hfwd m y Hne Hy) as (x & -> & ->)|]. destruct (rib_table s' !! m) as [x|] eqn:Hx; [|done]. apply Hback in Hx as (_ & y & Hy' & _). congruence.
Qed.

Lemma rib_erase_ok n route s : rib_inv s ->
  exists s', rib_erase n route s = Ok s' /\ rib_inv s' /\ forall m, routes_of s' m = if decide (m = n) then erase_first (same_route route) (routes_of s n) else routes_of s m.
Proof.
  intros Hi. unfold rib_erase, rib_find. destruct (rib_table s !! n) as [e|] eqn:He.
  2:{ exists s. split; [done|]. split; [done|]. intros m. destruct (decide (m = n)) as [->|]; [|done]. unfold routes_of. by rewrite He. }
  assert (Hrn : routes_of s n = re_routes e) by (unfold routes_of; by rewrite He). rewrite Hrn, findRoute_first. destruct (find_first (same_route route) (re_routes e)) as [r|] eqn:Ef.
  2:{ exists s. split; [done|]. split; [done|]. intros m. destruct (decide (m = n)) as [->|]; [|done]. by rewrite erase_first_not_found. }
  set (rs := erase_first (same_route route) (re_routes e)). set (k := if isRibCapture r then decr (re_nRoutesWithCaptureSet e) else re_nRoutesWithCaptureSet e).
  assert (Ee : eraseRoute route e = with_routes rs k e) by (unfold eraseRoute; by rewrite findRoute_first, Ef). rewrite Ee. cbn [re_routes with_routes].
  set (s1 := if negb _ then _ else _). destruct (ri_routes _ Hi n e He) as [_ Hk].
  assert (Hlen : zlen (re_routes e) = zlen rs + 1).
  { unfold zlen, rs. rewrite (erase_first_length (same_route route) (re_routes e)); [lia|]. rewrite Ef. by eexists. }
  assert (Hs1 : exists tm g M, s1 = mkRib (<[n := with_routes rs k e]> (rib_table s)) M (decr (rib_nItems s)) tm g /\
    forall f m, m ∈ default [] (M !! f) <-> if decide (m = n) then existsb (compareFaceId f) rs = true else m ∈ default [] (rib_faceMap s !! f)).
  { subst s1. unfold hasFaceId. cbn [re_routes with_routes]. destruct (existsb (compareFaceId (r_faceId route)) rs) eqn:Eh; cbn [negb]; eexists _, _, _; (split; [reflexivity|]); intros f m; cbn [rib_faceMap with_nItems on_table cancelExpiration signal on_faceMap];
      destruct (decide (m = n)) as [->|Hmn].
    - rewrite (ri_faces _ Hi). split; [|intros Hx; exists e; split; [done|by eapply erase_faces]]. intros (x & Hx & Hh). rewrite He in Hx. injection Hx as <-.
      destruct (decide (r_faceId route = f)) as [<-|Hne]; [done|]. unfold rs. by rewrite erase_other_faces.
    - done.
    - rewrite elem_of_unregister, (ri_faces _ Hi). split.
      + intros [(x & Hx & Hh) Hno]. rewrite He in Hx. injection Hx as <-. unfold rs. rewrite erase_other_faces; [done|]. intros <-. by apply Hno.
      + intros Hx. split; [exists e; split; [done|by eapply erase_faces]|]. intros [_ ->]. congruence.
    - rewrite elem_of_unregister. split; [by intros [? _]|]. intros Hx. split; [done|]. by intros [? _]. }
  destruct Hs1 as (tm & g & M & -> & HM).
  assert (HN : decr (rib_nItems s) = u64 (Z.of_nat (n_routes (rib_table s)) + zlen rs - zlen (re_routes e))) by (rewrite (ri_items _ Hi), u64_pred; f_equal; lia).
  case_bool_decide as Er.
  - subst rs. rewrite Er in *. destruct (last_route_inv s n e k M (decr (rib_nItems s)) tm g Hi He) as (s' & E' & Hi' & Hr); [| |by exists s'].
    + intros f m. rewrite HM. by destruct (decide (m = n)).
    + rewrite HN. f_equal. unfold zlen. cbn. lia.
  - eexists. split; [done|]. apply (set_routes_inv s n e); [done|done|done|by apply erase_keys|done|done].
Qed.
