(* ===== verification/FibUpdater.v ===== *)
(** * FIB updates from the RIB (NFD/rib/fib-updater.cpp, fib-update.cpp, rib-update.hpp,
    rib-update-batch.cpp, and the update queue of rib.cpp)

    What changes in the FIB when a route is registered or unregistered, given the routes
    that names inherit from their prefixes; the commands that are sent for it and the
    responses to them; the queue of updates. *)

From stdpp Require Import base gmap list strings.
From Stdlib Require Import ZArith Lia.
From S2P Require Import Prelude Ndn Data Scheduler Fib Rib.

Local Open Scope Z_scope.

Inductive fib_action : Type := ADD_NEXTHOP | REMOVE_NEXTHOP.
#[export] Instance fib_action_eq_dec : EqDecision fib_action.
Proof. solve_decision. Defined.
Record FibUpdate := mkFibUpdate {
  fu_name : Name;
  fu_faceId : Z;
  fu_cost : Z;
  fu_action : fib_action;
}.
#[export] Instance FibUpdate_eq_dec : EqDecision FibUpdate.
Proof. solve_decision. Defined.
Definition createAddUpdate (name : Name) (faceId cost : Z) : FibUpdate := mkFibUpdate name faceId cost ADD_NEXTHOP.
Definition createRemoveUpdate (name : Name) (faceId : Z) : FibUpdate := mkFibUpdate name faceId 0 REMOVE_NEXTHOP.

Inductive rib_action : Type := REGISTER | UNREGISTER | REMOVE_FACE.
Record RibUpdate := mkRibUpdate {
  ru_action : rib_action;
  ru_name : Name;
  ru_route : Route;
}.
Record RibUpdateBatch := mkRibUpdateBatch {
  b_faceId : Z;
  b_updates : list RibUpdate;
}.
Definition batch_add (update : RibUpdate) (batch : RibUpdateBatch) : result RibUpdateBatch :=
  assert! b_faceId batch =? r_faceId (ru_route update) orelse "m_faceId == update.getRoute().faceId" ;
  Ok (mkRibUpdateBatch (b_faceId batch) (b_updates batch ++ [update])).

Record FibUpdater := mkFibUpdater {
  u_batchFaceId : Z;
  u_updatesForBatchFaceId : list FibUpdate;
  u_updatesForNonBatchFaceId : list FibUpdate;
  u_inheritedRoutes : list RibUpdate;
}.
Definition FibUpdater_new : FibUpdater := mkFibUpdater 0 [] [] [].
Definition on_batch (f : list FibUpdate -> list FibUpdate) (u : FibUpdater) : FibUpdater :=
  mkFibUpdater (u_batchFaceId u) (f (u_updatesForBatchFaceId u)) (u_updatesForNonBatchFaceId u) (u_inheritedRoutes u).
Definition on_nonBatch (f : list FibUpdate -> list FibUpdate) (u : FibUpdater) : FibUpdater :=
  mkFibUpdater (u_batchFaceId u) (u_updatesForBatchFaceId u) (f (u_updatesForNonBatchFaceId u)) (u_inheritedRoutes u).
Definition inherit (x : RibUpdate) (u : FibUpdater) : FibUpdater :=
  mkFibUpdater (u_batchFaceId u) (u_updatesForBatchFaceId u) (u_updatesForNonBatchFaceId u) (u_inheritedRoutes u ++ [x]).

(** ** Computing updates *)
Definition same_target (update other : FibUpdate) : bool := bool_decide (fu_name update = fu_name other) && (fu_faceId update =? fu_faceId other).
Definition replace_update (update : FibUpdate) (updates : list FibUpdate) : list FibUpdate :=
  if existsb (same_target update) updates
  then NfdTables.update_first (same_target update) (fun old => mkFibUpdate (fu_name old) (fu_faceId old) (fu_cost update) (fu_action update)) updates
  else updates ++ [update].
Definition addFibUpdate (update : FibUpdate) (u : FibUpdater) : FibUpdater :=
  if fu_faceId update =? u_batchFaceId u then on_batch (replace_update update) u else on_nonBatch (replace_update update) u.

Definition addInherited (name : Name) (route : Route) (u : FibUpdater) : FibUpdater :=
  addFibUpdate (createAddUpdate name (r_faceId route) (r_cost route)) (inherit (mkRibUpdate REGISTER name route) u).
Definition removeInherited (name : Name) (route : Route) (u : FibUpdater) : FibUpdater :=
  addFibUpdate (createRemoveUpdate name (r_faceId route)) (inherit (mkRibUpdate UNREGISTER name route) u).

(** The two forms of [addInheritedRoutes], and [removeInheritedRoutes]. *)
Definition addInheritedRoutes (e : RibEntry) (routesToAdd : list Route) (u : FibUpdater) : FibUpdater :=
  foldl (fun u route => if negb (hasFaceId (r_faceId route) e) then addInherited (re_name e) route u else u) u routesToAdd.
Definition addInheritedRoutesTo (name : Name) (routesToAdd : list Route) (ignore : Route) (u : FibUpdater) : FibUpdater :=
  foldl (fun u route => if negb (r_faceId route =? r_faceId ignore) then addInherited name route u else u) u routesToAdd.
Definition removeInheritedRoutes (e : RibEntry) (routesToRemove : list Route) (u : FibUpdater) : FibUpdater :=
  foldl (fun u route => if hasInheritedRoute route e then removeInherited (re_name e) route u else u) u routesToRemove.

(** The two loops of [traverseSubTree]: what is left of the routes, and the updates. *)
Definition unblocked (e : RibEntry) (routes : list Route) : list Route := filter (fun r => hasChildInheritOnFaceId (r_faceId r) e = false) routes.
Definition remove_here (e : RibEntry) (routesToRemove : list Route) (u : FibUpdater) : FibUpdater :=
  removeInheritedRoutes e (unblocked e routesToRemove) u.
Definition add_here (e : RibEntry) (routesToAdd : list Route) (u : FibUpdater) : FibUpdater :=
  addInheritedRoutes e (unblocked e routesToAdd) u.
Fixpoint traverseSubTree (fuel : nat) (name : Name) (routesToAdd routesToRemove : list Route) (s : Rib) (u : FibUpdater) : result FibUpdater :=
  match fuel with
  | O => Err OutOfFuel
  | S fuel =>
    let* e := rib_deref name s in
    if hasCapture e then Ok u else
    let u := remove_here e routesToRemove u in
    let u := add_here e routesToAdd u in
    foldl (fun r child => let* u := r in traverseSubTree fuel child (unblocked e routesToAdd) (unblocked e routesToRemove) s u) (Ok u) (re_children e)
  end.
(** As many levels as there are entries. *)
Definition modifyChildrensInheritedRoutes (children : list Name) (routesToAdd routesToRemove : list Route) (s : Rib) (u : FibUpdater) : result FibUpdater :=
  foldl (fun r child => let* u := r in traverseSubTree (S (size (rib_table s))) child routesToAdd routesToRemove s u) (Ok u) children.

Definition createFibUpdatesForNewRibEntry (name : Name) (route : Route) (children : list Name) (s : Rib) (u : FibUpdater) : result FibUpdater :=
  let u := addFibUpdate (createAddUpdate name (r_faceId route) (r_cost route)) u in
  if negb (isChildInherit route) && negb (isRibCapture route) then
    let* ancestors := getAncestorRoutesOfName name s in
    Ok (addInheritedRoutesTo name ancestors route u)
  else if isChildInherit route && isRibCapture route then
    let* ancestors := getAncestorRoutesOfName name s in
    modifyChildrensInheritedRoutes children (rs_insert route []) ancestors s u
  else if isChildInherit route then
    let* ancestorRoutes := getAncestorRoutesOfName name s in
    let u := addInheritedRoutesTo name ancestorRoutes route u in
    let ancestorRoutes := rs_erase route ancestorRoutes in
    let ancestorRoutes := rs_insert route ancestorRoutes in
    modifyChildrensInheritedRoutes children ancestorRoutes [] s u
  else if isRibCapture route then
    let* ancestors := getAncestorRoutesOfName name s in
    modifyChildrensInheritedRoutes children [] ancestors s u
  else Ok u.

(** [other == nullptr || route.cost <= other->cost] *)
Definition no_better (route : Route) (other : option Route) : bool :=
  match other with None => true | Some other => r_cost route <=? r_cost other end.

Definition createFibUpdatesForNewRoute (e : RibEntry) (route : Route) (captureWasTurnedOn : bool) (s : Rib) (u : FibUpdater) : result FibUpdater :=
  let prevRoute := getRouteWithLowestCostAndChildInheritByFaceId (r_faceId route) e in
  let routesToAdd := if isChildInherit route && no_better route prevRoute then rs_insert route [] else [] in
  let* x := if captureWasTurnedOn then
              let* ancestors := getAncestorRoutes e s in Ok (ancestors, removeInheritedRoutes e ancestors u)
            else Ok ([], u) in
  let* u := modifyChildrensInheritedRoutes (re_children e) routesToAdd x.1 s x.2 in
  Ok (if no_better route (getRouteWithLowestCostByFaceId (r_faceId route) e)
      then addFibUpdate (createAddUpdate (re_name e) (r_faceId route) (r_cost route)) u else u).

Definition null_route {A} (x : option Route) (f : Route -> result A) : result A :=
  match x with Some r => f r | None => Err (UndefinedBehaviour "null route") end.

(** The changes of [createFibUpdatesForUpdatedRoute] for the cost; whether it returns. *)
Definition update_cost (e : RibEntry) (route existingRoute : Route) (s : Rib) (u : FibUpdater) : result (bool * FibUpdater) :=
  let prevRoute := getRouteWithLowestCostAndChildInheritByFaceId (r_faceId route) e in
  let* u := null_route (getRouteWithLowestCostByFaceId (r_faceId route) e) (fun lowest =>
    if r_cost route <=? r_cost lowest then Ok (addFibUpdate (createAddUpdate (re_name e) (r_faceId route) (r_cost route)) u)
    else if r_cost existingRoute <? r_cost lowest
    then null_route prevRoute (fun prev => Ok (addFibUpdate (createAddUpdate (re_name e) (r_faceId prev) (r_cost prev)) u))
    else Ok u) in
  if no_better route prevRoute && (r_flags route =? r_flags existingRoute) && isChildInherit route then
    let* u := modifyChildrensInheritedRoutes (re_children e) (rs_insert route []) [] s u in Ok (true, u)
  else Ok (false, u).
Definition update_inherit (e : RibEntry) (route existingRoute : Route) (s : Rib) (u : FibUpdater) : result FibUpdater :=
  let prevRoute := getRouteWithLowestCostAndChildInheritByFaceId (r_faceId route) e in
  if negb (isChildInherit existingRoute) && isChildInherit route then
    if no_better route prevRoute then modifyChildrensInheritedRoutes (re_children e) (rs_insert route []) [] s u else Ok u
  else if isChildInherit existingRoute && negb (isChildInherit route) then
    let* routesToAdd := match prevRoute with
      | Some prev => Ok (rs_insert prev [])
      | None => let* ancestors := getAncestorRoutes e s in Ok (match rs_find route ancestors with Some r => rs_insert r [] | None => [] end)
      end in
    modifyChildrensInheritedRoutes (re_children e) routesToAdd (rs_insert route []) s u
  else Ok u.
Definition update_capture (e : RibEntry) (route existingRoute : Route) (s : Rib) (u : FibUpdater) : result FibUpdater :=
  if negb (isRibCapture existingRoute) && isRibCapture route then
    let* ancestors := getAncestorRoutes e s in
    modifyChildrensInheritedRoutes (re_children e) [] ancestors s (removeInheritedRoutes e ancestors u)
  else if isRibCapture existingRoute && negb (isRibCapture route) then
    let* ancestors := getAncestorRoutes e s in
    modifyChildrensInheritedRoutes (re_children e) ancestors [] s (addInheritedRoutes e ancestors u)
  else Ok u.
Definition createFibUpdatesForUpdatedRoute (e : RibEntry) (route existingRoute : Route) (s : Rib) (u : FibUpdater) : result FibUpdater :=
  let costDidChange := negb (r_cost route =? r_cost existingRoute) in
  if (r_flags route =? r_flags existingRoute) && negb costDidChange then Ok u else
  let* x := if costDidChange then update_cost e route existingRoute s u else Ok (false, u) in
  if x.1 : bool then Ok x.2 else
  let* u := update_inherit e route existingRoute s x.2 in
  update_capture e route existingRoute s u.

Definition createFibUpdatesForErasedRoute (e : RibEntry) (route : Route) (captureWasTurnedOff : bool) (s : Rib) (u : FibUpdater) : result FibUpdater :=
  let u := addFibUpdate (createRemoveUpdate (re_name e) (r_faceId route)) u in
  let freed u := if captureWasTurnedOff && negb (getNRoutes e =? 0)
                 then let* ancestors := getAncestorRoutes e s in Ok (ancestors, addInheritedRoutes e ancestors u)
                 else Ok ([], u) in
  let* u :=
    if isChildInherit route && isRibCapture route then
      let* x := freed u in modifyChildrensInheritedRoutes (re_children e) x.1 (rs_insert route []) s x.2
    else if isChildInherit route then
      let* routesToAdd := if negb (hasCapture e) then getAncestorRoutes e s else Ok [] in
      modifyChildrensInheritedRoutes (re_children e) routesToAdd (rs_insert route []) s u
    else if isRibCapture route then
      let* x := freed u in modifyChildrensInheritedRoutes (re_children e) x.1 [] s x.2
    else Ok u in
  let* ancestorRoutes := getAncestorRoutes e s in
  Ok (if negb (hasCapture e) && negb (getNRoutes e =? 0)
      then match rs_find route ancestorRoutes with Some r => addInherited (re_name e) r u | None => u end
      else u).
Definition createFibUpdatesForErasedRibEntry (e : RibEntry) (u : FibUpdater) : FibUpdater :=
  foldl (fun u route => addFibUpdate (createRemoveUpdate (re_name e) (r_faceId route)) u) u (re_inheritedRoutes e).

Section updates.
Context `{StdSort}.

(** The descendants whose parent the new entry will be. *)
Fixpoint new_children (parent : option Name) (descendants : list Name) (s : Rib) : result (list Name) :=
  match descendants with
  | [] => Ok []
  | d :: descendants =>
    let* e := rib_deref d s in
    let* rest := new_children parent descendants s in
    Ok (if bool_decide (re_parent e = parent) then d :: rest else rest)
  end.
Definition with_update (route r : Route) : Route :=
  mkRoute (r_faceId r) (r_origin r) (r_cost route) (r_flags route) (r_expires route) (r_announcement r) (r_annExpires r) (r_expirationEvent r).
Definition computeUpdatesForRegistration (update : RibUpdate) (s : Rib) (u : FibUpdater) : result FibUpdater :=
  let prefix := ru_name update in
  let route := ru_route update in
  match rib_find prefix s with
  | Some entry =>
    match findRoute route entry with
    | None => createFibUpdatesForNewRoute entry route (negb (hasCapture entry) && isRibCapture route) s u
    | Some existingRoute =>
      let entryCopy := with_routes (NfdTables.update_first (fun r => compareFaceIdAndOrigin r route) (with_update route) (re_routes entry)) (re_nRoutesWithCaptureSet entry) entry in
      createFibUpdatesForUpdatedRoute entryCopy route existingRoute s u
    end
  | None =>
    let* children := new_children (findParent prefix s) (findDescendantsForNonInsertedName prefix s) s in
    createFibUpdatesForNewRibEntry prefix route children s u
  end.
Definition computeUpdatesForUnregistration (update : RibUpdate) (s : Rib) (u : FibUpdater) : result FibUpdater :=
  let route := ru_route update in
  match rib_find (ru_name update) s with
  | None => Ok u
  | Some entry =>
    match findRoute route entry with
    | None => Ok u
    | Some existing =>
      let temp := eraseRoute route entry in
      let* u := createFibUpdatesForErasedRoute temp existing (hasCapture entry && negb (hasCapture temp)) s u in
      let* u := match getRouteWithSecondLowestCostByFaceId (r_faceId route) entry with
                | Some next => createFibUpdatesForNewRoute temp next false s u
                | None => Ok u
                end in
      Ok (if getNRoutes entry =? 1 then createFibUpdatesForErasedRibEntry entry u else u)
    end
  end.
Definition computeUpdate (s : Rib) (r : result FibUpdater) (update : RibUpdate) : result FibUpdater :=
  let* u := r in
  match ru_action update with
  | REGISTER => computeUpdatesForRegistration update s u
  | UNREGISTER => computeUpdatesForUnregistration update s u
  | REMOVE_FACE => let* u := computeUpdatesForUnregistration update s u in Ok (on_batch (fun _ => []) u)
  end.
Definition computeUpdates (batch : RibUpdateBatch) (s : Rib) (u : FibUpdater) : result FibUpdater :=
  foldl (computeUpdate s) (Ok u) (b_updates batch).
End updates.
