(* ===== verification/FibUpdaterInv.v ===== *)
(** * Computing FIB updates ends well

    On a RIB that is in order, the recursions up and down the tree end, no dangling entry is
    met, and the updates are of the announced form: sorted by face, one for a name and face,
    and for the name of the update and the names below it only. *)

From stdpp Require Import base gmap list strings.
From Stdlib Require Import ZArith Lia.
From S2P Require Import Prelude Ndn Data Scheduler NfdTables Fib Rib RibInv FibUpdater.

Local Open Scope Z_scope.

(** A loop over a list that keeps an invariant. *)
Lemma foldl_ok {A S} (Inv : S -> Prop) (f : result S -> A -> result S) l : forall s,
  (forall a s, a ∈ l -> Inv s -> exists s', f (Ok s) a = Ok s' /\ Inv s') -> Inv s -> exists s', foldl f (Ok s) l = Ok s' /\ Inv s'.
Proof.
  induction l as [|a l IH]; intros s Hf Hs; cbn; [by exists s|]. destruct (Hf a s) as (s1 & -> & H1); [by left|done|].
  apply IH; [|done]. intros b t Hb. apply Hf. by right.
Qed.
Lemma foldl_keeps {A S} (Inv : S -> Prop) (f : S -> A -> S) l : forall s,
  (forall a s, a ∈ l -> Inv s -> Inv (f s a)) -> Inv s -> Inv (foldl f s l).
Proof.
  induction l as [|a l IH]; intros s Hf Hs; cbn; [done|]. apply IH; [|apply Hf; [by left|done]]. intros b t Hb. apply Hf. by right.
Qed.

(** ** The form of the updates *)
Definition target (x : FibUpdate) : Name * Z := (fu_name x, fu_faceId x).
Lemma same_target_spec x y : same_target x y = true <-> target x = target y.
Proof. unfold same_target, target. rewrite andb_true_iff, bool_decide_eq_true, Z.eqb_eq. split; [by intros [-> ->]|by intros [= -> ->]]. Qed.

(** [b] is the face of the batch, [Q] holds of the names of updates, [P] of the names whose
    inherited routes change. *)
Record uwf (b : Z) (Q P : Name -> Prop) (u : FibUpdater) : Prop := {
  uw_face : u_batchFaceId u = b;
  uw_batch : Forall (fun x => fu_faceId x = b /\ Q (fu_name x)) (u_updatesForBatchFaceId u);
  uw_other : Forall (fun x => fu_faceId x <> b /\ Q (fu_name x)) (u_updatesForNonBatchFaceId u);
  uw_batch_once : NoDup (target <$> u_updatesForBatchFaceId u);
  uw_other_once : NoDup (target <$> u_updatesForNonBatchFaceId u);
  uw_inherited : Forall (fun x => P (ru_name x)) (u_inheritedRoutes u);
}.

Lemma replace_update_wf (R : Name * Z -> Prop) x l : R (target x) -> Forall (fun y => R (target y)) l -> NoDup (target <$> l) ->
  Forall (fun y => R (target y)) (replace_update x l) /\ NoDup (target <$> replace_update x l).
Proof.
  intros Hx Hl Hnd. unfold replace_update. destruct (existsb (same_target x) l) eqn:E.
  - assert (Et : target <$> update_first (same_target x) (fun old => mkFibUpdate (fu_name old) (fu_faceId old) (fu_cost x) (fu_action x)) l = target <$> l).
    { clear. induction l as [|y l IH]; [done|]. cbn. destruct (same_target x y); cbn; [done|by f_equal]. }
    rewrite Et. split; [|done]. change (Forall (R ∘ target) l) in Hl. match goal with |- Forall _ ?k => change (Forall (R ∘ target) k) end. rewrite <-Forall_fmap in Hl |- *. by rewrite Et.
  - split; [apply Forall_app; by split; [|constructor]|]. rewrite fmap_app. apply NoDup_app. split; [done|]. split; [|apply NoDup_singleton].
    intros t (y & -> & Hy)%list_elem_of_fmap Ht%list_elem_of_singleton. apply not_true_iff_false in E. apply E, existsb_exists.
    exists y. split; [by apply list_elem_of_In|]. by apply same_target_spec.
Qed.

Section uwf.
Context (b : Z) (Q P : Name -> Prop).
Local Notation uwf := (uwf b Q P).

Lemma addFibUpdate_wf x u : Q (fu_name x) -> uwf u -> uwf (addFibUpdate x u).
Proof.
  intros Hx [W1 W2 W3 W4 W5 W6]. unfold addFibUpdate. rewrite W1. destruct (Z.eqb_spec (fu_faceId x) b) as [Eb|Nb].
  - destruct (replace_update_wf (fun t => t.2 = b /\ Q t.1) x _ (conj Eb Hx) W2 W4). by split.
  - destruct (replace_update_wf (fun t => t.2 <> b /\ Q t.1) x _ (conj Nb Hx) W3 W5). by split.
Qed.
Lemma inherit_wf x u : P (ru_name x) -> uwf u -> uwf (inherit x u).
Proof. intros Hx [W1 W2 W3 W4 W5 W6]. split; try done. cbn. apply Forall_app. by split; [|constructor]. Qed.
Lemma addInherited_wf n r u : Q n -> P n -> uwf u -> uwf (addInherited n r u).
Proof. intros Hq Hp W. apply addFibUpdate_wf; [done|]. by apply inherit_wf. Qed.
Lemma removeInherited_wf n r u : Q n -> P n -> uwf u -> uwf (removeInherited n r u).
Proof. intros Hq Hp W. apply addFibUpdate_wf; [done|]. by apply inherit_wf. Qed.
Lemma addInheritedRoutes_wf e l u : Q (re_name e) -> P (re_name e) -> uwf u -> uwf (addInheritedRoutes e l u).
Proof. intros Hq Hp. apply foldl_keeps. intros r t _ W. case_match; [|done]. by apply addInherited_wf. Qed.
Lemma addInheritedRoutesTo_wf n l r u : Q n -> P n -> uwf u -> uwf (addInheritedRoutesTo n l r u).
Proof. intros Hq Hp. apply foldl_keeps. intros r' t _ W. case_match; [|done]. by apply addInherited_wf. Qed.
Lemma removeInheritedRoutes_wf e l u : Q (re_name e) -> P (re_name e) -> uwf u -> uwf (removeInheritedRoutes e l u).
Proof. intros Hq Hp. apply foldl_keeps. intros r t _ W. case_match; [|done]. by apply removeInherited_wf. Qed.

(** ** Up and down the tree *)
Context (s : Rib) (Hs : tree_inv (rib_table s)).

Lemma ancestor_loop_ok fuel : forall o l, (forall p, o = Some p -> is_Some (rib_table s !! p) /\ (length p < fuel)%nat) ->
  exists l', ancestor_loop fuel o l s = Ok l'.
Proof.
  induction fuel as [|fuel IH]; intros [p|] l Ho; cbn [ancestor_loop]; [by destruct (Ho p eq_refl); lia|by eexists| |by eexists].
  destruct (Ho p eq_refl) as [[e He] Hl]. rewrite (deref_ok p s e He). cbn [mbind result_bind]. destruct (hasCapture e); [by eexists|].
  apply IH. intros q Hq. pose proof (tr_nearest _ Hs p e He) as Hn. rewrite Hq in Hn. destruct Hn as (Hq' & Hst & _). split; [done|]. pose proof (strict_length _ _ Hst). lia.
Qed.
Lemma nearest_ancestors n o : is_nearest (rib_table s) n o -> exists l, ancestor_loop (S (length n)) o [] s = Ok l.
Proof. intros Hn. apply ancestor_loop_ok. intros p ->. destruct Hn as (Hp & Hst & _). split; [done|]. pose proof (strict_length _ _ Hst). lia. Qed.
(** For an entry of the table, also with other routes. *)
Lemma getAncestorRoutes_ok n e e' : rib_table s !! n = Some e -> re_name e' = n -> re_parent e' = re_parent e -> exists l, getAncestorRoutes e' s = Ok l.
Proof. intros He En Ep. unfold getAncestorRoutes. rewrite En, Ep. apply nearest_ancestors. by apply (tr_nearest _ Hs). Qed.
Lemma getAncestorRoutesOfName_ok n : exists l, getAncestorRoutesOfName n s = Ok l.
Proof. apply nearest_ancestors, findParent_nearest. apply Hs. Qed.

(** How many names are below. *)
Definition below (n : Name) : gset Name := filter (strict n) (dom (rib_table s)).
Lemma below_child n c : is_Some (rib_table s !! c) -> strict n c -> (size (below c) < size (below n))%nat.
Proof.
  intros Hc Hst. apply subset_size. split.
  - intros m [Hm Hd]%elem_of_filter. apply elem_of_filter. split; [by eapply strict_trans|done].
  - intros Hsub. apply (strict_irrefl c). assert (Hin : c ∈ below n) by (apply elem_of_filter; split; [done|by apply elem_of_dom]).
    by apply Hsub, elem_of_filter in Hin as [? _].
Qed.
Lemma child_below n e c : rib_table s !! n = Some e -> c ∈ re_children e -> is_Some (rib_table s !! c) /\ strict n c.
Proof.
  intros He Hc. apply (lk_child _ (tr_links _ Hs) n e c He) in Hc as (ec & Hec & Hp). split; [by eexists|].
  pose proof (tr_nearest _ Hs c ec Hec) as Hn. rewrite Hp in Hn. apply Hn.
Qed.

Lemma traverseSubTree_ok fuel : forall n add rem u, is_Some (rib_table s !! n) -> (size (below n) < fuel)%nat ->
  (forall m, is_Some (rib_table s !! m) -> n `prefix_of` m -> Q m /\ P m) -> uwf u ->
  exists u', traverseSubTree fuel n add rem s u = Ok u' /\ uwf u'.
Proof.
  induction fuel as [|fuel IH]; intros n add rem u [e He] Hf HP W; [lia|]. cbn [traverseSubTree]. rewrite (deref_ok n s e He). cbn [mbind result_bind].
  destruct (hasCapture e); [by exists u|]. destruct (HP n) as [Hq Hp]; [by eexists|done|]. pose proof (tr_name _ Hs n e He) as En.
  apply foldl_ok; [|apply addInheritedRoutes_wf, removeInheritedRoutes_wf; by rewrite ?En].
  intros c t Hc W'. cbn [mbind result_bind]. destruct (child_below n e c He Hc) as [Hic Hst]. apply IH; [done| | |done].
  - pose proof (below_child n c Hic Hst). lia.
  - intros m Hm Hpm. apply HP; [done|]. etrans; [apply Hst|done].
Qed.
Lemma below_size n : (size (below n) <= size (rib_table s))%nat.
Proof. rewrite <-(size_dom (D := gset Name)). apply subseteq_size. intros m [_ Hm]%elem_of_filter. done. Qed.
Lemma modifyChildrens_ok l add rem u : (forall c, c ∈ l -> is_Some (rib_table s !! c)) ->
  (forall c m, c ∈ l -> is_Some (rib_table s !! m) -> c `prefix_of` m -> Q m /\ P m) -> uwf u ->
  exists u', modifyChildrensInheritedRoutes l add rem s u = Ok u' /\ uwf u'.
Proof.
  intros Hl HP W. apply foldl_ok; [|done]. intros c t Hc W'. cbn [mbind result_bind]. apply traverseSubTree_ok; [by apply Hl| | |done].
  - pose proof (below_size c). lia.
  - intros m. by apply HP.
Qed.
End uwf.

(** ** The updates for one name *)
Lemma lowest_loop_Some p l : forall x, exists y, lowest_loop p (Some x) l = Some y.
Proof. induction l as [|r l IH]; intros x; cbn; [by eexists|]. destruct (p r); [|apply IH]. case_match; apply IH. Qed.
Lemma lowest_loop_exists p l : existsb p l = true -> exists y, lowest_loop p None l = Some y.
Proof. induction l as [|r l IH]; cbn; [done|]. destruct (p r); cbn; [intros _; apply lowest_loop_Some|done]. Qed.

(** The entry as [computeUpdatesForRegistration] copies and changes it. *)
Definition entry_copy (route : Route) (e : RibEntry) : RibEntry :=
  with_routes (update_first (fun r => compareFaceIdAndOrigin r route) (with_update route) (re_routes e)) (re_nRoutesWithCaptureSet e) e.
Lemma entry_copy_face route e existing : findRoute route e = Some existing -> hasFaceId (r_faceId route) (entry_copy route e) = true.
Proof.
  unfold findRoute, hasFaceId. cbn. induction (re_routes e) as [|r l IH]; [done|]. cbn. unfold compareFaceIdAndOrigin at 1 3.
  destruct (Z.eqb_spec (r_faceId r) (r_faceId route)) as [E|]; cbn; [|by intros ->%IH; rewrite orb_true_r].
  destruct (r_origin r =? r_origin route); cbn; unfold compareFaceId at 1; cbn; rewrite E, Z.eqb_refl; done.
Qed.

(** The one case in which a null pointer is followed: the route had the lowest cost for the
    face and loses it to another one, and no route for the face is inherited by children. *)
Definition follows_null (e : RibEntry) (route existing : Route) : bool :=
  match getRouteWithLowestCostByFaceId (r_faceId route) e with
  | Some lowest => (r_cost lowest <? r_cost route) && (r_cost existing <? r_cost lowest) && negb (is_some (getRouteWithLowestCostAndChildInheritByFaceId (r_faceId route) e))
  | None => false
  end.

Section name.
Context (b : Z) (P : Name -> Prop) (s : Rib) (Hs : tree_inv (rib_table s)) (n : Name).
Context (Hbelow : forall m, is_Some (rib_table s !! m) -> strict n m -> P m).
Local Notation uwf := (uwf b (fun m => n `prefix_of` m) P).

(** The entry of the name, or a copy of it with other routes. *)
Definition copy_of (e : RibEntry) : Prop :=
  exists e0, rib_table s !! n = Some e0 /\ re_name e = n /\ re_parent e = re_parent e0 /\ re_children e = re_children e0.
Lemma copy_ancestors e : copy_of e -> exists l, getAncestorRoutes e s = Ok l.
Proof. intros (e0 & He & En & Ep & _). by apply (getAncestorRoutes_ok s Hs n e0). Qed.
Lemma strict_children_ok l add rem u : (forall c, c ∈ l -> is_Some (rib_table s !! c) /\ strict n c) -> uwf u ->
  exists u', modifyChildrensInheritedRoutes l add rem s u = Ok u' /\ uwf u'.
Proof.
  intros Hl W. apply modifyChildrens_ok; [done|intros c Hc; by apply Hl| |done]. intros c m Hc Hm Hp. destruct (Hl c Hc) as [_ Hst].
  assert (strict n m) as Hnm; [|by split; [apply Hnm|apply Hbelow]]. split; [etrans; [apply Hst|done]|]. intros ->. apply Hst. apply prefix_length_eq; [apply Hst|]. by apply prefix_length.
Qed.
Lemma copy_children_ok e add rem u : copy_of e -> uwf u -> exists u', modifyChildrensInheritedRoutes (re_children e) add rem s u = Ok u' /\ uwf u'.
Proof. intros (e0 & He & _ & _ & Ec) W. rewrite Ec. apply strict_children_ok; [|done]. intros c. by apply (child_below s Hs n e0). Qed.
Lemma own_update_wf x u : fu_name x = n -> uwf u -> uwf (addFibUpdate x u).
Proof. intros E. apply addFibUpdate_wf. by rewrite E. Qed.

Lemma newRibEntry_ok route l u : P n -> (forall c, c ∈ l -> is_Some (rib_table s !! c) /\ strict n c) -> uwf u ->
  exists u', createFibUpdatesForNewRibEntry n route l s u = Ok u' /\ uwf u'.
Proof.
  intros Hp Hl W. unfold createFibUpdatesForNewRibEntry. destruct (getAncestorRoutesOfName_ok s Hs n) as [A ->]. cbn [mbind result_bind].
  pose proof (own_update_wf (createAddUpdate n (r_faceId route) (r_cost route)) u eq_refl W) as W1.
  destruct (isChildInherit route), (isRibCapture route); cbn [negb andb]; try by apply strict_children_ok.
  - apply strict_children_ok; [done|]. by apply addInheritedRoutesTo_wf.
  - eexists. split; [done|]. by apply addInheritedRoutesTo_wf.
Qed.
Lemma newRoute_ok e route on u : copy_of e -> (on = true -> P n) -> uwf u -> exists u', createFibUpdatesForNewRoute e route on s u = Ok u' /\ uwf u'.
Proof.
  intros He Hp W. unfold createFibUpdatesForNewRoute. destruct (copy_ancestors e He) as [A EA]. assert (re_name e = n) as En by (by destruct He as (? & _ & ? & _)).
  assert (exists x, (if on then let* ancestors := getAncestorRoutes e s in Ok (ancestors, removeInheritedRoutes e ancestors u) else Ok ([], u)) = Ok x /\ uwf x.2) as (x & -> & Wx).
  { destruct on; [|by eexists]. rewrite EA. eexists. split; [done|]. cbn. apply removeInheritedRoutes_wf; rewrite ?En; auto. }
  cbn [mbind result_bind]. edestruct (copy_children_ok e) as (u' & -> & W'); [done|exact Wx|]. cbn [mbind result_bind]. eexists. split; [done|]. case_match; [|done]. by apply own_update_wf.
Qed.

Lemma update_cost_ok e route existing u : copy_of e -> hasFaceId (r_faceId route) e = true -> uwf u ->
  if follows_null e route existing then update_cost e route existing s u = Err (UndefinedBehaviour "null route")
  else exists x, update_cost e route existing s u = Ok x /\ uwf x.2.
Proof.
  intros He Hf W. unfold update_cost, follows_null. destruct (lowest_loop_exists (compareFaceId (r_faceId route)) (re_routes e)) as [low El]; [done|].
  unfold getRouteWithLowestCostByFaceId. rewrite El. assert (re_name e = n) as En by (by destruct He as (? & _ & ? & _)).
  cbn zeta. set (prev := getRouteWithLowestCostAndChildInheritByFaceId _ _).
  assert (Hrest : forall t, uwf t -> exists x, (if no_better route prev && (r_flags route =? r_flags existing) && isChildInherit route then
    let* u := modifyChildrensInheritedRoutes (re_children e) (rs_insert route []) [] s t in Ok (true, u) else Ok (false, t)) = Ok x /\ uwf x.2).
  { intros t Wt. destruct (_ && _); [|by eexists]. destruct (copy_children_ok e (rs_insert route []) [] t He Wt) as (u' & -> & W'). by eexists. }
  cbn [null_route]. destruct (Z.leb_spec (r_cost route) (r_cost low)) as [Hle|Hlt].
  - rewrite (proj2 (Z.ltb_ge _ _)) by lia. cbn [andb mbind result_bind]. by apply Hrest, own_update_wf.
  - rewrite (proj2 (Z.ltb_lt _ _)) by lia. cbn [andb]. destruct (_ <? r_cost low); cbn [andb mbind result_bind]; [|by apply Hrest].
    destruct prev as [p|]; cbn [is_some negb null_route mbind result_bind]; [|done]. by apply Hrest, own_update_wf.
Qed.
Lemma update_inherit_ok e route existing u : copy_of e -> uwf u -> exists u', update_inherit e route existing s u = Ok u' /\ uwf u'.
Proof.
  intros He W. unfold update_inherit. destruct (copy_ancestors e He) as [A ->]. cbn [mbind result_bind]. repeat case_match; cbn [mbind result_bind]; try (by eexists); by apply copy_children_ok.
Qed.
Lemma update_capture_ok e route existing u : copy_of e -> P n -> uwf u -> exists u', update_capture e route existing s u = Ok u' /\ uwf u'.
Proof.
  intros He Hp W. unfold update_capture. destruct (copy_ancestors e He) as [A ->]. cbn [mbind result_bind]. assert (re_name e = n) as En by (by destruct He as (? & _ & ? & _)).
  repeat case_match; [| |by eexists]; (apply copy_children_ok; [done|]); [apply removeInheritedRoutes_wf|apply addInheritedRoutes_wf]; by rewrite ?En.
Qed.
Lemma updatedRoute_ok e route existing u : copy_of e -> P n -> hasFaceId (r_faceId route) e = true -> uwf u ->
  if negb (r_cost route =? r_cost existing) && follows_null e route existing
  then createFibUpdatesForUpdatedRoute e route existing s u = Err (UndefinedBehaviour "null route")
  else exists u', createFibUpdatesForUpdatedRoute e route existing s u = Ok u' /\ uwf u'.
Proof.
  intros He Hp Hf W. unfold createFibUpdatesForUpdatedRoute. pose proof (update_cost_ok e route existing u He Hf W) as Hc.
  assert (Hrest : forall t, uwf t -> exists u', (let* u := update_inherit e route existing s t in update_capture e route existing s u) = Ok u' /\ uwf u').
  { intros t Wt. destruct (update_inherit_ok e route existing t He Wt) as (t' & -> & W'). by apply update_capture_ok. }
  destruct (r_cost route =? r_cost existing); cbn [negb andb].
  - rewrite andb_true_r. destruct (_ =? _); [by eexists|]. cbn [mbind result_bind fst snd]. by apply Hrest.
  - rewrite andb_false_r. destruct (follows_null e route existing); [by rewrite Hc|]. destruct Hc as ([done t] & -> & Wt). cbn [mbind result_bind fst snd]. destruct done; [by eexists|]. by apply Hrest.
Qed.

Lemma erasedRoute_ok e route off u : copy_of e -> (getNRoutes e <> 0 -> P n) -> uwf u -> exists u', createFibUpdatesForErasedRoute e route off s u = Ok u' /\ uwf u'.
Proof.
  intros He Hp W. unfold createFibUpdatesForErasedRoute. destruct (copy_ancestors e He) as [A ->]. assert (re_name e = n) as En by (by destruct He as (? & _ & ? & _)).
  assert (HP : negb (getNRoutes e =? 0) = true -> P n) by (intros E%negb_true_iff%Z.eqb_neq; by apply Hp).
  pose proof (own_update_wf (createRemoveUpdate (re_name e) (r_faceId route)) u En W) as W1. set (u1 := addFibUpdate _ u) in *.
  assert (exists x, (if off && negb (getNRoutes e =? 0) then let* ancestors := Ok A in Ok (ancestors, addInheritedRoutes e ancestors u1) else Ok ([], u1)) = Ok x /\ uwf x.2) as (x & -> & Wx).
  { destruct (off && _) eqn:E; [|by eexists]. apply andb_prop in E as [_ E]. eexists. split; [done|]. cbn. apply addInheritedRoutes_wf; rewrite ?En; auto. }
  assert (exists u2, (if isChildInherit route && isRibCapture route then let* x0 := Ok x in modifyChildrensInheritedRoutes (re_children e) x0.1 (rs_insert route []) s x0.2
    else if isChildInherit route then let* routesToAdd := if negb (hasCapture e) then Ok A else Ok [] in modifyChildrensInheritedRoutes (re_children e) routesToAdd (rs_insert route []) s u1
    else if isRibCapture route then let* x0 := Ok x in modifyChildrensInheritedRoutes (re_children e) x0.1 [] s x0.2 else Ok u1) = Ok u2 /\ uwf u2) as (u2 & -> & W2).
  { destruct (isChildInherit route), (isRibCapture route); cbn [andb mbind result_bind]; try (by apply copy_children_ok); [|by eexists]. destruct (negb (hasCapture e)); by apply copy_children_ok. }
  cbn [mbind result_bind]. eexists. split; [done|]. destruct (negb (hasCapture e) && _) eqn:E; [|done]. apply andb_prop in E as [_ E]. case_match; [|done]. apply addInherited_wf; rewrite ?En; auto.
Qed.
Lemma erasedRibEntry_wf e u : re_name e = n -> uwf u -> uwf (createFibUpdatesForErasedRibEntry e u).
Proof. intros En. apply foldl_keeps. intros r t _ W. by apply own_update_wf. Qed.
End name.

(** ** One update *)

(** What an update makes of the routes of each name. *)
Definition update_routes (x : RibUpdate) (f : Name -> list Route) (m : Name) : list Route :=
  if decide (m = ru_name x) then
    match ru_action x with REGISTER => put_route (ru_route x) (f m) | UNREGISTER | REMOVE_FACE => erase_first (same_route (ru_route x)) (f m) end
  else f m.
Definition update_follows_null (x : RibUpdate) (s : Rib) : bool :=
  match ru_action x, rib_find (ru_name x) s with
  | REGISTER, Some e =>
    match findRoute (ru_route x) e with
    | Some existing => negb (r_cost (ru_route x) =? r_cost existing) && follows_null (entry_copy (ru_route x) e) (ru_route x) existing
    | None => false
    end
  | _, _ => false
  end.

Lemma registered_routes s m : rib_inv s -> is_Some (rib_table s !! m) <-> routes_of s m <> [].
Proof.
  intros I. unfold routes_of. destruct (rib_table s !! m) as [e|] eqn:He; [|by split; [intros [? ?]|]]. split; [intros _; by apply (ri_routes _ I m e)|by eexists].
Qed.
Lemma put_route_nonempty r l : put_route r l <> [].
Proof. unfold put_route. case_match eqn:E; [|by destruct l]. destruct l; [done|]. cbn. by case_match. Qed.

Section compute.
Context `{StdSort}.

Lemma new_children_ok parent l s : (forall d, d ∈ l -> is_Some (rib_table s !! d)) -> exists k, new_children parent l s = Ok k /\ forall c, c ∈ k -> c ∈ l.
Proof.
  induction l as [|d l IH]; intros Hl; cbn; [by eexists|]. destruct (Hl d) as [e He]; [by left|]. rewrite (deref_ok d s e He). cbn [mbind result_bind].
  destruct IH as (k & -> & Hk); [intros x Hx; apply Hl; by right|]. cbn [mbind result_bind]. eexists. split; [done|]. intros c. case_bool_decide; [|intros Hc; right; auto]. rewrite !elem_of_cons. intros [->|?]; auto.
Qed.
Lemma non_inserted_spec n s d : rib_table s !! n = None -> d ∈ findDescendantsForNonInsertedName n s -> is_Some (rib_table s !! d) /\ strict n d.
Proof.
  intros Hn [Hp Hd]%list_elem_of_filter. apply (proj1 (rib_names_spec s)) in Hd. split; [done|]. split; [by apply isPrefixOf_spec|]. intros ->. rewrite Hn in Hd. by destruct Hd.
Qed.

Section one.
Context (s : Rib) (I : rib_inv s) (b : Z) (x : RibUpdate).
Local Notation n := (ru_name x).
Local Notation uwf := (uwf b (fun m => n `prefix_of` m) (fun m => update_routes x (routes_of s) m <> [])).

Lemma below_stays m : is_Some (rib_table s !! m) -> strict n m -> update_routes x (routes_of s) m <> [].
Proof. intros Hm Hst. unfold update_routes. rewrite decide_False; [by apply registered_routes|]. intros ->. by apply strict_irrefl in Hst. Qed.

Lemma registration_ok u : ru_action x = REGISTER -> uwf u ->
  if update_follows_null x s then computeUpdatesForRegistration x s u = Err (UndefinedBehaviour "null route")
  else exists u', computeUpdatesForRegistration x s u = Ok u' /\ uwf u'.
Proof.
  intros Ha W. unfold computeUpdatesForRegistration, update_follows_null. rewrite Ha. unfold rib_find.
  assert (HP : update_routes x (routes_of s) n <> []) by (unfold update_routes; rewrite decide_True, Ha by done; apply put_route_nonempty).
  destruct (rib_table s !! n) as [e|] eqn:He.
  - pose proof (tr_name _ (ri_tree _ I) _ e He) as En. destruct (findRoute (ru_route x) e) as [ex|] eqn:Ex.
    + apply updatedRoute_ok; [apply I|apply below_stays|by exists e|done| |done]. by apply (entry_copy_face _ _ ex).
    + apply newRoute_ok; [apply I|apply below_stays|by exists e|done|done].
  - destruct (new_children_ok (findParent n s) (findDescendantsForNonInsertedName n s) s) as (k & -> & Hk); [intros d Hd; by apply (non_inserted_spec n)|].
    cbn [mbind result_bind]. apply newRibEntry_ok; [apply I|apply below_stays|done| |done]. intros c Hc. by apply non_inserted_spec, Hk.
Qed.
Lemma unregistration_ok u : ru_action x <> REGISTER -> uwf u -> exists u', computeUpdatesForUnregistration x s u = Ok u' /\ uwf u'.
Proof.
  intros Ha W. unfold computeUpdatesForUnregistration, rib_find. destruct (rib_table s !! n) as [e|] eqn:He; [|by eexists].
  destruct (findRoute (ru_route x) e) as [ex|] eqn:Ex; [|by eexists]. pose proof (tr_name _ (ri_tree _ I) _ e He) as En.
  assert (Hc : copy_of s n (eraseRoute (ru_route x) e)) by (exists e; unfold eraseRoute; by rewrite Ex).
  assert (Hp : getNRoutes (eraseRoute (ru_route x) e) <> 0 -> update_routes x (routes_of s) n <> []).
  { unfold eraseRoute, update_routes, routes_of. rewrite Ex, He, decide_True by done. unfold getNRoutes, same_route. cbn. destruct (ru_action x); [done| |]; intros Hz E; by rewrite E in Hz. }
  destruct (erasedRoute_ok b _ s (ri_tree _ I) n below_stays (eraseRoute (ru_route x) e) ex (hasCapture e && negb (hasCapture (eraseRoute (ru_route x) e))) u Hc Hp W) as (u1 & -> & W1). cbn [mbind result_bind].
  assert (exists u2, match getRouteWithSecondLowestCostByFaceId (r_faceId (ru_route x)) e with
    | Some next => createFibUpdatesForNewRoute (eraseRoute (ru_route x) e) next false s u1 | None => Ok u1 end = Ok u2 /\ uwf u2) as (u2 & -> & W2).
  { case_match; [|by eexists]. by apply newRoute_ok; [apply I|apply below_stays| | |]. }
  cbn [mbind result_bind]. eexists. split; [done|]. case_match; [|done]. by apply erasedRibEntry_wf.
Qed.
Lemma computeUpdate_ok u : uwf u ->
  if update_follows_null x s then computeUpdate s (Ok u) x = Err (UndefinedBehaviour "null route") else exists u', computeUpdate s (Ok u) x = Ok u' /\ uwf u'.
Proof.
  intros W. unfold computeUpdate. cbn [mbind result_bind]. destruct (ru_action x) eqn:Ea; [by apply registration_ok| |]; unfold update_follows_null; rewrite Ea.
  - apply unregistration_ok; [by rewrite Ea|done].
  - destruct (unregistration_ok u) as (u' & -> & [W1 W2 W3 W4 W5 W6]); [by rewrite Ea|done|]. cbn [mbind result_bind]. eexists. split; [done|]. split; try done; cbn; constructor.
Qed.
End one.
End compute.
