(* ===== verification/RibQueue.v ===== *)
(** * The queue of RIB updates and the commands to the FIB (NFD/rib/rib.cpp, fib-updater.cpp)

    An update of the RIB waits in a queue until it is the first one.  Its changes to the FIB
    are sent as commands, first those for the face of the update, then the others; the RIB
    itself changes when all commands have succeeded, and the next update follows.  The
    commands that are sent and the responses to them are the events of a state machine. *)

From stdpp Require Import base gmap list strings.
From Stdlib Require Import ZArith Lia.
From S2P Require Import Prelude Ndn Data Scheduler NfdTables Fib Rib FibUpdater.

Local Open Scope Z_scope.

Definition MAX_NUM_TIMEOUTS : Z := 10.
Definition ERROR_FACE_NOT_FOUND : Z := 410.
(** [Controller::ERROR_TIMEOUT] *)
Definition ERROR_TIMEOUT : Z := 10060.

(** The callbacks of the manager are known by numbers. *)
Record UpdateQueueItem := mkUpdateQueueItem {
  q_batch : RibUpdateBatch;
  q_managerSuccessCallback : option nat;
  q_managerFailureCallback : option nat;
}.
(** A command that was sent: its verb, and what is bound to its callbacks. *)
Record Command := mkCommand {
  c_verb : fib_action;
  c_update : FibUpdate;
  c_item : UpdateQueueItem;
  c_nTimeouts : Z;
}.
(** How the update of an item ended; the manager's callback is called then. *)
Inductive outcome : Type := Succeeded | FailedWith (code : Z).

Record RibService := mkRibService {
  sv_rib : Rib;
  sv_updater : FibUpdater;
  sv_updateBatches : list UpdateQueueItem;
  sv_isUpdateInProgress : bool;
  sv_sent : list Command;
  sv_outcomes : list (UpdateQueueItem * outcome);
}.
Definition RibService_new : RibService := mkRibService Rib_new FibUpdater_new [] false [] [].

Definition with_rib (x : Rib) (s : RibService) : RibService :=
  mkRibService x (sv_updater s) (sv_updateBatches s) (sv_isUpdateInProgress s) (sv_sent s) (sv_outcomes s).
Definition with_updater (x : FibUpdater) (s : RibService) : RibService :=
  mkRibService (sv_rib s) x (sv_updateBatches s) (sv_isUpdateInProgress s) (sv_sent s) (sv_outcomes s).
Definition with_batches (x : list UpdateQueueItem) (s : RibService) : RibService :=
  mkRibService (sv_rib s) (sv_updater s) x (sv_isUpdateInProgress s) (sv_sent s) (sv_outcomes s).
Definition with_inProgress (x : bool) (s : RibService) : RibService :=
  mkRibService (sv_rib s) (sv_updater s) (sv_updateBatches s) x (sv_sent s) (sv_outcomes s).
Definition with_sent (x : list Command) (s : RibService) : RibService :=
  mkRibService (sv_rib s) (sv_updater s) (sv_updateBatches s) (sv_isUpdateInProgress s) x (sv_outcomes s).
Definition settle (item : UpdateQueueItem) (x : outcome) (s : RibService) : RibService :=
  mkRibService (sv_rib s) (sv_updater s) (sv_updateBatches s) (sv_isUpdateInProgress s) (sv_sent s) (sv_outcomes s ++ [(item, x)]).

(** ** Sending *)
Definition send (x : Command) (s : RibService) : RibService := with_sent (sv_sent s ++ [x]) s.
Definition sendAddNextHopUpdate (update : FibUpdate) (item : UpdateQueueItem) (nTimeouts : Z) : RibService -> RibService :=
  send (mkCommand ADD_NEXTHOP update item nTimeouts).
Definition sendRemoveNextHopUpdate (update : FibUpdate) (item : UpdateQueueItem) (nTimeouts : Z) : RibService -> RibService :=
  send (mkCommand REMOVE_NEXTHOP update item nTimeouts).
Definition sendUpdates (updates : list FibUpdate) (item : UpdateQueueItem) (s : RibService) : RibService :=
  foldl (fun s update => match fu_action update with
                         | ADD_NEXTHOP => sendAddNextHopUpdate update item 0 s
                         | REMOVE_NEXTHOP => sendRemoveNextHopUpdate update item 0 s
                         end) s updates.
(** Whether all is done, so that the callback for success is called at once. *)
Definition sendUpdatesForNonBatchFaceId (item : UpdateQueueItem) (s : RibService) : bool * RibService :=
  let updates := u_updatesForNonBatchFaceId (sv_updater s) in
  if 0 <? zlen updates then (false, sendUpdates updates item s) else (true, s).
Definition sendUpdatesForBatchFaceId (item : UpdateQueueItem) (s : RibService) : bool * RibService :=
  let updates := u_updatesForBatchFaceId (sv_updater s) in
  if 0 <? zlen updates then (false, sendUpdates updates item s) else sendUpdatesForNonBatchFaceId item s.

(** ** Success *)
Definition apply_update (r : result Rib) (update : RibUpdate) : result Rib :=
  let* s := r in
  match ru_action update with
  | REGISTER => rib_insert (ru_name update) (ru_route update) s
  | UNREGISTER | REMOVE_FACE => rib_erase (ru_name update) (ru_route update) s
  end.
Definition modify_inherited (r : result Rib) (update : RibUpdate) : result Rib :=
  let* s := r in
  assert! is_some (rib_find (ru_name update) s) orelse "ribIt != m_rib.end()" ;
  match ru_action update with
  | REGISTER => rib_modify (ru_name update) (addInheritedRoute (ru_route update)) s
  | UNREGISTER => rib_modify (ru_name update) (removeInheritedRoute (ru_route update)) s
  | REMOVE_FACE => Ok s
  end.
Definition modifyInheritedRoutes (inheritedRoutes : list RibUpdate) (s : Rib) : result Rib :=
  foldl modify_inherited (Ok s) inheritedRoutes.
(** [onFibUpdateSuccess] up to the call of [sendBatchFromQueue]. *)
Definition complete (item : UpdateQueueItem) (s : RibService) : result RibService :=
  let* rib := foldl apply_update (Ok (sv_rib s)) (b_updates (q_batch item)) in
  let* rib := modifyInheritedRoutes (u_inheritedRoutes (sv_updater s)) rib in
  Ok (settle item Succeeded (with_inProgress false (with_rib rib s))).

Section queue.
Context `{StdSort}.

(** [computeAndSendFibUpdates]; whether the callback for success is called at once. *)
Definition computeAndSendFibUpdates (item : UpdateQueueItem) (s : RibService) : result (bool * RibService) :=
  let* u := computeUpdates (q_batch item) (sv_rib s) (mkFibUpdater (b_faceId (q_batch item)) [] [] []) in
  Ok (sendUpdatesForBatchFaceId item (with_updater u s)).
(** [sendBatchFromQueue], which an update without commands calls again. *)
Fixpoint send_from (batches : list UpdateQueueItem) (s : RibService) : result RibService :=
  match batches with
  | [] => Ok (with_batches [] s)
  | item :: rest =>
    if sv_isUpdateInProgress s then Ok (with_batches batches s) else
    let s := with_batches rest (with_inProgress true s) in
    assert! zlen (b_updates (q_batch item)) =? 1 orelse "batch.size() == 1" ;
    let* (isDone, s) := computeAndSendFibUpdates item s in
    if (isDone : bool) then let* s := complete item s in send_from rest s else Ok s
  end.
Definition sendBatchFromQueue (s : RibService) : result RibService := send_from (sv_updateBatches s) s.
Definition onFibUpdateSuccess (item : UpdateQueueItem) (s : RibService) : result RibService :=
  let* s := complete item s in sendBatchFromQueue s.
Definition onFibUpdateFailure (item : UpdateQueueItem) (code : Z) (s : RibService) : result RibService :=
  sendBatchFromQueue (settle item (FailedWith code) (with_inProgress false s)).

(** ** Responses *)
Definition remove_update (update : FibUpdate) (l : list FibUpdate) : list FibUpdate := filter (fun x => x <> update) l.
(** The update is done; the last one of the others ends it all. *)
Definition done_nonBatch (x : Command) (s : RibService) : result RibService :=
  let s := with_updater (on_nonBatch (remove_update (c_update x)) (sv_updater s)) s in
  if zlen (u_updatesForNonBatchFaceId (sv_updater s)) =? 0 then onFibUpdateSuccess (c_item x) s else Ok s.
Definition onUpdateSuccess (x : Command) (s : RibService) : result RibService :=
  if fu_faceId (c_update x) =? u_batchFaceId (sv_updater s) then
    let s := with_updater (on_batch (remove_update (c_update x)) (sv_updater s)) s in
    if zlen (u_updatesForBatchFaceId (sv_updater s)) =? 0 then
      let '(isDone, s) := sendUpdatesForNonBatchFaceId (c_item x) s in
      if (isDone : bool) then onFibUpdateSuccess (c_item x) s else Ok s
    else Ok s
  else done_nonBatch x s.
Definition onUpdateError (x : Command) (code : Z) (s : RibService) : result RibService :=
  if (code =? ERROR_TIMEOUT) && (c_nTimeouts x <? MAX_NUM_TIMEOUTS) then
    Ok (sendAddNextHopUpdate (c_update x) (c_item x) (c_nTimeouts x + 1) s)
  else if code =? ERROR_FACE_NOT_FOUND then
    if fu_faceId (c_update x) =? u_batchFaceId (sv_updater s) then onFibUpdateFailure (c_item x) code s
    else done_nonBatch x s
  else Err (RuntimeError "FibUpdater::Error").

(** ** Updates *)
Definition addUpdateToQueue (update : RibUpdate) (onSuccess onFailure : option nat) (s : RibService) : result RibService :=
  let* batch := batch_add update (mkRibUpdateBatch (r_faceId (ru_route update)) []) in
  Ok (with_batches (sv_updateBatches s ++ [mkUpdateQueueItem batch onSuccess onFailure]) s).
Definition beginApplyUpdate (update : RibUpdate) (onSuccess onFailure : option nat) (s : RibService) : result RibService :=
  let* s := addUpdateToQueue update onSuccess onFailure s in sendBatchFromQueue s.
Definition onRouteExpiration (prefix : Name) (route : Route) (s : RibService) : result RibService :=
  beginApplyUpdate (mkRibUpdate UNREGISTER prefix route) None None s.
Definition beginRemoveFace (faceId : Z) (s : RibService) : result RibService :=
  let* routes := findRoutesWithFaceId faceId (sv_rib s) in
  let* s := foldl (fun r nameAndRoute => let* s := r in addUpdateToQueue (mkRibUpdate REMOVE_FACE nameAndRoute.1 nameAndRoute.2) None None s) (Ok s) routes in
  sendBatchFromQueue s.

(** ** Events: what the manager asks for, and the answer to one of the commands *)
Inductive event : Type :=
  | Update (update : RibUpdate) (onSuccess onFailure : option nat)
  | Expire (prefix : Name) (route : Route)
  | RemoveFace (faceId : Z)
  | Answer (i : nat) (code : option Z).
Definition handle (ev : event) (s : RibService) : result RibService :=
  match ev with
  | Update update onSuccess onFailure => beginApplyUpdate update onSuccess onFailure s
  | Expire prefix route => onRouteExpiration prefix route s
  | RemoveFace faceId => beginRemoveFace faceId s
  | Answer i code =>
    match sv_sent s !! i with
    | None => Ok s
    | Some x =>
      let s := with_sent (delete i (sv_sent s)) s in
      match code with None => onUpdateSuccess x s | Some code => onUpdateError x code s end
    end
  end.
End queue.
