(* ===== verification/RibQueueInv.v ===== *)
(** * The queue of RIB updates settles them in order

    The invariant of the state machine of RibQueue: either nothing is going on, or all
    commands that are out belong to the update that is being made, they are the FIB updates
    that are left of the first or of the second list, and the RIB has the routes that the
    updates before made of it. *)

From stdpp Require Import base gmap list strings.
From Stdlib Require Import ZArith Lia.
From S2P Require Import Prelude Ndn Data Scheduler NfdTables Fib Rib RibInv FibUpdater FibUpdaterInv RibQueue.

Local Open Scope Z_scope.

(** ** The RIB when an update succeeds *)
Lemma apply_update_ok s x : rib_inv s -> exists s', apply_update (Ok s) x = Ok s' /\ rib_inv s' /\ forall m, routes_of s' m = update_routes x (routes_of s) m.
Proof.
  intros I. unfold apply_update, update_routes. cbn [mbind result_bind]. destruct (ru_action x).
  - destruct (rib_insert_ok (ru_name x) (ru_route x) s I) as (s' & -> & I' & E). exists s'. split; [done|]. split; [done|]. intros m. rewrite E. case_decide; by subst.
  - destruct (rib_erase_ok (ru_name x) (ru_route x) s I) as (s' & -> & I' & E). exists s'. split; [done|]. split; [done|]. intros m. rewrite E. case_decide; by subst.
  - destruct (rib_erase_ok (ru_name x) (ru_route x) s I) as (s' & -> & I' & E). exists s'. split; [done|]. split; [done|]. intros m. rewrite E. case_decide; by subst.
Qed.

Lemma inherited_inv s n e l : rib_inv s -> rib_table s !! n = Some e ->
  let s' := on_table <[n := with_inheritedRoutes l e]> s in rib_inv s' /\ forall m, routes_of s' m = routes_of s m.
Proof.
  intros [I1 I2 I3 I4] He s'. assert (Hr : forall m, routes_of s' m = routes_of s m).
  { intros m. unfold routes_of, s'. cbn. destruct (decide (m = n)) as [->|]; [by rewrite lookup_insert_eq, He|by rewrite lookup_insert_ne]. }
  split; [|done]. split; cbn.
  - by apply (tree_update _ n e).
  - intros m e' [[<- <-]|[_ Hm]]%lookup_insert_Some; [by apply (I2 n e)|by apply (I2 m)].
  - intros f m. rewrite I3. destruct (decide (m = n)) as [->|]; [|by rewrite lookup_insert_ne]. rewrite lookup_insert_eq, He. split; intros (x & [= <-] & Hx); by eexists.
  - pose proof (n_routes_update _ n e (with_inheritedRoutes l e) He) as En. cbn in En. rewrite I4. f_equal. f_equal. lia.
Qed.
Lemma modifyInheritedRoutes_ok l s : rib_inv s -> Forall (fun x => routes_of s (ru_name x) <> []) l ->
  exists s', modifyInheritedRoutes l s = Ok s' /\ rib_inv s' /\ forall m, routes_of s' m = routes_of s m.
Proof.
  intros I Hl. rewrite Forall_forall in Hl. apply (foldl_ok (fun s' => rib_inv s' /\ forall m, routes_of s' m = routes_of s m)); [|done].
  intros x t Hx [It Er]. unfold modify_inherited. cbn [mbind result_bind]. specialize (Hl x Hx). rewrite <-Er in Hl.
  apply (registered_routes t (ru_name x) It) in Hl as [e He]. unfold rib_find. rewrite He. cbn [is_some].
  destruct (ru_action x); [rewrite (modify_ok _ _ e) by done|rewrite (modify_ok _ _ e) by done|by exists t];
    (edestruct (inherited_inv t (ru_name x) e) as [I' E']; [done..|]; eexists; split; [reflexivity|]; split; [exact I'|]; intros m; by rewrite E').
Qed.

(** ** The invariant *)

(** The routes after the updates that succeeded. *)
Definition applied_step (f : Name -> list Route) (x : UpdateQueueItem * outcome) : Name -> list Route :=
  match x.2 with Succeeded => foldl (fun f u => update_routes u f) f (b_updates (q_batch x.1)) | FailedWith _ => f end.
Definition applied (l : list (UpdateQueueItem * outcome)) : Name -> list Route := foldl applied_step (fun _ => []) l.
Lemma applied_snoc l x : applied (l ++ [x]) = applied_step (applied l) x.
Proof. unfold applied. by rewrite foldl_snoc. Qed.
Lemma update_routes_ext x f g m : (forall m, f m = g m) -> update_routes x f m = update_routes x g m.
Proof. intros E. unfold update_routes. by rewrite E. Qed.

Definition single (item : UpdateQueueItem) : Prop := exists x, b_updates (q_batch item) = [x].

Record settled_inv (s : RibService) : Prop := {
  st_rib : rib_inv (sv_rib s);
  st_routes m : routes_of (sv_rib s) m = applied (sv_outcomes s) m;
}.
(** The commands that are out are those of one of the two lists. *)
Definition outstanding (s : RibService) : Prop :=
  let u := sv_updater s in
  c_update <$> sv_sent s ≡ₚ u_updatesForBatchFaceId u \/ (u_updatesForBatchFaceId u = [] /\ c_update <$> sv_sent s ≡ₚ u_updatesForNonBatchFaceId u).
Record busy (item : UpdateQueueItem) (x : RibUpdate) (s : RibService) : Prop := {
  bs_progress : sv_isUpdateInProgress s = true;
  bs_update : b_updates (q_batch item) = [x];
  bs_updates : uwf (b_faceId (q_batch item)) (fun m => ru_name x `prefix_of` m) (fun m => update_routes x (routes_of (sv_rib s)) m <> []) (sv_updater s);
  bs_items : Forall (fun y => c_item y = item) (sv_sent s);
  bs_outstanding : outstanding s;
}.
Definition idle (s : RibService) : Prop := sv_isUpdateInProgress s = false /\ sv_sent s = [] /\ sv_updateBatches s = [].
Record service_inv (s : RibService) : Prop := {
  si_settled : settled_inv s;
  si_single : Forall single (sv_updateBatches s);
  si_phase : idle s \/ exists item x, busy item x s /\ sv_sent s <> [];
}.

(** All that was asked for: settled, being made, waiting. *)
Definition current (s : RibService) : list UpdateQueueItem := match sv_sent s with [] => [] | y :: _ => [c_item y] end.
Definition history (s : RibService) : list UpdateQueueItem := (sv_outcomes s).*1 ++ current s ++ sv_updateBatches s.

Lemma complete_ok item x s : settled_inv s -> b_updates (q_batch item) = [x] ->
  Forall (fun y => update_routes x (routes_of (sv_rib s)) (ru_name y) <> []) (u_inheritedRoutes (sv_updater s)) ->
  exists rib, complete item s = Ok (settle item Succeeded (with_inProgress false (with_rib rib s))) /\ settled_inv (settle item Succeeded (with_inProgress false (with_rib rib s))).
Proof.
  intros [I R] Ex Hl. unfold complete. rewrite Ex. cbn [foldl]. destruct (apply_update_ok (sv_rib s) x I) as (s1 & -> & I1 & E1). cbn [mbind result_bind].
  destruct (modifyInheritedRoutes_ok (u_inheritedRoutes (sv_updater s)) s1 I1) as (s2 & -> & I2 & E2).
  { eapply Forall_impl; [exact Hl|]. intros y. cbn. by rewrite E1. }
  cbn [mbind result_bind]. exists s2. split; [done|]. split; [done|]. intros m. cbn [settle sv_outcomes sv_rib with_inProgress with_rib]. rewrite applied_snoc. unfold applied_step. cbn [fst snd]. rewrite Ex. cbn [foldl].
  rewrite E2, E1. by apply update_routes_ext.
Qed.

(** ** Sending *)
Lemma sendUpdates_spec l item : forall s, exists k, sendUpdates l item s = with_sent (sv_sent s ++ k) s /\ c_update <$> k = l /\ Forall (fun y => c_item y = item) k.
Proof.
  induction l as [|x l IH]; intros s; cbn.
  - exists []. rewrite app_nil_r. by destruct s.
  - assert (exists y, match fu_action x with ADD_NEXTHOP => sendAddNextHopUpdate x item 0 s | REMOVE_NEXTHOP => sendRemoveNextHopUpdate x item 0 s end = send y s /\ c_update y = x /\ c_item y = item) as (y & -> & Ey & Ei)
      by (destruct (fu_action x); by eexists).
    destruct (IH (send y s)) as (k & E & Ek & Hk). unfold sendUpdates in E. rewrite E. exists (y :: k). split; [|split; [cbn; by rewrite Ey, Ek|by constructor]]. unfold send, with_sent. cbn. by rewrite <-app_assoc.
Qed.
Lemma zlen_nonempty {A} (l : list A) : (0 <? zlen l) = match l with [] => false | _ => true end.
Proof. destruct l; [done|]. unfold zlen. cbn [length]. apply Z.ltb_lt. lia. Qed.
Lemma zlen_zero {A} (l : list A) : (zlen l =? 0) = match l with [] => true | _ => false end.
Proof. destruct l; [done|]. unfold zlen. cbn [length]. apply Z.eqb_neq. lia. Qed.

(** The commands of the second list, when the first one is done. *)
Lemma sendNonBatch_spec item s : sv_sent s = [] ->
  (sendUpdatesForNonBatchFaceId item s = (true, s) /\ u_updatesForNonBatchFaceId (sv_updater s) = []) \/
  exists k, sendUpdatesForNonBatchFaceId item s = (false, with_sent k s) /\ k <> [] /\ c_update <$> k = u_updatesForNonBatchFaceId (sv_updater s) /\ Forall (fun y => c_item y = item) k.
Proof.
  intros Hs. unfold sendUpdatesForNonBatchFaceId. rewrite zlen_nonempty. destruct (u_updatesForNonBatchFaceId (sv_updater s)) as [|x l] eqn:E; [by left|right].
  destruct (sendUpdates_spec (x :: l) item s) as (k & -> & Ek & Hk). rewrite Hs. exists k. split; [done|]. split; [by destruct k|done].
Qed.
Lemma sendBatch_spec item s : sv_sent s = [] ->
  (sendUpdatesForBatchFaceId item s = (true, s)) \/
  exists k, sendUpdatesForBatchFaceId item s = (false, with_sent k s) /\ k <> [] /\ outstanding (with_sent k s) /\ Forall (fun y => c_item y = item) k.
Proof.
  intros Hs. unfold sendUpdatesForBatchFaceId. rewrite zlen_nonempty. destruct (u_updatesForBatchFaceId (sv_updater s)) as [|x l] eqn:E.
  - destruct (sendNonBatch_spec item s Hs) as [[? _]|(k & -> & Hk & Ek & Hi)]; [by left|right]. exists k. split; [done|]. split; [done|]. split; [|done]. right. cbn. by rewrite Ek.
  - right. destruct (sendUpdates_spec (x :: l) item s) as (k & -> & Ek & Hk). rewrite Hs. exists k. split; [done|]. split; [by destruct k|]. split; [|done]. left. cbn. by rewrite Ek, E.
Qed.

Section service.
Context `{StdSort}.
Local Notation null_fault := (UndefinedBehaviour "null route").

(** The end of a step: the invariant, and what has been asked for. *)
Definition goes_on (r : result RibService) (asked : list UpdateQueueItem) : Prop :=
  match r with Ok s => service_inv s /\ history s = asked | Err e => e = null_fault end.

Lemma batch_wf f Q P : uwf f Q P (mkFibUpdater f [] [] []).
Proof. split; cbn; try done; constructor. Qed.

(** One item that is taken from the queue. *)
Lemma start_ok item s : settled_inv s -> sv_sent s = [] -> sv_isUpdateInProgress s = true -> single item ->
  match computeAndSendFibUpdates item s with
  | Ok (true, s') => exists x rib, b_updates (q_batch item) = [x] /\ s' = with_updater (sv_updater s') s /\
      complete item s' = Ok (settle item Succeeded (with_inProgress false (with_rib rib s'))) /\ settled_inv (settle item Succeeded (with_inProgress false (with_rib rib s')))
  | Ok (false, s') => exists x, busy item x s' /\ sv_sent s' <> [] /\ s' = with_updater (sv_updater s') (with_sent (sv_sent s') s)
  | Err e => e = null_fault
  end.
Proof.
  intros Hst Hs Hp [x Ex]. unfold computeAndSendFibUpdates, computeUpdates. rewrite Ex. cbn [foldl].
  pose proof (computeUpdate_ok (sv_rib s) (st_rib _ Hst) (b_faceId (q_batch item)) x _ (batch_wf _ _ _)) as Hc.
  destruct (update_follows_null x (sv_rib s)); [by rewrite Hc|]. destruct Hc as (u & -> & W). cbn [mbind result_bind].
  assert (Hst' : settled_inv (with_updater u s)) by (destruct Hst; by split).
  destruct (sendBatch_spec item (with_updater u s) Hs) as [->|(k & -> & Hk & Ho & Hi)].
  - destruct (complete_ok item x (with_updater u s) Hst' Ex (uw_inherited _ _ _ _ W)) as (rib & Ec & Hc). by exists x, rib.
  - exists x. by split.
Qed.

(** [sendBatchFromQueue] when nothing is going on. *)
Lemma send_from_ok l : forall s, settled_inv s -> sv_sent s = [] -> sv_isUpdateInProgress s = false -> Forall single l ->
  goes_on (send_from l s) ((sv_outcomes s).*1 ++ l) /\
  forall s', send_from l s = Ok s' -> idle s' \/ (length (sv_updateBatches s') < length l)%nat.
Proof.
  induction l as [|item l IH]; intros s Hst Hs Hp Hl; cbn [send_from].
  - split; [|intros s' [= <-]; left; by split]. split; [split; [destruct Hst; by split|constructor|left; by split]|]. unfold history, current. cbn. by rewrite Hs.
  - apply Forall_cons in Hl as [[x Ex] Hl]. rewrite Hp, Ex. cbn [zlen length Z.of_nat Z.eqb]. change (zlen [x] =? 1) with true. cbn iota.
    set (s1 := with_batches l (with_inProgress true s)). pose proof (start_ok item s1) as Hc.
    destruct (computeAndSendFibUpdates item s1) as [[[|] s']|e]; cbn [mbind result_bind].
    + destruct Hc as (x' & rib & _ & Es' & Ec & Hst'); [destruct Hst; by split|done|done|by exists x|]. rewrite Ec. cbn [mbind result_bind].
      destruct (IH _ Hst') as [HA HB]; [by rewrite Es'|done|done|]. split; [|intros s2 E2; destruct (HB s2 E2); [by left|right; cbn; lia]].
      replace ((sv_outcomes s).*1 ++ item :: l) with ((sv_outcomes (settle item Succeeded (with_inProgress false (with_rib rib s')))).*1 ++ l); [done|].
      rewrite Es'. cbn. by rewrite fmap_app, <-app_assoc.
    + destruct Hc as (x' & Hb & Hne & Es'); [destruct Hst; by split|done|done|by exists x|]. split; [|intros s2 [= <-]; right; rewrite Es'; cbn; lia].
      split; [split; [rewrite Es'; destruct Hst; by split|rewrite Es'; done|right; by exists item, x']|].
      unfold history, current. destruct (sv_sent s') as [|y k] eqn:Ek; [done|]. pose proof (bs_items _ _ _ Hb) as Hi. rewrite Ek in Hi. apply Forall_cons in Hi as [-> _]. rewrite Es'. done.
    + split; [|done]. apply Hc; [destruct Hst; by split|done|done|by exists x].
Qed.

(** New items at the end of the queue. *)
Lemma enqueue_ok l s : service_inv s -> Forall single l ->
  goes_on (sendBatchFromQueue (with_batches (sv_updateBatches s ++ l) s)) (history s ++ l).
Proof.
  intros [Hst Hsg Hph] Hl. unfold sendBatchFromQueue. cbn [with_batches sv_updateBatches]. destruct Hph as [(Hp & Hs & Eb)|(item & x & Hb & Hne)].
  - rewrite Eb. cbn [app]. edestruct (send_from_ok l (with_batches l s)) as [HA _]; [destruct Hst; by split|done|done|done|]. unfold history, current. rewrite Hs, Eb, app_nil_r. exact HA.
  - assert (E : send_from (sv_updateBatches s ++ l) (with_batches (sv_updateBatches s ++ l) s) = Ok (with_batches (sv_updateBatches s ++ l) s)).
    { unfold send_from. destruct (sv_updateBatches s ++ l) eqn:E; [done|]. fold send_from. cbn [with_batches sv_isUpdateInProgress]. by rewrite (bs_progress _ _ _ Hb). }
    rewrite E. split; [split|].
    + destruct Hst. by split.
    + cbn. by apply Forall_app.
    + right. exists item, x. split; [|done]. destruct Hb as [B1 B2 B3 B4 B5]. by split.
    + unfold history. cbn. by rewrite !app_assoc.
Qed.

(** ** Answers *)
Lemma delete_remove (l : list FibUpdate) k i y : l ≡ₚ k -> NoDup k -> l !! i = Some y -> delete i l ≡ₚ remove_update y k.
Proof.
  intros Hp Hnd Hi. assert (Hl : k ≡ₚ y :: delete i l) by (rewrite <-Hp; by apply delete_Permutation).
  rewrite Hl in Hnd. apply NoDup_cons in Hnd as [Hy _]. unfold remove_update. rewrite Hl, filter_cons_False by tauto.
  clear -Hy. induction (delete i l) as [|z m IH]; [done|]. apply not_elem_of_cons in Hy as [Hz Hy]. rewrite filter_cons_True by (by apply not_eq_sym). by rewrite <-IH.
Qed.
Lemma NoDup_target l : NoDup (target <$> l) -> NoDup l.
Proof. apply NoDup_fmap_1. Qed.

(** How much is left to do for the current update. *)
Definition remaining (s : RibService) : nat := (length (u_updatesForBatchFaceId (sv_updater s)) + length (u_updatesForNonBatchFaceId (sv_updater s)))%nat.
(** The progress that a step makes: the next update, or a shorter rest of this one. *)
Definition progress (s s' : RibService) : Prop :=
  idle s' \/ (length (sv_updateBatches s') < length (sv_updateBatches s))%nat \/
  (sv_updateBatches s' = sv_updateBatches s /\ (remaining s' < remaining s)%nat).

Lemma Forall_remove R y l : Forall R l -> Forall R (remove_update y l).
Proof. rewrite !Forall_forall. intros Hl z [_ Hz]%list_elem_of_filter. auto. Qed.
Lemma NoDup_remove y l : NoDup (target <$> l) -> NoDup (target <$> remove_update y l).
Proof. intros Hl. eapply sublist_NoDup; [exact Hl|]. apply fmap_sublist, sublist_filter. Qed.
Lemma uwf_remove_batch b Q P y u : uwf b Q P u -> uwf b Q P (on_batch (remove_update y) u).
Proof. intros [W1 W2 W3 W4 W5 W6]. split; try done; cbn; [by apply Forall_remove|by apply NoDup_remove]. Qed.
Lemma uwf_remove_other b Q P y u : uwf b Q P u -> uwf b Q P (on_nonBatch (remove_update y) u).
Proof. intros [W1 W2 W3 W4 W5 W6]. split; try done; cbn; [by apply Forall_remove|by apply NoDup_remove]. Qed.

(** A state in the middle of an update, with other commands and updates. *)
Lemma busy_change item x s k u : service_inv s -> busy item x s -> k <> [] -> Forall (fun y => c_item y = item) k ->
  uwf (b_faceId (q_batch item)) (fun m => ru_name x `prefix_of` m) (fun m => update_routes x (routes_of (sv_rib s)) m <> []) u ->
  outstanding (with_updater u (with_sent k s)) -> goes_on (Ok (with_updater u (with_sent k s))) ((sv_outcomes s).*1 ++ item :: sv_updateBatches s).
Proof.
  intros [Hst Hsg _] [B1 B2 B3 B4 B5] Hk Hi W Ho. split; [split; [destruct Hst; by split|done|right; exists item, x; by split]|].
  unfold history, current. cbn. destruct k; [done|]. by apply Forall_cons in Hi as [-> _].
Qed.
Lemma busy_history item x s : busy item x s -> sv_sent s <> [] -> history s = (sv_outcomes s).*1 ++ item :: sv_updateBatches s.
Proof. intros [_ _ _ Hi _] Hne. unfold history, current. destruct (sv_sent s); [done|]. by apply Forall_cons in Hi as [-> _]. Qed.
(** The last answer: the RIB changes, and the next update begins. *)
Lemma finish_ok item x s u : service_inv s -> busy item x s ->
  uwf (b_faceId (q_batch item)) (fun m => ru_name x `prefix_of` m) (fun m => update_routes x (routes_of (sv_rib s)) m <> []) u ->
  let s1 := with_updater u (with_sent [] s) in
  goes_on (onFibUpdateSuccess item s1) ((sv_outcomes s).*1 ++ item :: sv_updateBatches s) /\
  forall s', onFibUpdateSuccess item s1 = Ok s' -> idle s' \/ (length (sv_updateBatches s') < length (sv_updateBatches s))%nat.
Proof.
  intros [Hst Hsg _] Hb W s1. unfold onFibUpdateSuccess. assert (Hst1 : settled_inv s1) by (destruct Hst; by split).
  destruct (complete_ok item x s1 Hst1 (bs_update _ _ _ Hb) (uw_inherited _ _ _ _ W)) as (rib & -> & Hst2). cbn [mbind result_bind].
  destruct (send_from_ok (sv_updateBatches s) _ Hst2 eq_refl eq_refl Hsg) as [HA HB]. split; [|done].
  unfold sendBatchFromQueue. cbn in HA |- *. by rewrite fmap_app, <-app_assoc in HA.
Qed.

Lemma remove_shorter y l : y ∈ l -> (length (remove_update y l) < length l)%nat.
Proof.
  intros Hy. unfold remove_update. induction Hy as [y l|y z l Hy IH]; rewrite filter_cons; case_decide; try done; cbn; try lia.
  pose proof (length_filter (fun x => x <> y) l). lia.
Qed.

(** A command for another face is done. *)
Lemma done_nonBatch_ok item x s i y : service_inv s -> busy item x s -> sv_sent s !! i = Some y -> fu_faceId (c_update y) <> u_batchFaceId (sv_updater s) ->
  goes_on (done_nonBatch y (with_sent (delete i (sv_sent s)) s)) (history s) /\ forall s', done_nonBatch y (with_sent (delete i (sv_sent s)) s) = Ok s' -> progress s s'.
Proof.
  intros I Hb Hi Hf. assert (Hyi : c_item y = item) by (eapply (proj1 (Forall_lookup _ _) (bs_items _ _ _ Hb)); exact Hi).
  assert (sv_sent s <> []) as Hne by (intros E; by rewrite E in Hi). rewrite (busy_history item x s Hb Hne). pose proof (bs_updates _ _ _ Hb) as W.
  assert (Hin : c_update y ∈ c_update <$> sv_sent s) by (apply list_elem_of_fmap; exists y; split; [done|by apply list_elem_of_lookup_2 in Hi]).
  destruct (bs_outstanding _ _ _ Hb) as [Ho|[E0 Ho]].
  { exfalso. rewrite Ho in Hin. apply (proj1 (Forall_forall _ _) (uw_batch _ _ _ _ W)) in Hin as [Hin _]. by rewrite (uw_face _ _ _ _ W) in Hf. }
  pose proof (delete_remove _ _ i _ Ho (NoDup_target _ (uw_other_once _ _ _ _ W)) ltac:(by rewrite list_lookup_fmap, Hi)) as Hd. rewrite <-list_fmap_delete in Hd.
  pose proof (uwf_remove_other _ _ _ (c_update y) _ W) as W'. unfold done_nonBatch. cbn [with_updater with_sent sv_updater on_nonBatch u_updatesForNonBatchFaceId]. rewrite zlen_zero.
  destruct (remove_update (c_update y) (u_updatesForNonBatchFaceId (sv_updater s))) as [|z k] eqn:Ez.
  - apply Permutation_nil_r, fmap_nil_inv in Hd. rewrite Hyi. rewrite Hd.
    destruct (finish_ok item x s _ I Hb W') as [HA HB]. split; [exact HA|]. intros s' E. destruct (HB s' E); [by left|right; by left].
  - split; [|intros s' [= <-]; right; right; split; [done|]; unfold remaining; cbn; rewrite Ho in Hin; pose proof (remove_shorter _ _ Hin); lia].
    apply (busy_change item x s (delete i (sv_sent s))); [done|done| |by apply Forall_delete, Hb|done|right; split; [done|]; cbn; by rewrite Hd, Ez].
    intros E. rewrite E in Hd. apply Permutation_nil_l in Hd. done.
Qed.

(** A command for the face of the update is done. *)
Lemma done_batch_ok item x s i y : service_inv s -> busy item x s -> sv_sent s !! i = Some y -> fu_faceId (c_update y) = u_batchFaceId (sv_updater s) ->
  goes_on (onUpdateSuccess y (with_sent (delete i (sv_sent s)) s)) (history s) /\ forall s', onUpdateSuccess y (with_sent (delete i (sv_sent s)) s) = Ok s' -> progress s s'.
Proof.
  intros I Hb Hi Hf. assert (Hyi : c_item y = item) by (eapply (proj1 (Forall_lookup _ _) (bs_items _ _ _ Hb)); exact Hi).
  assert (sv_sent s <> []) as Hne by (intros E; by rewrite E in Hi). rewrite (busy_history item x s Hb Hne). pose proof (bs_updates _ _ _ Hb) as W.
  assert (Hin : c_update y ∈ c_update <$> sv_sent s) by (apply list_elem_of_fmap; exists y; split; [done|by apply list_elem_of_lookup_2 in Hi]).
  destruct (bs_outstanding _ _ _ Hb) as [Ho|[E0 Ho]].
  2:{ exfalso. rewrite Ho in Hin. apply (proj1 (Forall_forall _ _) (uw_other _ _ _ _ W)) in Hin as [Hin _]. by rewrite (uw_face _ _ _ _ W) in Hf. }
  pose proof (delete_remove _ _ i _ Ho (NoDup_target _ (uw_batch_once _ _ _ _ W)) ltac:(by rewrite list_lookup_fmap, Hi)) as Hd. rewrite <-list_fmap_delete in Hd.
  rewrite Ho in Hin. pose proof (remove_shorter _ _ Hin) as Hsh.
  pose proof (uwf_remove_batch _ _ _ (c_update y) _ W) as W'. unfold onUpdateSuccess. cbn [with_sent sv_updater]. rewrite Hf, Z.eqb_refl. cbn [with_updater sv_updater on_batch u_updatesForBatchFaceId]. rewrite zlen_zero.
  set (u' := on_batch (remove_update (c_update y)) (sv_updater s)) in *. assert (Eb : u_updatesForBatchFaceId u' = remove_update (c_update y) (u_updatesForBatchFaceId (sv_updater s))) by done.
  assert (Eo : u_updatesForNonBatchFaceId u' = u_updatesForNonBatchFaceId (sv_updater s)) by done.
  destruct (remove_update (c_update y) (u_updatesForBatchFaceId (sv_updater s))) as [|z k] eqn:Ez.
  - apply Permutation_nil_r, fmap_nil_inv in Hd. rewrite Hyi, Hd. match goal with |- context [sendUpdatesForNonBatchFaceId item ?t] => change t with (with_updater u' (with_sent [] s)) end. destruct (sendNonBatch_spec item (with_updater u' (with_sent [] s)) eq_refl) as [[E _]|(k & E & Hk & Ek & Hik)].
    + rewrite E. destruct (finish_ok item x s u' I Hb W') as [HA HB]. split; [exact HA|]. intros s' E'. destruct (HB s' E'); [by left|right; by left].
    + rewrite E. split; [|intros s' [= <-]; right; right; split; [done|]; unfold remaining; cbn; rewrite Ez; cbn in *; lia].
      apply (busy_change item x s k u'); [done|done|done|done|done|right; split; [done|]; cbn; by rewrite Ek].
  - split; [|intros s' [= <-]; right; right; split; [done|]; unfold remaining; cbn; rewrite Ez; lia].
    apply (busy_change item x s (delete i (sv_sent s)) u'); [done|done| |by apply Forall_delete, Hb|done|left; cbn; by rewrite Hd, Ez].
    intros E. rewrite E in Hd. by apply Permutation_nil_l in Hd.
Qed.
Lemma onUpdateSuccess_ok item x s i y : service_inv s -> busy item x s -> sv_sent s !! i = Some y ->
  goes_on (onUpdateSuccess y (with_sent (delete i (sv_sent s)) s)) (history s) /\ forall s', onUpdateSuccess y (with_sent (delete i (sv_sent s)) s) = Ok s' -> progress s s'.
Proof.
  intros I Hb Hi. destruct (decide (fu_faceId (c_update y) = u_batchFaceId (sv_updater s))) as [E|Hne]; [by apply (done_batch_ok item x)|].
  unfold onUpdateSuccess. cbn [with_sent sv_updater]. rewrite (proj2 (Z.eqb_neq _ _) Hne). by apply (done_nonBatch_ok item x).
Qed.

(** The answers that end the program, and those to be excluded: that the face of the update
    does not exist, while other commands for it are still out. *)
Definition recoverable (y : Command) (code : Z) : bool :=
  ((code =? ERROR_TIMEOUT) && (c_nTimeouts y <? MAX_NUM_TIMEOUTS)) || (code =? ERROR_FACE_NOT_FOUND).
Definition clean (ev : event) (s : RibService) : Prop :=
  match ev with
  | Answer i (Some code) => forall y, sv_sent s !! i = Some y -> code = ERROR_FACE_NOT_FOUND -> fu_faceId (c_update y) = u_batchFaceId (sv_updater s) -> length (sv_sent s) = 1%nat
  | _ => True
  end.

Lemma onUpdateError_ok item x s i y code : service_inv s -> busy item x s -> sv_sent s !! i = Some y -> clean (Answer i (Some code)) s ->
  if recoverable y code then goes_on (onUpdateError y code (with_sent (delete i (sv_sent s)) s)) (history s)
  else onUpdateError y code (with_sent (delete i (sv_sent s)) s) = Err (RuntimeError "FibUpdater::Error").
Proof.
  intros I Hb Hi Hc. unfold onUpdateError, recoverable. assert (Hyi : c_item y = item) by (eapply (proj1 (Forall_lookup _ _) (bs_items _ _ _ Hb)); exact Hi).
  assert (sv_sent s <> []) as Hne by (intros E; by rewrite E in Hi). destruct (_ && _); cbn [orb].
  - rewrite (busy_history item x s Hb Hne). set (z := mkCommand ADD_NEXTHOP (c_update y) (c_item y) (c_nTimeouts y + 1)).
    apply (busy_change item x s (delete i (sv_sent s) ++ [z]) (sv_updater s)); [done|done|by destruct (delete i _)| |apply Hb|].
    + apply Forall_app. split; [by apply Forall_delete, Hb|by constructor].
    + assert (Hp : c_update <$> delete i (sv_sent s) ++ [z] ≡ₚ c_update <$> sv_sent s).
      { rewrite fmap_app. cbn. rewrite <-Permutation_cons_append. change (c_update y :: (c_update <$> delete i (sv_sent s))) with (c_update <$> y :: delete i (sv_sent s)). by rewrite <-delete_Permutation. }
      destruct (bs_outstanding _ _ _ Hb) as [Ho|[E0 Ho]]; [left|right; split; [done|]]; cbn; by rewrite Hp.
  - destruct (Z.eqb_spec code ERROR_FACE_NOT_FOUND) as [Ec|]; [|done]. cbn [with_sent sv_updater]. destruct (Z.eqb_spec (fu_faceId (c_update y)) (u_batchFaceId (sv_updater s))) as [Ef|Ef]; [|by apply (done_nonBatch_ok item x)].
    specialize (Hc y Hi Ec Ef). rewrite (busy_history item x s Hb Hne). assert (Ed : delete i (sv_sent s) = []).
    { destruct (sv_sent s) as [|? [|]]; try done. by destruct i. }
    rewrite Ed. unfold onFibUpdateFailure, sendBatchFromQueue. cbn [settle with_inProgress with_sent sv_updateBatches]. rewrite Hyi. destruct I as [[I R] Hsg _].
    edestruct (send_from_ok (sv_updateBatches s) (settle item (FailedWith code) (with_inProgress false (with_sent [] s)))) as [HA _]; [|done|done|done|].
    + split; [done|]. cbn [settle sv_outcomes sv_rib with_inProgress with_sent]. intros m. by rewrite applied_snoc.
    + cbn [settle sv_outcomes with_inProgress with_sent] in HA. by rewrite fmap_app, <-app_assoc in HA.
Qed.
End service.
