(* ===== verification/RibInherit.v ===== *)
(** * Routes that names inherit

    What the FIB should hold for a name: the route of each face at the longest prefix of the
    name that has one.  This file defines it, and shows what the recursions of [FibUpdater]
    up and down the tree compute in these terms, when all routes are inherited by children
    (which is the default) and each name has one route for a face. *)

From stdpp Require Import base gmap list strings sorting.
From Stdlib Require Import ZArith Lia.
From S2P Require Import Prelude Ndn Data Scheduler NfdTables Fib Rib RibInv FibUpdater FibUpdaterInv RibQueue RibQueueInv.

Local Open Scope Z_scope.

(** ** The route of a face among the prefixes of a name *)
Definition of_face (l : list Route) (f : Z) : option Route := find_first (compareFaceId f) l.
Fixpoint effective_loop (R : Name -> list Route) (i : nat) (n : Name) (f : Z) : option Route :=
  match of_face (R (take i n)) f with
  | Some r => Some r
  | None => match i with O => None | S i => effective_loop R i n f end
  end.
Definition effective (R : Name -> list Route) (n : Name) (f : Z) : option Route := effective_loop R (length n) n f.
(** What the FIB should hold: the costs, for the names with routes. *)
Definition wanted (R : Name -> list Route) (n : Name) (f : Z) : option Z :=
  match R n with [] => None | _ => r_cost <$> effective R n f end.

Definition provides (R : Name -> list Route) n f (o : option Route) : Prop :=
  match o with
  | Some r => exists p, p `prefix_of` n /\ of_face (R p) f = Some r /\ forall q, q `prefix_of` n -> (length p < length q)%nat -> of_face (R q) f = None
  | None => forall p, p `prefix_of` n -> of_face (R p) f = None
  end.
Lemma provides_unique R n f o o' : provides R n f o -> provides R n f o' -> o = o'.
Proof.
  destruct o as [r|], o' as [r'|]; cbn; [| | |done].
  - intros (p & Hp & Er & Hm) (p' & Hp' & Er' & Hm'). destruct (decide (length p < length p')%nat) as [Hl|Hl]; [rewrite Hm in Er' by done; done|].
    destruct (decide (length p' < length p)%nat) as [Hl'|Hl']; [rewrite Hm' in Er by done; done|]. assert (p = p') as ->; [|congruence]. apply prefix_length_eq; [|lia]. apply (prefix_by_length p p' n); [done|done|lia].
  - intros (p & Hp & Er & _) Hn. by rewrite Hn in Er.
  - intros Hn (p & Hp & Er & _). by rewrite Hn in Er.
Qed.
Lemma prefix_take i (n : Name) : take i n `prefix_of` n.
Proof. exists (drop i n). by rewrite take_drop. Qed.
Lemma prefix_is_take (p n : Name) : p `prefix_of` n -> p = take (length p) n.
Proof. intros [k ->]. by rewrite take_app_length. Qed.
Lemma effective_spec R n f : provides R n f (effective R n f).
Proof.
  unfold effective. assert (Hl : forall i, (i <= length n)%nat -> (forall q, q `prefix_of` n -> (i < length q)%nat -> of_face (R q) f = None) -> provides R n f (effective_loop R i n f)).
  2:{ apply Hl; [done|]. intros q Hq Hlt. apply prefix_length in Hq. lia. }
  induction i as [|i IH]; intros Hi Hq; cbn [effective_loop]; (destruct (of_face (R (take _ n)) f) as [r|] eqn:E;
    [eexists; split; [apply prefix_take|]; split; [exact E|]; intros q Hqn; rewrite length_take; intros; apply Hq; [done|lia]|]).
  - intros p Hp. destruct (decide (0 < length p)%nat) as [Hlt|]; [by apply Hq|]. rewrite (prefix_is_take p n Hp). by replace (length p) with 0%nat by lia.
  - apply IH; [lia|]. intros q Hqn Hlt. destruct (decide (S i < length q)%nat) as [|]; [by apply Hq|]. rewrite (prefix_is_take q n Hqn). by replace (length q) with (S i) by lia.
Qed.
Lemma effective_intro R n f o : provides R n f o -> effective R n f = o.
Proof. apply provides_unique, effective_spec. Qed.

(** The own route of a name, or what its parent has. *)
Lemma effective_own R n f r : of_face (R n) f = Some r -> effective R n f = Some r.
Proof. intros E. apply effective_intro. exists n. split; [done|]. split; [done|]. intros q Hq Hl. apply prefix_length in Hq. lia. Qed.
Lemma effective_parent T R n f o : (forall q, ~ is_Some (T !! q) -> R q = []) -> is_nearest T n o -> of_face (R n) f = None ->
  effective R n f = match o with Some p => effective R p f | None => None end.
Proof.
  intros HR Hn En. apply effective_intro. assert (Hout : forall q, q `prefix_of` n -> match o with Some p => (length p < length q)%nat | None => True end -> of_face (R q) f = None).
  { intros q Hq Hl. destruct (decide (q = n)) as [->|Hne]; [done|]. rewrite HR; [done|]. intros Hin. destruct o as [p|]; [|by apply (Hn q Hin)]. destruct Hn as (_ & _ & Hm). specialize (Hm q Hin (conj Hq Hne)). lia. }
  destruct o as [p|]; [|intros q Hq; by apply Hout]. destruct Hn as (_ & [Hp Hpn] & _). pose proof (effective_spec R p f) as Hs. destruct (effective R p f) as [r|].
  - destruct Hs as (q & Hq & Er & Hm). exists q. split; [by etrans|]. split; [done|]. intros k Hk Hl. destruct (decide (length p < length k)%nat) as [|Hle]; [by apply Hout|]. apply Hm; [|done]. apply (prefix_by_length k p n); [done|done|lia].
  - intros k Hk. destruct (decide (length p < length k)%nat) as [|Hle]; [by apply Hout|]. apply Hs. apply (prefix_by_length k p n); [done|done|lia].
Qed.

(** The routes of one name [n] change. *)
Section change.
Context (R R' : Name -> list Route) (n : Name) (HR : forall m, m <> n -> R' m = R m).

Lemma effective_elsewhere m f : ~ n `prefix_of` m -> effective R' m f = effective R m f.
Proof.
  intros Hn. apply effective_intro. pose proof (effective_spec R m f) as Hs. destruct (effective R m f) as [r|].
  - destruct Hs as (p & Hp & Er & Hm). exists p. split; [done|]. split; [rewrite HR; [done|by intros ->]|]. intros q Hq Hl. rewrite HR; [by apply Hm|by intros ->].
  - intros p Hp. rewrite HR; [by apply Hs|by intros ->].
Qed.
Lemma effective_blocked m p f : strict n p -> p `prefix_of` m -> of_face (R p) f <> None -> effective R' m f = effective R m f.
Proof.
  intros Hst Hp Hne. apply effective_intro. pose proof (effective_spec R m f) as Hs. destruct (effective R m f) as [r|]; [|by specialize (Hs p Hp)].
  destruct Hs as (k & Hk & Er & Hm). assert (length n < length k)%nat as Hl. { pose proof (strict_length _ _ Hst). destruct (decide (length k < length p)%nat) as [Hlt|]; [by specialize (Hm p Hp Hlt)|lia]. }
  exists k. split; [done|]. split; [rewrite HR; [done|by intros ->; lia]|]. intros q Hq Hlt. rewrite HR; [by apply Hm|by intros ->; lia].
Qed.
End change.
Lemma effective_through R n m f : n `prefix_of` m -> (forall p, strict n p -> p `prefix_of` m -> of_face (R p) f = None) -> effective R m f = effective R n f.
Proof.
  intros Hn Hb. apply effective_intro. pose proof (effective_spec R n f) as Hs.
  assert (Hout : forall q, q `prefix_of` m -> (length n < length q)%nat -> of_face (R q) f = None) by (intros q Hq Hl; apply Hb; [by apply (strict_by_length n q m)|done]).
  destruct (effective R n f) as [r|].
  - destruct Hs as (q & Hq & Er & Hm). exists q. split; [by etrans|]. split; [done|]. intros k Hk Hl. destruct (decide (length n < length k)%nat) as [|Hle]; [by apply Hout|]. apply Hm; [|done]. apply (prefix_by_length k n m); [done|done|lia].
  - intros k Hk. destruct (decide (length n < length k)%nat) as [|Hle]; [by apply Hout|]. apply Hs. apply (prefix_by_length k n m); [done|done|lia].
Qed.

(** ** Sets of routes *)
Definition by_face (a b : Route) : Prop := r_faceId a < r_faceId b.
Lemma of_face_cons r l f : of_face (r :: l) f = if decide (r_faceId r = f) then Some r else of_face l f.
Proof. unfold of_face. cbn. unfold compareFaceId at 1. destruct (Z.eqb_spec (r_faceId r) f); [by rewrite decide_True|by rewrite decide_False]. Qed.
Lemma of_face_Some l f r : of_face l f = Some r -> r ∈ l /\ r_faceId r = f.
Proof. intros [Hr Hf]%find_first_Some. split; [done|]. by apply Z.eqb_eq. Qed.
Lemma of_face_None l f : of_face l f = None <-> existsb (compareFaceId f) l = false.
Proof. induction l as [|r l IH]; [done|]. rewrite of_face_cons. cbn. unfold compareFaceId at 1. destruct (Z.eqb_spec (r_faceId r) f); [by rewrite decide_True|by rewrite decide_False]. Qed.
Lemma of_face_app l k f : of_face (l ++ k) f = match of_face l f with Some r => Some r | None => of_face k f end.
Proof. induction l as [|r l IH]; [done|]. cbn [app]. rewrite !of_face_cons. by case_decide. Qed.
Lemma of_face_filter (P : Z -> bool) l f : of_face (filter (fun r => P (r_faceId r) = false) l) f = if P f then None else of_face l f.
Proof.
  induction l as [|r l IH]; [by destruct (P f)|]. rewrite filter_cons, of_face_cons. case_decide as E; [rewrite of_face_cons|]; case_decide as Ef; subst; try done; [by rewrite E|].
  rewrite IH. by destruct (P (r_faceId r)).
Qed.
Lemma rs_insert_spec r l : StronglySorted by_face l -> StronglySorted by_face (rs_insert r l) /\
  forall f, of_face (rs_insert r l) f = match of_face l f with Some x => Some x | None => if decide (r_faceId r = f) then Some r else None end.
Proof.
  induction l as [|x l IH]; intros Hs; cbn [rs_insert]; [split; [by repeat constructor|intros f; by rewrite of_face_cons]|].
  apply StronglySorted_inv in Hs as [Hs Hx]. destruct (IH Hs) as [Hs' Hf]. destruct (Z.ltb_spec (r_faceId r) (r_faceId x)) as [Hl|Hl]; [|destruct (Z.ltb_spec (r_faceId x) (r_faceId r)) as [Hl'|Hl']].
  - rewrite Forall_forall in Hx. assert (Hall : Forall (by_face r) (x :: l)). { apply Forall_forall. intros y [->|Hy]%elem_of_cons; [done|]. specialize (Hx y Hy). unfold by_face in *. lia. }
    split; [constructor; [constructor; [done|by apply Forall_forall]|done]|]. intros f. rewrite of_face_cons. case_decide as E; [|by case_match].
    destruct (of_face (x :: l) f) as [y|] eqn:Ey; [|done]. apply of_face_Some in Ey as [Hy Ef]. rewrite Forall_forall in Hall. specialize (Hall y Hy). unfold by_face in Hall. lia.
  - split; [|intros f; rewrite !of_face_cons, Hf; by case_decide]. constructor; [done|]. rewrite Forall_forall in *. intros y Hy.
    assert (y = r \/ y ∈ l) as [->|]; [|done|by apply Hx]. clear -Hy. induction l as [|z l IH]; cbn in Hy; [apply list_elem_of_singleton in Hy; auto|].
    destruct (r_faceId r <? r_faceId z); [apply elem_of_cons in Hy as [->|]; auto|]. destruct (r_faceId z <? r_faceId r); [|auto]. apply elem_of_cons in Hy as [->|Hy]; [right; left|]. destruct (IH Hy); [auto|right; by right].
  - split; [by constructor|]. intros f. rewrite of_face_cons. case_decide as E; [done|]. destruct (of_face l f); [done|]. rewrite decide_False; [done|]. lia.
Qed.
Lemma sorted_once l : StronglySorted by_face l -> NoDup (r_faceId <$> l).
Proof.
  induction 1 as [|x l Hs IH Hx]; [constructor|]. cbn. apply NoDup_cons. split; [|done]. intros (y & Ey & Hy)%list_elem_of_fmap. rewrite Forall_forall in Hx. specialize (Hx y Hy). unfold by_face in Hx. lia.
Qed.
Lemma of_face_erase r l f : StronglySorted by_face l -> StronglySorted by_face (rs_erase r l) /\ of_face (rs_erase r l) f = if decide (r_faceId r = f) then None else of_face l f.
Proof.
  unfold rs_erase. induction 1 as [|x l Hs [IHs IH] Hx]; cbn [erase_first]; [split; [constructor|by case_decide]|]. unfold compareFaceId at 1 3. destruct (Z.eqb_spec (r_faceId x) (r_faceId r)) as [E|E].
  - split; [done|]. rewrite of_face_cons, E. case_decide; [|done]. apply of_face_None, not_true_iff_false. rewrite existsb_exists. intros (y & Hy & Ey%Z.eqb_eq). apply list_elem_of_In in Hy. rewrite Forall_forall in Hx. specialize (Hx y Hy). unfold by_face in Hx. lia.
  - split; [|rewrite !of_face_cons, IH; repeat case_decide; congruence]. constructor; [done|]. rewrite Forall_forall in *. intros y Hy. apply Hx. by apply elem_of_erase_first in Hy.
Qed.

(** ** What the updates do to a name and a face

    To the FIB (the new cost, or that the next hop goes) and to the inherited routes. *)
Definition effect : Type := option (option Z) * option bool.
Definition fib_effect (x : FibUpdate) : option Z := match fu_action x with ADD_NEXTHOP => Some (fu_cost x) | REMOVE_NEXTHOP => None end.
Definition targets (m : Name) (f : Z) (x : FibUpdate) : bool := bool_decide (target x = (m, f)).
Definition fib_view (u : FibUpdater) (m : Name) (f : Z) : option (option Z) :=
  fib_effect <$> find_first (targets m f) (if f =? u_batchFaceId u then u_updatesForBatchFaceId u else u_updatesForNonBatchFaceId u).
Definition concerns (m : Name) (f : Z) (x : RibUpdate) : bool := bool_decide ((ru_name x, r_faceId (ru_route x)) = (m, f)).
Definition inherit_step (m : Name) (f : Z) (o : option bool) (x : RibUpdate) : option bool :=
  if concerns m f x then match ru_action x with REGISTER => Some true | UNREGISTER => Some false | REMOVE_FACE => o end else o.
Definition inherit_view (l : list RibUpdate) (m : Name) (f : Z) : option bool := foldl (inherit_step m f) None l.
Definition view (u : FibUpdater) (m : Name) (f : Z) : effect := (fib_view u m f, inherit_view (u_inheritedRoutes u) m f).

Lemma targets_same x m f y : target x = (m, f) -> targets m f y = same_target x y.
Proof. intros E. unfold targets. destruct (same_target x y) eqn:Es; [apply same_target_spec in Es; rewrite bool_decide_true; congruence|]. rewrite bool_decide_false; [done|]. intros Ey. apply not_true_iff_false in Es. apply Es, same_target_spec. congruence. Qed.
Lemma replace_update_view x l m f : fib_effect <$> find_first (targets m f) (replace_update x l) =
  if decide (target x = (m, f)) then Some (fib_effect x) else fib_effect <$> find_first (targets m f) l.
Proof.
  unfold replace_update. destruct (existsb (same_target x) l) eqn:E.
  - induction l as [|y l IH]; [done|]. cbn in E |- *. destruct (same_target x y) eqn:Ey; cbn.
    + pose proof (proj1 (same_target_spec x y) Ey) as Et. assert (targets m f y = bool_decide (target x = (m, f))) as -> by (unfold targets; by rewrite Et).
      unfold targets at 1. change (target (mkFibUpdate (fu_name y) (fu_faceId y) (fu_cost x) (fu_action x))) with (target y). rewrite <-Et. case_bool_decide; case_decide; done.
    + destruct (targets m f y) eqn:Em; [|by apply IH]. apply bool_decide_eq_true in Em. rewrite decide_False; [done|]. intros Ex. apply not_true_iff_false in Ey. apply Ey, same_target_spec. congruence.
  - rewrite find_first_app. cbn. unfold targets at 2. destruct (decide (target x = (m, f))) as [Ex|Ex]; [|rewrite bool_decide_false by done; by destruct (find_first (targets m f) l)].
    rewrite bool_decide_true by done. destruct (find_first (targets m f) l) as [y|] eqn:Ey; [|done]. apply find_first_Some in Ey as [Hy Et]. rewrite (targets_same x m f y Ex) in Et.
    apply not_true_iff_false in E. exfalso. apply E, existsb_exists. exists y. split; [by apply list_elem_of_In|done].
Qed.
Lemma view_addFibUpdate x u m f : view (addFibUpdate x u) m f = if decide (target x = (m, f)) then (Some (fib_effect x), (view u m f).2) else view u m f.
Proof.
  unfold view, fib_view, addFibUpdate. destruct (Z.eqb_spec (fu_faceId x) (u_batchFaceId u)) as [Eb|Eb]; cbn [on_batch on_nonBatch u_batchFaceId u_updatesForBatchFaceId u_updatesForNonBatchFaceId u_inheritedRoutes].
  - destruct (Z.eqb_spec f (u_batchFaceId u)) as [Ef|Ef]; [rewrite replace_update_view; by case_decide|]. rewrite decide_False; [done|]. unfold target. congruence.
  - destruct (Z.eqb_spec f (u_batchFaceId u)) as [Ef|Ef]; [|rewrite replace_update_view; by case_decide]. rewrite decide_False; [done|]. unfold target. congruence.
Qed.
Lemma view_inherit x u m f : view (inherit x u) m f = if decide ((ru_name x, r_faceId (ru_route x)) = (m, f)) then ((view u m f).1, inherit_step m f (view u m f).2 x) else view u m f.
Proof. unfold view. cbn [inherit u_inheritedRoutes]. unfold inherit_view. rewrite foldl_snoc. case_decide as E; [done|]. unfold inherit_step at 1, concerns. by rewrite bool_decide_false. Qed.
Definition added (r : Route) : effect := (Some (Some (r_cost r)), Some true).
Definition removed : effect := (Some None, Some false).
Lemma view_addInherited n r u m f : view (addInherited n r u) m f = if decide ((n, r_faceId r) = (m, f)) then added r else view u m f.
Proof. unfold addInherited. rewrite view_addFibUpdate, view_inherit. unfold target, inherit_step, concerns. cbn. case_decide; [by rewrite bool_decide_true|done]. Qed.
Lemma view_removeInherited n r u m f : view (removeInherited n r u) m f = if decide ((n, r_faceId r) = (m, f)) then removed else view u m f.
Proof. unfold removeInherited. rewrite view_addFibUpdate, view_inherit. unfold target, inherit_step, concerns. cbn. case_decide; [by rewrite bool_decide_true|done]. Qed.

(** A loop over a set of routes. *)
Lemma view_loop (g : FibUpdater -> Route -> FibUpdater) (c : Z -> bool) (w : Route -> effect) n l : 
  (forall u r m f, view (g u r) m f = if decide ((n, r_faceId r) = (m, f)) then if c f then w r else view u m f else view u m f) -> NoDup (r_faceId <$> l) ->
  forall u m f, view (foldl g u l) m f = if decide (m = n) then match of_face l f with Some r => if c f then w r else view u m f | None => view u m f end else view u m f.
Proof.
  intros Hg. induction l as [|r l IH]; intros Hnd u m f; cbn [foldl]; [by case_decide|]. cbn in Hnd. apply NoDup_cons in Hnd as [Hr Hnd]. rewrite IH, Hg, of_face_cons by done.
  destruct (decide (m = n)) as [->|Hne]; [|rewrite decide_False; [done|congruence]]. destruct (decide (r_faceId r = f)) as [Ef|Ef].
  - rewrite decide_True by congruence. destruct (of_face l f) as [x|] eqn:Ex; [|done]. exfalso. apply of_face_Some in Ex as [Hx Efx]. apply Hr. rewrite Ef, <-Efx. by apply list_elem_of_fmap_2.
  - rewrite decide_False by congruence. done.
Qed.
Definition inherits (e : RibEntry) (f : Z) : bool := existsb (compareFaceId f) (re_inheritedRoutes e).
Lemma view_addInheritedRoutes e l u m f : NoDup (r_faceId <$> l) -> view (addInheritedRoutes e l u) m f =
  if decide (m = re_name e) then match of_face l f with Some r => if negb (hasFaceId f e) then added r else view u m f | None => view u m f end else view u m f.
Proof.
  intros Hl. apply (view_loop _ (fun f => negb (hasFaceId f e)) added (re_name e) l); [|done]. intros v r m' f'. destruct (decide _) as [[= <- <-]|Hne].
  - destruct (negb _); [|done]. rewrite view_addInherited. by rewrite decide_True.
  - destruct (negb _); [|done]. rewrite view_addInherited. by rewrite decide_False.
Qed.
Lemma view_addInheritedRoutesTo n l ig u m f : NoDup (r_faceId <$> l) -> view (addInheritedRoutesTo n l ig u) m f =
  if decide (m = n) then match of_face l f with Some r => if negb (f =? r_faceId ig) then added r else view u m f | None => view u m f end else view u m f.
Proof.
  intros Hl. apply (view_loop _ (fun f => negb (f =? r_faceId ig)) added n l); [|done]. intros v r m' f'. destruct (decide _) as [[= <- <-]|Hne].
  - destruct (negb _); [|done]. rewrite view_addInherited. by rewrite decide_True.
  - destruct (negb _); [|done]. rewrite view_addInherited. by rewrite decide_False.
Qed.
Lemma view_removeInheritedRoutes e l u m f : NoDup (r_faceId <$> l) -> view (removeInheritedRoutes e l u) m f =
  if decide (m = re_name e) then match of_face l f with Some r => if inherits e f then removed else view u m f | None => view u m f end else view u m f.
Proof.
  intros Hl. apply (view_loop _ (inherits e) (fun _ => removed) (re_name e) l); [|done]. intros v r m' f'. unfold inherits, hasInheritedRoute. destruct (decide _) as [[= <- <-]|Hne].
  - destruct (existsb _ _); [|done]. rewrite view_removeInherited. by rewrite decide_True.
  - destruct (existsb _ _); [|done]. rewrite view_removeInherited. by rewrite decide_False.
Qed.

(** ** Down the tree *)
Definition plain_route (o : Z) (r : Route) : Prop := r_flags r = ROUTE_FLAG_CHILD_INHERIT /\ r_origin r = o.
Definition plain (o : Z) (e : RibEntry) : Prop := re_nRoutesWithCaptureSet e = 0 /\ Forall (plain_route o) (re_routes e).
Lemma plain_inherits o r : plain_route o r -> isChildInherit r = true.
Proof. intros [E _]. unfold isChildInherit. by rewrite E. Qed.
Lemma plain_capture o e : plain o e -> hasCapture e = false.
Proof. intros [E _]. unfold hasCapture. by rewrite E. Qed.
Lemma plain_faces o e f : plain o e -> hasChildInheritOnFaceId f e = hasFaceId f e.
Proof.
  intros [_ Hr]. unfold hasChildInheritOnFaceId, hasFaceId. induction Hr as [|r l Hp Hl IH]; [done|]. cbn. by rewrite IH, (plain_inherits o r Hp), andb_true_r.
Qed.
Lemma of_unblocked o e l f : plain o e -> of_face (unblocked e l) f = if hasFaceId f e then None else of_face l f.
Proof. intros Hp. unfold unblocked. rewrite (of_face_filter (fun f => hasChildInheritOnFaceId f e)). by rewrite (plain_faces o e f Hp). Qed.
Lemma unblocked_once e l : NoDup (r_faceId <$> l) -> NoDup (r_faceId <$> unblocked e l).
Proof. intros Hl. eapply sublist_NoDup; [exact Hl|]. apply fmap_sublist, sublist_filter. Qed.

#[local] Instance strict_rel_dec : RelDecision strict := strict_dec.
Section tree.
Context (o : Z) (s : Rib) (Hs : tree_inv (rib_table s)) (Hplain : forall n e, rib_table s !! n = Some e -> plain o e).
Local Notation T := (rib_table s).

Definition has_face (p : Name) (f : Z) : bool := match T !! p with Some e => hasFaceId f e | None => false end.
Definition inherits_at (m : Name) (f : Z) : bool := match T !! m with Some e => inherits e f | None => false end.
(** No name from [n] on (with [n] itself, or without) has the face. *)
Definition free_from (R : Name -> Name -> Prop) n m f : Prop := forall p, R n p -> p `prefix_of` m -> has_face p f = false.
#[local] Instance free_dec (R : Name -> Name -> Prop) `{!RelDecision R} n m f : Decision (free_from R n m f).
Proof.
  destruct (decide (Forall (fun i => R n (take i m) -> has_face (take i m) f = false) (seq 0 (S (length m))))) as [Hl|Hl]; [left|right].
  - intros p Hp Hpm. rewrite (prefix_is_take p m Hpm) in Hp |- *. rewrite Forall_forall in Hl. apply Hl; [|done]. apply elem_of_seq. apply prefix_length in Hpm. lia.
  - intros Hf. apply Hl, Forall_forall. intros i _ Hi. apply Hf; [done|apply prefix_take].
Defined.
Definition effect_at (add rem : list Route) (m : Name) (f : Z) (v : effect) : effect :=
  match of_face add f with
  | Some r => added r
  | None => match of_face rem f with Some _ => if inherits_at m f then removed else v | None => v end
  end.
(** The effect of a traversal: on the names below that the routes reach. *)
Definition reached (R : Name -> Name -> Prop) n m f : Prop := is_Some (T !! m) /\ R n m /\ free_from R n m f.
Definition traversed (R : Name -> Name -> Prop) `{!RelDecision R} n add rem u u' : Prop :=
  forall m f, view u' m f = if decide (reached R n m f) then effect_at add rem m f (view u m f) else view u m f.

(** The topmost of the names below [n]. *)
Record tops n (cs : list Name) : Prop := {
  tp_once : NoDup cs;
  tp_below c : c ∈ cs -> is_Some (T !! c) /\ strict n c;
  tp_cover m : is_Some (T !! m) -> strict n m -> exists c, c ∈ cs /\ c `prefix_of` m;
  tp_top c p : c ∈ cs -> is_Some (T !! p) -> strict n p -> p `prefix_of` c -> p = c;
}.
Lemma tops_unique n cs c c' m : tops n cs -> c ∈ cs -> c' ∈ cs -> c `prefix_of` m -> c' `prefix_of` m -> c = c'.
Proof.
  intros Ht Hc Hc' Hm Hm'. destruct (tp_below _ _ Ht c Hc) as [Tc Sc], (tp_below _ _ Ht c' Hc') as [Tc' Sc'].
  destruct (prefix_weak_total c c' m Hm Hm') as [Hp|Hp]; [by apply (tp_top _ _ Ht c' c)|symmetry; by apply (tp_top _ _ Ht c c')].
Qed.
Lemma tops_reached n cs c m f : tops n cs -> c ∈ cs -> c `prefix_of` m -> reached strict n m f <-> reached prefix c m f.
Proof.
  intros Ht Hc Hm. destruct (tp_below _ _ Ht c Hc) as [Tc Sc]. unfold reached, free_from, has_face. split; intros (HT & HR & Hf); (split; [done|]).
  - split; [done|]. intros p Hp Hpm. apply Hf; [|done]. split; [etrans; [apply Sc|done]|]. intros ->. apply prefix_length in Hp. apply strict_length in Sc. lia.
  - split; [split; [etrans; [apply Sc|done]|]; intros ->; apply prefix_length in Hm; apply strict_length in Sc; lia|]. intros p Hp Hpm. destruct (T !! p) as [e|] eqn:Ep; [|done].
    specialize (Hf p). rewrite Ep in Hf. apply Hf; [|done]. destruct (prefix_weak_total c p m Hm Hpm) as [|Hpc]; [done|]. rewrite (tp_top _ _ Ht c p); [done|done|by eexists|done|done].
Qed.

Lemma traverse_list (g : result FibUpdater -> Name -> result FibUpdater) add rem n cs0 cs : tops n cs0 -> cs ⊆ cs0 -> NoDup cs ->
  (forall c u u', c ∈ cs -> g (Ok u) c = Ok u' -> traversed prefix c add rem u u') -> (forall e c, g (Err e) c = Err e) ->
  forall u u', foldl g (Ok u) cs = Ok u' -> forall m f,
    view u' m f = if decide (reached strict n m f /\ Exists (fun c => c `prefix_of` m) cs) then effect_at add rem m f (view u m f) else view u m f.
Proof.
  intros Ht. induction cs as [|c cs IH]; intros Hsub Hnd Hg Herr u u' E m f; cbn [foldl] in E.
  { injection E as <-. rewrite decide_False; [done|]. intros (_ & Hc). by inversion Hc. }
  apply NoDup_cons in Hnd as [Hc Hnd]. destruct (g (Ok u) c) as [u1|e] eqn:E1.
  2:{ exfalso. clear -E Herr. induction cs as [|d cs IH]; cbn in E; [done|]. rewrite Herr in E. auto. }
  pose proof (Hg c u u1 ltac:(by left) E1 m f) as H1. rewrite (IH ltac:(intros d Hd; apply Hsub; by right) Hnd ltac:(intros d v v' Hd; apply Hg; by right) Herr u1 u' E m f), H1.
  assert (Hc0 : c ∈ cs0) by (apply Hsub; by left). destruct (decide (c `prefix_of` m)) as [Hcm|Hcm].
  - rewrite decide_False. 2:{ intros (_ & (d & Hd & Hdm)%Exists_exists). apply Hc. rewrite (tops_unique n cs0 c d m); [done|done|done|apply Hsub; by right|done|done]. }
    destruct (decide (reached prefix c m f)) as [Hr|Hr]; [rewrite decide_True; [done|split; [by apply (tops_reached n cs0 c)|by left]]|].
    rewrite decide_False; [done|]. intros [Hr' _]. by apply Hr, (tops_reached n cs0 c).
  - rewrite (decide_False (P := reached prefix c m f)) by (by intros (_ & ? & _)). destruct (decide (reached strict n m f /\ Exists (fun c => c `prefix_of` m) cs)) as [Hd|Hd]; [rewrite decide_True; [done|]|rewrite decide_False; [done|]].
    + destruct Hd as [Hr Hd]. split; [done|by right].
    + intros [Hr Hx]. apply Hd. split; [done|]. by apply Exists_cons in Hx as [?|?].
Qed.

(** The children of an entry, and of an entry to be, are topmost. *)
Lemma tops_intro n cs : NoDup cs -> (forall c, c ∈ cs -> is_Some (T !! c) /\ strict n c) ->
  (forall m e, T !! m = Some e -> strict n m -> (forall p, re_parent e = Some p -> ~ strict n p) -> m ∈ cs) ->
  (forall c e p, c ∈ cs -> T !! c = Some e -> re_parent e = Some p -> ~ strict n p) -> tops n cs.
Proof.
  intros Hnd Hb Hin Hpar. split; [done|done| |].
  - intros m. induction m as [m IH] using (induction_ltof1 _ length). unfold ltof in IH. intros [e He] Hst.
    destruct (re_parent e) as [p|] eqn:Ep; [|exists m; split; [apply (Hin m e He Hst); by rewrite Ep|done]].
    destruct (decide (strict n p)) as [Hnp|Hnp]; [|exists m; split; [apply (Hin m e He Hst); rewrite Ep; intros q [= <-]; done|done]].
    pose proof (tr_nearest _ Hs m e He) as Hn. rewrite Ep in Hn. destruct Hn as (Tp & Sp & _). destruct (IH p) as (c & Hc & Hcp); [by apply strict_length|done|done|]. exists c. split; [done|]. etrans; [done|apply Sp].
  - intros c p Hc Tp Snp Hpc. destruct (decide (p = c)) as [|Hne]; [done|exfalso]. destruct (Hb c Hc) as [[e He] Snc]. pose proof (tr_nearest _ Hs c e He) as Hn.
    destruct (re_parent e) as [q|] eqn:Ep; [|by apply (Hn p)]. destruct Hn as (Tq & Sq & Hm). apply (Hpar c e q Hc He Ep). specialize (Hm p Tp (conj Hpc Hne)).
    apply (strict_by_length n q c); [apply Snc|apply Sq|]. apply strict_length in Snp. lia.
Qed.
Lemma children_tops n e : T !! n = Some e -> tops n (re_children e).
Proof.
  intros He. apply tops_intro; [by apply (lk_children _ (tr_links _ Hs) n)|intros c; by apply (child_below s Hs n e)| |].
  - intros m em Hm Hst Hno. apply (lk_child _ (tr_links _ Hs) n e m He). exists em. split; [done|]. pose proof (tr_nearest _ Hs m em Hm) as Hn. destruct (re_parent em) as [p|]; [|by exfalso; apply (Hn n); [eexists|]].
    destruct Hn as (Tp & Sp & Hmax). f_equal. destruct (decide (p = n)) as [|Hne]; [done|exfalso]. apply (Hno p eq_refl). split; [|by apply not_eq_sym]. apply (prefix_by_length n p m); [apply Hst|apply Sp|]. apply Hmax; [by eexists|done].
  - intros c ec p (ec' & Hec & Hp)%(lk_child _ (tr_links _ Hs) n e c He) Hc Ep Hst. rewrite Hec in Hc. injection Hc as ->. rewrite Hp in Ep. injection Ep as ->. by apply strict_irrefl in Hst.
Qed.
Lemma new_children_spec parent l k : new_children parent l s = Ok k -> NoDup l -> NoDup k /\ forall c, c ∈ k <-> c ∈ l /\ exists e, T !! c = Some e /\ re_parent e = parent.
Proof.
  revert k. induction l as [|d l IH]; intros k; cbn [new_children]; [intros [= <-] _; split; [constructor|]; intros c; rewrite elem_of_nil; tauto|].
  unfold rib_deref. destruct (T !! d) as [e|] eqn:Ed; [|done]. cbn [mbind result_bind]. destruct (new_children parent l s) as [k0|]; [|done]. intros [= <-] [Hd Hnd]%NoDup_cons. destruct (IH k0 eq_refl Hnd) as [Hnk Hk].
  case_bool_decide as Ep.
  - split; [apply NoDup_cons; split; [intros [? _]%Hk; done|done]|]. intros c. rewrite !elem_of_cons, Hk. split; [intros [->|[? ?]]; [split; [auto|by exists e]|auto]|]. intros [[->|?] ?]; auto.
  - split; [done|]. intros c. rewrite elem_of_cons, Hk. split; [intros [? ?]; auto|]. intros [[->|?] (e' & He' & Hp)]; [congruence|split; [done|by exists e']].
Qed.
Lemma new_tops n k : T !! n = None -> new_children (findParent n s) (findDescendantsForNonInsertedName n s) s = Ok k -> tops n k.
Proof.
  intros Hn E. pose proof (findParent_nearest n s (tr_name _ Hs)) as Hnear. apply new_children_spec in E as [Hnd Hk]; [|apply NoDup_filter, rib_names_spec]. apply tops_intro; [done| | |].
  - intros c [Hc _]%Hk. by apply (non_inserted_spec n).
  - intros m e He Hst Hno. apply Hk. split; [|exists e; split; [done|]]; [apply list_elem_of_filter; split; [apply isPrefixOf_spec, Hst|apply rib_names_spec; by eexists]|].
    apply (nearest_below T m n _ _ Hn Hst (tr_nearest _ Hs m e He) Hnear). destruct (re_parent e) as [p|] eqn:Ep; [|done]. cbn.
    pose proof (tr_nearest _ Hs m e He) as Hne. rewrite Ep in Hne. destruct Hne as (Tp & Sp & _). destruct (decide (length p < length n)%nat) as [|Hl]; [done|exfalso]. apply (Hno p eq_refl). split; [apply (prefix_by_length n p m); [apply Hst|apply Sp|lia]|]. intros ->. rewrite Hn in Tp. by destruct Tp.
  - intros c e p [_ (e' & He' & Hp)]%Hk He Ep Hst. rewrite He in He'. injection He' as <-. rewrite <-Hp, Ep in Hnear. destruct Hnear as (_ & Sp & _). apply strict_length in Sp, Hst. lia.
Qed.

Lemma has_face_at n e f : T !! n = Some e -> has_face n f = hasFaceId f e.
Proof. intros He. unfold has_face. by rewrite He. Qed.
Lemma traverse_view fuel : forall n add rem u u', traverseSubTree fuel n add rem s u = Ok u' -> is_Some (T !! n) -> NoDup (r_faceId <$> add) -> NoDup (r_faceId <$> rem) -> traversed prefix n add rem u u'.
Proof.
  induction fuel as [|fuel IH]; intros n add rem u u' E [e He] Ha Hr m f; [done|]. cbn [traverseSubTree] in E. rewrite (deref_ok n s e He) in E. cbn [mbind result_bind] in E.
  pose proof (Hplain n e He) as Hp. rewrite (plain_capture o e Hp) in E. pose proof (tr_name _ Hs n e He) as En.
  pose proof (children_tops n e He) as Ht. pose proof (fun Hg => traverse_list _ (unblocked e add) (unblocked e rem) n (re_children e) (re_children e) Ht (fun x Hx => Hx) (tp_once _ _ Ht) Hg (fun _ _ => eq_refl) _ _ E m f) as Hv.
  rewrite Hv. 2:{ intros c v v' Hc. cbn [mbind result_bind]. intros Ev. apply (IH c _ _ _ _ Ev); [by apply (tp_below _ _ Ht c)|by apply unblocked_once|by apply unblocked_once]. }
  unfold add_here, remove_here. rewrite view_addInheritedRoutes, view_removeInheritedRoutes, En, !(of_unblocked o e) by (done || by apply unblocked_once). clear Hv.
  assert (Hsp : reached prefix n m f <-> hasFaceId f e = false /\ (m = n \/ reached strict n m f)).
  { unfold reached, free_from. split.
    - intros (Tm & Hnm & Hf). split; [rewrite <-(has_face_at n e f He); by apply Hf|]. destruct (decide (m = n)) as [|Hne]; [by left|right]. split; [done|]. split; [by split; [|apply not_eq_sym]|]. intros p [Hnp _]. by apply Hf.
    - intros [Hn0 [->|(Tm & [Hnm _] & Hf)]]; [split; [by eexists|]; split; [done|]; intros p Hnp Hpn; assert (p = n) as -> by (symmetry; apply prefix_length_eq; [done|by apply prefix_length]); by rewrite (has_face_at n e f He)|].
      split; [done|]. split; [done|]. intros p Hnp Hpm. destruct (decide (n = p)) as [<-|Hne]; [by rewrite (has_face_at n e f He)|by apply Hf]. }
  destruct (decide (reached strict n m f /\ Exists (fun c => c `prefix_of` m) (re_children e))) as [[Hrs Hex]|Hno].
  - assert (m <> n) as Hmn by (intros ->; by destruct Hrs as (_ & Hst & _); apply strict_irrefl in Hst). rewrite !(decide_False (P := m = n)) by done. unfold effect_at. rewrite !(of_unblocked o e) by done.
    destruct (hasFaceId f e) eqn:Ef; [rewrite decide_False; [done|]; by intros [? _]%Hsp|]. rewrite decide_True; [done|]. apply Hsp. auto.
  - destruct (decide (m = n)) as [->|Hmn].
    + destruct (hasFaceId f e) eqn:Ef; [rewrite decide_False; [done|]; by intros [? _]%Hsp|]. rewrite decide_True by (apply Hsp; auto). unfold effect_at, inherits_at. rewrite He. cbn [negb]. done.
    + rewrite decide_False; [done|]. intros [_ [?|Hrs]]%Hsp; [done|]. apply Hno. split; [done|]. destruct Hrs as (Tm & Hst & _). destruct (tp_cover _ _ Ht m Tm Hst) as (c & Hc & Hcm). apply Exists_exists. by exists c.
Qed.
Lemma children_view n cs add rem u u' : tops n cs -> modifyChildrensInheritedRoutes cs add rem s u = Ok u' -> NoDup (r_faceId <$> add) -> NoDup (r_faceId <$> rem) -> traversed strict n add rem u u'.
Proof.
  intros Ht E Ha Hr m f. pose proof (fun Hg => traverse_list _ add rem n cs cs Ht (fun x Hx => Hx) (tp_once _ _ Ht) Hg (fun _ _ => eq_refl) _ _ E m f) as Hv. rewrite Hv.
  2:{ intros c v v' Hc. cbn [mbind result_bind]. intros Ev. apply (traverse_view _ c _ _ _ _ Ev); [by apply (tp_below _ _ Ht c)|done|done]. }
  destruct (decide (reached strict n m f)) as [Hrs|Hno]; [rewrite decide_True; [done|]|rewrite decide_False; [done|by intros [? _]]].
  split; [done|]. destruct Hrs as (Tm & Hst & _). destruct (tp_cover _ _ Ht m Tm Hst) as (c & Hc & Hcm). apply Exists_exists. by exists c.
Qed.

(** ** Up the tree *)
Lemma add_inheritable_spec l : Forall (plain_route o) l -> forall set, StronglySorted by_face set ->
  StronglySorted by_face (add_inheritable l set) /\ forall f, of_face (add_inheritable l set) f = match of_face set f with Some r => Some r | None => of_face l f end.
Proof.
  unfold add_inheritable. induction 1 as [|r l Hp _ IH]; intros set Hset; cbn [foldl]; [split; [done|]; intros f; by destruct (of_face set f)|]. rewrite (plain_inherits o r Hp).
  destruct (rs_insert_spec r set Hset) as [Hset' Hf]. destruct (IH _ Hset') as [Hr Hf']. split; [done|]. intros f. rewrite Hf', Hf, of_face_cons. destruct (of_face set f); [done|]. by case_decide.
Qed.
Lemma unregistered q : ~ is_Some (T !! q) -> routes_of s q = [].
Proof. unfold routes_of. destruct (T !! q); [|done]. intros Hq. exfalso. apply Hq. by eexists. Qed.
Lemma ancestors_view fuel : forall p set A, ancestor_loop fuel p set s = Ok A -> StronglySorted by_face set ->
  StronglySorted by_face A /\ forall f, of_face A f = match of_face set f with Some r => Some r | None => match p with Some p => effective (routes_of s) p f | None => None end end.
Proof.
  induction fuel as [|fuel IH]; intros [p|] set A; cbn [ancestor_loop]; [done| | |]; try (intros [= <-] Hset; split; [done|]; intros f; by destruct (of_face set f)).
  unfold rib_deref. destruct (T !! p) as [e|] eqn:He; [|done]. cbn [mbind result_bind]. rewrite (plain_capture o e (Hplain p e He)). intros E Hset.
  destruct (add_inheritable_spec (re_routes e) (proj2 (Hplain p e He)) set Hset) as [Hset' Hf]. destruct (IH _ _ _ E Hset') as [HA HfA]. split; [done|]. intros f. rewrite HfA, Hf. destruct (of_face set f); [done|].
  assert (Hr : routes_of s p = re_routes e) by (unfold routes_of; by rewrite He). destruct (of_face (re_routes e) f) as [r|] eqn:Ef; [symmetry; apply effective_own; by rewrite Hr|].
  symmetry. apply (effective_parent T); [apply unregistered|by apply (tr_nearest _ Hs)|by rewrite Hr].
Qed.
(** The routes above a name: what it inherits. *)
Lemma nearest_view n p A fuel : is_nearest T n p -> ancestor_loop fuel p [] s = Ok A ->
  NoDup (r_faceId <$> A) /\ StronglySorted by_face A /\ forall f R', (forall m, m <> n -> R' m = routes_of s m) -> of_face (R' n) f = None -> of_face A f = effective R' n f.
Proof.
  intros Hn E. destruct (ancestors_view _ _ _ _ E) as [HA Hf]; [constructor|]. split; [by apply sorted_once|]. split; [done|]. intros f R' HR En. rewrite Hf. cbn.
  set (T' := <[n := RibEntry_new n]> T). assert (is_nearest T' n p) as Hn'.
  { destruct p as [p|]; cbn in Hn |- *.
    - destruct Hn as (Hp & Sp & Hm). split; [apply lookup_insert_is_Some'; by right|]. split; [done|]. intros q [<-|Hq]%lookup_insert_is_Some' Sq; [by apply strict_irrefl in Sq|by apply Hm].
    - intros q [<-|Hq]%lookup_insert_is_Some' Sq; [by apply strict_irrefl in Sq|by apply (Hn q)]. }
  rewrite (effective_parent T' R' n f p); [|intros q Hq; rewrite HR; [apply unregistered; intros Hq'; apply Hq, lookup_insert_is_Some'; by right|intros ->; apply Hq; apply lookup_insert_is_Some'; by left]|done|done].
  destruct p as [p|]; [|done]. symmetry. apply (effective_elsewhere _ _ n); [done|]. intros Hp. destruct Hn as (_ & Sp & _). apply prefix_length in Hp. apply strict_length in Sp. lia.
Qed.
End tree.
