(* ===== verification/RibFib.v ===== *)
(** * The FIB follows the RIB

    With routes that children inherit, one origin, and names that lose their last route when
    they lose one, the FIB updates of each RIB update keep the FIB as it should be: every
    name with routes has, for each face, the cost of the route at the longest prefix that has
    one for this face. *)

From stdpp Require Import base gmap list strings sorting.
From Stdlib Require Import ZArith Lia.
From S2P Require Import Prelude Ndn Data Scheduler NfdTables Fib Rib RibInv FibUpdater FibUpdaterInv RibQueue RibQueueInv RibInherit.

Local Open Scope Z_scope.

#[local] Instance strict_decided : RelDecision strict := strict_dec.
#[local] Existing Instance free_dec.

Definition fib_after (o : option (option Z)) (old : option Z) : option Z := match o with Some new => new | None => old end.

(** An update of the kind considered here. *)
Definition plain_update (o : Z) (R : Name -> list Route) (x : RibUpdate) : Prop :=
  match ru_action x with
  | REGISTER => plain_route o (ru_route x)
  | UNREGISTER => (length (R (ru_name x)) <= 1)%nat
  | REMOVE_FACE => False
  end.

(** ** One update *)
Lemma effective_face R R' n m f : (forall m, m <> n -> R' m = R m) -> of_face (R' n) f = of_face (R n) f -> effective R' m f = effective R m f.
Proof.
  intros HR En. assert (Ha : forall q, of_face (R' q) f = of_face (R q) f) by (intros q; destruct (decide (q = n)) as [->|]; [done|by rewrite HR]).
  apply effective_intro. pose proof (effective_spec R m f) as Hs. destruct (effective R m f) as [r|]; cbn in *.
  - destruct Hs as (p & Hp & Er & Hm). exists p. rewrite Ha. split; [done|]. split; [done|]. intros q Hq Hl. rewrite Ha. by apply Hm.
  - intros p Hp. rewrite Ha. by apply Hs.
Qed.
Lemma lowest_loop_In p l y : forall c, lowest_loop p c l = Some y -> c = Some y \/ (y ∈ l /\ p y = true).
Proof.
  induction l as [|r l IH]; intros c; cbn; [auto|]. intros [E|[Hy Hp]]%IH; [|right; split; [by right|done]]. destruct (p r) eqn:Ep; [|auto].
  destruct c as [c|]; [destruct (r_cost r <? r_cost c); [injection E as <-|auto]|injection E as <-]; right; (split; [by left|done]).
Qed.
Lemma lowest_loop_none p l : existsb p l = false -> lowest_loop p None l = None.
Proof. induction l as [|r l IH]; cbn; [done|]. by intros [-> ?]%orb_false_iff; apply IH. Qed.

Section update.
Context `{StdSort} (o : Z) (s : Rib) (I : rib_inv s) (Hplain : forall n e, rib_table s !! n = Some e -> plain o e).
Context (Hinh : forall m e f, rib_table s !! m = Some e -> hasFaceId f e = false -> effective (routes_of s) m f <> None -> inherits e f = true).
Context (x : RibUpdate) (Hx : plain_update o (routes_of s) x).
Local Notation T := (rib_table s).
Local Notation R := (routes_of s).
Local Notation R' := (update_routes x (routes_of s)).
Local Notation n := (ru_name x).
Local Notation face := (r_faceId (ru_route x)).
Local Notation u0 := (mkFibUpdater face [] [] []).

Definition good_at (m : Name) (f : Z) (v : effect) : Prop :=
  fib_after v.1 (wanted R m f) = wanted R' m f /\
  (R' m <> [] -> of_face (R' m) f = None -> effective R' m f <> None -> match v.2 with Some b => b | None => inherits_at s m f end = true).

Lemma other_name m : m <> n -> R' m = R m.
Proof. intros Hm. unfold update_routes. by rewrite decide_False. Qed.
Lemma routes_at m e : T !! m = Some e -> R m = re_routes e.
Proof. intros He. unfold routes_of. by rewrite He. Qed.
Lemma has_face_spec m f : has_face s m f = false <-> of_face (R m) f = None.
Proof. unfold has_face, routes_of. destruct (T !! m); [|done]. unfold hasFaceId. by rewrite of_face_None. Qed.
Lemma inherits_ok m f : R m <> [] -> of_face (R m) f = None -> effective R m f <> None -> inherits_at s m f = true.
Proof.
  intros Hm Ho He. unfold inherits_at. destruct (T !! m) as [e|] eqn:Em; [|by rewrite unregistered in Hm; [|rewrite Em; intros [? ?]]]. apply (Hinh m e f Em); [|done]. unfold hasFaceId. apply of_face_None. by rewrite <-(routes_at m e).
Qed.

(** It is enough to look at the name itself, and at what its descendants inherit from it. *)
Lemma good_intro u add rem :
  (forall m f, m <> n -> view u m f = if decide (reached s strict n m f) then effect_at s add rem m f (None, None) else (None, None)) ->
  (forall f, good_at n f (view u n f)) ->
  (forall f, match of_face add f with
             | Some r => effective R' n f = Some r
             | None => match of_face rem f with
                       | Some _ => effective R' n f = None /\ effective R n f <> None
                       | None => r_cost <$> effective R' n f = r_cost <$> effective R n f
                       end
             end) ->
  forall m f, good_at m f (view u m f).
Proof.
  intros Hv Hn Hc m f. destruct (decide (m = n)) as [->|Hm]; [done|]. rewrite Hv by done. clear Hv. unfold good_at, wanted. rewrite (other_name m Hm).
  destruct (decide (reached s strict n m f)) as [(Tm & Hst & Hf)|Hno].
  - assert (Hf1 : forall p, strict n p -> p `prefix_of` m -> of_face (R p) f = None) by (intros p Hp Hpm; by apply has_face_spec, Hf).
    assert (Hf2 : forall p, strict n p -> p `prefix_of` m -> of_face (R' p) f = None) by (intros p Hp Hpm; rewrite other_name; [by apply Hf1|intros ->; by apply strict_irrefl in Hp]).
    assert (Hown : of_face (R m) f = None) by (by apply Hf1). pose proof (proj1 (registered_routes s m I) Tm) as Hrm.
    rewrite (effective_through R n m f) by (done || apply Hst). rewrite (effective_through R' n m f) by (done || apply Hst). specialize (Hc f). unfold effect_at.
    destruct (R m) as [|r0 l0] eqn:Er; [done|]. rewrite <-Er in *. pose proof (inherits_ok m f Hrm Hown) as Hi. rewrite (effective_through R n m f) in Hi by (done || apply Hst).
    destruct (of_face add f) as [r|]; [by rewrite Hc|]. destruct (of_face rem f) as [r|].
    + destruct Hc as [Hc1 Hc2]. rewrite (Hi Hc2), Hc1. by split.
    + cbn. split; [done|]. intros _ _ He. apply Hi. intros E. rewrite E in Hc. by destruct (effective R' n f).
  - assert (Heff : is_Some (T !! m) -> effective R' m f = effective R m f).
    { intros Tm. destruct (decide (n `prefix_of` m)) as [Hp|Hp]; [|by apply (effective_elsewhere _ _ n); [apply other_name|]].
      assert (strict n m) as Hst by (split; [done|by apply not_eq_sym]).
      destruct (decide (Exists (fun i => strict n (take i m) /\ has_face s (take i m) f = true) (seq 0 (S (length m))))) as [(i & _ & Hi & Hh)%Exists_exists|Hnone].
      - apply (effective_blocked R _ n other_name m (take i m)); [done|apply prefix_take|]. intros E%has_face_spec. congruence.
      - exfalso. apply Hno. split; [done|]. split; [done|]. intros p Hnp Hpm. apply not_true_iff_false. intros Hh. apply Hnone, Exists_exists. exists (length p). rewrite <-(prefix_is_take p m Hpm).
        split; [|done]. apply elem_of_seq. apply prefix_length in Hpm. lia. }
    cbn. destruct (R m) as [|r0 l0] eqn:Er; [done|]. rewrite <-Er in *. assert (Hrm : R m <> []) by (by rewrite Er). rewrite Heff by (by apply registered_routes). split; [done|]. intros _. by apply inherits_ok.
Qed.
Lemma view_start m f : view u0 m f = (None, None).
Proof. unfold view, fib_view. cbn. by destruct (f =? face). Qed.
Lemma not_reached_self f : ~ reached s strict n n f.
Proof. intros (_ & Hst & _). by apply strict_irrefl in Hst. Qed.

Lemma own_add r u m f : view (addFibUpdate (createAddUpdate n face (r_cost r)) u) m f = if decide ((n, face) = (m, f)) then (Some (Some (r_cost r)), (view u m f).2) else view u m f.
Proof. by rewrite view_addFibUpdate. Qed.
Lemma put_new l : find_first (same_route (ru_route x)) l = None -> put_route (ru_route x) l = l ++ [ru_route x].
Proof. intros E. unfold put_route. by rewrite E. Qed.
Lemma registered_now : ru_action x = REGISTER -> R' n = put_route (ru_route x) (R n).
Proof. intros Ha. unfold update_routes. by rewrite decide_True, Ha. Qed.

(** A route for a name without routes. *)
Lemma new_entry_good u : ru_action x = REGISTER -> T !! n = None -> computeUpdatesForRegistration x s u0 = Ok u -> forall m f, good_at m f (view u m f).
Proof.
  intros Ha Hn. unfold plain_update in Hx. rewrite Ha in Hx. unfold computeUpdatesForRegistration, rib_find. rewrite Hn.
  destruct (new_children _ _ s) as [cs|] eqn:Ec; [|done]. cbn [mbind result_bind]. apply (new_tops s (ri_tree _ I) n cs Hn) in Ec. unfold createFibUpdatesForNewRibEntry.
  assert (isRibCapture (ru_route x) = false) as -> by (unfold isRibCapture; by rewrite (proj1 Hx)). rewrite (plain_inherits o _ Hx). cbn [negb andb].
  unfold getAncestorRoutesOfName. destruct (ancestor_loop _ _ _ s) as [A|] eqn:EA; [|done]. cbn [mbind result_bind]. intros Eu.
  pose proof (findParent_nearest n s (tr_name _ (ri_tree _ I))) as Hnear. destruct (nearest_view o s (ri_tree _ I) Hplain n _ A _ Hnear EA) as (HA & HAs & HAf).
  set (B := rs_insert (ru_route x) (rs_erase (ru_route x) A)) in *. assert (HB : NoDup (r_faceId <$> B) /\ forall f, of_face B f = if decide (face = f) then Some (ru_route x) else of_face A f).
  { destruct (rs_insert_spec (ru_route x) (rs_erase (ru_route x) A)) as [Hs Hf]; [by apply (of_face_erase _ _ 0)|]. split; [by apply sorted_once|]. intros f. subst B. rewrite Hf, (proj2 (of_face_erase (ru_route x) A f HAs)). case_decide; [done|]. by destruct (of_face A f). }
  destruct HB as [HBn HBf]. pose proof (children_view o s (ri_tree _ I) Hplain n cs B [] _ u Ec Eu HBn ltac:(constructor)) as Hv.
  assert (Hrn : R n = []) by (unfold routes_of; by rewrite Hn). assert (Hrn' : R' n = [ru_route x]) by (rewrite registered_now, Hrn by done; done).
  assert (HAR : forall f, of_face A f = effective R n f) by (intros f; apply HAf; [done|by rewrite Hrn]).
  assert (HAR' : forall f, face <> f -> of_face A f = effective R' n f) by (intros f Hf; apply HAf; [apply other_name|rewrite Hrn', of_face_cons; by rewrite decide_False]).
  assert (Hg : effective R' n face = Some (ru_route x)) by (apply effective_own; rewrite Hrn', of_face_cons; by rewrite decide_True).
  apply (good_intro u B []).
  - intros m f Hm. rewrite Hv, view_addInheritedRoutesTo, (decide_False (P := m = n)), own_add, (decide_False (P := (n, face) = (m, f))), view_start by (done || congruence). done.
  - intros f. rewrite Hv, decide_False, view_addInheritedRoutesTo, decide_True, own_add, view_start by (done || apply not_reached_self). unfold good_at, wanted. rewrite Hrn, Hrn', of_face_cons.
    destruct (decide (face = f)) as [<-|Hf].
    + rewrite decide_True, Z.eqb_refl by done. cbn [negb]. rewrite Hg. by destruct (of_face A face).
    + rewrite decide_False, <-HAR', (proj2 (Z.eqb_neq _ _) (not_eq_sym Hf)) by (done || congruence). cbn [negb]. by destruct (of_face A f).
  - intros f. rewrite HBf. cbn [of_face find_first]. destruct (decide (face = f)) as [<-|Hf]; [done|]. rewrite <-HAR', <-HAR by done. by destruct (of_face A f).
Qed.
Lemma face_is_key e f : T !! n = Some e -> ru_action x = REGISTER -> f = face -> of_face (re_routes e) f = find_first (same_route (ru_route x)) (re_routes e).
Proof.
  intros He Ha ->. unfold plain_update in Hx. rewrite Ha in Hx. destruct (Hplain n e He) as [_ Hr]. unfold of_face. induction Hr as [|r l [_ Ho] _ IH]; [done|]. cbn. unfold same_route at 1, compareFaceIdAndOrigin, compareFaceId at 1.
  destruct Hx as [_ Hxo]. rewrite Ho, Hxo, Z.eqb_refl, andb_true_r. by destruct (_ =? _).
Qed.
Lemma single_sets r : NoDup (r_faceId <$> rs_insert r []).
Proof. cbn. apply NoDup_singleton. Qed.

(** Another route for a name. *)
Lemma new_route_good u e : ru_action x = REGISTER -> T !! n = Some e -> findRoute (ru_route x) e = None -> computeUpdatesForRegistration x s u0 = Ok u -> forall m f, good_at m f (view u m f).
Proof.
  intros Ha He Ef. pose proof (face_is_key e face He Ha eq_refl) as Hkey. rewrite findRoute_first in Ef. unfold computeUpdatesForRegistration, rib_find. rewrite He, findRoute_first, Ef. unfold createFibUpdatesForNewRoute.
  assert (Hplx : plain_route o (ru_route x)) by (unfold plain_update in Hx; by rewrite Ha in Hx). rewrite (plain_inherits o _ Hplx). assert (isRibCapture (ru_route x) = false) as -> by (unfold isRibCapture; by rewrite (proj1 Hplx)).
  rewrite Ef in Hkey. assert (Hno : existsb (compareFaceId face) (re_routes e) = false) by (by apply of_face_None).
  assert (getRouteWithLowestCostByFaceId face e = None) as -> by (by apply lowest_loop_none).
  assert (getRouteWithLowestCostAndChildInheritByFaceId face e = None) as ->.
  { apply lowest_loop_none. fold (hasChildInheritOnFaceId face e). by rewrite (plain_faces o e face (Hplain n e He)). }
  cbn [no_better andb negb mbind result_bind fst snd]. rewrite andb_false_r. cbn [mbind result_bind fst snd]. destruct (modifyChildrensInheritedRoutes _ _ _ s u0) as [u1|] eqn:Eu; [|done]. cbn [mbind result_bind]. intros [= <-].
  pose proof (children_view o s (ri_tree _ I) Hplain n _ _ [] _ u1 (children_tops s (ri_tree _ I) n e He) Eu (single_sets _) ltac:(constructor)) as Hv. rewrite (tr_name _ (ri_tree _ I) n e He).
  assert (Hrn : R n = re_routes e) by (by apply routes_at). assert (Hrn' : R' n = re_routes e ++ [ru_route x]) by (by rewrite registered_now, Hrn, put_new).
  assert (Hg : effective R' n face = Some (ru_route x)) by (apply effective_own; rewrite Hrn', of_face_app, Hkey, of_face_cons; by rewrite decide_True).
  assert (Hf' : forall f m, face <> f -> effective R' m f = effective R m f). { intros f m Hf. apply (effective_face R _ n); [apply other_name|]. rewrite Hrn', Hrn, of_face_app, of_face_cons, decide_False by done. by destruct (of_face _ f). }
  apply (good_intro _ (rs_insert (ru_route x) []) []).
  - intros m f Hm. rewrite own_add, (decide_False (P := (n, face) = (m, f))), Hv, view_start by congruence. done.
  - intros f. rewrite own_add, Hv, (decide_False (P := reached s strict n n f)), view_start by apply not_reached_self. unfold good_at, wanted. rewrite Hrn'. destruct (decide (face = f)) as [<-|Hf].
    + rewrite decide_True, Hg by done. cbn [fst snd fib_after]. split; [by destruct (re_routes e)|]. rewrite of_face_app, Hkey, of_face_cons. by rewrite decide_True.
    + rewrite decide_False, Hf' by (done || congruence). cbn [fst snd fib_after]. rewrite Hrn. pose proof (proj1 (ri_routes _ I n e He)). split; [by destruct (re_routes e)|].
      intros _. rewrite of_face_app. intros Ho. rewrite <-Hrn in Ho. apply inherits_ok; [by rewrite Hrn|by destruct (of_face (R n) f)].
  - intros f. cbn [rs_insert]. rewrite of_face_cons. destruct (decide (face = f)) as [<-|Hf]; [done|]. cbn [of_face find_first]. by rewrite Hf'.
Qed.

(** A route that the name has already. *)
Lemma of_face_update (g : Route -> Route) l ex f : Forall (fun r => r_origin r = r_origin (ru_route x)) l -> find_first (same_route (ru_route x)) l = Some ex ->
  (forall r, r_faceId r = face -> r_faceId (g r) = face) -> of_face (update_first (same_route (ru_route x)) g l) f = if decide (face = f) then Some (g ex) else of_face l f.
Proof.
  intros Hl Ef Hg. induction Hl as [|r l Ho _ IH]; [done|]. cbn [find_first update_first] in Ef |- *. assert (same_route (ru_route x) r = (r_faceId r =? face)) as Es by (unfold same_route, compareFaceIdAndOrigin; by rewrite Ho, Z.eqb_refl, andb_true_r).
  rewrite Es in *. destruct (Z.eqb_spec (r_faceId r) face) as [E|E]; rewrite !of_face_cons.
  - injection Ef as ->. rewrite (Hg ex E), E. by case_decide.
  - rewrite IH by done. repeat case_decide; congruence.
Qed.
Lemma of_face_in l y f : NoDup (r_faceId <$> l) -> y ∈ l -> r_faceId y = f -> of_face l f = Some y.
Proof.
  intros Hnd Hy <-. induction Hy as [y l|y r l Hy IH]; rewrite of_face_cons; [by rewrite decide_True|]. cbn in Hnd. apply NoDup_cons in Hnd as [Hr Hnd]. rewrite decide_False; [by apply IH|]. intros E. apply Hr. rewrite E. by apply list_elem_of_fmap_2.
Qed.
Lemma faces_once m e : T !! m = Some e -> NoDup (r_faceId <$> re_routes e).
Proof.
  intros He. destruct (ri_routes _ I m e He) as [_ Hk]. destruct (Hplain m e He) as [_ Hp]. apply (NoDup_fmap_1 (fun f => (f, o))). rewrite <-list_fmap_compose. erewrite list_fmap_ext; [exact Hk|].
  intros i r Hi. unfold route_key. cbn. rewrite Forall_lookup in Hp. by destruct (Hp i r Hi) as [_ ->].
Qed.
Lemma copy_cost e ex : T !! n = Some e -> Forall (fun r => r_origin r = r_origin (ru_route x)) (re_routes e) -> find_first (same_route (ru_route x)) (re_routes e) = Some ex ->
  forall y, y ∈ re_routes (entry_copy (ru_route x) e) -> r_faceId y = face -> r_cost y = r_cost (ru_route x).
Proof.
  intros He Hor Ef y Hy Hfy. change (re_routes (entry_copy (ru_route x) e)) with (update_first (same_route (ru_route x)) (with_update (ru_route x)) (re_routes e)) in Hy.
  apply (of_face_in _ y face) in Hy; [| |done].
  - rewrite (of_face_update (with_update (ru_route x)) _ ex) in Hy; [|done|done|done]. rewrite decide_True in Hy by done. by injection Hy as <-.
  - replace (r_faceId <$> update_first _ _ _) with (r_faceId <$> re_routes e); [by apply (faces_once n)|]. clear. induction (re_routes e) as [|r l IH]; [done|]. cbn. destruct (same_route (ru_route x) r); [done|]. cbn. by rewrite IH.
Qed.
Lemma updated_route_good u e ex : ru_action x = REGISTER -> T !! n = Some e -> findRoute (ru_route x) e = Some ex -> computeUpdatesForRegistration x s u0 = Ok u -> forall m f, good_at m f (view u m f).
Proof.
  intros Ha He Ef. pose proof (face_is_key e face He Ha eq_refl) as Hkey. rewrite findRoute_first in Ef. rewrite Ef in Hkey. unfold computeUpdatesForRegistration, rib_find. rewrite He, findRoute_first, Ef.
  assert (Hplx : plain_route o (ru_route x)) by (unfold plain_update in Hx; by rewrite Ha in Hx). destruct (Hplain n e He) as [_ Hpl].
  assert (Hor : Forall (fun r => r_origin r = r_origin (ru_route x)) (re_routes e)) by (eapply Forall_impl; [exact Hpl|]; intros r [_ ->]; by destruct Hplx as [_ ->]).
  assert (Hfl : (r_flags (ru_route x) =? r_flags ex) = true). { apply find_first_Some in Ef as [Hin _]. rewrite Forall_forall in Hpl. destruct (Hpl ex Hin) as [-> _]. destruct Hplx as [-> _]. done. }
  assert (Hrn : R n = re_routes e) by (by apply routes_at). assert (Hrn' : R' n = update_first (same_route (ru_route x)) (fun _ => ru_route x) (re_routes e)) by (rewrite registered_now, Hrn by done; unfold put_route; by rewrite Ef).
  assert (Hof : forall f, of_face (R' n) f = if decide (face = f) then Some (ru_route x) else of_face (R n) f) by (intros f; rewrite Hrn', Hrn; by apply (of_face_update (fun _ => ru_route x) _ ex)).
  assert (Hg : effective R' n face = Some (ru_route x)) by (apply effective_own; rewrite Hof; by rewrite decide_True).
  assert (Hg0 : effective R n face = Some ex) by (apply effective_own; by rewrite Hrn).
  assert (Hf' : forall f m, face <> f -> effective R' m f = effective R m f) by (intros f m Hf; apply (effective_face R _ n); [apply other_name|]; rewrite Hof; by rewrite decide_False).
  assert (Hne' : R' n <> []) by (rewrite registered_now by done; apply put_route_nonempty).
  assert (Hself : forall f v, (face = f -> v = Some (Some (r_cost (ru_route x))) \/ (v = None /\ r_cost (ru_route x) = r_cost ex)) -> (face <> f -> v = None) -> good_at n f (v, None)).
  { intros f v H1 H2. unfold good_at, wanted. cbn [fst snd]. pose proof (proj1 (ri_routes _ I n e He)) as Hne. rewrite Hrn. destruct (re_routes e) as [|r0 l0] eqn:El; [done|]. destruct (R' n) as [|r1 l1] eqn:El'; [done|]. rewrite <-El in Hrn. split.
    - destruct (decide (face = f)) as [<-|Hf]; [|by rewrite (H2 Hf), Hf']. rewrite Hg, Hg0. destruct (H1 eq_refl) as [->|[-> E]]; [done|]. cbn. by rewrite E.
    - rewrite Hof. destruct (decide (face = f)) as [|Hf]; [done|]. intros _ Ho. rewrite Hf' by done. apply inherits_ok; [by rewrite Hrn, El|done]. }
  unfold createFibUpdatesForUpdatedRoute. rewrite Hfl. destruct (Z.eqb_spec (r_cost (ru_route x)) (r_cost ex)) as [Eq|Nq]; cbn [negb andb].
  - intros [= <-]. apply (good_intro _ [] []); [intros m f Hm; rewrite view_start; by destruct (decide _)|intros f; rewrite view_start; apply Hself; auto|]. intros f. cbn [of_face find_first].
    destruct (decide (face = f)) as [<-|Hf]; [rewrite Hg, Hg0; cbn; by rewrite Eq|by rewrite Hf'].
  - fold (entry_copy (ru_route x) e). set (e' := entry_copy (ru_route x) e).
    pose proof (copy_cost e ex He Hor Ef) as Hlow. fold e' in Hlow.
    unfold update_cost. destruct (lowest_loop_exists (compareFaceId face) (re_routes e')) as [low El]; [by apply (entry_copy_face _ _ ex)|]. unfold getRouteWithLowestCostByFaceId. rewrite El. cbn [null_route].
    apply lowest_loop_In in El as [?|[Hlin Hlf%Z.eqb_eq]]; [done|]. rewrite (Hlow low Hlin Hlf), Z.leb_refl. cbn [mbind result_bind].
    assert (no_better (ru_route x) (getRouteWithLowestCostAndChildInheritByFaceId face e') = true) as ->.
    { destruct (getRouteWithLowestCostAndChildInheritByFaceId face e') as [y|] eqn:Ey; [|done]. apply lowest_loop_In in Ey as [?|[Hy [Hyf%Z.eqb_eq _]%andb_prop]]; [done|]. cbn. rewrite (Hlow y Hy Hyf). apply Z.leb_refl. }
    rewrite Hfl, (plain_inherits o _ Hplx). cbn [andb]. change (re_children e') with (re_children e). change (re_name e') with (re_name e). rewrite (tr_name _ (ri_tree _ I) n e He).
    destruct (modifyChildrensInheritedRoutes _ _ _ s _) as [u1|] eqn:Eu; [|done]. cbn [mbind result_bind fst snd]. intros [= <-].
    pose proof (children_view o s (ri_tree _ I) Hplain n _ _ [] _ u1 (children_tops s (ri_tree _ I) n e He) Eu (single_sets _) ltac:(constructor)) as Hv. apply (good_intro _ (rs_insert (ru_route x) []) []).
    + intros m f Hm. rewrite Hv, own_add, (decide_False (P := (n, face) = (m, f))), view_start by congruence. done.
    + intros f. rewrite Hv, (decide_False (P := reached s strict n n f)), own_add, view_start by apply not_reached_self. destruct (decide ((n, face) = (n, f))) as [[= Hf]|Hf]; apply Hself; auto; congruence.
    + intros f. cbn [rs_insert]. rewrite of_face_cons. destruct (decide (face = f)) as [<-|Hf]; [done|]. cbn [of_face find_first]. by rewrite Hf'.
Qed.

(** The only route of a name goes. *)
Lemma view_erased e u m f : re_name e = n -> view (createFibUpdatesForErasedRibEntry e u) m f =
  if decide (m = n) then if inherits e f then (Some None, (view u m f).2) else view u m f else view u m f.
Proof.
  intros En. unfold createFibUpdatesForErasedRibEntry, inherits. rewrite En. revert u. induction (re_inheritedRoutes e) as [|r l IH]; intros u; cbn [foldl existsb]; [by case_decide|]. rewrite IH, view_addFibUpdate. unfold target. cbn.
  destruct (decide (m = n)) as [->|Hm]; [|rewrite decide_False; [done|congruence]]. unfold compareFaceId at 2. destruct (Z.eqb_spec (r_faceId r) f) as [->|Hf]; cbn [orb].
  - rewrite decide_True by done. by destruct (existsb _ l).
  - rewrite decide_False; [done|congruence].
Qed.
Lemma own_remove u m f : view (addFibUpdate (createRemoveUpdate n face) u) m f = if decide ((n, face) = (m, f)) then (Some None, (view u m f).2) else view u m f.
Proof. by rewrite view_addFibUpdate. Qed.
(** What is computed when the only route goes. *)
Lemma unregister_last e r0 u : T !! n = Some e -> re_routes e = [r0] -> same_route (ru_route x) r0 = true -> computeUpdatesForUnregistration x s u0 = Ok u ->
  exists A u1, getAncestorRoutes e s = Ok A /\ modifyChildrensInheritedRoutes (re_children e) A (rs_insert r0 []) s (addFibUpdate (createRemoveUpdate n face) u0) = Ok u1 /\ u = createFibUpdatesForErasedRibEntry e u1.
Proof.
  intros He Ee Es. unfold computeUpdatesForUnregistration, rib_find. rewrite He, findRoute_first, Ee. cbn [find_first]. rewrite Es.
  pose proof (proj1 (same_route_spec _ _) Es) as [= Hface _]. pose proof (Hplain n e He) as Hp. assert (Hp0 : plain_route o r0) by (destruct Hp as [_ Hp]; rewrite Ee in Hp; by apply Forall_cons in Hp as [? _]).
  assert (isRibCapture r0 = false) as Hcap by (unfold isRibCapture; by rewrite (proj1 Hp0)).
  assert (Et : eraseRoute (ru_route x) e = with_routes [] 0 e).
  { unfold eraseRoute. rewrite findRoute_first, Ee. cbn [find_first]. rewrite Es, Hcap, (proj1 Hp). cbn [erase_first]. change (compareFaceIdAndOrigin r0 (ru_route x)) with (same_route (ru_route x) r0). by rewrite Es. }
  rewrite Et. unfold createFibUpdatesForErasedRoute. rewrite (plain_inherits o r0 Hp0), Hcap. cbn [andb]. change (hasCapture (with_routes [] 0 e)) with false. cbn [negb].
  change (getAncestorRoutes (with_routes [] 0 e) s) with (getAncestorRoutes e s). destruct (getAncestorRoutes e s) as [A|]; [|done]. cbn [mbind result_bind].
  change (re_children (with_routes [] 0 e)) with (re_children e). change (re_name (with_routes [] 0 e)) with (re_name e). change (getNRoutes (with_routes [] 0 e) =? 0) with true. rewrite (tr_name _ (ri_tree _ I) n e He), Hface.
  destruct (modifyChildrensInheritedRoutes _ _ _ s _) as [u1|] eqn:Eu; [|done]. cbn [mbind result_bind negb andb].
  assert (getRouteWithSecondLowestCostByFaceId face e = None) as ->. { unfold getRouteWithSecondLowestCostByFaceId. rewrite Ee, filter_cons, filter_nil. by case_decide. }
  unfold getNRoutes. rewrite Ee. change (zlen [r0] =? 1) with true. cbn [mbind result_bind]. intros [= <-]. by exists A, u1.
Qed.
Lemma unregister_last_good u e r0 : ru_action x = UNREGISTER -> T !! n = Some e -> re_routes e = [r0] -> same_route (ru_route x) r0 = true -> computeUpdatesForUnregistration x s u0 = Ok u -> forall m f, good_at m f (view u m f).
Proof.
  intros Ha He Ee Es (A & u1 & EA & Eu & ->)%(unregister_last e r0 u He Ee Es). pose proof (proj1 (same_route_spec _ _) Es) as [= Hface _].
  destruct (nearest_view o s (ri_tree _ I) Hplain n _ A (S (length (re_name e))) (tr_nearest _ (ri_tree _ I) n e He) EA) as (HA & _ & HAf).
  pose proof (children_view o s (ri_tree _ I) Hplain n _ A _ _ u1 (children_tops s (ri_tree _ I) n e He) Eu HA (single_sets _)) as Hv.
  assert (Hrn : R n = [r0]) by (by rewrite (routes_at n e He)). assert (Hrn' : R' n = []) by (unfold update_routes; rewrite decide_True, Ha, Hrn by done; cbn; by rewrite Es).
  assert (HAR' : forall f, of_face A f = effective R' n f) by (intros f; apply HAf; [apply other_name|by rewrite Hrn']).
  assert (HAR : forall f, face <> f -> of_face A f = effective R n f) by (intros f Hf; apply HAf; [done|]; rewrite Hrn, of_face_cons, Hface; by rewrite decide_False).
  pose proof (tr_name _ (ri_tree _ I) n e He) as En. apply (good_intro _ A (rs_insert r0 [])).
  - intros m f Hm. rewrite (view_erased e _ _ _ En), (decide_False (P := m = n)), Hv, own_remove, (decide_False (P := (n, face) = (m, f))), view_start by (done || congruence). done.
  - intros f. rewrite (view_erased e _ _ _ En), decide_True, Hv, (decide_False (P := reached s strict n n f)), own_remove, view_start by (done || apply not_reached_self).
    unfold good_at, wanted. rewrite Hrn'. split; [|done]. rewrite Hrn. destruct (inherits e f) eqn:Ei; [done|]. case_decide as Ed; [done|]. cbn [fst fib_after].
    destruct (effective R n f) as [r|] eqn:Er; [|done]. exfalso. apply not_true_iff_false in Ei. apply Ei, (Hinh n e f He); [|by rewrite Er]. unfold hasFaceId. rewrite Ee. cbn. unfold compareFaceId. rewrite Hface, orb_false_r. apply Z.eqb_neq. congruence.
  - intros f. cbn [rs_insert]. rewrite of_face_cons, Hface. cbn [of_face find_first]. pose proof (HAR' f) as E'. destruct (decide (face = f)) as [<-|Hf].
    + destruct (of_face A face); [done|]. split; [done|]. rewrite (effective_own R n face r0); [done|]. rewrite Hrn, of_face_cons, Hface. by rewrite decide_True.
    + pose proof (HAR f Hf) as E. destruct (of_face A f); [done|]. by rewrite <-E, <-E'.
Qed.
(** One route of a name goes, and others stay. *)
Lemma one_per_face e r r' : T !! n = Some e -> r ∈ re_routes e -> r' ∈ re_routes e -> r_faceId r = r_faceId r' -> r = r'.
Proof.
  intros He Hr Hr' Ef. destruct (Hplain n e He) as [_ Hp]. rewrite Forall_forall in Hp. destruct (Hp r Hr) as [_ Eo], (Hp r' Hr') as [_ Eo'].
  pose proof (proj2 (ri_routes _ I n e He)) as Hnd. apply list_elem_of_lookup in Hr as [i Hi], Hr' as [j Hj].
  assert (i = j) as ->; [|congruence]. apply (NoDup_lookup (route_key <$> re_routes e) i j (route_key r)); [apply Hnd|by rewrite list_lookup_fmap, Hi|]. rewrite list_lookup_fmap, Hj. cbn. unfold route_key. by rewrite Ef, Eo, Eo'.
Qed.
Lemma unregister_other e ex u : T !! n = Some e -> find_first (same_route (ru_route x)) (re_routes e) = Some ex -> (2 <= length (re_routes e))%nat -> computeUpdatesForUnregistration x s u0 = Ok u ->
  exists A u1, getAncestorRoutes e s = Ok A /\ modifyChildrensInheritedRoutes (re_children e) A (rs_insert ex []) s (addFibUpdate (createRemoveUpdate n face) u0) = Ok u1 /\
    u = match rs_find ex A with Some r => addInherited n r u1 | None => u1 end.
Proof.
  intros He Ef Hlen. unfold computeUpdatesForUnregistration, rib_find. rewrite He, findRoute_first, Ef. pose proof (find_first_Some _ _ _ Ef) as [Hin Es].
  pose proof (proj1 (same_route_spec _ _) Es) as [= Hface _]. pose proof (Hplain n e He) as Hp. assert (Hp0 : plain_route o ex) by (destruct Hp as [_ Hp]; rewrite Forall_forall in Hp; by apply Hp).
  assert (isRibCapture ex = false) as Hcap by (unfold isRibCapture; by rewrite (proj1 Hp0)).
  assert (Et : exists l, eraseRoute (ru_route x) e = with_routes l 0 e /\ S (length l) = length (re_routes e)).
  { unfold eraseRoute. rewrite findRoute_first, Ef, Hcap, (proj1 Hp). eexists. split; [done|]. clear -Ef. induction (re_routes e) as [|y l IH]; [done|]. cbn in Ef |- *.
    change (compareFaceIdAndOrigin y (ru_route x)) with (same_route (ru_route x) y). destruct (same_route (ru_route x) y); [done|]. cbn. by rewrite IH. }
  destruct Et as (l & Et & Hl). rewrite Et. unfold createFibUpdatesForErasedRoute. rewrite (plain_inherits o ex Hp0), Hcap. cbn [andb]. change (hasCapture (with_routes l 0 e)) with false. cbn [negb].
  change (getAncestorRoutes (with_routes l 0 e) s) with (getAncestorRoutes e s). destruct (getAncestorRoutes e s) as [A|]; [|done]. cbn [mbind result_bind].
  change (re_children (with_routes l 0 e)) with (re_children e). change (re_name (with_routes l 0 e)) with (re_name e). rewrite (tr_name _ (ri_tree _ I) n e He), Hface.
  destruct (modifyChildrensInheritedRoutes _ _ _ s _) as [u1|] eqn:Eu; [|done]. cbn [mbind result_bind].
  assert ((getNRoutes (with_routes l 0 e) =? 0) = false) as -> by (unfold getNRoutes, zlen; cbn; apply Z.eqb_neq; lia). cbn [negb andb].
  assert (getRouteWithSecondLowestCostByFaceId face e = None) as ->.
  { unfold getRouteWithSecondLowestCostByFaceId. assert (Hnd : NoDup (filter (fun r => compareFaceId face r = true) (re_routes e))) by (apply NoDup_filter, (NoDup_fmap_1 route_key), (ri_routes _ I n e He)).
    assert (Hm : forall r, r ∈ filter (fun r => compareFaceId face r = true) (re_routes e) -> r ∈ re_routes e /\ r_faceId r = face) by (intros r [Hf Hr]%list_elem_of_filter; split; [done|by apply Z.eqb_eq]).
    destruct (filter _ (re_routes e)) as [|a [|b k]]; [done|done|exfalso]. apply NoDup_cons in Hnd as [Ha _]. apply Ha.
    destruct (Hm a) as [Ra Fa]; [by left|]. destruct (Hm b) as [Rb Fb]; [right; by left|]. rewrite (one_per_face e a b He Ra Rb); [by left|congruence]. }
  assert ((getNRoutes e =? 1) = false) as -> by (unfold getNRoutes, zlen; apply Z.eqb_neq; lia). cbn [mbind result_bind]. intros [= <-]. by exists A, u1.
Qed.
(** What the prefixes of a name provide without the name itself. *)
Definition above (R : Name -> list Route) (m : Name) (f : Z) : option Route := effective (fun q => if decide (q = m) then [] else R q) m f.
(** Descendants get the route from above for a face, although the name keeps its own. *)
Lemma unregister_other_view e ex u m h ra : T !! n = Some e -> find_first (same_route (ru_route x)) (re_routes e) = Some ex -> (2 <= length (re_routes e))%nat -> computeUpdatesForUnregistration x s u0 = Ok u ->
  reached s strict n m h -> above R n h = Some ra -> (view u m h).1 = Some (Some (r_cost ra)).
Proof.
  intros He Ef Hlen (A & u1 & EA & Eu & ->)%(unregister_other e ex u He Ef Hlen) Hr Ha.
  destruct (nearest_view o s (ri_tree _ I) Hplain n _ A (S (length (re_name e))) (tr_nearest _ (ri_tree _ I) n e He) EA) as (HA & _ & HAf).
  pose proof (children_view o s (ri_tree _ I) Hplain n _ A _ _ u1 (children_tops s (ri_tree _ I) n e He) Eu HA (single_sets _)) as Hv.
  assert (HAh : of_face A h = Some ra). { rewrite <-Ha. unfold above. apply HAf; [intros q Hq; by rewrite decide_False|]. by rewrite decide_True. }
  assert (Hm : m <> n) by (intros ->; by apply (not_reached_self h)).
  assert (Hv1 : view u1 m h = added ra) by (rewrite Hv, decide_True by done; unfold effect_at; by rewrite HAh).
  destruct (rs_find ex A) as [r|]; [rewrite view_addInherited, decide_False; [by rewrite Hv1|congruence]|by rewrite Hv1].
Qed.
Lemma unregister_good u : ru_action x = UNREGISTER -> computeUpdatesForUnregistration x s u0 = Ok u -> forall m f, good_at m f (view u m f).
Proof.
  intros Ha E. pose proof Hx as Hx0. unfold plain_update in Hx0. rewrite Ha in Hx0. pose proof E as E0. revert E. unfold computeUpdatesForUnregistration, rib_find.
  assert (Hsame : R' n = R n -> forall m f, good_at m f (view u0 m f)).
  { intros E. assert (Hef : forall m f, effective R' m f = effective R m f) by (intros m f; apply (effective_face R _ n); [apply other_name|by rewrite E]).
    apply (good_intro _ [] []); [intros m f Hm; rewrite view_start; by destruct (decide _)| |intros f; cbn [of_face find_first]; by rewrite Hef].
    intros f. rewrite view_start. unfold good_at, wanted. rewrite E, Hef. split; [done|]. apply inherits_ok. }
  assert (Er : R' n = erase_first (same_route (ru_route x)) (R n)) by (unfold update_routes; by rewrite decide_True, Ha).
  destruct (T !! n) as [e|] eqn:He; [|intros [= <-]; apply Hsame; rewrite Er; unfold routes_of; by rewrite He].
  pose proof (routes_at n e He) as Hrn. rewrite findRoute_first. destruct (find_first (same_route (ru_route x)) (re_routes e)) as [ex|] eqn:Ef.
  2:{ intros [= <-]. apply Hsame. rewrite Er, Hrn. by apply erase_first_not_found. }
  intros _. destruct (re_routes e) as [|r0 [|]] eqn:Ee; [done| |rewrite Hrn in Hx0; cbn in Hx0; lia]. cbn in Ef. destruct (same_route (ru_route x) r0) eqn:Es; [|done]. by apply (unregister_last_good u e r0).
Qed.

(** Every update of this kind has the right effect. *)
Lemma update_good u : computeUpdate s (Ok u0) x = Ok u -> forall m f, good_at m f (view u m f).
Proof.
  unfold computeUpdate. cbn [mbind result_bind]. destruct (ru_action x) eqn:Ea; intros E; [|by apply unregister_good|].
  - destruct (T !! n) as [e|] eqn:He; [|by apply new_entry_good]. destruct (findRoute (ru_route x) e) as [ex|] eqn:Ef; [by apply (updated_route_good u e ex)|by apply (new_route_good u e)].
  - unfold plain_update in Hx. by rewrite Ea in Hx.
Qed.
End update.

(** ** The RIB after the update *)
Lemma modify_content n f s s' : (forall e, content (f e) = content e) -> rib_modify n f s = Ok s' -> content <$> rib_table s' = content <$> rib_table s.
Proof.
  intros Hf. unfold rib_modify, rib_deref. destruct (rib_table s !! n) as [e|] eqn:He; [|done]. cbn [mbind result_bind]. intros [= <-]. cbn. rewrite fmap_insert, Hf. apply insert_id. by rewrite lookup_fmap, He.
Qed.
Lemma addChild_content n c s s' : addChild n c s = Ok s' -> content <$> rib_table s' = content <$> rib_table s.
Proof.
  unfold addChild. destruct (rib_deref c s) as [ec|]; [|done]. cbn [mbind result_bind]. destruct (negb _); [|done]. destruct (rib_modify c _ s) as [s1|] eqn:E1; [|done]. cbn [mbind result_bind]. intros E2.
  apply modify_content in E1; [|done]. apply modify_content in E2; [|done]. congruence.
Qed.
Lemma removeChild_content n c s s' : removeChild n c s = Ok s' -> content <$> rib_table s' = content <$> rib_table s.
Proof.
  unfold removeChild. destruct (rib_deref c s) as [ec|]; [|done]. cbn [mbind result_bind]. destruct (bool_decide _); [|done]. destruct (rib_modify c _ s) as [s1|] eqn:E1; [|done]. cbn [mbind result_bind]. intros E2.
  apply modify_content in E1; [|done]. apply modify_content in E2; [|done]. congruence.
Qed.
Lemma adopt_content n p l : forall s s', adopt n p l s = Ok s' -> content <$> rib_table s' = content <$> rib_table s.
Proof.
  induction l as [|c l IH]; intros s s'; cbn [adopt]; [by intros [= <-]|]. destruct (rib_deref c s) as [ec|]; [|done]. cbn [mbind result_bind].
  destruct (if bool_decide _ then _ else _) as [s1|] eqn:E1; [|done]. cbn [mbind result_bind]. intros ->%IH. case_bool_decide; [|by injection E1 as <-].
  destruct (match p with Some p => removeChild p c s | None => Ok s end) as [s2|] eqn:E2; [|done]. cbn [mbind result_bind] in E1. apply addChild_content in E1. rewrite E1. destruct p; [by apply removeChild_content in E2|by injection E2 as <-].
Qed.
Lemma hand_over_content n p l : forall s s', hand_over n p l s = Ok s' -> content <$> rib_table s' = content <$> rib_table s.
Proof.
  induction l as [|c l IH]; intros s s'; cbn [hand_over]; [by intros [= <-]|]. destruct (removeChild n c s) as [s1|] eqn:E1; [|done]. cbn [mbind result_bind].
  destruct (match p with Some p => addChild p c s1 | None => Ok s1 end) as [s2|] eqn:E2; [|done]. cbn [mbind result_bind]. intros ->%IH. apply removeChild_content in E1. rewrite <-E1. destruct p; [by apply addChild_content in E2|by injection E2 as <-].
Qed.

(** The entry of a name after a registration. *)
Definition entry_with (r : Route) (n : Name) (o : option RibEntry) : RibEntry :=
  match o with
  | Some e => match findRoute r e with None => (insertRoute r e).2 | Some _ => assignRoute r e end
  | None => (insertRoute r (RibEntry_new n)).2
  end.
Lemma insert_content n r s s' : rib_insert n r s = Ok s' -> content <$> rib_table s' = <[n := content (entry_with r n (rib_table s !! n))]> (content <$> rib_table s).
Proof.
  unfold rib_insert, rib_find. destruct (rib_table s !! n) as [e|] eqn:He; cbn [entry_with].
  - unfold insertRoute. destruct (findRoute r e); intros [= <-]; cbn; by rewrite fmap_insert.
  - set (s1 := with_nItems _ _). rewrite (modify_ok n s1 (RibEntry_new n)) by apply lookup_insert_eq. cbn [mbind result_bind]. set (s2 := on_table _ s1).
    assert (E2 : content <$> rib_table s2 = <[n := content (insertRoute r (RibEntry_new n)).2]> (content <$> rib_table s)) by (cbn; by rewrite insert_insert_eq, fmap_insert).
    destruct (match findParent n s2 with Some p => addChild p n s2 | None => Ok s2 end) as [s3|] eqn:E3; [|done]. cbn [mbind result_bind]. destruct (adopt _ _ _ s3) as [s4|] eqn:E4; [|done]. cbn [mbind result_bind].
    intros [= <-]. cbn [signal on_faceMap rib_table]. apply adopt_content in E4. rewrite E4, <-E2. destruct (findParent n s2); [by apply addChild_content in E3|by injection E3 as <-].
Qed.
Lemma erase_content n r s s' m c : rib_erase n r s = Ok s' -> (content <$> rib_table s') !! m = Some c ->
  exists e, rib_table s !! m = Some e /\ (c = content e \/ (m = n /\ c = content (eraseRoute r e))).
Proof.
  unfold rib_erase, rib_find. destruct (rib_table s !! n) as [e|] eqn:He; [|intros [= <-]; rewrite lookup_fmap; intros (e & He' & ->)%fmap_Some; eauto].
  destruct (findRoute r e) as [old|]; [|intros [= <-]; rewrite lookup_fmap; intros (e' & He' & ->)%fmap_Some; eauto]. set (s1 := if negb _ then _ else _).
  assert (E1 : rib_table s1 = <[n := eraseRoute r e]> (rib_table s)) by (unfold s1; by destruct (negb _)).
  assert (Hback : forall (T : gmap Name RibEntry), T = <[n := eraseRoute r e]> (rib_table s) \/ T = delete n (<[n := eraseRoute r e]> (rib_table s)) -> (content <$> T) !! m = Some c -> exists e, rib_table s !! m = Some e /\ (c = content e \/ (m = n /\ c = content (eraseRoute r e)))).
  { intros T HT. rewrite lookup_fmap. intros (x & Hx & ->)%fmap_Some. assert (<[n := eraseRoute r e]> (rib_table s) !! m = Some x) as Hm by (destruct HT as [->| ->]; [done|by apply lookup_delete_Some in Hx as [_ ?]]).
    apply lookup_insert_Some in Hm as [[<- <-]|[_ Hm]]; [exists e; auto|eauto]. }
  case_bool_decide; [|intros [= <-]; apply Hback; by left]. unfold eraseEntry, rib_deref. rewrite E1, lookup_insert_eq. cbn [mbind result_bind].
  destruct (match re_parent (eraseRoute r e) with Some p => removeChild p n s1 | None => Ok s1 end) as [s2|] eqn:E2; [|done]. cbn [mbind result_bind]. destruct (hand_over _ _ _ s2) as [s3|] eqn:E3; [|done]. cbn [mbind result_bind].
  intros [= <-]. cbn [signal on_table rib_table]. assert (content <$> rib_table s3 = content <$> rib_table s1) as Ec by (apply hand_over_content in E3; rewrite E3; destruct (re_parent _); [by apply removeChild_content in E2|by injection E2 as <-]).
  rewrite fmap_delete, Ec, E1, <-fmap_delete. apply Hback. by right.
Qed.

(** What is kept of the entries. *)
Lemma content_extra e e' : content e' = content e -> re_routes e' = re_routes e /\ re_inheritedRoutes e' = re_inheritedRoutes e /\ re_nRoutesWithCaptureSet e' = re_nRoutesWithCaptureSet e.
Proof. destruct e, e'. by intros [=]. Qed.
Lemma update_kept o s s1 x : (forall n e, rib_table s !! n = Some e -> plain o e) -> plain_update o (routes_of s) x -> apply_update (Ok s) x = Ok s1 ->
  forall m e1, rib_table s1 !! m = Some e1 -> plain o e1 /\ forall f, inherits e1 f = inherits_at s m f.
Proof.
  intros Hp Hx. unfold apply_update. cbn [mbind result_bind]. unfold plain_update in Hx.
  assert (Her : rib_erase (ru_name x) (ru_route x) s = Ok s1 -> forall m e1, rib_table s1 !! m = Some e1 -> plain o e1 /\ forall f, inherits e1 f = inherits_at s m f).
  { intros E m e1 H1. destruct (erase_content _ _ _ _ m (content e1) E) as (e & He & Hc); [by rewrite lookup_fmap, H1|]. unfold inherits_at, inherits, plain. rewrite He. destruct (Hp m e He) as [Hn Hr].
    destruct Hc as [(-> & -> & ->)%content_extra|[-> (-> & -> & ->)%content_extra]]; [done|]. unfold eraseRoute. destruct (findRoute _ e) as [r|] eqn:Ef; [|done]. cbn. split; [|done]. apply find_first_Some in Ef as [Hin _].
    pose proof Hr as Hr'. rewrite Forall_forall in Hr'. assert (isRibCapture r = false) as -> by (unfold isRibCapture; by rewrite (proj1 (Hr' r Hin))). split; [done|]. apply Forall_forall. intros y Hy%elem_of_erase_first. auto. }
  destruct (ru_action x); [|done|done]. clear Her. intros E m e1 H1. apply insert_content in E. pose proof (f_equal (lookup m) E) as Em. rewrite lookup_fmap, H1 in Em. cbn in Em. destruct (decide (m = ru_name x)) as [->|Hm].
  - rewrite lookup_insert_eq in Em. apply (inj Some) in Em. pose proof (content_extra _ _ Em) as (Er & Ei & Ec). unfold inherits_at, inherits, plain. rewrite Er, Ei, Ec.
    assert (isRibCapture (ru_route x) = false) as Hcap by (unfold isRibCapture; by rewrite (proj1 Hx)). destruct (rib_table s !! ru_name x) as [e|] eqn:He; unfold entry_with, insertRoute, assignRoute.
    + destruct (Hp _ e He) as [Hn Hr]. destruct (findRoute (ru_route x) e) as [r|]; cbn; rewrite ?Hcap; (split; [split; [done|]|done]); [|apply Forall_app; by split; [|constructor]].
      clear -Hr Hx. induction Hr as [|y l Hy Hl IH]; cbn; [constructor|]. destruct (compareFaceIdAndOrigin y (ru_route x)); by constructor.
    + cbn. rewrite Hcap. split; [split; [done|by constructor]|done].
  - rewrite lookup_insert_ne, lookup_fmap in Em by done. symmetry in Em. apply fmap_Some in Em as (e & He & Ee). apply content_extra in Ee as (Er & Ei & Ec). unfold inherits_at, inherits, plain. rewrite He, Er, Ei, Ec. split; [by apply (Hp m)|done].
Qed.
Lemma inherited_kept l : forall s s', modifyInheritedRoutes l s = Ok s' -> forall m e', rib_table s' !! m = Some e' -> exists e, rib_table s !! m = Some e /\
  re_routes e' = re_routes e /\ re_nRoutesWithCaptureSet e' = re_nRoutesWithCaptureSet e /\ forall f, inherits e' f = match inherit_view l m f with Some b => b | None => inherits e f end.
Proof.
  unfold modifyInheritedRoutes, inherit_view. induction l as [|x l IH] using rev_ind; intros s s'; [intros [= <-] m e He; by exists e|]. rewrite foldl_snoc.
  destruct (foldl modify_inherited (Ok s) l) as [t|] eqn:Et; [|done]. intros E m e' He'. setoid_rewrite foldl_snoc. unfold modify_inherited in E. cbn [mbind result_bind] in E. unfold rib_find in E.
  destruct (rib_table t !! ru_name x) as [ex|] eqn:Hex; [|done]. cbn [is_some] in E.
  assert (exists et, rib_table t !! m = Some et /\ re_routes e' = re_routes et /\ re_nRoutesWithCaptureSet e' = re_nRoutesWithCaptureSet et /\
    forall f, inherits e' f = match ru_action x with REGISTER => if concerns m f x then true else inherits et f | UNREGISTER => if concerns m f x then false else inherits et f | REMOVE_FACE => inherits et f end) as (et & Het & E1 & E2 & E3).
  { destruct (ru_action x); [rewrite (modify_ok _ _ ex) in E by done|rewrite (modify_ok _ _ ex) in E by done|injection E as <-; by exists e']; injection E as <-; cbn in He'; apply lookup_insert_Some in He' as [[<- <-]|[Hne He']].
    - exists ex. split; [done|]. split; [done|]. split; [done|]. intros f. unfold inherits, concerns. cbn. rewrite existsb_app. cbn. unfold compareFaceId at 2. rewrite orb_false_r. destruct (Z.eqb_spec (r_faceId (ru_route x)) f) as [->|Hf]; [by rewrite bool_decide_true, orb_true_r|rewrite bool_decide_false, orb_false_r; [done|congruence]].
    - exists e'. split; [done|]. split; [done|]. split; [done|]. intros f. unfold concerns. rewrite bool_decide_false; [done|congruence].
    - exists ex. split; [done|]. split; [done|]. split; [done|]. intros f. unfold inherits, concerns. cbn. apply eq_bool_prop_intro. destruct (decide (r_faceId (ru_route x) = f)) as [->|Hf].
      + rewrite bool_decide_true by done. split; [|done]. rewrite Is_true_true, existsb_exists. intros (y & Hy & Hyf). apply list_elem_of_In, list_elem_of_filter in Hy as [Hy _]. congruence.
      + rewrite bool_decide_false by congruence. rewrite !Is_true_true, !existsb_exists. split; intros (y & Hy & Hyf); exists y; (split; [|done]); apply list_elem_of_In in Hy; apply list_elem_of_In; [by apply list_elem_of_filter in Hy as [_ ?]|].
        apply list_elem_of_filter. split; [|done]. unfold compareFaceId in *. apply Z.eqb_eq in Hyf. apply Z.eqb_neq. congruence.
    - exists e'. split; [done|]. split; [done|]. split; [done|]. intros f. unfold concerns. rewrite bool_decide_false; [done|congruence]. }
  destruct (IH s t Et m et Het) as (e & He & F1 & F2 & F3). exists e. split; [done|]. split; [congruence|]. split; [congruence|]. intros f. rewrite E3, F3. set (v := foldl (inherit_step m f) None l). unfold inherit_step. destruct (concerns m f x), (ru_action x); try done; by destruct v.
Qed.

(** ** The FIB *)
Definition fib_apply (fib : Name -> Z -> option Z) (x : FibUpdate) : Name -> Z -> option Z :=
  fun m f => if decide (target x = (m, f)) then fib_effect x else fib m f.
Lemma fib_apply_all l : NoDup (target <$> l) -> forall fib m f, foldl fib_apply fib l m f = fib_after (fib_effect <$> find_first (targets m f) l) (fib m f).
Proof.
  induction l as [|x l IH]; intros Hnd fib m f; cbn [foldl find_first]; [done|]. cbn in Hnd. apply NoDup_cons in Hnd as [Hx Hnd]. rewrite IH by done. unfold targets at 2, fib_apply. case_decide as E; [rewrite bool_decide_true by done|by rewrite bool_decide_false].
  destruct (find_first (targets m f) l) as [y|] eqn:Ey; [|done]. apply find_first_Some in Ey as [Hy Et%bool_decide_eq_true]. exfalso. apply Hx. rewrite E, <-Et. by apply list_elem_of_fmap_2.
Qed.
Lemma find_target l m f y : NoDup (target <$> l) -> find_first (targets m f) l = Some y <-> y ∈ l /\ target y = (m, f).
Proof.
  intros Hnd. split; [intros [Hy Et%bool_decide_eq_true]%find_first_Some; done|]. intros [Hy Et]. induction Hy as [y l|y z l Hy IH]; cbn.
  - unfold targets. by rewrite bool_decide_true.
  - cbn in Hnd. apply NoDup_cons in Hnd as [Hz Hnd]. unfold targets at 1. rewrite bool_decide_false; [by apply IH|]. intros Ez. apply Hz. rewrite Ez, <-Et. by apply list_elem_of_fmap_2.
Qed.
(** In whatever order the updates reach the FIB. *)
Lemma fib_apply_view b Q P u l fib m f : uwf b Q P u -> l ≡ₚ u_updatesForBatchFaceId u ++ u_updatesForNonBatchFaceId u ->
  NoDup (target <$> l) /\ foldl fib_apply fib l m f = fib_after (view u m f).1 (fib m f).
Proof.
  intros [W1 W2 W3 W4 W5 W6] Hl. rewrite Forall_forall in W2, W3. assert (Hnd : NoDup (target <$> l)).
  { rewrite Hl, fmap_app. apply NoDup_app. split; [done|]. split; [|done]. intros t (y & -> & Hy)%list_elem_of_fmap (z & Ez & Hz)%list_elem_of_fmap. apply W2 in Hy as [Hy _]. apply W3 in Hz as [Hz _]. apply Hz. injection Ez as _ Ef. congruence. }
  split; [done|]. rewrite fib_apply_all by done. f_equal. unfold view, fib_view. cbn [fst]. f_equal. rewrite W1.
  assert (Hin : forall y, target y = (m, f) -> (y ∈ l <-> y ∈ if f =? b then u_updatesForBatchFaceId u else u_updatesForNonBatchFaceId u)).
  { intros y [= <- <-]. rewrite Hl, elem_of_app. destruct (Z.eqb_spec (fu_faceId y) b) as [E|E]; (split; [|auto]); intros [Hy|Hy]; try done; [by apply W3 in Hy as [? _]|by apply W2 in Hy as [? _]]. }
  assert (Hnd' : NoDup (target <$> if f =? b then u_updatesForBatchFaceId u else u_updatesForNonBatchFaceId u)) by (by destruct (f =? b)).
  apply option_eq. intros y. rewrite (find_target _ m f y Hnd), (find_target _ m f y Hnd'). split; intros [Hy Et]; (split; [by apply Hin|done]).
Qed.

Lemma of_face_erase_first r l h : h <> r_faceId r -> of_face (erase_first (same_route r) l) h = of_face l h.
Proof.
  intros Hh. induction l as [|y l IH]; [done|]. cbn [erase_first]. destruct (same_route r y) eqn:Es; rewrite !of_face_cons; [|by rewrite IH].
  apply same_route_spec in Es as [= Hf _]. rewrite decide_False; [done|congruence].
Qed.

Section made.
Context `{StdSort} (o : Z).

(** The RIB and the FIB after updates of this kind, each with its FIB updates in any order. *)
Inductive made : Rib -> (Name -> Z -> option Z) -> Prop :=
  | made_new : made Rib_new (fun _ _ => None)
  | made_update s fib x u l s1 s2 : made s fib -> plain_update o (routes_of s) x ->
      computeUpdates (mkRibUpdateBatch (r_faceId (ru_route x)) [x]) s (mkFibUpdater (r_faceId (ru_route x)) [] [] []) = Ok u ->
      l ≡ₚ u_updatesForBatchFaceId u ++ u_updatesForNonBatchFaceId u ->
      apply_update (Ok s) x = Ok s1 -> modifyInheritedRoutes (u_inheritedRoutes u) s1 = Ok s2 -> made s2 (foldl fib_apply fib l).

Record made_inv (s : Rib) (fib : Name -> Z -> option Z) : Prop := {
  md_rib : rib_inv s;
  md_plain n e : rib_table s !! n = Some e -> plain o e;
  md_fib n f : fib n f = wanted (routes_of s) n f;
  md_inherited n e f : rib_table s !! n = Some e -> hasFaceId f e = false -> effective (routes_of s) n f <> None -> inherits e f = true;
}.
Lemma wanted_ext R R' n f : (forall m, R' m = R m) -> wanted R' n f = wanted R n f /\ effective R' n f = effective R n f.
Proof. intros E. assert (effective R' n f = effective R n f) as Ee by (apply (effective_face R R' n); [by intros m _|by rewrite E]). unfold wanted. by rewrite E, Ee. Qed.
Lemma plain_not_null s x : rib_inv s -> (forall n e, rib_table s !! n = Some e -> plain o e) -> plain_update o (routes_of s) x -> update_follows_null x s = false.
Proof.
  intros I Hp Hx. unfold update_follows_null, rib_find. destruct (ru_action x) eqn:Ea; [|done|done]. pose proof Hx as Hx0. unfold plain_update in Hx0. rewrite Ea in Hx0. destruct (rib_table s !! ru_name x) as [e|] eqn:He; [|done].
  destruct (findRoute (ru_route x) e) as [ex|] eqn:Ef; [|done]. apply andb_false_iff. right. unfold follows_null. destruct (getRouteWithLowestCostByFaceId _ _) as [low|] eqn:El; [|done].
  apply lowest_loop_In in El as [?|[Hl Hlf%Z.eqb_eq]]; [done|]. rewrite (copy_cost o s I Hp x e ex He) by (done || (eapply Forall_impl; [exact (proj2 (Hp _ e He))|]; intros r [_ ->]; by destruct Hx0 as [_ ->])). by rewrite Z.ltb_irrefl.
Qed.
Lemma made_step s fib x : made_inv s fib -> plain_update o (routes_of s) x ->
  exists u s1 s2, computeUpdates (mkRibUpdateBatch (r_faceId (ru_route x)) [x]) s (mkFibUpdater (r_faceId (ru_route x)) [] [] []) = Ok u /\
    apply_update (Ok s) x = Ok s1 /\ modifyInheritedRoutes (u_inheritedRoutes u) s1 = Ok s2 /\
    forall l, l ≡ₚ u_updatesForBatchFaceId u ++ u_updatesForNonBatchFaceId u -> made_inv s2 (foldl fib_apply fib l).
Proof.
  intros [I Hp Hfib Hi] Hx. pose proof (computeUpdate_ok s I (r_faceId (ru_route x)) x _ (batch_wf _ _ _)) as Hc. rewrite (plain_not_null s x I Hp Hx) in Hc. destruct Hc as (u & Eu & W).
  destruct (apply_update_ok s x I) as (s1 & E1 & I1 & R1). destruct (modifyInheritedRoutes_ok (u_inheritedRoutes u) s1 I1) as (s2 & E2 & I2 & R2).
  { eapply Forall_impl; [exact (uw_inherited _ _ _ _ W)|]. intros y. cbn. by rewrite R1. }
  exists u, s1, s2. split; [exact Eu|]. split; [done|]. split; [done|]. intros l Hl. pose proof (update_good o s I Hp Hi x Hx u Eu) as Hg. assert (HR : forall m, routes_of s2 m = update_routes x (routes_of s) m) by (intros m; by rewrite R2, R1).
  assert (Hkeep : forall m e2, rib_table s2 !! m = Some e2 -> plain o e2 /\ forall f, inherits e2 f = match (view u m f).2 with Some b => b | None => inherits_at s m f end).
  { intros m e2 H2. destruct (inherited_kept _ _ _ E2 m e2 H2) as (e1 & H1 & Er & Ec & Ei). destruct (update_kept o s s1 x Hp Hx E1 m e1 H1) as [[Hn Hr] Hin]. split; [split; congruence|]. intros f. rewrite Ei. cbn. by rewrite Hin. }
  split; [done| | |].
  - intros n e He. by apply (Hkeep n).
  - intros n f. rewrite (proj2 (fib_apply_view _ _ _ u l fib n f W Hl)), Hfib. destruct (Hg n f) as [-> _]. symmetry. by apply wanted_ext.
  - intros n e f He Hf Hne. destruct (Hkeep n e He) as [_ ->]. destruct (Hg n f) as [_ H2]. apply H2; rewrite <-?HR.
    + apply (registered_routes s2 n I2). by eexists.
    + unfold routes_of. rewrite He. by apply of_face_None.
    + by rewrite <-(proj2 (wanted_ext _ _ n f HR)).
Qed.

(** The next hop of a descendant is right before a route of [n] goes, and wrong after. *)
Lemma kept_overridden s fib x m h r2 ra : made_inv s fib -> ru_action x = UNREGISTER -> find_first (same_route (ru_route x)) (routes_of s (ru_name x)) <> None ->
  h <> r_faceId (ru_route x) -> of_face (routes_of s (ru_name x)) h = Some r2 -> above (routes_of s) (ru_name x) h = Some ra ->
  routes_of s m <> [] -> strict (ru_name x) m -> (forall p, strict (ru_name x) p -> p `prefix_of` m -> of_face (routes_of s p) h = None) ->
  exists u s1 s2, computeUpdates (mkRibUpdateBatch (r_faceId (ru_route x)) [x]) s (mkFibUpdater (r_faceId (ru_route x)) [] [] []) = Ok u /\
    apply_update (Ok s) x = Ok s1 /\ modifyInheritedRoutes (u_inheritedRoutes u) s1 = Ok s2 /\
    fib m h = Some (r_cost r2) /\ wanted (routes_of s2) m h = Some (r_cost r2) /\
    forall l, l ≡ₚ u_updatesForBatchFaceId u ++ u_updatesForNonBatchFaceId u -> foldl fib_apply fib l m h = Some (r_cost ra).
Proof.
  intros [I Hp Hfib _] Ha Hex Hh Hown Hab Hm Hst Hfree. set (n := ru_name x) in *.
  pose proof (computeUpdate_ok s I (r_faceId (ru_route x)) x _ (batch_wf _ _ _)) as Hc. assert (update_follows_null x s = false) as Hnull by (unfold update_follows_null; by rewrite Ha). rewrite Hnull in Hc. destruct Hc as (u & Eu & W).
  destruct (apply_update_ok s x I) as (s1 & E1 & I1 & R1). destruct (modifyInheritedRoutes_ok (u_inheritedRoutes u) s1 I1) as (s2 & E2 & I2 & R2).
  { eapply Forall_impl; [exact (uw_inherited _ _ _ _ W)|]. intros y. cbn. by rewrite R1. }
  destruct (find_first (same_route (ru_route x)) (routes_of s n)) as [ex|] eqn:Ef; [|done].
  destruct (rib_table s !! n) as [e|] eqn:He; [|unfold routes_of in Ef; by rewrite He in Ef].
  pose proof (routes_at s n e He) as Hrn. assert (Hr' : update_routes x (routes_of s) n = erase_first (same_route (ru_route x)) (routes_of s n)) by (unfold update_routes; by rewrite decide_True, Ha).
  assert (Hother : forall q, q <> n -> update_routes x (routes_of s) q = routes_of s q) by (intros q; apply other_name).
  assert (Hpath : forall q, strict n q -> q `prefix_of` m -> of_face (update_routes x (routes_of s) q) h = None) by (intros q Hq Hqm; rewrite Hother; [by apply Hfree|intros ->; by apply strict_irrefl in Hq]).
  assert (Hown' : of_face (update_routes x (routes_of s) n) h = Some r2) by (by rewrite Hr', of_face_erase_first).
  assert (Hlen : (2 <= length (re_routes e))%nat).
  { rewrite <-Hrn. apply find_first_Some in Ef as [Hin Es]. apply of_face_Some in Hown as [Hin2 Hf2]. apply same_route_spec in Es as [= Hf _].
    destruct (routes_of s n) as [|a [|b k]]; [by apply elem_of_nil in Hin| |cbn; lia]. apply list_elem_of_singleton in Hin, Hin2. congruence. }
  exists u, s1, s2. split; [exact Eu|]. split; [done|]. split; [done|]. split; [|split].
  - rewrite Hfib. unfold wanted. rewrite (effective_through _ n m h), (effective_own _ n h r2) by (done || apply Hst). by destruct (routes_of s m).
  - rewrite (proj1 (wanted_ext (update_routes x (routes_of s)) (routes_of s2) m h (fun q => eq_trans (R2 q) (R1 q)))). unfold wanted.
    rewrite (effective_through _ n m h), (effective_own _ n h r2), (Hother m) by (done || apply Hst || (intros ->; by apply strict_irrefl in Hst)). by destruct (routes_of s m).
  - intros l Hl. rewrite (proj2 (fib_apply_view _ _ _ u l fib m h W Hl)).
    rewrite (unregister_other_view o s I Hp x e ex u m h ra); [done|done|by rewrite <-Hrn|done| | |done].
    + unfold computeUpdates, computeUpdate in Eu. cbn [b_updates foldl mbind result_bind] in Eu. by rewrite Ha in Eu.
    + split; [by apply registered_routes|]. split; [done|]. intros p Hnp Hpm. apply has_face_spec. by apply Hfree.
Qed.
End made.
