(* ===== verification/RibProps.v ===== *)
(** * Properties of the RIB, its queue and its FIB updates *)

From stdpp Require Import base gmap list strings.
From Stdlib Require Import ZArith Lia.
From S2P Require Import Prelude Ndn Data Scheduler NfdTables Fib Rib RibInv FibUpdater FibUpdaterInv RibQueue RibQueueInv RibInherit RibFib.

Local Open Scope Z_scope.

(** ** The table *)
Lemma rib_new_inv : rib_inv Rib_new.
Proof.
  split; [split; [|split|]|..]; try (by intros * E; cbn in E; rewrite ?lookup_empty in E).
  - intros f n. cbn. rewrite lookup_empty. split; [by intros ?%elem_of_nil|by intros (e & E & _)].
  - done.
Qed.
Definition routes_after (l : list RibUpdate) : Name -> list Route := foldl (fun f x => update_routes x f) (fun _ => []) l.
Lemma updates_ok l : exists s, foldl apply_update (Ok Rib_new) l = Ok s /\ rib_inv s /\ forall m, routes_of s m = routes_after l m.
Proof.
  induction l as [|x l IH] using rev_ind; [exists Rib_new; split; [done|]; split; [apply rib_new_inv|done]|].
  destruct IH as (s & E & I & R). rewrite foldl_snoc, E. destruct (apply_update_ok s x I) as (s' & E' & I' & R'). exists s'. split; [done|]. split; [done|].
  intros m. rewrite R'. unfold routes_after. rewrite foldl_snoc. by apply update_routes_ext.
Qed.

Lemma find_faces_ok f s l : rib_inv s -> (forall n, n ∈ l -> is_Some (rib_table s !! n)) ->
  exists k, foldr (fun name r => let* rest := r in let* e := rib_deref name s in
      Ok (((fun route => (re_name e, route)) <$> filter (fun route => r_faceId route = f) (re_routes e)) ++ rest)) (Ok []) l = Ok k /\
    forall n r, (n, r) ∈ k <-> n ∈ l /\ r ∈ routes_of s n /\ r_faceId r = f.
Proof.
  intros I. induction l as [|m l IH]; intros Hl; cbn [foldr].
  { exists []. split; [done|]. intros n r. rewrite !elem_of_nil. tauto. }
  destruct IH as (k & -> & Hk); [intros n Hn; apply Hl; by right|]. destruct (Hl m) as [e He]; [by left|]. cbn [mbind result_bind]. rewrite (deref_ok m s e He). cbn [mbind result_bind].
  eexists. split; [done|]. intros n r. rewrite elem_of_app, Hk, elem_of_cons, list_elem_of_fmap, (tr_name _ (ri_tree _ I) m e He). unfold routes_of. split.
  - intros [(r' & [= -> ->] & [Hf Hr]%list_elem_of_filter)|(Hn & Hr & Hf)]; [rewrite He; auto|auto].
  - intros ([->|Hn] & Hr & Hf); [left; exists r; rewrite He in Hr; by rewrite list_elem_of_filter|auto].
Qed.
Lemma findRoutesWithFaceId_ok f s : rib_inv s ->
  exists k, findRoutesWithFaceId f s = Ok k /\ forall n r, (n, r) ∈ k <-> r ∈ routes_of s n /\ r_faceId r = f.
Proof.
  intros I. destruct (find_faces_ok f s (default [] (rib_faceMap s !! f)) I) as (k & E & Hk).
  { intros n (e & He & _)%(ri_faces _ I). by eexists. }
  exists k. split; [unfold findRoutesWithFaceId; by destruct (rib_faceMap s !! f)|]. intros n r. rewrite Hk, (ri_faces _ I). split; [tauto|]. intros [Hr Hf]. split; [|done].
  unfold routes_of in Hr. destruct (rib_table s !! n) as [e|] eqn:He; [|by apply elem_of_nil in Hr]. exists e. split; [done|]. apply existsb_exists. exists r. split; [by apply list_elem_of_In|by apply Z.eqb_eq].
Qed.

(** C33: Whatever routes are inserted and erased, in whatever order, [Rib::insert]
    and [Rib::erase] return: no assertion about parents and children fails.  Afterwards every
    name has the routes it should have, one for a face and an origin; the names with routes
    are those with an entry; the parent of an entry is the entry of its longest proper prefix
    that has one, and the children are those whose parent it is; the face lookup table finds
    exactly the routes of a face; and the number of items is the number of routes. *)
Theorem rib_forest (ops : list RibUpdate) :
  exists s, foldl apply_update (Ok Rib_new) ops = Ok s /\
    (forall n, routes_of s n = routes_after ops n /\ (is_Some (rib_table s !! n) <-> routes_after ops n <> []) /\ NoDup (route_key <$> routes_after ops n)) /\
    (forall n e, rib_table s !! n = Some e -> re_name e = n /\ re_parent e = findParent n s /\ is_nearest (rib_table s) n (re_parent e) /\
      NoDup (re_children e) /\ forall c, c ∈ re_children e <-> exists ec, rib_table s !! c = Some ec /\ re_parent ec = Some n) /\
    (forall f, exists k, findRoutesWithFaceId f s = Ok k /\ forall n r, (n, r) ∈ k <-> r ∈ routes_after ops n /\ r_faceId r = f) /\
    rib_nItems s = u64 (Z.of_nat (n_routes (rib_table s))).
Proof.
  destruct (updates_ok ops) as (s & E & I & R). exists s. split; [done|]. split; [|split; [|split; [|apply I]]].
  - intros n. split; [done|]. rewrite <-R. split; [by apply registered_routes|]. unfold routes_of. destruct (rib_table s !! n) as [e|] eqn:He; [by apply (ri_routes _ I n e)|constructor].
  - intros n e He. destruct (ri_tree _ I) as [T1 T2 T3]. split; [by apply T1|]. split; [apply (is_nearest_unique (rib_table s) n); [by apply T3|by apply findParent_nearest]|].
    split; [by apply T3|]. split; [by apply (lk_children _ T2 n)|]. intros c. by apply (lk_child _ T2).
  - intros f. destruct (findRoutesWithFaceId_ok f s I) as (k & Ek & Hk). exists k. split; [done|]. intros n r. by rewrite Hk, R.
Qed.

(** ** The queue *)
Definition single_item (x : RibUpdate) (onSuccess onFailure : option nat) : UpdateQueueItem :=
  mkUpdateQueueItem (mkRibUpdateBatch (r_faceId (ru_route x)) [x]) onSuccess onFailure.
Lemma single_item_single x a b : single (single_item x a b).
Proof. by exists x. Qed.
Lemma addUpdateToQueue_ok x a b s : addUpdateToQueue x a b s = Ok (with_batches (sv_updateBatches s ++ [single_item x a b]) s).
Proof. unfold addUpdateToQueue, batch_add. cbn. by rewrite Z.eqb_refl. Qed.

(** What an event asks for. *)
Definition requested (ev : event) (s : RibService) : list UpdateQueueItem :=
  match ev with
  | Update x a b => [single_item x a b]
  | Expire n r => [single_item (mkRibUpdate UNREGISTER n r) None None]
  | RemoveFace f => match findRoutesWithFaceId f (sv_rib s) with
                    | Ok k => (fun p => single_item (mkRibUpdate REMOVE_FACE p.1 p.2) None None) <$> k
                    | Err _ => []
                    end
  | Answer _ _ => []
  end.
(** The answers that [FibUpdater] takes for the end of everything. *)
Definition is_fatal (ev : event) (s : RibService) : bool :=
  match ev with
  | Answer i (Some code) => match sv_sent s !! i with Some y => negb (recoverable y code) | None => false end
  | _ => false
  end.

Section events.
Context `{StdSort}.

Lemma beginRemoveFace_ok f s : rib_inv (sv_rib s) ->
  beginRemoveFace f s = sendBatchFromQueue (with_batches (sv_updateBatches s ++ requested (RemoveFace f) s) s).
Proof.
  intros I. unfold beginRemoveFace, requested. destruct (findRoutesWithFaceId_ok f (sv_rib s) I) as (k & -> & _). cbn [mbind result_bind].
  assert (E : forall t, foldl (fun r p => let* s := r in addUpdateToQueue (mkRibUpdate REMOVE_FACE p.1 p.2) None None s) (Ok t) k =
    Ok (with_batches (sv_updateBatches t ++ ((fun p => single_item (mkRibUpdate REMOVE_FACE p.1 p.2) None None) <$> k)) t)).
  { induction k as [|p k IH]; intros t; cbn [foldl]; [rewrite fmap_nil, app_nil_r; by destruct t|]. cbn [mbind result_bind]. rewrite addUpdateToQueue_ok, IH. cbn. by rewrite <-app_assoc. }
  by rewrite E.
Qed.
Lemma handle_ok ev s : service_inv s -> clean ev s ->
  if is_fatal ev s then handle ev s = Err (RuntimeError "FibUpdater::Error") else goes_on (handle ev s) (history s ++ requested ev s).
Proof.
  intros I Hc. destruct ev as [x a b|n r|f|i code]; cbn [is_fatal handle requested].
  - unfold beginApplyUpdate. rewrite addUpdateToQueue_ok. apply enqueue_ok; [done|]. constructor; [apply single_item_single|constructor].
  - unfold onRouteExpiration, beginApplyUpdate. rewrite addUpdateToQueue_ok. apply enqueue_ok; [done|]. constructor; [apply single_item_single|constructor].
  - rewrite beginRemoveFace_ok by apply I. apply enqueue_ok; [done|]. cbn. case_match; [|constructor]. apply Forall_fmap, Forall_true. intros p. apply single_item_single.
  - rewrite app_nil_r. destruct (sv_sent s !! i) as [y|] eqn:Hi; [|destruct code; by split].
    assert (exists item x, busy item x s) as (item & x & Hb). { destruct (si_phase _ I) as [(_ & E & _)|(item & x & Hb & _)]; [by rewrite E in Hi|by exists item, x]. }
    destruct code as [code|]; [|by apply (onUpdateSuccess_ok item x)]. pose proof (onUpdateError_ok item x s i y code I Hb Hi Hc) as He. by destruct (recoverable y code).
Qed.

(** The states of the service, with all updates it has been asked for. *)
Inductive reaches : RibService -> list UpdateQueueItem -> Prop :=
  | reaches_new : reaches RibService_new []
  | reaches_event s asked ev s' : reaches s asked -> clean ev s -> handle ev s = Ok s' -> reaches s' (asked ++ requested ev s).
Lemma service_new_inv : service_inv RibService_new.
Proof. split; [split; [apply rib_new_inv|done]|constructor|by left]. Qed.
Lemma reaches_inv s asked : reaches s asked -> service_inv s /\ history s = asked.
Proof.
  induction 1 as [|s asked ev s' _ [I Hh] Hc E]; [split; [apply service_new_inv|done]|]. pose proof (handle_ok ev s I Hc) as Ho. rewrite E in Ho. rewrite Hh in Ho. by destruct (is_fatal ev s).
Qed.

(** C30: While updates are asked for and commands are answered, in any order, the
    updates are settled one at a time and in the order they were asked for: those that have
    an outcome, the one being made, and those that wait are together what was asked for.  The
    RIB has exactly the routes that the updates which succeeded make, one after the other, and
    none of the one being made; its tree is in order.  The commands that are out belong to the
    update being made, and when no update is in progress, no command is out and none waits.
    This is for the runs in which the answer that the face of an update does not exist came
    only when no other command of the update was out ([clean]); [rejected_route_registered]
    is about the other ones. *)
Theorem rib_queue_in_order s asked : reaches s asked ->
  (sv_outcomes s).*1 ++ current s ++ sv_updateBatches s = asked /\
  rib_inv (sv_rib s) /\ (forall n, routes_of (sv_rib s) n = applied (sv_outcomes s) n) /\
  (forall y, y ∈ sv_sent s -> current s = [c_item y]) /\
  (sv_isUpdateInProgress s = false -> sv_sent s = [] /\ (sv_outcomes s).*1 = asked).
Proof.
  intros [I Hh]%reaches_inv. split; [done|]. split; [apply I|]. split; [apply I|]. destruct (si_phase _ I) as [(Hp & Es & Eb)|(item & x & Hb & Hne)].
  - rewrite Es. split; [by intros y ?%elem_of_nil|]. intros _. split; [done|]. rewrite <-Hh. unfold history, current. by rewrite Es, Eb, app_nil_r.
  - split; [|by rewrite (bs_progress _ _ _ Hb)]. intros y Hy. pose proof (bs_items _ _ _ Hb) as Hi. pose proof (proj1 (Forall_forall _ _) Hi y Hy) as ->.
    unfold current. destruct (sv_sent s); [done|]. by apply Forall_cons in Hi as [-> _].
Qed.

(** C32: In a state that such a run reaches, an event ends the program in two ways only.  An
    answer other than that the face does not exist, or the first ten timeouts of a command,
    is an error that is thrown; apart from this, no event fails except when a null pointer is
    followed for a route that is registered again with a higher cost: no assertion fails, no
    recursion runs on, and no entry is missing.  As in the run before it, the event is not the
    answer that the face of the update does not exist while another command of the update is
    out ([clean]). *)
Theorem rib_events_answered s asked ev : reaches s asked -> clean ev s ->
  if is_fatal ev s then handle ev s = Err (RuntimeError "FibUpdater::Error")
  else (exists s', handle ev s = Ok s' /\ reaches s' (asked ++ requested ev s)) \/ handle ev s = Err (UndefinedBehaviour "null route").
Proof.
  intros Hr Hc. destruct (reaches_inv s asked Hr) as [I Hh]. pose proof (handle_ok ev s I Hc) as Ho. destruct (is_fatal ev s); [done|].
  unfold goes_on in Ho. destruct (handle ev s) as [s'|e] eqn:E; [left; exists s'; split; [done|]; by apply (reaches_event s)|right; by rewrite Ho].
Qed.

(** Answering the first command that is out, again and again. *)
Fixpoint answer_all (k : nat) (s : RibService) : result RibService :=
  match k with O => Ok s | S k => let* s := handle (Answer 0 None) s in answer_all k s end.
Lemma answer_progress s : service_inv s -> ~ idle s -> match handle (Answer 0 None) s with Ok s' => service_inv s' /\ history s' = history s /\ progress s s' | Err e => e = UndefinedBehaviour "null route" end.
Proof.
  intros I Hn. destruct (si_phase _ I) as [|(item & x & Hb & Hne)]; [done|]. cbn [handle]. destruct (sv_sent s) as [|y k] eqn:Es; [done|]. cbn [lookup list_lookup].
  rewrite <-Es. destruct (onUpdateSuccess_ok item x s 0 y I Hb) as [HA HB]; [by rewrite Es|]. unfold goes_on in HA. destruct (onUpdateSuccess y _) as [s'|e] eqn:E; [|done]. destruct HA. split; [done|]. split; [done|]. by apply HB.
Qed.
Lemma drains b : forall r s, service_inv s -> (length (sv_updateBatches s) <= b)%nat -> (remaining s <= r)%nat ->
  exists k, match answer_all k s with Ok s' => service_inv s' /\ idle s' /\ history s' = history s | Err e => e = UndefinedBehaviour "null route" end.
Proof.
  induction b as [b IHb] using lt_wf_ind. induction r as [r IHr] using lt_wf_ind. intros s I Hb Hr.
  destruct (si_phase _ I) as [Hid|(item & x & Hbs & Hne)]; [by exists 0%nat|]. pose proof (answer_progress s I) as Ha.
  destruct (handle (Answer 0 None) s) as [s'|e] eqn:E.
  2:{ exists 1%nat. cbn [answer_all]. rewrite E. cbn. apply Ha. intros (Hp & _). by rewrite (bs_progress _ _ _ Hbs) in Hp. }
  destruct Ha as (I' & Eh & Hp); [intros (Hp & _); by rewrite (bs_progress _ _ _ Hbs) in Hp|].
  assert (exists k, match answer_all k s' with Ok s' => service_inv s' /\ idle s' /\ history s' = history s | Err e => e = UndefinedBehaviour "null route" end) as [k Hk].
  { rewrite <-Eh. destruct Hp as [Hid|[Hl|[El Hl]]]; [by exists 0%nat|by apply (IHb (length (sv_updateBatches s')) ltac:(lia) (remaining s'))|by apply (IHr (remaining s') ltac:(lia)); [|rewrite El|]]. }
  exists (S k). cbn [answer_all]. by rewrite E.
Qed.

(** C31: Nothing waits forever.  After a run in which the answer that the face of an update
    does not exist came only when no other command of the update was out ([clean]), if the
    commands that are out are answered with success, one after the other, then after finitely
    many answers no update is in progress, and every update that was asked for has an outcome,
    in order (unless a null pointer is followed on the way). *)
Theorem rib_queue_drains s asked : reaches s asked ->
  exists k, match answer_all k s with
            | Ok s' => idle s' /\ (sv_outcomes s').*1 = asked /\ forall n, routes_of (sv_rib s') n = applied (sv_outcomes s') n
            | Err e => e = UndefinedBehaviour "null route"
            end.
Proof.
  intros [I Hh]%reaches_inv. destruct (drains _ _ s I (le_n _) (le_n _)) as [k Hk]. exists k. destruct (answer_all k s) as [s'|e]; [|done]. destruct Hk as (I' & Hid & Eh).
  split; [done|]. split; [|apply I']. destruct Hid as (_ & Es & Eb). rewrite <-Hh, <-Eh. unfold history, current. by rewrite Es, Eb, app_nil_r.
Qed.

(** Computing the FIB updates for an update of the RIB follows a null pointer
    when a route is registered again that had the lowest cost for its face, its new cost is
    above that of another route for the face, and no route for the face is inherited by
    children; in all other cases it returns.  Then the updates are sorted by whether they are
    for the face of the update, there is at most one for a name and a face, all are for the
    name of the update or for names below it, and the entries whose inherited routes change
    are there when the RIB has changed. *)
Theorem fib_updates_computed s asked x : reaches s asked ->
  let face := r_faceId (ru_route x) in
  let r := computeUpdates (mkRibUpdateBatch face [x]) (sv_rib s) (mkFibUpdater face [] [] []) in
  if update_follows_null x (sv_rib s) then r = Err (UndefinedBehaviour "null route")
  else exists u, r = Ok u /\
    (forall y, y ∈ u_updatesForBatchFaceId u -> fu_faceId y = face /\ ru_name x `prefix_of` fu_name y) /\
    (forall y, y ∈ u_updatesForNonBatchFaceId u -> fu_faceId y <> face /\ ru_name x `prefix_of` fu_name y) /\
    NoDup (target <$> u_updatesForBatchFaceId u ++ u_updatesForNonBatchFaceId u) /\
    (forall y, y ∈ u_inheritedRoutes u -> update_routes x (routes_of (sv_rib s)) (ru_name y) <> []).
Proof.
  intros [I _]%reaches_inv face r. pose proof (computeUpdate_ok (sv_rib s) (st_rib _ (si_settled _ I)) face x _ (batch_wf _ _ _)) as Hc.
  unfold r, computeUpdates. cbn [b_updates foldl]. destruct (update_follows_null x (sv_rib s)); [done|]. destruct Hc as (u & -> & [W1 W2 W3 W4 W5 W6]). exists u. split; [done|].
  rewrite !Forall_forall in *. split; [done|]. split; [done|]. split; [|done]. rewrite fmap_app. apply NoDup_app. split; [done|]. split; [|done].
  intros t (y & -> & Hy)%list_elem_of_fmap (z & Ez & Hz)%list_elem_of_fmap. apply W2 in Hy as [Hy _]. apply W3 in Hz as [Hz _]. apply Hz. injection Ez as _ Ef. congruence.
Qed.
End events.

(** ** What the FIB holds *)
Lemma made_made_inv `{StdSort} o s fib : made o s fib -> made_inv o s fib.
Proof.
  induction 1 as [|s fib x u l s1 s2 _ IH Hx Eu Hl E1 E2].
  - split; [apply rib_new_inv|done|done|done].
  - destruct (made_step o s fib x IH Hx) as (u' & s1' & s2' & Eu' & E1' & E2' & Hm). assert (u' = u) as -> by congruence. assert (s1' = s1) as -> by congruence. assert (s2' = s2) as -> by congruence. by apply Hm.
Qed.

(** C29: Let the updates be registrations of routes of one origin whose only flag is that
    children inherit them (as routes registered by command have by default, and without
    capture), and unregistrations for names that have no other route; no face is removed
    ([plain_update]).  Then after every update the FIB holds exactly what it should, in
    whatever order the FIB updates reach it: a name with routes has, for each face, the cost
    of the route for this face at the longest prefix of the name that has one, and other names
    have no next hops; and making the next update of this kind does not fail. *)
Theorem fib_follows_rib `{StdSort} o s fib : made o s fib ->
  (forall n f, fib n f = wanted (routes_of s) n f) /\
  forall x, plain_update o (routes_of s) x -> exists u s1 s2,
    computeUpdates (mkRibUpdateBatch (r_faceId (ru_route x)) [x]) s (mkFibUpdater (r_faceId (ru_route x)) [] [] []) = Ok u /\
    apply_update (Ok s) x = Ok s1 /\ modifyInheritedRoutes (u_inheritedRoutes u) s1 = Ok s2.
Proof.
  intros I%made_made_inv. split; [apply I|]. intros x Hx. destruct (made_step o s fib x I Hx) as (u & s1 & s2 & Eu & E1 & E2 & _). by exists u, s1, s2.
Qed.

(** ** Sample runs *)
Definition sample_name (l : list string) : Name := (fun x => mkComponent GenericNameComponent (str x)) <$> l.
Definition sample_route (face cost flags : Z) : Route := mkRoute face 0 cost flags None None 0 None.
Definition register (l : list string) (face cost flags : Z) : RibUpdate := mkRibUpdate REGISTER (sample_name l) (sample_route face cost flags).
Definition unregister (l : list string) (face : Z) : RibUpdate := mkRibUpdate UNREGISTER (sample_name l) (sample_route face 0 0).

(** One update with its FIB updates. *)
Definition make (r : result (Rib * (Name -> Z -> option Z))) (x : RibUpdate) : result (Rib * (Name -> Z -> option Z)) :=
  let* (s, fib) := r in
  let* u := computeUpdates (mkRibUpdateBatch (r_faceId (ru_route x)) [x]) s (mkFibUpdater (r_faceId (ru_route x)) [] [] []) in
  let* s := apply_update (Ok s) x in
  let* s := modifyInheritedRoutes (u_inheritedRoutes u) s in
  Ok (s, foldl fib_apply fib (u_updatesForBatchFaceId u ++ u_updatesForNonBatchFaceId u)).
Definition compare (l : list RibUpdate) (n : Name) (f : Z) : result (option Z * option Z) :=
  let* (s, fib) := foldl make (Ok (Rib_new, fun _ _ => None)) l in Ok (fib n f, wanted (routes_of s) n f).
Definition run (l : list event) : result RibService := foldl (fun r ev => let* s := r in handle ev s) (Ok RibService_new) l.

(** C38: Beyond that the FIB does not follow the RIB.  Let a RIB and FIB be made by updates
    of the kind above, and let the next update unregister a route of a name that keeps
    another route, for another face, for which a prefix of the name has a route too.  Then
    every descendant that inherits the kept route has the next hop with the cost of the kept
    route before the update, should have it after the update, and gets the cost of the
    prefix's route instead, in whatever order the FIB updates are applied. *)
Theorem kept_route_overridden `{StdSort} o s fib x m h kept upper (Hm : made o s fib) (Hx : ru_action x = UNREGISTER)
    (Hr : find_first (same_route (ru_route x)) (routes_of s (ru_name x)) <> None) (Hh : h <> r_faceId (ru_route x))
    (Hk : of_face (routes_of s (ru_name x)) h = Some kept) (Hu : above (routes_of s) (ru_name x) h = Some upper)
    (Hd : routes_of s m <> []) (Hs : strict (ru_name x) m)
    (Hf : forall p, strict (ru_name x) p -> p `prefix_of` m -> of_face (routes_of s p) h = None) :
  exists u s1 s2, computeUpdates (mkRibUpdateBatch (r_faceId (ru_route x)) [x]) s (mkFibUpdater (r_faceId (ru_route x)) [] [] []) = Ok u /\
    apply_update (Ok s) x = Ok s1 /\ modifyInheritedRoutes (u_inheritedRoutes u) s1 = Ok s2 /\
    fib m h = Some (r_cost kept) /\ wanted (routes_of s2) m h = Some (r_cost kept) /\
    forall l, l ≡ₚ u_updatesForBatchFaceId u ++ u_updatesForNonBatchFaceId u -> foldl fib_apply fib l m h = Some (r_cost upper).
Proof. by apply (kept_overridden o s fib x m h kept upper); [apply made_made_inv|..]. Qed.

(** When a name loses one of its routes and keeps another, its descendant gets the cost of an
    ancestor. *)
Example kept_route_run :
  compare [register [] 2 5 1; register ["a"] 1 7 1; register ["a"] 2 9 1; register ["a"; "b"] 3 1 1; unregister ["a"] 1] (sample_name ["a"; "b"]) 2 = Ok (Some 5, Some 9).
Proof. vm_compute. reflexivity. Qed.
(** When a prefix loses a route, a name below loses the next hop of its own route for the
    same face, if this route is not inherited by children. *)
Example own_route_lost :
  compare [register ["a"] 1 7 1; register ["a"; "b"] 2 1 1; register ["a"; "b"] 1 4 0; unregister ["a"] 1] (sample_name ["a"; "b"]) 1 = Ok (None, Some 4).
Proof. vm_compute. reflexivity. Qed.

(** The second command for a face that does not exist is answered while the next update is
    being made. *)
Definition rejected_run : list event :=
  [Update (register ["a"; "b"] 3 1 1) None None; Answer 0 None;
   Update (register ["a"] 9 1 1) (Some 1%nat) (Some 2%nat); Update (register ["c"] 4 1 1) None None;
   Answer 0 (Some ERROR_FACE_NOT_FOUND); Answer 0 (Some ERROR_FACE_NOT_FOUND)].

(** The first answer ends the update and begins the next one. *)
Lemma first_rejection `{StdSort} s item x i y1 next u : service_inv s -> busy item x s ->
  sv_sent s !! i = Some y1 -> fu_faceId (c_update y1) = u_batchFaceId (sv_updater s) ->
  sv_updateBatches s = [next] -> computeUpdates (q_batch next) (sv_rib s) (mkFibUpdater (b_faceId (q_batch next)) [] [] []) = Ok u ->
  u_updatesForBatchFaceId u <> [] ->
  exists k, handle (Answer i (Some ERROR_FACE_NOT_FOUND)) s =
      Ok (mkRibService (sv_rib s) u [] true (delete i (sv_sent s) ++ k) (sv_outcomes s ++ [(item, FailedWith ERROR_FACE_NOT_FOUND)])) /\
    c_update <$> k = u_updatesForBatchFaceId u.
Proof.
  intros I Hb Hi Hf Hn Hu Hne. cbn [handle]. rewrite Hi. pose proof (proj1 (Forall_forall _ _) (bs_items _ _ _ Hb) y1 (list_elem_of_lookup_2 _ _ _ Hi)) as Hit.
  unfold onUpdateError. change (ERROR_FACE_NOT_FOUND =? ERROR_TIMEOUT) with false. rewrite Z.eqb_refl. cbn [andb with_sent sv_updater]. rewrite (proj2 (Z.eqb_eq _ _) Hf).
  unfold onFibUpdateFailure, sendBatchFromQueue. cbn [settle with_inProgress with_sent sv_updateBatches]. rewrite Hn, Hit. cbn [send_from sv_isUpdateInProgress with_batches with_inProgress].
  pose proof (si_single _ I) as Hsg. rewrite Hn in Hsg. apply Forall_cons in Hsg as [[z Ez] _]. rewrite Ez. change (zlen [z] =? 1) with true. cbn iota.
  unfold computeAndSendFibUpdates. cbn [with_batches with_inProgress settle with_sent sv_rib]. rewrite Hu. cbn [mbind result_bind].
  unfold sendUpdatesForBatchFaceId. cbn [with_updater sv_updater]. rewrite zlen_nonempty. destruct (u_updatesForBatchFaceId u) as [|f l] eqn:El; [done|].
  edestruct (sendUpdates_spec (f :: l) next) as (k & -> & Ek & _). cbn [mbind result_bind]. exists k. split; [done|]. done.
Qed.

(** A late answer to a command of an update that has failed. *)
Lemma late_rejection `{StdSort} s item x j y : settled_inv s -> b_updates (q_batch item) = [x] -> sv_sent s !! j = Some y -> c_item y = item ->
  fu_faceId (c_update y) <> u_batchFaceId (sv_updater s) -> u_updatesForNonBatchFaceId (sv_updater s) = [] -> sv_updateBatches s = [] ->
  Forall (fun z => update_routes x (routes_of (sv_rib s)) (ru_name z) <> []) (u_inheritedRoutes (sv_updater s)) ->
  exists rib, handle (Answer j (Some ERROR_FACE_NOT_FOUND)) s = Ok (mkRibService rib (sv_updater s) [] false (delete j (sv_sent s)) (sv_outcomes s ++ [(item, Succeeded)])) /\
    forall n, routes_of rib n = update_routes x (routes_of (sv_rib s)) n.
Proof.
  intros Hst Hx Hj Ei Hf Hn Hb Hi. cbn [handle]. rewrite Hj. unfold onUpdateError. change (ERROR_FACE_NOT_FOUND =? ERROR_TIMEOUT) with false. rewrite Z.eqb_refl. cbn [andb with_sent sv_updater].
  rewrite (proj2 (Z.eqb_neq _ _) Hf). unfold done_nonBatch. set (s' := with_updater _ _). assert (Hu : sv_updater s' = sv_updater s) by (unfold s', on_nonBatch; cbn; clear -Hn; destruct (sv_updater s) as [b l k t]; cbn in *; by rewrite Hn).
  rewrite Hu, Hn. change (zlen [] =? 0) with true. cbn iota. unfold onFibUpdateSuccess. rewrite Ei.
  assert (Hst' : settled_inv s') by (destruct Hst; by split). destruct (complete_ok item x s' Hst' Hx) as (rib & -> & [_ Hr]); [by rewrite Hu|].
  cbn [mbind result_bind]. exists rib. split.
  - unfold sendBatchFromQueue. cbn [settle with_inProgress with_rib sv_updateBatches]. change (sv_updateBatches s') with (sv_updateBatches s). rewrite Hb. cbn [send_from]. unfold with_batches, settle, with_inProgress, with_rib. rewrite <-Hu. done.
  - intros n. specialize (Hr n). cbn in Hr. rewrite Hr, applied_snoc. unfold applied_step. cbn [fst snd]. rewrite Hx. cbn [foldl]. apply update_routes_ext. intros q. symmetry. apply Hst.
Qed.

Lemma elem_of_delete_app {A} (l k : list A) j y : (j < length l)%nat -> y ∈ k -> y ∈ delete j (l ++ k).
Proof. revert j. induction l as [|z l IH]; intros [|j] Hj Hy; cbn in *; [lia|lia|apply elem_of_app; by right|right; apply IH; [lia|done]]. Qed.

(** C39: An update whose face does not exist can be refused and made all the same.  Let two
    commands for the face of an update be out, and let one other update wait, for another
    face, whose FIB updates are all for its own face and whose inheriting names are
    registered.  When both commands are answered that the face does not exist, in any order,
    the first answer makes the update fail, without a change of the RIB, and begins the other
    one; the second answer makes the failed update succeed: its change is made to the routes,
    both callbacks of the manager are called, and no update is in progress although the
    commands of the other one are still out. *)
Theorem rejected_route_registered `{StdSort} s asked x i j y1 y2 next u (Hr : reaches s asked)
    (H1 : sv_sent s !! i = Some y1) (H2 : delete i (sv_sent s) !! j = Some y2) (Hx : b_updates (q_batch (c_item y1)) = [x])
    (Hf : fu_faceId (c_update y1) = u_batchFaceId (sv_updater s)) (Hq : sv_updateBatches s = [next])
    (Hu : computeUpdates (q_batch next) (sv_rib s) (mkFibUpdater (b_faceId (q_batch next)) [] [] []) = Ok u)
    (Hne : u_updatesForBatchFaceId u <> []) (Hnb : u_updatesForNonBatchFaceId u = [])
    (Hd : u_batchFaceId u <> u_batchFaceId (sv_updater s))
    (Hi : Forall (fun z => update_routes x (routes_of (sv_rib s)) (ru_name z) <> []) (u_inheritedRoutes u)) :
  exists s1 s2, handle (Answer i (Some ERROR_FACE_NOT_FOUND)) s = Ok s1 /\ handle (Answer j (Some ERROR_FACE_NOT_FOUND)) s1 = Ok s2 /\
    sv_rib s1 = sv_rib s /\ (forall n, routes_of (sv_rib s2) n = update_routes x (routes_of (sv_rib s)) n) /\
    sv_outcomes s2 = sv_outcomes s ++ [(c_item y1, FailedWith ERROR_FACE_NOT_FOUND); (c_item y1, Succeeded)] /\
    sv_isUpdateInProgress s2 = false /\ (forall f, f ∈ u_updatesForBatchFaceId u -> exists y, y ∈ sv_sent s2 /\ c_update y = f).
Proof.
  destruct (reaches_inv s asked Hr) as [I _].
  assert (exists item x', busy item x' s) as (item & x' & Hb) by (destruct (si_phase _ I) as [(_ & E & _)|(item & x' & Hb & _)]; [by rewrite E in H1|by exists item, x']).
  pose proof (proj1 (Forall_forall _ _) (bs_items _ _ _ Hb)) as Hit. pose proof (Hit y1 (list_elem_of_lookup_2 _ _ _ H1)) as Ei.
  assert (Hy2 : y2 ∈ sv_sent s) by (rewrite (delete_Permutation _ _ _ H1); right; by apply list_elem_of_lookup_2 in H2).
  pose proof (Hit y2 Hy2) as Ei2. assert (Hf2 : fu_faceId (c_update y2) = u_batchFaceId (sv_updater s)).
  { destruct (bs_updates _ _ _ Hb) as [W1 W2 W3 _ _ _]. rewrite Forall_forall in W2, W3. rewrite W1 in Hf |- *. pose proof (list_elem_of_fmap_2 c_update _ _ Hy2) as Hm2.
    pose proof (list_elem_of_fmap_2 c_update _ _ (list_elem_of_lookup_2 _ _ _ H1)) as Hm1. destruct (bs_outstanding _ _ _ Hb) as [Ho|[_ Ho]]; rewrite Ho in Hm1, Hm2; [by apply W2|by apply W3 in Hm1 as [? _]]. }
  destruct (first_rejection s item x' i y1 next u I Hb H1 Hf Hq Hu Hne) as (k & E1 & Ek). set (s1 := mkRibService _ _ _ _ _ _) in *.
  assert (Hst : settled_inv s1). { destruct (si_settled _ I) as [A B]. split; [done|]. intros n. cbn [s1 sv_rib sv_outcomes]. rewrite B, applied_snoc. done. }
  rewrite Ei in Hx. destruct (late_rejection s1 item x j y2) as (rib & E2 & Hrib); try done; [by apply lookup_app_l_Some|by cbn; congruence|].
  eexists _, _. split; [exact E1|]. split; [exact E2|]. split; [done|]. split; [exact Hrib|]. rewrite Ei. split; [cbn; by rewrite <-app_assoc|]. split; [done|].
  intros f Hin. rewrite <-Ek in Hin. apply list_elem_of_fmap in Hin as (y & -> & Hy). exists y. split; [|done]. cbn [sv_sent]. apply elem_of_delete_app; [by eapply lookup_lt_Some|done].
Qed.

Example rejected_run_state :
  match run rejected_run with
  | Ok s => (snd <$> sv_outcomes s) = [Succeeded; FailedWith 410; Succeeded] /\ nth_error (sv_outcomes s).*1 1 = nth_error (sv_outcomes s).*1 2 /\
            (r_faceId <$> routes_of (sv_rib s) (sample_name ["a"])) = [9] /\ sv_isUpdateInProgress s = false /\ (fu_faceId <$> (c_update <$> sv_sent s)) = [4]
  | Err _ => False
  end.
Proof. vm_compute. repeat split. Qed.

(** A route is registered again with a higher cost than the other route for its face. *)
Example null_route_followed :
  compare [register ["a"] 1 10 0; mkRibUpdate REGISTER (sample_name ["a"]) (mkRoute 1 255 20 0 None None 0 None); register ["a"] 1 30 0] (sample_name ["a"]) 1 =
  Err (UndefinedBehaviour "null route").
Proof. vm_compute. reflexivity. Qed.
(** A route is registered again with the capture flag and then unregistered: the number of
    routes with this flag is below zero, which is far above it. *)
Example capture_count_underflows :
  (let* s := foldl apply_update (Ok Rib_new) [register ["a"] 1 1 0; register ["a"] 2 1 1; register ["a"] 1 1 2; unregister ["a"] 1] in
   Ok (re_nRoutesWithCaptureSet <$> rib_table s !! sample_name ["a"])) = Ok (Some (2 ^ 64 - 1)).
Proof. vm_compute. reflexivity. Qed.
(** The command to remove a next hop times out, and a next hop with cost 0 is added instead. *)
Example removal_repeated_as_addition :
  (let* s := run [Update (register ["a"] 1 7 1) None None; Answer 0 None; Update (unregister ["a"] 1) None None; Answer 0 (Some ERROR_TIMEOUT)] in
   Ok ((fun y => (c_verb y, fu_action (c_update y), fu_cost (c_update y))) <$> sv_sent s)) = Ok [(ADD_NEXTHOP, REMOVE_NEXTHOP, 0)].
Proof. vm_compute. reflexivity. Qed.

(** ** Runs that meet the hypotheses *)
Definition cleanb (ev : event) (s : RibService) : bool :=
  match ev with
  | Answer i (Some code) =>
    match sv_sent s !! i with
    | Some y => negb ((code =? ERROR_FACE_NOT_FOUND) && (fu_faceId (c_update y) =? u_batchFaceId (sv_updater s))) || (length (sv_sent s) =? 1)%nat
    | None => true
    end
  | _ => true
  end.
Lemma cleanb_clean ev s : cleanb ev s = true -> clean ev s.
Proof.
  destruct ev as [| | |i [code|]]; try done. cbn. intros Hc y Hy -> Hf. rewrite Hy in Hc. rewrite (proj2 (Z.eqb_eq _ _) Hf) in Hc. by apply Nat.eqb_eq.
Qed.
Fixpoint run_clean (l : list event) (s : RibService) (asked : list UpdateQueueItem) : option (RibService * list UpdateQueueItem) :=
  match l with
  | [] => Some (s, asked)
  | ev :: l => if cleanb ev s then match handle ev s with Ok s' => run_clean l s' (asked ++ requested ev s) | Err _ => None end else None
  end.
Lemma run_reaches l : forall s asked s' asked', reaches s asked -> run_clean l s asked = Some (s', asked') -> reaches s' asked'.
Proof.
  induction l as [|ev l IH]; intros s asked s' asked' Hr; cbn [run_clean]; [by intros [= <- <-]|]. destruct (cleanb ev s) eqn:Ec; [|done]. destruct (handle ev s) as [s1|] eqn:E; [|done].
  apply IH. eapply reaches_event; [done|by apply cleanb_clean|done].
Qed.
(** Two names, of which one inherits the route of the other; a face that goes; a timeout; a
    rejected route; and two updates that are not settled at the end. *)
Definition sample_events : list event :=
  [Update (register ["a"; "b"] 3 1 1) (Some 1%nat) None; Answer 0 None; Update (register ["a"] 1 7 1) None None; Update (register ["c"] 9 1 1) None (Some 2%nat);
   Answer 1 None; Answer 0 (Some ERROR_TIMEOUT); Answer 0 None; Answer 0 (Some ERROR_FACE_NOT_FOUND); RemoveFace 3;
   Update (register ["a"; "b"] 2 1 1) None None; Update (unregister ["a"] 1) None None].
Definition sample_service : option (RibService * list UpdateQueueItem) := run_clean sample_events RibService_new [].
Lemma sample_reaches s asked : sample_service = Some (s, asked) -> reaches s asked.
Proof. apply run_reaches, reaches_new. Qed.
Lemma sample_service_runs : is_some sample_service = true.
Proof. vm_compute. reflexivity. Qed.
Example sample_service_state :
  match sample_service with
  | Some (s, asked) => (length asked, snd <$> sv_outcomes s, length (sv_sent s), length (sv_updateBatches s)) = (6%nat, [Succeeded; Succeeded; FailedWith 410], 1%nat, 2%nat)
  | None => False
  end.
Proof. vm_compute. reflexivity. Qed.
Lemma rib_queue_in_order_witness :
  match sample_service with
  | Some (s, asked) => (sv_outcomes s).*1 ++ current s ++ sv_updateBatches s = asked /\ forall n, routes_of (sv_rib s) n = applied (sv_outcomes s) n
  | None => False
  end.
Proof.
  pose proof sample_service_runs as Hs. destruct sample_service as [[s asked]|] eqn:E; [|discriminate Hs].
  destruct (rib_queue_in_order s asked (sample_reaches s asked E)) as (H1 & _ & H2 & _). split; [exact H1|exact H2].
Defined.
Lemma rib_events_answered_witness :
  match sample_service with
  | Some (s, asked) => (exists s', handle (Answer 0 None) s = Ok s' /\ reaches s' (asked ++ [])) \/ handle (Answer 0 None) s = Err (UndefinedBehaviour "null route")
  | None => False
  end.
Proof.
  pose proof sample_service_runs as Hs. destruct sample_service as [[s asked]|] eqn:E; [|discriminate Hs].
  exact (rib_events_answered s asked (Answer 0 None) (sample_reaches s asked E) Logic.I).
Defined.
Lemma rib_queue_drains_witness :
  match sample_service with
  | Some (s, asked) => exists k, match answer_all k s with
                                 | Ok s' => idle s' /\ (sv_outcomes s').*1 = asked /\ forall n, routes_of (sv_rib s') n = applied (sv_outcomes s') n
                                 | Err e => e = UndefinedBehaviour "null route"
                                 end
  | None => False
  end.
Proof.
  pose proof sample_service_runs as Hs. destruct sample_service as [[s asked]|] eqn:E; [|discriminate Hs]. exact (rib_queue_drains s asked (sample_reaches s asked E)).
Defined.

(** Updates of the kind for which the FIB follows the RIB. *)
Definition plainb (o : Z) (R : Name -> list Route) (x : RibUpdate) : bool :=
  match ru_action x with
  | REGISTER => (r_flags (ru_route x) =? ROUTE_FLAG_CHILD_INHERIT) && (r_origin (ru_route x) =? o)
  | UNREGISTER => (length (R (ru_name x)) <=? 1)%nat
  | REMOVE_FACE => false
  end.
Lemma plainb_plain o R x : plainb o R x = true -> plain_update o R x.
Proof. unfold plainb, plain_update, plain_route. destruct (ru_action x); [rewrite andb_true_iff, !Z.eqb_eq; done|apply Nat.leb_le|done]. Qed.
Fixpoint make_plain (o : Z) (l : list RibUpdate) (s : Rib) (fib : Name -> Z -> option Z) : option (Rib * (Name -> Z -> option Z)) :=
  match l with
  | [] => Some (s, fib)
  | x :: l => if plainb o (routes_of s) x then match make (Ok (s, fib)) x with Ok (s', fib') => make_plain o l s' fib' | Err _ => None end else None
  end.
Lemma make_plain_made o l : forall s fib s' fib', made o s fib -> make_plain o l s fib = Some (s', fib') -> made o s' fib'.
Proof.
  induction l as [|x l IH]; intros s fib s' fib' Hm; cbn [make_plain]; [by intros [= <- <-]|]. destruct (plainb o (routes_of s) x) eqn:Ep; [|done]. apply plainb_plain in Ep.
  unfold make. cbn [mbind result_bind]. destruct (computeUpdates _ s _) as [u|] eqn:Eu; [|done]. cbn [mbind result_bind]. destruct (apply_update (Ok s) x) as [s1|] eqn:E1; [|done]. cbn [mbind result_bind].
  destruct (modifyInheritedRoutes _ s1) as [s2|] eqn:E2; [|done]. cbn [mbind result_bind]. apply IH. by apply (made_update o s fib x u _ s1 s2).
Qed.
Definition sample_updates : list RibUpdate :=
  [register [] 2 5 1; register ["a"; "b"; "c"] 3 1 1; register ["a"] 1 7 1; register ["a"; "b"] 2 9 1; register ["a"] 2 8 1; register ["a"; "b"] 2 4 1; unregister ["a"; "b"] 2; unregister [] 2].
Definition sample_made : option (Rib * (Name -> Z -> option Z)) := make_plain 0 sample_updates Rib_new (fun _ _ => None).
Lemma sample_made_runs : is_some sample_made = true.
Proof. vm_compute. reflexivity. Qed.
Example sample_made_costs :
  match sample_made with
  | Some (s, fib) => (fun f => (fib (sample_name ["a"; "b"; "c"]) f, fib (sample_name ["a"; "b"]) f, fib (sample_name []) f)) <$> [1; 2; 3] =
                     [(Some 7, None, None); (Some 8, None, None); (Some 1, None, None)]
  | None => False
  end.
Proof. vm_compute. reflexivity. Qed.
Lemma fib_follows_rib_witness : match sample_made with Some (s, fib) => forall n f, fib n f = wanted (routes_of s) n f | None => False end.
Proof.
  pose proof sample_made_runs as Hs. destruct sample_made as [[s fib]|] eqn:E; [|discriminate Hs].
  exact (proj1 (fib_follows_rib 0 s fib (make_plain_made 0 sample_updates Rib_new (fun _ _ => None) s fib (made_new 0) E))).
Defined.

(** The RIB before the route of ["a"] on face 1 goes. *)
Definition kept_updates : list RibUpdate := [register [] 2 5 1; register ["a"] 1 7 1; register ["a"] 2 9 1; register ["a"; "b"] 3 1 1].
Definition kept_made : option (Rib * (Name -> Z -> option Z)) := make_plain 0 kept_updates Rib_new (fun _ _ => None).
Lemma kept_made_facts :
  match kept_made with
  | Some (s, _) => is_some (find_first (same_route (ru_route (unregister ["a"] 1))) (routes_of s (sample_name ["a"]))) = true /\
      of_face (routes_of s (sample_name ["a"])) 2 = Some (sample_route 2 9 1) /\ above (routes_of s) (sample_name ["a"]) 2 = Some (sample_route 2 5 1) /\
      routes_of s (sample_name ["a"; "b"]) = [sample_route 3 1 1]
  | None => False
  end.
Proof. vm_compute. repeat split. Qed.
Lemma strict_below n c p : strict n p -> p `prefix_of` n ++ [c] -> p = n ++ [c].
Proof. intros Hs Hp. apply prefix_length_eq; [done|]. apply strict_length in Hs. rewrite length_app. cbn. lia. Qed.
Lemma kept_route_overridden_witness :
  match kept_made with
  | Some (s, fib) => exists u s1 s2, computeUpdates (mkRibUpdateBatch 1 [unregister ["a"] 1]) s (mkFibUpdater 1 [] [] []) = Ok u /\
      apply_update (Ok s) (unregister ["a"] 1) = Ok s1 /\ modifyInheritedRoutes (u_inheritedRoutes u) s1 = Ok s2 /\
      wanted (routes_of s2) (sample_name ["a"; "b"]) 2 = Some 9 /\
      foldl fib_apply fib (u_updatesForBatchFaceId u ++ u_updatesForNonBatchFaceId u) (sample_name ["a"; "b"]) 2 = Some 5
  | None => False
  end.
Proof.
  pose proof kept_made_facts as Hk. destruct kept_made as [[s fib]|] eqn:E; [|destruct Hk]. destruct Hk as (K1 & K2 & K3 & K4).
  assert (Hst : strict (sample_name ["a"]) (sample_name ["a"; "b"])) by (split; [by exists [mkComponent GenericNameComponent (str "b")]|discriminate]).
  destruct (kept_route_overridden 0 s fib (unregister ["a"] 1) (sample_name ["a"; "b"]) 2 (sample_route 2 9 1) (sample_route 2 5 1)
    (make_plain_made 0 kept_updates Rib_new (fun _ _ => None) s fib (made_new 0) E)) as (u & s1 & s2 & H1 & H2 & H3 & _ & H4 & H5).
  - reflexivity.
  - intros Hn. change (ru_name (unregister ["a"] 1)) with (sample_name ["a"]) in Hn. rewrite Hn in K1. discriminate K1.
  - discriminate.
  - exact K2.
  - exact K3.
  - rewrite K4. discriminate.
  - exact Hst.
  - intros p Hp Hm. rewrite (strict_below (sample_name ["a"]) (mkComponent GenericNameComponent (str "b")) p Hp Hm).
    change (sample_name ["a"] ++ [mkComponent GenericNameComponent (str "b")]) with (sample_name ["a"; "b"]). rewrite K4. reflexivity.
  - exists u, s1, s2. split; [exact H1|]. split; [exact H2|]. split; [exact H3|]. split; [exact H4|]. exact (H5 _ (Permutation_refl _)).
Defined.

(** The state before the two answers. *)
Definition rejected_state : option (RibService * list UpdateQueueItem) := run_clean (take 4 rejected_run) RibService_new [].
Definition rejected_item : UpdateQueueItem := single_item (register ["a"] 9 1 1) (Some 1%nat) (Some 2%nat).
Definition rejected_command (l : list string) : Command := mkCommand ADD_NEXTHOP (createAddUpdate (sample_name l) 9 1) rejected_item 0.
Definition waiting_item : UpdateQueueItem := single_item (register ["c"] 4 1 1) None None.
Definition waiting_updates : FibUpdater := mkFibUpdater 4 [createAddUpdate (sample_name ["c"]) 4 1] [] [].
Lemma rejected_state_facts :
  match rejected_state with
  | Some (s, _) => sv_sent s = [rejected_command ["a"]; rejected_command ["a"; "b"]] /\ sv_updateBatches s = [waiting_item] /\ u_batchFaceId (sv_updater s) = 9 /\
      computeUpdates (q_batch waiting_item) (sv_rib s) (mkFibUpdater 4 [] [] []) = Ok waiting_updates
  | None => False
  end.
Proof. vm_compute. repeat split. Qed.
Lemma rejected_route_registered_witness :
  match rejected_state with
  | Some (s, _) => exists s1 s2, handle (Answer 0 (Some 410)) s = Ok s1 /\ handle (Answer 0 (Some 410)) s1 = Ok s2 /\
      sv_outcomes s2 = sv_outcomes s ++ [(rejected_item, FailedWith 410); (rejected_item, Succeeded)]
  | None => False
  end.
Proof.
  pose proof rejected_state_facts as Hk. destruct rejected_state as [[s asked]|] eqn:E; [|destruct Hk]. destruct Hk as (K1 & K2 & K3 & K4).
  destruct (rejected_route_registered s asked (register ["a"] 9 1 1) 0 0 (rejected_command ["a"]) (rejected_command ["a"; "b"]) waiting_item waiting_updates
    (run_reaches _ _ _ _ _ reaches_new E)) as (s1 & s2 & H1 & H2 & _ & _ & H3 & _).
  - rewrite K1. reflexivity.
  - rewrite K1. reflexivity.
  - reflexivity.
  - rewrite K3. reflexivity.
  - exact K2.
  - exact K4.
  - discriminate.
  - reflexivity.
  - rewrite K3. discriminate.
  - constructor.
  - exists s1, s2. split; [exact H1|]. split; [exact H2|exact H3].
Defined.
